(* ===== verification/_CoqProject ===== *)
-Q . S2P
Prelude.v
Coding.v
Comparator.v
Logging.v
CrcTables.v
Crc32c.v
Bloom.v
DbFormat.v
Status.v
LogWriter.v
LogReader.v
LogReplay.v
Random.v
SkipList.v
MemTable.v
WriteBatch.v
VersionEdit.v
Filename.v
Iterator.v
BlockBuilder.v
Block.v
Format.v
FilterBlock.v
IteratorWrapper.v
Merger.v
TwoLevelIterator.v
UserView.v
MemIter.v
DBIter.v
Options.v
TableBuilder.v
Table.v
Version.v
VersionGet.v
Overlap.v
InternalTable.v
TableCache.v
BuildTable.v
MemoryFiles.v
Compaction.v
InputIterator.v
CompactionDrop.v
VersionBuilder.v
HandleTable.v
Cache.v
VersionSet.v
Manifest.v
Install.v
Levels.v
InputLaws.v
DBImpl.v
Repair.v
Obsolete.v
DBGet.v
LSM.v
Invariant.v
InstallEdit.v
Evolve.v
Recovery.v
LogRecovery.v
CompactMemTable.v
ReadStability.v
DoCompaction.v
CompactionRun.v
CompactionLoop.v
CompactionInstall.v
CompactionInput.v
CompactionChoice.v
CompactionWork.v
Background.v
NewIterator.v
RepairSpec.v
Memenv.v
WriteQueue.v
WriteSafety.v
WriteLive.v
Durability.v
