(* ===== verification/Prelude.v ===== *)
(** * leveldb: a verified model

    LevelDB is a library that keeps a sorted map on disk.  A write goes to a log and
    into a memtable; a full memtable becomes a sorted table; tables are arranged in
    levels and merged by compactions in the background; a manifest records which
    tables make up the current version; reads and iterators search the memtables and
    the version.  This development models that program and proves what makes it
    correct.  This file holds what all the others share: bytes, machine integers,
    lemmas on lists and options, tactics.

    ** The parts, bottom up

    - Encodings and keys: Coding.v (src/util/coding), Comparator.v (slices, the
      comparator interface, src/util/comparator.cc), Logging.v, CrcTables.v and
      Crc32c.v (src/util/crc32c), Bloom.v (src/util/hash, src/util/bloom.cc),
      DbFormat.v (src/db/dbformat), Random.v, Status.v (src/util/status.cc and the
      files of src/include/leveldb/env.h), Options.v, Filename.v.
    - The log: LogWriter.v, LogReader.v (src/db/log_writer, src/db/log_reader), and
      LogReplay.v, the loop in which both recoveries read one.
    - In memory: SkipList.v, MemTable.v, MemIter.v, WriteBatch.v.
    - Tables: BlockBuilder.v, Block.v, Format.v, FilterBlock.v, TableBuilder.v,
      Table.v (src/table), InternalTable.v (tables of internal keys), BuildTable.v
      (src/db/builder.cc), TableCache.v, HandleTable.v and Cache.v
      (src/util/cache.cc at the level of its pointers).
    - Iterators: Iterator.v (the interface as the class [Iterator], with
      [IteratorLaws]: a cursor in a sorted list), IteratorWrapper.v, Merger.v,
      TwoLevelIterator.v, DBIter.v, UserView.v (what DBIter.v refines),
      InputIterator.v and InputLaws.v (the iterators over tables and levels).
    - Versions: VersionEdit.v, Version.v, VersionGet.v, Overlap.v, VersionBuilder.v,
      VersionSet.v, Manifest.v, Install.v, Levels.v (src/db/version_edit,
      src/db/version_set); Compaction.v and CompactionChoice.v (what to compact).
    - The database (src/db/db_impl.cc): DBImpl.v (the members), WriteQueue.v (Write
      and MakeRoomForWrite), DBGet.v, NewIterator.v, Recovery.v, CompactMemTable.v,
      DoCompaction.v and CompactionDrop.v, Obsolete.v; InstallEdit.v is LogAndApply
      seen from there.  Repair.v is src/db/repair.cc and DestroyDB.
    - Memenv.v is src/helpers/memenv/memenv.cc, an environment in memory.

    The remaining files hold specifications and proofs: LSM.v (what a database
    holds), Invariant.v (the invariant, and what the background thread relies on),
    Evolve.v, LogRecovery.v, ReadStability.v, CompactionRun.v, CompactionLoop.v,
    CompactionInstall.v, CompactionInput.v, CompactionWork.v, Background.v,
    RepairSpec.v, WriteSafety.v, WriteLive.v, Durability.v; MemoryFiles.v has the
    instances that witnesses run on.

    ** How the code is modelled

    - An operation of a class is a function from the object's state to the result
      and the new state; [None] is a failed assertion, undefined behaviour, or too
      little fuel, and the theorems show that the result is [Some].  An error of the
      code is a [Status], or the value the code returns for it.
    - Integers are [Z] with the wrap-around of their width written out ([u32],
      [u64], [s64], ...); a string or a slice is a list of bytes.
    - Virtual interfaces are classes of operations with classes of laws: Comparator,
      FilterPolicy, Iterator, files, environments, caches, table caches, compression
      libraries, the port's checksum.  Clients are proved against the laws;
      Comparator.v, Bloom.v, Block.v, MemIter.v, Merger.v, TwoLevelIterator.v,
      InputLaws.v and TableCache.v discharge them, and MemoryFiles.v shows that the
      rest can hold, with a cache that keeps everything.
    - Files: [WritableFileLaws] and [FileSystem] describe files that work;
      [FaultyFile] and [FaultyFileSystem] files on which creating, appending,
      flushing, syncing and closing may fail at any call, with [works] any condition
      under which they do not; [FiniteFile] a file whose reads may fail.  The
      compactions and LogAndApply are proved with files that fail; tables that exist
      can be read ([RandomAccessFileLaws], [ff_random]).
    - Threads: where an operation gives up the mutex, an argument [others n] is what
      the other threads do to the state there.  [rely] (Invariant.v) says what they
      may do: add newer entries, take file numbers, install nothing, hold and
      release versions, use the caches.  The write path is a machine of threads with
      one event for each stretch between two points without the mutex.  The skip
      list is read at every point between two stores of an insertion.
    - A budget [b] in the invariant counts the calls of the table cache and the file
      numbers that may still be taken before a 64-bit counter would wrap; it goes
      down with each operation, the others' included.
    - An open iterator over a table works on its own copies of the caches: what the
      caches hold does not change what is read.

    ** What is proved

    - Round trips: integers and slices, keys, batches, edits, file names, blocks,
      tables, the log (written and read back, whole or cut by a crash; reopened;
      corruption reported).
    - Refinement: the pointer-level cache refines an LRU cache; the memory
      environment refines files of bytes; the skip list, the merging, two-level and
      database iterators refine cursors in sorted lists; the checksum, the builder
      of versions and the range queries refine reference definitions.
    - The invariant of a database, kept by LogAndApply (also when it fails), by the
      compaction of the memtable, by background compactions and by the removal of
      obsolete files, whatever the other threads do and although files fail: every
      read at a snapshot that is held is answered as before, an error is recorded in
      the background error, and nothing is dropped that a reader could see.
    - Reads: Get and the iterators of NewIterator.v agree with the newest visible
      entry of the memtables and the version together.
    - Writes: the queue commits writes in order and in groups, nothing is lost
      between the memtables, every writer returns; what was acknowledged is
      recovered from the log and the manifest after a crash.
    - Termination and bounds: fuel is a natural number that a theorem shows to be
      enough: the bytes left of a file for the loops over it, the entries of the
      inputs for a compaction, the tables of a level for the boundary search, the
      nodes for the searches in a skip list, the steps counted in WriteLive.v.

    ** What is not modelled

    The environments of the operating systems and their loggers, the arena and lock
    wrappers, the C interface, the tools that dump files, benchmarks, histograms and
    tests.  Messages to the information log, statistics, and the reference counts of
    memtables are left out.  A manual compaction is modelled, but the theorem on
    background compactions is about automatic ones: a memtable compaction in the
    middle of a manual one may put its table between the inputs.  Of a repair, the
    parts that find and scan files have lemmas, the rest has definitions only. *)

From Stdlib Require Export ZArith Lia Bool List.
From Stdlib Require Import Sorted.
From Stdlib.Strings Require Export Byte.
From stdpp Require Export base tactics list numbers option strings.

#[global] Open Scope Z_scope.
#[global] Set Default Goal Selector "!".

(** ** Bytes *)

Abbreviation bytes := (list byte).

(** The value of a [char] read through [uint8_t*]. *)
Definition byte_to_Z (b : byte) : Z := Z.of_N (Byte.to_N b).

(** Storing an integer into an [uint8_t]: the low eight bits are kept. *)
Definition byte_of_Z (z : Z) : byte :=
  match Byte.of_N (Z.to_N (z mod 256)) with
  | Some b => b
  | None => x00
  end.

(** ** Machine integers: values in [Z], with the wrap-around written out *)

Definition u8 (z : Z) : Z := z mod 2 ^ 8.
Definition u32 (z : Z) : Z := z mod 2 ^ 32.
Definition u64 (z : Z) : Z := z mod 2 ^ 64.

(** Reading a 32-bit pattern as a two's complement [int32_t]. *)
Definition s32 (z : Z) : Z := let w := u32 z in if w <? 2 ^ 31 then w else w - 2 ^ 32.

(** [static_cast<unsigned int>(c)] of a plain [char] [c]: [char] is signed
    on the supported targets, so values from 128 up are sign-extended. *)
Definition char_to_u32 (b : byte) : Z :=
  let z := byte_to_Z b in if z <? 128 then z else 2 ^ 32 - 256 + z.

(** The conversion of a plain [char] to [size_t]. *)
Definition char_to_u64 (b : byte) : Z :=
  let z := byte_to_Z b in if z <? 128 then z else 2 ^ 64 - 256 + z.

(** A C string literal, without its terminating zero. *)
Definition cstr (s : string) : bytes := String.list_byte_of_string s.

(** Length of a byte string as an integer. *)
Definition zlen {A} (l : list A) : Z := Z.of_nat (length l).

(** ** Automation *)

Create HintDb ldb discriminated.
Create Rewrite HintDb ldb_rw.

(** [lia] with the width functions visible. *)
Ltac ilia := unfold u8, u32, u64, zlen in *; lia.

(** [lia] with quotients and remainders by constants. *)
Ltac dlia := Z.to_euclidean_division_equations; lia.

(** Case analysis on every boolean comparison of integers in sight. *)
Ltac zcmp :=
  repeat match goal with
  | |- context [Z.ltb ?a ?b] => destruct (Z.ltb_spec a b)
  | |- context [Z.leb ?a ?b] => destruct (Z.leb_spec a b)
  | |- context [Z.eqb ?a ?b] => destruct (Z.eqb_spec a b)
  | H : context [Z.ltb ?a ?b] |- _ => destruct (Z.ltb_spec a b)
  | H : context [Z.leb ?a ?b] |- _ => destruct (Z.leb_spec a b)
  | H : context [Z.eqb ?a ?b] |- _ => destruct (Z.eqb_spec a b)
  end.

(** Prove an equation of integers bit by bit. *)
Ltac zbits :=
  apply Z.bits_inj'; intros ?i ?Hi;
  repeat (rewrite Z.lor_spec || rewrite Z.land_spec || rewrite Z.lxor_spec
          || rewrite Z.shiftr_spec by lia || rewrite Z.shiftl_spec by lia).

(** ** Bytes and integers *)

Lemma byte_to_Z_range b : 0 <= byte_to_Z b < 256.
Proof.
  unfold byte_to_Z. pose proof (Byte.to_N_bounded b). lia.
Qed.

Lemma byte_to_of_Z z : byte_to_Z (byte_of_Z z) = z mod 256.
Proof.
  unfold byte_of_Z, byte_to_Z.
  pose proof (Z.mod_pos_bound z 256 ltac:(lia)) as Hb.
  destruct (Byte.of_N (Z.to_N (z mod 256))) as [b|] eqn:E.
  - apply Byte.to_of_N in E. rewrite E. lia.
  - apply Byte.of_N_None_iff in E. lia.
Qed.

Lemma byte_of_to_Z b : byte_of_Z (byte_to_Z b) = b.
Proof.
  unfold byte_of_Z. rewrite Z.mod_small by apply byte_to_Z_range.
  unfold byte_to_Z. rewrite N2Z.id, Byte.of_to_N. done.
Qed.

Lemma byte_to_Z_inj a b : byte_to_Z a = byte_to_Z b -> a = b.
Proof. intros H. rewrite <- (byte_of_to_Z a), <- (byte_of_to_Z b), H. done. Qed.

#[global] Instance byte_eq_dec : EqDecision byte.
Proof. intros a b. exact (Byte.byte_eq_dec a b). Defined.

Lemma byte_of_Z_mod z : byte_of_Z (z mod 256) = byte_of_Z z.
Proof. apply byte_to_Z_inj. rewrite !byte_to_of_Z, Z.mod_mod; lia. Qed.

#[export] Hint Rewrite byte_to_of_Z byte_of_to_Z : ldb_rw.
#[export] Hint Resolve byte_to_Z_range : ldb.

(** ** Widths *)

Lemma u32_range z : 0 <= u32 z < 2 ^ 32.
Proof. unfold u32. apply Z.mod_pos_bound. lia. Qed.

Lemma u64_range z : 0 <= u64 z < 2 ^ 64.
Proof. unfold u64. apply Z.mod_pos_bound. lia. Qed.

Lemma u32_small z : 0 <= z < 2 ^ 32 -> u32 z = z.
Proof. intros. unfold u32. apply Z.mod_small. done. Qed.

Lemma u64_small z : 0 <= z < 2 ^ 64 -> u64 z = z.
Proof. intros. unfold u64. apply Z.mod_small. done. Qed.

#[export] Hint Resolve u32_range u64_range : ldb.

(** Joining disjoint bit fields is addition. *)
Lemma lor_shiftl_add a b k :
  0 <= k -> 0 <= a < 2 ^ k -> Z.lor a (Z.shiftl b k) = a + b * 2 ^ k.
Proof.
  intros Hk Ha. rewrite Z.shiftl_mul_pow2 by done.
  assert (Hd : Z.land a (b * 2 ^ k) = 0).
  { apply Z.bits_inj'. intros i Hi. rewrite Z.land_spec, Z.bits_0.
    destruct (Z.lt_ge_cases i k).
    - rewrite Z.mul_pow2_bits_low by done. apply andb_false_r.
    - rewrite <- (Z.mod_small a (2 ^ k)) by done.
      rewrite Z.mod_pow2_bits_high by lia. done. }
  rewrite <- Z.lxor_lor, Z.add_nocarry_lxor by done. done.
Qed.

Lemma lor_shiftl_add' a b k :
  0 <= k -> 0 <= a < 2 ^ k -> Z.lor (Z.shiftl b k) a = a + b * 2 ^ k.
Proof. intros. rewrite Z.lor_comm. by apply lor_shiftl_add. Qed.

Lemma lxor_range a b k : 0 <= k -> 0 <= a < 2 ^ k -> 0 <= b < 2 ^ k -> 0 <= Z.lxor a b < 2 ^ k.
Proof.
  intros Hk Ha Hb. split; [apply Z.lxor_nonneg; lia|].
  destruct (Z.eq_dec (Z.lxor a b) 0) as [->|Hne]; [lia|].
  pose proof (proj2 (Z.lxor_nonneg a b) ltac:(lia)).
  apply Z.log2_lt_pow2; [lia|]. eapply Z.le_lt_trans; [apply Z.log2_lxor; lia|].
  assert (forall x, 0 <= x < 2 ^ k -> k <> 0 -> Z.log2 x < k) as Hl.
  { intros x Hx Hk0. destruct (Z.eq_dec x 0) as [->|]; [rewrite Z.log2_nonpos; lia|].
    apply Z.log2_lt_pow2; lia. }
  destruct (Z.eq_dec k 0) as [->|Hk0]; [|apply Z.max_lub_lt; auto].
  assert (a = 0) as -> by lia. assert (b = 0) as -> by lia. done.
Qed.

Lemma shiftr_range a k : 0 <= a < 2 ^ 32 -> 0 <= k -> 0 <= Z.shiftr a k < 2 ^ 32.
Proof.
  intros Ha Hk. rewrite Z.shiftr_div_pow2 by done. split; [apply Z.div_pos; lia|].
  apply Z.div_lt_upper_bound; [lia|]. pose proof (Z.pow_pos_nonneg 2 k). nia.
Qed.

Lemma land_ones_mod a k : 0 <= k -> Z.land a (2 ^ k - 1) = a mod 2 ^ k.
Proof. intros. rewrite <- Z.land_ones by done. f_equal. rewrite Z.ones_equiv. lia. Qed.

Lemma land_255 a : Z.land a 255 = a mod 256.
Proof. apply (land_ones_mod a 8). lia. Qed.

Lemma land_127 a : Z.land a 127 = a mod 128.
Proof. apply (land_ones_mod a 7). lia. Qed.

(** ** Lists *)

Section Lists.
Context {A : Type}.
Implicit Types l k : list A.

Lemma zlen_nonneg l : 0 <= zlen l.
Proof. unfold zlen. lia. Qed.

Lemma zlen_app l k : zlen (l ++ k) = zlen l + zlen k.
Proof. unfold zlen. rewrite length_app. lia. Qed.

Lemma zlen_cons x l : zlen (x :: l) = 1 + zlen l.
Proof. unfold zlen. simpl. lia. Qed.

Lemma take_app_exact l k : take (length l) (l ++ k) = l.
Proof. rewrite take_app_le by lia. apply firstn_all. Qed.

Lemma drop_app_exact l k : drop (length l) (l ++ k) = k.
Proof. rewrite drop_app_ge, Nat.sub_diag by lia. done. Qed.

Lemma take_S_insert_app (p : list A) (x z : A) (a : list A) :
  take (S (length p)) (<[length p := z]> (p ++ x :: a)) = p ++ [z].
Proof. induction p as [|y p IH]; simpl; [by rewrite take_0|]. by f_equal. Qed.
End Lists.

#[export] Hint Resolve zlen_nonneg : ldb.

(** ** Common prefixes *)

(** The loop [while (i < min_length && a[i] == b[i]) i++] of the comparator
    and of the block builder: the length of the common prefix. *)
Fixpoint shared_prefix (a b : bytes) : nat :=
  match a, b with
  | x :: a', y :: b' => if decide (x = y) then S (shared_prefix a' b') else O
  | _, _ => O
  end.

Lemma shared_prefix_le a b : (shared_prefix a b <= length a /\ shared_prefix a b <= length b)%nat.
Proof.
  revert b. induction a as [|x a IH]; intros [|y b]; simpl; try lia.
  case_decide; simpl; [specialize (IH b)|]; lia.
Qed.

Lemma shared_prefix_take a b : take (shared_prefix a b) a = take (shared_prefix a b) b.
Proof.
  revert b. induction a as [|x a IH]; intros [|y b]; simpl; try done.
  case_decide; subst; simpl; [by rewrite IH|done].
Qed.

(** Either one string is a prefix of the other, or they differ just after the
    common prefix. *)
Lemma shared_prefix_split a b :
  let p := take (shared_prefix a b) a in
  (exists k, a = p /\ b = p ++ k) \/ (exists k, a = p ++ k /\ b = p) \/
  (exists x y a' b', a = p ++ x :: a' /\ b = p ++ y :: b' /\ x <> y).
Proof.
  revert b. induction a as [|x a IH]; intros b; simpl.
  { left. exists b. done. }
  destruct b as [|y b]; simpl.
  { right; left. exists (x :: a). done. }
  case_decide; subst; simpl.
  - destruct (IH b) as [(k & H1 & H2)|[(k & H1 & H2)|(x' & y' & a' & b' & H1 & H2 & H3)]].
    + left. exists k. split; f_equal; done.
    + right; left. exists k. split; f_equal; done.
    + right; right. exists x', y', a', b'. repeat split; [f_equal..|]; done.
  - right; right. exists x, y, a, b. done.
Qed.

Lemma StronglySorted_filter {A} (R : A -> A -> Prop) (f : A -> bool) l :
  StronglySorted R l -> StronglySorted R (List.filter f l).
Proof.
  induction 1 as [|x l Hl IH Hx]; simpl; [constructor|]. destruct (f x); [|done]. constructor; [done|].
  rewrite Forall_forall in *. intros y Hy. apply list_elem_of_In, List.filter_In in Hy as [Hy _].
  by apply Hx, list_elem_of_In.
Qed.
