(* ===== verification/Coding.v ===== *)
(** * util/coding: fixed-width and variable-length integers, slices

    Models src/util/coding.h and src/util/coding.cc.  A [Slice], or a pair of
    pointers [p, limit), is the list of bytes it delimits; a [std::string*]
    destination is the string before the call, and the function returns the
    string after it.  A parser returns [None] where the code returns
    [false]/[nullptr], and otherwise the value with the rest of the input. *)

From S2P Require Import Prelude.

(** ** Fixed-width integers *)

Definition EncodeFixed32 (value : Z) : bytes :=
  [byte_of_Z value; byte_of_Z (Z.shiftr value 8);
   byte_of_Z (Z.shiftr value 16); byte_of_Z (Z.shiftr value 24)].

Definition EncodeFixed64 (value : Z) : bytes :=
  [byte_of_Z value; byte_of_Z (Z.shiftr value 8);
   byte_of_Z (Z.shiftr value 16); byte_of_Z (Z.shiftr value 24);
   byte_of_Z (Z.shiftr value 32); byte_of_Z (Z.shiftr value 40);
   byte_of_Z (Z.shiftr value 48); byte_of_Z (Z.shiftr value 56)].

(** [buffer[i]]; the callers check that [i] is in range. *)
Definition byte_at (p : bytes) (i : nat) : Z := byte_to_Z (nth i p x00).

Definition DecodeFixed32 (ptr : bytes) : Z :=
  Z.lor (Z.lor (Z.lor (byte_at ptr 0) (Z.shiftl (byte_at ptr 1) 8))
               (Z.shiftl (byte_at ptr 2) 16))
        (Z.shiftl (byte_at ptr 3) 24).

Definition DecodeFixed64 (ptr : bytes) : Z :=
  Z.lor (Z.lor (Z.lor (Z.lor (Z.lor (Z.lor (Z.lor (byte_at ptr 0)
    (Z.shiftl (byte_at ptr 1) 8)) (Z.shiftl (byte_at ptr 2) 16))
    (Z.shiftl (byte_at ptr 3) 24)) (Z.shiftl (byte_at ptr 4) 32))
    (Z.shiftl (byte_at ptr 5) 40)) (Z.shiftl (byte_at ptr 6) 48))
    (Z.shiftl (byte_at ptr 7) 56).

Definition PutFixed32 (dst : bytes) (value : Z) : bytes := dst ++ EncodeFixed32 value.
Definition PutFixed64 (dst : bytes) (value : Z) : bytes := dst ++ EncodeFixed64 value.

(** ** Variable-length integers: encoders *)

(** The unrolled 32-bit encoder: what it writes at [dst]. *)
Definition EncodeVarint32 (v : Z) : bytes :=
  let B := 128 in
  if v <? Z.shiftl 1 7 then [byte_of_Z v]
  else if v <? Z.shiftl 1 14 then
    [byte_of_Z (Z.lor v B); byte_of_Z (Z.shiftr v 7)]
  else if v <? Z.shiftl 1 21 then
    [byte_of_Z (Z.lor v B); byte_of_Z (Z.lor (Z.shiftr v 7) B);
     byte_of_Z (Z.shiftr v 14)]
  else if v <? Z.shiftl 1 28 then
    [byte_of_Z (Z.lor v B); byte_of_Z (Z.lor (Z.shiftr v 7) B);
     byte_of_Z (Z.lor (Z.shiftr v 14) B); byte_of_Z (Z.shiftr v 21)]
  else
    [byte_of_Z (Z.lor v B); byte_of_Z (Z.lor (Z.shiftr v 7) B);
     byte_of_Z (Z.lor (Z.shiftr v 14) B); byte_of_Z (Z.lor (Z.shiftr v 21) B);
     byte_of_Z (Z.shiftr v 28)].

(** The loop of the 64-bit encoder.  The fuel bounds the iterations. *)
Fixpoint EncodeVarint64_loop (fuel : nat) (v : Z) : bytes :=
  match fuel with
  | O => [byte_of_Z v]
  | S f =>
      if 128 <=? v
      then byte_of_Z (Z.lor v 128) :: EncodeVarint64_loop f (Z.shiftr v 7)
      else [byte_of_Z v]
  end.

(** Nine iterations and the final store: the code's buffer is [char buf[10]]. *)
Definition EncodeVarint64 (v : Z) : bytes := EncodeVarint64_loop 9 v.

Definition PutVarint32 (dst : bytes) (v : Z) : bytes := dst ++ EncodeVarint32 v.
Definition PutVarint64 (dst : bytes) (v : Z) : bytes := dst ++ EncodeVarint64 v.

(** [value.size()] is passed as a [uint32_t]: it is truncated. *)
Definition PutLengthPrefixedSlice (dst value : bytes) : bytes :=
  PutVarint32 dst (u32 (zlen value)) ++ value.

Fixpoint VarintLength_loop (fuel : nat) (v len : Z) : Z :=
  match fuel with
  | O => len
  | S f => if 128 <=? v then VarintLength_loop f (Z.shiftr v 7) (len + 1) else len
  end.

Definition VarintLength (v : Z) : Z := VarintLength_loop 9 v 1.

(** ** Variable-length integers: decoders *)

Fixpoint GetVarint32PtrFallback_loop (p : bytes) (shift result : Z) : option (Z * bytes) :=
  match p with
  | [] => None
  | b :: p' =>
      if shift <=? 28 then
        let byte := byte_to_Z b in
        if negb (Z.land byte 128 =? 0) then
          GetVarint32PtrFallback_loop p' (shift + 7)
            (Z.lor result (u32 (Z.shiftl (Z.land byte 127) shift)))
        else Some (Z.lor result (u32 (Z.shiftl byte shift)), p')
      else None
  end.

Definition GetVarint32PtrFallback (p : bytes) : option (Z * bytes) :=
  GetVarint32PtrFallback_loop p 0 0.

Definition GetVarint32Ptr (p : bytes) : option (Z * bytes) :=
  match p with
  | b :: p' =>
      if Z.land (byte_to_Z b) 128 =? 0 then Some (byte_to_Z b, p')
      else GetVarint32PtrFallback p
  | [] => GetVarint32PtrFallback p
  end.

Definition GetVarint32 (input : bytes) : option (Z * bytes) := GetVarint32Ptr input.

Fixpoint GetVarint64Ptr_loop (p : bytes) (shift result : Z) : option (Z * bytes) :=
  match p with
  | [] => None
  | b :: p' =>
      if shift <=? 63 then
        let byte := byte_to_Z b in
        if negb (Z.land byte 128 =? 0) then
          GetVarint64Ptr_loop p' (shift + 7)
            (Z.lor result (u64 (Z.shiftl (Z.land byte 127) shift)))
        else Some (Z.lor result (u64 (Z.shiftl byte shift)), p')
      else None
  end.

Definition GetVarint64Ptr (p : bytes) : option (Z * bytes) := GetVarint64Ptr_loop p 0 0.
Definition GetVarint64 (input : bytes) : option (Z * bytes) := GetVarint64Ptr input.

(** On success: the slice and the rest of the input. *)
Definition GetLengthPrefixedSlice (input : bytes) : option (bytes * bytes) :=
  match GetVarint32 input with
  | Some (len, input') =>
      if len <=? zlen input'
      then Some (take (Z.to_nat len) input', drop (Z.to_nat len) input')
      else None
  | None => None
  end.

(** ** Reference little-endian codec *)

Fixpoint le_bytes (n : nat) (v : Z) : bytes :=
  match n with
  | O => []
  | S n' => byte_of_Z v :: le_bytes n' (Z.shiftr v 8)
  end.

Fixpoint le_value (p : bytes) : Z :=
  match p with
  | [] => 0
  | b :: p' => byte_to_Z b + 256 * le_value p'
  end.

Lemma le_bytes_length n v : length (le_bytes n v) = n.
Proof. revert v. induction n; intros; simpl; auto. Qed.

Lemma le_value_bytes n v : le_value (le_bytes n v) = v mod 2 ^ (8 * Z.of_nat n).
Proof.
  revert v. induction n as [|n IH]; intros v.
  - simpl. rewrite Z.mod_1_r. done.
  - cbn [le_bytes le_value]. rewrite IH, byte_to_of_Z, Z.shiftr_div_pow2 by lia.
    replace (8 * Z.of_nat (S n)) with (8 + 8 * Z.of_nat n) by lia.
    rewrite Z.pow_add_r by lia. change (2 ^ 8) with 256.
    rewrite Z.rem_mul_r by lia. done.
Qed.

Lemma le_value_range p : 0 <= le_value p < 2 ^ (8 * zlen p).
Proof.
  induction p as [|b p IH]; [unfold zlen; simpl; lia|].
  cbn [le_value]. rewrite zlen_cons, Z.mul_add_distr_l, Z.pow_add_r by ilia.
  pose proof (byte_to_Z_range b). change (2 ^ (8 * 1)) with 256. lia.
Qed.

Lemma le_bytes_value p : le_bytes (length p) (le_value p) = p.
Proof.
  induction p as [|b p IH]; [done|]. cbn [length le_bytes le_value].
  pose proof (byte_to_Z_range b). f_equal.
  - rewrite <- byte_of_Z_mod, Z.mul_comm, Z.mod_add by lia.
    rewrite Z.mod_small by done. apply byte_of_to_Z.
  - rewrite Z.shiftr_div_pow2 by lia. change (2 ^ 8) with 256.
    rewrite Z.add_comm, Z.mul_comm, Z.div_add_l, Z.div_small, Z.add_0_r by lia. done.
Qed.

Lemma EncodeFixed32_le v : EncodeFixed32 v = le_bytes 4 v.
Proof. unfold EncodeFixed32. simpl. rewrite !Z.shiftr_shiftr by lia. done. Qed.

Lemma EncodeFixed64_le v : EncodeFixed64 v = le_bytes 8 v.
Proof. unfold EncodeFixed64. simpl. rewrite !Z.shiftr_shiftr by lia. done. Qed.

Lemma byte_at_range p i : 0 <= byte_at p i < 256.
Proof. apply byte_to_Z_range. Qed.

#[export] Hint Resolve byte_at_range : ldb.

Lemma byte_at_cons b p i : byte_at (b :: p) (S i) = byte_at p i.
Proof. done. Qed.

Lemma byte_at_app p q i : (i < length p)%nat -> byte_at (p ++ q) i = byte_at p i.
Proof. intros. unfold byte_at. rewrite app_nth1 by done. done. Qed.

Lemma DecodeFixed32_le p : (4 <= length p)%nat -> DecodeFixed32 p = le_value (take 4 p).
Proof.
  intros Hl. destruct p as [|b0 [|b1 [|b2 [|b3 p]]]]; simpl in Hl; try lia.
  unfold DecodeFixed32, byte_at. cbn [nth firstn le_value]. rewrite take_0. cbn [le_value].
  pose proof (byte_to_Z_range b0). pose proof (byte_to_Z_range b1).
  pose proof (byte_to_Z_range b2). pose proof (byte_to_Z_range b3).
  rewrite (lor_shiftl_add _ _ 8), (lor_shiftl_add _ _ 16), (lor_shiftl_add _ _ 24) by lia. lia.
Qed.

Lemma DecodeFixed64_le p : (8 <= length p)%nat -> DecodeFixed64 p = le_value (take 8 p).
Proof.
  intros Hl.
  destruct p as [|b0 [|b1 [|b2 [|b3 [|b4 [|b5 [|b6 [|b7 p]]]]]]]]; simpl in Hl; try lia.
  unfold DecodeFixed64, byte_at. cbn [nth firstn le_value]. rewrite take_0. cbn [le_value].
  pose proof (byte_to_Z_range b0). pose proof (byte_to_Z_range b1).
  pose proof (byte_to_Z_range b2). pose proof (byte_to_Z_range b3).
  pose proof (byte_to_Z_range b4). pose proof (byte_to_Z_range b5).
  pose proof (byte_to_Z_range b6). pose proof (byte_to_Z_range b7).
  rewrite (lor_shiftl_add _ _ 8), (lor_shiftl_add _ _ 16), (lor_shiftl_add _ _ 24),
    (lor_shiftl_add _ _ 32), (lor_shiftl_add _ _ 40), (lor_shiftl_add _ _ 48),
    (lor_shiftl_add _ _ 56) by lia. lia.
Qed.

Lemma EncodeFixed32_length v : length (EncodeFixed32 v) = 4%nat.
Proof. done. Qed.

Lemma EncodeFixed64_length v : length (EncodeFixed64 v) = 8%nat.
Proof. done. Qed.

Lemma DecodeFixed32_encode v rest : DecodeFixed32 (EncodeFixed32 v ++ rest) = u32 v.
Proof.
  rewrite DecodeFixed32_le by (rewrite length_app; simpl; lia).
  rewrite take_app_le by (simpl; lia). rewrite firstn_all2 by (simpl; lia).
  rewrite EncodeFixed32_le, le_value_bytes. done.
Qed.

Lemma DecodeFixed64_encode v rest : DecodeFixed64 (EncodeFixed64 v ++ rest) = u64 v.
Proof.
  rewrite DecodeFixed64_le by (rewrite length_app; simpl; lia).
  rewrite take_app_le by (simpl; lia). rewrite firstn_all2 by (simpl; lia).
  rewrite EncodeFixed64_le, le_value_bytes. done.
Qed.

Lemma EncodeFixed32_decode p : length p = 4%nat -> EncodeFixed32 (DecodeFixed32 p) = p.
Proof.
  intros Hl. rewrite DecodeFixed32_le, EncodeFixed32_le, firstn_all2 by lia.
  rewrite <- Hl. apply le_bytes_value.
Qed.

Lemma EncodeFixed64_decode p : length p = 8%nat -> EncodeFixed64 (DecodeFixed64 p) = p.
Proof.
  intros Hl. rewrite DecodeFixed64_le, EncodeFixed64_le, firstn_all2 by lia.
  rewrite <- Hl. apply le_bytes_value.
Qed.

Lemma lor_range a b k : 0 <= k -> 0 <= a < 2 ^ k -> 0 <= b < 2 ^ k -> 0 <= Z.lor a b < 2 ^ k.
Proof.
  intros Hk Ha Hb. split; [apply Z.lor_nonneg; lia|].
  assert (Hor : Z.lor a b = (Z.lor a b) mod 2 ^ k).
  { rewrite <- !Z.land_ones, Z.land_lor_distr_l, !Z.land_ones by done.
    rewrite (Z.mod_small a), (Z.mod_small b) by done. done. }
  rewrite Hor. apply Z.mod_pos_bound. lia.
Qed.

Lemma shiftl_range a n k :
  0 <= n -> 0 <= k -> 0 <= a < 2 ^ k -> 0 <= Z.shiftl a n < 2 ^ (k + n).
Proof.
  intros. rewrite Z.shiftl_mul_pow2, Z.pow_add_r by done.
  pose proof (Z.pow_pos_nonneg 2 n). nia.
Qed.

Lemma DecodeFixed32_range p : 0 <= DecodeFixed32 p < 2 ^ 32.
Proof.
  unfold DecodeFixed32.
  pose proof (byte_at_range p 0). pose proof (byte_at_range p 1).
  pose proof (byte_at_range p 2). pose proof (byte_at_range p 3).
  rewrite (lor_shiftl_add _ _ 8), (lor_shiftl_add _ _ 16), (lor_shiftl_add _ _ 24) by lia. lia.
Qed.

Lemma DecodeFixed64_range p : 0 <= DecodeFixed64 p < 2 ^ 64.
Proof.
  unfold DecodeFixed64.
  pose proof (byte_at_range p 0). pose proof (byte_at_range p 1).
  pose proof (byte_at_range p 2). pose proof (byte_at_range p 3).
  pose proof (byte_at_range p 4). pose proof (byte_at_range p 5).
  pose proof (byte_at_range p 6). pose proof (byte_at_range p 7).
  rewrite (lor_shiftl_add _ _ 8), (lor_shiftl_add _ _ 16), (lor_shiftl_add _ _ 24),
    (lor_shiftl_add _ _ 32), (lor_shiftl_add _ _ 40), (lor_shiftl_add _ _ 48),
    (lor_shiftl_add _ _ 56) by lia. lia.
Qed.

#[export] Hint Resolve DecodeFixed32_range DecodeFixed64_range : ldb.

(** ** Varints *)

(** The two decoders are one loop at two widths. *)
Fixpoint GetVarint_loop (maxshift width : Z) (p : bytes) (shift result : Z)
    : option (Z * bytes) :=
  match p with
  | [] => None
  | b :: p' =>
      if shift <=? maxshift then
        let byte := byte_to_Z b in
        if negb (Z.land byte 128 =? 0) then
          GetVarint_loop maxshift width p' (shift + 7)
            (Z.lor result ((Z.shiftl (Z.land byte 127) shift) mod 2 ^ width))
        else Some (Z.lor result ((Z.shiftl byte shift) mod 2 ^ width), p')
      else None
  end.

Lemma GetVarint32PtrFallback_loop_generic p s r :
  GetVarint32PtrFallback_loop p s r = GetVarint_loop 28 32 p s r.
Proof. revert s r. induction p as [|b p IH]; intros; [done|]. simpl. by rewrite IH. Qed.

Lemma GetVarint64Ptr_loop_generic p s r :
  GetVarint64Ptr_loop p s r = GetVarint_loop 63 64 p s r.
Proof. revert s r. induction p as [|b p IH]; intros; [done|]. simpl. by rewrite IH. Qed.

Lemma byte_land_128 z : 0 <= z < 256 -> Z.land z 128 = if z <? 128 then 0 else 128.
Proof.
  intros Hz. change 128 with (2 ^ 7) at 1. destruct (Z.ltb_spec z 128).
  - apply Z.bits_inj'. intros i Hi. rewrite Z.land_spec, Z.bits_0.
    destruct (Z.eq_dec i 7) as [->|].
    + rewrite <- (Z.mod_small z (2 ^ 7)), Z.mod_pow2_bits_high by lia. done.
    + rewrite Z.pow2_bits_false by lia. apply andb_false_r.
  - replace z with (Z.lor (z - 128) (Z.shiftl 1 7)) by (rewrite lor_shiftl_add; lia).
    rewrite Z.land_lor_distr_l. change (Z.land (Z.shiftl 1 7) (2 ^ 7)) with 128.
    replace (Z.land (z - 128) (2 ^ 7)) with 0; [done|].
    symmetry. apply Z.bits_inj'. intros i Hi. rewrite Z.land_spec, Z.bits_0.
    destruct (Z.eq_dec i 7) as [->|].
    + rewrite <- (Z.mod_small (z - 128) (2 ^ 7)), Z.mod_pow2_bits_high by lia. done.
    + rewrite Z.pow2_bits_false by lia. apply andb_false_r.
Qed.

Lemma byte_cont_value v : byte_to_Z (byte_of_Z (Z.lor v 128)) = v mod 128 + 128.
Proof.
  rewrite byte_to_of_Z. change 256 with (2 ^ 8). rewrite <- Z.land_ones by lia.
  rewrite Z.land_lor_distr_l, Z.land_ones by lia.
  change (Z.land 128 (Z.ones 8)) with 128.
  pose proof (Z.mod_pos_bound v (2 ^ 8) ltac:(lia)) as Hb.
  replace (v mod 128) with ((v mod 2 ^ 8) mod 128)
    by (change (2 ^ 8) with (128 * 2); rewrite Z.rem_mul_r by lia;
        rewrite Z.mul_comm, Z.mod_add, Z.mod_mod by lia; done).
  set (w := v mod 2 ^ 8) in *. clearbody w.
  destruct (Z.lt_ge_cases w 128).
  - change 128 with (Z.shiftl 1 7) at 1. rewrite lor_shiftl_add, Z.mod_small by lia. lia.
  - replace w with (Z.lor (w - 128) (Z.shiftl 1 7)) at 1 by (rewrite lor_shiftl_add; lia).
    rewrite <- Z.lor_assoc. change (Z.lor (Z.shiftl 1 7) 128) with (Z.shiftl 1 7).
    rewrite lor_shiftl_add by lia.
    replace w with ((w - 128) + 1 * 128) at 2 by lia.
    rewrite Z.mod_add, Z.mod_small by lia. lia.
Qed.

Lemma byte_last_value v : 0 <= v < 128 -> byte_to_Z (byte_of_Z v) = v.
Proof. intros. rewrite byte_to_of_Z, Z.mod_small; lia. Qed.

Lemma GetVarint_loop_last maxshift width v rest s r :
  0 <= v < 128 -> 0 <= s <= maxshift -> 0 <= r < 2 ^ s -> v * 2 ^ s < 2 ^ width ->
  GetVarint_loop maxshift width (byte_of_Z v :: rest) s r = Some (r + v * 2 ^ s, rest).
Proof.
  intros Hv Hs Hr Hb. cbn [GetVarint_loop].
  rewrite (proj2 (Z.leb_le s maxshift)), byte_last_value, byte_land_128 by lia.
  rewrite (proj2 (Z.ltb_lt v 128)) by lia. cbn [Z.eqb negb].
  rewrite Z.mod_small.
  - rewrite lor_shiftl_add by lia. done.
  - rewrite Z.shiftl_mul_pow2 by lia. nia.
Qed.

Lemma GetVarint_loop_more maxshift width v rest s r :
  0 <= v -> 0 <= s <= maxshift -> 0 <= r < 2 ^ s -> v * 2 ^ s < 2 ^ width ->
  GetVarint_loop maxshift width (byte_of_Z (Z.lor v 128) :: rest) s r
  = GetVarint_loop maxshift width rest (s + 7) (r + v mod 128 * 2 ^ s).
Proof.
  intros Hv Hs Hr Hb. cbn [GetVarint_loop].
  pose proof (Z.mod_pos_bound v 128 ltac:(lia)) as Hm.
  rewrite (proj2 (Z.leb_le s maxshift)), byte_cont_value, byte_land_128 by lia.
  rewrite (proj2 (Z.ltb_ge (v mod 128 + 128) 128)) by lia. cbn [Z.eqb negb].
  rewrite land_127.
  replace ((v mod 128 + 128) mod 128) with (v mod 128)
    by (apply (Z.mod_unique _ _ 1); lia).
  rewrite Z.mod_small.
  - rewrite lor_shiftl_add by lia. done.
  - rewrite Z.shiftl_mul_pow2 by lia. pose proof (Z.mod_le v 128). nia.
Qed.

(** Decoding what the encoding loop wrote, at any width that holds it. *)
Lemma GetVarint_loop_encode maxshift width fuel v rest s r :
  0 <= v -> v < 2 ^ (7 * Z.of_nat (S fuel)) ->
  0 <= s <= maxshift -> s mod 7 = 0 -> maxshift mod 7 = 0 -> 0 <= width <= maxshift + 7 ->
  0 <= r < 2 ^ s -> v * 2 ^ s < 2 ^ width ->
  GetVarint_loop maxshift width (EncodeVarint64_loop fuel v ++ rest) s r
  = Some (r + v * 2 ^ s, rest).
Proof.
  revert v s r. induction fuel as [|f IH]; intros v s r Hv Hf Hs H7 Hm7 Hw Hr Hb.
  { by apply GetVarint_loop_last. }
  cbn [EncodeVarint64_loop].
  destruct (Z.leb_spec 128 v) as [Hge|Hlt]; [|by apply GetVarint_loop_last].
  rewrite <- app_comm_cons, GetVarint_loop_more by done.
  assert (Hp : 0 < 2 ^ s) by lia.
  pose proof (Z.mod_pos_bound v 128 ltac:(lia)).
  pose proof (Z.div_mod v 128 ltac:(lia)) as Hdm.
  assert (Hq : 0 < v / 128) by (apply Z.div_str_pos; lia).
  assert (Hs7 : 2 ^ (s + 7) = 2 ^ s * 128) by (rewrite Z.pow_add_r by lia; done).
  assert (s + 7 < width) by (apply (Z.pow_lt_mono_r_iff 2); nia).
  rewrite Z.shiftr_div_pow2 by lia. change (2 ^ 7) with 128.
  rewrite IH; try nia.
  - f_equal. f_equal. rewrite Hs7. nia.
  - replace (7 * Z.of_nat (S (S f))) with (7 + 7 * Z.of_nat (S f)) in Hf by lia.
    rewrite Z.pow_add_r in Hf by lia. apply Z.div_lt_upper_bound; lia.
  - pose proof (Z.div_mod s 7). pose proof (Z.div_mod maxshift 7). lia.
  - rewrite Z.add_mod, H7 by lia. done.
Qed.

(** *** The unrolled encoder, the loop, and lengths *)

Lemma EncodeVarint64_loop_S fuel v :
  EncodeVarint64_loop (S fuel) v =
  if 128 <=? v then byte_of_Z (Z.lor v 128) :: EncodeVarint64_loop fuel (Z.shiftr v 7)
  else [byte_of_Z v].
Proof. done. Qed.

Lemma shiftr_ge_iff v k m : 0 <= k -> (m <=? Z.shiftr v k) = (m * 2 ^ k <=? v).
Proof.
  intros. rewrite Z.shiftr_div_pow2 by done.
  pose proof (Z.pow_pos_nonneg 2 k). apply eq_true_iff_eq. rewrite !Z.leb_le. split; intros.
  - pose proof (Z.mul_div_le v (2 ^ k)). nia.
  - apply Z.div_le_lower_bound; nia.
Qed.

Lemma EncodeVarint32_loop v : 0 <= v < 2 ^ 32 -> EncodeVarint32 v = EncodeVarint64 v.
Proof.
  intros Hv. unfold EncodeVarint64, EncodeVarint32. rewrite !EncodeVarint64_loop_S.
  rewrite !Z.shiftr_shiftr, !shiftr_ge_iff by lia. rewrite !Z.shiftl_1_l. simpl (_ + _).
  zcmp; try lia; done.
Qed.

Lemma EncodeVarint64_loop_fuel f g v :
  (f <= g)%nat -> 0 <= v < 2 ^ (7 * Z.of_nat (S f)) ->
  EncodeVarint64_loop g v = EncodeVarint64_loop f v.
Proof.
  revert g v. induction f as [|f IH]; intros g v Hfg Hv.
  - destruct g; [done|]. rewrite EncodeVarint64_loop_S.
    destruct (Z.leb_spec 128 v); [simpl in Hv; lia|done].
  - destruct g; [lia|]. rewrite !EncodeVarint64_loop_S.
    destruct (Z.leb_spec 128 v); [|done]. f_equal. apply IH; [lia|].
    rewrite Z.shiftr_div_pow2 by lia. change (2 ^ 7) with 128.
    replace (7 * Z.of_nat (S (S f))) with (7 + 7 * Z.of_nat (S f)) in Hv by lia.
    rewrite Z.pow_add_r in Hv by lia. split; [apply Z.div_pos; lia|].
    apply Z.div_lt_upper_bound; lia.
Qed.

Lemma VarintLength_loop_encode fuel v len :
  VarintLength_loop fuel v len = len + zlen (EncodeVarint64_loop fuel v) - 1.
Proof.
  revert v len. induction fuel as [|f IH]; intros.
  - unfold zlen; simpl; lia.
  - cbn [VarintLength_loop EncodeVarint64_loop]. destruct (128 <=? v).
    + rewrite IH, zlen_cons. lia.
    + unfold zlen; simpl; lia.
Qed.

Lemma EncodeVarint64_loop_length fuel v :
  (1 <= length (EncodeVarint64_loop fuel v) <= S fuel)%nat.
Proof.
  revert v. induction fuel as [|f IH]; intros; simpl; [lia|].
  destruct (128 <=? v); simpl; [|lia]. specialize (IH (Z.shiftr v 7)). lia.
Qed.

Lemma EncodeVarint64_length v : (1 <= length (EncodeVarint64 v) <= 10)%nat.
Proof. apply EncodeVarint64_loop_length. Qed.

Lemma EncodeVarint32_length v : (1 <= length (EncodeVarint32 v) <= 5)%nat.
Proof. unfold EncodeVarint32. repeat destruct (_ <? _); simpl; lia. Qed.

(** *** Round trips *)

Lemma GetVarint64_encode v rest :
  0 <= v < 2 ^ 64 -> GetVarint64 (EncodeVarint64 v ++ rest) = Some (v, rest).
Proof.
  intros. unfold GetVarint64, GetVarint64Ptr. rewrite GetVarint64Ptr_loop_generic.
  unfold EncodeVarint64. rewrite GetVarint_loop_encode; try lia; try done.
  f_equal. f_equal. lia.
Qed.

Lemma GetVarint32Ptr_fallback p : GetVarint32Ptr p = GetVarint32PtrFallback p.
Proof.
  destruct p as [|b p]; [done|]. unfold GetVarint32Ptr, GetVarint32PtrFallback.
  cbn [GetVarint32PtrFallback_loop]. destruct (Z.eqb_spec (Z.land (byte_to_Z b) 128) 0); [|done].
  simpl. rewrite Z.shiftl_0_r, u32_small; [done|]. pose proof (byte_to_Z_range b). lia.
Qed.

Lemma GetVarint32_encode v rest :
  0 <= v < 2 ^ 32 -> GetVarint32 (EncodeVarint32 v ++ rest) = Some (v, rest).
Proof.
  intros. unfold GetVarint32. rewrite GetVarint32Ptr_fallback.
  unfold GetVarint32PtrFallback. rewrite GetVarint32PtrFallback_loop_generic.
  rewrite EncodeVarint32_loop by done. unfold EncodeVarint64.
  rewrite GetVarint_loop_encode; try lia; try done. f_equal. f_equal. lia.
Qed.

Lemma GetLengthPrefixedSlice_put value rest :
  zlen value < 2 ^ 32 ->
  GetLengthPrefixedSlice (PutLengthPrefixedSlice [] value ++ rest) = Some (value, rest).
Proof.
  intros Hl. unfold GetLengthPrefixedSlice, PutLengthPrefixedSlice, PutVarint32.
  pose proof (zlen_nonneg value).
  rewrite u32_small by lia. simpl ([] ++ _). rewrite <- app_assoc, GetVarint32_encode by lia.
  rewrite zlen_app. pose proof (zlen_nonneg rest).
  rewrite (proj2 (Z.leb_le _ _)) by lia. unfold zlen. rewrite Nat2Z.id.
  rewrite take_app_exact, drop_app_exact. done.
Qed.

Lemma PutLengthPrefixedSlice_app dst v :
  PutLengthPrefixedSlice dst v = dst ++ PutLengthPrefixedSlice [] v.
Proof. unfold PutLengthPrefixedSlice, PutVarint32. simpl. by rewrite app_assoc. Qed.

(** *** What a successful decode means *)

Lemma GetVarint_loop_sound maxshift width p s r v rest :
  0 <= width -> 0 <= r < 2 ^ width -> 0 <= s ->
  GetVarint_loop maxshift width p s r = Some (v, rest) ->
  0 <= v < 2 ^ width /\
  exists q, p = q ++ rest /\ (1 <= length q)%nat /\ 7 * (zlen q - 1) + s <= maxshift.
Proof.
  intros Hw. revert s r. induction p as [|b p IH]; intros s r Hr Hs; cbn [GetVarint_loop]; [done|].
  destruct (Z.leb_spec s maxshift); [|done].
  destruct (negb _); intros Heq.
  - apply IH in Heq as (Hv & q & -> & Hq & Hlen).
    + split; [done|]. exists (b :: q). rewrite zlen_cons. simpl. split; [done|]. lia.
    + apply lor_range; try done. apply Z.mod_pos_bound. lia.
    + lia.
  - simplify_eq. split.
    + apply lor_range; try done. apply Z.mod_pos_bound. lia.
    + exists [b]. unfold zlen. simpl. split; [done|]. lia.
Qed.

Lemma GetVarint32_sound p v rest :
  GetVarint32 p = Some (v, rest) ->
  0 <= v < 2 ^ 32 /\ exists q, p = q ++ rest /\ (1 <= length q <= 5)%nat.
Proof.
  unfold GetVarint32. rewrite GetVarint32Ptr_fallback. unfold GetVarint32PtrFallback.
  rewrite GetVarint32PtrFallback_loop_generic.
  intros (Hv & q & Hp & Hq & Hl)%GetVarint_loop_sound; [|lia..].
  split; [done|]. exists q. split; [done|]. unfold zlen in Hl. lia.
Qed.

Lemma GetVarint64_sound p v rest :
  GetVarint64 p = Some (v, rest) ->
  0 <= v < 2 ^ 64 /\ exists q, p = q ++ rest /\ (1 <= length q <= 10)%nat.
Proof.
  unfold GetVarint64, GetVarint64Ptr. rewrite GetVarint64Ptr_loop_generic.
  intros (Hv & q & Hp & Hq & Hl)%GetVarint_loop_sound; [|lia..].
  split; [done|]. exists q. split; [done|]. unfold zlen in Hl. lia.
Qed.

Lemma GetLengthPrefixedSlice_sound p s rest :
  GetLengthPrefixedSlice p = Some (s, rest) ->
  exists q, p = q ++ s ++ rest /\ (1 <= length q <= 5)%nat /\ zlen s < 2 ^ 32.
Proof.
  unfold GetLengthPrefixedSlice. destruct (GetVarint32 p) as [[len p']|] eqn:E; [|done].
  apply GetVarint32_sound in E as (Hv & q & -> & Hq).
  destruct (Z.leb_spec len (zlen p')) as [Hle|]; [|done].
  intros Heq. simplify_eq. exists q.
  rewrite take_drop. split; [done|]. split; [done|].
  unfold zlen in *. rewrite length_take. lia.
Qed.

(** ** Properties *)

(** Decoding a varint that was just written, with any bytes after it,
    gives the value back and leaves exactly those bytes, for every 64-bit
    value; for 32-bit values the unrolled encoder writes the same bytes as the
    64-bit loop and the 32-bit decoder (with its one-byte fast path) inverts
    it.  The number of bytes is the one [VarintLength] announces, at most the
    size of the buffers the code declares. *)
Theorem varint_roundtrip (v : Z) (rest : bytes) (Hv : 0 <= v < 2 ^ 64) :
  GetVarint64 (PutVarint64 [] v ++ rest) = Some (v, rest) /\
  zlen (EncodeVarint64 v) = VarintLength v /\ zlen (EncodeVarint64 v) <= 10 /\
  (v < 2 ^ 32 ->
     GetVarint32 (PutVarint32 [] v ++ rest) = Some (v, rest) /\
     EncodeVarint32 v = EncodeVarint64 v /\ zlen (EncodeVarint32 v) <= 5).
Proof.
  unfold PutVarint64, PutVarint32. simpl ([] ++ _). repeat split.
  - by apply GetVarint64_encode.
  - unfold VarintLength, EncodeVarint64. rewrite VarintLength_loop_encode. lia.
  - pose proof (EncodeVarint64_length v). ilia.
  - apply GetVarint32_encode. lia.
  - apply EncodeVarint32_loop. lia.
  - pose proof (EncodeVarint32_length v). ilia.
Qed.

Lemma varint_roundtrip_witness :
  0 <= 300 < 2 ^ 64 /\ GetVarint64 (PutVarint64 [] 300 ++ [x07]) = Some (300, [x07]).
Proof. split; [lia|]. exact (proj1 (varint_roundtrip 300 [x07] ltac:(lia))). Defined.
