(* ===== verification/Comparator.v ===== *)
(** * Slices and comparators

    Models src/include/leveldb/slice.h (comparison and prefix tests), the
    [Comparator] interface of src/include/leveldb/comparator.h as a class with
    its documented laws, and the byte-wise comparator of
    src/util/comparator.cc as an instance that satisfies them. *)

From S2P Require Import Prelude Coding.

(** ** Slice *)

(** [memcmp(a, b, n)]: the sign of its result. *)
Fixpoint memcmp (a b : bytes) (n : nat) {struct n} : comparison :=
  match n, a, b with
  | S n', x :: a', y :: b' =>
      match byte_to_Z x ?= byte_to_Z y with
      | Eq => memcmp a' b' n'
      | c => c
      end
  | _, _, _ => Eq
  end.

Definition Slice_compare (a b : bytes) : comparison :=
  let min_len := if zlen a <? zlen b then length a else length b in
  match memcmp a b min_len with
  | Eq => if zlen a <? zlen b then Lt else if zlen b <? zlen a then Gt else Eq
  | r => r
  end.

Definition Slice_eqb (x y : bytes) : bool :=
  (zlen x =? zlen y) && match memcmp x y (length x) with Eq => true | _ => false end.

Definition Slice_starts_with (s x : bytes) : bool :=
  (zlen x <=? zlen s) && match memcmp s x (length x) with Eq => true | _ => false end.

(** ** The comparator interface *)

(** An [int] result of [Compare] is used only through its sign. *)
Class Comparator := {
  Compare : bytes -> bytes -> comparison;
  FindShortestSeparator : bytes -> bytes -> bytes;
  FindShortSuccessor : bytes -> bytes;
}.

(** What include/leveldb/comparator.h asks of an implementation: a total
    preorder, a separator in [start, limit), a successor [>= key].  A call
    with equivalent arguments leaves [start] equivalent to them. *)
Class ComparatorLaws (C : Comparator) : Prop := {
  Compare_refl : forall a, Compare a a = Eq;
  Compare_antisym : forall a b, Compare b a = CompOpp (Compare a b);
  Compare_lt_trans : forall a b c, Compare a b = Lt -> Compare b c = Lt -> Compare a c = Lt;
  Compare_eq_l : forall a b c, Compare a b = Eq -> Compare a c = Compare b c;
  separator_ge : forall s l, Compare s l <> Gt -> Compare s (FindShortestSeparator s l) <> Gt;
  separator_lt : forall s l, Compare s l = Lt -> Compare (FindShortestSeparator s l) l = Lt;
  separator_eq : forall s l, Compare s l = Eq -> Compare s (FindShortestSeparator s l) = Eq;
  successor_ge : forall k, Compare k (FindShortSuccessor k) <> Gt;
}.

Section Order.
Context {C : Comparator} {L : ComparatorLaws C}.
Implicit Types a b c : bytes.

Lemma Compare_eq_r a b c : Compare a b = Eq -> Compare c a = Compare c b.
Proof.
  intros H. rewrite (Compare_antisym a c), (Compare_antisym b c).
  by rewrite (Compare_eq_l a b c).
Qed.

Lemma Compare_eq_sym a b : Compare a b = Eq -> Compare b a = Eq.
Proof. intros H. by rewrite Compare_antisym, H. Qed.

Lemma Compare_gt_lt a b : Compare a b = Gt <-> Compare b a = Lt.
Proof. rewrite (Compare_antisym a b). destruct (Compare a b); done. Qed.

Lemma Compare_lt_gt a b : Compare a b = Lt <-> Compare b a = Gt.
Proof. by rewrite Compare_gt_lt. Qed.

Lemma Compare_le_lt_trans a b c : Compare a b <> Gt -> Compare b c = Lt -> Compare a c = Lt.
Proof.
  intros Hab Hbc. destruct (Compare a b) eqn:E; try done.
  - by rewrite (Compare_eq_l a b c).
  - by apply (Compare_lt_trans a b c).
Qed.

Lemma Compare_lt_le_trans a b c : Compare a b = Lt -> Compare b c <> Gt -> Compare a c = Lt.
Proof.
  intros Hab Hbc. destruct (Compare b c) eqn:E; try done.
  - by rewrite <- (Compare_eq_r b c a).
  - by apply (Compare_lt_trans a b c).
Qed.

Lemma Compare_le_trans a b c : Compare a b <> Gt -> Compare b c <> Gt -> Compare a c <> Gt.
Proof.
  intros Hab Hbc. destruct (Compare b c) eqn:E; try done.
  - by rewrite <- (Compare_eq_r b c a).
  - by rewrite (Compare_le_lt_trans a b c).
Qed.

Lemma Compare_nlt_le a b : Compare a b <> Lt <-> Compare b a <> Gt.
Proof. by rewrite <- Compare_lt_gt. Qed.

Lemma Compare_ngt_le a b : Compare a b <> Gt <-> Compare b a <> Lt.
Proof. by rewrite Compare_gt_lt. Qed.
End Order.

(** ** The byte-wise comparator *)

Definition bytewise_FindShortestSeparator (start limit : bytes) : bytes :=
  let min_length := Nat.min (length start) (length limit) in
  let diff_index := shared_prefix start limit in
  if Nat.leb min_length diff_index then start
  else
    let diff_byte := byte_at start diff_index in
    if (diff_byte <? 255) && (diff_byte + 1 <? byte_at limit diff_index) then
      take (S diff_index) (<[diff_index := byte_of_Z (diff_byte + 1)]> start)
    else start.

(** The index at which the scan for a byte other than 0xff stops. *)
Fixpoint find_not_ff (key : bytes) (i : nat) : option nat :=
  match key with
  | [] => None
  | b :: key' => if byte_to_Z b =? 255 then find_not_ff key' (S i) else Some i
  end.

Definition bytewise_FindShortSuccessor (key : bytes) : bytes :=
  match find_not_ff key 0 with
  | Some i => take (S i) (<[i := byte_of_Z (byte_at key i + 1)]> key)
  | None => key
  end.

#[export] Instance BytewiseComparator : Comparator := {|
  Compare := Slice_compare;
  FindShortestSeparator := bytewise_FindShortestSeparator;
  FindShortSuccessor := bytewise_FindShortSuccessor;
|}.

(** ** Lexicographic order *)

Fixpoint lex (a b : bytes) : comparison :=
  match a, b with
  | [], [] => Eq
  | [], _ :: _ => Lt
  | _ :: _, [] => Gt
  | x :: a', y :: b' =>
      match byte_to_Z x ?= byte_to_Z y with
      | Eq => lex a' b'
      | c => c
      end
  end.

Lemma Slice_compare_cons x a y b :
  Slice_compare (x :: a) (y :: b) =
  match byte_to_Z x ?= byte_to_Z y with Eq => Slice_compare a b | c => c end.
Proof.
  unfold Slice_compare. rewrite !zlen_cons.
  replace (1 + zlen a <? 1 + zlen b) with (zlen a <? zlen b) by (apply eq_true_iff_eq; rewrite !Z.ltb_lt; lia).
  replace (1 + zlen b <? 1 + zlen a) with (zlen b <? zlen a) by (apply eq_true_iff_eq; rewrite !Z.ltb_lt; lia).
  destruct (zlen a <? zlen b); cbn [length memcmp]; destruct (byte_to_Z x ?= byte_to_Z y); done.
Qed.

Lemma Slice_compare_lex a b : Slice_compare a b = lex a b.
Proof.
  revert b. induction a as [|x a IH]; intros [|y b]; try done.
  rewrite Slice_compare_cons, IH. done.
Qed.

Lemma lex_refl a : lex a a = Eq.
Proof. induction a as [|x a IH]; simpl; [done|]. by rewrite Z.compare_refl. Qed.

Lemma lex_eq a b : lex a b = Eq -> a = b.
Proof.
  revert b. induction a as [|x a IH]; intros [|y b]; simpl; try done.
  destruct (Z.compare_spec (byte_to_Z x) (byte_to_Z y)) as [E| |]; try done.
  apply byte_to_Z_inj in E. intros ?%IH. by subst.
Qed.

Lemma lex_antisym a b : lex b a = CompOpp (lex a b).
Proof.
  revert b. induction a as [|x a IH]; intros [|y b]; simpl; try done.
  rewrite (Z.compare_antisym (byte_to_Z x)). destruct (byte_to_Z x ?= byte_to_Z y); simpl; auto.
Qed.

Lemma lex_lt_trans a b c : lex a b = Lt -> lex b c = Lt -> lex a c = Lt.
Proof.
  revert b c. induction a as [|x a IH]; intros [|y b] [|z c]; simpl; try done.
  destruct (Z.compare_spec (byte_to_Z x) (byte_to_Z y)), (Z.compare_spec (byte_to_Z y) (byte_to_Z z)),
    (Z.compare_spec (byte_to_Z x) (byte_to_Z z)); try done; try lia. apply IH.
Qed.

Lemma lex_app_prefix p a b : lex (p ++ a) (p ++ b) = lex a b.
Proof. induction p as [|x p IH]; simpl; [done|]. by rewrite Z.compare_refl. Qed.

Lemma lex_snoc_lt p x y a b : byte_to_Z x < byte_to_Z y -> lex (p ++ x :: a) (p ++ y :: b) = Lt.
Proof. intros. rewrite lex_app_prefix. simpl. by rewrite (proj2 (Z.compare_lt_iff _ _)). Qed.

(** What the separator can be: [start] itself, or the common prefix followed
    by the successor of the first differing byte. *)
Lemma bytewise_separator_cases start limit :
  bytewise_FindShortestSeparator start limit = start \/
  exists p x y a b, start = p ++ x :: a /\ limit = p ++ y :: b /\
    byte_to_Z x + 1 < byte_to_Z y /\
    bytewise_FindShortestSeparator start limit = p ++ [byte_of_Z (byte_to_Z x + 1)].
Proof.
  unfold bytewise_FindShortestSeparator.
  pose proof (shared_prefix_le start limit) as [Hl1 Hl2].
  destruct (Nat.leb_spec (Nat.min (length start) (length limit)) (shared_prefix start limit)); [by left|].
  destruct (shared_prefix_split start limit) as [(k & H1 & H2)|[(k & H1 & H2)|(x & y & a & b & H1 & H2 & H3)]].
  { apply (f_equal length) in H1. rewrite length_take in H1. lia. }
  { apply (f_equal length) in H2. rewrite length_take in H2. lia. }
  set (p := take (shared_prefix start limit) start) in *.
  assert (Hp : shared_prefix start limit = length p) by (unfold p; rewrite length_take; lia).
  rewrite Hp. clearbody p. subst start limit. clear Hp Hl1 Hl2.
  assert (Hx : forall z l, byte_at (p ++ z :: l) (length p) = byte_to_Z z)
    by (intros; unfold byte_at; rewrite app_nth2, Nat.sub_diag by lia; done).
  rewrite !Hx. destruct (Z.ltb_spec (byte_to_Z x) 255), (Z.ltb_spec (byte_to_Z x + 1) (byte_to_Z y));
    simpl; [|by left..].
  right. exists p, x, y, a, b. rewrite take_S_insert_app. done.
Qed.

Lemma byte_of_succ x : byte_to_Z x < 255 -> byte_to_Z (byte_of_Z (byte_to_Z x + 1)) = byte_to_Z x + 1.
Proof. intros. pose proof (byte_to_Z_range x). rewrite byte_to_of_Z, Z.mod_small; lia. Qed.

Lemma find_not_ff_spec key n :
  match find_not_ff key n with
  | Some i => exists p x a, key = p ++ x :: a /\ i = (n + length p)%nat /\ byte_to_Z x < 255
  | None => Forall (fun b => byte_to_Z b = 255) key
  end.
Proof.
  revert n. induction key as [|b key IH]; intros n; simpl; [constructor|].
  destruct (Z.eqb_spec (byte_to_Z b) 255).
  - specialize (IH (S n)). destruct (find_not_ff key (S n)).
    + destruct IH as (p & x & a & -> & -> & ?). exists (b :: p), x, a. simpl. split; [done|]. split; [lia|done].
    + by constructor.
  - exists [], b, key. pose proof (byte_to_Z_range b). simpl. split; [done|]. lia.
Qed.

Lemma bytewise_successor_cases key :
  (bytewise_FindShortSuccessor key = key /\ Forall (fun b => byte_to_Z b = 255) key) \/
  exists p x a, key = p ++ x :: a /\ byte_to_Z x < 255 /\
    bytewise_FindShortSuccessor key = p ++ [byte_of_Z (byte_to_Z x + 1)].
Proof.
  unfold bytewise_FindShortSuccessor. pose proof (find_not_ff_spec key 0) as H.
  destruct (find_not_ff key 0) as [i|]; [|by left].
  destruct H as (p & x & a & -> & -> & Hx). right. exists p, x, a. simpl.
  unfold byte_at. rewrite app_nth2, Nat.sub_diag by lia. simpl.
  by rewrite take_S_insert_app.
Qed.

#[export] Instance BytewiseComparator_laws : ComparatorLaws BytewiseComparator.
Proof.
  split; simpl; intros *; rewrite ?Slice_compare_lex.
  - apply lex_refl.
  - apply lex_antisym.
  - apply lex_lt_trans.
  - intros ->%lex_eq. done.
  - destruct (bytewise_separator_cases s l) as [->|(p & x & y & a & b & -> & -> & Hxy & ->)].
    + by rewrite lex_refl.
    + intros _. pose proof (byte_to_Z_range y). rewrite lex_snoc_lt; [done|]. rewrite byte_of_succ; lia.
  - destruct (bytewise_separator_cases s l) as [->|(p & x & y & a & b & -> & -> & Hxy & ->)]; [done|].
    intros _. pose proof (byte_to_Z_range y). apply lex_snoc_lt. rewrite byte_of_succ; lia.
  - intros ->%lex_eq. destruct (bytewise_separator_cases l l) as [->|(p & x & y & a & b & H1 & H2 & Hxy & _)].
    + apply lex_refl.
    + rewrite H1 in H2. simplify_list_eq. lia.
  - destruct (bytewise_successor_cases k) as [[-> _]|(p & x & a & -> & Hx & ->)].
    + by rewrite lex_refl.
    + rewrite lex_snoc_lt; [done|]. rewrite byte_of_succ; lia.
Qed.

(** The byte-wise order identifies no two different keys. *)
Lemma bytewise_Compare_eq (a b : bytes) : Compare a b = Eq <-> a = b.
Proof. simpl. rewrite Slice_compare_lex. split; [apply lex_eq|intros ->; apply lex_refl]. Qed.

Lemma memcmp_take x s :
  memcmp s x (length x) = Eq -> (length x <= length s)%nat -> s = x ++ drop (length x) s.
Proof.
  revert s. induction x as [|y x IH]; intros [|z s]; simpl; try done; try lia.
  destruct (Z.compare_spec (byte_to_Z z) (byte_to_Z y)) as [E| |]; try done.
  apply byte_to_Z_inj in E as ->. intros. f_equal. apply IH; [done|lia].
Qed.

Lemma memcmp_app x s : memcmp (x ++ s) x (length x) = Eq.
Proof. induction x as [|y x IH]; simpl; [done|]. by rewrite Z.compare_refl. Qed.

Lemma Slice_starts_with_spec s x : Slice_starts_with s x = true <-> s = x ++ drop (length x) s.
Proof.
  unfold Slice_starts_with. rewrite andb_true_iff, Z.leb_le. split.
  - intros [Hl Hm]. destruct (memcmp s x (length x)) eqn:E; try done.
    apply memcmp_take; [done|ilia].
  - intros Hs. rewrite Hs, zlen_app, memcmp_app. split; [|done]. ilia.
Qed.

Lemma Slice_eqb_eq x y : Slice_eqb x y = true <-> x = y.
Proof.
  unfold Slice_eqb. rewrite andb_true_iff, Z.eqb_eq. split.
  - intros [Hl Hm]. assert (Hll : length x = length y) by ilia. rewrite Hll in Hm.
    destruct (memcmp x y (length y)) eqn:E; try done.
    rewrite (memcmp_take y x E) by lia. rewrite <- Hll, drop_all, app_nil_r. done.
  - intros ->. split; [done|]. rewrite <- (app_nil_r y) at 1. by rewrite memcmp_app.
Qed.

(** ** Properties *)

(** The keys the byte-wise comparator makes up for index blocks separate:
    for [start < limit] the separator is in [start, limit) and not longer than
    [start]; the successor of a key is not below it, not longer, and only a run
    of 0xff bytes keeps its full length when no byte can be incremented. *)
Theorem bytewise_separator_correct (start limit key : bytes)
    (Hlt : Slice_compare start limit = Lt) :
  let sep := bytewise_FindShortestSeparator start limit in
  let succ := bytewise_FindShortSuccessor key in
  Slice_compare start sep <> Gt /\ Slice_compare sep limit = Lt /\
  (length sep <= length start)%nat /\
  Slice_compare key succ <> Gt /\ (length succ <= length key)%nat /\
  (succ = key -> Forall (fun b => byte_to_Z b = 255) key).
Proof.
  intros sep succ. split; [|split; [|split; [|split; [|split]]]].
  - apply (separator_ge (C := BytewiseComparator)). simpl. by rewrite Hlt.
  - by apply (separator_lt (C := BytewiseComparator)).
  - destruct (bytewise_separator_cases start limit) as [E|(p & x & y & a & b & -> & _ & _ & E)];
      unfold sep; rewrite E; rewrite ?length_app; simpl; lia.
  - apply (successor_ge (C := BytewiseComparator)).
  - destruct (bytewise_successor_cases key) as [[E _]|(p & x & a & -> & _ & E)];
      unfold succ; rewrite E; rewrite ?length_app; simpl; lia.
  - destruct (bytewise_successor_cases key) as [[_ H]|(p & x & a & -> & Hx & E)]; [done|].
    unfold succ. rewrite E. intros Hs. apply app_inv_head in Hs. injection Hs as Hs _.
    apply (f_equal byte_to_Z) in Hs. rewrite byte_of_succ in Hs by done. lia.
Qed.

Lemma bytewise_separator_correct_witness :
  Slice_compare (cstr "the quick brown fox") (cstr "the who") = Lt /\
  bytewise_FindShortestSeparator (cstr "the quick brown fox") (cstr "the who") = cstr "the r" /\
  Slice_compare (cstr "the quick brown fox") (cstr "the r") <> Gt.
Proof.
  split; [reflexivity|]. split; [vm_compute; reflexivity|].
  exact (proj1 (bytewise_separator_correct (cstr "the quick brown fox") (cstr "the who") []
    eq_refl)).
Defined.
