(* ===== verification/Logging.v ===== *)
(** * util/logging: numbers and escaped strings as text

    Models src/util/logging.cc.  [snprintf] with the formats the file uses is
    written out on integers. *)

From S2P Require Import Prelude Coding.

Definition kMaxUint64 : Z := 2 ^ 64 - 1.

(** The digit characters of ["%llu"], most significant first. *)
Fixpoint decimal_loop (fuel : nat) (n : Z) (acc : bytes) : bytes :=
  match fuel with
  | O => acc
  | S f =>
      let acc' := byte_of_Z (48 + n mod 10) :: acc in
      if n / 10 =? 0 then acc' else decimal_loop f (n / 10) acc'
  end.

(** A 64-bit number has at most 20 decimal digits. *)
Definition format_llu (n : Z) : bytes := decimal_loop 20 n [].

Definition AppendNumberTo (str : bytes) (num : Z) : bytes := str ++ format_llu num.
Definition NumberToString (num : Z) : bytes := AppendNumberTo [] num.

(** ["\\x%02x"] of one byte. *)
Definition hex_digit (d : Z) : byte := byte_of_Z (if d <? 10 then 48 + d else 87 + d).
Definition format_x02 (c : byte) : bytes :=
  cstr "\x" ++ [hex_digit (byte_to_Z c / 16); hex_digit (byte_to_Z c mod 16)].

Fixpoint AppendEscapedStringTo (str value : bytes) : bytes :=
  match value with
  | [] => str
  | c :: value' =>
      if (32 <=? byte_to_Z c) && (byte_to_Z c <=? 126)
      then AppendEscapedStringTo (str ++ [c]) value'
      else AppendEscapedStringTo (str ++ format_x02 c) value'
  end.

Definition EscapeString (value : bytes) : bytes := AppendEscapedStringTo [] value.

(** The scan of [ConsumeDecimalNumber]: [None] on overflow, otherwise the value
    and what follows the digits. *)
Fixpoint ConsumeDecimalNumber_loop (current : bytes) (value : Z) : option (Z * bytes) :=
  match current with
  | [] => Some (value, [])
  | c :: current' =>
      let ch := byte_to_Z c in
      if (ch <? 48) || (57 <? ch) then Some (value, current)
      else if (kMaxUint64 / 10 <? value)
              || ((value =? kMaxUint64 / 10) && (48 + kMaxUint64 mod 10 <? ch))
      then None
      else ConsumeDecimalNumber_loop current' (u64 (value * 10 + (ch - 48)))
  end.

(** [None] when the code returns false: overflow, or no digit consumed. *)
Definition ConsumeDecimalNumber (input : bytes) : option (Z * bytes) :=
  match ConsumeDecimalNumber_loop input 0 with
  | Some (value, rest) =>
      if Nat.eqb (length input - length rest) 0 then None else Some (value, rest)
  | None => None
  end.

(** ** Decimal notation *)

Definition is_digit (b : byte) : Prop := 48 <= byte_to_Z b <= 57.

(** The number a digit string denotes. *)
Definition digits_value (ds : bytes) : Z :=
  fold_left (fun v c => v * 10 + (byte_to_Z c - 48)) ds 0.

Definition no_digit_ahead (rest : bytes) : Prop :=
  match rest with [] => True | b :: _ => ~ is_digit b end.

Lemma digits_value_from ds v :
  fold_left (fun v c => v * 10 + (byte_to_Z c - 48)) ds v
  = v * 10 ^ zlen ds + digits_value ds.
Proof.
  unfold digits_value. revert v. induction ds as [|d ds IH]; intros v.
  - unfold zlen. simpl. lia.
  - cbn [fold_left]. rewrite IH, (IH (0 * 10 + _)), zlen_cons.
    rewrite Z.pow_add_r by ilia. lia.
Qed.

Lemma digits_value_nonneg ds : Forall is_digit ds -> 0 <= digits_value ds.
Proof.
  unfold digits_value. assert (forall v, 0 <= v -> Forall is_digit ds ->
    0 <= fold_left (fun v c => v * 10 + (byte_to_Z c - 48)) ds v); [|auto with lia].
  induction ds as [|d ds IH]; intros v Hv Hd; [done|].
  inversion_clear Hd as [|? ? Hd1 Hd2]. cbn [fold_left]. apply IH; [|done].
  unfold is_digit in Hd1. lia.
Qed.

Lemma ConsumeDecimalNumber_loop_spec ds rest v :
  Forall is_digit ds -> no_digit_ahead rest -> 0 <= v < 2 ^ 64 ->
  let total := v * 10 ^ zlen ds + digits_value ds in
  ConsumeDecimalNumber_loop (ds ++ rest) v =
  if total <? 2 ^ 64 then Some (total, rest) else None.
Proof.
  intros Hd Hr. revert v. induction Hd as [|d ds Hd1 Hd2 IH]; intros v Hv total.
  - subst total. unfold zlen, digits_value. simpl length. simpl fold_left. simpl app.
    rewrite Z.mul_1_r, Z.add_0_r. rewrite (proj2 (Z.ltb_lt _ _)) by lia.
    destruct rest as [|r rest]; [done|]. cbn [ConsumeDecimalNumber_loop].
    simpl in Hr. unfold is_digit in Hr.
    destruct (Z.ltb_spec (byte_to_Z r) 48), (Z.ltb_spec 57 (byte_to_Z r)); try done. lia.
  - unfold is_digit in Hd1. cbn [app ConsumeDecimalNumber_loop].
    destruct (Z.ltb_spec (byte_to_Z d) 48), (Z.ltb_spec 57 (byte_to_Z d)); try lia. simpl orb at 1.
    assert (Htot : total = (v * 10 + (byte_to_Z d - 48)) * 10 ^ zlen ds + digits_value ds).
    { subst total. unfold digits_value at 1. cbn [fold_left].
      rewrite digits_value_from, zlen_cons, Z.pow_add_r by ilia. lia. }
    assert (Hp : 1 <= 10 ^ zlen ds) by (apply (Z.pow_le_mono_r 10 0); ilia).
    pose proof (digits_value_nonneg ds Hd2).
    change (kMaxUint64 / 10) with 1844674407370955161. change (48 + kMaxUint64 mod 10) with 53.
    destruct (Z.ltb_spec 1844674407370955161 v); simpl orb.
    { rewrite Htot, (proj2 (Z.ltb_ge _ _)) by nia. done. }
    destruct (Z.eqb_spec v 1844674407370955161), (Z.ltb_spec 53 (byte_to_Z d)); simpl andb;
      cbv iota.
    { rewrite Htot, (proj2 (Z.ltb_ge _ _)) by nia. done. }
    all: rewrite u64_small, IH, Htot by lia; done.
Qed.

Lemma ConsumeDecimalNumber_digits ds rest :
  ds <> [] -> Forall is_digit ds -> no_digit_ahead rest ->
  ConsumeDecimalNumber (ds ++ rest) =
  if digits_value ds <? 2 ^ 64 then Some (digits_value ds, rest) else None.
Proof.
  intros Hne Hd Hr. unfold ConsumeDecimalNumber.
  rewrite ConsumeDecimalNumber_loop_spec by (done || lia). simpl.
  destruct (_ <? _); [|done]. rewrite length_app.
  destruct ds; [done|]. rewrite (proj2 (Nat.eqb_neq _ _)) by (simpl; lia). done.
Qed.

Lemma decimal_loop_spec fuel n acc :
  0 <= n < 10 ^ Z.of_nat fuel ->
  (1 <= fuel)%nat ->
  exists ds, decimal_loop fuel n acc = ds ++ acc /\ ds <> [] /\
    Forall is_digit ds /\ digits_value ds = n /\ (length ds <= fuel)%nat.
Proof.
  revert n acc. induction fuel as [|f IH]; intros n acc Hn Hf; [lia|].
  cbn [decimal_loop]. pose proof (Z.mod_pos_bound n 10 ltac:(lia)).
  pose proof (Z.div_mod n 10 ltac:(lia)).
  assert (Hd : byte_to_Z (byte_of_Z (48 + n mod 10)) = 48 + n mod 10)
    by (rewrite byte_to_of_Z, Z.mod_small; lia).
  destruct (Z.eqb_spec (n / 10) 0) as [E|E].
  - exists [byte_of_Z (48 + n mod 10)]. split; [done|]. split; [done|]. split; [|split].
    + constructor; [|constructor]. unfold is_digit. lia.
    + unfold digits_value. cbn [fold_left]. lia.
    + simpl. lia.
  - assert (Hb : 0 <= n / 10 < 10 ^ Z.of_nat f).
    { split; [apply Z.div_pos; lia|]. apply Z.div_lt_upper_bound; [lia|].
      rewrite Nat2Z.inj_succ, Z.pow_succ_r in Hn; lia. }
    destruct f as [|f']; [simpl in Hb; lia|].
    destruct (IH (n / 10) (byte_of_Z (48 + n mod 10) :: acc) Hb ltac:(lia))
      as (ds & -> & Hne & Hdig & Hval & Hlen).
    exists (ds ++ [byte_of_Z (48 + n mod 10)]). rewrite <- app_assoc. split; [done|].
    split; [by destruct ds|]. split; [|split].
    + apply Forall_app. split; [done|]. constructor; [|constructor]. unfold is_digit. lia.
    + unfold digits_value in *. rewrite fold_left_app, Hval. cbn [fold_left]. lia.
    + rewrite length_app. simpl. lia.
Qed.

Lemma format_llu_spec n :
  0 <= n < 2 ^ 64 ->
  format_llu n <> [] /\ Forall is_digit (format_llu n) /\ digits_value (format_llu n) = n.
Proof.
  intros Hn. destruct (decimal_loop_spec 20 n []) as (ds & E & ? & ? & ? & _); [lia..|].
  rewrite app_nil_r in E. unfold format_llu. rewrite E. done.
Qed.

(** ** Properties *)

(** Parsing a run of decimal digits returns exactly the number it denotes
    and stops at the first other character; a number that does not fit 64 bits
    is rejected, never wrapped.  In particular what [AppendNumberTo] prints is
    read back. *)
Theorem decimal_number_correct (ds rest : bytes) (n : Z)
    (Hne : ds <> []) (Hd : Forall is_digit ds) (Hr : no_digit_ahead rest)
    (Hn : 0 <= n < 2 ^ 64) :
  ConsumeDecimalNumber (ds ++ rest)
    = (if digits_value ds <? 2 ^ 64 then Some (digits_value ds, rest) else None) /\
  ConsumeDecimalNumber (AppendNumberTo [] n ++ rest) = Some (n, rest).
Proof.
  split; [by apply ConsumeDecimalNumber_digits|].
  destruct (format_llu_spec n Hn) as (H1 & H2 & H3). unfold AppendNumberTo. simpl.
  rewrite ConsumeDecimalNumber_digits by done. rewrite H3, (proj2 (Z.ltb_lt _ _)) by lia. done.
Qed.

Lemma decimal_number_correct_witness :
  ConsumeDecimalNumber (cstr "18446744073709551616" ++ cstr ".log") = None /\
  ConsumeDecimalNumber (AppendNumberTo [] 18446744073709551615 ++ cstr ".log")
  = Some (18446744073709551615, cstr ".log").
Proof.
  refine (decimal_number_correct (cstr "18446744073709551616") (cstr ".log")
            18446744073709551615 _ _ _ _).
  - done.
  - repeat constructor; done.
  - intros [H _]. by apply H.
  - lia.
Defined.
