(* ===== verification/Crc32c.v ===== *)
(** * util/crc32c: the portable CRC-32C

    Models src/util/crc32c.cc and src/util/crc32c.h: the byte loop, the four
    interleaved strides, and the combination of their partial results.  A
    buffer is the address of its first byte with the list of its bytes; the
    macros STEP1, STEP4, STEP16 and STEP4W are functions of the same names.
    [port::AcceleratedCRC32C] is a parameter: its code is not in this file's
    component, and it answers zero where the processor has no support. *)

From Stdlib Require Import Btauto.
From S2P Require Import Prelude Coding CrcTables.

Definition kCRC32Xor : Z := 0xffffffff.

Definition ReadUint32LE (buffer : bytes) : Z := DecodeFixed32 buffer.

(** [table[i]]; every index the code uses is masked to eight bits or is the
    top byte of a 32-bit word. *)
Definition table_at (table : list Z) (i : Z) : Z := nth (Z.to_nat i) table 0.

Definition RoundUp (N pointer : Z) : Z := Z.land (u64 (pointer + (N - 1))) (u64 (Z.lnot (N - 1))).

Definition STEP1 (l : Z) (b : byte) : Z :=
  let c := Z.lxor (Z.land l 0xff) (byte_to_Z b) in
  Z.lxor (table_at kByteExtensionTable c) (Z.shiftr l 8).

(** [STEP4(s)]: [crc] is [crc##s], and [p] points at the stride's word. *)
Definition STEP4 (crc : Z) (p : bytes) : Z :=
  Z.lxor (Z.lxor (Z.lxor (Z.lxor (ReadUint32LE p)
    (table_at kStrideExtensionTable3 (Z.land crc 0xff)))
    (table_at kStrideExtensionTable2 (Z.land (Z.shiftr crc 8) 0xff)))
    (table_at kStrideExtensionTable1 (Z.land (Z.shiftr crc 16) 0xff)))
    (table_at kStrideExtensionTable0 (Z.shiftr crc 24)).

(** The four partial results. *)
Record Strides := mkStrides { crc0 : Z; crc1 : Z; crc2 : Z; crc3 : Z }.

Definition STEP16 (s : Strides) (p : bytes) : Strides * bytes :=
  (mkStrides (STEP4 (crc0 s) p) (STEP4 (crc1 s) (drop 4 p))
             (STEP4 (crc2 s) (drop 8 p)) (STEP4 (crc3 s) (drop 12 p)),
   drop 16 p).

(** One round of the inner loop of [STEP4W]. *)
Definition word_round (w : Z) : Z :=
  Z.lxor (Z.shiftr w 8) (table_at kByteExtensionTable (Z.land w 0xff)).

(** [STEP4W(w)]: the new value of [l]. *)
Definition STEP4W (l w : Z) : Z :=
  word_round (word_round (word_round (word_round (Z.lxor w l)))).

(** [while (p != x) { STEP1; }], [p] at address [a]. *)
Fixpoint align_loop (l : Z) (p : bytes) (a x : Z) : Z * bytes :=
  match p with
  | [] => (l, [])
  | b :: p' => if a =? x then (l, p) else align_loop (STEP1 l b) p' (a + 1) x
  end.

(** [while ((e - p) >= 16) { STEP16; }] *)
Fixpoint swath_loop (fuel : nat) (s : Strides) (p : bytes) : Strides * bytes :=
  match fuel with
  | O => (s, p)
  | S f =>
      if 16 <=? zlen p then let '(s', p') := STEP16 s p in swath_loop f s' p'
      else (s, p)
  end.

(** [while ((e - p) >= 4) { STEP4(0); rotate; p += 4; }] *)
Fixpoint word_loop (fuel : nat) (s : Strides) (p : bytes) : Strides * bytes :=
  match fuel with
  | O => (s, p)
  | S f =>
      if 4 <=? zlen p then
        word_loop f (mkStrides (crc1 s) (crc2 s) (crc3 s) (STEP4 (crc0 s) p)) (drop 4 p)
      else (s, p)
  end.

(** The part of [Extend] after the buffer is aligned. *)
Definition Extend_aligned (l : Z) (p : bytes) : Z * bytes :=
  if 16 <=? zlen p then
    let s := mkStrides (Z.lxor (ReadUint32LE p) l) (ReadUint32LE (drop 4 p))
                       (ReadUint32LE (drop 8 p)) (ReadUint32LE (drop 12 p)) in
    let '(s, p) := swath_loop (length p) s (drop 16 p) in
    let '(s, p) := word_loop (length p) s p in
    (STEP4W (STEP4W (STEP4W (STEP4W 0 (crc0 s)) (crc1 s)) (crc2 s)) (crc3 s), p)
  else (l, p).

(** The processing of [data], at address [addr], by the portable code. *)
Definition Extend_portable (crc addr : Z) (data : bytes) : Z :=
  let l := Z.lxor crc kCRC32Xor in
  let x := RoundUp 4 addr in
  let '(l, p) := if x <=? addr + zlen data then align_loop l data addr x else (l, data) in
  let '(l, p) := Extend_aligned l p in
  Z.lxor (fold_left STEP1 p l) kCRC32Xor.

Definition kTestCRCBuffer : bytes := cstr "TestCRCBuffer".
Definition kTestCRCValue : Z := 0xdcbc59fa.

Section Accelerated.
(** [port::AcceleratedCRC32C(crc, buf, size)] *)
Variable AcceleratedCRC32C : Z -> bytes -> Z.

Definition CanAccelerateCRC32C : bool :=
  AcceleratedCRC32C 0 kTestCRCBuffer =? kTestCRCValue.

Definition Extend (crc addr : Z) (data : bytes) : Z :=
  if CanAccelerateCRC32C then AcceleratedCRC32C crc data
  else Extend_portable crc addr data.

Definition Value (addr : Z) (data : bytes) : Z := Extend 0 addr data.
End Accelerated.

Definition kMaskDelta : Z := 0xa282ead8.

Definition Mask (crc : Z) : Z :=
  u32 (Z.lor (Z.shiftr crc 15) (u32 (Z.shiftl crc 17)) + kMaskDelta).

Definition Unmask (masked_crc : Z) : Z :=
  let rot := u32 (masked_crc - kMaskDelta) in
  Z.lor (Z.shiftr rot 17) (u32 (Z.shiftl rot 15)).

(** ** Reference: CRC-32C bit by bit *)

(** The Castagnoli polynomial, bits reversed. *)
Definition crc_poly : Z := 0x82f63b78.

Definition crc_bit (s : Z) : Z :=
  Z.lxor (Z.shiftr s 1) (if Z.testbit s 0 then crc_poly else 0).

Definition zero_byte (s : Z) : Z := Nat.iter 8 crc_bit s.
Definition zeros (n : nat) (s : Z) : Z := Nat.iter n zero_byte s.
Definition crc_byte (s : Z) (b : byte) : Z := zero_byte (Z.lxor s (byte_to_Z b)).
Definition crc_update (s : Z) (data : bytes) : Z := fold_left crc_byte data s.

(** The CRC of a string, given the CRC of what precedes it. *)
Definition crc32c (crc : Z) (data : bytes) : Z :=
  Z.lxor (crc_update (Z.lxor crc kCRC32Xor) data) kCRC32Xor.

(** ** The register is linear *)

Lemma crc_bit_lxor a b : crc_bit (Z.lxor a b) = Z.lxor (crc_bit a) (crc_bit b).
Proof.
  unfold crc_bit. rewrite Z.lxor_spec.
  destruct (Z.testbit a 0), (Z.testbit b 0); simpl xorb; cbv iota; zbits;
    rewrite ?Z.bits_0; btauto.
Qed.

Lemma zero_byte_lxor a b : zero_byte (Z.lxor a b) = Z.lxor (zero_byte a) (zero_byte b).
Proof. unfold zero_byte. simpl. rewrite !crc_bit_lxor. done. Qed.

Lemma zeros_lxor n a b : zeros n (Z.lxor a b) = Z.lxor (zeros n a) (zeros n b).
Proof. unfold zeros. induction n as [|n IH]; simpl; [done|]. rewrite IH. apply zero_byte_lxor. Qed.

Lemma zeros_add n m a : zeros (n + m) a = zeros n (zeros m a).
Proof. unfold zeros. induction n as [|n IH]; simpl; [done|]. by rewrite IH. Qed.

Lemma crc_bit_range s : 0 <= s < 2 ^ 32 -> 0 <= crc_bit s < 2 ^ 32.
Proof.
  intros Hs. apply lxor_range; [lia|apply shiftr_range; lia|].
  unfold crc_poly. destruct (Z.testbit s 0); lia.
Qed.

Lemma zero_byte_range s : 0 <= s < 2 ^ 32 -> 0 <= zero_byte s < 2 ^ 32.
Proof. intros Hs. unfold zero_byte. simpl. by do 8 apply crc_bit_range. Qed.

Lemma zeros_range n s : 0 <= s < 2 ^ 32 -> 0 <= zeros n s < 2 ^ 32.
Proof. intros Hs. unfold zeros. induction n; simpl; [done|]. by apply zero_byte_range. Qed.

(** A byte of zeros moves the upper bytes down. *)
Lemma zero_byte_shift x : zero_byte (Z.shiftl x 8) = x.
Proof.
  assert (H : forall j k, 0 <= k -> j = k + 1 -> crc_bit (Z.shiftl x j) = Z.shiftl x k).
  { intros j k Hk ->. unfold crc_bit. rewrite Z.shiftl_spec_low by lia.
    rewrite Z.lxor_0_r, Z.shiftr_shiftl_l by lia. f_equal. lia. }
  unfold zero_byte. simpl.
  rewrite (H 8 7), (H 7 6), (H 6 5), (H 5 4), (H 4 3), (H 3 2), (H 2 1), (H 1 0) by lia.
  apply Z.shiftl_0_r.
Qed.

Lemma zeros_shift n x : zeros n (Z.shiftl x (8 * Z.of_nat n)) = x.
Proof.
  induction n as [|n IH]; [by rewrite Z.shiftl_0_r|].
  replace (S n) with (n + 1)%nat by lia. rewrite zeros_add.
  replace (8 * Z.of_nat (n + 1)) with (8 * Z.of_nat n + 8) by lia.
  rewrite <- Z.shiftl_shiftl by lia.
  change (zeros 1 ?a) with (zero_byte a). by rewrite zero_byte_shift.
Qed.

Lemma zeros_shift_add n m x : zeros (n + m) (Z.shiftl x (8 * Z.of_nat m)) = zeros n x.
Proof. by rewrite zeros_add, zeros_shift. Qed.

(** ** What the tables hold *)

Definition table_ok (table : list Z) (n : nat) (k : Z) : bool :=
  forallb (fun i => table_at table (Z.of_nat i) =? zeros n (Z.shiftl (Z.of_nat i) k)) (seq 0 256).

Lemma table_ok_at table n k i :
  table_ok table n k = true -> 0 <= i < 256 -> table_at table i = zeros n (Z.shiftl i k).
Proof.
  intros H Hi. unfold table_ok in H. rewrite forallb_forall in H.
  specialize (H (Z.to_nat i)). rewrite Z2Nat.id in H by lia.
  apply Z.eqb_eq, H, in_seq. lia.
Qed.

Lemma byte_table_ok : table_ok kByteExtensionTable 1 0 = true.
Proof. vm_compute. done. Qed.
Lemma stride_table3_ok : table_ok kStrideExtensionTable3 16 0 = true.
Proof. vm_compute. done. Qed.
Lemma stride_table2_ok : table_ok kStrideExtensionTable2 16 8 = true.
Proof. vm_compute. done. Qed.
Lemma stride_table1_ok : table_ok kStrideExtensionTable1 16 16 = true.
Proof. vm_compute. done. Qed.
Lemma stride_table0_ok : table_ok kStrideExtensionTable0 16 24 = true.
Proof. vm_compute. done. Qed.

(** ** The steps *)

Lemma land_255_range a : 0 <= Z.land a 255 < 256.
Proof. rewrite land_255. apply Z.mod_pos_bound. lia. Qed.

(** Splitting off the low byte of a word. *)
Lemma split_low_byte a : a = Z.lxor (Z.land a 255) (Z.shiftl (Z.shiftr a 8) 8).
Proof.
  apply Z.bits_inj'. intros i Hi. rewrite Z.lxor_spec, Z.land_spec, Z.shiftl_spec by lia.
  change 255 with (Z.ones 8). destruct (Z.lt_ge_cases i 8).
  - rewrite Z.ones_spec_low, (Z.testbit_neg_r _ (i - 8)) by lia. btauto.
  - rewrite Z.ones_spec_high, Z.shiftr_spec, Z.sub_add by lia. btauto.
Qed.

Lemma lxor_shuffle a b c : Z.lxor (Z.lxor a b) c = Z.lxor (Z.lxor a c) b.
Proof. rewrite !Z.lxor_assoc. f_equal. apply Z.lxor_comm. Qed.

Lemma STEP1_crc l b : 0 <= l < 2 ^ 32 -> STEP1 l b = crc_byte l b.
Proof.
  intros Hl. unfold STEP1, crc_byte.
  rewrite (table_ok_at _ 1 0) by
    (apply byte_table_ok || (apply (lxor_range _ _ 8); [lia|apply land_255_range|apply byte_to_Z_range])).
  rewrite Z.shiftl_0_r. change (zeros 1 ?a) with (zero_byte a).
  replace (Z.lxor l (byte_to_Z b)) with
    (Z.lxor (Z.lxor (Z.land l 255) (byte_to_Z b)) (Z.shiftl (Z.shiftr l 8) 8))
    by (rewrite lxor_shuffle, <- split_low_byte; done).
  rewrite (zero_byte_lxor _ (Z.shiftl _ 8)), zero_byte_shift. done.
Qed.

Lemma crc_byte_range l b : 0 <= l < 2 ^ 32 -> 0 <= crc_byte l b < 2 ^ 32.
Proof.
  intros Hl. apply zero_byte_range, lxor_range; [lia|done|].
  pose proof (byte_to_Z_range b). lia.
Qed.

Lemma crc_update_range p l : 0 <= l < 2 ^ 32 -> 0 <= crc_update l p < 2 ^ 32.
Proof.
  revert l. induction p as [|b p IH]; intros l Hl; simpl; [done|].
  by apply IH, crc_byte_range.
Qed.

Lemma STEP1_fold p l : 0 <= l < 2 ^ 32 -> fold_left STEP1 p l = crc_update l p.
Proof.
  revert l. induction p as [|b p IH]; intros l Hl; simpl; [done|].
  rewrite STEP1_crc by done. by apply IH, crc_byte_range.
Qed.

Lemma word_round_crc w : 0 <= w < 2 ^ 32 -> word_round w = zero_byte w.
Proof.
  intros Hw. unfold word_round.
  rewrite (table_ok_at _ 1 0) by (apply byte_table_ok || apply land_255_range).
  rewrite Z.shiftl_0_r. change (zeros 1 ?a) with (zero_byte a).
  transitivity (zero_byte (Z.lxor (Z.land w 255) (Z.shiftl (Z.shiftr w 8) 8))).
  - rewrite zero_byte_lxor, zero_byte_shift. apply Z.lxor_comm.
  - by rewrite <- split_low_byte.
Qed.

Lemma STEP4W_crc l w :
  0 <= l < 2 ^ 32 -> 0 <= w < 2 ^ 32 -> STEP4W l w = zeros 4 (Z.lxor w l).
Proof.
  intros Hl Hw. pose proof (lxor_range w l 32 ltac:(lia) Hw Hl). unfold STEP4W, zeros. simpl.
  rewrite (word_round_crc (Z.lxor w l)) by done.
  do 3 rewrite (word_round_crc (zero_byte _)) by auto using zero_byte_range. done.
Qed.

(** Splitting a word into its four bytes. *)
Lemma split_word a : a =
  Z.lxor (Z.lxor (Z.lxor (Z.land a 255) (Z.shiftl (Z.land (Z.shiftr a 8) 255) 8))
    (Z.shiftl (Z.land (Z.shiftr a 16) 255) 16)) (Z.shiftl (Z.shiftr a 24) 24).
Proof.
  rewrite (split_low_byte a) at 1. rewrite (split_low_byte (Z.shiftr a 8)) at 1.
  rewrite (split_low_byte (Z.shiftr (Z.shiftr a 8) 8)) at 1.
  rewrite !Z.shiftr_shiftr by lia.
  rewrite !Z.shiftl_lxor, !Z.shiftl_shiftl by lia.
  rewrite !Z.lxor_assoc. done.
Qed.

Lemma STEP4_crc crc p :
  0 <= crc < 2 ^ 32 -> STEP4 crc p = Z.lxor (DecodeFixed32 p) (zeros 16 crc).
Proof.
  intros Hc. unfold STEP4, ReadUint32LE.
  assert (0 <= Z.shiftr crc 24 < 256).
  { rewrite Z.shiftr_div_pow2 by lia. split; [apply Z.div_pos; lia|].
    apply Z.div_lt_upper_bound; lia. }
  rewrite (table_ok_at _ _ _ _ stride_table3_ok (land_255_range _)),
    (table_ok_at _ _ _ _ stride_table2_ok (land_255_range _)),
    (table_ok_at _ _ _ _ stride_table1_ok (land_255_range _)),
    (table_ok_at _ _ _ _ stride_table0_ok) by done.
  rewrite (split_word crc) at 5. rewrite !zeros_lxor, Z.shiftl_0_r, !Z.lxor_assoc. done.
Qed.

(** A little-endian word is consumed like its four bytes. *)
Lemma crc_update_word l p :
  (4 <= length p)%nat ->
  crc_update l (take 4 p) = zeros 4 (Z.lxor (DecodeFixed32 p) l).
Proof.
  intros Hp. destruct p as [|b0 [|b1 [|b2 [|b3 p]]]]; simpl in Hp; [lia..|].
  cbn [take]. rewrite take_0. unfold crc_update, crc_byte. cbn [fold_left].
  unfold DecodeFixed32, byte_at. cbn [nth].
  pose proof (byte_to_Z_range b0). pose proof (byte_to_Z_range b1).
  pose proof (byte_to_Z_range b2). pose proof (byte_to_Z_range b3).
  assert (Hd : forall a b k, 0 <= k -> 0 <= a < 2 ^ k ->
    Z.lor a (Z.shiftl b k) = Z.lxor a (Z.shiftl b k)).
  { intros a b k Hk Ha. symmetry. apply Z.lxor_lor, Z.bits_inj'. intros i Hi.
    rewrite Z.land_spec, Z.bits_0. destruct (Z.lt_ge_cases i k).
    - rewrite (Z.shiftl_spec_low b) by done. apply andb_false_r.
    - rewrite <- (Z.mod_small a (2 ^ k)), Z.mod_pow2_bits_high by lia. done. }
  assert (Hr : forall a b k, 0 <= k -> 0 <= a < 2 ^ k -> 0 <= b < 256 ->
    0 <= Z.lxor a (Z.shiftl b k) < 2 ^ (k + 8)).
  { intros a b k Hk Ha Hb. apply lxor_range; [lia| |].
    - split; [lia|]. eapply Z.lt_le_trans; [apply Ha|]. apply Z.pow_le_mono_r; lia.
    - rewrite Z.shiftl_mul_pow2, Z.pow_add_r by lia. nia. }
  rewrite (Hd (byte_to_Z b0)) by lia.
  rewrite (Hd _ (byte_to_Z b2)) by (lia || (apply (Hr _ _ 8); lia)).
  rewrite (Hd _ (byte_to_Z b3)) by (lia || (apply (Hr _ _ 16); [lia|apply (Hr _ _ 8); lia|lia])).
  rewrite !zeros_lxor.
  rewrite (zeros_shift_add 3 1 (byte_to_Z b1) : zeros 4 (Z.shiftl _ 8) = _),
    (zeros_shift_add 2 2 (byte_to_Z b2) : zeros 4 (Z.shiftl _ 16) = _),
    (zeros_shift_add 1 3 (byte_to_Z b3) : zeros 4 (Z.shiftl _ 24) = _).
  change (zeros 4 ?a) with (zero_byte (zero_byte (zero_byte (zero_byte a)))).
  change (zeros 3 ?a) with (zero_byte (zero_byte (zero_byte a))).
  change (zeros 2 ?a) with (zero_byte (zero_byte a)). change (zeros 1 ?a) with (zero_byte a).
  rewrite !zero_byte_lxor. zbits. btauto.
Qed.

Lemma crc_update_app l p q : crc_update l (p ++ q) = crc_update (crc_update l p) q.
Proof. apply fold_left_app. Qed.

Lemma take_add {A} n m (p : list A) : take (n + m) p = take n p ++ take m (drop n p).
Proof.
  revert p. induction n as [|n IH]; intros p; [by rewrite take_0|].
  destruct p as [|x p]; simpl; [by rewrite take_nil|]. by rewrite IH.
Qed.

Lemma DecodeFixed32_bound p : 0 <= DecodeFixed32 p < 2 ^ 32.
Proof. apply DecodeFixed32_range. Qed.

(** Sixteen bytes at once. *)
Lemma crc_update_swath l p :
  (16 <= length p)%nat ->
  crc_update l (take 16 p) =
  Z.lxor (Z.lxor (Z.lxor (zeros 16 (Z.lxor (DecodeFixed32 p) l))
    (zeros 12 (DecodeFixed32 (drop 4 p)))) (zeros 8 (DecodeFixed32 (drop 8 p))))
    (zeros 4 (DecodeFixed32 (drop 12 p))).
Proof.
  intros Hp. rewrite (take_add 4 12), (take_add 4 8), (take_add 4 4).
  rewrite !drop_drop, !crc_update_app, !crc_update_word by (rewrite ?length_drop; lia).
  cbn [Nat.add]. rewrite !zeros_lxor, <- !zeros_add. cbn [Nat.add]. zbits. btauto.
Qed.

(** ** The strides: the register they stand for *)

Definition strides_ok (s : Strides) : Prop :=
  0 <= crc0 s < 2 ^ 32 /\ 0 <= crc1 s < 2 ^ 32 /\
  0 <= crc2 s < 2 ^ 32 /\ 0 <= crc3 s < 2 ^ 32.

Definition combined (s : Strides) : Z :=
  Z.lxor (Z.lxor (Z.lxor (zeros 16 (crc0 s)) (zeros 12 (crc1 s)))
                 (zeros 8 (crc2 s))) (zeros 4 (crc3 s)).

Lemma combined_range s : strides_ok s -> 0 <= combined s < 2 ^ 32.
Proof.
  intros (H0 & H1 & H2 & H3). unfold combined.
  do 3 (apply lxor_range; [lia| |by apply zeros_range]). by apply zeros_range.
Qed.

Lemma STEP4_range crc p : 0 <= crc < 2 ^ 32 -> 0 <= STEP4 crc p < 2 ^ 32.
Proof.
  intros H. rewrite STEP4_crc by done.
  apply lxor_range; [lia|apply DecodeFixed32_bound|by apply zeros_range].
Qed.

Lemma STEP16_combined s p :
  strides_ok s -> (16 <= length p)%nat ->
  strides_ok (STEP16 s p).1 /\
  combined (STEP16 s p).1 = crc_update (combined s) (take 16 p).
Proof.
  intros (H0 & H1 & H2 & H3) Hp. split.
  { unfold strides_ok. cbn [STEP16 fst crc0 crc1 crc2 crc3]. auto using STEP4_range. }
  rewrite crc_update_swath by done. unfold combined.
  cbn [STEP16 fst crc0 crc1 crc2 crc3]. rewrite !STEP4_crc by done.
  rewrite !zeros_lxor, <- !zeros_add. cbn [Nat.add]. zbits. btauto.
Qed.

Lemma word_step_combined s p :
  strides_ok s -> (4 <= length p)%nat ->
  let s' := mkStrides (crc1 s) (crc2 s) (crc3 s) (STEP4 (crc0 s) p) in
  strides_ok s' /\ combined s' = crc_update (combined s) (take 4 p).
Proof.
  intros (H0 & H1 & H2 & H3) Hp s'. split.
  { unfold strides_ok, s'. cbn [crc0 crc1 crc2 crc3].
    split; [done|]. split; [done|]. split; [done|]. by apply STEP4_range. }
  rewrite crc_update_word by done. unfold s', combined.
  cbn [crc0 crc1 crc2 crc3]. rewrite !STEP4_crc by done.
  rewrite !zeros_lxor, <- !zeros_add. cbn [Nat.add]. zbits. btauto.
Qed.

Lemma STEP4W_combined s :
  strides_ok s ->
  STEP4W (STEP4W (STEP4W (STEP4W 0 (crc0 s)) (crc1 s)) (crc2 s)) (crc3 s) = combined s.
Proof.
  intros (H0 & H1 & H2 & H3).
  assert (Hx : forall a b, 0 <= a < 2 ^ 32 -> 0 <= b < 2 ^ 32 -> 0 <= zeros 4 (Z.lxor a b) < 2 ^ 32)
    by (intros; apply zeros_range, lxor_range; lia || done).
  rewrite (STEP4W_crc 0), (STEP4W_crc _ (crc1 s)), (STEP4W_crc _ (crc2 s)),
    (STEP4W_crc _ (crc3 s)) by (repeat (done || lia || apply Hx)).
  unfold combined. rewrite Z.lxor_0_r, !zeros_lxor, <- !zeros_add. cbn [Nat.add]. zbits. btauto.
Qed.

#[local] Opaque zeros zero_byte crc_byte.

(** What a loop over the rest of the buffer preserves: it consumes a prefix,
    and the combined register is the one after that prefix. *)
Definition loop_ok (s : Strides) (p : bytes) (r : Strides * bytes) : Prop :=
  strides_ok r.1 /\ exists pre, p = pre ++ r.2 /\ combined r.1 = crc_update (combined s) pre.

Lemma loop_ok_refl s p : strides_ok s -> loop_ok s p (s, p).
Proof. intros Hs. split; [exact Hs|]. exists []. split; reflexivity. Qed.

Lemma loop_ok_step s p s' n r :
  combined s' = crc_update (combined s) (take n p) ->
  loop_ok s' (drop n p) r -> loop_ok s p r.
Proof.
  intros Hs (Hr & pre & Hp & Hc). split; [done|]. exists (take n p ++ pre).
  rewrite <- app_assoc, <- Hp, take_drop. split; [done|].
  by rewrite crc_update_app, <- Hs.
Qed.

Lemma swath_loop_ok fuel s p : strides_ok s -> loop_ok s p (swath_loop fuel s p).
Proof.
  revert s p. induction fuel as [|f IH]; intros s p Hs; cbn [swath_loop].
  { by apply loop_ok_refl. }
  destruct (Z.leb_spec 16 (zlen p)); [|by apply loop_ok_refl].
  destruct (STEP16_combined s p Hs) as [Hs' Hc]; [ilia|].
  destruct (STEP16 s p) as [s' p'] eqn:E. injection E as E1 E2. subst p'.
  eapply loop_ok_step; [apply Hc|]. by apply IH.
Qed.

Lemma word_loop_ok fuel s p : strides_ok s -> loop_ok s p (word_loop fuel s p).
Proof.
  revert s p. induction fuel as [|f IH]; intros s p Hs; cbn [word_loop].
  { by apply loop_ok_refl. }
  destruct (Z.leb_spec 4 (zlen p)); [|by apply loop_ok_refl].
  destruct (word_step_combined s p Hs) as [Hs' Hc]; [ilia|].
  eapply loop_ok_step; [apply Hc|]. by apply IH.
Qed.

(** The loops end by their conditions: the fuel is enough. *)
Lemma swath_loop_exit fuel s p :
  (length p <= fuel)%nat -> zlen (swath_loop fuel s p).2 < 16.
Proof.
  revert s p. induction fuel as [|f IH]; intros s p Hf; cbn [swath_loop]; [simpl; ilia|].
  destruct (Z.leb_spec 16 (zlen p)); [|done].
  apply IH. rewrite length_drop. ilia.
Qed.

Lemma word_loop_exit fuel s p :
  (length p <= fuel)%nat -> zlen (word_loop fuel s p).2 < 4.
Proof.
  revert s p. induction fuel as [|f IH]; intros s p Hf; cbn [word_loop]; [simpl; ilia|].
  destruct (Z.leb_spec 4 (zlen p)); [|done].
  apply IH. rewrite length_drop. ilia.
Qed.

Lemma align_loop_ok l p a x l' p' :
  0 <= l < 2 ^ 32 -> align_loop l p a x = (l', p') ->
  exists pre, p = pre ++ p' /\ l' = crc_update l pre.
Proof.
  revert l a. induction p as [|b p IH]; intros l a Hl E; cbn [align_loop] in E.
  { injection E as <- <-. by exists []. }
  destruct (a =? x).
  { injection E as <- <-. by exists []. }
  rewrite STEP1_crc in E by done.
  destruct (IH _ _ (crc_byte_range l b Hl) E) as (pre & -> & ->). by exists (b :: pre).
Qed.

Lemma Extend_aligned_ok l p l' p' :
  0 <= l < 2 ^ 32 -> Extend_aligned l p = (l', p') ->
  exists pre, p = pre ++ p' /\ l' = crc_update l pre.
Proof.
  intros Hl. unfold Extend_aligned. destruct (Z.leb_spec 16 (zlen p)) as [Hp|_].
  2: { intros E. injection E as <- <-. by exists []. }
  unfold ReadUint32LE. set (s := mkStrides _ _ _ _).
  assert (Hs : strides_ok s).
  { split; [apply lxor_range; [lia|apply DecodeFixed32_bound|done]|].
    split; [|split]; apply DecodeFixed32_bound. }
  assert (Hc : combined s = crc_update l (take 16 p))
    by (rewrite crc_update_swath by ilia; done).
  destruct (swath_loop_ok (length p) s (drop 16 p) Hs) as (Hs1 & pre1 & E1 & C1).
  destruct (swath_loop _ s _) as [s1 p1]. simpl in *.
  destruct (word_loop_ok (length p1) s1 p1 Hs1) as (Hs2 & pre2 & E2 & C2).
  destruct (word_loop _ s1 p1) as [s2 p2]. simpl in *.
  rewrite STEP4W_combined by done. intros E. injection E as <- <-.
  exists (take 16 p ++ pre1 ++ pre2). split.
  - rewrite <- !app_assoc, <- E2, <- E1, take_drop. done.
  - by rewrite C2, C1, Hc, !crc_update_app.
Qed.

Lemma Extend_portable_crc32c crc addr data :
  0 <= crc < 2 ^ 32 -> Extend_portable crc addr data = crc32c crc data.
Proof.
  intros Hc. unfold Extend_portable, crc32c. f_equal.
  assert (Hl : 0 <= Z.lxor crc kCRC32Xor < 2 ^ 32) by (apply lxor_range; unfold kCRC32Xor; lia).
  set (l := Z.lxor crc kCRC32Xor) in *.
  assert (Ha : exists l1 p1 pre, (if RoundUp 4 addr <=? addr + zlen data
      then align_loop l data addr (RoundUp 4 addr) else (l, data)) = (l1, p1) /\
    data = pre ++ p1 /\ l1 = crc_update l pre).
  { destruct (_ <=? _).
    - destruct (align_loop _ _ _ _) as [l1 p1] eqn:E.
      destruct (align_loop_ok _ _ _ _ _ _ Hl E) as (pre & ? & ?). by exists l1, p1, pre.
    - by exists l, data, []. }
  destruct Ha as (l1 & p1 & pre & -> & Hd & H1).
  assert (Hl1 : 0 <= l1 < 2 ^ 32) by (rewrite H1; by apply crc_update_range).
  destruct (Extend_aligned l1 p1) as [l2 p2] eqn:E.
  destruct (Extend_aligned_ok _ _ _ _ Hl1 E) as (pre2 & Hp1 & H2).
  rewrite STEP1_fold by (rewrite H2; by apply crc_update_range).
  by rewrite H2, H1, Hd, Hp1, !crc_update_app.
Qed.

(** ** Alignment *)

Lemma RoundUp_4 a : 0 <= a -> a + 3 < 2 ^ 64 -> RoundUp 4 a = (a + 3) / 4 * 4.
Proof.
  intros H0 H1. unfold RoundUp, u64. rewrite Z.mod_small by lia.
  change (Z.lnot (4 - 1) mod 2 ^ 64) with (Z.shiftl (Z.ones 62) 2).
  replace ((a + (4 - 1))) with (a + 3) by lia.
  assert (0 <= (a + 3) / 4 < 2 ^ 62) by (split; [apply Z.div_pos|apply Z.div_lt_upper_bound]; lia).
  replace ((a + 3) / 4 * 4) with (Z.shiftl (Z.land (Z.shiftr (a + 3) 2) (Z.ones 62)) 2)
    by (rewrite Z.land_ones, Z.shiftr_div_pow2, Z.shiftl_mul_pow2 by lia;
        change (2 ^ 2) with 4; rewrite Z.mod_small by done; done).
  apply Z.bits_inj'. intros i Hi. rewrite Z.land_spec, !Z.shiftl_spec by lia.
  destruct (Z.lt_ge_cases i 2).
  - rewrite !(Z.testbit_neg_r _ (i - 2)) by lia. apply andb_false_r.
  - rewrite Z.land_spec, Z.shiftr_spec, Z.sub_add by lia. done.
Qed.

Lemma align_loop_exit l p a x l' p' :
  a <= x <= a + zlen p -> align_loop l p a x = (l', p') -> zlen p' = a + zlen p - x.
Proof.
  revert l a. induction p as [|b p IH]; intros l a Hx E; cbn [align_loop] in E.
  - injection E as <- <-. unfold zlen in *. simpl in *. lia.
  - rewrite zlen_cons in *. destruct (Z.eqb_spec a x).
    + injection E as <- <-. rewrite zlen_cons. lia.
    + apply IH in E; lia.
Qed.

(** ** A changed byte changes the CRC *)

Lemma crc_bit_zero s : 0 <= s < 2 ^ 32 -> crc_bit s = 0 -> s = 0.
Proof.
  intros Hs. unfold crc_bit. intros H%Z.lxor_eq. rewrite Z.shiftr_div_pow2 in H by lia.
  rewrite Z.bit0_odd in H. change (2 ^ 1) with 2 in H. destruct (Z.odd s) eqn:Ho.
  - pose proof (Z.mul_div_le s 2 ltac:(lia)) as Hle. rewrite H in Hle. unfold crc_poly in Hle. lia.
  - rewrite <- Z.negb_even, negb_false_iff in Ho. apply Z.even_spec in Ho as [k ->].
    rewrite Z.mul_comm, Z.div_mul in H; lia.
Qed.

Lemma iter_crc_bit_zero n s : 0 <= s < 2 ^ 32 -> Nat.iter n crc_bit s = 0 -> s = 0.
Proof.
  intros Hs. revert s Hs. induction n as [|n IH]; intros s Hs; simpl; [done|].
  intros H. apply IH; [done|]. apply crc_bit_zero; [|done].
  clear H IH. induction n; simpl; [done|]. by apply crc_bit_range.
Qed.

#[local] Transparent zeros zero_byte crc_byte.

#[local] Strategy 100 [Nat.iter crc_bit].

Lemma zero_byte_zero s : 0 <= s < 2 ^ 32 -> zero_byte s = 0 -> s = 0.
Proof. intros Hs Hz. unfold zero_byte in Hz. by apply iter_crc_bit_zero in Hz. Qed.

#[local] Opaque zeros zero_byte.

Lemma zero_byte_inj a b :
  0 <= a < 2 ^ 32 -> 0 <= b < 2 ^ 32 -> zero_byte a = zero_byte b -> a = b.
Proof.
  intros Ha Hb E. apply Z.lxor_eq. pose proof (lxor_range a b 32 ltac:(lia) Ha Hb) as Hr.
  assert (Hz : zero_byte (Z.lxor a b) = 0) by (rewrite zero_byte_lxor, E; apply Z.lxor_nilpotent).
  exact (zero_byte_zero _ Hr Hz).
Qed.

Lemma crc_byte_inj_l a b x :
  0 <= a < 2 ^ 32 -> 0 <= b < 2 ^ 32 -> crc_byte a x = crc_byte b x -> a = b.
Proof.
  intros Ha Hb E. pose proof (byte_to_Z_range x).
  apply zero_byte_inj in E; [|apply lxor_range; lia..].
  rewrite <- (Z.lxor_0_r a), <- (Z.lxor_0_r b), <- (Z.lxor_nilpotent (byte_to_Z x)).
  rewrite <- !Z.lxor_assoc, E. done.
Qed.

Lemma crc_byte_inj_r a x y : 0 <= a < 2 ^ 32 -> crc_byte a x = crc_byte a y -> x = y.
Proof.
  intros Ha E. pose proof (byte_to_Z_range x). pose proof (byte_to_Z_range y).
  apply zero_byte_inj in E; [|apply lxor_range; lia..]. apply byte_to_Z_inj.
  rewrite <- (Z.lxor_0_l (byte_to_Z x)), <- (Z.lxor_0_l (byte_to_Z y)).
  rewrite <- (Z.lxor_nilpotent a), !Z.lxor_assoc, E. done.
Qed.

Lemma crc_update_inj p a b :
  0 <= a < 2 ^ 32 -> 0 <= b < 2 ^ 32 -> crc_update a p = crc_update b p -> a = b.
Proof.
  revert a b. induction p as [|x p IH]; intros a b Ha Hb E; [exact E|].
  apply IH in E; [|by apply crc_byte_range..]. by apply crc_byte_inj_l in E.
Qed.

Lemma crc32c_range crc data : 0 <= crc < 2 ^ 32 -> 0 <= crc32c crc data < 2 ^ 32.
Proof.
  intros H. apply lxor_range; [lia| |unfold kCRC32Xor; lia].
  apply crc_update_range, lxor_range; unfold kCRC32Xor; lia.
Qed.

Lemma crc32c_app crc a b : crc32c (crc32c crc a) b = crc32c crc (a ++ b).
Proof.
  unfold crc32c. rewrite Z.lxor_assoc, Z.lxor_nilpotent, Z.lxor_0_r, crc_update_app. done.
Qed.

Lemma crc32c_byte_change crc p x y q :
  0 <= crc < 2 ^ 32 -> crc32c crc (p ++ x :: q) = crc32c crc (p ++ y :: q) -> x = y.
Proof.
  intros Hc E. unfold crc32c in E. rewrite !crc_update_app in E.
  assert (Hl : 0 <= Z.lxor crc kCRC32Xor < 2 ^ 32) by (apply lxor_range; unfold kCRC32Xor; lia).
  pose proof (crc_update_range p _ Hl) as Hp.
  assert (E' : crc_update (crc_update (Z.lxor crc kCRC32Xor) p) (x :: q) =
               crc_update (crc_update (Z.lxor crc kCRC32Xor) p) (y :: q)).
  { apply Z.lxor_eq. apply (f_equal (fun z => Z.lxor z kCRC32Xor)) in E.
    rewrite !Z.lxor_assoc, Z.lxor_nilpotent, !Z.lxor_0_r in E. rewrite E.
    apply Z.lxor_nilpotent. }
  cbn [crc_update fold_left] in E'.
  apply crc_update_inj in E'; [|by apply crc_byte_range..]. by apply crc_byte_inj_r in E'.
Qed.

(** ** The interface the log and the tables use *)

Class Checksum := {
  cs_extend : Z -> bytes -> Z;
  cs_extend_range crc data : 0 <= crc < 2 ^ 32 -> 0 <= cs_extend crc data < 2 ^ 32;
  cs_extend_app crc a b : cs_extend (cs_extend crc a) b = cs_extend crc (a ++ b);
}.

Definition cs_value `{Checksum} (data : bytes) : Z := cs_extend 0 data.

#[export] Instance Crc32cChecksum : Checksum := {|
  cs_extend := crc32c;
  cs_extend_range := crc32c_range;
  cs_extend_app := crc32c_app;
|}.

(** ** Masking *)

Lemma Mask_arith crc :
  0 <= crc < 2 ^ 32 ->
  Mask crc = (crc / 2 ^ 15 + (crc mod 2 ^ 15) * 2 ^ 17 + kMaskDelta) mod 2 ^ 32.
Proof.
  intros H. unfold Mask, u32. f_equal. f_equal.
  assert (0 <= crc / 2 ^ 15 < 2 ^ 17) by (split; [apply Z.div_pos|apply Z.div_lt_upper_bound]; lia).
  rewrite Z.shiftl_mul_pow2, Z.shiftr_div_pow2 by lia.
  replace (crc * 2 ^ 17 mod 2 ^ 32) with ((crc mod 2 ^ 15) * 2 ^ 17)
    by (change (2 ^ 32) with (2 ^ 15 * 2 ^ 17); rewrite Z.mul_mod_distr_r; lia).
  rewrite <- Z.shiftl_mul_pow2, lor_shiftl_add, ?Z.shiftl_mul_pow2 by lia. done.
Qed.

Lemma Unmask_arith m :
  let rot := (m - kMaskDelta) mod 2 ^ 32 in
  Unmask m = rot / 2 ^ 17 + (rot mod 2 ^ 17) * 2 ^ 15.
Proof.
  intros rot. unfold Unmask, u32. fold rot.
  assert (0 <= rot < 2 ^ 32) by (apply Z.mod_pos_bound; lia).
  assert (0 <= rot / 2 ^ 17 < 2 ^ 15) by (split; [apply Z.div_pos|apply Z.div_lt_upper_bound]; lia).
  rewrite Z.shiftl_mul_pow2, Z.shiftr_div_pow2 by lia.
  replace (rot * 2 ^ 15 mod 2 ^ 32) with ((rot mod 2 ^ 17) * 2 ^ 15)
    by (change (2 ^ 32) with (2 ^ 17 * 2 ^ 15); rewrite Z.mul_mod_distr_r; lia).
  rewrite <- Z.shiftl_mul_pow2, lor_shiftl_add, ?Z.shiftl_mul_pow2 by lia. done.
Qed.

Lemma Mask_range crc : 0 <= Mask crc < 2 ^ 32.
Proof. apply u32_range. Qed.

Lemma Unmask_Mask crc : 0 <= crc < 2 ^ 32 -> Unmask (Mask crc) = crc.
Proof.
  intros H. rewrite Unmask_arith, Mask_arith by done. unfold kMaskDelta.
  rewrite Zminus_mod_idemp_l, Z.add_simpl_r.
  assert (0 <= crc / 2 ^ 15 < 2 ^ 17) by (split; [apply Z.div_pos|apply Z.div_lt_upper_bound]; lia).
  pose proof (Z.mod_pos_bound crc (2 ^ 15) ltac:(lia)). rewrite (Z.mod_small _ (2 ^ 32)) by lia.
  rewrite Z.div_add, Z.div_small, Z.mod_add, (Z.mod_small (crc / 2 ^ 15)) by lia.
  pose proof (Z.div_mod crc (2 ^ 15) ltac:(lia)). lia.
Qed.

Lemma Mask_inj a b : 0 <= a < 2 ^ 32 -> 0 <= b < 2 ^ 32 -> Mask a = Mask b -> a = b.
Proof. intros Ha Hb E. rewrite <- (Unmask_Mask a), <- (Unmask_Mask b), E; done. Qed.

(** ** Properties *)

(** C39: without processor support, [Extend] computes the CRC-32C of the bitwise
    definition, for every buffer at every address: the alignment prologue, the
    interleaved strides and their combination change nothing.  Extending with
    a second buffer is extending with the concatenation. *)
Theorem crc_extend_correct (accel : Z -> bytes -> Z) (crc a1 a2 : Z) (d1 d2 : bytes)
    (Hport : accel 0 kTestCRCBuffer = 0) (Hcrc : 0 <= crc < 2 ^ 32) :
  Extend accel crc a1 d1 = crc32c crc d1 /\
  Extend accel (Extend accel crc a1 d1) a2 d2 = crc32c crc (d1 ++ d2).
Proof.
  assert (Hno : CanAccelerateCRC32C accel = false)
    by (unfold CanAccelerateCRC32C; rewrite Hport; done).
  unfold Extend. rewrite Hno, (Extend_portable_crc32c crc) by done.
  split; [done|]. rewrite Extend_portable_crc32c by by apply crc32c_range.
  apply crc32c_app.
Qed.

Lemma crc_extend_correct_witness :
  Extend (fun _ _ => 0) 0 7 (cstr "123456789") = 0xe3069283 /\
  Extend (fun _ _ => 0) (Extend (fun _ _ => 0) 0 7 (cstr "123456789")) 2 (cstr "abc")
  = crc32c 0 (cstr "123456789abc").
Proof.
  pose proof (crc_extend_correct (fun _ _ => 0) 0 7 2 (cstr "123456789") (cstr "abc")
    eq_refl ltac:(lia)) as [H1 H2].
  split; [rewrite H1; vm_compute; reflexivity|exact H2].
Defined.

(** The loops of [Extend] stop at the end of the buffer: the prologue
    processes exactly the bytes before the next multiple of four, the stride
    loop leaves fewer than sixteen bytes, the word loop fewer than four. *)
Theorem crc_extend_bounds (l addr : Z) (p : bytes) (s : Strides)
    (Ha : 0 <= addr) (Ha3 : addr + 3 < 2 ^ 64) :
  RoundUp 4 addr mod 4 = 0 /\ addr <= RoundUp 4 addr < addr + 4 /\
  (RoundUp 4 addr <= addr + zlen p ->
   zlen (align_loop l p addr (RoundUp 4 addr)).2 = addr + zlen p - RoundUp 4 addr) /\
  zlen (swath_loop (length p) s p).2 < 16 /\ zlen (word_loop (length p) s p).2 < 4.
Proof.
  rewrite RoundUp_4 by done. split; [apply Z_mod_mult|]. split; [dlia|]. split; [|split].
  - intros Hx. destruct (align_loop _ _ _ _) as [l' p'] eqn:E.
    apply align_loop_exit in E; [exact E|dlia].
  - by apply swath_loop_exit.
  - by apply word_loop_exit.
Qed.

Lemma crc_extend_bounds_witness :
  RoundUp 4 5 mod 4 = 0 /\ 5 <= RoundUp 4 5 < 9.
Proof.
  pose proof (crc_extend_bounds 0 5 [] (mkStrides 0 0 0 0) ltac:(lia) ltac:(lia))
    as (H1 & H2 & _).
  split; [exact H1|exact H2].
Defined.

(** A stored checksum detects every change of a single byte: the masked
    CRCs of two strings that differ in one byte are different; and masking
    loses nothing. *)
Theorem crc_detects_byte_change (crc : Z) (p q : bytes) (x y : byte)
    (Hcrc : 0 <= crc < 2 ^ 32) :
  (Mask (Extend_portable crc 0 (p ++ x :: q)) = Mask (Extend_portable crc 0 (p ++ y :: q)) ->
   x = y) /\
  Unmask (Mask crc) = crc.
Proof.
  split; [|by apply Unmask_Mask]. rewrite !Extend_portable_crc32c by done.
  intros E%Mask_inj; [|by apply crc32c_range..]. by apply crc32c_byte_change in E.
Qed.

Lemma crc_detects_byte_change_witness :
  (Mask (Extend_portable 0 0 (cstr "ab" ++ "c"%byte :: cstr "d"))
   = Mask (Extend_portable 0 0 (cstr "ab" ++ "x"%byte :: cstr "d")) -> "c"%byte = "x"%byte) /\
  Unmask (Mask 0) = 0.
Proof. exact (crc_detects_byte_change 0 (cstr "ab") (cstr "d") "c" "x" ltac:(lia)). Defined.
