(* ===== verification/Bloom.v ===== *)
(** * Hashing and Bloom filters

    Models src/util/hash.cc, the [FilterPolicy] interface of
    src/include/leveldb/filter_policy.h as a class with its documented law, and
    the Bloom filter of src/util/bloom.cc as an instance that satisfies it. *)

From S2P Require Import Prelude Coding.

(** ** Hash *)

(** The mixing of one word: [h += w; h *= m; h ^= (h >> s)]. *)
Definition hash_mix (h w s : Z) : Z :=
  let h := u32 (u32 (h + w) * 0xc6a4a793) in Z.lxor h (Z.shiftr h s).

Fixpoint Hash_loop (fuel : nat) (h : Z) (data : bytes) : Z * bytes :=
  match fuel with
  | O => (h, data)
  | S f =>
      if 4 <=? zlen data then Hash_loop f (hash_mix h (DecodeFixed32 data) 16) (drop 4 data)
      else (h, data)
  end.

(** The additions of the [switch] cases that fall through; case 0 does nothing. *)
Definition Hash (data : bytes) (seed : Z) : Z :=
  let h := u32 (Z.lxor seed (u64 (zlen data * 0xc6a4a793))) in
  let '(h, data) := Hash_loop (length data) h data in
  let h := if zlen data =? 3 then u32 (h + Z.shiftl (byte_at data 2) 16) else h in
  let h := if 2 <=? zlen data then u32 (h + Z.shiftl (byte_at data 1) 8) else h in
  if 1 <=? zlen data then hash_mix h (byte_at data 0) 24 else h.

(** ** The filter policy interface *)

Class FilterPolicy := {
  CreateFilter : list bytes -> bytes -> bytes;
  KeyMayMatch : bytes -> bytes -> bool;
}.

(** The filter is appended to [dst]; it matches every key it was built from.
    The number of keys is an [int]. *)
Class FilterPolicyLaws (P : FilterPolicy) : Prop := {
  CreateFilter_appends : forall keys dst, exists f, CreateFilter keys dst = dst ++ f;
  KeyMayMatch_created : forall keys dst k,
    zlen keys < 2 ^ 31 -> In k keys ->
    KeyMayMatch k (drop (length dst) (CreateFilter keys dst)) = true;
}.

(** ** The Bloom filter *)

Definition BloomHash (key : bytes) : Z := Hash key 0xbc9f1d34.

(** [static_cast<size_t>(bits_per_key * 0.69)], clamped to [1, 30].  The
    product is truncated; the rounding of the floating-point multiplication
    matters only beyond the clamp. *)
Definition bloom_k (bits_per_key : Z) : Z :=
  let k := bits_per_key * 69 / 100 in
  let k := if k <? 1 then 1 else k in
  if 30 <? k then 30 else k.

Definition rotate_right_17 (h : Z) : Z := Z.lor (Z.shiftr h 17) (u32 (Z.shiftl h 15)).

(** [array[i]] as an unsigned byte, and [array[bitpos / 8] |= 1 << (bitpos % 8)]. *)
Definition set_bit (array : bytes) (bitpos : Z) : bytes :=
  let i := Z.to_nat (bitpos / 8) in
  <[i := byte_of_Z (Z.lor (byte_at array i) (Z.shiftl 1 (bitpos mod 8)))]> array.

(** The probes of one key: [k] rounds from hash [h]. *)
Fixpoint add_probes (k : nat) (bits delta h : Z) (array : bytes) : bytes :=
  match k with
  | O => array
  | S k' => add_probes k' bits delta (u32 (h + delta)) (set_bit array (h mod bits))
  end.

Definition add_key (k bits : Z) (array : bytes) (key : bytes) : bytes :=
  let h := BloomHash key in
  add_probes (Z.to_nat k) bits (rotate_right_17 h) h array.

Definition Bloom_CreateFilter (bits_per_key : Z) (keys : list bytes) (dst : bytes) : bytes :=
  let k := bloom_k bits_per_key in
  let bits := u64 (zlen keys * bits_per_key) in
  let bits := if bits <? 64 then 64 else bits in
  let nbytes := u64 (bits + 7) / 8 in
  let bits := u64 (nbytes * 8) in
  let array := replicate (Z.to_nat nbytes) x00 ++ [byte_of_Z k] in
  dst ++ fold_left (add_key k bits) keys array.

Fixpoint check_probes (k : nat) (bits delta h : Z) (array : bytes) : bool :=
  match k with
  | O => true
  | S k' =>
      let bitpos := h mod bits in
      if Z.land (byte_at array (Z.to_nat (bitpos / 8))) (Z.shiftl 1 (bitpos mod 8)) =? 0
      then false
      else check_probes k' bits delta (u32 (h + delta)) array
  end.

Definition Bloom_KeyMayMatch (key bloom_filter : bytes) : bool :=
  let len := zlen bloom_filter in
  if len <? 2 then false
  else
    let bits := u64 ((len - 1) * 8) in
    let k := char_to_u64 (nth (Z.to_nat (len - 1)) bloom_filter x00) in
    if 30 <? k then true
    else
      let h := BloomHash key in
      check_probes (Z.to_nat k) bits (rotate_right_17 h) h bloom_filter.

Definition BloomFilterPolicy (bits_per_key : Z) : FilterPolicy := {|
  CreateFilter := Bloom_CreateFilter bits_per_key;
  KeyMayMatch := Bloom_KeyMayMatch;
|}.

(** ** The hash *)

Lemma hash_mix_range h w s : 0 <= s -> 0 <= hash_mix h w s < 2 ^ 32.
Proof.
  intros. pose proof (u32_range (u32 (h + w) * 0xc6a4a793)).
  apply lxor_range; [lia|done|by apply shiftr_range].
Qed.

Lemma Hash_loop_range fuel h data :
  0 <= h < 2 ^ 32 -> 0 <= (Hash_loop fuel h data).1 < 2 ^ 32.
Proof.
  revert h data. induction fuel as [|f IH]; intros h data Hh; cbn [Hash_loop]; [done|].
  destruct (4 <=? zlen data); [|done]. apply IH, hash_mix_range. lia.
Qed.

(** The word loop ends with fewer than four bytes left. *)
Lemma Hash_loop_exit fuel h data :
  (length data <= fuel)%nat -> zlen (Hash_loop fuel h data).2 < 4.
Proof.
  revert h data. induction fuel as [|f IH]; intros h data Hf; cbn [Hash_loop]; [simpl; ilia|].
  destruct (Z.leb_spec 4 (zlen data)); [|done]. apply IH. rewrite length_drop. ilia.
Qed.

Lemma Hash_range data seed : 0 <= Hash data seed < 2 ^ 32.
Proof.
  unfold Hash. pose proof (Hash_loop_range (length data)
    (u32 (Z.lxor seed (u64 (zlen data * 0xc6a4a793)))) data (u32_range _)) as Hr.
  destruct (Hash_loop _ _ _) as [h d]. simpl in Hr.
  destruct (1 <=? zlen d) eqn:E; [apply hash_mix_range; lia|].
  apply Z.leb_gt in E. rewrite (proj2 (Z.leb_gt _ _)), (proj2 (Z.eqb_neq _ _)) by lia. done.
Qed.

(** ** Bits of the array *)

Definition bit_is_set (array : bytes) (pos : Z) : Prop :=
  Z.testbit (byte_at array (Z.to_nat (pos / 8))) (pos mod 8) = true.

Lemma land_bit_zero a i : 0 <= i -> (Z.land a (Z.shiftl 1 i) =? 0) = negb (Z.testbit a i).
Proof.
  intros Hi. rewrite Z.shiftl_1_l. destruct (Z.testbit a i) eqn:E; simpl.
  - apply Z.eqb_neq. intros H. apply (f_equal (fun z => Z.testbit z i)) in H.
    rewrite Z.land_spec, E, Z.pow2_bits_true, Z.bits_0 in H by done. done.
  - apply Z.eqb_eq, Z.bits_inj'. intros j Hj. rewrite Z.land_spec, Z.bits_0.
    destruct (Z.eq_dec i j) as [<-|]; [by rewrite E|].
    rewrite Z.pow2_bits_false by done. apply andb_false_r.
Qed.

Lemma byte_at_insert array i j b :
  (i < length array)%nat ->
  byte_at (<[i := b]> array) j = if decide (i = j) then byte_to_Z b else byte_at array j.
Proof.
  intros Hi. unfold byte_at. rewrite !nth_lookup.
  destruct (decide (i = j)) as [<-|Hne].
  - by rewrite list_lookup_insert_eq.
  - by rewrite list_lookup_insert_ne.
Qed.

(** The new value of the byte: it was below 256 and the added bit is one of
    its eight. *)
Lemma or_bit_byte b i :
  0 <= i < 8 -> byte_to_Z (byte_of_Z (Z.lor (byte_to_Z b) (Z.shiftl 1 i))) =
                Z.lor (byte_to_Z b) (Z.shiftl 1 i).
Proof.
  intros Hi. rewrite byte_to_of_Z. apply Z.mod_small. apply (lor_range _ _ 8).
  - lia.
  - apply byte_to_Z_range.
  - rewrite Z.shiftl_1_l. split; [lia|]. apply Z.pow_lt_mono_r; lia.
Qed.

Lemma set_bit_sets array pos q :
  0 <= pos < 8 * zlen array -> 0 <= q ->
  (bit_is_set (set_bit array pos) q <-> bit_is_set array q \/ q = pos).
Proof.
  intros Hp Hq. unfold bit_is_set, set_bit.
  assert (Hi : (Z.to_nat (pos / 8) < length array)%nat).
  { pose proof (Z.div_lt_upper_bound pos 8 (zlen array)). unfold zlen in *. lia. }
  rewrite byte_at_insert by done.
  pose proof (Z.mod_pos_bound pos 8 ltac:(lia)). pose proof (Z.mod_pos_bound q 8 ltac:(lia)).
  assert (0 <= pos / 8) by (apply Z.div_pos; lia). assert (0 <= q / 8) by (apply Z.div_pos; lia).
  case_decide as E.
  - apply Z2Nat.inj in E; [|done..]. unfold byte_at at 1. rewrite or_bit_byte by done.
    rewrite Z.lor_spec, orb_true_iff, E. unfold byte_at. rewrite Z.shiftl_1_l, Z.pow2_bits_eqb by lia.
    rewrite Z.eqb_eq. split; intros [Hx|Hx]; auto; right; [|by subst].
    rewrite (Z.div_mod q 8), (Z.div_mod pos 8) by lia. lia.
  - split; [auto|]. intros [Hx| ->]; done.
Qed.

Lemma set_bit_length array pos : length (set_bit array pos) = length array.
Proof. apply length_insert. Qed.

(** ** Probes *)

(** The [j]-th probe position. *)
Definition probe (bits delta h : Z) (j : nat) : Z :=
  Nat.iter j (fun x => u32 (x + delta)) h mod bits.

Lemma iter_shift {A} n (f : A -> A) x : Nat.iter n f (f x) = Nat.iter (S n) f x.
Proof. induction n as [|n IH]; simpl; [done|]. by rewrite IH. Qed.

Lemma probe_S bits delta h j : probe bits delta (u32 (h + delta)) j = probe bits delta h (S j).
Proof. unfold probe. f_equal. apply (iter_shift j (fun x => u32 (x + delta))). Qed.

Lemma check_probes_spec k bits delta h array :
  check_probes k bits delta h array = true <->
  forall j, (j < k)%nat -> bit_is_set array (probe bits delta h j).
Proof.
  revert h. induction k as [|k IH]; intros h; cbn [check_probes].
  { split; [|done]. intros _ j Hj. lia. }
  assert (Hc : forall c : bool, (if Z.land (byte_at array (Z.to_nat (h mod bits / 8)))
      (Z.shiftl 1 ((h mod bits) mod 8)) =? 0 then false else c) = true <->
    bit_is_set array (h mod bits) /\ c = true).
  { intros c. pose proof (Z.mod_pos_bound (h mod bits) 8 ltac:(lia)).
    rewrite land_bit_zero by lia. unfold bit_is_set.
    destruct (Z.testbit _ _), c; simpl; intuition congruence. }
  rewrite Hc, IH. split.
  - intros [H0 Hs] [|j] Hj; [exact H0|].
    specialize (Hs j ltac:(lia)). by rewrite probe_S in Hs.
  - intros H. split; [apply (H O); lia|]. intros j Hj. specialize (H (S j) ltac:(lia)).
    by rewrite probe_S.
Qed.

Lemma add_probes_spec k bits delta h array :
  0 < bits <= 8 * zlen array ->
  length (add_probes k bits delta h array) = length array /\
  forall q, 0 <= q ->
    (bit_is_set (add_probes k bits delta h array) q <->
     bit_is_set array q \/ exists j, (j < k)%nat /\ q = probe bits delta h j).
Proof.
  revert h array. induction k as [|k IH]; intros h array Hb; cbn [add_probes].
  { split; [done|]. intros q Hq. split; [auto|]. intros [Hx|(j & ? & _)]; [done|lia]. }
  pose proof (Z.mod_pos_bound h bits ltac:(lia)) as Hm.
  destruct (IH (u32 (h + delta)) (set_bit array (h mod bits))) as [Hl Hq].
  { unfold zlen in *. rewrite set_bit_length. lia. }
  rewrite set_bit_length in Hl. split; [done|]. intros q Hq0.
  rewrite Hq, set_bit_sets by lia. split.
  - intros [[Hx| ->]|(j & Hj & ->)]; [by left|right; exists O|right; exists (S j)].
    + split; [lia|done].
    + split; [lia|]. by rewrite probe_S.
  - intros [Hx|([|j] & Hj & ->)]; [by left; left|left; by right|].
    right. exists j. split; [lia|]. by rewrite probe_S.
Qed.

(** What the whole array holds after the keys: exactly the bits of the probes
    and those it had before; its bytes beyond [bits] are not touched. *)
Lemma add_keys_spec k bits keys array :
  0 < bits <= 8 * zlen array ->
  length (fold_left (add_key k bits) keys array) = length array /\
  forall q, 0 <= q ->
    (bit_is_set (fold_left (add_key k bits) keys array) q <->
     bit_is_set array q \/
     exists key j, In key keys /\ (j < Z.to_nat k)%nat /\
       q = probe bits (rotate_right_17 (BloomHash key)) (BloomHash key) j).
Proof.
  revert array. induction keys as [|key keys IH]; intros array Hb; cbn [fold_left].
  { split; [done|]. intros q Hq. split; [auto|]. intros [Hx|(? & ? & [] & _)]. done. }
  destruct (add_probes_spec (Z.to_nat k) bits (rotate_right_17 (BloomHash key)) (BloomHash key)
    array Hb) as [Hl1 Hq1].
  destruct (IH (add_key k bits array key)) as [Hl2 Hq2].
  { unfold zlen in *. unfold add_key. rewrite Hl1. lia. }
  split; [unfold add_key in *; congruence|]. intros q Hq. rewrite Hq2 by done. unfold add_key.
  rewrite Hq1 by done. split.
  - intros [[Hx|(j & Hj & ->)]|(key' & j & Hin & Hj & ->)]; [by left|right|right].
    + exists key, j. split; [by left|done].
    + exists key', j. split; [by right|done].
  - intros [Hx|(key' & j & [<-|Hin] & Hj & ->)]; [by left; left|left; right; by exists j|].
    right. by exists key', j.
Qed.

(** The bytes past the addressed bits keep their value. *)
Lemma add_keys_byte k bits keys array i :
  0 < bits -> bits <= 8 * Z.of_nat i -> (i < length array)%nat ->
  byte_at (fold_left (add_key k bits) keys array) i = byte_at array i.
Proof.
  intros Hb Hbi Hi. destruct (add_keys_spec k bits keys array) as [_ Hq]; [ilia|].
  pose proof (byte_at_range (fold_left (add_key k bits) keys array) i) as R1.
  pose proof (byte_at_range array i) as R2.
  apply Z.bits_inj'. intros j Hj. destruct (Z.lt_ge_cases j 8) as [Hj8|Hj8].
  - specialize (Hq (8 * Z.of_nat i + j) ltac:(lia)). unfold bit_is_set in Hq.
    rewrite (Z.mul_comm 8), Z.add_comm, Z.div_add, Z.mod_add, Z.div_small, Z.mod_small in Hq by lia.
    rewrite Z.add_0_l, Nat2Z.id in Hq. apply eq_true_iff_eq. rewrite Hq. split; [|by left].
    intros [H|(key & n & _ & _ & E)]; [done|].
    pose proof (Z.mod_pos_bound (Nat.iter n (fun x => u32 (x + rotate_right_17 (BloomHash key)))
      (BloomHash key)) bits ltac:(lia)). unfold probe in E. lia.
  - rewrite <- (Z.mod_small (byte_at _ i) (2 ^ 8)) by done.
    rewrite <- (Z.mod_small (byte_at array i) (2 ^ 8)) by done.
    rewrite !Z.mod_pow2_bits_high by lia. done.
Qed.

Lemma bloom_k_range b : 1 <= bloom_k b <= 30.
Proof. unfold bloom_k. zcmp; lia. Qed.

(** The layout of a filter: the array, then the number of probes. *)
Lemma Bloom_filter_layout bits_per_key keys dst :
  0 <= bits_per_key < 2 ^ 31 -> zlen keys < 2 ^ 31 ->
  exists nbytes array,
    let k := bloom_k bits_per_key in
    let a0 := replicate (Z.to_nat nbytes) x00 ++ [byte_of_Z k] in
    8 <= nbytes /\ nbytes * 8 < 2 ^ 64 /\ zlen keys * bits_per_key <= nbytes * 8 /\
    array = fold_left (add_key k (nbytes * 8)) keys a0 /\ zlen array = nbytes + 1 /\
    Bloom_CreateFilter bits_per_key keys dst = dst ++ array /\
    byte_at array (Z.to_nat nbytes) = k.
Proof.
  intros Hb Hn. pose proof (zlen_nonneg keys).
  assert (Hm : 0 <= zlen keys * bits_per_key < 2 ^ 62) by nia.
  set (m := zlen keys * bits_per_key) in *.
  set (bits := if m <? 64 then 64 else m).
  assert (Hbits : 64 <= bits /\ m <= bits < 2 ^ 62) by (unfold bits; zcmp; lia).
  exists ((bits + 7) / 8). set (nb := (bits + 7) / 8).
  assert (Hnb : 8 <= nb /\ nb * 8 < 2 ^ 64 /\ bits <= nb * 8) by (unfold nb; dlia).
  eexists. split; [lia|]. split; [lia|]. split; [lia|]. split; [reflexivity|].
  pose proof (bloom_k_range bits_per_key) as Hk.
  assert (Hl : length (replicate (Z.to_nat nb) x00 ++ [byte_of_Z (bloom_k bits_per_key)])
    = S (Z.to_nat nb)) by (rewrite length_app, length_replicate; simpl; lia).
  split; [|split].
  - unfold zlen. edestruct add_keys_spec as [E _]; [|rewrite E, Hl; lia].
    unfold zlen. rewrite Hl. lia.
  - unfold Bloom_CreateFilter. rewrite (u64_small (zlen keys * _)) by (fold m; lia).
    fold m. fold bits. rewrite (u64_small (bits + 7)) by lia. fold nb.
    rewrite (u64_small (nb * 8)) by lia. done.
  - rewrite add_keys_byte by lia. unfold byte_at. rewrite app_nth2; rewrite length_replicate; [|lia].
    rewrite Nat.sub_diag. simpl. rewrite byte_to_of_Z, Z.mod_small; lia.
Qed.

(** A filter answers true for exactly the keys whose probes are all among the
    probes of the keys it was built from. *)
Lemma Bloom_KeyMayMatch_iff bits_per_key keys dst key :
  0 <= bits_per_key < 2 ^ 31 -> zlen keys < 2 ^ 31 ->
  exists bits, 64 <= bits /\ zlen keys * bits_per_key <= bits /\
  let probes k := map (probe bits (rotate_right_17 (BloomHash k)) (BloomHash k))
                      (seq 0 (Z.to_nat (bloom_k bits_per_key))) in
  (Bloom_KeyMayMatch key (drop (length dst) (Bloom_CreateFilter bits_per_key keys dst)) = true
   <-> incl (probes key) (flat_map probes keys)).
Proof.
  intros Hb Hn.
  destruct (Bloom_filter_layout bits_per_key keys dst Hb Hn)
    as (nb & array & Hnb & Hnb2 & Hm & Harr & Hlen & -> & Hlast).
  pose proof (bloom_k_range bits_per_key) as Hk.
  exists (nb * 8). split; [lia|]. split; [done|]. intros probes.
  rewrite drop_app_exact. unfold Bloom_KeyMayMatch. rewrite Hlen.
  rewrite (proj2 (Z.ltb_ge _ _)) by lia. rewrite Z.add_simpl_r.
  unfold byte_at in Hlast. unfold char_to_u64. rewrite Hlast.
  rewrite (proj2 (Z.ltb_lt _ 128)) by lia. rewrite (proj2 (Z.ltb_ge _ _)) by lia.
  rewrite (u64_small (nb * 8)) by lia. rewrite check_probes_spec.
  set (a0 := replicate (Z.to_nat nb) x00 ++ [byte_of_Z (bloom_k bits_per_key)]) in *.
  assert (Ha0 : zlen a0 = nb + 1).
  { unfold a0. rewrite zlen_app. unfold zlen. rewrite length_replicate. simpl. lia. }
  assert (Hz : forall q, 0 <= q < nb * 8 -> ~ bit_is_set a0 q).
  { intros q Hq. unfold bit_is_set, byte_at, a0.
    assert (Z.to_nat (q / 8) < Z.to_nat nb)%nat by dlia.
    rewrite app_nth1 by (rewrite length_replicate; lia).
    rewrite nth_lookup, lookup_replicate_2 by lia. simpl. rewrite Z.bits_0. done. }
  destruct (add_keys_spec (bloom_k bits_per_key) (nb * 8) keys a0) as [_ Hq]; [lia|].
  rewrite <- Harr in Hq.
  assert (Hr : forall d h j, 0 <= probe (nb * 8) d h j < nb * 8)
    by (intros; apply Z.mod_pos_bound; lia).
  split.
  - intros H x Hx. apply in_map_iff in Hx as (j & <- & Hj%in_seq).
    specialize (H j ltac:(lia)). apply Hq in H as [H|(k' & j' & Hin & Hj' & ->)]; [|..|apply Hr].
    + exfalso. eapply Hz; [apply Hr|exact H].
    + apply in_flat_map. exists k'. split; [done|]. apply in_map, in_seq. lia.
  - intros H j Hj. apply Hq; [apply Hr|]. right.
    assert (Hin : In (probe (nb * 8) (rotate_right_17 (BloomHash key)) (BloomHash key) j)
                     (flat_map probes keys)) by (apply H, in_map, in_seq; lia).
    apply in_flat_map in Hin as (k' & Hk' & Hp). apply in_map_iff in Hp as (j' & E & Hj'%in_seq).
    exists k', j'. split; [done|]. split; [lia|done].
Qed.

Lemma BloomFilterPolicy_laws bits_per_key :
  0 <= bits_per_key < 2 ^ 31 -> FilterPolicyLaws (BloomFilterPolicy bits_per_key).
Proof.
  intros Hb. split; simpl.
  - intros keys dst. eexists. reflexivity.
  - intros keys dst k Hn Hin.
    destruct (Bloom_KeyMayMatch_iff bits_per_key keys dst k Hb Hn) as (bits & _ & _ & H).
    apply H. intros x Hx. apply in_flat_map. by exists k.
Qed.

(** ** Properties *)

(** C38: the Bloom filter has no false negatives: a key it was built from always
    matches, whatever [dst] held before and for every number of bits per key.
    Moreover it answers true for no other key than those whose probe positions
    are all covered by the keys', and [dst] is only appended to. *)
Theorem bloom_no_false_negatives (bits_per_key : Z) (keys : list bytes) (dst key : bytes)
    (Hb : 0 <= bits_per_key < 2 ^ 31) (Hn : zlen keys < 2 ^ 31) :
  let filter := drop (length dst) (Bloom_CreateFilter bits_per_key keys dst) in
  Bloom_CreateFilter bits_per_key keys dst = dst ++ filter /\
  (In key keys -> Bloom_KeyMayMatch key filter = true) /\
  exists bits, 64 <= bits /\ zlen keys * bits_per_key <= bits /\
    let probes k := map (probe bits (rotate_right_17 (BloomHash k)) (BloomHash k))
                        (seq 0 (Z.to_nat (bloom_k bits_per_key))) in
    (Bloom_KeyMayMatch key filter = true <-> incl (probes key) (flat_map probes keys)).
Proof.
  intros filter. split; [|split].
  - unfold filter. destruct (Bloom_filter_layout bits_per_key keys dst Hb Hn)
      as (nb & array & _ & _ & _ & _ & _ & -> & _). by rewrite drop_app_exact.
  - by apply (KeyMayMatch_created (FilterPolicyLaws := BloomFilterPolicy_laws bits_per_key Hb)).
  - by apply Bloom_KeyMayMatch_iff.
Qed.

Lemma bloom_no_false_negatives_witness :
  In (cstr "hello") [cstr "hello"; cstr "world"] /\
  Bloom_KeyMayMatch (cstr "hello")
    (drop 3 (Bloom_CreateFilter 10 [cstr "hello"; cstr "world"] (cstr "abc"))) = true /\
  Bloom_KeyMayMatch (cstr "foo")
    (drop 3 (Bloom_CreateFilter 10 [cstr "hello"; cstr "world"] (cstr "abc"))) = false.
Proof.
  assert (Hin : In (cstr "hello") [cstr "hello"; cstr "world"]) by (left; reflexivity).
  split; [exact Hin|]. split; [|vm_compute; reflexivity].
  exact (proj1 (proj2 (bloom_no_false_negatives 10 [cstr "hello"; cstr "world"] (cstr "abc")
    (cstr "hello") ltac:(lia) ltac:(reflexivity))) Hin).
Defined.
