(* ===== verification/DbFormat.v ===== *)
(** * db/dbformat: internal keys

    Models src/db/dbformat.h and src/db/dbformat.cc: internal keys (a user key
    followed by a 64-bit tag of sequence number and type), their comparator as
    an instance of the comparator interface built from the user's comparator,
    the filter-policy wrapper, and lookup keys. *)

From S2P Require Import Prelude Coding Comparator Bloom Logging.

(** ** Configuration constants *)

Definition kNumLevels : nat := 7.
Definition kL0_CompactionTrigger : Z := 4.
Definition kL0_SlowdownWritesTrigger : Z := 8.
Definition kL0_StopWritesTrigger : Z := 12.
Definition kMaxMemCompactLevel : nat := 2.
Definition kReadBytesPeriod : Z := 1048576.

(** ** Types and tags *)

Inductive ValueType := kTypeDeletion | kTypeValue.

#[global] Instance ValueType_eq_dec : EqDecision ValueType.
Proof. solve_decision. Defined.

Definition ValueType_code (t : ValueType) : Z :=
  match t with kTypeDeletion => 0x0 | kTypeValue => 0x1 end.

Definition kValueTypeForSeek : ValueType := kTypeValue.
Definition kMaxSequenceNumber : Z := Z.shiftl 1 56 - 1.

Record ParsedInternalKey := mkParsed {
  user_key : bytes;
  sequence : Z;
  type : ValueType;
}.

Definition InternalKeyEncodingLength (key : ParsedInternalKey) : Z := zlen (user_key key) + 8.

Definition PackSequenceAndType (seq : Z) (t : ValueType) : Z :=
  Z.lor (u64 (Z.shiftl seq 8)) (ValueType_code t).

Definition AppendInternalKey (result : bytes) (key : ParsedInternalKey) : bytes :=
  PutFixed64 (result ++ user_key key) (PackSequenceAndType (sequence key) (type key)).

(** [InternalKey(user_key, s, t).Encode()] *)
Definition InternalKey (u : bytes) (s : Z) (t : ValueType) : bytes :=
  AppendInternalKey [] (mkParsed u s t).

(** [Slice(k.data(), k.size() - 8)]; the code asserts [size() >= 8]. *)
Definition ExtractUserKey (internal_key : bytes) : bytes :=
  take (length internal_key - 8) internal_key.

(** [DecodeFixed64(k.data() + k.size() - 8)] *)
Definition key_tag (internal_key : bytes) : Z :=
  DecodeFixed64 (drop (length internal_key - 8) internal_key).

Definition ParseInternalKey (internal_key : bytes) : option ParsedInternalKey :=
  let n := zlen internal_key in
  if n <? 8 then None
  else
    let num := key_tag internal_key in
    let c := Z.land num 0xff in
    let uk := take (length internal_key - 8) internal_key in
    if c =? ValueType_code kTypeDeletion then Some (mkParsed uk (Z.shiftr num 8) kTypeDeletion)
    else if c =? ValueType_code kTypeValue then Some (mkParsed uk (Z.shiftr num 8) kTypeValue)
    else None.

Definition ParsedInternalKey_DebugString (k : ParsedInternalKey) : bytes :=
  cstr "'" ++ EscapeString (user_key k) ++ cstr "' @ " ++ NumberToString (sequence k)
    ++ cstr " : " ++ NumberToString (ValueType_code (type k)).

Definition InternalKey_DebugString (rep : bytes) : bytes :=
  match ParseInternalKey rep with
  | Some parsed => ParsedInternalKey_DebugString parsed
  | None => cstr "(bad)" ++ EscapeString rep
  end.

(** ** The internal key comparator *)

Section InternalKeyComparator.
(** [user_comparator_] *)
Variable user_comparator : Comparator.

Definition InternalKey_Compare (akey bkey : bytes) : comparison :=
  match Compare (Comparator := user_comparator) (ExtractUserKey akey) (ExtractUserKey bkey) with
  | Eq =>
      let anum := key_tag akey in
      let bnum := key_tag bkey in
      if bnum <? anum then Lt else if anum <? bnum then Gt else Eq
  | r => r
  end.

Definition InternalKey_FindShortestSeparator (start limit : bytes) : bytes :=
  let user_start := ExtractUserKey start in
  let user_limit := ExtractUserKey limit in
  let tmp := FindShortestSeparator (Comparator := user_comparator) user_start user_limit in
  if (zlen tmp <? zlen user_start) &&
     (match Compare (Comparator := user_comparator) user_start tmp with Lt => true | _ => false end)
  then PutFixed64 tmp (PackSequenceAndType kMaxSequenceNumber kValueTypeForSeek)
  else start.

Definition InternalKey_FindShortSuccessor (key : bytes) : bytes :=
  let uk := ExtractUserKey key in
  let tmp := FindShortSuccessor (Comparator := user_comparator) uk in
  if (zlen tmp <? zlen uk) &&
     (match Compare (Comparator := user_comparator) uk tmp with Lt => true | _ => false end)
  then PutFixed64 tmp (PackSequenceAndType kMaxSequenceNumber kValueTypeForSeek)
  else key.

Definition InternalKeyComparator : Comparator := {|
  Compare := InternalKey_Compare;
  FindShortestSeparator := InternalKey_FindShortestSeparator;
  FindShortSuccessor := InternalKey_FindShortSuccessor;
|}.
End InternalKeyComparator.

(** The filter policy of the tables: the user's policy on user keys.  (The code
    overwrites the caller's array of keys with the user keys; its only caller
    discards the array afterwards.) *)
Definition InternalFilterPolicy (user_policy : FilterPolicy) : FilterPolicy := {|
  CreateFilter := fun keys dst =>
    CreateFilter (FilterPolicy := user_policy) (map ExtractUserKey keys) dst;
  KeyMayMatch := fun key f =>
    KeyMayMatch (FilterPolicy := user_policy) (ExtractUserKey key) f;
|}.

(** ** Lookup keys *)

(** The array the constructor fills, and the offset of [kstart_] in it. *)
Record LookupKey := mkLookupKey { lk_array : bytes; lk_kstart : nat }.

Definition LookupKey_new (uk : bytes) (s : Z) : LookupKey :=
  let klength := EncodeVarint32 (u32 (zlen uk + 8)) in
  mkLookupKey (klength ++ uk ++ EncodeFixed64 (PackSequenceAndType s kValueTypeForSeek))
              (length klength).

Definition memtable_key (k : LookupKey) : bytes := lk_array k.
Definition internal_key (k : LookupKey) : bytes := drop (lk_kstart k) (lk_array k).
Definition lookup_user_key (k : LookupKey) : bytes :=
  let ik := drop (lk_kstart k) (lk_array k) in take (length ik - 8) ik.

(** ** Tags *)

Lemma ValueType_code_range t : 0 <= ValueType_code t <= 1.
Proof. destruct t; simpl; lia. Qed.

Lemma ValueType_code_inj t t' : ValueType_code t = ValueType_code t' -> t = t'.
Proof. destruct t, t'; done. Qed.

Lemma PackSequenceAndType_arith s t :
  0 <= s <= kMaxSequenceNumber -> PackSequenceAndType s t = s * 256 + ValueType_code t.
Proof.
  intros Hs. change kMaxSequenceNumber with (2 ^ 56 - 1) in Hs.
  pose proof (ValueType_code_range t). unfold PackSequenceAndType.
  rewrite u64_small by (rewrite Z.shiftl_mul_pow2; lia).
  rewrite lor_shiftl_add' by lia. lia.
Qed.

Lemma PackSequenceAndType_range s t :
  0 <= s <= kMaxSequenceNumber -> 0 <= PackSequenceAndType s t < 2 ^ 64.
Proof.
  intros Hs. rewrite PackSequenceAndType_arith by done. pose proof (ValueType_code_range t).
  change kMaxSequenceNumber with (2 ^ 56 - 1) in Hs. lia.
Qed.

Lemma EncodeFixed64_len v : length (EncodeFixed64 v) = 8%nat.
Proof. done. Qed.

Lemma ExtractUserKey_app u v : ExtractUserKey (u ++ EncodeFixed64 v) = u.
Proof.
  unfold ExtractUserKey. rewrite length_app, EncodeFixed64_len, Nat.add_sub.
  apply take_app_exact.
Qed.

Lemma key_tag_app u v : 0 <= v < 2 ^ 64 -> key_tag (u ++ EncodeFixed64 v) = v.
Proof.
  intros Hv. unfold key_tag. rewrite length_app, EncodeFixed64_len, Nat.add_sub.
  rewrite drop_app_exact, <- (app_nil_r (EncodeFixed64 v)), DecodeFixed64_encode.
  by apply u64_small.
Qed.

Lemma InternalKey_unfold u s t :
  InternalKey u s t = u ++ EncodeFixed64 (PackSequenceAndType s t).
Proof. done. Qed.

Lemma InternalKey_length u s t : length (InternalKey u s t) = (length u + 8)%nat.
Proof. rewrite InternalKey_unfold, length_app. done. Qed.

Lemma ExtractUserKey_InternalKey u s t : ExtractUserKey (InternalKey u s t) = u.
Proof. rewrite InternalKey_unfold. apply ExtractUserKey_app. Qed.

Lemma key_tag_InternalKey u s t :
  0 <= s <= kMaxSequenceNumber -> key_tag (InternalKey u s t) = s * 256 + ValueType_code t.
Proof.
  intros Hs. rewrite InternalKey_unfold, key_tag_app by by apply PackSequenceAndType_range.
  by apply PackSequenceAndType_arith.
Qed.

Lemma ParseInternalKey_InternalKey u s t :
  0 <= s <= kMaxSequenceNumber -> ParseInternalKey (InternalKey u s t) = Some (mkParsed u s t).
Proof.
  intros Hs. unfold ParseInternalKey. rewrite (key_tag_InternalKey u s t Hs).
  unfold zlen. rewrite (proj2 (Z.ltb_ge _ _)) by (rewrite InternalKey_length; lia).
  change (take _ _) with (ExtractUserKey (InternalKey u s t)).
  rewrite ExtractUserKey_InternalKey. pose proof (ValueType_code_range t).
  rewrite land_255, Z.add_comm, Z.mod_add, Z.mod_small by lia.
  rewrite Z.shiftr_div_pow2, Z.div_add, Z.div_small by lia. rewrite Z.add_0_l.
  destruct t; done.
Qed.

Lemma ParseInternalKey_sound k p :
  ParseInternalKey k = Some p ->
  0 <= sequence p <= kMaxSequenceNumber /\ AppendInternalKey [] p = k.
Proof.
  unfold ParseInternalKey. destruct (Z.ltb_spec (zlen k) 8) as [|Hn]; [done|].
  set (num := key_tag k). set (uk := take _ _). intros Hp.
  assert (Hnum : 0 <= num < 2 ^ 64) by apply DecodeFixed64_range.
  assert (Ht : exists t, p = mkParsed uk (Z.shiftr num 8) t /\ num mod 256 = ValueType_code t).
  { rewrite land_255 in Hp. destruct (Z.eqb_spec (num mod 256) (ValueType_code kTypeDeletion)).
    - exists kTypeDeletion. split; [congruence|done].
    - destruct (Z.eqb_spec (num mod 256) (ValueType_code kTypeValue)); [|done].
      exists kTypeValue. split; [congruence|done]. }
  destruct Ht as (t & -> & Ht). unfold AppendInternalKey, PutFixed64. simpl user_key.
  cbn [sequence type app]. rewrite Z.shiftr_div_pow2 by lia. change (2 ^ 8) with 256.
  change kMaxSequenceNumber with (2 ^ 56 - 1).
  assert (Hs : 0 <= num / 256 <= 2 ^ 56 - 1) by dlia.
  split; [exact Hs|]. rewrite PackSequenceAndType_arith by exact Hs.
  replace (num / 256 * 256 + ValueType_code t) with num by dlia.
  unfold num, uk, key_tag. rewrite EncodeFixed64_decode by (rewrite length_drop; ilia).
  apply take_drop.
Qed.

(** ** The internal order *)

Lemma InternalKey_unfold_any tmp v :
  ExtractUserKey (PutFixed64 tmp v) = tmp.
Proof. apply ExtractUserKey_app. Qed.

(** The comparison of the tags, largest first. *)
Lemma tag_compare a b :
  (if b <? a then Lt else if a <? b then Gt else Eq) = (b ?= a).
Proof. zcmp; destruct (Z.compare_spec b a); done || lia. Qed.

Section InternalKeyComparatorLaws.
Context {C : Comparator} {L : ComparatorLaws C}.

Lemma InternalKey_Compare_eq_spec a b :
  InternalKey_Compare C a b =
  match Compare (ExtractUserKey a) (ExtractUserKey b) with
  | Eq => key_tag b ?= key_tag a
  | r => r
  end.
Proof. unfold InternalKey_Compare. rewrite tag_compare. done. Qed.

Lemma InternalKey_Compare_lt a b :
  Compare (ExtractUserKey a) (ExtractUserKey b) = Lt -> InternalKey_Compare C a b = Lt.
Proof. intros H. unfold InternalKey_Compare. rewrite H. done. Qed.

#[export] Instance InternalKeyComparator_laws : ComparatorLaws (InternalKeyComparator C).
Proof.
  split; simpl; intros *.
  - rewrite InternalKey_Compare_eq_spec, Compare_refl. apply Z.compare_refl.
  - rewrite !InternalKey_Compare_eq_spec, (Compare_antisym (ExtractUserKey a)).
    destruct (Compare (ExtractUserKey a) (ExtractUserKey b)); simpl; [apply Z.compare_antisym|done..].
  - rewrite !InternalKey_Compare_eq_spec.
    destruct (Compare (ExtractUserKey a) (ExtractUserKey b)) eqn:E1; [| |done];
    destruct (Compare (ExtractUserKey b) (ExtractUserKey c)) eqn:E2; try done.
    + rewrite (Compare_eq_l _ _ _ E1), E2. rewrite !Z.compare_lt_iff. lia.
    + by rewrite (Compare_eq_l _ _ _ E1), E2.
    + rewrite <- (Compare_eq_r _ _ _ E2), E1. done.
    + by rewrite (Compare_lt_trans _ _ _ E1 E2).
  - rewrite !InternalKey_Compare_eq_spec.
    destruct (Compare (ExtractUserKey a) (ExtractUserKey b)) eqn:E1; try done.
    intros E%Z.compare_eq_iff. by rewrite (Compare_eq_l _ _ _ E1), E.
  - intros H. unfold InternalKey_FindShortestSeparator.
    destruct (Compare (ExtractUserKey s) _) eqn:E; rewrite ?andb_false_r;
      [|destruct (_ <? _); simpl|]; rewrite ?(InternalKey_Compare_eq_spec s s), ?Compare_refl, ?Z.compare_refl;
      try done.
    rewrite InternalKey_Compare_lt; [done|]. by rewrite InternalKey_unfold_any.
  - intros H. unfold InternalKey_FindShortestSeparator.
    destruct (Compare (ExtractUserKey s) _) eqn:E; rewrite ?andb_false_r; [done| |done].
    destruct (_ <? _); simpl; [|done]. apply InternalKey_Compare_lt.
    rewrite InternalKey_unfold_any. rewrite InternalKey_Compare_eq_spec in H.
    destruct (Compare (ExtractUserKey s) (ExtractUserKey l)) eqn:E2; [| |done].
    + by rewrite (separator_eq _ _ E2) in E.
    + by apply separator_lt.
  - intros H. rewrite InternalKey_Compare_eq_spec in H. unfold InternalKey_FindShortestSeparator.
    destruct (Compare (ExtractUserKey s) (ExtractUserKey l)) eqn:E2; try done.
    rewrite (separator_eq _ _ E2), andb_false_r.
    by rewrite InternalKey_Compare_eq_spec, Compare_refl, Z.compare_refl.
  - unfold InternalKey_FindShortSuccessor.
    destruct (Compare (ExtractUserKey k) _) eqn:E; rewrite ?andb_false_r;
      [|destruct (_ <? _); simpl|]; rewrite ?(InternalKey_Compare_eq_spec k k), ?Compare_refl, ?Z.compare_refl;
      try done.
    rewrite InternalKey_Compare_lt; [done|]. by rewrite InternalKey_unfold_any.
Qed.

(** The order of encoded keys: user key first, then newest first. *)
Lemma InternalKey_Compare_encoded u s t u' s' t' :
  0 <= s <= kMaxSequenceNumber -> 0 <= s' <= kMaxSequenceNumber ->
  InternalKey_Compare C (InternalKey u s t) (InternalKey u' s' t') =
  match Compare u u' with
  | Eq => match s' ?= s with Eq => ValueType_code t' ?= ValueType_code t | c => c end
  | c => c
  end.
Proof.
  intros Hs Hs'. rewrite InternalKey_Compare_eq_spec, !ExtractUserKey_InternalKey.
  rewrite !key_tag_InternalKey by done. destruct (Compare u u'); try done.
  pose proof (ValueType_code_range t). pose proof (ValueType_code_range t').
  destruct (Z.compare_spec s' s); subst.
  - destruct (Z.compare_spec (ValueType_code t') (ValueType_code t)) as [->| |];
      [apply Z.compare_refl|apply Z.compare_lt_iff|apply Z.compare_gt_iff]; lia.
  - apply Z.compare_lt_iff. lia.
  - apply Z.compare_gt_iff. lia.
Qed.

(** Where a lookup key stands among the entries. *)
Lemma lookup_key_position u s u' s' t' :
  0 <= s <= kMaxSequenceNumber -> 0 <= s' <= kMaxSequenceNumber ->
  InternalKey_Compare C (InternalKey u s kValueTypeForSeek) (InternalKey u' s' t') <> Gt <->
  Compare u u' = Lt \/ (Compare u u' = Eq /\ s' <= s).
Proof.
  intros Hs Hs'. rewrite InternalKey_Compare_encoded by done.
  pose proof (ValueType_code_range t'). change (ValueType_code kValueTypeForSeek) with 1.
  destruct (Compare u u').
  - destruct (Z.compare_spec s' s); subst.
    + destruct (Z.compare_spec (ValueType_code t') 1); split; try done; try (right; split; [done|lia]); lia.
    + split; [intros _; right; split; [done|lia]|done].
    + split; [done|]. intros [?|[_ ?]]; [done|lia].
  - split; [by left|done].
  - split; [done|]. intros [?|[? _]]; done.
Qed.
End InternalKeyComparatorLaws.

Lemma InternalFilterPolicy_laws P :
  FilterPolicyLaws P -> FilterPolicyLaws (InternalFilterPolicy P).
Proof.
  intros HP. split; simpl.
  - intros keys dst. apply CreateFilter_appends.
  - intros keys dst k Hn Hin. apply KeyMayMatch_created.
    + unfold zlen in *. by rewrite length_map.
    + by apply in_map.
Qed.

(** ** Lookup keys *)

Lemma LookupKey_new_internal u s :
  internal_key (LookupKey_new u s) = InternalKey u s kValueTypeForSeek.
Proof. unfold internal_key. simpl. apply drop_app_exact. Qed.

(** ** Properties *)

(** An internal key is its user key, sequence number and type: parsing an
    appended key gives the three back, and a string that parses is the
    encoding of what it parses to (with a 56-bit sequence number); in
    particular two encodings are equal only for equal components. *)
Theorem internal_key_roundtrip (u : bytes) (s : Z) (t : ValueType) (k : bytes)
    (Hs : 0 <= s <= kMaxSequenceNumber) :
  ParseInternalKey (InternalKey u s t) = Some (mkParsed u s t) /\
  zlen (InternalKey u s t) = InternalKeyEncodingLength (mkParsed u s t) /\
  (forall p, ParseInternalKey k = Some p ->
     0 <= sequence p <= kMaxSequenceNumber /\ AppendInternalKey [] p = k).
Proof.
  split; [by apply ParseInternalKey_InternalKey|]. split.
  - unfold zlen. rewrite InternalKey_length. unfold InternalKeyEncodingLength, zlen. simpl. lia.
  - intros p. apply ParseInternalKey_sound.
Qed.

Lemma internal_key_roundtrip_witness :
  ParseInternalKey (InternalKey (cstr "foo") 100 kTypeValue)
  = Some (mkParsed (cstr "foo") 100 kTypeValue).
Proof.
  exact (proj1 (internal_key_roundtrip (cstr "foo") 100 kTypeValue [] ltac:(vm_compute; split; discriminate))).
Defined.

(** C27: the internal comparator, over any lawful user comparator, is a lawful
    comparator, and orders encoded keys by user key, then by decreasing
    sequence number, then by decreasing type. *)
Theorem internal_order_correct (C : Comparator) (L : ComparatorLaws C)
    (u u' : bytes) (s s' : Z) (t t' : ValueType)
    (Hs : 0 <= s <= kMaxSequenceNumber) (Hs' : 0 <= s' <= kMaxSequenceNumber) :
  ComparatorLaws (InternalKeyComparator C) /\
  InternalKey_Compare C (InternalKey u s t) (InternalKey u' s' t') =
    match Compare u u' with
    | Eq => match s' ?= s with Eq => ValueType_code t' ?= ValueType_code t | c => c end
    | c => c
    end.
Proof. split; [exact InternalKeyComparator_laws|by apply InternalKey_Compare_encoded]. Qed.

Lemma internal_order_correct_witness :
  InternalKey_Compare BytewiseComparator (InternalKey (cstr "k") 7 kTypeValue)
    (InternalKey (cstr "k") 9 kTypeDeletion) = Gt.
Proof.
  refine (eq_trans (proj2 (internal_order_correct BytewiseComparator BytewiseComparator_laws
    (cstr "k") (cstr "k") 7 9 kTypeValue kTypeDeletion _ _)) _);
    [vm_compute; split; discriminate..|reflexivity].
Defined.

(** C28: a lookup key for [u] at snapshot [s] sorts at or before an entry exactly
    when the entry is of a larger user key, or of the same one and not newer
    than the snapshot: the first entry at or after it is the newest visible
    version of [u], if there is one. *)
Theorem lookup_key_seeks_newest_visible (C : Comparator) (L : ComparatorLaws C)
    (u u' : bytes) (s s' : Z) (t' : ValueType)
    (Hs : 0 <= s <= kMaxSequenceNumber) (Hs' : 0 <= s' <= kMaxSequenceNumber) :
  let k := LookupKey_new u s in
  (InternalKey_Compare C (internal_key k) (InternalKey u' s' t') <> Gt <->
   Compare u u' = Lt \/ (Compare u u' = Eq /\ s' <= s)) /\
  lookup_user_key k = u /\
  (zlen u < 2 ^ 32 - 8 ->
   GetLengthPrefixedSlice (memtable_key k) = Some (internal_key k, [])).
Proof.
  intros k. split; [|split].
  - unfold k. rewrite LookupKey_new_internal. by apply lookup_key_position.
  - unfold lookup_user_key. change (drop _ _) with (internal_key k). unfold k.
    rewrite LookupKey_new_internal. apply ExtractUserKey_InternalKey.
  - intros Hu. unfold k. rewrite LookupKey_new_internal.
    rewrite <- (GetLengthPrefixedSlice_put (InternalKey u s kValueTypeForSeek) []).
    + f_equal. rewrite app_nil_r. unfold PutLengthPrefixedSlice, PutVarint32, memtable_key. simpl.
      unfold zlen. rewrite InternalKey_length. do 2 f_equal. f_equal. lia.
    + unfold zlen in *. rewrite InternalKey_length. lia.
Qed.

Lemma lookup_key_seeks_newest_visible_witness :
  InternalKey_Compare BytewiseComparator (internal_key (LookupKey_new (cstr "k") 8))
    (InternalKey (cstr "k") 7 kTypeValue) <> Gt.
Proof.
  refine (proj2 (proj1 (lookup_key_seeks_newest_visible BytewiseComparator BytewiseComparator_laws
    (cstr "k") (cstr "k") 8 7 kTypeValue _ _)) _); [vm_compute; split; discriminate..|].
  right. split; [reflexivity|lia].
Defined.
