(* ===== verification/Status.v ===== *)
(** * Status and files

    Models src/include/leveldb/status.h and src/util/status.cc, and the parts
    of the file interfaces of src/include/leveldb/env.h that the log uses, as
    classes of operations with their documented laws: for files that work, and for
    files that may fail at any time.  The array [state_] of a
    status (length, code, message) is the pair of code and message; a null
    [state_] is [OK]. *)

From S2P Require Import Prelude Coding.

Inductive Code := kNotFound | kCorruption | kNotSupported | kInvalidArgument | kIOError.

#[global] Instance Code_eq_dec : EqDecision Code.
Proof. solve_decision. Defined.

Inductive Status := OK | Error (code : Code) (msg : bytes).

#[global] Instance Status_eq_dec : EqDecision Status.
Proof. solve_decision. Defined.

(** [Status(code, msg, msg2)]: the lengths are truncated to 32 bits. *)
Definition Status_new (code : Code) (msg msg2 : bytes) : Status :=
  let len1 := u32 (zlen msg) in
  let len2 := u32 (zlen msg2) in
  Error code (take (Z.to_nat len1) msg ++
    (if len2 =? 0 then [] else cstr ": " ++ take (Z.to_nat len2) msg2)).

Definition NotFound (msg msg2 : bytes) : Status := Status_new kNotFound msg msg2.
Definition Corruption (msg msg2 : bytes) : Status := Status_new kCorruption msg msg2.
Definition NotSupported (msg msg2 : bytes) : Status := Status_new kNotSupported msg msg2.
Definition InvalidArgument (msg msg2 : bytes) : Status := Status_new kInvalidArgument msg msg2.
Definition IOError (msg msg2 : bytes) : Status := Status_new kIOError msg msg2.

Definition ok (s : Status) : bool := match s with OK => true | Error _ _ => false end.

Definition has_code (c : Code) (s : Status) : bool :=
  match s with OK => false | Error c' _ => bool_decide (c' = c) end.
Definition IsNotFound := has_code kNotFound.
Definition IsCorruption := has_code kCorruption.
Definition IsIOError := has_code kIOError.
Definition IsNotSupportedError := has_code kNotSupported.
Definition IsInvalidArgument := has_code kInvalidArgument.

Definition Status_ToString (s : Status) : bytes :=
  match s with
  | OK => cstr "OK"
  | Error c msg =>
      (match c with
       | kNotFound => cstr "NotFound: "
       | kCorruption => cstr "Corruption: "
       | kNotSupported => cstr "Not implemented: "
       | kInvalidArgument => cstr "Invalid argument: "
       | kIOError => cstr "IO error: "
       end) ++ msg
  end.

Lemma ok_OK s : ok s = true <-> s = OK.
Proof. destruct s; done. Qed.

(** ** Files *)

(** [SequentialFile::Read] and [Skip]. *)
Class SequentialFile (F : Type) := {
  seq_Read : Z -> F -> Status * bytes * F;
  seq_Skip : Z -> F -> Status * F;
}.

(** A file that works: [Read(n)] returns the next [n] bytes, fewer only at the
    end; [Skip(n)] advances, and stops at the end. *)
Class SequentialFileLaws {F} (S : SequentialFile F) (seq_rest : F -> bytes) : Prop := {
  seq_Read_ok : forall n f, 0 <= n -> exists f',
    seq_Read n f = (OK, take (Z.to_nat n) (seq_rest f), f') /\
    seq_rest f' = drop (Z.to_nat n) (seq_rest f);
  seq_Skip_ok : forall n f, 0 <= n -> exists f',
    seq_Skip n f = (OK, f') /\ seq_rest f' = drop (Z.to_nat n) (seq_rest f);
}.

(** [WritableFile::Append], [Flush] and [Sync]. *)
Class WritableFile (W : Type) := {
  wf_Append : bytes -> W -> Status * W;
  wf_Flush : W -> Status * W;
  wf_Sync : W -> Status * W;
}.

(** A file whose operations succeed. *)
Class WritableFileLaws {W} (S : WritableFile W) (wf_contents : W -> bytes) : Prop := {
  wf_Append_ok : forall data w, exists w',
    wf_Append data w = (OK, w') /\ wf_contents w' = wf_contents w ++ data;
  wf_Flush_ok : forall w, exists w', wf_Flush w = (OK, w') /\ wf_contents w' = wf_contents w;
  wf_Sync_ok : forall w, exists w', wf_Sync w = (OK, w') /\ wf_contents w' = wf_contents w;
}.

(** A file whose operations may fail at any time: a call that returns [OK] has
    done its work, and no call fails while [works] holds. *)
Class FaultyFile {W} (works : Prop) (S : WritableFile W) (wf_contents : W -> bytes) : Prop := {
  wf_Append_may : forall data w s w', wf_Append data w = (s, w') -> if ok s then wf_contents w' = wf_contents w ++ data else ~ works;
  wf_Flush_may : forall w s w', wf_Flush w = (s, w') -> if ok s then wf_contents w' = wf_contents w else ~ works;
  wf_Sync_may : forall w s w', wf_Sync w = (s, w') -> if ok s then wf_contents w' = wf_contents w else ~ works;
}.

#[export] Instance working_file {W} (S : WritableFile W) (wf_contents : W -> bytes) : WritableFileLaws S wf_contents -> FaultyFile True S wf_contents.
Proof.
  intros WL. split.
  - intros data w s w' Es. destruct (wf_Append_ok data w) as (w1 & E1 & H1). rewrite Es in E1. by injection E1 as -> ->.
  - intros w s w' Es. destruct (wf_Flush_ok w) as (w1 & E1 & H1). rewrite Es in E1. by injection E1 as -> ->.
  - intros w s w' Es. destruct (wf_Sync_ok w) as (w1 & E1 & H1). rewrite Es in E1. by injection E1 as -> ->.
Qed.

(** The calls of [Env] that open files, and [WritableFile::Close]. *)
Class LogFiles (E W : Type) := {
  NewWritableFile : bytes -> E -> (Status + W) * E;
  CloseFile : W -> Status;
}.

Class SequentialFiles (E F : Type) := {
  NewSequentialFile : bytes -> E -> Status + F;
}.

Class AppendableFiles (E W : Type) := {
  GetFileSize : bytes -> E -> Status + Z;
  NewAppendableFile : bytes -> E -> (Status + W) * E;
}.

(** *** Byte strings as files *)

#[export] Instance StringSource : SequentialFile bytes := {|
  seq_Read n f := (OK, take (Z.to_nat n) f, drop (Z.to_nat n) f);
  seq_Skip n f := (OK, drop (Z.to_nat n) f);
|}.

#[export] Instance StringSource_laws : SequentialFileLaws StringSource id.
Proof. split; intros n f _; eexists; split; reflexivity. Qed.

#[export] Instance StringDest : WritableFile bytes := {|
  wf_Append data w := (OK, w ++ data);
  wf_Flush w := (OK, w);
  wf_Sync w := (OK, w);
|}.

#[export] Instance StringDest_laws : WritableFileLaws StringDest id.
Proof. split; intros; eexists; split; reflexivity. Qed.
