(* ===== verification/LogWriter.v ===== *)
(** * db/log_format and db/log_writer

    Models src/db/log_format.h and src/db/log_writer.cc: records are split into
    fragments that never cross a 32 KiB block.  The theorems describe what the
    writer leaves in the file, the assertions of the code included. *)

From S2P Require Import Prelude Coding Crc32c Status.

(** ** The format *)

Inductive RecordType := kZeroType | kFullType | kFirstType | kMiddleType | kLastType.

Definition RecordType_code (t : RecordType) : Z :=
  match t with
  | kZeroType => 0 | kFullType => 1 | kFirstType => 2 | kMiddleType => 3 | kLastType => 4
  end.

Definition kMaxRecordType : Z := RecordType_code kLastType.
Definition kBlockSize : Z := 32768.
Definition kHeaderSize : Z := 4 + 2 + 1.

Section Writer.
Context `{CS : Checksum} {W : Type} {WF : WritableFile W}.

Record Writer := mkWriter {
  dest_ : W;
  block_offset_ : Z;
  type_crc_ : list Z;
}.

(** [type_crc[i] = Value(&t, 1)] for [i <= kMaxRecordType]. *)
Definition InitTypeCrc : list Z :=
  map (fun i => cs_value [byte_of_Z (Z.of_nat i)]) (seq 0 (Z.to_nat (kMaxRecordType + 1))).

Definition Writer_new (dest : W) : Writer := mkWriter dest 0 InitTypeCrc.

Definition Writer_new_at (dest : W) (dest_length : Z) : Writer :=
  mkWriter dest (dest_length mod kBlockSize) InitTypeCrc.

(** The header of a physical record. *)
Definition record_header (type_crc : list Z) (t : RecordType) (fragment : bytes) : bytes :=
  let length := zlen fragment in
  let crc := cs_extend (nth (Z.to_nat (RecordType_code t)) type_crc 0) fragment in
  EncodeFixed32 (Mask crc) ++
  [byte_of_Z (Z.land length 0xff); byte_of_Z (Z.shiftr length 8); byte_of_Z (RecordType_code t)].

Definition EmitPhysicalRecord (w : Writer) (t : RecordType) (ptr : bytes) : Status * Writer :=
  let header := record_header (type_crc_ w) t ptr in
  let '(s, d) := wf_Append header (dest_ w) in
  let '(s, d) :=
    if ok s then
      let '(s, d) := wf_Append ptr d in
      if ok s then wf_Flush d else (s, d)
    else (s, d) in
  (s, mkWriter d (block_offset_ w + (kHeaderSize + zlen ptr)) (type_crc_ w)).

(** The type of a fragment. *)
Definition fragment_type (begin end_ : bool) : RecordType :=
  if begin && end_ then kFullType
  else if begin then kFirstType
  else if end_ then kLastType
  else kMiddleType.

(** Filling the trailer of a block; the status of this append is ignored. *)
Definition switch_block (w : Writer) : Writer :=
  let leftover := kBlockSize - block_offset_ w in
  if leftover <? kHeaderSize then
    let d := if 0 <? leftover
             then (wf_Append (replicate (Z.to_nat leftover) x00) (dest_ w)).2
             else dest_ w in
    mkWriter d 0 (type_crc_ w)
  else w.

(** The [do ... while] loop of [AddRecord]; [ptr] holds the bytes left. *)
Fixpoint AddRecord_loop (fuel : nat) (w : Writer) (ptr : bytes) (begin : bool) : Status * Writer :=
  match fuel with
  | O => (OK, w)
  | S f =>
      let w := switch_block w in
      let left := zlen ptr in
      let avail := kBlockSize - block_offset_ w - kHeaderSize in
      let fragment_length := if left <? avail then left else avail in
      let type := fragment_type begin (left =? fragment_length) in
      let '(s, w) := EmitPhysicalRecord w type (take (Z.to_nat fragment_length) ptr) in
      let ptr := drop (Z.to_nat fragment_length) ptr in
      if ok s && (0 <? zlen ptr) then AddRecord_loop f w ptr false else (s, w)
  end.

(** Every second round at least writes payload. *)
Definition AddRecord (w : Writer) (slice : bytes) : Status * Writer :=
  AddRecord_loop (2 * length slice + 2) w slice true.

(** Several records, up to the first error. *)
Fixpoint AddRecords (w : Writer) (records : list bytes) : Status * Writer :=
  match records with
  | [] => (OK, w)
  | record :: records =>
      let '(s, w) := AddRecord w record in
      if ok s then AddRecords w records else (s, w)
  end.

End Writer.

Arguments Writer : clear implicits.

(** ** What a record becomes *)

Section Pieces.
Context `{CS : Checksum}.

(** A piece of the file: the padding before a physical record, its type and its
    fragment. *)
Record Piece := mkPiece { pad : nat; ptype : RecordType; fragment : bytes }.

Definition physical_record (t : RecordType) (frag : bytes) : bytes :=
  record_header InitTypeCrc t frag ++ frag.

Definition piece_bytes (p : Piece) : bytes :=
  replicate (pad p) x00 ++ physical_record (ptype p) (fragment p).

Definition pieces_bytes (ps : list Piece) : bytes := concat (map piece_bytes ps).

Lemma pieces_bytes_cons n t frag ps :
  pieces_bytes (mkPiece n t frag :: ps) =
  replicate n x00 ++ physical_record t frag ++ pieces_bytes ps.
Proof. unfold pieces_bytes. simpl. unfold piece_bytes. simpl. by rewrite <- app_assoc. Qed.

(** The pieces of a record written at block offset [bo]: the specification of
    the writer, with the offset it ends at. *)
Inductive record_pieces : Z -> bool -> bytes -> list Piece -> Z -> Prop :=
| rp_end bo begin data n bo1 :
    skip_trailer bo n bo1 ->
    zlen data <= kBlockSize - bo1 - kHeaderSize ->
    record_pieces bo begin data [mkPiece n (fragment_type begin true) data]
                  (bo1 + kHeaderSize + zlen data)
| rp_more bo begin frag data n bo1 ps bo2 :
    skip_trailer bo n bo1 ->
    zlen frag = kBlockSize - bo1 - kHeaderSize -> data <> [] ->
    record_pieces kBlockSize false data ps bo2 ->
    record_pieces bo begin (frag ++ data) (mkPiece n (fragment_type begin false) frag :: ps) bo2
(** From offset [bo], [n] bytes are skipped to reach a usable offset [bo1]. *)
with skip_trailer : Z -> nat -> Z -> Prop :=
| st_stay bo : 0 <= bo -> kHeaderSize <= kBlockSize - bo -> skip_trailer bo 0 bo
| st_switch bo : 0 <= bo <= kBlockSize -> kBlockSize - bo < kHeaderSize ->
    skip_trailer bo (Z.to_nat (kBlockSize - bo)) 0.

Lemma skip_trailer_range bo n bo1 :
  skip_trailer bo n bo1 -> 0 <= bo1 <= kBlockSize - kHeaderSize /\ (n < 7)%nat.
Proof. unfold kHeaderSize, kBlockSize. destruct 1; unfold kHeaderSize, kBlockSize in *; lia. Qed.

(** A sequence of records. *)
Inductive log_pieces : Z -> list bytes -> list (list Piece) -> Z -> Prop :=
| lp_nil bo : log_pieces bo [] [] bo
| lp_cons bo data ps bo1 records pss bo2 :
    record_pieces bo true data ps bo1 -> log_pieces bo1 records pss bo2 ->
    log_pieces bo (data :: records) (ps :: pss) bo2.

Definition log_bytes (pss : list (list Piece)) : bytes := concat (map pieces_bytes pss).
End Pieces.

(** ** The writer implements the specification *)

Section WriterProofs.
Context `{CS : Checksum} {W : Type} {WF : WritableFile W}.
Context {wf_contents : W -> bytes} {WL : WritableFileLaws WF wf_contents}.
Implicit Types w : Writer W.

(** The invariant of a writer between records. *)
Definition writer_ok (w : Writer W) : Prop :=
  0 <= block_offset_ w <= kBlockSize /\ type_crc_ w = InitTypeCrc.

Lemma switch_block_spec w :
  writer_ok w ->
  exists n, skip_trailer (block_offset_ w) n (block_offset_ (switch_block w)) /\
    wf_contents (dest_ (switch_block w)) = wf_contents (dest_ w) ++ replicate n x00 /\
    type_crc_ (switch_block w) = InitTypeCrc.
Proof.
  intros [Hb Ht]. unfold switch_block. destruct (Z.ltb_spec (kBlockSize - block_offset_ w) kHeaderSize) as [H|H].
  - exists (Z.to_nat (kBlockSize - block_offset_ w)). split; [by apply st_switch|]. split; [|done].
    destruct (Z.ltb_spec 0 (kBlockSize - block_offset_ w)).
    + destruct (wf_Append_ok (replicate (Z.to_nat (kBlockSize - block_offset_ w)) x00) (dest_ w))
        as (d & E & Hd). simpl. rewrite E. done.
    + replace (kBlockSize - block_offset_ w) with 0 by lia. simpl. by rewrite app_nil_r.
  - exists O. split; [apply st_stay; lia|]. split; [|done]. simpl. by rewrite app_nil_r.
Qed.

Lemma EmitPhysicalRecord_spec w t frag :
  type_crc_ w = InitTypeCrc ->
  exists w', EmitPhysicalRecord w t frag = (OK, w') /\
    wf_contents (dest_ w') = wf_contents (dest_ w) ++ physical_record t frag /\
    block_offset_ w' = block_offset_ w + kHeaderSize + zlen frag /\
    type_crc_ w' = InitTypeCrc.
Proof.
  intros Ht. unfold EmitPhysicalRecord. rewrite Ht.
  destruct (wf_Append_ok (record_header InitTypeCrc t frag) (dest_ w)) as (d1 & -> & H1).
  simpl. destruct (wf_Append_ok frag d1) as (d2 & -> & H2). simpl.
  destruct (wf_Flush_ok d2) as (d3 & -> & H3).
  eexists. split; [reflexivity|]. simpl. unfold physical_record.
  split; [by rewrite H3, H2, H1, app_assoc|]. split; [lia|done].
Qed.

Lemma AddRecord_loop_spec fuel w data begin :
  writer_ok w ->
  (2 * length data + 2 <= fuel \/
   (block_offset_ w = kBlockSize /\ 2 * length data + 1 <= fuel))%nat ->
  exists w' ps, AddRecord_loop fuel w data begin = (OK, w') /\ writer_ok w' /\
    record_pieces (block_offset_ w) begin data ps (block_offset_ w') /\
    wf_contents (dest_ w') = wf_contents (dest_ w) ++ pieces_bytes ps.
Proof.
  revert w data begin. induction fuel as [|f IH]; intros w data begin Hw Hf; [lia|].
  cbn [AddRecord_loop]. destruct (switch_block_spec w Hw) as (n & Hskip & Hcont & Htc).
  set (w1 := switch_block w) in *. destruct (skip_trailer_range _ _ _ Hskip) as [Hr _].
  set (avail := kBlockSize - block_offset_ w1 - kHeaderSize).
  assert (Hav : 0 <= avail) by (unfold avail; lia).
  set (fl := if zlen data <? avail then zlen data else avail).
  assert (Hfl : fl = Z.min (zlen data) avail) by (unfold fl; destruct (Z.ltb_spec (zlen data) avail); lia).
  clearbody fl. pose proof (zlen_nonneg data).
  assert (Hlen : zlen (take (Z.to_nat fl) data) = fl) by (unfold zlen in *; rewrite length_take; lia).
  destruct (EmitPhysicalRecord_spec w1 (fragment_type begin (zlen data =? fl))
    (take (Z.to_nat fl) data) Htc) as (w2 & -> & Hc2 & Hb2 & Ht2).
  cbn [ok andb]. rewrite Hlen in Hb2.
  assert (Hw2 : writer_ok w2) by (split; [unfold avail, kHeaderSize in *; lia|done]).
  destruct (Z.ltb_spec 0 (zlen (drop (Z.to_nat fl) data))) as [Hmore|Hend].
  - assert (Hfa : fl = avail) by (unfold zlen in *; rewrite length_drop in *; lia).
    assert (Hbo2 : block_offset_ w2 = kBlockSize) by (unfold avail in *; lia).
    rewrite (proj2 (Z.eqb_neq _ _)) in Hc2 by (unfold zlen in *; rewrite length_drop in *; lia).
    destruct (IH w2 (drop (Z.to_nat fl) data) false Hw2) as (w' & ps & E & Hw' & Hps & Hc').
    { right. split; [done|]. rewrite length_drop. destruct Hf as [Hf|[Hbo Hf]].
      - unfold zlen in *. destruct (Z.eq_dec fl 0); lia.
      - inversion Hskip; subst; unfold avail, zlen, kHeaderSize, kBlockSize in *; lia. }
    exists w', (mkPiece n (fragment_type begin false) (take (Z.to_nat fl) data) :: ps).
    split; [done|]. split; [done|]. rewrite Hbo2 in Hps. split.
    + rewrite <- (take_drop (Z.to_nat fl) data) at 1. eapply rp_more; [exact Hskip| |..|exact Hps].
      * rewrite Hlen. done.
      * intros E0. rewrite E0 in Hmore. done.
    + rewrite Hc', Hc2, Hcont, pieces_bytes_cons. by rewrite <- !app_assoc.
  - assert (Hfd : fl = zlen data) by (unfold zlen in *; rewrite length_drop in *; lia).
    rewrite (proj2 (Z.eqb_eq _ _)) in Hc2 by lia.
    assert (Htk : take (Z.to_nat fl) data = data) by (rewrite Hfd; apply firstn_all2; ilia).
    rewrite Htk in *. exists w2, [mkPiece n (fragment_type begin true) data].
    split; [done|]. split; [done|]. rewrite Hb2, Hfd. split.
    + apply rp_end; [done|]. unfold avail in *. lia.
    + rewrite Hc2, Hcont, pieces_bytes_cons. unfold pieces_bytes. simpl.
      by rewrite app_nil_r, <- app_assoc.
Qed.

Lemma AddRecord_spec w data :
  writer_ok w ->
  exists w' ps, AddRecord w data = (OK, w') /\ writer_ok w' /\
    record_pieces (block_offset_ w) true data ps (block_offset_ w') /\
    wf_contents (dest_ w') = wf_contents (dest_ w) ++ pieces_bytes ps.
Proof. intros Hw. apply AddRecord_loop_spec; [done|]. left. lia. Qed.

Lemma AddRecords_spec w records :
  writer_ok w ->
  exists w' pss, AddRecords w records = (OK, w') /\ writer_ok w' /\
    log_pieces (block_offset_ w) records pss (block_offset_ w') /\
    wf_contents (dest_ w') = wf_contents (dest_ w) ++ log_bytes pss.
Proof.
  revert w. induction records as [|d ds IH]; intros w Hw.
  - exists w, []. split; [done|]. split; [done|]. split; [constructor|]. by rewrite app_nil_r.
  - destruct (AddRecord_spec w d Hw) as (w1 & ps & E & Hw1 & Hps & Hc1).
    destruct (IH w1 Hw1) as (w2 & pss & E2 & Hw2 & Hpss & Hc2).
    exists w2, (ps :: pss). cbn [AddRecords]. rewrite E. cbn [ok]. split; [done|]. split; [done|].
    split; [by econstructor|]. rewrite Hc2, Hc1. unfold log_bytes. simpl. by rewrite app_assoc.
Qed.

Lemma Writer_new_ok d : writer_ok (Writer_new d).
Proof. split; [simpl; unfold kBlockSize; lia|done]. Qed.

Lemma Writer_new_at_ok d n : writer_ok (Writer_new_at d n).
Proof.
  split; [|done]. simpl. pose proof (Z.mod_pos_bound n kBlockSize ltac:(unfold kBlockSize; lia)). lia.
Qed.
End WriterProofs.

(** ** Sizes *)

Section Sizes.
Context `{CS : Checksum}.

Lemma record_header_length tc t frag : length (record_header tc t frag) = 7%nat.
Proof. done. Qed.

Lemma physical_record_length t frag : zlen (physical_record t frag) = kHeaderSize + zlen frag.
Proof. unfold physical_record. rewrite zlen_app. done. Qed.

(** The file position moves like the block offset. *)
Lemma skip_trailer_pos bo n bo1 p :
  skip_trailer bo n bo1 -> p mod kBlockSize = bo mod kBlockSize ->
  (p + Z.of_nat n) mod kBlockSize = bo1 mod kBlockSize /\
  (bo1 <> bo -> bo1 = 0 /\ Z.of_nat n = kBlockSize - bo).
Proof.
  intros H Hp. destruct H.
  - rewrite Z.add_0_r. done.
  - rewrite Z2Nat.id by lia. split; [|done].
    rewrite <- Z.add_mod_idemp_l, Hp, Z.add_mod_idemp_l by (unfold kBlockSize; lia).
    replace (bo + (kBlockSize - bo)) with kBlockSize by lia. done.
Qed.

Lemma pieces_bytes_length ps : (length ps <= length (pieces_bytes ps))%nat.
Proof.
  induction ps as [|[n t frag] ps IH]; [done|]. rewrite pieces_bytes_cons, !length_app.
  pose proof (physical_record_length t frag). pose proof (zlen_nonneg frag).
  unfold kHeaderSize, zlen in *. simpl. lia.
Qed.

(** Every fragment fits its block: the assertions of [EmitPhysicalRecord]. *)
Lemma record_pieces_fit bo begin data ps bo' :
  record_pieces bo begin data ps bo' ->
  Forall (fun p => zlen (fragment p) <= 0xffff /\ (pad p < 7)%nat) ps /\ 0 <= bo' <= kBlockSize /\
  concat (map fragment ps) = data.
Proof.
  induction 1 as [bo begin data n bo1 Hs Hd|bo begin frag data n bo1 ps bo2 Hs Hf Hne Hr IH].
  - destruct (skip_trailer_range _ _ _ Hs) as [Hr Hn].
    pose proof (zlen_nonneg data). unfold kBlockSize, kHeaderSize in *.
    split; [|split; [lia|by simpl; rewrite app_nil_r]].
    constructor; [|constructor]. simpl. lia.
  - destruct (skip_trailer_range _ _ _ Hs) as [Hr' Hn]. destruct IH as (IH1 & IH2 & IH3).
    split; [|split; [done|]].
    + constructor; [|done]. simpl. unfold kBlockSize, kHeaderSize in *. lia.
    + simpl. by rewrite IH3.
Qed.
End Sizes.
