(* ===== verification/LogReader.v ===== *)
(** * db/log_reader

    Models src/db/log_reader.h and src/db/log_reader.cc.  The reader is a
    record of its fields; [reporter_] is the list of the corruptions reported
    so far, or [None] for a null reporter; [ReadRecord] returns the record
    where the code returns true, and [None] where it returns false.  Offsets
    are 64-bit unsigned and wrap.  The theorems: what the writer of LogWriter.v
    wrote is read back, whole or cut anywhere, and reading ends on every file of
    finitely many bytes, also when the file fails. *)

From S2P Require Import Prelude Coding Crc32c Logging Status LogWriter.

Definition kEof : Z := kMaxRecordType + 1.
Definition kBadRecord : Z := kMaxRecordType + 2.

Section Reader.
Context `{CS : Checksum} {F : Type} {SF : SequentialFile F}.

Record Reader := mkReader {
  file_ : F;
  reporter_ : option (list (Z * Status));
  checksum_ : bool;
  buffer_ : bytes;
  eof_ : bool;
  last_record_offset_ : Z;
  end_of_buffer_offset_ : Z;
  initial_offset_ : Z;
  resyncing_ : bool;
}.

Definition Reader_new (file : F) (reporter : option (list (Z * Status))) (checksum : bool)
    (initial_offset : Z) : Reader :=
  mkReader file reporter checksum [] false 0 0 initial_offset (0 <? initial_offset).

(** Assignments to one field. *)
Definition set_file (r : Reader) f := mkReader f (reporter_ r) (checksum_ r) (buffer_ r) (eof_ r)
  (last_record_offset_ r) (end_of_buffer_offset_ r) (initial_offset_ r) (resyncing_ r).
Definition set_reporter (r : Reader) x := mkReader (file_ r) x (checksum_ r) (buffer_ r) (eof_ r)
  (last_record_offset_ r) (end_of_buffer_offset_ r) (initial_offset_ r) (resyncing_ r).
Definition set_buffer (r : Reader) b := mkReader (file_ r) (reporter_ r) (checksum_ r) b (eof_ r)
  (last_record_offset_ r) (end_of_buffer_offset_ r) (initial_offset_ r) (resyncing_ r).
Definition set_eof (r : Reader) e := mkReader (file_ r) (reporter_ r) (checksum_ r) (buffer_ r) e
  (last_record_offset_ r) (end_of_buffer_offset_ r) (initial_offset_ r) (resyncing_ r).
Definition set_last (r : Reader) o := mkReader (file_ r) (reporter_ r) (checksum_ r) (buffer_ r)
  (eof_ r) o (end_of_buffer_offset_ r) (initial_offset_ r) (resyncing_ r).
Definition set_end (r : Reader) o := mkReader (file_ r) (reporter_ r) (checksum_ r) (buffer_ r)
  (eof_ r) (last_record_offset_ r) o (initial_offset_ r) (resyncing_ r).
Definition set_resyncing (r : Reader) b := mkReader (file_ r) (reporter_ r) (checksum_ r) (buffer_ r)
  (eof_ r) (last_record_offset_ r) (end_of_buffer_offset_ r) (initial_offset_ r) b.

Definition ReportDrop (r : Reader) (nbytes : Z) (reason : Status) : Reader :=
  match reporter_ r with
  | Some l =>
      if initial_offset_ r <=? u64 (end_of_buffer_offset_ r - zlen (buffer_ r) - nbytes)
      then set_reporter r (Some (l ++ [(nbytes, reason)]))
      else r
  | None => r
  end.

Definition ReportCorruption (r : Reader) (nbytes : Z) (reason : bytes) : Reader :=
  ReportDrop r nbytes (Corruption reason []).

Definition SkipToInitialBlock (r : Reader) : bool * Reader :=
  let offset_in_block := initial_offset_ r mod kBlockSize in
  let block_start_location := u64 (initial_offset_ r - offset_in_block) in
  let block_start_location :=
    if kBlockSize - 6 <? offset_in_block then u64 (block_start_location + kBlockSize)
    else block_start_location in
  let r := set_end r block_start_location in
  if 0 <? block_start_location then
    let '(skip_status, f) := seq_Skip block_start_location (file_ r) in
    let r := set_file r f in
    if negb (ok skip_status) then (false, ReportDrop r block_start_location skip_status)
    else (true, r)
  else (true, r).

(** [case1] of the code: fetch the next block. *)
Definition fetch_block (r : Reader) : Status * Reader :=
  let '(status, data, f) := seq_Read kBlockSize (file_ r) in
  let r := set_buffer (set_file r f) data in
  (status, set_end r (u64 (end_of_buffer_offset_ r + zlen data))).

(** The fields of the header at the front of the buffer. *)
Definition header_length (header : bytes) : Z :=
  let a := Z.land (char_to_u32 (nth 4 header x00)) 0xff in
  let b := Z.land (char_to_u32 (nth 5 header x00)) 0xff in
  Z.lor a (u32 (Z.shiftl b 8)).

Definition header_type (header : bytes) : Z := char_to_u32 (nth 6 header x00).

(** [case2]: parse and remove the physical record at the front of the buffer. *)
Definition parse_physical_record (r : Reader) (result : bytes) : Z * bytes * Reader :=
  let header := buffer_ r in
  let type := header_type header in
  let length := header_length header in
  if zlen (buffer_ r) <? u32 (kHeaderSize + length) then
    let drop_size := zlen (buffer_ r) in
    let r := set_buffer r [] in
    if negb (eof_ r) then
      (kBadRecord, result, ReportCorruption r drop_size (cstr "bad record length"))
    else (kEof, result, r)
  else if (type =? RecordType_code kZeroType) && (length =? 0) then
    (kBadRecord, result, set_buffer r [])
  else if checksum_ r &&
          negb (cs_value (take (Z.to_nat (1 + length)) (drop 6 header)) =? Unmask (DecodeFixed32 header)) then
    let drop_size := zlen (buffer_ r) in
    let r := set_buffer r [] in
    (kBadRecord, result, ReportCorruption r drop_size (cstr "checksum mismatch"))
  else
    let r := set_buffer r (drop (Z.to_nat (kHeaderSize + length)) header) in
    if u64 (end_of_buffer_offset_ r - zlen (buffer_ r) - kHeaderSize - length) <? initial_offset_ r
    then (kBadRecord, [], r)
    else (type, take (Z.to_nat length) (drop (Z.to_nat kHeaderSize) header), r).

(** [result] is the caller's slice: it is not assigned on every path. *)
Fixpoint ReadPhysicalRecord_loop (fuel : nat) (r : Reader) (result : bytes)
    : option (Z * bytes * Reader) :=
  match fuel with
  | O => None
  | S f =>
      if zlen (buffer_ r) <? kHeaderSize then
        if negb (eof_ r) then
          let '(status, r) := fetch_block r in
          if negb (ok status) then
            let r := set_buffer r [] in
            let r := ReportDrop r kBlockSize status in
            Some (kEof, result, set_eof r true)
          else
            let r := if zlen (buffer_ r) <? kBlockSize then set_eof r true else r in
            ReadPhysicalRecord_loop f r result
        else Some (kEof, result, set_buffer r [])
      else Some (parse_physical_record r result)
  end.

(** Two rounds are enough: a block is fetched at most once. *)
Definition ReadPhysicalRecord (r : Reader) (result : bytes) : option (Z * bytes * Reader) :=
  ReadPhysicalRecord_loop 2 r result.

(** The loop of [ReadRecord].  [None] is lack of fuel; [Some (None, r)] is
    [return false]. *)
Fixpoint ReadRecord_loop (fuel : nat) (r : Reader) (fragment : bytes)
    (in_fragmented_record : bool) (scratch : bytes) (prospective_record_offset : Z)
    : option (option bytes * Reader) :=
  match fuel with
  | O => None
  | S f =>
      match ReadPhysicalRecord r fragment with
      | None => None
      | Some (record_type, fragment, r) =>
          let physical_record_offset :=
            u64 (end_of_buffer_offset_ r - zlen (buffer_ r) - kHeaderSize - zlen fragment) in
          if resyncing_ r && (record_type =? RecordType_code kMiddleType) then
            ReadRecord_loop f r fragment in_fragmented_record scratch prospective_record_offset
          else if resyncing_ r && (record_type =? RecordType_code kLastType) then
            ReadRecord_loop f (set_resyncing r false) fragment in_fragmented_record scratch
              prospective_record_offset
          else
            let r := set_resyncing r false in
            if record_type =? RecordType_code kFullType then
              let r :=
                if in_fragmented_record && negb (zlen scratch =? 0)
                then ReportCorruption r (zlen scratch) (cstr "partial record without end(1)")
                else r in
              Some (Some fragment, set_last r physical_record_offset)
            else if record_type =? RecordType_code kFirstType then
              let r :=
                if in_fragmented_record && negb (zlen scratch =? 0)
                then ReportCorruption r (zlen scratch) (cstr "partial record without end(2)")
                else r in
              ReadRecord_loop f r fragment true fragment physical_record_offset
            else if record_type =? RecordType_code kMiddleType then
              if negb in_fragmented_record then
                let r := ReportCorruption r (zlen fragment)
                           (cstr "missing start of fragmented record(1)") in
                ReadRecord_loop f r fragment in_fragmented_record scratch prospective_record_offset
              else
                ReadRecord_loop f r fragment in_fragmented_record (scratch ++ fragment)
                  prospective_record_offset
            else if record_type =? RecordType_code kLastType then
              if negb in_fragmented_record then
                let r := ReportCorruption r (zlen fragment)
                           (cstr "missing start of fragmented record(2)") in
                ReadRecord_loop f r fragment in_fragmented_record scratch prospective_record_offset
              else
                Some (Some (scratch ++ fragment), set_last r prospective_record_offset)
            else if record_type =? kEof then Some (None, r)
            else if record_type =? kBadRecord then
              let r :=
                if in_fragmented_record
                then ReportCorruption r (zlen scratch) (cstr "error in middle of record")
                else r in
              ReadRecord_loop f r fragment false (if in_fragmented_record then [] else scratch)
                prospective_record_offset
            else
              let r := ReportCorruption r
                         (u64 (zlen fragment + (if in_fragmented_record then zlen scratch else 0)))
                         (cstr "unknown record type " ++ NumberToString record_type) in
              ReadRecord_loop f r fragment false [] prospective_record_offset
      end
  end.

Definition ReadRecord (fuel : nat) (r : Reader) : option (option bytes * Reader) :=
  if last_record_offset_ r <? initial_offset_ r then
    let '(skipped, r) := SkipToInitialBlock r in
    if negb skipped then Some (None, r)
    else ReadRecord_loop fuel r [] false [] 0
  else ReadRecord_loop fuel r [] false [] 0.

Definition LastRecordOffset (r : Reader) : Z := last_record_offset_ r.

(** The caller's loop [while (reader.ReadRecord(&record, &scratch))]. *)
Fixpoint ReadAll (n fuel : nat) (r : Reader) : option (list bytes * Reader) :=
  match n with
  | O => None
  | S n' =>
      match ReadRecord fuel r with
      | None => None
      | Some (None, r) => Some ([], r)
      | Some (Some record, r) =>
          match ReadAll n' fuel r with
          | None => None
          | Some (records, r) => Some (record :: records, r)
          end
      end
  end.
End Reader.

Arguments Reader : clear implicits.

(** ** The header *)

Lemma char_to_u32_low b : Z.land (char_to_u32 b) 0xff = byte_to_Z b.
Proof.
  pose proof (byte_to_Z_range b). rewrite land_255. unfold char_to_u32.
  destruct (Z.ltb_spec (byte_to_Z b) 128); [rewrite Z.mod_small; lia|].
  replace (2 ^ 32 - 256 + byte_to_Z b) with (byte_to_Z b + (2 ^ 24 - 1) * 256) by lia.
  rewrite Z.mod_add, Z.mod_small by lia. done.
Qed.

Lemma header_length_range h : 0 <= header_length h < 2 ^ 16.
Proof.
  unfold header_length. rewrite !char_to_u32_low.
  pose proof (byte_to_Z_range (nth 4 h x00)). pose proof (byte_to_Z_range (nth 5 h x00)).
  rewrite u32_small by (rewrite Z.shiftl_mul_pow2; lia).
  rewrite lor_shiftl_add by lia. lia.
Qed.

Section Headers.
Context `{CS : Checksum}.

Lemma header_length_record tc t frag rest :
  zlen frag <= 0xffff -> header_length (record_header tc t frag ++ rest) = zlen frag.
Proof.
  intros Hf. unfold header_length. rewrite !char_to_u32_low. pose proof (zlen_nonneg frag).
  unfold record_header, EncodeFixed32. cbn [app nth]. rewrite !byte_to_of_Z.
  rewrite land_255, Z.shiftr_div_pow2, Z.mod_mod by lia. change (2 ^ 8) with 256.
  rewrite (Z.mod_small (zlen frag / 256)) by dlia.
  rewrite u32_small by (rewrite Z.shiftl_mul_pow2; dlia).
  rewrite lor_shiftl_add by dlia. change (2 ^ 8) with 256. dlia.
Qed.

Lemma header_type_record tc t frag rest :
  header_type (record_header tc t frag ++ rest) = RecordType_code t.
Proof. destruct t; done. Qed.

(** What the writer stores is what the reader computes. *)
Lemma record_crc_matches t frag rest :
  let header := physical_record t frag ++ rest in
  zlen frag <= 0xffff ->
  cs_value (take (Z.to_nat (1 + zlen frag)) (drop 6 header)) = Unmask (DecodeFixed32 header).
Proof.
  intros header Hf. subst header. unfold physical_record, record_header.
  set (crc := cs_extend _ frag).
  assert (Hcrc : crc = cs_value (byte_of_Z (RecordType_code t) :: frag)).
  { unfold crc, cs_value. change (_ :: frag) with ([byte_of_Z (RecordType_code t)] ++ frag).
    rewrite <- cs_extend_app. f_equal. destruct t; done. }
  assert (0 <= crc < 2 ^ 32) by (rewrite Hcrc; apply cs_extend_range; lia).
  rewrite <- !app_assoc, DecodeFixed32_encode, (u32_small (Mask crc)) by apply Mask_range.
  rewrite Unmask_Mask, Hcrc by done.
  f_equal. change (drop 6 _) with (byte_of_Z (RecordType_code t) :: frag ++ rest).
  replace (Z.to_nat (1 + zlen frag)) with (S (length frag)) by ilia.
  cbn [take]. f_equal. apply take_app_exact.
Qed.
End Headers.

(** ** Positions in the file *)

Section ReaderProofs.
Context `{CS : Checksum} {F : Type} {SF : SequentialFile F}.
Context {seq_rest : F -> bytes} {SL : SequentialFileLaws SF seq_rest}.
Implicit Types r : Reader F.

(** Nothing but the buffer, the file and the position differs. *)
Definition same_config (r r' : Reader F) : Prop :=
  reporter_ r' = reporter_ r /\ checksum_ r' = checksum_ r /\
  initial_offset_ r' = initial_offset_ r /\ resyncing_ r' = resyncing_ r.

Lemma same_config_refl r : same_config r r.
Proof. done. Qed.

Lemma same_config_trans r1 r2 r3 : same_config r1 r2 -> same_config r2 r3 -> same_config r1 r3.
Proof. unfold same_config. intuition congruence. Qed.

(** The reader is about to read [R], the bytes of the file from position [p]:
    some of them are in the buffer, up to the end of the block or of the file. *)
Record at_pos (r : Reader F) (p : Z) (R : bytes) : Prop := {
  ap_stream : buffer_ r ++ seq_rest (file_ r) = R;
  ap_end : end_of_buffer_offset_ r = p + zlen (buffer_ r);
  ap_bounds : 0 <= p /\ p + zlen R < 2 ^ 64;
  ap_block :
    if eof_ r then seq_rest (file_ r) = [] /\ p mod kBlockSize + zlen (buffer_ r) < kBlockSize
    else p mod kBlockSize + zlen (buffer_ r) = kBlockSize \/
         (buffer_ r = [] /\ p mod kBlockSize = 0);
}.

Lemma kBlockSize_pos : 0 < kBlockSize.
Proof. done. Qed.

Lemma fetch_block_spec r R p :
  at_pos r p R -> eof_ r = false -> buffer_ r = [] ->
  exists r', fetch_block r = (OK, r') /\ same_config r r' /\ p mod kBlockSize = 0 /\
    buffer_ r' = take (Z.to_nat kBlockSize) R /\ seq_rest (file_ r') = drop (Z.to_nat kBlockSize) R /\
    eof_ r' = false /\ end_of_buffer_offset_ r' = p + zlen (buffer_ r').
Proof.
  intros [Hs He Hb Hblk] Heof Hbuf. rewrite Heof, Hbuf in *. simpl in Hs.
  pose proof (Z.mod_pos_bound p kBlockSize kBlockSize_pos).
  change (zlen (@nil byte)) with 0 in *.
  assert (Hp : p mod kBlockSize = 0) by (destruct Hblk as [H1|[_ H1]]; lia).
  unfold fetch_block.
  destruct (seq_Read_ok (SequentialFileLaws := SL) kBlockSize (file_ r)) as (f' & E & Hf'); [done|].
  rewrite E. eexists. split; [reflexivity|]. split; [done|]. split; [done|]. simpl.
  rewrite Hf', Hs. split; [done|]. split; [done|]. split; [done|].
  rewrite He, u64_small; [lia|].
  pose proof (zlen_nonneg (take (Z.to_nat kBlockSize) R)).
  assert (zlen (take (Z.to_nat kBlockSize) R) <= zlen R) by (unfold zlen; rewrite length_take; lia).
  lia.
Qed.

(** [if (buffer_.size() < kBlockSize) eof_ = true] *)
Definition mark_eof r : Reader F := if zlen (buffer_ r) <? kBlockSize then set_eof r true else r.

Lemma fetch_block_at r R p :
  at_pos r p R -> eof_ r = false -> buffer_ r = [] ->
  exists r', fetch_block r = (OK, r') /\ at_pos (mark_eof r') p R /\ same_config r (mark_eof r') /\
    buffer_ (mark_eof r') = take (Z.to_nat kBlockSize) R /\
    (eof_ (mark_eof r') = false -> kBlockSize <= zlen R).
Proof.
  intros Hat Heof Hbuf. pose proof (ap_bounds _ _ _ Hat) as Hb.
  destruct (fetch_block_spec r R p Hat Heof Hbuf) as (r' & -> & Hc & Hp & Hbf & Hrest & He & Hend).
  exists r'. split; [done|]. pose proof kBlockSize_pos.
  assert (Hbl : zlen (buffer_ r') = Z.min kBlockSize (zlen R))
    by (rewrite Hbf; unfold zlen; rewrite length_take; lia).
  unfold mark_eof. destruct (Z.ltb_spec (zlen (buffer_ r')) kBlockSize) as [Hlt|Hge].
  - split; [|done]. split; simpl; [by rewrite Hbf, Hrest, take_drop|done|done|].
    split; [|lia]. rewrite Hrest. apply drop_ge. unfold zlen in *. lia.
  - split; [|split; [done|split; [done|lia]]].
    split; [by rewrite Hbf, Hrest, take_drop|done|done|]. rewrite He. left. lia.
Qed.

(** Parsing a whole record at the front of the buffer. *)
Lemma parse_record_spec r p t frag R x :
  at_pos r p (physical_record t frag ++ R) -> initial_offset_ r = 0 -> t <> kZeroType ->
  zlen frag <= 0xffff -> kHeaderSize + zlen frag <= zlen (buffer_ r) ->
  exists r', parse_physical_record r x = (RecordType_code t, frag, r') /\
    at_pos r' (p + kHeaderSize + zlen frag) R /\ same_config r r'.
Proof.
  intros [Hs He Hb Hblk] Hi Ht Hf Hbuf. pose proof (zlen_nonneg frag).
  assert (Hpre : exists bt, buffer_ r = physical_record t frag ++ bt).
  { exists (drop (length (physical_record t frag)) (buffer_ r)).
    rewrite <- (take_drop (length (physical_record t frag)) (buffer_ r)) at 1. f_equal.
    pose proof (physical_record_length t frag).
    rewrite <- (take_app_le _ (seq_rest (file_ r))) by ilia. rewrite Hs. apply take_app_exact. }
  destruct Hpre as [bt Hbt]. unfold parse_physical_record. rewrite Hbt.
  assert (Hlen : header_length (physical_record t frag ++ bt) = zlen frag)
    by (unfold physical_record; rewrite <- app_assoc; by apply header_length_record).
  assert (Hty : header_type (physical_record t frag ++ bt) = RecordType_code t)
    by (unfold physical_record; rewrite <- app_assoc; apply header_type_record).
  rewrite Hlen, Hty. rewrite Hbt in Hbuf. unfold kHeaderSize in *.
  rewrite u32_small by lia. rewrite (proj2 (Z.ltb_ge _ _)) by lia.
  rewrite (proj2 (Z.eqb_neq (RecordType_code t) _)) by (destruct t; done). cbn [andb].
  rewrite record_crc_matches, Z.eqb_refl, andb_false_r by done.
  assert (Hdrop : forall l, drop (Z.to_nat (4 + 2 + 1 + zlen frag)) (physical_record t frag ++ l) = l).
  { intros l. replace (Z.to_nat _) with (length (physical_record t frag)); [apply drop_app_exact|].
    pose proof (physical_record_length t frag). unfold kHeaderSize, zlen in *. lia. }
  rewrite Hdrop. cbn [set_buffer buffer_ end_of_buffer_offset_ initial_offset_].
  rewrite Hi, (proj2 (Z.ltb_ge _ 0)) by apply u64_range.
  eexists. split.
  { f_equal. f_equal. change (drop _ _) with (frag ++ bt) at 1. unfold zlen. rewrite Nat2Z.id.
    apply take_app_exact. }
  rewrite Hbt, zlen_app, physical_record_length in Hblk, He.
  rewrite Hbt, <- app_assoc in Hs. apply app_inv_head in Hs.
  rewrite zlen_app, physical_record_length in Hb. unfold kHeaderSize in *.
  pose proof (zlen_nonneg bt). pose proof (Z.mod_pos_bound p kBlockSize kBlockSize_pos).
  split; [|done]. split; simpl; [done|lia|lia|].
  assert (Hm : p mod kBlockSize + (7 + zlen frag) < kBlockSize ->
    (p + 7 + zlen frag) mod kBlockSize = p mod kBlockSize + (7 + zlen frag)).
  { intros. rewrite <- Z.add_assoc, Z.add_mod, (Z.mod_small (7 + zlen frag)) by lia.
    rewrite Z.mod_small by lia. done. }
  change (4 + 2 + 1) with 7 in *. destruct (eof_ r).
  - destruct Hblk as [Hr Hblk]. rewrite Hm by lia. split; [done|lia].
  - destruct Hblk as [Hblk|[Hblk _]]; [|by destruct frag].
    destruct (Z.eq_dec (zlen bt) 0) as [E|E].
    + right. split; [by destruct bt|].
      replace (p + 7 + zlen frag) with ((p / kBlockSize + 1) * kBlockSize); [apply Z_mod_mult|].
      pose proof (Z.div_mod p kBlockSize ltac:(done)). lia.
    + left. rewrite Hm by lia. lia.
Qed.

(** A record cut short at the end of the file. *)
Lemma parse_truncated_spec r p t frag m x :
  let R := take m (physical_record t frag) in
  at_pos r p R -> eof_ r = true -> zlen frag <= 0xffff ->
  7 <= zlen R -> zlen R < kHeaderSize + zlen frag ->
  parse_physical_record r x = (kEof, x, set_buffer r []).
Proof.
  intros R [Hs _ _ Hblk] He Hf H7 Hlt. rewrite He in Hblk. destruct Hblk as [Hr _].
  rewrite Hr, app_nil_r in Hs. unfold parse_physical_record. rewrite Hs.
  assert (Hlen : header_length R = zlen frag).
  { unfold R, physical_record. rewrite <- (take_drop 7 (take m _)), take_take.
    replace (7 `min` m)%nat with 7%nat.
    - change (take 7 _) with (record_header InitTypeCrc t frag). by apply header_length_record.
    - unfold R, zlen in H7. rewrite length_take in H7. lia. }
  rewrite Hlen. pose proof (zlen_nonneg frag). unfold kHeaderSize in *.
  rewrite u32_small by lia. rewrite (proj2 (Z.ltb_lt _ _)) by lia.
  cbn [set_buffer eof_]. by rewrite He.
Qed.

Lemma ReadPhysicalRecord_unfold r x :
  ReadPhysicalRecord r x =
  if zlen (buffer_ r) <? kHeaderSize then
    if negb (eof_ r) then
      let '(status, r) := fetch_block r in
      if negb (ok status) then
        Some (kEof, x, set_eof (ReportDrop (set_buffer r []) kBlockSize status) true)
      else
        let r := mark_eof r in
        if zlen (buffer_ r) <? kHeaderSize then
          if negb (eof_ r) then
            let '(status, r) := fetch_block r in
            if negb (ok status) then
              Some (kEof, x, set_eof (ReportDrop (set_buffer r []) kBlockSize status) true)
            else None
          else Some (kEof, x, set_buffer r [])
        else Some (parse_physical_record r x)
    else Some (kEof, x, set_buffer r [])
  else Some (parse_physical_record r x).
Proof. done. Qed.

Lemma read_physical_record r p t frag R x :
  at_pos r p (physical_record t frag ++ R) -> initial_offset_ r = 0 -> t <> kZeroType ->
  zlen frag <= 0xffff -> p mod kBlockSize + kHeaderSize + zlen frag <= kBlockSize ->
  exists r', ReadPhysicalRecord r x = Some (RecordType_code t, frag, r') /\
    at_pos r' (p + kHeaderSize + zlen frag) R /\ same_config r r'.
Proof.
  intros Hat Hi Ht Hf Hfit. pose proof (zlen_nonneg frag).
  pose proof (physical_record_length t frag) as Hrl.
  rewrite ReadPhysicalRecord_unfold.
  assert (Hbuf : kHeaderSize + zlen frag <= zlen (buffer_ r) \/ (eof_ r = false /\ buffer_ r = [])).
  { destruct Hat as [Hs _ _ Hblk]. destruct (eof_ r).
    - left. destruct Hblk as [Hr _]. rewrite Hr, app_nil_r in Hs. rewrite Hs, zlen_app.
      pose proof (zlen_nonneg R). lia.
    - destruct Hblk as [Hb|[Hb _]]; [left; lia|right; done]. }
  destruct Hbuf as [Hbuf|[He Hb]].
  - rewrite (proj2 (Z.ltb_ge _ _)) by (unfold kHeaderSize in *; lia).
    destruct (parse_record_spec r p t frag R x Hat Hi Ht Hf Hbuf) as (r' & -> & ? & ?). by exists r'.
  - rewrite He, Hb. cbn [negb]. rewrite (proj2 (Z.ltb_lt _ _)) by done.
    destruct (fetch_block_at r _ p Hat He Hb) as (r1 & -> & Hat1 & Hc1 & Hb1 & _). cbn [ok negb].
    assert (Hbuf : kHeaderSize + zlen frag <= zlen (buffer_ (mark_eof r1))).
    { rewrite Hb1. unfold zlen. rewrite length_take, length_app. unfold zlen, kBlockSize in *.
      pose proof (Z.mod_pos_bound p 32768 ltac:(lia)). lia. }
    rewrite (proj2 (Z.ltb_ge (zlen _) _)) by (unfold kHeaderSize in *; lia).
    destruct (parse_record_spec (mark_eof r1) p t frag R x Hat1) as (r' & -> & Hat' & Hc'); [|done..|].
    { destruct Hc1 as (_ & _ & -> & _). done. }
    exists r'. split; [done|]. split; [done|]. by eapply same_config_trans.
Qed.

(** Fewer bytes than a header left in the file. *)
Lemma read_physical_eof r p R x :
  at_pos r p R -> zlen R < 7 ->
  exists r', ReadPhysicalRecord r x = Some (kEof, x, r') /\ same_config r r'.
Proof.
  intros Hat HR. rewrite ReadPhysicalRecord_unfold. pose proof (ap_stream _ _ _ Hat) as Hs.
  assert (Hb : zlen (buffer_ r) < 7) by (rewrite <- Hs, zlen_app in HR; pose proof (zlen_nonneg (seq_rest (file_ r))); lia).
  rewrite (proj2 (Z.ltb_lt _ _)) by done. destruct (eof_ r) eqn:He; cbn [negb].
  { by eexists. }
  assert (Hat0 : at_pos (set_buffer r []) (p + zlen (buffer_ r)) (seq_rest (file_ r))).
  { destruct Hat as [_ Hend Hbd Hblk]. rewrite He in Hblk. rewrite <- Hs, zlen_app in Hbd.
    pose proof (zlen_nonneg (buffer_ r)).
    split; simpl; [done|change (zlen (@nil byte)) with 0; lia|lia|]. rewrite He. right. split; [done|].
    destruct Hblk as [Hblk|[-> Hblk]].
    - rewrite <- Z.add_mod_idemp_l, Hblk by done. done.
    - change (zlen (@nil byte)) with 0. by rewrite Z.add_0_r. }
  change (fetch_block r) with (fetch_block (set_buffer r [])).
  destruct (fetch_block_at _ _ _ Hat0 He eq_refl) as (r1 & -> & Hat1 & Hc1 & Hb1 & He1). cbn [ok negb].
  assert (HR2 : zlen (seq_rest (file_ r)) < 7) by (rewrite <- Hs, zlen_app in HR; pose proof (zlen_nonneg (buffer_ r)); lia).
  rewrite (proj2 (Z.ltb_lt (zlen _) _)) by (rewrite Hb1; unfold zlen in *; rewrite length_take; unfold kHeaderSize; lia).
  destruct (eof_ (mark_eof r1)); cbn [negb]; [|unfold kBlockSize in *; specialize (He1 eq_refl); lia].
  eexists. split; [reflexivity|]. done.
Qed.

(** The padding of a block is skipped. *)
Lemma read_physical_pad bo n bo1 r p R :
  skip_trailer bo n bo1 -> p mod kBlockSize = bo mod kBlockSize ->
  at_pos r p (replicate n x00 ++ R) ->
  exists r1, at_pos r1 (p + Z.of_nat n) R /\ same_config r r1 /\
    forall x, ReadPhysicalRecord r x = ReadPhysicalRecord r1 x.
Proof.
  intros Hskip Hp Hat. destruct n as [|n'].
  { exists r. rewrite Z.add_0_r. done. }
  set (n := S n') in *. assert (Hn : Z.of_nat n = kBlockSize - bo /\ 0 < Z.of_nat n < 7 /\ 0 <= bo).
  { unfold n in *. inversion Hskip; subst; unfold kHeaderSize in *; lia. }
  rewrite (Z.mod_small bo) in Hp by lia. clearbody n.
  pose proof (ap_stream _ _ _ Hat) as Hs. pose proof (ap_block _ _ _ Hat) as Hblk.
  assert (Hrl : zlen (replicate n x00) = Z.of_nat n) by (unfold zlen; by rewrite length_replicate).
  destruct (eof_ r) eqn:He.
  { exfalso. destruct Hblk as [Hr Hblk]. rewrite Hr, app_nil_r in Hs. rewrite Hs, zlen_app in Hblk.
    pose proof (zlen_nonneg R). lia. }
  destruct Hblk as [Hblk|[_ Hblk]]; [|unfold kBlockSize in *; lia].
  assert (Hbl : zlen (buffer_ r) = Z.of_nat n) by lia.
  assert (Hrest : seq_rest (file_ r) = R).
  { apply (f_equal (drop n)) in Hs. rewrite (drop_app_ge (replicate n x00)) in Hs by (rewrite length_replicate; lia).
    rewrite length_replicate, Nat.sub_diag, drop_0 in Hs. rewrite <- Hs.
    rewrite drop_app_ge by ilia. replace (n - length (buffer_ r))%nat with O by ilia. done. }
  exists (set_buffer r []). split; [|split; [done|]].
  - destruct Hat as [_ Hend Hbd _]. rewrite zlen_app, Hrl in Hbd.
    split; simpl; [done|change (zlen (@nil byte)) with 0; lia|lia|]. rewrite He. right. split; [done|].
    rewrite <- Z.add_mod_idemp_l by done. replace (p mod kBlockSize + Z.of_nat n) with kBlockSize by lia. done.
  - intros x. rewrite !ReadPhysicalRecord_unfold. cbn [set_buffer buffer_ eof_].
    rewrite (proj2 (Z.ltb_lt _ _)) by (unfold kHeaderSize; lia). done.
Qed.

(** A piece cut anywhere. *)
Lemma read_physical_truncated bo n bo1 t frag r p m x :
  let whole := replicate n x00 ++ physical_record t frag in
  skip_trailer bo n bo1 -> p mod kBlockSize = bo mod kBlockSize ->
  bo1 + kHeaderSize + zlen frag <= kBlockSize -> zlen frag <= 0xffff ->
  at_pos r p (take m whole) -> (m < length whole)%nat ->
  exists r', ReadPhysicalRecord r x = Some (kEof, x, r') /\ same_config r r'.
Proof.
  intros whole Hskip Hp Hfit Hf Hat Hm. unfold whole in *. clear whole.
  rewrite length_app, length_replicate in Hm. destruct (skip_trailer_range _ _ _ Hskip) as [Hr Hn7].
  pose proof (physical_record_length t frag) as Hrl.
  destruct (Nat.le_gt_cases n m) as [Hnm|Hnm].
  2: { apply (read_physical_eof r p _ x Hat). unfold zlen. rewrite length_take. lia. }
  replace m with (n + (m - n))%nat in Hat by lia.
  rewrite take_app_add' in Hat by by rewrite length_replicate.
  destruct (read_physical_pad _ _ _ _ _ _ Hskip Hp Hat) as (r1 & Hat1 & Hc1 & Hread).
  set (k := (m - n)%nat) in *. assert (Hk : (k < length (physical_record t frag))%nat) by lia.
  assert (HkR : zlen (take k (physical_record t frag)) = Z.of_nat k)
    by (unfold zlen; rewrite length_take; lia).
  rewrite Hread. destruct (Z.lt_ge_cases (Z.of_nat k) 7) as [Hk7|Hk7].
  { destruct (read_physical_eof r1 _ _ x Hat1) as (r' & E & Hc); [lia|].
    exists r'. split; [done|]. by eapply same_config_trans. }
  destruct (skip_trailer_pos _ _ _ p Hskip Hp) as [Hp1 _].
  rewrite (Z.mod_small bo1) in Hp1 by (unfold kHeaderSize in *; lia).
  assert (Hlt : Z.of_nat k < kHeaderSize + zlen frag) by ilia.
  pose proof (ap_stream _ _ _ Hat1) as Hs. pose proof (ap_block _ _ _ Hat1) as Hblk.
  assert (Hbk : zlen (buffer_ r1) <= Z.of_nat k)
    by (rewrite <- HkR, <- Hs, zlen_app; pose proof (zlen_nonneg (seq_rest (file_ r1))); lia).
  rewrite ReadPhysicalRecord_unfold. destruct (eof_ r1) eqn:He; cbn [negb].
  - destruct Hblk as [Hrest _]. rewrite Hrest, app_nil_r in Hs.
    rewrite (proj2 (Z.ltb_ge _ _)) by (rewrite Hs, HkR; unfold kHeaderSize; lia).
    rewrite (parse_truncated_spec r1 _ t frag k x Hat1) by (done || lia).
    eexists. split; [reflexivity|]. done.
  - destruct Hblk as [Hblk|[Hb _]]; [lia|]. rewrite Hb.
    rewrite (proj2 (Z.ltb_lt _ _)) by done.
    destruct (fetch_block_at r1 _ _ Hat1 He Hb) as (r2 & -> & Hat2 & Hc2 & Hb2 & He2). cbn [ok negb].
    rewrite firstn_all2 in Hb2 by (unfold zlen, kBlockSize in *; lia).
    rewrite (proj2 (Z.ltb_ge (zlen _) _)) by (rewrite Hb2, HkR; unfold kHeaderSize; lia).
    destruct (eof_ (mark_eof r2)) eqn:He3; [|specialize (He2 eq_refl); lia].
    rewrite (parse_truncated_spec _ _ t frag k x Hat2) by (done || lia).
    eexists. split; [reflexivity|]. eapply same_config_trans; [exact Hc1|exact Hc2].
Qed.

(** ** Logical records *)

Lemma at_pos_fields r r' p R :
  at_pos r p R -> file_ r' = file_ r -> buffer_ r' = buffer_ r -> eof_ r' = eof_ r ->
  end_of_buffer_offset_ r' = end_of_buffer_offset_ r -> at_pos r' p R.
Proof. intros [H1 H2 H3 H4] E1 E2 E3 E4. split; rewrite ?E1, ?E2, ?E3, ?E4; done. Qed.

Lemma fragment_type_not_zero b e : fragment_type b e <> kZeroType.
Proof. destruct b, e; done. Qed.

(** The position after a piece. *)
Lemma piece_pos bo n bo1 p len :
  skip_trailer bo n bo1 -> p mod kBlockSize = bo mod kBlockSize -> 0 <= len ->
  bo1 + kHeaderSize + len <= kBlockSize ->
  (p + Z.of_nat n) mod kBlockSize = bo1 /\
  (p + Z.of_nat n + kHeaderSize + len) mod kBlockSize = (bo1 + kHeaderSize + len) mod kBlockSize.
Proof.
  intros Hs Hp Hl Hfit. destruct (skip_trailer_range _ _ _ Hs) as [Hr _].
  destruct (skip_trailer_pos _ _ _ p Hs Hp) as [Hp1 _]. unfold kHeaderSize in *.
  split; [rewrite Hp1; apply Z.mod_small; lia|].
  rewrite <- !Z.add_assoc, (Z.add_assoc p), <- Z.add_mod_idemp_l, Hp1, Z.add_mod_idemp_l by done. done.
Qed.

(** One physical record of the pieces of a logical one. *)
Lemma read_piece bo n bo1 t frag r p R x :
  skip_trailer bo n bo1 -> p mod kBlockSize = bo mod kBlockSize -> t <> kZeroType ->
  bo1 + kHeaderSize + zlen frag <= kBlockSize -> initial_offset_ r = 0 ->
  at_pos r p (replicate n x00 ++ physical_record t frag ++ R) ->
  exists r', ReadPhysicalRecord r x = Some (RecordType_code t, frag, r') /\
    at_pos r' (p + Z.of_nat n + kHeaderSize + zlen frag) R /\ same_config r r'.
Proof.
  intros Hs Hp Ht Hfit Hi Hat. pose proof (zlen_nonneg frag).
  destruct (skip_trailer_range _ _ _ Hs) as [Hr _].
  destruct (piece_pos _ _ _ p (zlen frag) Hs Hp ltac:(done) Hfit) as [Hp1 _].
  destruct (read_physical_pad _ _ _ _ _ _ Hs Hp Hat) as (r1 & Hat1 & Hc1 & ->).
  destruct (read_physical_record r1 _ t frag R x Hat1) as (r2 & E & Hat2 & Hc2); [|done|..].
  - destruct Hc1 as (_ & _ & -> & _). done.
  - unfold kBlockSize, kHeaderSize in *. lia.
  - lia.
  - exists r2. split; [done|]. split; [done|]. by eapply same_config_trans.
Qed.

Lemma read_pieces bo begin data ps bo' :
  record_pieces bo begin data ps bo' ->
  forall r p R x fuel scratch po,
  p mod kBlockSize = bo mod kBlockSize -> at_pos r p (pieces_bytes ps ++ R) ->
  initial_offset_ r = 0 -> resyncing_ r = false -> (length ps <= fuel)%nat ->
  (begin = true -> scratch = []) -> 0 <= po ->
  exists r' p', ReadRecord_loop fuel r x (negb begin) scratch po = Some (Some (scratch ++ data), r') /\
    at_pos r' p' R /\ p' mod kBlockSize = bo' mod kBlockSize /\ same_config r r' /\
    0 <= last_record_offset_ r'.
Proof.
  induction 1 as [bo begin data n bo1 Hs Hd|bo begin frag data n bo1 ps bo2 Hs Hf Hne Hr IH];
    intros r p R x fuel scratch po Hp Hat Hi Hre Hfuel Hbs Hpo.
  - destruct fuel as [|f]; [simpl in Hfuel; lia|]. rewrite pieces_bytes_cons in Hat.
    rewrite <- !app_assoc in Hat. change (pieces_bytes [] ++ R) with R in Hat.
    assert (Hfit : bo1 + kHeaderSize + zlen data <= kBlockSize) by lia.
    destruct (read_piece _ _ _ _ _ _ _ _ x Hs Hp (fragment_type_not_zero begin true) Hfit Hi Hat)
      as (r1 & E1 & Hat1 & Hc1).
    destruct (piece_pos _ _ _ p (zlen data) Hs Hp ltac:(apply zlen_nonneg) Hfit) as [_ Hp2].
    cbn [ReadRecord_loop]. rewrite E1. pose proof Hc1 as (_ & _ & Hi1 & Hre1). rewrite Hre1, Hre.
    cbn [andb].
    destruct begin; cbn [fragment_type andb negb RecordType_code Z.eqb Pos.eqb]; eexists _, _.
    + rewrite (Hbs eq_refl). split; [reflexivity|]. split; [by eapply at_pos_fields|].
      split; [done|]. split; [|simpl; try apply u64_range; done].
      by destruct Hc1 as (? & ? & ? & ?); repeat split; simpl; congruence.
    + split; [reflexivity|]. split; [by eapply at_pos_fields|].
      split; [done|]. split; [|simpl; try apply u64_range; done].
      by destruct Hc1 as (? & ? & ? & ?); repeat split; simpl; congruence.
  - destruct fuel as [|f]; [simpl in Hfuel; lia|]. rewrite pieces_bytes_cons in Hat.
    rewrite <- !app_assoc in Hat.
    assert (Hfit : bo1 + kHeaderSize + zlen frag <= kBlockSize) by lia.
    destruct (read_piece _ _ _ _ _ _ _ _ x Hs Hp (fragment_type_not_zero begin false) Hfit Hi Hat)
      as (r1 & E1 & Hat1 & Hc1).
    destruct (piece_pos _ _ _ p (zlen frag) Hs Hp ltac:(apply zlen_nonneg) Hfit) as [_ Hp2].
    replace (bo1 + kHeaderSize + zlen frag) with kBlockSize in Hp2 by lia.
    cbn [ReadRecord_loop]. rewrite E1. pose proof Hc1 as (_ & _ & Hi1 & Hre1). rewrite Hre1, Hre.
    cbn [andb].
    destruct begin; cbn [fragment_type andb negb RecordType_code Z.eqb Pos.eqb].
    + rewrite (Hbs eq_refl).
      edestruct (IH (set_resyncing r1 false) (p + Z.of_nat n + kHeaderSize + zlen frag) R frag f frag
        (u64 (end_of_buffer_offset_ r1 - zlen (buffer_ r1) - kHeaderSize - zlen frag))) as (r' & p' & E' & Hat' & Hp' & Hc' & Hl');
        [exact Hp2|by eapply at_pos_fields|simpl; congruence|done|simpl in Hfuel; lia|done|apply u64_range || done|].
      exists r', p'. cbn [negb] in E'. rewrite E'. split; [done|]. split; [done|]. split; [done|].
      split; [|done]. destruct Hc1 as (? & ? & ? & ?), Hc' as (? & ? & ? & ?).
      repeat split; simpl in *; congruence.
    + edestruct (IH (set_resyncing r1 false) (p + Z.of_nat n + kHeaderSize + zlen frag) R frag f (scratch ++ frag) po) as (r' & p' & E' & Hat' & Hp' & Hc' & Hl');
        [exact Hp2|by eapply at_pos_fields|simpl; congruence|done|simpl in Hfuel; lia|done|apply u64_range || done|].
      exists r', p'. cbn [negb] in E'. rewrite E', <- app_assoc. split; [done|]. split; [done|].
      split; [done|]. split; [|done]. destruct Hc1 as (? & ? & ? & ?), Hc' as (? & ? & ? & ?).
      repeat split; simpl in *; congruence.
Qed.

Lemma read_pieces_truncated bo begin data ps bo' :
  record_pieces bo begin data ps bo' ->
  forall r p m x fuel in_frag scratch po,
  p mod kBlockSize = bo mod kBlockSize -> at_pos r p (take m (pieces_bytes ps)) ->
  (m < length (pieces_bytes ps))%nat ->
  initial_offset_ r = 0 -> resyncing_ r = false -> (length ps <= fuel)%nat ->
  (begin = true -> in_frag = false) -> (begin = false -> in_frag = true) ->
  exists r', ReadRecord_loop fuel r x in_frag scratch po = Some (None, r') /\ same_config r r'.
Proof.
  induction 1 as [bo begin data n bo1 Hs Hd|bo begin frag data n bo1 ps bo2 Hs Hf Hne Hr IH];
    intros r p m x fuel in_frag scratch po Hp Hat Hm Hi Hre Hfuel Hb1 Hb2;
    (destruct fuel as [|f]; [simpl in Hfuel; lia|]); cbn [ReadRecord_loop].
  - destruct (skip_trailer_range _ _ _ Hs) as [Hr1 _].
    rewrite pieces_bytes_cons in Hat, Hm. change (pieces_bytes []) with (@nil byte) in *.
    rewrite app_nil_r in Hat, Hm.
    edestruct (read_physical_truncated bo n bo1 (fragment_type begin true) data r p m x) as (r' & -> & Hc);
      [done|done|lia|unfold kBlockSize, kHeaderSize in *; lia|done|done|].
    exists (set_resyncing r' false). pose proof Hc as (_ & _ & _ & Hre'). rewrite Hre', Hre.
    cbn [andb Z.eqb kEof kMaxRecordType RecordType_code Pos.eqb Z.add Pos.add Pos.succ]. split; [done|].
    destruct Hc as (? & ? & ? & ?). repeat split; simpl; congruence.
  - destruct (skip_trailer_range _ _ _ Hs) as [Hr1 _].
    rewrite pieces_bytes_cons, app_assoc in Hat, Hm.
    set (whole := replicate n x00 ++ physical_record (fragment_type begin false) frag) in *.
    assert (Hfit : bo1 + kHeaderSize + zlen frag <= kBlockSize) by lia.
    destruct (Nat.lt_ge_cases m (length whole)) as [Hlt|Hge].
    + rewrite take_app_le in Hat by lia.
      edestruct (read_physical_truncated bo n bo1 (fragment_type begin false) frag r p m x) as (r' & -> & Hc);
        [done|done|lia|unfold kBlockSize, kHeaderSize in *; lia|done|done|].
      exists (set_resyncing r' false). pose proof Hc as (_ & _ & _ & Hre'). rewrite Hre', Hre.
      cbn [andb Z.eqb kEof kMaxRecordType RecordType_code Pos.eqb Z.add Pos.add Pos.succ]. split; [done|].
      destruct Hc as (? & ? & ? & ?). repeat split; simpl; congruence.
    + rewrite take_app_ge in Hat by lia. unfold whole in Hat at 1. rewrite <- app_assoc in Hat.
      destruct (read_piece _ _ _ _ _ _ _ _ x Hs Hp (fragment_type_not_zero begin false) Hfit Hi Hat)
        as (r1 & -> & Hat1 & Hc1).
      destruct (piece_pos _ _ _ p (zlen frag) Hs Hp ltac:(apply zlen_nonneg) Hfit) as [_ Hp2].
      replace (bo1 + kHeaderSize + zlen frag) with kBlockSize in Hp2 by lia.
      pose proof Hc1 as (_ & _ & Hi1 & Hre1). rewrite Hre1, Hre. cbn [andb].
      rewrite length_app in Hm.
      destruct begin; cbn [fragment_type andb negb RecordType_code Z.eqb Pos.eqb];
        [rewrite (Hb1 eq_refl)|rewrite (Hb2 eq_refl)]; cbn [andb negb];
        (edestruct (IH (set_resyncing r1 false) (p + Z.of_nat n + kHeaderSize + zlen frag) (m - length whole)%nat frag f true) as (r' & E' & Hc');
          [exact Hp2|by eapply at_pos_fields|lia|simpl; congruence|done|simpl in Hfuel; lia|done|done|
           exists r'; split; [exact E'|];
           destruct Hc1 as (? & ? & ? & ?), Hc' as (? & ? & ? & ?); repeat split; simpl in *; congruence]).
Qed.

(** ** Whole logs *)

Lemma ReadRecord_from_start fuel r :
  initial_offset_ r = 0 -> 0 <= last_record_offset_ r ->
  ReadRecord fuel r = ReadRecord_loop fuel r [] false [] 0.
Proof. intros Hi Hl. unfold ReadRecord. rewrite Hi, (proj2 (Z.ltb_ge _ _)) by done. done. Qed.


(** What [ReadAll] returns on the first [m] bytes of a log: the records that
    are there in full, without any report. *)
Lemma ReadAll_log bo records pss bo' :
  log_pieces bo records pss bo' ->
  forall r p m n fuel,
  p mod kBlockSize = bo mod kBlockSize -> at_pos r p (take m (log_bytes pss)) ->
  initial_offset_ r = 0 -> resyncing_ r = false -> 0 <= last_record_offset_ r ->
  (length (log_bytes pss) < fuel)%nat -> (length records < n)%nat ->
  exists k r', ReadAll n fuel r = Some (take k records, r') /\ same_config r r' /\
    (k <= length records)%nat /\ (length (log_bytes (take k pss)) <= m)%nat /\
    (k < length records -> m < length (log_bytes (take (S k) pss)))%nat.
Proof.
  induction 1 as [bo|bo data ps bo1 records pss bo2 Hps Hpss IH];
    intros r p m n fuel Hp Hat Hi Hre Hl Hf Hn;
    (destruct n as [|n]; [simpl in Hn; lia|]); cbn [ReadAll]; rewrite ReadRecord_from_start by done.
  - destruct fuel as [|f]; [simpl in Hf; lia|]. cbn [ReadRecord_loop].
    destruct (read_physical_eof r p _ [] Hat) as (r' & -> & Hc).
    { unfold log_bytes. simpl. rewrite take_nil. done. }
    pose proof Hc as (_ & _ & _ & Hre'). rewrite Hre', Hre.
    cbn [andb Z.eqb kEof kMaxRecordType RecordType_code Pos.eqb Z.add Pos.add Pos.succ].
    exists O, (set_resyncing r' false). split; [done|]. split.
    { destruct Hc as (? & ? & ? & ?). repeat split; simpl; congruence. }
    simpl. split; [lia|]. split; [unfold log_bytes; simpl; lia|lia].
  - change (log_bytes (ps :: pss)) with (pieces_bytes ps ++ log_bytes pss) in Hat, Hf.
    rewrite length_app in Hf. pose proof (pieces_bytes_length ps) as Hpl.
    destruct (Nat.lt_ge_cases m (length (pieces_bytes ps))) as [Hlt|Hge].
    + rewrite take_app_le in Hat by lia.
      destruct (read_pieces_truncated _ _ _ _ _ Hps r p m [] fuel false [] 0 Hp Hat Hlt Hi Hre
        ltac:(lia) ltac:(done) ltac:(done)) as (r' & -> & Hc).
      exists O, r'. split; [done|]. split; [done|]. simpl. split; [lia|].
      split; [unfold log_bytes; simpl; lia|]. intros _. unfold log_bytes. simpl. rewrite ?take_0. simpl. by rewrite app_nil_r.
    + rewrite take_app_ge in Hat by done.
      destruct (read_pieces _ _ _ _ _ Hps r p _ [] fuel [] 0 Hp Hat Hi Hre ltac:(lia) ltac:(done) ltac:(lia))
        as (r1 & p1 & E & Hat1 & Hp1 & Hc1 & Hl1).
      cbn [negb] in E. rewrite E.
      destruct (IH r1 p1 (m - length (pieces_bytes ps))%nat n fuel Hp1 Hat1) as (k & r' & -> & Hc' & Hk & Hkm & Hkn);
        [destruct Hc1 as (? & ? & ? & ?); congruence..|done|lia|simpl in Hn; lia|].
      exists (S k), r'. split; [done|]. split; [by eapply same_config_trans|].
      unfold log_bytes in *. cbn [take map concat length]. rewrite length_app.
      split; [lia|]. split; [lia|]. intros Hk2. specialize (Hkn ltac:(lia)).
      rewrite length_app. lia.
Qed.

End ReaderProofs.

(** ** Termination on any file *)

(** A file of finitely many bytes whose calls may fail: a call that succeeds uses
    up the bytes it returns, and of a call that fails nothing is known. *)
Class FiniteFile {F} (S : SequentialFile F) (left : F -> nat) : Prop := {
  seq_Read_left n f s data f' : seq_Read n f = (s, data, f') -> ok s = true -> (length data + left f' <= left f)%nat;
  seq_Skip_left n f s f' : seq_Skip n f = (s, f') -> ok s = true -> (left f' <= left f)%nat;
}.

Section Termination.
Context `{CS : Checksum} {F : Type} {SF : SequentialFile F} {left : F -> nat} {FF : FiniteFile SF left}.
Implicit Types r : Reader F.

(** The bytes still to be parsed. *)
Definition todo (r : Reader F) : nat := (length (buffer_ r) + left (file_ r))%nat.

Lemma ReportDrop_fields r n s :
  file_ (ReportDrop r n s) = file_ r /\ buffer_ (ReportDrop r n s) = buffer_ r.
Proof. unfold ReportDrop. destruct (reporter_ r); [|done]. destruct (_ <=? _); done. Qed.

Lemma ReportDrop_todo r n s : todo (ReportDrop r n s) = todo r.
Proof. unfold todo. destruct (ReportDrop_fields r n s) as [-> ->]. done. Qed.

Lemma parse_physical_todo r x t y r' :
  parse_physical_record r x = (t, y, r') -> kHeaderSize <= zlen (buffer_ r) -> (todo r' < todo r)%nat.
Proof.
  intros E Hb. assert (Hc : forall b, (length b < length (buffer_ r))%nat ->
    (todo (set_buffer r b) < todo r)%nat) by (intros; unfold todo; simpl; lia).
  assert (H0 : (length (@nil byte) < length (buffer_ r))%nat)
    by (unfold kHeaderSize in Hb; simpl; ilia).
  pose proof (header_length_range (buffer_ r)).
  unfold parse_physical_record in E.
  destruct (_ <? _); [destruct (negb _)|destruct (_ && _); [|destruct (_ && _); [|destruct (_ <? _)]]];
    injection E as _ _ <-; unfold ReportCorruption; rewrite ?ReportDrop_todo;
    apply Hc; try exact H0; rewrite length_drop; unfold kHeaderSize in *; ilia.
Qed.

Lemma fetch_block_todo r s r1 : fetch_block r = (s, r1) -> ok s = true -> (todo r1 <= todo r)%nat.
Proof.
  unfold fetch_block. destruct (seq_Read _ (file_ r)) as [[s0 data] f'] eqn:E. intros [= <- <-] Hs. pose proof (seq_Read_left _ _ _ _ _ E Hs).
  unfold todo. cbn [set_end set_buffer set_file buffer_ file_]. lia.
Qed.

Lemma ReadPhysicalRecord_total r x :
  exists t y r', ReadPhysicalRecord r x = Some (t, y, r') /\ (t = kEof \/ (todo r' < todo r)%nat).
Proof.
  unfold ReadPhysicalRecord. cbn [ReadPhysicalRecord_loop].
  destruct (Z.ltb_spec (zlen (buffer_ r)) kHeaderSize) as [Hlt|Hge].
  2: { destruct (parse_physical_record r x) as [[t y] r'] eqn:E. exists t, y, r'. split; [done|].
       right. by eapply parse_physical_todo. }
  destruct (eof_ r) eqn:He; cbn [negb].
  { eexists _, _, _. split; [reflexivity|]. by left. }
  destruct (fetch_block r) as [s r1] eqn:Ef. destruct (ok s) eqn:Hs; cbn [negb].
  2: { eexists _, _, _. split; [reflexivity|]. by left. }
  pose proof (fetch_block_todo _ _ _ Ef Hs) as Ht1. set (r2 := if _ <? _ then _ else r1).
  assert (H2 : buffer_ r2 = buffer_ r1 /\ todo r2 = todo r1 /\ (eof_ r2 = true \/ kBlockSize <= zlen (buffer_ r1))).
  { unfold r2. destruct (Z.ltb_spec (zlen (buffer_ r1)) kBlockSize); [split; [done|]; split; [done|by left]|]. split; [done|]. split; [done|by right]. }
  clearbody r2. destruct H2 as (Eb & Et & H2). rewrite Eb. destruct (Z.ltb_spec (zlen (buffer_ r1)) kHeaderSize) as [Hs2|Hs2].
  - assert (Heof : eof_ r2 = true) by (destruct H2; [done|unfold kBlockSize, kHeaderSize in *; lia]). rewrite Heof. cbn [negb].
    eexists _, _, _. split; [reflexivity|]. by left.
  - destruct (parse_physical_record r2 x) as [[t y] r'] eqn:E. exists t, y, r'.
    split; [done|]. right. apply parse_physical_todo in E; [lia|by rewrite Eb].
Qed.

Lemma ReadRecord_loop_total fuel r x b s po :
  (todo r < fuel)%nat ->
  exists rec r', ReadRecord_loop fuel r x b s po = Some (rec, r') /\
    (rec <> None -> (todo r' < todo r)%nat).
Proof.
  revert r x b s po. induction fuel as [|f IH]; intros r x b s po Hf; [lia|].
  cbn [ReadRecord_loop].
  destruct (ReadPhysicalRecord_total r x) as (t & y & r1 & -> & [Ht|Ht]).
  { subst t. change (kEof =? RecordType_code kMiddleType) with false.
    change (kEof =? RecordType_code kLastType) with false. rewrite !andb_false_r.
    eexists _, _. split; [reflexivity|done]. }
  assert (Hr : forall r2 x b s po, todo r2 = todo r1 -> exists rec r',
    ReadRecord_loop f r2 x b s po = Some (rec, r') /\ (rec <> None -> (todo r' < todo r)%nat)).
  { intros r2 x' b' s' po' E. destruct (IH r2 x' b' s' po') as (rec & r' & H1 & H2); [lia|].
    exists rec, r'. split; [done|]. intros Hn. specialize (H2 Hn). lia. }
  unfold ReportCorruption.
  repeat match goal with |- context [if ?c then _ else _] =>
    destruct c; try (by apply Hr); try (apply Hr; by rewrite ?ReportDrop_todo) end;
    try (eexists _, _; split; [reflexivity|]; intros _;
         change (todo (set_last ?a _)) with (todo a); rewrite ?ReportDrop_todo; exact Ht);
    try (eexists _, _; split; [reflexivity|done]).
Qed.

Lemma ReadRecord_total fuel r :
  (todo r < fuel)%nat -> exists rec r', ReadRecord fuel r = Some (rec, r') /\ (rec <> None -> (todo r' < todo r)%nat).
Proof.
  intros Hf. unfold ReadRecord.
  assert (Hskip : forall b r1, SkipToInitialBlock r = (b, r1) -> b = true -> (todo r1 <= todo r)%nat).
  { intros b r1. unfold SkipToInitialBlock. set (loc := if _ <? _ then u64 (_ + _) else u64 _).
    destruct (0 <? loc); [|by intros [= _ <-] _]. cbn [set_end file_]. destruct (seq_Skip loc (file_ r)) as [s f'] eqn:E.
    destruct (ok s) eqn:Hs; cbn [negb]; [|by intros [= <- _]]. intros [= _ <-] _. pose proof (seq_Skip_left _ _ _ _ E Hs). unfold todo. cbn. lia. }
  destruct (_ <? _).
  - destruct (SkipToInitialBlock r) as [[] r1]; cbn [negb]; [|eexists _, _; split; [reflexivity|done]]. specialize (Hskip true r1 eq_refl eq_refl).
    destruct (ReadRecord_loop_total fuel r1 [] false [] 0 ltac:(lia)) as (rec & r' & E & H1). exists rec, r'. split; [done|]. intros Hr. specialize (H1 Hr). lia.
  - by apply ReadRecord_loop_total.
Qed.

Lemma ReadAll_total n fuel r : (todo r < n)%nat -> (todo r < fuel)%nat -> exists records r', ReadAll n fuel r = Some (records, r').
Proof.
  revert r. induction n as [|n IH]; intros r Hn Hf; [lia|]. cbn [ReadAll]. destruct (ReadRecord_total fuel r Hf) as (rec & r1 & -> & H1).
  destruct rec as [record|]; [|by eexists _, _]. specialize (H1 ltac:(done)). destruct (IH r1 ltac:(lia) ltac:(lia)) as (records & r' & ->). by eexists _, _.
Qed.
End Termination.

(** ** Sessions of writing *)

Section Sessions.
Context `{CS : Checksum}.

Lemma log_pieces_app bo bo1 bo2 rs1 rs2 pss1 pss2 :
  log_pieces bo rs1 pss1 bo1 -> log_pieces bo1 rs2 pss2 bo2 ->
  log_pieces bo (rs1 ++ rs2) (pss1 ++ pss2) bo2.
Proof. induction 1; intros H2; simpl; [done|]. econstructor; [done|]. by apply IHlog_pieces. Qed.

Lemma log_pieces_take bo records pss bo' k :
  log_pieces bo records pss bo' -> exists bo1, log_pieces bo (take k records) (take k pss) bo1.
Proof.
  intros H. revert k. induction H as [bo|bo data ps bo1 records pss bo2 H1 H2 IH]; intros [|k];
    try (eexists; constructor).
  destruct (IH k) as [bo3 H3]. exists bo3. by econstructor.
Qed.

(** The pieces of a record are determined. *)
Lemma skip_trailer_det bo n bo1 n' bo1' :
  skip_trailer bo n bo1 -> skip_trailer bo n' bo1' -> n = n' /\ bo1 = bo1'.
Proof. destruct 1; inversion 1; subst; try done; lia. Qed.

Lemma record_pieces_det bo b data ps bo' :
  record_pieces bo b data ps bo' -> forall ps' bo'', record_pieces bo b data ps' bo'' ->
  ps = ps' /\ bo' = bo''.
Proof.
  induction 1 as [bo begin data n bo1 Hs Hd|bo begin frag data n bo1 ps bo2 Hs Hf Hne Hr IH];
    intros ps' bo'' H'; inversion H' as [? ? ? n' bo1' Hs' Hd'|? ? frag' data' n' bo1' ps1 ? Hs' Hf' Hne' Hr'];
    subst; destruct (skip_trailer_det _ _ _ _ _ Hs Hs') as [-> ->].
  - done.
  - rewrite zlen_app in Hd. destruct data'; [done|]. rewrite zlen_cons in Hd.
    pose proof (zlen_nonneg data'). lia.
  - rewrite zlen_app in Hd'. destruct data; [done|]. rewrite zlen_cons in Hd'.
    pose proof (zlen_nonneg data). lia.
  - assert (Hl : length frag' = length frag) by ilia.
    apply app_inj_1 in H1 as [-> ->]; [|done]. destruct (IH _ _ Hr') as [-> ->]. done.
Qed.

Lemma log_pieces_det bo rs pss bo' :
  log_pieces bo rs pss bo' -> forall pss' bo'', log_pieces bo rs pss' bo'' -> pss = pss' /\ bo' = bo''.
Proof.
  induction 1 as [bo|bo data ps bo1 records pss bo2 H1 H2 IH]; intros pss' bo'' H';
    inversion H' as [|? ? ps' bo1' ? pss1 ? H1' H2']; subst; [done|].
  destruct (record_pieces_det _ _ _ _ _ H1 _ _ H1') as [-> ->].
  destruct (IH _ _ H2') as [-> ->]. done.
Qed.

(** The block offset follows the length of the file. *)
Lemma record_pieces_length bo b data ps bo' :
  record_pieces bo b data ps bo' ->
  (bo + zlen (pieces_bytes ps)) mod kBlockSize = bo' mod kBlockSize.
Proof.
  induction 1 as [bo begin data n bo1 Hs Hd|bo begin frag data n bo1 ps bo2 Hs Hf Hne Hr IH];
    rewrite pieces_bytes_cons, !zlen_app, physical_record_length;
    destruct (skip_trailer_pos _ _ _ bo Hs eq_refl) as [Hp _];
    unfold zlen at 1; rewrite length_replicate.
  - change (zlen (pieces_bytes [])) with 0.
    rewrite Z.add_assoc, <- Z.add_mod_idemp_l, Hp, Z.add_mod_idemp_l by done. f_equal. lia.
  - rewrite Z.add_assoc, <- Z.add_mod_idemp_l, Hp, Z.add_mod_idemp_l by done.
    rewrite <- IH. f_equal. lia.
Qed.

Lemma log_pieces_length bo rs pss bo' :
  log_pieces bo rs pss bo' -> (bo + zlen (log_bytes pss)) mod kBlockSize = bo' mod kBlockSize.
Proof.
  induction 1 as [bo|bo data ps bo1 records pss bo2 H1 H2 IH].
  - unfold log_bytes. simpl. change (zlen (@nil byte)) with 0. by rewrite Z.add_0_r.
  - change (log_bytes (ps :: pss)) with (pieces_bytes ps ++ log_bytes pss).
    rewrite zlen_app, Z.add_assoc, <- Z.add_mod_idemp_l, (record_pieces_length _ _ _ _ _ H1),
      Z.add_mod_idemp_l by done. done.
Qed.

(** Pieces depend on the block offset only modulo the block size. *)
Lemma skip_trailer_full n bo1 : skip_trailer kBlockSize n bo1 <-> skip_trailer 0 n bo1.
Proof.
  split; intros H; inversion H; subst; unfold kHeaderSize, kBlockSize in *; try lia.
  - apply (st_stay 0); unfold kHeaderSize, kBlockSize; lia.
  - apply (st_switch kBlockSize); unfold kHeaderSize, kBlockSize; lia.
Qed.

Lemma log_pieces_mod bo rs pss bo' :
  0 <= bo <= kBlockSize -> log_pieces bo rs pss bo' ->
  exists bo'', log_pieces (bo mod kBlockSize) rs pss bo''.
Proof.
  intros Hb H. destruct (Z.eq_dec bo kBlockSize) as [->|].
  - rewrite Z_mod_same_full. inversion H as [|? data ps bo1 records pss' ? H1 H2]; subst.
    + eexists. constructor.
    + exists bo'. econstructor; [|exact H2].
      inversion H1; subst; econstructor; try done; by apply skip_trailer_full.
  - rewrite Z.mod_small by lia. by exists bo'.
Qed.
End Sessions.

(** ** Properties *)

(** C1: whatever prefix of a log survives a crash, the reader returns exactly
    the records that are in it in full, in order, and reports no corruption;
    on the whole log, all records.  For every sequence of records of any
    sizes, written by [AddRecord] to any reliable file and read, with
    checksums verified, from any reliable file.  The reader's fuel, one more
    than the size of the log, is enough. *)
Theorem log_read_back_after_crash `{CS : Checksum} {W F : Type} {WF : WritableFile W}
    {SF : SequentialFile F} (wf_contents : W -> bytes) (seq_rest : F -> bytes)
    (WL : WritableFileLaws WF wf_contents) (SL : SequentialFileLaws SF seq_rest)
    (dest : W) (file : F) (records : list bytes) (m : nat) :
  let written rs := wf_contents (dest_ (AddRecords (Writer_new dest) rs).2) in
  wf_contents dest = [] -> zlen (written records) < 2 ^ 64 ->
  seq_rest file = take m (written records) ->
  (AddRecords (Writer_new dest) records).1 = OK /\
  exists k r,
    ReadAll (S (length records)) (S (length (written records))) (Reader_new file (Some []) true 0)
      = Some (take k records, r) /\
    reporter_ r = Some [] /\ (k <= length records)%nat /\
    (length (written (take k records)) <= m)%nat /\
    (k < length records -> m < length (written (take (S k) records)))%nat.
Proof.
  intros written Hd Hsize Hfile.
  assert (Hall : forall rs, exists pss bo', (AddRecords (Writer_new dest) rs).1 = OK /\
    log_pieces 0 rs pss bo' /\ written rs = log_bytes pss).
  { intros rs. destruct (AddRecords_spec (Writer_new dest) rs (Writer_new_ok dest))
      as (w' & pss & E & _ & Hp & Hc). exists pss, (block_offset_ w').
    unfold written. rewrite E. simpl. split; [done|]. split; [done|]. by rewrite Hc; simpl; rewrite Hd. }
  destruct (Hall records) as (pss & bo' & Hok & Hp & Hw). split; [done|].
  rewrite Hw in *.
  destruct (ReadAll_log (seq_rest := seq_rest) _ _ _ _ Hp (Reader_new file (Some []) true 0) 0 m
    (S (length records)) (S (length (log_bytes pss)))) as (k & r & E & Hc & Hk & Hkm & Hkn); try done; try lia.
  { split; simpl; [done|done| |right; done]. change (zlen (@nil byte)) with 0 in *. unfold zlen in *.
    rewrite length_take. lia. }
  exists k, r. split; [exact E|]. split; [by destruct Hc as (-> & _)|]. split; [done|].
  assert (Htake : forall j, written (take j records) = log_bytes (take j pss)).
  { intros j. destruct (Hall (take j records)) as (pss' & bo'' & _ & Hp' & ->).
    destruct (log_pieces_take _ _ _ _ j Hp) as [bo3 H3].
    by destruct (log_pieces_det _ _ _ _ H3 _ _ Hp') as [-> _]. }
  rewrite !Htake. done.
Qed.

Lemma log_read_back_after_crash_witness :
  let records := [cstr "hello"; []; cstr "world"] in
  (AddRecords (Writer_new (W := bytes) []) records).1 = OK.
Proof.
  exact (proj1 (log_read_back_after_crash id id StringDest_laws StringSource_laws [] (cstr "")
    [cstr "hello"; []; cstr "world"] 0 eq_refl ltac:(vm_compute; reflexivity) eq_refl)).
Defined.

(** C29: a log may be continued by a later writer that only knows the file's
    length: the file is the same, byte for byte, as if one writer had written
    all the records. *)
Theorem log_reopen_continues `{CS : Checksum} {W : Type} {WF : WritableFile W}
    (wf_contents : W -> bytes) (WL : WritableFileLaws WF wf_contents)
    (dest : W) (rs1 rs2 : list bytes) :
  wf_contents dest = [] ->
  let d1 := dest_ (AddRecords (Writer_new dest) rs1).2 in
  let d2 := dest_ (AddRecords (Writer_new_at d1 (zlen (wf_contents d1))) rs2).2 in
  wf_contents d2 = wf_contents (dest_ (AddRecords (Writer_new dest) (rs1 ++ rs2)).2).
Proof.
  intros Hd d1 d2.
  destruct (AddRecords_spec (Writer_new dest) rs1 (Writer_new_ok dest))
    as (w1 & pss1 & E1 & Hw1 & Hp1 & Hc1).
  destruct (AddRecords_spec w1 rs2 Hw1) as (w2 & pss2 & E2 & _ & Hp2 & _).
  destruct (AddRecords_spec (Writer_new dest) (rs1 ++ rs2) (Writer_new_ok dest))
    as (w3 & pss3 & E3 & _ & Hp3 & Hc3).
  cbn [Writer_new dest_ block_offset_] in *. rewrite Hd in *. simpl in Hc1, Hc3.
  unfold d2, d1. rewrite E1, E3. cbn [snd].
  destruct (AddRecords_spec (Writer_new_at (dest_ w1) (zlen (wf_contents (dest_ w1)))) rs2
    (Writer_new_at_ok _ _)) as (w4 & pss4 & E4 & _ & Hp4 & Hc4).
  rewrite E4. cbn [snd Writer_new_at dest_ block_offset_] in *. rewrite Hc4, Hc3, Hc1.
  destruct (log_pieces_det _ _ _ _ (log_pieces_app _ _ _ _ _ _ _ Hp1 Hp2) _ _ Hp3) as [<- _].
  destruct Hw1 as [Hb1 _]. destruct (log_pieces_mod _ _ _ _ Hb1 Hp2) as [bo'' Hp2'].
  pose proof (log_pieces_length _ _ _ _ Hp1) as Hl. rewrite Z.add_0_l in Hl.
  rewrite Hc1, Hl in Hp4. destruct (log_pieces_det _ _ _ _ Hp4 _ _ Hp2') as [-> _].
  unfold log_bytes. by rewrite map_app, concat_app.
Qed.

Lemma log_reopen_continues_witness :
  let d1 := dest_ (AddRecords (Writer_new (W := bytes) []) [cstr "hello"]).2 in
  dest_ (AddRecords (Writer_new_at d1 (zlen d1)) [cstr "world"]).2
  = dest_ (AddRecords (Writer_new (W := bytes) []) [cstr "hello"; cstr "world"]).2.
Proof. exact (log_reopen_continues id StringDest_laws [] [cstr "hello"] [cstr "world"] eq_refl). Defined.

(** C30: Reading a log ends on every file of finitely many bytes, however
    corrupted they are and even when reads or skips fail, from every initial offset
    and in every state of the reader: [ReadRecord] returns, a record it returns has
    used up bytes of the file, and so the caller's loop, which reads until there is
    no record, ends, too.  Fuel beyond the bytes left is never used up. *)
Theorem log_reader_terminates `{CS : Checksum} {F : Type} {SF : SequentialFile F}
    (left : F -> nat) (FF : FiniteFile SF left) (r : Reader F) (n fuel : nat)
    (Hn : (length (buffer_ r) + left (file_ r) < n)%nat) (Hfuel : (length (buffer_ r) + left (file_ r) < fuel)%nat) :
  (exists rec r', ReadRecord fuel r = Some (rec, r') /\
     (rec <> None -> (length (buffer_ r') + left (file_ r') < length (buffer_ r) + left (file_ r))%nat)) /\
  exists records r', ReadAll n fuel r = Some (records, r').
Proof. split; [exact (ReadRecord_total (left := left) fuel r Hfuel)|exact (ReadAll_total (left := left) n fuel r Hn Hfuel)]. Qed.

(** A file that fails after some reads. *)
#[local] Instance FailingSource : SequentialFile (nat * bytes) := {|
  seq_Read n f := match f.1 with O => (IOError (cstr "log") [], [], f) | S k => (OK, take (Z.to_nat n) f.2, (k, drop (Z.to_nat n) f.2)) end;
  seq_Skip n f := match f.1 with O => (IOError (cstr "log") [], f) | S k => (OK, (k, drop (Z.to_nat n) f.2)) end;
|}.

Lemma FailingSource_finite : FiniteFile FailingSource (fun f => length f.2).
Proof.
  split; intros n [[|k] f] s; cbn -[Z.to_nat]; [by intros data f' [= <- _ _]|intros data f' [= _ <- <-] _|by intros f' [= <- _]|intros f' [= _ <-] _];
    rewrite ?length_take, ?length_drop; cbn; rewrite ?length_take, ?length_drop; lia.
Qed.

Lemma log_reader_terminates_witness :
  (exists rec r', ReadRecord 9 (Reader_new (0%nat, cstr "garbage!") (Some []) true 3) = Some (rec, r') /\ rec = None) /\
  exists records r', ReadAll 9 9 (Reader_new (1%nat, cstr "garbage!") (Some []) true 0) = Some (records, r').
Proof.
  split; [|exact (proj2 (log_reader_terminates _ FailingSource_finite (Reader_new (1%nat, cstr "garbage!") (Some []) true 0) 9 9 ltac:(simpl; lia) ltac:(simpl; lia)))].
  destruct (log_reader_terminates _ FailingSource_finite (Reader_new (0%nat, cstr "garbage!") (Some []) true 3) 9 9 ltac:(simpl; lia) ltac:(simpl; lia)) as [(rec & r' & E & H) _].
  exists rec, r'. split; [exact E|]. vm_compute in E. by injection E as <- _.
Defined.

(** C31: a physical record whose payload was changed in one byte is not returned:
    the checksum does not match, the rest of the block is dropped, and the drop
    is reported with its size. *)
Theorem log_detects_corruption {F : Type} {SF : SequentialFile F} (r : Reader F)
    (t : RecordType) (p q rest x : bytes) (a b : byte) (l : list (Z * Status))
    (Ht : t <> kZeroType) (Hlen : zlen (p ++ a :: q) <= 0xffff) (Hab : a <> b)
    (Hbuf : buffer_ r = record_header InitTypeCrc t (p ++ a :: q) ++ p ++ b :: q ++ rest)
    (Hcheck : checksum_ r = true) (Hrep : reporter_ r = Some l) (Hinit : initial_offset_ r = 0) :
  exists r', parse_physical_record r x = (kBadRecord, x, r') /\ buffer_ r' = [] /\
    reporter_ r' = Some (l ++ [(zlen (buffer_ r), Corruption (cstr "checksum mismatch") [])]).
Proof.
  set (frag := p ++ a :: q) in *. unfold parse_physical_record. rewrite Hbuf.
  rewrite header_length_record, header_type_record by done.
  assert (Hl' : zlen (p ++ b :: q ++ rest) = zlen frag + zlen rest).
  { unfold frag. rewrite !zlen_app, !zlen_cons, zlen_app. lia. }
  pose proof (zlen_nonneg frag). pose proof (zlen_nonneg rest). rewrite zlen_app, Hl'.
  change (zlen (record_header _ _ _)) with 7. unfold kHeaderSize.
  rewrite u32_small by lia. rewrite (proj2 (Z.ltb_ge _ _)) by lia.
  rewrite (proj2 (Z.eqb_neq (RecordType_code t) _)) by (destruct t; done). cbn [andb].
  rewrite Hcheck. cbn [andb].
  pose proof (record_crc_matches t frag [] Hlen) as Hm. cbn zeta in Hm.
  unfold physical_record in Hm. rewrite app_nil_r in Hm.
  assert (Hd : forall u, DecodeFixed32 (record_header InitTypeCrc t frag ++ u)
                         = u32 (Mask (cs_extend (nth (Z.to_nat (RecordType_code t)) InitTypeCrc 0) frag))).
  { intros u. unfold record_header. rewrite <- !app_assoc. apply DecodeFixed32_encode. }
  rewrite Hd in Hm |- *. rewrite <- Hm.
  assert (Htk : forall y, take (Z.to_nat (1 + zlen frag))
      (drop 6 (record_header InitTypeCrc t frag ++ p ++ y :: q ++ rest))
      = byte_of_Z (RecordType_code t) :: p ++ y :: q).
  { intros y. replace (Z.to_nat (1 + zlen frag)) with (S (length (p ++ y :: q)))
      by (unfold frag, zlen; rewrite !length_app; simpl; lia).
    change (drop 6 _) with (byte_of_Z (RecordType_code t) :: p ++ y :: q ++ rest). cbn [take]. f_equal.
    replace (p ++ y :: q ++ rest) with ((p ++ y :: q) ++ rest) by by rewrite <- app_assoc.
    apply take_app_exact. }
  rewrite Htk.
  replace (take _ (drop 6 (record_header InitTypeCrc t frag ++ frag)))
    with (byte_of_Z (RecordType_code t) :: p ++ a :: q).
  2: { change (drop 6 _) with (byte_of_Z (RecordType_code t) :: frag).
       symmetry. apply firstn_all2. cbn [length]. fold frag. clearbody frag. unfold zlen. lia. }
  assert (Hne : cs_value (byte_of_Z (RecordType_code t) :: p ++ b :: q)
                <> cs_value (byte_of_Z (RecordType_code t) :: p ++ a :: q)).
  { intros E. apply Hab. symmetry.
    apply (crc32c_byte_change 0 (byte_of_Z (RecordType_code t) :: p) b a q); [lia|exact E]. }
  rewrite (proj2 (Z.eqb_neq _ _) Hne). cbn [negb].
  unfold ReportCorruption, ReportDrop. cbn [set_buffer reporter_ initial_offset_].
  rewrite Hrep, Hinit, (proj2 (Z.leb_le _ _)) by apply u64_range.
  eexists. split; [reflexivity|]. split; done.
Qed.

Lemma log_detects_corruption_witness :
  let r := mkReader (F := bytes) [] (Some []) true
    (record_header InitTypeCrc kFullType (cstr "hello") ++ cstr "hellp") false 0 12 0 false in
  exists r', parse_physical_record r [] = (kBadRecord, [], r') /\ buffer_ r' = [] /\
    reporter_ r' = Some [(12, Corruption (cstr "checksum mismatch") [])].
Proof.
  refine (log_detects_corruption (mkReader (F := bytes) [] (Some []) true
    (record_header InitTypeCrc kFullType (cstr "hello") ++ cstr "hellp") false 0 12 0 false)
    kFullType (cstr "hell") [] [] [] "o" "p" [] _ _ _ _ _ _ _);
    first [discriminate | reflexivity | vm_compute; discriminate].
Defined.

(** ** A file that fails *)

(** A destination whose next appends follow a script: [None] succeeds, [Some k]
    writes [k] bytes and fails. *)
Definition FaultyDest : Type := bytes * list (option nat).

Definition Faulty_Append (data : bytes) (w : FaultyDest) : Status * FaultyDest :=
  match w.2 with
  | Some k :: script => (IOError (cstr "append") [], (w.1 ++ take k data, script))
  | _ :: script => (OK, (w.1 ++ data, script))
  | [] => (OK, (w.1 ++ data, []))
  end.

#[export] Instance FaultyFile : WritableFile FaultyDest := {|
  wf_Append := Faulty_Append;
  wf_Flush w := (OK, w);
  wf_Sync w := (OK, w);
|}.

(** The status of the append that fills a block's trailer is ignored.  When
    only that append fails, [AddRecord] answers OK for records that the
    reader does not find: here the two records are reported written, and only
    the first comes back. *)
Theorem log_trailer_error_is_ignored :
  let first := replicate 32758 x61 in
  let '(s, w) := AddRecords (Writer_new (W := FaultyDest) ([], [None; None; Some O; None; None]))
                   [first; cstr "lost"] in
  ok s && match ReadAll 3 100 (Reader_new (dest_ w).1 (Some []) true 0) with
          | Some (records, _) => bool_decide (records = [first])
          | None => false
          end = true.
Proof. vm_compute. reflexivity. Qed.
