(* ===== verification/LogReplay.v ===== *)
(** * Replaying a log

    The loop of the two recoveries, [VersionSet::Recover] of
    src/db/version_set.cc and [DBImpl::RecoverLogFile] of src/db/db_impl.cc:
    [while (reader.ReadRecord(&record, &scratch) && s.ok())], with a reporter that
    keeps the first corruption in [s].  On what the writer wrote, whole or cut by
    a crash, the loop runs its body on the records that are there, in order. *)

From S2P Require Import Prelude Crc32c Status LogWriter LogReader.

Section Loop.
Context `{CS : Checksum} {F : Type} {SF : SequentialFile F} {S : Type}.
Variables (status_of : S -> Status) (report : Status -> S -> S) (body : bytes -> S -> option (bool * S)).

(** [LogReporter::Corruption]; the reader reports into a list, of which the first
    report counts. *)
Definition LogReporter_Corruption (r : Reader F) (s : S) : S :=
  match reporter_ r with
  | Some ((_, reason) :: _) => if ok (status_of s) then report reason s else s
  | _ => s
  end.

(** The body says whether the loop goes on: [false] is its [break]. *)
Fixpoint record_loop (n fuel : nat) (r : Reader F) (s : S) : option S :=
  match n with
  | O => None
  | Datatypes.S n =>
      '(record, r) ← ReadRecord fuel r;
      let s := LogReporter_Corruption r s in
      match record with
      | Some record =>
          if ok (status_of s) then
            '(continue, s) ← body record s;
            if (continue : bool) then record_loop n fuel r s else Some s
          else Some s
      | None => Some s
      end
  end.

(** The same on a list of records. *)
Fixpoint body_fold (records : list bytes) (s : S) : option S :=
  match records with
  | [] => Some s
  | record :: records =>
      if ok (status_of s) then
        '(continue, s) ← body record s;
        if (continue : bool) then body_fold records s else Some s
      else Some s
  end.
End Loop.

(** ** Reports accumulate *)

Section Reports.
Context `{CS : Checksum} {F : Type} {SF : SequentialFile F}.
Implicit Types r : Reader F.

Definition reports_more r r' : Prop := forall l, reporter_ r = Some l -> exists l', reporter_ r' = Some (l ++ l').

Lemma reports_refl r r' : reporter_ r' = reporter_ r -> reports_more r r'.
Proof. intros E l H. exists []. by rewrite app_nil_r, E. Qed.

Lemma reports_trans r1 r2 r3 : reports_more r1 r2 -> reports_more r2 r3 -> reports_more r1 r3.
Proof. intros H1 H2 l H. destruct (H1 l H) as [l1 E1]. destruct (H2 _ E1) as [l2 E2]. exists (l1 ++ l2). by rewrite app_assoc. Qed.

Lemma ReportDrop_reports r n s : reports_more r (ReportDrop r n s).
Proof.
  intros l H. unfold ReportDrop. rewrite H. destruct (_ <=? _); [by eexists|]. exists []. by rewrite app_nil_r.
Qed.

Lemma ReportCorruption_reports r n s : reports_more r (ReportCorruption r n s).
Proof. apply ReportDrop_reports. Qed.

Lemma resync_reports r b n s : reports_more r (ReportCorruption (set_resyncing r b) n s).
Proof. eapply reports_trans; [|apply ReportCorruption_reports]. by apply reports_refl. Qed.

Lemma set_last_reports r r' o : reports_more r r' -> reports_more r (set_last r' o).
Proof. done. Qed.

Lemma parse_reports r x : reports_more r (parse_physical_record r x).2.
Proof.
  unfold parse_physical_record. repeat case_match; cbn [snd]; try (by apply reports_refl);
    (eapply reports_trans; [|apply ReportCorruption_reports]); by apply reports_refl.
Qed.

Lemma ReadPhysicalRecord_reports r x t y r' : ReadPhysicalRecord r x = Some (t, y, r') -> reports_more r r'.
Proof.
  unfold ReadPhysicalRecord. generalize 2%nat as fuel. intros fuel. revert r. induction fuel as [|fuel IH]; intros r E; [done|].
  cbn [ReadPhysicalRecord_loop] in E. destruct (_ <? kHeaderSize).
  - destruct (negb (eof_ r)); [|injection E as _ _ <-; by apply reports_refl].
    destruct (fetch_block r) as [st r1] eqn:Ef. assert (H1 : reporter_ r1 = reporter_ r).
    { unfold fetch_block in Ef. destruct (seq_Read _ _) as [[? ?] ?]. by injection Ef as _ <-. }
    destruct (negb (ok st)).
    + injection E as _ _ <-. eapply reports_trans; [|by apply (reports_refl (ReportDrop (set_buffer r1 []) kBlockSize st))].
      eapply reports_trans; [|apply ReportDrop_reports]. by apply reports_refl.
    + eapply reports_trans; [|by apply (IH _ E)]. apply reports_refl. by destruct (_ <? kBlockSize).
  - injection E as E. assert (r' = (parse_physical_record r x).2) as -> by (by rewrite E). apply parse_reports.
Qed.

Lemma ReadRecord_loop_reports fuel r x b scratch o rec r' : ReadRecord_loop fuel r x b scratch o = Some (rec, r') -> reports_more r r'.
Proof.
  revert r x b scratch o. induction fuel as [|fuel IH]; intros r x b scratch o E; [done|]. cbn [ReadRecord_loop] in E.
  destruct (ReadPhysicalRecord r x) as [[[t y] r1]|] eqn:Ep; [|done]. apply ReadPhysicalRecord_reports in Ep. eapply reports_trans; [exact Ep|]. clear Ep.
  repeat case_match; try (injection E as _ <-); try (eapply reports_trans; [|by eapply IH]);
    first [by apply reports_refl | apply resync_reports | apply set_last_reports, resync_reports].
Qed.

Lemma ReadRecord_reports fuel r rec r' : ReadRecord fuel r = Some (rec, r') -> reports_more r r'.
Proof.
  unfold ReadRecord. destruct (_ <? _); [|apply ReadRecord_loop_reports]. unfold SkipToInitialBlock.
  set (r1 := set_end r _). assert (H1 : reports_more r r1) by (by apply reports_refl). destruct (0 <? _).
  - destruct (seq_Skip _ _) as [st f]. destruct (negb (ok st)); cbn [negb].
    + intros [= _ <-]. eapply reports_trans; [exact H1|]. eapply reports_trans; [|apply ReportDrop_reports]. by apply reports_refl.
    + intros E%ReadRecord_loop_reports. eapply reports_trans; [exact H1|]. eapply reports_trans; [|exact E]. by apply reports_refl.
  - cbn [negb]. intros E%ReadRecord_loop_reports. by eapply reports_trans; [exact H1|].
Qed.

Lemma ReadAll_reports n fuel r records r' : ReadAll n fuel r = Some (records, r') -> reports_more r r'.
Proof.
  revert r records. induction n as [|n IH]; intros r records E; [done|]. cbn [ReadAll] in E.
  destruct (ReadRecord fuel r) as [[[rec|] r1]|] eqn:Er; [| |done]; apply ReadRecord_reports in Er.
  - destruct (ReadAll n fuel r1) as [[recs r2]|] eqn:Ea; [|done]. injection E as _ <-. eapply reports_trans; [exact Er|by eapply IH].
  - by injection E as _ <-.
Qed.

Lemma no_reports r r' : reports_more r r' -> is_Some (reporter_ r) -> reporter_ r' = Some [] -> reporter_ r = Some [].
Proof. intros H [l E] E'. destruct (H l E) as [l' E2]. rewrite E' in E2. injection E2 as E2. symmetry in E2. apply app_eq_nil in E2 as [-> _]. exact E. Qed.

(** Without a corruption the loop is a fold over the records. *)
Lemma record_loop_fold {S} (status_of : S -> Status) report body n fuel r records r' s :
  ReadAll n fuel r = Some (records, r') -> is_Some (reporter_ r) -> reporter_ r' = Some [] ->
  record_loop status_of report body n fuel r s = body_fold status_of body records s.
Proof.
  revert r records s. induction n as [|n IH]; intros r records s E Hs E'; [done|]. cbn [ReadAll] in E. cbn [record_loop].
  destruct (ReadRecord fuel r) as [[[rec|] r1]|] eqn:Er; [| |done]; cbn [mbind option_bind]; pose proof (ReadRecord_reports _ _ _ _ Er) as H1;
    (assert (Hs1 : is_Some (reporter_ r1)) by (destruct Hs as [l El]; destruct (H1 l El) as [l' ->]; by eexists)).
  - destruct (ReadAll n fuel r1) as [[recs r2]|] eqn:Ea; [|done]. injection E as <- <-.
    pose proof (no_reports _ _ (ReadAll_reports _ _ _ _ _ Ea) Hs1 E') as E1. unfold LogReporter_Corruption. rewrite E1. cbn [body_fold].
    destruct (ok (status_of s)); [|done]. destruct (body rec s) as [[[] s']|]; cbn [mbind option_bind]; [|done|done]. by apply IH.
  - injection E as <- <-. unfold LogReporter_Corruption. by rewrite E'.
Qed.
End Reports.

(** ** Logs as lists of records *)

Section Logged.
Context `{CS : Checksum} {W F : Type} {WF : WritableFile W} {SF : SequentialFile F}.
Context (wf_contents : W -> bytes) {WL : WritableFileLaws WF wf_contents} (seq_rest : F -> bytes) {SL : SequentialFileLaws SF seq_rest}.

(** The file under a writer is the log of a list of records. *)
Definition logged (w : Writer W) (records : list bytes) : Prop :=
  writer_ok w /\ exists pss, log_pieces 0 records pss (block_offset_ w) /\ wf_contents (dest_ w) = log_bytes pss.

Lemma logged_new d : wf_contents d = [] -> logged (Writer_new d) [].
Proof. intros E. split; [apply Writer_new_ok|]. exists []. split; [constructor|done]. Qed.

Lemma logged_AddRecord w records data :
  logged w records -> exists w', AddRecord w data = (OK, w') /\ logged w' (records ++ [data]).
Proof.
  intros (Hw & pss & Hp & Hc). destruct (AddRecord_spec w data Hw) as (w' & ps & E & Hw' & Hps & Hc'). exists w'. split; [exact E|]. split; [exact Hw'|].
  exists (pss ++ [ps]). split.
  - eapply log_pieces_app; [exact Hp|]. econstructor; [exact Hps|constructor].
  - rewrite Hc', Hc. unfold log_bytes. rewrite map_app, concat_app. cbn. by rewrite app_nil_r.
Qed.

(** What is under the writer may change as long as its contents do not. *)
Lemma logged_dest w records d :
  logged w records -> wf_contents d = wf_contents (dest_ w) -> logged (mkWriter d (block_offset_ w) (type_crc_ w)) records.
Proof. intros (Hw & pss & Hp & Hc) E. split; [exact Hw|]. exists pss. split; [exact Hp|]. cbn. by rewrite E. Qed.

(** After a crash that leaves [m] bytes, the loop sees the first [k] records;
    what was written before the crash point is among them. *)
Lemma logged_replay {S} (status_of : S -> Status) report body w records file m n fuel s :
  logged w records -> zlen (wf_contents (dest_ w)) < 2 ^ 64 -> seq_rest file = take m (wf_contents (dest_ w)) ->
  (length records < n)%nat -> (length (wf_contents (dest_ w)) < fuel)%nat ->
  exists k, (k <= length records)%nat /\
    record_loop status_of report body n fuel (Reader_new file (Some []) true 0) s = body_fold status_of body (take k records) s /\
    forall w1 j, logged w1 (take j records) -> (length (wf_contents (dest_ w1)) <= m)%nat -> (j <= k \/ length records <= k)%nat.
Proof.
  intros (Hw & pss & Hp & Hc) Hsize Hfile Hn Hf. rewrite Hc in *.
  destruct (ReadAll_log (seq_rest := seq_rest) _ _ _ _ Hp (Reader_new file (Some []) true 0) 0 m n fuel) as (k & r & E & Hcf & Hk & Hkm & Hkn); try done; try lia.
  { split; simpl; [done|done| |right; done]. change (zlen (@nil byte)) with 0 in *. unfold zlen in *. rewrite length_take. lia. }
  exists k. split; [exact Hk|]. split.
  - eapply record_loop_fold; [exact E|by eexists|]. by destruct Hcf as (-> & _).
  - intros w1 j (_ & pss1 & Hp1 & Hc1) Hm. destruct (decide (k < length records)%nat) as [Hlt|]; [|right; lia]. left.
    specialize (Hkn Hlt). destruct (log_pieces_take _ _ _ _ j Hp) as [bo1 Hp1']. destruct (log_pieces_det _ _ _ _ Hp1 _ _ Hp1') as [-> _].
    rewrite Hc1 in Hm. destruct (decide (j <= k)%nat) as [|Hj]; [done|exfalso].
    assert (Hle : (length (log_bytes (take (Datatypes.S k) pss)) <= length (log_bytes (take j pss)))%nat); [|lia].
    replace j with (Datatypes.S k + (j - Datatypes.S k))%nat by lia. rewrite <- take_take_drop. unfold log_bytes. rewrite map_app, concat_app, length_app. lia.
Qed.
End Logged.
