(* ===== verification/Random.v ===== *)
(** * util/random: the pseudo-random generator

    Models src/util/random.h: a Lehmer generator modulo 2^31 - 1 whose
    reduction is done with shifts.  An operation returns its result with the
    new [seed_]. *)

From S2P Require Import Prelude.

Definition Random_new (s : Z) : Z :=
  let seed := Z.land s 0x7fffffff in
  if (seed =? 0) || (seed =? 2147483647) then 1 else seed.

Definition Next (seed : Z) : Z * Z :=
  let M := 2147483647 in
  let A := 16807 in
  let product := u64 (seed * A) in
  let seed := u32 (Z.shiftr product 31 + Z.land product M) in
  let seed := if M <? seed then u32 (seed - M) else seed in
  (seed, seed).

Definition Uniform (seed n : Z) : Z * Z := let '(r, seed) := Next seed in (r mod n, seed).
Definition OneIn (seed n : Z) : bool * Z := let '(r, seed) := Next seed in (r mod n =? 0, seed).

Definition Skewed (seed max_log : Z) : Z * Z :=
  let '(base, seed) := Uniform seed (max_log + 1) in Uniform seed (Z.shiftl 1 base).

(** The seeds the generator can have. *)
Definition seed_ok (s : Z) : Prop := 1 <= s < 2147483647.

Lemma Random_new_ok s : seed_ok (Random_new s).
Proof.
  unfold Random_new, seed_ok. change 0x7fffffff with (2 ^ 31 - 1). rewrite (land_ones_mod s 31) by lia.
  pose proof (Z.mod_pos_bound s (2 ^ 31) ltac:(lia)) as H. revert H.
  generalize (s mod 2 ^ 31). intros z Hz. zcmp; cbn [orb]; lia.
Qed.

Lemma Next_lehmer s : seed_ok s -> (Next s).2 = 16807 * s mod 2147483647.
Proof.
  unfold seed_ok. intros Hs. unfold Next. cbn [snd].
  rewrite u64_small by lia. rewrite Z.shiftr_div_pow2 by lia.
  set (p := s * 16807).
  rewrite (land_ones_mod p 31 ltac:(lia) : Z.land p 2147483647 = p mod 2 ^ 31). assert (Hp : 0 < p < 2 ^ 46) by (unfold p; lia).
  pose proof (Z.div_mod p (2 ^ 31) ltac:(lia)) as Hdm.
  pose proof (Z.mod_pos_bound p (2 ^ 31) ltac:(lia)).
  assert (0 <= p / 2 ^ 31 < 2 ^ 15) by (split; [apply Z.div_pos|apply Z.div_lt_upper_bound]; lia).
  set (q := p / 2 ^ 31) in *. set (r := p mod 2 ^ 31) in *.
  assert (Hne : q + r <> 2147483647).
  { intros E. assert (Hdiv : (2147483647 | 16807 * s)) by (exists (q + 1); unfold p in *; lia).
    apply Z.gauss in Hdiv; [|reflexivity]. apply Z.divide_pos_le in Hdiv; lia. }
  assert (Hp2 : 16807 * s = p) by (unfold p; lia). rewrite Hp2, Hdm.
  replace (2 ^ 31 * q + r) with (q + r + q * 2147483647) by lia.
  rewrite Z.mod_add by lia. rewrite (u32_small (q + r)) by lia.
  destruct (Z.ltb_spec 2147483647 (q + r)).
  - rewrite u32_small by lia. apply (Z.mod_unique _ _ 1); lia.
  - rewrite Z.mod_small; lia.
Qed.

Lemma Next_ok s : seed_ok s -> seed_ok (Next s).2.
Proof.
  intros Hs. rewrite Next_lehmer by done. unfold seed_ok in *.
  pose proof (Z.mod_pos_bound (16807 * s) 2147483647 ltac:(lia)).
  destruct (Z.eq_dec (16807 * s mod 2147483647) 0) as [E|]; [|lia].
  apply Z.mod_divide in E; [|lia]. apply Z.gauss in E; [|reflexivity].
  apply Z.divide_pos_le in E; lia.
Qed.

(** ** Properties *)

(** The shift-and-add reduction computes the Lehmer sequence: from every
    seed the constructor can produce, each call yields 16807 times the previous
    value modulo 2^31 - 1, and the seed never becomes 0 or 2^31 - 1, the two
    values from which it would not recover. *)
Theorem random_next_is_lehmer (s : Z) (n : nat) :
  let seed := Nat.iter n (fun x => (Next x).2) (Random_new s) in
  seed_ok seed /\ (Next seed).1 = 16807 * seed mod 2147483647 /\ (Next seed).2 = (Next seed).1.
Proof.
  intros seed. assert (H : seed_ok seed).
  { unfold seed. induction n as [|n IH]; [exact (Random_new_ok s)|].
    exact (Next_ok _ IH). }
  clearbody seed. split; [exact H|]. split; [exact (Next_lehmer _ H)|reflexivity].
Qed.
