(* ===== verification/SkipList.v ===== *)
(** * db/skiplist

    Models src/db/skiplist.h: nodes live in an arena (a list; a pointer is an
    index, [None] is the null pointer), each with the array of its links.  The
    loops of the searches carry fuel.  The theorems hold for every choice of
    node heights, for a stale maximum height, and at every point of an
    insertion: an insertion publishes its links one by one, from the bottom. *)

From Stdlib Require Import Sorted.
From stdpp Require Import sets.
From S2P Require Import Prelude Random.

Definition kMaxHeight : nat := 12.
Definition kBranching : Z := 4.

Section SkipList.
Context {K : Type} (compare_ : K -> K -> comparison).

Record Node := mkNode { node_key : K; next_ : list (option nat) }.

Record SkipList := mkSkipList {
  nodes : list Node;
  max_height_ : nat;
  rnd_ : Z;
}.

(** The index of [head_]. *)
Definition head_ : nat := 0.

Definition node_Next (ns : list Node) (x n : nat) : option nat :=
  match ns !! x with
  | Some nd => match next_ nd !! n with Some p => p | None => None end
  | None => None
  end.

Definition node_SetNext (ns : list Node) (x n : nat) (p : option nat) : list Node :=
  alter (fun nd => mkNode (node_key nd) (<[n := p]> (next_ nd))) x ns.

(** [SkipList(cmp, arena)]: the key of the head is never looked at. *)
Definition SkipList_new (any_key : K) : SkipList :=
  mkSkipList [mkNode any_key (replicate kMaxHeight None)] 1 (Random_new 0xdeadbeef).

Fixpoint RandomHeight_loop (fuel height : nat) (rnd : Z) : nat * Z :=
  match fuel with
  | O => (height, rnd)
  | S f =>
      if (height <? kMaxHeight)%nat then
        let '(one, rnd) := OneIn rnd kBranching in
        if one then RandomHeight_loop f (S height) rnd else (height, rnd)
      else (height, rnd)
  end.

Definition RandomHeight (rnd : Z) : nat * Z := RandomHeight_loop kMaxHeight 1 rnd.

Definition KeyIsAfterNode (ns : list Node) (key : K) (n : option nat) : bool :=
  match n with
  | None => false
  | Some y =>
      match ns !! y with
      | Some nd => match compare_ (node_key nd) key with Lt => true | _ => false end
      | None => false
      end
  end.

(** [prev] starts uninitialised ([None] entries).  Result: the node found and
    [prev]; [None] when the fuel is used up. *)
Fixpoint FindGreaterOrEqual_loop (fuel : nat) (ns : list Node) (key : K) (x level : nat)
    (prev : list (option nat)) : option (option nat * list (option nat)) :=
  match fuel with
  | O => None
  | S f =>
      let next := node_Next ns x level in
      if KeyIsAfterNode ns key next then
        match next with
        | Some x => FindGreaterOrEqual_loop f ns key x level prev
        | None => None
        end
      else
        let prev := <[level := Some x]> prev in
        match level with
        | O => Some (next, prev)
        | S level => FindGreaterOrEqual_loop f ns key x level prev
        end
  end.

(** A search visits each node and each level at most once. *)
Definition search_fuel (ns : list Node) : nat := length ns + kMaxHeight.

Definition FindGreaterOrEqual (ns : list Node) (max_height : nat) (key : K)
    : option (option nat * list (option nat)) :=
  FindGreaterOrEqual_loop (search_fuel ns) ns key head_ (max_height - 1) (replicate kMaxHeight None).

Fixpoint FindLessThan_loop (fuel : nat) (ns : list Node) (key : K) (x level : nat) : option nat :=
  match fuel with
  | O => None
  | S f =>
      let next := node_Next ns x level in
      if negb (KeyIsAfterNode ns key next) then
        match level with
        | O => Some x
        | S level => FindLessThan_loop f ns key x level
        end
      else match next with Some x => FindLessThan_loop f ns key x level | None => None end
  end.

Definition FindLessThan (ns : list Node) (max_height : nat) (key : K) : option nat :=
  FindLessThan_loop (search_fuel ns) ns key head_ (max_height - 1).

Fixpoint FindLast_loop (fuel : nat) (ns : list Node) (x level : nat) : option nat :=
  match fuel with
  | O => None
  | S f =>
      match node_Next ns x level with
      | None =>
          match level with
          | O => Some x
          | S level => FindLast_loop f ns x level
          end
      | Some x => FindLast_loop f ns x level
      end
  end.

Definition FindLast (ns : list Node) (max_height : nat) : option nat :=
  FindLast_loop (search_fuel ns) ns head_ (max_height - 1).

(** The two stores of a round of the linking loop of [Insert]: the new node's
    link, [x->NoBarrier_SetNext(i, prev[i]->NoBarrier_Next(i))], and the
    publication in its predecessor, [prev[i]->SetNext(i, x)]. *)
Definition own_link (prev : list (option nat)) (x i : nat) (ns : list Node) : list Node :=
  match prev !! i with Some (Some p) => node_SetNext ns x i (node_Next ns p i) | _ => ns end.
Definition publish_link (prev : list (option nat)) (x i : nat) (ns : list Node) : list Node :=
  match prev !! i with Some (Some p) => node_SetNext ns p i (Some x) | _ => ns end.

(** The stores of the loop in their order, and the effect of some stores. *)
Definition link_stores (prev : list (option nat)) (x height : nat) : list (list Node -> list Node) :=
  concat (map (fun i => [own_link prev x i; publish_link prev x i]) (seq 0 height)).
Definition run_stores (stores : list (list Node -> list Node)) (ns : list Node) : list Node := fold_left (fun ns store => store ns) stores ns.

(** [for (i = GetMaxHeight(); i < height; i++) prev[i] = head_] *)
Definition raise_prev (max_height height : nat) (prev : list (option nat)) : list (option nat) :=
  fold_left (fun prev i => <[i := Some head_]> prev) (seq max_height (height - max_height)) prev.

(** [NewNode].  The code leaves the links of the new node uninitialised; here
    they start null.  The invariant below says nothing about links that have
    not been set, and no search follows one. *)
Definition NewNode (key : K) (height : nat) (ns : list Node) : list Node :=
  ns ++ [mkNode key (replicate height None)].

Definition Insert (l : SkipList) (key : K) : option SkipList :=
  match FindGreaterOrEqual (nodes l) (max_height_ l) key with
  | None => None
  | Some (_, prev) =>
      let '(height, rnd) := RandomHeight (rnd_ l) in
      let prev := if (max_height_ l <? height)%nat then raise_prev (max_height_ l) height prev else prev in
      let mh := if (max_height_ l <? height)%nat then height else max_height_ l in
      let x := length (nodes l) in
      Some (mkSkipList (run_stores (link_stores prev x height) (NewNode key height (nodes l))) mh rnd)
  end.

Definition node_key_at (ns : list Node) (x : nat) : option K := node_key <$> ns !! x.

Definition Contains (l : SkipList) (key : K) : option bool :=
  match FindGreaterOrEqual (nodes l) (max_height_ l) key with
  | None => None
  | Some (Some x, _) =>
      match nodes l !! x with
      | Some nd => Some (match compare_ key (node_key nd) with Eq => true | _ => false end)
      | None => None
      end
  | Some (None, _) => Some false
  end.

(** ** Iterators: the current node, or null *)

Definition Iterator : Type := option nat.

Definition Iter_Valid (it : Iterator) : bool := match it with Some _ => true | None => false end.
Definition Iter_key (l : SkipList) (it : Iterator) : option K :=
  match it with Some x => node_key_at (nodes l) x | None => None end.
Definition Iter_Next (l : SkipList) (it : Iterator) : Iterator :=
  match it with Some x => node_Next (nodes l) x 0 | None => None end.
Definition Iter_Seek (l : SkipList) (target : K) : option Iterator :=
  fst <$> FindGreaterOrEqual (nodes l) (max_height_ l) target.
Definition Iter_SeekToFirst (l : SkipList) : Iterator := node_Next (nodes l) head_ 0.

(** [node_ = ...; if (node_ == list_->head_) node_ = nullptr;] *)
Definition not_head (x : nat) : Iterator := if (x =? head_)%nat then None else Some x.
Definition Iter_SeekToLast (l : SkipList) : option Iterator :=
  not_head <$> FindLast (nodes l) (max_height_ l).
Definition Iter_Prev (l : SkipList) (it : Iterator) : option Iterator :=
  match it with
  | Some x =>
      match node_key_at (nodes l) x with
      | Some k => not_head <$> FindLessThan (nodes l) (max_height_ l) k
      | None => None
      end
  | None => None
  end.

(** ** The invariant *)

(** [order] lists the nodes other than the head by increasing key; [h x] is
    the number of levels at which [x] is linked.  At each level [i], the link
    of a node linked there leads to the next node linked there. *)
Definition tall (h : nat -> nat) (i : nat) (y : nat) : bool := (i <? h y)%nat.

Record skip_inv (ns : list Node) (order : list nat) (h : nat -> nat) : Prop := {
  si_nodup : NoDup (head_ :: order);
  si_nodes : forall x, x ∈ head_ :: order -> exists nd, ns !! x = Some nd /\ (h x <= length (next_ nd))%nat;
  si_head : h head_ = kMaxHeight;
  si_tall : forall x, (h x <= kMaxHeight)%nat;
  si_sorted : StronglySorted (fun x y => exists kx ky, node_key_at ns x = Some kx /\
                node_key_at ns y = Some ky /\ compare_ kx ky = Lt) order;
  si_links : forall a x b i, head_ :: order = a ++ x :: b -> (i < h x)%nat ->
               node_Next ns x i = List.find (tall h i) b;
}.
End SkipList.

Arguments Node : clear implicits.
Arguments SkipList : clear implicits.

(** ** Generic facts *)

Lemma find_app {A} (f : A -> bool) a b :
  List.find f (a ++ b) = match List.find f a with Some y => Some y | None => List.find f b end.
Proof. induction a as [|x a IH]; simpl; [done|]. by destruct (f x). Qed.

Lemma find_split {A} (f : A -> bool) l y :
  List.find f l = Some y -> exists l1 l2, l = l1 ++ y :: l2 /\ f y = true /\ List.find f l1 = None.
Proof.
  induction l as [|x l IH]; simpl; [done|]. destruct (f x) eqn:E.
  - intros [= ->]. by exists [], l.
  - intros H. destruct (IH H) as (l1 & l2 & -> & ? & ?). exists (x :: l1), l2. simpl. by rewrite E.
Qed.

Lemma find_none {A} (f : A -> bool) l : List.find f l = None <-> forall x, x ∈ l -> f x = false.
Proof.
  split.
  - intros H x Hx. apply (List.find_none _ _ H). by apply list_elem_of_In.
  - intros H. destruct (List.find f l) eqn:E; [|done]. apply List.find_some in E as [Hin Hf].
    rewrite H in Hf; [done|]. by apply list_elem_of_In.
Qed.

Lemma find_ext {A} (f g : A -> bool) l :
  (forall x, x ∈ l -> f x = g x) -> List.find f l = List.find g l.
Proof.
  induction l as [|x l IH]; simpl; intros H; [done|]. rewrite (H x) by set_solver.
  destruct (g x); [done|]. apply IH. set_solver.
Qed.

Lemma StronglySorted_weaken {A} (R S : A -> A -> Prop) l :
  StronglySorted R l -> (forall x y, x ∈ l -> y ∈ l -> R x y -> S x y) -> StronglySorted S l.
Proof.
  induction 1 as [|x l Hl IH Hx]; intros HRS; constructor.
  - apply IH. intros y z Hy Hz. apply HRS; set_solver.
  - apply Forall_forall. intros y Hy. rewrite Forall_forall in Hx. apply HRS; [set_solver..|].
    by apply Hx.
Qed.

(** A list without duplicates splits at an element in one way. *)
Lemma nodup_split {A} (a1 b1 a2 b2 : list A) x :
  NoDup (a1 ++ x :: b1) -> a1 ++ x :: b1 = a2 ++ x :: b2 -> a1 = a2 /\ b1 = b2.
Proof.
  revert a2. induction a1 as [|y a1 IH]; intros [|z a2] Hnd E; simpl in *; simplify_eq.
  - done.
  - apply NoDup_cons in Hnd as [Hn _]. set_solver.
  - apply NoDup_cons in Hnd as [Hn _]. set_solver.
  - apply NoDup_cons in Hnd as [_ Hnd]. destruct (IH a2 Hnd) as [-> ->]; done.
Qed.

Section SkipListProofs.
Context {K : Type} (compare_ : K -> K -> comparison).

(** What the searches and the insertion need of the order. *)
Class KeyOrder := {
  ko_antisym a b : compare_ b a = CompOpp (compare_ a b);
  ko_lt_trans a b c : compare_ a b = Lt -> compare_ b c = Lt -> compare_ a c = Lt;
  ko_eq_l a b c : compare_ a b = Eq -> compare_ a c = compare_ b c;
}.
Context {KO : KeyOrder}.

(** The node's key is below [key]. *)
Definition below (ns : list (Node K)) (key : K) (x : nat) : bool := KeyIsAfterNode compare_ ns key (Some x).

Lemma below_iff ns key x :
  below ns key x = true <-> exists k, node_key_at ns x = Some k /\ compare_ k key = Lt.
Proof.
  unfold below, KeyIsAfterNode, node_key_at.
  destruct (ns !! x) as [nd|]; simpl; [|split; [done|by intros (? & ? & _)]]. split.
  - destruct (compare_ (node_key nd) key) eqn:E; [done| |done]. intros _. by exists (node_key nd).
  - intros (k & [= <-] & ->). done.
Qed.

(** [pre] are the nodes below [key], [post] the others. *)
Definition cut (ns : list (Node K)) (key : K) (pre post : list nat) : Prop :=
  (forall x, x ∈ pre -> below ns key x = true) /\ (forall x, x ∈ post -> below ns key x = false).

Lemma cut_exists ns order h key :
  skip_inv compare_ ns order h -> exists pre post, order = pre ++ post /\ cut ns key pre post.
Proof.
  intros [_ _ _ _ Hs _]. induction order as [|x order IH].
  - exists [], []. split; [done|]. split; set_solver.
  - apply StronglySorted_inv in Hs as [Hs Hx]. destruct (below ns key x) eqn:E.
    + destruct (IH Hs) as (pre & post & -> & H1 & H2). exists (x :: pre), post. split; [done|].
      split; [|done]. intros y [->|Hy]%elem_of_cons; auto.
    + exists [], (x :: order). split; [done|]. split; [set_solver|].
      intros y [->|Hy]%elem_of_cons; [done|]. rewrite Forall_forall in Hx.
      destruct (Hx y Hy) as (kx & ky & Hkx & Hky & Hlt).
      destruct (below ns key y) eqn:Ey; [|done]. apply below_iff in Ey as (k & Hk & Hky2).
      rewrite Hky in Hk. injection Hk as <-.
      assert (below ns key x = true); [|congruence]. apply below_iff. exists kx. split; [done|].
      by eapply ko_lt_trans.
Qed.

(** [p] is the last node before the cut that is linked at level [i]. *)
Definition prev_ok (h : nat -> nat) (pre : list nat) (i p : nat) : Prop :=
  exists l1 l2, head_ :: pre = l1 ++ p :: l2 /\ (i < h p)%nat /\ List.find (tall h i) l2 = None.

Lemma FindGreaterOrEqual_loop_spec ns order h key pre post fuel x level prev l1 l2 :
  skip_inv compare_ ns order h -> order = pre ++ post -> cut ns key pre post ->
  head_ :: pre = l1 ++ x :: l2 -> (level < h x)%nat -> (length l2 + level < fuel)%nat ->
  (level < length prev)%nat ->
  exists prev', FindGreaterOrEqual_loop compare_ fuel ns key x level prev
                = Some (List.find (tall h 0) post, prev') /\
    length prev' = length prev /\
    (forall i, (i <= level)%nat -> exists p, prev' !! i = Some (Some p) /\ prev_ok h pre i p) /\
    (forall i, (level < i)%nat -> prev' !! i = prev !! i).
Proof.
  intros Hinv Hord [Hpre Hpost]. revert x level prev l1 l2.
  induction fuel as [|f IH]; intros x level prev l1 l2 Hsp Hlev Hfuel Hlen; [lia|].
  cbn [FindGreaterOrEqual_loop].
  assert (Hnext : node_Next ns x level = List.find (tall h level) (l2 ++ post)).
  { eapply (si_links _ _ _ _ Hinv l1); [|done]. rewrite Hord. rewrite app_comm_cons, Hsp, <- app_assoc. done. }
  rewrite Hnext, find_app. destruct (List.find (tall h level) l2) as [y|] eqn:Ey.
  - apply find_split in Ey as (l2a & l2b & -> & Hty & _). apply Nat.ltb_lt in Hty.
    assert (Hy : y ∈ pre).
    { assert (Hin : y ∈ head_ :: pre) by (rewrite Hsp; set_solver).
      apply elem_of_cons in Hin as [->|]; [|done]. exfalso.
      destruct Hinv as [Hnd _ _ _ _ _]. rewrite Hord, app_comm_cons, Hsp in Hnd.
      destruct l1 as [|z l1]; injection Hsp as E1 E2.
      - subst x. apply NoDup_app in Hnd as [Hnd _]. apply NoDup_cons in Hnd as [Hnd _]. set_solver.
      - subst z. simpl in Hnd. apply NoDup_cons in Hnd as [Hnd _]. set_solver. }
    specialize (Hpre y Hy). unfold below in Hpre. rewrite Hpre.
    destruct (IH y level prev (l1 ++ x :: l2a) l2b) as (prev' & H1 & H2 & H3 & H4).
    + rewrite Hsp, <- app_assoc. done.
    + done.
    + rewrite length_app in Hfuel. simpl in Hfuel. lia.
    + done.
    + exists prev'. done.
  - assert (Hno : KeyIsAfterNode compare_ ns key (List.find (tall h level) post) = false).
    { destruct (List.find (tall h level) post) as [y|] eqn:Ey2; [|done].
      apply find_split in Ey2 as (a & b & -> & _ & _). apply Hpost. set_solver. }
    rewrite Hno. assert (Hp : prev_ok h pre level x) by (exists l1, l2; done).
    destruct level as [|level].
    + eexists. split; [reflexivity|]. rewrite length_insert. split; [done|]. split.
      * intros i Hi. assert (i = 0)%nat as -> by lia. exists x. split; [|done].
        apply list_lookup_insert_eq. lia.
      * intros i Hi. apply list_lookup_insert_ne. lia.
    + destruct (IH x level (<[S level := Some x]> prev) l1 l2) as (prev' & H1 & H2 & H3 & H4);
        [done|lia|lia|rewrite length_insert; lia|].
      exists prev'. rewrite length_insert in H2. split; [done|]. split; [done|]. split.
      * intros i Hi. destruct (Nat.eq_dec i (S level)) as [->|]; [|apply H3; lia].
        exists x. split; [|done]. rewrite H4 by lia. apply list_lookup_insert_eq. lia.
      * intros i Hi. rewrite H4 by lia. apply list_lookup_insert_ne. lia.
Qed.

Lemma order_length ns order h : skip_inv compare_ ns order h -> (length order < length ns)%nat.
Proof.
  intros [Hnd Hno _ _ _ _]. apply (Nat.le_trans _ (length (head_ :: order))); [done|].
  rewrite <- (length_seq (length ns) 0). apply NoDup_incl_length.
  - apply NoDup_ListNoDup in Hnd. done.
  - intros x Hx%list_elem_of_In. apply Hno in Hx as (nd & Hx & _). apply lookup_lt_Some in Hx.
    apply in_seq. lia.
Qed.

Lemma FindGreaterOrEqual_spec ns order h key mh :
  skip_inv compare_ ns order h -> (1 <= mh <= kMaxHeight)%nat ->
  exists pre post prev, order = pre ++ post /\ cut ns key pre post /\
    FindGreaterOrEqual compare_ ns mh key = Some (List.find (tall h 0) post, prev) /\
    length prev = kMaxHeight /\
    (forall i, (i < mh)%nat -> exists p, prev !! i = Some (Some p) /\ prev_ok h pre i p).
Proof.
  intros Hinv Hmh. destruct (cut_exists ns order h key Hinv) as (pre & post & -> & Hcut).
  destruct (FindGreaterOrEqual_loop_spec ns (pre ++ post) h key pre post (search_fuel ns) head_ (mh - 1)
    (replicate kMaxHeight None) [] pre Hinv eq_refl Hcut) as (prev & H1 & H2 & H3 & _).
  - done.
  - rewrite (si_head _ _ _ _ Hinv). lia.
  - pose proof (order_length _ _ _ Hinv) as Hl. rewrite length_app in Hl. unfold search_fuel. lia.
  - rewrite length_replicate. lia.
  - exists pre, post, prev. split; [done|]. split; [done|]. split; [done|].
    rewrite length_replicate in H2. split; [done|]. intros i Hi. apply H3. lia.
Qed.

(** ** Links *)

Lemma node_Next_SetNext (ns : list (Node K)) x i q y j nd :
  ns !! x = Some nd -> (i < length (next_ nd))%nat ->
  node_Next (node_SetNext ns x i q) y j = if decide (y = x /\ j = i) then q else node_Next ns y j.
Proof.
  intros Hx Hi. unfold node_Next, node_SetNext. destruct (decide (y = x)) as [->|Hne].
  - rewrite list_lookup_alter_eq, Hx. simpl. destruct (decide (x = x /\ j = i)) as [[_ ->]|Hn].
    + by rewrite list_lookup_insert_eq.
    + rewrite list_lookup_insert_ne; [done|]. intros ->. by apply Hn.
  - rewrite list_lookup_alter_ne by done.
    destruct (decide (y = x /\ j = i)) as [[]|]; [|done]. by destruct Hne.
Qed.

Lemma node_SetNext_lookup (ns : list (Node K)) x i q y nd' :
  node_SetNext ns x i q !! y = Some nd' ->
  exists nd, ns !! y = Some nd /\ node_key nd = node_key nd' /\ length (next_ nd) = length (next_ nd').
Proof.
  unfold node_SetNext. destruct (decide (y = x)) as [->|].
  - rewrite list_lookup_alter_eq. destruct (ns !! x) as [nd|]; [|done]. intros [= <-].
    exists nd. simpl. by rewrite length_insert.
  - rewrite list_lookup_alter_ne by done. intros ->. by exists nd'.
Qed.

Lemma node_SetNext_lookup' (ns : list (Node K)) x i q y nd :
  ns !! y = Some nd ->
  exists nd', node_SetNext ns x i q !! y = Some nd' /\ node_key nd = node_key nd' /\
    length (next_ nd) = length (next_ nd').
Proof.
  intros Hy. unfold node_SetNext. destruct (decide (y = x)) as [->|].
  - rewrite list_lookup_alter_eq, Hy. eexists. split; [reflexivity|]. simpl. by rewrite length_insert.
  - rewrite list_lookup_alter_ne by done. by exists nd.
Qed.

Lemma node_SetNext_length ns x i q : length (@node_SetNext K ns x i q) = length ns.
Proof. apply length_alter. Qed.

Lemma node_key_at_SetNext ns x i q y : node_key_at (node_SetNext ns x i q) y = @node_key_at K ns y.
Proof.
  unfold node_key_at. destruct (ns !! y) as [nd|] eqn:E.
  - destruct (node_SetNext_lookup' ns x i q y nd E) as (nd' & -> & Hk & _). simpl. by rewrite Hk.
  - destruct (node_SetNext ns x i q !! y) as [nd'|] eqn:E2; [|done].
    destruct (node_SetNext_lookup _ _ _ _ _ _ E2) as (nd & ? & _). congruence.
Qed.

(** A round, and the rounds of the loop. *)
Definition link_level (prev : list (option nat)) (x i : nat) (ns : list (Node K)) : list (Node K) := publish_link prev x i (own_link prev x i ns).
Definition link_levels (prev : list (option nat)) (x height : nat) (ns : list (Node K)) : list (Node K) :=
  fold_left (fun ns i => link_level prev x i ns) (seq 0 height) ns.

(** The first stores are whole rounds, and perhaps the first of the next. *)
Lemma stores_levels prev x height j ns : (j <= height)%nat ->
  run_stores (take (2 * j) (link_stores prev x height)) ns = link_levels prev x j ns /\
  ((j < height)%nat -> run_stores (take (2 * j + 1) (link_stores prev x height)) ns = own_link prev x j (link_levels prev x j ns)).
Proof.
  unfold link_stores, link_levels. intros Hj. replace height with (j + (height - j))%nat by lia. rewrite seq_app, map_app, concat_app. cbn [Nat.add].
  assert (Hlen : forall l : list nat, length (concat (map (fun i => [own_link prev x i; publish_link prev x i]) l) : list (list (Node K) -> list (Node K))) = (2 * length l)%nat).
  { induction l as [|i l IH]; [done|]. cbn [map concat]. rewrite length_app, IH. cbn. lia. }
  assert (Hrun : forall (l : list nat) ns, run_stores (concat (map (fun i => [own_link prev x i; publish_link prev x i]) l)) ns = fold_left (fun ns i => link_level prev x i ns) l ns).
  { induction l as [|i l IH]; intros ns0; [done|]. cbn [map concat app run_stores fold_left]. apply IH. }
  specialize (Hlen (seq 0 j)). rewrite length_seq in Hlen. split.
  - rewrite take_app_length' by done. apply Hrun.
  - intros Hlt. destruct (height - j)%nat as [|d] eqn:Ed; [lia|]. cbn [seq map concat app].
    rewrite take_app_ge by lia. rewrite Hlen. replace (2 * j + 1 - 2 * j)%nat with 1%nat by lia. cbn [take].
    unfold run_stores in *. rewrite fold_left_app. cbn [fold_left]. f_equal. apply Hrun.
Qed.

Lemma link_stores_length prev x height : length (@link_stores K prev x height) = (2 * height)%nat.
Proof.
  unfold link_stores. transitivity (2 * length (seq 0 height))%nat; [|by rewrite length_seq].
  induction (seq 0 height) as [|i l IH]; [done|]. cbn [map concat]. rewrite length_app, IH. cbn. lia.
Qed.

Lemma stores_all prev x height (ns : list (Node K)) : run_stores (link_stores prev x height) ns = link_levels prev x height ns.
Proof.
  destruct (stores_levels prev x height height ns ltac:(lia)) as [<- _]. by rewrite take_ge by (rewrite link_stores_length; lia).
Qed.

Lemma link_level_keeps prev n i (ns : list (Node K)) y nd :
  ns !! y = Some nd ->
  exists nd', link_level prev n i ns !! y = Some nd' /\ node_key nd = node_key nd' /\
    length (next_ nd) = length (next_ nd').
Proof.
  intros Hy. unfold link_level, publish_link, own_link. destruct (prev !! i) as [[p|]|]; [|by exists nd..].
  destruct (node_SetNext_lookup' ns n i (node_Next ns p i) y nd Hy) as (nd1 & H1 & Hk1 & Hl1).
  destruct (node_SetNext_lookup' _ p i (Some n) y nd1 H1) as (nd2 & H2 & Hk2 & Hl2).
  exists nd2. split; [done|]. split; congruence.
Qed.

Lemma link_level_key_at prev n i ns y : node_key_at (link_level prev n i ns) y = @node_key_at K ns y.
Proof.
  unfold link_level, publish_link, own_link. destruct (prev !! i) as [[p|]|]; [|done..].
  by rewrite !node_key_at_SetNext.
Qed.

(** The number of linked levels of [n] set to [j]. *)
Definition with_height (h : nat -> nat) (n j : nat) : nat -> nat := fun x => if (x =? n)%nat then j else h x.

Lemma with_height_eq h n j : with_height h n j n = j.
Proof. unfold with_height. by rewrite Nat.eqb_refl. Qed.
Lemma with_height_ne h n j x : x <> n -> with_height h n j x = h x.
Proof. intros. unfold with_height. by rewrite (proj2 (Nat.eqb_neq _ _)). Qed.

Lemma find_with_height h n j i l :
  n ∉ l -> List.find (tall (with_height h n j) i) l = List.find (tall h i) l.
Proof. intros Hn. apply find_ext. intros x Hx. unfold tall. rewrite with_height_ne; [done|]. by intros ->. Qed.

(** The heart of an insertion: one more level of [n] is published. *)
Lemma link_level_inv ns pre n post h i prev p nd :
  skip_inv compare_ ns (pre ++ n :: post) h -> h n = i -> (i < kMaxHeight)%nat ->
  ns !! n = Some nd -> (i < length (next_ nd))%nat ->
  prev !! i = Some (Some p) -> prev_ok h pre i p ->
  skip_inv compare_ (link_level prev n i ns) (pre ++ n :: post) (with_height h n (S i)).
Proof.
  intros [Hnd Hno Hhd Htl Hso Hli] Hhn Hi Hn Hin Hprev (l1 & l2 & Hsp & Hpt & Hl2).
  assert (Hn0 : n ∉ head_ :: pre /\ n ∉ post).
  { rewrite app_comm_cons in Hnd. apply NoDup_app in Hnd as (_ & Hd & Hnd2).
    apply NoDup_cons in Hnd2 as [Hnd2 _]. split; [|done]. intros Hx. apply (Hd n Hx). set_solver. }
  destruct Hn0 as [Hn0 Hn1].
  assert (Hpn : p <> n) by (intros ->; apply Hn0; rewrite Hsp; set_solver).
  assert (Hp : exists ndp, ns !! p = Some ndp /\ (h p <= length (next_ ndp))%nat).
  { apply Hno. apply elem_of_cons. rewrite elem_of_app.
    assert (Hpp : p ∈ head_ :: pre) by (rewrite Hsp; set_solver). set_solver. }
  destruct Hp as (ndp & Hp & Hpl).
  assert (Hnext : forall y j, node_Next (link_level prev n i ns) y j =
    if decide (y = p /\ j = i) then Some n
    else if decide (y = n /\ j = i) then node_Next ns p i else node_Next ns y j).
  { intros y j. unfold link_level, publish_link, own_link. rewrite Hprev.
    destruct (node_SetNext_lookup' ns n i (node_Next ns p i) p ndp Hp) as (ndp' & Hp' & _ & Hl').
    rewrite (node_Next_SetNext _ p i (Some n) y j ndp' Hp') by lia.
    by rewrite (node_Next_SetNext _ n i _ y j nd Hn). }
  split; [done| | | | |].
  - intros x Hx. destruct (Hno x Hx) as (ndx & Hxx & Hxl).
    destruct (link_level_keeps prev n i ns x ndx Hxx) as (nd' & ? & _ & Hl'). exists nd'. split; [done|].
    destruct (decide (x = n)) as [->|]; [|rewrite with_height_ne by done; lia].
    rewrite with_height_eq. rewrite Hn in Hxx. injection Hxx as <-. lia.
  - rewrite with_height_ne; [done|]. intros <-. apply Hn0. set_solver.
  - intros x. destruct (decide (x = n)) as [->|]; [rewrite with_height_eq; lia|].
    rewrite with_height_ne by done. apply Htl.
  - apply (StronglySorted_weaken _ _ _ Hso). intros x y _ _ H. by rewrite !link_level_key_at.
  - intros a x b j Hab Hj. rewrite Hnext. pose proof Hnd as Hnd2. rewrite Hab in Hnd2.
    destruct (decide (x = p /\ j = i)) as [[-> ->]|Hne1].
    { (* the predecessor *)
      assert (Hab' : a ++ p :: b = l1 ++ p :: l2 ++ n :: post)
        by (rewrite <- Hab, app_comm_cons, Hsp, <- app_assoc; done).
      destruct (nodup_split _ _ _ _ _ Hnd2 Hab') as [-> ->].
      rewrite find_app, (find_with_height h n (S i) i l2), Hl2 by (intros Hx; apply Hn0; rewrite Hsp; set_solver).
      simpl. unfold tall. by rewrite with_height_eq, (proj2 (Nat.ltb_lt _ _)) by lia. }
    destruct (decide (x = n /\ j = i)) as [[-> ->]|Hne2].
    { (* the new node *)
      assert (Hab' : a ++ n :: b = (head_ :: pre) ++ n :: post) by (by rewrite <- Hab).
      destruct (nodup_split _ _ _ _ _ Hnd2 Hab') as [-> ->].
      rewrite find_with_height by done.
      rewrite (Hli l1 p (l2 ++ n :: post) i) by (done || (rewrite app_comm_cons, Hsp, <- app_assoc; done)).
      rewrite find_app, Hl2. simpl. unfold tall at 1. by rewrite (proj2 (Nat.ltb_ge _ _)) by lia. }
    destruct (decide (x = n)) as [->|Hxn].
    { (* lower links of the new node *)
      rewrite with_height_eq in Hj. assert (Hab' : a ++ n :: b = (head_ :: pre) ++ n :: post) by (by rewrite <- Hab).
      destruct (nodup_split _ _ _ _ _ Hnd2 Hab') as [-> ->].
      rewrite find_with_height by done. apply (Hli (head_ :: pre)); [done|].
      assert (j <> i) by naive_solver. lia. }
    rewrite with_height_ne in Hj by done. rewrite (Hli a x b j Hab Hj).
    destruct (decide (n ∈ b)) as [Hb|Hb]; [|by rewrite find_with_height].
    apply list_elem_of_split in Hb as (b1 & b2 & ->).
    assert (Hab' : (a ++ x :: b1) ++ n :: b2 = (head_ :: pre) ++ n :: post)
      by (rewrite <- app_assoc; simpl; by rewrite <- Hab).
    rewrite app_comm_cons, app_assoc in Hnd2.
    destruct (nodup_split _ _ _ _ _ Hnd2 Hab') as [Ha ->].
    assert (Hnb1 : n ∉ b1) by (intros Hx; apply Hn0; rewrite <- Ha; set_solver).
    rewrite !find_app, (find_with_height h n (S i) j b1) by done.
    destruct (List.find (tall h j) b1) eqn:Eb1; [done|]. simpl. unfold tall at 1 3.
    rewrite with_height_eq, Hhn. destruct (Nat.ltb_spec j i), (Nat.ltb_spec j (S i)); try lia; [done| |].
    2: { by rewrite find_with_height. }
    exfalso. assert (j = i) as -> by lia. assert (Hxp : x <> p) by naive_solver.
    (* x is before the cut, linked at level i, and not the predecessor *)
    assert (Hpin : p ∈ a \/ p ∈ b1).
    { assert (Hpp : p ∈ a ++ x :: b1) by (rewrite Ha, Hsp; set_solver). set_solver. }
    destruct Hpin as [Hpa|Hpb].
    + apply list_elem_of_split in Hpa as (a1 & a2 & ->).
      assert (Hs2 : a1 ++ p :: (a2 ++ x :: b1) = l1 ++ p :: l2).
      { rewrite <- Hsp, <- Ha, <- app_assoc. done. }
      assert (Hnd3 : NoDup (a1 ++ p :: (a2 ++ x :: b1))).
      { rewrite app_comm_cons in Hnd. apply NoDup_app in Hnd as [Hnd _].
        rewrite <- Ha in Hnd. rewrite <- app_assoc in Hnd. done. }
      destruct (nodup_split _ _ _ _ _ Hnd3 Hs2) as [_ <-].
      rewrite find_none in Hl2. specialize (Hl2 x ltac:(set_solver)). unfold tall in Hl2.
      apply Nat.ltb_ge in Hl2. lia.
    + rewrite find_none in Eb1. specialize (Eb1 p Hpb). unfold tall in Eb1. apply Nat.ltb_ge in Eb1. lia.
Qed.

(** A node's own link at a level where it is not linked yet does not show. *)
Lemma own_link_inv ns order h prev n i nd :
  skip_inv compare_ ns order h -> h n = i -> ns !! n = Some nd -> (i < length (next_ nd))%nat ->
  skip_inv compare_ (own_link prev n i ns) order h /\ (forall y, node_key_at (own_link prev n i ns) y = node_key_at ns y).
Proof.
  intros Hinv Hh Hn Hi. unfold own_link. destruct (prev !! i) as [[p|]|]; [|by split..]. split; [|intros y; apply node_key_at_SetNext].
  destruct Hinv as [Hnd Hno Hhd Htl Hso Hli]. split; [done| |done|done| |].
  - intros x Hx. destruct (Hno x Hx) as (ndx & Hxx & Hxl). destruct (node_SetNext_lookup' ns n i (node_Next ns p i) x ndx Hxx) as (nd' & -> & _ & Hl).
    exists nd'. split; [done|lia].
  - apply (StronglySorted_weaken _ _ _ Hso). intros x y _ _ H. by rewrite !node_key_at_SetNext.
  - intros a x b j Hab Hj. rewrite (node_Next_SetNext _ _ _ _ _ _ nd Hn Hi). rewrite decide_False; [by apply (Hli a)|]. intros [-> ->]. lia.
Qed.

(** ** Insertion *)

(** [key] equals the key of no node. *)
Definition absent (ns : list (Node K)) (order : list nat) (key : K) : Prop :=
  forall x k, x ∈ order -> node_key_at ns x = Some k -> compare_ key k <> Eq.

Lemma node_key_at_NewNode_old key height ns x :
  (x < length ns)%nat -> node_key_at (NewNode key height ns) x = @node_key_at K ns x.
Proof. intros Hx. unfold node_key_at, NewNode. by rewrite lookup_app_l. Qed.

Lemma node_key_at_NewNode_new key height ns :
  node_key_at (NewNode key height ns) (length ns) = @Some K key.
Proof. unfold node_key_at, NewNode. by rewrite list_lookup_middle. Qed.

Lemma sorted_insert ns pre post n key :
  let lt := fun x y => exists kx ky, node_key_at ns x = Some kx /\
                node_key_at ns y = Some ky /\ compare_ kx ky = Lt in
  StronglySorted lt (pre ++ post) -> node_key_at ns n = Some key ->
  (forall x, x ∈ pre -> exists k, node_key_at ns x = Some k /\ compare_ k key = Lt) ->
  (forall x, x ∈ post -> exists k, node_key_at ns x = Some k /\ compare_ key k = Lt) ->
  StronglySorted lt (pre ++ n :: post).
Proof.
  intros lt Hs Hn Hpre Hpost. induction pre as [|x pre IH]; simpl in *.
  - constructor; [done|]. apply Forall_forall. intros y Hy. destruct (Hpost y Hy) as (k & Hk & Hlt).
    by exists key, k.
  - apply StronglySorted_inv in Hs as [Hs Hx]. constructor.
    + apply IH; [done|]. intros y Hy. apply Hpre. set_solver.
    + rewrite Forall_app in Hx |- *. destruct Hx as [Hx1 Hx2]. split; [done|]. constructor; [|done].
      destruct (Hpre x ltac:(set_solver)) as (k & Hk & Hlt). by exists k, key.
Qed.

Lemma NewNode_inv ns pre post h key height :
  skip_inv compare_ ns (pre ++ post) h -> cut ns key pre post -> absent ns (pre ++ post) key ->
  skip_inv compare_ (NewNode key height ns) (pre ++ length ns :: post) (with_height h (length ns) 0).
Proof.
  intros [Hnd Hno Hhd Htl Hso Hli] [Hpre Hpost] Habs. set (n := length ns).
  assert (Hlt : forall x, x ∈ head_ :: pre ++ post -> (x < n)%nat).
  { intros x Hx. destruct (Hno x Hx) as (nd & Hnx & _). by apply lookup_lt_Some in Hnx. }
  assert (Hnn : n ∉ head_ :: pre ++ post) by (intros Hx; specialize (Hlt n Hx); lia).
  assert (Hkey : forall x, x ∈ pre ++ post -> node_key_at (NewNode key height ns) x = node_key_at ns x)
    by (intros x Hx; apply node_key_at_NewNode_old, Hlt; set_solver).
  split.
  - rewrite app_comm_cons. apply NoDup_app. rewrite app_comm_cons in Hnd.
    apply NoDup_app in Hnd as (H1 & H2 & H3). split; [done|]. split.
    + intros x Hx [->|Hx2]%elem_of_cons; [set_solver|by apply (H2 x)].
    + apply NoDup_cons. split; [set_solver|done].
  - intros x Hx. destruct (decide (x = n)) as [->|Hne].
    + exists (mkNode key (replicate height None)). unfold NewNode. rewrite list_lookup_middle by done.
      split; [done|]. rewrite with_height_eq. lia.
    + destruct (Hno x) as (nd & Hnx & Hl); [set_solver|]. exists nd. rewrite with_height_ne by done.
      unfold NewNode. rewrite lookup_app_l; [done|]. by apply lookup_lt_Some in Hnx.
  - rewrite with_height_ne; [done|]. intros <-. set_solver.
  - intros x. destruct (decide (x = n)) as [->|]; [rewrite with_height_eq; lia|].
    rewrite with_height_ne by done. apply Htl.
  - apply (sorted_insert _ pre post n key).
    + apply (StronglySorted_weaken _ _ _ Hso). intros x y Hx Hy H. by rewrite !Hkey.
    + apply node_key_at_NewNode_new.
    + intros x Hx. rewrite Hkey by set_solver. apply below_iff, Hpre, Hx.
    + intros x Hx. rewrite Hkey by set_solver.
      destruct (Hno x ltac:(set_solver)) as (nd & Hnx & _).
      exists (node_key nd). unfold node_key_at. rewrite Hnx. split; [done|].
      specialize (Hpost x Hx). unfold below, KeyIsAfterNode in Hpost. rewrite Hnx in Hpost.
      assert (Hk : compare_ key (node_key nd) <> Eq).
      { apply (Habs x); [set_solver|]. unfold node_key_at. by rewrite Hnx. }
      rewrite ko_antisym in Hpost. destruct (compare_ key (node_key nd)); done.
  - intros a x b i Hab Hi.
    assert (Hxn : x <> n) by (intros ->; rewrite with_height_eq in Hi; lia).
    rewrite with_height_ne in Hi by done.
    assert (Hold : node_Next (NewNode key height ns) x i = node_Next ns x i).
    { unfold node_Next, NewNode. rewrite lookup_app_l; [done|]. apply Hlt.
      assert (Hx : x ∈ head_ :: pre ++ n :: post) by (rewrite Hab; set_solver). set_solver. }
    rewrite Hold. assert (Hnew : NoDup ((head_ :: pre) ++ n :: post)).
    { apply NoDup_app. rewrite app_comm_cons in Hnd. apply NoDup_app in Hnd as (H1 & H2 & H3).
      split; [done|]. split; [|apply NoDup_cons; split; [set_solver|done]].
      intros y Hy [->|Hy2]%elem_of_cons; [set_solver|by apply (H2 y)]. }
    destruct (decide (n ∈ b)) as [Hb|Hb].
    + apply list_elem_of_split in Hb as (b1 & b2 & ->).
      assert (Hs2 : (head_ :: pre) ++ n :: post = (a ++ x :: b1) ++ n :: b2)
        by (rewrite <- app_assoc; exact Hab).
      destruct (nodup_split _ _ _ _ _ Hnew Hs2) as [Ha <-].
      rewrite (Hli a x (b1 ++ post) i); [|by rewrite app_comm_cons, Ha, <- app_assoc|done].
      assert (Hnb : n ∉ b1) by (intros Hx; apply Hnn; rewrite app_comm_cons, Ha; set_solver).
      rewrite !find_app, (find_with_height h n 0 i b1) by done.
      destruct (List.find (tall h i) b1); [done|]. simpl. unfold tall at 2.
      rewrite with_height_eq. simpl. rewrite find_with_height; [done|]. set_solver.
    + rewrite find_with_height by done.
      assert (Hna : n ∈ a).
      { assert (Hin : n ∈ a ++ x :: b) by (rewrite <- Hab; set_solver). set_solver. }
      apply list_elem_of_split in Hna as (a1 & a2 & ->).
      assert (Hs2 : (head_ :: pre) ++ n :: post = a1 ++ n :: (a2 ++ x :: b))
        by (by rewrite <- app_assoc in Hab).
      destruct (nodup_split _ _ _ _ _ Hnew Hs2) as [<- ->].
      apply (Hli ((head_ :: pre) ++ a2) x b i); [|done]. by rewrite <- app_assoc.
Qed.

(** Every prefix of the linking loop leaves a skip list in which the new node
    has as many levels as were linked. *)
Lemma link_levels_inv ns pre post h n height prev j nd :
  skip_inv compare_ ns (pre ++ n :: post) h -> h n = 0%nat ->
  ns !! n = Some nd -> length (next_ nd) = height -> (height <= kMaxHeight)%nat -> (j <= height)%nat ->
  (forall i, (i < height)%nat -> exists p, prev !! i = Some (Some p) /\ prev_ok h pre i p) ->
  skip_inv compare_ (link_levels prev n j ns) (pre ++ n :: post) (with_height h n j) /\
  exists nd', link_levels prev n j ns !! n = Some nd' /\ length (next_ nd') = height.
Proof.
  intros Hinv Hhn Hn Hlen Hmax Hj Hprev. induction j as [|j IH].
  - change (link_levels prev n 0 ns) with ns.
    split; [|by exists nd]. destruct Hinv as [H1 H2 H3 H4 H5 H6].
    assert (Hh : forall x, with_height h n 0 x = h x)
      by (intros x; unfold with_height; destruct (Nat.eqb_spec x n) as [->|]; done).
    split; [done|..].
    + intros x Hx. rewrite Hh. by apply H2.
    + by rewrite Hh.
    + intros x. by rewrite Hh.
    + done.
    + intros a x b i Hab Hi. rewrite Hh in Hi. rewrite (H6 a x b i Hab Hi). apply find_ext.
      intros y _. unfold tall. by rewrite Hh.
  - destruct IH as [IH (nd' & Hnd' & Hl')]; [lia|].
    unfold link_levels. rewrite seq_S, fold_left_app. simpl.
    change (fold_left _ (seq 0 j) ns) with (link_levels prev n j ns).
    destruct (Hprev j ltac:(lia)) as (p & Hp & Hpk).
    destruct (link_level_keeps prev n j _ n nd' Hnd') as (nd2 & Hnd2 & _ & Hl2).
    split; [|exists nd2; split; [done|congruence]].
    pose proof (link_level_inv _ pre n post _ j prev p nd' IH (with_height_eq _ _ _) ltac:(lia)
      Hnd' ltac:(lia) Hp) as Hinv2.
    assert (Hnp : n ∉ head_ :: pre).
    { destruct Hinv as [Hnd _ _ _ _ _]. rewrite app_comm_cons in Hnd.
      apply NoDup_app in Hnd as (_ & Hd & _). intros Hx. apply (Hd n Hx). set_solver. }
    destruct Hinv2 as [G1 G2 G3 G4 G5 G6].
    { destruct Hpk as (l1 & l2 & Hsp & Hpt & Hl2'). exists l1, l2. split; [done|].
      rewrite with_height_ne by (intros ->; apply Hnp; rewrite Hsp; set_solver). split; [done|].
      rewrite find_with_height; [done|]. intros Hx. apply Hnp. rewrite Hsp. set_solver. }
    assert (Hh : forall x, with_height (with_height h n j) n (S j) x = with_height h n (S j) x)
      by (intros x; unfold with_height; destruct (Nat.eqb_spec x n); done).
    split; [done|..].
    + intros x Hx. rewrite <- Hh. by apply G2.
    + by rewrite <- Hh.
    + intros x. by rewrite <- Hh.
    + done.
    + intros a x b i Hab Hi. rewrite <- Hh in Hi. rewrite (G6 a x b i Hab Hi). apply find_ext.
      intros y _. unfold tall. by rewrite Hh.
Qed.

Lemma link_levels_key_at prev n j ns y :
  node_key_at (link_levels prev n j ns) y = @node_key_at K ns y.
Proof.
  unfold link_levels. generalize (seq 0 j). intros l. revert ns.
  induction l as [|i l IH]; intros ns; simpl; [done|]. by rewrite IH, link_level_key_at.
Qed.

Lemma RandomHeight_loop_range fuel height rnd :
  (1 <= height <= kMaxHeight)%nat -> (1 <= (RandomHeight_loop fuel height rnd).1 <= kMaxHeight)%nat.
Proof.
  revert height rnd. induction fuel as [|f IH]; intros height rnd Hh; cbn [RandomHeight_loop]; [done|].
  destruct (Nat.ltb_spec height kMaxHeight); [|done].
  destruct (OneIn rnd kBranching) as [[] rnd']; [|done]. apply IH. lia.
Qed.

Lemma raise_prev_spec mh height prev i :
  length prev = kMaxHeight -> (mh <= height <= kMaxHeight)%nat ->
  length (raise_prev mh height prev) = kMaxHeight /\
  raise_prev mh height prev !! i =
    if decide (mh <= i < height)%nat then Some (Some head_) else prev !! i.
Proof.
  intros Hl Hh. unfold raise_prev.
  assert (Hgen : forall d s prev, length prev = kMaxHeight -> (s + d <= kMaxHeight)%nat ->
    length (fold_left (fun prev i => <[i := Some head_]> prev) (seq s d) prev) = kMaxHeight /\
    fold_left (fun prev i => <[i := Some head_]> prev) (seq s d) prev !! i =
    if decide (s <= i < s + d)%nat then Some (Some head_) else prev !! i).
  { induction d as [|d IH]; intros s pv Hpv Hd; simpl.
    - split; [done|]. rewrite decide_False by lia. done.
    - destruct (IH (S s) (<[s := Some head_]> pv)) as [H1 H2]; [by rewrite length_insert|lia|].
      split; [done|]. rewrite H2. destruct (decide (S s <= i < S s + d)%nat).
      + rewrite decide_True by lia. done.
      + destruct (decide (i = s)) as [->|].
        * rewrite decide_True by lia. apply list_lookup_insert_eq. lia.
        * rewrite decide_False by lia. by rewrite list_lookup_insert_ne. }
  destruct (Hgen (height - mh)%nat mh prev Hl ltac:(lia)) as [H1 H2]. split; [done|]. rewrite H2.
  destruct (decide (mh <= i < mh + (height - mh))%nat), (decide (mh <= i < height)%nat); try done; lia.
Qed.

(** ** The abstract view: the increasing sequence of the keys *)

Definition keys_at (ns : list (Node K)) (xs : list nat) (ks : list K) : Prop :=
  map (node_key_at ns) xs = map Some ks.

Record skip_repr (l : SkipList K) (ks : list K) : Prop := {
  sr_height : (1 <= max_height_ l <= kMaxHeight)%nat;
  sr_inv : exists order h, skip_inv compare_ (nodes l) order h /\
    (forall x, x ∈ order -> (1 <= h x <= max_height_ l)%nat) /\ keys_at (nodes l) order ks;
}.

Definition key_below (key k : K) : bool := match compare_ k key with Lt => true | _ => false end.

Lemma keys_at_split ns xs1 xs2 ks :
  keys_at ns (xs1 ++ xs2) ks -> exists ks1 ks2, ks = ks1 ++ ks2 /\ keys_at ns xs1 ks1 /\ keys_at ns xs2 ks2.
Proof.
  unfold keys_at. rewrite map_app. intros E. symmetry in E.
  exists (take (length xs1) ks), (drop (length xs1) ks). rewrite take_drop. split; [done|].
  assert (Hl : length (map (node_key_at ns) xs1) = length xs1) by apply length_map.
  split.
  - rewrite <- firstn_map, E, <- Hl. symmetry. apply take_app_exact.
  - rewrite <- skipn_map, E, <- Hl. symmetry. apply drop_app_exact.
Qed.

Lemma keys_at_elem ns xs ks x : keys_at ns xs ks -> x ∈ xs -> exists k, node_key_at ns x = Some k /\ k ∈ ks.
Proof.
  unfold keys_at. intros E Hx. assert (Hin : node_key_at ns x ∈ map Some ks).
  { rewrite <- E. apply list_elem_of_In, in_map, list_elem_of_In, Hx. }
  apply list_elem_of_In, in_map_iff in Hin as (k & <- & Hk). exists k. split; [done|].
  by apply list_elem_of_In.
Qed.

Lemma keys_at_elem' ns xs ks k : keys_at ns xs ks -> k ∈ ks -> exists x, node_key_at ns x = Some k /\ x ∈ xs.
Proof.
  unfold keys_at. intros E Hk. assert (Hin : Some k ∈ map (node_key_at ns) xs).
  { rewrite E. apply list_elem_of_In, in_map, list_elem_of_In, Hk. }
  apply list_elem_of_In, in_map_iff in Hin as (x & <- & Hx). exists x. split; [done|].
  by apply list_elem_of_In.
Qed.

Lemma cut_keys ns key pre post ks1 ks2 :
  cut ns key pre post -> keys_at ns pre ks1 -> keys_at ns post ks2 ->
  ks1 = List.filter (key_below key) (ks1 ++ ks2) /\
  ks2 = List.filter (fun k => negb (key_below key k)) (ks1 ++ ks2).
Proof.
  intros [H1 H2] K1 K2.
  assert (A1 : forall k, k ∈ ks1 -> key_below key k = true).
  { intros k Hk. destruct (keys_at_elem' _ _ _ _ K1 Hk) as (x & Hx & Hin).
    apply H1 in Hin. apply below_iff in Hin as (k' & Hk' & Hlt). unfold key_below.
    assert (k' = k) as -> by congruence. by rewrite Hlt. }
  assert (A2 : forall k, k ∈ ks2 -> key_below key k = false).
  { intros k Hk. destruct (keys_at_elem' _ _ _ _ K2 Hk) as (x & Hx & Hin).
    apply H2 in Hin. unfold key_below. destruct (compare_ k key) eqn:E; try done.
    assert (below ns key x = true); [|congruence]. apply below_iff. by exists k. }
  assert (F : forall (f : K -> bool) l, (forall k, k ∈ l -> f k = true) -> List.filter f l = l).
  { intros f. induction l as [|k l IH]; simpl; intros H; [done|]. rewrite H by set_solver.
    f_equal. apply IH. set_solver. }
  assert (G : forall (f : K -> bool) l, (forall k, k ∈ l -> f k = false) -> List.filter f l = []).
  { intros f. induction l as [|k l IH]; simpl; intros H; [done|]. rewrite H by set_solver.
    apply IH. set_solver. }
  rewrite !List.filter_app. rewrite (F (key_below key) ks1 A1), (G (key_below key) ks2 A2).
  rewrite (G (fun k => negb (key_below key k)) ks1), (F (fun k => negb (key_below key k)) ks2).
  - by rewrite app_nil_r.
  - intros k Hk. by rewrite A2.
  - intros k Hk. by rewrite A1.
Qed.

(** The keys after an insertion. *)
Definition insert_key (key : K) (ks : list K) : list K :=
  List.filter (key_below key) ks ++ key :: List.filter (fun k => negb (key_below key k)) ks.

Lemma find_tall_all h (xs : list nat) :
  (forall x, x ∈ xs -> (1 <= h x)%nat) -> List.find (tall h 0) xs = hd_error xs.
Proof.
  destruct xs as [|x xs]; simpl; [done|]. intros H. specialize (H x ltac:(set_solver)).
  unfold tall. by rewrite (proj2 (Nat.ltb_lt _ _)) by lia.
Qed.

(** The steps of an insertion, seen by a search that runs between them with
    any maximum height it may have read. *)
Lemma Insert_steps l ks key :
  skip_repr l ks -> (forall k, k ∈ ks -> compare_ key k <> Eq) ->
  exists x prev order h pre post height rnd,
    let prev' := if (max_height_ l <? height)%nat then raise_prev (max_height_ l) height prev else prev in
    let at_step j := link_levels prev' (length (nodes l)) j (NewNode key height (nodes l)) in
    FindGreaterOrEqual compare_ (nodes l) (max_height_ l) key = Some (x, prev) /\
    RandomHeight (rnd_ l) = (height, rnd) /\ (1 <= height <= kMaxHeight)%nat /\
    order = pre ++ length (nodes l) :: post /\
    (forall y, y ∈ pre ++ post -> (1 <= h y <= max_height_ l)%nat /\ y <> length (nodes l)) /\
    keys_at (nodes l) (pre ++ post) ks /\ cut (nodes l) key pre post /\
    forall j, (j <= height)%nat ->
      skip_inv compare_ (at_step j) order (with_height h (length (nodes l)) j) /\
      (forall y, y ∈ pre ++ post -> node_key_at (at_step j) y = node_key_at (nodes l) y) /\
      node_key_at (at_step j) (length (nodes l)) = Some key /\
      exists nd, at_step j !! length (nodes l) = Some nd /\ length (next_ nd) = height.
Proof.
  intros [Hmh (order & h & Hinv & Htall & Hkeys)] Habs.
  destruct (FindGreaterOrEqual_spec (nodes l) order h key (max_height_ l) Hinv Hmh)
    as (pre & post & prev & -> & Hcut & Hfind & Hlp & Hprev).
  destruct (RandomHeight (rnd_ l)) as [height rnd] eqn:Hrh.
  assert (Hh : (1 <= height <= kMaxHeight)%nat).
  { pose proof (RandomHeight_loop_range kMaxHeight 1 (rnd_ l) ltac:(unfold kMaxHeight; lia)) as H.
    unfold RandomHeight in Hrh. by rewrite Hrh in H. }
  assert (Hab : absent (nodes l) (pre ++ post) key).
  { intros y k Hy Hk. destruct (keys_at_elem _ _ _ _ Hkeys Hy) as (k' & Hk' & Hin).
    assert (k = k') as -> by congruence. by apply Habs. }
  pose proof (NewNode_inv (nodes l) pre post h key height Hinv Hcut Hab) as Hnew.
  set (n := length (nodes l)) in *.
  assert (Hlt : forall y, y ∈ head_ :: pre ++ post -> (y < n)%nat).
  { intros y Hy. destruct (si_nodes _ _ _ _ Hinv y Hy) as (nd & Hy2 & _). by apply lookup_lt_Some in Hy2. }
  exists (List.find (tall h 0) post), prev, (pre ++ n :: post), h, pre, post, height, rnd.
  cbn zeta. split; [done|]. split; [done|]. split; [done|]. split; [done|]. split.
  { intros y Hy. split; [by apply Htall|]. assert (y < n)%nat; [apply Hlt; set_solver|lia]. }
  split; [done|]. split; [done|]. intros j Hj.
  set (prev' := if (max_height_ l <? height)%nat then _ else prev).
  assert (Hp' : forall i, (i < height)%nat -> exists p, prev' !! i = Some (Some p) /\
    prev_ok (with_height h n 0) pre i p).
  { assert (Hup : forall i p, prev_ok h pre i p -> prev_ok (with_height h n 0) pre i p).
    { intros i p (l1 & l2 & Hsp & Hpt & Hl2). exists l1, l2. split; [done|].
      assert (Hn : n ∉ l1 ++ p :: l2).
      { rewrite <- Hsp. intros Hx. assert (n < n)%nat; [apply Hlt; set_solver|lia]. }
      rewrite with_height_ne by (intros ->; set_solver). split; [done|].
      rewrite find_with_height; [done|set_solver]. }
    intros i Hi. unfold prev'. destruct (Nat.ltb_spec (max_height_ l) height) as [Hm|Hm].
    - destruct (raise_prev_spec (max_height_ l) height prev i Hlp ltac:(lia)) as [_ ->].
      destruct (decide (max_height_ l <= i < height)%nat) as [Hd|Hd].
      + exists head_. split; [done|]. apply Hup.
        exists [], pre. split; [done|]. rewrite (si_head _ _ _ _ Hinv). split; [lia|].
        apply find_none. intros y Hy. apply Nat.ltb_ge.
        specialize (Htall y ltac:(set_solver)). lia.
      + destruct (Hprev i ltac:(lia)) as (p & ? & ?). exists p. split; [done|]. by apply Hup.
    - destruct (Hprev i ltac:(lia)) as (p & ? & ?). exists p. split; [done|]. by apply Hup. }
  assert (Hnode : NewNode key height (nodes l) !! n = Some (mkNode key (replicate height None)))
    by (unfold NewNode, n; by rewrite list_lookup_middle).
  destruct (link_levels_inv (NewNode key height (nodes l)) pre post (with_height h n 0) n height prev' j
    (mkNode key (replicate height None)) Hnew (with_height_eq _ _ _) Hnode
    (length_replicate _ _) ltac:(lia) Hj Hp') as [Hfin Hnd].
  split; [|split; [|split; [|exact Hnd]]].
  - destruct Hfin as [G1 G2 G3 G4 G5 G6].
    assert (Hhh : forall x, with_height (with_height h n 0) n j x = with_height h n j x)
      by (intros x; unfold with_height; destruct (Nat.eqb_spec x n); done).
    split; [done|..].
    + intros x Hx. rewrite <- Hhh. by apply G2.
    + by rewrite <- Hhh.
    + intros x. by rewrite <- Hhh.
    + done.
    + intros a x b i Hab2 Hi. rewrite <- Hhh in Hi. rewrite (G6 a x b i Hab2 Hi). apply find_ext.
      intros y _. unfold tall. by rewrite Hhh.
  - intros y Hy. rewrite link_levels_key_at. apply node_key_at_NewNode_old, Hlt. set_solver.
  - rewrite link_levels_key_at. apply node_key_at_NewNode_new.
Qed.

Lemma keys_at_ext ns ns' xs ks :
  (forall x, x ∈ xs -> node_key_at ns' x = node_key_at ns x) -> keys_at ns xs ks -> keys_at ns' xs ks.
Proof.
  unfold keys_at. intros H <-. apply map_ext_in. intros x Hx. apply H, list_elem_of_In, Hx.
Qed.

Lemma Insert_repr l ks key :
  skip_repr l ks -> (forall k, k ∈ ks -> compare_ key k <> Eq) ->
  exists l', Insert compare_ l key = Some l' /\ skip_repr l' (insert_key key ks).
Proof.
  intros Hl Habs. destruct (Insert_steps l ks key Hl Habs)
    as (x & prev & order & h & pre & post & height & rnd & Hf & Hr & Hh & -> & Hht & Hk & Hcut & Hstep).
  unfold Insert. rewrite Hf, Hr. eexists. split; [reflexivity|].
  destruct (Hstep height ltac:(lia)) as (Hinv & Hold & Hnew & _). rewrite stores_all.
  pose proof (sr_height _ _ Hl) as Hm. split; cbn [max_height_ nodes].
  - destruct (Nat.ltb_spec (max_height_ l) height); lia.
  - exists (pre ++ length (nodes l) :: post), (with_height h (length (nodes l)) height).
    split; [exact Hinv|]. split.
    + intros y Hy. destruct (decide (y = length (nodes l))) as [->|Hne].
      * rewrite with_height_eq. destruct (Nat.ltb_spec (max_height_ l) height); lia.
      * rewrite with_height_ne by done. destruct (Hht y ltac:(set_solver)) as [? _].
        destruct (Nat.ltb_spec (max_height_ l) height); lia.
    + destruct (keys_at_split _ _ _ _ Hk) as (ks1 & ks2 & -> & K1 & K2).
      destruct (cut_keys _ _ _ _ _ _ Hcut K1 K2) as [E1 E2].
      unfold insert_key. rewrite <- E1, <- E2. unfold keys_at in *. rewrite !map_app. cbn [map].
      f_equal; [|f_equal]; [|exact Hnew|].
      * rewrite <- K1. apply map_ext_in. intros y Hy. apply Hold. apply list_elem_of_In in Hy. set_solver.
      * rewrite <- K2. apply map_ext_in. intros y Hy. apply Hold. apply list_elem_of_In in Hy. set_solver.
Qed.

(** What a search returns, as a key. *)
Definition found_key (ns : list (Node K)) (r : option (option nat * list (option nat))) : option (option K) :=
  match r with
  | Some (Some x, _) => option_map Some (node_key_at ns x)
  | Some (None, _) => Some None
  | None => None
  end.

Lemma search_repr ns order h mh key ks :
  skip_inv compare_ ns order h -> (1 <= mh <= kMaxHeight)%nat ->
  keys_at ns (List.filter (tall h 0) order) ks ->
  found_key ns (FindGreaterOrEqual compare_ ns mh key)
    = Some (hd_error (List.filter (fun k => negb (key_below key k)) ks)).
Proof.
  intros Hinv Hmh Hk.
  destruct (FindGreaterOrEqual_spec ns order h key mh Hinv Hmh)
    as (pre & post & prev & -> & Hcut & -> & _ & _).
  rewrite List.filter_app in Hk. destruct (keys_at_split _ _ _ _ Hk) as (ks1 & ks2 & -> & K1 & K2).
  assert (Hcut' : cut ns key (List.filter (tall h 0) pre) (List.filter (tall h 0) post)).
  { destruct Hcut as [C1 C2]. split; intros y Hy; apply list_elem_of_In, List.filter_In in Hy as [Hy _];
      apply list_elem_of_In in Hy; auto. }
  destruct (cut_keys _ _ _ _ _ _ Hcut' K1 K2) as [_ E2]. rewrite <- E2.
  assert (Hfind : List.find (tall h 0) post = hd_error (List.filter (tall h 0) post)).
  { clear. induction post as [|y post IH]; simpl; [done|]. by destruct (tall h 0 y). }
  rewrite Hfind. destruct (List.filter (tall h 0) post) as [|y ys]; destruct ks2 as [|k ks2]; try done.
  unfold keys_at in K2. cbn [map] in K2. injection K2 as K2 _. simpl. by rewrite K2.
Qed.

Lemma keys_at_nil ns ks : keys_at ns [] ks -> ks = [].
Proof. unfold keys_at. by destruct ks. Qed.

(** The keys are in strictly increasing order. *)
Lemma keys_sorted ns order h ks :
  skip_inv compare_ ns order h -> keys_at ns order ks ->
  StronglySorted (fun a b => compare_ a b = Lt) ks.
Proof.
  intros [_ _ _ _ Hs _]. revert ks. induction order as [|x order IH]; intros ks Hk.
  - apply keys_at_nil in Hk as ->. constructor.
  - destruct ks as [|k ks]; [constructor|].
    assert (Hx : node_key_at ns x = Some k /\ keys_at ns order ks)
      by (unfold keys_at in *; simpl in Hk; by injection Hk).
    destruct Hx as [Hx Hk']. apply StronglySorted_inv in Hs as [Hs Hxs].
    constructor; [by apply IH|]. rewrite Forall_forall in Hxs. apply Forall_forall. intros k' Hin.
    destruct (keys_at_elem' _ _ _ _ Hk' Hin) as (y & Hy & Hyin).
    destruct (Hxs y Hyin) as (a & b & Ha & Hb & Hab). congruence.
Qed.

Lemma skip_repr_sorted l ks : skip_repr l ks -> StronglySorted (fun a b => compare_ a b = Lt) ks.
Proof. intros [_ (order & h & Hinv & _ & Hk)]. by eapply keys_sorted. Qed.

(** ** Iterators *)

(** The iterator stands between [ks1] and [ks2]: at the first of [ks2], or at
    the end. *)
Definition iter_at (l : SkipList K) (ks1 ks2 : list K) (it : Iterator) : Prop :=
  (1 <= max_height_ l <= kMaxHeight)%nat /\ exists h o1 o2,
    skip_inv compare_ (nodes l) (o1 ++ o2) h /\
    (forall x, x ∈ o1 ++ o2 -> (1 <= h x <= max_height_ l)%nat) /\
    keys_at (nodes l) o1 ks1 /\ keys_at (nodes l) o2 ks2 /\ it = hd_error o2.

Lemma keys_at_cons ns xs k ks :
  keys_at ns xs (k :: ks) -> exists x xs', xs = x :: xs' /\ node_key_at ns x = Some k /\ keys_at ns xs' ks.
Proof. unfold keys_at. destruct xs as [|x xs']; [done|]. intros [= H1 H2]. by exists x, xs'. Qed.

Lemma keys_at_app ns xs1 xs2 ks1 ks2 :
  keys_at ns xs1 ks1 -> keys_at ns xs2 ks2 -> keys_at ns (xs1 ++ xs2) (ks1 ++ ks2).
Proof. unfold keys_at. intros H1 H2. by rewrite !map_app, H1, H2. Qed.

Lemma keys_at_snoc ns xs ks k :
  keys_at ns xs (ks ++ [k]) -> exists xs' x, xs = xs' ++ [x] /\ node_key_at ns x = Some k /\ keys_at ns xs' ks.
Proof.
  destruct xs as [|x xs] using rev_ind; intros H.
  { apply keys_at_nil in H. by destruct ks. }
  exists xs, x. split; [done|]. unfold keys_at in *. rewrite !map_app in H. simpl in H.
  apply app_inj_tail in H as [H1 H2]. done.
Qed.

Lemma Iter_key_at l ks1 ks2 it : iter_at l ks1 ks2 it -> Iter_key l it = hd_error ks2.
Proof.
  intros (_ & h & o1 & o2 & _ & _ & _ & K2 & ->). destruct ks2 as [|k ks2].
  - destruct o2; [done|]. unfold keys_at in K2. done.
  - destruct (keys_at_cons _ _ _ _ K2) as (x & o2' & -> & Hx & _). done.
Qed.

Lemma iter_first l ks : skip_repr l ks -> iter_at l [] ks (Iter_SeekToFirst l).
Proof.
  intros [Hm (order & h & Hinv & Ht & Hk)]. split; [done|]. exists h, [], order.
  split; [done|]. split; [done|]. split; [done|]. split; [done|]. unfold Iter_SeekToFirst.
  rewrite (si_links _ _ _ _ Hinv [] head_ order 0 eq_refl)
    by (rewrite (si_head _ _ _ _ Hinv); unfold kMaxHeight; lia).
  apply find_tall_all. intros x Hx. by apply Ht.
Qed.

Lemma iter_end l ks : skip_repr l ks -> iter_at l ks [] None.
Proof. intros [Hm (order & h & Hinv & Ht & Hk)]. split; [done|]. exists h, order, []. by rewrite app_nil_r. Qed.

Lemma iter_next l ks1 k ks2 it :
  iter_at l ks1 (k :: ks2) it -> iter_at l (ks1 ++ [k]) ks2 (Iter_Next l it).
Proof.
  intros (Hm & h & o1 & o2 & Hinv & Ht & K1 & K2 & ->).
  destruct (keys_at_cons _ _ _ _ K2) as (x & o2' & -> & Hx & K2'). split; [done|].
  exists h, (o1 ++ [x]), o2'. rewrite <- app_assoc. split; [done|]. split; [done|].
  split; [apply keys_at_app; [done|unfold keys_at; simpl; by rewrite Hx]|]. split; [done|]. simpl.
  assert (Hx1 : (1 <= h x)%nat) by (apply Ht; set_solver).
  rewrite (si_links _ _ _ _ Hinv (head_ :: o1) x o2' 0 eq_refl) by lia.
  apply find_tall_all. intros y Hy. apply Ht. set_solver.
Qed.

Lemma iter_seek l ks target :
  skip_repr l ks -> exists it, Iter_Seek compare_ l target = Some it /\
    iter_at l (List.filter (key_below target) ks)
              (List.filter (fun k => negb (key_below target k)) ks) it.
Proof.
  intros [Hm (order & h & Hinv & Ht & Hk)].
  destruct (FindGreaterOrEqual_spec (nodes l) order h target (max_height_ l) Hinv Hm)
    as (pre & post & prev & -> & Hcut & Hf & _ & _).
  destruct (keys_at_split _ _ _ _ Hk) as (ks1 & ks2 & -> & K1 & K2).
  destruct (cut_keys _ _ _ _ _ _ Hcut K1 K2) as [E1 E2]. rewrite <- E1, <- E2.
  unfold Iter_Seek. rewrite Hf. eexists. split; [reflexivity|]. split; [done|].
  exists h, pre, post. do 4 (split; [done|]). simpl. apply find_tall_all.
  intros y Hy. apply Ht. set_solver.
Qed.

(** [FindLessThan] follows the path of [FindGreaterOrEqual]. *)
Lemma FindLessThan_loop_prev fuel ns key x level prev r prev' :
  FindGreaterOrEqual_loop compare_ fuel ns key x level prev = Some (r, prev') ->
  (0 < length prev)%nat ->
  prev' !! 0%nat = Some (FindLessThan_loop compare_ fuel ns key x level) /\ length prev' = length prev.
Proof.
  revert x level prev. induction fuel as [|f IH]; intros x level prev; [done|].
  cbn [FindGreaterOrEqual_loop FindLessThan_loop]. intros E Hl.
  destruct (KeyIsAfterNode compare_ ns key (node_Next ns x level)); cbn [negb].
  - destruct (node_Next ns x level); [|done]. by apply IH.
  - destruct level as [|level].
    + injection E as _ <-. split; [by apply list_lookup_insert_eq|apply length_insert].
    + destruct (IH _ _ _ E) as [H1 H2]; [by rewrite length_insert|].
      split; [done|]. by rewrite H2, length_insert.
Qed.

Lemma FindLessThan_spec ns order h key mh :
  skip_inv compare_ ns order h -> (1 <= mh <= kMaxHeight)%nat -> (forall x, x ∈ order -> (1 <= h x)%nat) ->
  exists pre post l1 p, order = pre ++ post /\ cut ns key pre post /\ head_ :: pre = l1 ++ [p] /\
    FindLessThan compare_ ns mh key = Some p.
Proof.
  intros Hinv Hm Ht.
  destruct (FindGreaterOrEqual_spec ns order h key mh Hinv Hm)
    as (pre & post & prev & -> & Hcut & Hf & Hl & Hp).
  destruct (Hp 0%nat ltac:(lia)) as (p & Hp0 & l1 & l2 & Hsp & _ & Hl2).
  destruct (FindLessThan_loop_prev _ _ _ _ _ _ _ _ Hf) as [H1 _]; [rewrite length_replicate; unfold kMaxHeight; lia|].
  exists pre, post, l1, p. split; [done|]. split; [done|]. split.
  - destruct l2 as [|y l2]; [done|]. exfalso. simpl in Hl2. unfold tall in Hl2 at 1.
    assert (Hy : y ∈ pre).
    { destruct l1 as [|z l1]; injection Hsp as E1 E2; rewrite E2; set_solver. }
    specialize (Ht y ltac:(set_solver)). by rewrite (proj2 (Nat.ltb_lt _ _)) in Hl2 by lia.
  - unfold FindLessThan. rewrite H1 in Hp0. congruence.
Qed.

(** The cut is determined by the order. *)
Lemma cut_unique ns key pre post pre' post' :
  cut ns key pre post -> cut ns key pre' post' -> pre ++ post = pre' ++ post' -> pre = pre' /\ post = post'.
Proof.
  intros [C1 C2] [C3 C4]. revert pre' C3. induction pre as [|x pre IH]; intros [|y pre'] C3 E; simpl in *.
  - done.
  - subst post. specialize (C2 y ltac:(set_solver)). specialize (C3 y ltac:(set_solver)). congruence.
  - subst post'. specialize (C1 x ltac:(set_solver)). specialize (C4 x ltac:(set_solver)). congruence.
  - injection E as -> E. destruct (IH ltac:(set_solver) pre' ltac:(set_solver) E) as [-> ->]. done.
Qed.

(** Cutting at the key of a node cuts just before it. *)
Lemma cut_at_node ns o1 x o2 h k :
  skip_inv compare_ ns (o1 ++ x :: o2) h -> node_key_at ns x = Some k -> cut ns k o1 (x :: o2).
Proof.
  intros [_ _ _ _ Hs _] Hx.
  assert (Hirr : forall a, compare_ a a <> Lt).
  { intros a E. pose proof (ko_antisym a a) as Ha. rewrite E in Ha. done. }
  induction o1 as [|y o1 IH]; simpl in Hs.
  - split; [set_solver|]. apply StronglySorted_inv in Hs as [_ Hxs]. rewrite Forall_forall in Hxs.
    intros z Hz. destruct (below ns k z) eqn:E; [|done]. exfalso.
    apply below_iff in E as (kz & Hkz & Hlt). apply elem_of_cons in Hz as [->|Hz].
    + rewrite Hx in Hkz. injection Hkz as <-. by apply (Hirr k).
    + destruct (Hxs z Hz) as (k1 & k2 & H1 & H2 & H3). rewrite Hx in H1. rewrite Hkz in H2.
      injection H1 as <-. injection H2 as <-. apply (Hirr k). by eapply ko_lt_trans.
  - apply StronglySorted_inv in Hs as [Hs Hy]. destruct (IH Hs) as [C1 C2]. split; [|done].
    intros z [->|Hz]%elem_of_cons; [|by apply C1]. rewrite Forall_forall in Hy.
    destruct (Hy x ltac:(set_solver)) as (k1 & k2 & H1 & H2 & H3). apply below_iff.
    rewrite Hx in H2. injection H2 as <-. by exists k1.
Qed.

Lemma iter_prev l ks1 k2 ks2 it :
  iter_at l ks1 (k2 :: ks2) it ->
  exists it', Iter_Prev compare_ l it = Some it' /\
    match ks1 with
    | [] => it' = None
    | _ => exists ks0 k, ks1 = ks0 ++ [k] /\ iter_at l ks0 (k :: k2 :: ks2) it'
    end.
Proof.
  intros (Hm & h & o1 & o2 & Hinv & Ht & K1 & K2 & ->).
  destruct (keys_at_cons _ _ _ _ K2) as (x & o2' & -> & Hx & K2'). simpl. rewrite Hx.
  destruct (FindLessThan_spec (nodes l) _ h k2 (max_height_ l) Hinv Hm) as (pre & post & l1 & p & Eo & Hcut & Hp & ->).
  { intros y Hy. by apply Ht. }
  destruct (cut_unique _ _ _ _ _ _ Hcut (cut_at_node _ _ _ _ _ _ Hinv Hx) (eq_sym Eo)) as [-> ->].
  simpl. eexists. split; [reflexivity|]. destruct ks1 as [|k0 ks0'] using rev_ind.
  - assert (o1 = []) as -> by (unfold keys_at in K1; by destruct o1).
    destruct l1 as [|z l1]; [|by destruct l1]. injection Hp as <-. done.
  - clear IHks0'. destruct (keys_at_snoc _ _ _ _ K1) as (o1' & y & -> & Hy & K1').
    rewrite app_comm_cons in Hp. apply app_inj_tail in Hp as [<- <-].
    destruct (ks0' ++ [k0]) eqn:E; [by destruct ks0'|]. rewrite <- E. exists ks0', k0. split; [done|].
    split; [done|]. exists h, o1', (y :: x :: o2'). rewrite <- app_assoc in Hinv, Ht. simpl in Hinv, Ht.
    split; [done|]. split; [done|]. split; [done|]. split.
    + unfold keys_at in *. simpl in *. by rewrite Hy, K2.
    + unfold not_head. rewrite (proj2 (Nat.eqb_neq _ _)); [done|]. intros ->.
      destruct Hinv as [Hnd _ _ _ _ _]. apply NoDup_cons in Hnd as [Hnd _]. set_solver.
Qed.

Lemma FindLast_loop_spec ns order h fuel x level l1 l2 :
  skip_inv compare_ ns order h -> (forall y, y ∈ order -> (1 <= h y)%nat) ->
  head_ :: order = l1 ++ x :: l2 -> (level < h x)%nat -> (length l2 + level < fuel)%nat ->
  exists l3 p, head_ :: order = l3 ++ [p] /\ FindLast_loop fuel ns x level = Some p.
Proof.
  intros Hinv Ht. revert x level l1 l2. induction fuel as [|f IH]; intros x level l1 l2 Hsp Hlev Hf; [lia|].
  cbn [FindLast_loop]. rewrite (si_links _ _ _ _ Hinv l1 x l2 level Hsp Hlev).
  destruct (List.find (tall h level) l2) as [y|] eqn:Ey.
  - apply find_split in Ey as (a & b & -> & Hty & _). apply Nat.ltb_lt in Hty.
    apply (IH y level (l1 ++ x :: a) b); [by rewrite Hsp, <- app_assoc|done|].
    rewrite length_app in Hf. simpl in Hf. lia.
  - destruct level as [|level].
    + exists l1, x. split; [|done]. rewrite Hsp. destruct l2 as [|y l2]; [done|]. exfalso.
      assert (Hy : y ∈ order).
      { destruct l1 as [|z l1]; injection Hsp as E1 E2; rewrite E2; set_solver. }
      specialize (Ht y Hy). simpl in Ey. unfold tall in Ey at 1.
      by rewrite (proj2 (Nat.ltb_lt _ _)) in Ey by lia.
    + apply (IH x level l1 l2); [done|lia|lia].
Qed.

Lemma iter_last l ks :
  skip_repr l ks -> exists it, Iter_SeekToLast l = Some it /\
    match ks with
    | [] => it = None
    | _ => exists ks0 k, ks = ks0 ++ [k] /\ iter_at l ks0 [k] it
    end.
Proof.
  intros [Hm (order & h & Hinv & Ht & Hk)].
  destruct (FindLast_loop_spec (nodes l) order h (search_fuel (nodes l)) head_ (max_height_ l - 1) [] order Hinv)
    as (l3 & p & Hp & Hf).
  - intros y Hy. by apply Ht.
  - done.
  - rewrite (si_head _ _ _ _ Hinv). lia.
  - pose proof (order_length _ _ _ Hinv) as Hl. unfold search_fuel. lia.
  - unfold Iter_SeekToLast, FindLast. rewrite Hf. simpl. eexists. split; [reflexivity|].
    destruct ks as [|k0 ks0] using rev_ind.
    + assert (order = []) as -> by (unfold keys_at in Hk; by destruct order).
      destruct l3 as [|z l3]; [|by destruct l3]. injection Hp as <-. done.
    + clear IHks0. destruct (keys_at_snoc _ _ _ _ Hk) as (o & y & -> & Hy & K1).
      rewrite app_comm_cons in Hp. apply app_inj_tail in Hp as [<- <-].
      destruct (ks0 ++ [k0]) eqn:E; [by destruct ks0|]. rewrite <- E. exists ks0, k0. split; [done|].
      split; [done|]. exists h, o, [y]. split; [done|]. split; [done|]. split; [done|]. split.
      * unfold keys_at. simpl. by rewrite Hy.
      * unfold not_head. rewrite (proj2 (Nat.eqb_neq _ _)); [done|]. intros ->.
        destruct Hinv as [Hnd _ _ _ _ _]. apply NoDup_cons in Hnd as [Hnd _]. set_solver.
Qed.

Lemma Contains_repr l ks key :
  skip_repr l ks ->
  exists b, Contains compare_ l key = Some b /\ (b = true <-> exists k, k ∈ ks /\ compare_ key k = Eq).
Proof.
  intros [Hm (order & h & Hinv & Ht & Hk)].
  destruct (FindGreaterOrEqual_spec (nodes l) order h key (max_height_ l) Hinv Hm)
    as (pre & post & prev & -> & Hcut & Hf & _ & _).
  unfold Contains. rewrite Hf, find_tall_all by (intros y Hy; apply Ht; set_solver).
  destruct (keys_at_split _ _ _ _ Hk) as (ks1 & ks2 & -> & K1 & K2).
  assert (Hlow : forall k, k ∈ ks1 -> compare_ key k <> Eq).
  { intros k Hk1. destruct (keys_at_elem' _ _ _ _ K1 Hk1) as (x & Hx & Hin).
    apply (proj1 Hcut) in Hin. apply below_iff in Hin as (k' & Hk' & Hlt).
    assert (k' = k) as -> by congruence. rewrite ko_antisym, Hlt. done. }
  destruct post as [|x post]; simpl.
  { apply keys_at_nil in K2 as ->. eexists. split; [reflexivity|]. split; [done|].
    intros (k & Hin & E). rewrite app_nil_r in Hin. by destruct (Hlow k). }
  destruct ks2 as [|k ks2]; [done|]. assert (Hx : node_key_at (nodes l) x = Some k)
    by (unfold keys_at in K2; simpl in K2; congruence).
  unfold node_key_at in Hx. destruct (nodes l !! x) as [nd|] eqn:Hnx; [|done]. simpl in Hx.
  injection Hx as Hx. eexists. split; [reflexivity|]. rewrite Hx. split.
  - destruct (compare_ key k) eqn:E; try done. intros _. exists k. split; [set_solver|done].
  - intros (k' & Hin & E). destruct (compare_ key k) eqn:Ek; [done|exfalso..].
    + (* the key is before the first remaining one, hence before all *)
      apply elem_of_app in Hin as [Hin|Hin]; [by destruct (Hlow k')|].
      apply elem_of_cons in Hin as [->|Hin]; [congruence|].
      assert (K2' : keys_at (nodes l) post ks2) by (unfold keys_at in *; simpl in K2; congruence).
      destruct (keys_at_elem' _ _ _ _ K2' Hin) as (y & Hy & Hyin).
      destruct Hinv as [_ _ _ _ Hs _]. assert (Hs2 : StronglySorted (fun x y => exists kx ky,
        node_key_at (nodes l) x = Some kx /\ node_key_at (nodes l) y = Some ky /\ compare_ kx ky = Lt) (x :: post)).
      { clear -Hs. induction pre as [|z pre IH]; [done|]. apply StronglySorted_inv in Hs as [Hs _]. auto. }
      apply StronglySorted_inv in Hs2 as [_ Hxs]. rewrite Forall_forall in Hxs.
      destruct (Hxs y Hyin) as (a & b & Ha & Hb & Hab). unfold node_key_at in Ha. rewrite Hnx in Ha.
      simpl in Ha. assert (a = k) as -> by congruence. assert (b = k') as -> by congruence.
      rewrite (ko_eq_l _ _ k E) in Ek. rewrite ko_antisym, Hab in Ek. done.
    + (* the first remaining key is below the key *)
      destruct Hcut as [_ C2]. specialize (C2 x ltac:(set_solver)).
      assert (below (nodes l) key x = true); [|congruence]. apply below_iff. exists k.
      unfold node_key_at. rewrite Hnx. simpl. split; [congruence|]. rewrite ko_antisym, Ek. done.
Qed.

Lemma SkipList_new_repr any_key : skip_repr (SkipList_new any_key) [].
Proof.
  split; [simpl; unfold kMaxHeight; lia|]. exists [], (fun x => if (x =? 0)%nat then kMaxHeight else 0%nat).
  split; [|split; [set_solver|done]]. split.
  - apply NoDup_singleton.
  - intros x Hx. apply list_elem_of_singleton in Hx as ->. eexists. split; [reflexivity|done].
  - done.
  - intros x. destruct (x =? 0)%nat; unfold kMaxHeight; lia.
  - constructor.
  - intros a x b i E Hi. destruct a as [|y a]; [|by destruct a]. injection E as <- <-.
    unfold node_Next. simpl. unfold kMaxHeight in Hi. simpl in Hi.
    do 12 (destruct i as [|i]; [done|]). lia.
Qed.
End SkipListProofs.

Arguments KeyOrder {K} compare_.

(** Integers, for examples. *)
#[export] Instance Z_KeyOrder : KeyOrder Z.compare.
Proof.
  split.
  - intros a b. apply Z.compare_antisym.
  - intros a b c. rewrite !Z.compare_lt_iff. lia.
  - intros a b c ->%Z.compare_eq_iff. done.
Qed.

(** ** Properties *)

(** C16: an insertion succeeds and adds exactly its key, at its place in the
    order, to a list that does not hold an equal one; [Contains] then answers
    exactly for the keys inserted.  Whatever heights the generator draws. *)
Theorem skiplist_insert_correct {K : Type} (compare_ : K -> K -> comparison) (KO : KeyOrder compare_)
    (l : SkipList K) (ks : list K) (key : K)
    (Hl : skip_repr compare_ l ks) (Habs : forall k, k ∈ ks -> compare_ key k <> Eq) :
  exists l', Insert compare_ l key = Some l' /\ skip_repr compare_ l' (insert_key compare_ key ks) /\
    forall q, exists b, Contains compare_ l' q = Some b /\
      (b = true <-> exists k, (k = key \/ k ∈ ks) /\ compare_ q k = Eq).
Proof.
  destruct (Insert_repr compare_ l ks key Hl Habs) as (l' & E & Hl'). exists l'.
  split; [done|]. split; [done|]. intros q.
  destruct (Contains_repr compare_ l' _ q Hl') as (b & Hb & Hiff). exists b. split; [done|].
  rewrite Hiff. assert (Hin : forall k, k ∈ insert_key compare_ key ks <-> k = key \/ k ∈ ks).
  { intros k. unfold insert_key. rewrite elem_of_app, elem_of_cons.
    rewrite !list_elem_of_In, !List.filter_In, negb_true_iff.
    destruct (key_below compare_ key k); naive_solver. }
  split; intros (k & Hk & Eq); exists k; [by rewrite <- Hin|by rewrite Hin].
Qed.

Lemma skiplist_insert_correct_witness :
  exists l', Insert Z.compare (SkipList_new 0) 5 = Some l' /\ skip_repr Z.compare l' [5].
Proof.
  destruct (skiplist_insert_correct Z.compare Z_KeyOrder (SkipList_new 0) [] 5
    (SkipList_new_repr Z.compare 0) ltac:(set_solver)) as (l' & H1 & H2 & _).
  exists l'. split; [exact H1|exact H2].
Defined.

(** An iterator enumerates the keys in order: [SeekToFirst] stands before
    all keys, [Seek] before the first key that is not below the target,
    [SeekToLast] before the last; [Next] and [Prev] move over one key, and
    [Prev] before the first key gives the invalid iterator.  [key] is the key
    the iterator stands at. *)
Theorem skiplist_iterator_correct {K : Type} (compare_ : K -> K -> comparison) (KO : KeyOrder compare_)
    (l : SkipList K) (ks : list K) (target : K) (Hl : skip_repr compare_ l ks) :
  iter_at compare_ l [] ks (Iter_SeekToFirst l) /\
  (exists it, Iter_Seek compare_ l target = Some it /\
     iter_at compare_ l (List.filter (key_below compare_ target) ks)
       (List.filter (fun k => negb (key_below compare_ target k)) ks) it) /\
  (exists it, Iter_SeekToLast l = Some it /\
     match ks with
     | [] => it = None
     | _ => exists ks0 k, ks = ks0 ++ [k] /\ iter_at compare_ l ks0 [k] it
     end) /\
  (forall ks1 k ks2 it, iter_at compare_ l ks1 (k :: ks2) it ->
     Iter_key l it = Some k /\ iter_at compare_ l (ks1 ++ [k]) ks2 (Iter_Next l it) /\
     exists it', Iter_Prev compare_ l it = Some it' /\
       match ks1 with
       | [] => it' = None
       | _ => exists ks0 k0, ks1 = ks0 ++ [k0] /\ iter_at compare_ l ks0 (k0 :: k :: ks2) it'
       end).
Proof.
  split; [by apply iter_first|]. split; [by apply iter_seek|]. split; [by apply iter_last|].
  intros ks1 k ks2 it Hit. split; [by apply (Iter_key_at compare_ _ _ _ _ Hit)|].
  split; [by apply iter_next|by apply iter_prev].
Qed.

Lemma skiplist_iterator_correct_witness :
  iter_at Z.compare (SkipList_new 0) [] [] (Iter_SeekToFirst (SkipList_new 0)).
Proof.
  exact (proj1 (skiplist_iterator_correct Z.compare Z_KeyOrder (SkipList_new 0) [] 7
    (SkipList_new_repr Z.compare 0))).
Defined.

(** A search in the state after some rounds, whatever the stores of the last one
    did besides. *)
Lemma search_in_round {K : Type} (compare_ : K -> K -> comparison) {KO : KeyOrder compare_} (ns ns0 : list (Node K)) pre post h n j key ks mh q :
  skip_inv compare_ ns (pre ++ n :: post) (with_height h n j) -> (forall y, y ∈ pre ++ post -> (1 <= h y)%nat /\ y <> n) ->
  (forall y, y ∈ pre ++ post -> node_key_at ns y = node_key_at ns0 y) -> node_key_at ns n = Some key ->
  keys_at ns0 (pre ++ post) ks -> cut compare_ ns0 key pre post -> (1 <= mh <= kMaxHeight)%nat ->
  found_key ns (FindGreaterOrEqual compare_ ns mh q) =
    Some (hd_error (List.filter (fun k => negb (key_below compare_ q k)) (if (j =? 0)%nat then ks else insert_key compare_ key ks))).
Proof.
  intros Hinv Hht Hold Hnew Hk Hcut Hmh. apply (search_repr compare_ _ _ _ mh q _ Hinv Hmh).
  destruct (keys_at_split _ _ _ _ Hk) as (ks1 & ks2 & -> & K1 & K2). destruct (cut_keys compare_ _ _ _ _ _ _ Hcut K1 K2) as [E1 E2].
  assert (Hall : forall xs, (forall y, y ∈ xs -> y ∈ pre ++ post) -> List.filter (tall (with_height h n j) 0) xs = xs).
  { induction xs as [|y xs IH]; intros Hxs; [done|]. cbn [List.filter]. destruct (Hht y (Hxs y ltac:(set_solver))) as [Hy Hyn].
    unfold tall at 1. rewrite with_height_ne, (proj2 (Nat.ltb_lt _ _)) by (done || lia). f_equal. apply IH. set_solver. }
  rewrite List.filter_app. cbn [List.filter]. rewrite !Hall by set_solver. unfold tall. rewrite with_height_eq.
  assert (K1' : keys_at ns pre ks1) by (refine (keys_at_ext _ _ _ _ _ K1); intros y Hy; apply Hold; set_solver).
  assert (K2' : keys_at ns post ks2) by (refine (keys_at_ext _ _ _ _ _ K2); intros y Hy; apply Hold; set_solver).
  destruct j as [|j]; cbn [Nat.ltb Nat.leb Nat.eqb].
  - by apply keys_at_app.
  - unfold insert_key. rewrite <- E1, <- E2. apply keys_at_app; [done|]. unfold keys_at in *. cbn [map]. by rewrite Hnew, K2'.
Qed.

(** C20: Reads need no lock.  An insertion of a node of some height makes two
    stores of a pointer for each level, the new node's own link and then the link
    of its predecessor.  After any number [m] of these stores, a search that runs
    there, with any maximum height the reader may have loaded, stale or new, finds
    the first key not below its own: among the old keys before the lowest link of
    a predecessor is stored, that is for [m < 2], and among the old keys and the
    new one from then on. *)
Theorem skiplist_reads_during_insert {K : Type} (compare_ : K -> K -> comparison)
    (KO : KeyOrder compare_) (l : SkipList K) (ks : list K) (key : K)
    (Hl : skip_repr compare_ l ks) (Habs : forall k, k ∈ ks -> compare_ key k <> Eq) :
  exists x prev height rnd,
    let prev' := if (max_height_ l <? height)%nat then raise_prev (max_height_ l) height prev else prev in
    let stores := link_stores prev' (length (nodes l)) height in
    let after m := run_stores (take m stores) (NewNode key height (nodes l)) in
    FindGreaterOrEqual compare_ (nodes l) (max_height_ l) key = Some (x, prev) /\
    RandomHeight (rnd_ l) = (height, rnd) /\ length stores = (2 * height)%nat /\
    option_map nodes (Insert compare_ l key) = Some (after (length stores)) /\
    forall m mh q, (m <= length stores)%nat -> (1 <= mh <= kMaxHeight)%nat ->
      found_key (after m) (FindGreaterOrEqual compare_ (after m) mh q) =
      Some (hd_error (List.filter (fun k => negb (key_below compare_ q k))
                        (if (m <? 2)%nat then ks else insert_key compare_ key ks))).
Proof.
  destruct (Insert_steps compare_ l ks key Hl Habs)
    as (x & prev & order & h & pre & post & height & rnd & Hf & Hr & Hh & -> & Hht & Hk & Hcut & Hstep).
  exists x, prev, height, rnd. cbn zeta. split; [done|]. split; [done|]. set (prev' := if (max_height_ l <? height)%nat then raise_prev (max_height_ l) height prev else prev) in *. split; [apply link_stores_length|]. split.
  { unfold Insert. rewrite Hf, Hr. by rewrite firstn_all. }
  intros m mh q Hm Hmh. rewrite link_stores_length in Hm. set (n := length (nodes l)) in *.
  assert (Hht' : forall y, y ∈ pre ++ post -> (1 <= h y)%nat /\ y <> n) by (intros y Hy; destruct (Hht y Hy); lia).
  destruct (Nat.Even_or_Odd m) as [[j ->]|[j ->]].
  - destruct (stores_levels prev' n height j (NewNode key height (nodes l)) ltac:(lia)) as [-> _]. destruct (Hstep j ltac:(lia)) as (Hinv & Hold & Hnew & _).
    rewrite (search_in_round compare_ _ (nodes l) pre post h n j key ks mh q) by done. by destruct (Nat.eqb_spec j 0), (Nat.ltb_spec (2 * j) 2); try lia.
  - destruct (stores_levels prev' n height j (NewNode key height (nodes l)) ltac:(lia)) as [_ ->]; [|lia]. destruct (Hstep j ltac:(lia)) as (Hinv & Hold & Hnew & nd & Hnd & Hlen).
    destruct (own_link_inv compare_ _ _ _ prev' n j nd Hinv (with_height_eq _ _ _) Hnd ltac:(lia)) as [Hinv' Hkeys].
    rewrite (search_in_round compare_ _ (nodes l) pre post h n j key ks mh q); [|exact Hinv'|done|by intros y Hy; rewrite Hkeys; apply Hold|by rewrite Hkeys|done..].
    by destruct (Nat.eqb_spec j 0), (Nat.ltb_spec (2 * j + 1) 2); try lia.
Qed.

Lemma skiplist_reads_during_insert_witness :
  exists x prev height rnd,
    FindGreaterOrEqual Z.compare (nodes (SkipList_new 0)) 1 5 = Some (x, prev) /\
    RandomHeight (rnd_ (SkipList_new 0)) = (height, rnd).
Proof.
  destruct (skiplist_reads_during_insert Z.compare Z_KeyOrder (SkipList_new 0) [] 5
    (SkipList_new_repr Z.compare 0) ltac:(set_solver)) as (x & prev & height & rnd & H1 & H2 & _).
  exists x, prev, height, rnd. split; [exact H1|exact H2].
Defined.
