(* ===== verification/MemTable.v ===== *)
(** * db/memtable

    Models src/db/memtable.h and src/db/memtable.cc over the skip list of
    SkipList.v: entries are encoded strings, compared by the internal key at
    their front.  A [const char*] into an entry is the bytes from there on.
    The arena only gives memory and is left out.  The theorems describe a
    memtable by the multiset of entries added to it. *)

From Stdlib Require Import Sorted.
From stdpp Require Import sets.
From S2P Require Import Prelude Coding Comparator DbFormat Status SkipList.

(** [GetLengthPrefixedSlice(data)] of memtable.cc: at most five bytes of
    length, trusted. *)
Definition mem_GetLengthPrefixedSlice (data : bytes) : bytes :=
  match GetVarint32Ptr (take 5 data) with
  | Some (len, rest) => take (Z.to_nat len) (drop (length (take 5 data) - length rest) data)
  | None => []
  end.

Section MemTable.
(** The user's comparator, inside [comparator_]. *)
Variable C : Comparator.

(** [MemTable::KeyComparator::operator()] *)
Definition KeyComparator (aptr bptr : bytes) : comparison :=
  InternalKey_Compare C (mem_GetLengthPrefixedSlice aptr) (mem_GetLengthPrefixedSlice bptr).

Definition EncodeKey (target : bytes) : bytes := PutVarint32 [] (u32 (zlen target)) ++ target.

(** The member [table_]. *)
Definition MemTable : Type := SkipList bytes.

Definition MemTable_new : MemTable := SkipList_new [].

(** The buffer [Add] fills. *)
Definition entry_bytes (s : Z) (type : ValueType) (key value : bytes) : bytes :=
  let internal_key_size := zlen key + 8 in
  EncodeVarint32 (u32 internal_key_size) ++ key ++
  EncodeFixed64 (Z.lor (u64 (Z.shiftl s 8)) (ValueType_code type)) ++
  EncodeVarint32 (u32 (zlen value)) ++ value.

Definition MemTable_Add (mem : MemTable) (s : Z) (type : ValueType) (key value : bytes)
    : option MemTable :=
  Insert KeyComparator mem (entry_bytes s type key value).

(** The [bool] result, and [*value] and [*s] after the call. *)
Definition MemTable_Get (mem : MemTable) (key : LookupKey) (value : bytes) (s : Status)
    : option (bool * bytes * Status) :=
  match Iter_Seek KeyComparator mem (memtable_key key) with
  | None => None
  | Some iter =>
      match Iter_key mem iter with
      | None => Some (false, value, s)
      | Some entry =>
          match GetVarint32Ptr (take 5 entry) with
          | None => Some (false, value, s)
          | Some (key_length, rest) =>
              let key_ptr := drop (length (take 5 entry) - length rest) entry in
              match Compare (Comparator := C) (take (Z.to_nat (key_length - 8)) key_ptr)
                            (lookup_user_key key) with
              | Eq =>
                  let tag := DecodeFixed64 (drop (Z.to_nat (key_length - 8)) key_ptr) in
                  let type := Z.land tag 0xff in
                  if type =? ValueType_code kTypeValue then
                    Some (true, mem_GetLengthPrefixedSlice (drop (Z.to_nat key_length) key_ptr), s)
                  else if type =? ValueType_code kTypeDeletion then
                    Some (true, value, NotFound [] [])
                  else Some (false, value, s)
              | _ => Some (false, value, s)
              end
          end
      end
  end.

(** *** [MemTableIterator] *)

Definition MemIter_Seek (mem : MemTable) (k : bytes) : option Iterator :=
  Iter_Seek KeyComparator mem (EncodeKey k).
Definition MemIter_key (mem : MemTable) (it : Iterator) : option bytes :=
  mem_GetLengthPrefixedSlice <$> Iter_key mem it.
Definition MemIter_value (mem : MemTable) (it : Iterator) : option bytes :=
  (fun entry =>
     let key_slice := mem_GetLengthPrefixedSlice entry in
     let rest := match GetVarint32Ptr (take 5 entry) with
                 | Some (_, rest) => drop (length (take 5 entry) - length rest) entry
                 | None => []
                 end in
     mem_GetLengthPrefixedSlice (drop (length key_slice) rest)) <$> Iter_key mem it.
End MemTable.

(** ** Entries *)

Record Entry := mkEntry { e_user_key : bytes; e_seq : Z; e_type : ValueType; e_value : bytes }.

Definition entry_encoding (e : Entry) : bytes :=
  entry_bytes (e_seq e) (e_type e) (e_user_key e) (e_value e).

(** Sizes fit 32 bits and the sequence number 56. *)
Definition entry_ok (e : Entry) : Prop :=
  0 <= e_seq e <= kMaxSequenceNumber /\ zlen (e_user_key e) + 8 < 2 ^ 32 /\ zlen (e_value e) < 2 ^ 32.

Definition entry_ikey (e : Entry) : bytes := InternalKey (e_user_key e) (e_seq e) (e_type e).

(** Reading a varint never needs more than five bytes. *)
Lemma GetVarint32Ptr_prefix v rest :
  0 <= v < 2 ^ 32 ->
  GetVarint32Ptr (take 5 (EncodeVarint32 v ++ rest)) =
    Some (v, take (5 - length (EncodeVarint32 v)) rest).
Proof.
  intros Hv. pose proof (EncodeVarint32_length v) as Hl.
  rewrite take_app_ge by ilia. apply (GetVarint32_encode v). done.
Qed.

Lemma varint_consumed v rest :
  0 <= v < 2 ^ 32 ->
  (length (take 5 (EncodeVarint32 v ++ rest)) - length (take (5 - length (EncodeVarint32 v)) rest))%nat
  = length (EncodeVarint32 v).
Proof.
  intros Hv. pose proof (EncodeVarint32_length v) as Hl.
  rewrite take_app_ge by ilia. rewrite length_app. lia.
Qed.

Lemma mem_GetLengthPrefixedSlice_put v rest :
  zlen v < 2 ^ 32 ->
  mem_GetLengthPrefixedSlice (EncodeVarint32 (u32 (zlen v)) ++ v ++ rest) = v.
Proof.
  intros Hv. pose proof (zlen_nonneg v). rewrite u32_small by lia.
  unfold mem_GetLengthPrefixedSlice. rewrite GetVarint32Ptr_prefix, varint_consumed by lia.
  rewrite drop_app_exact. unfold zlen. rewrite Nat2Z.id. apply take_app_exact.
Qed.

Lemma entry_bytes_ikey e :
  entry_encoding e =
  EncodeVarint32 (u32 (zlen (entry_ikey e))) ++ entry_ikey e ++
  EncodeVarint32 (u32 (zlen (e_value e))) ++ e_value e.
Proof.
  unfold entry_encoding, entry_bytes, entry_ikey, zlen. rewrite InternalKey_length, InternalKey_unfold.
  rewrite <- !app_assoc. do 3 f_equal. lia.
Qed.

Lemma entry_ikey_size e : entry_ok e -> zlen (entry_ikey e) < 2 ^ 32.
Proof. intros (_ & H & _). unfold zlen, entry_ikey in *. rewrite InternalKey_length. lia. Qed.

Lemma entry_encoding_ikey e : entry_ok e -> mem_GetLengthPrefixedSlice (entry_encoding e) = entry_ikey e.
Proof.
  intros He. rewrite entry_bytes_ikey. by apply mem_GetLengthPrefixedSlice_put, entry_ikey_size.
Qed.

Section MemTableProofs.
Context {C : Comparator} {L : ComparatorLaws C}.

#[export] Instance MemKeyOrder : KeyOrder (KeyComparator C).
Proof.
  unfold KeyComparator. split; intros *.
  - apply (Compare_antisym (C := InternalKeyComparator C)).
  - apply (Compare_lt_trans (C := InternalKeyComparator C)).
  - apply (Compare_eq_l (C := InternalKeyComparator C)).
Qed.

(** The memtable holds the entries [es], in any order of arrival. *)
Definition mem_repr (mem : MemTable) (es : list Entry) : Prop :=
  Forall entry_ok es /\
  exists ks, skip_repr (KeyComparator C) mem ks /\ ks ≡ₚ map entry_encoding es.

(** The same user key (for the user's comparator), sequence and type. *)
Definition same_key (e e' : Entry) : Prop :=
  Compare (e_user_key e) (e_user_key e') = Eq /\ e_seq e = e_seq e' /\ e_type e = e_type e'.

Lemma KeyComparator_entries e e' :
  entry_ok e -> entry_ok e' ->
  KeyComparator C (entry_encoding e) (entry_encoding e') = InternalKey_Compare C (entry_ikey e) (entry_ikey e').
Proof. intros He He'. unfold KeyComparator. by rewrite !entry_encoding_ikey. Qed.

Lemma entries_equal e e' :
  entry_ok e -> entry_ok e' ->
  KeyComparator C (entry_encoding e) (entry_encoding e') = Eq -> same_key e e'.
Proof.
  intros He He' E. rewrite KeyComparator_entries in E by done. unfold entry_ikey in E.
  rewrite InternalKey_Compare_encoded in E by (apply He || apply He'). unfold same_key.
  destruct (Compare (e_user_key e) (e_user_key e')); try done.
  destruct (Z.compare_spec (e_seq e') (e_seq e)); try done.
  apply Z.compare_eq_iff, ValueType_code_inj in E. split; [done|]. split; congruence.
Qed.

Lemma MemTable_new_repr : mem_repr MemTable_new [].
Proof. split; [constructor|]. exists []. split; [apply (SkipList_new_repr (KeyComparator C))|constructor]. Qed.

Lemma insert_key_perm {K} (cmp : K -> K -> comparison) key ks : insert_key cmp key ks ≡ₚ key :: ks.
Proof.
  unfold insert_key. rewrite <- Permutation_middle. constructor.
  induction ks as [|k ks IH]; simpl; [done|]. destruct (key_below cmp key k); simpl.
  - by constructor.
  - rewrite <- Permutation_middle. by constructor.
Qed.

Lemma MemTable_Add_repr mem es e :
  mem_repr mem es -> entry_ok e -> (forall e', e' ∈ es -> ~ same_key e e') ->
  exists mem', MemTable_Add C mem (e_seq e) (e_type e) (e_user_key e) (e_value e) = Some mem' /\
    mem_repr mem' (e :: es).
Proof.
  intros (Hok & ks & Hks & Hp) He Hnew. rewrite Forall_forall in Hok.
  destruct (Insert_repr (KeyComparator C) mem ks (entry_encoding e) Hks) as (mem' & E & Hmem').
  { intros k Hk Ek. rewrite Hp in Hk. apply list_elem_of_fmap in Hk as (e' & -> & He').
    apply (Hnew e' He'). apply entries_equal; auto. }
  exists mem'. split; [exact E|]. split.
  - apply Forall_cons. split; [done|]. by apply Forall_forall.
  - eexists. split; [exact Hmem'|]. rewrite insert_key_perm. simpl. by constructor.
Qed.

(** [e] answers a lookup of [u] at snapshot [s]: it is the newest version of
    [u] not newer than [s]. *)
Definition visible (u : bytes) (s : Z) (e : Entry) : Prop := Compare u (e_user_key e) = Eq /\ e_seq e <= s.

Definition newest_visible (u : bytes) (s : Z) (es : list Entry) (e : Entry) : Prop :=
  e ∈ es /\ visible u s e /\ forall e', e' ∈ es -> visible u s e' -> e_seq e' <= e_seq e.

Definition lookup_target (u : bytes) (s : Z) : bytes := memtable_key (LookupKey_new u s).

Lemma lookup_target_slice u s :
  zlen u + 8 < 2 ^ 32 -> mem_GetLengthPrefixedSlice (lookup_target u s) = InternalKey u s kValueTypeForSeek.
Proof.
  intros Hu. unfold lookup_target, memtable_key. simpl.
  change (u ++ _) with (InternalKey u s kValueTypeForSeek).
  assert (Hz : zlen (InternalKey u s kValueTypeForSeek) = zlen u + 8)
    by (unfold zlen; rewrite InternalKey_length; lia).
  pose proof (mem_GetLengthPrefixedSlice_put (InternalKey u s kValueTypeForSeek) []) as H.
  rewrite app_nil_r, Hz in H. by apply H.
Qed.

(** Reading the parts of an entry. *)
Lemma entry_parts e :
  entry_ok e ->
  exists rest, GetVarint32Ptr (take 5 (entry_encoding e)) = Some (zlen (entry_ikey e), rest) /\
    drop (length (take 5 (entry_encoding e)) - length rest) (entry_encoding e)
    = entry_ikey e ++ EncodeVarint32 (u32 (zlen (e_value e))) ++ e_value e.
Proof.
  intros He. pose proof (entry_ikey_size e He). pose proof (zlen_nonneg (entry_ikey e)).
  rewrite entry_bytes_ikey, u32_small by lia.
  eexists. rewrite GetVarint32Ptr_prefix by lia. split; [reflexivity|].
  rewrite varint_consumed by lia. apply drop_app_exact.
Qed.

(** The entry a seek to a lookup key finds. *)
Lemma seek_finds mem es u s :
  mem_repr mem es -> 0 <= s <= kMaxSequenceNumber -> zlen u + 8 < 2 ^ 32 ->
  exists it, Iter_Seek (KeyComparator C) mem (lookup_target u s) = Some it /\
    match Iter_key mem it with
    | Some k => exists e, k = entry_encoding e /\ e ∈ es /\
        (Compare u (e_user_key e) = Lt \/ visible u s e) /\
        forall e', e' ∈ es -> Compare u (e_user_key e') = Lt \/ visible u s e' ->
          InternalKey_Compare C (entry_ikey e) (entry_ikey e') <> Gt
    | None => forall e', e' ∈ es -> ~ (Compare u (e_user_key e') = Lt \/ visible u s e')
    end.
Proof.
  intros (Hok & ks & Hks & Hp) Hs Hu. rewrite Forall_forall in Hok.
  destruct (iter_seek (KeyComparator C) mem ks (lookup_target u s) Hks) as (it & E & Hit).
  exists it. split; [done|]. rewrite (Iter_key_at (KeyComparator C) _ _ _ _ Hit).
  clear Hit E.
  assert (Hb : forall e, entry_ok e ->
    key_below (KeyComparator C) (lookup_target u s) (entry_encoding e) = false <->
    Compare u (e_user_key e) = Lt \/ visible u s e).
  { intros e He. unfold key_below, KeyComparator.
    rewrite entry_encoding_ikey, lookup_target_slice by done.
    change (InternalKey_Compare C) with (Compare (Comparator := InternalKeyComparator C)).
    rewrite (Compare_antisym (C := InternalKeyComparator C)).
    pose proof (lookup_key_position u s (e_user_key e) (e_seq e) (e_type e) Hs ltac:(apply He)) as Hpos.
    cbn [Compare InternalKeyComparator]. unfold entry_ikey, visible in *. rewrite <- Hpos.
    destruct (InternalKey_Compare C _ _); simpl; split; done || congruence. }
  assert (Hall : forall k, k ∈ ks -> exists e, k = entry_encoding e /\ e ∈ es)
    by (intros k Hk; rewrite Hp in Hk; by apply list_elem_of_fmap in Hk).
  destruct (List.filter _ ks) as [|k ks2] eqn:Ef; simpl.
  - intros e' He' Hv. assert (Hin : entry_encoding e' ∈ ks) by (rewrite Hp; by apply list_elem_of_fmap_2).
    assert (Hf : entry_encoding e' ∈ List.filter (fun k => negb (key_below (KeyComparator C) (lookup_target u s) k)) ks).
    { apply list_elem_of_In, List.filter_In. split; [by apply list_elem_of_In|].
      apply negb_true_iff, Hb; auto. }
    rewrite Ef in Hf. set_solver.
  - assert (Hk : k ∈ ks /\ key_below (KeyComparator C) (lookup_target u s) k = false).
    { assert (Hf : In k (List.filter (fun k => negb (key_below (KeyComparator C) (lookup_target u s) k)) ks))
        by (rewrite Ef; by left).
      apply List.filter_In in Hf as [Hf1 Hf2]. apply negb_true_iff in Hf2.
      split; [by apply list_elem_of_In|done]. }
    destruct Hk as [Hk Hkb]. destruct (Hall k Hk) as (e & -> & He). exists e.
    split; [done|]. split; [done|]. split; [apply Hb; auto|].
    intros e' He' Hv. assert (Hin : entry_encoding e' ∈ ks) by (rewrite Hp; by apply list_elem_of_fmap_2).
    assert (Hf : In (entry_encoding e') (entry_encoding e :: ks2)).
    { rewrite <- Ef. apply List.filter_In. split; [by apply list_elem_of_In|].
      apply negb_true_iff, Hb; auto. }
    rewrite <- KeyComparator_entries by auto. destruct Hf as [<-|Hf].
    { rewrite KeyComparator_entries by auto.
      pose proof (Compare_refl (C := InternalKeyComparator C) (entry_ikey e)) as Hr.
      cbn [Compare InternalKeyComparator] in Hr. by rewrite Hr. }
    pose proof (StronglySorted_filter _
      (fun k => negb (key_below (KeyComparator C) (lookup_target u s) k)) _
      (skip_repr_sorted (KeyComparator C) _ _ Hks)) as Hsf.
    rewrite Ef in Hsf. apply StronglySorted_inv in Hsf as [_ Hsf]. rewrite Forall_forall in Hsf.
    rewrite (Hsf (entry_encoding e')); [done|]. by apply list_elem_of_In.
Qed.

(** What [Get] answers. *)
Lemma MemTable_Get_spec mem es u s value st :
  mem_repr mem es -> 0 <= s <= kMaxSequenceNumber -> zlen u + 8 < 2 ^ 32 ->
  (exists e, newest_visible u s es e /\
     MemTable_Get C mem (LookupKey_new u s) value st = Some
       match e_type e with
       | kTypeValue => (true, e_value e, st)
       | kTypeDeletion => (true, value, NotFound [] [])
       end) \/
  ((forall e, e ∈ es -> ~ visible u s e) /\
   MemTable_Get C mem (LookupKey_new u s) value st = Some (false, value, st)).
Proof.
  intros Hm Hs Hu. destruct (seek_finds mem es u s Hm Hs Hu) as (it & E & Hit).
  destruct Hm as [Hok _]. rewrite Forall_forall in Hok.
  unfold MemTable_Get. change (memtable_key (LookupKey_new u s)) with (lookup_target u s). rewrite E.
  destruct (Iter_key mem it) as [k|].
  2: { right. split; [|done]. intros e He Hv. apply (Hit e He). by right. }
  destruct Hit as (e & -> & He & Hv & Hfirst). pose proof (Hok e He) as Heok.
  destruct (entry_parts e Heok) as (rest & -> & Hdrop). rewrite Hdrop.
  assert (Hlen : zlen (entry_ikey e) = zlen (e_user_key e) + 8)
    by (unfold zlen, entry_ikey; rewrite InternalKey_length; lia).
  assert (Huser : lookup_user_key (LookupKey_new u s) = u).
  { unfold lookup_user_key. change (drop _ _) with (internal_key (LookupKey_new u s)).
    rewrite LookupKey_new_internal. apply ExtractUserKey_InternalKey. }
  rewrite Hlen, Z.add_simpl_r, Huser.
  assert (Hik : entry_ikey e = e_user_key e ++ EncodeFixed64 (PackSequenceAndType (e_seq e) (e_type e))) by done.
  assert (Htk : forall l, take (Z.to_nat (zlen (e_user_key e))) (entry_ikey e ++ l) = e_user_key e).
  { intros l. rewrite Hik, <- app_assoc. unfold zlen. rewrite Nat2Z.id. apply take_app_exact. }
  assert (Hdk : forall l, drop (Z.to_nat (zlen (e_user_key e))) (entry_ikey e ++ l)
    = EncodeFixed64 (PackSequenceAndType (e_seq e) (e_type e)) ++ l).
  { intros l. rewrite Hik, <- app_assoc. unfold zlen. rewrite Nat2Z.id. apply drop_app_exact. }
  rewrite Htk, Hdk, DecodeFixed64_encode.
  rewrite u64_small by by apply PackSequenceAndType_range, Heok.
  rewrite PackSequenceAndType_arith by apply Heok. pose proof (ValueType_code_range (e_type e)).
  rewrite land_255, Z.add_comm, Z.mod_add, Z.mod_small by lia.
  replace (Z.to_nat (zlen (e_user_key e) + 8)) with (length (entry_ikey e)) by (unfold zlen in *; lia).
  rewrite drop_app_exact.
  assert (Hval : mem_GetLengthPrefixedSlice (EncodeVarint32 (u32 (zlen (e_value e))) ++ e_value e) = e_value e).
  { pose proof (mem_GetLengthPrefixedSlice_put (e_value e) []) as Hp. rewrite app_nil_r in Hp.
    apply Hp, Heok. }
  rewrite Hval, (Compare_antisym u).
  destruct (Compare u (e_user_key e)) eqn:Ecmp; cbn [CompOpp].
  - destruct Hv as [Hv|Hv]; [congruence|]. left. exists e. split.
    + split; [done|]. split; [done|]. intros e' He' Hv'. pose proof (Hok e' He') as Heok'.
      specialize (Hfirst e' He' (or_intror Hv')). unfold entry_ikey in Hfirst.
      rewrite InternalKey_Compare_encoded in Hfirst by (apply Heok || apply Heok').
      destruct Hv' as [Hv' _]. rewrite <- (Compare_eq_l _ _ (e_user_key e') Ecmp), Hv' in Hfirst.
      destruct (Z.compare_spec (e_seq e') (e_seq e)); [lia|lia|done].
    + destruct (e_type e); done.
  - right. split; [|done]. intros e' He' Hv'. pose proof (Hok e' He') as Heok'.
    specialize (Hfirst e' He' (or_intror Hv')). unfold entry_ikey in Hfirst.
    rewrite InternalKey_Compare_encoded in Hfirst by (apply Heok || apply Heok').
    destruct Hv' as [Hv' _]. rewrite <- (Compare_eq_r _ _ (e_user_key e) Hv') in Hfirst.
    rewrite (Compare_antisym u), Ecmp in Hfirst. done.
  - destruct Hv as [Hv|[Hv _]]; congruence.
Qed.
End MemTableProofs.

(** ** Properties *)

(** C14: adding an entry to a memtable keeps it a memtable of the entries added,
    and [Get] answers for every key and snapshot with the newest entry of the
    key not newer than the snapshot: its value, [NotFound] when it is a
    deletion, and false, with [*value] and [*s] untouched, when there is none. *)
Theorem memtable_get_newest_visible (C : Comparator) (L : ComparatorLaws C)
    (mem : MemTable) (es : list Entry) (e : Entry) (u : bytes) (s : Z) (value : bytes) (st : Status)
    (Hm : mem_repr (C := C) mem es) (He : entry_ok e)
    (Hnew : forall e', e' ∈ es -> ~ same_key (C := C) e e')
    (Hs : 0 <= s <= kMaxSequenceNumber) (Hu : zlen u + 8 < 2 ^ 32) :
  exists mem', MemTable_Add C mem (e_seq e) (e_type e) (e_user_key e) (e_value e) = Some mem' /\
    mem_repr (C := C) mem' (e :: es) /\
    ((exists e', newest_visible (C := C) u s (e :: es) e' /\
        MemTable_Get C mem' (LookupKey_new u s) value st = Some
          match e_type e' with
          | kTypeValue => (true, e_value e', st)
          | kTypeDeletion => (true, value, NotFound [] [])
          end) \/
     ((forall e', e' ∈ e :: es -> ~ visible (C := C) u s e') /\
      MemTable_Get C mem' (LookupKey_new u s) value st = Some (false, value, st))).
Proof.
  destruct (MemTable_Add_repr mem es e Hm He Hnew) as (mem' & E & Hm'). exists mem'.
  split; [done|]. split; [done|]. by apply MemTable_Get_spec.
Qed.

Lemma memtable_get_newest_visible_witness :
  exists mem', MemTable_Add BytewiseComparator MemTable_new 7 kTypeValue (cstr "k") (cstr "v") = Some mem' /\
    mem_repr (C := BytewiseComparator) mem' [mkEntry (cstr "k") 7 kTypeValue (cstr "v")].
Proof.
  destruct (memtable_get_newest_visible BytewiseComparator BytewiseComparator_laws MemTable_new []
    (mkEntry (cstr "k") 7 kTypeValue (cstr "v")) (cstr "k") 9 [] OK MemTable_new_repr)
    as (mem' & H1 & H2 & _).
  - repeat split; vm_compute; discriminate || reflexivity.
  - set_solver.
  - split; vm_compute; discriminate.
  - reflexivity.
  - exists mem'. split; [exact H1|exact H2].
Defined.
