(* ===== verification/WriteBatch.v ===== *)
(** * db/write_batch

    Models src/db/write_batch.cc and src/db/write_batch_internal.h.  A batch is
    its string [rep_]; a handler is a pair of functions on its state, and
    [Iterate] returns the state the handler was left in with the status. *)

From stdpp Require Import sets.
From S2P Require Import Prelude Coding Comparator DbFormat Status MemTable.

Definition kHeader : nat := 12.

(** [Clear]: [rep_.resize(kHeader)] fills with zero bytes. *)
Definition WriteBatch_Clear : bytes := replicate kHeader x00.

Definition ApproximateSize (rep : bytes) : Z := zlen rep.

(** An [int]: the 32 bits are reinterpreted as signed. *)
Definition Count (rep : bytes) : Z := s32 (DecodeFixed32 (drop 8 rep)).

Definition SetCount (rep : bytes) (n : Z) : bytes := take 8 rep ++ EncodeFixed32 (u32 n) ++ drop 12 rep.

Definition Sequence (rep : bytes) : Z := DecodeFixed64 rep.

Definition SetSequence (rep : bytes) (seq : Z) : bytes := EncodeFixed64 seq ++ drop 8 rep.

Definition WriteBatch_Put (rep key value : bytes) : bytes :=
  let rep := SetCount rep (Count rep + 1) in
  let rep := rep ++ [byte_of_Z (ValueType_code kTypeValue)] in
  PutLengthPrefixedSlice (PutLengthPrefixedSlice rep key) value.

Definition WriteBatch_Delete (rep key : bytes) : bytes :=
  let rep := SetCount rep (Count rep + 1) in
  let rep := rep ++ [byte_of_Z (ValueType_code kTypeDeletion)] in
  PutLengthPrefixedSlice rep key.

Definition WriteBatch_Append (dst src : bytes) : bytes :=
  SetCount dst (Count dst + Count src) ++ drop kHeader src.

Definition SetContents (contents : bytes) : bytes := contents.

(** [WriteBatch::Handler] *)
Record Handler (S : Type) := mkHandler {
  h_Put : bytes -> bytes -> S -> S;
  h_Delete : bytes -> S -> S;
}.
Arguments mkHandler {S}.
Arguments h_Put {S}.
Arguments h_Delete {S}.

(** The loop of [Iterate]: the number of records found, or an error. *)
Fixpoint Iterate_loop {S} (fuel : nat) (h : Handler S) (input : bytes) (found : Z) (st : S)
    : (Status + Z) * S :=
  match fuel with
  | O => (inr found, st)
  | Datatypes.S f =>
      match input with
      | [] => (inr found, st)
      | tag :: input =>
          let found := found + 1 in
          if byte_to_Z tag =? ValueType_code kTypeValue then
            match GetLengthPrefixedSlice input with
            | Some (key, input) =>
                match GetLengthPrefixedSlice input with
                | Some (value, input) => Iterate_loop f h input found (h_Put h key value st)
                | None => (inl (Corruption (cstr "bad WriteBatch Put") []), st)
                end
            | None => (inl (Corruption (cstr "bad WriteBatch Put") []), st)
            end
          else if byte_to_Z tag =? ValueType_code kTypeDeletion then
            match GetLengthPrefixedSlice input with
            | Some (key, input) => Iterate_loop f h input found (h_Delete h key st)
            | None => (inl (Corruption (cstr "bad WriteBatch Delete") []), st)
            end
          else (inl (Corruption (cstr "unknown WriteBatch tag") []), st)
      end
  end.

Definition Iterate {S} (h : Handler S) (rep : bytes) (st : S) : Status * S :=
  if zlen rep <? Z.of_nat kHeader then (Corruption (cstr "malformed WriteBatch (too small)") [], st)
  else
    match Iterate_loop (length rep) h (drop kHeader rep) 0 st with
    | (inl e, st) => (e, st)
    | (inr found, st) =>
        if negb (found =? Count rep) then (Corruption (cstr "WriteBatch has wrong count") [], st)
        else (OK, st)
    end.

(** [MemTableInserter]: its sequence number and memtable ([None] only if a
    search of the table runs out of fuel, which it does not). *)
Definition MemTableInserter (C : Comparator) : Handler (Z * option MemTable) :=
  mkHandler
    (fun key value '(sequence_, mem_) =>
       (u64 (sequence_ + 1), mem ← mem_; MemTable_Add C mem sequence_ kTypeValue key value))
    (fun key '(sequence_, mem_) =>
       (u64 (sequence_ + 1), mem ← mem_; MemTable_Add C mem sequence_ kTypeDeletion key [])).

Definition InsertInto (C : Comparator) (b : bytes) (memtable : MemTable) : Status * option MemTable :=
  let '(s, (_, mem)) := Iterate (MemTableInserter C) b (Sequence b, Some memtable) in (s, mem).

(** ** Operations *)

Inductive Op := OpPut (key value : bytes) | OpDelete (key : bytes).

Definition op_key (o : Op) : bytes := match o with OpPut k _ => k | OpDelete k => k end.

(** A batch after a sequence of calls. *)
Definition apply_op (rep : bytes) (o : Op) : bytes :=
  match o with OpPut k v => WriteBatch_Put rep k v | OpDelete k => WriteBatch_Delete rep k end.
Definition build (ops : list Op) : bytes := fold_left apply_op ops WriteBatch_Clear.

(** A handler after a sequence of calls. *)
Definition handle_op {S} (h : Handler S) (st : S) (o : Op) : S :=
  match o with OpPut k v => h_Put h k v st | OpDelete k => h_Delete h k st end.
Definition handle {S} (h : Handler S) (ops : list Op) (st : S) : S := fold_left (handle_op h) ops st.

Definition op_ok (o : Op) : Prop :=
  match o with OpPut k v => zlen k < 2 ^ 32 /\ zlen v < 2 ^ 32 | OpDelete k => zlen k < 2 ^ 32 end.

Definition op_bytes (o : Op) : bytes :=
  match o with
  | OpPut k v => byte_of_Z 1 :: PutLengthPrefixedSlice (PutLengthPrefixedSlice [] k) v
  | OpDelete k => byte_of_Z 0 :: PutLengthPrefixedSlice [] k
  end.
Definition ops_bytes (ops : list Op) : bytes := concat (map op_bytes ops).

(** ** The representation *)

Lemma Clear_header : WriteBatch_Clear = EncodeFixed64 0 ++ EncodeFixed32 0.
Proof. done. Qed.

(** A batch with a sequence number, a count and data. *)
Definition batch (seq count : Z) (data : bytes) : bytes :=
  EncodeFixed64 seq ++ EncodeFixed32 (u32 count) ++ data.

Lemma batch_length seq count data : length (batch seq count data) = (12 + length data)%nat.
Proof. done. Qed.

Lemma Count_batch seq count data :
  - 2 ^ 31 <= count < 2 ^ 31 -> Count (batch seq count data) = count.
Proof.
  intros Hc. unfold Count, batch. change (drop 8 _) with (EncodeFixed32 (u32 count) ++ data).
  rewrite DecodeFixed32_encode. unfold s32, u32. rewrite !Z.mod_mod by lia.
  destruct (Z.ltb_spec (count mod 2 ^ 32) (2 ^ 31)); dlia.
Qed.

Lemma SetCount_batch seq count n data : SetCount (batch seq count data) n = batch seq n data.
Proof. done. Qed.

Lemma Sequence_batch seq count data : 0 <= seq < 2 ^ 64 -> Sequence (batch seq count data) = seq.
Proof. intros H. unfold Sequence, batch. rewrite DecodeFixed64_encode. by apply u64_small. Qed.

Lemma SetSequence_batch seq count data seq' :
  SetSequence (batch seq count data) seq' = batch seq' count data.
Proof. done. Qed.

Lemma apply_op_batch seq count data o :
  - 2 ^ 31 <= count < 2 ^ 31 ->
  apply_op (batch seq count data) o = batch seq (count + 1) (data ++ op_bytes o).
Proof.
  intros Hc. destruct o as [k v|k]; simpl; unfold WriteBatch_Put, WriteBatch_Delete;
    rewrite Count_batch, SetCount_batch by done.
  - rewrite (PutLengthPrefixedSlice_app (PutLengthPrefixedSlice _ k) v),
      (PutLengthPrefixedSlice_app (_ ++ _) k), (PutLengthPrefixedSlice_app (PutLengthPrefixedSlice [] k) v).
    unfold batch. rewrite <- !app_assoc. done.
  - rewrite (PutLengthPrefixedSlice_app (_ ++ _) k). unfold batch. rewrite <- !app_assoc. done.
Qed.

Lemma build_batch_from seq count data ops :
  0 <= count -> count + zlen ops < 2 ^ 31 ->
  fold_left apply_op ops (batch seq count data) = batch seq (count + zlen ops) (data ++ ops_bytes ops).
Proof.
  revert count data. induction ops as [|o ops IH]; intros count data H0 Hc.
  - simpl. unfold ops_bytes, zlen. simpl. by rewrite app_nil_r, Z.add_0_r.
  - rewrite zlen_cons in *. cbn [fold_left]. pose proof (zlen_nonneg ops).
    rewrite apply_op_batch by lia. rewrite IH by lia. unfold ops_bytes. simpl.
    rewrite <- app_assoc. f_equal. lia.
Qed.

Lemma build_batch ops : zlen ops < 2 ^ 31 -> build ops = batch 0 (zlen ops) (ops_bytes ops).
Proof.
  intros Hc. unfold build. rewrite Clear_header.
  change (EncodeFixed64 0 ++ EncodeFixed32 0) with (batch 0 0 []).
  by rewrite build_batch_from by lia.
Qed.

(** Appending a batch to a batch. *)
Lemma Append_build a b : zlen a + zlen b < 2 ^ 31 -> WriteBatch_Append (build a) (build b) = build (a ++ b).
Proof.
  intros H. pose proof (zlen_nonneg a). pose proof (zlen_nonneg b). rewrite !build_batch by (rewrite ?zlen_app; lia).
  unfold WriteBatch_Append. rewrite !Count_batch, SetCount_batch by lia. rewrite zlen_app. unfold ops_bytes.
  rewrite map_app, concat_app. unfold batch. rewrite <- !app_assoc. done.
Qed.

Lemma op_bytes_length o : (1 <= length (op_bytes o))%nat.
Proof. destruct o; simpl; lia. Qed.

Lemma ops_bytes_length ops : (length ops <= length (ops_bytes ops))%nat.
Proof.
  induction ops as [|o ops IH]; [done|]. unfold ops_bytes in *. simpl. rewrite length_app.
  pose proof (op_bytes_length o). lia.
Qed.

Lemma Iterate_loop_op {S} f (h : Handler S) o rest found st :
  op_ok o ->
  Iterate_loop (Datatypes.S f) h (op_bytes o ++ rest) found st =
  Iterate_loop f h rest (found + 1) (handle_op h st o).
Proof.
  intros Ho. destruct o as [k v|k]; simpl in Ho; cbn [op_bytes app Iterate_loop].
  - change (byte_to_Z (byte_of_Z 1)) with 1. cbn [ValueType_code Z.eqb Pos.eqb].
    rewrite (PutLengthPrefixedSlice_app (PutLengthPrefixedSlice [] k) v), <- app_assoc, GetLengthPrefixedSlice_put by apply Ho.
    by rewrite GetLengthPrefixedSlice_put by apply Ho.
  - change (byte_to_Z (byte_of_Z 0)) with 0. cbn [ValueType_code Z.eqb].
    by rewrite GetLengthPrefixedSlice_put.
Qed.

Lemma Iterate_loop_ops {S} fuel (h : Handler S) ops found st :
  Forall op_ok ops -> (length ops < fuel)%nat ->
  Iterate_loop fuel h (ops_bytes ops) found st = (inr (found + zlen ops), handle h ops st).
Proof.
  revert fuel found st. induction ops as [|o ops IH]; intros fuel found st Hok Hf;
    (destruct fuel as [|f]; [simpl in Hf; lia|]).
  - simpl. by rewrite Z.add_0_r.
  - apply Forall_cons in Hok as [Ho Hok]. unfold ops_bytes. cbn [map concat].
    rewrite Iterate_loop_op by done. change (concat (map op_bytes ops)) with (ops_bytes ops).
    rewrite IH by (done || (simpl in Hf; lia)). rewrite zlen_cons. do 2 f_equal. lia.
Qed.

Lemma Iterate_batch {S} (h : Handler S) seq ops st :
  Forall op_ok ops -> zlen ops < 2 ^ 31 ->
  Iterate h (batch seq (zlen ops) (ops_bytes ops)) st = (OK, handle h ops st).
Proof.
  intros Hok Hc. unfold Iterate. pose proof (zlen_nonneg ops).
  unfold zlen at 1. rewrite batch_length, (proj2 (Z.ltb_ge _ _)) by (unfold kHeader; lia).
  change (drop kHeader (batch seq (zlen ops) (ops_bytes ops))) with (ops_bytes ops).
  pose proof (ops_bytes_length ops). rewrite Iterate_loop_ops by (done || lia).
  rewrite Count_batch by lia. by rewrite Z.add_0_l, Z.eqb_refl.
Qed.

(** Whatever the bytes, the handler sees a sequence of operations that depends
    on them only, and so does the status. *)
Lemma Iterate_loop_any fuel input found :
  (length input < fuel)%nat ->
  exists ops r, (forall S (h : Handler S) st, Iterate_loop fuel h input found st = (r, handle h ops st)) /\
    match r with inr n => n = found + zlen ops | inl s => IsCorruption s = true end.
Proof.
  revert input found. induction fuel as [|f IH]; intros input found Hf; [lia|].
  destruct input as [|tag input].
  { exists [], (inr found). split; [done|]. unfold zlen. simpl. lia. }
  cbn [Iterate_loop]. simpl in Hf.
  assert (Hbad : forall m, exists ops (r : Status + Z),
    (forall S (h : Handler S) st, (inl (Corruption m []), st) = (r, handle h ops st)) /\
    match r with inr n => n = found + zlen ops | inl s => IsCorruption s = true end)
    by (intros m; exists [], (inl (Corruption m [])); done).
  assert (Hstep : forall o input', (length input' <= length input)%nat ->
    exists ops r, (forall S (h : Handler S) st,
      Iterate_loop f h input' (found + 1) (handle_op h st o) = (r, handle h ops st)) /\
    match r with inr n => n = found + zlen ops | inl s => IsCorruption s = true end).
  { intros o input' Hl. destruct (IH input' (found + 1)) as (ops & r & H1 & H2); [lia|].
    exists (o :: ops), r. split; [intros; apply H1|]. destruct r; [done|]. rewrite zlen_cons. lia. }
  assert (Hlen : forall i k i', GetLengthPrefixedSlice i = Some (k, i') -> (length i' <= length i)%nat).
  { intros i k i' H. apply GetLengthPrefixedSlice_sound in H as (q & -> & _). rewrite !length_app. lia. }
  destruct (byte_to_Z tag =? ValueType_code kTypeValue).
  - destruct (GetLengthPrefixedSlice input) as [[k i1]|] eqn:E1; [|apply Hbad].
    destruct (GetLengthPrefixedSlice i1) as [[v i2]|] eqn:E2; [|apply Hbad].
    apply (Hstep (OpPut k v)). apply Hlen in E1, E2. lia.
  - destruct (byte_to_Z tag =? ValueType_code kTypeDeletion); [|apply Hbad].
    destruct (GetLengthPrefixedSlice input) as [[k i1]|] eqn:E1; [|apply Hbad].
    apply (Hstep (OpDelete k)). by apply Hlen in E1.
Qed.

(** ** Inserting into a memtable *)

Definition op_entry (seq : Z) (o : Op) : Entry :=
  match o with
  | OpPut k v => mkEntry k seq kTypeValue v
  | OpDelete k => mkEntry k seq kTypeDeletion []
  end.

(** The entries of a batch, newest first. *)
Fixpoint batch_entries (seq : Z) (ops : list Op) (older : list Entry) : list Entry :=
  match ops with
  | [] => older
  | o :: ops => batch_entries (seq + 1) ops (op_entry seq o :: older)
  end.

(** The operations fit the memtable's encoding. *)
Definition op_fits (o : Op) : Prop :=
  zlen (op_key o) + 8 < 2 ^ 32 /\ match o with OpPut _ v => zlen v < 2 ^ 32 | OpDelete _ => True end.

Lemma op_fits_ok o : op_fits o -> op_ok o.
Proof. unfold op_fits. destruct o; simpl; intros [? ?]; [split|]; lia. Qed.

Lemma op_entry_fields seq o : e_seq (op_entry seq o) = seq /\ e_user_key (op_entry seq o) = op_key o.
Proof. by destruct o. Qed.

Lemma batch_entries_elem seq ops older e :
  e ∈ batch_entries seq ops older <->
  e ∈ older \/ exists i o, ops !! i = Some o /\ e = op_entry (seq + Z.of_nat i) o.
Proof.
  revert seq older. induction ops as [|o ops IH]; intros seq older; simpl.
  - split; [by left|]. intros [H|(i & o & H & _)]; [done|by rewrite lookup_nil in H].
  - rewrite IH. split.
    + intros [[->|H]%elem_of_cons|(i & o' & H & ->)]; [|by left|].
      * right. exists 0%nat, o. by rewrite Z.add_0_r.
      * right. exists (S i), o'. split; [done|]. f_equal. lia.
    + intros [H|([|i] & o' & H & ->)]; [left; set_solver| |].
      * left. injection H as ->. rewrite Z.add_0_r. set_solver.
      * right. exists i, o'. split; [done|]. f_equal. lia.
Qed.

(** The entries of a run of batches, with their first sequence numbers. *)
Definition entries_of (A : list (Z * list Op)) : list Entry := fold_left (fun es '(s, ops) => batch_entries s ops es) A [].

Lemma entries_of_snoc A s ops : entries_of (A ++ [(s, ops)]) = batch_entries s ops (entries_of A).
Proof. unfold entries_of. by rewrite fold_left_app. Qed.

Lemma entries_of_app A B : forall e, e ∈ entries_of (A ++ B) <-> e ∈ entries_of A \/ e ∈ entries_of B.
Proof.
  assert (H : forall B es e, e ∈ fold_left (fun es '(s, ops) => batch_entries s ops es) B es <-> e ∈ es \/ e ∈ entries_of B).
  { clear. intros B. induction B as [|[s ops] B IH]; intros es e; unfold entries_of; cbn [fold_left].
    - split; [by left|]. by intros [H|H%elem_of_nil].
    - rewrite !IH, !batch_entries_elem. split; [intros [[H|H]|H]|intros [H|[[H%elem_of_nil|H]|H]]]; tauto. }
  intros e. unfold entries_of at 1. rewrite fold_left_app. apply H.
Qed.

(** A batch with its first sequence number, as a record of the log. *)
Definition batch_record (g : Z * list Op) : bytes := SetSequence (build g.2) g.1.

(** Batches with sequence numbers from [lo], each after its predecessor's. *)
Fixpoint batches_from (lo : Z) (gs : list (Z * list Op)) : Prop :=
  match gs with
  | [] => True
  | (s, ops) :: gs =>
      lo <= s /\ s + zlen ops <= kMaxSequenceNumber + 1 /\ zlen ops < 2 ^ 31 /\ Forall op_fits ops /\ batches_from (s + zlen ops) gs
  end.

Lemma batches_from_app lo gs g : batches_from lo (gs ++ [g]) ->
  batches_from lo gs /\ (forall e, e ∈ entries_of gs -> e_seq e < g.1) /\ lo <= g.1 /\ g.1 + zlen g.2 <= kMaxSequenceNumber + 1 /\
  zlen g.2 < 2 ^ 31 /\ Forall op_fits g.2.
Proof.
  assert (H : forall gs lo, batches_from lo (gs ++ [g]) -> batches_from lo gs /\ lo <= g.1 /\
    g.1 + zlen g.2 <= kMaxSequenceNumber + 1 /\ zlen g.2 < 2 ^ 31 /\ Forall op_fits g.2 /\
    forall h, h ∈ gs -> h.1 + zlen h.2 <= g.1).
  { clear. intros gs. induction gs as [|[s ops] gs IH]; intros lo; cbn [app batches_from].
    - destruct g as [s ops]. intros (H1 & H2 & H3 & H4 & _). do 5 (split; [done|]). by intros h ?%elem_of_nil.
    - intros (H1 & H2 & H3 & H4 & H5). destruct (IH _ H5) as (B1 & B2 & B3 & B4 & B5 & B6). pose proof (zlen_nonneg ops).
      do 2 (split; [done || lia|]). do 3 (split; [done|]). intros h [->|Hh]%elem_of_cons; [done|by apply B6]. }
  intros (H1 & H2 & H3 & H4 & H5 & H6)%H. split; [done|]. split; [|done]. intros e He.
  assert (Hb : exists h, h ∈ gs /\ e ∈ batch_entries h.1 h.2 []).
  { clear -He. induction gs as [|h gs IH] using rev_ind; [by apply elem_of_nil in He|]. apply entries_of_app in He as [He|He].
    - destruct (IH He) as (h' & Hh & He'). exists h'. split; [apply elem_of_app; by left|done].
    - exists h. split; [apply elem_of_app; right; by left|]. destruct h as [s ops]. done. }
  destruct Hb as (h & Hh & [?%elem_of_nil|(i & o & Hi & ->)]%batch_entries_elem); [done|]. specialize (H6 h Hh).
  destruct (op_entry_fields (h.1 + Z.of_nat i) o) as [-> _]. apply lookup_lt_Some in Hi. unfold zlen in *. lia.
Qed.

Lemma batches_from_take k lo gs : batches_from lo gs -> batches_from lo (take k gs).
Proof.
  revert k lo. induction gs as [|[s ops] gs IH]; intros [|k] lo; cbn [take batches_from]; try done.
  intros (H1 & H2 & H3 & H4 & H5). do 4 (split; [done|]). by apply IH.
Qed.

Section Insertion.
Context {C : Comparator} {L : ComparatorLaws C}.

Lemma handle_inserter ops seq mem es :
  mem_repr (C := C) mem es -> (forall e, e ∈ es -> e_seq e < seq) ->
  0 <= seq -> seq + zlen ops <= kMaxSequenceNumber + 1 -> Forall op_fits ops ->
  exists mem', handle (MemTableInserter C) ops (seq, Some mem) = (seq + zlen ops, Some mem') /\
    mem_repr (C := C) mem' (batch_entries seq ops es).
Proof.
  revert seq mem es. induction ops as [|o ops IH]; intros seq mem es Hm Hold H0 Hmax Hok.
  - exists mem. simpl. by rewrite Z.add_0_r.
  - apply Forall_cons in Hok as [Ho Hok]. rewrite zlen_cons in Hmax.
    pose proof (zlen_nonneg ops). change kMaxSequenceNumber with (2 ^ 56 - 1) in *.
    destruct (op_entry_fields seq o) as [Hes Heu].
    assert (He : entry_ok (op_entry seq o)).
    { split; [rewrite Hes; change kMaxSequenceNumber with (2 ^ 56 - 1); lia|].
      rewrite Heu. split; [apply Ho|]. destruct Ho as [_ Ho]. destruct o; [exact Ho|done]. }
    destruct (MemTable_Add_repr mem es (op_entry seq o) Hm He) as (mem1 & E & Hm1).
    { intros e' He' (_ & Hs & _). specialize (Hold e' He'). lia. }
    destruct (IH (seq + 1) mem1 (op_entry seq o :: es) Hm1) as (mem' & E2 & Hm').
    + intros e' [->|He']%elem_of_cons; [lia|]. specialize (Hold e' He'). lia.
    + lia.
    + lia.
    + done.
    + exists mem'. split; [|done]. unfold handle in *. cbn [fold_left].
      replace (handle_op (MemTableInserter C) (seq, Some mem) o) with (seq + 1, Some mem1).
      { rewrite E2, zlen_cons. f_equal. lia. }
      rewrite <- E. destruct o; simpl; rewrite u64_small by lia; done.
Qed.

(** A batch goes into a memtable whole. *)
Lemma InsertInto_build ops seq mem es :
  mem_repr (C := C) mem es -> (forall e, e ∈ es -> e_seq e < seq) -> 0 <= seq -> seq + zlen ops <= kMaxSequenceNumber + 1 ->
  zlen ops < 2 ^ 31 -> Forall op_fits ops ->
  exists mem', InsertInto C (SetSequence (build ops) seq) mem = (OK, Some mem') /\
    mem_repr (C := C) mem' (batch_entries seq ops es).
Proof.
  intros Hm Hold H0 Hmax Hn Hfit. destruct (handle_inserter ops seq mem es Hm Hold H0 Hmax Hfit) as (mem' & E & Hm').
  change kMaxSequenceNumber with (2 ^ 56 - 1) in Hmax. exists mem'. split; [|done].
  pose proof (zlen_nonneg ops). unfold InsertInto. rewrite (build_batch ops Hn), SetSequence_batch.
  rewrite Sequence_batch by lia. rewrite Iterate_batch; [by rewrite E| |done].
  eapply Forall_impl; [exact Hfit|]. apply op_fits_ok.
Qed.
End Insertion.

(** ** Properties *)

(** C25: a batch holds the operations it was built from: [Count] and [Sequence]
    are right, [Iterate] hands any handler exactly the operations in order and
    succeeds, and appending a batch to another gives the batch of both
    sequences of operations. *)
Theorem write_batch_roundtrip (ops ops2 : list Op) (seq : Z) (S : Type) (h : Handler S) (st : S)
    (Hok : Forall op_ok ops) (Hn : zlen ops + zlen ops2 < 2 ^ 31) (Hs : 0 <= seq < 2 ^ 64) :
  let b := SetSequence (build ops) seq in
  Iterate h b st = (OK, handle h ops st) /\ Count b = zlen ops /\ Sequence b = seq /\
  WriteBatch_Append (build ops) (build ops2) = build (ops ++ ops2).
Proof.
  pose proof (zlen_nonneg ops). pose proof (zlen_nonneg ops2).
  cbn zeta. rewrite !build_batch by (rewrite ?zlen_app; lia). rewrite SetSequence_batch.
  split; [apply Iterate_batch; [done|lia]|]. split; [apply Count_batch; lia|].
  split; [by apply Sequence_batch|]. rewrite <- !build_batch by (rewrite ?zlen_app; lia). by apply Append_build.
Qed.

Lemma write_batch_roundtrip_witness :
  Iterate (mkHandler (fun k v l => l ++ [(k, Some v)]) (fun k l => l ++ [(k, None)]))
    (SetSequence (build [OpPut (cstr "a") (cstr "1"); OpDelete (cstr "b")]) 100) []
  = (OK, [(cstr "a", Some (cstr "1")); (cstr "b", None)]).
Proof.
  refine (proj1 (write_batch_roundtrip [OpPut (cstr "a") (cstr "1"); OpDelete (cstr "b")] [] 100 _
    (mkHandler (fun k v l => l ++ [(k, Some v)]) (fun k l => l ++ [(k, None)])) [] _ _ _)).
  - repeat constructor.
  - reflexivity.
  - lia.
Defined.

(** On any bytes, [Iterate] delivers a sequence of operations and a status
    that depend on the bytes only; OK means that the sequence has the length
    the header announces, everything else is reported as corruption. *)
Theorem write_batch_iterate_any (rep : bytes) :
  exists ops s, (forall S (h : Handler S) st, Iterate h rep st = (s, handle h ops st)) /\
    (s = OK /\ Count rep = zlen ops \/ IsCorruption s = true).
Proof.
  unfold Iterate. destruct (Z.ltb_spec (zlen rep) (Z.of_nat kHeader)) as [|Hl].
  { exists [], (Corruption (cstr "malformed WriteBatch (too small)") []). split; [done|by right]. }
  destruct (Iterate_loop_any (length rep) (drop kHeader rep) 0) as (ops & r & Hr & Hres).
  { rewrite length_drop. unfold zlen, kHeader in *. lia. }
  destruct r as [s|found].
  - exists ops, s. split; [|by right]. intros. by rewrite Hr.
  - destruct (Z.eqb_spec found (Count rep)) as [Hc|Hc].
    + exists ops, OK. split; [|left; split; [done|lia]]. intros. rewrite Hr.
      by rewrite (proj2 (Z.eqb_eq _ _) Hc).
    + exists ops, (Corruption (cstr "WriteBatch has wrong count") []). split; [|by right].
      intros. rewrite Hr. by rewrite (proj2 (Z.eqb_neq _ _) Hc).
Qed.

(** C7: a batch inserted into a memtable is read back.  Its operations get
    consecutive sequence numbers, and a lookup at the batch's last number sees,
    for a key the batch wrote, its last operation on the key: the value put,
    or [NotFound] for a deletion. *)
Theorem write_batch_then_get (C : Comparator) (L : ComparatorLaws C)
    (mem : MemTable) (es : list Entry) (seq : Z) (o1 o2 : list Op) (o : Op)
    (u value : bytes) (st : Status)
    (Hm : mem_repr (C := C) mem es) (Hold : forall e, e ∈ es -> e_seq e < seq)
    (H0 : 0 <= seq) (Hmax : seq + zlen (o1 ++ o :: o2) <= kMaxSequenceNumber + 1)
    (Hn : zlen (o1 ++ o :: o2) < 2 ^ 31) (Hfit : Forall op_fits (o1 ++ o :: o2))
    (Hu : Compare u (op_key o) = Eq) (Hul : zlen u + 8 < 2 ^ 32)
    (Hlast : forall o', o' ∈ o2 -> Compare u (op_key o') <> Eq) :
  let ops := o1 ++ o :: o2 in
  exists mem', InsertInto C (SetSequence (build ops) seq) mem = (OK, Some mem') /\
    mem_repr (C := C) mem' (batch_entries seq ops es) /\
    MemTable_Get C mem' (LookupKey_new u (seq + zlen ops - 1)) value st =
      Some match o with
           | OpPut _ v => (true, v, st)
           | OpDelete _ => (true, value, NotFound [] [])
           end.
Proof.
  intros ops. fold ops in Hmax, Hn, Hfit. pose proof Hmax as Hmax'. change kMaxSequenceNumber with (2 ^ 56 - 1) in Hmax'.
  destruct (InsertInto_build ops seq mem es Hm Hold H0 Hmax Hn Hfit) as (mem' & E & Hm').
  exists mem'. split; [done|]. split; [done|].
  assert (Hlen : zlen ops = zlen o1 + 1 + zlen o2) by (unfold ops; rewrite zlen_app, zlen_cons; lia).
  pose proof (zlen_nonneg o1). pose proof (zlen_nonneg o2).
  set (eo := op_entry (seq + zlen o1) o). destruct (op_entry_fields (seq + zlen o1) o) as [Hes Heu].
  assert (Heo : eo ∈ batch_entries seq ops es).
  { apply batch_entries_elem. right. exists (length o1), o. split; [|done].
    unfold ops. by rewrite list_lookup_middle. }
  assert (Hv : visible (C := C) u (seq + zlen ops - 1) eo).
  { split; unfold eo; [by rewrite Heu|rewrite Hes; lia]. }
  destruct (MemTable_Get_spec mem' _ u (seq + zlen ops - 1) value st Hm') as
    [(e' & (He' & Hv' & Hmaxe) & ->)|[Hno _]].
  - change kMaxSequenceNumber with (2 ^ 56 - 1). lia.
  - done.
  - assert (e' = eo) as ->; [|unfold eo; by destruct o].
    specialize (Hmaxe eo Heo Hv). unfold eo in Hmaxe. rewrite Hes in Hmaxe.
    apply batch_entries_elem in He' as [He'|(i & o' & Hi & ->)].
    + specialize (Hold e' He'). lia.
    + destruct (op_entry_fields (seq + Z.of_nat i) o') as [Hes' Heu']. rewrite Hes' in Hmaxe.
      destruct (decide (i = length o1)) as [->|Hne].
      { unfold ops in Hi. rewrite list_lookup_middle in Hi by done. by injection Hi as ->. }
      exfalso. apply (Hlast o').
      * unfold ops in Hi. rewrite lookup_app_r in Hi by (unfold zlen in *; lia).
        destruct (i - length o1)%nat as [|k] eqn:Ek; [unfold zlen in *; lia|]. simpl in Hi.
        by apply list_elem_of_lookup_2 in Hi.
      * destruct Hv' as [Hv' _]. by rewrite Heu' in Hv'.
  - by destruct (Hno eo Heo).
Qed.

Lemma write_batch_then_get_witness :
  let ops := [OpPut (cstr "k") (cstr "1")] ++ OpPut (cstr "k") (cstr "2") :: [OpDelete (cstr "j")] in
  exists mem', InsertInto BytewiseComparator (SetSequence (build ops) 5) MemTable_new = (OK, Some mem') /\
    MemTable_Get BytewiseComparator mem' (LookupKey_new (cstr "k") 7) [] OK = Some (true, cstr "2", OK).
Proof.
  destruct (write_batch_then_get BytewiseComparator BytewiseComparator_laws MemTable_new [] 5
    [OpPut (cstr "k") (cstr "1")] [OpDelete (cstr "j")] (OpPut (cstr "k") (cstr "2")) (cstr "k") [] OK
    MemTable_new_repr) as (mem' & H1 & _ & H2).
  - set_solver.
  - lia.
  - vm_compute. discriminate.
  - reflexivity.
  - repeat constructor.
  - reflexivity.
  - reflexivity.
  - intros o' ->%list_elem_of_singleton. vm_compute. discriminate.
  - exists mem'. split; [exact H1|exact H2].
Defined.
