(* ===== verification/VersionEdit.v ===== *)
(** * db/version_edit: changes of the set of tables

    Models src/db/version_edit.h and src/db/version_edit.cc: an edit of a
    version, its setters, and its encoding in the manifest.  Internal keys are
    their encodings; [std::set] is a strictly sorted list. *)

From Stdlib Require Import Sorted.
From stdpp Require Import sets sorting.
From S2P Require Import Prelude Coding Logging DbFormat Status.

(** ** Files and edits *)

Record FileMetaData := mkFile {
  refs : Z;
  allowed_seeks : Z;
  number : Z;
  file_size : Z;
  smallest : bytes;
  largest : bytes;
}.

(** A file as the constructor leaves it, with the members the callers then set. *)
Definition FileMetaData_new (n size : Z) (small large : bytes) : FileMetaData :=
  mkFile 0 (2 ^ 30) n size small large.

Record VersionEdit := mkVersionEdit {
  comparator_ : bytes;
  log_number_ : Z;
  prev_log_number_ : Z;
  next_file_number_ : Z;
  last_sequence_ : Z;
  has_comparator_ : bool;
  has_log_number_ : bool;
  has_prev_log_number_ : bool;
  has_next_file_number_ : bool;
  has_last_sequence_ : bool;
  compact_pointers_ : list (Z * bytes);
  deleted_files_ : list (Z * Z);
  new_files_ : list (Z * FileMetaData);
}.

Definition Clear : VersionEdit :=
  mkVersionEdit [] 0 0 0 0 false false false false false [] [] [].

Definition SetComparatorName (e : VersionEdit) (name : bytes) : VersionEdit :=
  mkVersionEdit (name) (log_number_ e) (prev_log_number_ e) (next_file_number_ e) (last_sequence_ e)
    (true) (has_log_number_ e) (has_prev_log_number_ e) (has_next_file_number_ e) (has_last_sequence_ e)
    (compact_pointers_ e) (deleted_files_ e) (new_files_ e).

Definition SetLogNumber (e : VersionEdit) (num : Z) : VersionEdit :=
  mkVersionEdit (comparator_ e) (num) (prev_log_number_ e) (next_file_number_ e) (last_sequence_ e)
    (has_comparator_ e) (true) (has_prev_log_number_ e) (has_next_file_number_ e) (has_last_sequence_ e)
    (compact_pointers_ e) (deleted_files_ e) (new_files_ e).

Definition SetPrevLogNumber (e : VersionEdit) (num : Z) : VersionEdit :=
  mkVersionEdit (comparator_ e) (log_number_ e) (num) (next_file_number_ e) (last_sequence_ e)
    (has_comparator_ e) (has_log_number_ e) (true) (has_next_file_number_ e) (has_last_sequence_ e)
    (compact_pointers_ e) (deleted_files_ e) (new_files_ e).

Definition SetNextFile (e : VersionEdit) (num : Z) : VersionEdit :=
  mkVersionEdit (comparator_ e) (log_number_ e) (prev_log_number_ e) (num) (last_sequence_ e)
    (has_comparator_ e) (has_log_number_ e) (has_prev_log_number_ e) (true) (has_last_sequence_ e)
    (compact_pointers_ e) (deleted_files_ e) (new_files_ e).

Definition SetLastSequence (e : VersionEdit) (seq : Z) : VersionEdit :=
  mkVersionEdit (comparator_ e) (log_number_ e) (prev_log_number_ e) (next_file_number_ e) (seq)
    (has_comparator_ e) (has_log_number_ e) (has_prev_log_number_ e) (has_next_file_number_ e) (true)
    (compact_pointers_ e) (deleted_files_ e) (new_files_ e).

Definition SetCompactPointer (e : VersionEdit) (level : Z) (key : bytes) : VersionEdit :=
  mkVersionEdit (comparator_ e) (log_number_ e) (prev_log_number_ e) (next_file_number_ e) (last_sequence_ e)
    (has_comparator_ e) (has_log_number_ e) (has_prev_log_number_ e) (has_next_file_number_ e) (has_last_sequence_ e)
    (compact_pointers_ e ++ [(level, key)]) (deleted_files_ e) (new_files_ e).

(** [new_files_.push_back(std::make_pair(level, f))] *)
Definition push_file (e : VersionEdit) (level : Z) (f : FileMetaData) : VersionEdit :=
  mkVersionEdit (comparator_ e) (log_number_ e) (prev_log_number_ e) (next_file_number_ e) (last_sequence_ e)
    (has_comparator_ e) (has_log_number_ e) (has_prev_log_number_ e) (has_next_file_number_ e) (has_last_sequence_ e)
    (compact_pointers_ e) (deleted_files_ e) (new_files_ e ++ [(level, f)]).

Definition AddFile (e : VersionEdit) (level file size : Z) (small large : bytes) : VersionEdit :=
  push_file e level (FileMetaData_new file size small large).

(** The order of [std::pair<int, uint64_t>]. *)
Definition pair_ltb (a b : Z * Z) : bool :=
  (a.1 <? b.1) || ((a.1 =? b.1) && (a.2 <? b.2)).

Fixpoint set_insert (p : Z * Z) (l : list (Z * Z)) : list (Z * Z) :=
  match l with
  | [] => [p]
  | q :: l' =>
      if pair_ltb p q then p :: l
      else if pair_ltb q p then q :: set_insert p l'
      else l
  end.

Definition RemoveFile (e : VersionEdit) (level file : Z) : VersionEdit :=
  mkVersionEdit (comparator_ e) (log_number_ e) (prev_log_number_ e) (next_file_number_ e) (last_sequence_ e)
    (has_comparator_ e) (has_log_number_ e) (has_prev_log_number_ e) (has_next_file_number_ e) (has_last_sequence_ e)
    (compact_pointers_ e) (set_insert (level, file) (deleted_files_ e)) (new_files_ e).

(** ** Encoding *)

Definition kComparator : Z := 1.
Definition kLogNumber : Z := 2.
Definition kNextFileNumber : Z := 3.
Definition kLastSequence : Z := 4.
Definition kCompactPointer : Z := 5.
Definition kDeletedFile : Z := 6.
Definition kNewFile : Z := 7.
Definition kPrevLogNumber : Z := 9.

Definition PutTagged64 (tag : Z) (dst : bytes) (has : bool) (v : Z) : bytes :=
  if has then PutVarint64 (PutVarint32 dst tag) v else dst.

Definition put_compact_pointer (dst : bytes) (p : Z * bytes) : bytes :=
  PutLengthPrefixedSlice (PutVarint32 (PutVarint32 dst kCompactPointer) (u32 p.1)) p.2.

Definition put_deleted_file (dst : bytes) (p : Z * Z) : bytes :=
  PutVarint64 (PutVarint32 (PutVarint32 dst kDeletedFile) (u32 p.1)) p.2.

Definition put_new_file (dst : bytes) (p : Z * FileMetaData) : bytes :=
  let f := p.2 in
  let dst := PutVarint32 (PutVarint32 dst kNewFile) (u32 p.1) in
  let dst := PutVarint64 (PutVarint64 dst (number f)) (file_size f) in
  PutLengthPrefixedSlice (PutLengthPrefixedSlice dst (smallest f)) (largest f).

Definition EncodeTo (e : VersionEdit) (dst : bytes) : bytes :=
  let dst := if has_comparator_ e
             then PutLengthPrefixedSlice (PutVarint32 dst kComparator) (comparator_ e) else dst in
  let dst := PutTagged64 kLogNumber dst (has_log_number_ e) (log_number_ e) in
  let dst := PutTagged64 kPrevLogNumber dst (has_prev_log_number_ e) (prev_log_number_ e) in
  let dst := PutTagged64 kNextFileNumber dst (has_next_file_number_ e) (next_file_number_ e) in
  let dst := PutTagged64 kLastSequence dst (has_last_sequence_ e) (last_sequence_ e) in
  let dst := fold_left put_compact_pointer (compact_pointers_ e) dst in
  let dst := fold_left put_deleted_file (deleted_files_ e) dst in
  fold_left put_new_file (new_files_ e) dst.

(** ** Decoding *)

(** [InternalKey::DecodeFrom] fails on an empty key. *)
Definition GetInternalKey (input : bytes) : option (bytes * bytes) :=
  match GetLengthPrefixedSlice input with
  | Some (str, input') => if (zlen str =? 0) then None else Some (str, input')
  | None => None
  end.

Definition GetLevel (input : bytes) : option (Z * bytes) :=
  match GetVarint32 input with
  | Some (v, input') => if v <? Z.of_nat kNumLevels then Some (v, input') else None
  | None => None
  end.

(** A conjunct of a condition: the parsed value, or the message of the branch. *)
Definition or_msg {A} (o : option A) (msg : string) : bytes + A :=
  match o with Some x => inr x | None => inl (cstr msg) end.

Definition sum_bind {A B} (m : bytes + A) (k : A -> bytes + B) : bytes + B :=
  match m with inl msg => inl msg | inr x => k x end.

(** The body of the [switch]: the message, or the rest of the input and the
    edit with the field added. *)
Definition DecodeFrom_field (tag : Z) (input : bytes) (e : VersionEdit) : bytes + (bytes * VersionEdit) :=
  if tag =? kComparator then
    sum_bind (or_msg (GetLengthPrefixedSlice input) "comparator name") (fun '(str, input) =>
    inr (input, SetComparatorName e str))
  else if tag =? kLogNumber then
    sum_bind (or_msg (GetVarint64 input) "log number") (fun '(n, input) => inr (input, SetLogNumber e n))
  else if tag =? kPrevLogNumber then
    sum_bind (or_msg (GetVarint64 input) "previous log number") (fun '(n, input) =>
    inr (input, SetPrevLogNumber e n))
  else if tag =? kNextFileNumber then
    sum_bind (or_msg (GetVarint64 input) "next file number") (fun '(n, input) =>
    inr (input, SetNextFile e n))
  else if tag =? kLastSequence then
    sum_bind (or_msg (GetVarint64 input) "last sequence number") (fun '(n, input) =>
    inr (input, SetLastSequence e n))
  else if tag =? kCompactPointer then
    sum_bind (or_msg (GetLevel input) "compaction pointer") (fun '(level, input) =>
    sum_bind (or_msg (GetInternalKey input) "compaction pointer") (fun '(key, input) =>
    inr (input, SetCompactPointer e level key)))
  else if tag =? kDeletedFile then
    sum_bind (or_msg (GetLevel input) "deleted file") (fun '(level, input) =>
    sum_bind (or_msg (GetVarint64 input) "deleted file") (fun '(n, input) =>
    inr (input, RemoveFile e level n)))
  else if tag =? kNewFile then
    sum_bind (or_msg (GetLevel input) "new-file entry") (fun '(level, input) =>
    sum_bind (or_msg (GetVarint64 input) "new-file entry") (fun '(n, input) =>
    sum_bind (or_msg (GetVarint64 input) "new-file entry") (fun '(size, input) =>
    sum_bind (or_msg (GetInternalKey input) "new-file entry") (fun '(small, input) =>
    sum_bind (or_msg (GetInternalKey input) "new-file entry") (fun '(large, input) =>
    inr (input, push_file e level (FileMetaData_new n size small large)))))))
  else inl (cstr "unknown tag").

(** The loop: the message, the rest of the input and the edit read so far.
    Every round consumes at least the byte of the tag. *)
Fixpoint DecodeFrom_loop (fuel : nat) (input : bytes) (e : VersionEdit)
    : option bytes * bytes * VersionEdit :=
  match fuel with
  | O => (None, input, e)
  | S f =>
      match GetVarint32 input with
      | None => (None, input, e)
      | Some (tag, input) =>
          match DecodeFrom_field tag input e with
          | inl msg => (Some msg, input, e)
          | inr (input, e) => DecodeFrom_loop f input e
          end
      end
  end.

(** [DecodeFrom]: the status and the edit, which keeps the fields read before
    an error. *)
Definition DecodeFrom (src : bytes) : Status * VersionEdit :=
  let '(msg, input, e) := DecodeFrom_loop (S (length src)) src Clear in
  let msg := match msg with
             | Some m => Some m
             | None => if zlen input =? 0 then None else Some (cstr "invalid tag")
             end in
  (match msg with
   | Some m => Corruption (cstr "VersionEdit") m
   | None => OK
   end, e).

(** ** Text *)

Definition VersionEdit_DebugString (e : VersionEdit) : bytes :=
  let tagged (r : bytes) (has : bool) (name : bytes) (v : Z) :=
    if has then AppendNumberTo (r ++ name) v else r in
  let r := cstr "VersionEdit {" in
  let r := if has_comparator_ e then r ++ [x0a] ++ cstr "  Comparator: " ++ comparator_ e else r in
  let r := tagged r (has_log_number_ e) ([x0a] ++ cstr "  LogNumber: ") (log_number_ e) in
  let r := tagged r (has_prev_log_number_ e) ([x0a] ++ cstr "  PrevLogNumber: ") (prev_log_number_ e) in
  let r := tagged r (has_next_file_number_ e) ([x0a] ++ cstr "  NextFile: ") (next_file_number_ e) in
  let r := tagged r (has_last_sequence_ e) ([x0a] ++ cstr "  LastSeq: ") (last_sequence_ e) in
  let r := fold_left (fun r '(level, key) =>
    AppendNumberTo (r ++ [x0a] ++ cstr "  CompactPointer: ") (u64 level) ++ cstr " "
      ++ InternalKey_DebugString key) (compact_pointers_ e) r in
  let r := fold_left (fun r '(level, n) =>
    AppendNumberTo (AppendNumberTo (r ++ [x0a] ++ cstr "  RemoveFile: ") (u64 level) ++ cstr " ") n)
    (deleted_files_ e) r in
  let r := fold_left (fun r '(level, f) =>
    let r := AppendNumberTo (r ++ [x0a] ++ cstr "  AddFile: ") (u64 level) ++ cstr " " in
    let r := AppendNumberTo r (number f) ++ cstr " " in
    let r := AppendNumberTo r (file_size f) ++ cstr " " in
    r ++ InternalKey_DebugString (smallest f) ++ cstr " .. " ++ InternalKey_DebugString (largest f))
    (new_files_ e) r in
  r ++ [x0a] ++ cstr "}" ++ [x0a].

(** ** The type invariant *)

(** A file as edits carry them. *)
Definition file_ok (f : FileMetaData) : Prop :=
  refs f = 0 /\ allowed_seeks f = 2 ^ 30 /\ 0 <= number f < 2 ^ 64 /\ 0 <= file_size f < 2 ^ 64 /\
  smallest f <> [] /\ zlen (smallest f) < 2 ^ 32 /\ largest f <> [] /\ zlen (largest f) < 2 ^ 32.

Definition level_ok (level : Z) : Prop := 0 <= level < Z.of_nat kNumLevels.

(** A number that is 0 while its flag is off. *)
Definition opt_ok (has : bool) (v : Z) : Prop := 0 <= v < 2 ^ 64 /\ (has = false -> v = 0).

Definition pair_lt (a b : Z * Z) : Prop := pair_ltb a b = true.

Record edit_ok (e : VersionEdit) : Prop := {
  ok_comparator : zlen (comparator_ e) < 2 ^ 32 /\ (has_comparator_ e = false -> comparator_ e = []);
  ok_log : opt_ok (has_log_number_ e) (log_number_ e);
  ok_prev_log : opt_ok (has_prev_log_number_ e) (prev_log_number_ e);
  ok_next : opt_ok (has_next_file_number_ e) (next_file_number_ e);
  ok_last : opt_ok (has_last_sequence_ e) (last_sequence_ e);
  ok_pointers : Forall (fun p => level_ok p.1 /\ p.2 <> [] /\ zlen p.2 < 2 ^ 32) (compact_pointers_ e);
  ok_deleted : Forall (fun p => level_ok p.1 /\ 0 <= p.2 < 2 ^ 64) (deleted_files_ e);
  ok_sorted : StronglySorted pair_lt (deleted_files_ e);
  ok_new : Forall (fun p => level_ok p.1 /\ file_ok p.2) (new_files_ e);
}.

Lemma pair_ltb_spec a b : pair_ltb a b = true <-> a.1 < b.1 \/ (a.1 = b.1 /\ a.2 < b.2).
Proof. unfold pair_ltb. rewrite orb_true_iff, andb_true_iff. lia. Qed.

Lemma pair_lt_trans a b c : pair_lt a b -> pair_lt b c -> pair_lt a c.
Proof. unfold pair_lt. rewrite !pair_ltb_spec. lia. Qed.

Lemma pair_ltb_total a b : pair_ltb a b = false -> pair_ltb b a = false -> a = b.
Proof.
  intros H1 H2. destruct a as [a1 a2], b as [b1 b2].
  assert (~ pair_ltb (a1, a2) (b1, b2) = true) as H1' by congruence.
  assert (~ pair_ltb (b1, b2) (a1, a2) = true) as H2' by congruence.
  rewrite pair_ltb_spec in H1', H2'. simpl in *. f_equal; lia.
Qed.

Lemma set_insert_elem p q l : q ∈ set_insert p l <-> q = p \/ q ∈ l.
Proof.
  induction l as [|r l IH]; cbn [set_insert].
  - rewrite elem_of_cons. done.
  - destruct (pair_ltb p r) eqn:E1; [by rewrite elem_of_cons|].
    destruct (pair_ltb r p) eqn:E2; [rewrite !elem_of_cons, IH; naive_solver|].
    rewrite (pair_ltb_total _ _ E1 E2), !elem_of_cons. naive_solver.
Qed.

Lemma set_insert_sorted p l : StronglySorted pair_lt l -> StronglySorted pair_lt (set_insert p l).
Proof.
  induction 1 as [|r l Hs IH Hr]; cbn [set_insert]; [repeat constructor|].
  destruct (pair_ltb p r) eqn:E1.
  { constructor; [by constructor|]. constructor; [done|].
    eapply List.Forall_impl; [|exact Hr]. intros x. by apply pair_lt_trans. }
  destruct (pair_ltb r p) eqn:E2; [|by constructor].
  constructor; [done|]. apply Forall_forall. intros x [->|Hx]%set_insert_elem; [done|].
  by apply (proj1 (Forall_forall _ _) Hr).
Qed.

(** Inserting in increasing order appends. *)
Lemma set_insert_last p l : StronglySorted pair_lt (l ++ [p]) -> set_insert p l = l ++ [p].
Proof.
  induction l as [|r l IH]; [done|]. cbn [app]. intros [Hs Hr]%StronglySorted_inv.
  assert (pair_lt r p) as H by (apply (proj1 (Forall_forall _ _) Hr); set_solver).
  cbn [set_insert]. rewrite H. destruct (pair_ltb p r) eqn:E.
  - exfalso. assert (pair_lt r r) as H' by exact (pair_lt_trans _ _ _ H E).
    unfold pair_lt in H'. rewrite pair_ltb_spec in H'. lia.
  - by rewrite IH.
Qed.

Lemma Clear_ok : edit_ok Clear.
Proof. split; repeat constructor; simpl; lia. Qed.

Ltac edit_step H := destruct H; split; simpl; rewrite ?Forall_app; auto.

Lemma SetComparatorName_ok e name : zlen name < 2 ^ 32 -> edit_ok e -> edit_ok (SetComparatorName e name).
Proof. intros Hn H. edit_step H. done. Qed.

Lemma SetLogNumber_ok e n : 0 <= n < 2 ^ 64 -> edit_ok e -> edit_ok (SetLogNumber e n).
Proof. intros Hn H. edit_step H. done. Qed.

Lemma SetPrevLogNumber_ok e n : 0 <= n < 2 ^ 64 -> edit_ok e -> edit_ok (SetPrevLogNumber e n).
Proof. intros Hn H. edit_step H. done. Qed.

Lemma SetNextFile_ok e n : 0 <= n < 2 ^ 64 -> edit_ok e -> edit_ok (SetNextFile e n).
Proof. intros Hn H. edit_step H. done. Qed.

Lemma SetLastSequence_ok e n : 0 <= n < 2 ^ 64 -> edit_ok e -> edit_ok (SetLastSequence e n).
Proof. intros Hn H. edit_step H. done. Qed.

Lemma SetCompactPointer_ok e l k :
  level_ok l -> k <> [] -> zlen k < 2 ^ 32 -> edit_ok e -> edit_ok (SetCompactPointer e l k).
Proof. intros Hl Hk Hn H. edit_step H. Qed.

Lemma push_file_ok e l f : level_ok l -> file_ok f -> edit_ok e -> edit_ok (push_file e l f).
Proof. intros Hl Hf H. edit_step H. Qed.

Lemma RemoveFile_ok e l n : level_ok l -> 0 <= n < 2 ^ 64 -> edit_ok e -> edit_ok (RemoveFile e l n).
Proof.
  intros Hl Hn H. edit_step H.
  - apply Forall_forall. intros p [->|Hp]%set_insert_elem; [done|].
    by apply (proj1 (Forall_forall _ _) ok_deleted0).
  - by apply set_insert_sorted.
Qed.

#[export] Hint Resolve Clear_ok SetComparatorName_ok SetLogNumber_ok SetPrevLogNumber_ok SetNextFile_ok
  SetLastSequence_ok SetCompactPointer_ok push_file_ok RemoveFile_ok : ldb.

(** ** Soundness of decoding *)

Lemma GetLevel_sound p l rest :
  GetLevel p = Some (l, rest) -> level_ok l /\ (length rest <= length p)%nat.
Proof.
  unfold GetLevel. destruct (GetVarint32 p) as [[v p']|] eqn:E; [|done].
  apply GetVarint32_sound in E as (Hv & q & -> & Hq). rewrite length_app.
  destruct (Z.ltb_spec v (Z.of_nat kNumLevels)); [|done]. intros Heq. simplify_eq.
  unfold level_ok. lia.
Qed.

Lemma GetInternalKey_sound p k rest :
  GetInternalKey p = Some (k, rest) -> k <> [] /\ zlen k < 2 ^ 32 /\ (length rest <= length p)%nat.
Proof.
  unfold GetInternalKey. destruct (GetLengthPrefixedSlice p) as [[s p']|] eqn:E; [|done].
  apply GetLengthPrefixedSlice_sound in E as (q & -> & Hq & Hs). rewrite !length_app.
  destruct (Z.eqb_spec (zlen s) 0) as [|Hz]; [done|]. intros Heq. simplify_eq.
  split; [by intros ->|]. lia.
Qed.

Lemma GetVarint64_sound' p v rest :
  GetVarint64 p = Some (v, rest) -> 0 <= v < 2 ^ 64 /\ (length rest <= length p)%nat.
Proof. intros (Hv & q & -> & Hq)%GetVarint64_sound. rewrite length_app. lia. Qed.

Lemma GetLengthPrefixedSlice_sound' p s rest :
  GetLengthPrefixedSlice p = Some (s, rest) -> zlen s < 2 ^ 32 /\ (length rest <= length p)%nat.
Proof. intros (q & -> & Hq & Hs)%GetLengthPrefixedSlice_sound. rewrite !length_app. lia. Qed.

(** Reduce a bind of the decoder to its successful case. *)
Ltac step_bind H :=
  match type of H with
  | sum_bind (or_msg ?o _) _ = inr _ =>
      let E := fresh "E" in destruct o as [[]|] eqn:E; [|discriminate H]; cbn [or_msg sum_bind] in H;
      first [apply GetVarint64_sound' in E | apply GetLengthPrefixedSlice_sound' in E
            | apply GetLevel_sound in E | apply GetInternalKey_sound in E];
      destruct_and! E
  end.

(** Every field that is read keeps the invariant and only consumes input. *)
Lemma DecodeFrom_field_sound tag input e input' e' :
  DecodeFrom_field tag input e = inr (input', e') ->
  (length input' <= length input)%nat /\ (edit_ok e -> edit_ok e').
Proof.
  unfold DecodeFrom_field. intros H.
  repeat match type of H with
  | (if ?b then _ else _) = _ => destruct b; [repeat step_bind H|]
  end; [..|done]; injection H as <- <-; (split; [lia|]); intros He; auto with ldb.
  apply push_file_ok; [done| |done]. repeat split; simpl; done || lia.
Qed.

Lemma DecodeFrom_loop_ok fuel input e msg rest e' :
  DecodeFrom_loop fuel input e = (msg, rest, e') -> edit_ok e -> edit_ok e'.
Proof.
  revert input e. induction fuel as [|f IH]; intros input e; cbn [DecodeFrom_loop].
  { intros [= _ _ <-]. done. }
  destruct (GetVarint32 input) as [[tag input1]|]; [|intros [= _ _ <-]; done].
  destruct (DecodeFrom_field tag input1 e) as [m|[input2 e2]] eqn:E; [intros [= _ _ <-]; done|].
  apply DecodeFrom_field_sound in E as [_ E]. eauto.
Qed.

(** ** Round trip *)

(** The loop with all the fuel it needs. *)
Definition run (input : bytes) (e : VersionEdit) := DecodeFrom_loop (S (length input)) input e.

Lemma DecodeFrom_loop_fuel f input e :
  (length input < f)%nat -> DecodeFrom_loop f input e = run input e.
Proof.
  unfold run. revert input e. induction f as [f IH] using lt_wf_ind. intros input e Hf.
  destruct f as [|f]; [lia|]. cbn [DecodeFrom_loop].
  destruct (GetVarint32 input) as [[tag input1]|] eqn:Eg; [|done].
  destruct (DecodeFrom_field tag input1 e) as [m|[input2 e2]] eqn:E; [done|].
  apply DecodeFrom_field_sound in E as [E _].
  apply GetVarint32_sound in Eg as (_ & q & -> & Hq). rewrite length_app in *.
  rewrite (IH f) by lia. destruct (decide (f = length q + length input1)%nat) as [->|].
  - by rewrite (IH (length q + length input1)%nat) by lia.
  - by rewrite (IH (length q + length input1)%nat) by lia.
Qed.

Lemma run_field tag payload rest e e' :
  0 <= tag < 2 ^ 32 -> DecodeFrom_field tag (payload ++ rest) e = inr (rest, e') ->
  run (PutVarint32 [] tag ++ payload ++ rest) e = run rest e'.
Proof.
  intros Ht H. unfold run at 1. cbn [DecodeFrom_loop PutVarint32 app].
  rewrite GetVarint32_encode, H by done. apply DecodeFrom_loop_fuel.
  unfold PutVarint32. rewrite !length_app. pose proof (EncodeVarint32_length tag). simpl. lia.
Qed.

Lemma GetLevel_put l rest : level_ok l -> GetLevel (PutVarint32 [] (u32 l) ++ rest) = Some (l, rest).
Proof.
  unfold level_ok, GetLevel, PutVarint32. intros Hl. change (Z.of_nat kNumLevels) with 7 in *.
  rewrite u32_small by lia. cbn [app]. rewrite GetVarint32_encode by lia.
  by rewrite (proj2 (Z.ltb_lt _ _)) by lia.
Qed.

Lemma GetInternalKey_put k rest :
  k <> [] -> zlen k < 2 ^ 32 ->
  GetInternalKey (PutLengthPrefixedSlice [] k ++ rest) = Some (k, rest).
Proof.
  intros Hk Hl. unfold GetInternalKey. rewrite GetLengthPrefixedSlice_put by done.
  destruct k; [done|]. rewrite zlen_cons. destruct (Z.eqb_spec (1 + zlen k) 0); [|done].
  unfold zlen in *. lia.
Qed.

Lemma run_tagged64 tag set rest e has v :
  0 <= tag < 2 ^ 32 -> 0 <= v < 2 ^ 64 ->
  (forall r, DecodeFrom_field tag (EncodeVarint64 v ++ r) e = inr (r, set e v)) ->
  run (PutTagged64 tag [] has v ++ rest) e = run rest (if has then set e v else e).
Proof.
  intros Ht Hv Hf. destruct has; cbn [PutTagged64]; [|done].
  unfold PutVarint64. rewrite <- app_assoc. by apply run_field.
Qed.

Lemma run_compact_pointers l e rest :
  Forall (fun p => level_ok p.1 /\ p.2 <> [] /\ zlen p.2 < 2 ^ 32) l ->
  run (concat (map (put_compact_pointer []) l) ++ rest) e =
  run rest (fold_left (fun e p => SetCompactPointer e p.1 p.2) l e).
Proof.
  intros Hl. revert e. induction Hl as [|[lv k] l (Hlv & Hk & Hkl) Hl IH]; intros e; [done|].
  cbn [map concat fold_left fst snd] in *. rewrite <- IH. unfold put_compact_pointer. cbn [fst snd].
  unfold PutVarint32 at 1. rewrite PutLengthPrefixedSlice_app, <- !app_assoc.
  rewrite !(app_assoc (EncodeVarint32 (u32 lv))). apply run_field; [done|].
  unfold DecodeFrom_field. cbn [Z.eqb kCompactPointer kComparator kLogNumber kPrevLogNumber
    kNextFileNumber kLastSequence Pos.eqb].
  rewrite <- !app_assoc. rewrite (GetLevel_put lv) by done. cbn [or_msg sum_bind].
  by rewrite GetInternalKey_put.
Qed.

Lemma run_deleted_files l e rest :
  Forall (fun p => level_ok p.1 /\ 0 <= p.2 < 2 ^ 64) l ->
  run (concat (map (put_deleted_file []) l) ++ rest) e =
  run rest (fold_left (fun e p => RemoveFile e p.1 p.2) l e).
Proof.
  intros Hl. revert e. induction Hl as [|[lv n] l (Hlv & Hn) Hl IH]; intros e; [done|].
  cbn [map concat fold_left fst snd] in *. rewrite <- IH. unfold put_deleted_file. cbn [fst snd].
  unfold PutVarint64, PutVarint32. cbn [app]. rewrite <- !app_assoc.
  rewrite (app_assoc (EncodeVarint32 (u32 lv))). apply run_field; [done|].
  unfold DecodeFrom_field. cbn [Z.eqb kDeletedFile kCompactPointer kComparator kLogNumber
    kPrevLogNumber kNextFileNumber kLastSequence Pos.eqb].
  rewrite <- !app_assoc. rewrite (GetLevel_put lv) by done. cbn [or_msg sum_bind].
  by rewrite GetVarint64_encode.
Qed.

Lemma file_ok_new f : file_ok f -> FileMetaData_new (number f) (file_size f) (smallest f) (largest f) = f.
Proof. intros (Hr & Ha & _). destruct f. simpl in *. by subst. Qed.

Lemma run_new_files l e rest :
  Forall (fun p => level_ok p.1 /\ file_ok p.2) l ->
  run (concat (map (put_new_file []) l) ++ rest) e =
  run rest (fold_left (fun e p => push_file e p.1 p.2) l e).
Proof.
  intros Hl. revert e. induction Hl as [|[lv f] l (Hlv & Hf) Hl IH]; intros e; [done|].
  cbn [map concat fold_left fst snd] in *. rewrite <- IH. unfold put_new_file. cbn [fst snd].
  pose proof (file_ok_new f Hf) as Enew. destruct Hf as (_ & _ & Hn & Hs & Hk1 & Hk2 & Hk3 & Hk4).
  rewrite (PutLengthPrefixedSlice_app _ (largest f)), (PutLengthPrefixedSlice_app _ (smallest f)).
  set (s1 := PutLengthPrefixedSlice [] (smallest f)). set (s2 := PutLengthPrefixedSlice [] (largest f)).
  unfold PutVarint64, PutVarint32. cbn [app]. rewrite <- !app_assoc.
  replace (EncodeVarint32 kNewFile ++ _) with
    (PutVarint32 [] kNewFile ++ (PutVarint32 [] (u32 lv) ++ EncodeVarint64 (number f) ++
      EncodeVarint64 (file_size f) ++ s1 ++ s2) ++ concat (map (put_new_file []) l) ++ rest)
    by (unfold PutVarint32; cbn [app]; by rewrite <- !app_assoc).
  apply run_field; [done|].
  unfold DecodeFrom_field. cbn [Z.eqb kNewFile kDeletedFile kCompactPointer kComparator kLogNumber
    kPrevLogNumber kNextFileNumber kLastSequence Pos.eqb].
  rewrite <- !app_assoc. rewrite (GetLevel_put lv) by done. cbn [or_msg sum_bind].
  rewrite GetVarint64_encode by done. cbn [or_msg sum_bind].
  rewrite GetVarint64_encode by done. cbn [or_msg sum_bind].
  unfold s1, s2. rewrite GetInternalKey_put by done. cbn [or_msg sum_bind].
  rewrite GetInternalKey_put by done. cbn [or_msg sum_bind]. by rewrite Enew.
Qed.

Lemma fold_put_concat {A} (put : bytes -> A -> bytes) (l : list A) dst :
  (forall d x, put d x = d ++ put [] x) -> fold_left put l dst = dst ++ concat (map (put []) l).
Proof.
  intros Hp. revert dst. induction l as [|x l IH]; intros dst; cbn [fold_left map concat].
  - by rewrite app_nil_r.
  - by rewrite IH, Hp, <- app_assoc.
Qed.

(** The encoding as a concatenation of fields. *)
Lemma EncodeTo_concat e dst :
  EncodeTo e dst = dst ++
    (if has_comparator_ e
     then PutVarint32 [] kComparator ++ PutLengthPrefixedSlice [] (comparator_ e) else []) ++
    PutTagged64 kLogNumber [] (has_log_number_ e) (log_number_ e) ++
    PutTagged64 kPrevLogNumber [] (has_prev_log_number_ e) (prev_log_number_ e) ++
    PutTagged64 kNextFileNumber [] (has_next_file_number_ e) (next_file_number_ e) ++
    PutTagged64 kLastSequence [] (has_last_sequence_ e) (last_sequence_ e) ++
    concat (map (put_compact_pointer []) (compact_pointers_ e)) ++
    concat (map (put_deleted_file []) (deleted_files_ e)) ++
    concat (map (put_new_file []) (new_files_ e)).
Proof.
  assert (Ht : forall tag d has v, PutTagged64 tag d has v = d ++ PutTagged64 tag [] has v).
  { intros tag d [] v; cbn [PutTagged64]; [|by rewrite app_nil_r].
    unfold PutVarint64, PutVarint32. by rewrite <- app_assoc. }
  unfold EncodeTo. rewrite !fold_put_concat.
  - rewrite !(Ht _ (PutTagged64 _ _ _ _)), (Ht kLogNumber).
    destruct (has_comparator_ e); rewrite <- ?app_assoc; [|done].
    rewrite (PutLengthPrefixedSlice_app (PutVarint32 _ _)). unfold PutVarint32.
    by rewrite <- !app_assoc.
  - intros d x. unfold put_compact_pointer, PutVarint32. rewrite (PutLengthPrefixedSlice_app (_ ++ _)).
    rewrite (PutLengthPrefixedSlice_app (([] ++ _) ++ _)). by rewrite <- !app_assoc.
  - intros d x. unfold put_deleted_file, PutVarint32, PutVarint64. by rewrite <- !app_assoc.
  - intros d x. unfold put_new_file, PutVarint32, PutVarint64.
    rewrite (PutLengthPrefixedSlice_app _ (largest _)), (PutLengthPrefixedSlice_app _ (smallest _)).
    symmetry.
    rewrite (PutLengthPrefixedSlice_app _ (largest _)), (PutLengthPrefixedSlice_app _ (smallest _)).
    by rewrite <- !app_assoc.
Qed.

(** *** Rebuilding an edit from its fields *)

Lemma fold_RemoveFile l e :
  StronglySorted pair_lt (deleted_files_ e ++ l) ->
  deleted_files_ (fold_left (fun e p => RemoveFile e p.1 p.2) l e) = deleted_files_ e ++ l.
Proof.
  revert e. induction l as [|[lv n] l IH]; intros e Hs; cbn [fold_left fst snd].
  { by rewrite app_nil_r. }
  assert (E : set_insert (lv, n) (deleted_files_ e) = deleted_files_ e ++ [(lv, n)]).
  { apply set_insert_last. rewrite cons_middle, app_assoc in Hs.
    by apply StronglySorted_app_1_l in Hs. }
  rewrite IH; cbn [deleted_files_ RemoveFile]; rewrite E, <- app_assoc; done.
Qed.

(** Folding an operation that only appends to one field. *)
Lemma fold_SetCompactPointer l e :
  fold_left (fun e p => SetCompactPointer e p.1 p.2) l e =
  mkVersionEdit (comparator_ e) (log_number_ e) (prev_log_number_ e) (next_file_number_ e)
    (last_sequence_ e) (has_comparator_ e) (has_log_number_ e) (has_prev_log_number_ e)
    (has_next_file_number_ e) (has_last_sequence_ e) (compact_pointers_ e ++ l)
    (deleted_files_ e) (new_files_ e).
Proof.
  revert e. induction l as [|[lv k] l IH]; intros e; cbn [fold_left fst snd].
  - rewrite app_nil_r. by destruct e.
  - rewrite IH. cbn. by rewrite <- app_assoc.
Qed.

Lemma fold_push_file l e :
  fold_left (fun e p => push_file e p.1 p.2) l e =
  mkVersionEdit (comparator_ e) (log_number_ e) (prev_log_number_ e) (next_file_number_ e)
    (last_sequence_ e) (has_comparator_ e) (has_log_number_ e) (has_prev_log_number_ e)
    (has_next_file_number_ e) (has_last_sequence_ e) (compact_pointers_ e)
    (deleted_files_ e) (new_files_ e ++ l).
Proof.
  revert e. induction l as [|[lv k] l IH]; intros e; cbn [fold_left fst snd].
  - rewrite app_nil_r. by destruct e.
  - rewrite IH. cbn. by rewrite <- app_assoc.
Qed.

Lemma fold_RemoveFile_eq l e :
  fold_left (fun e p => RemoveFile e p.1 p.2) l e =
  mkVersionEdit (comparator_ e) (log_number_ e) (prev_log_number_ e) (next_file_number_ e)
    (last_sequence_ e) (has_comparator_ e) (has_log_number_ e) (has_prev_log_number_ e)
    (has_next_file_number_ e) (has_last_sequence_ e) (compact_pointers_ e)
    (deleted_files_ (fold_left (fun e p => RemoveFile e p.1 p.2) l e)) (new_files_ e).
Proof.
  revert e. induction l as [|[lv k] l IH]; intros e; cbn [fold_left fst snd].
  - by destruct e.
  - by rewrite IH at 1.
Qed.

Lemma run_nil e : run [] e = (None, [], e).
Proof. done. Qed.

(** Decoding an encoded edit from the cleared one gives the edit. *)
Lemma run_EncodeTo e : edit_ok e -> run (EncodeTo e []) Clear = (None, [], e).
Proof.
  intros [[Hc Hc'] [Hl Hl'] [Hp Hp'] [Hn Hn'] [Hs Hs'] Hcp Hd Hsrt Hnf].
  rewrite EncodeTo_concat. cbn [app].
  assert (E : forall rest, run ((if has_comparator_ e
     then PutVarint32 [] kComparator ++ PutLengthPrefixedSlice [] (comparator_ e) else []) ++ rest) Clear
    = run rest (if has_comparator_ e then SetComparatorName Clear (comparator_ e) else Clear)).
  { intros rest. destruct (has_comparator_ e); [|done]. rewrite <- app_assoc. apply run_field; [done|].
    unfold DecodeFrom_field. cbn [Z.eqb kComparator Pos.eqb]. by rewrite GetLengthPrefixedSlice_put. }
  rewrite E. clear E.
  rewrite (run_tagged64 _ SetLogNumber), (run_tagged64 _ SetPrevLogNumber),
    (run_tagged64 _ SetNextFile), (run_tagged64 _ SetLastSequence); try done;
    try (intros r; unfold DecodeFrom_field; cbn [Z.eqb kComparator kLogNumber kPrevLogNumber
      kNextFileNumber kLastSequence Pos.eqb]; by rewrite GetVarint64_encode).
  rewrite run_compact_pointers, run_deleted_files by done.
  rewrite <- (app_nil_r (concat (map (put_new_file []) _))), run_new_files, run_nil by done.
  f_equal.
  match goal with |- fold_left _ _ (fold_left _ _ (fold_left _ _ ?b)) = _ =>
  assert (E : b = mkVersionEdit (comparator_ e) (log_number_ e) (prev_log_number_ e) (next_file_number_ e)
      (last_sequence_ e) (has_comparator_ e) (has_log_number_ e) (has_prev_log_number_ e)
      (has_next_file_number_ e) (has_last_sequence_ e) [] [] []) end.
  2: { rewrite E. clear E. rewrite fold_SetCompactPointer. cbn. rewrite fold_RemoveFile_eq.
    rewrite fold_RemoveFile by exact Hsrt. cbn. rewrite fold_push_file. cbn. by destruct e. }
  clear -Hc' Hl' Hp' Hn' Hs'. destruct e as [c ln pn nn ls hc hl hp hn hs cp df nf].
  cbn in *. destruct hc; [|rewrite Hc' by done]; (destruct hl; [|rewrite Hl' by done]);
    (destruct hp; [|rewrite Hp' by done]); (destruct hn; [|rewrite Hn' by done]);
    (destruct hs; [|rewrite Hs' by done]); reflexivity.
Qed.

Lemma DecodeFrom_EncodeTo e : edit_ok e -> DecodeFrom (EncodeTo e []) = (OK, e).
Proof. intros He. unfold DecodeFrom. fold (run (EncodeTo e []) Clear). by rewrite run_EncodeTo. Qed.

(** ** Properties *)

(** C34: an edit written to the manifest is read back unchanged, for every edit
    the setters can build. *)
Theorem version_edit_roundtrip (e : VersionEdit) (He : edit_ok e) :
  DecodeFrom (EncodeTo e []) = (OK, e).
Proof. by apply DecodeFrom_EncodeTo. Qed.

Lemma version_edit_roundtrip_witness :
  let e := AddFile (RemoveFile (SetLogNumber Clear 7) 2 5) 1 9 100 (cstr "a12345678") (cstr "z12345678") in
  DecodeFrom (EncodeTo e []) = (OK, e).
Proof.
  apply version_edit_roundtrip. apply push_file_ok; [done| |].
  - repeat split; simpl; try done; lia.
  - apply RemoveFile_ok; [done|lia|]. apply SetLogNumber_ok; [lia|apply Clear_ok].
Defined.

(** C40: decoding any bytes gives a well-formed edit (levels below the number of
    levels, non-empty keys, deleted files strictly sorted, every number in its
    width) and either OK or a corruption; after OK, encoding the edit and
    decoding again gives the same edit.  Every setter keeps an edit
    well-formed. *)
Theorem version_edit_invariant (src : bytes) :
  let '(s, e) := DecodeFrom src in
  edit_ok e /\ (s = OK \/ IsCorruption s = true) /\ DecodeFrom (EncodeTo e []) = (OK, e) /\
  (forall level file size small large, level_ok level -> file_ok (FileMetaData_new file size small large) ->
     edit_ok (AddFile e level file size small large) /\ edit_ok (RemoveFile e level file)) /\
  (forall n name level key, 0 <= n < 2 ^ 64 -> zlen name < 2 ^ 32 -> level_ok level ->
     key <> [] -> zlen key < 2 ^ 32 ->
     edit_ok (SetLogNumber e n) /\ edit_ok (SetPrevLogNumber e n) /\ edit_ok (SetNextFile e n) /\
     edit_ok (SetLastSequence e n) /\ edit_ok (SetComparatorName e name) /\
     edit_ok (SetCompactPointer e level key)).
Proof.
  unfold DecodeFrom at 1. destruct (DecodeFrom_loop _ src Clear) as [[msg input] e] eqn:E.
  assert (He : edit_ok e) by (eapply DecodeFrom_loop_ok; [exact E|apply Clear_ok]).
  split; [done|]. split.
  { destruct msg; [by right|]. destruct (zlen input =? 0); [by left|by right]. }
  split; [unfold DecodeFrom; fold (run (EncodeTo e []) Clear); by rewrite run_EncodeTo|]. split.
  - intros level file size small large Hl Hf. split; [by apply push_file_ok|].
    apply RemoveFile_ok; [done|apply Hf|done].
  - intros n name level key Hn Hname Hl Hk Hkl. auto 10 with ldb.
Qed.
