(* ===== verification/Filename.v ===== *)
(** * db/filename: names of the database's files

    Models src/db/filename.cc.  Paths are byte strings; the operations of
    [Env] that [SetCurrentFile] calls are a class with the laws it relies on. *)

From S2P Require Import Prelude Comparator Logging Status.

Inductive FileType :=
  kLogFile | kDBLockFile | kTableFile | kDescriptorFile | kCurrentFile | kTempFile | kInfoLogFile.

#[global] Instance FileType_eq_dec : EqDecision FileType.
Proof. solve_decision. Defined.

(** ["%06llu"]: padded with zeros to at least six digits. *)
Definition format_06llu (n : Z) : bytes :=
  let ds := format_llu n in replicate (6 - length ds) (byte_of_Z 48) ++ ds.

(** The buffer of 100 characters holds every such name: at most 20 digits and
    a suffix of five letters. *)
Definition MakeFileName (dbname : bytes) (number : Z) (suffix : bytes) : bytes :=
  dbname ++ cstr "/" ++ format_06llu number ++ cstr "." ++ suffix.

Definition LogFileName (dbname : bytes) (number : Z) : bytes := MakeFileName dbname number (cstr "log").
Definition TableFileName (dbname : bytes) (number : Z) : bytes := MakeFileName dbname number (cstr "ldb").
Definition SSTTableFileName (dbname : bytes) (number : Z) : bytes := MakeFileName dbname number (cstr "sst").
Definition DescriptorFileName (dbname : bytes) (number : Z) : bytes :=
  dbname ++ cstr "/MANIFEST-" ++ format_06llu number.
Definition CurrentFileName (dbname : bytes) : bytes := dbname ++ cstr "/CURRENT".
Definition LockFileName (dbname : bytes) : bytes := dbname ++ cstr "/LOCK".
Definition TempFileName (dbname : bytes) (number : Z) : bytes := MakeFileName dbname number (cstr "dbtmp").
Definition InfoLogFileName (dbname : bytes) : bytes := dbname ++ cstr "/LOG".
Definition OldInfoLogFileName (dbname : bytes) : bytes := dbname ++ cstr "/LOG.old".

(** The number and the type, [None] when the code returns false. *)
Definition ParseFileName (filename : bytes) : option (Z * FileType) :=
  let rest := filename in
  if Slice_eqb rest (cstr "CURRENT") then Some (0, kCurrentFile)
  else if Slice_eqb rest (cstr "LOCK") then Some (0, kDBLockFile)
  else if Slice_eqb rest (cstr "LOG") || Slice_eqb rest (cstr "LOG.old")
  then Some (0, kInfoLogFile)
  else if Slice_starts_with rest (cstr "MANIFEST-") then
    let rest := drop (length (cstr "MANIFEST-")) rest in
    match ConsumeDecimalNumber rest with
    | None => None
    | Some (num, rest) =>
        if negb (zlen rest =? 0) then None else Some (num, kDescriptorFile)
    end
  else
    match ConsumeDecimalNumber rest with
    | None => None
    | Some (num, suffix) =>
        if Slice_eqb suffix (cstr ".log") then Some (num, kLogFile)
        else if Slice_eqb suffix (cstr ".sst") || Slice_eqb suffix (cstr ".ldb")
        then Some (num, kTableFile)
        else if Slice_eqb suffix (cstr ".dbtmp") then Some (num, kTempFile)
        else None
    end.

(** ** The file that names the manifest *)

(** The operations of the environment that [SetCurrentFile] calls, on a state
    of the file system. *)
Class EnvFiles (E : Type) := {
  WriteStringToFileSync : E -> bytes -> bytes -> Status * E;
  RenameFile : E -> bytes -> bytes -> Status * E;
  RemoveFile : E -> bytes -> Status * E;
  contents : E -> bytes -> option bytes;
}.

(** Their documented effect: a successful write makes the data the contents of
    the file and leaves the others, a failed one leaves the others; a rename
    that succeeds is atomic and one that fails has no effect; removing a file
    concerns that file only. *)
Class EnvFilesLaws (E : Type) {F : EnvFiles E} := {
  write_file : forall e data fname s e', WriteStringToFileSync e data fname = (s, e') ->
    (s = OK -> contents e' fname = Some data) /\
    forall g, g <> fname -> contents e' g = contents e g;
  rename_file : forall e src target s e', src <> target -> RenameFile e src target = (s, e') ->
    if ok s
    then contents e' target = contents e src /\ contents e' src = None /\
         forall g, g <> src -> g <> target -> contents e' g = contents e g
    else forall g, contents e' g = contents e g;
  remove_file : forall e fname s e', RemoveFile e fname = (s, e') ->
    forall g, g <> fname -> contents e' g = contents e g;
}.

Definition SetCurrentFile {E : Type} {F : EnvFiles E} (env : E) (dbname : bytes)
    (descriptor_number : Z) : Status * E :=
  let manifest := DescriptorFileName dbname descriptor_number in
  let contents := drop (length dbname + 1) manifest in
  let tmp := TempFileName dbname descriptor_number in
  let '(s, env) := WriteStringToFileSync env (contents ++ [x0a]) tmp in
  let '(s, env) := if ok s then RenameFile env tmp (CurrentFileName dbname) else (s, env) in
  let env := if negb (ok s) then (RemoveFile env tmp).2 else env in
  (s, env).

(** ** Digits *)

Lemma format_06llu_spec n :
  0 <= n < 2 ^ 64 ->
  format_06llu n <> [] /\ Forall is_digit (format_06llu n) /\ digits_value (format_06llu n) = n.
Proof.
  intros Hn. destruct (format_llu_spec n Hn) as (Hne & Hd & Hv). unfold format_06llu.
  set (z := replicate _ _). assert (Hz : Forall is_digit z) by (apply Forall_replicate; unfold is_digit; vm_compute; split; discriminate).
  split; [by intros [_ ?]%app_eq_nil|]. split; [by apply Forall_app|].
  unfold digits_value in *. rewrite fold_left_app. replace (fold_left _ z 0) with 0; [done|].
  subst z. clear. generalize (6 - length (format_llu n))%nat as k. intros k.
  induction k as [|k IH]; [done|]. cbn [replicate fold_left]. by rewrite <- IH at 1.
Qed.

(** Every string is a run of digits followed by something else. *)
Lemma digits_split (s : bytes) :
  exists ds rest, s = ds ++ rest /\ Forall is_digit ds /\ no_digit_ahead rest.
Proof.
  induction s as [|b s (ds & rest & -> & Hd & Hr)]; [by exists [], []|].
  destruct (decide (48 <= byte_to_Z b <= 57)) as [Hb|Hb].
  - exists (b :: ds), rest. split; [done|]. split; [by constructor|done].
  - exists [], (b :: ds ++ rest). by repeat constructor.
Qed.

Lemma ConsumeDecimalNumber_spec s n rest :
  ConsumeDecimalNumber s = Some (n, rest) <->
  exists ds, s = ds ++ rest /\ ds <> [] /\ Forall is_digit ds /\ no_digit_ahead rest /\
    digits_value ds = n /\ n < 2 ^ 64.
Proof.
  split.
  - destruct (digits_split s) as (ds & r & -> & Hd & Hr). destruct ds as [|d ds].
    + unfold ConsumeDecimalNumber. rewrite (ConsumeDecimalNumber_loop_spec [] r 0) by (done || lia).
      simpl. by rewrite Nat.sub_diag.
    + rewrite ConsumeDecimalNumber_digits by done.
      destruct (Z.ltb_spec (digits_value (d :: ds)) (2 ^ 64)); [|done].
      intros Heq. simplify_eq. by exists (d :: ds).
  - intros (ds & -> & Hne & Hd & Hr & <- & Hn). rewrite ConsumeDecimalNumber_digits by done.
    by rewrite (proj2 (Z.ltb_lt _ _)).
Qed.

Lemma ConsumeDecimalNumber_format n rest :
  0 <= n < 2 ^ 64 -> no_digit_ahead rest ->
  ConsumeDecimalNumber (format_06llu n ++ rest) = Some (n, rest).
Proof.
  intros Hn Hr. destruct (format_06llu_spec n Hn) as (? & ? & ?).
  apply ConsumeDecimalNumber_spec. exists (format_06llu n). repeat split; done || lia.
Qed.

Lemma digits_ne ds (rest : bytes) b s :
  ds <> [] -> Forall is_digit ds -> ~ is_digit b -> ds ++ rest <> b :: s.
Proof. intros Hne Hd Hb E. destruct ds; [done|]. simplify_eq/=. by inversion Hd. Qed.

(** The name of a numbered file starts with a digit: the fixed names and the
    manifest's prefix are not taken. *)
Lemma ParseFileName_numbered ds suffix :
  ds <> [] -> Forall is_digit ds ->
  ParseFileName (ds ++ suffix) =
  match ConsumeDecimalNumber (ds ++ suffix) with
  | None => None
  | Some (num, suffix) =>
      if Slice_eqb suffix (cstr ".log") then Some (num, kLogFile)
      else if Slice_eqb suffix (cstr ".sst") || Slice_eqb suffix (cstr ".ldb")
      then Some (num, kTableFile)
      else if Slice_eqb suffix (cstr ".dbtmp") then Some (num, kTempFile)
      else None
  end.
Proof.
  intros Hne Hd. unfold ParseFileName.
  assert (H : forall t, match t with b :: _ => ~ is_digit b | [] => False end ->
    Slice_eqb (ds ++ suffix) t = false).
  { intros [|b s] Hb; [done|]. apply not_true_iff_false. rewrite Slice_eqb_eq. by apply digits_ne. }
  rewrite !H by (unfold is_digit; vm_compute; intuition congruence). cbn [orb].
  destruct (Slice_starts_with _ _) eqn:E; [|done]. apply Slice_starts_with_spec in E.
  exfalso. revert E. apply (digits_ne _ _ x4d); [done|done|]. unfold is_digit. vm_compute.
  intuition congruence.
Qed.

Lemma ParseFileName_manifest s :
  ParseFileName (cstr "MANIFEST-" ++ s) =
  match ConsumeDecimalNumber s with
  | None => None
  | Some (num, rest) => if negb (zlen rest =? 0) then None else Some (num, kDescriptorFile)
  end.
Proof.
  unfold ParseFileName.
  assert (H : forall t, cstr "MANIFEST-" ++ s <> t -> Slice_eqb (cstr "MANIFEST-" ++ s) t = false).
  { intros t Ht. apply not_true_iff_false. by rewrite Slice_eqb_eq. }
  rewrite !H by discriminate. cbn [orb].
  rewrite (proj2 (Slice_starts_with_spec _ _)) by (by rewrite drop_app_exact).
  by rewrite drop_app_exact.
Qed.

Lemma ParseFileName_format n suffix :
  0 <= n < 2 ^ 64 -> no_digit_ahead suffix ->
  ParseFileName (format_06llu n ++ suffix) =
  if Slice_eqb suffix (cstr ".log") then Some (n, kLogFile)
  else if Slice_eqb suffix (cstr ".sst") || Slice_eqb suffix (cstr ".ldb")
  then Some (n, kTableFile)
  else if Slice_eqb suffix (cstr ".dbtmp") then Some (n, kTempFile)
  else None.
Proof.
  intros Hn Hs. destruct (format_06llu_spec n Hn) as (? & ? & _).
  by rewrite ParseFileName_numbered, ConsumeDecimalNumber_format.
Qed.

(** The documented forms of names: a run of digits between fixed parts. *)
Definition numbered_name (pre suffix f : bytes) (n : Z) : Prop :=
  exists ds, f = pre ++ ds ++ suffix /\ ds <> [] /\ Forall is_digit ds /\ digits_value ds = n /\
    n < 2 ^ 64.

Definition owned_name (f : bytes) (n : Z) (t : FileType) : Prop :=
  match t with
  | kCurrentFile => f = cstr "CURRENT" /\ n = 0
  | kDBLockFile => f = cstr "LOCK" /\ n = 0
  | kInfoLogFile => (f = cstr "LOG" \/ f = cstr "LOG.old") /\ n = 0
  | kDescriptorFile => numbered_name (cstr "MANIFEST-") [] f n
  | kLogFile => numbered_name [] (cstr ".log") f n
  | kTableFile => numbered_name [] (cstr ".sst") f n \/ numbered_name [] (cstr ".ldb") f n
  | kTempFile => numbered_name [] (cstr ".dbtmp") f n
  end.

Lemma ParseFileName_sound f n t : ParseFileName f = Some (n, t) -> owned_name f n t.
Proof.
  unfold ParseFileName.
  destruct (Slice_eqb f _) eqn:E1; [apply Slice_eqb_eq in E1; by intros [= <- <-]|].
  destruct (Slice_eqb f (cstr "LOCK")) eqn:E2; [apply Slice_eqb_eq in E2; by intros [= <- <-]|].
  destruct (Slice_eqb f (cstr "LOG")) eqn:E3.
  { apply Slice_eqb_eq in E3. intros [= <- <-]. split; [by left|done]. }
  destruct (Slice_eqb f (cstr "LOG.old")) eqn:E4.
  { apply Slice_eqb_eq in E4. intros [= <- <-]. split; [by right|done]. }
  cbn [orb]. destruct (Slice_starts_with f _) eqn:E5.
  - apply Slice_starts_with_spec in E5.
    destruct (ConsumeDecimalNumber (drop _ f)) as [[num rest]|] eqn:E; [|done].
    apply ConsumeDecimalNumber_spec in E as (ds & Ef & ? & ? & _ & ? & ?).
    destruct (Z.eqb_spec (zlen rest) 0) as [Hz|]; [|done]. intros [= <- <-].
    destruct rest; [|rewrite zlen_cons in Hz; unfold zlen in Hz; lia].
    exists ds. by rewrite <- Ef.
  - destruct (ConsumeDecimalNumber f) as [[num suffix]|] eqn:E; [|done].
    apply ConsumeDecimalNumber_spec in E as (ds & -> & ? & ? & _ & ? & ?).
    assert (H' : numbered_name [] suffix (ds ++ suffix) num) by (by exists ds).
    destruct (Slice_eqb suffix _) eqn:S1; [apply Slice_eqb_eq in S1 as ->; by intros [= <- <-]|].
    destruct (Slice_eqb suffix (cstr ".sst")) eqn:S2.
    { apply Slice_eqb_eq in S2 as ->. intros [= <- <-]. by left. }
    destruct (Slice_eqb suffix (cstr ".ldb")) eqn:S3.
    { apply Slice_eqb_eq in S3 as ->. intros [= <- <-]. by right. }
    destruct (Slice_eqb suffix (cstr ".dbtmp")) eqn:S4; [|done].
    apply Slice_eqb_eq in S4 as ->. by intros [= <- <-].
Qed.

Lemma no_digit_dot s : no_digit_ahead (cstr "." ++ s).
Proof. unfold no_digit_ahead, is_digit. vm_compute. intuition congruence. Qed.

Lemma numbered_name_parse suffix f n :
  no_digit_ahead suffix -> numbered_name [] suffix f n ->
  exists ds, f = ds ++ suffix /\ ds <> [] /\ Forall is_digit ds /\
    ConsumeDecimalNumber (ds ++ suffix) = Some (n, suffix).
Proof.
  intros Hs (ds & -> & ? & ? & ? & ?). exists ds. split; [done|]. split; [done|]. split; [done|].
  apply ConsumeDecimalNumber_spec. by exists ds.
Qed.

Lemma ParseFileName_complete f n t : owned_name f n t -> ParseFileName f = Some (n, t).
Proof.
  destruct t; cbn [owned_name].
  - intros (ds & -> & ? & ? & E)%numbered_name_parse; [|apply (no_digit_dot (cstr "log"))].
    by rewrite ParseFileName_numbered, E.
  - by intros [-> ->].
  - intros [(ds & -> & ? & ? & E)%numbered_name_parse|(ds & -> & ? & ? & E)%numbered_name_parse];
      [|apply (no_digit_dot (cstr "sst"))| |apply (no_digit_dot (cstr "ldb"))];
      by rewrite ParseFileName_numbered, E.
  - intros (ds & -> & ? & ? & ? & ?). rewrite ParseFileName_manifest.
    by rewrite (proj2 (ConsumeDecimalNumber_spec (ds ++ []) n [])) by (by exists ds).
  - by intros [-> ->].
  - intros (ds & -> & ? & ? & E)%numbered_name_parse; [|apply (no_digit_dot (cstr "dbtmp"))].
    by rewrite ParseFileName_numbered, E.
  - by intros [[-> | ->] ->].
Qed.

(** The last component of a path under [dbname]. *)
Lemma drop_dbname (dbname s : bytes) c : drop (length dbname + 1) (dbname ++ c :: s) = s.
Proof.
  rewrite cons_middle, app_assoc.
  replace (length dbname + 1)%nat with (length (dbname ++ [c])) by (rewrite length_app; simpl; lia).
  apply drop_app_exact.
Qed.

Lemma CURRENT_not_temp dbname number :
  0 <= number < 2 ^ 64 -> CurrentFileName dbname <> TempFileName dbname number.
Proof.
  intros Hn E%app_inv_head. injection E as E.
  destruct (format_06llu_spec number Hn) as (Hne & Hd & _).
  symmetry in E. revert E. apply (digits_ne _ _ x43); [done|done|].
  unfold is_digit. vm_compute. intuition congruence.
Qed.

(** A file system that never fails, for examples. *)
#[global] Instance PureFiles : EnvFiles (bytes -> option bytes) := {|
  WriteStringToFileSync := fun e data f => (OK, fun g => if decide (g = f) then Some data else e g);
  RenameFile := fun e src target =>
    (OK, fun g => if decide (g = target) then e src else if decide (g = src) then None else e g);
  RemoveFile := fun e f => (OK, fun g => if decide (g = f) then None else e g);
  contents := fun e f => e f;
|}.

#[global] Instance PureFiles_laws : EnvFilesLaws (bytes -> option bytes).
Proof.
  split.
  - intros e data f s e' [= <- <-]. cbn. split; [intros _; by rewrite decide_True|].
    intros g Hg. by rewrite decide_False.
  - intros e src target s e' Hne [= <- <-]. cbn. rewrite !decide_True, decide_False by done.
    rewrite decide_True by done. split; [done|]. split; [done|]. intros g H1 H2.
    by rewrite !decide_False.
  - intros e f s e' [= <- <-] g Hg. cbn. by rewrite decide_False.
Qed.

(** ** Properties *)

(** The parser recognises exactly the documented forms of names, with
    numbers that fit 64 bits, and inverts the functions that make the names of
    tables, logs, manifests and temporary files. *)
Theorem filename_roundtrip (dbname f : bytes) (number n : Z) (t : FileType)
    (Hn : 0 <= number < 2 ^ 64) :
  let parse path := ParseFileName (drop (length dbname + 1) path) in
  (ParseFileName f = Some (n, t) <-> owned_name f n t) /\
  parse (LogFileName dbname number) = Some (number, kLogFile) /\
  parse (TableFileName dbname number) = Some (number, kTableFile) /\
  parse (SSTTableFileName dbname number) = Some (number, kTableFile) /\
  parse (TempFileName dbname number) = Some (number, kTempFile) /\
  parse (DescriptorFileName dbname number) = Some (number, kDescriptorFile) /\
  parse (CurrentFileName dbname) = Some (0, kCurrentFile) /\
  parse (LockFileName dbname) = Some (0, kDBLockFile) /\
  parse (InfoLogFileName dbname) = Some (0, kInfoLogFile) /\
  parse (OldInfoLogFileName dbname) = Some (0, kInfoLogFile).
Proof.
  intros parse. split; [split; [apply ParseFileName_sound|apply ParseFileName_complete]|].
  assert (Hmake : forall suffix, parse (MakeFileName dbname number suffix) =
    ParseFileName (format_06llu number ++ cstr "." ++ suffix)).
  { intros suffix. exact (f_equal ParseFileName (drop_dbname dbname _ x2f)). }
  assert (Hfixed : forall c s, parse (dbname ++ c :: s) = ParseFileName s).
  { intros c s. exact (f_equal ParseFileName (drop_dbname dbname s c)). }
  unfold LogFileName, TableFileName, SSTTableFileName, TempFileName. rewrite !Hmake.
  rewrite !ParseFileName_format by (done || apply no_digit_dot).
  repeat (split; [first [reflexivity|exact (Hfixed _ _)|idtac]|]); [|exact (Hfixed _ _)].
  transitivity (ParseFileName (cstr "MANIFEST-" ++ format_06llu number)); [exact (Hfixed _ _)|].
  rewrite ParseFileName_manifest.
  by rewrite <- (app_nil_r (format_06llu number)), ConsumeDecimalNumber_format.
Qed.

Lemma filename_roundtrip_witness :
  ParseFileName (cstr "000123.ldb") = Some (123, kTableFile) /\
  TableFileName (cstr "/tmp/db") 123 = cstr "/tmp/db/000123.ldb".
Proof.
  destruct (filename_roundtrip (cstr "/tmp/db") [] 123 0 kLogFile ltac:(lia)) as (_ & _ & H & _).
  split; [exact H|reflexivity].
Defined.

(** Names of tables differ. *)
Lemma TableFileName_inj dbname n m : 0 <= n < 2 ^ 64 -> 0 <= m < 2 ^ 64 -> TableFileName dbname n = TableFileName dbname m -> n = m.
Proof.
  intros Hn Hm E. destruct (filename_roundtrip dbname [] n 0 kLogFile Hn) as (_ & _ & H1 & _).
  destruct (filename_roundtrip dbname [] m 0 kLogFile Hm) as (_ & _ & H2 & _). rewrite E, H2 in H1. by injection H1.
Qed.

Lemma Table_not_SST dbname n m : 0 <= n < 2 ^ 64 -> 0 <= m < 2 ^ 64 -> TableFileName dbname n <> SSTTableFileName dbname m.
Proof.
  intros Hn Hm E. destruct (filename_roundtrip dbname [] n 0 kLogFile Hn) as (_ & _ & H1 & _).
  destruct (filename_roundtrip dbname [] m 0 kLogFile Hm) as (_ & _ & _ & H2 & _). rewrite <- E, H1 in H2. injection H2 as <-.
  unfold TableFileName, SSTTableFileName, MakeFileName in E. do 4 apply app_inv_head in E. discriminate E.
Qed.

Lemma SetCurrentFile_spec (E : Type) (F : EnvFiles E) (L : EnvFilesLaws E)
    (env : E) (dbname : bytes) (number : Z) (Hn : 0 <= number < 2 ^ 64) :
  let '(s, env') := SetCurrentFile env dbname number in
  (if ok s
   then exists current, contents env' (CurrentFileName dbname) = Some (current ++ [x0a]) /\
          dbname ++ cstr "/" ++ current = DescriptorFileName dbname number
   else contents env' (CurrentFileName dbname) = contents env (CurrentFileName dbname)) /\
  forall g, g <> CurrentFileName dbname -> g <> TempFileName dbname number ->
    contents env' g = contents env g.
Proof.
  pose proof (CURRENT_not_temp dbname number Hn) as Hne.
  unfold SetCurrentFile.
  destruct (WriteStringToFileSync env _ _) as [s1 e1] eqn:E1. apply write_file in E1 as [W1 W2].
  destruct (ok s1) eqn:Hs1.
  - apply ok_OK in Hs1 as ->. specialize (W1 eq_refl).
    destruct (RenameFile e1 _ _) as [s2 e2] eqn:E2. apply rename_file in E2; [|congruence].
    destruct (ok s2) eqn:Hs2; cbn [negb].
    + destruct E2 as (R1 & R2 & R3). split.
      * eexists. split; [by rewrite R1, W1|].
        exact (f_equal (app dbname) (f_equal (app (cstr "/")) (drop_dbname dbname _ x2f))).
      * intros g Hg1 Hg2. by rewrite R3, W2.
    + destruct (RemoveFile e2 _) as [s3 e3] eqn:E3. pose proof (remove_file _ _ _ _ E3) as R3.
      cbn [snd]. split; [by rewrite R3, E2, W2|]. intros g Hg1 Hg2. by rewrite R3, E2, W2.
  - cbn [negb]. rewrite Hs1. cbn [negb].
    destruct (RemoveFile e1 _) as [s3 e3] eqn:E3. pose proof (remove_file _ _ _ _ E3) as R3.
    cbn [snd]. split; [by rewrite R3, W2|]. intros g Hg1 Hg2. by rewrite R3, W2.
Qed.

(** C37: installing a manifest is atomic for every environment that keeps its
    documented contract: on success the file CURRENT names the new manifest,
    on any failure it is what it was, and no other file than CURRENT and the
    temporary one changes. *)
Theorem set_current_file_atomic (E : Type) (F : EnvFiles E) (L : EnvFilesLaws E)
    (env : E) (dbname : bytes) (number : Z) (Hn : 0 <= number < 2 ^ 64) :
  let '(s, env') := SetCurrentFile env dbname number in
  (if ok s
   then exists current, contents env' (CurrentFileName dbname) = Some (current ++ [x0a]) /\
          dbname ++ cstr "/" ++ current = DescriptorFileName dbname number
   else contents env' (CurrentFileName dbname) = contents env (CurrentFileName dbname)) /\
  forall g, g <> CurrentFileName dbname -> g <> TempFileName dbname number ->
    contents env' g = contents env g.
Proof. by apply SetCurrentFile_spec. Qed.

Lemma set_current_file_atomic_witness :
  contents (SetCurrentFile (E := bytes -> option bytes) (fun _ => None) (cstr "db") 5).2 (cstr "db/CURRENT")
  = Some (cstr "MANIFEST-000005" ++ [x0a]).
Proof.
  destruct (set_current_file_atomic _ PureFiles PureFiles_laws (fun _ => None) (cstr "db") 5 ltac:(lia))
    as [(current & H1 & H2) _].
  refine (eq_trans H1 _). apply (app_inv_head (cstr "db/")) in H2 as ->. reflexivity.
Defined.
