(* ===== verification/Iterator.v ===== *)
(** * Iterators: the interface

    Models src/include/leveldb/iterator.h and src/table/iterator.cc.  The
    virtual methods are a class of operations on a state; [None] stands for a
    call whose precondition fails (an assertion of the code).  [IteratorLaws]
    states what the interface promises: the iterator is a cursor in a sorted
    list of entries.  Blocks, memtables, merging and two-level iterators
    discharge it; the merging iterator and the database iterator are verified
    against it. *)

From Stdlib Require Import Sorted Permutation.
From stdpp Require Import sorting.
From S2P Require Import Prelude Comparator Status.

Class Iterator (S : Type) := {
  it_Valid : S -> bool;
  it_SeekToFirst : S -> option S;
  it_SeekToLast : S -> option S;
  it_Seek : S -> bytes -> option S;
  it_Next : S -> option S;
  it_Prev : S -> option S;
  it_key : S -> option bytes;
  it_value : S -> option bytes;
  it_status : S -> Status;
}.

(** ** Cleanup functions *)

(** The list of nodes, the inlined head first. *)
Definition RegisterCleanup {F : Type} (cleanup : list F) (func : F) : list F :=
  match cleanup with
  | [] => [func]
  | head :: next => head :: func :: next
  end.

(** The destructor runs them along the list. *)
Definition run_cleanup {F E : Type} (run : F -> E -> E) (cleanup : list F) (e : E) : E :=
  fold_left (fun e f => run f e) cleanup e.

(** ** The empty iterator *)

Definition EmptyIterator : Type := Status.

#[global] Instance EmptyIterator_Iterator : Iterator EmptyIterator := {|
  it_Valid := fun _ => false;
  it_SeekToFirst := Some;
  it_SeekToLast := Some;
  it_Seek := fun s _ => Some s;
  it_Next := fun _ => None;
  it_Prev := fun _ => None;
  it_key := fun _ => None;
  it_value := fun _ => None;
  it_status := fun s => s;
|}.

Definition NewEmptyIterator : EmptyIterator := OK.
Definition NewErrorIterator (status : Status) : EmptyIterator := status.

(** ** What an iterator promises *)

Abbreviation kv := (bytes * bytes)%type.

(** Entries in strictly increasing order of keys. *)
Definition kv_lt (C : Comparator) (x y : kv) : Prop := Compare (Comparator := C) x.1 y.1 = Lt.
Definition kvs_sorted (C : Comparator) (kvs : list kv) : Prop := StronglySorted (kv_lt C) kvs.

(** The index of the first entry at or past the target. *)
Fixpoint lower_bound (C : Comparator) (target : bytes) (kvs : list kv) : nat :=
  match kvs with
  | [] => O
  | (k, _) :: kvs' =>
      match Compare (Comparator := C) k target with
      | Lt => S (lower_bound C target kvs')
      | _ => O
      end
  end.

(** The keys that [Seek] is promised to work for: all of them, unless a section says
    otherwise. *)
Class Targets := is_target : bytes -> Prop.
#[export] Instance all_targets : Targets | 100 := fun _ => True.

(** [pos s i]: the iterator [s] stands at entry [i], or is invalid when [i] is
    the number of entries. *)
Class IteratorLaws {T : Targets} {S : Type} (I : Iterator S) (C : Comparator) (kvs : list kv)
    (pos : S -> nat -> Prop) : Prop := {
  pos_le : forall s i, pos s i -> (i <= length kvs)%nat;
  pos_valid : forall s i, pos s i -> it_Valid s = (i <? length kvs)%nat;
  pos_status : forall s i, pos s i -> it_status s = OK;
  pos_key : forall s i k v, pos s i -> kvs !! i = Some (k, v) -> it_key s = Some k;
  pos_value : forall s i k v, pos s i -> kvs !! i = Some (k, v) -> it_value s = Some v;
  pos_first : forall s i, pos s i -> exists s', it_SeekToFirst s = Some s' /\ pos s' 0%nat;
  pos_last : forall s i, pos s i ->
    exists s', it_SeekToLast s = Some s' /\ pos s' (length kvs - 1)%nat;
  pos_seek : forall s i t, pos s i -> is_target t -> exists s', it_Seek s t = Some s' /\ pos s' (lower_bound C t kvs);
  pos_next : forall s i, pos s i -> (i < length kvs)%nat ->
    exists s', it_Next s = Some s' /\ pos s' (i + 1)%nat;
  pos_prev : forall s i, pos s i -> (i < length kvs)%nat ->
    exists s', it_Prev s = Some s' /\ pos s' (if (i =? 0)%nat then length kvs else (i - 1)%nat);
}.

(** ** Lemmas *)

Section LowerBound.
Context {C : Comparator} {L : ComparatorLaws C}.
Implicit Types kvs : list kv.

Lemma kvs_sorted_lookup kvs i j k v k' v' :
  kvs_sorted C kvs -> kvs !! i = Some (k, v) -> kvs !! j = Some (k', v') -> (i < j)%nat ->
  Compare (Comparator := C) k k' = Lt.
Proof.
  intros Hs Hi Hj Hij. rewrite <- (take_drop_middle _ _ _ Hi) in Hs, Hj.
  assert (Hl : length (take i kvs) = i).
  { rewrite length_take. apply lookup_lt_Some in Hi. lia. }
  apply StronglySorted_app_1_r in Hs. apply StronglySorted_inv in Hs as [_ Hs].
  rewrite lookup_app_r in Hj by lia. rewrite Hl in Hj.
  destruct (j - i)%nat as [|d] eqn:E; [lia|]. simpl in Hj.
  apply (proj1 (Forall_forall _ _) Hs (k', v')). by eapply list_elem_of_lookup_2.
Qed.

Lemma kvs_sorted_of_lookup (l : list kv) :
  (forall i j x y, l !! i = Some x -> l !! j = Some y -> (i < j)%nat -> kv_lt C x y) -> kvs_sorted C l.
Proof.
  unfold kvs_sorted. induction l as [|x l IH]; intros H; constructor.
  - apply IH. intros i j y z Hi Hj Hlt. by apply (H (Datatypes.S i) (Datatypes.S j)); [..|lia].
  - apply Forall_forall. intros y [j Hj]%list_elem_of_lookup. by apply (H 0%nat (Datatypes.S j)); [..|lia].
Qed.

Lemma lower_bound_le t kvs : (lower_bound C t kvs <= length kvs)%nat.
Proof. induction kvs as [|[k v] kvs IH]; simpl; [lia|]. destruct (Compare k t); simpl; lia. Qed.

(** The entries below the bound are exactly those before the target. *)
Lemma lower_bound_spec t kvs i k v :
  kvs_sorted C kvs -> kvs !! i = Some (k, v) ->
  (Compare (Comparator := C) k t = Lt <-> (i < lower_bound C t kvs)%nat).
Proof.
  intros Hs. revert i. induction Hs as [|[k0 v0] kvs Hs IH Hf]; intros i; [done|].
  destruct i as [|i]; cbn [lookup lower_bound].
  - intros [= -> ->]. destruct (Compare k t); split; done || lia.
  - intros Hi. specialize (IH i Hi). destruct (Compare k0 t) eqn:E.
    2: { rewrite IH. lia. }
    all: split; [|lia]; intros Hlt; exfalso.
    all: assert (Compare k0 k = Lt) as H0
      by (apply (proj1 (Forall_forall _ _) Hf (k, v)); by eapply list_elem_of_lookup_2).
    all: pose proof (Compare_lt_trans _ _ _ H0 Hlt); congruence.
Qed.

Lemma lower_bound_unique t kvs n :
  kvs_sorted C kvs -> (n <= length kvs)%nat ->
  (forall i k v, kvs !! i = Some (k, v) ->
     (Compare (Comparator := C) k t = Lt <-> (i < n)%nat)) ->
  lower_bound C t kvs = n.
Proof.
  intros Hs Hn H. pose proof (lower_bound_le t kvs) as Hl.
  destruct (Nat.lt_trichotomy (lower_bound C t kvs) n) as [Hlt|[->|Hgt]]; [|done|].
  - destruct (lookup_lt_is_Some_2 kvs (lower_bound C t kvs) ltac:(lia)) as [[k v] E].
    pose proof (proj2 (H _ _ _ E) Hlt) as Hk. apply (lower_bound_spec t kvs _ _ _ Hs E) in Hk. lia.
  - destruct (lookup_lt_is_Some_2 kvs n ltac:(lia)) as [[k v] E].
    pose proof (proj2 (lower_bound_spec t kvs _ _ _ Hs E) Hgt) as Hk. apply (H _ _ _ E) in Hk. lia.
Qed.

End LowerBound.

(** ** Seeking in a concatenation *)

Section LowerBoundApp.
Context {C : Comparator}.
Implicit Types a b : list kv.

Lemma lower_bound_before t a i k v :
  (i < lower_bound C t a)%nat -> a !! i = Some (k, v) -> Compare (Comparator := C) k t = Lt.
Proof.
  revert i. induction a as [|[k0 v0] a IH]; intros i; cbn; [lia|].
  destruct (Compare k0 t) eqn:E; [lia| |lia]. destruct i as [|i]; cbn; [by intros _ [= -> ->]|].
  intros Hi. apply IH. lia.
Qed.

Lemma lower_bound_here t a k v :
  a !! lower_bound C t a = Some (k, v) -> Compare (Comparator := C) k t <> Lt.
Proof.
  induction a as [|[k0 v0] a IH]; cbn; [done|].
  destruct (Compare k0 t) eqn:E; cbn; [|done|]; intros [= -> ->]; congruence.
Qed.

Lemma lower_bound_app_lt t a b :
  (forall e, e ∈ a -> Compare (Comparator := C) e.1 t = Lt) ->
  lower_bound C t (a ++ b) = (length a + lower_bound C t b)%nat.
Proof.
  induction a as [|[k v] a IH]; intros H; [done|]. cbn.
  pose proof (H (k, v) ltac:(left)) as Hk. cbn in Hk. rewrite Hk. f_equal. apply IH. intros e He. apply H. by right.
Qed.

Lemma lower_bound_app_ge t a b :
  (forall e, e ∈ b -> Compare (Comparator := C) e.1 t <> Lt) -> lower_bound C t (a ++ b) = lower_bound C t a.
Proof.
  intros H. induction a as [|[k v] a IH]; cbn.
  - destruct b as [|[k v] b]; [done|]. pose proof (H (k, v) ltac:(left)) as Hk. cbn in *. by destruct (Compare k t).
  - by rewrite IH.
Qed.
End LowerBoundApp.

(** ** Scanning *)

Section Scan.
Context {T : Targets} {S : Type} {I : Iterator S} {C : Comparator} {kvs : list kv} {pos : S -> nat -> Prop}.
Context {IL : IteratorLaws I C kvs pos}.

(** [for (; it->Valid(); it->Next()) ...]: the entries from here on. *)
Fixpoint scan (fuel : nat) (s : S) : option (list kv) :=
  match fuel with
  | O => None
  | Datatypes.S f =>
      if it_Valid s then
        match it_key s, it_value s, it_Next s with
        | Some k, Some v, Some s' => option_map (cons (k, v)) (scan f s')
        | _, _, _ => None
        end
      else Some []
  end.

Lemma scan_pos s i fuel :
  pos s i -> (length kvs - i < fuel)%nat -> scan fuel s = Some (drop i kvs).
Proof.
  revert s i. induction fuel as [|f IH]; intros s i Hp Hf; [lia|]. cbn [scan].
  rewrite (pos_valid _ _ Hp). destruct (Nat.ltb_spec i (length kvs)) as [Hi|Hi].
  - destruct (lookup_lt_is_Some_2 kvs i Hi) as [[k v] E].
    rewrite (pos_key _ _ _ _ Hp E), (pos_value _ _ _ _ Hp E).
    destruct (pos_next _ _ Hp Hi) as (s' & -> & Hp').
    rewrite (IH _ _ Hp') by lia. cbn. rewrite (drop_S _ _ _ E). by rewrite Nat.add_1_r.
  - by rewrite drop_ge.
Qed.
End Scan.

(** Laws whose description of the state has parameters. *)
Lemma laws_exists {T : Targets} {S X : Type} {I : Iterator S} {C : Comparator} {kvs : list kv} (Q : X -> Prop)
    (P : X -> S -> nat -> Prop) :
  (forall x, Q x -> IteratorLaws I C kvs (P x)) -> IteratorLaws I C kvs (fun s i => exists x, Q x /\ P x s i).
Proof.
  intros H. split.
  - intros s i (x & Hx & Hp). pose proof (H x Hx). by apply (pos_le s).
  - intros s i (x & Hx & Hp). pose proof (H x Hx). by apply (pos_valid s).
  - intros s i (x & Hx & Hp). pose proof (H x Hx). by apply (pos_status s i).
  - intros s i k v (x & Hx & Hp). pose proof (H x Hx). by apply (pos_key s).
  - intros s i k v (x & Hx & Hp). pose proof (H x Hx). by apply (pos_value s).
  - intros s i (x & Hx & Hp). pose proof (H x Hx). destruct (pos_first s i Hp) as (s' & E & Hp'). eauto.
  - intros s i (x & Hx & Hp). pose proof (H x Hx). destruct (pos_last s i Hp) as (s' & E & Hp'). eauto.
  - intros s i t (x & Hx & Hp) Ht. pose proof (H x Hx). destruct (pos_seek s i t Hp Ht) as (s' & E & Hp'). eauto.
  - intros s i (x & Hx & Hp) Hi. pose proof (H x Hx). destruct (pos_next s i Hp Hi) as (s' & E & Hp'). eauto.
  - intros s i (x & Hx & Hp) Hi. pose proof (H x Hx). destruct (pos_prev s i Hp Hi) as (s' & E & Hp'). eauto.
Qed.

(** Fewer targets. *)
Lemma laws_targets {T : Targets} {S : Type} {I : Iterator S} {C : Comparator} {kvs : list kv} (P : S -> nat -> Prop) :
  IteratorLaws (T := all_targets) I C kvs P -> IteratorLaws I C kvs P.
Proof. intros [L1 L2 L3 L4 L5 L6 L7 L8 L9 L10]. split; try assumption. intros s i t Hp _. by apply (L8 s i). Qed.

(** ** The empty iterator and cleanup *)

#[global] Instance EmptyIterator_laws {T : Targets} (C : Comparator) :
  IteratorLaws EmptyIterator_Iterator C [] (fun s i => s = OK /\ i = O).
Proof.
  split; simpl.
  all: try (intros s i [-> ->]; by eauto).
  all: try (intros s i [-> ->] H; simpl in H; lia).
  all: try (intros s i k v [-> ->] H; done).
  intros s i t [-> ->] _. eauto.
Qed.

(** Every registered function runs exactly once. *)
Lemma RegisterCleanup_perm {F : Type} (fs : list F) :
  Permutation (fold_left RegisterCleanup fs []) fs.
Proof.
  assert (H : forall fs (acc : list F), Permutation (fold_left (RegisterCleanup (F := F)) fs acc) (acc ++ fs)).
  { clear fs. induction fs as [|f fs IH]; intros acc; cbn [fold_left]; [by rewrite app_nil_r|].
    rewrite IH. destruct acc as [|h acc]; [done|]. cbn. apply perm_skip.
    by rewrite (Permutation_middle acc fs f). }
  apply (H fs []).
Qed.
