(* ===== verification/BlockBuilder.v ===== *)
(** * table/block_builder: prefix-compressed blocks

    Models src/table/block_builder.h and src/table/block_builder.cc, and states
    the layout of the blocks it builds: the encoded entries, the array of
    restart points and their number. *)

From S2P Require Import Prelude Coding Comparator Iterator.

Record BlockBuilder := mkBlockBuilder {
  bb_buffer : bytes;
  bb_restarts : list Z;
  bb_counter : Z;
  bb_finished : bool;
  bb_last_key : bytes;
}.

Definition BlockBuilder_new : BlockBuilder := mkBlockBuilder [] [0] 0 false [].
Definition BlockBuilder_Reset (b : BlockBuilder) : BlockBuilder := mkBlockBuilder [] [0] 0 false [].

Definition CurrentSizeEstimate (b : BlockBuilder) : Z :=
  zlen (bb_buffer b) + zlen (bb_restarts b) * 4 + 4.

Definition BlockBuilder_empty (b : BlockBuilder) : bool := zlen (bb_buffer b) =? 0.

(** [block_restart_interval] is the option of that name. *)
Definition BlockBuilder_Add (block_restart_interval : Z) (b : BlockBuilder) (key value : bytes)
    : BlockBuilder :=
  let last_key_piece := bb_last_key b in
  let '(shared, restarts, counter) :=
    if bb_counter b <? block_restart_interval
    then (shared_prefix last_key_piece key, bb_restarts b, bb_counter b)
    else (O, bb_restarts b ++ [u32 (zlen (bb_buffer b))], 0) in
  let non_shared := (length key - shared)%nat in
  let buffer := PutVarint32 (bb_buffer b) (u32 (Z.of_nat shared)) in
  let buffer := PutVarint32 buffer (u32 (Z.of_nat non_shared)) in
  let buffer := PutVarint32 buffer (u32 (zlen value)) in
  let buffer := buffer ++ drop shared key ++ value in
  mkBlockBuilder buffer restarts (counter + 1) (bb_finished b)
    (take shared last_key_piece ++ drop shared key).

(** The block's bytes and the builder, which must be reset before the next use. *)
Definition BlockBuilder_Finish (b : BlockBuilder) : bytes * BlockBuilder :=
  let buffer := fold_left PutFixed32 (bb_restarts b) (bb_buffer b) in
  let buffer := PutFixed32 buffer (u32 (zlen (bb_restarts b))) in
  (buffer, mkBlockBuilder buffer (bb_restarts b) (bb_counter b) true (bb_last_key b)).

(** ** Layout *)

(** One encoded entry. *)
Record cell := mkCell { c_shared : nat; c_key : bytes; c_value : bytes }.

Definition cell_header (c : cell) : bytes :=
  EncodeVarint32 (Z.of_nat (c_shared c)) ++
  EncodeVarint32 (zlen (c_key c) - Z.of_nat (c_shared c)) ++ EncodeVarint32 (zlen (c_value c)).
Definition cell_delta (c : cell) : bytes := drop (c_shared c) (c_key c).
Definition cell_bytes (c : cell) : bytes := cell_header c ++ cell_delta c ++ c_value c.
Definition cells_bytes (cs : list cell) : bytes := concat (map cell_bytes cs).
Definition cell_kv (c : cell) : kv := (c_key c, c_value c).

(** The offset of an entry. *)
Definition cell_off (cs : list cell) (i : nat) : Z := zlen (cells_bytes (take i cs)).

(** The bytes of the restart array. *)
Definition restart_bytes (cs : list cell) (ridx : list nat) : bytes :=
  concat (map (fun i => EncodeFixed32 (cell_off cs i)) ridx).

Definition block_bytes (cs : list cell) (ridx : list nat) : bytes :=
  cells_bytes cs ++ restart_bytes cs ridx ++ EncodeFixed32 (zlen ridx).

(** What follows the last key of the cells shares a prefix with it. *)
Definition shares (prev : bytes) (c : cell) : Prop :=
  (c_shared c <= length prev)%nat /\ (c_shared c <= length (c_key c))%nat /\
  take (c_shared c) prev = take (c_shared c) (c_key c).

Definition key_before (cs : list cell) (i : nat) : bytes :=
  match i with O => [] | S j => match cs !! j with Some c => c_key c | None => [] end end.

(** A well-formed block: every entry shares a prefix with the key before it,
    the restart points are entries that share nothing, in order, the first
    entry among them, and everything fits 32 bits. *)
Record block_layout (cs : list cell) (ridx : list nat) : Prop := {
  lay_shares : forall i c, cs !! i = Some c -> shares (key_before cs i) c;
  lay_first : ridx !! 0%nat = Some 0%nat;
  lay_mono : forall a b i j, ridx !! a = Some i -> ridx !! b = Some j -> (a < b)%nat -> (i < j)%nat;
  lay_range : forall a i, ridx !! a = Some i -> (i < length cs)%nat \/ (i = 0%nat /\ cs = []);
  lay_zero : forall a i c, ridx !! a = Some i -> cs !! i = Some c -> c_shared c = 0%nat;
  lay_keys : forall i c, cs !! i = Some c -> zlen (c_key c) < 2 ^ 32;
  lay_small : zlen (block_bytes cs ridx) < 2 ^ 32;
}.

(** ** The builder's invariant *)

(** The builder has been given the entries of [cs]. *)
Record builder_repr (interval : Z) (b : BlockBuilder) (cs : list cell) (ridx : list nat) : Prop := {
  br_buffer : bb_buffer b = cells_bytes cs;
  br_restarts : bb_restarts b = map (cell_off cs) ridx;
  br_last : bb_last_key b = key_before cs (length cs);
  br_counter : 0 <= bb_counter b <= interval /\ (cs = [] -> bb_counter b = 0);
  br_unfinished : bb_finished b = false;
  br_count : (length ridx <= length cs + 1)%nat;
  br_layout : block_layout cs ridx;
}.

Lemma cells_bytes_app cs cs' : cells_bytes (cs ++ cs') = cells_bytes cs ++ cells_bytes cs'.
Proof. unfold cells_bytes. by rewrite map_app, concat_app. Qed.

Lemma cell_off_app cs cs' i : (i <= length cs)%nat -> cell_off (cs ++ cs') i = cell_off cs i.
Proof. intros. unfold cell_off. by rewrite take_app_le. Qed.

Lemma cell_off_length cs : cell_off cs (length cs) = zlen (cells_bytes cs).
Proof. unfold cell_off. by rewrite firstn_all. Qed.

Lemma cell_off_S cs i c :
  cs !! i = Some c -> cell_off cs (S i) = cell_off cs i + zlen (cell_bytes c).
Proof.
  intros E. unfold cell_off. rewrite (take_S_r _ _ _ E), cells_bytes_app, zlen_app.
  unfold cells_bytes at 2. simpl. by rewrite app_nil_r.
Qed.

Lemma cell_bytes_length c : 3 <= zlen (cell_bytes c).
Proof.
  unfold cell_bytes, cell_header. rewrite !zlen_app.
  pose proof (EncodeVarint32_length (Z.of_nat (c_shared c))).
  pose proof (EncodeVarint32_length (zlen (c_key c) - Z.of_nat (c_shared c))).
  pose proof (EncodeVarint32_length (zlen (c_value c))).
  pose proof (zlen_nonneg (cell_delta c)). pose proof (zlen_nonneg (c_value c)). unfold zlen in *. lia.
Qed.

Lemma cell_off_lt cs i j : (i < j <= length cs)%nat -> cell_off cs i + 3 <= cell_off cs j.
Proof.
  intros [Hij Hj]. induction j as [|j IH]; [lia|].
  destruct (lookup_lt_is_Some_2 cs j ltac:(lia)) as [c E].
  rewrite (cell_off_S _ _ _ E). pose proof (cell_bytes_length c).
  destruct (decide (i = j)) as [->|]; [lia|]. specialize (IH ltac:(lia) ltac:(lia)). lia.
Qed.

Lemma cell_off_le_total cs i : 0 <= cell_off cs i <= zlen (cells_bytes cs).
Proof.
  split; [apply zlen_nonneg|]. rewrite <- (take_drop i cs) at 2.
  rewrite cells_bytes_app, zlen_app. unfold cell_off. pose proof (zlen_nonneg (cells_bytes (drop i cs))). lia.
Qed.

Lemma restart_bytes_length cs ridx : zlen (restart_bytes cs ridx) = 4 * zlen ridx.
Proof.
  unfold restart_bytes. induction ridx as [|i ridx IH]; [done|]. cbn [map concat].
  rewrite zlen_app, IH, zlen_cons. change (zlen (EncodeFixed32 _)) with 4. lia.
Qed.

Lemma block_bytes_length cs ridx :
  zlen (block_bytes cs ridx) = zlen (cells_bytes cs) + 4 * zlen ridx + 4.
Proof.
  unfold block_bytes. rewrite !zlen_app, restart_bytes_length. change (zlen (EncodeFixed32 _)) with 4. lia.
Qed.

Lemma new_repr interval : 1 <= interval -> builder_repr interval BlockBuilder_new [] [0%nat].
Proof.
  intros Hi. split; try done; simpl; [lia|]. split.
  - done.
  - done.
  - intros [|a] [|b] i j; simpl; try done; lia.
  - intros [|a] i; simpl; [|done]. intros [= <-]. by right.
  - done.
  - done.
  - reflexivity.
Qed.

(** What the entries of a block take at most: five bytes for each length and a
    restart point per entry, and the number of restarts. *)
Definition entries_size (kvs : list kv) : Z :=
  fold_right (fun p n => zlen p.1 + zlen p.2 + 19 + n) 8 kvs.

Lemma entries_size_app a b : entries_size (a ++ b) = entries_size a + entries_size b - 8.
Proof. induction a as [|p a IH]; simpl; [|rewrite IH]; lia. Qed.

Lemma entries_size_ge kvs : 8 <= entries_size kvs.
Proof.
  induction kvs as [|p kvs IH]; simpl; [lia|].
  pose proof (zlen_nonneg p.1). pose proof (zlen_nonneg p.2). lia.
Qed.

Lemma cell_bytes_bound c : zlen (cell_bytes c) <= 15 + zlen (c_key c) + zlen (c_value c).
Proof.
  unfold cell_bytes, cell_header, cell_delta. rewrite !zlen_app.
  pose proof (EncodeVarint32_length (Z.of_nat (c_shared c))).
  pose proof (EncodeVarint32_length (zlen (c_key c) - Z.of_nat (c_shared c))).
  pose proof (EncodeVarint32_length (zlen (c_value c))).
  unfold zlen in *. rewrite length_drop. lia.
Qed.

Lemma block_bytes_bound cs ridx :
  (length ridx <= length cs + 1)%nat ->
  zlen (block_bytes cs ridx) <= entries_size (map cell_kv cs).
Proof.
  intros Hr. rewrite block_bytes_length.
  assert (zlen (cells_bytes cs) + 4 * zlen cs + 8 <= entries_size (map cell_kv cs)).
  { clear Hr. induction cs as [|c cs IH]; [done|]. unfold cells_bytes in *.
    cbn [map concat entries_size fold_right cell_kv fst snd] in *. fold (entries_size (map cell_kv cs)).
    rewrite zlen_app, zlen_cons. pose proof (cell_bytes_bound c). lia. }
  unfold zlen in *. lia.
Qed.

Lemma key_before_app cs cs' i : (i <= length cs)%nat -> key_before (cs ++ cs') i = key_before cs i.
Proof. destruct i as [|i]; [done|]. intros Hi. simpl. by rewrite lookup_app_l. Qed.

Lemma lookup_snoc_Some {A} (l : list A) x i y :
  (l ++ [x]) !! i = Some y <-> l !! i = Some y \/ (i = length l /\ y = x).
Proof.
  rewrite lookup_app_Some. split.
  - intros [H|[Hl H]]; [by left|]. right. destruct (i - length l)%nat as [|d] eqn:E; simpl in H; [|done].
    simplify_eq. split; [lia|done].
  - intros [H|[-> ->]]; [by left|]. right. by rewrite Nat.sub_diag.
Qed.

Lemma map_cell_off_app cs c ridx :
  (forall a i, ridx !! a = Some i -> (i <= length cs)%nat) ->
  map (cell_off (cs ++ [c])) ridx = map (cell_off cs) ridx.
Proof.
  intros H. induction ridx as [|i ridx IH]; [done|]. cbn [map]. rewrite cell_off_app by (apply (H 0%nat); done).
  f_equal. apply IH. intros a j Hj. apply (H (S a) j Hj).
Qed.

Lemma lay_le cs ridx a i : block_layout cs ridx -> ridx !! a = Some i -> (i <= length cs)%nat.
Proof. intros H E. destruct (lay_range _ _ H a i E) as [|[-> _]]; lia. Qed.

(** A layout with one more entry, at a restart point or not. *)
Lemma layout_snoc cs ridx c restart :
  block_layout cs ridx -> shares (key_before cs (length cs)) c -> zlen (c_key c) < 2 ^ 32 ->
  (restart = true -> c_shared c = 0%nat /\ cs <> []) ->
  (cs = [] -> c_shared c = 0%nat) ->
  let ridx' := if restart then ridx ++ [length cs] else ridx in
  zlen (block_bytes (cs ++ [c]) ridx') < 2 ^ 32 ->
  block_layout (cs ++ [c]) ridx'.
Proof.
  intros H Hsh Hk Hr Hc0 ridx' Hsmall. split; [..|done].
  - intros i x [Hi|[-> ->]]%lookup_snoc_Some; rewrite key_before_app; try done.
    + by apply (lay_shares _ _ H).
    + apply lookup_lt_Some in Hi. lia.
  - subst ridx'. pose proof (lay_first _ _ H). destruct restart; [|done]. by apply lookup_app_l_Some.
  - subst ridx'. destruct restart; [|apply (lay_mono _ _ H)]. destruct (Hr eq_refl) as [_ Hne].
    intros a b i j [Ha|[-> ->]]%lookup_snoc_Some [Hb|[-> ->]]%lookup_snoc_Some Hab.
    + by apply (lay_mono _ _ H a b).
    + destruct (lay_range _ _ H a i Ha) as [|[_ ?]]; done.
    + apply lookup_lt_Some in Hb. lia.
    + lia.
  - intros a i Ha. left. rewrite length_app. simpl. subst ridx'.
    assert ((i <= length cs)%nat); [|lia]. destruct restart; [|by apply (lay_le _ _ _ _ H Ha)].
    apply lookup_snoc_Some in Ha as [Ha|[-> ->]]; [by apply (lay_le _ _ _ _ H Ha)|lia].
  - intros a i x Ha [Hi|[-> ->]]%lookup_snoc_Some.
    + subst ridx'. destruct restart; [|by apply (lay_zero _ _ H a i x)].
      apply lookup_snoc_Some in Ha as [Ha|[-> ->]]; [by apply (lay_zero _ _ H a i x)|].
      apply lookup_lt_Some in Hi. lia.
    + subst ridx'. destruct restart; [by apply Hr|]. destruct (lay_range _ _ H a _ Ha) as [|[_ ->]]; [lia|].
      by apply Hc0.
  - intros i x [Hi|[-> ->]]%lookup_snoc_Some; [|done]. by apply (lay_keys _ _ H i x).
Qed.

Lemma Add_repr interval b cs ridx key value :
  1 <= interval -> builder_repr interval b cs ridx ->
  entries_size (map cell_kv cs ++ [(key, value)]) < 2 ^ 32 ->
  exists c ridx', cell_kv c = (key, value) /\
    builder_repr interval (BlockBuilder_Add interval b key value) (cs ++ [c]) ridx'.
Proof.
  intros Hint [Hbuf Hrs Hlast [Hcnt Hcnt0] Hfin Hcount Hlay] Hsize.
  set (restart := negb (bb_counter b <? interval)).
  set (shared := if restart then O else shared_prefix (bb_last_key b) key).
  set (c := mkCell shared key value).
  assert (Hk : zlen key + zlen value + 19 < 2 ^ 32).
  { rewrite entries_size_app in Hsize. simpl in Hsize. pose proof (entries_size_ge (map cell_kv cs)). lia. }
  pose proof (zlen_nonneg key). pose proof (zlen_nonneg value).
  assert (Hsh : shares (key_before cs (length cs)) c).
  { rewrite <- Hlast. unfold shares, c, shared. simpl. destruct restart; [rewrite !take_0; repeat split; lia|].
    destruct (shared_prefix_le (bb_last_key b) key). pose proof (shared_prefix_take (bb_last_key b) key). done. }
  assert (Hne : restart = true -> cs <> []).
  { unfold restart. rewrite negb_true_iff, Z.ltb_ge. intros Hc ->. specialize (Hcnt0 eq_refl). lia. }
  set (ridx' := if restart then ridx ++ [length cs] else ridx).
  assert (Hc' : (length ridx' <= length (cs ++ [c]) + 1)%nat).
  { unfold ridx'. destruct restart; rewrite !length_app; simpl; lia. }
  assert (Hlay' : block_layout (cs ++ [c]) ridx').
  { apply layout_snoc; try done; simpl; [lia| | |].
    - intros Hr. split; [unfold c, shared; by rewrite Hr|by apply Hne].
    - intros ->. unfold c, shared. simpl. rewrite Hlast. simpl. by destruct restart.
    - fold ridx'. pose proof (block_bytes_bound (cs ++ [c]) ridx' Hc') as Hb.
      rewrite map_app in Hb. cbn [map] in Hb. unfold cell_kv at 2 in Hb. cbn [c_key c_value c] in Hb. lia. }
  exists c, ridx'. split; [done|].
  assert (Hsl : (shared <= length key)%nat) by apply Hsh.
  assert (E : BlockBuilder_Add interval b key value =
    mkBlockBuilder (bb_buffer b ++ cell_bytes c)
      (if restart then bb_restarts b ++ [u32 (zlen (bb_buffer b))] else bb_restarts b)
      ((if restart then 0 else bb_counter b) + 1) (bb_finished b) key).
  { assert (Hadd : BlockBuilder_Add interval b key value =
      let '(sh, restarts, counter) :=
        (shared, if restart then bb_restarts b ++ [u32 (zlen (bb_buffer b))] else bb_restarts b,
         if restart then 0 else bb_counter b) in
      mkBlockBuilder (PutVarint32 (PutVarint32 (PutVarint32 (bb_buffer b) (u32 (Z.of_nat sh)))
          (u32 (Z.of_nat (length key - sh)))) (u32 (zlen value)) ++ drop sh key ++ value)
        restarts (counter + 1) (bb_finished b) (take sh (bb_last_key b) ++ drop sh key)).
    { unfold BlockBuilder_Add, shared, restart. by destruct (bb_counter b <? interval). }
    rewrite Hadd. destruct Hsh as (_ & _ & Htake). rewrite Hlast. cbn [c_shared c_key c] in Htake.
    rewrite Htake, take_drop. f_equal.
    unfold cell_bytes, cell_header, cell_delta, PutVarint32. cbn [c_shared c_key c_value c].
    rewrite !u32_small by ilia. rewrite <- !app_assoc. do 3 f_equal. f_equal. unfold zlen. lia. }
  rewrite E. split; cbn [bb_buffer bb_restarts bb_last_key bb_counter bb_finished].
  - rewrite cells_bytes_app, Hbuf. unfold cells_bytes at 3. simpl. by rewrite app_nil_r.
  - unfold ridx'. pose proof (map_cell_off_app cs c ridx (fun a i => lay_le cs ridx a i Hlay)) as Hm.
    destruct restart; [|by rewrite Hm, Hrs]. rewrite map_app, Hm, Hrs. cbn [map].
    rewrite cell_off_app, cell_off_length, <- Hbuf by lia. f_equal. f_equal. apply u32_small.
    pose proof (lay_small _ _ Hlay) as Hs. rewrite block_bytes_length in Hs.
    pose proof (zlen_nonneg ridx). rewrite Hbuf. pose proof (zlen_nonneg (cells_bytes cs)). lia.
  - rewrite length_app, Nat.add_1_r. simpl. by rewrite lookup_app_r, Nat.sub_diag.
  - split; [|by intros [_ ?]%app_eq_nil]. unfold restart. destruct (Z.ltb_spec (bb_counter b) interval); simpl; lia.
  - done.
  - done.
  - done.
Qed.

Lemma Finish_repr interval b cs ridx :
  builder_repr interval b cs ridx -> (BlockBuilder_Finish b).1 = block_bytes cs ridx.
Proof.
  intros [Hbuf Hrs _ _ _ _ Hlay]. unfold BlockBuilder_Finish, PutFixed32. cbn [fst].
  assert (Hf : forall l dst, fold_left PutFixed32 (map (cell_off cs) l) dst = dst ++ restart_bytes cs l).
  { intros l. induction l as [|i l IH]; intros dst; cbn [map fold_left]; [by rewrite app_nil_r|].
    rewrite IH. unfold restart_bytes. cbn [map concat]. unfold PutFixed32. by rewrite <- app_assoc. }
  unfold PutFixed32 in Hf. rewrite Hrs, Hf, Hbuf. unfold block_bytes. rewrite <- app_assoc.
  do 3 f_equal. unfold zlen at 1. rewrite length_map. apply u32_small.
  pose proof (lay_small _ _ Hlay) as Hs. rewrite block_bytes_length in Hs.
  pose proof (zlen_nonneg ridx). pose proof (zlen_nonneg (cells_bytes cs)). unfold zlen in *. lia.
Qed.

(** A builder given a list of entries. *)
Definition add_all (interval : Z) (kvs : list kv) : BlockBuilder :=
  fold_left (fun b p => BlockBuilder_Add interval b p.1 p.2) kvs BlockBuilder_new.

Lemma entries_size_prefix a b : entries_size a <= entries_size (a ++ b).
Proof. rewrite entries_size_app. pose proof (entries_size_ge b). lia. Qed.

Lemma add_all_repr interval kvs :
  1 <= interval -> entries_size kvs < 2 ^ 32 ->
  exists cs ridx, map cell_kv cs = kvs /\ builder_repr interval (add_all interval kvs) cs ridx.
Proof.
  intros Hi. unfold add_all. induction kvs as [|[k v] kvs IH] using rev_ind; intros Hs.
  { exists [], [0%nat]. split; [done|]. by apply new_repr. }
  pose proof (entries_size_prefix kvs [(k, v)]). destruct IH as (cs & ridx & <- & H1); [lia|].
  rewrite fold_left_app. cbn [fold_left fst snd].
  destruct (Add_repr _ _ _ _ k v Hi H1 Hs) as (c & ridx' & E & H2).
  exists (cs ++ [c]), ridx'. split; [|done]. rewrite map_app. cbn [map]. by rewrite E.
Qed.

(** The block of a list of entries has their layout. *)
Lemma built_block interval kvs :
  1 <= interval -> entries_size kvs < 2 ^ 32 ->
  exists cs ridx, map cell_kv cs = kvs /\ block_layout cs ridx /\
    (BlockBuilder_Finish (add_all interval kvs)).1 = block_bytes cs ridx.
Proof.
  intros Hi Hs. destruct (add_all_repr interval kvs Hi Hs) as (cs & ridx & E & H).
  exists cs, ridx. split; [done|]. split; [apply H|]. by eapply Finish_repr.
Qed.
