(* ===== verification/Block.v ===== *)
(** * table/block: reading blocks

    Models src/table/block.h and src/table/block.cc: the block, the decoding of
    an entry and the iterator.  Offsets are 32-bit integers, as in the code;
    [value_] is an offset and a length in the block. *)

From S2P Require Import Prelude Coding Comparator Status Iterator BlockBuilder.

(** ** The block *)

Record Block := mkBlock {
  data_ : bytes;
  size_ : Z;
  restart_offset_ : Z;
}.

(** [DecodeFixed32(data_ + size_ - sizeof(uint32_t))] *)
Definition NumRestarts (data : bytes) (size : Z) : Z := DecodeFixed32 (drop (Z.to_nat (size - 4)) data).

(** The constructor; [size_] 0 marks an error, [restart_offset_] is then not set. *)
Definition Block_new (contents : bytes) : Block :=
  let size := zlen contents in
  if size <? 4 then mkBlock contents 0 0
  else
    let max_restarts_allowed := (size - 4) / 4 in
    let n := NumRestarts contents size in
    if max_restarts_allowed <? n then mkBlock contents 0 0
    else mkBlock contents size (u32 (size - u32 (1 + n) * 4)).

(** [DecodeEntry(p, limit, ...)]: the bytes from [p] to [limit] give the three
    lengths and the bytes from the key delta to [limit]. *)
Definition DecodeEntry (p : bytes) : option (Z * Z * Z * bytes) :=
  if zlen p <? 3 then None
  else
    let lengths :=
      if Z.lor (Z.lor (byte_at p 0) (byte_at p 1)) (byte_at p 2) <? 128
      then Some (byte_at p 0, byte_at p 1, byte_at p 2, drop 3 p)
      else
        match GetVarint32Ptr p with
        | None => None
        | Some (shared, p) =>
            match GetVarint32Ptr p with
            | None => None
            | Some (non_shared, p) =>
                match GetVarint32Ptr p with
                | None => None
                | Some (value_length, p) => Some (shared, non_shared, value_length, p)
                end
            end
        end in
    match lengths with
    | None => None
    | Some (shared, non_shared, value_length, p) =>
        if u32 (zlen p) <? u32 (non_shared + value_length) then None
        else Some (shared, non_shared, value_length, p)
    end.

(** ** The iterator *)

Record BlockIter := mkBlockIter {
  comparator_ : Comparator;
  bi_data : bytes;
  restarts_ : Z;
  num_restarts_ : Z;
  current_ : Z;
  restart_index_ : Z;
  key_ : bytes;
  value_ : Z * Z;
  status_ : Status;
}.

Definition with_position (it : BlockIter) (current restart_index : Z) (key : bytes) (value : Z * Z)
    (status : Status) : BlockIter :=
  mkBlockIter (comparator_ it) (bi_data it) (restarts_ it) (num_restarts_ it)
    current restart_index key value status.

Definition BlockIter_new (C : Comparator) (data : bytes) (restarts num_restarts : Z) : BlockIter :=
  mkBlockIter C data restarts num_restarts restarts num_restarts [] (0, 0) OK.

Definition BlockIter_Valid (it : BlockIter) : bool := current_ it <? restarts_ it.

Definition NextEntryOffset (it : BlockIter) : Z := u32 ((value_ it).1 + (value_ it).2).

Definition GetRestartPoint (it : BlockIter) (index : Z) : Z :=
  DecodeFixed32 (drop (Z.to_nat (restarts_ it + index * 4)) (bi_data it)).

Definition SeekToRestartPoint (it : BlockIter) (index : Z) : BlockIter :=
  with_position it (current_ it) index [] (GetRestartPoint it index, 0) (status_ it).

(** After an error [value_] is the empty slice; no operation reads its offset
    before setting it. *)
Definition CorruptionError (it : BlockIter) : BlockIter :=
  with_position it (restarts_ it) (num_restarts_ it) [] (0, 0)
    (Corruption (cstr "bad entry in block") []).

(** The bytes from offset [o] to the restart array. *)
Definition from_offset (it : BlockIter) (o : Z) : bytes :=
  drop (Z.to_nat o) (take (Z.to_nat (restarts_ it)) (bi_data it)).

(** The loop that brings [restart_index_] up to the current entry. *)
Fixpoint advance_restart (fuel : nat) (it : BlockIter) (current index : Z) : Z :=
  match fuel with
  | O => index
  | S f =>
      if (u32 (index + 1) <? num_restarts_ it) && (GetRestartPoint it (u32 (index + 1)) <? current)
      then advance_restart f it current (u32 (index + 1))
      else index
  end.

(** The result, or [None] where the code would read past the block: an entry
    whose lengths add up to 2^32 or more passes the check of [DecodeEntry]. *)
Definition ParseNextKey (it : BlockIter) : option (bool * BlockIter) :=
  let current := NextEntryOffset it in
  if restarts_ it <=? current then
    Some (false, with_position it (restarts_ it) (num_restarts_ it) (key_ it) (value_ it) (status_ it))
  else
    match DecodeEntry (from_offset it current) with
    | None => Some (false, CorruptionError it)
    | Some (shared, non_shared, value_length, p) =>
        if zlen (key_ it) <? shared then Some (false, CorruptionError it)
        else
          let p_off := restarts_ it - zlen p in
          if zlen (bi_data it) <? p_off + non_shared then None
          else
            let key := take (Z.to_nat shared) (key_ it) ++
                       take (Z.to_nat non_shared) (drop (Z.to_nat p_off) (bi_data it)) in
            let index := advance_restart (Z.to_nat (num_restarts_ it)) it current (restart_index_ it) in
            Some (true, with_position it current index key (p_off + non_shared, value_length) (status_ it))
    end.

Definition Iter_Next (it : BlockIter) : option BlockIter :=
  if BlockIter_Valid it then option_map snd (ParseNextKey it) else None.

(** The scan backwards of [Prev]: [None] when there is no entry before. *)
Fixpoint restart_before (fuel : nat) (it : BlockIter) (original index : Z) : option Z :=
  match fuel with
  | O => None
  | S f =>
      if original <=? GetRestartPoint it index then
        if index =? 0 then None else restart_before f it original (index - 1)
      else Some index
  end.

(** [while (ParseNextKey() && NextEntryOffset() < limit)]; every entry takes
    at least three bytes. *)
Fixpoint parse_until (fuel : nat) (it : BlockIter) (limit : Z) : option BlockIter :=
  match fuel with
  | O => None
  | S f =>
      match ParseNextKey it with
      | None => None
      | Some (true, it) => if NextEntryOffset it <? limit then parse_until f it limit else Some it
      | Some (false, it) => Some it
      end
  end.

Definition scan_fuel (it : BlockIter) : nat := S (length (bi_data it)).

Definition Iter_Prev (it : BlockIter) : option BlockIter :=
  if BlockIter_Valid it then
    let original := current_ it in
    match restart_before (S (Z.to_nat (restart_index_ it))) it original (restart_index_ it) with
    | None => Some (with_position it (restarts_ it) (num_restarts_ it) (key_ it) (value_ it) (status_ it))
    | Some index => parse_until (scan_fuel it) (SeekToRestartPoint it index) original
    end
  else None.

(** The binary search over the restart points: [None] on a bad entry, outer
    [None] when the key of an entry would be read past the block. *)
Fixpoint seek_restart (fuel : nat) (it : BlockIter) (target : bytes) (left right : Z)
    : option (option Z) :=
  match fuel with
  | O => Some (Some left)
  | S f =>
      if left <? right then
        let mid := u32 (left + right + 1) / 2 in
        let region_offset := GetRestartPoint it mid in
        match DecodeEntry (from_offset it region_offset) with
        | None => Some None
        | Some (shared, non_shared, value_length, p) =>
            if negb (shared =? 0) then Some None
            else
              let p_off := restarts_ it - zlen p in
              if zlen (bi_data it) <? p_off + non_shared then None
              else
                let mid_key := take (Z.to_nat non_shared) (drop (Z.to_nat p_off) (bi_data it)) in
                match Compare (Comparator := comparator_ it) mid_key target with
                | Lt => seek_restart f it target mid right
                | _ => seek_restart f it target left (mid - 1)
                end
        end
      else Some (Some left)
  end.

(** The linear search within the restart block. *)
Fixpoint seek_linear (fuel : nat) (it : BlockIter) (target : bytes) : option BlockIter :=
  match fuel with
  | O => None
  | S f =>
      match ParseNextKey it with
      | None => None
      | Some (false, it) => Some it
      | Some (true, it) =>
          match Compare (Comparator := comparator_ it) (key_ it) target with
          | Lt => seek_linear f it target
          | _ => Some it
          end
      end
  end.

(** The search, given the bounds and the comparison with the current key. *)
Definition Iter_Seek_from (it : BlockIter) (target : bytes) (left right : Z) (current_lt : bool)
    : option BlockIter :=
  match seek_restart (Z.to_nat (num_restarts_ it)) it target left right with
  | None => None
  | Some None => Some (CorruptionError it)
  | Some (Some l) =>
      let skip_seek := (l =? restart_index_ it) && current_lt in
      seek_linear (scan_fuel it) (if skip_seek then it else SeekToRestartPoint it l) target
  end.

Definition Iter_Seek (it : BlockIter) (target : bytes) : option BlockIter :=
  let left := 0 in
  let right := num_restarts_ it - 1 in
  if BlockIter_Valid it then
    match Compare (Comparator := comparator_ it) (key_ it) target with
    | Lt => Iter_Seek_from it target (restart_index_ it) right true
    | Gt => Iter_Seek_from it target left (restart_index_ it) false
    | Eq => Some it
    end
  else Iter_Seek_from it target left right false.

Definition Iter_SeekToFirst (it : BlockIter) : option BlockIter :=
  option_map snd (ParseNextKey (SeekToRestartPoint it 0)).

Definition Iter_SeekToLast (it : BlockIter) : option BlockIter :=
  parse_until (scan_fuel it) (SeekToRestartPoint it (num_restarts_ it - 1)) (restarts_ it).

(** [key()] and [value()] of a valid iterator; [None] for a value that would
    lie outside the block. *)
Definition Iter_key (it : BlockIter) : option bytes :=
  if BlockIter_Valid it then Some (key_ it) else None.
Definition Iter_value (it : BlockIter) : option bytes :=
  if BlockIter_Valid it && ((value_ it).1 + (value_ it).2 <=? zlen (bi_data it))
  then Some (take (Z.to_nat (value_ it).2) (drop (Z.to_nat (value_ it).1) (bi_data it))) else None.

#[global] Instance BlockIter_Iterator : Iterator BlockIter := {|
  it_Valid := BlockIter_Valid;
  it_SeekToFirst := Iter_SeekToFirst;
  it_SeekToLast := Iter_SeekToLast;
  it_Seek := Iter_Seek;
  it_Next := Iter_Next;
  it_Prev := Iter_Prev;
  it_key := Iter_key;
  it_value := Iter_value;
  it_status := status_;
|}.

(** [NewIterator]: the empty iterator with a status, or an [Iter]. *)
Definition Block_NewIterator (b : Block) (C : Comparator) : EmptyIterator + BlockIter :=
  if size_ b <? 4 then inl (NewErrorIterator (Corruption (cstr "bad block contents") []))
  else
    let num_restarts := NumRestarts (data_ b) (size_ b) in
    if num_restarts =? 0 then inl NewEmptyIterator
    else inr (BlockIter_new C (data_ b) (restart_offset_ b) num_restarts).

(** ** Decoding an entry *)

Lemma lor_lt_128 a b : 0 <= a -> 0 <= b -> Z.lor a b < 128 -> a < 128 /\ b < 128.
Proof.
  intros Ha Hb H. pose proof (Z.log2_lor a b Ha Hb) as E.
  pose proof (Z.log2_le_mono (Z.lor a b) 127 ltac:(lia)) as Hm. change (Z.log2 127) with 6 in Hm.
  split; apply Z.nle_gt; intros Hge; pose proof (Z.log2_le_mono 128 _ Hge) as Hl;
    change (Z.log2 128) with 7 in Hl; lia.
Qed.

(** A varint whose first byte is below 128 is that byte. *)
Lemma EncodeVarint32_first v rest :
  0 <= v < 2 ^ 32 -> byte_at (EncodeVarint32 v ++ rest) 0 < 128 ->
  EncodeVarint32 v = [byte_of_Z v] /\ byte_to_Z (byte_of_Z v) = v.
Proof.
  intros Hv. rewrite EncodeVarint32_loop by done. unfold EncodeVarint64. rewrite EncodeVarint64_loop_S.
  destruct (Z.leb_spec 128 v) as [Hge|Hlt].
  - unfold byte_at. cbn [app nth]. rewrite byte_cont_value.
    pose proof (Z.mod_pos_bound v 128 ltac:(lia)). lia.
  - intros _. split; [done|]. apply byte_last_value. lia.
Qed.

Lemma DecodeEntry_header a b c rest :
  0 <= a < 2 ^ 32 -> 0 <= b -> 0 <= c -> b + c <= zlen rest -> zlen rest < 2 ^ 32 ->
  DecodeEntry (EncodeVarint32 a ++ EncodeVarint32 b ++ EncodeVarint32 c ++ rest) = Some (a, b, c, rest).
Proof.
  intros Ha Hb Hc Hr Hr'. unfold DecodeEntry. set (p := EncodeVarint32 a ++ _).
  assert (Hlen : 3 <= zlen p).
  { subst p. rewrite !zlen_app. pose proof (EncodeVarint32_length a). pose proof (EncodeVarint32_length b).
    pose proof (EncodeVarint32_length c). unfold zlen in *. lia. }
  rewrite (proj2 (Z.ltb_ge _ _) Hlen).
  assert (Hslow : GetVarint32Ptr p = Some (a, EncodeVarint32 b ++ EncodeVarint32 c ++ rest))
    by (apply (GetVarint32_encode a); done).
  assert (E : (if Z.lor (Z.lor (byte_at p 0) (byte_at p 1)) (byte_at p 2) <? 128
      then Some (byte_at p 0, byte_at p 1, byte_at p 2, drop 3 p)
      else match GetVarint32Ptr p with
        | None => None
        | Some (shared, p) =>
            match GetVarint32Ptr p with
            | None => None
            | Some (non_shared, p) =>
                match GetVarint32Ptr p with
                | None => None
                | Some (value_length, p) => Some (shared, non_shared, value_length, p)
                end
            end
        end) = Some (a, b, c, rest)).
  - destruct (Z.ltb_spec (Z.lor (Z.lor (byte_at p 0) (byte_at p 1)) (byte_at p 2)) 128) as [Hfast|_].
    + pose proof (byte_at_range p 0). pose proof (byte_at_range p 1). pose proof (byte_at_range p 2).
      apply lor_lt_128 in Hfast as [[F0 F1]%lor_lt_128 F2]; [|lia..|apply Z.lor_nonneg; lia|lia].
      subst p. destruct (EncodeVarint32_first a _ Ha F0) as [Ea Va]. rewrite Ea in *.
      cbn [app] in *. rewrite byte_at_cons in F1.
      destruct (EncodeVarint32_first b _ ltac:(lia) F1) as [Eb Vb]. rewrite Eb in *.
      cbn [app] in *. rewrite !byte_at_cons in F2.
      destruct (EncodeVarint32_first c rest ltac:(lia) F2) as [Ec Vc]. rewrite Ec.
      cbn [app drop]. unfold byte_at. cbn [nth]. by rewrite Va, Vb, Vc.
    + rewrite Hslow. fold (GetVarint32 (EncodeVarint32 b ++ EncodeVarint32 c ++ rest)).
      rewrite GetVarint32_encode by lia. fold (GetVarint32 (EncodeVarint32 c ++ rest)).
      by rewrite GetVarint32_encode by lia.
  - rewrite E. rewrite !u32_small by (pose proof (zlen_nonneg rest); lia).
    by rewrite (proj2 (Z.ltb_ge _ _)) by lia.
Qed.

(** ** The iterator over a well-formed block *)

Section BlockIteration.
Context {C : Comparator} {L : ComparatorLaws C}.
Context {cs : list cell} {ridx : list nat} (Hlay : block_layout cs ridx).
Context (Hsorted : kvs_sorted C (map cell_kv cs)).

Let data := block_bytes cs ridx.
Let off := cell_off cs.

Lemma total_small : zlen (cells_bytes cs) + 4 * zlen ridx + 4 < 2 ^ 32.
Proof. rewrite <- block_bytes_length. apply Hlay. Qed.

Lemma off_range i : 0 <= off i <= zlen (cells_bytes cs).
Proof. apply cell_off_le_total. Qed.

Lemma off_small i : u32 (off i) = off i.
Proof.
  apply u32_small. pose proof (off_range i). pose proof total_small. pose proof (zlen_nonneg ridx).
  unfold zlen in *. lia.
Qed.

(** The constant members. *)
Definition iter_fixed (it : BlockIter) : Prop :=
  comparator_ it = C /\ bi_data it = data /\ restarts_ it = zlen (cells_bytes cs) /\
  num_restarts_ it = zlen ridx /\ status_ it = OK.

(** Restart block [r] is the one of entry [i], up to the boundary. *)
Definition ri_ok (r : Z) (i : nat) : Prop :=
  exists a j, r = Z.of_nat a /\ ridx !! a = Some j /\ (j <= i)%nat /\
    forall b j', ridx !! b = Some j' -> (a < b)%nat -> (i <= j')%nat.

(** The iterator stands at entry [i], or is invalid. *)
Definition block_at (it : BlockIter) (i : nat) : Prop :=
  iter_fixed it /\
  ((exists c, cs !! i = Some c /\ current_ it = off i /\ key_ it = c_key c /\
      value_ it = (off (S i) - zlen (c_value c), zlen (c_value c)) /\ ri_ok (restart_index_ it) i) \/
   (i = length cs /\ current_ it = restarts_ it /\ restart_index_ it = num_restarts_ it)).

(** The iterator is about to parse entry [i]. *)
Definition ready (it : BlockIter) (i : nat) : Prop :=
  iter_fixed it /\ (i <= length cs)%nat /\ NextEntryOffset it = off i /\
  (forall c, cs !! i = Some c -> (c_shared c <= length (key_ it))%nat /\
     take (c_shared c) (key_ it) = take (c_shared c) (c_key c)) /\
  exists a j, restart_index_ it = Z.of_nat a /\ ridx !! a = Some j /\ (j <= i)%nat.

Lemma restart_data : drop (length (cells_bytes cs)) data = restart_bytes cs ridx ++ EncodeFixed32 (zlen ridx).
Proof. unfold data, block_bytes. apply drop_app_exact. Qed.

Lemma restart_bytes_lookup rs a i rest :
  rs !! a = Some i -> 0 <= off i < 2 ^ 32 ->
  DecodeFixed32 (drop (4 * a) (restart_bytes cs rs ++ rest)) = off i.
Proof.
  intros E Hs. revert a E. unfold restart_bytes. induction rs as [|j rs IH]; intros [|a]; [done..| |].
  - intros [= ->]. cbn [map concat]. rewrite <- app_assoc. change (4 * 0)%nat with O. rewrite drop_0.
    rewrite DecodeFixed32_encode. by apply u32_small.
  - intros E. cbn [map concat]. replace (4 * S a)%nat with (4 + 4 * a)%nat by lia.
    rewrite <- drop_drop, <- app_assoc. change 4%nat with (length (EncodeFixed32 (cell_off cs j))) at 2.
    rewrite drop_app_exact. by apply IH.
Qed.

Lemma GetRestartPoint_spec it a i :
  iter_fixed it -> ridx !! a = Some i -> GetRestartPoint it (Z.of_nat a) = off i.
Proof.
  intros (_ & Hd & Hr & _) E. unfold GetRestartPoint. rewrite Hd, Hr.
  replace (Z.to_nat (zlen (cells_bytes cs) + Z.of_nat a * 4)) with (length (cells_bytes cs) + 4 * a)%nat
    by (unfold zlen; lia).
  rewrite <- drop_drop, restart_data. apply restart_bytes_lookup; [done|].
  pose proof (off_range i). pose proof total_small. pose proof (zlen_nonneg ridx). lia.
Qed.

Lemma from_offset_spec it i :
  iter_fixed it -> (i <= length cs)%nat -> from_offset it (off i) = cells_bytes (drop i cs).
Proof.
  intros (_ & Hd & Hr & _) Hi. unfold from_offset. rewrite Hd, Hr. unfold data, block_bytes, off, cell_off.
  unfold zlen. rewrite !Nat2Z.id, take_app_exact.
  rewrite <- (take_drop i cs) at 2. rewrite cells_bytes_app. apply drop_app_exact.
Qed.

Lemma cells_bytes_drop i c :
  cs !! i = Some c -> cells_bytes (drop i cs) = cell_bytes c ++ cells_bytes (drop (S i) cs).
Proof. intros E. rewrite (drop_S _ _ _ E). done. Qed.

Lemma cells_bytes_rest i : zlen (cells_bytes (drop i cs)) = zlen (cells_bytes cs) - off i.
Proof.
  unfold off, cell_off. rewrite <- (take_drop i cs) at 2. rewrite cells_bytes_app, zlen_app. lia.
Qed.

Lemma cell_small i c :
  cs !! i = Some c -> (c_shared c <= length (c_key c))%nat /\ zlen (c_key c) < 2 ^ 32 /\
    zlen (c_value c) < 2 ^ 32.
Proof.
  intros E. split; [apply (lay_shares _ _ Hlay _ _ E)|]. split; [apply (lay_keys _ _ Hlay _ _ E)|].
  pose proof (cells_bytes_rest i) as H. rewrite (cells_bytes_drop _ _ E), zlen_app in H.
  unfold cell_bytes in H. rewrite !zlen_app in H. pose proof total_small. pose proof (off_range i).
  pose proof (zlen_nonneg (cell_header c)). pose proof (zlen_nonneg (cell_delta c)).
  pose proof (zlen_nonneg (cells_bytes (drop (S i) cs))). pose proof (zlen_nonneg ridx). lia.
Qed.

Lemma DecodeEntry_at it i c :
  iter_fixed it -> cs !! i = Some c ->
  DecodeEntry (from_offset it (off i)) =
  Some (Z.of_nat (c_shared c), zlen (cell_delta c), zlen (c_value c),
        cell_delta c ++ c_value c ++ cells_bytes (drop (S i) cs)).
Proof.
  intros Hf E. pose proof (lookup_lt_Some _ _ _ E). rewrite from_offset_spec by (done || lia).
  pose proof (cells_bytes_rest i) as Hrest. pose proof total_small. pose proof (off_range i).
  pose proof (zlen_nonneg ridx). destruct (cell_small _ _ E) as (Hs & Hk & Hv).
  assert (Hdelta : zlen (cell_delta c) = zlen (c_key c) - Z.of_nat (c_shared c)).
  { unfold cell_delta, zlen. rewrite length_drop. lia. }
  pose proof (zlen_nonneg (cell_delta c)). pose proof (zlen_nonneg (c_value c)).
  rewrite (cells_bytes_drop _ _ E) in *. unfold cell_bytes, cell_header in *. rewrite <- Hdelta in *.
  rewrite <- !app_assoc in *. rewrite !zlen_app in Hrest.
  pose proof (zlen_nonneg (cells_bytes (drop (S i) cs))).
  pose proof (zlen_nonneg (EncodeVarint32 (Z.of_nat (c_shared c)))).
  pose proof (zlen_nonneg (EncodeVarint32 (zlen (cell_delta c)))).
  pose proof (zlen_nonneg (EncodeVarint32 (zlen (c_value c)))).
  apply DecodeEntry_header; rewrite ?zlen_app; lia.
Qed.

(** The bytes of an entry's key delta and value, by their offsets. *)
Lemma cell_data i c :
  cs !! i = Some c ->
  let p_off := off (S i) - zlen (cell_delta c) - zlen (c_value c) in
  0 <= p_off /\ off (S i) <= zlen (cells_bytes cs) /\
  take (Z.to_nat (zlen (cell_delta c))) (drop (Z.to_nat p_off) data) = cell_delta c /\
  take (Z.to_nat (zlen (c_value c))) (drop (Z.to_nat (off (S i) - zlen (c_value c))) data) = c_value c.
Proof.
  intros E. pose proof (off_range (S i)). unfold off in *. cbn zeta. rewrite (cell_off_S _ _ _ E) in *.
  unfold cell_bytes in *. rewrite !zlen_app in *. pose proof (zlen_nonneg (cell_header c)).
  pose proof (cell_off_le_total cs i).
  assert (Hd : data = (cells_bytes (take i cs) ++ cell_header c) ++ cell_delta c ++ c_value c ++
    cells_bytes (drop (S i) cs) ++ restart_bytes cs ridx ++ EncodeFixed32 (zlen ridx)).
  { unfold data, block_bytes. rewrite <- (take_drop i cs) at 1. rewrite cells_bytes_app.
    rewrite (cells_bytes_drop _ _ E). unfold cell_bytes. by rewrite <- !app_assoc. }
  assert (Hp : Z.to_nat (cell_off cs i + (zlen (cell_header c) + (zlen (cell_delta c) + zlen (c_value c)))
      - zlen (cell_delta c) - zlen (c_value c)) = length (cells_bytes (take i cs) ++ cell_header c)).
  { rewrite length_app. unfold cell_off, zlen. lia. }
  assert (Hv : Z.to_nat (cell_off cs i + (zlen (cell_header c) + (zlen (cell_delta c) + zlen (c_value c)))
      - zlen (c_value c)) = length ((cells_bytes (take i cs) ++ cell_header c) ++ cell_delta c)).
  { rewrite !length_app. unfold cell_off, zlen. lia. }
  split; [lia|]. split; [lia|]. split.
  - rewrite Hp, Hd, drop_app_exact. unfold zlen. rewrite Nat2Z.id. apply take_app_exact.
  - rewrite Hv, Hd, app_assoc, drop_app_exact. unfold zlen. rewrite Nat2Z.id. apply take_app_exact.
Qed.

Lemma num_small : zlen ridx < 2 ^ 32 - 1.
Proof. pose proof total_small. pose proof (zlen_nonneg (cells_bytes cs)). pose proof (zlen_nonneg ridx). lia. Qed.

Lemma off_lt_iff i j : (i <= length cs)%nat -> (j <= length cs)%nat -> (off i < off j <-> (i < j)%nat).
Proof.
  intros Hi Hj. split; intros H.
  - destruct (Nat.lt_ge_cases i j) as [|Hge]; [done|]. destruct (decide (i = j)) as [->|]; [lia|].
    pose proof (cell_off_lt cs j i ltac:(lia)). unfold off in *. lia.
  - pose proof (cell_off_lt cs i j ltac:(lia)). unfold off. lia.
Qed.

(** Bringing the restart index up to the entry. *)
Lemma advance_restart_spec fuel it a j i :
  iter_fixed it -> (i < length cs)%nat -> ridx !! a = Some j -> (j <= i)%nat ->
  (length ridx - a <= fuel)%nat ->
  ri_ok (advance_restart fuel it (off i) (Z.of_nat a)) i.
Proof.
  intros Hf Hi. revert a j. induction fuel as [|f IH]; intros a j Ha Hj Hfuel.
  { apply lookup_lt_Some in Ha. lia. }
  cbn [advance_restart]. pose proof (lookup_lt_Some _ _ _ Ha) as Hal. pose proof num_small.
  replace (u32 (Z.of_nat a + 1)) with (Z.of_nat (S a))
    by (rewrite u32_small; unfold zlen in *; lia).
  assert (num_restarts_ it = zlen ridx) as -> by apply Hf.
  destruct (Z.ltb_spec (Z.of_nat (S a)) (zlen ridx)) as [Hl|Hl]; cbn [andb].
  - destruct (lookup_lt_is_Some_2 ridx (S a) ltac:(unfold zlen in *; lia)) as [j' Ej].
    rewrite (GetRestartPoint_spec _ _ _ Hf Ej).
    destruct (Z.ltb_spec (off j') (off i)) as [Ho|Ho].
    + apply (IH (S a) j' Ej); [|lia]. apply off_lt_iff in Ho; [lia| |lia]. eapply lay_le; eauto.
    + exists a, j. repeat split; [done..|]. intros b j'' Hb Hab.
      assert ((i <= j')%nat).
      { apply Nat.nlt_ge. intros Hlt. apply off_lt_iff in Hlt; [lia|eapply lay_le; eauto|lia]. }
      destruct (decide (b = S a)) as [->|]; [by simplify_eq|].
      pose proof (lay_mono _ _ Hlay (S a) b _ _ Ej Hb ltac:(lia)). lia.
  - exists a, j. repeat split; [done..|]. intros b j'' Hb Hab. apply lookup_lt_Some in Hb.
    unfold zlen in *. lia.
Qed.

Lemma ParseNextKey_ready it i :
  ready it i ->
  exists it', ParseNextKey it = Some ((i <? length cs)%nat, it') /\ block_at it' i.
Proof.
  intros (Hf & Hi & Hnext & Hshare & a & j & Hri & Ha & Hj).
  destruct Hf as (Hc & Hd & Hr & Hn & Hs). assert (Hf : iter_fixed it) by done.
  unfold ParseNextKey. rewrite Hnext, Hr. destruct (Nat.ltb_spec i (length cs)) as [Hlt|Hge].
  - destruct (lookup_lt_is_Some_2 cs i Hlt) as [c E].
    assert (off i < off (length cs)) as Hlast by (apply off_lt_iff; lia).
    unfold off at 2 in Hlast. rewrite cell_off_length in Hlast.
    rewrite (proj2 (Z.leb_gt _ _) Hlast), (DecodeEntry_at _ _ _ Hf E).
    destruct (Hshare _ E) as [Hsl Hst]. rewrite (proj2 (Z.ltb_ge _ _)) by (unfold zlen; lia).
    assert (Hp : zlen (cells_bytes cs) - zlen (cell_delta c ++ c_value c ++ cells_bytes (drop (S i) cs))
      = off (S i) - zlen (cell_delta c) - zlen (c_value c)).
    { rewrite !zlen_app, cells_bytes_rest. lia. }
    rewrite Hp. destruct (cell_data _ _ E) as (H0 & H1 & H2 & _).
    pose proof (zlen_nonneg (c_value c)).
    rewrite (proj2 (Z.ltb_ge _ _)).
    2: { rewrite Hd. unfold data. rewrite block_bytes_length. pose proof (zlen_nonneg ridx). lia. }
    eexists. split; [reflexivity|]. split; [done|]. left. exists c. split; [done|].
    cbn [with_position current_ key_ value_ restart_index_]. split; [done|]. split.
    { rewrite Hd, H2, Nat2Z.id, Hst. apply take_drop. }
    split; [f_equal; lia|]. rewrite Hri. apply (advance_restart_spec _ _ _ j); try done.
    rewrite Hn. unfold zlen. lia.
  - assert (i = length cs) as -> by lia. rewrite (proj2 (Z.leb_le _ _)).
    2: { unfold off. rewrite cell_off_length. lia. }
    eexists. split; [reflexivity|]. split; [done|]. right. cbn [with_position current_ restarts_ restart_index_ num_restarts_].
    done.
Qed.

Lemma block_at_ready it i : block_at it i -> (i < length cs)%nat -> ready it (S i).
Proof.
  intros [Hf [(c & E & Hc & Hk & Hv & Hri)|(-> & _)]] Hi; [|lia].
  split; [done|]. split; [lia|]. split.
  { unfold NextEntryOffset. rewrite Hv. cbn [fst snd].
    replace (off (S i) - _ + _) with (off (S i)) by lia. apply off_small. }
  split.
  - intros c' E'. destruct (lay_shares _ _ Hlay _ _ E') as (H1 & _ & H2). cbn [key_before] in *.
    rewrite E in H1, H2. by rewrite Hk.
  - destruct Hri as (a & j & -> & Ha & Hj & _). exists a, j. repeat split; try done. lia.
Qed.

Lemma SeekToRestartPoint_ready it a j :
  iter_fixed it -> ridx !! a = Some j -> ready (SeekToRestartPoint it (Z.of_nat a)) j.
Proof.
  intros Hf Ha. split; [done|]. split; [eapply lay_le; eauto|]. split.
  { unfold NextEntryOffset. cbn [SeekToRestartPoint with_position value_ fst snd].
    rewrite (GetRestartPoint_spec _ _ _ Hf Ha), Z.add_0_r. apply off_small. }
  split; [|by exists a, j]. intros c E. rewrite (lay_zero _ _ Hlay _ _ _ Ha E). split; [lia|by rewrite !take_0].
Qed.

Lemma block_at_NextEntryOffset it i :
  block_at it i -> (i < length cs)%nat -> NextEntryOffset it = off (S i).
Proof. intros H Hi. by apply block_at_ready in H as (_ & _ & -> & _). Qed.

(** The scans *)

Lemma parse_until_spec fuel it i m :
  ready it i -> (i <= m)%nat -> (m < length cs)%nat -> (m - i < fuel)%nat ->
  exists it', parse_until fuel it (off (S m)) = Some it' /\ block_at it' m.
Proof.
  revert it i. induction fuel as [|f IH]; intros it i Hr Him Hm Hf; [lia|]. cbn [parse_until].
  destruct (ParseNextKey_ready _ _ Hr) as (it' & -> & Hat).
  rewrite (proj2 (Nat.ltb_lt _ _)), (block_at_NextEntryOffset _ _ Hat) by lia.
  destruct (Z.ltb_spec (off (S i)) (off (S m))) as [Ho|Ho].
  - apply off_lt_iff in Ho; [|lia..]. apply (IH _ (S i)); [by apply block_at_ready; [|lia]|lia..].
  - assert (i = m) as ->; [|by exists it'].
    destruct (decide (i = m)); [done|]. pose proof (proj2 (off_lt_iff (S i) (S m) ltac:(lia) ltac:(lia))). lia.
Qed.

Lemma cells_fuel it : iter_fixed it -> (length cs < scan_fuel it)%nat.
Proof.
  intros (_ & Hd & _). unfold scan_fuel. rewrite Hd.
  assert (length cs <= length data)%nat; [|lia].
  unfold data, block_bytes. rewrite length_app.
  assert (length cs <= length (cells_bytes cs))%nat; [|lia].
  clear. induction cs as [|c l IH]; [done|]. unfold cells_bytes in *. cbn [map concat length].
  rewrite length_app. pose proof (cell_bytes_length c). unfold zlen in *. lia.
Qed.

Lemma seek_linear_spec fuel it p target :
  ready it p -> (length cs - p < fuel)%nat ->
  (forall i k v, (i < p)%nat -> map cell_kv cs !! i = Some (k, v) -> Compare (Comparator := C) k target = Lt) ->
  exists it', seek_linear fuel it target = Some it' /\
    block_at it' (lower_bound C target (map cell_kv cs)).
Proof.
  revert it p. induction fuel as [|f IH]; intros it p Hr Hfuel Hbelow; [lia|]. cbn [seek_linear].
  destruct (ParseNextKey_ready _ _ Hr) as (it' & -> & Hat). pose proof (proj1 (proj2 Hr)) as Hp.
  assert (Hdone : (forall k v, map cell_kv cs !! p = Some (k, v) -> Compare (Comparator := C) k target <> Lt) ->
    lower_bound C target (map cell_kv cs) = p).
  { intros Hnot. apply lower_bound_unique; [done|rewrite length_map; done|].
    intros i k v E. split; [|intros; by eapply Hbelow].
    intros Hlt. destruct (Nat.lt_trichotomy i p) as [|[->|Hgt]]; [done|by destruct (Hnot _ _ E)|].
    exfalso. destruct (lookup_lt_is_Some_2 (map cell_kv cs) p) as [[k' v'] E'].
    { apply lookup_lt_Some in E. lia. }
    apply (Hnot _ _ E'). eapply Compare_lt_trans; [|exact Hlt].
    by eapply (kvs_sorted_lookup _ p i). }
  destruct (Nat.ltb_spec p (length cs)) as [Hlt|Hge].
  - pose proof Hat as Hat'. destruct Hat' as [Hf [(c & E & _ & Hk & _)|(-> & _)]]; [|lia].
    assert (comparator_ it' = C) as -> by apply Hf.
    assert (Ekv : map cell_kv cs !! p = Some (c_key c, c_value c)) by (rewrite list_lookup_fmap, E; done).
    rewrite Hk. destruct (Compare (c_key c) target) eqn:Ecmp.
    2: { apply (IH _ (S p)); [by apply block_at_ready|lia|]. intros i k v Hi Ei.
         destruct (decide (i = p)) as [->|]; [by simplify_eq|]. apply (Hbelow i k v); [lia|done]. }
    all: exists it'; split; [done|]; rewrite Hdone; [done|]; intros k v Ei; simplify_eq; congruence.
  - exists it'. split; [done|]. rewrite Hdone; [done|]. intros k v Ei. apply lookup_lt_Some in Ei.
    rewrite length_map in Ei. lia.
Qed.

Lemma restart_before_spec it i a j :
  iter_fixed it -> (i < length cs)%nat -> ridx !! a = Some j ->
  if (i =? 0)%nat then restart_before (S a) it (off i) (Z.of_nat a) = None
  else exists a' j', restart_before (S a) it (off i) (Z.of_nat a) = Some (Z.of_nat a') /\
         ridx !! a' = Some j' /\ (j' < i)%nat.
Proof.
  intros Hf Hi. revert j. induction a as [|a IH]; intros j Ha.
  - rewrite (lay_first _ _ Hlay) in Ha. injection Ha as <-.
    cbn [restart_before]. rewrite (GetRestartPoint_spec _ 0%nat 0%nat Hf) by apply Hlay.
    destruct (Nat.eqb_spec i 0) as [->|Hne].
    + by rewrite (proj2 (Z.leb_le _ _)).
    + rewrite (proj2 (Z.leb_gt _ _)) by (apply off_lt_iff; lia).
      exists 0%nat, 0%nat. split; [done|]. split; [apply Hlay|lia].
  - remember (S a) as n eqn:En. cbn [restart_before]. rewrite (GetRestartPoint_spec _ _ _ Hf Ha).
    destruct (Z.leb_spec (off i) (off j)) as [Hle|Hgt].
    + subst n. destruct (Z.eqb_spec (Z.of_nat (S a)) 0); [lia|].
      replace (Z.of_nat (S a) - 1) with (Z.of_nat a) by lia.
      destruct (lookup_lt_is_Some_2 ridx a) as [j0 E0]; [apply lookup_lt_Some in Ha; lia|].
      by apply (IH j0).
    + apply off_lt_iff in Hgt; [|eapply lay_le; eauto|lia].
      destruct (Nat.eqb_spec i 0); [lia|]. by exists n, j.
Qed.

(** All entries before restart point [a] are below the target. *)
Definition good_left (target : bytes) (a : nat) : Prop :=
  exists j, ridx !! a = Some j /\
    forall i k v, (i < j)%nat -> map cell_kv cs !! i = Some (k, v) -> Compare (Comparator := C) k target = Lt.

Lemma good_left_0 target : good_left target 0.
Proof. exists 0%nat. split; [apply Hlay|]. lia. Qed.

Lemma good_left_lt target a j c :
  ridx !! a = Some j -> cs !! j = Some c -> Compare (Comparator := C) (c_key c) target = Lt ->
  good_left target a.
Proof.
  intros Ha Hj Hlt. exists j. split; [done|]. intros i k v Hi E.
  eapply Compare_lt_trans; [|exact Hlt]. apply (kvs_sorted_lookup (map cell_kv cs) i j k v _ (c_value c)); try done.
  by rewrite list_lookup_fmap, Hj.
Qed.

Lemma seek_restart_spec fuel it target a b :
  iter_fixed it -> (a <= b < length ridx)%nat -> (b - a <= fuel)%nat -> good_left target a ->
  exists a', seek_restart fuel it target (Z.of_nat a) (Z.of_nat b) = Some (Some (Z.of_nat a')) /\
    good_left target a'.
Proof.
  intros Hf. revert a b. induction fuel as [|f IH]; intros a b Hab Hfuel Hgood; cbn [seek_restart].
  { by exists a. }
  destruct (Z.ltb_spec (Z.of_nat a) (Z.of_nat b)) as [Hlt|]; [|by exists a].
  pose proof num_small as Hnum. assert (Hm : exists m, u32 (Z.of_nat a + Z.of_nat b + 1) / 2 = Z.of_nat m /\ (a < m <= b)%nat).
  { exists (Z.to_nat ((Z.of_nat a + Z.of_nat b + 1) / 2)). rewrite u32_small.
    - split; [rewrite Z2Nat.id; [done|dlia]|]. split; dlia.
    - pose proof total_small. pose proof (zlen_nonneg (cells_bytes cs)). unfold zlen in *. lia. }
  destruct Hm as (m & -> & Hm). destruct (lookup_lt_is_Some_2 ridx m ltac:(lia)) as [j Ej].
  rewrite (GetRestartPoint_spec _ _ _ Hf Ej).
  assert (Hj : (j < length cs)%nat).
  { pose proof (lay_mono _ _ Hlay 0 m 0 j (lay_first _ _ Hlay) Ej ltac:(lia)).
    destruct (lay_range _ _ Hlay _ _ Ej) as [|[-> _]]; lia. }
  destruct (lookup_lt_is_Some_2 cs j Hj) as [c Ec]. rewrite (DecodeEntry_at _ _ _ Hf Ec).
  rewrite (lay_zero _ _ Hlay _ _ _ Ej Ec). cbn [Z.of_nat Z.eqb negb].
  destruct (cell_data _ _ Ec) as (H0 & H1 & H2 & _). destruct Hf as (Hc & Hd & Hr & Hn & Hs).
  assert (Hf : iter_fixed it) by done.
  assert (Hp : restarts_ it - zlen (cell_delta c ++ c_value c ++ cells_bytes (drop (S j) cs))
    = off (S j) - zlen (cell_delta c) - zlen (c_value c)).
  { rewrite Hr, !zlen_app, cells_bytes_rest. lia. }
  rewrite Hp, Hd, H2, Hc. pose proof (zlen_nonneg (c_value c)).
  rewrite (proj2 (Z.ltb_ge _ _)).
  2: { unfold data. rewrite block_bytes_length. pose proof (zlen_nonneg ridx). lia. }
  assert (Hkey : cell_delta c = c_key c).
  { unfold cell_delta. by rewrite (lay_zero _ _ Hlay _ _ _ Ej Ec), drop_0. }
  rewrite Hkey. replace (Z.of_nat m - 1) with (Z.of_nat (m - 1)) by lia.
  destruct (Compare (c_key c) target) eqn:Ecmp.
  2: { apply IH; [lia|lia|]. by apply (good_left_lt _ _ _ _ Ej Ec). }
  all: apply IH; [lia|lia|done].
Qed.

Lemma seek_from_restart it target a :
  iter_fixed it -> good_left target a ->
  exists it', seek_linear (scan_fuel it) (SeekToRestartPoint it (Z.of_nat a)) target = Some it' /\
    block_at it' (lower_bound C target (map cell_kv cs)).
Proof.
  intros Hf (j & Ha & Hbelow). apply (seek_linear_spec _ _ j).
  - by apply SeekToRestartPoint_ready.
  - pose proof (cells_fuel _ Hf). lia.
  - done.
Qed.

Lemma ridx_pos : (0 < length ridx)%nat.
Proof. pose proof (lay_first _ _ Hlay) as H. apply lookup_lt_Some in H. lia. Qed.

Lemma block_at_le it i : block_at it i -> (i <= length cs)%nat.
Proof. intros [_ [(c & E & _)|(-> & _)]]; [apply lookup_lt_Some in E|]; lia. Qed.

Lemma block_at_Valid it i : block_at it i -> BlockIter_Valid it = (i <? length cs)%nat.
Proof.
  intros [(_ & _ & Hr & _) [(c & E & Hc & _)|(-> & Hc & _)]]; unfold BlockIter_Valid; rewrite Hc.
  - pose proof (lookup_lt_Some _ _ _ E) as Hi. rewrite (proj2 (Nat.ltb_lt _ _) Hi), Hr.
    apply Z.ltb_lt. rewrite <- cell_off_length. apply (off_lt_iff i (length cs)); lia.
  - by rewrite Z.ltb_irrefl, Nat.ltb_irrefl.
Qed.

(** An entry is where it belongs for a target equal to its key. *)
Lemma lower_bound_at_key i c target :
  cs !! i = Some c -> Compare (Comparator := C) (c_key c) target = Eq ->
  lower_bound C target (map cell_kv cs) = i.
Proof.
  intros E Heq. pose proof (lookup_lt_Some _ _ _ E).
  assert (Ei : map cell_kv cs !! i = Some (c_key c, c_value c)) by (rewrite list_lookup_fmap, E; done).
  apply lower_bound_unique; [done|rewrite length_map; lia|]. intros m k v Em.
  rewrite <- (Compare_eq_r _ _ k Heq). split; intros Hlt.
  - destruct (Nat.lt_trichotomy m i) as [|[->|Hgt]]; [done| |].
    + simplify_eq. rewrite Compare_refl in Hlt. done.
    + pose proof (kvs_sorted_lookup _ i m _ _ _ _ Hsorted Ei Em Hgt) as H'.
      apply Compare_lt_gt in H'. congruence.
  - by eapply (kvs_sorted_lookup _ m i).
Qed.

Lemma Iter_Seek_spec it i target :
  block_at it i ->
  exists it', Iter_Seek it target = Some it' /\ block_at it' (lower_bound C target (map cell_kv cs)).
Proof.
  intros Hat. pose proof (block_at_Valid _ _ Hat) as Hv. pose proof ridx_pos as Hpos.
  destruct Hat as [Hf Hcase]. pose proof Hf as (Hc & _ & _ & Hn & _).
  assert (Hright : num_restarts_ it - 1 = Z.of_nat (length ridx - 1)) by (rewrite Hn; unfold zlen; lia).
  assert (Hfuel : Z.to_nat (num_restarts_ it) = length ridx) by (rewrite Hn; unfold zlen; lia).
  unfold Iter_Seek, Iter_Seek_from. rewrite Hv, Hright, Hc, Hfuel.
  destruct Hcase as [(c & E & Hcur & Hk & Hval & Hri)|(-> & Hcur & Hri)].
  - pose proof (lookup_lt_Some _ _ _ E) as Hi. rewrite (proj2 (Nat.ltb_lt _ _) Hi), Hk.
    assert (Hat : block_at it i) by (split; [done|left; by exists c]).
    destruct Hri as (a & j & Hra & Ha & Hj & _). pose proof (lookup_lt_Some _ _ _ Ha) as Hal.
    destruct (Compare (c_key c) target) eqn:Ecmp.
    + exists it. split; [done|]. by rewrite (lower_bound_at_key _ _ _ E Ecmp).
    + rewrite Hra.
      assert (Hbelow : forall m k v, (m < S i)%nat -> map cell_kv cs !! m = Some (k, v) ->
        Compare (Comparator := C) k target = Lt).
      { intros m k v Hm Em. assert (Ei : map cell_kv cs !! i = Some (c_key c, c_value c)) by (rewrite list_lookup_fmap, E; done).
        destruct (decide (m = i)) as [->|]; [by simplify_eq|]. eapply Compare_lt_trans; [|exact Ecmp].
        eapply (kvs_sorted_lookup _ m i); try done. lia. }
      destruct (seek_restart_spec (length ridx) it target a (length ridx - 1) Hf) as (a' & -> & Hg); [lia|lia| |].
      { exists j. split; [done|]. intros m k v Hm. apply Hbelow. lia. }
      rewrite andb_true_r. destruct (Z.of_nat a' =? Z.of_nat a); [|by apply seek_from_restart].
      apply (seek_linear_spec _ _ (S i)); [by apply block_at_ready| |done].
      pose proof (cells_fuel _ Hf). lia.
    + rewrite Hra. destruct (seek_restart_spec (length ridx) it target 0 a Hf) as (a' & Es & Hg);
        [lia|lia|apply good_left_0|]. change (Z.of_nat 0) with 0 in Es. rewrite Es, andb_false_r.
      by apply seek_from_restart.
  - rewrite Nat.ltb_irrefl.
    destruct (seek_restart_spec (length ridx) it target 0 (length ridx - 1) Hf) as (a' & Es & Hg);
      [lia|lia|apply good_left_0|]. change (Z.of_nat 0) with 0 in Es. rewrite Es, andb_false_r.
    by apply seek_from_restart.
Qed.

#[export] Instance BlockIter_laws :
  IteratorLaws BlockIter_Iterator C (map cell_kv cs) block_at.
Proof.
  pose proof ridx_pos as Hpos. split; rewrite ?length_map; simpl.
  - intros it i. apply block_at_le.
  - intros it i. apply block_at_Valid.
  - intros it i H. apply H.
  - intros it i k v Hat E. pose proof (lookup_lt_Some _ _ _ E) as Hi. rewrite length_map in Hi.
    unfold Iter_key. rewrite (block_at_Valid _ _ Hat), (proj2 (Nat.ltb_lt _ _) Hi).
    destruct Hat as [_ [(c & Ec & _ & -> & _)|(-> & _)]]; [|lia].
    rewrite list_lookup_fmap, Ec in E. by injection E as <- _.
  - intros it i k v Hat E. pose proof (lookup_lt_Some _ _ _ E) as Hi. rewrite length_map in Hi.
    unfold Iter_value. rewrite (block_at_Valid _ _ Hat), (proj2 (Nat.ltb_lt _ _) Hi).
    destruct Hat as [(_ & Hd & _) [(c & Ec & _ & _ & Hv & _)|(-> & _)]]; [|lia].
    rewrite list_lookup_fmap, Ec in E. injection E as _ <-. rewrite Hv, Hd. cbn [fst snd].
    destruct (cell_data _ _ Ec) as (_ & H1 & _ & H2). rewrite H2. rewrite (proj2 (Z.leb_le _ _)); [done|].
    unfold data. rewrite block_bytes_length. pose proof (zlen_nonneg ridx). lia.
  - intros it i [Hf _]. unfold Iter_SeekToFirst. destruct (ParseNextKey_ready (SeekToRestartPoint it 0) 0) as (it' & -> & H).
    { apply (SeekToRestartPoint_ready it 0 0 Hf). apply Hlay. }
    by exists it'.
  - intros it i [Hf _]. unfold Iter_SeekToLast. pose proof Hf as (_ & _ & Hr & Hn & _).
    rewrite Hn. replace (zlen ridx - 1) with (Z.of_nat (length ridx - 1)) by (unfold zlen; lia).
    destruct (lookup_lt_is_Some_2 ridx (length ridx - 1) ltac:(lia)) as [j Ej].
    pose proof (SeekToRestartPoint_ready _ _ _ Hf Ej) as Hready. pose proof (cells_fuel _ Hf) as Hfuel.
    destruct (lay_range _ _ Hlay _ _ Ej) as [Hj|[-> Hnil]].
    + rewrite Hr, <- cell_off_length. replace (length cs) with (S (length cs - 1)) by lia.
      destruct (parse_until_spec (scan_fuel it) _ j (length cs - 1) Hready) as (it' & H1 & H2); try lia.
      exists it'. replace (S (length cs - 1) - 1)%nat with (length cs - 1)%nat by lia. done.
    + assert (Hl0 : length cs = 0%nat) by (by rewrite Hnil). unfold scan_fuel. cbn [parse_until].
      destruct (ParseNextKey_ready _ _ Hready) as (it' & E & H). rewrite E, Hl0. cbn. by exists it'.
  - intros it i t Hat _. exact (Iter_Seek_spec it i t Hat).
  - intros it i Hat Hi. unfold Iter_Next. rewrite (block_at_Valid _ _ Hat), (proj2 (Nat.ltb_lt _ _) Hi).
    destruct (ParseNextKey_ready _ _ (block_at_ready _ _ Hat Hi)) as (it' & -> & H).
    exists it'. by rewrite Nat.add_1_r.
  - intros it i Hat Hi. unfold Iter_Prev. rewrite (block_at_Valid _ _ Hat), (proj2 (Nat.ltb_lt _ _) Hi).
    destruct Hat as [Hf [(c & E & Hc & Hk & Hv & a & j & Hra & Ha & Hj & _)|(-> & _)]]; [|lia].
    rewrite Hc, Hra, Nat2Z.id. pose proof (restart_before_spec it i a j Hf Hi Ha) as Hb.
    destruct (Nat.eqb_spec i 0) as [->|Hne].
    + rewrite Hb. eexists. split; [done|]. split; [done|]. by right.
    + destruct Hb as (a' & j' & -> & Ha' & Hj').
      replace (off i) with (off (S (i - 1))) by (f_equal; lia).
      apply (parse_until_spec _ _ j'); [by apply SeekToRestartPoint_ready|lia|lia|].
      pose proof (cells_fuel _ Hf). lia.
Qed.

Lemma BlockIter_new_at :
  block_at (BlockIter_new C data (zlen (cells_bytes cs)) (zlen ridx)) (length cs).
Proof. split; [done|]. by right. Qed.

(** Opening the block gives such an iterator. *)
Lemma Block_NewIterator_spec :
  Block_NewIterator (Block_new data) C =
  inr (BlockIter_new C data (zlen (cells_bytes cs)) (zlen ridx)).
Proof.
  pose proof total_small as Hs. pose proof ridx_pos as Hpos. pose proof (zlen_nonneg (cells_bytes cs)) as H0.
  assert (Hz : 0 < zlen ridx) by (unfold zlen; lia).
  assert (Hlen : zlen data = zlen (cells_bytes cs) + 4 * zlen ridx + 4) by apply block_bytes_length.
  assert (Hnum : NumRestarts data (zlen data) = zlen ridx).
  { unfold NumRestarts. rewrite Hlen.
    replace (Z.to_nat _) with (length (cells_bytes cs) + length (restart_bytes cs ridx))%nat.
    - rewrite <- drop_drop, restart_data, drop_app_exact.
      rewrite <- (app_nil_r (EncodeFixed32 _)), DecodeFixed32_encode. apply u32_small. lia.
    - pose proof (restart_bytes_length cs ridx). unfold zlen in *. lia. }
  unfold Block_new. rewrite (proj2 (Z.ltb_ge (zlen data) 4)) by lia. rewrite Hnum.
  rewrite (proj2 (Z.ltb_ge _ _)) by dlia. unfold Block_NewIterator. cbn [size_ data_ restart_offset_].
  rewrite (proj2 (Z.ltb_ge (zlen data) 4)) by lia. rewrite Hnum.
  rewrite (proj2 (Z.eqb_neq _ _)) by lia. do 2 f_equal.
  rewrite (u32_small (1 + zlen ridx)) by lia. rewrite u32_small; lia.
Qed.
End BlockIteration.

(** ** Arbitrary blocks *)

Lemma DecodeEntry_sound p shared non_shared value_length rest :
  DecodeEntry p = Some (shared, non_shared, value_length, rest) ->
  zlen rest + 3 <= zlen p /\ u32 (non_shared + value_length) <= u32 (zlen rest).
Proof.
  unfold DecodeEntry. destruct (Z.ltb_spec (zlen p) 3) as [|Hp]; [done|].
  assert (Hsound : forall q v r, GetVarint32Ptr q = Some (v, r) -> zlen r + 1 <= zlen q).
  { intros q v r (_ & h & -> & Hh)%GetVarint32_sound. rewrite zlen_app. unfold zlen in *. lia. }
  destruct (_ <? 128).
  - destruct (Z.ltb_spec (u32 (zlen (drop 3 p))) (u32 (byte_at p 1 + byte_at p 2))); [done|].
    intros [= <- <- <- <-]. split; [|lia]. unfold zlen in *. rewrite length_drop. lia.
  - destruct (GetVarint32Ptr p) as [[a p1]|] eqn:E1; [|done].
    destruct (GetVarint32Ptr p1) as [[b p2]|] eqn:E2; [|done].
    destruct (GetVarint32Ptr p2) as [[c p3]|] eqn:E3; [|done].
    apply Hsound in E1, E2, E3. destruct (Z.ltb_spec (u32 (zlen p3)) (u32 (b + c))); [done|].
    intros [= <- <- <- <-]. lia.
Qed.

(** The members that never change are the offsets of a block the constructor
    accepts. *)
Definition bounded (it : BlockIter) : Prop := 0 <= restarts_ it < 2 ^ 32 /\ restarts_ it <= zlen (bi_data it).

Lemma ParseNextKey_progress it it' :
  bounded it -> ParseNextKey it = Some (true, it') ->
  bounded it' /\ bi_data it' = bi_data it /\ restarts_ it' = restarts_ it /\
  NextEntryOffset it + 3 <= NextEntryOffset it' <= restarts_ it.
Proof.
  intros [Hb Hd]. unfold ParseNextKey. destruct (Z.leb_spec (restarts_ it) (NextEntryOffset it)) as [|Hlt]; [done|].
  destruct (DecodeEntry _) as [[[[sh ns] vl] p]|] eqn:E; [|done].
  destruct (zlen (key_ it) <? sh); [done|]. destruct (zlen (bi_data it) <? _); [done|].
  intros [= <-]. split; [done|]. split; [done|]. split; [done|].
  apply DecodeEntry_sound in E as [E1 E2]. pose proof (u32_range ((value_ it).1 + (value_ it).2)) as H0.
  fold (NextEntryOffset it) in H0.
  assert (Hfrom : zlen (from_offset it (NextEntryOffset it)) = restarts_ it - NextEntryOffset it).
  { unfold from_offset, zlen in *. rewrite length_drop, length_take. lia. }
  pose proof (zlen_nonneg p). rewrite (u32_small (zlen p)) in E2 by lia.
  assert (Hn : u32 (restarts_ it - zlen p + ns + vl) = restarts_ it - zlen p + u32 (ns + vl)).
  { rewrite <- Z.add_assoc. unfold u32 at 1. rewrite <- Z.add_mod_idemp_r by lia. fold (u32 (ns + vl)).
    apply Z.mod_small. pose proof (u32_range (ns + vl)). lia. }
  match goal with |- context [NextEntryOffset (with_position ?a ?b ?c ?d ?e ?g)] =>
    change (NextEntryOffset (with_position a b c d e g)) with (u32 (restarts_ it - zlen p + ns + vl)) end.
  rewrite Hn. pose proof (u32_range (ns + vl)). lia.
Qed.

Lemma bounded_fuel it : bounded it -> (Z.to_nat (restarts_ it - NextEntryOffset it) < scan_fuel it)%nat.
Proof.
  intros [Hb Hd]. unfold scan_fuel. pose proof (u32_range ((value_ it).1 + (value_ it).2)).
  fold (NextEntryOffset it) in *. unfold zlen in Hd. lia.
Qed.

(** With one more unit of fuel than bytes left, the scans have enough. *)
Lemma parse_until_fuel f g it limit :
  bounded it -> (Z.to_nat (restarts_ it - NextEntryOffset it) < f)%nat ->
  (Z.to_nat (restarts_ it - NextEntryOffset it) < g)%nat ->
  parse_until f it limit = parse_until g it limit.
Proof.
  revert g it. induction f as [|f IH]; intros [|g] it Hb Hf Hg; [lia..|]. cbn [parse_until].
  destruct (ParseNextKey it) as [[[|] it']|] eqn:E; [|done..].
  destruct (_ <? limit); [|done]. apply (ParseNextKey_progress _ _ Hb) in E as (Hb' & _ & Hr & Hp).
  apply IH; [done|lia..].
Qed.

Lemma seek_linear_fuel f g it target :
  bounded it -> (Z.to_nat (restarts_ it - NextEntryOffset it) < f)%nat ->
  (Z.to_nat (restarts_ it - NextEntryOffset it) < g)%nat ->
  seek_linear f it target = seek_linear g it target.
Proof.
  revert g it. induction f as [|f IH]; intros [|g] it Hb Hf Hg; [lia..|]. cbn [seek_linear].
  destruct (ParseNextKey it) as [[[|] it']|] eqn:E; [|done..].
  destruct (Compare _ _); try done. apply (ParseNextKey_progress _ _ Hb) in E as (Hb' & _ & Hr & Hp).
  apply IH; [done|lia..].
Qed.

(** The restart array of a block the constructor accepts ends the data. *)
Lemma Block_new_bounded contents C it :
  zlen contents < 2 ^ 32 -> Block_NewIterator (Block_new contents) C = inr it -> bounded it.
Proof.
  intros Hs. unfold Block_new. pose proof (zlen_nonneg contents).
  destruct (Z.ltb_spec (zlen contents) 4) as [|H4]; [done|].
  destruct (Z.ltb_spec ((zlen contents - 4) / 4) (NumRestarts contents (zlen contents))) as [|Hn]; [done|].
  unfold Block_NewIterator. cbn [size_ data_ restart_offset_].
  rewrite (proj2 (Z.ltb_ge (zlen contents) 4)) by lia. destruct (_ =? 0); [done|]. intros [= <-].
  unfold bounded. cbn [BlockIter_new restarts_ bi_data].
  pose proof (DecodeFixed32_range (drop (Z.to_nat (zlen contents - 4)) contents)) as Hr.
  fold (NumRestarts contents (zlen contents)) in Hr. split; [apply u32_range|].
  rewrite (u32_small (1 + _)) by dlia. rewrite u32_small by dlia. dlia.
Qed.

(** ** Properties *)

(** A built block opens to a lawful iterator that stands at no entry. *)
Lemma built_block_iterator {C : Comparator} {L : ComparatorLaws C} interval kvs :
  1 <= interval -> kvs_sorted C kvs -> entries_size kvs < 2 ^ 32 ->
  exists it pos, Block_NewIterator (Block_new (BlockBuilder_Finish (add_all interval kvs)).1) C = inr it /\
    IteratorLaws BlockIter_Iterator C kvs pos /\ pos it (length kvs).
Proof.
  intros Hi Hsorted Hsize. destruct (built_block interval kvs Hi Hsize) as (cs & ridx & <- & Hlay & ->).
  pose proof (BlockIter_laws (C := C) Hlay Hsorted) as Hlaws.
  pose proof (BlockIter_new_at (C := C) (cs := cs) (ridx := ridx)) as Hat.
  exists (BlockIter_new C (block_bytes cs ridx) (zlen (cells_bytes cs)) (zlen ridx)), (block_at (C := C) (cs := cs) (ridx := ridx)).
  split; [by apply Block_NewIterator_spec|]. split; [done|]. by rewrite length_map.
Qed.

(** C24: a block built from sorted entries is read back.  Opening it gives an
    iterator that is a cursor in exactly those entries: seeking to a key finds
    the first entry at or past it (with the search starting from wherever the
    iterator stands), moves go one entry, keys are whole again, the status
    stays OK, and a scan from the first entry returns the list. *)
Theorem block_roundtrip (C : Comparator) (L : ComparatorLaws C) (interval : Z) (kvs : list kv)
    (Hi : 1 <= interval) (Hsorted : kvs_sorted C kvs) (Hsize : entries_size kvs < 2 ^ 32) :
  exists it pos, Block_NewIterator (Block_new (BlockBuilder_Finish (add_all interval kvs)).1) C = inr it /\
    IteratorLaws BlockIter_Iterator C kvs pos /\ pos it (length kvs) /\
    exists it', it_SeekToFirst it = Some it' /\ scan (S (length kvs)) it' = Some kvs.
Proof.
  destruct (built_block_iterator (C := C) interval kvs Hi Hsorted Hsize) as (it & pos & E & Hlaws & Hat).
  exists it, pos. split; [done|]. split; [done|]. split; [done|].
  destruct (pos_first _ _ Hat) as (it' & E' & Hat'). exists it'. split; [done|].
  rewrite (scan_pos it' 0 _ Hat'), drop_0 by lia. done.
Qed.

Lemma block_roundtrip_witness :
  exists it, Block_NewIterator (Block_new (BlockBuilder_Finish (add_all 2
    [(cstr "apple", cstr "1"); (cstr "apply", cstr "2"); (cstr "bat", cstr "3")])).1) BytewiseComparator = inr it /\
    exists it', it_SeekToFirst it = Some it' /\
      scan 4 it' = Some [(cstr "apple", cstr "1"); (cstr "apply", cstr "2"); (cstr "bat", cstr "3")].
Proof.
  destruct (block_roundtrip BytewiseComparator BytewiseComparator_laws 2
    [(cstr "apple", cstr "1"); (cstr "apply", cstr "2"); (cstr "bat", cstr "3")])
    as (it & pos & H1 & _ & _ & H2).
  - lia.
  - repeat constructor.
  - reflexivity.
  - exists it. split; [exact H1|exact H2].
Defined.

(** On any block, also a corrupted one, the entry decoder's check adds the
    two lengths modulo 2^32, so an entry can claim a value that reaches far
    past the block. *)
Theorem decode_entry_length_wraps :
  exists p shared non_shared value_length rest,
    DecodeEntry p = Some (shared, non_shared, value_length, rest) /\
    zlen rest < value_length.
Proof.
  exists (EncodeVarint32 0 ++ EncodeVarint32 5 ++ EncodeVarint32 (2 ^ 32 - 5) ++ cstr "hello"),
    0, 5, (2 ^ 32 - 5), (cstr "hello").
  split; [vm_compute; reflexivity|reflexivity].
Qed.

(** The scans of the iterator end on every block, whatever its bytes: each
    parsed entry moves the offset forward, so the fuel the definitions use is
    as good as any larger amount. *)
Theorem block_scans_terminate (C : Comparator) (contents target : bytes) (limit : Z) (n : nat)
    (it0 it : BlockIter) (Hs : zlen contents < 2 ^ 32)
    (Hopen : Block_NewIterator (Block_new contents) C = inr it0)
    (Hit : bi_data it = bi_data it0 /\ restarts_ it = restarts_ it0) (Hn : (scan_fuel it <= n)%nat) :
  parse_until n it limit = parse_until (scan_fuel it) it limit /\
  seek_linear n it target = seek_linear (scan_fuel it) it target.
Proof.
  assert (Hb : bounded it).
  { destruct (Block_new_bounded _ _ _ Hs Hopen) as [H1 H2]. destruct Hit as [Hd Hr].
    unfold bounded. by rewrite Hd, Hr. }
  pose proof (bounded_fuel _ Hb). split; [apply parse_until_fuel|apply seek_linear_fuel]; done || lia.
Qed.

Lemma block_scans_terminate_witness :
  exists it, Block_NewIterator (Block_new (cstr "garbage" ++ EncodeFixed32 1)) BytewiseComparator = inr it /\
    parse_until 1000 it 3 = parse_until (scan_fuel it) it 3.
Proof.
  eexists. split; [vm_compute; reflexivity|].
  refine (proj1 (block_scans_terminate BytewiseComparator (cstr "garbage" ++ EncodeFixed32 1) [] 3 1000
    _ _ _ eq_refl (conj eq_refl eq_refl) _)).
  - reflexivity.
  - vm_compute. lia.
Defined.
