(* ===== verification/Format.v ===== *)
(** * table/format: pointers into tables and reading blocks

    Models src/table/format.h and src/table/format.cc: block handles, the
    footer and [ReadBlock], with the trailer that
    src/table/table_builder.cc writes after a block.  Files and the
    compression libraries are classes with the laws their documentation gives. *)

From S2P Require Import Prelude Coding Crc32c Status.

(** ** Handles *)

Record BlockHandle := mkHandle { bh_offset : Z; bh_size : Z }.

Definition kMaxEncodedLength : nat := 10 + 10.

(** The constructor's mark for a handle that is not set. *)
Definition BlockHandle_new : BlockHandle := mkHandle (2 ^ 64 - 1) (2 ^ 64 - 1).

Definition BlockHandle_EncodeTo (h : BlockHandle) (dst : bytes) : bytes :=
  PutVarint64 (PutVarint64 dst (bh_offset h)) (bh_size h).

Definition bad_block_handle : Status := Corruption (cstr "bad block handle") [].

(** The status, the handle and the rest of the input. *)
Definition BlockHandle_DecodeFrom (h : BlockHandle) (input : bytes) : Status * BlockHandle * bytes :=
  match GetVarint64 input with
  | None => (bad_block_handle, h, input)
  | Some (o, input) =>
      match GetVarint64 input with
      | None => (bad_block_handle, mkHandle o (bh_size h), input)
      | Some (s, input) => (OK, mkHandle o s, input)
      end
  end.

(** ** The footer *)

Record Footer := mkFooter { metaindex_handle : BlockHandle; index_handle : BlockHandle }.

Definition Footer_kEncodedLength : nat := 2 * kMaxEncodedLength + 8.
Definition kTableMagicNumber : Z := 0xdb4775248b80fb57.

(** [std::string::resize] *)
Definition resize (s : bytes) (n : nat) : bytes := take n s ++ replicate (n - length s) x00.

Definition Footer_EncodeTo (f : Footer) (dst : bytes) : bytes :=
  let dst := BlockHandle_EncodeTo (index_handle f) (BlockHandle_EncodeTo (metaindex_handle f) dst) in
  let dst := resize dst (2 * kMaxEncodedLength) in
  let dst := PutFixed32 dst (u32 (Z.land kTableMagicNumber 0xffffffff)) in
  PutFixed32 dst (u32 (Z.shiftr kTableMagicNumber 32)).

Definition Footer_DecodeFrom (f : Footer) (input : bytes) : Status * Footer * bytes :=
  if (length input <? Footer_kEncodedLength)%nat
  then (Corruption (cstr "not an sstable (footer too short)") [], f, input)
  else
    let magic_ptr := drop (Footer_kEncodedLength - 8) input in
    let magic_lo := DecodeFixed32 magic_ptr in
    let magic_hi := DecodeFixed32 (drop 4 magic_ptr) in
    let magic := Z.lor (u64 (Z.shiftl magic_hi 32)) magic_lo in
    if negb (magic =? kTableMagicNumber)
    then (Corruption (cstr "not an sstable (bad magic number)") [], f, input)
    else
      let '(s, m, rest) := BlockHandle_DecodeFrom (metaindex_handle f) input in
      if ok s then
        let '(s, i, rest) := BlockHandle_DecodeFrom (index_handle f) rest in
        (s, mkFooter m i, if ok s then drop Footer_kEncodedLength input else rest)
      else (s, mkFooter m (index_handle f), rest).

(** ** Files and compression *)

(** [RandomAccessFile::Read]: the status, the bytes read and whether they are
    in the caller's buffer. *)
Class RandomAccessFile (F : Type) := raf_Read : F -> Z -> Z -> Status * bytes * bool.

(** A file that works: the bytes from the offset, fewer only at the end. *)
Class RandomAccessFileLaws {F} (R : RandomAccessFile F) (raf_contents : F -> bytes) : Prop := {
  raf_Read_ok : forall f o n, 0 <= o -> 0 <= n -> exists in_scratch,
    raf_Read f o n = (OK, take (Z.to_nat n) (drop (Z.to_nat o) (raf_contents f)), in_scratch);
}.

(** A compression library as the port wraps it. *)
Class Compressor := {
  compress : bytes -> option bytes;
  uncompressed_length : bytes -> option Z;
  uncompress : bytes -> option bytes;
}.

(** What it compressed it gives back. *)
Class CompressorLaws (X : Compressor) : Prop := {
  uncompress_compress : forall raw c, compress raw = Some c -> uncompress c = Some raw;
  uncompressed_length_compress : forall raw c,
    compress raw = Some c -> uncompressed_length c = Some (zlen raw);
}.

Inductive CompressionType := kNoCompression | kSnappyCompression | kZstdCompression.

Definition CompressionType_code (t : CompressionType) : Z :=
  match t with kNoCompression => 0x0 | kSnappyCompression => 0x1 | kZstdCompression => 0x2 end.

(** ** Blocks in a file *)

Definition kBlockTrailerSize : Z := 5.

Record BlockContents := mkContents { bc_data : bytes; cachable : bool; heap_allocated : bool }.

(** The type and the masked checksum written after a block. *)
Definition block_trailer `{CS : Checksum} (contents : bytes) (type : CompressionType) : bytes :=
  let t := byte_of_Z (CompressionType_code type) in
  let crc := cs_value contents in
  let crc := cs_extend crc [t] in
  t :: EncodeFixed32 (Mask crc).

Section ReadBlock.
Context `{CS : Checksum} {F : Type} {R : RandomAccessFile F}.
Variables (Snappy Zstd : Compressor).

(** One of the compressed cases. *)
Definition read_compressed (X : Compressor) (name data : bytes) : Status + BlockContents :=
  match uncompressed_length (Compressor := X) data with
  | None => inl (Corruption (cstr "corrupted " ++ name ++ cstr " compressed block length") [])
  | Some ulength =>
      match uncompress (Compressor := X) data with
      | None => inl (Corruption (cstr "corrupted " ++ name ++ cstr " compressed block contents") [])
      | Some ubuf => inr (mkContents ubuf true true)
      end
  end.

(** The error, or the contents with status OK; [None] where the code reads
    outside the buffer, which happens when the size of the handle plus the
    trailer wraps around. *)
Definition ReadBlock (file : F) (verify_checksums : bool) (handle : BlockHandle)
    : option (Status + BlockContents) :=
  let n := bh_size handle in
  let '(s, contents, in_scratch) := raf_Read file (bh_offset handle) (u64 (n + kBlockTrailerSize)) in
  if negb (ok s) then Some (inl s)
  else if negb (zlen contents =? u64 (n + kBlockTrailerSize))
  then Some (inl (Corruption (cstr "truncated block read") []))
  else if zlen contents <? n + kBlockTrailerSize then None
  else
    let data := contents in
    let crc := Unmask (DecodeFixed32 (drop (Z.to_nat (n + 1)) data)) in
    let actual := cs_value (take (Z.to_nat (n + 1)) data) in
    if verify_checksums && negb (actual =? crc)
    then Some (inl (Corruption (cstr "block checksum mismatch") []))
    else
      let block := take (Z.to_nat n) data in
      let type := byte_at data (Z.to_nat n) in
      Some
        (if type =? CompressionType_code kNoCompression then
           inr (mkContents block in_scratch in_scratch)
         else if type =? CompressionType_code kSnappyCompression then
           read_compressed Snappy (cstr "snappy") block
         else if type =? CompressionType_code kZstdCompression then
           read_compressed Zstd (cstr "zstd") block
         else inl (Corruption (cstr "bad block type") [])).
End ReadBlock.

(** ** Lemmas *)

Definition handle_ok (h : BlockHandle) : Prop := 0 <= bh_offset h < 2 ^ 64 /\ 0 <= bh_size h < 2 ^ 64.

Lemma BlockHandle_EncodeTo_app h dst :
  BlockHandle_EncodeTo h dst = dst ++ EncodeVarint64 (bh_offset h) ++ EncodeVarint64 (bh_size h).
Proof. unfold BlockHandle_EncodeTo, PutVarint64. by rewrite <- app_assoc. Qed.

Lemma BlockHandle_roundtrip h h0 rest :
  handle_ok h -> BlockHandle_DecodeFrom h0 (BlockHandle_EncodeTo h [] ++ rest) = (OK, h, rest).
Proof.
  intros [Ho Hs]. rewrite BlockHandle_EncodeTo_app. cbn [app]. rewrite <- app_assoc.
  unfold BlockHandle_DecodeFrom. rewrite GetVarint64_encode, GetVarint64_encode by done. by destruct h.
Qed.

Lemma BlockHandle_length h : (length (BlockHandle_EncodeTo h []) <= kMaxEncodedLength)%nat.
Proof.
  rewrite BlockHandle_EncodeTo_app. cbn [app]. rewrite length_app.
  pose proof (EncodeVarint64_length (bh_offset h)). pose proof (EncodeVarint64_length (bh_size h)).
  unfold kMaxEncodedLength. lia.
Qed.

(** The footer, given that the handles fit the space. *)
Lemma Footer_EncodeTo_shape f :
  exists pad, Footer_EncodeTo f [] =
    (BlockHandle_EncodeTo (metaindex_handle f) [] ++ BlockHandle_EncodeTo (index_handle f) [] ++ pad) ++
    EncodeFixed32 0x8b80fb57 ++ EncodeFixed32 0xdb477524 /\
  length (BlockHandle_EncodeTo (metaindex_handle f) [] ++ BlockHandle_EncodeTo (index_handle f) [] ++ pad)
    = (2 * kMaxEncodedLength)%nat.
Proof.
  pose proof (BlockHandle_length (metaindex_handle f)) as Hm.
  pose proof (BlockHandle_length (index_handle f)) as Hi.
  unfold Footer_EncodeTo, resize, PutFixed32. rewrite (BlockHandle_EncodeTo_app (index_handle f)).
  rewrite (BlockHandle_EncodeTo_app (index_handle f)) in Hi |- *. cbn [app] in *.
  set (m := BlockHandle_EncodeTo (metaindex_handle f) []) in *.
  set (x := EncodeVarint64 _ ++ EncodeVarint64 _) in *.
  rewrite firstn_all2 by (rewrite length_app; lia).
  exists (replicate (2 * kMaxEncodedLength - length (m ++ x)) x00). split.
  - rewrite <- !app_assoc. done.
  - rewrite !length_app, length_replicate. lia.
Qed.

Lemma Footer_length f : length (Footer_EncodeTo f []) = Footer_kEncodedLength.
Proof.
  destruct (Footer_EncodeTo_shape f) as (pad & -> & Hl). rewrite length_app, Hl. done.
Qed.

Lemma Footer_roundtrip f f0 rest :
  handle_ok (metaindex_handle f) -> handle_ok (index_handle f) ->
  Footer_DecodeFrom f0 (Footer_EncodeTo f [] ++ rest) = (OK, f, rest).
Proof.
  intros Hm Hi. pose proof (Footer_length f) as Hlen. unfold Footer_DecodeFrom.
  rewrite (proj2 (Nat.ltb_ge _ _)) by (rewrite length_app; lia).
  destruct (Footer_EncodeTo_shape f) as (pad & E & Hl).
  assert (Hmagic : drop (Footer_kEncodedLength - 8) (Footer_EncodeTo f [] ++ rest) =
    EncodeFixed32 0x8b80fb57 ++ EncodeFixed32 0xdb477524 ++ rest).
  { rewrite E, <- (app_assoc (_ ++ _ ++ pad)).
    change (Footer_kEncodedLength - 8)%nat with (2 * kMaxEncodedLength)%nat.
    rewrite <- Hl, drop_app_exact. by rewrite <- app_assoc. }
  rewrite Hmagic, DecodeFixed32_encode.
  change (drop 4 (EncodeFixed32 0x8b80fb57 ++ EncodeFixed32 0xdb477524 ++ rest))
    with (EncodeFixed32 0xdb477524 ++ rest).
  rewrite DecodeFixed32_encode.
  change (Z.lor (u64 (Z.shiftl (u32 0xdb477524) 32)) (u32 0x8b80fb57) =? kTableMagicNumber) with true.
  assert (Hdrop : drop Footer_kEncodedLength (Footer_EncodeTo f [] ++ rest) = rest)
    by (rewrite <- Hlen; apply drop_app_exact).
  cbn [negb]. rewrite Hdrop, E, <- !app_assoc.
  rewrite BlockHandle_roundtrip by done. cbn [ok].
  rewrite BlockHandle_roundtrip by done. cbn [ok]. by destruct f.
Qed.

(** ** Reading a block back *)

(** A byte string as a file whose reads point into it. *)
#[export] Instance StringFile : RandomAccessFile bytes :=
  fun f o n => (OK, take (Z.to_nat n) (drop (Z.to_nat o) f), false).

#[export] Instance StringFile_laws : RandomAccessFileLaws StringFile id.
Proof. split. intros f o n _ _. by exists false. Qed.

Section ReadBack.
Context `{CS : Checksum} {F : Type} {R : RandomAccessFile F} {raf_contents : F -> bytes}.
Context {RL : RandomAccessFileLaws R raf_contents}.
Context (Snappy Zstd : Compressor) {SL : CompressorLaws Snappy} {ZL : CompressorLaws Zstd}.

(** What [ReadBlock] computes from the bytes it reads. *)
Lemma ReadBlock_read file verify h pre body post :
  raf_contents file = pre ++ body ++ post -> bh_offset h = zlen pre ->
  zlen body = bh_size h + 5 -> bh_size h + 5 < 2 ^ 64 -> 0 <= bh_size h ->
  exists in_scratch,
  ReadBlock Snappy Zstd file verify h =
    if verify && negb (cs_value (take (Z.to_nat (bh_size h + 1)) body) =?
                       Unmask (DecodeFixed32 (drop (Z.to_nat (bh_size h + 1)) body)))
    then Some (inl (Corruption (cstr "block checksum mismatch") []))
    else
      let block := take (Z.to_nat (bh_size h)) body in
      let type := byte_at body (Z.to_nat (bh_size h)) in
      Some
        (if type =? CompressionType_code kNoCompression then
           inr (mkContents block in_scratch in_scratch)
         else if type =? CompressionType_code kSnappyCompression then
           read_compressed Snappy (cstr "snappy") block
         else if type =? CompressionType_code kZstdCompression then
           read_compressed Zstd (cstr "zstd") block
         else inl (Corruption (cstr "bad block type") [])).
Proof.
  intros Hc Ho Hl Hs H0. unfold ReadBlock, kBlockTrailerSize. rewrite u64_small by lia.
  destruct (raf_Read_ok file (bh_offset h) (bh_size h + 5)) as [sc ->];
    [rewrite Ho; apply zlen_nonneg|lia|].
  exists sc. cbn [ok negb]. rewrite Hc, Ho.
  assert (E : take (Z.to_nat (bh_size h + 5)) (drop (Z.to_nat (zlen pre)) (pre ++ body ++ post)) = body).
  { rewrite <- Hl. unfold zlen. rewrite !Nat2Z.id, drop_app_exact. apply take_app_exact. }
  rewrite E, Hl, Z.eqb_refl, Z.ltb_irrefl. done.
Qed.

Lemma block_body_split (contents rest : bytes) (t : byte) :
  let body := contents ++ t :: rest in
  take (Z.to_nat (zlen contents)) body = contents /\
  take (Z.to_nat (zlen contents + 1)) body = contents ++ [t] /\
  drop (Z.to_nat (zlen contents + 1)) body = rest /\
  byte_at body (Z.to_nat (zlen contents)) = byte_to_Z t.
Proof.
  cbn zeta. assert (E : Z.to_nat (zlen contents + 1) = length (contents ++ [t])).
  { rewrite length_app. unfold zlen. simpl. lia. }
  assert (E0 : Z.to_nat (zlen contents) = length contents) by (unfold zlen; lia).
  rewrite E, E0. split; [apply take_app_exact|].
  rewrite (cons_middle t contents rest), (app_assoc contents). split; [apply take_app_exact|].
  split; [apply drop_app_exact|]. unfold byte_at. rewrite <- app_assoc.
  rewrite app_nth2, Nat.sub_diag by lia. done.
Qed.

Lemma trailer_crc contents t :
  Unmask (DecodeFixed32 (EncodeFixed32 (Mask (cs_extend (cs_value contents) [t])))) =
  cs_value (contents ++ [t]).
Proof.
  rewrite <- (app_nil_r (EncodeFixed32 _)), DecodeFixed32_encode.
  rewrite u32_small by apply Mask_range. unfold cs_value. rewrite cs_extend_app. apply Unmask_Mask.
  apply cs_extend_range. lia.
Qed.

Lemma ReadBlock_written file verify pre contents type post :
  raf_contents file = pre ++ (contents ++ block_trailer contents type) ++ post ->
  zlen contents + 5 < 2 ^ 64 ->
  exists in_scratch,
    ReadBlock Snappy Zstd file verify (mkHandle (zlen pre) (zlen contents)) =
    Some match type with
         | kNoCompression => inr (mkContents contents in_scratch in_scratch)
         | kSnappyCompression => read_compressed Snappy (cstr "snappy") contents
         | kZstdCompression => read_compressed Zstd (cstr "zstd") contents
         end.
Proof.
  intros Hc Hs. unfold block_trailer in Hc.
  destruct (ReadBlock_read file verify (mkHandle (zlen pre) (zlen contents)) _ _ _ Hc eq_refl) as [sc E].
  - rewrite zlen_app, zlen_cons. change (zlen (EncodeFixed32 _)) with 4. simpl. lia.
  - simpl. lia.
  - apply zlen_nonneg.
  - exists sc. rewrite E. cbn [bh_size].
    destruct (block_body_split contents (EncodeFixed32 (Mask (cs_extend (cs_value contents)
      [byte_of_Z (CompressionType_code type)]))) (byte_of_Z (CompressionType_code type))) as (-> & -> & -> & ->).
    rewrite trailer_crc, Z.eqb_refl, andb_false_r. by destruct type.
Qed.

Lemma read_compressed_ok (X : Compressor) {XL : CompressorLaws X} name raw c :
  compress (Compressor := X) raw = Some c -> read_compressed X name c = inr (mkContents raw true true).
Proof.
  intros E. unfold read_compressed. by rewrite (uncompressed_length_compress _ _ E), (uncompress_compress _ _ E).
Qed.
End ReadBack.

(** ** Properties *)

(** C36: a block and its trailer in a table file are read back, stored plainly
    or by either compression library; and when one byte of the stored contents
    or of the type is changed, the read with checksums verified reports the
    mismatch instead of returning data. *)
Theorem read_block_correct {F : Type} (R : RandomAccessFile F) (raf_contents : F -> bytes)
    (RL : RandomAccessFileLaws R raf_contents) (Snappy Zstd : Compressor)
    (SL : CompressorLaws Snappy) (ZL : CompressorLaws Zstd)
    (file damaged : F) (verify : bool) (pre contents raw post : bytes) (type : CompressionType)
    (i : nat) (x y : byte)
    (Hfile : raf_contents file = pre ++ (contents ++ block_trailer contents type) ++ post)
    (Hraw : match type with
            | kNoCompression => raw = contents
            | kSnappyCompression => compress (Compressor := Snappy) raw = Some contents
            | kZstdCompression => compress (Compressor := Zstd) raw = Some contents
            end)
    (Hdamaged : raf_contents damaged =
       pre ++ <[i := y]> (contents ++ block_trailer contents type) ++ post)
    (Hbyte : (contents ++ block_trailer contents type) !! i = Some x)
    (Hi : Z.of_nat i <= zlen contents) (Hxy : x <> y) (Hs : zlen contents + 5 < 2 ^ 64) :
  let h := mkHandle (zlen pre) (zlen contents) in
  (exists c, ReadBlock Snappy Zstd file verify h = Some (inr c) /\ bc_data c = raw) /\
  ReadBlock Snappy Zstd damaged true h = Some (inl (Corruption (cstr "block checksum mismatch") [])).
Proof.
  intros h. split.
  - destruct (ReadBlock_written Snappy Zstd file verify _ _ _ _ Hfile Hs) as [sc E]. subst h. rewrite E.
    destruct type; [by eexists; subst raw|by rewrite (read_compressed_ok Snappy _ _ _ Hraw); eexists|
      by rewrite (read_compressed_ok Zstd _ _ _ Hraw); eexists].
  - unfold block_trailer in *. set (t := byte_of_Z (CompressionType_code type)) in *.
    set (crc := EncodeFixed32 _) in *.
    assert (Hlen : zlen (contents ++ t :: crc) = zlen contents + 5).
    { rewrite zlen_app, zlen_cons. change (zlen crc) with 4. lia. }
    set (body := <[i := y]> (contents ++ t :: crc)) in *.
    destruct (ReadBlock_read Snappy Zstd damaged true h pre body post) as [sc E]; try done.
    + unfold body, zlen in *. rewrite length_insert. done.
    + apply zlen_nonneg.
    + rewrite E. subst h. cbn [bh_size andb].
      destruct (block_body_split contents crc t) as (_ & Ht & Hd & _).
      assert (Hi' : (i < Z.to_nat (zlen contents + 1))%nat) by lia.
      assert (Hd' : drop (Z.to_nat (zlen contents + 1)) body = crc)
        by (unfold body; rewrite drop_insert_lt by done; exact Hd).
      assert (Ht' : take (Z.to_nat (zlen contents + 1)) body = <[i := y]> (contents ++ [t]))
        by (unfold body; rewrite take_insert_lt by done; by rewrite Ht).
      rewrite Hd', Ht'. unfold crc at 1. rewrite trailer_crc.
      assert (Hx : (contents ++ [t]) !! i = Some x).
      { rewrite <- Ht, lookup_take_lt by done. done. }
      destruct (Z.eqb_spec (cs_value (<[i := y]> (contents ++ [t]))) (cs_value (contents ++ [t]))) as [Heq|]; [|done].
      exfalso. apply Hxy. symmetry. rewrite <- (take_drop_middle _ _ _ Hx) in Heq.
      rewrite insert_app_r_alt in Heq by (rewrite length_take; lia).
      apply lookup_lt_Some in Hx.
      replace (i - length (take i (contents ++ [t])))%nat with 0%nat in Heq by (rewrite length_take; lia).
      cbn in Heq. eapply (crc32c_byte_change 0); [lia|exact Heq].
Qed.

(** A library that stores the bytes as they are, for examples. *)
Definition StoreCompressor : Compressor := {|
  compress := Some;
  uncompressed_length := fun c => Some (zlen c);
  uncompress := Some;
|}.

Lemma StoreCompressor_laws : CompressorLaws StoreCompressor.
Proof. split; intros raw c [= <-]; done. Qed.

Lemma read_block_correct_witness :
  let block := cstr "data" ++ block_trailer (cstr "data") kSnappyCompression in
  (exists c, ReadBlock StoreCompressor StoreCompressor (cstr "xy" ++ block ++ []) true (mkHandle 2 4) =
     Some (inr c) /\ bc_data c = cstr "data") /\
  ReadBlock StoreCompressor StoreCompressor (cstr "xy" ++ <[1%nat := "!"%byte]> block ++ []) true (mkHandle 2 4)
    = Some (inl (Corruption (cstr "block checksum mismatch") [])).
Proof.
  apply (read_block_correct StringFile id StringFile_laws StoreCompressor StoreCompressor
    StoreCompressor_laws StoreCompressor_laws _ _ true (cstr "xy") (cstr "data") (cstr "data") []
    kSnappyCompression 1 "a"%byte "!"%byte); try reflexivity; done.
Defined.

(** A handle whose size plus the trailer wraps around 64 bits makes
    [ReadBlock] accept an empty read and then look for the checksum outside
    the buffer.  (The footer that holds such a handle has no checksum.) *)
Theorem read_block_size_wraps (file : bytes) :
  ReadBlock StoreCompressor StoreCompressor file true (mkHandle 0 (2 ^ 64 - 5)) = None.
Proof. reflexivity. Qed.
