(* ===== verification/FilterBlock.v ===== *)
(** * table/filter_block: the filters of a table

    Models src/table/filter_block.h and src/table/filter_block.cc over any
    filter policy that keeps its contract.  [tmp_keys_] is local to
    [GenerateFilter]; [start_] holds offsets into [keys_]. *)

From S2P Require Import Prelude Coding Bloom.

Definition kFilterBaseLg : Z := 11.
Definition kFilterBase : Z := Z.shiftl 1 kFilterBaseLg.

Record FilterBlockBuilder := mkFilterBuilder {
  keys_ : bytes;
  start_ : list Z;
  result_ : bytes;
  filter_offsets_ : list Z;
}.

Definition FilterBlockBuilder_new : FilterBlockBuilder := mkFilterBuilder [] [] [] [].

(** [Slice(keys_.data() + start_[i], start_[i+1] - start_[i])] for each [i]. *)
Fixpoint key_slices (keys : bytes) (starts : list Z) : list bytes :=
  match starts with
  | a :: ((b :: _) as rest) =>
      take (Z.to_nat (b - a)) (drop (Z.to_nat a) keys) :: key_slices keys rest
  | _ => []
  end.

Section Policy.
Variable policy_ : FilterPolicy.

Definition GenerateFilter (b : FilterBlockBuilder) : FilterBlockBuilder :=
  let offsets := filter_offsets_ b ++ [u32 (zlen (result_ b))] in
  if zlen (start_ b) =? 0 then mkFilterBuilder (keys_ b) (start_ b) (result_ b) offsets
  else
    let tmp_keys := key_slices (keys_ b) (start_ b ++ [zlen (keys_ b)]) in
    mkFilterBuilder [] [] (CreateFilter (FilterPolicy := policy_) tmp_keys (result_ b)) offsets.

(** [while (filter_index > filter_offsets_.size()) GenerateFilter()]: each
    call adds one offset. *)
Definition StartBlock (b : FilterBlockBuilder) (block_offset : Z) : FilterBlockBuilder :=
  let filter_index := block_offset / kFilterBase in
  Nat.iter (Z.to_nat (filter_index - zlen (filter_offsets_ b))) GenerateFilter b.

Definition AddKey (b : FilterBlockBuilder) (key : bytes) : FilterBlockBuilder :=
  mkFilterBuilder (keys_ b ++ key) (start_ b ++ [zlen (keys_ b)]) (result_ b) (filter_offsets_ b).

Definition FilterBlock_Finish (b : FilterBlockBuilder) : bytes :=
  let b := if zlen (start_ b) =? 0 then b else GenerateFilter b in
  let array_offset := u32 (zlen (result_ b)) in
  let result := fold_left PutFixed32 (filter_offsets_ b) (result_ b) in
  PutFixed32 result array_offset ++ [byte_of_Z kFilterBaseLg].

(** ** The reader *)

(** [data_] and the offset of [offset_] in it; [num_] is 0 for contents the
    constructor rejects. *)
Record FilterBlockReader := mkFilterReader {
  fr_data : bytes;
  fr_offset : Z;
  fr_num : Z;
  fr_base_lg : Z;
}.

Definition FilterBlockReader_new (contents : bytes) : FilterBlockReader :=
  let n := zlen contents in
  if n <? 5 then mkFilterReader [] 0 0 0
  else
    let base_lg := char_to_u64 (nth (Z.to_nat (n - 1)) contents x00) in
    let last_word := DecodeFixed32 (drop (Z.to_nat (n - 5)) contents) in
    if n - 5 <? last_word then mkFilterReader [] 0 0 base_lg
    else mkFilterReader contents last_word ((n - 5 - last_word) / 4) base_lg.

(** [None] where the code shifts a 64-bit number by 64 or more. *)
Definition FilterBlock_KeyMayMatch (r : FilterBlockReader) (block_offset : Z) (key : bytes) : option bool :=
  if 64 <=? fr_base_lg r then None
  else
    let index := Z.shiftr block_offset (fr_base_lg r) in
    Some
      (if index <? fr_num r then
         let start := DecodeFixed32 (drop (Z.to_nat (fr_offset r + index * 4)) (fr_data r)) in
         let limit := DecodeFixed32 (drop (Z.to_nat (fr_offset r + index * 4 + 4)) (fr_data r)) in
         if (start <=? limit) && (limit <=? fr_offset r) then
           KeyMayMatch (FilterPolicy := policy_) key
             (take (Z.to_nat (limit - start)) (drop (Z.to_nat start) (fr_data r)))
         else if start =? limit then false
         else true
       else true).
End Policy.

(** ** The flattened keys *)

Lemma key_slices_cons keys a b rest :
  key_slices keys (a :: b :: rest) =
  take (Z.to_nat (b - a)) (drop (Z.to_nat a) keys) :: key_slices keys (b :: rest).
Proof. done. Qed.

Lemma key_slices_app keys extra starts :
  Forall (fun a => 0 <= a <= zlen keys) starts ->
  key_slices (keys ++ extra) starts = key_slices keys starts.
Proof.
  induction starts as [|a [|b starts] IH]; intros H; [done..|].
  apply Forall_cons in H as [Ha H]. rewrite !key_slices_cons, (IH H). f_equal.
  apply Forall_cons in H as [Hb _]. unfold zlen in *.
  rewrite drop_app_le by lia.
  destruct (Z.le_gt_cases a b); [|by replace (Z.to_nat (b - a)) with O by lia].
  rewrite take_app_le; [done|]. rewrite length_drop. lia.
Qed.

Lemma key_slices_snoc keys starts a b :
  key_slices keys (starts ++ [a; b]) =
  key_slices keys (starts ++ [a]) ++ [take (Z.to_nat (b - a)) (drop (Z.to_nat a) keys)].
Proof.
  induction starts as [|c [|d starts] IH]; [done..|]. cbn [app] in *. rewrite !key_slices_cons. by rewrite IH.
Qed.

(** The builder holds the keys added since the last filter. *)
Record pending (b : FilterBlockBuilder) (ks : list bytes) : Prop := {
  pend_slices : key_slices (keys_ b) (start_ b ++ [zlen (keys_ b)]) = ks;
  pend_bounds : Forall (fun a => 0 <= a <= zlen (keys_ b)) (start_ b);
  pend_count : zlen (start_ b) = zlen ks;
  pend_empty : ks = [] -> keys_ b = [];
}.

Lemma pending_AddKey b ks k : pending b ks -> pending (AddKey b k) (ks ++ [k]).
Proof.
  intros [Hs Hb Hc He]. split; simpl.
  - rewrite <- app_assoc. cbn [app]. rewrite key_slices_snoc. f_equal.
    + rewrite key_slices_app; [exact Hs|]. apply Forall_app. split; [done|]. apply Forall_singleton. ilia.
    + rewrite zlen_app. replace (zlen (keys_ b) + zlen k - zlen (keys_ b)) with (zlen k) by lia.
      unfold zlen. rewrite !Nat2Z.id, drop_app_exact, firstn_all. done.
  - apply Forall_app. split; [|apply Forall_singleton; rewrite zlen_app; ilia].
    eapply Forall_impl; [exact Hb|]. simpl. intros a Ha. rewrite zlen_app. ilia.
  - rewrite !zlen_app, Hc. done.
  - by intros [_ ?]%app_eq_nil.
Qed.

(** ** The builder's invariant *)

Section Builder.
Context {P : FilterPolicy} {PL : FilterPolicyLaws P}.

Definition matches_all (ks : list bytes) (f : bytes) : Prop :=
  forall k, k ∈ ks -> KeyMayMatch (FilterPolicy := P) k f = true.

(** The offset of filter [i]. *)
Definition filter_off (fs : list bytes) (i : nat) : Z := zlen (concat (take i fs)).

(** The builder has made the filters [fs] for the groups of keys [gs], and
    holds the keys [ks] of the next one. *)
Record builder_inv (b : FilterBlockBuilder) (fs : list bytes) (gs : list (list bytes))
    (ks : list bytes) : Prop := {
  inv_result : result_ b = concat fs;
  inv_offsets : filter_offsets_ b = map (fun i => u32 (filter_off fs i)) (seq 0 (length fs));
  inv_filters : Forall2 matches_all gs fs;
  inv_pending : pending b ks;
}.

Lemma new_inv : builder_inv FilterBlockBuilder_new [] [] [].
Proof. split; [done|done|constructor|]. split; [done|constructor|done|done]. Qed.

Lemma filter_off_app fs f i : (i <= length fs)%nat -> filter_off (fs ++ [f]) i = filter_off fs i.
Proof. intros. unfold filter_off. by rewrite take_app_le. Qed.

Lemma filter_offsets_snoc fs f :
  map (fun i => u32 (filter_off (fs ++ [f]) i)) (seq 0 (length (fs ++ [f]))) =
  map (fun i => u32 (filter_off fs i)) (seq 0 (length fs)) ++ [u32 (zlen (concat fs))].
Proof.
  rewrite length_app. cbn [length]. rewrite Nat.add_1_r, seq_S, map_app. cbn [map Nat.add]. f_equal.
  - apply map_ext_in. intros i Hi%in_seq. by rewrite filter_off_app by lia.
  - rewrite filter_off_app by lia. unfold filter_off. by rewrite firstn_all.
Qed.

Lemma GenerateFilter_inv b fs gs ks :
  builder_inv b fs gs ks -> zlen ks < 2 ^ 31 ->
  exists f, builder_inv (GenerateFilter P b) (fs ++ [f]) (gs ++ [ks]) [].
Proof.
  intros [Hr Ho Hf Hp] Hn. unfold GenerateFilter. rewrite (pend_count _ _ Hp).
  destruct (Z.eqb_spec (zlen ks) 0) as [Hz|Hz].
  - assert (ks = []) as -> by (destruct ks; [done|rewrite zlen_cons in Hz; unfold zlen in Hz; lia]).
    exists []. split; simpl.
    + by rewrite concat_app, <- Hr, app_nil_r.
    + by rewrite filter_offsets_snoc, Ho, Hr.
    + apply Forall2_app; [done|]. repeat constructor. by intros k Hk%elem_of_nil.
    + destruct Hp. by split.
  - rewrite (pend_slices _ _ Hp). destruct (CreateFilter_appends ks (result_ b)) as [f Ef].
    exists f. split; simpl.
    + rewrite Ef, Hr, concat_app. cbn [concat]. by rewrite app_nil_r.
    + by rewrite filter_offsets_snoc, Ho, Hr.
    + apply Forall2_app; [done|]. repeat constructor. intros k Hk%list_elem_of_In.
      pose proof (KeyMayMatch_created ks (result_ b) k Hn Hk) as H. by rewrite Ef, drop_app_exact in H.
    + by split.
Qed.

Lemma GenerateFilter_iter n b fs gs ks :
  builder_inv b fs gs ks -> zlen ks < 2 ^ 31 ->
  exists fs' gs' ks', builder_inv (Nat.iter n (GenerateFilter P) b) fs' gs' ks' /\
    length fs' = (length fs + n)%nat /\ (exists more, gs' = gs ++ more) /\ (length ks' <= length ks)%nat /\
    forall k, k ∈ ks -> if (n =? 0)%nat then k ∈ ks' else exists g, gs' !! length fs = Some g /\ k ∈ g.
Proof.
  intros Hinv Hn. induction n as [|n IH].
  { exists fs, gs, ks. split; [done|]. split; [lia|]. split; [by exists []; rewrite app_nil_r|]. by split. }
  destruct IH as (fs' & gs' & ks' & H1 & Hl & [more ->] & Hk & Hkeys).
  destruct (GenerateFilter_inv _ _ _ _ H1) as [f H2]; [unfold zlen in *; lia|].
  pose proof (Forall2_length _ _ _ (inv_filters _ _ _ _ H1)) as Hlen.
  pose proof (Forall2_length _ _ _ (inv_filters _ _ _ _ Hinv)) as Hlen0.
  exists (fs' ++ [f]), ((gs ++ more) ++ [ks']), []. split; [done|]. rewrite length_app. cbn [length].
  split; [lia|]. split; [exists (more ++ [ks']); by rewrite app_assoc|]. split; [lia|].
  intros k Hin. specialize (Hkeys k Hin). cbn [Nat.eqb]. destruct n as [|n].
  - cbn [Nat.eqb] in Hkeys. exists ks'. split; [|done].
    replace (length fs) with (length (gs ++ more)) by lia. apply list_lookup_middle. done.
  - cbn [Nat.eqb] in Hkeys. destruct Hkeys as (g & Hg & Hkg). exists g. split; [|done].
    apply lookup_app_l_Some. done.
Qed.

(** Key [k], added for the block at [off], is in the filter of the block, made
    or about to be made. *)
Definition covered (fs : list bytes) (gs : list (list bytes)) (ks : list bytes) (off : Z) (k : bytes) : Prop :=
  let fi := Z.to_nat (off / kFilterBase) in
  (exists g, gs !! fi = Some g /\ k ∈ g) \/ (fi = length fs /\ k ∈ ks).

(** The sequence of calls [(StartBlock AddKey* )*]. *)
Definition add_keys (b : FilterBlockBuilder) (keys : list bytes) : FilterBlockBuilder := fold_left AddKey keys b.
Definition run_blocks (blocks : list (Z * list bytes)) (b : FilterBlockBuilder) : FilterBlockBuilder :=
  fold_left (fun b p => add_keys (StartBlock P b p.1) p.2) blocks b.

(** The offsets grow, from an offset whose filter index the builder has not passed. *)
Fixpoint offsets_from (o : Z) (blocks : list (Z * list bytes)) : Prop :=
  match blocks with [] => True | (off, _) :: rest => o <= off /\ offsets_from off rest end.

Definition keys_count (blocks : list (Z * list bytes)) : Z := fold_right (fun p n => zlen p.2 + n) 0 blocks.

Lemma add_keys_inv keys b fs gs ks :
  builder_inv b fs gs ks -> builder_inv (add_keys b keys) fs gs (ks ++ keys).
Proof.
  unfold add_keys. revert b ks. induction keys as [|k keys IH]; intros b ks H; cbn [fold_left].
  { by rewrite app_nil_r. }
  rewrite cons_middle, app_assoc. apply IH. destruct H as [Hr Ho Hf Hp]. split; [done..|].
  by apply pending_AddKey.
Qed.

Lemma kFilterBase_pos : 0 < kFilterBase.
Proof. reflexivity. Qed.

Lemma run_blocks_inv blocks b fs gs ks o :
  builder_inv b fs gs ks -> Z.of_nat (length fs) = o / kFilterBase -> 0 <= o ->
  offsets_from o blocks -> zlen ks + keys_count blocks < 2 ^ 31 ->
  exists fs' gs' ks', builder_inv (run_blocks blocks b) fs' gs' ks' /\ zlen ks' < 2 ^ 31 /\
    (forall off k, covered fs gs ks off k -> covered fs' gs' ks' off k) /\
    (forall off keys k, (off, keys) ∈ blocks -> k ∈ keys -> covered fs' gs' ks' off k).
Proof.
  pose proof kFilterBase_pos as Hkb.
  revert b fs gs ks o. induction blocks as [|[off keys] blocks IH]; intros b fs gs ks o Hinv Hlen Ho Hoff Hn.
  { exists fs, gs, ks. cbn in Hn. split; [done|]. split; [lia|]. split; [done|]. by intros ??? ?%elem_of_nil. }
  cbn [offsets_from] in Hoff. destruct Hoff as [Hoff1 Hoff2].
  cbn [keys_count fold_right snd] in Hn. fold (keys_count blocks) in Hn.
  assert (Hc0 : 0 <= keys_count blocks).
  { clear. induction blocks as [|p l IH]; simpl; [lia|]. pose proof (zlen_nonneg p.2). lia. }
  pose proof (zlen_nonneg keys) as Hz.
  set (n := Z.to_nat (off / kFilterBase - Z.of_nat (length fs))).
  assert (Hdiv : o / kFilterBase <= off / kFilterBase) by (apply Z.div_le_mono; lia).
  assert (Hd0 : 0 <= o / kFilterBase) by (apply Z.div_pos; lia).
  destruct (GenerateFilter_iter n b fs gs ks Hinv ltac:(lia))
    as (fs1 & gs1 & ks1 & H1 & Hl1 & [more Hmore] & Hk1 & Hkeys1).
  assert (Hstart : StartBlock P b off = Nat.iter n (GenerateFilter P) b).
  { unfold StartBlock, n. rewrite (inv_offsets _ _ _ _ Hinv). unfold zlen.
    by rewrite length_map, length_seq. }
  cbn [run_blocks fold_left fst snd]. rewrite Hstart.
  apply (add_keys_inv keys) in H1.
  destruct (IH _ fs1 gs1 (ks1 ++ keys) off H1) as (fs' & gs' & ks' & H2 & Hn2 & Hmono & Hall).
  { rewrite Hl1. subst n. lia. }
  { lia. }
  { done. }
  { rewrite zlen_app. unfold zlen in *. lia. }
  exists fs', gs', ks'. split; [exact H2|]. split; [done|]. split.
  - intros off0 k Hcov. apply Hmono. destruct Hcov as [(g & Hg & Hkg)|[Hfi Hin]].
    + left. exists g. split; [|done]. subst gs1. by apply lookup_app_l_Some.
    + specialize (Hkeys1 k Hin). destruct (Nat.eqb_spec n 0) as [E|E].
      * right. split; [lia|]. apply elem_of_app. by left.
      * left. unfold covered in Hfi. rewrite Hfi. exact Hkeys1.
  - intros off0 keys0 k [[= -> ->]|Hin]%elem_of_cons Hk; [|by eapply Hall].
    apply Hmono. right. split; [|apply elem_of_app; by right]. rewrite Hl1. subst n. lia.
Qed.

(** ** The finished block *)

(** The builder before the trailer: no key is pending. *)
Lemma finish_inv b fs gs ks :
  builder_inv b fs gs ks -> zlen ks < 2 ^ 31 ->
  exists fs' gs', builder_inv (if zlen (start_ b) =? 0 then b else GenerateFilter P b) fs' gs' [] /\
    forall off k, covered fs gs ks off k -> exists g, gs' !! Z.to_nat (off / kFilterBase) = Some g /\ k ∈ g.
Proof.
  intros Hinv Hn. rewrite (pend_count _ _ (inv_pending _ _ _ _ Hinv)).
  destruct (Z.eqb_spec (zlen ks) 0) as [Hz|Hz].
  - assert (ks = []) as -> by (destruct ks; [done|rewrite zlen_cons in Hz; unfold zlen in Hz; lia]).
    exists fs, gs. split; [done|]. intros off k [?|[_ ?%elem_of_nil]]; done.
  - destruct (GenerateFilter_inv _ _ _ _ Hinv Hn) as [f H]. exists (fs ++ [f]), (gs ++ [ks]). split; [done|].
    pose proof (Forall2_length _ _ _ (inv_filters _ _ _ _ Hinv)) as Hlen.
    intros off k [(g & Hg & Hk)|[Hfi Hk]].
    + exists g. split; [|done]. by apply lookup_app_l_Some.
    + exists ks. split; [|done]. rewrite Hfi, <- Hlen. by apply list_lookup_middle.
Qed.

Definition offsets_bytes (os : list Z) : bytes := concat (map EncodeFixed32 os).

Lemma offsets_bytes_length os : length (offsets_bytes os) = (4 * length os)%nat.
Proof. induction os as [|o os IH]; [done|]. cbn [offsets_bytes map concat]. rewrite length_app, EncodeFixed32_length. fold (offsets_bytes os). simpl in *. lia. Qed.

Lemma offsets_bytes_lookup os i o rest :
  os !! i = Some o -> DecodeFixed32 (drop (4 * i) (offsets_bytes os ++ rest)) = u32 o.
Proof.
  revert i. induction os as [|x os IH]; intros [|i]; [done..| |].
  - intros [= ->]. cbn [offsets_bytes map concat]. rewrite <- app_assoc. change (4 * 0)%nat with O.
    by rewrite drop_0, DecodeFixed32_encode.
  - intros E. cbn [offsets_bytes map concat]. replace (4 * S i)%nat with (4 + 4 * i)%nat by lia.
    rewrite <- drop_drop, <- app_assoc. change 4%nat with (length (EncodeFixed32 x)) at 2.
    rewrite drop_app_exact. by apply IH.
Qed.

Lemma fold_PutFixed32 os dst : fold_left PutFixed32 os dst = dst ++ offsets_bytes os.
Proof.
  revert dst. induction os as [|o os IH]; intros dst; cbn [fold_left]; [by rewrite app_nil_r|].
  rewrite IH. unfold PutFixed32, offsets_bytes. cbn [map concat]. by rewrite <- app_assoc.
Qed.

(** The reader of a finished block finds filter [i] at its offsets. *)
Lemma reader_lookup fs i f key block_offset :
  let result := concat fs in
  let os := map (fun i => u32 (filter_off fs i)) (seq 0 (length fs)) in
  let contents := result ++ offsets_bytes os ++ EncodeFixed32 (zlen result) ++ [byte_of_Z kFilterBaseLg] in
  zlen contents < 2 ^ 32 -> fs !! i = Some f -> 0 <= block_offset ->
  Z.to_nat (block_offset / kFilterBase) = i ->
  FilterBlock_KeyMayMatch P (FilterBlockReader_new contents) block_offset key =
  Some (KeyMayMatch (FilterPolicy := P) key f).
Proof.
  intros result os contents Hsize Hi Hb Hidx.
  pose proof (zlen_nonneg result) as Hr0. pose proof (zlen_nonneg os) as Hos0.
  assert (Hos : zlen os = zlen fs) by (unfold os, zlen; by rewrite length_map, length_seq).
  assert (Hlen : zlen contents = zlen result + 4 * zlen fs + 5).
  { unfold contents. rewrite !zlen_app. change (zlen (EncodeFixed32 _)) with 4. change (zlen [_]) with 1.
    rewrite <- Hos. unfold zlen. rewrite offsets_bytes_length. lia. }
  pose proof (lookup_lt_Some _ _ _ Hi) as Hil.
  assert (Hword : drop (Z.to_nat (zlen contents - 5)) contents = EncodeFixed32 (zlen result) ++ [byte_of_Z kFilterBaseLg]).
  { replace (Z.to_nat (zlen contents - 5)) with (length (result ++ offsets_bytes os))
      by (rewrite length_app, offsets_bytes_length; unfold zlen in *; lia).
    unfold contents. rewrite (app_assoc result). apply drop_app_exact. }
  assert (Hbase : nth (Z.to_nat (zlen contents - 1)) contents x00 = byte_of_Z kFilterBaseLg).
  { replace (Z.to_nat (zlen contents - 1)) with (length (result ++ offsets_bytes os ++ EncodeFixed32 (zlen result)))
      by (rewrite !length_app, offsets_bytes_length, EncodeFixed32_length; unfold zlen in *; lia).
    unfold contents. rewrite !(app_assoc result), !(app_assoc (result ++ _)).
    rewrite app_nth2, Nat.sub_diag by lia. done. }
  unfold FilterBlockReader_new. rewrite (proj2 (Z.ltb_ge (zlen contents) 5)) by (unfold zlen in *; lia).
  rewrite Hword, Hbase, DecodeFixed32_encode, u32_small by (unfold zlen in *; lia).
  rewrite (proj2 (Z.ltb_ge _ _)) by (unfold zlen in *; lia).
  unfold FilterBlock_KeyMayMatch. cbn [fr_base_lg fr_num fr_offset fr_data].
  change (char_to_u64 (byte_of_Z kFilterBaseLg)) with 11. cbn [Z.leb Z.compare Pos.compare Pos.compare_cont].
  assert (Hshift : Z.shiftr block_offset 11 = Z.of_nat i).
  { rewrite Z.shiftr_div_pow2 by lia. change (2 ^ 11) with kFilterBase.
    assert (0 <= block_offset / kFilterBase) by (apply Z.div_pos; [done|apply kFilterBase_pos]). lia. }
  rewrite Hshift. replace ((zlen contents - 5 - zlen result) / 4) with (zlen fs).
  2: { rewrite Hlen. replace (zlen result + 4 * zlen fs + 5 - 5 - zlen result) with (zlen fs * 4) by lia.
       by rewrite Z.div_mul. }
  rewrite (proj2 (Z.ltb_lt _ _)) by (unfold zlen; lia).
  assert (Hoff_le : forall j, 0 <= filter_off fs j <= zlen result).
  { intros j. split; [apply zlen_nonneg|]. unfold filter_off, result. rewrite <- (take_drop j fs) at 2.
    rewrite concat_app, zlen_app. pose proof (zlen_nonneg (concat (drop j fs))). lia. }
  assert (Hentry : forall j rest, (j < length fs)%nat ->
    DecodeFixed32 (drop (4 * j) (offsets_bytes os ++ rest)) = filter_off fs j).
  { intros j rest Hj. rewrite (offsets_bytes_lookup os j (u32 (filter_off fs j))).
    - assert (Hsm : u32 (filter_off fs j) = filter_off fs j)
        by (apply u32_small; specialize (Hoff_le j); unfold zlen in *; lia).
      by rewrite !Hsm.
    - unfold os. rewrite list_lookup_fmap, lookup_seq_lt by done. done. }
  assert (Hstart : DecodeFixed32 (drop (Z.to_nat (zlen result + Z.of_nat i * 4)) contents) = filter_off fs i).
  { replace (Z.to_nat (zlen result + Z.of_nat i * 4)) with (length result + 4 * i)%nat by (unfold zlen; lia).
    unfold contents. rewrite <- drop_drop, drop_app_exact. by apply Hentry. }
  assert (Hlimit : DecodeFixed32 (drop (Z.to_nat (zlen result + Z.of_nat i * 4 + 4)) contents) = filter_off fs (S i)).
  { replace (Z.to_nat (zlen result + Z.of_nat i * 4 + 4)) with (length result + 4 * S i)%nat by (unfold zlen; lia).
    unfold contents. rewrite <- drop_drop, drop_app_exact.
    destruct (decide (S i < length fs)%nat) as [Hs|Hs]; [by apply Hentry|].
    replace (4 * S i)%nat with (length (offsets_bytes os))
      by (rewrite offsets_bytes_length; unfold zlen in Hos; lia).
    rewrite drop_app_exact, DecodeFixed32_encode, u32_small by (unfold zlen in *; lia).
    unfold filter_off. by rewrite firstn_all2 by lia. }
  rewrite Hstart, Hlimit.
  assert (Hnext : filter_off fs (S i) = filter_off fs i + zlen f).
  { unfold filter_off. rewrite (take_S_r _ _ _ Hi), concat_app, zlen_app. cbn [concat]. by rewrite app_nil_r. }
  pose proof (zlen_nonneg f). rewrite (proj2 (Z.leb_le (filter_off fs i) _)) by lia.
  rewrite (proj2 (Z.leb_le (filter_off fs (S i)) _)) by apply Hoff_le. cbn [andb]. do 2 f_equal.
  rewrite Hnext. replace (filter_off fs i + zlen f - filter_off fs i) with (zlen f) by lia.
  assert (Hres : result = concat (take i fs) ++ f ++ concat (drop (S i) fs)).
  { unfold result. rewrite <- (take_drop_middle _ _ _ Hi) at 1. by rewrite concat_app. }
  unfold contents. rewrite Hres, <- !app_assoc. unfold filter_off.
  unfold zlen. rewrite !Nat2Z.id, drop_app_exact. apply take_app_exact.
Qed.
End Builder.

(** For each block, the reader of a finished filter block consults one filter,
    which matches the keys added for the block. *)
Lemma finished_filter_lookup {P : FilterPolicy} {PL : FilterPolicyLaws P} (blocks : list (Z * list bytes)) off keys key0 :
  offsets_from 0 blocks -> keys_count blocks < 2 ^ 31 ->
  zlen (FilterBlock_Finish P (run_blocks (P := P) blocks FilterBlockBuilder_new)) < 2 ^ 32 ->
  (off, keys) ∈ blocks -> key0 ∈ keys ->
  exists f, (forall key, FilterBlock_KeyMayMatch P
      (FilterBlockReader_new (FilterBlock_Finish P (run_blocks (P := P) blocks FilterBlockBuilder_new))) off key =
      Some (KeyMayMatch (FilterPolicy := P) key f)) /\
    forall key, key ∈ keys -> KeyMayMatch (FilterPolicy := P) key f = true.
Proof.
  intros Hoff Hcount Hsize Hin Hkey0.
  destruct (run_blocks_inv blocks FilterBlockBuilder_new [] [] [] 0 new_inv) as (fs & gs & ks & Hinv & Hn & _ & Hall);
    [done|lia|done|done|].
  destruct (finish_inv _ _ _ _ Hinv Hn) as (fs' & gs' & Hfin & Hcov).
  destruct (Hcov off key0 (Hall _ _ _ Hin Hkey0)) as (g & Hg & _).
  destruct (Forall2_lookup_l _ _ _ _ _ (inv_filters _ _ _ _ Hfin) Hg) as (f & Hf & Hmatch).
  assert (E : FilterBlock_Finish P (run_blocks (P := P) blocks FilterBlockBuilder_new) =
    concat fs' ++ offsets_bytes (map (fun i => u32 (filter_off fs' i)) (seq 0 (length fs'))) ++
    EncodeFixed32 (u32 (zlen (concat fs'))) ++ [byte_of_Z kFilterBaseLg]).
  { unfold FilterBlock_Finish. rewrite fold_PutFixed32, (inv_result _ _ _ _ Hfin), (inv_offsets _ _ _ _ Hfin).
    unfold PutFixed32. by rewrite <- !app_assoc. }
  rewrite E in Hsize |- *. assert (Hr : u32 (zlen (concat fs')) = zlen (concat fs')).
  { apply u32_small. rewrite zlen_app in Hsize. pose proof (zlen_nonneg (concat fs')).
    match type of Hsize with _ + zlen ?x < _ => pose proof (zlen_nonneg x) end. lia. }
  rewrite Hr in Hsize |- *. exists f. split.
  - intros key. apply (reader_lookup fs' _ f key off Hsize Hf); [|done].
    clear -Hoff Hin. assert (forall o bl, 0 <= o -> offsets_from o bl -> (off, keys) ∈ bl -> 0 <= off) as H.
    { intros o bl. revert o. induction bl as [|[o' ks'] bl IH]; intros o Ho H Hi; [by apply elem_of_nil in Hi|].
      destruct H as [H1 H2]. apply elem_of_cons in Hi as [[= -> ->]|Hi]; [lia|]. by apply (IH o'); [lia|..]. }
    by apply (H 0 blocks).
  - intros key Hkey. destruct (Hcov off key (Hall _ _ _ Hin Hkey)) as (g' & Hg' & Hkg). rewrite Hg in Hg'.
    injection Hg' as <-. by apply Hmatch.
Qed.

(** ** Properties *)

(** A table's filter block never hides a key.  Whatever the blocks of the
    table, at non-decreasing offsets, and whatever the filter policy that
    keeps its contract, the reader of the finished filter block answers true
    for every key added after the start of a block, when asked with the
    block's offset. *)
Theorem filter_block_no_false_negatives (P : FilterPolicy) (PL : FilterPolicyLaws P)
    (blocks : list (Z * list bytes)) (off : Z) (keys : list bytes) (key : bytes)
    (Hoff : offsets_from 0 blocks) (Hcount : keys_count blocks < 2 ^ 31)
    (Hsize : zlen (FilterBlock_Finish P (run_blocks blocks FilterBlockBuilder_new)) < 2 ^ 32)
    (Hin : (off, keys) ∈ blocks) (Hkey : key ∈ keys) :
  FilterBlock_KeyMayMatch P
    (FilterBlockReader_new (FilterBlock_Finish P (run_blocks blocks FilterBlockBuilder_new))) off key
  = Some true.
Proof.
  destruct (finished_filter_lookup blocks off keys key Hoff Hcount Hsize Hin Hkey) as (f & Hf & Hall).
  by rewrite Hf, Hall.
Qed.

Lemma filter_block_no_false_negatives_witness :
  FilterBlock_KeyMayMatch (BloomFilterPolicy 10)
    (FilterBlockReader_new (FilterBlock_Finish (BloomFilterPolicy 10)
      (run_blocks (P := BloomFilterPolicy 10) [(0, [cstr "a"; cstr "b"]); (2100, [cstr "c"])] FilterBlockBuilder_new))) 2100 (cstr "c")
  = Some true.
Proof.
  apply (filter_block_no_false_negatives (BloomFilterPolicy 10) (BloomFilterPolicy_laws 10 ltac:(lia))
    [(0, [cstr "a"; cstr "b"]); (2100, [cstr "c"])] 2100 [cstr "c"] (cstr "c")).
  - repeat split; lia.
  - reflexivity.
  - vm_compute. reflexivity.
  - right. left.
  - left.
Defined.
