(* ===== verification/IteratorWrapper.v ===== *)
(** * table/iterator_wrapper: cached iterators

    Models src/table/iterator_wrapper.h: an iterator that may be null, with
    [Valid()] and [key()] cached.  A wrapper of a lawful iterator is a lawful
    iterator.  An iterator
    of one of two types (a pointer to the abstract class) is one as well. *)

From S2P Require Import Prelude Comparator Status Iterator.

(** ** Iterators of two kinds *)

(** A pointer to the abstract class that points to an iterator of one of two
    types. *)
#[export] Instance Sum_Iterator {A B : Type} {IA : Iterator A} {IB : Iterator B} : Iterator (A + B) := {|
  it_Valid := fun s => match s with inl a => it_Valid a | inr b => it_Valid b end;
  it_SeekToFirst := fun s =>
    match s with inl a => inl <$> it_SeekToFirst a | inr b => inr <$> it_SeekToFirst b end;
  it_SeekToLast := fun s =>
    match s with inl a => inl <$> it_SeekToLast a | inr b => inr <$> it_SeekToLast b end;
  it_Seek := fun s t => match s with inl a => inl <$> it_Seek a t | inr b => inr <$> it_Seek b t end;
  it_Next := fun s => match s with inl a => inl <$> it_Next a | inr b => inr <$> it_Next b end;
  it_Prev := fun s => match s with inl a => inl <$> it_Prev a | inr b => inr <$> it_Prev b end;
  it_key := fun s => match s with inl a => it_key a | inr b => it_key b end;
  it_value := fun s => match s with inl a => it_value a | inr b => it_value b end;
  it_status := fun s => match s with inl a => it_status a | inr b => it_status b end;
|}.

(** The position predicate of a kind of iterator that does not occur. *)
Definition none {T : Type} (_ : T) (_ : nat) : Prop := False.

Section Sum.
Context {T : Targets} {A B : Type} {IA : Iterator A} {IB : Iterator B} {C : Comparator} {kvs : list kv}.

(** It stands where the iterator it is stands. *)
Definition sum_pos (posA : A -> nat -> Prop) (posB : B -> nat -> Prop) (s : A + B) (i : nat) : Prop :=
  match s with inl a => posA a i | inr b => posB b i end.

Lemma inl_law posA posB (o : option A) j :
  (exists a, o = Some a /\ posA a j) -> exists s : A + B, inl <$> o = Some s /\ sum_pos posA posB s j.
Proof. intros (a & -> & H). by exists (inl a). Qed.

Lemma inr_law posA posB (o : option B) j :
  (exists b, o = Some b /\ posB b j) -> exists s : A + B, inr <$> o = Some s /\ sum_pos posA posB s j.
Proof. intros (b & -> & H). by exists (inr b). Qed.

Lemma sum_laws (posA : A -> nat -> Prop) (posB : B -> nat -> Prop) :
  ((exists a i, posA a i) -> IteratorLaws IA C kvs posA) ->
  ((exists b i, posB b i) -> IteratorLaws IB C kvs posB) ->
  IteratorLaws Sum_Iterator C kvs (sum_pos posA posB).
Proof.
  intros LA LB.
  assert (HA : forall a i, posA a i -> IteratorLaws IA C kvs posA) by eauto.
  assert (HB : forall b i, posB b i -> IteratorLaws IB C kvs posB) by eauto.
  split; cbn.
  - intros [s|s] i H; [pose proof (HA _ _ H)|pose proof (HB _ _ H)]; by apply (pos_le s i).
  - intros [s|s] i H; [pose proof (HA _ _ H)|pose proof (HB _ _ H)]; by apply (pos_valid s i).
  - intros [s|s] i H; [pose proof (HA _ _ H)|pose proof (HB _ _ H)]; by apply (pos_status s i).
  - intros [s|s] i k v H; [pose proof (HA _ _ H)|pose proof (HB _ _ H)]; by apply (pos_key s i k v).
  - intros [s|s] i k v H; [pose proof (HA _ _ H)|pose proof (HB _ _ H)]; by apply (pos_value s i k v).
  - intros [s|s] i H; [pose proof (HA _ _ H); apply inl_law|pose proof (HB _ _ H); apply inr_law];
      by apply (pos_first s i).
  - intros [s|s] i H; [pose proof (HA _ _ H); apply inl_law|pose proof (HB _ _ H); apply inr_law];
      by apply (pos_last s i).
  - intros [s|s] i t H Ht; [pose proof (HA _ _ H); apply inl_law|pose proof (HB _ _ H); apply inr_law];
      by apply (pos_seek s i).
  - intros [s|s] i H Hi; [pose proof (HA _ _ H); apply inl_law|pose proof (HB _ _ H); apply inr_law];
      by apply (pos_next s i).
  - intros [s|s] i H Hi; [pose proof (HA _ _ H); apply inl_law|pose proof (HB _ _ H); apply inr_law];
      by apply (pos_prev s i).
Qed.
End Sum.

(** ** The wrapper *)

Section Wrapper.
Context {S : Type} {I : Iterator S}.

Record IteratorWrapper := mkWrapper { w_iter : option S; w_valid : bool; w_key : bytes }.

Definition Wrapper_new : IteratorWrapper := mkWrapper None false [].

(** [Update()], after the iterator has become [it]. *)
Definition Wrapper_Update (w : IteratorWrapper) (it : S) : option IteratorWrapper :=
  if it_Valid it
  then option_map (mkWrapper (Some it) true) (it_key it)
  else Some (mkWrapper (Some it) false (w_key w)).

Definition Wrapper_Set (w : IteratorWrapper) (iter : option S) : option IteratorWrapper :=
  match iter with
  | None => Some (mkWrapper None false (w_key w))
  | Some it => Wrapper_Update w it
  end.

(** A method that moves the iterator; it must not be null. *)
Definition Wrapper_move (f : S -> option S) (w : IteratorWrapper) : option IteratorWrapper :=
  it ← w_iter w; it' ← f it; Wrapper_Update w it'.

#[export] Instance Wrapper_Iterator : Iterator IteratorWrapper := {|
  it_Valid := w_valid;
  it_SeekToFirst := Wrapper_move it_SeekToFirst;
  it_SeekToLast := Wrapper_move it_SeekToLast;
  it_Seek := fun w k => Wrapper_move (fun it => it_Seek it k) w;
  it_Next := Wrapper_move it_Next;
  it_Prev := Wrapper_move it_Prev;
  it_key := fun w => if w_valid w then Some (w_key w) else None;
  it_value := fun w => if w_valid w then w_iter w ≫= it_value else None;
  it_status := fun w => match w_iter w with Some it => it_status it | None => OK end;
|}.

Context {T : Targets} {C : Comparator} {kvs : list kv} {pos : S -> nat -> Prop} {L : IteratorLaws I C kvs pos}.

Definition wrapper_pos (w : IteratorWrapper) (i : nat) : Prop :=
  exists s, w_iter w = Some s /\ pos s i /\ w_valid w = (i <? length kvs)%nat /\
    forall k v, kvs !! i = Some (k, v) -> w_key w = k.

Lemma Wrapper_Update_pos w s i : pos s i -> exists w', Wrapper_Update w s = Some w' /\ wrapper_pos w' i.
Proof.
  intros H. unfold Wrapper_Update. rewrite (pos_valid _ _ H).
  destruct (Nat.ltb_spec i (length kvs)) as [Hi|Hi].
  - destruct (lookup_lt_is_Some_2 kvs i Hi) as [[k v] E]. rewrite (pos_key _ _ _ _ H E). cbn.
    eexists. split; [done|]. exists s.
    split; [done|]. split; [done|]. split; [symmetry; by apply Nat.ltb_lt|]. intros k' v' E'. by simplify_eq.
  - eexists. split; [done|]. exists s.
    split; [done|]. split; [done|]. split; [symmetry; by apply Nat.ltb_ge|]. intros k v E. apply lookup_lt_Some in E. lia.
Qed.

Lemma Wrapper_Set_pos w s i : pos s i -> exists w', Wrapper_Set w (Some s) = Some w' /\ wrapper_pos w' i.
Proof. apply Wrapper_Update_pos. Qed.

Lemma Wrapper_move_pos f w s j :
  w_iter w = Some s -> (exists s', f s = Some s' /\ pos s' j) ->
  exists w', Wrapper_move f w = Some w' /\ wrapper_pos w' j.
Proof.
  intros E (s' & Ef & H). unfold Wrapper_move. rewrite E. cbn. rewrite Ef. cbn. by apply Wrapper_Update_pos.
Qed.

#[export] Instance Wrapper_laws : IteratorLaws Wrapper_Iterator C kvs wrapper_pos.
Proof.
  split; cbn.
  - intros w i (s & _ & H & _). by apply (pos_le s).
  - intros w i (s & _ & _ & -> & _). done.
  - intros w i (s & -> & H & _). by apply (pos_status s i).
  - intros w i k v (s & _ & H & -> & Hk) E. rewrite (Hk _ _ E).
    apply lookup_lt_Some in E. by rewrite (proj2 (Nat.ltb_lt _ _) E).
  - intros w i k v (s & -> & H & -> & Hk) E. pose proof (lookup_lt_Some _ _ _ E) as Hi.
    rewrite (proj2 (Nat.ltb_lt _ _) Hi). cbn. by apply (pos_value s i k v).
  - intros w i (s & E & H & _). eapply Wrapper_move_pos; [done|]. by apply (pos_first s i).
  - intros w i (s & E & H & _). eapply Wrapper_move_pos; [done|]. by apply (pos_last s i).
  - intros w i t (s & E & H & _) Ht. eapply (Wrapper_move_pos (fun it => it_Seek it t)); [done|]. by apply (pos_seek s i).
  - intros w i (s & E & H & _) Hi. eapply Wrapper_move_pos; [done|]. by apply (pos_next s i).
  - intros w i (s & E & H & _) Hi. eapply Wrapper_move_pos; [done|]. by apply (pos_prev s i).
Qed.
End Wrapper.

Arguments IteratorWrapper S : clear implicits.
Arguments wrapper_pos {S} kvs pos w i.
