(* ===== verification/Merger.v ===== *)
(** * table/merger: merging sorted iterators

    Models src/table/merger.cc over any lawful children: the merging iterator
    is again a lawful iterator, over the sorted merge of its children's
    entries, in both directions and across changes of direction. *)

From Stdlib Require Import Sorted Permutation.
From stdpp Require Import sorting.
From S2P Require Import Prelude Comparator Status Iterator BlockBuilder Block IteratorWrapper.

Inductive Direction := kForward | kReverse.

#[global] Instance Direction_eq_dec : EqDecision Direction.
Proof. solve_decision. Defined.

Section Merging.
Context {S : Type} {I : Iterator S}.
Variable comparator_ : Comparator.

Record MergingIterator := mkMerging {
  children_ : list (IteratorWrapper S);
  current_ : option nat;
  direction_ : Direction;
}.

(** The constructor, given the children. *)
Definition MergingIterator_new (children : list S) : option MergingIterator :=
  cs ← mapM (fun s => Wrapper_Set Wrapper_new (Some s)) children;
  Some (mkMerging cs None kForward).

(** The scans of [FindSmallest] and [FindLargest] over the children in some
    order; the best child so far with its key. *)
Fixpoint find_best (better : comparison) (cs : list (nat * IteratorWrapper S)) (best : option (nat * bytes))
    : option (option (nat * bytes)) :=
  match cs with
  | [] => Some best
  | (i, child) :: cs =>
      if it_Valid child then
        k ← it_key child;
        let best' :=
          match best with
          | None => Some (i, k)
          | Some (_, bk) =>
              if bool_decide (Compare (Comparator := comparator_) k bk = better) then Some (i, k) else best
          end in
        find_best better cs best'
      else find_best better cs best
  end.

(** [children_[i]] for [i] from 0 to [n_ - 1]. *)
Definition indexed (cs : list (IteratorWrapper S)) : list (nat * IteratorWrapper S) := imap pair cs.

Definition FindSmallest (m : MergingIterator) : option MergingIterator :=
  best ← find_best Lt (indexed (children_ m)) None;
  Some (mkMerging (children_ m) (fst <$> best) (direction_ m)).

Definition FindLargest (m : MergingIterator) : option MergingIterator :=
  best ← find_best Gt (rev (indexed (children_ m))) None;
  Some (mkMerging (children_ m) (fst <$> best) (direction_ m)).

Definition with_direction (d : Direction) (m : MergingIterator) : MergingIterator :=
  mkMerging (children_ m) (current_ m) d.

Definition Merging_SeekToFirst (m : MergingIterator) : option MergingIterator :=
  cs ← mapM it_SeekToFirst (children_ m);
  m ← FindSmallest (mkMerging cs (current_ m) (direction_ m));
  Some (with_direction kForward m).

Definition Merging_SeekToLast (m : MergingIterator) : option MergingIterator :=
  cs ← mapM it_SeekToLast (children_ m);
  m ← FindLargest (mkMerging cs (current_ m) (direction_ m));
  Some (with_direction kReverse m).

Definition Merging_Seek (m : MergingIterator) (target : bytes) : option MergingIterator :=
  cs ← mapM (fun c => it_Seek c target) (children_ m);
  m ← FindSmallest (mkMerging cs (current_ m) (direction_ m));
  Some (with_direction kForward m).

(** [key()] and [value()]: [current_] must not be null. *)
Definition Merging_key (m : MergingIterator) : option bytes :=
  cur ← current_ m; c ← children_ m !! cur; it_key c.
Definition Merging_value (m : MergingIterator) : option bytes :=
  cur ← current_ m; c ← children_ m !! cur; it_value c.

(** The loop over the children that are not [current_]. *)
Definition other_children (f : IteratorWrapper S -> option (IteratorWrapper S)) (cur : nat)
    (cs : list (IteratorWrapper S)) : option (list (IteratorWrapper S)) :=
  mapM (fun '(i, c) => if (i =? cur)%nat then Some c else f c) (indexed cs).

(** Position a child after [key], in [Next]. *)
Definition after_key (key : bytes) (child : IteratorWrapper S) : option (IteratorWrapper S) :=
  child ← it_Seek child key;
  if it_Valid child then
    k ← it_key child;
    if bool_decide (Compare (Comparator := comparator_) key k = Eq) then it_Next child else Some child
  else Some child.

(** Position a child before [key], in [Prev]. *)
Definition before_key (key : bytes) (child : IteratorWrapper S) : option (IteratorWrapper S) :=
  child ← it_Seek child key;
  if it_Valid child then it_Prev child else it_SeekToLast child.

Definition move_current (f : IteratorWrapper S -> option (IteratorWrapper S)) (cur : nat)
    (cs : list (IteratorWrapper S)) : option (list (IteratorWrapper S)) :=
  c ← cs !! cur; c' ← f c; Some (<[cur := c']> cs).

Definition Merging_Next (m : MergingIterator) : option MergingIterator :=
  cur ← current_ m;
  key ← Merging_key m;
  cs ← (if bool_decide (direction_ m = kForward) then Some (children_ m)
        else other_children (after_key key) cur (children_ m));
  cs ← move_current it_Next cur cs;
  FindSmallest (mkMerging cs (Some cur) kForward).

Definition Merging_Prev (m : MergingIterator) : option MergingIterator :=
  cur ← current_ m;
  key ← Merging_key m;
  cs ← (if bool_decide (direction_ m = kReverse) then Some (children_ m)
        else other_children (before_key key) cur (children_ m));
  cs ← move_current it_Prev cur cs;
  FindLargest (mkMerging cs (Some cur) kReverse).

(** The first error of a child. *)
Fixpoint children_status (cs : list (IteratorWrapper S)) : Status :=
  match cs with
  | [] => OK
  | c :: cs => if negb (ok (it_status c)) then it_status c else children_status cs
  end.

#[export] Instance MergingIterator_Iterator : Iterator MergingIterator := {|
  it_Valid := fun m => match current_ m with Some _ => true | None => false end;
  it_SeekToFirst := Merging_SeekToFirst;
  it_SeekToLast := Merging_SeekToLast;
  it_Seek := Merging_Seek;
  it_Next := Merging_Next;
  it_Prev := Merging_Prev;
  it_key := Merging_key;
  it_value := Merging_value;
  it_status := fun m => children_status (children_ m);
|}.
End Merging.

Arguments MergingIterator S : clear implicits.

(** [NewMergingIterator]: the empty iterator, the only child, or a merging
    iterator. *)
Definition NewMergingIterator {S : Type} {I : Iterator S} (children : list S)
    : option (EmptyIterator + (S + MergingIterator S)) :=
  match children with
  | [] => Some (inl NewEmptyIterator)
  | [child] => Some (inr (inl child))
  | _ => (fun m => inr (inr m)) <$> MergingIterator_new children
  end.

(** ** The merge *)

Section Cuts.
Context {C : Comparator} {L : ComparatorLaws C}.

(** [M] is the sorted merge of the lists. *)
Definition is_merge (kvss : list (list kv)) (M : list kv) : Prop :=
  Permutation M (concat kvss) /\ kvs_sorted C M.

(** [p] separates the entries of a child that are among the first [i] of the
    merge from the others. *)
Definition is_cut (M kvs : list kv) (i p : nat) : Prop :=
  (p <= length kvs)%nat /\ forall idx e, kvs !! idx = Some e -> ((idx < p)%nat <-> e ∈ take i M).

Lemma kv_lt_irrefl e : ~ kv_lt C e e.
Proof. unfold kv_lt. by rewrite Compare_refl. Qed.

Lemma kv_lt_trans x y z : kv_lt C x y -> kv_lt C y z -> kv_lt C x z.
Proof. apply Compare_lt_trans. Qed.

Lemma sorted_lookup_lt M i j x y :
  kvs_sorted C M -> M !! i = Some x -> M !! j = Some y -> (i < j)%nat -> kv_lt C x y.
Proof. destruct x, y. apply kvs_sorted_lookup. Qed.

Lemma sorted_NoDup M : kvs_sorted C M -> NoDup M.
Proof.
  induction 1 as [|x M Hs IH Hx]; constructor; [|done].
  intros Hin. apply (proj1 (Forall_forall _ _) Hx) in Hin. by apply kv_lt_irrefl in Hin.
Qed.

(** In a sorted list, being before entry [i] is being smaller. *)
Lemma elem_take_lt M i e x :
  kvs_sorted C M -> M !! i = Some x -> e ∈ M -> (e ∈ take i M <-> kv_lt C e x).
Proof.
  intros Hs Hi [j Hj]%list_elem_of_lookup. split.
  - intros [k Hk]%list_elem_of_lookup. apply lookup_take_Some in Hk as [Hk Hlt].
    by eapply sorted_lookup_lt.
  - intros Hlt. apply list_elem_of_lookup. exists j. apply lookup_take_Some. split; [done|].
    apply Nat.nle_gt. intros Hge. destruct (decide (i = j)) as [->|].
    + simplify_eq. by apply kv_lt_irrefl in Hlt.
    + assert (kv_lt C x e) as H by (eapply (sorted_lookup_lt M i j); try done; lia).
      by apply (kv_lt_irrefl e), (kv_lt_trans _ x).
Qed.

Section Merge.
Context {kvss : list (list kv)} {M : list kv} (HM : is_merge kvss M).

Lemma merge_elem e : e ∈ M <-> exists j kvs, kvss !! j = Some kvs /\ e ∈ kvs.
Proof.
  destruct HM as [HP _]. rewrite HP, list_elem_of_In, in_concat. split.
  - intros (kvs & H1%list_elem_of_In & H2%list_elem_of_In). apply list_elem_of_lookup in H1 as [j Hj]. eauto.
  - intros (j & kvs & H1 & H2). exists kvs. split; apply list_elem_of_In; [|done].
    by eapply list_elem_of_lookup_2.
Qed.

(** An entry belongs to one child only. *)
Lemma merge_unique j j' kvs kvs' e :
  kvss !! j = Some kvs -> kvss !! j' = Some kvs' -> e ∈ kvs -> e ∈ kvs' -> j = j'.
Proof.
  destruct HM as [HP Hs]. apply sorted_NoDup in Hs. rewrite HP in Hs. clear HP.
  revert j j' kvs kvs'. clear HM. revert Hs. induction kvss as [|l kvss' IH]; intros Hs j j' kvs kvs' Hj Hj' He He'; [done|].
  cbn [concat] in Hs. apply NoDup_app in Hs as (_ & Hd & Hs).
  assert (Hin : forall k l', kvss' !! k = Some l' -> e ∈ l' -> e ∈ concat kvss').
  { intros k l' Hk Hel. apply list_elem_of_In, in_concat. exists l'. split; apply list_elem_of_In; [|done].
    by eapply list_elem_of_lookup_2. }
  destruct j as [|j], j' as [|j']; cbn in *; simplify_eq; [done| | |f_equal; by eapply IH].
  - destruct (Hd e He). by eapply Hin.
  - destruct (Hd e He'). by eapply Hin.
Qed.

Lemma child_in_merge j kvs e : kvss !! j = Some kvs -> e ∈ kvs -> e ∈ M.
Proof. intros Hj He. apply merge_elem. eauto. Qed.

(** A cut is where a child goes when it seeks to the key of entry [i]. *)
Lemma is_cut_seek j kvs i x :
  kvss !! j = Some kvs -> kvs_sorted C kvs -> M !! i = Some x ->
  is_cut M kvs i (lower_bound C x.1 kvs).
Proof.
  intros Hj Hs Hi. split; [apply lower_bound_le|]. intros idx [k v] E.
  rewrite (elem_take_lt M i (k, v) x (proj2 HM) Hi).
  - unfold kv_lt. cbn. symmetry. by apply (lower_bound_spec _ _ _ k v).
  - eapply child_in_merge; [done|]. by eapply list_elem_of_lookup_2.
Qed.

Lemma is_cut_unique kvs i p p' :
  is_cut M kvs i p -> is_cut M kvs i p' -> p = p'.
Proof.
  intros [Hp H] [Hp' H']. destruct (Nat.lt_trichotomy p p') as [Hlt|[|Hlt]]; [|done|].
  - destruct (lookup_lt_is_Some_2 kvs p ltac:(lia)) as [e E]. specialize (H _ _ E). specialize (H' _ _ E).
    rewrite <- H in H'. lia.
  - destruct (lookup_lt_is_Some_2 kvs p' ltac:(lia)) as [e E]. specialize (H _ _ E). specialize (H' _ _ E).
    rewrite <- H in H'. lia.
Qed.

(** Children that do not hold entry [i] are cut at the same place before and
    after it; the one that holds it moves by one. *)
Lemma is_cut_other j j' kvs kvs' i p x :
  kvss !! j = Some kvs -> kvss !! j' = Some kvs' -> j <> j' -> M !! i = Some x -> x ∈ kvs' ->
  (is_cut M kvs i p <-> is_cut M kvs (i + 1) p).
Proof.
  intros Hj Hj' Hne Hi Hx. unfold is_cut. rewrite Nat.add_1_r, (take_S_r _ _ _ Hi).
  apply and_iff_compat_l. split; intros H idx e E; rewrite (H idx e E), elem_of_app, list_elem_of_singleton.
  - split; [by left|]. intros [?| ->]; [done|]. exfalso. apply Hne. eapply merge_unique; [done..| |done].
    by eapply list_elem_of_lookup_2.
  - split; [|by left]. intros [?| ->]; [done|]. exfalso. apply Hne. eapply merge_unique; [done..| |done].
    by eapply list_elem_of_lookup_2.
Qed.

Lemma is_cut_here j kvs i p x :
  kvss !! j = Some kvs -> kvs_sorted C kvs -> M !! i = Some x -> kvs !! p = Some x ->
  is_cut M kvs i p /\ is_cut M kvs (i + 1) (p + 1).
Proof.
  intros Hj Hs Hi Hp. pose proof (lookup_lt_Some _ _ _ Hp) as Hlen.
  assert (Hlt : forall idx e, kvs !! idx = Some e -> ((idx < p)%nat <-> kv_lt C e x)).
  { intros idx e E. split; intros H; [by eapply sorted_lookup_lt|].
    apply Nat.nle_gt. intros Hge. destruct (decide (p = idx)) as [->|].
    - simplify_eq. by apply kv_lt_irrefl in H.
    - assert (kv_lt C x e) as H' by (eapply (sorted_lookup_lt kvs p idx); try done; lia).
      by apply (kv_lt_irrefl e), (kv_lt_trans _ x). }
  split; (split; [lia|]); intros idx e E.
  - rewrite (elem_take_lt M i e x (proj2 HM) Hi); [by apply Hlt|].
    eapply child_in_merge; [done|]. by eapply list_elem_of_lookup_2.
  - rewrite (Nat.add_1_r i), (take_S_r _ _ _ Hi), elem_of_app, list_elem_of_singleton.
    rewrite (elem_take_lt M i e x (proj2 HM) Hi) by (eapply child_in_merge; [done|]; by eapply list_elem_of_lookup_2).
    rewrite <- (Hlt idx e E). split.
    + intros H. destruct (decide (idx = p)) as [->|]; [right; congruence|left; lia].
    + intros [H| ->]; [lia|]. destruct (Nat.lt_trichotomy idx p) as [|[->|Hgt]]; [lia|lia|].
      exfalso. apply (kv_lt_irrefl x). by eapply (sorted_lookup_lt kvs p idx).
Qed.

(** At the start every child is cut at 0, at the end at its length. *)
Lemma is_cut_first kvs : is_cut M kvs 0 0.
Proof. split; [lia|]. intros idx e E. rewrite take_0, elem_of_nil. lia. Qed.

Lemma is_cut_last j kvs : kvss !! j = Some kvs -> is_cut M kvs (length M) (length kvs).
Proof.
  intros Hj. split; [done|]. intros idx e E. rewrite firstn_all. split.
  - intros _. eapply child_in_merge; [done|]. by eapply list_elem_of_lookup_2.
  - intros _. by eapply lookup_lt_Some.
Qed.
End Merge.
End Cuts.

(** ** The scans *)

Section Scans.
Context {S : Type} {I : Iterator S} {C : Comparator} {L : ComparatorLaws C}.
Implicit Types w : IteratorWrapper S.

(** A candidate: a valid child with its key. *)
Definition candidate (l : list (nat * IteratorWrapper S)) (j : nat) (k : bytes) : Prop :=
  exists w, (j, w) ∈ l /\ w_valid w = true /\ w_key w = k.

Lemma not_better_trans better a b c :
  better <> Eq -> Compare (Comparator := C) a b <> better -> Compare (Comparator := C) b c <> better ->
  Compare (Comparator := C) a c <> better.
Proof.
  intros Hne. destruct better; [done| |].
  - rewrite !Compare_nlt_le. intros H1 H2. by eapply Compare_le_trans.
  - by apply Compare_le_trans.
Qed.

(** One step of the scan: the better of the best so far and a new candidate. *)
Lemma best_step better (best : option (nat * bytes)) i k :
  better <> Eq ->
  exists j0 k0,
    match best with
    | None => Some (i, k)
    | Some (_, bk) => if bool_decide (Compare (Comparator := C) k bk = better) then Some (i, k) else best
    end = Some (j0, k0) /\ ((j0 = i /\ k0 = k) \/ best = Some (j0, k0)) /\
    Compare (Comparator := C) k k0 <> better /\
    forall bj bk, best = Some (bj, bk) -> Compare (Comparator := C) bk k0 <> better.
Proof.
  intros Hne. destruct best as [[bj bk]|].
  - case_bool_decide as H.
    + exists i, k. split; [done|]. split; [by left|]. split; [by rewrite Compare_refl|].
      intros ? ? [= <- <-]. rewrite Compare_antisym, H. by destruct better.
    + exists bj, bk. split; [done|]. split; [by right|]. split; [done|].
      intros ? ? [= <- <-]. by rewrite Compare_refl.
  - exists i, k. split; [done|]. split; [by left|]. split; [by rewrite Compare_refl|done].
Qed.

Lemma find_best_spec better l best :
  better <> Eq ->
  exists res, find_best C better l best = Some res /\
    match res with
    | None => best = None /\ forall j k, ~ candidate l j k
    | Some (j, k) => (best = Some (j, k) \/ candidate l j k) /\
        forall j' k', best = Some (j', k') \/ candidate l j' k' -> Compare (Comparator := C) k' k <> better
    end.
Proof.
  intros Hne. revert best. induction l as [|[i w] l IH]; intros best; cbn [find_best].
  { exists best. split; [done|]. destruct best as [[j k]|].
    - split; [by left|]. intros j' k' [[= -> ->]|(w & Hw%elem_of_nil & _)]; [|done].
      by rewrite Compare_refl.
    - split; [done|]. intros j k (w & Hw%elem_of_nil & _). done. }
  assert (Hcons : forall j k, candidate ((i, w) :: l) j k <->
    (w_valid w = true /\ w_key w = k /\ j = i) \/ candidate l j k).
  { intros j k. split.
    - intros (w' & [[= -> ->]|Hin]%elem_of_cons & Hv & Hk); [by left|right; by exists w'].
    - intros [(Hv & Hk & ->)|(w' & Hin & Hv & Hk)]; [exists w|exists w'];
        (split; [by constructor|done]). }
  cbn [it_Valid it_key Wrapper_Iterator]. destruct (w_valid w) eqn:Ev.
  - cbn [mbind option_bind]. destruct (best_step better best i (w_key w) Hne) as (j0 & k0 & E & Hor & Hk & Hb).
    rewrite E. destruct (IH (Some (j0, k0))) as (res & Er & Hres). exists res. split; [done|].
    destruct res as [[j r]|]; [|by destruct Hres]. destruct Hres as [Hin Hbest].
    assert (H0 : Compare (Comparator := C) k0 r <> better) by (apply (Hbest j0); by left).
    split.
    + destruct Hin as [[= <- <-]|Hin]; [|right; apply Hcons; by right].
      destruct Hor as [[-> ->]| ->]; [right; apply Hcons; by left|by left].
    + intros j' k' [Hb'|[(_ & <- & ->)|Hc]%Hcons].
      * eapply not_better_trans; [done| |exact H0]. by eapply Hb.
      * by eapply not_better_trans.
      * apply (Hbest j'). by right.
  - destruct (IH best) as (res & Er & Hres). exists res. split; [done|].
    assert (Hsame : forall j k, candidate ((i, w) :: l) j k <-> candidate l j k).
    { intros j k. rewrite Hcons. split; [intros [(Hv & _)|Hc]; [congruence|done]|by right]. }
    destruct res as [[j r]|].
    + rewrite Hsame. destruct Hres as [H1 H2]. split; [done|]. intros j' k'. rewrite Hsame. apply H2.
    + destruct Hres as [H1 H2]. split; [done|]. intros j k. by rewrite Hsame.
Qed.

Lemma candidate_indexed cs j k :
  candidate (indexed cs) j k <-> exists w, cs !! j = Some w /\ w_valid w = true /\ w_key w = k.
Proof.
  unfold candidate, indexed. split; intros (w & Hw & H); exists w; (split; [|done]).
  - apply list_elem_of_lookup in Hw as [n Hn]. rewrite list_lookup_imap in Hn.
    destruct (cs !! n) eqn:E; [|done]. cbn in Hn. by simplify_eq.
  - apply list_elem_of_lookup. exists j. by rewrite list_lookup_imap, Hw.
Qed.

Lemma candidate_rev l j k : candidate (rev l) j k <-> candidate l j k.
Proof.
  unfold candidate. split; intros (w & Hw & H); exists w; (split; [|done]);
    rewrite list_elem_of_In in *; [by apply in_rev|by apply -> in_rev].
Qed.

(** Applying a partial function to every element. *)
Lemma mapM_all {A B : Type} (f : A -> option B) (l : list A) (R : nat -> B -> Prop) :
  (forall j x, l !! j = Some x -> exists y, f x = Some y /\ R j y) ->
  exists k, mapM f l = Some k /\ length k = length l /\ forall j y, k !! j = Some y -> R j y.
Proof.
  revert R. induction l as [|x l IH]; intros R H; cbn [mapM].
  { exists []. by repeat split. }
  destruct (H 0%nat x eq_refl) as (y & Ey & Hy). rewrite Ey. cbn.
  destruct (IH (fun j => R (Datatypes.S j))) as (k & Ek & Hl & Hk); [intros j; apply (H (Datatypes.S j))|].
  rewrite Ek. cbn. exists (y :: k). split; [done|]. split; [cbn; by rewrite Hl|].
  intros [|j] z; cbn; [by intros [= <-]|apply Hk].
Qed.
End Scans.

(** ** The laws *)

Section MergingLaws.
Context {T : Targets} {S : Type} {I : Iterator S} {C : Comparator} {L : ComparatorLaws C}.
Context {kvss : list (list kv)} {M : list kv} (HM : is_merge (C := C) kvss M).
Context {P : nat -> S -> nat -> Prop}.
Context (HP : forall j kvs, kvss !! j = Some kvs -> IteratorLaws I C kvs (P j)).
Context (HS : forall j kvs, kvss !! j = Some kvs -> kvs_sorted C kvs) (HT : forall x, x ∈ M -> is_target x.1).

(** Child [j] stands at entry [p] of its list. *)
Definition child_pos (j : nat) (kvs : list kv) (w : IteratorWrapper S) (p : nat) : Prop :=
  wrapper_pos kvs (P j) w p.

(** The last entry before the cut, or invalid. *)
Definition is_rcut (kvs : list kv) (i p : nat) : Prop :=
  exists c, is_cut M kvs i c /\ p = if (c =? 0)%nat then length kvs else (c - 1)%nat.

Definition dir_cut (d : Direction) (kvs : list kv) (i p : nat) : Prop :=
  match d with kForward => is_cut M kvs i p | kReverse => is_rcut kvs i p end.

(** All children, or all but one, are where [Q] says. *)
Definition children_at (Q : nat -> list kv -> nat -> Prop) (cs : list (IteratorWrapper S)) : Prop :=
  length cs = length kvss /\
  forall j w kvs, cs !! j = Some w -> kvss !! j = Some kvs -> exists p, child_pos j kvs w p /\ Q j kvs p.

Definition others (cur : nat) (Q : list kv -> nat -> Prop) : nat -> list kv -> nat -> Prop :=
  fun j kvs p => j <> cur -> Q kvs p.

(** Child [j] holds entry [i] of the merge at its entry [p]. *)
Definition holds (j i p : nat) : Prop :=
  exists kvs x, kvss !! j = Some kvs /\ M !! i = Some x /\ kvs !! p = Some x.

Definition merging_pos (m : MergingIterator S) (i : nat) : Prop :=
  match current_ m with
  | None => i = length M /\ children_at (fun _ _ _ => True) (children_ m)
  | Some j =>
      exists p, holds j i p /\ children_at (others j (fun kvs => dir_cut (direction_ m) kvs i)) (children_ m) /\
        forall w kvs, children_ m !! j = Some w -> kvss !! j = Some kvs -> child_pos j kvs w p
  end.

Lemma children_at_weaken Q Q' cs :
  (forall j kvs p, kvss !! j = Some kvs -> Q j kvs p -> Q' j kvs p) -> children_at Q cs -> children_at Q' cs.
Proof.
  intros H [Hl Hat]. split; [done|]. intros j w kvs Hw Hj.
  destruct (Hat j w kvs Hw Hj) as (p & Hp & HQ). eauto.
Qed.

Lemma children_at_lookup Q cs j kvs :
  children_at Q cs -> kvss !! j = Some kvs -> exists w p, cs !! j = Some w /\ child_pos j kvs w p /\ Q j kvs p.
Proof.
  intros [Hl Hat] Hj. destruct (lookup_lt_is_Some_2 cs j) as [w Hw].
  { rewrite Hl. by eapply lookup_lt_Some. }
  destruct (Hat j w kvs Hw Hj) as (p & Hp & HQ). eauto.
Qed.

Lemma children_at_child Q cs j w :
  children_at Q cs -> cs !! j = Some w -> exists kvs p, kvss !! j = Some kvs /\ child_pos j kvs w p /\ Q j kvs p.
Proof.
  intros [Hl Hat] Hw. destruct (lookup_lt_is_Some_2 kvss j) as [kvs Hj].
  { rewrite <- Hl. by eapply lookup_lt_Some. }
  destruct (Hat j w kvs Hw Hj) as (p & Hp & HQ). eauto.
Qed.

(** A valid child at [p] is a candidate with the key of its entry. *)
Lemma child_candidate j kvs w p :
  child_pos j kvs w p -> w_valid w = true <-> exists e, kvs !! p = Some e /\ w_key w = e.1.
Proof.
  intros (s & _ & _ & Hv & Hk). rewrite Hv, Nat.ltb_lt. split.
  - intros Hp. destruct (lookup_lt_is_Some_2 kvs p Hp) as [[k v] E]. exists (k, v). split; [done|]. by eapply Hk.
  - intros (e & E & _). by eapply lookup_lt_Some.
Qed.

Lemma child_valid j kvs w p e :
  child_pos j kvs w p -> kvs !! p = Some e -> w_valid w = true /\ w_key w = e.1.
Proof.
  intros (s & _ & _ & Hv & Hk) E. destruct e as [k v]. split; [|by eapply Hk].
  rewrite Hv. apply Nat.ltb_lt. by eapply lookup_lt_Some.
Qed.

(** Entries with equal keys are the same entry. *)
Lemma merge_entry_eq e x i :
  e ∈ M -> M !! i = Some x -> ~ kv_lt C e x -> ~ kv_lt C x e -> e = x.
Proof.
  intros [j Hj]%list_elem_of_lookup Hi H1 H2. destruct (Nat.lt_trichotomy j i) as [|[->|]].
  - destruct H1. by apply (sorted_lookup_lt M j i); [apply HM|..].
  - congruence.
  - destruct H2. by apply (sorted_lookup_lt M i j); [apply HM|..].
Qed.

Lemma child_entry_le j kvs p q e x :
  kvss !! j = Some kvs -> kvs !! p = Some e -> kvs !! q = Some x -> (p <= q)%nat -> ~ kv_lt C x e.
Proof.
  intros Hj Hp Hq Hle Hlt. destruct (decide (p = q)) as [->|]; [simplify_eq; by apply kv_lt_irrefl in Hlt|].
  assert (kv_lt C e x) as H by (eapply (sorted_lookup_lt kvs p q); try done; [by eapply HS|lia]).
  by apply (kv_lt_irrefl e), (kv_lt_trans _ x).
Qed.

Lemma FindSmallest_spec cs cur d i :
  (i <= length M)%nat -> children_at (fun _ kvs p => is_cut M kvs i p) cs ->
  exists cur', FindSmallest C (mkMerging cs cur d) = Some (mkMerging cs cur' d) /\
    match cur' with
    | None => i = length M
    | Some j => exists p, holds j i p
    end.
Proof.
  intros Hi Hat. unfold FindSmallest. cbn [children_ direction_].
  destruct (find_best_spec Lt (indexed cs) None ltac:(done)) as (res & Er & Hres). rewrite Er. cbn.
  exists (fst <$> res). split; [done|].
  (* entry [i] is held by a child, whose candidate is at or before it *)
  assert (Hx : forall x, M !! i = Some x -> exists j kvs idx p e, kvss !! j = Some kvs /\ kvs !! idx = Some x /\
    (p <= idx)%nat /\ kvs !! p = Some e /\ candidate (indexed cs) j e.1).
  { intros x Ex. destruct (proj1 (merge_elem HM x)) as (j & kvs & Hj & Hin); [by eapply list_elem_of_lookup_2|].
    apply list_elem_of_lookup in Hin as [idx Hidx].
    destruct (children_at_lookup _ _ _ _ Hat Hj) as (w & p & Hw & Hp & [_ Hcut]).
    assert (Hpi : (p <= idx)%nat).
    { apply Nat.nlt_ge. intros Hlt. apply (Hcut _ _ Hidx) in Hlt.
      apply (elem_take_lt M i x x (proj2 HM) Ex) in Hlt; [by apply kv_lt_irrefl in Hlt|].
      by eapply list_elem_of_lookup_2. }
    destruct (lookup_lt_is_Some_2 kvs p) as [e He]; [apply lookup_lt_Some in Hidx; lia|].
    exists j, kvs, idx, p, e. repeat split; try done. apply candidate_indexed. exists w. split; [done|].
    by apply (child_valid _ _ _ _ _ Hp). }
  destruct res as [[j k]|]; cbn.
  - destruct Hres as [[Hn|Hc] Hbest]; [done|]. apply candidate_indexed in Hc as (w & Hw & Hv & Hk).
    destruct (children_at_child _ _ _ _ Hat Hw) as (kvs & p & Hj & Hp & Hcut).
    apply (child_candidate _ _ _ _ Hp) in Hv as (e & He & Hke).
    assert (HeM : e ∈ M) by (eapply (child_in_merge HM j kvs); [done|by eapply list_elem_of_lookup_2]).
    assert (Hnot : e ∉ take i M) by (rewrite <- (proj2 Hcut p e He); lia).
    assert (Hlt : (i < length M)%nat).
    { apply Nat.nle_gt. intros Hge. apply Hnot. by rewrite firstn_all2. }
    destruct (lookup_lt_is_Some_2 M i Hlt) as [x Ex]. exists p. exists kvs, x. split; [done|]. split; [done|].
    destruct (Hx x Ex) as (j0 & kvs0 & idx & p0 & e0 & Hj0 & Hidx & Hle & He0 & Hc0).
    rewrite He. f_equal. apply (merge_entry_eq e x i); [done|done| |].
    + intros H. apply Hnot. by apply (elem_take_lt M i e x (proj2 HM) Ex).
    + intros H. apply (Hbest j0 e0.1); [by right|]. rewrite <- Hk, Hke.
      pose proof (child_entry_le _ _ _ _ _ _ Hj0 He0 Hidx Hle) as Hn.
      unfold kv_lt in H, Hn. rewrite Compare_nlt_le in Hn. by eapply Compare_le_lt_trans.
  - destruct Hres as [_ Hno]. destruct (Nat.lt_ge_cases i (length M)) as [Hlt|]; [|lia].
    destruct (lookup_lt_is_Some_2 M i Hlt) as [x Ex].
    destruct (Hx x Ex) as (j0 & kvs0 & idx & p0 & e0 & _ & _ & _ & _ & Hc0). by destruct (Hno _ _ Hc0).
Qed.

Lemma FindLargest_spec cs cur d i :
  (i <= length M)%nat -> children_at (fun _ kvs p => is_rcut kvs i p) cs ->
  exists cur', FindLargest C (mkMerging cs cur d) = Some (mkMerging cs cur' d) /\
    match cur' with
    | None => i = 0%nat
    | Some j => (0 < i)%nat /\ exists p, holds j (i - 1) p
    end.
Proof.
  intros Hi Hat. unfold FindLargest. cbn [children_ direction_].
  destruct (find_best_spec Gt (rev (indexed cs)) None ltac:(done)) as (res & Er & Hres). rewrite Er. cbn.
  exists (fst <$> res). split; [done|].
  (* entry [i - 1] is held by a child, whose candidate is at or after it *)
  assert (Hx : forall x, (0 < i)%nat -> M !! (i - 1)%nat = Some x ->
    exists j kvs idx p e, kvss !! j = Some kvs /\ kvs !! idx = Some x /\
    (idx <= p)%nat /\ kvs !! p = Some e /\ candidate (rev (indexed cs)) j e.1).
  { intros x H0 Ex. destruct (proj1 (merge_elem HM x)) as (j & kvs & Hj & Hin); [by eapply list_elem_of_lookup_2|].
    apply list_elem_of_lookup in Hin as [idx Hidx].
    destruct (children_at_lookup _ _ _ _ Hat Hj) as (w & p & Hw & Hp & c & [Hcl Hcut] & Ep).
    assert (Hci : (idx < c)%nat).
    { apply (Hcut _ _ Hidx). apply list_elem_of_lookup. exists (i - 1)%nat. apply lookup_take_Some.
      split; [done|lia]. }
    destruct (Nat.eqb_spec c 0); [lia|]. subst p.
    destruct (lookup_lt_is_Some_2 kvs (c - 1)) as [e He]; [lia|].
    exists j, kvs, idx, (c - 1)%nat, e. split; [done|]. split; [done|]. split; [lia|]. split; [done|].
    apply candidate_rev, candidate_indexed. exists w. split; [done|]. by apply (child_valid _ _ _ _ _ Hp). }
  destruct res as [[j k]|]; cbn.
  - destruct Hres as [[Hn|Hc] Hbest]; [done|]. apply candidate_rev, candidate_indexed in Hc as (w & Hw & Hv & Hk).
    destruct (children_at_child _ _ _ _ Hat Hw) as (kvs & p & Hj & Hp & c & [Hcl Hcut] & Ep).
    apply (child_candidate _ _ _ _ Hp) in Hv as (e & He & Hke).
    pose proof (lookup_lt_Some _ _ _ He) as Hpl. destruct (Nat.eqb_spec c 0) as [|Hc0]; [lia|].
    assert (He1 : e ∈ take i M) by (apply (Hcut p e He); lia).
    assert (H0 : (0 < i)%nat) by (destruct i; [by apply elem_of_nil in He1|lia]).
    split; [done|].
    assert (HeM : e ∈ M) by (by eapply elem_of_take in He1 as (n & Hn & _); eapply list_elem_of_lookup_2).
    destruct (lookup_lt_is_Some_2 M (i - 1)%nat ltac:(lia)) as [x Ex]. exists p, kvs, x.
    split; [done|]. split; [done|].
    destruct (Hx x H0 Ex) as (j0 & kvs0 & idx & p0 & e0 & Hj0 & Hidx & Hle & He0 & Hc0').
    rewrite He. f_equal. apply (merge_entry_eq e x (i - 1)); [done|done| |].
    + intros H. apply (Hbest j0 e0.1); [by right|]. rewrite <- Hk, Hke.
      pose proof (child_entry_le _ _ _ _ _ _ Hj0 Hidx He0 Hle) as Hn.
      unfold kv_lt in H, Hn. rewrite Compare_nlt_le in Hn. rewrite Compare_gt_lt. by eapply Compare_lt_le_trans.
    + intros H. apply elem_of_take in He1 as (n & Hn & Hni).
      destruct (decide (n = (i - 1)%nat)) as [->|].
      * simplify_eq. by apply kv_lt_irrefl in H.
      * assert (kv_lt C e x) as H' by (apply (sorted_lookup_lt M n (i - 1)); [apply HM|done|done|lia]).
        by apply (kv_lt_irrefl e), (kv_lt_trans _ x).
  - destruct Hres as [_ Hno]. destruct i as [|i]; [done|]. exfalso.
    destruct (lookup_lt_is_Some_2 M (Datatypes.S i - 1)%nat ltac:(lia)) as [x Ex].
    destruct (Hx x ltac:(lia) Ex) as (j0 & kvs0 & idx & p0 & e0 & _ & _ & _ & _ & Hc0). by destruct (Hno _ _ Hc0).
Qed.

Lemma holds_is_cut j i p kvs : holds j i p -> kvss !! j = Some kvs -> is_cut M kvs i p /\ is_cut M kvs (i + 1) (p + 1).
Proof.
  intros (kvs' & x & Hj & Hi & Hp) Hj'. simplify_eq. eapply (is_cut_here HM); try done. by eapply HS.
Qed.

(** The scans do not look at the direction. *)
Lemma FindSmallest_direction cs cur d d' m :
  FindSmallest C (mkMerging cs cur d') = Some m ->
  FindSmallest C (mkMerging cs cur d) = Some (with_direction d m).
Proof. unfold FindSmallest. cbn. by destruct (find_best _ _ _ _); cbn; [intros [= <-]|]. Qed.

Lemma FindLargest_direction cs cur d d' m :
  FindLargest C (mkMerging cs cur d') = Some m ->
  FindLargest C (mkMerging cs cur d) = Some (with_direction d m).
Proof. unfold FindLargest. cbn. by destruct (find_best _ _ _ _); cbn; [intros [= <-]|]. Qed.

(** A state whose children are all cut at [i], after [FindSmallest]. *)
Lemma after_smallest cs cur i :
  (i <= length M)%nat -> children_at (fun _ kvs p => is_cut M kvs i p) cs ->
  exists m, FindSmallest C (mkMerging cs cur kForward) = Some m /\ direction_ m = kForward /\ merging_pos m i.
Proof.
  intros Hi Hat. destruct (FindSmallest_spec cs cur kForward i Hi Hat) as (cur' & E & Hcur).
  eexists. split; [exact E|]. split; [done|]. unfold merging_pos. cbn. destruct cur' as [j|].
  - destruct Hcur as (p & Hh). exists p. split; [done|]. split.
    + eapply children_at_weaken; [|exact Hat]. by intros j' kvs p' _ H _.
    + intros w kvs Hw Hj. destruct (proj2 Hat _ _ _ Hw Hj) as (p' & Hp' & Hcut).
      destruct (holds_is_cut _ _ _ _ Hh Hj) as [Hcut' _].
      by rewrite (is_cut_unique (M := M) kvs i p p').
  - split; [done|]. by eapply children_at_weaken.
Qed.

Lemma after_largest cs cur i :
  (i <= length M)%nat -> children_at (fun _ kvs p => is_rcut kvs i p) cs ->
  exists m, FindLargest C (mkMerging cs cur kReverse) = Some m /\ direction_ m = kReverse /\
    merging_pos m (if (i =? 0)%nat then length M else (i - 1)%nat).
Proof.
  intros Hi Hat. destruct (FindLargest_spec cs cur kReverse i Hi Hat) as (cur' & E & Hcur).
  eexists. split; [exact E|]. split; [done|]. unfold merging_pos. cbn. destruct cur' as [j|].
  - destruct Hcur as (H0 & p & Hh). destruct (Nat.eqb_spec i 0); [lia|]. exists p. split; [done|].
    destruct Hh as (kvs0 & x & Hj0 & Hx & Hp0).
    split.
    + eapply children_at_weaken; [|exact Hat]. intros j' kvs p' Hj' (c & Hc & ->) Hne.
      exists c. split; [|done]. replace i with (i - 1 + 1)%nat in Hc by lia.
      eapply (is_cut_other HM j' j); [..|exact Hc]; try done. by eapply list_elem_of_lookup_2.
    + intros w kvs Hw Hj. simplify_eq. destruct (proj2 Hat _ _ _ Hw Hj0) as (p' & Hp' & c & Hc & ->).
      destruct (is_cut_here HM j kvs0 (i - 1) p x Hj0 (HS _ _ Hj0) Hx Hp0) as [_ Hcut].
      replace (i - 1 + 1)%nat with i in Hcut by lia.
      rewrite (is_cut_unique (M := M) kvs0 i c (p + 1) Hc Hcut) in Hp'.
      destruct (Nat.eqb_spec (p + 1) 0); [lia|]. by replace (p + 1 - 1)%nat with p in Hp' by lia.
  - subst i. cbn. split; [done|]. by eapply children_at_weaken.
Qed.

(** *** Moving the children *)

Lemma move_all f (Q Q' : nat -> list kv -> nat -> Prop) cs :
  (forall j w kvs p, kvss !! j = Some kvs -> child_pos j kvs w p -> Q j kvs p ->
     exists w', f w = Some w' /\ exists p', child_pos j kvs w' p' /\ Q' j kvs p') ->
  children_at Q cs -> exists cs', mapM f cs = Some cs' /\ children_at Q' cs'.
Proof.
  intros Hf Hat.
  destruct (mapM_all f cs (fun j w => forall kvs, kvss !! j = Some kvs -> exists p, child_pos j kvs w p /\ Q' j kvs p))
    as (cs' & E & Hl & H).
  { intros j w Hw. destruct (children_at_child _ _ _ _ Hat Hw) as (kvs & p & Hj & Hp & HQ).
    destruct (Hf _ _ _ _ Hj Hp HQ) as (w' & Ew & Hw'). exists w'. split; [done|]. intros kvs' Hj'. by simplify_eq. }
  exists cs'. split; [done|]. split; [rewrite Hl; apply Hat|]. intros j w kvs Hw Hj. by eapply H.
Qed.

Lemma move_others f cur (Q Q' : nat -> list kv -> nat -> Prop) cs :
  (forall j w kvs p, j <> cur -> kvss !! j = Some kvs -> child_pos j kvs w p -> Q j kvs p ->
     exists w', f w = Some w' /\ exists p', child_pos j kvs w' p' /\ Q' j kvs p') ->
  (forall kvs p, kvss !! cur = Some kvs -> Q cur kvs p -> Q' cur kvs p) ->
  children_at Q cs -> exists cs', other_children f cur cs = Some cs' /\ cs' !! cur = cs !! cur /\ children_at Q' cs'.
Proof.
  intros Hf Hcur Hat. unfold other_children.
  destruct (mapM_all (fun '(i, c) => if (i =? cur)%nat then Some c else f c) (indexed cs)
    (fun j w => (j = cur -> cs !! cur = Some w) /\
       forall kvs, kvss !! j = Some kvs -> exists p, child_pos j kvs w p /\ Q' j kvs p))
    as (cs' & E & Hl & H).
  { intros j [j' w] Hw. unfold indexed in Hw. rewrite list_lookup_imap in Hw.
    destruct (cs !! j) as [w0|] eqn:Hw0; [|done]. cbn in Hw. simplify_eq.
    destruct (children_at_child _ _ _ _ Hat Hw0) as (kvs & p & Hj & Hp & HQ).
    destruct (Nat.eqb_spec j' cur) as [->|Hne].
    - exists w. split; [done|]. split; [done|]. intros kvs' Hj'. simplify_eq. eauto.
    - destruct (Hf _ _ _ _ Hne Hj Hp HQ) as (w' & Ew & Hw'). exists w'. split; [done|].
      split; [done|]. intros kvs' Hj'. by simplify_eq. }
  exists cs'. unfold indexed in Hl. rewrite length_imap in Hl. split; [done|]. split.
  - destruct (cs' !! cur) as [w|] eqn:Ew; [symmetry; by apply (H _ _ Ew)|].
    apply lookup_ge_None in Ew. symmetry. apply lookup_ge_None. lia.
  - split; [rewrite Hl; apply Hat|]. intros j w kvs Hw Hj. by eapply H.
Qed.

Lemma move_cur f cur (Q Q' : nat -> list kv -> nat -> Prop) cs w :
  cs !! cur = Some w ->
  (forall kvs, kvss !! cur = Some kvs -> exists w', f w = Some w' /\ exists p', child_pos cur kvs w' p' /\ Q' cur kvs p') ->
  (forall j kvs p, j <> cur -> kvss !! j = Some kvs -> Q j kvs p -> Q' j kvs p) ->
  children_at Q cs -> exists cs', move_current f cur cs = Some cs' /\ children_at Q' cs'.
Proof.
  intros Hw Hf HQ Hat. destruct (children_at_child _ _ _ _ Hat Hw) as (kvs & p & Hj & _ & _).
  destruct (Hf kvs Hj) as (w' & Ew & p' & Hp' & HQ'). unfold move_current. rewrite Hw. cbn. rewrite Ew. cbn.
  eexists. split; [done|]. split; [rewrite length_insert; apply Hat|].
  intros j w1 kvs1 Hw1 Hj1. destruct (decide (j = cur)) as [->|Hne].
  - rewrite list_lookup_insert_eq in Hw1 by (by eapply lookup_lt_Some). simplify_eq. eauto.
  - rewrite list_lookup_insert_ne in Hw1 by done. destruct (proj2 Hat _ _ _ Hw1 Hj1) as (p1 & ? & ?).
    exists p1. split; [done|]. by apply HQ.
Qed.

#[local] Instance child_laws j kvs (Hj : kvss !! j = Some kvs) :
  IteratorLaws Wrapper_Iterator C kvs (wrapper_pos kvs (P j)).
Proof. pose proof (HP _ _ Hj). apply Wrapper_laws. Qed.

(** Seeking an other child to the key of entry [i]. *)
Lemma seek_child j kvs w p i x :
  kvss !! j = Some kvs -> child_pos j kvs w p -> M !! i = Some x ->
  exists w', it_Seek w x.1 = Some w' /\ exists p', child_pos j kvs w' p' /\ is_cut M kvs i p'.
Proof.
  intros Hj Hp Hx. pose proof (child_laws j kvs Hj) as Hlaws.
  destruct (pos_seek w p x.1 Hp (HT x ltac:(by eapply list_elem_of_lookup_2))) as (w' & E & Hp'). exists w'. split; [done|].
  exists (lower_bound C x.1 kvs). split; [done|]. eapply (is_cut_seek HM); try done. by eapply HS.
Qed.

(** An other child's key is never that of the current entry. *)
Lemma other_key_ne j cur kvs i p x q e :
  kvss !! j = Some kvs -> M !! i = Some x -> holds cur i p -> j <> cur -> kvs !! q = Some e ->
  Compare (Comparator := C) x.1 e.1 <> Eq.
Proof.
  intros Hj Hx (kvs' & x' & Hj' & Hx' & Hp) Hne He Heq. simplify_eq.
  pose proof (list_elem_of_lookup_2 _ _ _ He) as Hin.
  assert (e = x) as ->.
  { apply (merge_entry_eq e x i); [by apply (child_in_merge HM j kvs)|done| |]; unfold kv_lt; intros H.
    - rewrite Compare_antisym, Heq in H. done.
    - congruence. }
  apply Hne. eapply (merge_unique HM); [done|done|exact Hin|by eapply list_elem_of_lookup_2].
Qed.

Lemma after_key_spec j cur kvs w p p0 i x :
  kvss !! j = Some kvs -> child_pos j kvs w p -> M !! i = Some x -> holds cur i p0 -> j <> cur ->
  exists w', after_key C x.1 w = Some w' /\ exists p', child_pos j kvs w' p' /\ is_cut M kvs i p'.
Proof.
  intros Hj Hp Hx Hh Hne. destruct (seek_child _ _ _ _ _ _ Hj Hp Hx) as (w' & E & q & Hq & Hcut).
  exists w'. split; [|by exists q]. unfold after_key. cbn [it_Valid it_key it_Seek Wrapper_Iterator] in *.
  rewrite E. cbn. destruct (w_valid w') eqn:Ev; [|done]. cbn.
  apply (child_candidate _ _ _ _ Hq) in Ev as (e & He & ->).
  rewrite bool_decide_false; [done|]. by eapply other_key_ne.
Qed.

Lemma before_key_spec j kvs w p i x :
  kvss !! j = Some kvs -> child_pos j kvs w p -> M !! i = Some x ->
  exists w', before_key x.1 w = Some w' /\ exists p', child_pos j kvs w' p' /\ is_rcut kvs i p'.
Proof.
  intros Hj Hp Hx. pose proof (child_laws j kvs Hj) as Hlaws.
  destruct (seek_child _ _ _ _ _ _ Hj Hp Hx) as (w' & E & c & Hc & Hcut). unfold before_key.
  rewrite E. cbn [mbind option_bind]. rewrite (pos_valid _ _ Hc). destruct (Nat.ltb_spec c (length kvs)) as [Hl|Hl].
  - destruct (pos_prev _ _ Hc Hl) as (w2 & E2 & Hp2). exists w2. split; [done|]. eexists. split; [exact Hp2|].
    by exists c.
  - destruct (pos_last _ _ Hc) as (w2 & E2 & Hp2). exists w2. split; [done|]. eexists. split; [exact Hp2|].
    exists c. split; [done|]. pose proof (proj1 Hcut). destruct (Nat.eqb_spec c 0); lia.
Qed.

(** *** The merging iterator *)

Lemma merging_children m i :
  merging_pos m i -> children_at (fun _ _ _ => True) (children_ m).
Proof.
  unfold merging_pos. destruct (current_ m) as [j|]; [|by intros [_ H]].
  intros (p & _ & H & _). by eapply children_at_weaken.
Qed.

Lemma merging_length : length M = length (concat kvss).
Proof. by rewrite (proj1 HM). Qed.

Lemma merging_current m i :
  merging_pos m i -> (i < length M)%nat ->
  exists j p x w kvs, current_ m = Some j /\ M !! i = Some x /\ kvss !! j = Some kvs /\ kvs !! p = Some x /\
    holds j i p /\ children_ m !! j = Some w /\ child_pos j kvs w p /\
    children_at (others j (fun kvs => dir_cut (direction_ m) kvs i)) (children_ m).
Proof.
  unfold merging_pos. intros Hm Hi. destruct (current_ m) as [j|]; [|lia].
  destruct Hm as (p & Hh & Hat & Hcur). pose proof Hh as (kvs & x & Hj & Hx & Hp).
  destruct (children_at_lookup _ _ _ _ Hat Hj) as (w & p' & Hw & _ & _).
  exists j, p, x, w, kvs. eauto 10.
Qed.

Lemma merging_key_value m i x :
  merging_pos m i -> M !! i = Some x ->
  Merging_key m = Some x.1 /\ Merging_value m = Some x.2.
Proof.
  intros Hm Hx. destruct (merging_current m i Hm) as (j & p & x' & w & kvs & Ec & Hx' & Hj & Hp & _ & Hw & Hc & _).
  { by eapply lookup_lt_Some. }
  simplify_eq. pose proof (child_laws j kvs Hj) as Hlaws. destruct x as [k v].
  unfold Merging_key, Merging_value. rewrite Ec. cbn [mbind option_bind]. rewrite Hw. cbn [mbind option_bind].
  split; [exact (pos_key _ _ _ _ Hc Hp)|exact (pos_value _ _ _ _ Hc Hp)].
Qed.

Lemma children_status_ok Q cs : children_at Q cs -> children_status cs = OK.
Proof.
  intros H. assert (Hok : forall w, w ∈ cs -> it_status w = OK).
  { intros w [j Hw]%list_elem_of_lookup. destruct (children_at_child Q cs j w H Hw) as (kvs & p & Hj & Hp & _).
    pose proof (child_laws j kvs Hj) as Hlaws. exact (pos_status _ _ Hp). }
  clear H. induction cs as [|c cs IH]; [done|]. cbn [children_status].
  rewrite (Hok c) by constructor. cbn. apply IH. intros w Hw. apply Hok. by constructor.
Qed.

(** Moving every child with [f], then scanning forward or in reverse. *)
Lemma seek_forward f m i k :
  merging_pos m i -> (k <= length M)%nat ->
  (forall j w kvs p, kvss !! j = Some kvs -> child_pos j kvs w p ->
     exists w', f w = Some w' /\ exists p', child_pos j kvs w' p' /\ is_cut M kvs k p') ->
  exists m', (cs ← mapM f (children_ m); m ← FindSmallest C (mkMerging cs (current_ m) (direction_ m));
              Some (with_direction kForward m)) = Some m' /\ merging_pos m' k.
Proof.
  intros Hm%merging_children Hk Hf.
  destruct (move_all f (fun _ _ _ => True) (fun _ kvs p => is_cut M kvs k p) (children_ m)) as (cs & E & Hcs);
    [by eauto|done|]. setoid_rewrite E. cbn [mbind option_bind].
  destruct (after_smallest cs (current_ m) k Hk Hcs) as (m' & Ef & Hd & Hm').
  apply FindSmallest_direction with (d := direction_ m) in Ef. rewrite Ef. cbn.
  eexists. split; [done|]. by destruct m'; cbn in *; subst.
Qed.

Lemma seek_reverse f m i k :
  merging_pos m i -> (k <= length M)%nat ->
  (forall j w kvs p, kvss !! j = Some kvs -> child_pos j kvs w p ->
     exists w', f w = Some w' /\ exists p', child_pos j kvs w' p' /\ is_rcut kvs k p') ->
  exists m', (cs ← mapM f (children_ m); m ← FindLargest C (mkMerging cs (current_ m) (direction_ m));
              Some (with_direction kReverse m)) = Some m' /\
    merging_pos m' (if (k =? 0)%nat then length M else (k - 1)%nat).
Proof.
  intros Hm%merging_children Hk Hf.
  destruct (move_all f (fun _ _ _ => True) (fun _ kvs p => is_rcut kvs k p) (children_ m)) as (cs & E & Hcs);
    [by eauto|done|]. setoid_rewrite E. cbn [mbind option_bind].
  destruct (after_largest cs (current_ m) k Hk Hcs) as (m' & Ef & Hd & Hm').
  apply FindLargest_direction with (d := direction_ m) in Ef. rewrite Ef. cbn.
  eexists. split; [done|]. by destruct m'; cbn in *; subst.
Qed.

(** The cut where every child seeks to [t]. *)
Lemma is_cut_target j kvs t :
  kvss !! j = Some kvs -> is_cut M kvs (lower_bound C t M) (lower_bound C t kvs).
Proof.
  intros Hj. split; [apply lower_bound_le|]. intros idx [k v] E.
  rewrite <- (lower_bound_spec t kvs idx k v) by (done || by eapply HS).
  assert (Hin : (k, v) ∈ M) by (eapply (child_in_merge HM j kvs); [done|by eapply list_elem_of_lookup_2]).
  apply list_elem_of_lookup in Hin as [n Hn]. pose proof (lower_bound_spec t M n k v (proj2 HM) Hn) as Hb.
  rewrite Hb. split.
  - intros Hlt. apply list_elem_of_lookup. exists n. by apply lookup_take_Some.
  - intros (n' & Hn' & Hlt)%elem_of_take.
    apply (lower_bound_spec t M n' k v (proj2 HM) Hn') in Hlt. by apply Hb.
Qed.

(** Moving the current child forward or back turns the cut at its entry into
    the cut after it or before it. *)
Lemma step_forward j p i cs w kvs x :
  M !! i = Some x -> kvss !! j = Some kvs -> kvs !! p = Some x -> holds j i p ->
  cs !! j = Some w -> child_pos j kvs w p ->
  children_at (others j (fun kvs => is_cut M kvs i)) cs ->
  exists cs', move_current it_Next j cs = Some cs' /\ children_at (fun _ kvs p => is_cut M kvs (i + 1) p) cs'.
Proof.
  intros Hx Hj Hp Hh Hw Hc Hat. pose proof (child_laws j kvs Hj) as Hlaws.
  eapply move_cur; [exact Hw| | |exact Hat].
  - intros kvs' Hj'. simplify_eq. destruct (pos_next w p Hc) as (w' & E & Hc'); [by eapply lookup_lt_Some|].
    exists w'. split; [done|]. exists (p + 1)%nat. split; [done|]. by apply (holds_is_cut _ _ _ _ Hh).
  - intros j' kvs' p' Hne Hj' Hcut. specialize (Hcut Hne).
    apply (is_cut_other HM j' j kvs' kvs i p' x); try done. by eapply list_elem_of_lookup_2.
Qed.

Lemma step_reverse j p i cs w kvs x :
  M !! i = Some x -> kvss !! j = Some kvs -> kvs !! p = Some x -> holds j i p ->
  cs !! j = Some w -> child_pos j kvs w p ->
  children_at (others j (fun kvs => is_rcut kvs i)) cs ->
  exists cs', move_current it_Prev j cs = Some cs' /\ children_at (fun _ kvs p => is_rcut kvs i p) cs'.
Proof.
  intros Hx Hj Hp Hh Hw Hc Hat. pose proof (child_laws j kvs Hj) as Hlaws.
  eapply move_cur; [exact Hw| | |exact Hat].
  - intros kvs' Hj'. simplify_eq. destruct (pos_prev w p Hc) as (w' & E & Hc'); [by eapply lookup_lt_Some|].
    exists w'. split; [done|]. eexists. split; [exact Hc'|]. exists p. split; [|done].
    by apply (holds_is_cut _ _ _ _ Hh).
  - intros j' kvs' p' Hne Hj' Hcut. by apply Hcut.
Qed.

Lemma merging_next m i :
  merging_pos m i -> (i < length M)%nat ->
  exists m', Merging_Next C m = Some m' /\ merging_pos m' (i + 1).
Proof.
  intros Hm Hi. destruct (merging_current m i Hm Hi) as (j & p & x & w & kvs & Ec & Hx & Hj & Hp & Hh & Hw & Hc & Hat).
  destruct (merging_key_value m i x Hm Hx) as [Ek _]. unfold Merging_Next.
  rewrite Ec. cbn [mbind option_bind]. rewrite Ek. cbn [mbind option_bind].
  assert (exists cs, (if bool_decide (direction_ m = kForward) then Some (children_ m)
      else other_children (after_key C x.1) j (children_ m)) = Some cs /\ cs !! j = Some w /\
      children_at (others j (fun kvs => is_cut M kvs i)) cs) as (cs & -> & Hw' & Hat').
  { case_bool_decide as Hd; [rewrite Hd in Hat; by eauto|]. rewrite <- Hw.
    apply (move_others (after_key C x.1) j (fun _ _ _ => True)); [|by intros ??? _ Hne|by eapply children_at_weaken].
    intros j' w' kvs' p' Hne Hj' Hp' _. destruct (after_key_spec j' j kvs' w' p' p i x) as (w2 & E & p2 & ? & ?); try done.
    exists w2. split; [done|]. exists p2. by split; [|intros _]. }
  cbn [mbind option_bind]. destruct (step_forward j p i cs w kvs x) as (cs' & -> & Hcs'); try done.
  cbn [mbind option_bind]. destruct (after_smallest cs' (Some j) (i + 1) ltac:(lia) Hcs') as (m' & E & _ & Hm'). eauto.
Qed.

Lemma merging_prev m i :
  merging_pos m i -> (i < length M)%nat ->
  exists m', Merging_Prev C m = Some m' /\ merging_pos m' (if (i =? 0)%nat then length M else (i - 1)%nat).
Proof.
  intros Hm Hi. destruct (merging_current m i Hm Hi) as (j & p & x & w & kvs & Ec & Hx & Hj & Hp & Hh & Hw & Hc & Hat).
  destruct (merging_key_value m i x Hm Hx) as [Ek _]. unfold Merging_Prev.
  rewrite Ec. cbn [mbind option_bind]. rewrite Ek. cbn [mbind option_bind].
  assert (exists cs, (if bool_decide (direction_ m = kReverse) then Some (children_ m)
      else other_children (before_key x.1) j (children_ m)) = Some cs /\ cs !! j = Some w /\
      children_at (others j (fun kvs => is_rcut kvs i)) cs) as (cs & -> & Hw' & Hat').
  { case_bool_decide as Hd; [rewrite Hd in Hat; by eauto|]. rewrite <- Hw.
    apply (move_others (before_key x.1) j (fun _ _ _ => True)); [|by intros ??? _ Hne|by eapply children_at_weaken].
    intros j' w' kvs' p' Hne Hj' Hp' _. destruct (before_key_spec j' kvs' w' p' i x) as (w2 & E & p2 & ? & ?); try done.
    exists w2. split; [done|]. exists p2. by split; [|intros _]. }
  cbn [mbind option_bind]. destruct (step_reverse j p i cs w kvs x) as (cs' & -> & Hcs'); try done.
  cbn [mbind option_bind]. destruct (after_largest cs' (Some j) i ltac:(lia) Hcs') as (m' & E & _ & Hm'). eauto.
Qed.

#[export] Instance Merging_laws : IteratorLaws (MergingIterator_Iterator C) C M merging_pos.
Proof.
  split; cbn.
  - intros m i Hm. unfold merging_pos in Hm. destruct (current_ m); [|lia].
    destruct Hm as (p & (kvs & x & _ & Hx & _) & _). apply lookup_lt_Some in Hx. lia.
  - intros m i Hm. unfold merging_pos in Hm. destruct (current_ m); symmetry.
    + destruct Hm as (p & (kvs & x & _ & Hx & _) & _). apply Nat.ltb_lt. by eapply lookup_lt_Some.
    + apply Nat.ltb_ge. lia.
  - intros m i Hm%merging_children. by eapply children_status_ok.
  - intros m i k v Hm Hx. by apply (merging_key_value m i (k, v)).
  - intros m i k v Hm Hx. by apply (merging_key_value m i (k, v)).
  - intros m i Hm. apply (seek_forward _ m i 0 Hm); [lia|]. intros j w kvs p Hj Hp.
    pose proof (child_laws j kvs Hj). destruct (pos_first w p Hp) as (w' & -> & Hp'). exists w'. split; [done|].
    exists 0%nat. split; [done|]. apply is_cut_first.
  - intros m i Hm. destruct (seek_reverse it_SeekToLast m i (length M) Hm) as (m' & E & Hm'); [done| |].
    { intros j w kvs p Hj Hp. pose proof (child_laws j kvs Hj).
      destruct (pos_last w p Hp) as (w' & -> & Hp'). exists w'. split; [done|].
      eexists. split; [exact Hp'|]. exists (length kvs). split; [by eapply (is_cut_last HM)|].
      destruct (Nat.eqb_spec (length kvs) 0); lia. }
    exists m'. split; [done|]. destruct (Nat.eqb_spec (length M) 0) as [E0|]; [|done].
    by replace (length M - 1)%nat with (length M) by lia.
  - intros m i t Hm Ht. apply (seek_forward (fun c => it_Seek c t) m i _ Hm); [apply lower_bound_le|].
    intros j w kvs p Hj Hp. pose proof (child_laws j kvs Hj).
    destruct (pos_seek w p t Hp Ht) as (w' & -> & Hp'). exists w'. split; [done|].
    eexists. split; [exact Hp'|]. by eapply is_cut_target.
  - apply merging_next.
  - apply merging_prev.
Qed.

(** A new merging iterator over positioned children is invalid. *)
Lemma MergingIterator_new_pos children :
  length children = length kvss ->
  (forall j s kvs, children !! j = Some s -> kvss !! j = Some kvs -> exists p, P j s p) ->
  exists m, MergingIterator_new children = Some m /\ merging_pos m (length M).
Proof.
  intros Hl H. unfold MergingIterator_new.
  destruct (mapM_all (fun s => Wrapper_Set Wrapper_new (Some s)) children
    (fun j w => forall kvs, kvss !! j = Some kvs -> exists p, child_pos j kvs w p)) as (cs & -> & Hlc & Hcs).
  { intros j s Hs. destruct (lookup_lt_is_Some_2 kvss j) as [kvs Hj]; [rewrite <- Hl; by eapply lookup_lt_Some|].
    destruct (H j s kvs Hs Hj) as (p & Hp). pose proof (HP _ _ Hj).
    destruct (Wrapper_Update_pos Wrapper_new s p Hp) as (w & E & Hw). exists w. split; [done|].
    intros kvs' Hj'. simplify_eq. eauto. }
  cbn. eexists. split; [done|]. split; [done|]. split; [cbn; congruence|]. cbn.
  intros j w kvs Hw Hj. destruct (Hcs j w Hw kvs Hj) as (p & Hp). eauto.
Qed.
End MergingLaws.

(** ** [NewMergingIterator] *)

Lemma sorted_perm_unique {C : Comparator} {L : ComparatorLaws C} (M N : list kv) :
  kvs_sorted C M -> kvs_sorted C N -> Permutation M N -> M = N.
Proof.
  intros HM. revert N. induction HM as [|x M HM IH Hx]; intros N HN HP.
  { by apply Permutation_nil in HP as ->. }
  destruct N as [|y N]; [by apply Permutation_sym, Permutation_nil in HP|].
  pose proof (StronglySorted_inv HN) as [HN' Hy].
  assert (x = y) as ->.
  { assert (Hxi : x ∈ y :: N) by (rewrite <- HP; by left).
    assert (Hyi : y ∈ x :: M) by (rewrite HP; by left).
    apply elem_of_cons in Hxi as [->|Hxi]; [done|]. apply elem_of_cons in Hyi as [->|Hyi]; [done|].
    apply (proj1 (Forall_forall _ _) Hx) in Hyi. apply (proj1 (Forall_forall _ _) Hy) in Hxi.
    destruct (kv_lt_irrefl x). by eapply kv_lt_trans. }
  f_equal. apply IH; [done|]. by eapply Permutation_cons_inv.
Qed.

Lemma NewMergingIterator_laws {T : Targets} {S : Type} {I : Iterator S} {C : Comparator} {L : ComparatorLaws C}
    (children : list S) (kvss : list (list kv)) (M : list kv) (P : nat -> S -> nat -> Prop)
    (HM : is_merge (C := C) kvss M) (Hlen : length children = length kvss)
    (HS : forall j kvs, kvss !! j = Some kvs -> kvs_sorted C kvs) (HT : forall x, x ∈ M -> is_target x.1)
    (HP : forall j kvs, kvss !! j = Some kvs -> IteratorLaws I C kvs (P j))
    (Hpos : forall j s kvs, children !! j = Some s -> kvss !! j = Some kvs -> exists i, P j s i) :
  exists it pos i, NewMergingIterator children = Some it /\
    IteratorLaws (Sum_Iterator (IB := Sum_Iterator (IB := MergingIterator_Iterator C))) C M pos /\ pos it i.
Proof.
  destruct children as [|c [|c' children]].
  - destruct kvss; [|done]. destruct HM as [->%Permutation_sym%Permutation_nil _].
    exists (inl NewEmptyIterator), (sum_pos (fun s i => s = OK /\ i = 0%nat) none), 0%nat.
    split; [done|]. split; [|done]. apply sum_laws; [intros _; apply EmptyIterator_laws|by intros (? & ? & [])].
  - destruct kvss as [|kvs [|]]; [done| |done]. destruct HM as [HPm HSm]. cbn in HPm. rewrite app_nil_r in HPm.
    pose proof (HP 0%nat kvs eq_refl) as Hlaws. pose proof (HS 0%nat kvs eq_refl) as Hs.
    apply sorted_perm_unique in HPm as ->; [|done..]. destruct (Hpos 0%nat c kvs eq_refl eq_refl) as [i Hi].
    exists (inr (inl c)), (sum_pos none (sum_pos (P 0%nat) none)), i.
    split; [done|]. split; [|done]. apply sum_laws; [by intros (? & ? & [])|]. intros _.
    apply sum_laws; [done|by intros (? & ? & [])].
  - destruct (MergingIterator_new_pos (S := S) (M := M) HP (c :: c' :: children) Hlen Hpos) as (m & E & Hm).
    exists (inr (inr m)), (sum_pos none (sum_pos none (merging_pos (kvss := kvss) (M := M) (P := P)))), (length M).
    unfold NewMergingIterator. rewrite E. split; [done|]. split; [|done].
    apply sum_laws; [by intros (? & ? & [])|]. intros _. apply sum_laws; [by intros (? & ? & [])|]. intros _.
    by apply Merging_laws.
Qed.

(** C26: however many children there are, [NewMergingIterator] over cursors in
    sorted lists with distinct keys is a cursor in the sorted merge of the
    lists, for every sequence of seeks and moves in both directions, as long as the
    keys are among the targets that the children may be asked for. *)
Theorem merging_iterator_correct {T : Targets} {S : Type} {I : Iterator S} {C : Comparator} {L : ComparatorLaws C}
    (children : list S) (kvss : list (list kv)) (M : list kv) (P : nat -> S -> nat -> Prop)
    (HM : is_merge (C := C) kvss M) (Hlen : length children = length kvss)
    (HS : forall j kvs, kvss !! j = Some kvs -> kvs_sorted C kvs) (HT : forall x, x ∈ M -> is_target x.1)
    (HP : forall j kvs, kvss !! j = Some kvs -> IteratorLaws I C kvs (P j))
    (Hpos : forall j s kvs, children !! j = Some s -> kvss !! j = Some kvs -> exists i, P j s i) :
  exists it pos i, NewMergingIterator children = Some it /\
    IteratorLaws (Sum_Iterator (IB := Sum_Iterator (IB := MergingIterator_Iterator C))) C M pos /\ pos it i.
Proof. by apply (NewMergingIterator_laws children kvss M P). Qed.

Lemma merging_iterator_correct_witness :
  exists (a b : BlockIter) it pos i, NewMergingIterator [a; b] = Some it /\
    IteratorLaws (Sum_Iterator (IB := Sum_Iterator (IB := MergingIterator_Iterator BytewiseComparator)))
      BytewiseComparator [(cstr "a", cstr "1"); (cstr "b", cstr "2"); (cstr "c", cstr "3")] pos /\ pos it i.
Proof.
  destruct (built_block_iterator (C := BytewiseComparator) 2 [(cstr "a", cstr "1"); (cstr "c", cstr "3")])
    as (a & P & _ & LA & HA); [lia|repeat constructor|reflexivity|].
  destruct (built_block_iterator (C := BytewiseComparator) 2 [(cstr "b", cstr "2")])
    as (b & Q & _ & LB & HB); [lia|repeat constructor|reflexivity|].
  exists a, b.
  apply (merging_iterator_correct (L := BytewiseComparator_laws) [a; b]
    [[(cstr "a", cstr "1"); (cstr "c", cstr "3")]; [(cstr "b", cstr "2")]]
    [(cstr "a", cstr "1"); (cstr "b", cstr "2"); (cstr "c", cstr "3")]
    (fun j => match j with O => P | _ => Q end)).
  - split; [|repeat constructor]. apply perm_skip. apply perm_swap.
  - reflexivity.
  - intros [|[|j]] kvs [= <-]; repeat constructor.
  - done.
  - intros [|[|j]] kvs [= <-]; assumption.
  - intros [|[|j]] s kvs [= <-] [= <-]; eauto.
Defined.
