(* ===== verification/TwoLevelIterator.v ===== *)
(** * table/two_level_iterator: an iterator over iterators

    Models src/table/two_level_iterator.cc: an index iterator whose values are
    opened by a block function into data iterators.  Over lawful iterators it
    is a cursor in the concatenation of the blocks. *)

From Stdlib Require Import Sorted.
From stdpp Require Import sorting.
From S2P Require Import Prelude Comparator Status Iterator BlockBuilder Block IteratorWrapper.

Section TwoLevel.
Context {SI SD Arg : Type} {II : Iterator SI} {ID : Iterator SD}.
(** [block_function(arg, options, index_value)]; [Arg] is what [arg] leads to, a
    cache for instance, and [None] a failed assertion. *)
Variable block_function : Arg -> bytes -> option (SD * Arg).
(** A bound on the iterations of the skipping loops. *)
Variable fuel : nat.

Record TwoLevelIterator := mkTwoLevel {
  tl_status_ : Status;
  index_iter_ : IteratorWrapper SI;
  data_iter_ : IteratorWrapper SD;
  data_block_handle_ : bytes;
  arg_ : Arg;
}.

Definition NewTwoLevelIterator (index_iter : SI) (arg : Arg) : option TwoLevelIterator :=
  index ← Wrapper_Set Wrapper_new (Some index_iter);
  data ← Wrapper_Set Wrapper_new None;
  Some (mkTwoLevel OK index data [] arg).

(** [data_iter_.iter() != nullptr] *)
Definition has_data (t : TwoLevelIterator) : bool :=
  match w_iter (data_iter_ t) with Some _ => true | None => false end.

Definition with_index (t : TwoLevelIterator) (index : IteratorWrapper SI) : TwoLevelIterator :=
  mkTwoLevel (tl_status_ t) index (data_iter_ t) (data_block_handle_ t) (arg_ t).
Definition with_data (t : TwoLevelIterator) (data : IteratorWrapper SD) : TwoLevelIterator :=
  mkTwoLevel (tl_status_ t) (index_iter_ t) data (data_block_handle_ t) (arg_ t).

Definition SaveError (t : TwoLevelIterator) (s : Status) : TwoLevelIterator :=
  if ok (tl_status_ t) && negb (ok s)
  then mkTwoLevel s (index_iter_ t) (data_iter_ t) (data_block_handle_ t) (arg_ t) else t.

Definition SetDataIterator (t : TwoLevelIterator) (data_iter : option SD) : option TwoLevelIterator :=
  let t := if has_data t then SaveError t (it_status (data_iter_ t)) else t in
  data ← Wrapper_Set (data_iter_ t) data_iter;
  Some (with_data t data).

Definition InitDataBlock (t : TwoLevelIterator) : option TwoLevelIterator :=
  if negb (it_Valid (index_iter_ t)) then SetDataIterator t None
  else
    handle ← it_value (index_iter_ t);
    if has_data t && bool_decide (Slice_compare handle (data_block_handle_ t) = Eq) then Some t
    else
      '(iter, arg) ← block_function (arg_ t) handle;
      SetDataIterator (mkTwoLevel (tl_status_ t) (index_iter_ t) (data_iter_ t) handle arg) (Some iter).

(** [if (data_iter_.iter() != nullptr) data_iter_.f();] *)
Definition on_data (f : IteratorWrapper SD -> option (IteratorWrapper SD)) (t : TwoLevelIterator)
    : option TwoLevelIterator :=
  if has_data t then data ← f (data_iter_ t); Some (with_data t data) else Some t.

(** The loops of [SkipEmptyDataBlocksForward] and [..Backward]: they differ in
    the move of the index and the seek in the opened block. *)
Fixpoint SkipEmptyDataBlocks (move_index : IteratorWrapper SI -> option (IteratorWrapper SI))
    (seek_data : IteratorWrapper SD -> option (IteratorWrapper SD)) (fuel : nat) (t : TwoLevelIterator)
    : option TwoLevelIterator :=
  if has_data t && it_Valid (data_iter_ t) then Some t
  else if negb (it_Valid (index_iter_ t)) then SetDataIterator t None
  else match fuel with
  | O => None
  | S fuel =>
      index ← move_index (index_iter_ t);
      t ← InitDataBlock (with_index t index);
      t ← on_data seek_data t;
      SkipEmptyDataBlocks move_index seek_data fuel t
  end.

Definition SkipEmptyDataBlocksForward : TwoLevelIterator -> option TwoLevelIterator :=
  SkipEmptyDataBlocks it_Next it_SeekToFirst fuel.
Definition SkipEmptyDataBlocksBackward : TwoLevelIterator -> option TwoLevelIterator :=
  SkipEmptyDataBlocks it_Prev it_SeekToLast fuel.

(** A seek: of the index, then in the block it leads to. *)
Definition seek_with (seek_index : IteratorWrapper SI -> option (IteratorWrapper SI))
    (seek_data : IteratorWrapper SD -> option (IteratorWrapper SD)) (t : TwoLevelIterator)
    : option TwoLevelIterator :=
  index ← seek_index (index_iter_ t);
  t ← InitDataBlock (with_index t index);
  on_data seek_data t.

Definition TwoLevel_Seek (t : TwoLevelIterator) (target : bytes) : option TwoLevelIterator :=
  t ← seek_with (fun w => it_Seek w target) (fun w => it_Seek w target) t;
  SkipEmptyDataBlocksForward t.
Definition TwoLevel_SeekToFirst (t : TwoLevelIterator) : option TwoLevelIterator :=
  t ← seek_with it_SeekToFirst it_SeekToFirst t;
  SkipEmptyDataBlocksForward t.
Definition TwoLevel_SeekToLast (t : TwoLevelIterator) : option TwoLevelIterator :=
  t ← seek_with it_SeekToLast it_SeekToLast t;
  SkipEmptyDataBlocksBackward t.

Definition TwoLevel_Valid (t : TwoLevelIterator) : bool := it_Valid (data_iter_ t).
Definition TwoLevel_Next (t : TwoLevelIterator) : option TwoLevelIterator :=
  if TwoLevel_Valid t
  then data ← it_Next (data_iter_ t); SkipEmptyDataBlocksForward (with_data t data)
  else None.
Definition TwoLevel_Prev (t : TwoLevelIterator) : option TwoLevelIterator :=
  if TwoLevel_Valid t
  then data ← it_Prev (data_iter_ t); SkipEmptyDataBlocksBackward (with_data t data)
  else None.
Definition TwoLevel_key (t : TwoLevelIterator) : option bytes :=
  if TwoLevel_Valid t then it_key (data_iter_ t) else None.
Definition TwoLevel_value (t : TwoLevelIterator) : option bytes :=
  if TwoLevel_Valid t then it_value (data_iter_ t) else None.
Definition TwoLevel_status (t : TwoLevelIterator) : Status :=
  if negb (ok (it_status (index_iter_ t))) then it_status (index_iter_ t)
  else if has_data t && negb (ok (it_status (data_iter_ t))) then it_status (data_iter_ t)
  else tl_status_ t.

#[export] Instance TwoLevel_Iterator : Iterator TwoLevelIterator := {|
  it_Valid := TwoLevel_Valid;
  it_SeekToFirst := TwoLevel_SeekToFirst;
  it_SeekToLast := TwoLevel_SeekToLast;
  it_Seek := TwoLevel_Seek;
  it_Next := TwoLevel_Next;
  it_Prev := TwoLevel_Prev;
  it_key := TwoLevel_key;
  it_value := TwoLevel_value;
  it_status := TwoLevel_status;
|}.
End TwoLevel.

Arguments TwoLevelIterator SI SD Arg : clear implicits.

(** ** The laws *)

Section TwoLevelLaws.
Context {SI SD Arg : Type} {II : Iterator SI} {ID : Iterator SD} {C : Comparator} {L : ComparatorLaws C}.
Context {block_function : Arg -> bytes -> option (SD * Arg)} {fuel : nat}.
(** The entries of the index; the entries of the block a handle stands for. *)
Context {ikvs : list kv} {B : bytes -> list kv}.
Context {PI : SI -> nat -> Prop} {PD : bytes -> SD -> nat -> Prop} {EI : Arg -> Prop}.
Context {HI : IteratorLaws II C ikvs PI}.
Context (HD : forall k h, (k, h) ∈ ikvs -> IteratorLaws ID C (B h) (PD h)).
Context (Hopen : forall k h e, (k, h) ∈ ikvs -> EI e ->
  exists it e' p, block_function e h = Some (it, e') /\ PD h it p /\ EI e').
(** An index key separates its block from the blocks after it. *)
Context (Hle : forall j k h e, ikvs !! j = Some (k, h) -> e ∈ B h -> Compare (Comparator := C) e.1 k <> Gt).
Context (Hgt : forall j j' k h k' h' e, ikvs !! j = Some (k, h) -> ikvs !! j' = Some (k', h') -> (j < j')%nat ->
  e ∈ B h' -> Compare (Comparator := C) k e.1 = Lt).

(** The entries of all blocks. *)
Definition block_entries (l : list kv) : list kv := concat (map (fun e => B e.2) l).
Definition base (j : nat) : nat := length (block_entries (take j ikvs)).

Lemma base_S j k h : ikvs !! j = Some (k, h) -> base (j + 1) = (base j + length (B h))%nat.
Proof.
  intros E. unfold base, block_entries. rewrite Nat.add_1_r, (take_S_r _ _ _ E), map_app, concat_app, length_app.
  cbn. by rewrite app_nil_r.
Qed.

Lemma base_end : base (length ikvs) = length (block_entries ikvs).
Proof. unfold base. by rewrite firstn_all. Qed.

Lemma entries_split j k h :
  ikvs !! j = Some (k, h) ->
  block_entries ikvs = block_entries (take j ikvs) ++ B h ++ block_entries (drop (j + 1) ikvs).
Proof.
  intros E. rewrite <- (take_drop_middle _ _ _ E) at 1. unfold block_entries.
  by rewrite map_app, concat_app, Nat.add_1_r.
Qed.

Lemma entries_lookup j k h p :
  ikvs !! j = Some (k, h) -> (p < length (B h))%nat -> block_entries ikvs !! (base j + p)%nat = B h !! p.
Proof.
  intros E Hp. rewrite (entries_split _ _ _ E). unfold base.
  rewrite lookup_app_r by lia. rewrite lookup_app_l by lia. f_equal. lia.
Qed.

Lemma base_lt j k h p :
  ikvs !! j = Some (k, h) -> (p < length (B h))%nat -> (base j + p < length (block_entries ikvs))%nat.
Proof.
  intros E Hp. rewrite (entries_split _ _ _ E), !length_app. unfold base. lia.
Qed.

(** *** States *)

Implicit Types t : TwoLevelIterator SI SD Arg.

Definition index_at t (j : nat) : Prop := wrapper_pos ikvs PI (index_iter_ t) j.

Definition data_at t (j p : nat) : Prop :=
  exists k h, ikvs !! j = Some (k, h) /\ data_block_handle_ t = h /\ wrapper_pos (B h) (PD h) (data_iter_ t) p.

Definition no_data t : Prop := w_iter (data_iter_ t) = None /\ w_valid (data_iter_ t) = false.

(** Any state between two operations of the class. *)
Definition tl_wf t : Prop :=
  (tl_status_ t = OK /\ EI (arg_ t)) /\ (exists j, index_at t j) /\ (no_data t \/ exists j p, data_at t j p).

(** The index stands at a block and the data iterator in it, or both are past
    the end. *)
Definition tl_at t (j p : nat) : Prop :=
  (tl_status_ t = OK /\ EI (arg_ t)) /\ index_at t j /\
  (((j < length ikvs)%nat /\ data_at t j p) \/ (j = length ikvs /\ no_data t)).

Definition two_level_pos t (i : nat) : Prop :=
  (tl_status_ t = OK /\ EI (arg_ t)) /\
  ((no_data t /\ (exists j, index_at t j) /\ i = length (block_entries ikvs)) \/
   exists j k h p, index_at t j /\ ikvs !! j = Some (k, h) /\ data_at t j p /\ (p < length (B h))%nat /\
     i = (base j + p)%nat).

Lemma two_level_wf t i : two_level_pos t i -> tl_wf t.
Proof.
  intros [Hs [(Hn & Hi & _)|(j & k & h & p & Hi & _ & Hd & _)]]; (split; [done|]); split; eauto.
Qed.

Lemma data_laws j k h : ikvs !! j = Some (k, h) -> IteratorLaws Wrapper_Iterator C (B h) (wrapper_pos (B h) (PD h)).
Proof. intros E. pose proof (HD k h ltac:(by eapply list_elem_of_lookup_2)). apply Wrapper_laws. Qed.

Lemma has_data_at t j p : data_at t j p -> has_data t = true.
Proof. intros (k & h & _ & _ & s & E & _). unfold has_data. by rewrite E. Qed.

Lemma has_data_none t : no_data t -> has_data t = false.
Proof. intros [E _]. unfold has_data. by rewrite E. Qed.

Lemma data_status t j p : data_at t j p -> it_status (data_iter_ t) = OK.
Proof. intros (k & h & E & _ & Hp). pose proof (data_laws j k h E). by apply (pos_status _ _ Hp). Qed.

(** Replacing the data iterator. *)
Lemma SetDataIterator_none t :
  tl_status_ t = OK -> (no_data t \/ exists j p, data_at t j p) ->
  exists t', SetDataIterator t None = Some t' /\ tl_status_ t' = OK /\ no_data t' /\ index_iter_ t' = index_iter_ t /\
    arg_ t' = arg_ t.
Proof.
  intros Hs [Hn|(j & p & Hd)]; unfold SetDataIterator.
  - rewrite (has_data_none _ Hn). cbn. by eexists.
  - rewrite (has_data_at _ _ _ Hd), (data_status _ _ _ Hd). unfold SaveError. rewrite andb_false_r. cbn.
    by eexists.
Qed.

Lemma SetDataIterator_open t j p k h it :
  tl_status_ t = OK -> (has_data t = true -> it_status (data_iter_ t) = OK) -> ikvs !! j = Some (k, h) ->
  data_block_handle_ t = h -> PD h it p ->
  exists t', SetDataIterator t (Some it) = Some t' /\ tl_status_ t' = OK /\ data_at t' j p /\
    index_iter_ t' = index_iter_ t /\ arg_ t' = arg_ t.
Proof.
  intros Hs Hst E0 Hh Hp. pose proof (HD k h ltac:(by eapply list_elem_of_lookup_2)).
  assert (E1 : (if has_data t then SaveError t (it_status (data_iter_ t)) else t) = t).
  { destruct (has_data t); [|done]. rewrite Hst by done. unfold SaveError. by rewrite andb_false_r. }
  unfold SetDataIterator. rewrite E1.
  destruct (Wrapper_Set_pos (data_iter_ t) _ p Hp) as (w & -> & Hw). cbn.
  exists (with_data t w). split; [done|]. split; [done|]. split; [|done]. by exists k, h.
Qed.

Lemma InitDataBlock_spec t j :
  (tl_status_ t = OK /\ EI (arg_ t)) -> index_at t j -> (no_data t \/ exists j p, data_at t j p) ->
  exists t' p, InitDataBlock block_function t = Some t' /\ tl_at t' j p.
Proof.
  unfold index_at. intros [Hs He] Hi Hd. unfold InitDataBlock. rewrite (pos_valid _ _ Hi).
  pose proof (pos_le _ _ Hi) as Hj. destruct (Nat.ltb_spec j (length ikvs)) as [Hlt|Hge]; cbn [negb].
  - destruct (lookup_lt_is_Some_2 _ _ Hlt) as [[k h] Ej]. rewrite (pos_value _ _ _ _ Hi Ej). cbn [mbind option_bind].
    destruct (has_data t && _) eqn:Eh.
    + apply andb_prop in Eh as [Eh Ec]. apply bool_decide_eq_true, bytewise_Compare_eq in Ec.
      destruct Hd as [Hn|(j' & p & k' & h' & E' & Eh' & Hp)]; [by rewrite (has_data_none _ Hn) in Eh|].
      exists t, p. split; [done|]. split; [done|]. split; [done|]. left. split; [done|].
      exists k, h. split; [done|]. split; [done|]. congruence.
    + destruct (Hopen k h (arg_ t) ltac:(by eapply list_elem_of_lookup_2) He) as (it & e' & p & -> & Hp & He').
      cbn [mbind option_bind].
      destruct (SetDataIterator_open (mkTwoLevel (tl_status_ t) (index_iter_ t) (data_iter_ t) h e') j p k h it)
        as (t' & -> & Hs' & Hd' & Hi' & Ha'); try done.
      { intros Hh. change (has_data t = true) in Hh. destruct Hd as [Hn|(j' & p' & Hd)]; [by rewrite (has_data_none _ Hn) in Hh|].
        exact (data_status t j' p' Hd). }
      exists t', p. split; [done|]. split; [split; [done|by rewrite Ha']|]. unfold index_at. rewrite Hi'. split; [done|]. by left.
  - destruct (SetDataIterator_none t Hs Hd) as (t' & -> & Hs' & Hn & Hi' & Ha'). exists t', 0%nat.
    split; [done|]. split; [split; [done|by rewrite Ha']|]. unfold index_at. rewrite Hi'. split; [done|]. right. split; [lia|done].
Qed.

(** Seeking in the block: [g] gives the place it goes to. *)
Lemma on_data_spec f (g : list kv -> nat) t j p :
  (forall j k h w p, ikvs !! j = Some (k, h) -> wrapper_pos (B h) (PD h) w p ->
     exists w', f w = Some w' /\ wrapper_pos (B h) (PD h) w' (g (B h))) ->
  tl_at t j p ->
  exists t', on_data f t = Some t' /\ tl_at t' j (match ikvs !! j with Some (k, h) => g (B h) | None => 0%nat end).
Proof.
  intros Hf (Hs & Hi & [[Hj Hd]|[-> Hn]]); unfold on_data.
  - rewrite (has_data_at _ _ _ Hd). destruct Hd as (k & h & E & Eh & Hp).
    destruct (Hf _ _ _ _ _ E Hp) as (w & -> & Hw). cbn. rewrite E.
    eexists. split; [done|]. split; [done|]. split; [done|]. left. split; [done|]. by exists k, h.
  - rewrite (has_data_none _ Hn). eexists. split; [done|]. split; [done|]. split; [done|]. by right.
Qed.

Lemma seek_with_spec fi fd jt (g : list kv -> nat) t :
  (forall w j, wrapper_pos ikvs PI w j -> exists w', fi w = Some w' /\ wrapper_pos ikvs PI w' jt) ->
  (forall j k h w p, ikvs !! j = Some (k, h) -> wrapper_pos (B h) (PD h) w p ->
     exists w', fd w = Some w' /\ wrapper_pos (B h) (PD h) w' (g (B h))) ->
  tl_wf t ->
  exists t', seek_with block_function fi fd t = Some t' /\
    tl_at t' jt (match ikvs !! jt with Some (k, h) => g (B h) | None => 0%nat end).
Proof.
  intros Hi Hd (Hs & [j Hj] & Hdata). unfold seek_with. destruct (Hi _ _ Hj) as (w & -> & Hw). cbn.
  destruct (InitDataBlock_spec (with_index t w) jt) as (t' & p & -> & Ht'); [done|done|exact Hdata|]. cbn.
  by apply (on_data_spec fd g t' jt p).
Qed.

Lemma first_data j k h w p :
  ikvs !! j = Some (k, h) -> wrapper_pos (B h) (PD h) w p ->
  exists w', it_SeekToFirst w = Some w' /\ wrapper_pos (B h) (PD h) w' 0%nat.
Proof. intros E Hp. pose proof (data_laws j k h E). by apply (pos_first _ _ Hp). Qed.

Lemma last_data j k h w p :
  ikvs !! j = Some (k, h) -> wrapper_pos (B h) (PD h) w p ->
  exists w', it_SeekToLast w = Some w' /\ wrapper_pos (B h) (PD h) w' (length (B h) - 1)%nat.
Proof. intros E Hp. pose proof (data_laws j k h E). by apply (pos_last _ _ Hp). Qed.

(** *** The skipping loops *)

Lemma tl_at_pos t j p k h :
  tl_at t j p -> ikvs !! j = Some (k, h) -> (p < length (B h))%nat -> two_level_pos t (base j + p).
Proof.
  intros (Hs & Hi & [[Hj Hd]|[-> _]]) E Hp; [|by apply lookup_lt_Some in E; lia].
  split; [done|]. right. exists j, k, h, p. done.
Qed.

Lemma tl_at_wf t j p : tl_at t j p -> tl_wf t.
Proof. intros (Hs & Hi & [[Hj Hd]|[-> Hn]]); split; try done; split; eauto. Qed.

(** The test of the loops. *)
Lemma skip_test t j p k h :
  tl_at t j p -> ikvs !! j = Some (k, h) ->
  has_data t && it_Valid (data_iter_ t) = (p <? length (B h))%nat /\ it_Valid (index_iter_ t) = true /\
  (p <= length (B h))%nat.
Proof.
  intros (Hs & Hi & [[Hj Hd]|[-> _]]) E; [|by apply lookup_lt_Some in E; lia].
  rewrite (has_data_at _ _ _ Hd). destruct Hd as (k' & h' & E' & _ & Hp). rewrite E in E'. injection E' as <- <-.
  pose proof (data_laws j k h E). rewrite (pos_valid _ _ Hp). unfold index_at in Hi.
  rewrite (pos_valid _ _ Hi). split; [done|]. split; [by apply Nat.ltb_lt|]. by apply (pos_le _ _ Hp).
Qed.

Lemma skip_none t fi fd n :
  (tl_status_ t = OK /\ EI (arg_ t)) -> no_data t -> index_at t (length ikvs) ->
  exists t', SkipEmptyDataBlocks block_function fi fd n t = Some t' /\ two_level_pos t' (length (block_entries ikvs)).
Proof.
  intros [Hs He] Hn Hi. assert (E0 : SkipEmptyDataBlocks block_function fi fd n t = SetDataIterator t None).
  { unfold index_at in Hi. destruct n; cbn [SkipEmptyDataBlocks]; rewrite (has_data_none _ Hn), (pos_valid _ _ Hi), Nat.ltb_irrefl; done. }
  rewrite E0. destruct (SetDataIterator_none t Hs ltac:(by left)) as (t' & -> & Hs' & Hn' & Hi' & Ha').
  exists t'. split; [done|]. split; [split; [done|by rewrite Ha']|]. left. split; [done|]. split; [|done].
  exists (length ikvs). unfold index_at. by rewrite Hi'.
Qed.

(** One iteration. *)
Lemma skip_step t j p k h fi fd jt (g : list kv -> nat) n :
  tl_at t j p -> ikvs !! j = Some (k, h) -> p = length (B h) ->
  (exists w', fi (index_iter_ t) = Some w' /\ wrapper_pos ikvs PI w' jt) ->
  (forall j k h w p, ikvs !! j = Some (k, h) -> wrapper_pos (B h) (PD h) w p ->
     exists w', fd w = Some w' /\ wrapper_pos (B h) (PD h) w' (g (B h))) ->
  exists t', SkipEmptyDataBlocks block_function fi fd (S n) t = SkipEmptyDataBlocks block_function fi fd n t' /\
    tl_at t' jt (match ikvs !! jt with Some (k, h) => g (B h) | None => 0%nat end).
Proof.
  intros Ht E -> (w & Ew & Hw) Hd. destruct (skip_test _ _ _ _ _ Ht E) as (E1 & E2 & _).
  destruct (tl_at_wf _ _ _ Ht) as (Hs & _ & Hdata). cbn [SkipEmptyDataBlocks].
  rewrite E1, E2, Nat.ltb_irrefl, Ew. cbn [negb mbind option_bind].
  destruct (InitDataBlock_spec (with_index t w) jt) as (t' & p & -> & Ht'); [done|done|exact Hdata|].
  cbn [mbind option_bind]. destruct (on_data_spec fd g t' jt p Hd Ht') as (t2 & -> & Ht2). by exists t2.
Qed.

Lemma skip_done t j p k h fi fd n :
  tl_at t j p -> ikvs !! j = Some (k, h) -> (p < length (B h))%nat ->
  SkipEmptyDataBlocks block_function fi fd n t = Some t.
Proof.
  intros Ht E Hp. destruct (skip_test _ _ _ _ _ Ht E) as (E1 & _ & _).
  destruct n; cbn [SkipEmptyDataBlocks]; by rewrite E1, (proj2 (Nat.ltb_lt _ _) Hp).
Qed.

Lemma skip_forward_spec n t j p :
  tl_at t j p -> (ikvs !! j = None -> p = 0%nat) -> (length ikvs - j <= n)%nat ->
  exists t', SkipEmptyDataBlocks block_function it_Next it_SeekToFirst n t = Some t' /\ two_level_pos t' (base j + p).
Proof.
  revert t j p. induction n as [|n IH]; intros t j p Ht H0 Hn.
  all: destruct (ikvs !! j) as [[k h]|] eqn:E;
    [|destruct Ht as (Hs & Hi & [[Hj _]|[-> Hnd]]); [by apply lookup_lt_is_Some_2 in Hj as [? ?]; congruence|];
      rewrite (H0 eq_refl), Nat.add_0_r, base_end; by apply skip_none].
  { apply lookup_lt_Some in E. lia. }
  destruct (skip_test _ _ _ _ _ Ht E) as (_ & _ & Hle').
  destruct (Nat.lt_ge_cases p (length (B h))) as [Hp|Hp].
  { exists t. split; [by eapply skip_done|]. by eapply tl_at_pos. }
  assert (p = length (B h)) as -> by lia. pose proof (lookup_lt_Some _ _ _ E) as Hj.
  destruct (skip_step t j _ k h it_Next it_SeekToFirst (j + 1) (fun _ => 0%nat) n Ht E eq_refl) as (t' & -> & Ht').
  { destruct Ht as (_ & Hi & _). unfold index_at in Hi. by apply (pos_next _ _ Hi). }
  { intros. by eapply first_data. }
  rewrite <- (base_S _ _ _ E). replace (base (j + 1)) with (base (j + 1) + 0)%nat by lia.
  apply IH; [|done|lia]. by destruct (ikvs !! (j + 1)%nat) as [[? ?]|].
Qed.

(** The entry before entry [i], or none. *)
Definition prev_pos (i : nat) : nat := if (i =? 0)%nat then length (block_entries ikvs) else (i - 1)%nat.

Lemma skip_backward_spec n t j p :
  tl_at t j p -> (ikvs !! j = None -> p = 0%nat) -> (j < length ikvs -> j + 1 <= n)%nat ->
  exists t', SkipEmptyDataBlocks block_function it_Prev it_SeekToLast n t = Some t' /\
    two_level_pos t' (match ikvs !! j with
                      | Some (_, h) => if (p <? length (B h))%nat then (base j + p)%nat else prev_pos (base j)
                      | None => length (block_entries ikvs) end).
Proof.
  revert t j p. induction n as [|n IH]; intros t j p Ht H0 Hn.
  all: destruct (ikvs !! j) as [[k h]|] eqn:E;
    [|destruct Ht as (Hs & Hi & [[Hj _]|[-> Hnd]]); [by apply lookup_lt_is_Some_2 in Hj as [? ?]; congruence|];
      by apply skip_none].
  { apply lookup_lt_Some in E. lia. }
  pose proof (lookup_lt_Some _ _ _ E) as Hj. destruct (skip_test _ _ _ _ _ Ht E) as (_ & _ & Hle').
  destruct (Nat.ltb_spec p (length (B h))) as [Hp|Hp].
  { exists t. split; [by eapply skip_done|]. by eapply tl_at_pos. }
  assert (p = length (B h)) as -> by lia.
  destruct (skip_step t j _ k h it_Prev it_SeekToLast (if (j =? 0)%nat then length ikvs else (j - 1)%nat)
    (fun b => (length b - 1)%nat) n Ht E eq_refl) as (t' & -> & Ht').
  { destruct Ht as (_ & Hi & _). unfold index_at in Hi. by apply (pos_prev _ _ Hi). }
  { intros. by eapply last_data. }
  destruct (Nat.eqb_spec j 0) as [->|Hj0].
  - rewrite (lookup_ge_None_2 ikvs (length ikvs)) in Ht' by lia.
    destruct Ht' as (Hs & Hi & [[Hl _]|[_ Hnd]]); [lia|]. by apply skip_none.
  - destruct (lookup_lt_is_Some_2 ikvs (j - 1)) as [[k' h'] E']; [lia|]. rewrite E' in Ht'.
    destruct (IH t' (j - 1)%nat (length (B h') - 1)%nat) as (t2 & -> & Ht2); [done|congruence|lia|].
    exists t2. split; [done|]. rewrite E' in Ht2.
    pose proof (base_S _ _ _ E') as Eb. replace (j - 1 + 1)%nat with j in Eb by lia. rewrite Eb.
    destruct (Nat.ltb_spec (length (B h') - 1) (length (B h'))).
    + unfold prev_pos. destruct (Nat.eqb_spec (base (j - 1) + length (B h')) 0); [lia|].
      by replace (base (j - 1) + length (B h') - 1)%nat with (base (j - 1) + (length (B h') - 1))%nat by lia.
    + by replace (base (j - 1) + length (B h'))%nat with (base (j - 1)) by lia.
Qed.

(** *** Seeking *)

Lemma in_block_entries l e : e ∈ block_entries l -> exists k h, (k, h) ∈ l /\ e ∈ B h.
Proof.
  unfold block_entries. rewrite list_elem_of_In, in_concat. intros (b & Hb & He).
  apply in_map_iff in Hb as ((k & h) & <- & Hin). exists k, h. by rewrite !list_elem_of_In.
Qed.

Lemma seek_position target :
  lower_bound C target (block_entries ikvs) =
  (base (lower_bound C target ikvs) +
   match ikvs !! lower_bound C target ikvs with Some (_, h) => lower_bound C target (B h) | None => 0 end)%nat.
Proof.
  set (j := lower_bound C target ikvs).
  assert (Hbefore : forall e, e ∈ block_entries (take j ikvs) -> Compare (Comparator := C) e.1 target = Lt).
  { intros e (k & h & [n Hn]%list_elem_of_lookup & He)%in_block_entries.
    apply lookup_take_Some in Hn as [Hn Hlt]. pose proof (lower_bound_before _ _ _ _ _ Hlt Hn).
    eapply Compare_le_lt_trans; [|done]. by eapply Hle. }
  destruct (ikvs !! j) as [[k h]|] eqn:E.
  - rewrite (entries_split _ _ _ E), (lower_bound_app_lt _ _ _ Hbefore). unfold base. f_equal.
    apply lower_bound_app_ge. intros e (k' & h' & [n Hn]%list_elem_of_lookup & He)%in_block_entries Hlt.
    rewrite lookup_drop in Hn. apply (lower_bound_here _ _ _ _ E).
    eapply Compare_lt_trans; [|exact Hlt]. by eapply (Hgt j (j + 1 + n)); [..|lia|].
  - apply lookup_ge_None in E. rewrite <- (firstn_all2 ikvs E) at 1.
    rewrite <- (app_nil_r (block_entries _)), (lower_bound_app_lt _ _ _ Hbefore). done.
Qed.

Lemma pos_index_data t i :
  two_level_pos t i -> (i < length (block_entries ikvs))%nat ->
  exists j k h p, tl_at t j p /\ ikvs !! j = Some (k, h) /\ (p < length (B h))%nat /\ i = (base j + p)%nat /\
    wrapper_pos (B h) (PD h) (data_iter_ t) p.
Proof.
  intros [Hs [(_ & _ & ->)|(j & k & h & p & Hi & E & Hd & Hp & ->)]] Hlt; [lia|].
  exists j, k, h, p. split.
  - split; [done|]. split; [done|]. left. split; [by eapply lookup_lt_Some|done].
  - split; [done|]. split; [done|]. split; [done|]. destruct Hd as (k' & h' & E' & _ & Hd).
    rewrite E in E'. by injection E' as <- <-.
Qed.

Lemma pos_of_lookup t i kv :
  two_level_pos t i -> block_entries ikvs !! i = Some kv ->
  exists h p, IteratorLaws Wrapper_Iterator C (B h) (wrapper_pos (B h) (PD h)) /\
    wrapper_pos (B h) (PD h) (data_iter_ t) p /\ B h !! p = Some kv /\ TwoLevel_Valid t = true.
Proof.
  intros Ht E. destruct (pos_index_data t i Ht) as (j & k & h & p & _ & Ej & Hp & -> & Hd); [by eapply lookup_lt_Some|].
  pose proof (data_laws j k h Ej) as Hl. exists h, p. split; [done|]. split; [done|].
  rewrite (entries_lookup _ _ _ _ Ej Hp) in E. split; [done|]. unfold TwoLevel_Valid.
  rewrite (pos_valid _ _ Hd). by apply Nat.ltb_lt.
Qed.

(** A move of the data iterator. *)
Lemma with_data_at t j p p' k h w :
  tl_at t j p -> ikvs !! j = Some (k, h) -> wrapper_pos (B h) (PD h) w p' -> tl_at (with_data t w) j p'.
Proof.
  intros (Hs & Hi & [[Hj Hd]|[-> _]]) E Hw; [|by apply lookup_lt_Some in E; lia].
  split; [done|]. split; [done|]. left. split; [done|]. destruct Hd as (k' & h' & E' & Eh & _).
  rewrite E in E'. injection E' as <- <-. by exists k, h.
Qed.

(** Enough rounds for the skipping loops. *)
Context (Hfuel : (length ikvs <= fuel)%nat).

Lemma two_level_last t i :
  two_level_pos t i ->
  exists t', TwoLevel_SeekToLast block_function fuel t = Some t' /\ two_level_pos t' (length (block_entries ikvs) - 1).
Proof.
  intros Ht%two_level_wf. unfold TwoLevel_SeekToLast.
  destruct (seek_with_spec it_SeekToLast it_SeekToLast (length ikvs - 1) (fun b => (length b - 1)%nat) t)
    as (t' & -> & Ht'); [..|done|].
  { intros w j Hw. by apply (pos_last _ _ Hw). }
  { intros. by eapply last_data. }
  cbn [mbind option_bind]. destruct (skip_backward_spec fuel t' _ _ Ht') as (t2 & E2 & Ht2); [by intros ->|lia|].
  exists t2. split; [exact E2|].
  destruct (ikvs !! (length ikvs - 1)%nat) as [[k h]|] eqn:E.
  + pose proof (base_S _ _ _ E) as Eb. pose proof (lookup_lt_Some _ _ _ E).
    replace (length ikvs - 1 + 1)%nat with (length ikvs) in Eb by lia. rewrite base_end in Eb. rewrite Eb.
    destruct (Nat.ltb_spec (length (B h) - 1) (length (B h))).
    * by replace (base (length ikvs - 1) + length (B h) - 1)%nat with (base (length ikvs - 1) + (length (B h) - 1))%nat by lia.
    * unfold prev_pos in Ht2. rewrite Eb in Ht2. replace (length (B h)) with 0%nat in * by lia.
      rewrite Nat.add_0_r in *. destruct (Nat.eqb_spec (base (length ikvs - 1)) 0) as [->|]; done.
  + apply lookup_ge_None in E. assert (ikvs = []) as E0 by (destruct ikvs; [done|cbn in *; lia]).
    rewrite E0 in Ht2 |- *. done.
Qed.

Lemma two_level_prev t i :
  two_level_pos t i -> (i < length (block_entries ikvs))%nat ->
  exists t', TwoLevel_Prev block_function fuel t = Some t' /\
    two_level_pos t' (if (i =? 0)%nat then length (block_entries ikvs) else (i - 1)%nat).
Proof.
  intros Ht Hlt. destruct (pos_index_data t i Ht Hlt) as (j & k & h & p & Hat & E & Hp & -> & Hd).
  pose proof (data_laws j k h E). unfold TwoLevel_Prev, TwoLevel_Valid. rewrite (pos_valid _ _ Hd), (proj2 (Nat.ltb_lt _ _) Hp).
  destruct (pos_prev _ _ Hd Hp) as (w & -> & Hw). cbn [mbind option_bind].
  destruct (skip_backward_spec fuel (with_data t w) j (if (p =? 0)%nat then length (B h) else (p - 1)%nat))
    as (t2 & E2 & Ht2); [by eapply with_data_at|congruence|lia|].
  exists t2. split; [exact E2|]. rewrite E in Ht2. unfold prev_pos in Ht2. destruct (Nat.eqb_spec p 0) as [->|].
  + rewrite Nat.ltb_irrefl in Ht2. by rewrite Nat.add_0_r.
  + destruct (Nat.ltb_spec (p - 1) (length (B h))); [|lia]. destruct (Nat.eqb_spec (base j + p) 0); [lia|].
    by replace (base j + p - 1)%nat with (base j + (p - 1))%nat by lia.
Qed.

#[export] Instance TwoLevel_laws :
  IteratorLaws (TwoLevel_Iterator block_function fuel) C (block_entries ikvs) two_level_pos.
Proof.
  split; cbn [TwoLevel_Iterator it_Valid it_SeekToFirst it_SeekToLast it_Seek it_Next it_Prev it_key it_value it_status].
  - intros t i [_ [(_ & _ & ->)|(j & k & h & p & _ & E & _ & Hp & ->)]]; [done|].
    pose proof (base_lt _ _ _ _ E Hp). lia.
  - intros t i Ht. destruct (Nat.ltb_spec i (length (block_entries ikvs))) as [Hlt|Hge].
    + destruct (lookup_lt_is_Some_2 _ _ Hlt) as [kv E]. destruct (pos_of_lookup t i kv Ht E) as (? & ? & _ & _ & _ & Hv). exact Hv.
    + destruct Ht as [_ [([_ Hn] & _)|(j & k & h & p & _ & E & _ & Hp & ->)]]; [done|].
      pose proof (base_lt _ _ _ _ E Hp). lia.
  - intros t i Ht. destruct (two_level_wf _ _ Ht) as ([Hs _] & [j Hi] & Hd). unfold TwoLevel_status. unfold index_at in Hi.
    rewrite (pos_status _ _ Hi). cbn [negb ok]. destruct Hd as [Hn|(j' & p & Hd)]; [by rewrite (has_data_none _ Hn)|].
    by rewrite (data_status _ _ _ Hd), andb_false_r.
  - intros t i k v Ht E. destruct (pos_of_lookup t i _ Ht E) as (h & p & Hl & Hd & Ep & Hv). unfold TwoLevel_key.
    rewrite Hv. by apply (pos_key _ _ _ _ Hd Ep).
  - intros t i k v Ht E. destruct (pos_of_lookup t i _ Ht E) as (h & p & Hl & Hd & Ep & Hv). unfold TwoLevel_value.
    rewrite Hv. by apply (pos_value _ _ _ _ Hd Ep).
  - intros t i Ht%two_level_wf. unfold TwoLevel_SeekToFirst.
    destruct (seek_with_spec it_SeekToFirst it_SeekToFirst 0 (fun _ => 0%nat) t) as (t' & -> & Ht'); [..|done|].
    { intros w j Hw. by apply (pos_first _ _ Hw). }
    { intros. by eapply first_data. }
    cbn [mbind option_bind]. apply (skip_forward_spec fuel t' 0 0); [|done|lia].
    by destruct (ikvs !! 0%nat) as [[? ?]|].
  - apply two_level_last.
  - intros t i target Ht%two_level_wf _. unfold TwoLevel_Seek.
    destruct (seek_with_spec (fun w => it_Seek w target) (fun w => it_Seek w target) (lower_bound C target ikvs)
      (lower_bound C target) t) as (t' & -> & Ht'); [..|done|].
    { intros w j Hw. by apply (pos_seek _ _ target Hw). }
    { intros j k h w p E Hp. pose proof (data_laws j k h E). by apply (pos_seek _ _ target Hp). }
    cbn [mbind option_bind]. rewrite seek_position.
    apply (skip_forward_spec fuel t' _ _ Ht'); [by intros ->|lia].
  - intros t i Ht Hlt. destruct (pos_index_data t i Ht Hlt) as (j & k & h & p & Hat & E & Hp & -> & Hd).
    pose proof (data_laws j k h E). unfold TwoLevel_Next, TwoLevel_Valid. rewrite (pos_valid _ _ Hd), (proj2 (Nat.ltb_lt _ _) Hp).
    destruct (pos_next _ _ Hd Hp) as (w & -> & Hw). cbn [mbind option_bind]. rewrite <- Nat.add_assoc.
    apply skip_forward_spec; [by eapply with_data_at|congruence|lia].
  - apply two_level_prev.
Qed.

Lemma NewTwoLevelIterator_pos index_iter arg i :
  PI index_iter i -> EI arg ->
  exists t : TwoLevelIterator SI SD Arg, NewTwoLevelIterator index_iter arg = Some t /\
    two_level_pos t (length (block_entries ikvs)).
Proof.
  intros Hp Ha. unfold NewTwoLevelIterator. destruct (Wrapper_Set_pos Wrapper_new _ i Hp) as (w & -> & Hw). cbn.
  eexists. split; [done|]. split; [done|]. left. split; [done|]. split; [by exists i|done].
Qed.
End TwoLevelLaws.

Arguments block_entries B l : clear implicits.

(** When the index is a cursor in entries whose keys separate the blocks
    they point to, and the block function opens each block as a cursor, in
    whatever state the cache behind it is, the two-level iterator is a cursor
    in the concatenation of the blocks, empty blocks included; one round of
    the skipping loops per index entry is enough. *)
Theorem two_level_iterator_correct {SI SD Arg : Type} {II : Iterator SI} {ID : Iterator SD} {C : Comparator}
    {L : ComparatorLaws C} (block_function : Arg -> bytes -> option (SD * Arg)) (fuel : nat) (ikvs : list kv)
    (B : bytes -> list kv) (PI : SI -> nat -> Prop) (PD : bytes -> SD -> nat -> Prop) (EI : Arg -> Prop)
    (index_iter : SI) (arg : Arg)
    (HI : IteratorLaws II C ikvs PI) (Hindex : exists i, PI index_iter i) (Harg : EI arg)
    (HD : forall k h, (k, h) ∈ ikvs -> IteratorLaws ID C (B h) (PD h))
    (Hopen : forall k h a, (k, h) ∈ ikvs -> EI a -> exists it a' p, block_function a h = Some (it, a') /\ PD h it p /\ EI a')
    (Hle : forall j k h e, ikvs !! j = Some (k, h) -> e ∈ B h -> Compare (Comparator := C) e.1 k <> Gt)
    (Hgt : forall j j' k h k' h' e, ikvs !! j = Some (k, h) -> ikvs !! j' = Some (k', h') -> (j < j')%nat ->
      e ∈ B h' -> Compare (Comparator := C) k e.1 = Lt)
    (Hfuel : (length ikvs <= fuel)%nat) :
  exists it pos, NewTwoLevelIterator index_iter arg = Some it /\
    IteratorLaws (TwoLevel_Iterator block_function fuel) C (block_entries B ikvs) pos /\
    pos it (length (block_entries B ikvs)).
Proof.
  destruct Hindex as [i Hi].
  destruct (NewTwoLevelIterator_pos (SD := SD) (B := B) (PD := PD) index_iter arg i Hi Harg) as (t & E & Ht).
  exists t, (two_level_pos (ikvs := ikvs) (B := B) (PI := PI) (PD := PD) (EI := EI)). split; [done|]. split; [|done].
  by apply TwoLevel_laws.
Qed.

Lemma two_level_iterator_correct_witness :
  exists (index : BlockIter) (open : nat -> bytes -> option (BlockIter * nat)) it pos,
    NewTwoLevelIterator index 0%nat = Some it /\
    IteratorLaws (TwoLevel_Iterator open 2) BytewiseComparator
      [(cstr "a", cstr "1"); (cstr "c", cstr "3"); (cstr "e", cstr "5")] pos /\ pos it 3%nat.
Proof.
  destruct (built_block_iterator (C := BytewiseComparator) 1 [(cstr "d", cstr "x"); (cstr "e", cstr "y")])
    as (index & PI & _ & LI & HI); [lia|repeat constructor|reflexivity|].
  destruct (built_block_iterator (C := BytewiseComparator) 2 [(cstr "a", cstr "1"); (cstr "c", cstr "3")])
    as (a & P & _ & LA & HA); [lia|repeat constructor|reflexivity|].
  destruct (built_block_iterator (C := BytewiseComparator) 2 [(cstr "e", cstr "5")])
    as (b & Q & _ & LB & HB); [lia|repeat constructor|reflexivity|].
  exists index, (fun n h => Some (if Slice_eqb h (cstr "x") then a else b, S n)).
  apply (two_level_iterator_correct (L := BytewiseComparator_laws)
    (fun n h => Some (if Slice_eqb h (cstr "x") then a else b, S n)) 2
    [(cstr "d", cstr "x"); (cstr "e", cstr "y")]
    (fun h => if Slice_eqb h (cstr "x") then [(cstr "a", cstr "1"); (cstr "c", cstr "3")] else [(cstr "e", cstr "5")])
    PI (fun h => if Slice_eqb h (cstr "x") then P else Q) (fun _ => True) index 0%nat LI).
  - eauto.
  - exact I.
  - intros k h [[= -> ->]|[[= -> ->]|[]%elem_of_nil]%elem_of_cons]%elem_of_cons; assumption.
  - intros k h n [[= -> ->]|[[= -> ->]|[]%elem_of_nil]%elem_of_cons]%elem_of_cons _; eexists _, _, _;
      (split; [reflexivity|]; split; [eassumption|exact I]).
  - intros [|[|j]] k h e [= <- <-] He; cbn in He; repeat (apply elem_of_cons in He as [->|He]; [done|]); by apply elem_of_nil in He.
  - intros [|[|j]] [|[|j']] k h k' h' e [= <- <-] [= <- <-] Hlt He; try lia.
    apply elem_of_cons in He as [->|He]; [reflexivity|by apply elem_of_nil in He].
  - reflexivity.
Defined.
