(* ===== verification/UserView.v ===== *)
(** * The user's view of a sequence of entries

    The specification of db/db_iter and of the reads of the database: the
    entries a user sees at a sequence number, among entries sorted by internal
    key. *)

From Stdlib Require Import Sorted.
From stdpp Require Import sorting.
From S2P Require Import Prelude Comparator DbFormat MemTable Iterator.

Section ViewDefs.
Variable C : Comparator.
Variable snapshot : Z.

(** The entry of an iterator over internal keys. *)
Definition entry_kv (e : Entry) : kv := (entry_ikey e, e_value e).

Definition same_user_key (e e' : Entry) : bool :=
  bool_decide (Compare (Comparator := C) (e_user_key e') (e_user_key e) = Eq).

(** [e] is a value, visible, and no entry before it is a visible one of the
    same user key. *)
Definition is_head (before : list Entry) (e : Entry) : bool :=
  (e_seq e <=? snapshot) && bool_decide (e_type e = kTypeValue) &&
  negb (existsb (fun e' => (e_seq e' <=? snapshot) && same_user_key e e') before).

(** The keys and values a user sees at the snapshot. *)
Fixpoint user_view_from (before es : list Entry) : list kv :=
  match es with
  | [] => []
  | e :: es =>
      (if is_head before e then [(e_user_key e, e_value e)] else []) ++ user_view_from (before ++ [e]) es
  end.
Definition user_view (es : list Entry) : list kv := user_view_from [] es.

Definition entries_sorted (es : list Entry) : Prop := kvs_sorted (InternalKeyComparator C) (map entry_kv es).

End ViewDefs.

Section View.
Context {C : Comparator} {L : ComparatorLaws C}.
Variable snapshot : Z.
Notation same_user_key := (same_user_key C).
Notation is_head := (is_head C snapshot).
Notation user_view_from := (user_view_from C snapshot).
Notation user_view := (user_view C snapshot).
Notation entries_sorted := (entries_sorted C).

Lemma user_view_from_app b es es' :
  user_view_from b (es ++ es') = user_view_from b es ++ user_view_from (b ++ es) es'.
Proof.
  revert b. induction es as [|e es IH]; intros b; cbn; [by rewrite app_nil_r|].
  rewrite IH, <- !app_assoc. done.
Qed.

Context {es : list Entry} (Hok : Forall entry_ok es) (Hsorted : entries_sorted es).

Lemma entry_ok_at i e : es !! i = Some e -> entry_ok e.
Proof. intros E. by eapply Forall_lookup_1. Qed.

Lemma entry_before i j e e' :
  es !! i = Some e -> es !! j = Some e' -> (i < j)%nat ->
  Compare (Comparator := C) (e_user_key e) (e_user_key e') <> Gt /\
  (Compare (Comparator := C) (e_user_key e) (e_user_key e') = Eq -> e_seq e' <= e_seq e).
Proof.
  intros Hi Hj Hlt.
  assert (H : InternalKey_Compare C (entry_ikey e) (entry_ikey e') = Lt).
  { apply (kvs_sorted_lookup (C := InternalKeyComparator C) (map entry_kv es) i j _ (e_value e) _ (e_value e') Hsorted).
    - rewrite list_lookup_fmap, Hi. done.
    - rewrite list_lookup_fmap, Hj. done.
    - done. }
  unfold entry_ikey in H. pose proof (entry_ok_at _ _ Hi) as (H1 & _). pose proof (entry_ok_at _ _ Hj) as (H2 & _).
  rewrite InternalKey_Compare_encoded in H by done.
  destruct (Compare (e_user_key e) (e_user_key e')); [|done..]. split; [done|]. intros _.
  destruct (Z.compare_spec (e_seq e') (e_seq e)); [lia|lia|done].
Qed.

Lemma entry_before_le i j e e' :
  es !! i = Some e -> es !! j = Some e' -> (i <= j)%nat ->
  Compare (Comparator := C) (e_user_key e) (e_user_key e') <> Gt.
Proof.
  intros Hi Hj Hle. destruct (decide (i = j)) as [->|].
  - simplify_eq. by rewrite Compare_refl.
  - apply (entry_before i j); [done..|lia].
Qed.

(** Entry [i] is in the view. *)
Definition head (i : nat) : Prop := exists e, es !! i = Some e /\ is_head (take i es) e = true.

Lemma head_spec i e :
  es !! i = Some e ->
  head i <-> e_seq e <= snapshot /\ e_type e = kTypeValue /\
    forall j e', (j < i)%nat -> es !! j = Some e' -> e_seq e' <= snapshot ->
      Compare (Comparator := C) (e_user_key e') (e_user_key e) <> Eq.
Proof.
  intros E. unfold head, is_head. split.
  - intros (e0 & E0 & H). simplify_eq. apply andb_prop in H as [[H1%Z.leb_le H2%bool_decide_eq_true]%andb_prop H3].
    split; [done|]. split; [done|]. intros j e' Hj Ej Hv Heq. apply negb_true_iff in H3.
    apply not_true_iff_false in H3. apply H3, existsb_exists. exists e'. split.
    + apply list_elem_of_In, list_elem_of_lookup. exists j. by apply lookup_take_Some.
    + apply andb_true_intro. split; [by apply Z.leb_le|by apply bool_decide_eq_true].
  - intros (H1 & H2 & H3). exists e. split; [done|].
    rewrite (proj2 (Z.leb_le _ _) H1), (bool_decide_true _ H2). cbn. apply negb_true_iff, not_true_iff_false.
    intros (e' & [j Hj]%list_elem_of_In%list_elem_of_lookup & [Hv%Z.leb_le Hk%bool_decide_eq_true]%andb_prop)%existsb_exists.
    apply lookup_take_Some in Hj as [Ej Hlt]. by apply (H3 j e').
Qed.

(** The number of entries of the view before entry [p]. *)
Definition vcount (p : nat) : nat := length (user_view (take p es)).

Lemma view_split p e :
  es !! p = Some e ->
  user_view es = user_view (take p es) ++ (if is_head (take p es) e then [(e_user_key e, e_value e)] else []) ++
    user_view_from (take (p + 1) es) (drop (p + 1) es).
Proof.
  intros E. rewrite <- (take_drop_middle _ _ _ E) at 1. unfold user_view.
  rewrite user_view_from_app. cbn. by rewrite Nat.add_1_r, (take_S_r _ _ _ E).
Qed.

Lemma view_at_head p e :
  es !! p = Some e -> head p -> user_view es !! vcount p = Some (e_user_key e, e_value e).
Proof.
  intros E (e' & E' & Hh). rewrite E in E'. injection E' as <-. rewrite (view_split p e E), Hh. unfold vcount.
  by rewrite lookup_app_r, Nat.sub_diag by lia.
Qed.

Lemma vcount_step p :
  (p < length es)%nat -> (vcount p <= vcount (p + 1))%nat /\ (~ head p -> vcount (p + 1) = vcount p) /\
    (head p -> vcount (p + 1) = (vcount p + 1)%nat).
Proof.
  intros [e E]%lookup_lt_is_Some_2. unfold vcount. rewrite Nat.add_1_r, (take_S_r _ _ _ E). unfold user_view.
  rewrite user_view_from_app, length_app. cbn [user_view_from app]. rewrite app_nil_r.
  destruct (is_head (take p es) e) eqn:Eh.
  - cbn. split; [lia|]. split; [|lia]. intros H. destruct H. by exists e.
  - cbn. split; [lia|]. split; [lia|]. intros (e' & E' & H'). simplify_eq. congruence.
Qed.

Lemma vcount_none a b :
  (a <= b <= length es)%nat -> (forall j, (a <= j < b)%nat -> ~ head j) -> vcount b = vcount a.
Proof.
  intros [Hab Hb] H. induction Hab as [|b Hab IH]; [done|].
  destruct (vcount_step b ltac:(lia)) as (_ & Hs & _). rewrite <- Nat.add_1_r, Hs by (apply H; lia).
  apply IH; [lia|]. intros j Hj. apply H. lia.
Qed.

Lemma vcount_end : vcount (length es) = length (user_view es).
Proof. unfold vcount. by rewrite firstn_all. Qed.

Lemma vcount_0 : vcount 0 = 0%nat.
Proof. done. Qed.

Lemma vcount_mono a b : (a <= b <= length es)%nat -> (vcount a <= vcount b)%nat.
Proof.
  intros [Hab Hb]. induction Hab as [|b Hab IH]; [done|].
  destruct (vcount_step b ltac:(lia)) as (Hs & _). rewrite <- Nat.add_1_r. specialize (IH ltac:(lia)). lia.
Qed.

Lemma head_vcount_lt p : head p -> (vcount p < length (user_view es))%nat.
Proof. intros Hh. pose proof Hh as (e & E & _). eapply lookup_lt_Some, view_at_head; done. Qed.

(** A later head is of a larger user key. *)
Lemma head_later p q e e' :
  es !! p = Some e -> es !! q = Some e' -> (p < q)%nat -> e_seq e <= snapshot -> head q ->
  Compare (Comparator := C) (e_user_key e) (e_user_key e') = Lt.
Proof.
  intros Ep Eq Hlt Hv Hh. apply (head_spec q e' Eq) in Hh as (_ & _ & Hh).
  pose proof (Hh p e Hlt Ep Hv). pose proof (proj1 (entry_before p q e e' Ep Eq Hlt)).
  by destruct (Compare (e_user_key e) (e_user_key e')).
Qed.

(** Every entry of the view is that of a head. *)
Lemma view_lookup i : (i < length (user_view es))%nat -> exists p, head p /\ vcount p = i.
Proof.
  rewrite <- vcount_end. generalize (le_n (length es)). generalize (length es) at 1 3. intros n.
  induction n as [|n IH]; intros Hn Hi; [by rewrite vcount_0 in Hi; lia|].
  destruct (vcount_step n ltac:(lia)) as (_ & H0 & H1). rewrite Nat.add_1_r in *.
  destruct (decide (vcount n = i)) as [Hv|Hv].
  - exists n. split; [|done]. destruct (lookup_lt_is_Some_2 es n ltac:(lia)) as [e E].
    destruct (is_head (take n es) e) eqn:Eh; [by exists e|]. rewrite H0 in Hi; [lia|].
    intros (e' & E' & H'). simplify_eq. congruence.
  - apply IH; [lia|]. destruct (lookup_lt_is_Some_2 es n ltac:(lia)) as [e E].
    destruct (is_head (take n es) e) eqn:Eh.
    + rewrite H1 in Hi by (by exists e). lia.
    + rewrite H0 in Hi; [lia|]. intros (e' & E' & H'). simplify_eq. congruence.
Qed.

Lemma entry_before_type i j e e' :
  es !! i = Some e -> es !! j = Some e' -> (i < j)%nat ->
  Compare (Comparator := C) (e_user_key e) (e_user_key e') = Eq -> e_seq e' = e_seq e -> e_type e' = kTypeDeletion.
Proof.
  intros Hi Hj Hlt Hk Hs.
  pose proof (kvs_sorted_lookup (C := InternalKeyComparator C) (map entry_kv es) i j (entry_ikey e) (e_value e)
    (entry_ikey e') (e_value e') Hsorted) as H.
  rewrite !list_lookup_fmap, Hi, Hj in H. specialize (H eq_refl eq_refl Hlt).
  change (InternalKey_Compare C (entry_ikey e) (entry_ikey e') = Lt) in H. unfold entry_ikey in H.
  pose proof (entry_ok_at _ _ Hi) as (H1 & _). pose proof (entry_ok_at _ _ Hj) as (H2 & _).
  rewrite InternalKey_Compare_encoded, Hk, Hs, Z.compare_refl in H by done.
  by destruct (e_type e), (e_type e').
Qed.

(** The view: the newest visible entry of each user key, if it is a value. *)
Lemma user_view_elem k v :
  (k, v) ∈ user_view es <->
  exists e, newest_visible (C := C) (e_user_key e) snapshot es e /\ e_type e = kTypeValue /\ k = e_user_key e /\ v = e_value e.
Proof.
  split.
  - intros [i Hi]%list_elem_of_lookup. destruct (view_lookup i) as (p & Hh & Hp); [by eapply lookup_lt_Some|].
    pose proof Hh as (e & E & _). pose proof (view_at_head p e E Hh) as Hv. rewrite Hp, Hi in Hv. injection Hv as -> ->.
    pose proof (proj1 (head_spec p e E) Hh) as (Hvis & Ht & Hf).
    exists e. split; [|done]. split; [by eapply list_elem_of_lookup_2|]. split; [by split; [apply Compare_refl|]|].
    intros e' [j Ej]%list_elem_of_lookup [Hk' Hs']. destruct (Nat.lt_trichotomy j p) as [Hlt|[->|Hgt]].
    + destruct (Hf j e' Hlt Ej Hs'). by apply Compare_eq_sym.
    + by simplify_eq.
    + by apply (entry_before p j e e' E Ej Hgt).
  - intros (e & (Hin & (_ & Hvis) & Hnew) & Ht & -> & ->). apply list_elem_of_lookup in Hin as [p E].
    eapply list_elem_of_lookup_2, (view_at_head p e E). apply (head_spec p e E). split; [done|]. split; [done|].
    intros j e' Hj Ej Hs' Hk. pose proof (proj2 (entry_before j p e' e Ej E Hj) Hk) as H1.
    pose proof (Hnew e' ltac:(by eapply list_elem_of_lookup_2) ltac:(split; [by apply Compare_eq_sym|done])) as H2.
    pose proof (entry_before_type j p e' e Ej E Hj Hk ltac:(lia)). congruence.
Qed.

Lemma user_view_sorted : kvs_sorted C (user_view es).
Proof.
  apply kvs_sorted_of_lookup. intros i j x y Hi Hj Hlt.
  destruct (view_lookup i) as (p & Hp & Ep); [by eapply lookup_lt_Some|].
  destruct (view_lookup j) as (q & Hq & Eq); [by eapply lookup_lt_Some|].
  pose proof Hp as (e & Ee & _). pose proof Hq as (e' & Ee' & _).
  rewrite <- Ep, (view_at_head p e Ee Hp) in Hi. rewrite <- Eq, (view_at_head q e' Ee' Hq) in Hj. simplify_eq.
  assert (Hpq : (p < q)%nat).
  { apply Nat.nle_gt. intros Hle. apply lookup_lt_Some in Ee. pose proof (vcount_mono q p ltac:(lia)). lia. }
  pose proof (proj1 (head_spec p e Ee) Hp) as (Hv & _). by apply (head_later p q e e').
Qed.
End View.

