(* ===== verification/MemIter.v ===== *)
(** * db/memtable: iterating over a memtable

    Models [MemTableIterator] of src/db/memtable.cc as an instance of the iterator
    interface, and says what a scan of a memtable meets: its entries in the order
    of internal keys.  The iterator is a cursor in these, with a [Seek] for targets
    of less than 4 GiB: the length of a longer one would be truncated. *)

From Stdlib Require Import Sorted.
From stdpp Require Import sorting.
From S2P Require Import Prelude Coding Comparator DbFormat Status SkipList MemTable Iterator UserView.

(** An iterator with the table it walks. *)
Definition MemTableIterator : Type := MemTable * SkipList.Iterator.

Section MemTableIterator.
Variable C : Comparator.

Definition on_iter (f : option SkipList.Iterator) (mem : MemTable) : option MemTableIterator := it ← f; Some (mem, it).

#[export] Instance MemTableIterator_Iterator : Iterator MemTableIterator := {|
  it_Valid '(mem, it) := Iter_Valid it;
  it_SeekToFirst '(mem, it) := Some (mem, Iter_SeekToFirst mem);
  it_SeekToLast '(mem, it) := on_iter (Iter_SeekToLast mem) mem;
  it_Seek '(mem, it) k := on_iter (MemIter_Seek C mem k) mem;
  it_Next '(mem, it) := match it with Some _ => Some (mem, Iter_Next mem it) | None => None end;
  it_Prev '(mem, it) := match it with Some _ => on_iter (Iter_Prev (KeyComparator C) mem it) mem | None => None end;
  it_key '(mem, it) := MemIter_key mem it;
  it_value '(mem, it) := MemIter_value mem it;
  it_status _ := OK;
|}.

Definition MemTable_NewIterator (mem : MemTable) : MemTableIterator := (mem, None).
End MemTableIterator.

(** ** What a scan meets *)

Section Scan.
Context {S : Type} {I : Iterator S}.

(** From here on the iterator gives [kvs], and ends without an error. *)
Fixpoint scans (s : S) (kvs : list kv) : Prop :=
  it_status s = OK /\
  match kvs with
  | [] => it_Valid s = false
  | (k, v) :: kvs => it_Valid s = true /\ it_key s = Some k /\ it_value s = Some v /\ exists s', it_Next s = Some s' /\ scans s' kvs
  end.

(** Every cursor does. *)
Lemma cursor_scans (C : Comparator) kvs pos (L : IteratorLaws I C kvs pos) s i : pos s i -> scans s (drop i kvs).
Proof.
  remember (length kvs - i)%nat as n eqn:En. revert s i En. induction n as [|n IH]; intros s i En Hp.
  - rewrite drop_ge by lia. split; [by eapply pos_status|]. rewrite (pos_valid _ _ Hp). apply Nat.ltb_ge. lia.
  - assert (Hi : (i < length kvs)%nat) by lia. destruct (lookup_lt_is_Some_2 _ _ Hi) as [[k v] E]. rewrite (drop_S _ _ _ E). cbn [scans].
    split; [by eapply pos_status|]. rewrite (pos_valid _ _ Hp). split; [by apply Nat.ltb_lt|]. split; [by eapply pos_key|]. split; [by eapply pos_value|].
    destruct (pos_next _ _ Hp Hi) as (s' & Es & Hp'). exists s'. split; [done|]. rewrite Nat.add_1_r in Hp'. apply IH; [lia|done].
Qed.
End Scan.

Section MemScan.
Context {C : Comparator} {L : ComparatorLaws C}.
#[local] Instance MTI : Iterator MemTableIterator := MemTableIterator_Iterator C.

Lemma MemIter_key_entry mem it e : Iter_key mem it = Some (entry_encoding e) -> entry_ok e -> MemIter_key mem it = Some (entry_ikey e).
Proof. intros E He. unfold MemIter_key. rewrite E. cbn. by rewrite entry_encoding_ikey. Qed.

Lemma MemIter_value_entry mem it e : Iter_key mem it = Some (entry_encoding e) -> entry_ok e -> MemIter_value mem it = Some (e_value e).
Proof.
  intros E He. unfold MemIter_value. rewrite E. cbn [fmap option_fmap option_map]. rewrite entry_encoding_ikey by done.
  destruct (entry_parts e He) as (rest & -> & ->). f_equal. rewrite drop_app_exact.
  pose proof (mem_GetLengthPrefixedSlice_put (e_value e) [] ltac:(apply He)) as H. by rewrite app_nil_r in H.
Qed.

Lemma sorted_encodings es :
  Forall entry_ok es -> StronglySorted (fun a b => KeyComparator C a b = Lt) (map entry_encoding es) -> entries_sorted C es.
Proof.
  unfold entries_sorted, kvs_sorted. intros Hok. induction Hok as [|e es He Hok IH]; cbn [map]; intros Hs; [constructor|].
  apply StronglySorted_inv in Hs as [Hs Hf]. constructor; [by apply IH|]. rewrite Forall_map in Hf |- *.
  rewrite Forall_forall in Hf, Hok |- *. intros e' He'. unfold kv_lt. cbn [entry_kv fst Compare InternalKeyComparator].
  rewrite <- KeyComparator_entries by auto. by apply Hf.
Qed.

(** The entries of a memtable in order, and a scan of it. *)
Lemma mem_sorted mem es :
  mem_repr (C := C) mem es -> exists es', es' ≡ₚ es /\ Forall entry_ok es' /\ entries_sorted C es' /\ skip_repr (KeyComparator C) mem (map entry_encoding es').
Proof.
  intros (Hok & ks & Hks & Hp). destruct (Permutation_map_inv _ _ Hp) as (es' & -> & Hp'). exists es'.
  assert (Hok' : Forall entry_ok es') by (by rewrite <- Hp'). split; [done|]. split; [done|]. split; [|done].
  apply sorted_encodings; [done|]. by eapply skip_repr_sorted.
Qed.

Lemma iter_scans mem es it ks :
  iter_at (KeyComparator C) mem ks (map entry_encoding es) it -> Forall entry_ok es -> scans (mem, it) (map entry_kv es).
Proof.
  revert ks it. induction es as [|e es IH]; intros ks it Hit Hok; pose proof (Iter_key_at (KeyComparator C) _ _ _ _ Hit) as Hk; cbn [map scans]; (split; [done|]).
  - cbn. destruct Hit as (_ & h & o1 & o2 & _ & _ & _ & K2 & ->). unfold keys_at in K2. by destruct o2.
  - apply Forall_cons in Hok as [He Hok]. cbn [map hd_error] in Hk.
    assert (Hv : exists n, it = Some n) by (unfold Iter_key in Hk; destruct it; [by eexists|done]). destruct Hv as [n ->].
    unfold entry_kv at 1. split; [done|]. split; [by apply MemIter_key_entry|]. split; [by apply MemIter_value_entry|].
    exists (mem, Iter_Next mem (Some n)). split; [reflexivity|]. exact (IH _ _ (iter_next (KeyComparator C) _ _ _ _ _ Hit) Hok).
Qed.

Lemma MemTable_scans mem es :
  mem_repr (C := C) mem es -> exists es' s, es' ≡ₚ es /\ Forall entry_ok es' /\ entries_sorted C es' /\
    it_SeekToFirst (MemTable_NewIterator mem) = Some s /\ scans s (map entry_kv es').
Proof.
  intros Hm. destruct (mem_sorted mem es Hm) as (es' & Hp & Hok & Hs & Hr). exists es', (mem, Iter_SeekToFirst mem).
  do 3 (split; [assumption|]). split; [reflexivity|]. exact (iter_scans mem es' _ [] (iter_first (KeyComparator C) _ _ Hr) Hok).
Qed.

(** ** The cursor *)

(** A seek is promised for the targets whose length fits in its 32-bit prefix. *)
Definition small_target : Targets := fun t => zlen t < 2 ^ 32.

Lemma EncodeKey_slice t : zlen t < 2 ^ 32 -> mem_GetLengthPrefixedSlice (EncodeKey t) = t.
Proof. intros Ht. pose proof (mem_GetLengthPrefixedSlice_put t [] Ht) as H. by rewrite app_nil_r in H. Qed.

Lemma filter_lower_bound es t : Forall entry_ok es -> entries_sorted C es -> zlen t < 2 ^ 32 ->
  List.filter (key_below (KeyComparator C) (EncodeKey t)) (map entry_encoding es)
    = map entry_encoding (take (lower_bound (InternalKeyComparator C) t (map entry_kv es)) es) /\
  List.filter (fun k => negb (key_below (KeyComparator C) (EncodeKey t) k)) (map entry_encoding es)
    = map entry_encoding (drop (lower_bound (InternalKeyComparator C) t (map entry_kv es)) es).
Proof.
  intros Hok Hs Ht. set (n := lower_bound _ _ _).
  assert (Hb : forall i e, es !! i = Some e -> key_below (KeyComparator C) (EncodeKey t) (entry_encoding e) = (i <? n)%nat).
  { intros i e Ei. rewrite Forall_forall in Hok. assert (He : entry_ok e) by (apply Hok; by eapply list_elem_of_lookup_2).
    pose proof (lower_bound_spec (C := InternalKeyComparator C) t (map entry_kv es) i (entry_ikey e) (e_value e) Hs) as Hlb.
    rewrite list_lookup_fmap, Ei in Hlb. specialize (Hlb eq_refl). fold n in Hlb. unfold key_below, KeyComparator.
    rewrite entry_encoding_ikey, EncodeKey_slice by done. cbn [Compare InternalKeyComparator] in Hlb.
    destruct (Nat.ltb_spec i n) as [Hlt|Hge]; [by rewrite (proj2 Hlb Hlt)|]. destruct (InternalKey_Compare C _ _) eqn:Ec; [done| |done]. pose proof (proj1 Hlb eq_refl). lia. }
  clearbody n. clear Hok Hs Ht. revert n Hb. induction es as [|e es IH]; intros n Hb; cbn [map List.filter]; [by destruct n|].
  rewrite (Hb 0%nat e eq_refl). destruct n as [|n]; cbn [Nat.ltb Nat.leb negb take drop map].
  - destruct (IH 0%nat) as [-> ->]; [intros i x Hx; exact (Hb (S i) x Hx)|]. done.
  - destruct (IH n) as [-> ->]; [intros i x Hx; exact (Hb (S i) x Hx)|]. done.
Qed.

Lemma match_snoc {A} (l : list A) (x : A) (Q : Prop) (P : list A -> A -> Prop) :
  match l ++ [x] with [] => Q | _ => exists l' x', l ++ [x] = l' ++ [x'] /\ P l' x' end -> P l x.
Proof. destruct (l ++ [x]) eqn:E; [by destruct l|]. rewrite <- E. by intros (l' & x' & [-> ->]%app_inj_tail & H). Qed.

Section Cursor.
Context (mem : MemTable) (es : list Entry) (Hok : Forall entry_ok es) (Hs : entries_sorted C es) (Hr : skip_repr (KeyComparator C) mem (map entry_encoding es)).

Definition mem_pos (s : MemTableIterator) (i : nat) : Prop :=
  s.1 = mem /\ (i <= length es)%nat /\ iter_at (KeyComparator C) mem (map entry_encoding (take i es)) (map entry_encoding (drop i es)) s.2.

Lemma mem_pos_at it i e : mem_pos (mem, it) i -> es !! i = Some e -> Iter_key mem it = Some (entry_encoding e) /\ entry_ok e /\ exists n, it = Some n.
Proof.
  intros (_ & _ & Hit) Ei. pose proof (Iter_key_at (KeyComparator C) _ _ _ _ Hit) as Hk. cbn [snd] in *. rewrite (drop_S _ _ _ Ei) in Hk. cbn in Hk.
  split; [done|]. split; [rewrite Forall_forall in Hok; apply Hok; by eapply list_elem_of_lookup_2|]. destruct it as [n|]; [by exists n|done].
Qed.

Lemma mem_pos_end : mem_pos (mem, None) (length es).
Proof. split; [done|]. split; [done|]. rewrite take_ge, drop_ge by done. by apply iter_end. Qed.

Lemma mem_pos_kv i k v : map entry_kv es !! i = Some (k, v) -> exists e, es !! i = Some e /\ k = entry_ikey e /\ v = e_value e.
Proof. rewrite list_lookup_fmap. destruct (es !! i) as [e|] eqn:Ei; [|done]. intros [= <- <-]. by exists e. Qed.

#[export] Instance mem_laws : IteratorLaws (T := small_target) MTI (InternalKeyComparator C) (map entry_kv es) mem_pos.
Proof.
  split; intros [m it] i; cbn [it_Valid it_SeekToFirst it_SeekToLast it_Seek it_Next it_Prev it_key it_value it_status MTI MemTableIterator_Iterator]; unfold mem_pos; cbn [fst snd].
  - intros (_ & Hi & _). by rewrite length_map.
  - intros (-> & Hi & Hit). rewrite length_map. destruct (Nat.ltb_spec i (length es)) as [Hlt|Hge].
    + destruct (lookup_lt_is_Some_2 _ _ Hlt) as [e Ei]. by destruct (mem_pos_at it i e ltac:(done) Ei) as (_ & _ & n & ->).
    + rewrite drop_ge in Hit by done. destruct Hit as (_ & h & o1 & o2 & _ & _ & _ & K2 & ->). unfold keys_at in K2. by destruct o2.
  - done.
  - intros k v Hp (e & Ei & -> & ->)%mem_pos_kv. destruct (Hp) as (-> & _). destruct (mem_pos_at it i e Hp Ei) as (Hk & He & _). by apply MemIter_key_entry.
  - intros k v Hp (e & Ei & -> & ->)%mem_pos_kv. destruct (Hp) as (-> & _). destruct (mem_pos_at it i e Hp Ei) as (Hk & He & _). by apply MemIter_value_entry.
  - intros (-> & _). eexists. split; [done|]. split; [done|]. split; [lia|]. exact (iter_first (KeyComparator C) _ _ Hr).
  - intros (-> & _). destruct (iter_last (KeyComparator C) _ _ Hr) as (it' & E & Hl). eexists. rewrite E. split; [done|]. rewrite length_map.
    destruct (last es) as [e|] eqn:El.
    + apply last_Some in El as [es' El]. rewrite El in Hl |- *. split; [done|]. rewrite length_app, Nat.add_sub. cbn [length]. split; [lia|].
      rewrite take_app_length, drop_app_length. rewrite map_app in Hl. exact (match_snoc _ _ _ _ Hl).
    + apply last_None in El. assert (Hn : it' = None) by by rewrite El in Hl. rewrite Hn. pose proof mem_pos_end as Hend. unfold mem_pos in Hend; rewrite El in Hend |- *. exact Hend.
  - intros t (-> & _) Ht. destruct (iter_seek (KeyComparator C) _ _ (EncodeKey t) Hr) as (it' & E & Hl). unfold MemIter_Seek. eexists. rewrite E. split; [done|].
    destruct (filter_lower_bound es t Hok Hs Ht) as [E1 E2]. rewrite E1, E2 in Hl. split; [done|]. split; [|done].
    etransitivity; [apply lower_bound_le|by rewrite length_map].
  - intros Hp Hi. rewrite length_map in Hi. destruct (Hp) as (-> & _ & Hit). destruct (lookup_lt_is_Some_2 _ _ Hi) as [e Ei].
    destruct (mem_pos_at it i e Hp Ei) as (_ & _ & n & ->). eexists. split; [done|]. split; [done|]. split; [lia|]. cbn [snd] in *.
    rewrite (drop_S _ _ _ Ei) in Hit. cbn [map] in Hit. apply (iter_next (KeyComparator C)) in Hit. rewrite Nat.add_1_r, (take_S_r _ _ _ Ei), map_app. exact Hit.
  - intros Hp Hi. rewrite length_map in Hi. destruct (Hp) as (-> & _ & Hit). destruct (lookup_lt_is_Some_2 _ _ Hi) as [e Ei].
    destruct (mem_pos_at it i e Hp Ei) as (_ & _ & n & ->). cbn [snd] in Hit. rewrite (drop_S _ _ _ Ei) in Hit. cbn [map] in Hit.
    destruct (iter_prev (KeyComparator C) _ _ _ _ _ Hit) as (it' & E & Hl). rewrite E. eexists. split; [done|]. rewrite length_map.
    destruct i as [|i]; [rewrite (Hl : it' = None); exact mem_pos_end|]. cbn [Nat.eqb]. rewrite Nat.sub_succ, Nat.sub_0_r.
    destruct (lookup_lt_is_Some_2 es i) as [e' Ei']; [lia|]. rewrite (take_S_r _ _ _ Ei'), map_app in Hl. apply match_snoc in Hl.
    split; [done|]. split; [lia|]. rewrite (drop_S _ _ _ Ei'), (drop_S _ _ _ Ei). exact Hl.
Qed.
End Cursor.
End MemScan.
