(* ===== verification/DBIter.v ===== *)
(** * db/db_iter: the user's view of the entries

    Models src/db/db_iter.cc: an iterator over user keys at a sequence number,
    made from an iterator over internal keys.  [db_->RecordReadSample(k)] is
    recorded in the list of samples, newest first.  The capacity of
    [saved_value_] is not modelled: both branches of [ClearSavedValue] leave it
    empty. *)

From Stdlib Require Import Sorted.
From stdpp Require Import sorting.
From S2P Require Import Prelude Coding Comparator DbFormat Status MemTable Random Iterator BlockBuilder Block UserView.

Inductive Direction := kForward | kReverse.

#[global] Instance Direction_eq_dec : EqDecision Direction.
Proof. solve_decision. Defined.

Section DBIter.
Context {S : Type} {I : Iterator S}.
Variable user_comparator_ : Comparator.
Variable sequence_ : Z.
(** A bound on the iterations of the scanning loops. *)
Variable fuel : nat.

Record DBIter := mkDBIter {
  iter_ : S;
  status_ : Status;
  saved_key_ : bytes;
  saved_value_ : bytes;
  direction_ : Direction;
  valid_ : bool;
  rnd_ : Z;
  bytes_until_read_sampling_ : Z;
  samples : list bytes;
}.

Definition RandomCompactionPeriod (rnd : Z) : Z * Z := Uniform rnd (2 * kReadBytesPeriod).

Definition NewDBIterator (internal_iter : S) (seed : Z) : DBIter :=
  let '(period, rnd) := RandomCompactionPeriod (Random_new seed) in
  mkDBIter internal_iter OK [] [] kForward false rnd period [].

Definition with_iter (it : S) (s : DBIter) : DBIter :=
  mkDBIter it (status_ s) (saved_key_ s) (saved_value_ s) (direction_ s) (valid_ s) (rnd_ s)
    (bytes_until_read_sampling_ s) (samples s).
Definition with_status (st : Status) (s : DBIter) : DBIter :=
  mkDBIter (iter_ s) st (saved_key_ s) (saved_value_ s) (direction_ s) (valid_ s) (rnd_ s)
    (bytes_until_read_sampling_ s) (samples s).
Definition with_saved (key value : bytes) (s : DBIter) : DBIter :=
  mkDBIter (iter_ s) (status_ s) key value (direction_ s) (valid_ s) (rnd_ s)
    (bytes_until_read_sampling_ s) (samples s).
Definition with_direction (d : Direction) (s : DBIter) : DBIter :=
  mkDBIter (iter_ s) (status_ s) (saved_key_ s) (saved_value_ s) d (valid_ s) (rnd_ s)
    (bytes_until_read_sampling_ s) (samples s).
Definition with_valid (v : bool) (s : DBIter) : DBIter :=
  mkDBIter (iter_ s) (status_ s) (saved_key_ s) (saved_value_ s) (direction_ s) v (rnd_ s)
    (bytes_until_read_sampling_ s) (samples s).
Definition with_sampling (rnd until : Z) (smp : list bytes) (s : DBIter) : DBIter :=
  mkDBIter (iter_ s) (status_ s) (saved_key_ s) (saved_value_ s) (direction_ s) (valid_ s) rnd until smp.

Definition SaveKey (k : bytes) (s : DBIter) : DBIter := with_saved k (saved_value_ s) s.
Definition ClearSavedValue (s : DBIter) : DBIter := with_saved (saved_key_ s) [] s.

(** [while (bytes_until_read_sampling_ < bytes_read) ...]; two rounds for every
    byte that is missing are enough. *)
Fixpoint sampling_loop (fuel : nat) (k : bytes) (bytes_read : Z) (st : Z * Z * list bytes)
    : option (Z * Z * list bytes) :=
  let '(rnd, until, smp) := st in
  if until <? bytes_read then
    match fuel with
    | O => None
    | Datatypes.S fuel =>
        let '(period, rnd) := RandomCompactionPeriod rnd in
        sampling_loop fuel k bytes_read (rnd, u64 (until + period), k :: smp)
    end
  else Some (rnd, until, smp).

Definition sampling_fuel (bytes_read until : Z) : nat := Z.to_nat (2 * (bytes_read - until)).

(** The result and [*ikey] when it is true. *)
Definition ParseKey (s : DBIter) : option (option ParsedInternalKey * DBIter) :=
  k ← it_key (iter_ s);
  v ← it_value (iter_ s);
  let bytes_read := u64 (zlen k + zlen v) in
  let until := bytes_until_read_sampling_ s in
  '(rnd, until, smp) ← sampling_loop (sampling_fuel bytes_read until) k bytes_read (rnd_ s, until, samples s);
  let s := with_sampling rnd (u64 (until - bytes_read)) smp s in
  match ParseInternalKey k with
  | None => Some (None, with_status (Corruption (cstr "corrupted internal key in DBIter") []) s)
  | Some ikey => Some (Some ikey, s)
  end.

(** [while (iter_->Valid())] after the body of a do-while loop; leaving it. *)
Definition find_next_end (s : DBIter) : DBIter := with_valid false (with_saved [] (saved_value_ s) s).

Definition hidden (skipping : bool) (skip : bytes) (ikey : ParsedInternalKey) : bool :=
  skipping && bool_decide (Compare (Comparator := user_comparator_) (user_key ikey) skip <> Gt).

(** The loop of [FindNextUserEntry]; its argument [skip] is [&saved_key_] in
    every call. *)
Fixpoint find_next (fuel : nat) (skipping : bool) (s : DBIter) : option DBIter :=
  match fuel with
  | O => None
  | Datatypes.S fuel =>
      '(parsed, s) ← ParseKey s;
      let advance (skipping : bool) (s : DBIter) :=
        it ← it_Next (iter_ s);
        let s := with_iter it s in
        if it_Valid it then find_next fuel skipping s else Some (find_next_end s) in
      match parsed with
      | Some ikey =>
          if DbFormat.sequence ikey <=? sequence_ then
            match type ikey with
            | kTypeDeletion => advance true (SaveKey (user_key ikey) s)
            | kTypeValue =>
                if hidden skipping (saved_key_ s) ikey then advance skipping s
                else Some (with_saved [] (saved_value_ s) (with_valid true s))
            end
          else advance skipping s
      | None => advance skipping s
      end
  end.

Definition FindNextUserEntry (skipping : bool) (s : DBIter) : option DBIter :=
  if it_Valid (iter_ s) && bool_decide (direction_ s = kForward) then find_next fuel skipping s else None.

Definition DBIter_Next (s : DBIter) : option DBIter :=
  if negb (valid_ s) then None
  else
    s ← match direction_ s with
        | kReverse =>
            it ← (if negb (it_Valid (iter_ s)) then it_SeekToFirst (iter_ s) else it_Next (iter_ s));
            Some (with_iter it (with_direction kForward s))
        | kForward =>
            k ← it_key (iter_ s);
            it ← it_Next (iter_ s);
            Some (with_iter it (SaveKey (ExtractUserKey k) s))
        end;
    if negb (it_Valid (iter_ s)) then Some (with_saved [] (saved_value_ s) (with_valid false s))
    else FindNextUserEntry true s.

(** The loop of [FindPrevUserEntry], with the local [value_type]; it returns it
    with the state. *)
Fixpoint find_prev (fuel : nat) (value_type : ValueType) (s : DBIter) : option (ValueType * DBIter) :=
  match fuel with
  | O => None
  | Datatypes.S fuel =>
      '(parsed, s) ← ParseKey s;
      let advance (value_type : ValueType) (s : DBIter) :=
        it ← it_Prev (iter_ s);
        let s := with_iter it s in
        if it_Valid it then find_prev fuel value_type s else Some (value_type, s) in
      match parsed with
      | Some ikey =>
          if DbFormat.sequence ikey <=? sequence_ then
            if bool_decide (value_type <> kTypeDeletion) &&
               bool_decide (Compare (Comparator := user_comparator_) (user_key ikey) (saved_key_ s) = Lt)
            then Some (value_type, s)
            else
              match type ikey with
              | kTypeDeletion => advance kTypeDeletion (with_saved [] [] s)
              | kTypeValue =>
                  raw_value ← it_value (iter_ s);
                  k ← it_key (iter_ s);
                  advance kTypeValue (with_saved (ExtractUserKey k) raw_value s)
              end
          else advance value_type s
      | None => advance value_type s
      end
  end.

Definition FindPrevUserEntry (s : DBIter) : option DBIter :=
  if negb (bool_decide (direction_ s = kReverse)) then None
  else
    '(value_type, s) ← (if it_Valid (iter_ s) then find_prev fuel kTypeDeletion s else Some (kTypeDeletion, s));
    match value_type with
    | kTypeDeletion => Some (with_direction kForward (with_saved [] [] (with_valid false s)))
    | kTypeValue => Some (with_valid true s)
    end.

(** The loop of [Prev] that leaves the entries of the current key backwards;
    false for the early return. *)
Fixpoint leave_key (fuel : nat) (s : DBIter) : option (bool * DBIter) :=
  match fuel with
  | O => None
  | Datatypes.S fuel =>
      it ← it_Prev (iter_ s);
      let s := with_iter it s in
      if negb (it_Valid it) then Some (false, with_saved [] [] (with_valid false s))
      else
        k ← it_key it;
        if bool_decide (Compare (Comparator := user_comparator_) (ExtractUserKey k) (saved_key_ s) = Lt)
        then Some (true, s) else leave_key fuel s
  end.

Definition DBIter_Prev (s : DBIter) : option DBIter :=
  if negb (valid_ s) then None
  else
    match direction_ s with
    | kForward =>
        if negb (it_Valid (iter_ s)) then None
        else
          k ← it_key (iter_ s);
          '(found, s) ← leave_key fuel (SaveKey (ExtractUserKey k) s);
          if (found : bool) then FindPrevUserEntry (with_direction kReverse s) else Some s
    | kReverse => FindPrevUserEntry s
    end.

Definition find_first (s : DBIter) : option DBIter :=
  if it_Valid (iter_ s) then FindNextUserEntry false s else Some (with_valid false s).

Definition DBIter_Seek (s : DBIter) (target : bytes) : option DBIter :=
  let s := ClearSavedValue (with_direction kForward s) in
  let s := SaveKey (AppendInternalKey [] (mkParsed target sequence_ kValueTypeForSeek)) s in
  it ← it_Seek (iter_ s) (saved_key_ s);
  find_first (with_iter it s).

Definition DBIter_SeekToFirst (s : DBIter) : option DBIter :=
  let s := ClearSavedValue (with_direction kForward s) in
  it ← it_SeekToFirst (iter_ s);
  find_first (with_iter it s).

Definition DBIter_SeekToLast (s : DBIter) : option DBIter :=
  let s := ClearSavedValue (with_direction kReverse s) in
  it ← it_SeekToLast (iter_ s);
  FindPrevUserEntry (with_iter it s).

Definition DBIter_key (s : DBIter) : option bytes :=
  if negb (valid_ s) then None
  else match direction_ s with
       | kForward => ExtractUserKey <$> it_key (iter_ s)
       | kReverse => Some (saved_key_ s)
       end.
Definition DBIter_value (s : DBIter) : option bytes :=
  if negb (valid_ s) then None
  else match direction_ s with
       | kForward => it_value (iter_ s)
       | kReverse => Some (saved_value_ s)
       end.
Definition DBIter_status (s : DBIter) : Status :=
  if ok (status_ s) then it_status (iter_ s) else status_ s.

#[export] Instance DBIter_Iterator : Iterator DBIter := {|
  it_Valid := valid_;
  it_SeekToFirst := DBIter_SeekToFirst;
  it_SeekToLast := DBIter_SeekToLast;
  it_Seek := DBIter_Seek;
  it_Next := DBIter_Next;
  it_Prev := DBIter_Prev;
  it_key := DBIter_key;
  it_value := DBIter_value;
  it_status := DBIter_status;
|}.
End DBIter.

Arguments DBIter S : clear implicits.

(** ** The sampling loop *)

(** Two consecutive periods are never both zero. *)
Lemma period_nonzero rnd :
  seed_ok rnd -> (RandomCompactionPeriod rnd).1 = 0 ->
  (RandomCompactionPeriod (RandomCompactionPeriod rnd).2).1 <> 0.
Proof.
  intros Hs. unfold RandomCompactionPeriod, Uniform. change (2 * kReadBytesPeriod) with (2 ^ 21).
  pose proof (Next_lehmer rnd Hs) as En. pose proof (Next_ok rnd Hs) as Hok.
  destruct (Next rnd) as [r s] eqn:E. assert (r = s) as -> by (unfold Next in E; congruence).
  cbn [fst snd] in *. pose proof (Next_lehmer s Hok) as En2.
  destruct (Next s) as [r2 s2] eqn:E2. assert (r2 = s2) as -> by (unfold Next in E2; congruence).
  cbn [fst snd] in *. intros H0 H1. clear E E2 En. unfold seed_ok in Hok.
  apply Z.mod_divide in H0 as [k ->]; [|lia].
  assert (Hk : 1 <= k <= 1023) by lia.
  pose proof (Z.div_mod (16807 * k) 1024 ltac:(lia)) as Hdm. pose proof (Z.mod_pos_bound (16807 * k) 1024 ltac:(lia)).
  set (q := 16807 * k / 1024) in *. set (r := 16807 * k mod 1024) in *.
  assert (Hs2 : s2 = q + r * 2 ^ 21).
  { rewrite En2. symmetry. apply (Z.mod_unique _ _ q); lia. }
  rewrite Hs2, Z.mod_add, Z.mod_small in H1 by lia. lia.
Qed.

Lemma period_spec rnd :
  seed_ok rnd -> 0 <= (RandomCompactionPeriod rnd).1 < 2 ^ 21 /\ seed_ok (RandomCompactionPeriod rnd).2.
Proof.
  intros Hs. unfold RandomCompactionPeriod, Uniform. change (2 * kReadBytesPeriod) with (2 ^ 21).
  pose proof (Next_ok rnd Hs) as Hok. destruct (Next rnd) as [r s]. cbn [fst snd] in *.
  split; [apply Z.mod_pos_bound; lia|done].
Qed.

Lemma sampling_loop_spec n k bytes_read rnd until smp :
  seed_ok rnd -> 0 <= until < 2 ^ 64 -> 0 <= bytes_read < 2 ^ 63 ->
  2 * (bytes_read - until) - (if decide ((RandomCompactionPeriod rnd).1 = 0) then 0 else 1) <= Z.of_nat n ->
  exists rnd' until' j, sampling_loop n k bytes_read (rnd, until, smp) = Some (rnd', until', repeat k j ++ smp) /\
    seed_ok rnd' /\ bytes_read <= until' < 2 ^ 64.
Proof.
  revert rnd until smp. induction n as [|n IH]; intros rnd until smp Hr Hu Hb Hf; cbn [sampling_loop];
    (destruct (Z.ltb_spec until bytes_read) as [Hlt|Hge];
      [|exists rnd, until, 0%nat; split; [done|]; split; [done|lia]]).
  { case_decide; lia. }
  pose proof (period_spec rnd Hr) as [Hp Hok]. pose proof (period_nonzero rnd Hr) as Hnz.
  destruct (RandomCompactionPeriod rnd) as [period rnd2]. cbn [fst snd] in *.
  rewrite u64_small by lia.
  destruct (IH rnd2 (until + period) (k :: smp)) as (rnd' & until' & j & E & H1 & H2); [done|lia|done| |].
  { destruct (decide (period = 0)) as [->|]; [|case_decide; lia]. rewrite decide_False by auto. lia. }
  exists rnd', until', (j + 1)%nat. rewrite E. split; [|done].
  rewrite repeat_app, <- app_assoc. done.
Qed.

(** ** The laws *)

Section DBIterLaws.
Context {T : Targets} {S : Type} {I : Iterator S} {C : Comparator} {L : ComparatorLaws C}.
Context {snapshot : Z} (Hsnap : 0 <= snapshot <= kMaxSequenceNumber).
Context {es : list Entry} (Hok : Forall entry_ok es) (Hsorted : entries_sorted C es).
Context {P : S -> nat -> Prop} {HP : IteratorLaws (T := T) I (InternalKeyComparator C) (map entry_kv es) P}.
Context {fuel : nat} (Hfuel : (length es < fuel)%nat).
(** The user's targets, for which the target inside is one of the internal iterator. *)
Context {UT : Targets} (HUT : forall u, is_target (Targets := UT) u -> is_target (Targets := T) (InternalKey u snapshot kValueTypeForSeek)).
Implicit Types s : DBIter S.

Notation head := (head (C := C) snapshot (es := es)).
Notation vcount := (vcount (C := C) snapshot (es := es)).
Notation view := (user_view C snapshot es).
Notation IC := (InternalKeyComparator C).
Notation KCompare := (Compare (Comparator := C)).

Definition base_ok s : Prop :=
  status_ s = OK /\ seed_ok (rnd_ s) /\ 0 <= bytes_until_read_sampling_ s < 2 ^ 64.

Lemma kvs_at i e : es !! i = Some e -> map entry_kv es !! i = Some (entry_ikey e, e_value e).
Proof. intros E. by rewrite list_lookup_fmap, E. Qed.

Lemma pos_entry it c : P it c -> (c < length es)%nat -> exists e, es !! c = Some e /\ it_Valid it = true /\
  it_key it = Some (entry_ikey e) /\ it_value it = Some (e_value e).
Proof.
  intros Hp Hc. destruct (lookup_lt_is_Some_2 _ _ Hc) as [e E]. exists e. split; [done|].
  rewrite (pos_valid (C := IC) _ _ Hp), length_map. split; [by apply Nat.ltb_lt|].
  split; [exact (pos_key (C := IC) _ _ _ _ Hp (kvs_at _ _ E))|exact (pos_value (C := IC) _ _ _ _ Hp (kvs_at _ _ E))].
Qed.

Lemma pos_live it c : P it c -> (c < length es)%nat -> it_Valid it = true.
Proof. intros Hp Hc. by destruct (pos_entry it c Hp Hc) as (e & _ & H & _). Qed.

Lemma pos_invalid it c : P it c -> it_Valid it = false <-> c = length es.
Proof.
  intros Hp. rewrite (pos_valid (C := IC) _ _ Hp), Nat.ltb_ge. pose proof (pos_le (C := IC) _ _ Hp). rewrite length_map in *. lia.
Qed.

Lemma iter_next_at it c : P it c -> (c < length es)%nat -> exists it', it_Next it = Some it' /\ P it' (c + 1)%nat /\
  it_Valid it' = (c + 1 <? length es)%nat.
Proof.
  intros Hp Hc. destruct (pos_next (C := IC) _ _ Hp) as (it' & E & Hp'); [by rewrite length_map|].
  exists it'. split; [done|]. split; [done|]. by rewrite (pos_valid (C := IC) _ _ Hp'), length_map.
Qed.

Lemma iter_prev_at it c : P it c -> (c < length es)%nat -> exists it', it_Prev it = Some it' /\
  P it' (if (c =? 0)%nat then length es else (c - 1)%nat) /\ it_Valid it' = negb (c =? 0)%nat.
Proof.
  intros Hp Hc. destruct (pos_prev (C := IC) _ _ Hp) as (it' & E & Hp'); [by rewrite length_map|]. rewrite length_map in Hp'.
  exists it'. split; [done|]. split; [done|]. rewrite (pos_valid (C := IC) _ _ Hp'), length_map.
  destruct (Nat.eqb_spec c 0); [apply Nat.ltb_irrefl|apply Nat.ltb_lt; lia].
Qed.

(** Parsing changes only the sampling state. *)
Lemma ParseKey_spec s c e :
  base_ok s -> P (iter_ s) c -> es !! c = Some e ->
  exists rnd until smp,
    ParseKey s = Some (Some (mkParsed (e_user_key e) (e_seq e) (e_type e)), with_sampling rnd until smp s) /\
    base_ok (with_sampling rnd until smp s).
Proof.
  intros (Hst & Hr & Hu) Hp E. unfold ParseKey.
  destruct (pos_entry _ _ Hp ltac:(by eapply lookup_lt_Some)) as (e' & E' & _ & -> & ->). rewrite E in E'. injection E' as <-. cbn [mbind option_bind].
  pose proof (entry_ok_at Hok _ _ E) as He. destruct He as (Hs & Hk & Hv).
  assert (Hz : zlen (entry_ikey e) = zlen (e_user_key e) + 8) by (unfold zlen, entry_ikey; rewrite InternalKey_length; lia).
  pose proof (zlen_nonneg (e_user_key e)). pose proof (zlen_nonneg (e_value e)).
  rewrite (u64_small (_ + _)) by lia. set (n := zlen (entry_ikey e) + zlen (e_value e)).
  destruct (sampling_loop_spec (sampling_fuel n (bytes_until_read_sampling_ s)) (entry_ikey e) n (rnd_ s)
    (bytes_until_read_sampling_ s) (samples s)) as (rnd & until & j & -> & Hr' & Hu'); [done|done|unfold n; lia| |].
  { unfold sampling_fuel. case_decide; lia. }
  cbn [mbind option_bind]. unfold entry_ikey. rewrite ParseInternalKey_InternalKey by done.
  eexists _, _, _. split; [done|]. split; [done|]. split; [done|]. apply u64_range.
Qed.

(** *** Scanning forward *)

Definition past (B : option bytes) (u : bytes) : Prop :=
  match B with None => False | Some b => KCompare u b <> Gt end.

(** Visible entries of the user key before entry [c]. *)
Definition seen (c : nat) (u : bytes) : Prop :=
  exists j e, (j < c)%nat /\ es !! j = Some e /\ e_seq e <= snapshot /\ KCompare (e_user_key e) u = Eq.

(** What [skipping] and [*skip] stand for when the scan is at entry [c]: the
    keys up to [B], where the scan started, and the keys seen. *)
Definition scan_inv (c : nat) (skipping : bool) (skip : bytes) (B : option bytes) : Prop :=
  forall q e, (c <= q)%nat -> es !! q = Some e -> e_seq e <= snapshot ->
    ((skipping = true /\ KCompare (e_user_key e) skip <> Gt) <-> past B (e_user_key e) \/ seen c (e_user_key e)) /\
    (forall b, B = Some b -> KCompare b (e_user_key e) <> Gt).

Lemma seen_S c e u :
  es !! c = Some e ->
  seen (c + 1) u <-> seen c u \/ (e_seq e <= snapshot /\ KCompare (e_user_key e) u = Eq).
Proof.
  intros E. split.
  - intros (j & e' & Hj & Ej & Hv & Hk). destruct (decide (j = c)) as [->|].
    + simplify_eq. by right.
    + left. exists j, e'. split; [lia|done].
  - intros [(j & e' & Hj & H)|H]; [exists j, e'; split; [lia|done]|exists c, e; split; [lia|done]].
Qed.

Lemma scan_inv_invisible c e skipping skip B :
  es !! c = Some e -> snapshot < e_seq e -> scan_inv c skipping skip B -> scan_inv (c + 1) skipping skip B.
Proof.
  intros E Hv H q e' Hq Ee Hv'. destruct (H q e' ltac:(lia) Ee Hv') as [H1 H2]. split; [|done].
  rewrite H1, (seen_S c e _ E). split; [tauto|]. intros [|[|[? _]]]; [by left|by right|lia].
Qed.

Lemma scan_inv_hidden c e skipping skip B :
  es !! c = Some e -> e_seq e <= snapshot -> skipping = true -> KCompare (e_user_key e) skip <> Gt ->
  scan_inv c skipping skip B -> scan_inv (c + 1) skipping skip B.
Proof.
  intros E Hv Hs Hle H q e' Hq Ee Hv'. destruct (H q e' ltac:(lia) Ee Hv') as [H1 H2]. split; [|done].
  rewrite (seen_S c e _ E). split; [tauto|]. intros [|[|[_ Heq]]]; [tauto|tauto|].
  split; [done|]. by rewrite <- (Compare_eq_l _ _ skip Heq).
Qed.

Lemma scan_inv_deletion c e skipping skip B :
  es !! c = Some e -> e_seq e <= snapshot -> scan_inv c skipping skip B -> scan_inv (c + 1) true (e_user_key e) B.
Proof.
  intros E Hv H q e' Hq Ee Hv'. destruct (H q e' ltac:(lia) Ee Hv') as [H1 H2]. split; [|done].
  pose proof (entry_before_le (C := C) Hok Hsorted c q e e' E Ee ltac:(lia)) as Hce.
  assert (Heq : KCompare (e_user_key e') (e_user_key e) <> Gt -> KCompare (e_user_key e) (e_user_key e') = Eq).
  { rewrite (Compare_antisym (e_user_key e)). by destruct (KCompare (e_user_key e) (e_user_key e')). }
  rewrite (seen_S c e _ E). split.
  - intros [_ Hle]. right. right. split; [done|]. by apply Heq.
  - intros Hor. split; [done|]. destruct Hor as [Hp|[(j & e0 & Hj & Ej & Hv0 & Hk)|[_ Hk]]].
    + destruct B as [b|]; [|done]. eapply Compare_le_trans; [exact Hp|]. by apply (H c e ltac:(lia) E Hv).
    + rewrite <- (Compare_eq_l _ _ (e_user_key e) Hk). by apply (entry_before_le (C := C) Hok Hsorted j c e0 e Ej E); lia.
    + by rewrite (Compare_eq_sym _ _ Hk).
Qed.

Lemma scan_inv_head c e skipping skip B :
  es !! c = Some e -> e_seq e <= snapshot -> scan_inv c skipping skip B ->
  head c -> ~ past B (e_user_key e) -> ~ (skipping = true /\ KCompare (e_user_key e) skip <> Gt).
Proof.
  intros E Hv H Hh Hp. destruct (H c e ltac:(lia) E Hv) as [-> _]. intros [|(j & e' & Hj & Ej & Hv' & Hk)]; [done|].
  apply (head_spec (C := C) snapshot c e E) in Hh as (_ & _ & Hh). by apply (Hh j e').
Qed.

(** No entry of the view from [c] up to [q] is past the start of the scan. *)
Definition skipped (c q : nat) (B : option bytes) : Prop :=
  forall j e, (c <= j < q)%nat -> es !! j = Some e -> head j -> past B (e_user_key e).

Lemma skipped_cons c q B e : es !! c = Some e -> (head c -> past B (e_user_key e)) -> skipped (c + 1) q B -> skipped c q B.
Proof.
  intros E Hc H j e' Hj Ej Hh. destruct (decide (j = c)) as [->|]; [simplify_eq; auto|]. apply (H j); [lia|done..].
Qed.

(** Where the scan stops. *)
Definition found_next (c : nat) (B : option bytes) s s' : Prop :=
  base_ok s' /\ direction_ s' = direction_ s /\
  exists q, P (iter_ s') q /\ (c <= q)%nat /\ skipped c q B /\
    ((valid_ s' = true /\ head q /\ forall e, es !! q = Some e -> ~ past B (e_user_key e)) \/
     (valid_ s' = false /\ q = length es)).

Lemma found_next_cons c e B s s1 s' :
  es !! c = Some e -> (head c -> past B (e_user_key e)) -> direction_ s1 = direction_ s ->
  found_next (c + 1) B s1 s' -> found_next c B s s'.
Proof.
  intros E Hc Hd (Hb & Hd' & q & Hq & Hcq & Hsk & H). split; [done|]. split; [congruence|].
  exists q. split; [done|]. split; [lia|]. split; [|done]. by eapply skipped_cons.
Qed.

Lemma find_next_spec n c skipping s B :
  P (iter_ s) c -> (c < length es)%nat -> base_ok s -> scan_inv c skipping (saved_key_ s) B -> (length es - c <= n)%nat ->
  exists s', find_next C snapshot n skipping s = Some s' /\ found_next c B s s'.
Proof.
  revert c skipping s. induction n as [|n IH]; intros c skipping s Hp Hc Hb Hinv Hn; [lia|]. cbn [find_next].
  destruct (lookup_lt_is_Some_2 _ _ Hc) as [e E].
  destruct (ParseKey_spec s c e Hb Hp E) as (rnd & until & smp & -> & Hb'). cbn [mbind option_bind].
  set (s1 := with_sampling rnd until smp s) in *. cbn [DbFormat.sequence type user_key].
  destruct (iter_next_at _ _ Hp Hc) as (it & Enext & Hit & Hv).
  (* moving on *)
  assert (Hadv : forall skipping' s2, iter_ s2 = iter_ s -> base_ok s2 -> direction_ s2 = direction_ s ->
    scan_inv (c + 1) skipping' (saved_key_ s2) B -> (head c -> past B (e_user_key e)) ->
    exists s', (it ← it_Next (iter_ s2); if it_Valid it then find_next C snapshot n skipping' (with_iter it s2)
      else Some (find_next_end (with_iter it s2))) = Some s' /\ found_next c B s s').
  { intros skipping' s2 Ei Hb2 Hd Hinv' Hc'. rewrite Ei, Enext. cbn [mbind option_bind]. rewrite Hv.
    destruct (Nat.ltb_spec (c + 1) (length es)) as [Hlt|Hge].
    - destruct (IH (c + 1)%nat skipping' (with_iter it s2)) as (s' & -> & Hf); [done|done|done|done|lia|].
      exists s'. split; [done|]. eapply found_next_cons; [exact E|done| |exact Hf]. done.
    - eexists. split; [done|]. split; [done|]. split; [done|]. exists (c + 1)%nat. split; [done|]. split; [lia|].
      split; [|right; split; [done|lia]]. eapply skipped_cons; [exact E|done|]. intros j e' Hj. lia. }
  destruct (Z.leb_spec (e_seq e) snapshot) as [Hvis|Hinvis].
  - destruct (e_type e) eqn:Et.
    + apply (Hadv true (SaveKey (e_user_key e) s1)); [done|done|done| |].
      { cbn. by eapply scan_inv_deletion. }
      intros Hh. apply (head_spec (C := C) snapshot c e E) in Hh as (_ & Ht & _). congruence.
    + destruct (hidden C skipping (saved_key_ s1) _) eqn:Eh.
      * apply andb_prop in Eh as [Hs Hle%bool_decide_eq_true]. cbn in Hle.
        apply (Hadv skipping s1); [done|done|done|by eapply scan_inv_hidden|].
        intros Hh. destruct (proj1 (proj1 (Hinv c e ltac:(lia) E Hvis)) (conj Hs Hle)) as [|(j & e' & Hj & Ej & Hv' & Hk)]; [done|].
        apply (head_spec (C := C) snapshot c e E) in Hh as (_ & _ & Hh). by destruct (Hh j e').
      * eexists. split; [done|]. split; [done|]. split; [done|]. exists c. split; [done|]. split; [lia|].
        split; [intros j e' Hj; lia|]. left. split; [done|].
        assert (Hnot : ~ (skipping = true /\ KCompare (e_user_key e) (saved_key_ s) <> Gt)).
        { intros [Hs Hle]. unfold hidden in Eh. cbn in Eh. rewrite Hs, bool_decide_true in Eh; done. }
        rewrite (proj1 (Hinv c e ltac:(lia) E Hvis)) in Hnot. split.
        -- apply (head_spec (C := C) snapshot c e E). split; [done|]. split; [done|].
           intros j e' Hj Ej Hv' Hk. apply Hnot. right. by exists j, e'.
        -- intros e' E'. simplify_eq. tauto.
  - apply (Hadv skipping s1); [done|done|done|by eapply scan_inv_invisible|].
    intros Hh. apply (head_spec (C := C) snapshot c e E) in Hh as (Hs & _). lia.
Qed.

(** *** Scanning backward *)

(** The iterator has [k] entries at or before it. *)
Definition at_count (it : S) (k : nat) : Prop :=
  (k <= length es)%nat /\ P it (if (k =? 0)%nat then length es else (k - 1)%nat).

Definition invisible (a b : nat) : Prop :=
  forall j e, (a <= j < b)%nat -> es !! j = Some e -> snapshot < e_seq e.

(** What the scan that started with [r] entries has found when [k] are left:
    the last entry stored, if it was not a deletion. *)
Definition prev_inv (k r : nat) (value_type : ValueType) s : Prop :=
  match value_type with
  | kTypeDeletion => forall j, (k <= j < r)%nat -> ~ head j
  | kTypeValue => exists m e, (k <= m < r)%nat /\ es !! m = Some e /\ e_seq e <= snapshot /\ e_type e = kTypeValue /\
      saved_key_ s = e_user_key e /\ saved_value_ s = e_value e /\ invisible k m /\
      forall j, (m < j < r)%nat -> ~ head j
  end.

Definition prev_found (r : nat) s (res : ValueType * DBIter S) : Prop :=
  base_ok res.2 /\ direction_ res.2 = direction_ s /\ exists k, at_count (iter_ res.2) k /\ prev_inv k r res.1 res.2 /\
    match res.1 with
    | kTypeDeletion => k = 0%nat
    | kTypeValue => forall j e, (j < k)%nat -> es !! j = Some e -> e_seq e <= snapshot ->
        KCompare (e_user_key e) (saved_key_ res.2) = Lt
    end.

Lemma prev_inv_invisible k r vt s c e :
  k = (c + 1)%nat -> es !! c = Some e -> snapshot < e_seq e -> prev_inv k r vt s -> prev_inv c r vt s.
Proof.
  intros -> E Hv. unfold prev_inv. destruct vt.
  - intros H j Hj. destruct (decide (j = c)) as [->|]; [|apply H; lia].
    intros Hh. apply (head_spec (C := C) snapshot c e E) in Hh. lia.
  - intros (m & e' & Hm & Em & H1 & H2 & H3 & H4 & Hi & Hn). exists m, e'. split; [lia|].
    do 5 (split; [done|]). split; [|done]. intros j e0 Hj E0. destruct (decide (j = c)) as [->|]; [by simplify_eq|].
    apply (Hi j e0); [lia|done].
Qed.

(** Entry [c] is visible and does not end the scan: what was stored before is
    not in the view. *)
Lemma prev_inv_no_head r vt s c e :
  es !! c = Some e -> e_seq e <= snapshot -> prev_inv (c + 1) r vt s ->
  (vt <> kTypeDeletion -> KCompare (e_user_key e) (saved_key_ s) <> Lt) ->
  forall j, (c < j < r)%nat -> ~ head j.
Proof.
  intros E Hv Hinv Hnb. unfold prev_inv in Hinv. destruct vt; [intros j Hj; apply Hinv; lia|].
  destruct Hinv as (m & e' & Hm & Em & H1 & H2 & H3 & H4 & Hi & Hn). specialize (Hnb ltac:(done)). rewrite H3 in Hnb.
  intros j Hj Hh. destruct (Nat.lt_trichotomy j m) as [Hlt|[->|Hgt]].
  - pose proof Hh as (ej & Ej & _). apply (head_spec (C := C) snapshot j ej Ej) in Hh as (Hvj & _).
    pose proof (Hi j ej ltac:(lia) Ej). lia.
  - by apply Hnb, (head_later (C := C) snapshot Hok Hsorted c m e e' E Em ltac:(lia) Hv).
  - by apply (Hn j); [lia|].
Qed.

Lemma find_prev_spec n c vt s r :
  P (iter_ s) c -> (c < r <= length es)%nat -> base_ok s -> prev_inv (c + 1) r vt s -> (c < n)%nat ->
  exists res, find_prev C snapshot n vt s = Some res /\ prev_found r s res.
Proof.
  revert c vt s. induction n as [|n IH]; intros c vt s Hp Hc Hb Hinv Hn; [lia|]. cbn [find_prev].
  destruct (lookup_lt_is_Some_2 es c ltac:(lia)) as [e E].
  destruct (ParseKey_spec s c e Hb Hp E) as (rnd & until & smp & -> & Hb'). cbn [mbind option_bind].
  set (s1 := with_sampling rnd until smp s) in *. cbn [DbFormat.sequence type user_key].
  destruct (iter_prev_at _ _ Hp ltac:(lia)) as (it & Eprev & Hit & Hv).
  (* moving on *)
  assert (Hadv : forall vt' s2, iter_ s2 = iter_ s -> base_ok s2 -> direction_ s2 = direction_ s -> prev_inv c r vt' s2 ->
    exists res, (it ← it_Prev (iter_ s2); if it_Valid it then find_prev C snapshot n vt' (with_iter it s2)
      else Some (vt', with_iter it s2)) = Some res /\ prev_found r s res).
  { intros vt' s2 Ei Hb2 Hd Hinv'. rewrite Ei, Eprev. cbn [mbind option_bind]. rewrite Hv.
    destruct (Nat.eqb_spec c 0) as [->|Hc0]; cbn [negb].
    - eexists. split; [done|]. split; [done|]. split; [done|]. exists 0%nat. split; [split; [lia|done]|].
      split; [done|]. cbn. destruct vt'; [done|]. intros j e' Hj. lia.
    - destruct (IH (c - 1)%nat vt' (with_iter it s2)) as (res & -> & Hb3 & Hd3 & Hk); [done|lia|done| |lia|].
      { by replace (c - 1 + 1)%nat with c by lia. }
      exists res. split; [done|]. split; [done|]. split; [rewrite Hd3; done|done]. }
  destruct (Z.leb_spec (e_seq e) snapshot) as [Hvis|Hinvis].
  2: { apply (Hadv vt s1); [done|done|done|]. by eapply (prev_inv_invisible (c + 1) r vt s1 c e). }
  destruct (_ && _) eqn:Eb.
  - apply andb_prop in Eb as [Hvt%bool_decide_eq_true Hlt%bool_decide_eq_true].
    eexists. split; [done|]. split; [done|]. split; [done|]. exists (c + 1)%nat. split.
    { split; [lia|]. destruct (Nat.eqb_spec (c + 1) 0); [lia|]. by rewrite Nat.add_sub. }
    split; [done|]. cbn. destruct vt; [done|]. intros j e' Hj Ej Hvj. cbn in Hlt.
    eapply Compare_le_lt_trans; [|exact Hlt]. by apply (entry_before_le (C := C) Hok Hsorted j c e' e Ej E); lia.
  - assert (Hno : forall j, (c < j < r)%nat -> ~ head j).
    { apply (prev_inv_no_head r vt s c e E Hvis Hinv). intros Hvt Hlt.
      rewrite (bool_decide_true _ Hvt), bool_decide_true in Eb; done. }
    destruct (pos_entry _ _ Hp ltac:(lia)) as (e0 & E0 & _ & Ek & Ev). rewrite E in E0. injection E0 as <-.
    destruct (e_type e) eqn:Et.
    + apply (Hadv kTypeDeletion (with_saved [] [] s1)); [done|done|done|]. intros j Hj. destruct (decide (j = c)) as [->|].
      * intros Hh. apply (head_spec (C := C) snapshot c e E) in Hh as (_ & Ht & _). congruence.
      * apply Hno. lia.
    + change (iter_ s1) with (iter_ s). rewrite Ev. cbn [mbind option_bind]. rewrite Ek. cbn [mbind option_bind].
      apply (Hadv kTypeValue (with_saved (ExtractUserKey (entry_ikey e)) (e_value e) s1)); [done|done|done|].
      exists c, e. split; [lia|]. split; [done|]. split; [done|]. split; [done|]. split; [apply ExtractUserKey_InternalKey|].
      split; [done|]. split; [intros j e' Hj; lia|done].
Qed.

(** *** Positions *)

Definition db_iter_pos s (i : nat) : Prop :=
  base_ok s /\
  ((valid_ s = false /\ i = length view /\ exists c, P (iter_ s) c) \/
   (valid_ s = true /\ exists p e, es !! p = Some e /\ head p /\ i = vcount p /\
      match direction_ s with
      | kForward => P (iter_ s) p
      | kReverse => saved_key_ s = e_user_key e /\ saved_value_ s = e_value e /\
          exists k, at_count (iter_ s) k /\ (k <= p)%nat /\ invisible k p
      end)).

Lemma no_heads_vcount a b : (a <= b <= length es)%nat -> (forall j, (a <= j < b)%nat -> ~ head j) -> vcount b = vcount a.
Proof. apply vcount_none. Qed.

Lemma invisible_no_head a b : invisible a b -> forall j, (a <= j < b)%nat -> ~ head j.
Proof.
  intros H j Hj Hh. pose proof Hh as (e & E & _). pose proof (proj1 (head_spec (C := C) snapshot j e E) Hh) as (Hv & _).
  pose proof (H j e Hj E). lia.
Qed.

Lemma head_step p : head p -> vcount (p + 1) = (vcount p + 1)%nat /\ (p < length es)%nat.
Proof.
  intros Hh. pose proof Hh as (e & E & _). apply lookup_lt_Some in E. split; [|done]. by apply vcount_step.
Qed.

Lemma db_iter_iter s i : db_iter_pos s i -> base_ok s /\ exists c, P (iter_ s) c.
Proof.
  intros [Hb [(_ & _ & H)|(_ & p & e & _ & _ & _ & H)]]; (split; [done|]); [done|].
  destruct (direction_ s); [by exists p|]. destruct H as (_ & _ & k & (_ & Hk) & _). eauto.
Qed.

(** After a forward scan. *)
Lemma found_next_pos c B s s' i :
  direction_ s = kForward -> found_next c B s s' ->
  (forall q, (c <= q)%nat -> (q <= length es)%nat -> skipped c q B ->
     (forall e, es !! q = Some e -> head q -> ~ past B (e_user_key e)) -> (q = length es \/ head q) -> vcount q = i) ->
  db_iter_pos s' i.
Proof.
  intros Hd (Hb & Hd' & q & Hq & Hcq & Hsk & Hend) Hi. split; [done|].
  pose proof (pos_le (C := IC) _ _ Hq) as Hle. rewrite length_map in Hle.
  destruct Hend as [(Hv & Hh & Hp)|[Hv ->]].
  - right. split; [done|]. pose proof Hh as (e & E & _). exists q, e. split; [done|]. split; [done|].
    split; [|by rewrite Hd', Hd]. symmetry. apply Hi; try done; [|by right]. intros e' E' _. by apply Hp.
  - left. split; [done|]. split; [|eauto]. rewrite <- (vcount_end (C := C) snapshot (es := es)). symmetry.
    apply Hi; try done; [|by left]. intros e' E' Hh. apply lookup_lt_Some in E'. lia.
Qed.

Lemma find_first_pos s c i :
  base_ok s -> direction_ s = kForward -> P (iter_ s) c -> scan_inv c false (saved_key_ s) None -> i = vcount c ->
  exists s', find_first C snapshot fuel s = Some s' /\ db_iter_pos s' i.
Proof.
  intros Hb Hd Hp Hinv ->. unfold find_first.
  pose proof (pos_le (C := IC) _ _ Hp) as Hle. rewrite length_map in Hle.
  destruct (decide (c = length es)) as [->|Hne].
  - rewrite (proj2 (pos_invalid _ _ Hp) eq_refl). eexists. split; [done|]. split; [done|]. left.
    split; [done|]. split; [apply vcount_end|eauto].
  - pose proof (pos_live _ _ Hp ltac:(lia)) as Hv. rewrite Hv. unfold FindNextUserEntry.
    rewrite Hv, Hd. cbn [andb bool_decide decide_rel]. rewrite bool_decide_true by done.
    destruct (find_next_spec fuel c false s None) as (s' & -> & Hf); [done|lia|done|done|lia|].
    exists s'. split; [done|]. apply (found_next_pos c None s s' _ Hd Hf).
    intros q Hcq Hql Hsk _ _. apply no_heads_vcount; [lia|]. intros j Hj Hh. pose proof Hh as (e' & E' & _).
    by apply (Hsk j e').
Qed.

(** From entry [p] of the view to the next. *)
Lemma next_from p e c s i :
  es !! p = Some e -> head p -> (c <= p + 1)%nat -> invisible c p -> saved_key_ s = e_user_key e -> base_ok s ->
  direction_ s = kForward -> P (iter_ s) c -> i = (vcount p + 1)%nat ->
  exists s', (if negb (it_Valid (iter_ s)) then Some (with_saved [] (saved_value_ s) (with_valid false s))
              else FindNextUserEntry C snapshot fuel true s) = Some s' /\ db_iter_pos s' i.
Proof.
  intros E Hh Hc Hinvis Hsk Hb Hd Hp ->. destruct (head_step p Hh) as [Hvc Hpl].
  pose proof (pos_le (C := IC) _ _ Hp) as Hle. rewrite length_map in Hle.
  pose proof (proj1 (head_spec (C := C) snapshot p e E) Hh) as (Hvis & _ & Hfirst).
  destruct (decide (c = length es)) as [->|Hne].
  { rewrite (proj2 (pos_invalid _ _ Hp) eq_refl). eexists. split; [done|]. split; [done|]. left.
    split; [done|]. split; [|eauto]. rewrite <- Hvc, <- (vcount_end (C := C) snapshot (es := es)). f_equal. lia. }
  pose proof (pos_live _ _ Hp ltac:(lia)) as Hv. rewrite Hv. cbn [negb]. unfold FindNextUserEntry.
  rewrite Hv, Hd, bool_decide_true by done. cbn [andb].
  (* visible entries from [c] on are at [p] or after *)
  assert (Hge : forall q e', (c <= q)%nat -> es !! q = Some e' -> e_seq e' <= snapshot -> (p <= q)%nat).
  { intros q e0 Hq E0 Hv0. apply Nat.nlt_ge. intros Hlt. pose proof (Hinvis q e0 ltac:(lia) E0). lia. }
  destruct (find_next_spec fuel c true s (Some (e_user_key e))) as (s' & -> & Hf); [done|lia|done| |lia|].
  { intros q e0 Hq E0 Hv0. pose proof (Hge q e0 Hq E0 Hv0) as Hpq. rewrite Hsk. split.
    - split; [intros [_ H]; by left|]. intros [H|(j & ej & Hj & Ej & Hvj & Hk)]; [done|]. split; [done|].
      destruct (decide (j = p)) as [->|Hjp].
      + simplify_eq. by rewrite (Compare_eq_sym _ _ Hk).
      + exfalso. assert (Hjlt : (j < p)%nat) by lia. apply (Hfirst j ej Hjlt Ej Hvj).
        pose proof (entry_before_le (C := C) Hok Hsorted j p ej e Ej E ltac:(lia)) as H1.
        pose proof (entry_before_le (C := C) Hok Hsorted p q e e0 E E0 Hpq) as H2.
        rewrite <- (Compare_eq_r _ _ (e_user_key e) Hk), (Compare_antisym (e_user_key ej)) in H2.
        by destruct (KCompare (e_user_key ej) (e_user_key e)).
    - intros b [= <-]. by apply (entry_before_le (C := C) Hok Hsorted p q e e0). }
  exists s'. split; [done|]. apply (found_next_pos c _ s s' _ Hd Hf).
  intros q Hcq Hql Hskip Hstop Hq.
  assert (Hpq : (p < q)%nat).
  { destruct Hq as [->|Hq]; [done|]. pose proof Hq as (eq & Eeq & _).
    pose proof (proj1 (head_spec (C := C) snapshot q eq Eeq) Hq) as (Hvq & _).
    pose proof (Hge q eq Hcq Eeq Hvq). destruct (decide (p = q)) as [<-|]; [|lia].
    rewrite E in Eeq. injection Eeq as <-. destruct (Hstop e E Hq). cbn. by rewrite Compare_refl. }
  rewrite <- Hvc. apply no_heads_vcount; [lia|]. intros j Hj Hhj. pose proof Hhj as (ej & Ej & _).
  pose proof (head_later (C := C) snapshot Hok Hsorted p j e ej E Ej ltac:(lia) Hvis Hhj) as Hlt.
  pose proof (Hskip j ej ltac:(lia) Ej Hhj) as Hp'. cbn in Hp'. rewrite (Compare_antisym (e_user_key e)), Hlt in Hp'. done.
Qed.

Lemma db_iter_next s i :
  db_iter_pos s i -> (i < length view)%nat ->
  exists s', DBIter_Next C snapshot fuel s = Some s' /\ db_iter_pos s' (i + 1).
Proof.
  intros [Hb [(_ & -> & _)|(Hv & p & e & E & Hh & -> & Hd)]] Hi; [lia|]. unfold DBIter_Next. rewrite Hv. cbn [negb].
  destruct (head_step p Hh) as [Hvc Hpl]. destruct (direction_ s) eqn:Ed.
  - destruct (pos_entry _ _ Hd Hpl) as (e' & E' & _ & -> & _). rewrite E in E'. injection E' as <-.
    destruct (iter_next_at _ _ Hd Hpl) as (it & -> & Hit & _). cbn [mbind option_bind].
    apply (next_from p e (p + 1) (with_iter it (SaveKey (ExtractUserKey (entry_ikey e)) s)));
      [done|done|done| |apply ExtractUserKey_InternalKey|done|done|done|done].
    intros j ej Hj. lia.
  - destruct Hd as (Hk & Hval & k & [Hkl Hpos] & Hkp & Hinv).
    assert (exists it, (if negb (it_Valid (iter_ s)) then it_SeekToFirst (iter_ s) else it_Next (iter_ s)) = Some it /\ P it k)
      as (it & -> & Hit).
    { destruct (Nat.eqb_spec k 0) as [->|Hk0].
      - rewrite (proj2 (pos_invalid _ _ Hpos) eq_refl). by apply (pos_first (C := IC) _ _ Hpos).
      - rewrite (pos_live _ _ Hpos) by lia. cbn [negb].
        destruct (iter_next_at _ _ Hpos ltac:(lia)) as (it & E' & Hit & _). exists it. split; [done|].
        by replace (k - 1 + 1)%nat with k in Hit by lia. }
    cbn [mbind option_bind].
    apply (next_from p e k (with_iter it (with_direction kForward s))); try done. lia.
Qed.

(** *** Going back *)

(** [FindPrevUserEntry] with [r] entries at or before the iterator. *)
Lemma find_prev_pos s r :
  base_ok s -> direction_ s = kReverse -> at_count (iter_ s) r ->
  exists s', FindPrevUserEntry C snapshot fuel s = Some s' /\
    db_iter_pos s' (if (vcount r =? 0)%nat then length view else (vcount r - 1)%nat).
Proof.
  intros Hb Hd [Hr Hp]. unfold FindPrevUserEntry. rewrite Hd. cbn [bool_decide decide_rel negb].
  rewrite bool_decide_true by done. cbn [negb].
  assert (exists res, (if it_Valid (iter_ s) then find_prev C snapshot fuel kTypeDeletion s else Some (kTypeDeletion, s))
    = Some res /\ prev_found r s res) as ([vt s1] & -> & Hb1 & Hd1 & k & Hk & Hinv & Hend).
  { destruct (Nat.eqb_spec r 0) as [->|Hr0].
    - rewrite (proj2 (pos_invalid _ _ Hp) eq_refl). eexists. split; [done|]. split; [done|]. split; [done|].
      exists 0%nat. split; [done|]. split; [|done]. intros j Hj. lia.
    - rewrite (pos_live _ _ Hp) by lia. apply (find_prev_spec fuel (r - 1)); [done|lia|done| |lia].
      intros j Hj. lia. }
  cbn [fst snd mbind option_bind] in *. destruct vt.
  - subst k. assert (Hv0 : vcount r = 0%nat) by (rewrite (no_heads_vcount 0 r) by (lia || done); done).
    rewrite Hv0. cbn. eexists. split; [done|]. split; [done|]. left. split; [done|]. split; [done|].
    destruct Hk as [_ Hk]. eauto.
  - destruct Hinv as (m & e & Hm & E & H1 & H2 & H3 & H4 & Hi & Hn).
    assert (Hh : head m).
    { apply (head_spec (C := C) snapshot m e E). split; [done|]. split; [done|]. intros j e' Hj Ej Hv Heq.
      destruct (Nat.lt_ge_cases j k) as [Hjk|Hjk].
      - pose proof (Hend j e' Hjk Ej Hv) as Hlt. rewrite H3 in Hlt. congruence.
      - pose proof (Hi j e' ltac:(lia) Ej). lia. }
    destruct (head_step m Hh) as [Hvc Hml].
    rewrite (no_heads_vcount (m + 1) r) by (lia || (intros j Hj; apply Hn; lia)). rewrite Hvc.
    destruct (Nat.eqb_spec (vcount m + 1) 0); [lia|]. rewrite Nat.add_sub.
    eexists. split; [done|]. split; [done|]. right. split; [done|]. exists m, e. split; [done|]. split; [done|].
    split; [done|]. cbn [direction_ with_valid]. rewrite Hd1, Hd. split; [done|]. split; [done|].
    exists k. split; [done|]. split; [lia|done].
Qed.

(** The loop that leaves the entries of the key of [p] backwards. *)
Lemma leave_key_spec n c p e s :
  P (iter_ s) c -> base_ok s -> (c <= p)%nat -> es !! p = Some e -> saved_key_ s = e_user_key e -> (c < n)%nat ->
  (forall j e', (c <= j <= p)%nat -> es !! j = Some e' -> KCompare (e_user_key e') (e_user_key e) <> Lt) ->
  exists found s' k, leave_key C n s = Some (found, s') /\ base_ok s' /\ (k <= p)%nat /\ at_count (iter_ s') k /\
    (forall j e', (k <= j <= p)%nat -> es !! j = Some e' -> KCompare (e_user_key e') (e_user_key e) <> Lt) /\
    (found = false -> k = 0%nat /\ valid_ s' = false).
Proof.
  revert c s. induction n as [|n IH]; intros c s Hp Hb Hcp E Hsk Hn Hge; [lia|]. cbn [leave_key].
  pose proof (lookup_lt_Some _ _ _ E) as Hpl.
  destruct (iter_prev_at _ _ Hp ltac:(lia)) as (it & -> & Hit & Hv). cbn [mbind option_bind].
  rewrite Hv. destruct (Nat.eqb_spec c 0) as [->|Hc0]; cbn [negb].
  { exists false. eexists _, 0%nat. split; [done|]. split; [done|]. split; [lia|]. split; [split; [lia|done]|]. done. }
  destruct (pos_entry _ _ Hit ltac:(lia)) as (e' & E' & _ & -> & _). cbn [mbind option_bind].
  assert (Hek : ExtractUserKey (entry_ikey e') = e_user_key e') by apply ExtractUserKey_InternalKey.
  rewrite Hek. cbn [with_iter saved_key_]. rewrite Hsk. case_bool_decide as Hlt.
  - exists true. eexists _, c. split; [done|]. split; [done|]. split; [done|].
    split; [split; [lia|]; by destruct (Nat.eqb_spec c 0)|done].
  - apply (IH (c - 1)%nat); [done|done|lia|done|done|lia|].
    intros j ej Hj Ej. destruct (decide (j = c - 1)%nat) as [->|]; [by simplify_eq|]. apply (Hge j); [lia|done].
Qed.

Lemma same_key_no_heads k p e :
  es !! p = Some e -> head p -> (forall j e', (k <= j <= p)%nat -> es !! j = Some e' -> KCompare (e_user_key e') (e_user_key e) <> Lt) ->
  forall j, (k <= j < p)%nat -> ~ head j.
Proof.
  intros E Hh Hge j Hj Hhj. pose proof Hhj as (ej & Ej & _).
  pose proof (proj1 (head_spec (C := C) snapshot j ej Ej) Hhj) as (Hvj & _).
  by apply (Hge j ej ltac:(lia) Ej), (head_later (C := C) snapshot Hok Hsorted j p ej e Ej E ltac:(lia) Hvj).
Qed.

Lemma db_iter_prev s i :
  db_iter_pos s i -> (i < length view)%nat ->
  exists s', DBIter_Prev C snapshot fuel s = Some s' /\
    db_iter_pos s' (if (i =? 0)%nat then length view else (i - 1)%nat).
Proof.
  intros [Hb [(_ & -> & _)|(Hv & p & e & E & Hh & -> & Hd)]] Hi; [lia|]. unfold DBIter_Prev. rewrite Hv. cbn [negb].
  destruct (head_step p Hh) as [Hvc Hpl]. destruct (direction_ s) eqn:Ed.
  - rewrite (pos_live _ _ Hd Hpl). cbn [negb].
    destruct (pos_entry _ _ Hd Hpl) as (e' & E' & _ & -> & _). rewrite E in E'. injection E' as <-. cbn [mbind option_bind].
    destruct (leave_key_spec fuel p p e (SaveKey (ExtractUserKey (entry_ikey e)) s))
      as (found & s' & k & -> & Hb' & Hkp & Hk & Hge & Hf); [done|done|done|done|apply ExtractUserKey_InternalKey|lia| |].
    { intros j e' Hj Ej. replace j with p in Ej by lia. simplify_eq. by rewrite Compare_refl. }
    cbn [mbind option_bind].
    assert (Hvk : vcount p = vcount k) by (apply no_heads_vcount; [lia|]; by eapply same_key_no_heads).
    destruct found.
    + rewrite Hvk. apply find_prev_pos; [done|done|done].
    + destruct (Hf eq_refl) as [-> Hv']. rewrite Hvk. exists s'. split; [done|]. split; [done|]. left.
      split; [done|]. split; [done|]. destruct Hk as [_ Hk]. eauto.
  - destruct Hd as (_ & _ & k & Hk & Hkp & Hinv).
    rewrite (no_heads_vcount k p) by (lia || by apply invisible_no_head). by apply find_prev_pos.
Qed.

(** *** Seeks *)

Lemma in_user_view_from b l x :
  x ∈ user_view_from C snapshot b l -> exists e, e ∈ l /\ e_seq e <= snapshot /\ x = (e_user_key e, e_value e).
Proof.
  revert b. induction l as [|e l IH]; intros b; cbn; [by intros ?%elem_of_nil|].
  rewrite elem_of_app. intros [Hx|Hx].
  - destruct (is_head C snapshot b e) eqn:Eh; [|by apply elem_of_nil in Hx].
    apply list_elem_of_singleton in Hx as ->. exists e. split; [by left|]. split; [|done].
    apply andb_prop in Eh as [[H%Z.leb_le _]%andb_prop _]. done.
  - destruct (IH _ Hx) as (e' & He' & H). exists e'. split; [by right|done].
Qed.

Lemma seek_key_before target i e :
  es !! i = Some e ->
  (i < lower_bound IC (InternalKey target snapshot kValueTypeForSeek) (map entry_kv es))%nat <->
  ~ (KCompare target (e_user_key e) = Lt \/ (KCompare target (e_user_key e) = Eq /\ e_seq e <= snapshot)).
Proof.
  intros E. rewrite <- (lower_bound_spec (C := IC) _ _ i _ _ Hsorted (kvs_at _ _ E)).
  pose proof (entry_ok_at Hok _ _ E) as (Hs & _).
  rewrite <- (lookup_key_position target snapshot (e_user_key e) (e_seq e) (e_type e) Hsnap Hs).
  change (InternalKey_Compare C) with (Compare (Comparator := IC)).
  rewrite (Compare_antisym (C := IC) (entry_ikey e)). unfold entry_ikey.
  destruct (Compare (Comparator := IC) (InternalKey (e_user_key e) _ _) _); cbn; split; intros Hn; try done; try (by destruct Hn).
  by intros Hg; destruct Hg.
Qed.

(** Where the internal seek lands is where the view has its lower bound. *)
Lemma seek_vcount target :
  let c := lower_bound IC (InternalKey target snapshot kValueTypeForSeek) (map entry_kv es) in
  vcount c = lower_bound C target view.
Proof.
  intros c. assert (Hview : view = user_view C snapshot (take c es) ++ user_view_from C snapshot (take c es) (drop c es)).
  { unfold user_view. rewrite <- (take_drop c es) at 1. by rewrite user_view_from_app. }
  rewrite Hview, lower_bound_app_lt.
  - rewrite <- (app_nil_l (user_view_from _ _ _ _)), lower_bound_app_ge; [unfold vcount; cbn; lia|].
    intros x (e & [n Hn]%list_elem_of_lookup & Hv & ->)%in_user_view_from Hlt. cbn in Hlt.
    rewrite lookup_drop in Hn. pose proof (seek_key_before target _ e Hn) as Hb. fold c in Hb.
    assert ((c + n < c)%nat); [|lia]. apply Hb. rewrite (Compare_antisym (e_user_key e)), Hlt. cbn. by intros [|[? _]].
  - intros x (e & [n Hn]%list_elem_of_lookup & Hv & ->)%in_user_view_from. cbn.
    apply lookup_take_Some in Hn as [Hn Hlt]. apply (seek_key_before target _ e Hn) in Hlt.
    rewrite (Compare_antisym target). destruct (KCompare target (e_user_key e)); cbn; [|tauto|done].
    destruct Hlt. by right.
Qed.

Lemma db_iter_seek s i target :
  db_iter_pos s i -> is_target (Targets := UT) target ->
  exists s', DBIter_Seek C snapshot fuel s target = Some s' /\ db_iter_pos s' (lower_bound C target view).
Proof.
  intros (Hb & c & Hp)%db_iter_iter Ht. unfold DBIter_Seek. cbn [SaveKey with_saved saved_key_ iter_ ClearSavedValue with_direction].
  destruct (pos_seek (C := IC) _ _ (AppendInternalKey [] (mkParsed target snapshot kValueTypeForSeek)) Hp (HUT target Ht)) as (it & -> & Hit).
  cbn [mbind option_bind]. change (AppendInternalKey _ _) with (InternalKey target snapshot kValueTypeForSeek) in *.
  set (b := lower_bound IC _ _) in Hit. eapply (find_first_pos _ b); [done|done|done| |symmetry; apply seek_vcount].
  intros q e Hq E Hv. split; [|done]. split; [by intros [? _]|].
  intros [|(j & ej & Hj & Ej & Hvj & Hk)]; [done|]. exfalso.
  apply (seek_key_before target j ej Ej) in Hj. apply Hj.
  pose proof (seek_key_before target q e E) as Hqb. fold b in Hqb.
  rewrite (Compare_eq_r _ _ target Hk). destruct (KCompare target (e_user_key e)) eqn:Et; [by right|by left|].
  exfalso. assert ((q < b)%nat); [|lia]. apply Hqb. by intros [|[? _]].
Qed.

#[export] Instance DBIter_laws : IteratorLaws (T := UT) (DBIter_Iterator C snapshot fuel) C view db_iter_pos.
Proof.
  split; cbn [DBIter_Iterator it_Valid it_SeekToFirst it_SeekToLast it_Seek it_Next it_Prev it_key it_value it_status].
  - intros s i [_ [(_ & -> & _)|(_ & p & e & _ & Hh & -> & _)]]; [done|].
    apply Nat.lt_le_incl. by apply head_vcount_lt.
  - intros s i [_ [(-> & -> & _)|(-> & p & e & _ & Hh & -> & _)]]; symmetry; [apply Nat.ltb_irrefl|].
    apply Nat.ltb_lt. by apply head_vcount_lt.
  - intros s i ((Hst & _) & c & Hp)%db_iter_iter. unfold DBIter_status. rewrite Hst. by apply (pos_status (C := IC) _ _ Hp).
  - intros s i k v [_ [(_ & -> & _)|(Hv & p & e & E & Hh & -> & Hd)]] Hk; [by apply lookup_lt_Some in Hk; lia|].
    rewrite (view_at_head (C := C) snapshot p e E Hh) in Hk. injection Hk as <- <-. unfold DBIter_key. rewrite Hv. cbn [negb].
    destruct (direction_ s); [|by destruct Hd as (-> & _)].
    destruct (pos_entry _ _ Hd (proj2 (head_step p Hh))) as (e' & E' & _ & -> & _). simplify_eq. cbn.
    f_equal. apply ExtractUserKey_InternalKey.
  - intros s i k v [_ [(_ & -> & _)|(Hv & p & e & E & Hh & -> & Hd)]] Hk; [by apply lookup_lt_Some in Hk; lia|].
    rewrite (view_at_head (C := C) snapshot p e E Hh) in Hk. injection Hk as <- <-. unfold DBIter_value. rewrite Hv. cbn [negb].
    destruct (direction_ s); [|by destruct Hd as (_ & -> & _)].
    destruct (pos_entry _ _ Hd (proj2 (head_step p Hh))) as (e' & E' & _ & _ & ->). by simplify_eq.
  - intros s i (Hb & c & Hp)%db_iter_iter. unfold DBIter_SeekToFirst.
    destruct (pos_first (C := IC) _ _ Hp) as (it & Ei & Hit).
    change (iter_ (ClearSavedValue (with_direction kForward s))) with (iter_ s). rewrite Ei. cbn [mbind option_bind].
    apply (find_first_pos _ 0); [done|done|done| |done].
    intros q e Hq E Hv. split; [|done]. split; [by intros [? _]|]. intros [|(j & ej & Hj & _)]; [done|lia].
  - intros s i (Hb & c & Hp)%db_iter_iter. unfold DBIter_SeekToLast.
    destruct (pos_last (C := IC) _ _ Hp) as (it & Ei & Hit). rewrite length_map in Hit.
    change (iter_ (ClearSavedValue (with_direction kReverse s))) with (iter_ s). rewrite Ei. cbn [mbind option_bind].
    destruct (find_prev_pos (with_iter it (ClearSavedValue (with_direction kReverse s))) (length es)) as (s' & E & Hs');
      [done|done| |].
    { split; [done|]. cbn. destruct (Nat.eqb_spec (length es) 0) as [E0|]; [|done]. by replace (length es - 1)%nat with (length es) in Hit by lia. }
    exists s'. split; [done|]. rewrite vcount_end in Hs'. destruct (Nat.eqb_spec (length view) 0) as [E0|]; [|done].
    by replace (length view - 1)%nat with (length view) by lia.
  - apply db_iter_seek.
  - apply db_iter_next.
  - apply db_iter_prev.
Qed.

Lemma NewDBIterator_pos it c seed : P it c -> db_iter_pos (NewDBIterator it seed) (length view).
Proof.
  intros Hp. pose proof (period_spec (Random_new seed) (Random_new_ok seed)) as [Hr Hs]. unfold NewDBIterator.
  destruct (RandomCompactionPeriod (Random_new seed)) as [period rnd]. cbn [fst snd] in *.
  split; [split; [done|]; split; [done|]; cbn; lia|]. left. split; [done|]. split; [done|eauto].
Qed.
End DBIterLaws.

(** C11: over a cursor in internal keys, the database iterator is a cursor in the
    user's view at its sequence number, for every sequence of seeks and moves
    and changes of direction (a seek for any target that the internal iterator may
    be asked for): the keys whose newest visible entry is a value,
    with that value, in increasing order.  The scans end after at most one
    round per internal entry, and the sampling loop always ends. *)
Theorem db_iter_correct {T UT : Targets} {S : Type} {I : Iterator S} (C : Comparator) (L : ComparatorLaws C) (es : list Entry)
    (snapshot seed : Z) (P : S -> nat -> Prop) (internal_iter : S) (i : nat) (fuel : nat)
    (Hsnap : 0 <= snapshot <= kMaxSequenceNumber) (Hok : Forall entry_ok es) (Hsorted : entries_sorted C es)
    (HP : IteratorLaws (T := T) I (InternalKeyComparator C) (map entry_kv es) P) (Hi : P internal_iter i)
    (Hfuel : (length es < fuel)%nat)
    (HUT : forall u, is_target (Targets := UT) u -> is_target (Targets := T) (InternalKey u snapshot kValueTypeForSeek)) :
  exists pos, IteratorLaws (T := UT) (DBIter_Iterator C snapshot fuel) C (user_view C snapshot es) pos /\
    pos (NewDBIterator internal_iter seed) (length (user_view C snapshot es)) /\
    kvs_sorted C (user_view C snapshot es) /\
    forall k v, (k, v) ∈ user_view C snapshot es <->
      exists e, newest_visible (C := C) (e_user_key e) snapshot es e /\ e_type e = kTypeValue /\
        k = e_user_key e /\ v = e_value e.
Proof.
  exists (db_iter_pos (C := C) (snapshot := snapshot) (es := es) (P := P)). split; [exact (DBIter_laws Hsnap Hok Hsorted Hfuel HUT)|].
  split; [by eapply NewDBIterator_pos|]. split; [by apply user_view_sorted|]. intros k v. by apply user_view_elem.
Qed.

Lemma db_iter_correct_witness :
  let es := [mkEntry (cstr "a") 7 kTypeValue (cstr "new"); mkEntry (cstr "a") 3 kTypeValue (cstr "old");
             mkEntry (cstr "b") 4 kTypeDeletion []; mkEntry (cstr "b") 2 kTypeValue (cstr "gone");
             mkEntry (cstr "c") 5 kTypeValue (cstr "x")] in
  exists (it : BlockIter) pos,
    IteratorLaws (DBIter_Iterator BytewiseComparator 5 6) BytewiseComparator
      [(cstr "a", cstr "old"); (cstr "c", cstr "x")] pos /\ pos (NewDBIterator it 301) 2%nat.
Proof.
  intros es. destruct (built_block_iterator (C := InternalKeyComparator BytewiseComparator) 16 (map entry_kv es))
    as (it & P & _ & HP & Hi); [lia|repeat constructor|reflexivity|].
  exists it. destruct (db_iter_correct BytewiseComparator BytewiseComparator_laws es 5 301 P it (length (map entry_kv es)) 6) as (pos & H1 & H2 & _).
  - vm_compute; split; discriminate.
  - repeat constructor; vm_compute; discriminate || reflexivity.
  - repeat constructor.
  - exact HP.
  - exact Hi.
  - cbn. lia.
  - done.
  - exists pos. split; [exact H1|exact H2].
Defined.
