(* ===== verification/Options.v ===== *)
(** * include/leveldb/options: the options

    Models src/include/leveldb/options.h and src/util/options.cc, and
    [SanitizeOptions] of src/db/db_impl.cc.  The environment, the info log and
    the block cache are not in the record: what uses them takes them as
    arguments.  The compression libraries are arguments too, and with them
    [zstd_compression_level]. *)

From S2P Require Import Prelude Comparator Bloom DbFormat Format.

Record Options := mkOptions {
  comparator : Comparator;
  create_if_missing : bool;
  error_if_exists : bool;
  paranoid_checks : bool;
  write_buffer_size : Z;
  max_open_files : Z;
  block_size : Z;
  block_restart_interval : Z;
  max_file_size : Z;
  compression : CompressionType;
  reuse_logs : bool;
  (** The policy with its [Name()]. *)
  filter_policy : option (bytes * FilterPolicy);
}.

Definition Options_default : Options :=
  mkOptions BytewiseComparator false false false (4 * 1024 * 1024) 1000 (4 * 1024) 16 (2 * 1024 * 1024)
    kSnappyCompression false None.

(** [ReadOptions]; a null [snapshot] is [None], and a snapshot is its number. *)
Record ReadOptions := mkReadOptions { verify_checksums : bool; fill_cache : bool; snapshot : option Z }.
Definition ReadOptions_default : ReadOptions := mkReadOptions false true None.

Record WriteOptions := mkWriteOptions { sync : bool }.
Definition WriteOptions_default : WriteOptions := mkWriteOptions false.

(** ** [SanitizeOptions] *)

Definition kNumNonTableCacheFiles : Z := 10.

(** [ClipToRange(ptr, minvalue, maxvalue)] with [int] bounds: the comparisons
    convert [*ptr] to [int]. *)
Definition ClipToRange (x minvalue maxvalue : Z) : Z :=
  let x := if maxvalue <? s32 x then maxvalue else x in
  if s32 x <? minvalue then minvalue else x.

Definition SanitizeOptions (src : Options) : Options :=
  mkOptions (InternalKeyComparator (comparator src)) (create_if_missing src) (error_if_exists src)
    (paranoid_checks src)
    (ClipToRange (write_buffer_size src) (Z.shiftl 64 10) (Z.shiftl 1 30))
    (ClipToRange (max_open_files src) (64 + kNumNonTableCacheFiles) 50000)
    (ClipToRange (block_size src) (Z.shiftl 1 10) (Z.shiftl 4 20))
    (block_restart_interval src)
    (ClipToRange (max_file_size src) (Z.shiftl 1 20) (Z.shiftl 1 30))
    (compression src) (reuse_logs src)
    (match filter_policy src with
     | Some (name, p) => Some (name, InternalFilterPolicy p)
     | None => None
     end).

Definition TableCacheSize (sanitized_options : Options) : Z :=
  max_open_files sanitized_options - kNumNonTableCacheFiles.

(** Values of 32 bits are clipped to the range when their conversion to [int]
    does not change them. *)
Lemma ClipToRange_int x lo hi :
  0 <= lo <= hi -> hi < 2 ^ 31 -> - 2 ^ 31 <= x < 2 ^ 31 -> ClipToRange x lo hi = Z.max lo (Z.min hi x).
Proof.
  intros Hlo Hhi Hx. assert (Hs : forall z, - 2 ^ 31 <= z < 2 ^ 31 -> s32 z = z).
  { intros z Hz. unfold s32, u32. zcmp; dlia. }
  unfold ClipToRange. rewrite (Hs x Hx). destruct (Z.ltb_spec hi x).
  - rewrite Hs by lia. destruct (Z.ltb_spec hi lo); lia.
  - rewrite Hs by done. destruct (Z.ltb_spec x lo); lia.
Qed.

(** A [size_t] of 2 GiB or more can be clipped to the minimum: the conversion
    to [int] makes it negative. *)
Lemma ClipToRange_wraps : ClipToRange (3 * 2 ^ 30) (Z.shiftl 64 10) (Z.shiftl 1 30) = 65536.
Proof. reflexivity. Qed.

(** Sizes of 4 GiB and a bit pass unclipped. *)
Lemma ClipToRange_unclipped : ClipToRange (2 ^ 32 + 65536) (Z.shiftl 64 10) (Z.shiftl 1 30) = 2 ^ 32 + 65536.
Proof. reflexivity. Qed.

(** C35: [SanitizeOptions] brings sizes below 2 GiB and any file limit into their
    documented ranges, leaves values in range alone, and is idempotent on
    them; but the comparison converts to [int], so a write buffer of 3 GiB
    becomes 64 KiB and one of 4 GiB and 64 KiB is kept. *)
Theorem sanitize_options_bounds (o : Options)
    (Hw : 0 <= write_buffer_size o < 2 ^ 31) (Hb : 0 <= block_size o < 2 ^ 31)
    (Hm : 0 <= max_file_size o < 2 ^ 31) (Hf : - 2 ^ 31 <= max_open_files o < 2 ^ 31) :
  let r := SanitizeOptions o in
  2 ^ 16 <= write_buffer_size r <= 2 ^ 30 /\ 2 ^ 10 <= block_size r <= 2 ^ 22 /\
  2 ^ 20 <= max_file_size r <= 2 ^ 30 /\ 74 <= max_open_files r <= 50000 /\ 64 <= TableCacheSize r /\
  (2 ^ 16 <= write_buffer_size o <= 2 ^ 30 -> write_buffer_size r = write_buffer_size o) /\
  (exists w, write_buffer_size (SanitizeOptions (mkOptions (comparator o) (create_if_missing o)
     (error_if_exists o) (paranoid_checks o) w (max_open_files o) (block_size o) (block_restart_interval o)
     (max_file_size o) (compression o) (reuse_logs o) (filter_policy o))) = 2 ^ 16 /\ 2 ^ 30 < w).
Proof.
  intros r. unfold r, SanitizeOptions, TableCacheSize. cbn [write_buffer_size block_size max_file_size max_open_files].
  change (Z.shiftl 64 10) with (2 ^ 16). change (Z.shiftl 1 30) with (2 ^ 30). change (Z.shiftl 1 10) with (2 ^ 10).
  change (Z.shiftl 4 20) with (2 ^ 22). change (Z.shiftl 1 20) with (2 ^ 20). unfold kNumNonTableCacheFiles.
  rewrite !ClipToRange_int by lia.
  do 6 (split; [lia|]). exists (3 * 2 ^ 30). split; [reflexivity|lia].
Qed.

Lemma sanitize_options_bounds_witness :
  let r := SanitizeOptions Options_default in 2 ^ 16 <= write_buffer_size r <= 2 ^ 30 /\ 64 <= TableCacheSize r.
Proof.
  destruct (sanitize_options_bounds Options_default) as (H1 & _ & _ & _ & H2 & _);
    [vm_compute; split; discriminate || reflexivity..|]. split; [exact H1|exact H2].
Defined.
