(* ===== verification/TableBuilder.v ===== *)
(** * table/table_builder: writing tables

    Models src/table/table_builder.cc and src/include/leveldb/table_builder.h
    over any file, compression libraries and checksum.  The invariant
    describes the file written so far as a sequence of stored blocks.  A builder
    whose file fails stops, and [Finish] reports it. *)

From Stdlib Require Import Sorted.
From stdpp Require Import sorting.
From S2P Require Import Prelude Coding Comparator Crc32c Bloom Status Iterator BlockBuilder Format FilterBlock Options.

Section TableBuilder.
Context `{CS : Checksum} {W : Type} {WF : WritableFile W}.
Variables (Snappy Zstd : Compressor).

(** [TableBuilder::Rep].  [compressed_output] is a scratch buffer;
    [index_block_options] differs from [options] in the restart interval, 1. *)
Record TableBuilder := mkTableBuilder {
  r_options : Options;
  r_file : W;
  r_offset : Z;
  r_status : Status;
  data_block : BlockBuilder;
  index_block : BlockBuilder;
  r_last_key : bytes;
  num_entries : Z;
  closed : bool;
  (** The filter builder with the policy it was made with. *)
  filter_block : option (FilterPolicy * FilterBlockBuilder);
  pending_index_entry : bool;
  pending_handle : BlockHandle;
}.

Definition TableBuilder_new (options : Options) (file : W) : TableBuilder :=
  mkTableBuilder options file 0 OK BlockBuilder_new BlockBuilder_new [] 0 false
    (match filter_policy options with
     | Some (_, P) => Some (P, StartBlock P FilterBlockBuilder_new 0)
     | None => None
     end) false BlockHandle_new.

(** *** Updates of the fields *)

Definition with_options (o : Options) (r : TableBuilder) : TableBuilder :=
  mkTableBuilder o (r_file r) (r_offset r) (r_status r) (data_block r) (index_block r) (r_last_key r)
    (num_entries r) (closed r) (filter_block r) (pending_index_entry r) (pending_handle r).
Definition with_file (f : W) (o : Z) (s : Status) (r : TableBuilder) : TableBuilder :=
  mkTableBuilder (r_options r) f o s (data_block r) (index_block r) (r_last_key r)
    (num_entries r) (closed r) (filter_block r) (pending_index_entry r) (pending_handle r).
Definition with_data (b : BlockBuilder) (k : bytes) (n : Z) (r : TableBuilder) : TableBuilder :=
  mkTableBuilder (r_options r) (r_file r) (r_offset r) (r_status r) b (index_block r) k
    n (closed r) (filter_block r) (pending_index_entry r) (pending_handle r).
Definition with_index (b : BlockBuilder) (k : bytes) (pending : bool) (r : TableBuilder) : TableBuilder :=
  mkTableBuilder (r_options r) (r_file r) (r_offset r) (r_status r) (data_block r) b k
    (num_entries r) (closed r) (filter_block r) pending (pending_handle r).
Definition with_pending (p : bool) (h : BlockHandle) (r : TableBuilder) : TableBuilder :=
  mkTableBuilder (r_options r) (r_file r) (r_offset r) (r_status r) (data_block r) (index_block r) (r_last_key r)
    (num_entries r) (closed r) (filter_block r) p h.
Definition with_filter (f : option (FilterPolicy * FilterBlockBuilder)) (r : TableBuilder) : TableBuilder :=
  mkTableBuilder (r_options r) (r_file r) (r_offset r) (r_status r) (data_block r) (index_block r) (r_last_key r)
    (num_entries r) (closed r) f (pending_index_entry r) (pending_handle r).
Definition with_closed (c : bool) (r : TableBuilder) : TableBuilder :=
  mkTableBuilder (r_options r) (r_file r) (r_offset r) (r_status r) (data_block r) (index_block r) (r_last_key r)
    (num_entries r) c (filter_block r) (pending_index_entry r) (pending_handle r).

(** [ok()] *)
Definition tb_ok (r : TableBuilder) : bool := ok (r_status r).

(** The filter block's operation, when there is one. *)
Definition on_filter (f : FilterPolicy -> FilterBlockBuilder -> FilterBlockBuilder) (r : TableBuilder) : TableBuilder :=
  match filter_block r with
  | Some (P, b) => with_filter (Some (P, f P b)) r
  | None => r
  end.

(** [same_comparator]: the two options point to the same comparator. *)
Definition ChangeOptions (same_comparator : bool) (options : Options) (r : TableBuilder) : Status * TableBuilder :=
  if negb same_comparator
  then (InvalidArgument (cstr "changing comparator while building table") [], r)
  else (OK, with_options options r).

(** The block's handle, and the builder with the block written. *)
Definition WriteRawBlock (block_contents : bytes) (type : CompressionType) (r : TableBuilder)
    : BlockHandle * TableBuilder :=
  let handle := mkHandle (r_offset r) (zlen block_contents) in
  let '(s, f) := wf_Append block_contents (r_file r) in
  if ok s then
    let '(s, f) := wf_Append (block_trailer block_contents type) f in
    if ok s then (handle, with_file f (r_offset r + zlen block_contents + kBlockTrailerSize) s r)
    else (handle, with_file f (r_offset r) s r)
  else (handle, with_file f (r_offset r) s r).

(** The contents and the type of a stored block. *)
Definition compressed_with (X : Compressor) (type : CompressionType) (raw : bytes) : bytes * CompressionType :=
  match compress (Compressor := X) raw with
  | Some c => if zlen c <? zlen raw - zlen raw / 8 then (c, type) else (raw, kNoCompression)
  | None => (raw, kNoCompression)
  end.

Definition block_to_store (type : CompressionType) (raw : bytes) : bytes * CompressionType :=
  match type with
  | kNoCompression => (raw, kNoCompression)
  | kSnappyCompression => compressed_with Snappy kSnappyCompression raw
  | kZstdCompression => compressed_with Zstd kZstdCompression raw
  end.

(** The caller's block is reset by the caller of this definition. *)
Definition WriteBlock (block : BlockBuilder) (r : TableBuilder) : BlockHandle * TableBuilder :=
  let raw := (BlockBuilder_Finish block).1 in
  let '(block_contents, type) := block_to_store (compression (r_options r)) raw in
  WriteRawBlock block_contents type r.

Definition Flush (r : TableBuilder) : option TableBuilder :=
  if closed r then None
  else if negb (tb_ok r) then Some r
  else if BlockBuilder_empty (data_block r) then Some r
  else if pending_index_entry r then None
  else
    let '(handle, r) := WriteBlock (data_block r) r in
    let r := with_data (BlockBuilder_Reset (data_block r)) (r_last_key r) (num_entries r) r in
    let r := with_pending (pending_index_entry r) handle r in
    let r :=
      if tb_ok r then
        let r := with_pending true handle r in
        let '(s, f) := wf_Flush (r_file r) in
        with_file f (r_offset r) s r
      else r in
    Some (on_filter (fun P b => StartBlock P b (r_offset r)) r).

(** The index entry for the block before, with the given key. *)
Definition add_index_entry (key : bytes) (r : TableBuilder) : TableBuilder :=
  with_index (BlockBuilder_Add 1 (index_block r) key (BlockHandle_EncodeTo (pending_handle r) [])) key false r.

Definition Add (r : TableBuilder) (key value : bytes) : option TableBuilder :=
  let C := comparator (r_options r) in
  if closed r then None
  else if negb (tb_ok r) then Some r
  else if (0 <? num_entries r) && negb (bool_decide (Compare (Comparator := C) key (r_last_key r) = Gt)) then None
  else if pending_index_entry r && negb (BlockBuilder_empty (data_block r)) then None
  else
    let r :=
      if pending_index_entry r
      then add_index_entry (FindShortestSeparator (Comparator := C) (r_last_key r) key) r
      else r in
    let r := on_filter (fun P b => AddKey b key) r in
    let data := BlockBuilder_Add (block_restart_interval (r_options r)) (data_block r) key value in
    let r := with_data data key (num_entries r + 1) r in
    if block_size (r_options r) <=? CurrentSizeEstimate (data_block r) then Flush r else Some r.

(** The key of the metaindex entry for the filter. *)
Definition filter_key (name : bytes) : bytes := cstr "filter." ++ name.

(** The stages of [Finish]: each is skipped after an error. *)
Definition finish_filter (r : TableBuilder) : BlockHandle * TableBuilder :=
  match filter_block r with
  | Some (P, b) =>
      if tb_ok r then WriteRawBlock (FilterBlock_Finish P b) kNoCompression r else (BlockHandle_new, r)
  | None => (BlockHandle_new, r)
  end.

(** [None]: the policy was taken away by [ChangeOptions]. *)
Definition meta_block (filter_handle : BlockHandle) (r : TableBuilder) : option BlockBuilder :=
  match filter_block r with
  | Some _ =>
      '(name, _) ← filter_policy (r_options r);
      Some (BlockBuilder_Add (block_restart_interval (r_options r)) BlockBuilder_new (filter_key name)
        (BlockHandle_EncodeTo filter_handle []))
  | None => Some BlockBuilder_new
  end.

Definition finish_metaindex (filter_handle : BlockHandle) (r : TableBuilder) : option (BlockHandle * TableBuilder) :=
  if tb_ok r then b ← meta_block filter_handle r; Some (WriteBlock b r) else Some (BlockHandle_new, r).

Definition finish_index (r : TableBuilder) : BlockHandle * TableBuilder :=
  if tb_ok r then
    let r :=
      if pending_index_entry r
      then add_index_entry (FindShortSuccessor (Comparator := comparator (r_options r)) (r_last_key r)) r
      else r in
    let '(h, r) := WriteBlock (index_block r) r in
    (h, with_index (BlockBuilder_Reset (index_block r)) (r_last_key r) (pending_index_entry r) r)
  else (BlockHandle_new, r).

Definition finish_footer (metaindex index : BlockHandle) (r : TableBuilder) : TableBuilder :=
  if tb_ok r then
    let footer_encoding := Footer_EncodeTo (mkFooter metaindex index) [] in
    let '(s, f) := wf_Append footer_encoding (r_file r) in
    with_file f (if ok s then r_offset r + zlen footer_encoding else r_offset r) s r
  else r.

Definition Finish (r : TableBuilder) : option (Status * TableBuilder) :=
  r ← Flush r;
  if closed r then None
  else
    let r := with_closed true r in
    let '(filter_handle, r) := finish_filter r in
    '(metaindex_handle, r) ← finish_metaindex filter_handle r;
    let '(index_handle, r) := finish_index r in
    let r := finish_footer metaindex_handle index_handle r in
    Some (r_status r, r).

Definition Abandon (r : TableBuilder) : option TableBuilder :=
  if closed r then None else Some (with_closed true r).

Definition NumEntries (r : TableBuilder) : Z := num_entries r.
Definition FileSize (r : TableBuilder) : Z := r_offset r.
End TableBuilder.

Arguments TableBuilder W : clear implicits.

(** ** What the file holds *)

Section Stored.
Context `{CS : Checksum} (Snappy Zstd : Compressor) {SL : CompressorLaws Snappy} {ZL : CompressorLaws Zstd}.

(** The stored form of a block. *)
Definition stored_as (raw contents : bytes) (type : CompressionType) : Prop :=
  match type with
  | kNoCompression => contents = raw
  | kSnappyCompression => compress (Compressor := Snappy) raw = Some contents
  | kZstdCompression => compress (Compressor := Zstd) raw = Some contents
  end.

(** The file has the block, with its trailer, where the handle says. *)
Definition stored (F raw : bytes) (h : BlockHandle) : Prop :=
  exists pre post contents type, F = pre ++ (contents ++ block_trailer contents type) ++ post /\
    h = mkHandle (zlen pre) (zlen contents) /\ stored_as raw contents type.

Lemma stored_app F raw h x : stored F raw h -> stored (F ++ x) raw h.
Proof.
  intros (pre & post & c & t & -> & -> & H). exists pre, (post ++ x), c, t. by rewrite <- !app_assoc.
Qed.

Lemma block_trailer_length contents type : zlen (block_trailer contents type) = 5.
Proof. done. Qed.

Lemma stored_bounds F raw h :
  stored F raw h -> 0 <= bh_offset h /\ 0 <= bh_size h /\ bh_offset h + bh_size h + 5 <= zlen F.
Proof.
  intros (pre & post & c & t & -> & -> & _). cbn. rewrite !zlen_app, block_trailer_length.
  pose proof (zlen_nonneg pre). pose proof (zlen_nonneg c). pose proof (zlen_nonneg post). lia.
Qed.

Lemma stored_handle_ok F raw h : stored F raw h -> zlen F < 2 ^ 64 -> handle_ok h.
Proof. intros H%stored_bounds Hs. unfold handle_ok. lia. Qed.

Lemma stored_read {Fi : Type} {R : RandomAccessFile Fi} {raf_contents : Fi -> bytes} {RL : RandomAccessFileLaws R raf_contents}
    file verify raw h :
  stored (raf_contents file) raw h -> zlen (raf_contents file) < 2 ^ 64 ->
  exists cach heap, ReadBlock Snappy Zstd file verify h = Some (inr (mkContents raw cach heap)).
Proof.
  intros H Hs. pose proof (stored_bounds _ _ _ H) as Hb. destruct H as (pre & post & c & t & E & -> & Ht). cbn in Hb.
  destruct (ReadBlock_written Snappy Zstd file verify pre c t post E) as (sc & ->); [pose proof (zlen_nonneg pre); lia|].
  destruct t; cbn in Ht.
  - subst c. eauto.
  - rewrite (read_compressed_ok Snappy _ _ _ Ht). eauto.
  - rewrite (read_compressed_ok Zstd _ _ _ Ht). eauto.
Qed.

Lemma block_to_store_as type raw c t : block_to_store Snappy Zstd type raw = (c, t) -> stored_as raw c t.
Proof.
  unfold block_to_store, compressed_with.
  destruct type; [by intros [= <- <-]| |];
    (destruct (compress raw) as [c'|] eqn:E; [case (_ <? _)|]; intros [= <- <-]; done).
Qed.
End Stored.

(** ** Blocks and index entries *)

(** A written block: its entries and its handle. *)
Abbreviation written := (list kv * BlockHandle)%type.

Definition block_last (kvs : list kv) : bytes := match last kvs with Some e => e.1 | None => [] end.
Definition block_first (kvs : list kv) : option bytes := fst <$> head kvs.

(** The index key of a block, given the first key after it. *)
Definition index_key (C : Comparator) (last : bytes) (next : option bytes) : bytes :=
  match next with
  | Some k => FindShortestSeparator (Comparator := C) last k
  | None => FindShortSuccessor (Comparator := C) last
  end.

(** The index entries of the blocks; [after] is the first key after them. *)
Fixpoint index_for (C : Comparator) (blocks : list written) (after : option bytes) : list kv :=
  match blocks with
  | [] => []
  | (kvs, h) :: rest =>
      let next := match rest with [] => after | (kvs', _) :: _ => block_first kvs' end in
      (index_key C (block_last kvs) next, BlockHandle_EncodeTo h []) :: index_for C rest after
  end.

Definition all_entries (blocks : list written) : list kv := concat (map fst blocks).

(** The calls of the filter builder: one group of keys for each block. *)
Definition filter_groups (blocks : list written) (offset : Z) (cur : list kv) : list (Z * list bytes) :=
  map (fun '(kvs, h) => (bh_offset h, map fst kvs)) blocks ++ [(offset, map fst cur)].

Lemma index_for_snoc C blocks kvs h after :
  index_for C (blocks ++ [(kvs, h)]) after =
  index_for C blocks (block_first kvs) ++ [(index_key C (block_last kvs) after, BlockHandle_EncodeTo h [])].
Proof.
  induction blocks as [|[kvs0 h0] blocks IH]; [done|]. cbn [app index_for]. rewrite IH.
  destruct blocks as [|[kvs1 h1] blocks]; done.
Qed.

Lemma all_entries_snoc blocks kvs h : all_entries (blocks ++ [(kvs, h)]) = all_entries blocks ++ kvs.
Proof. unfold all_entries. rewrite map_app, concat_app. cbn. by rewrite app_nil_r. Qed.

Lemma add_all_snoc interval kvs e : add_all interval (kvs ++ [e]) = BlockBuilder_Add interval (add_all interval kvs) e.1 e.2.
Proof. unfold add_all. by rewrite fold_left_app. Qed.

Lemma add_all_empty interval kvs : BlockBuilder_empty (add_all interval kvs) = match kvs with [] => true | _ => false end.
Proof.
  destruct kvs as [|e kvs _] using rev_ind; [done|]. rewrite add_all_snoc.
  assert (H : BlockBuilder_empty (BlockBuilder_Add interval (add_all interval kvs) e.1 e.2) = false).
  { unfold BlockBuilder_empty, BlockBuilder_Add. destruct (_ <? _); cbn [bb_buffer]; apply Z.eqb_neq;
      unfold PutVarint32; rewrite !zlen_app;
      match goal with |- context [zlen (EncodeVarint32 ?v)] =>
        pose proof (EncodeVarint32_length v) end;
      pose proof (zlen_nonneg (bb_buffer (add_all interval kvs))); unfold zlen in *; lia. }
  rewrite H. by destruct kvs.
Qed.

Lemma run_blocks_snoc P blocks off keys b :
  run_blocks (P := P) (blocks ++ [(off, keys)]) b = fold_left AddKey keys (StartBlock P (run_blocks (P := P) blocks b) off).
Proof. unfold run_blocks. by rewrite fold_left_app. Qed.

Lemma filter_groups_add blocks offset cur e b P :
  run_blocks (P := P) (filter_groups blocks offset (cur ++ [e])) b =
  AddKey (run_blocks (P := P) (filter_groups blocks offset cur) b) e.1.
Proof. unfold filter_groups. by rewrite !run_blocks_snoc, map_app, fold_left_app. Qed.

Lemma offsets_from_snoc o blocks off keys off' keys' :
  offsets_from o (blocks ++ [(off, keys)]) -> off <= off' -> offsets_from o (blocks ++ [(off, keys'); (off', [])]).
Proof.
  revert o. induction blocks as [|[o1 k1] blocks IH]; intros o; cbn; [intros [? _] ?; done|].
  intros [? H] ?. split; [done|]. by apply IH.
Qed.

Lemma offsets_from_keys o blocks off keys keys' :
  offsets_from o (blocks ++ [(off, keys)]) -> offsets_from o (blocks ++ [(off, keys')]).
Proof. revert o. induction blocks as [|[o1 k1] blocks IH]; intros o; cbn; [done|]. intros [? H]. split; [done|]. by apply IH. Qed.

(** ** The builder's invariant *)

Section Invariant.
Context `{CS : Checksum} {W : Type} {WF : WritableFile W} {wf_contents : W -> bytes} {WL : WritableFileLaws WF wf_contents}.
Context (Snappy Zstd : Compressor) {SL : CompressorLaws Snappy} {ZL : CompressorLaws Zstd}.
Variable o : Options.
Notation C := (comparator o).
Notation interval := (block_restart_interval o).
Notation stored := (stored Snappy Zstd).
Notation TableBuilder := (TableBuilder W).

(** The bytes of a data block. *)
Definition block_raw (kvs : list kv) : bytes := (BlockBuilder_Finish (add_all interval kvs)).1.

(** What does not change between the operations. *)
Record file_inv (r : TableBuilder) : Prop := {
  fi_options : r_options r = o;
  fi_status : r_status r = OK;
  fi_offset : zlen (wf_contents (r_file r)) = r_offset r;
}.

(** The builder has written [blocks] and holds the entries [cur]. *)
Record tb_inv (r : TableBuilder) (blocks : list written) (cur : list kv) : Prop := {
  ti_file : file_inv r;
  ti_closed : closed r = false;
  ti_stored : forall kvs h, (kvs, h) ∈ blocks -> stored (wf_contents (r_file r)) (block_raw kvs) h;
  ti_nonempty : forall kvs h, (kvs, h) ∈ blocks -> kvs <> [];
  ti_handles : forall kvs h, (kvs, h) ∈ blocks -> bh_offset h < r_offset r;
  ti_nodup : NoDup (map (fun b => bh_offset b.2) blocks);
  ti_offsets : offsets_from 0 (filter_groups blocks (r_offset r) cur);
  ti_data : data_block r = add_all interval cur;
  ti_index : index_block r =
    add_all 1 (if pending_index_entry r then removelast (index_for C blocks None) else index_for C blocks (block_first cur));
  ti_pending : if pending_index_entry r then cur = [] /\ exists kvs, last blocks = Some (kvs, pending_handle r)
               else cur = [] -> blocks = [];
  ti_entries : num_entries r = zlen (all_entries blocks ++ cur);
  ti_last : forall e, last (all_entries blocks ++ cur) = Some e -> r_last_key r = e.1;
  ti_filter : filter_block r =
    match filter_policy o with
    | Some (_, P) => Some (P, run_blocks (P := P) (filter_groups blocks (r_offset r) cur) FilterBlockBuilder_new)
    | None => None
    end;
}.

Lemma tb_new_inv file : wf_contents file = [] -> tb_inv (TableBuilder_new o file) [] [].
Proof.
  intros E. split; cbn; try done; try by intros ?? ?%elem_of_nil.
  2: constructor.
  split; [done|done|]. cbn. by rewrite E.
Qed.

(** Writing a block to a file that works. *)
Lemma WriteRawBlock_spec raw contents type r :
  file_inv r -> stored_as Snappy Zstd raw contents type ->
  exists f, let h := mkHandle (r_offset r) (zlen contents) in
    WriteRawBlock contents type r = (h, with_file f (r_offset r + zlen contents + kBlockTrailerSize) OK r) /\
    (exists x, wf_contents f = wf_contents (r_file r) ++ x) /\
    zlen (wf_contents f) = r_offset r + zlen contents + kBlockTrailerSize /\ stored (wf_contents f) raw h.
Proof.
  intros [Ho Hs Hl] Hst. destruct (wf_Append_ok contents (r_file r)) as (f1 & E1 & H1).
  destruct (wf_Append_ok (block_trailer contents type) f1) as (f2 & E2 & H2). exists f2.
  unfold WriteRawBlock. rewrite E1. cbn [ok]. rewrite E2. cbn [ok]. split; [done|].
  rewrite H2, H1. split; [exists (contents ++ block_trailer contents type); by rewrite app_assoc|]. split.
  - rewrite !zlen_app, block_trailer_length, Hl. unfold kBlockTrailerSize. lia.
  - exists (wf_contents (r_file r)), [], contents, type. rewrite app_nil_r, <- app_assoc. split; [done|].
    split; [by rewrite Hl|done].
Qed.

Lemma WriteBlock_spec b r :
  file_inv r ->
  exists f h off, WriteBlock Snappy Zstd b r = (h, with_file f off OK r) /\
    file_inv (with_file f off OK r) /\ (exists x, wf_contents f = wf_contents (r_file r) ++ x) /\
    bh_offset h = r_offset r /\ r_offset r < off /\ stored (wf_contents f) (BlockBuilder_Finish b).1 h.
Proof.
  intros Hi. unfold WriteBlock. destruct (block_to_store Snappy Zstd _ _) as [contents type] eqn:E.
  destruct (WriteRawBlock_spec _ contents type r Hi (block_to_store_as Snappy Zstd _ _ _ _ E)) as (f & -> & Hx & Hz & Hst).
  eexists f, _, _. split; [done|]. split; [split; cbn; [apply Hi|done|done]|]. split; [done|]. split; [done|].
  split; [|done]. unfold kBlockTrailerSize. pose proof (zlen_nonneg contents). lia.
Qed.

Lemma stored_mono (f f' : W) raw h x :
  wf_contents f' = wf_contents f ++ x -> stored (wf_contents f) raw h -> stored (wf_contents f') raw h.
Proof. intros -> H. by apply stored_app. Qed.

(** Flushing turns the entries held into a written block. *)
Lemma Flush_inv r blocks cur :
  tb_inv r blocks cur ->
  exists r', Flush Snappy Zstd r = Some r' /\
    ((cur = [] /\ r' = r) \/
     exists h, tb_inv r' (blocks ++ [(cur, h)]) [] /\ pending_index_entry r' = true /\ cur <> []).
Proof.
  intros Hi. pose proof (ti_file _ _ _ Hi) as Hf. unfold Flush, tb_ok.
  rewrite (ti_closed _ _ _ Hi), (fi_status _ Hf), (ti_data _ _ _ Hi), add_all_empty. cbn [ok negb].
  destruct cur as [|e cur]; [exists r; split; [done|by left]|].
  assert (Hp : pending_index_entry r = false).
  { pose proof (ti_pending _ _ _ Hi) as H. by destruct (pending_index_entry r); [destruct H|]. }
  rewrite Hp. destruct (WriteBlock_spec (add_all interval (e :: cur)) r Hf) as (f & h & off & -> & Hf' & [x Hx] & Ho & Hle & Hst).
  cbn [r_status with_file with_data with_pending r_last_key num_entries ok pending_index_entry r_offset r_file].
  destruct (wf_Flush_ok f) as (f2 & E2 & H2). rewrite E2.
  assert (Ex : wf_contents f2 = wf_contents (r_file r) ++ x) by congruence.
  eexists. split; [done|]. right. exists h.
  assert (Hg : filter_groups (blocks ++ [(e :: cur, h)]) off [] = filter_groups blocks (r_offset r) (e :: cur) ++ [(off, [])]).
  { unfold filter_groups. rewrite map_app. cbn [map]. rewrite Ho. done. }
  split; [|split; [|done]].
  2: { unfold on_filter. cbn [filter_block with_file with_pending with_data]. by destruct (filter_block r) as [[P b]|]. }
  assert (Hshape : forall q : TableBuilder, on_filter (fun P b => StartBlock P b (r_offset q)) q =
    with_filter (match filter_block q with Some (P, b) => Some (P, StartBlock P b (r_offset q)) | None => None end) q).
  { intros q. unfold on_filter. destruct (filter_block q) as [[P b]|] eqn:Eq; [done|]. destruct q; cbn in *. by rewrite Eq. }
  rewrite Hshape. clear Hshape. split; cbn.
  - split; cbn; [apply Hf|done|]. rewrite H2. apply Hf'.
  - apply (ti_closed _ _ _ Hi).
  - intros kvs h' [Hin|[= -> ->]%list_elem_of_singleton]%elem_of_app.
    + eapply (stored_mono (r_file r)); [exact Ex|]. by apply (ti_stored _ _ _ Hi).
    + rewrite H2. exact Hst.
  - intros kvs h' [Hin|[= -> ->]%list_elem_of_singleton]%elem_of_app; [by eapply (ti_nonempty _ _ _ Hi)|done].
  - intros kvs h' [Hin|[= -> ->]%list_elem_of_singleton]%elem_of_app; [|lia].
    pose proof (ti_handles _ _ _ Hi _ _ Hin). lia.
  - rewrite map_app. apply NoDup_app. split; [apply (ti_nodup _ _ _ Hi)|]. split; [|apply NoDup_singleton].
    intros y ([kvs h'] & -> & Hin)%list_elem_of_fmap Hy%list_elem_of_singleton. cbn in Hy.
    pose proof (ti_handles _ _ _ Hi _ _ Hin). lia.
  - rewrite Hg. unfold filter_groups. rewrite <- app_assoc. eapply offsets_from_snoc; [|exact (Z.lt_le_incl _ _ Hle)]. apply (ti_offsets _ _ _ Hi).
  - done.
  - rewrite index_for_snoc, removelast_last. rewrite (ti_index _ _ _ Hi), Hp. done.
  - split; [done|]. exists (e :: cur). by rewrite last_snoc.
  - rewrite all_entries_snoc, app_nil_r. apply (ti_entries _ _ _ Hi).
  - rewrite all_entries_snoc, app_nil_r. apply (ti_last _ _ _ Hi).
  - rewrite (ti_filter _ _ _ Hi). destruct (filter_policy o) as [[name P]|]; [|done].
    rewrite Hg, run_blocks_snoc. done.
Qed.

(** The state [Add] has built before it may flush. *)
Definition added (r : TableBuilder) (key value : bytes) : TableBuilder :=
  let r :=
    if pending_index_entry r
    then add_index_entry (FindShortestSeparator (Comparator := C) (r_last_key r) key) r else r in
  let r := on_filter (fun P b => AddKey b key) r in
  with_data (BlockBuilder_Add interval (data_block r) key value) key (num_entries r + 1) r.

Lemma last_entry_num r blocks cur :
  tb_inv r blocks cur -> 0 < num_entries r -> exists e, last (all_entries blocks ++ cur) = Some e /\ r_last_key r = e.1.
Proof.
  intros Hi Hn. rewrite (ti_entries _ _ _ Hi) in Hn. destruct (last (all_entries blocks ++ cur)) as [e|] eqn:E.
  - exists e. split; [done|]. by apply (ti_last _ _ _ Hi).
  - apply last_None in E. rewrite E in Hn. unfold zlen in Hn. cbn in Hn. lia.
Qed.

(** The index with the entry of the pending block. *)
Lemma pending_index r blocks cur key :
  tb_inv r blocks cur -> pending_index_entry r = true ->
  BlockBuilder_Add 1 (index_block r) (index_key C (r_last_key r) key) (BlockHandle_EncodeTo (pending_handle r) []) =
  add_all 1 (index_for C blocks key).
Proof.
  intros Hi Hp. pose proof (ti_pending _ _ _ Hi) as H. pose proof (ti_index _ _ _ Hi) as Hx. rewrite Hp in H, Hx.
  destruct H as (-> & kvs & Hl). destruct blocks as [|b blocks _] using rev_ind; [done|].
  rewrite last_snoc in Hl. injection Hl as ->. rewrite index_for_snoc, removelast_last in Hx.
  rewrite index_for_snoc, add_all_snoc, Hx. cbn [fst snd]. f_equal. f_equal.
  unfold block_last. destruct (last kvs) as [e|] eqn:E.
  - apply (ti_last _ _ _ Hi). rewrite all_entries_snoc, app_nil_r. by rewrite last_app, E.
  - apply last_None in E. destruct (ti_nonempty _ _ _ Hi kvs (pending_handle r)); [|done].
    apply elem_of_app. right. by apply list_elem_of_singleton.
Qed.

Lemma added_inv r blocks cur key value :
  tb_inv r blocks cur -> tb_inv (added r key value) blocks (cur ++ [(key, value)]).
Proof.
  intros Hi. pose proof (ti_file _ _ _ Hi) as Hf.
  pose proof (pending_index r blocks cur (Some key) Hi) as Hpi. cbn [index_key] in Hpi.
  set (r1 := if pending_index_entry r
    then add_index_entry (FindShortestSeparator (Comparator := C) (r_last_key r) key) r else r).
  assert (H1 : r_options r1 = r_options r /\ r_file r1 = r_file r /\ r_offset r1 = r_offset r /\ r_status r1 = r_status r /\
    data_block r1 = data_block r /\ num_entries r1 = num_entries r /\ closed r1 = closed r /\ filter_block r1 = filter_block r /\
    pending_index_entry r1 = false /\ index_block r1 = add_all 1 (index_for C blocks (block_first (cur ++ [(key, value)])))).
  { unfold r1. destruct (pending_index_entry r) eqn:Hp.
    - do 9 (split; [done|]). etrans; [exact (Hpi eq_refl)|]. pose proof (ti_pending _ _ _ Hi) as H. rewrite Hp in H.
      by destruct H as [-> _].
    - do 8 (split; [done|]). split; [done|]. pose proof (ti_pending _ _ _ Hi) as H. pose proof (ti_index _ _ _ Hi) as Hx.
      rewrite Hp in H, Hx. rewrite Hx. destruct cur; [by rewrite (H eq_refl)|done]. }
  destruct H1 as (E1 & E2 & E3 & E4 & E5 & E6 & E7 & E8 & E9 & E10).
  assert (H2 : on_filter (fun P b => AddKey b key) r1 =
    with_filter (match filter_block r with Some (P, b) => Some (P, AddKey b key) | None => None end) r1).
  { unfold on_filter. rewrite E8. destruct (filter_block r) as [[P b]|]; [done|]. destruct r1; cbn in *. by rewrite E8. }
  unfold added. fold r1. rewrite H2. split; cbn; rewrite ?E1, ?E2, ?E3, ?E4, ?E5, ?E6, ?E7, ?E9, ?E10.
  - destruct Hf. split; cbn; congruence.
  - apply (ti_closed _ _ _ Hi).
  - apply (ti_stored _ _ _ Hi).
  - apply (ti_nonempty _ _ _ Hi).
  - apply (ti_handles _ _ _ Hi).
  - apply (ti_nodup _ _ _ Hi).
  - eapply offsets_from_keys. apply (ti_offsets _ _ _ Hi).
  - by rewrite (ti_data _ _ _ Hi), add_all_snoc.
  - done.
  - by intros [_ ?]%app_eq_nil.
  - rewrite (ti_entries _ _ _ Hi), app_assoc, (zlen_app _ [_]). done.
  - intros e. rewrite app_assoc, last_snoc. by intros [= <-].
  - rewrite (ti_filter _ _ _ Hi). destruct (filter_policy o) as [[name P]|]; [|done]. by rewrite filter_groups_add.
Qed.

Lemma Add_inv r blocks cur key value :
  tb_inv r blocks cur ->
  (forall e, last (all_entries blocks ++ cur) = Some e -> Compare (Comparator := C) e.1 key = Lt) ->
  ComparatorLaws C ->
  exists r' blocks' cur', Add Snappy Zstd r key value = Some r' /\ tb_inv r' blocks' cur' /\
    all_entries blocks' ++ cur' = (all_entries blocks ++ cur) ++ [(key, value)].
Proof.
  intros Hi Hlt L. pose proof (ti_file _ _ _ Hi) as Hf. unfold Add, tb_ok.
  rewrite (ti_closed _ _ _ Hi), (fi_status _ Hf), (fi_options _ Hf). cbn [ok negb].
  assert (Hord : (0 <? num_entries r) && negb (bool_decide (Compare (Comparator := C) key (r_last_key r) = Gt)) = false).
  { destruct (Z.ltb_spec 0 (num_entries r)) as [Hn|]; [|done].
    destruct (last_entry_num _ _ _ Hi Hn) as (e & El & ->). by rewrite bool_decide_true by by apply Compare_gt_lt, Hlt. }
  assert (Hpe : pending_index_entry r && negb (BlockBuilder_empty (data_block r)) = false).
  { pose proof (ti_pending _ _ _ Hi) as H. destruct (pending_index_entry r); [|done]. destruct H as [-> _].
    by rewrite (ti_data _ _ _ Hi). }
  rewrite Hord, Hpe. cbv zeta.
  match goal with |- context [with_data ?b ?k ?n ?q] => assert (E : with_data b k n q = added r key value) end.
  { unfold added. cbv zeta. unfold on_filter. destruct (pending_index_entry r); cbn;
      destruct (filter_block r) as [[P b]|]; cbn; by rewrite (fi_options _ Hf). }
  rewrite E. clear E. pose proof (added_inv r blocks cur key value Hi) as Hi'.
  rewrite (fi_options _ (ti_file _ _ _ Hi')). destruct (_ <=? _).
  - destruct (Flush_inv _ _ _ Hi') as (r' & -> & [[H _]|(h & Hr & _)]); [by apply app_eq_nil in H as [_ ?]|].
    exists r', (blocks ++ [(cur ++ [(key, value)], h)]), []. split; [done|]. split; [done|].
    by rewrite all_entries_snoc, app_nil_r, app_assoc.
  - exists (added r key value), blocks, (cur ++ [(key, value)]). split; [done|]. split; [done|]. by rewrite app_assoc.
Qed.

(** *** The finished file *)

(** The finished filter block of a table. *)
Definition filter_bytes (P : FilterPolicy) (blocks : list written) (off : Z) : bytes :=
  FilterBlock_Finish P (run_blocks (P := P) (filter_groups blocks off []) FilterBlockBuilder_new).

Record table_layout (F : bytes) (blocks : list written) (footer : Footer) (off : Z) : Prop := {
  tl_stored : forall kvs h, (kvs, h) ∈ blocks -> stored F (block_raw kvs) h;
  tl_nonempty : forall kvs h, (kvs, h) ∈ blocks -> kvs <> [];
  tl_nodup : NoDup (map (fun b => bh_offset b.2) blocks);
  tl_offsets : offsets_from 0 (filter_groups blocks off []);
  tl_index : stored F (BlockBuilder_Finish (add_all 1 (index_for C blocks None))).1 (index_handle footer);
  tl_meta :
    match filter_policy o with
    | Some (name, P) => exists fh, stored F (filter_bytes P blocks off) fh /\ zlen (filter_bytes P blocks off) <= zlen F /\
        stored F (block_raw [(filter_key name, BlockHandle_EncodeTo fh [])]) (metaindex_handle footer)
    | None => stored F (block_raw []) (metaindex_handle footer)
    end;
  tl_footer : exists x, F = x ++ Footer_EncodeTo footer [];
}.

(** The state after the data blocks: what [Finish] writes next. *)
Definition between (r r' : TableBuilder) : Prop :=
  file_inv r' /\ (exists x, wf_contents (r_file r') = wf_contents (r_file r) ++ x) /\
  index_block r' = index_block r /\ r_last_key r' = r_last_key r /\ pending_index_entry r' = pending_index_entry r /\
  pending_handle r' = pending_handle r /\ filter_block r' = filter_block r /\ closed r' = closed r.

Lemma between_with_file r f off x :
  file_inv (with_file f off OK r) -> wf_contents f = wf_contents (r_file r) ++ x -> between r (with_file f off OK r).
Proof. intros Hi Hx. split; [done|]. split; [by exists x|done]. Qed.

Lemma between_trans r r' r'' : between r r' -> between r' r'' -> between r r''.
Proof.
  intros (Hf & [x Hx] & H) (Hf' & [y Hy] & H'). split; [done|]. split; [exists (x ++ y); by rewrite Hy, Hx, app_assoc|].
  intuition congruence.
Qed.

Lemma finish_filter_spec r :
  file_inv r ->
  exists h r', finish_filter r = (h, r') /\ between r r' /\
    match filter_block r with
    | Some (P, b) => stored (wf_contents (r_file r')) (FilterBlock_Finish P b) h /\
        zlen (FilterBlock_Finish P b) <= zlen (wf_contents (r_file r'))
    | None => True
    end.
Proof.
  intros Hi. unfold finish_filter, tb_ok. rewrite (fi_status _ Hi). cbn [ok].
  destruct (filter_block r) as [[P b]|] eqn:Eb.
  - destruct (WriteRawBlock_spec (FilterBlock_Finish P b) _ kNoCompression r Hi eq_refl) as (f & -> & [x Hx] & Hz & Hst).
    eexists _, _. split; [done|]. split.
    + eapply between_with_file; [|exact Hx]. split; cbn; [apply Hi|done|done].
    + split; [done|]. cbn [r_file with_file]. rewrite Hz, <- (fi_offset _ Hi). unfold kBlockTrailerSize.
      pose proof (zlen_nonneg (wf_contents (r_file r))). lia.
  - exists BlockHandle_new, r. split; [done|]. split; [|done]. split; [done|]. split; [exists []; by rewrite app_nil_r|done].
Qed.

Lemma finish_metaindex_spec fh r :
  file_inv r -> (forall P b, filter_block r = Some (P, b) -> exists name, filter_policy o = Some (name, P)) ->
  (filter_block r = None -> filter_policy o = None) ->
  exists h r', finish_metaindex Snappy Zstd fh r = Some (h, r') /\ between r r' /\
    stored (wf_contents (r_file r'))
      (block_raw match filter_policy o with Some (name, _) => [(filter_key name, BlockHandle_EncodeTo fh [])] | None => [] end) h.
Proof.
  intros Hi Hp Hn. unfold finish_metaindex, tb_ok. rewrite (fi_status _ Hi). cbn [ok].
  assert (Hm : meta_block fh r = Some (add_all interval
    match filter_policy o with Some (name, _) => [(filter_key name, BlockHandle_EncodeTo fh [])] | None => [] end)).
  { unfold meta_block. rewrite (fi_options _ Hi). destruct (filter_block r) as [[P b]|].
    - destruct (Hp P b eq_refl) as [name ->]. done.
    - by rewrite Hn. }
  rewrite Hm. cbn [mbind option_bind]. destruct (WriteBlock_spec (add_all interval
    match filter_policy o with Some (name, _) => [(filter_key name, BlockHandle_EncodeTo fh [])] | None => [] end) r Hi)
    as (f & h & off & -> & Hi' & [x Hx] & _ & _ & Hst).
  exists h, (with_file f off OK r). split; [done|]. split; [by eapply between_with_file|]. exact Hst.
Qed.

Lemma finish_index_spec r index :
  file_inv r ->
  (if pending_index_entry r
   then BlockBuilder_Add 1 (index_block r) (FindShortSuccessor (Comparator := C) (r_last_key r))
          (BlockHandle_EncodeTo (pending_handle r) []) else index_block r) = add_all 1 index ->
  exists h r', finish_index Snappy Zstd r = (h, r') /\ file_inv r' /\
    (exists x, wf_contents (r_file r') = wf_contents (r_file r) ++ x) /\ closed r' = closed r /\
    stored (wf_contents (r_file r')) (BlockBuilder_Finish (add_all 1 index)).1 h.
Proof.
  intros Hi Hx. unfold finish_index, tb_ok. rewrite (fi_status _ Hi), (fi_options _ Hi). cbn [ok].
  set (r1 := if pending_index_entry r then _ else r).
  assert (H1 : file_inv r1 /\ r_file r1 = r_file r /\ closed r1 = closed r /\ index_block r1 = add_all 1 index).
  { rewrite <- Hx. unfold r1. destruct (pending_index_entry r); [|done]. split; [|done]. destruct Hi. by split. }
  destruct H1 as (Hi1 & Ef & Ec & Eb). rewrite Eb.
  destruct (WriteBlock_spec (add_all 1 index) r1 Hi1) as (f & h & off & -> & Hi' & [x Hx'] & _ & _ & Hst).
  eexists _, _. split; [done|]. split; [destruct Hi'; by split|]. split; [exists x; cbn; by rewrite Hx', Ef|].
  split; [done|]. exact Hst.
Qed.

Lemma Finish_spec r blocks cur :
  tb_inv r blocks cur ->
  exists r' blocks' footer off, Finish Snappy Zstd r = Some (OK, r') /\ all_entries blocks' = all_entries blocks ++ cur /\
    table_layout (wf_contents (r_file r')) blocks' footer off /\ FileSize r' = zlen (wf_contents (r_file r')).
Proof.
  intros Hi0. destruct (Flush_inv r blocks cur Hi0) as (r1 & E1 & Hr1).
  assert (exists blocks', tb_inv r1 blocks' [] /\ all_entries blocks' = all_entries blocks ++ cur) as (blocks' & Hi & Hall).
  { destruct Hr1 as [[-> ->]|(h & Hi & _ & _)].
    - exists blocks. split; [done|by rewrite app_nil_r].
    - exists (blocks ++ [(cur, h)]). split; [done|]. by rewrite all_entries_snoc. }
  clear Hr1 Hi0. pose proof (ti_file _ _ _ Hi) as Hf. set (off := r_offset r1).
  unfold Finish. rewrite E1. cbn [mbind option_bind]. rewrite (ti_closed _ _ _ Hi).
  set (rc := with_closed true r1). assert (Hfc : file_inv rc) by (destruct Hf; by split).
  destruct (finish_filter_spec rc Hfc) as (fh & r2 & -> & Hb2 & Hst2). pose proof Hb2 as (Hf2 & [x2 Hx2] & H2).
  assert (Hfb : filter_block rc = match filter_policy o with
    | Some (_, P) => Some (P, run_blocks (P := P) (filter_groups blocks' off []) FilterBlockBuilder_new) | None => None end)
    by apply (ti_filter _ _ _ Hi).
  assert (Efb : filter_block r2 = filter_block rc) by apply H2.
  destruct (finish_metaindex_spec fh r2 Hf2) as (mh & r3 & -> & Hb3 & Hst3).
  { intros P b. rewrite Efb, Hfb. destruct (filter_policy o) as [[name P']|]; [|done]. intros [= -> _]. by exists name. }
  { rewrite Efb, Hfb. by destruct (filter_policy o) as [[name P']|]. }
  pose proof Hb3 as (Hf3 & [x3 Hx3] & _). destruct (between_trans _ _ _ Hb2 Hb3) as (_ & _ & Ex & El & Ep & Eh & _ & Ec).
  cbn [mbind option_bind].
  destruct (finish_index_spec r3 (index_for C blocks' None) Hf3) as (ih & r4 & -> & Hf4 & [x4 Hx4] & Hc4 & Hst4).
  { rewrite Ex, El, Ep, Eh. cbn. pose proof (pending_index r1 blocks' [] None Hi) as Hpi. cbn [index_key] in Hpi.
    pose proof (ti_index _ _ _ Hi) as Hin. destruct (pending_index_entry r1); [by apply Hpi|done]. }
  unfold finish_footer, tb_ok. rewrite (fi_status _ Hf4). cbn [ok].
  destruct (wf_Append_ok (Footer_EncodeTo (mkFooter mh ih) []) (r_file r4)) as (f5 & -> & H5). cbn [ok r_status with_file].
  eexists _, blocks', (mkFooter mh ih), off. split; [done|]. split; [done|]. cbn [r_file with_file FileSize r_offset].
  rewrite H5. split; [|rewrite zlen_app, (fi_offset _ Hf4); done].
  set (foot := Footer_EncodeTo _ []). rewrite Hx4 in Hst4 |- *. rewrite Hx3 in Hst3, Hst4 |- *.
  rewrite Hx2 in Hst2, Hst3, Hst4 |- *. change (r_file rc) with (r_file r1) in *. split.
  - intros kvs h Hin. do 4 apply stored_app. by apply (ti_stored _ _ _ Hi).
  - apply (ti_nonempty _ _ _ Hi).
  - apply (ti_nodup _ _ _ Hi).
  - apply (ti_offsets _ _ _ Hi).
  - by apply stored_app.
  - rewrite Hfb in Hst2. destruct (filter_policy o) as [[name P]|]; [|by do 2 apply stored_app].
    destruct Hst2 as [Hst2 Hz2]. exists fh. split; [by do 3 apply stored_app|]. split; [|by do 2 apply stored_app].
    rewrite zlen_app in Hz2. rewrite !zlen_app. pose proof (zlen_nonneg x3). pose proof (zlen_nonneg x4). pose proof (zlen_nonneg foot).
    unfold filter_bytes. lia.
  - by eexists.
Qed.

(** *** Building from a list of entries *)

(** [for (...) builder->Add(key, value)]. *)
Fixpoint add_entries (r : TableBuilder) (kvs : list kv) : option TableBuilder :=
  match kvs with
  | [] => Some r
  | (k, v) :: kvs => r ← Add Snappy Zstd r k v; add_entries r kvs
  end.

Lemma add_entries_inv r blocks cur kvs :
  ComparatorLaws C -> tb_inv r blocks cur -> kvs_sorted C (all_entries blocks ++ cur ++ kvs) ->
  exists r' blocks' cur', add_entries r kvs = Some r' /\ tb_inv r' blocks' cur' /\
    all_entries blocks' ++ cur' = all_entries blocks ++ cur ++ kvs.
Proof.
  intros L. revert r blocks cur. induction kvs as [|[k v] kvs IH]; intros r blocks cur Hi Hs.
  { exists r, blocks, cur. by rewrite app_nil_r. }
  cbn [add_entries]. destruct (Add_inv r blocks cur k v Hi) as (r1 & blocks1 & cur1 & -> & Hi1 & E1); [|done|].
  { intros e He. rewrite app_assoc in Hs. apply last_Some in He as [pre Epre]. rewrite Epre, <- app_assoc in Hs.
    apply StronglySorted_app_1_r in Hs. apply StronglySorted_inv in Hs as [_ Hs].
    apply (proj1 (Forall_forall _ _) Hs (k, v)). by left. }
  cbn [mbind option_bind].
  assert (E2 : all_entries blocks1 ++ cur1 ++ kvs = all_entries blocks ++ cur ++ (k, v) :: kvs).
  { rewrite (app_assoc (all_entries blocks1)), E1, <- !app_assoc. done. }
  destruct (IH r1 blocks1 cur1 Hi1) as (r2 & blocks2 & cur2 & -> & Hi2 & E3); [by rewrite E2|].
  exists r2, blocks2, cur2. split; [done|]. split; [done|]. by rewrite E3.
Qed.

(** A builder given sorted entries finishes with a table of them. *)
Lemma build_table file kvs :
  ComparatorLaws C -> wf_contents file = [] -> kvs_sorted C kvs ->
  exists r r' blocks footer off, add_entries (TableBuilder_new o file) kvs = Some r /\
    Finish Snappy Zstd r = Some (OK, r') /\ all_entries blocks = kvs /\
    table_layout (wf_contents (r_file r')) blocks footer off /\ FileSize r' = zlen (wf_contents (r_file r')) /\
    NumEntries r = zlen kvs.
Proof.
  intros L Ef Hs. destruct (add_entries_inv (TableBuilder_new o file) [] [] kvs L (tb_new_inv file Ef) Hs)
    as (r & blocks & cur & E & Hi & Ea).
  destruct (Finish_spec r blocks cur Hi) as (r' & blocks' & footer & off & E' & Ea' & Hl & Hz).
  exists r, r', blocks', footer, off. split; [done|]. split; [done|]. split; [by rewrite Ea', Ea|].
  split; [done|]. split; [done|]. unfold NumEntries. by rewrite (ti_entries _ _ _ Hi), Ea.
Qed.
End Invariant.

(** ** Files that fail *)

(** A builder whose file may fail does what a builder that writes to a string does,
    until an operation of the file fails; from then on it changes nothing. *)
Section Faults.
Context `{CS : Checksum} {W : Type} {WF : WritableFile W} {works : Prop} {wf_contents : W -> bytes} {FL : FaultyFile works WF wf_contents}.
Context (Snappy Zstd : Compressor).
Implicit Types (r : TableBuilder W) (q : TableBuilder bytes).

Definition on_string r : TableBuilder bytes :=
  mkTableBuilder (r_options r) (wf_contents (r_file r)) (r_offset r) (r_status r) (data_block r) (index_block r) (r_last_key r)
    (num_entries r) (closed r) (filter_block r) (pending_index_entry r) (pending_handle r).

Definition failed r : Prop := tb_ok r = false /\ ~ works.
Definition tracks r q : Prop := (q = on_string r /\ tb_ok r = true) \/ failed r.

(** The same for an operation with a result. *)
Definition ran {A} (x : A * TableBuilder W) (y : A * TableBuilder bytes) : Prop :=
  (y = (x.1, on_string x.2) /\ tb_ok x.2 = true) \/ failed x.2.

Lemma file_failed f off s r : ok s = false -> ~ works -> failed (with_file f off s r).
Proof. done. Qed.

Lemma WriteRawBlock_ran c t r : closed (WriteRawBlock c t r).2 = closed r /\ num_entries (WriteRawBlock c t r).2 = num_entries r /\
  ran (WriteRawBlock c t r) (WriteRawBlock c t (on_string r)).
Proof.
  unfold WriteRawBlock. destruct (wf_Append c (r_file r)) as [s f] eqn:E. apply wf_Append_may in E. destruct (ok s) eqn:Es.
  2: { split; [done|]. split; [done|]. right. by apply file_failed. }
  destruct (wf_Append (block_trailer c t) f) as [s2 f2] eqn:E2. apply wf_Append_may in E2. destruct (ok s2) eqn:Es2.
  2: { split; [done|]. split; [done|]. right. by apply file_failed. }
  apply ok_OK in Es2 as ->. do 2 (split; [done|]). left. split; [|done]. cbn. unfold on_string. cbn. by rewrite E2, E.
Qed.

Lemma WriteBlock_ran b r : closed (WriteBlock Snappy Zstd b r).2 = closed r /\ num_entries (WriteBlock Snappy Zstd b r).2 = num_entries r /\
  ran (WriteBlock Snappy Zstd b r) (WriteBlock Snappy Zstd b (on_string r)).
Proof.
  unfold WriteBlock. change (r_options (on_string r)) with (r_options r). destruct (block_to_store _ _ _ _) as [c t]. apply WriteRawBlock_ran.
Qed.

Lemma on_filter_string f r : on_filter f (on_string r) = on_string (on_filter f r).
Proof. unfold on_filter. cbn. by destruct (filter_block r) as [[P b]|]. Qed.

Lemma on_filter_frame f r : closed (on_filter f r) = closed r /\ num_entries (on_filter f r) = num_entries r /\ r_status (on_filter f r) = r_status r.
Proof. unfold on_filter. by destruct (filter_block r) as [[P b]|]. Qed.

Lemma Flush_failed r : closed r = false -> tb_ok r = false -> Flush Snappy Zstd r = Some r.
Proof. intros Hc Hs. unfold Flush. by rewrite Hc, Hs. Qed.

(** When the assertions hold [Flush] returns. *)
Lemma Flush_tracks r q' : tb_ok r = true -> Flush Snappy Zstd (on_string r) = Some q' ->
  exists r', Flush Snappy Zstd r = Some r' /\ closed r' = closed r /\ num_entries r' = num_entries r /\ tracks r' q'.
Proof.
  intros Hs. unfold Flush. change (closed (on_string r)) with (closed r). change (tb_ok (on_string r)) with (tb_ok r). change (data_block (on_string r)) with (data_block r).
  change (pending_index_entry (on_string r)) with (pending_index_entry r). rewrite Hs. destruct (closed r) eqn:Ec; [done|]. cbn [negb].
  destruct (BlockBuilder_empty (data_block r)); [intros [= <-]; exists r; by split; [|split; [|split; [|left]]]|].
  destruct (pending_index_entry r); [done|]. destruct (WriteBlock_ran (data_block r) r) as (Hc & Hn & Hr).
  destruct (WriteBlock Snappy Zstd (data_block r) r) as [h r1]. cbn [fst snd] in *. destruct Hr as [[-> Hok]|[Hok Hw]]; cbn [fst snd] in *.
  - change (tb_ok (with_pending _ h (with_data _ _ _ (on_string r1)))) with (tb_ok r1). change (tb_ok (with_pending _ h (with_data _ _ _ r1))) with (tb_ok r1). rewrite Hok.
    cbn [r_file with_pending with_data]. destruct (wf_Flush (r_file r1)) as [s f] eqn:Ef. apply wf_Flush_may in Ef. destruct (ok s) eqn:Es.
    + apply ok_OK in Es as ->. intros [= <-]. eexists. split; [done|]. do 2 (rewrite ?(proj1 (on_filter_frame _ _)), ?(proj1 (proj2 (on_filter_frame _ _))); split; [by cbn; congruence|]).
      left. split.
      * rewrite <- on_filter_string. f_equal. unfold on_string. cbn. by rewrite Ef.
      * unfold tb_ok. by rewrite (proj2 (proj2 (on_filter_frame _ _))).
    + intros _. eexists. split; [done|]. do 2 (rewrite ?(proj1 (on_filter_frame _ _)), ?(proj1 (proj2 (on_filter_frame _ _))); split; [by cbn; congruence|]).
      right. split; [|done]. unfold tb_ok. by rewrite (proj2 (proj2 (on_filter_frame _ _))).
  - intros _. change (tb_ok (with_pending _ h (with_data _ _ _ r1))) with (tb_ok r1). rewrite Hok. eexists. split; [done|].
    do 2 (rewrite ?(proj1 (on_filter_frame _ _)), ?(proj1 (proj2 (on_filter_frame _ _))); split; [by cbn; congruence|]).
    right. split; [|done]. unfold tb_ok. by rewrite (proj2 (proj2 (on_filter_frame _ _))).
Qed.

(** [Add] counts an entry unless an operation failed before. *)
Lemma Add_tracks r q q' k v : closed r = false -> tracks r q -> Add Snappy Zstd q k v = Some q' ->
  exists r', Add Snappy Zstd r k v = Some r' /\ closed r' = false /\ tracks r' q' /\
    num_entries r' = if tb_ok r then num_entries r + 1 else num_entries r.
Proof.
  intros Hc [[-> Hs]|[Hs Hw]].
  2: { intros _. exists r. unfold Add. rewrite Hc, Hs. do 2 (split; [done|]). split; [by right|done]. }
  unfold Add. change (closed (on_string r)) with (closed r). change (tb_ok (on_string r)) with (tb_ok r). change (num_entries (on_string r)) with (num_entries r).
  change (r_options (on_string r)) with (r_options r). change (r_last_key (on_string r)) with (r_last_key r). change (pending_index_entry (on_string r)) with (pending_index_entry r).
  change (data_block (on_string r)) with (data_block r). rewrite Hc, Hs. cbn [negb]. destruct (_ && negb (bool_decide _)); [done|]. destruct (_ && _); [done|].
  set (x := FindShortestSeparator (r_last_key r) k). set (r1 := if pending_index_entry r then add_index_entry x r else r).
  set (q1 := if pending_index_entry r then add_index_entry x (on_string r) else on_string r).
  assert (E1 : q1 = on_string r1 /\ closed r1 = false /\ num_entries r1 = num_entries r /\ tb_ok r1 = true) by (unfold q1, r1; by destruct (pending_index_entry r)).
  destruct E1 as (-> & Hc1 & Hn1 & Hs1). rewrite on_filter_string. destruct (on_filter_frame (fun P b => AddKey b k) r1) as (Hc2 & Hn2 & Hs2). set (r2 := on_filter _ r1) in *.
  change (block_restart_interval (r_options (on_string r2))) with (block_restart_interval (r_options r2)). change (data_block (on_string r2)) with (data_block r2). change (num_entries (on_string r2)) with (num_entries r2).
  set (r3 := with_data (BlockBuilder_Add (block_restart_interval (r_options r2)) (data_block r2) k v) k (num_entries r2 + 1) r2).
  change (with_data _ _ _ (on_string r2)) with (on_string r3). change (r_options (on_string r3)) with (r_options r3). change (data_block (on_string r3)) with (data_block r3).
  assert (Hn3 : num_entries r3 = num_entries r + 1) by (cbn; congruence). assert (Hc3 : closed r3 = false) by (cbn; congruence).
  assert (Hs3 : tb_ok r3 = true) by (unfold tb_ok; cbn; rewrite Hs2; exact Hs1). destruct (_ <=? _).
  - intros E. destruct (Flush_tracks r3 q' Hs3 E) as (r' & E' & Hc' & Hn' & Ht). exists r'. split; [exact E'|]. split; [congruence|]. split; [done|]. congruence.
  - intros [= <-]. exists r3. split; [done|]. split; [done|]. split; [by left|done].
Qed.

Lemma add_entries_tracks kvs r q q' : closed r = false -> tracks r q -> 0 <= num_entries r -> (tb_ok r = false -> 0 < num_entries r) -> add_entries Snappy Zstd q kvs = Some q' ->
  exists r', add_entries Snappy Zstd r kvs = Some r' /\ closed r' = false /\ tracks r' q' /\ 0 <= num_entries r' /\ (tb_ok r' = false -> 0 < num_entries r') /\
    (kvs <> [] -> 0 < num_entries r').
Proof.
  revert r q. induction kvs as [|[k v] kvs IH]; intros r q Hc Ht Hn Hf; cbn [add_entries].
  - intros [= <-]. by exists r.
  - destruct (Add Snappy Zstd q k v) as [q1|] eqn:E; [|done]. cbn [mbind option_bind]. intros E'.
    destruct (Add_tracks r q q1 k v Hc Ht E) as (r1 & -> & Hc1 & Ht1 & Hn1). cbn [mbind option_bind]. assert (Hp : 0 < num_entries r1) by (destruct (tb_ok r); [lia|specialize (Hf eq_refl); lia]).
    destruct (IH r1 q1 Hc1 Ht1 ltac:(lia) ltac:(lia) E') as (r' & E1 & Hc' & Ht' & Hn' & Hf' & Hne). exists r'. do 5 (split; [done|]). intros _.
    destruct kvs as [|kv kvs]; [by injection E1 as <-|by apply Hne].
Qed.

Lemma finish_filter_ran r q : tracks r q -> closed (finish_filter r).2 = closed r /\ ran (finish_filter r) (finish_filter q).
Proof.
  intros [[-> Hs]|[Hs Hw]]; unfold finish_filter.
  - change (filter_block (on_string r)) with (filter_block r). change (tb_ok (on_string r)) with (tb_ok r). rewrite Hs.
    destruct (filter_block r) as [[P b]|]; [|by split; [|left]]. destruct (WriteRawBlock_ran (FilterBlock_Finish P b) kNoCompression r) as (H1 & _ & H2). done.
  - rewrite Hs. destruct (filter_block r) as [[P b]|]; by split; [|right].
Qed.

Lemma finish_metaindex_ran x y r q z : ran (x, r) (y, q) -> finish_metaindex Snappy Zstd y q = Some z ->
  exists z', finish_metaindex Snappy Zstd x r = Some z' /\ closed z'.2 = closed r /\ ran z' z.
Proof.
  intros [[E Hs]|[Hs Hw]]; unfold finish_metaindex; cbn [fst snd] in *.
  - injection E as -> ->. change (tb_ok (on_string r)) with (tb_ok r). change (meta_block x (on_string r)) with (meta_block x r). rewrite Hs.
    destruct (meta_block x r) as [b|]; [|done]. cbn [mbind option_bind]. intros [= <-]. destruct (WriteBlock_ran b r) as (H1 & _ & H2). by eexists.
  - intros _. rewrite Hs. eexists. split; [done|]. split; [done|]. by right.
Qed.

Lemma finish_index_ran r q : tracks r q -> closed (finish_index Snappy Zstd r).2 = closed r /\ ran (finish_index Snappy Zstd r) (finish_index Snappy Zstd q).
Proof.
  intros [[-> Hs]|[Hs Hw]]; unfold finish_index.
  - change (tb_ok (on_string r)) with (tb_ok r). change (pending_index_entry (on_string r)) with (pending_index_entry r). rewrite Hs.
    change (r_options (on_string r)) with (r_options r). change (r_last_key (on_string r)) with (r_last_key r). set (k := FindShortSuccessor (r_last_key r)).
    set (r1 := if pending_index_entry r then add_index_entry k r else r).
    assert (E1 : (if pending_index_entry r then add_index_entry k (on_string r) else on_string r) = on_string r1 /\ closed r1 = closed r) by (unfold r1; by destruct (pending_index_entry r)).
    destruct E1 as [-> Hc]. change (index_block (on_string r1)) with (index_block r1). destruct (WriteBlock_ran (index_block r1) r1) as (H1 & _ & H2).
    destruct (WriteBlock Snappy Zstd (index_block r1) r1) as [h r2]. cbn [fst snd] in *. split; [cbn; congruence|]. destruct H2 as [[-> Hok]|[Hok Hw]]; [|by right]. by left.
  - rewrite Hs. by split; [|right].
Qed.

Lemma finish_footer_tracks mx ix my iy r q : ran (ix, r) (iy, q) -> (tb_ok r = true -> mx = my) -> tracks (finish_footer mx ix r) (finish_footer my iy q).
Proof.
  intros [[E Hs]|[Hs Hw]] Hm; unfold finish_footer; cbn [fst snd] in *.
  - injection E as -> ->. rewrite (Hm Hs) in *. change (tb_ok (on_string r)) with (tb_ok r). rewrite Hs.
    destruct (wf_Append (Footer_EncodeTo (mkFooter my ix) []) (r_file r)) as [s f] eqn:Ef. apply wf_Append_may in Ef. destruct (ok s) eqn:Es; [|by right].
    apply ok_OK in Es as ->. left. split; [|done]. cbn. unfold on_string. cbn. by rewrite Ef.
  - right. by rewrite Hs.
Qed.

Lemma ran_tracks {A} (x y : A * _) : ran x y -> tracks x.2 y.2.
Proof. intros [[-> Hs]|Hf]; [by left|by right]. Qed.

Lemma ran_value {A} (x y : A * _) : ran x y -> tb_ok x.2 = true -> x.1 = y.1.
Proof. intros [[-> Hs]|[Hs _]]; [done|congruence]. Qed.

Lemma finish_metaindex_ok x r z : finish_metaindex Snappy Zstd x r = Some z -> tb_ok r = false -> z.2 = r.
Proof. unfold finish_metaindex. intros E Hs. rewrite Hs in E. by injection E as <-. Qed.

Lemma finish_index_keeps r : tb_ok r = false -> (finish_index Snappy Zstd r).2 = r.
Proof. intros Hs. unfold finish_index. by rewrite Hs. Qed.

Lemma Finish_tracks r q s q' : closed r = false -> tracks r q -> Finish Snappy Zstd q = Some (s, q') ->
  exists s' r', Finish Snappy Zstd r = Some (s', r') /\ if ok s' then q = on_string r /\ s = s' /\ q' = on_string r' else ~ works.
Proof.
  intros Hc Ht. unfold Finish. destruct (Flush Snappy Zstd q) as [q1|] eqn:Eq; [|done]. cbn [mbind option_bind].
  assert (Hfl : exists r1, Flush Snappy Zstd r = Some r1 /\ closed r1 = false /\ tracks r1 q1 /\ (tb_ok r = false -> tb_ok r1 = false)).
  { destruct Ht as [[-> Hs]|[Hs Hw]].
    - destruct (Flush_tracks r q1 Hs Eq) as (r1 & E1 & Hc1 & _ & Ht1). exists r1. split; [done|]. split; [congruence|]. split; [done|]. congruence.
    - exists r. split; [by apply Flush_failed|]. split; [done|]. split; [by right|done]. }
  destruct Hfl as (r1 & -> & Hc1 & Ht1 & Hb1). cbn [mbind option_bind]. rewrite Hc1. destruct (closed q1); [done|].
  assert (Ht1' : tracks (with_closed true r1) (with_closed true q1)) by (destruct Ht1 as [[-> ?]|[? ?]]; [by left|by right]).
  set (r2 := with_closed true r1) in *. set (q2 := with_closed true q1) in *. assert (Hb2 : tb_ok r = false -> tb_ok r2 = false) by done. clearbody r2 q2.
  destruct (finish_filter_ran r2 q2 Ht1') as [_ Hr3]. assert (Hb3 : tb_ok r2 = false -> (finish_filter r2).2 = r2) by (intros Hs; unfold finish_filter; rewrite Hs; by destruct (filter_block r2) as [[]|]).
  destruct (finish_filter r2) as [fx r3], (finish_filter q2) as [fy q3]. cbn [fst snd] in *.
  destruct (finish_metaindex Snappy Zstd fy q3) as [[my q4]|] eqn:Em; [|done]. cbn [mbind option_bind]. destruct (finish_metaindex_ran fx fy r3 q3 (my, q4) Hr3 Em) as ([mx r4] & Em' & _ & Hr4).
  rewrite Em'. cbn [mbind option_bind]. pose proof (ran_value _ _ Hr4) as Hm. cbn [fst snd] in *. destruct (finish_index_ran r4 q4 (ran_tracks _ _ Hr4)) as [_ Hr5].
  pose proof (finish_index_keeps r4) as Hb5. destruct (finish_index Snappy Zstd r4) as [ix r5], (finish_index Snappy Zstd q4) as [iy q5]. cbn [fst snd] in *.
  assert (Hok5 : tb_ok r5 = true -> tb_ok r4 = true) by (intros Hs; destruct (tb_ok r4) eqn:E4; [done|]; rewrite Hb5 in Hs by done; congruence).
  pose proof (finish_footer_tracks mx ix my iy r5 q5 Hr5 ltac:(intros Hs; by apply Hm, Hok5)) as Ht6.
  intros [= <- <-]. eexists _, _. split; [done|]. set (r6 := finish_footer mx ix r5) in *. destruct Ht6 as [[-> Hs6]|[Hs6 Hw]].
  2: { unfold tb_ok in Hs6. by rewrite Hs6. }
  pose proof Hs6 as Es6. unfold tb_ok in Es6. rewrite Es6. split; [|done]. destruct Ht as [[-> _]|[Hs _]]; [done|]. exfalso.
  assert (Hs5 : tb_ok r5 = true) by (destruct (tb_ok r5) eqn:E5; [done|]; unfold r6, finish_footer in Hs6; rewrite E5 in Hs6; congruence).
  pose proof (Hok5 Hs5) as Hs4. assert (Hs3 : tb_ok r3 = true) by (destruct (tb_ok r3) eqn:E3; [done|]; pose proof (finish_metaindex_ok _ _ _ Em' E3) as Ex; cbn in Ex; congruence).
  rewrite (Hb3 (Hb2 Hs)) in Hs3. rewrite (Hb2 Hs) in Hs3. done.
Qed.

(** A builder of sorted entries finishes with a table of them, or reports the
    failure of its file. *)
Lemma build_table_faulty {SL : CompressorLaws Snappy} {ZL : CompressorLaws Zstd} o file kvs :
  ComparatorLaws (comparator o) -> wf_contents file = [] -> kvs_sorted (comparator o) kvs ->
  exists r s r', add_entries Snappy Zstd (TableBuilder_new o file) kvs = Some r /\ closed r = false /\ (NumEntries r = 0 <-> kvs = []) /\ Finish Snappy Zstd r = Some (s, r') /\
    if ok s then exists blocks footer off, all_entries blocks = kvs /\ table_layout Snappy Zstd o (wf_contents (r_file r')) blocks footer off /\
      FileSize r' = zlen (wf_contents (r_file r')) /\ NumEntries r = zlen kvs
    else ~ works.
Proof.
  intros L Ef Hs. destruct (build_table (wf_contents := id) Snappy Zstd o [] kvs L eq_refl Hs) as (q & q' & blocks & footer & off & Ea & Efin & Eb & Hlay & Hz & Hn).
  assert (E0 : TableBuilder_new o [] = on_string (TableBuilder_new o file)) by (unfold on_string; cbn; by rewrite Ef).
  destruct (add_entries_tracks kvs (TableBuilder_new o file) (TableBuilder_new o []) q eq_refl ltac:(by left) ltac:(cbn; lia) ltac:(done) Ea) as (r & Er & Hc & Ht & Hn0 & _ & Hn1).
  destruct (Finish_tracks r q OK q' Hc Ht Efin) as (s & r' & E1 & Hres). exists r, s, r'. split; [done|]. split; [done|]. split.
  { unfold NumEntries. split; [|intros ->; by injection Er as <-]. intros E2. destruct kvs as [|kv kvs]; [done|]. specialize (Hn1 ltac:(done)). lia. }
  split; [done|]. destruct (ok s); [|done]. destruct Hres as (-> & _ & ->). by exists blocks, footer, off.
Qed.
End Faults.
