(* ===== verification/Table.v ===== *)
(** * table/table: reading tables

    Models src/table/table.cc over any random-access file, compression
    libraries, checksum and block cache.  [None] stands for undefined
    behaviour: a read outside a buffer, or a shift by the width.  The callback
    of [InternalGet] is applied by its caller: the entry it gets is returned. *)

From Stdlib Require Import Sorted.
From stdpp Require Import sorting.
From S2P Require Import Prelude Coding Comparator Crc32c Bloom Status Iterator BlockBuilder Block Format FilterBlock.
From S2P Require Import IteratorWrapper TwoLevelIterator Options TableBuilder.

(** ** The block cache *)

(** The operations of a cache that a table uses.  [Lookup] may change the state
    (the order of use), [Insert] may evict. *)
Class BlockCache (K : Type) := {
  bc_NewId : K -> Z * K;
  bc_Lookup : K -> bytes -> option Block * K;
  bc_Insert : K -> bytes -> Block -> Z -> K;
}.

(** A cache answers with what was inserted last under the key, or not at all. *)
Class BlockCacheLaws {K} (BC : BlockCache K) (bc_holds : K -> bytes -> Block -> Prop) : Prop := {
  bc_NewId_holds : forall c k b, bc_holds (bc_NewId c).2 k b -> bc_holds c k b;
  bc_Lookup_holds : forall c k b, (bc_Lookup c k).1 = Some b -> bc_holds c k b;
  bc_Lookup_keeps : forall c k k' b, bc_holds (bc_Lookup c k).2 k' b -> bc_holds c k' b;
  bc_Insert_holds : forall c k b n k' b', bc_holds (bc_Insert c k b n) k' b' ->
    (k' = k /\ b' = b) \/ (k' <> k /\ bc_holds c k' b');
}.

(** An iterator over a block, or over nothing with an error. *)
Abbreviation BlockIterator := (EmptyIterator + BlockIter)%type.

Section Table.
Context `{CS : Checksum} {F : Type} {R : RandomAccessFile F} {K : Type} {BC : BlockCache K}.
Variables (Snappy Zstd : Compressor).

(** [Table::Rep]; [filter_data] is the memory of [filter]. *)
Record Table := mkTable {
  t_options : Options;
  t_file : F;
  t_cache_id : Z;
  t_filter : option (FilterPolicy * FilterBlockReader);
  t_metaindex_handle : BlockHandle;
  t_index_block : Block;
}.

Definition ReadFilter (t : Table) (filter_handle_value : bytes) : option Table :=
  let '(s, filter_handle, _) := BlockHandle_DecodeFrom BlockHandle_new filter_handle_value in
  if negb (ok s) then Some t
  else
    r ← ReadBlock Snappy Zstd (t_file t) (paranoid_checks (t_options t)) filter_handle;
    match r with
    | inl _ => Some t
    | inr block =>
        '(_, P) ← filter_policy (t_options t);
        Some (mkTable (t_options t) (t_file t) (t_cache_id t) (Some (P, FilterBlockReader_new (bc_data block)))
                (t_metaindex_handle t) (t_index_block t))
    end.

Definition ReadMeta (t : Table) (footer : Footer) : option Table :=
  match filter_policy (t_options t) with
  | None => Some t
  | Some (name, _) =>
      r ← ReadBlock Snappy Zstd (t_file t) (paranoid_checks (t_options t)) (metaindex_handle footer);
      match r with
      | inl _ => Some t
      | inr contents =>
          let iter := Block_NewIterator (Block_new (bc_data contents)) BytewiseComparator in
          let key := filter_key name in
          iter ← it_Seek iter key;
          if it_Valid iter then
            k ← it_key iter;
            v ← it_value iter;
            if Slice_eqb k key then ReadFilter t v else Some t
          else Some t
      end
  end.

(** The status with [*table] when it is OK. *)
Definition Table_Open (options : Options) (block_cache : option K) (file : F) (size : Z)
    : option ((Status + Table) * option K) :=
  if size <? Z.of_nat Footer_kEncodedLength
  then Some (inl (Corruption (cstr "file is too short to be an sstable") []), block_cache)
  else
    let '(s, footer_input, _) := raf_Read file (size - Z.of_nat Footer_kEncodedLength) (Z.of_nat Footer_kEncodedLength) in
    if negb (ok s) then Some (inl s, block_cache)
    else
      let '(s, footer, _) := Footer_DecodeFrom (mkFooter BlockHandle_new BlockHandle_new) footer_input in
      if negb (ok s) then Some (inl s, block_cache)
      else
        r ← ReadBlock Snappy Zstd file (paranoid_checks options) (index_handle footer);
        match r with
        | inl s => Some (inl s, block_cache)
        | inr index_block_contents =>
            let '(cache_id, block_cache) :=
              match block_cache with
              | Some c => let '(id, c) := bc_NewId c in (id, Some c)
              | None => (0, None)
              end in
            t ← ReadMeta (mkTable options file cache_id None (metaindex_handle footer)
                            (Block_new (bc_data index_block_contents))) footer;
            Some (inr t, block_cache)
        end.

(** The key of a block in the cache. *)
Definition cache_key (t : Table) (handle : BlockHandle) : bytes :=
  EncodeFixed64 (t_cache_id t) ++ EncodeFixed64 (bh_offset handle).

Definition read_new_block (t : Table) (options : ReadOptions) (handle : BlockHandle) : option (Status + Block * bool) :=
  r ← ReadBlock Snappy Zstd (t_file t) (verify_checksums options) handle;
  Some match r with
       | inl s => inl s
       | inr contents => inr (Block_new (bc_data contents), cachable contents)
       end.

Definition BlockReader (t : Table) (options : ReadOptions) (block_cache : option K) (index_value : bytes)
    : option (BlockIterator * option K) :=
  let '(s, handle, _) := BlockHandle_DecodeFrom BlockHandle_new index_value in
  if negb (ok s) then Some (inl (NewErrorIterator s), block_cache)
  else
    let C := comparator (t_options t) in
    match block_cache with
    | Some cache =>
        let key := cache_key t handle in
        let '(found, cache) := bc_Lookup cache key in
        match found with
        | Some block => Some (Block_NewIterator block C, Some cache)
        | None =>
            r ← read_new_block t options handle;
            match r with
            | inl s => Some (inl (NewErrorIterator s), Some cache)
            | inr (block, cachable) =>
                let cache :=
                  if cachable && fill_cache options then bc_Insert cache key block (size_ block) else cache in
                Some (Block_NewIterator block C, Some cache)
            end
        end
    | None =>
        r ← read_new_block t options handle;
        match r with
        | inl s => Some (inl (NewErrorIterator s), None)
        | inr (block, _) => Some (Block_NewIterator block C, None)
        end
    end.

Definition index_iterator (t : Table) : BlockIterator := Block_NewIterator (t_index_block t) (comparator (t_options t)).

(** [NewIterator]: its operations are those of [TwoLevel_Iterator] with
    [BlockReader t options]. *)
Definition Table_NewIterator (t : Table) (block_cache : option K)
    : option (TwoLevelIterator BlockIterator BlockIterator (option K)) :=
  NewTwoLevelIterator (index_iterator t) block_cache.

(** The status, and the arguments of the call of [handle_result] if it is made. *)
Definition InternalGet (t : Table) (options : ReadOptions) (block_cache : option K) (k : bytes)
    : option (Status * option kv * option K) :=
  iiter ← it_Seek (index_iterator t) k;
  if it_Valid iiter then
    handle_value ← it_value iiter;
    let '(hs, handle, _) := BlockHandle_DecodeFrom BlockHandle_new handle_value in
    skip ← match t_filter t with
           | Some (P, filter) =>
               if ok hs then negb <$> FilterBlock_KeyMayMatch P filter (bh_offset handle) k else Some false
           | None => Some false
           end;
    '(s, result, block_cache) ←
      (if (skip : bool) then Some (OK, None, block_cache)
       else
         '(block_iter, block_cache) ← BlockReader t options block_cache handle_value;
         block_iter ← it_Seek block_iter k;
         if it_Valid block_iter then
           key ← it_key block_iter;
           value ← it_value block_iter;
           Some (it_status block_iter, Some (key, value), block_cache)
         else Some (it_status block_iter, None, block_cache));
    Some (if ok s then it_status iiter else s, result, block_cache)
  else Some (it_status iiter, None, block_cache).

Definition ApproximateOffsetOf (t : Table) (key : bytes) : option Z :=
  index_iter ← it_Seek (index_iterator t) key;
  if it_Valid index_iter then
    v ← it_value index_iter;
    let '(s, handle, _) := BlockHandle_DecodeFrom BlockHandle_new v in
    Some (if ok s then bh_offset handle else bh_offset (t_metaindex_handle t))
  else Some (bh_offset (t_metaindex_handle t)).
End Table.

Arguments Table F : clear implicits.

(** ** The index *)

(** Separators and successors are no longer than the key they stand for. *)
Class ShortComparator (C : Comparator) : Prop := {
  separator_short : forall s l, zlen (FindShortestSeparator (Comparator := C) s l) <= zlen s;
  successor_short : forall k, zlen (FindShortSuccessor (Comparator := C) k) <= zlen k;
}.

#[global] Instance BlockHandle_eq_dec : EqDecision BlockHandle.
Proof. solve_decision. Defined.

Section Index.
Context {C : Comparator} {L : ComparatorLaws C}.

Lemma index_for_length blocks after : length (index_for C blocks after) = length blocks.
Proof. induction blocks as [|[kvs h] blocks IH]; [done|]. cbn. by rewrite IH. Qed.

Definition next_first (blocks : list written) (j : nat) (after : option bytes) : option bytes :=
  match blocks !! (j + 1)%nat with Some (kvs, _) => block_first kvs | None => after end.

Lemma index_for_lookup blocks after j kvs h :
  blocks !! j = Some (kvs, h) ->
  index_for C blocks after !! j =
    Some (index_key C (block_last kvs) (next_first blocks j after), BlockHandle_EncodeTo h []).
Proof.
  revert j. induction blocks as [|[kvs0 h0] blocks IH]; intros [|j]; cbn [lookup list_lookup index_for]; [done..| |].
  - intros [= -> ->]. unfold next_first. destruct blocks as [|[kvs1 h1] blocks]; done.
  - intros E. change (index_for C blocks after !! j = Some (index_key C (block_last kvs) (next_first ((kvs0, h0) :: blocks) (S j) after),
      BlockHandle_EncodeTo h [])). rewrite (IH j E). done.
Qed.

Lemma index_lookup_inv blocks after j k hv :
  index_for C blocks after !! j = Some (k, hv) ->
  exists kvs h, blocks !! j = Some (kvs, h) /\ k = index_key C (block_last kvs) (next_first blocks j after) /\
    hv = BlockHandle_EncodeTo h [].
Proof.
  intros E. destruct (lookup_lt_is_Some_2 blocks j) as [[kvs h] Ej].
  { rewrite <- (index_for_length blocks after). by eapply lookup_lt_Some. }
  exists kvs, h. rewrite (index_for_lookup blocks after j kvs h Ej) in E. by injection E as <- <-.
Qed.

(** Sorted concatenations. *)
Lemma sorted_app_inv a b : kvs_sorted C (a ++ b) ->
  kvs_sorted C a /\ kvs_sorted C b /\ forall x y, x ∈ a -> y ∈ b -> kv_lt C x y.
Proof.
  intros H. split; [by eapply StronglySorted_app_1_l|]. split; [by eapply StronglySorted_app_1_r|].
  intros x y Hx Hy. by eapply StronglySorted_app_1_elem_of.
Qed.

Lemma sorted_block blocks j kvs h :
  kvs_sorted C (all_entries blocks) -> blocks !! j = Some (kvs, h) -> kvs_sorted C kvs.
Proof.
  intros Hs E. rewrite <- (take_drop_middle _ _ _ E) in Hs. unfold all_entries in Hs.
  rewrite map_app, concat_app in Hs. apply sorted_app_inv in Hs as (_ & Hs & _). by apply sorted_app_inv in Hs as (Hs & _).
Qed.

Lemma sorted_blocks blocks j j' kvs h kvs' h' x y :
  kvs_sorted C (all_entries blocks) -> blocks !! j = Some (kvs, h) -> blocks !! j' = Some (kvs', h') -> (j < j')%nat ->
  x ∈ kvs -> y ∈ kvs' -> kv_lt C x y.
Proof.
  intros Hs E E' Hlt Hx Hy. rewrite <- (take_drop_middle _ _ _ E) in Hs. unfold all_entries in Hs.
  rewrite map_app, concat_app in Hs. apply sorted_app_inv in Hs as (_ & Hs & _).
  apply sorted_app_inv in Hs as (_ & _ & Hs). apply Hs; [done|].
  apply list_elem_of_In, in_concat. exists kvs'. split; [|by apply list_elem_of_In].
  apply in_map_iff. exists (kvs', h'). split; [done|]. apply list_elem_of_In, list_elem_of_lookup.
  exists (j' - S j)%nat. rewrite lookup_drop. by replace (S j + (j' - S j))%nat with j' by lia.
Qed.

Lemma block_last_elem kvs : kvs <> [] -> exists e, e ∈ kvs /\ block_last kvs = e.1.
Proof.
  intros H. unfold block_last. destruct (last kvs) as [e|] eqn:E; [|by apply last_None in E].
  exists e. split; [|done]. apply last_Some in E as [pre ->]. apply elem_of_app. right. by apply list_elem_of_singleton.
Qed.

Lemma block_first_elem kvs : kvs <> [] -> exists e, e ∈ kvs /\ block_first kvs = Some e.1 /\
  (kvs_sorted C kvs -> forall x, x ∈ kvs -> Compare (Comparator := C) e.1 x.1 <> Gt).
Proof.
  intros H. destruct kvs as [|e kvs]; [done|]. exists e. split; [by left|]. split; [done|].
  intros [_ Hs]%StronglySorted_inv x [->|Hx]%elem_of_cons; [by rewrite Compare_refl|].
  apply (proj1 (Forall_forall _ _) Hs) in Hx. unfold kv_lt in Hx. by rewrite Hx.
Qed.

Lemma le_block_last kvs x : kvs_sorted C kvs -> x ∈ kvs -> Compare (Comparator := C) x.1 (block_last kvs) <> Gt.
Proof.
  intros Hs Hx. unfold block_last. destruct (last kvs) as [e|] eqn:E.
  - apply last_Some in E as [pre ->]. apply elem_of_app in Hx as [Hx|Hx%list_elem_of_singleton].
    + apply sorted_app_inv in Hs as (_ & _ & Hs).
      assert (kv_lt C x e) as Hlt by (apply Hs; [done|by apply list_elem_of_singleton]). unfold kv_lt in Hlt. by rewrite Hlt.
    + subst x. by rewrite Compare_refl.
  - apply last_None in E as ->. by apply elem_of_nil in Hx.
Qed.

Context {blocks : list written} (Hne : forall kvs h, (kvs, h) ∈ blocks -> kvs <> []).
Context (Hs : kvs_sorted C (all_entries blocks)).

Lemma block_at_ne j kvs h : blocks !! j = Some (kvs, h) -> kvs <> [].
Proof. intros E. eapply Hne. by eapply list_elem_of_lookup_2. Qed.

(** An index key is at or past its block, and before the blocks after it. *)
Lemma index_key_ge j kvs h e :
  blocks !! j = Some (kvs, h) -> e ∈ kvs ->
  Compare (Comparator := C) e.1 (index_key C (block_last kvs) (next_first blocks j None)) <> Gt.
Proof.
  intros E He. eapply Compare_le_trans; [eapply le_block_last; [by eapply sorted_block|exact He]|].
  unfold index_key, next_first. destruct (blocks !! (j + 1)%nat) as [[kvs' h']|] eqn:E'; [|apply successor_ge].
  destruct (block_first_elem kvs' (block_at_ne _ _ _ E')) as (e' & He' & -> & _). apply separator_ge.
  destruct (block_last_elem kvs (block_at_ne _ _ _ E)) as (el & Hel & ->).
  assert (kv_lt C el e') as Hlt by (apply (sorted_blocks blocks j (j + 1) kvs h kvs' h'); done || lia). unfold kv_lt in Hlt. by rewrite Hlt.
Qed.

Lemma index_key_lt j j' kvs h kvs' h' e :
  blocks !! j = Some (kvs, h) -> blocks !! j' = Some (kvs', h') -> (j < j')%nat -> e ∈ kvs' ->
  Compare (Comparator := C) (index_key C (block_last kvs) (next_first blocks j None)) e.1 = Lt.
Proof.
  intros E E' Hlt He. unfold index_key, next_first.
  destruct (lookup_lt_is_Some_2 blocks (j + 1)) as [[kvs1 h1] E1]; [apply lookup_lt_Some in E'; lia|]. rewrite E1.
  destruct (block_first_elem kvs1 (block_at_ne _ _ _ E1)) as (e1 & He1 & -> & Hf).
  destruct (block_last_elem kvs (block_at_ne _ _ _ E)) as (el & Hel & ->).
  assert (H1 : Compare (Comparator := C) (FindShortestSeparator el.1 e1.1) e1.1 = Lt).
  { apply separator_lt. apply (sorted_blocks blocks j (j + 1) kvs h kvs1 h1); done || lia. }
  eapply Compare_lt_le_trans; [exact H1|]. destruct (decide (j' = j + 1)%nat) as [->|].
  - rewrite E1 in E'. injection E' as <- <-. apply Hf; [by eapply sorted_block|done].
  - assert (kv_lt C e1 e) as Hl by (apply (sorted_blocks blocks (j + 1) j' kvs1 h1 kvs' h'); done || lia). unfold kv_lt in Hl. by rewrite Hl.
Qed.

Lemma index_sorted : kvs_sorted C (index_for C blocks None).
Proof.
  apply kvs_sorted_of_lookup. intros i j [k v] [k' v'] (kvs & h & E & -> & ->)%index_lookup_inv (kvs' & h' & E' & -> & ->)%index_lookup_inv Hij.
  destruct (block_last_elem kvs' (block_at_ne _ _ _ E')) as (el & Hel & El). unfold kv_lt. cbn [fst].
  eapply Compare_lt_le_trans; [eapply (index_key_lt i j); [done|done|done|exact Hel]|]. by eapply index_key_ge.
Qed.

Lemma index_size `{!ShortComparator C} bs after :
  (forall kvs h, (kvs, h) ∈ bs -> kvs <> []) ->
  entries_size (index_for C bs after) <= entries_size (all_entries bs) + 20 * zlen bs.
Proof.
  revert after. induction bs as [|[kvs h] bs IH]; intros after Hb; [done|].
  cbn [index_for entries_size fold_right fst snd]. fold (entries_size (index_for C bs after)).
  unfold all_entries. cbn [map concat]. rewrite entries_size_app, zlen_cons. fold (all_entries bs).
  specialize (IH after ltac:(intros kvs' h' Hin; apply (Hb kvs' h'); by right)).
  assert (Hh : zlen (BlockHandle_EncodeTo h []) <= 20).
  { pose proof (BlockHandle_length h). unfold kMaxEncodedLength in *. unfold zlen. lia. }
  assert (Hk : forall next, zlen (index_key C (block_last kvs) next) <= zlen (block_last kvs)).
  { intros [n|]; [apply separator_short|apply successor_short]. }
  assert (Hl : zlen (block_last kvs) + 19 + 8 <= entries_size kvs).
  { destruct (block_last_elem kvs (Hb kvs h ltac:(by left))) as (e & He & ->). clear -He.
    induction kvs as [|x kvs IH]; [by apply elem_of_nil in He|].
    cbn [entries_size fold_right]. fold (entries_size kvs). pose proof (zlen_nonneg x.1). pose proof (zlen_nonneg x.2).
    apply elem_of_cons in He as [->|He]; [pose proof (entries_size_ge kvs); lia|specialize (IH He); lia]. }
  match goal with |- context [index_key C _ ?n] => specialize (Hk n) end. cbn [fst]. lia.
Qed.
End Index.

(** ** Blocks as cursors *)

(** An opened block stands at entry [i] of its entries. *)
Definition block_cursor (C : Comparator) (kvs : list kv) (it : BlockIterator) (i : nat) : Prop :=
  exists lay : list cell * list nat, (map cell_kv lay.1 = kvs /\ block_layout lay.1 lay.2) /\
    sum_pos none (block_at (C := C) (cs := lay.1) (ridx := lay.2)) it i.

Lemma block_cursor_laws {C : Comparator} {L : ComparatorLaws C} kvs :
  kvs_sorted C kvs -> IteratorLaws (Sum_Iterator (A := EmptyIterator) (B := BlockIter)) C kvs (block_cursor C kvs).
Proof.
  intros Hs. apply laws_exists. intros [cs ridx] [<- Hlay]. cbn in *.
  apply sum_laws; [by intros (? & ? & [])|]. intros _. by apply BlockIter_laws.
Qed.

Lemma open_block {C : Comparator} {L : ComparatorLaws C} interval kvs :
  1 <= interval -> entries_size kvs < 2 ^ 32 ->
  exists i, block_cursor C kvs (Block_NewIterator (Block_new (BlockBuilder_Finish (add_all interval kvs)).1) C) i.
Proof.
  intros Hi Hsize. destruct (built_block interval kvs Hi Hsize) as (cs & ridx & E & Hlay & ->).
  rewrite (Block_NewIterator_spec (C := C) Hlay). exists (length cs), (cs, ridx). split; [done|].
  apply BlockIter_new_at.
Qed.

(** ** An opened table *)

Section Opened.
Context `{CS : Checksum} {F : Type} {R : RandomAccessFile F} {raf_contents : F -> bytes} {RL : RandomAccessFileLaws R raf_contents}.
Context {K : Type} {BC : BlockCache K} {bc_holds : K -> bytes -> Block -> Prop} {BL : BlockCacheLaws BC bc_holds}.
Context (Snappy Zstd : Compressor) {SL : CompressorLaws Snappy} {ZL : CompressorLaws Zstd}.
Context {o : Options} {L : ComparatorLaws (comparator o)} {SC : ShortComparator (comparator o)}.
Context {file : F} {blocks : list written} {footer : Footer} {off : Z}.
Notation C := (comparator o).
Notation entries := (all_entries blocks).
Notation index := (index_for C blocks None).
Notation block_raw := (block_raw o).
Context (Hlay : table_layout Snappy Zstd o (raf_contents file) blocks footer off).
Context (Hinterval : 1 <= block_restart_interval o) (Hsorted : kvs_sorted C entries).
Context (Hsize : entries_size entries + 20 * zlen entries < 2 ^ 32) (Hfile : zlen (raf_contents file) < 2 ^ 32).
(** A policy that keeps its contract, with a name that is not absurdly long. *)
Context (Hpolicy : forall name P, filter_policy o = Some (name, P) -> FilterPolicyLaws P /\ zlen name < 2 ^ 31).

Lemma blocks_le_entries : zlen blocks <= zlen entries.
Proof.
  pose proof (tl_nonempty _ _ _ _ _ _ _ Hlay) as Hne. clear -Hne. unfold all_entries. induction blocks as [|[kvs h] bs IH]; [done|].
  cbn [map concat fst]. rewrite zlen_app, zlen_cons. pose proof (Hne kvs h ltac:(by left)) as Hk.
  specialize (IH ltac:(intros kvs' h' Hin; apply (Hne kvs' h'); by right)).
  destruct kvs as [|e kvs]; [done|]. rewrite zlen_cons. pose proof (zlen_nonneg kvs). lia.
Qed.

Lemma index_small : entries_size index < 2 ^ 32.
Proof.
  pose proof (index_size (C := C) blocks None (tl_nonempty _ _ _ _ _ _ _ Hlay)). pose proof blocks_le_entries. lia.
Qed.

Lemma block_small kvs h : (kvs, h) ∈ blocks -> entries_size kvs < 2 ^ 32.
Proof.
  intros [j Ej]%list_elem_of_lookup. pose proof (zlen_nonneg entries).
  assert (entries_size kvs <= entries_size entries); [|lia].
  rewrite <- (take_drop_middle _ _ _ Ej). unfold all_entries. rewrite map_app, concat_app. cbn [map concat fst].
  rewrite !entries_size_app. pose proof (entries_size_ge (concat (map fst (take j blocks)))).
  pose proof (entries_size_ge (concat (map fst (drop (S j) blocks)))). lia.
Qed.

Lemma block_handle_ok kvs h : (kvs, h) ∈ blocks -> handle_ok h.
Proof. intros H. eapply (stored_handle_ok Snappy Zstd); [by eapply (tl_stored _ _ _ _ _ _ _ Hlay)|lia]. Qed.

(** The entries of the block an encoded handle stands for. *)
Definition handle_entries (hv : bytes) : list kv :=
  match BlockHandle_DecodeFrom BlockHandle_new hv with
  | (OK, h, _) => match List.find (fun b : written => bool_decide (b.2 = h)) blocks with Some (kvs, _) => kvs | None => [] end
  | _ => []
  end.

Lemma decode_handle kvs h : (kvs, h) ∈ blocks -> BlockHandle_DecodeFrom BlockHandle_new (BlockHandle_EncodeTo h []) = (OK, h, []).
Proof.
  intros H%block_handle_ok. rewrite <- (app_nil_r (BlockHandle_EncodeTo h [])). by apply BlockHandle_roundtrip.
Qed.

Lemma handle_unique kvs h kvs' h' :
  (kvs, h) ∈ blocks -> (kvs', h') ∈ blocks -> bh_offset h = bh_offset h' -> kvs = kvs' /\ h = h'.
Proof.
  intros [i Hi]%list_elem_of_lookup [j Hj]%list_elem_of_lookup E.
  assert (i = j) as ->; [|by simplify_eq].
  apply (NoDup_lookup _ i j (bh_offset h) (tl_nodup _ _ _ _ _ _ _ Hlay)).
  - by rewrite list_lookup_fmap, Hi.
  - rewrite list_lookup_fmap, Hj. cbn. by rewrite E.
Qed.

Lemma handle_entries_block kvs h : (kvs, h) ∈ blocks -> handle_entries (BlockHandle_EncodeTo h []) = kvs.
Proof.
  intros Hin. unfold handle_entries. rewrite (decode_handle _ _ Hin).
  destruct (List.find _ blocks) as [[kvs' h']|] eqn:Ef.
  - apply find_some in Ef as [Hin'%list_elem_of_In E%bool_decide_eq_true]. cbn in E. subst h'.
    by apply (handle_unique kvs' h kvs h).
  - apply list_elem_of_In in Hin. apply (find_none _ _ Ef) in Hin. by rewrite bool_decide_true in Hin.
Qed.

Lemma index_elem k hv : (k, hv) ∈ index -> exists kvs h, (kvs, h) ∈ blocks /\ hv = BlockHandle_EncodeTo h [].
Proof.
  intros [j Ej]%list_elem_of_lookup. apply index_lookup_inv in Ej as (kvs & h & E & _ & ->).
  exists kvs, h. split; [by eapply list_elem_of_lookup_2|done].
Qed.

Lemma index_entries : block_entries handle_entries index = entries.
Proof.
  unfold block_entries, all_entries. f_equal. apply list_eq. intros j. rewrite !list_lookup_fmap.
  destruct (blocks !! j) as [[kvs h]|] eqn:E.
  - rewrite (index_for_lookup (C := C) blocks None j kvs h E). cbn. f_equal. apply handle_entries_block. by eapply list_elem_of_lookup_2.
  - assert (index !! j = None) as ->; [|done]. apply lookup_ge_None. rewrite index_for_length. by apply lookup_ge_None.
Qed.

(** The table, however it was opened. *)
Definition opened (cache_id : Z) (t : Table F) : Prop :=
  t_options t = o /\ t_file t = file /\ t_cache_id t = cache_id /\ t_metaindex_handle t = metaindex_handle footer /\
  t_index_block t = Block_new (BlockBuilder_Finish (add_all 1 index)).1 /\
  t_filter t = match filter_policy o with
               | Some (_, P) => Some (P, FilterBlockReader_new (filter_bytes P blocks off))
               | None => None
               end.

(** Opening the blocks. *)
Definition cache_coherent (cache_id : Z) (cache : option K) : Prop :=
  match cache with
  | None => True
  | Some c => forall kvs h b, (kvs, h) ∈ blocks ->
      bc_holds c (EncodeFixed64 cache_id ++ EncodeFixed64 (bh_offset h)) b -> b = Block_new (block_raw kvs)
  end.

Lemma cache_key_inj id kvs h kvs' h' :
  (kvs, h) ∈ blocks -> (kvs', h') ∈ blocks ->
  EncodeFixed64 id ++ EncodeFixed64 (bh_offset h) = EncodeFixed64 id ++ EncodeFixed64 (bh_offset h') -> kvs = kvs' /\ h = h'.
Proof.
  intros Hin Hin' E%app_inv_head. apply (handle_unique _ _ _ _ Hin Hin').
  pose proof (block_handle_ok _ _ Hin) as [Ho _]. pose proof (block_handle_ok _ _ Hin') as [Ho' _].
  rewrite <- (u64_small (bh_offset h)), <- (u64_small (bh_offset h')) by done.
  rewrite <- (DecodeFixed64_encode (bh_offset h) []), <- (DecodeFixed64_encode (bh_offset h') []). by rewrite E.
Qed.

Lemma read_new_block_spec t id opts kvs h :
  opened id t -> (kvs, h) ∈ blocks ->
  exists cach, read_new_block Snappy Zstd t opts h = Some (inr (Block_new (block_raw kvs), cach)).
Proof.
  intros (_ & Ef & _) Hin. unfold read_new_block. rewrite Ef.
  destruct (stored_read Snappy Zstd file (verify_checksums opts) (block_raw kvs) h) as (cach & heap & ->).
  - by apply (tl_stored _ _ _ _ _ _ _ Hlay).
  - lia.
  - by exists cach.
Qed.

Lemma BlockReader_spec t id opts cache kvs h :
  opened id t -> (kvs, h) ∈ blocks -> cache_coherent id cache ->
  exists cache', BlockReader Snappy Zstd t opts cache (BlockHandle_EncodeTo h []) =
      Some (Block_NewIterator (Block_new (block_raw kvs)) C, cache') /\ cache_coherent id cache'.
Proof.
  intros Hop Hin Hco. pose proof Hop as (Eo & _ & Eid & _). unfold BlockReader. rewrite (decode_handle _ _ Hin). cbn [ok negb].
  rewrite Eo. destruct (read_new_block_spec t id opts kvs h Hop Hin) as (cach & Er).
  destruct cache as [c|].
  2: { rewrite Er. cbn. by exists None. }
  unfold cache_key. rewrite Eid. set (key := EncodeFixed64 id ++ EncodeFixed64 (bh_offset h)).
  pose proof (bc_Lookup_holds c key) as Hf. pose proof (bc_Lookup_keeps c key) as Hk.
  destruct (bc_Lookup c key) as [found c'] eqn:El. cbn [fst snd] in *.
  assert (Hco' : cache_coherent id (Some c')).
  { intros kvs' h' b' Hin' Hh. apply (Hco kvs' h' b' Hin'). by apply Hk. }
  destruct found as [b|].
  - exists (Some c'). split; [|done]. rewrite (Hco kvs h b Hin (Hf b eq_refl)). done.
  - rewrite Er. cbn [mbind option_bind]. destruct (cach && fill_cache opts); [|by exists (Some c')].
    eexists. split; [done|]. intros kvs' h' b' Hin' Hh.
    apply bc_Insert_holds in Hh as [[Ek ->]|[_ Hh]]; [|by apply (Hco' kvs' h' b' Hin')].
    by destruct (cache_key_inj id kvs' h' kvs h Hin' Hin Ek) as [-> _].
Qed.

(** *** The table's iterator *)

Lemma index_cursor t id :
  opened id t -> exists i, block_cursor C index (index_iterator t) i.
Proof.
  intros (Eo & _ & _ & _ & Ei & _). unfold index_iterator. rewrite Eo, Ei. apply open_block; [lia|apply index_small].
Qed.

Lemma index_laws : IteratorLaws (Sum_Iterator (A := EmptyIterator) (B := BlockIter)) C index (block_cursor C index).
Proof. apply block_cursor_laws, index_sorted; [apply (tl_nonempty _ _ _ _ _ _ _ Hlay)|done]. Qed.

Lemma data_cursor_laws kvs h : (kvs, h) ∈ blocks ->
  IteratorLaws (Sum_Iterator (A := EmptyIterator) (B := BlockIter)) C kvs (block_cursor C kvs).
Proof. intros [j E]%list_elem_of_lookup. apply block_cursor_laws. by eapply sorted_block. Qed.

Lemma open_data t id opts k hv cache :
  opened id t -> (k, hv) ∈ index -> cache_coherent id cache ->
  exists it cache' i, BlockReader Snappy Zstd t opts cache hv = Some (it, cache') /\
    block_cursor C (handle_entries hv) it i /\ cache_coherent id cache'.
Proof.
  intros Hop (kvs & h & Hin & ->)%index_elem Hco.
  destruct (BlockReader_spec t id opts cache kvs h Hop Hin Hco) as (cache' & -> & Hco').
  rewrite (handle_entries_block _ _ Hin). destruct (open_block (C := C) (block_restart_interval o) kvs Hinterval) as (i & Hi);
    [by eapply block_small|]. by exists (Block_NewIterator (Block_new (block_raw kvs)) C), cache', i.
Qed.

Lemma index_separates :
  (forall j k hv e, index !! j = Some (k, hv) -> e ∈ handle_entries hv -> Compare (Comparator := C) e.1 k <> Gt) /\
  (forall j j' k hv k' hv' e, index !! j = Some (k, hv) -> index !! j' = Some (k', hv') -> (j < j')%nat ->
     e ∈ handle_entries hv' -> Compare (Comparator := C) k e.1 = Lt).
Proof.
  pose proof (tl_nonempty _ _ _ _ _ _ _ Hlay) as Hne. split.
  - intros j k hv e (kvs & h & E & -> & ->)%index_lookup_inv He.
    rewrite (handle_entries_block kvs h) in He by (by eapply list_elem_of_lookup_2). by eapply index_key_ge.
  - intros j j' k hv k' hv' e (kvs & h & E & -> & ->)%index_lookup_inv (kvs' & h' & E' & _ & ->)%index_lookup_inv Hlt He.
    rewrite (handle_entries_block kvs' h') in He by (by eapply list_elem_of_lookup_2). by eapply index_key_lt.
Qed.

Lemma table_iterator t id opts cache fuel :
  opened id t -> cache_coherent id cache -> (length blocks <= fuel)%nat ->
  exists it pos, Table_NewIterator t cache = Some it /\
    IteratorLaws (TwoLevel_Iterator (BlockReader Snappy Zstd t opts) fuel) C entries pos /\ pos it (length entries).
Proof.
  intros Hop Hco Hfuel. destruct (index_cursor t id Hop) as (i & Hi). pose proof index_laws as HI.
  assert (HD : forall k hv, (k, hv) ∈ index -> IteratorLaws (Sum_Iterator (A := EmptyIterator) (B := BlockIter)) C
    (handle_entries hv) (block_cursor C (handle_entries hv))).
  { intros k hv (kvs & h & Hin & ->)%index_elem. rewrite (handle_entries_block _ _ Hin). by eapply data_cursor_laws. }
  pose proof index_separates as [Hle Hgt].
  destruct (NewTwoLevelIterator_pos (II := Sum_Iterator) (HI := index_laws) (ikvs := index) (B := handle_entries) (PI := block_cursor C index)
    (PD := fun hv => block_cursor C (handle_entries hv)) (EI := cache_coherent id) (index_iterator t) cache i Hi Hco) as (it & E & Hit).
  pose proof index_entries as Ee.
  exists it, (two_level_pos (ikvs := index) (B := handle_entries) (PI := block_cursor C index)
    (PD := fun hv => block_cursor C (handle_entries hv)) (EI := cache_coherent id)).
  split; [exact E|]. rewrite Ee in Hit. split; [|exact Hit]. rewrite <- Ee.
  apply TwoLevel_laws; [exact HD| |exact Hle|exact Hgt|by rewrite index_for_length].
  intros k hv c Hin Hc. by eapply open_data.
Qed.

(** *** Lookups *)

(** The filter of a block, as the policy knows it. *)
Lemma filter_answer name P kvs h :
  filter_policy o = Some (name, P) -> (kvs, h) ∈ blocks ->
  exists f, (forall k, FilterBlock_KeyMayMatch P (FilterBlockReader_new (filter_bytes P blocks off)) (bh_offset h) k =
      Some (KeyMayMatch (FilterPolicy := P) k f)) /\
    forall e, e ∈ kvs -> KeyMayMatch (FilterPolicy := P) e.1 f = true.
Proof.
  intros Ep Hin. destruct (Hpolicy name P Ep) as [PL _].
  destruct (block_last_elem kvs (tl_nonempty _ _ _ _ _ _ _ Hlay _ _ Hin)) as (e & He & _).
  destruct (finished_filter_lookup (filter_groups blocks off []) (bh_offset h) (map fst kvs) e.1) as (f & Hf & Hall).
  - apply (tl_offsets _ _ _ _ _ _ _ Hlay).
  - assert (H : forall l, keys_count (map (fun '(kvs, h) => (bh_offset h, map fst kvs)) l ++ [(off, [])]) = zlen (all_entries l)).
    { intros l. unfold all_entries. induction l as [|[kvs' h'] l IH]; [done|]. cbn [map app keys_count fold_right snd concat fst].
      fold (keys_count (map (fun '(kvs, h) => (bh_offset h, map fst kvs)) l ++ [(off, [])])).
      rewrite IH, zlen_app. unfold zlen. by rewrite length_map. }
    unfold filter_groups. cbn [map]. rewrite H. pose proof (entries_size_ge entries). lia.
  - pose proof (tl_meta _ _ _ _ _ _ _ Hlay) as Hm. rewrite Ep in Hm. destruct Hm as (fh & _ & Hz & _).
    unfold filter_bytes in Hz. lia.
  - apply elem_of_app. left. apply list_elem_of_fmap. by exists (kvs, h).
  - by apply list_elem_of_fmap_2.
  - exists f. split; [exact Hf|]. intros e' He'. apply Hall. by apply list_elem_of_fmap_2.
Qed.

(** Why a lookup may miss the first entry at or past the key: the key lies in
    the gap after the last entry of its block, or the filter does not know it. *)
Definition may_miss (k : bytes) (e : kv) : Prop :=
  (exists e', e' ∈ entries /\ Compare (Comparator := C) e'.1 k = Lt /\
     Compare (Comparator := C) k (FindShortestSeparator (Comparator := C) e'.1 e.1) <> Gt) \/
  (exists name P f, filter_policy o = Some (name, P) /\
     KeyMayMatch (FilterPolicy := P) k f <> KeyMayMatch (FilterPolicy := P) e.1 f).

Lemma in_entries kvs h e : (kvs, h) ∈ blocks -> e ∈ kvs -> e ∈ entries.
Proof.
  intros Hin He. apply list_elem_of_In, in_concat. exists kvs. split; [|by apply list_elem_of_In].
  apply in_map_iff. exists (kvs, h). split; [done|]. by apply list_elem_of_In.
Qed.

Lemma entries_base_next j kvs h e :
  blocks !! j = Some (kvs, h) ->
  entries !! (base (ikvs := index) (B := handle_entries) j + length kvs)%nat = Some e ->
  exists kvs' h', blocks !! (j + 1)%nat = Some (kvs', h') /\ head kvs' = Some e.
Proof.
  intros E He. assert (Ei : index !! j = Some (index_key C (block_last kvs) (next_first blocks j None), BlockHandle_EncodeTo h [])).
  { by apply index_for_lookup. }
  assert (Hin : (kvs, h) ∈ blocks) by (by eapply list_elem_of_lookup_2).
  pose proof (handle_entries_block kvs h Hin) as Hk. pose proof (base_S (B := handle_entries) _ _ _ Ei) as Hb.
  rewrite Hk in Hb. rewrite <- Hb in He. destruct (lookup_lt_is_Some_2 blocks (j + 1)) as [[kvs' h'] E'].
  { apply Nat.nle_gt. intros Hge. apply lookup_lt_Some in He. rewrite <- index_entries in He.
    pose proof (lookup_lt_Some _ _ _ E).
    assert ((j + 1)%nat = length index) as Ej by (rewrite index_for_length; lia).
    rewrite Ej, base_end in He. lia. }
  exists kvs', h'. split; [done|]. pose proof (list_elem_of_lookup_2 _ _ _ E') as Hin'.
  pose proof (tl_nonempty _ _ _ _ _ _ _ Hlay _ _ Hin') as Hne.
  pose proof (entries_lookup (B := handle_entries) (j + 1)%nat _ _ 0%nat (index_for_lookup (C := C) blocks None _ _ _ E')) as Hl.
  rewrite (handle_entries_block _ _ Hin'), Nat.add_0_r, index_entries, He in Hl.
  destruct kvs' as [|e' kvs']; [done|]. by rewrite Hl by (cbn; lia).
Qed.

(** What is found in block [j], when the index leads there. *)
Lemma block_lookup k j kvs h :
  lower_bound C k index = j -> blocks !! j = Some (kvs, h) ->
  (forall e, kvs !! lower_bound C k kvs = Some e -> entries !! lower_bound C k entries = Some e) /\
  (lower_bound C k kvs = length kvs -> forall e, entries !! lower_bound C k entries = Some e -> may_miss k e).
Proof.
  intros Hj E. pose proof (list_elem_of_lookup_2 _ _ _ E) as Hin. pose proof index_separates as [Hle Hgt].
  pose proof (seek_position (B := handle_entries) Hle Hgt k) as Hpos.
  pose proof (index_for_lookup (C := C) blocks None _ _ _ E) as Ei. rewrite Hj, Ei, (handle_entries_block _ _ Hin), index_entries in Hpos.
  split.
  - intros e He. pose proof (entries_lookup (B := handle_entries) j _ _ (lower_bound C k kvs) Ei) as Hl.
    rewrite (handle_entries_block _ _ Hin), index_entries in Hl. rewrite Hpos, Hl; [done|]. by eapply lookup_lt_Some.
  - intros Hend e He. rewrite Hpos, Hend in He. destruct (entries_base_next j kvs h e E He) as (kvs' & h' & E' & Hh).
    left. destruct (block_last_elem kvs (tl_nonempty _ _ _ _ _ _ _ Hlay _ _ Hin)) as (el & Hel & El).
    exists el. split; [by eapply in_entries|]. split.
    + apply list_elem_of_lookup in Hel as [p Hp]. destruct el as [kl vl]. eapply lower_bound_before; [|exact Hp].
      rewrite Hend. by eapply lookup_lt_Some.
    + assert (Ek : index_key C (block_last kvs) (next_first blocks j None) = FindShortestSeparator (Comparator := C) el.1 e.1).
      { unfold next_first. rewrite E'. unfold block_first. rewrite Hh, El. done. }
      rewrite Ek in Ei. rewrite <- Hj in Ei. apply lower_bound_here in Ei.
      rewrite (Compare_antisym (FindShortestSeparator (Comparator := C) el.1 e.1)).
      by destruct (Compare (FindShortestSeparator (Comparator := C) el.1 e.1) k).
Qed.

Lemma InternalGet_spec t id opts cache k :
  opened id t -> cache_coherent id cache ->
  exists res cache', InternalGet Snappy Zstd t opts cache k = Some (OK, res, cache') /\ cache_coherent id cache' /\
    match res with
    | Some e => entries !! lower_bound C k entries = Some e
    | None => forall e, entries !! lower_bound C k entries = Some e -> may_miss k e
    end.
Proof.
  intros Hop Hco. destruct (index_cursor t id Hop) as (i & Hi). pose proof index_laws as HI.
  pose proof filter_answer as Hfa. unfold InternalGet.
  destruct (pos_seek (C := C) _ _ k Hi I) as (it & -> & Hit). cbn [mbind option_bind].
  set (j := lower_bound C k index) in *. rewrite (pos_valid (C := C) _ _ Hit).
  pose proof (lower_bound_le (C := C) k index) as Hjl. destruct (Nat.ltb_spec j (length index)) as [Hj|Hj].
  2: { rewrite (pos_status (C := C) _ _ Hit). exists None, cache. split; [done|]. split; [done|].
       intros e He. exfalso. pose proof index_separates as [Hle Hgt].
       pose proof (seek_position (B := handle_entries) Hle Hgt k) as Hpos. fold j in Hpos.
       rewrite (lookup_ge_None_2 index j Hj), Nat.add_0_r in Hpos. replace j with (length index) in Hpos by lia.
       rewrite base_end, index_entries in Hpos. apply lookup_lt_Some in He. lia. }
  rewrite (index_for_length (C := C)) in Hj. destruct (lookup_lt_is_Some_2 blocks j Hj) as [[kvs h] E].
  pose proof (list_elem_of_lookup_2 _ _ _ E) as Hin.
  rewrite (pos_value (C := C) _ _ _ _ Hit (index_for_lookup (C := C) blocks None _ _ _ E)). cbn [mbind option_bind].
  rewrite (decode_handle _ _ Hin). cbn [ok]. destruct (block_lookup k j kvs h eq_refl E) as [Hfound Hgap].
  (* the filter *)
  assert (exists skip, match t_filter t with
     | Some (P, filter) => negb <$> FilterBlock_KeyMayMatch P filter (bh_offset h) k
     | None => Some false end = Some skip /\
     (skip = true -> forall e, e ∈ kvs -> may_miss k e)) as (skip & Eskip & Hskip).
  { destruct Hop as (_ & _ & _ & _ & _ & ->). destruct (filter_policy o) as [[name P]|] eqn:Ep; [|by exists false].
    destruct (Hfa name P kvs h eq_refl Hin) as (f & Hf & Hall). rewrite Hf.
    eexists. split; [done|]. intros Hb e He. right. exists name, P, f. split; [done|]. rewrite (Hall e He).
    by destruct (KeyMayMatch k f). }
  rewrite Eskip. cbn [mbind option_bind]. destruct skip.
  - cbn [mbind option_bind ok]. rewrite (pos_status (C := C) _ _ Hit). exists None, cache. split; [done|]. split; [done|].
    intros e He. destruct (decide (lower_bound C k kvs = length kvs)) as [Hl|Hl]; [by apply Hgap|].
    pose proof (lower_bound_le (C := C) k kvs). destruct (lookup_lt_is_Some_2 kvs (lower_bound C k kvs)) as [e' He']; [lia|].
    apply (Hskip eq_refl). pose proof (Hfound e' He') as Hf. rewrite He in Hf. injection Hf as ->.
    by eapply list_elem_of_lookup_2.
  - destruct (open_data t id opts _ _ cache Hop (list_elem_of_lookup_2 _ _ _ (index_for_lookup (C := C) blocks None _ _ _ E)) Hco)
      as (bit & cache' & i' & -> & Hbi & Hco'). rewrite (handle_entries_block _ _ Hin) in Hbi. cbn [mbind option_bind].
    pose proof (data_cursor_laws kvs h Hin) as HB. destruct (pos_seek (C := C) _ _ k Hbi I) as (bit' & -> & Hb').
    cbn [mbind option_bind]. rewrite (pos_valid (C := C) _ _ Hb'). destruct (Nat.ltb_spec (lower_bound C k kvs) (length kvs)) as [Hl|Hl].
    + destruct (lookup_lt_is_Some_2 kvs _ Hl) as [[k' v'] E']. rewrite (pos_key (C := C) _ _ _ _ Hb' E'). cbn [mbind option_bind].
      rewrite (pos_value (C := C) _ _ _ _ Hb' E'). cbn [mbind option_bind]. rewrite (pos_status (C := C) _ _ Hb').
      cbn [ok]. rewrite (pos_status (C := C) _ _ Hit). exists (Some (k', v')), cache'. split; [done|]. split; [done|]. by apply Hfound.
    + cbn [mbind option_bind]. rewrite (pos_status (C := C) _ _ Hb'). cbn [ok]. rewrite (pos_status (C := C) _ _ Hit).
      exists None, cache'. split; [done|]. split; [done|]. apply Hgap. pose proof (lower_bound_le (C := C) k kvs). lia.
Qed.

(** *** Opening *)

Lemma index_handle_ok : handle_ok (index_handle footer).
Proof. eapply (stored_handle_ok Snappy Zstd); [apply (tl_index _ _ _ _ _ _ _ Hlay)|lia]. Qed.

Lemma metaindex_handle_ok : handle_ok (metaindex_handle footer).
Proof.
  pose proof (tl_meta _ _ _ _ _ _ _ Hlay) as Hm. destruct (filter_policy o) as [[name P]|];
    [destruct Hm as (fh & _ & _ & Hm)|]; (eapply (stored_handle_ok Snappy Zstd); [exact Hm|lia]).
Qed.

Lemma read_footer : exists in_scratch,
  raf_Read file (zlen (raf_contents file) - Z.of_nat Footer_kEncodedLength) (Z.of_nat Footer_kEncodedLength) =
    (OK, Footer_EncodeTo footer [], in_scratch) /\ Z.of_nat Footer_kEncodedLength <= zlen (raf_contents file).
Proof.
  destruct (tl_footer _ _ _ _ _ _ _ Hlay) as [x Ex]. pose proof (Footer_length footer) as Hl.
  assert (Hz : zlen (raf_contents file) = zlen x + Z.of_nat Footer_kEncodedLength).
  { rewrite Ex, zlen_app. unfold zlen. rewrite Hl. done. }
  pose proof (zlen_nonneg x).
  destruct (raf_Read_ok file (zlen x) (Z.of_nat Footer_kEncodedLength)) as [sc E]; [lia|lia|].
  exists sc. replace (zlen (raf_contents file) - Z.of_nat Footer_kEncodedLength) with (zlen x) by lia.
  rewrite E. split; [|lia]. rewrite Ex. unfold zlen. rewrite !Nat2Z.id, drop_app_exact.
  by rewrite take_ge by lia.
Qed.

(** The one entry of the meta block is found. *)
Lemma seek_single interval key v :
  1 <= interval -> entries_size [(key, v)] < 2 ^ 32 ->
  exists it, it_Seek (Block_NewIterator (Block_new (BlockBuilder_Finish (add_all interval [(key, v)])).1) BytewiseComparator) key
      = Some it /\ it_Valid it = true /\ it_key it = Some key /\ it_value it = Some v.
Proof.
  intros Hi Hs. pose proof (block_cursor_laws (C := BytewiseComparator) [(key, v)]) as HL.
  specialize (HL ltac:(repeat constructor)).
  destruct (open_block (C := BytewiseComparator) interval [(key, v)] Hi Hs) as (i & Hp).
  destruct (pos_seek (C := BytewiseComparator) _ _ key Hp I) as (it & E & Hit).
  assert (El : lower_bound BytewiseComparator key [(key, v)] = 0%nat).
  { cbn [lower_bound]. by rewrite Compare_refl. }
  rewrite El in Hit. exists it. split; [exact E|]. rewrite (pos_valid (C := BytewiseComparator) _ _ Hit).
  rewrite (pos_key (C := BytewiseComparator) _ _ key v Hit), (pos_value (C := BytewiseComparator) _ _ key v Hit) by done. done.
Qed.

Lemma ReadMeta_spec t :
  t_options t = o -> t_file t = file -> t_filter t = None ->
  ReadMeta Snappy Zstd t footer =
    Some (mkTable (t_options t) (t_file t) (t_cache_id t)
      (match filter_policy o with
       | Some (_, P) => Some (P, FilterBlockReader_new (filter_bytes P blocks off))
       | None => None
       end) (t_metaindex_handle t) (t_index_block t)).
Proof.
  intros Eo Ef En. unfold ReadMeta. rewrite Eo, Ef. pose proof (tl_meta _ _ _ _ _ _ _ Hlay) as Hm.
  destruct (filter_policy o) as [[name P]|] eqn:Ep; [|destruct t; cbn in *; congruence].
  destruct Hm as (fh & Hst & _ & Hmeta). unfold TableBuilder.block_raw in Hmeta. pose proof (Hpolicy name P eq_refl) as [_ Hn].
  destruct (stored_read Snappy Zstd file (paranoid_checks o) _ _ Hmeta ltac:(lia)) as (cach & heap & ->).
  cbn [mbind option_bind bc_data].
  assert (Hh : zlen (BlockHandle_EncodeTo fh []) <= 20).
  { pose proof (BlockHandle_length fh). unfold kMaxEncodedLength in *. unfold zlen. lia. }
  destruct (seek_single (block_restart_interval o) (filter_key name) (BlockHandle_EncodeTo fh []) Hinterval) as (it & -> & Ev & Ek & Evv).
  { unfold entries_size, filter_key. cbn [fold_right fst snd]. rewrite zlen_app. change (zlen (cstr "filter.")) with 7. lia. }
  cbn [mbind option_bind]. rewrite Ev, Ek. cbn [mbind option_bind]. rewrite Evv. cbn [mbind option_bind].
  assert (Slice_eqb (filter_key name) (filter_key name) = true) as -> by by apply Slice_eqb_eq.
  unfold ReadFilter. rewrite <- (app_nil_r (BlockHandle_EncodeTo fh [])), BlockHandle_roundtrip.
  2: { eapply (stored_handle_ok Snappy Zstd); [exact Hst|lia]. }
  cbn [ok negb]. rewrite Ef, Eo.
  destruct (stored_read Snappy Zstd file (paranoid_checks o) _ _ Hst ltac:(lia)) as (cach' & heap' & ->).
  cbn [mbind option_bind bc_data]. rewrite Ep. done.
Qed.

Definition new_id (cache : option K) : Z := match cache with Some c => (bc_NewId c).1 | None => 0 end.
Definition after_id (cache : option K) : option K := match cache with Some c => Some (bc_NewId c).2 | None => None end.

Lemma Open_spec cache :
  exists t, Table_Open Snappy Zstd o cache file (zlen (raf_contents file)) = Some (inr t, after_id cache) /\
    opened (new_id cache) t.
Proof.
  unfold Table_Open. destruct read_footer as (sc & Er & Hz). rewrite (proj2 (Z.ltb_ge _ _) Hz), Er. cbn [ok negb].
  rewrite <- (app_nil_r (Footer_EncodeTo footer [])), Footer_roundtrip by (apply metaindex_handle_ok || apply index_handle_ok).
  cbn [ok negb].
  destruct (stored_read Snappy Zstd file (paranoid_checks o) _ _ (tl_index _ _ _ _ _ _ _ Hlay) ltac:(lia)) as (cach & heap & ->).
  cbn [mbind option_bind bc_data]. unfold new_id, after_id.
  destruct cache as [c|]; [destruct (bc_NewId c) as [id c']|]; (rewrite ReadMeta_spec by done);
    cbn [mbind option_bind fst snd]; (eexists; split; [done|]); done.
Qed.

(** A lookup that may not miss its answer finds it. *)
Lemma InternalGet_finds t id opts cache k e :
  opened id t -> cache_coherent id cache ->
  entries !! lower_bound C k entries = Some e -> ~ may_miss k e ->
  exists cache', InternalGet Snappy Zstd t opts cache k = Some (OK, Some e, cache') /\ cache_coherent id cache'.
Proof.
  intros Hop Hco He Hm. destruct (InternalGet_spec t id opts cache k Hop Hco) as ([e'|] & cache' & E & Hco' & Hr).
  - exists cache'. rewrite He in Hr. injection Hr as ->. done.
  - by apply Hr in He.
Qed.

Lemma lower_bound_member k v :
  (k, v) ∈ entries -> entries !! lower_bound C k entries = Some (k, v).
Proof.
  intros [i Hi]%list_elem_of_lookup.
  assert (lower_bound C k entries = i) as ->; [|done].
  apply (lower_bound_unique (C := C)); [done|apply lookup_lt_Some in Hi; lia|].
  intros j k' v' Hj. split.
  - intros Hlt. apply Nat.nle_gt. intros Hge. destruct (decide (i = j)) as [->|].
    + simplify_eq. by rewrite Compare_refl in Hlt.
    + pose proof (kvs_sorted_lookup (C := C) entries i j _ _ _ _ Hsorted Hi Hj ltac:(lia)) as H.
      apply Compare_gt_lt in H. congruence.
  - intros Hlt. by apply (kvs_sorted_lookup (C := C) entries j i _ _ _ _ Hsorted Hj Hi).
Qed.

(** A stored key is never missed. *)
Lemma member_not_missed k v : (k, v) ∈ entries -> ~ may_miss k (k, v).
Proof.
  intros _ [(e' & _ & Hlt & Hsep)|(name & P & f & _ & H)]; [|done].
  apply separator_lt, Compare_gt_lt in Hlt. done.
Qed.

(** The offset of a key is that of the block it would be in. *)
Lemma ApproximateOffsetOf_spec t id k :
  opened id t ->
  ApproximateOffsetOf t k = Some
    match blocks !! lower_bound C k index with
    | Some (_, h) => bh_offset h
    | None => bh_offset (metaindex_handle footer)
    end /\
  (forall j kvs h e, blocks !! j = Some (kvs, h) -> (j < lower_bound C k index)%nat -> e ∈ kvs ->
     Compare (Comparator := C) e.1 k = Lt).
Proof.
  intros Hop. destruct (index_cursor t id Hop) as (i & Hi). pose proof index_laws as HI. split.
  - unfold ApproximateOffsetOf. destruct (pos_seek (C := C) _ _ k Hi I) as (it & -> & Hit). cbn [mbind option_bind].
    destruct Hop as (_ & _ & _ & Em & _). rewrite Em.
    set (j := lower_bound C k index) in *. rewrite (pos_valid (C := C) _ _ Hit), (index_for_length (C := C)).
    destruct (Nat.ltb_spec j (length blocks)) as [Hj|Hj]; [|by rewrite lookup_ge_None_2].
    destruct (lookup_lt_is_Some_2 blocks j Hj) as [[kvs h] E]. rewrite E.
    rewrite (pos_value (C := C) _ _ _ _ Hit (index_for_lookup (C := C) blocks None _ _ _ E)). cbn [mbind option_bind].
    by rewrite (decode_handle kvs h) by by eapply list_elem_of_lookup_2.
  - intros j kvs h e E Hlt He. pose proof index_separates as [Hle _].
    pose proof (index_for_lookup (C := C) blocks None _ _ _ E) as Ei.
    eapply Compare_le_lt_trans; [eapply (Hle j); [exact Ei|]|by eapply lower_bound_before].
    by rewrite (handle_entries_block kvs h) by by eapply list_elem_of_lookup_2.
Qed.
End Opened.

(** ** The byte-wise comparator keeps keys short *)

#[export] Instance BytewiseComparator_short : ShortComparator BytewiseComparator.
Proof.
  split; cbn.
  - intros s l. unfold bytewise_FindShortestSeparator. case (Nat.leb _ _); [done|].
    case (_ && _); [|done]. unfold zlen. rewrite length_take, length_insert. lia.
  - intros k. unfold bytewise_FindShortSuccessor. destruct (find_not_ff k 0); [|done].
    unfold zlen. rewrite length_take, length_insert. lia.
Qed.

(** No cache, for examples: a cache that keeps nothing. *)
Definition EmptyCache : BlockCache unit :=
  {| bc_NewId c := (0, c); bc_Lookup c _ := (None, c); bc_Insert c _ _ _ := c |}.

Lemma EmptyCache_laws : BlockCacheLaws EmptyCache (fun _ _ _ => False).
Proof. split; by try intros ?????? []. Qed.

(** ** Properties *)

(** C15: entries added in order to a table builder over a working file make a
    file that opens again, with any compression, restart interval, block size
    and filter policy: the builder reports no error and the right count and
    size; an iterator over the opened table is a cursor over exactly the
    entries; a lookup of a stored key finds it, with or without a block cache,
    and no lookup gives anything but the first entry at or past its key. *)
Theorem table_roundtrip {W F K : Type} (WF : WritableFile W) (wf_contents : W -> bytes) (WL : WritableFileLaws WF wf_contents)
    (R : RandomAccessFile F) (raf_contents : F -> bytes) (RL : RandomAccessFileLaws R raf_contents)
    (BC : BlockCache K) (bc_holds : K -> bytes -> Block -> Prop) (BL : BlockCacheLaws BC bc_holds)
    (Snappy Zstd : Compressor) (SL : CompressorLaws Snappy) (ZL : CompressorLaws Zstd)
    (o : Options) (L : ComparatorLaws (comparator o)) (SC : ShortComparator (comparator o)) (w : W) (kvs : list kv)
    (Hw : wf_contents w = []) (Hsorted : kvs_sorted (comparator o) kvs) (Hi : 1 <= block_restart_interval o)
    (Hsize : entries_size kvs + 20 * zlen kvs < 2 ^ 32)
    (Hp : forall name P, filter_policy o = Some (name, P) -> FilterPolicyLaws P /\ zlen name < 2 ^ 31) :
  exists r r', add_entries Snappy Zstd (TableBuilder_new o w) kvs = Some r /\ Finish Snappy Zstd r = Some (OK, r') /\
    NumEntries r = zlen kvs /\ FileSize r' = zlen (wf_contents (r_file r')) /\
    forall file cache opts, raf_contents file = wf_contents (r_file r') -> FileSize r' < 2 ^ 32 ->
      (forall c, cache = Some c -> forall k b, ~ bc_holds (bc_NewId c).2 (EncodeFixed64 (bc_NewId c).1 ++ k) b) ->
      exists t cache', Table_Open Snappy Zstd o cache file (FileSize r') = Some (inr t, cache') /\
        (exists it pos, Table_NewIterator t cache' = Some it /\ pos it (length kvs) /\
           IteratorLaws (TwoLevel_Iterator (BlockReader Snappy Zstd t opts) (length kvs)) (comparator o) kvs pos) /\
        (forall k v, (k, v) ∈ kvs -> exists cache'', InternalGet Snappy Zstd t opts cache' k = Some (OK, Some (k, v), cache'')) /\
        (forall k, exists res cache'', InternalGet Snappy Zstd t opts cache' k = Some (OK, res, cache'') /\
           forall e, res = Some e -> kvs !! lower_bound (comparator o) k kvs = Some e).
Proof.
  destruct (build_table Snappy Zstd o w kvs L Hw Hsorted) as (r & r' & blocks & footer & off & E & E' & <- & Hlay & Hz & Hn).
  exists r, r'. do 4 (split; [done|]). intros file cache opts Hf Hlen Hfresh. rewrite Hz in Hlen |- *. rewrite <- Hf in Hlay, Hlen |- *.
  destruct (Open_spec Snappy Zstd Hlay Hi Hlen Hp cache) as (t & Eo & Hop). exists t, (after_id cache). split; [done|].
  assert (Hco : cache_coherent (o := o) (bc_holds := bc_holds) (blocks := blocks) (new_id cache) (after_id cache)).
  { destruct cache as [c|]; [|done]. intros kvs h b _ Hh. by apply (Hfresh c eq_refl) in Hh. }
  split; [|split].
  - pose proof (blocks_le_entries Snappy Zstd Hlay) as Hle.
    destruct (table_iterator (bc_holds := bc_holds) Snappy Zstd Hlay Hi Hsorted Hsize Hlen t _ opts _ (length (all_entries blocks)) Hop Hco)
      as (it & pos & ? & ? & ?); [unfold zlen in Hle; lia|]. by exists it, pos.
  - intros k v Hkv. destruct (InternalGet_finds (bc_holds := bc_holds) Snappy Zstd Hlay Hi Hsorted Hsize Hlen Hp t _ opts _ k (k, v) Hop Hco)
      as (cache'' & -> & _); [by apply lower_bound_member|by apply member_not_missed|by exists cache''].
  - intros k. destruct (InternalGet_spec (bc_holds := bc_holds) Snappy Zstd Hlay Hi Hsorted Hsize Hlen Hp t _ opts _ k Hop Hco)
      as (res & cache'' & -> & _ & Hr). exists res, cache''. split; [done|]. by intros e ->.
Qed.

Lemma table_roundtrip_witness :
  let o := mkOptions BytewiseComparator false false false 4194304 1000 4096 16 2097152 kSnappyCompression false
             (Some (cstr "bloom", BloomFilterPolicy 10)) in
  exists r r', add_entries StoreCompressor StoreCompressor (TableBuilder_new o []) [(cstr "a", cstr "1"); (cstr "b", cstr "2")] = Some r /\
    Finish StoreCompressor StoreCompressor r = Some (OK, r') /\ NumEntries r = 2.
Proof.
  destruct (table_roundtrip StringDest id StringDest_laws StringFile id StringFile_laws EmptyCache (fun _ _ _ => False) EmptyCache_laws
    StoreCompressor StoreCompressor StoreCompressor_laws StoreCompressor_laws
    (mkOptions BytewiseComparator false false false 4194304 1000 4096 16 2097152 kSnappyCompression false
      (Some (cstr "bloom", BloomFilterPolicy 10)))
    BytewiseComparator_laws BytewiseComparator_short [] [(cstr "a", cstr "1"); (cstr "b", cstr "2")])
    as (r & r' & H1 & H2 & H3 & _).
  - reflexivity.
  - repeat constructor.
  - discriminate.
  - reflexivity.
  - intros name P [= <- <-]. split; [apply BloomFilterPolicy_laws; split; [discriminate|reflexivity]|reflexivity].
  - exists r, r'. split; [exact H1|]. split; [exact H2|exact H3].
Defined.

(** A file too short for a footer, or without its magic number, is not opened. *)
Example open_short_file :
  Table_Open (BC := EmptyCache) StoreCompressor StoreCompressor Options_default None (cstr "x") 1
  = Some (inl (Corruption (cstr "file is too short to be an sstable") []), None).
Proof. reflexivity. Qed.

Example open_bad_magic :
  Table_Open (BC := EmptyCache) StoreCompressor StoreCompressor Options_default None (replicate 60 x00) 60
  = Some (inl (Corruption (cstr "not an sstable (bad magic number)") []), None).
Proof. vm_compute. reflexivity. Qed.
