(* ===== verification/Version.v ===== *)
(** * db/version: the files of a version and how they are read

    Models class [Version] and the file helpers of src/db/version_set.h and
    src/db/version_set.cc.  A [FileMetaData*] is a [FilePtr]: the address of
    the object and its members as they were set; the member that changes
    later, [allowed_seeks], is in a store indexed by address, because the
    object is shared between versions.  [refs] and the list of versions only
    manage memory.  A [Slice*] that may be null is an option. *)

From Stdlib Require Import Sorted SpecFloat.
From stdpp Require Import sorting gmap.
From S2P Require Import Prelude Coding Comparator Logging DbFormat Status MemTable Iterator UserView VersionEdit Options.

(** A value as [int64_t]. *)
Definition s64 (z : Z) : Z := let w := u64 z in if w <? 2 ^ 63 then w else w - 2 ^ 64.

Record FilePtr := mkFilePtr { f_addr : Z; f_meta : FileMetaData }.

Definition f_number (f : FilePtr) : Z := number (f_meta f).
Definition f_size (f : FilePtr) : Z := file_size (f_meta f).
Definition f_smallest (f : FilePtr) : bytes := smallest (f_meta f).
Definition f_largest (f : FilePtr) : bytes := largest (f_meta f).
Definition f_smallest_user (f : FilePtr) : bytes := ExtractUserKey (f_smallest f).
Definition f_largest_user (f : FilePtr) : bytes := ExtractUserKey (f_largest f).

(** ** Sizes *)

Definition TargetFileSize (options : Options) : Z := max_file_size options.
Definition MaxGrandParentOverlapBytes (options : Options) : Z := s64 (u64 (10 * TargetFileSize options)).
Definition ExpandedCompactionByteSizeLimit (options : Options) : Z := s64 (u64 (25 * TargetFileSize options)).
Definition MaxFileSizeForLevel (options : Options) (level : nat) : Z := TargetFileSize options.

Definition TotalFileSize (files : list FilePtr) : Z :=
  fold_left (fun sum f => s64 (sum + f_size f)) files 0.

(** The [allowed_seeks] of the file objects, by address. *)
Abbreviation Seeks := (gmap Z Z).

(** ** Files and ranges *)

Section Files.
(** The user's comparator, inside [icmp]. *)
Variable C : Comparator.

(** [while (left < right)]; [None] when the fuel runs out. *)
Fixpoint FindFile_loop (fuel : nat) (files : list FilePtr) (key : bytes) (left right : nat) : option nat :=
  match fuel with
  | O => None
  | S fuel =>
      if (left <? right)%nat then
        let mid := ((left + right) / 2)%nat in
        match files !! mid with
        | None => None
        | Some f =>
            match InternalKey_Compare C (f_largest f) key with
            | Lt => FindFile_loop fuel files key (mid + 1) right
            | _ => FindFile_loop fuel files key left mid
            end
        end
      else Some right
  end.

Definition FindFile (files : list FilePtr) (key : bytes) : option nat :=
  FindFile_loop (S (length files)) files key 0 (length files).

Definition AfterFile (user_key : option bytes) (f : FilePtr) : bool :=
  match user_key with
  | Some k => bool_decide (Compare (Comparator := C) k (f_largest_user f) = Gt)
  | None => false
  end.

Definition BeforeFile (user_key : option bytes) (f : FilePtr) : bool :=
  match user_key with
  | Some k => bool_decide (Compare (Comparator := C) k (f_smallest_user f) = Lt)
  | None => false
  end.

Definition SomeFileOverlapsRange (disjoint_sorted_files : bool) (files : list FilePtr)
    (smallest_user_key largest_user_key : option bytes) : option bool :=
  if negb disjoint_sorted_files
  then Some (existsb (fun f => negb (AfterFile smallest_user_key f || BeforeFile largest_user_key f)) files)
  else
    index ← match smallest_user_key with
            | Some k => FindFile files (InternalKey k kMaxSequenceNumber kValueTypeForSeek)
            | None => Some 0%nat
            end;
    match files !! index with
    | None => Some false
    | Some f => Some (negb (BeforeFile largest_user_key f))
    end.

(** ** Versions *)

(** [double] arithmetic: IEEE binary64, rounding to nearest. *)
Definition double_of_Z (z : Z) : spec_float := binary_normalize 53 1024 z 0 false.
Definition double_div : spec_float -> spec_float -> spec_float := SFdiv 53 1024.
Definition double_mul : spec_float -> spec_float -> spec_float := SFmul 53 1024.

Record Version := mkVersion {
  files_ : list (list FilePtr);
  file_to_compact_ : option FilePtr;
  file_to_compact_level_ : Z;
  compaction_score_ : spec_float;
  compaction_level_ : Z;
}.

Definition Version_new : Version := mkVersion (replicate kNumLevels []) None (-1) (double_of_Z (-1)) (-1).

Definition level_files (v : Version) (level : nat) : list FilePtr := default [] (files_ v !! level).

Definition NumFiles (v : Version) (level : nat) : nat := length (level_files v level).

(** [NewestFirst] *)
Definition NewestFirst (a b : FilePtr) : Prop := f_number b <= f_number a.
#[global] Instance NewestFirst_dec : RelDecision NewestFirst.
Proof. intros a b. unfold NewestFirst. apply _. Defined.

(** The files [ForEachOverlapping] visits in level 0, in its order. *)
Definition level0_overlapping (v : Version) (user_key : bytes) : list FilePtr :=
  merge_sort NewestFirst
    (List.filter (fun f => bool_decide (Compare (Comparator := C) user_key (f_smallest_user f) <> Lt) &&
                           bool_decide (Compare (Comparator := C) user_key (f_largest_user f) <> Gt))
       (level_files v 0)).

Section ForEach.
Context {S : Type} (func : S -> nat -> FilePtr -> option (bool * S)).

(** [None] from a callback is undefined behaviour in it.  The flag says that
    no callback returned false. *)
Fixpoint visit_files (level : nat) (files : list FilePtr) (s : S) : option (bool * S) :=
  match files with
  | [] => Some (true, s)
  | f :: files =>
      '(continue, s) ← func s level f;
      if (continue : bool) then visit_files level files s else Some (false, s)
  end.

(** [for (int level = 1; level < config::kNumLevels; level++)] *)
Fixpoint visit_levels (n level : nat) (v : Version) (user_key internal_key : bytes) (s : S) : option (bool * S) :=
  match n with
  | O => Some (true, s)
  | Datatypes.S n =>
      let files := level_files v level in
      if (length files =? 0)%nat then visit_levels n (level + 1) v user_key internal_key s
      else
        index ← FindFile files internal_key;
        match files !! index with
        | None => visit_levels n (level + 1) v user_key internal_key s
        | Some f =>
            match Compare (Comparator := C) user_key (f_smallest_user f) with
            | Lt => visit_levels n (level + 1) v user_key internal_key s
            | _ =>
                '(continue, s) ← func s level f;
                if (continue : bool) then visit_levels n (level + 1) v user_key internal_key s
                else Some (false, s)
            end
        end
  end.

Definition ForEachOverlapping (v : Version) (user_key internal_key : bytes) (s : S) : option S :=
  '(continue, s) ← visit_files 0 (level0_overlapping v user_key) s;
  if (continue : bool) then
    '(_, s) ← visit_levels (kNumLevels - 1) 1 v user_key internal_key s;
    Some s
  else Some s.
End ForEach.

(** ** [Get] *)

(** The part of [TableCache] that reads use: the status, and the arguments of
    the call of [handle_result] if it is made. *)
Class TableCache (T : Type) :=
  tc_Get : T -> ReadOptions -> Z -> Z -> bytes -> option (Status * option (bytes * bytes) * T).

Inductive SaverState := kNotFound | kFound | kDeleted | kCorrupt.

(** [Saver]; [ucmp] is [C]. *)
Record Saver := mkSaver { sv_state : SaverState; sv_user_key : bytes; sv_value : bytes }.

Definition SaveValue (s : Saver) (ikey v : bytes) : Saver :=
  match ParseInternalKey ikey with
  | None => mkSaver kCorrupt (sv_user_key s) (sv_value s)
  | Some parsed_key =>
      match Compare (Comparator := C) (user_key parsed_key) (sv_user_key s) with
      | Eq =>
          match type parsed_key with
          | kTypeValue => mkSaver kFound (sv_user_key s) v
          | kTypeDeletion => mkSaver kDeleted (sv_user_key s) (sv_value s)
          end
      | _ => s
      end
  end.

(** [GetStats]: [seek_file] with [seek_file_level]. *)
Definition GetStats : Type := option (FilePtr * nat).

(** [Version::Get]'s local [State]; [tables] is the table cache. *)
Record GetState (T : Type) := mkGetState {
  gs_saver : Saver;
  gs_stats : GetStats;
  gs_last_file_read : option (FilePtr * nat);
  gs_s : Status;
  gs_found : bool;
  gs_tables : T;
}.
Arguments mkGetState {T}.
Arguments gs_saver {T}.
Arguments gs_stats {T}.
Arguments gs_last_file_read {T}.
Arguments gs_s {T}.
Arguments gs_found {T}.
Arguments gs_tables {T}.

Section Get.
Context {T : Type} {TC : TableCache T}.

(** [State::Match] *)
Definition Get_Match (options : ReadOptions) (ikey : bytes) (state : GetState T) (level : nat) (f : FilePtr)
    : option (bool * GetState T) :=
  let stats := match gs_stats state, gs_last_file_read state with
               | None, Some last => Some last
               | stats, _ => stats
               end in
  '(s, result, tables) ← tc_Get (gs_tables state) options (f_number f) (f_size f) ikey;
  let saver := match result with
               | Some (k, v) => SaveValue (gs_saver state) k v
               | None => gs_saver state
               end in
  let next s found := mkGetState saver stats (Some (f, level)) s found tables in
  Some
    (if negb (ok s) then (false, next s true)
     else
       match sv_state saver with
       | kNotFound => (true, next s (gs_found state))
       | kFound => (false, next s true)
       | kDeleted => (false, next s (gs_found state))
       | kCorrupt => (false, next (Corruption (cstr "corrupted key for ") (sv_user_key saver)) true)
       end).

(** The status, [*value] and [*stats] after the call. *)
Definition Version_Get (v : Version) (options : ReadOptions) (k : LookupKey) (value : bytes) (tables : T)
    : option (Status * bytes * GetStats * T) :=
  let state := mkGetState (mkSaver kNotFound (lookup_user_key k) value) None None OK false tables in
  state ← ForEachOverlapping (Get_Match options (internal_key k)) v (lookup_user_key k) (internal_key k) state;
  Some (if gs_found state then gs_s state else NotFound [] [], sv_value (gs_saver state), gs_stats state, gs_tables state).
End Get.

(** ** Seek statistics *)

Definition UpdateStats (stats : GetStats) (v : Version) (seeks : Seeks) : option (bool * Version * Seeks) :=
  match stats with
  | None => Some (false, v, seeks)
  | Some (f, level) =>
      n ← seeks !! f_addr f;
      let n := n - 1 in
      let seeks := <[f_addr f := n]> seeks in
      match file_to_compact_ v with
      | None => if n <=? 0 then Some (true, mkVersion (files_ v) (Some f) (Z.of_nat level) (compaction_score_ v) (compaction_level_ v), seeks) else Some (false, v, seeks)
      | Some _ => Some (false, v, seeks)
      end
  end.

(** [RecordReadSample]'s local [State] and its [Match]. *)
Definition Sample_Match (state : GetStats * Z) (level : nat) (f : FilePtr) : option (bool * (GetStats * Z)) :=
  let matches := state.2 + 1 in
  let stats := if matches =? 1 then Some (f, level) else state.1 in
  Some (matches <? 2, (stats, matches)).

Definition RecordReadSample (v : Version) (seeks : Seeks) (internal_key : bytes) : option (bool * Version * Seeks) :=
  match ParseInternalKey internal_key with
  | None => Some (false, v, seeks)
  | Some ikey =>
      '(stats, matches) ← ForEachOverlapping Sample_Match v (user_key ikey) internal_key (None, 0);
      if 2 <=? matches then UpdateStats stats v seeks else Some (false, v, seeks)
  end.

(** ** Overlaps *)

Definition OverlapInLevel (v : Version) (level : nat) (smallest_user_key largest_user_key : option bytes) : option bool :=
  SomeFileOverlapsRange (0 <? level)%nat (level_files v level) smallest_user_key largest_user_key.

(** A file completely before or after the range, and one that reaches past an
    end of it; a null end is never passed. *)
Definition file_is (key : FilePtr -> bytes) (c : comparison) (bound : option bytes) (f : FilePtr) : bool :=
  match bound with
  | Some k => bool_decide (Compare (Comparator := C) (key f) k = c)
  | None => false
  end.

(** One pass over the files: the inputs, or the wider range to restart with. *)
Fixpoint overlapping_pass (level0 : bool) (files : list FilePtr) (user_begin user_end : option bytes) (inputs : list FilePtr)
    : list FilePtr + (option bytes * option bytes) :=
  match files with
  | [] => inl inputs
  | f :: files =>
      let file_start := f_smallest_user f in
      let file_limit := f_largest_user f in
      if file_is f_largest_user Lt user_begin f then overlapping_pass level0 files user_begin user_end inputs
      else if file_is f_smallest_user Gt user_end f then overlapping_pass level0 files user_begin user_end inputs
      else
        let inputs := inputs ++ [f] in
        if level0 && file_is f_smallest_user Lt user_begin f then inr (Some file_start, user_end)
        else if level0 && file_is f_largest_user Gt user_end f then inr (user_begin, Some file_limit)
        else overlapping_pass level0 files user_begin user_end inputs
  end.

Fixpoint overlapping_loop (fuel : nat) (level0 : bool) (files : list FilePtr) (user_begin user_end : option bytes)
    : option (list FilePtr) :=
  match fuel with
  | O => None
  | S fuel =>
      match overlapping_pass level0 files user_begin user_end [] with
      | inl inputs => Some inputs
      | inr (user_begin, user_end) => overlapping_loop fuel level0 files user_begin user_end
      end
  end.

(** [begin] and [end] are encoded internal keys. *)
Definition GetOverlappingInputs (v : Version) (level : nat) (begin_key end_key : option bytes) : option (list FilePtr) :=
  let files := level_files v level in
  overlapping_loop (S (2 * length files)) (level =? 0)%nat files (ExtractUserKey <$> begin_key) (ExtractUserKey <$> end_key).

(** [while (level < config::kMaxMemCompactLevel)] *)
Fixpoint pick_level_loop (n level : nat) (options : Options) (v : Version) (smallest_user_key largest_user_key : bytes)
    : option nat :=
  match n with
  | O => Some level
  | S n =>
      let start := InternalKey smallest_user_key kMaxSequenceNumber kValueTypeForSeek in
      let limit := InternalKey largest_user_key 0 kTypeDeletion in
      overlap ← OverlapInLevel v (level + 1) (Some smallest_user_key) (Some largest_user_key);
      if (overlap : bool) then Some level
      else
        too_many ←
          (if (level + 2 <? kNumLevels)%nat then
             overlaps ← GetOverlappingInputs v (level + 2) (Some start) (Some limit);
             Some (MaxGrandParentOverlapBytes options <? TotalFileSize overlaps)
           else Some false);
        if (too_many : bool) then Some level
        else pick_level_loop n (level + 1) options v smallest_user_key largest_user_key
  end.

Definition PickLevelForMemTableOutput (options : Options) (v : Version) (smallest_user_key largest_user_key : bytes)
    : option nat :=
  overlap ← OverlapInLevel v 0 (Some smallest_user_key) (Some largest_user_key);
  if (overlap : bool) then Some 0%nat
  else pick_level_loop kMaxMemCompactLevel 0 options v smallest_user_key largest_user_key.

(** ** [DebugString] *)

Definition file_DebugString (f : FilePtr) : bytes :=
  cstr " " ++ NumberToString (f_number f) ++ cstr ":" ++ NumberToString (f_size f) ++ cstr "[" ++
  InternalKey_DebugString (f_smallest f) ++ cstr " .. " ++ InternalKey_DebugString (f_largest f) ++ cstr "]" ++ [x0a].

Definition Version_DebugString (v : Version) : bytes :=
  concat (map (fun level => cstr "--- level " ++ NumberToString (Z.of_nat level) ++ cstr " ---" ++ [x0a] ++
                 concat (map file_DebugString (level_files v level))) (seq 0 kNumLevels)).
End Files.

Arguments FindFile : simpl never.
Arguments mkGetState {T}.
Arguments gs_saver {T}.
Arguments gs_stats {T}.
Arguments gs_last_file_read {T}.
Arguments gs_s {T}.
Arguments gs_found {T}.
Arguments gs_tables {T}.

(** ** Iterating over a level *)

(** The entries of [LevelFileNumIterator]: the largest key of a file, with its
    number and size. *)
Definition file_value (f : FilePtr) : bytes := EncodeFixed64 (f_number f) ++ EncodeFixed64 (f_size f).
Definition level_kvs (files : list FilePtr) : list kv := map (fun f => (f_largest f, file_value f)) files.

Section LevelFileNum.
Variable C : Comparator.

(** [flist_] and [index_]. *)
Record LevelFileNumIterator := mkLevelIter { lf_flist : list FilePtr; lf_index : nat }.

Definition LevelFileNumIterator_new (flist : list FilePtr) : LevelFileNumIterator := mkLevelIter flist (length flist).

Definition lf_Valid (it : LevelFileNumIterator) : bool := (lf_index it <? length (lf_flist it))%nat.

#[global] Instance LevelFileNum_Iterator : Iterator LevelFileNumIterator := {|
  it_Valid := lf_Valid;
  it_SeekToFirst it := Some (mkLevelIter (lf_flist it) 0);
  it_SeekToLast it := Some (mkLevelIter (lf_flist it) (match lf_flist it with [] => 0 | l => length l - 1 end)%nat);
  it_Seek it target := index ← FindFile C (lf_flist it) target; Some (mkLevelIter (lf_flist it) index);
  it_Next it := if lf_Valid it then Some (mkLevelIter (lf_flist it) (lf_index it + 1)) else None;
  it_Prev it :=
    if lf_Valid it
    then Some (mkLevelIter (lf_flist it)
                (if (lf_index it =? 0)%nat then length (lf_flist it) else (lf_index it - 1)%nat))
    else None;
  it_key it := f_largest <$> lf_flist it !! lf_index it;
  it_value it := file_value <$> lf_flist it !! lf_index it;
  it_status it := OK;
|}.
End LevelFileNum.

(** ** Finding a file *)

Section FindFile.
Context {C : Comparator} {L : ComparatorLaws C}.
Notation IC := (InternalKeyComparator C).

Lemma FindFile_loop_spec fuel files key left right :
  kvs_sorted IC (level_kvs files) ->
  (left <= lower_bound IC key (level_kvs files) <= right)%nat -> (right <= length files)%nat -> (right - left < fuel)%nat ->
  FindFile_loop C fuel files key left right = Some (lower_bound IC key (level_kvs files)).
Proof.
  intros Hs. revert left right. induction fuel as [|fuel IH]; intros left right Hb Hr Hf; [lia|].
  cbn [FindFile_loop]. destruct (Nat.ltb_spec left right) as [Hlt|Hge]; [|f_equal; lia].
  assert (Hmid : (left <= (left + right) / 2 < right)%nat).
  { split; [apply Nat.div_le_lower_bound; lia|apply Nat.Div0.div_lt_upper_bound; lia]. }
  set (mid := ((left + right) / 2)%nat) in *. destruct (lookup_lt_is_Some_2 files mid ltac:(lia)) as [f E]. rewrite E.
  assert (Hk : level_kvs files !! mid = Some (f_largest f, file_value f)).
  { unfold level_kvs. by rewrite list_lookup_fmap, E. }
  pose proof (lower_bound_spec (C := IC) key (level_kvs files) mid _ _ Hs Hk) as Hlb. cbn [Compare InternalKeyComparator] in Hlb.
  destruct (InternalKey_Compare C (f_largest f) key) eqn:Ec.
  - apply IH; [|lia..]. split; [lia|]. apply Nat.nlt_ge. intros H%Hlb. done.
  - apply IH; [|lia..]. split; [|lia]. assert (mid < lower_bound IC key (level_kvs files))%nat by by apply Hlb. lia.
  - apply IH; [|lia..]. split; [lia|]. apply Nat.nlt_ge. intros H%Hlb. done.
Qed.

Lemma FindFile_spec files key :
  kvs_sorted IC (level_kvs files) -> FindFile C files key = Some (lower_bound IC key (level_kvs files)).
Proof.
  intros Hs. apply FindFile_loop_spec; [done| |lia|lia]. split; [lia|].
  pose proof (lower_bound_le (C := IC) key (level_kvs files)) as H. unfold level_kvs in H at 2. by rewrite length_map in H.
Qed.

Lemma LevelFileNum_laws files :
  kvs_sorted IC (level_kvs files) ->
  IteratorLaws (LevelFileNum_Iterator C) IC (level_kvs files)
    (fun it i => it = mkLevelIter files i /\ (i <= length files)%nat).
Proof.
  intros Hs. assert (Hl : length (level_kvs files) = length files) by apply length_map.
  assert (Hv : forall i, (i < length files)%nat -> lf_Valid (mkLevelIter files i) = true) by (intros i; apply Nat.ltb_lt).
  assert (Hk : forall i, level_kvs files !! i = (fun f => (f_largest f, file_value f)) <$> files !! i)
    by (intros i; apply list_lookup_fmap).
  split; rewrite ?Hl; cbn [it_Valid it_SeekToFirst it_SeekToLast it_Seek it_Next it_Prev it_key it_value it_status LevelFileNum_Iterator].
  - by intros it i (-> & H).
  - by intros it i (-> & H).
  - done.
  - intros it i k v (-> & H). rewrite Hk. cbn [lf_flist lf_index]. by destruct (files !! i); [intros [= <- _]|].
  - intros it i k v (-> & H). rewrite Hk. cbn [lf_flist lf_index]. by destruct (files !! i); [intros [= _ <-]|].
  - intros it i (-> & H). eexists. split; [done|]. split; [done|lia].
  - intros it i (-> & H). eexists. split; [done|]. cbn [lf_flist]. by destruct files; (split; [done|cbn; lia]).
  - intros it i t (-> & H). cbn [lf_flist]. rewrite (FindFile_spec files t Hs). cbn [mbind option_bind].
    eexists. split; [done|]. split; [done|]. rewrite <- Hl. apply lower_bound_le.
  - intros it i (-> & H) Hi. rewrite Hv by done. eexists. split; [done|]. split; [done|lia].
  - intros it i (-> & H) Hi. rewrite Hv by done. eexists. split; [done|]. cbn [lf_flist lf_index]. split; [done|].
    case (i =? 0)%nat; lia.
Qed.
End FindFile.
