(* ===== verification/VersionGet.v ===== *)
(** * Reads of a version

    What a version means, and that [Version::Get] (Version.v) answers with the
    newest visible entry of all its files.  The table cache is any instance of
    its interface whose tables answer as those of Table.v do. *)

From Stdlib Require Import Sorted.
From stdpp Require Import sorting.
From S2P Require Import Prelude Coding Comparator DbFormat Status MemTable Iterator UserView VersionEdit Options Version.

(** ** What a table promises *)

(** The answer of a table with the entries [es] to a lookup of [u] at [s]. *)
Definition get_answer (C : Comparator) (u : bytes) (s : Z) (es : list Entry) (res : option kv) : Prop :=
  (exists e, newest_visible (C := C) u s es e /\ res = Some (entry_kv e)) \/
  ((forall e, e ∈ es -> ~ visible (C := C) u s e) /\
   match res with
   | Some x => exists e, e ∈ es /\ x = entry_kv e /\ Compare (Comparator := C) u (e_user_key e) <> Eq
   | None => True
   end).

(** [tc_table t n size es]: file number [n], of [size] bytes, is a table of the
    entries [es].  [tc_ready b t]: the cache serves [b] more calls; a cache that
    numbers the tables it opens cannot promise more than its counter counts. *)
Class TableCacheLaws {T} (TC : TableCache T) (C : Comparator) (tc_ready : nat -> T -> Prop) (tc_table : T -> Z -> Z -> list Entry -> Prop) : Prop := {
  tc_Get_ok : forall b tables n size es opts u s,
    tc_ready (S b) tables -> tc_table tables n size es -> 0 <= s <= kMaxSequenceNumber -> zlen u + 8 < 2 ^ 32 ->
    exists res tables', tc_Get tables opts n size (InternalKey u s kValueTypeForSeek) = Some (OK, res, tables') /\
      tc_ready b tables' /\ (forall n size es, tc_table tables n size es -> tc_table tables' n size es) /\ get_answer C u s es res;
  tc_ready_le : forall b b' tables, (b' <= b)%nat -> tc_ready b tables -> tc_ready b' tables;
}.

(** ** What a version promises *)

Section Reads.
Context {C : Comparator} {L : ComparatorLaws C}.
(** The entries of the files. *)
Variable contents : FilePtr -> list Entry.
Notation IC := (InternalKeyComparator C).
Notation ucmp := (Compare (Comparator := C)).

(** A file of sorted entries, with its first and last keys. *)
Record file_ok (f : FilePtr) : Prop := {
  fo_entries : Forall entry_ok (contents f);
  fo_sorted : entries_sorted C (contents f);
  fo_smallest : exists e, contents f !! 0%nat = Some e /\ f_smallest f = entry_ikey e;
  fo_largest : exists e, last (contents f) = Some e /\ f_largest f = entry_ikey e;
}.

(** Disjoint files in order. *)
Definition files_sorted (files : list FilePtr) : Prop :=
  forall i j f f', files !! i = Some f -> files !! j = Some f' -> (i < j)%nat ->
    InternalKey_Compare C (f_largest f) (f_smallest f') = Lt.

(** Every entry of a user key in [es] is newer than those in [es']. *)
Definition newer (es es' : list Entry) : Prop :=
  forall e e', e ∈ es -> e' ∈ es' -> ucmp (e_user_key e) (e_user_key e') = Eq -> e_seq e' < e_seq e.

Definition level_entries (v : Version) (level : nat) : list Entry := concat (map contents (level_files v level)).

Definition version_entries (v : Version) : list Entry := concat (map (level_entries v) (seq 0 kNumLevels)).

Record version_ok (v : Version) : Prop := {
  vo_files : forall level f, f ∈ level_files v level -> file_ok f;
  vo_sorted : forall level, (1 <= level)%nat -> files_sorted (level_files v level);
  vo_levels : forall level level', (level < level')%nat -> newer (level_entries v level) (level_entries v level');
  vo_level0 : forall f f', f ∈ level_files v 0 -> f' ∈ level_files v 0 -> f_number f' < f_number f ->
    newer (contents f) (contents f');
  vo_numbers : NoDup (map f_number (level_files v 0));
}.

(** *** Entries of files *)

Lemma elem_concat {A} (g : A -> list Entry) l e : e ∈ concat (map g l) <-> exists x, x ∈ l /\ e ∈ g x.
Proof.
  rewrite list_elem_of_In, in_concat. split.
  - intros (es & (x & <- & Hx)%in_map_iff & He). exists x. by rewrite !list_elem_of_In.
  - intros (x & Hx%list_elem_of_In & He%list_elem_of_In). exists (g x). split; [by apply in_map|done].
Qed.

Lemma level_entries_elem v level e :
  e ∈ level_entries v level <-> exists f, f ∈ level_files v level /\ e ∈ contents f.
Proof. apply elem_concat. Qed.

Lemma file_bounds f e :
  file_ok f -> e ∈ contents f ->
  InternalKey_Compare C (f_smallest f) (entry_ikey e) <> Gt /\ InternalKey_Compare C (entry_ikey e) (f_largest f) <> Gt.
Proof.
  intros Hf [i Hi]%list_elem_of_lookup.
  assert (Hle : forall j k e1 e2, contents f !! j = Some e1 -> contents f !! k = Some e2 -> (j <= k)%nat ->
    InternalKey_Compare C (entry_ikey e1) (entry_ikey e2) <> Gt).
  { intros j k e1 e2 Hj Hk Hjk. destruct (decide (j = k)) as [->|].
    - simplify_eq. pose proof (Compare_refl (C := IC)) as H. cbn in H. by rewrite H.
    - pose proof (kvs_sorted_lookup (C := IC) (map entry_kv (contents f)) j k (entry_ikey e1) (e_value e1) (entry_ikey e2) (e_value e2)
        (fo_sorted _ Hf)) as H. rewrite !list_lookup_fmap, Hj, Hk in H. specialize (H eq_refl eq_refl ltac:(lia)).
      cbn [Compare InternalKeyComparator] in H. by rewrite H. }
  destruct (fo_smallest _ Hf) as (es & Es & ->). destruct (fo_largest _ Hf) as (el & El & ->). split.
  - by apply (Hle 0%nat i); [| |lia].
  - rewrite last_lookup in El. apply (Hle i (pred (length (contents f)))); [done|done|]. apply lookup_lt_Some in Hi. lia.
Qed.

Lemma file_keys_le f : file_ok f -> InternalKey_Compare C (f_smallest f) (f_largest f) <> Gt.
Proof.
  intros Hf. destruct (fo_smallest _ Hf) as (e & He & _). apply list_elem_of_lookup_2 in He. destruct (file_bounds f e Hf He) as [H1 H2].
  by apply (Compare_le_trans (C := InternalKeyComparator C) _ (entry_ikey e)).
Qed.

Lemma largest_elem f : file_ok f -> exists e, e ∈ contents f /\ f_largest f = entry_ikey e /\ entry_ok e.
Proof.
  intros Hf. destruct (fo_largest _ Hf) as (e & E & El). exists e.
  assert (He : e ∈ contents f) by (apply last_Some in E as [l ->]; apply elem_of_app; right; by left).
  split; [done|]. split; [done|]. by apply (proj1 (Forall_forall _ _) (fo_entries _ Hf)).
Qed.

Lemma file_entry_ok f e : file_ok f -> e ∈ contents f -> entry_ok e.
Proof. intros Hf. apply (proj1 (Forall_forall _ _) (fo_entries _ Hf)). Qed.

(** Order of user keys from the order of internal keys. *)
Lemma ikey_le_user a b : InternalKey_Compare C a b <> Gt -> ucmp (ExtractUserKey a) (ExtractUserKey b) <> Gt.
Proof. rewrite InternalKey_Compare_eq_spec. by destruct (ucmp (ExtractUserKey a) (ExtractUserKey b)). Qed.

Lemma file_user_bounds f e :
  file_ok f -> e ∈ contents f ->
  ucmp (f_smallest_user f) (e_user_key e) <> Gt /\ ucmp (e_user_key e) (f_largest_user f) <> Gt.
Proof.
  intros Hf He. destruct (file_bounds f e Hf He) as [H1%ikey_le_user H2%ikey_le_user].
  unfold entry_ikey in *. rewrite ExtractUserKey_InternalKey in H1, H2. done.
Qed.

Lemma level_kvs_sorted files :
  (forall f, f ∈ files -> file_ok f) -> files_sorted files -> kvs_sorted IC (level_kvs files).
Proof.
  intros Hok Hs. apply kvs_sorted_of_lookup. intros i j x y Hi Hj Hlt. unfold level_kvs in *. rewrite list_lookup_fmap in Hi, Hj.
  destruct (files !! i) as [f|] eqn:Ei; [|done]. destruct (files !! j) as [f'|] eqn:Ej; [|done]. injection Hi as <-. injection Hj as <-.
  unfold kv_lt. cbn [fst]. eapply (Compare_lt_le_trans (C := IC)); [by apply (Hs i j f f' Ei Ej)|].
  destruct (largest_elem f' (Hok f' ltac:(by eapply list_elem_of_lookup_2))) as (e & He & -> & _).
  by apply (file_bounds f' e); [apply Hok; eapply list_elem_of_lookup_2|].
Qed.

Lemma level_kvs_lookup files j f : files !! j = Some f -> level_kvs files !! j = Some (f_largest f, file_value f).
Proof. intros Hj. unfold level_kvs. by rewrite list_lookup_fmap, Hj. Qed.

(** A visible entry is at or past the lookup key. *)
Lemma visible_ikey u s e :
  entry_ok e -> 0 <= s <= kMaxSequenceNumber ->
  visible (C := C) u s e -> InternalKey_Compare C (InternalKey u s kValueTypeForSeek) (entry_ikey e) <> Gt.
Proof. intros [He _] Hs [Hk Hv]. apply lookup_key_position; [done|done|]. by right. Qed.

(** *** The file of a sorted level that is read *)

Section Level.
Context (files : list FilePtr) (Hok : forall f, f ∈ files -> file_ok f) (Hsorted : files_sorted files).
Context (u : bytes) (s : Z) (Hs : 0 <= s <= kMaxSequenceNumber).
Notation ik := (InternalKey u s kValueTypeForSeek).
Notation i := (lower_bound IC ik (level_kvs files)).
Notation es := (concat (map contents files)).

Lemma files_entry e : e ∈ es -> exists j f, files !! j = Some f /\ e ∈ contents f.
Proof.
  intros (f & [j Hj]%list_elem_of_lookup & He)%elem_concat. by exists j, f.
Qed.

Lemma files_entry_ok e : e ∈ es -> entry_ok e.
Proof. intros (j & f & Hf & He)%files_entry. eapply file_entry_ok; [|done]. eapply Hok, list_elem_of_lookup_2, Hf. Qed.

(** Visible entries lie in the file found or in a later one. *)
Lemma visible_not_before j f e :
  files !! j = Some f -> e ∈ contents f -> visible (C := C) u s e -> (i <= j)%nat.
Proof.
  intros Hj He Hv. apply Nat.nlt_ge. intros Hlt. pose proof (Hok f ltac:(by eapply list_elem_of_lookup_2)) as Hf.
  pose proof (level_kvs_lookup _ _ _ Hj) as Hk.
  apply (lower_bound_spec (C := IC) ik _ _ _ _ (level_kvs_sorted files Hok Hsorted) Hk) in Hlt.
  pose proof (visible_ikey u s e (file_entry_ok f e Hf He) Hs Hv) as H1. pose proof (proj2 (file_bounds f e Hf He)) as H2.
  pose proof (Compare_le_trans (C := IC) _ _ _ H1 H2) as H3. apply Compare_lt_gt in Hlt. done.
Qed.

(** The last entry of the file found is newer than what is visible later. *)
Lemma visible_later j f fi e :
  files !! i = Some fi -> files !! j = Some f -> (i < j)%nat -> e ∈ contents f -> visible (C := C) u s e ->
  exists el, el ∈ contents fi /\ visible (C := C) u s el /\ e_seq e <= e_seq el.
Proof.
  intros Hi Hj Hlt He Hv. pose proof (Hok fi ltac:(by eapply list_elem_of_lookup_2)) as Hfi.
  pose proof (Hok f ltac:(by eapply list_elem_of_lookup_2)) as Hf. pose proof (file_entry_ok f e Hf He) as [Hes _].
  destruct (largest_elem fi Hfi) as (el & Hel & El & [Hels _]). exists el. split; [done|].
  pose proof (level_kvs_lookup _ _ _ Hi) as Hk.
  pose proof (lower_bound_spec (C := IC) ik _ _ _ _ (level_kvs_sorted files Hok Hsorted) Hk) as Hlb.
  assert (H1 : InternalKey_Compare C ik (f_largest fi) <> Gt).
  { intros H%(Compare_gt_lt (C := IC)). apply Hlb in H. lia. }
  assert (H2 : InternalKey_Compare C (f_largest fi) (entry_ikey e) = Lt).
  { eapply (Compare_lt_le_trans (C := IC)); [by apply (Hsorted i j fi f)|]. by apply file_bounds. }
  rewrite El in H1, H2. unfold entry_ikey in H1, H2. apply lookup_key_position in H1; [|done..].
  rewrite InternalKey_Compare_encoded in H2 by done. destruct Hv as [Hvk Hvs].
  assert (Hu : ucmp u (e_user_key el) = Eq).
  { destruct H1 as [H1|[H1 _]]; [|done]. exfalso. rewrite (Compare_eq_l _ _ (e_user_key el) Hvk) in H1.
    rewrite (Compare_antisym (e_user_key e)), H1 in H2. done. }
  assert (Hke : ucmp (e_user_key el) (e_user_key e) = Eq) by by rewrite <- (Compare_eq_l _ _ (e_user_key e) Hu).
  rewrite Hke in H2. destruct H1 as [H1|[_ H1]]; [congruence|]. split; [done|].
  destruct (Z.compare_spec (e_seq e) (e_seq el)); [lia|lia|done].
Qed.

Lemma candidate_newest fi e :
  files !! i = Some fi -> newest_visible (C := C) u s (contents fi) e -> newest_visible (C := C) u s es e.
Proof.
  intros Hi (He & Hv & Hnew). split; [|split; [done|]].
  { apply elem_concat. exists fi. split; [by eapply list_elem_of_lookup_2|done]. }
  intros e' (j & f & Hj & He')%files_entry Hv'. pose proof (visible_not_before j f e' Hj He' Hv') as Hle.
  destruct (decide (j = i)) as [->|Hne]; [simplify_eq; by apply Hnew|].
  destruct (visible_later j f fi e' Hi Hj ltac:(lia) He' Hv') as (el & Hel & Hvl & Hle'). specialize (Hnew el Hel Hvl). lia.
Qed.

Lemma candidate_none :
  (forall fi, files !! i = Some fi -> forall e, e ∈ contents fi -> ~ visible (C := C) u s e) ->
  forall e, e ∈ es -> ~ visible (C := C) u s e.
Proof.
  intros Hno e (j & f & Hj & He)%files_entry Hv. pose proof (visible_not_before j f e Hj He Hv) as Hle.
  destruct (lookup_lt_is_Some_2 files i) as [fi Hi]; [apply lookup_lt_Some in Hj; lia|].
  destruct (decide (j = i)) as [->|Hne]; [simplify_eq; by apply (Hno f Hj e)|].
  destruct (visible_later j f fi e Hi Hj ltac:(lia) He Hv) as (el & Hel & Hvl & _). by apply (Hno fi Hi el).
Qed.

Lemma below_smallest f e : file_ok f -> ucmp u (f_smallest_user f) = Lt -> e ∈ contents f -> ~ visible (C := C) u s e.
Proof.
  intros Hf Hlt He [Hk _]. destruct (file_user_bounds f e Hf He) as [H _].
  pose proof (Compare_lt_le_trans _ _ _ Hlt H). congruence.
Qed.

Lemma above_largest f e : file_ok f -> ucmp u (f_largest_user f) = Gt -> e ∈ contents f -> ~ visible (C := C) u s e.
Proof.
  intros Hf Hgt He [Hk _]. destruct (file_user_bounds f e Hf He) as [_ H].
  rewrite (Compare_eq_l _ _ (f_largest_user f) Hk) in Hgt. congruence.
Qed.
End Level.

(** *** The answer of a search *)

Lemma newest_app_l u s es es' e :
  newest_visible (C := C) u s es e -> newer es es' -> newest_visible (C := C) u s (es ++ es') e.
Proof.
  intros (He & Hv & Hnew) Hn. split; [by apply elem_of_app; left|]. split; [done|].
  intros e' [He'|He']%elem_of_app Hv'; [by apply Hnew|]. apply Z.lt_le_incl, Hn; [done|done|].
  rewrite <- (Compare_eq_l u); [apply Hv'|apply Hv].
Qed.

Lemma newest_app_r u s es es' e :
  (forall e, e ∈ es -> ~ visible (C := C) u s e) -> newest_visible (C := C) u s es' e ->
  newest_visible (C := C) u s (es ++ es') e.
Proof.
  intros Hno (He & Hv & Hnew). split; [by apply elem_of_app; right|]. split; [done|].
  intros e' [He'|He']%elem_of_app Hv'; [by destruct (Hno e')|by apply Hnew].
Qed.

Lemma newer_concat {A} (g : A -> list Entry) es l :
  (forall x, x ∈ l -> newer es (g x)) -> newer es (concat (map g l)).
Proof. intros H e e' He (x & Hx & He')%elem_concat. by apply (H x Hx). Qed.

Section Search.
Context {T : Type} {TC : TableCache T} {tc_ready : nat -> T -> Prop} {tc_table : T -> Z -> Z -> list Entry -> Prop}.
Context {TL : TableCacheLaws TC C tc_ready tc_table}.
Context {v : Version} (Hv : version_ok v).
Context (options : ReadOptions) (u : bytes) (s : Z) (value : bytes).
Context (Hs : 0 <= s <= kMaxSequenceNumber) (Hu : zlen u + 8 < 2 ^ 32).
Notation ik := (InternalKey u s kValueTypeForSeek).

(** The table cache has the version's tables, for [b] more calls. *)
Definition tables_ok (b : nat) (tables : T) : Prop :=
  tc_ready b tables /\ forall level f, f ∈ level_files v level -> tc_table tables (f_number f) (f_size f) (contents f).

Lemma tables_ok_le b b' tables : (b' <= b)%nat -> tables_ok b tables -> tables_ok b' tables.
Proof. intros Hb [Hr Ht]. split; [by eapply tc_ready_le|done]. Qed.

Definition searching (b : nat) (st : GetState T) : Prop :=
  gs_saver st = mkSaver kNotFound u value /\ gs_found st = false /\ tables_ok b (gs_tables st).

Definition answered (b : nat) (e : Entry) (st : GetState T) : Prop :=
  match e_type e with
  | kTypeValue => gs_found st = true /\ gs_s st = OK /\ sv_value (gs_saver st) = e_value e
  | kTypeDeletion => gs_found st = false /\ sv_value (gs_saver st) = value
  end /\ tables_ok b (gs_tables st).

(** A search of [es] that stopped or went through. *)
Definition outcome (b : nat) (c : bool) (st : GetState T) (es : list Entry) : Prop :=
  (c = false /\ exists e, newest_visible (C := C) u s es e /\ answered b e st) \/
  (c = true /\ searching b st /\ forall e, e ∈ es -> ~ visible (C := C) u s e).

Lemma searching_le b b' st : (b' <= b)%nat -> searching b st -> searching b' st.
Proof. intros Hb (H1 & H2 & H3). split; [done|]. split; [done|]. by eapply tables_ok_le. Qed.

Lemma outcome_le b b' c st es : (b' <= b)%nat -> outcome b c st es -> outcome b' c st es.
Proof.
  intros Hb [(-> & e & Hn & Ha & Ht)|(-> & Hse & Hno)]; [left|right]; (split; [done|]).
  - exists e. split; [done|]. split; [done|]. by eapply tables_ok_le.
  - split; [by eapply searching_le|done].
Qed.

Lemma outcome_ext b c st es es' :
  (forall e, visible (C := C) u s e -> e ∈ es <-> e ∈ es') -> outcome b c st es -> outcome b c st es'.
Proof.
  intros H [(-> & e & (He & Hve & Hnew) & Ha)|(-> & Hse & Hno)]; [left|right].
  - split; [done|]. exists e. split; [|done]. split; [by apply H|]. split; [done|].
    intros e' He' Hv'. apply Hnew; [by apply H|done].
  - split; [done|]. split; [done|]. intros e He Hve. apply (Hno e); [by apply H|done].
Qed.

Lemma Get_Match_spec b st level level' f :
  searching (S b) st -> f ∈ level_files v level' ->
  exists c st', Get_Match C options ik st level f = Some (c, st') /\ outcome b c st' (contents f).
Proof.
  intros (Hsv & Hf & Hr & Ht) Hin. pose proof (vo_files _ Hv _ _ Hin) as Hok. unfold Get_Match.
  destruct (tc_Get_ok b (gs_tables st) (f_number f) (f_size f) (contents f) options u s Hr (Ht _ _ Hin) Hs Hu)
    as (res & tables' & -> & Hr' & Hkeep & Hans). cbn [mbind option_bind ok negb]. rewrite Hsv.
  assert (Ht' : tables_ok b tables') by (split; [done|intros l g Hg; apply Hkeep, Ht with l; done]).
  assert (Hparse : forall e, e ∈ contents f ->
    ParseInternalKey (entry_ikey e) = Some (mkParsed (e_user_key e) (e_seq e) (e_type e))).
  { intros e He. apply ParseInternalKey_InternalKey. by apply (file_entry_ok f e Hok He). }
  destruct Hans as [(e & Hnew & ->)|[Hno Hres]].
  - pose proof Hnew as (He & [Hk _] & _). unfold SaveValue. cbn [entry_kv fst snd]. rewrite (Hparse e He).
    cbn [user_key sv_user_key type]. rewrite (Compare_eq_sym _ _ Hk).
    destruct (e_type e) eqn:Et; cbn [sv_state]; (eexists _, _; split; [done|]); left; (split; [done|]);
      exists e; unfold answered; rewrite Et; cbn; tauto.
  - assert (Hse : (match res with Some (k, v) => SaveValue C (mkSaver kNotFound u value) k v
      | None => mkSaver kNotFound u value end) = mkSaver kNotFound u value).
    { destruct res as [[k0 v0]|]; [|done]. destruct Hres as (e & He & [= -> ->] & Hne). unfold SaveValue. rewrite (Hparse e He).
      cbn [user_key sv_user_key]. rewrite (Compare_antisym u). by destruct (ucmp u (e_user_key e)). }
    rewrite Hse. cbn [sv_state]. eexists _, _. split; [done|]. right. split; [done|]. split; [|done]. by split.
Qed.

Lemma visit_files_spec b level level' files st :
  searching (length files + b) st -> (forall f, f ∈ files -> f ∈ level_files v level') ->
  StronglySorted (fun f f' => newer (contents f) (contents f')) files ->
  exists c st', visit_files (Get_Match C options ik) level files st = Some (c, st') /\
    outcome b c st' (concat (map contents files)).
Proof.
  intros Hse Hin Hn. revert st Hse. induction Hn as [|f files Hn IH Hf]; intros st Hse; cbn [visit_files map concat].
  - exists true, st. split; [done|]. right. split; [done|]. split; [done|]. by intros e ?%elem_of_nil.
  - destruct (Get_Match_spec (length files + b) st level level' f Hse ltac:(apply Hin; by left)) as (c & st' & -> & Hout). cbn [mbind option_bind].
    destruct Hout as [(-> & e & Hnew & Ha)|(-> & Hse' & Hno)].
    + exists false, st'. split; [done|]. apply (outcome_le (length files + b)); [lia|]. left. split; [done|]. exists e. split; [|done].
      apply newest_app_l; [done|]. apply newer_concat. exact (proj1 (Forall_forall _ _) Hf).
    + destruct (IH ltac:(intros f' Hf'; apply Hin; by right) st' Hse') as (c & st'' & -> & Hout). exists c, st''. split; [done|].
      destruct Hout as [(-> & e & Hnew & Ha)|(-> & Hse'' & Hno')]; [left|right]; (split; [done|]).
      * exists e. split; [|done]. by apply newest_app_r.
      * split; [done|]. intros e [He|He]%elem_of_app; [by apply Hno|by apply Hno'].
Qed.

(** One sorted level. *)
Lemma level_spec b level st :
  (1 <= level)%nat -> searching (S b) st ->
  exists i, FindFile C (level_files v level) ik = Some i /\
  match level_files v level !! i with
  | None => forall e, e ∈ level_entries v level -> ~ visible (C := C) u s e
  | Some f =>
      (ucmp u (f_smallest_user f) = Lt -> forall e, e ∈ level_entries v level -> ~ visible (C := C) u s e) /\
      exists c st', Get_Match C options ik st level f = Some (c, st') /\ outcome b c st' (level_entries v level)
  end.
Proof.
  intros Hl Hse. set (files := level_files v level).
  assert (Hok : forall f, f ∈ files -> file_ok f) by (intros f; apply (vo_files _ Hv)).
  pose proof (vo_sorted _ Hv level Hl) as Hsort. fold files in Hsort.
  exists (lower_bound IC ik (level_kvs files)). split; [by apply FindFile_spec, level_kvs_sorted|].
  destruct (files !! lower_bound IC ik (level_kvs files)) as [f|] eqn:Ef.
  - assert (Hin : f ∈ files) by by eapply list_elem_of_lookup_2. split.
    + intros Hlt. apply (candidate_none files Hok Hsort u s Hs). intros fi Hfi. rewrite Ef in Hfi. injection Hfi as <-.
      intros e. apply below_smallest; [by apply Hok|done].
    + destruct (Get_Match_spec b st level level f Hse Hin) as (c & st' & E & Hout). exists c, st'. split; [done|].
      destruct Hout as [(-> & e & Hnew & Ha)|(-> & Hse' & Hno)]; [left|right]; (split; [done|]).
      * exists e. split; [|done]. by apply (candidate_newest files Hok Hsort u s Hs f).
      * split; [done|]. apply (candidate_none files Hok Hsort u s Hs). intros fi Hfi. rewrite Ef in Hfi. by injection Hfi as <-.
  - apply (candidate_none files Hok Hsort u s Hs). intros fi Hfi. congruence.
Qed.

Lemma visit_levels_spec b n level st :
  (1 <= level)%nat -> searching (n + b) st ->
  exists c st', visit_levels C (Get_Match C options ik) n level v u ik st = Some (c, st') /\
    outcome b c st' (concat (map (level_entries v) (seq level n))).
Proof.
  revert level st. induction n as [|n IH]; intros level st Hl Hse; cbn [visit_levels seq map concat].
  { exists true, st. split; [done|]. right. split; [done|]. split; [done|]. by intros e ?%elem_of_nil. }
  assert (Hskip : forall st, searching (n + b) st -> (forall e, e ∈ level_entries v level -> ~ visible (C := C) u s e) ->
    exists c st', visit_levels C (Get_Match C options ik) n (level + 1) v u ik st = Some (c, st') /\
      outcome b c st' (level_entries v level ++ concat (map (level_entries v) (seq (S level) n)))).
  { intros st0 Hse0 Hno. destruct (IH (level + 1)%nat st0 ltac:(lia) Hse0) as (c & st' & E & Hout). rewrite Nat.add_1_r in *.
    exists c, st'. split; [done|]. destruct Hout as [(-> & e & Hnew & Ha)|(-> & Hse' & Hno')]; [left|right]; (split; [done|]).
    - exists e. split; [|done]. by apply newest_app_r.
    - split; [done|]. intros e [He|He]%elem_of_app; [by apply Hno|by apply Hno']. }
  assert (Hse' : searching (n + b) st) by (eapply searching_le; [|exact Hse]; lia).
  destruct (level_spec (n + b) level st Hl Hse) as (i & Ei & Hlev).
  destruct (Nat.eqb_spec (length (level_files v level)) 0) as [H0|H0].
  { apply Hskip; [done|]. intros e (f & Hf & _)%level_entries_elem. apply length_zero_iff_nil in H0. rewrite H0 in Hf. by apply elem_of_nil in Hf. }
  rewrite Ei. cbn [mbind option_bind]. destruct (level_files v level !! i) as [f|]; [|by apply Hskip].
  destruct Hlev as (Hlt & c & st' & Em & Hout). rewrite Em. cbn [mbind option_bind].
  assert (Hgo : exists c0 st'0, (if (c : bool) then visit_levels C (Get_Match C options ik) n (level + 1) v u ik st' else Some (false, st'))
      = Some (c0, st'0) /\ outcome b c0 st'0 (level_entries v level ++ concat (map (level_entries v) (seq (S level) n)))).
  { destruct Hout as [(-> & e & Hnew & Ha)|(-> & Hse2 & Hno)]; [|by apply Hskip].
    exists false, st'. split; [done|]. apply (outcome_le (n + b)); [lia|]. left. split; [done|]. exists e. split; [|done]. apply newest_app_l; [done|].
    apply newer_concat. intros l Hin%elem_of_seq. apply (vo_levels _ Hv). lia. }
  destruct (ucmp u (f_smallest_user f)); [exact Hgo|by apply Hskip; [|apply Hlt]|exact Hgo].
Qed.

#[local] Instance NewestFirst_total : Total NewestFirst.
Proof. intros a b. unfold NewestFirst. lia. Qed.
#[local] Instance NewestFirst_trans : Transitive NewestFirst.
Proof. intros a b c. unfold NewestFirst. lia. Qed.

Lemma NoDup_map_filter {A B} (g : A -> B) (p : A -> bool) l : NoDup (map g l) -> NoDup (map g (List.filter p l)).
Proof.
  induction l as [|x l IH]; [done|]. cbn [map List.filter]. intros [Hn Hd]%NoDup_cons. destruct (p x); [|by apply IH].
  cbn [map]. apply NoDup_cons. split; [|by apply IH]. intros (y & Ey & Hy)%list_elem_of_fmap. apply Hn. rewrite Ey.
  apply list_elem_of_fmap_2. apply list_elem_of_In, List.filter_In, proj1 in Hy. by apply list_elem_of_In.
Qed.

(** Level 0 is searched newest first. *)
Lemma level0_overlapping_spec :
  (forall f, f ∈ level0_overlapping C v u -> f ∈ level_files v 0) /\
  StronglySorted (fun f f' => newer (contents f) (contents f')) (level0_overlapping C v u) /\
  forall e, visible (C := C) u s e ->
    e ∈ concat (map contents (level0_overlapping C v u)) <-> e ∈ level_entries v 0.
Proof.
  set (keep := fun f => bool_decide (ucmp u (f_smallest_user f) <> Lt) && bool_decide (ucmp u (f_largest_user f) <> Gt)).
  assert (Hin : forall f, f ∈ level0_overlapping C v u <-> f ∈ level_files v 0 /\ keep f = true).
  { intros f. unfold level0_overlapping. rewrite merge_sort_Permutation, !list_elem_of_In. apply List.filter_In. }
  split; [intros f Hf; by apply Hin in Hf as [? _]|]. split.
  - assert (Hnd : NoDup (map f_number (level0_overlapping C v u))).
    { unfold level0_overlapping. rewrite merge_sort_Permutation. by apply NoDup_map_filter, (vo_numbers _ Hv). }
    pose proof (StronglySorted_merge_sort NewestFirst (List.filter keep (level_files v 0))) as Hs0.
    change (merge_sort NewestFirst (List.filter keep (level_files v 0))) with (level0_overlapping C v u) in Hs0.
    assert (Hall : forall f, f ∈ level0_overlapping C v u -> f ∈ level_files v 0) by (intros f Hf; by apply Hin in Hf as [? _]).
    clear Hin. induction Hs0 as [|f fs Hs0 IH Hf]; constructor.
    + apply IH; [by apply NoDup_cons in Hnd as [_ ?]|]. intros g Hg. apply Hall. by right.
    + apply Forall_forall. intros g Hg. apply (vo_level0 _ Hv); [apply Hall; by left|apply Hall; by right|].
      apply (proj1 (Forall_forall _ _) Hf) in Hg as Hle. unfold NewestFirst in Hle.
      apply NoDup_cons in Hnd as [Hn _]. assert (f_number f <> f_number g); [|lia].
      intros E. apply Hn. rewrite E. by apply list_elem_of_fmap_2.
  - intros e Hve. rewrite level_entries_elem, elem_concat. split.
    + intros (f & [Hf _]%Hin & He). by exists f.
    + intros (f & Hf & He). exists f. split; [|done]. apply Hin. split; [done|]. pose proof (vo_files _ Hv _ _ Hf) as Hok.
      apply andb_true_intro. split; apply bool_decide_eq_true_2; intros H;
        [by apply (below_smallest u s f e Hok H)|by apply (above_largest u s f e Hok H)].
Qed.

Lemma Version_Get_spec b tables :
  tables_ok (length (level_files v 0) + (kNumLevels + b)) tables ->
  exists st value' stats tables',
    Version_Get C v options (LookupKey_new u s) value tables = Some (st, value', stats, tables') /\ tables_ok b tables' /\
    ((exists e, newest_visible (C := C) u s (version_entries v) e /\
        match e_type e with
        | kTypeValue => st = OK /\ value' = e_value e
        | kTypeDeletion => st = NotFound [] [] /\ value' = value
        end) \/
     ((forall e, e ∈ version_entries v -> ~ visible (C := C) u s e) /\ st = NotFound [] [] /\ value' = value)).
Proof.
  intros Ht. unfold Version_Get, ForEachOverlapping. rewrite LookupKey_new_internal.
  assert (Hlu : lookup_user_key (LookupKey_new u s) = u).
  { unfold lookup_user_key. change (drop _ _) with (internal_key (LookupKey_new u s)).
    rewrite LookupKey_new_internal. apply ExtractUserKey_InternalKey. }
  rewrite Hlu. destruct level0_overlapping_spec as (Hin & Hsort & Hsame).
  set (st0 := mkGetState (mkSaver kNotFound u value) None None OK false tables). 
  assert (Hl0 : (length (level0_overlapping C v u) <= length (level_files v 0))%nat).
  { unfold level0_overlapping. rewrite merge_sort_Permutation. apply List.filter_length_le. }
  assert (Hse0 : searching (length (level0_overlapping C v u) + (kNumLevels - 1 + b)) st0).
  { split; [done|]. split; [done|]. eapply tables_ok_le; [|exact Ht]. lia. }
  destruct (visit_files_spec _ 0 0 _ st0 Hse0 Hin Hsort) as (c & st1 & -> & Hout). apply (outcome_ext _ _ _ _ _ Hsame) in Hout.
  cbn [mbind option_bind].
  assert (Hall : exists st2, (if (c : bool) then
        '(_, s0) ← visit_levels C (Get_Match C options ik) (kNumLevels - 1) 1 v u ik st1; Some s0 else Some st1) = Some st2 /\
      exists c', outcome b c' st2 (version_entries v)).
  { change (version_entries v) with (level_entries v 0 ++ concat (map (level_entries v) (seq 1 (kNumLevels - 1)))).
    destruct Hout as [(-> & e & Hnew & Ha)|(-> & Hse & Hno)].
    - exists st1. split; [done|]. exists false. apply (outcome_le (kNumLevels - 1 + b)); [lia|]. left. split; [done|]. exists e. split; [|done]. apply newest_app_l; [done|].
      apply newer_concat. intros l Hl%elem_of_seq. apply (vo_levels _ Hv). lia.
    - destruct (visit_levels_spec b (kNumLevels - 1) 1 st1 ltac:(lia) Hse) as (c' & st2 & -> & Hout'). exists st2. split; [done|].
      exists c'. destruct Hout' as [(-> & e & Hnew & Ha)|(-> & Hse' & Hno')]; [left|right]; (split; [done|]).
      + exists e. split; [|done]. by apply newest_app_r.
      + split; [done|]. intros e [He|He]%elem_of_app; [by apply Hno|by apply Hno']. }
  destruct Hall as (st2 & -> & c' & Hout'). cbn [mbind option_bind]. eexists _, _, _, _. split; [done|].
  destruct Hout' as [(_ & e & Hnew & Ha & Ht')|(_ & (Hsv & Hf & Ht') & Hno)]; (split; [done|]).
  - left. exists e. split; [done|]. destruct (e_type e).
    + destruct Ha as (-> & ->). done.
    + destruct Ha as (-> & -> & ->). done.
  - right. rewrite Hsv, Hf. done.
Qed.
End Search.
End Reads.

(** ** Tables as sorted entries *)

(** The first entry at or past a lookup key answers the lookup. *)
Lemma sorted_get_answer {C : Comparator} {L : ComparatorLaws C} es u s :
  Forall entry_ok es -> entries_sorted C es -> 0 <= s <= kMaxSequenceNumber ->
  get_answer C u s es (map entry_kv es !!
    lower_bound (InternalKeyComparator C) (InternalKey u s kValueTypeForSeek) (map entry_kv es)).
Proof.
  intros Hok Hsort Hs. set (n := lower_bound _ _ _).
  assert (Hpos : forall j e, es !! j = Some e -> (n <= j)%nat <->
    Compare (Comparator := C) u (e_user_key e) = Lt \/ visible (C := C) u s e).
  { intros j e Ej. pose proof (entry_ok_at Hok _ _ Ej) as [He _].
    assert (Ek : map entry_kv es !! j = Some (entry_ikey e, e_value e)) by by rewrite list_lookup_fmap, Ej.
    pose proof (lower_bound_spec (C := InternalKeyComparator C) (InternalKey u s kValueTypeForSeek) _ _ _ _ Hsort Ek) as H.
    fold n in H. unfold visible, entry_ikey in *. rewrite <- (lookup_key_position u s (e_user_key e) (e_seq e) (e_type e)) by done.
    change (InternalKey_Compare C) with (Compare (Comparator := InternalKeyComparator C)).
    rewrite Compare_ngt_le, H. lia. }
  rewrite list_lookup_fmap. destruct (es !! n) as [e|] eqn:En; cbn [fmap option_fmap option_map].
  - assert (Hin : e ∈ es) by by eapply list_elem_of_lookup_2.
    destruct (proj1 (Hpos n e En) (le_n n)) as [Hlt|Hv].
    + right. split; [|exists e; split; [done|]; split; [done|congruence]].
      intros e' [j Ej]%list_elem_of_lookup Hv. pose proof (proj2 (Hpos j e' Ej) (or_intror Hv)) as Hle.
      pose proof (entry_before_le Hok Hsort n j e e' En Ej Hle) as H. destruct Hv as [Hk _].
      pose proof (Compare_lt_le_trans _ _ _ Hlt H). congruence.
    + left. exists e. split; [|done]. split; [done|]. split; [done|].
      intros e' [j Ej]%list_elem_of_lookup Hv'. pose proof (proj2 (Hpos j e' Ej) (or_intror Hv')) as Hle.
      destruct (decide (n = j)) as [<-|]; [by simplify_eq|]. apply (entry_before Hok Hsort n j e e' En Ej ltac:(lia)).
      rewrite <- (Compare_eq_l u); [apply Hv'|apply Hv].
  - right. split; [|done]. intros e [j Ej]%list_elem_of_lookup Hv.
    pose proof (proj2 (Hpos j e Ej) (or_intror Hv)) as Hle. apply lookup_ge_None in En. apply lookup_lt_Some in Ej. lia.
Qed.

(** A table cache over entries in memory, for examples. *)
Definition EntryTables (C : Comparator) : TableCache (list (Z * list Entry)) := fun tables _ n _ ik =>
  match List.find (fun t => t.1 =? n) tables with
  | Some (_, es) => Some (OK, map entry_kv es !! lower_bound (InternalKeyComparator C) ik (map entry_kv es), tables)
  | None => Some (NotFound [] [], None, tables)
  end.

Definition entry_table (C : Comparator) (tables : list (Z * list Entry)) (n size : Z) (es : list Entry) : Prop :=
  List.find (fun t => t.1 =? n) tables = Some (n, es) /\ Forall entry_ok es /\ entries_sorted C es.

Lemma EntryTables_laws C : ComparatorLaws C -> TableCacheLaws (EntryTables C) C (fun _ _ => True) (entry_table C).
Proof.
  intros L. split; [|done]. intros b tables n size es opts u s _ (Hf & Hok & Hsort) Hs Hu. unfold tc_Get, EntryTables. rewrite Hf.
  eexists _, _. split; [done|]. split; [done|]. split; [done|]. by apply sorted_get_answer.
Qed.

(** ** Properties *)

(** C17: in a version whose files are sorted, disjoint in each level but the
    first, and newer the higher they are, [Get] answers for every key and
    snapshot with the newest visible entry of all files: its value with status
    OK, [NotFound] when it is a deletion or there is none, with [*value]
    untouched then. *)
Theorem version_get_newest_visible {T : Type} (TC : TableCache T) (C : Comparator) (L : ComparatorLaws C)
    (tc_ready : nat -> T -> Prop) (tc_table : T -> Z -> Z -> list Entry -> Prop) (TL : TableCacheLaws TC C tc_ready tc_table)
    (contents : FilePtr -> list Entry) (v : Version) (tables : T) (options : ReadOptions) (u : bytes) (s : Z) (value : bytes)
    (Hv : version_ok (C := C) contents v) (Ht : tables_ok (tc_ready := tc_ready) (tc_table := tc_table) contents (v := v) (length (level_files v 0) + kNumLevels) tables)
    (Hs : 0 <= s <= kMaxSequenceNumber) (Hu : zlen u + 8 < 2 ^ 32) :
  exists st value' stats tables',
    Version_Get C v options (LookupKey_new u s) value tables = Some (st, value', stats, tables') /\
    ((exists e, newest_visible (C := C) u s (version_entries contents v) e /\
        match e_type e with
        | kTypeValue => st = OK /\ value' = e_value e
        | kTypeDeletion => st = NotFound [] [] /\ value' = value
        end) \/
     ((forall e, e ∈ version_entries contents v -> ~ visible (C := C) u s e) /\ st = NotFound [] [] /\ value' = value)).
Proof.
  rewrite <- (Nat.add_0_r kNumLevels) in Ht. destruct (Version_Get_spec contents Hv options u s value Hs Hu 0 tables Ht)
    as (st & value' & stats & tables' & E & _ & H). by exists st, value', stats, tables'.
Qed.

(** An example: a key overwritten in level 0, above two keys in level 1. *)
Definition example_entries (n : Z) : list Entry :=
  if n =? 5 then [mkEntry (cstr "a") 9 kTypeValue (cstr "new")]
  else [mkEntry (cstr "a") 7 kTypeValue (cstr "old"); mkEntry (cstr "b") 6 kTypeDeletion []].

Definition example_file (n : Z) (small large : Entry) : FilePtr :=
  mkFilePtr n (FileMetaData_new n 100 (entry_ikey small) (entry_ikey large)).

Definition example_version : Version :=
  mkVersion [[example_file 5 (mkEntry (cstr "a") 9 kTypeValue []) (mkEntry (cstr "a") 9 kTypeValue [])];
             [example_file 3 (mkEntry (cstr "a") 7 kTypeValue []) (mkEntry (cstr "b") 6 kTypeDeletion [])]]
    None (-1) (double_of_Z (-1)) (-1).

Lemma example_version_ok :
  version_ok (C := BytewiseComparator) (fun f => example_entries (f_number f)) example_version.
Proof.
  assert (Hl : forall level f, f ∈ level_files example_version level ->
    (level = 0%nat /\ f = example_file 5 (mkEntry (cstr "a") 9 kTypeValue []) (mkEntry (cstr "a") 9 kTypeValue [])) \/
    (level = 1%nat /\ f = example_file 3 (mkEntry (cstr "a") 7 kTypeValue []) (mkEntry (cstr "b") 6 kTypeDeletion []))).
  { intros [|[|level]] f; [| |intros Hf; exfalso; revert Hf; apply not_elem_of_nil];
      intros ->%list_elem_of_singleton; auto. }
  split.
  - intros level f [[-> ->]|[-> ->]]%Hl; (split; [repeat constructor; vm_compute; discriminate || reflexivity|
      repeat constructor; vm_compute; reflexivity|eexists; split; reflexivity|eexists; split; reflexivity]).
  - intros level Hlev i j f f' Hi Hj Hij. destruct level as [|[|level]]; [lia| |done].
    apply lookup_lt_Some in Hj. cbn in Hj. lia.
  - intros level level' Hlt e e' (f & Hf%Hl & He)%level_entries_elem (f' & Hf'%Hl & He')%level_entries_elem.
    destruct Hf as [[-> ->]|[-> ->]], Hf' as [[-> ->]|[-> ->]]; [lia| |lia|lia].
    apply list_elem_of_singleton in He as ->. apply elem_of_cons in He' as [->| ->%list_elem_of_singleton]; by vm_compute.
  - intros f f' Hf%Hl Hf'%Hl Hn. destruct Hf as [[_ ->]|[? _]], Hf' as [[_ ->]|[? _]]; [|lia..]. by apply Z.lt_irrefl in Hn.
  - repeat constructor. apply not_elem_of_nil.
Qed.

Lemma version_get_newest_visible_witness :
  exists st value' stats tables',
    Version_Get (TC := EntryTables BytewiseComparator) BytewiseComparator example_version ReadOptions_default
      (LookupKey_new (cstr "a") 8) [] [(5, example_entries 5); (3, example_entries 3)] = Some (st, value', stats, tables').
Proof.
  destruct (version_get_newest_visible (EntryTables BytewiseComparator) BytewiseComparator BytewiseComparator_laws
    (fun _ _ => True) (entry_table BytewiseComparator) (EntryTables_laws BytewiseComparator BytewiseComparator_laws)
    (fun f => example_entries (f_number f)) example_version [(5, example_entries 5); (3, example_entries 3)]
    ReadOptions_default (cstr "a") 8 [] example_version_ok) as (st & value' & stats & tables' & E & _).
  - split; [done|]. intros level f Hf.
    assert (Hin : f ∈ concat (files_ example_version)).
    { apply list_elem_of_In, in_concat. unfold level_files in Hf. destruct (files_ example_version !! level) as [fs|] eqn:El.
      - exists fs. split; [by eapply list_elem_of_In, list_elem_of_lookup_2|by apply list_elem_of_In].
      - by apply elem_of_nil in Hf. }
    apply elem_of_cons in Hin as [->| ->%list_elem_of_singleton];
      (split; [reflexivity|split; [repeat constructor; vm_compute; discriminate || reflexivity|
         repeat constructor; vm_compute; reflexivity]]).
  - split; vm_compute; discriminate.
  - reflexivity.
  - exists st, value', stats, tables'. exact E.
Defined.

(** The lookup finds the old value below the overwriting, and the new one at it. *)
Example version_get_old :
  Version_Get (TC := EntryTables BytewiseComparator) BytewiseComparator example_version ReadOptions_default
    (LookupKey_new (cstr "a") 8) [] [(5, example_entries 5); (3, example_entries 3)]
  = Some (OK, cstr "old", Some (example_file 5 (mkEntry (cstr "a") 9 kTypeValue []) (mkEntry (cstr "a") 9 kTypeValue []), 0%nat),
          [(5, example_entries 5); (3, example_entries 3)]).
Proof. vm_compute. reflexivity. Qed.
