(* ===== verification/Overlap.v ===== *)
(** * Overlapping files

    The correctness of the range queries of Version.v: the binary search of
    [SomeFileOverlapsRange], the restarting search of [GetOverlappingInputs]
    and the level [PickLevelForMemTableOutput] chooses. *)

From Stdlib Require Import Sorted.
From stdpp Require Import sorting.
From S2P Require Import Prelude Coding Comparator DbFormat Status MemTable Iterator UserView VersionEdit Options Version VersionGet.

Section Overlap.
Context {C : Comparator} {L : ComparatorLaws C}.
Notation IC := (InternalKeyComparator C).
Notation ucmp := (Compare (Comparator := C)).

(** The reference: some part of the file is in the range. *)
Definition overlaps (user_begin user_end : option bytes) (f : FilePtr) : bool :=
  negb (AfterFile C user_begin f || BeforeFile C user_end f).

Definition overlapping (user_begin user_end : option bytes) (files : list FilePtr) : list FilePtr :=
  List.filter (overlaps user_begin user_end) files.

(** The keys of a file are internal keys, in order. *)
Definition bounds_ok (f : FilePtr) : Prop :=
  exists es el, entry_ok es /\ entry_ok el /\ f_smallest f = entry_ikey es /\ f_largest f = entry_ikey el /\
    InternalKey_Compare C (f_smallest f) (f_largest f) <> Gt.

Lemma file_ok_bounds contents f : file_ok (C := C) contents f -> bounds_ok f.
Proof.
  intros Hf. destruct (fo_smallest _ _ Hf) as (es & Es & E1). destruct (largest_elem contents f Hf) as (el & Hel & E2 & Ho).
  exists es, el. split; [eapply file_entry_ok; [exact Hf|by eapply list_elem_of_lookup_2]|]. do 3 (split; [done|]).
  rewrite E2. by apply (file_bounds contents).
Qed.

(** *** The binary search *)

Lemma AfterFile_ikey k f :
  bounds_ok f -> AfterFile C (Some k) f = true <->
  InternalKey_Compare C (f_largest f) (InternalKey k kMaxSequenceNumber kValueTypeForSeek) = Lt.
Proof.
  intros (es & el & _ & [Hel _] & _ & El & _). unfold AfterFile, f_largest_user. rewrite bool_decide_eq_true, El.
  unfold entry_ikey. rewrite ExtractUserKey_InternalKey, InternalKey_Compare_encoded by (done || by vm_compute).
  rewrite (Compare_antisym (e_user_key el)). destruct (ucmp (e_user_key el) k); cbn [CompOpp]; [|done..].
  split; [done|]. destruct (Z.compare_spec kMaxSequenceNumber (e_seq el)); [|lia|done].
  pose proof (ValueType_code_range (e_type el)). change (ValueType_code kValueTypeForSeek) with 1.
  destruct (Z.compare_spec 1 (ValueType_code (e_type el))); done || lia.
Qed.

Lemma sorted_BeforeFile files i j f f' k :
  (forall f, f ∈ files -> bounds_ok f) -> files_sorted (C := C) files ->
  files !! i = Some f -> files !! j = Some f' -> (i <= j)%nat -> BeforeFile C k f = true -> BeforeFile C k f' = true.
Proof.
  intros Hok Hs Hi Hj Hij. destruct (decide (i = j)) as [->|Hne]; [by simplify_eq|].
  unfold BeforeFile. destruct k as [k|]; [|done]. rewrite !bool_decide_eq_true. intros Hlt.
  destruct (Hok f ltac:(by eapply list_elem_of_lookup_2)) as (_ & _ & _ & _ & _ & _ & Hf).
  apply ikey_le_user in Hf. pose proof (Hs i j f f' Hi Hj ltac:(lia)) as Hff.
  eapply Compare_lt_le_trans; [eapply Compare_lt_le_trans; [exact Hlt|exact Hf]|].
  apply ikey_le_user. by rewrite Hff.
Qed.

Lemma overlap_all_before files b e :
  (forall f, f ∈ files -> overlaps b e f = false) -> existsb (overlaps b e) files = false.
Proof.
  intros H. apply not_true_is_false. intros (f & Hf%list_elem_of_In & Ho)%existsb_exists. by rewrite (H f Hf) in Ho.
Qed.

Lemma SomeFileOverlapsRange_spec disjoint files b e :
  (disjoint = true -> (forall f, f ∈ files -> bounds_ok f) /\ files_sorted (C := C) files) ->
  SomeFileOverlapsRange C disjoint files b e = Some (existsb (overlaps b e) files).
Proof.
  intros Hd. unfold SomeFileOverlapsRange. destruct disjoint; [|done]. destruct (Hd eq_refl) as [Hok Hs]. cbn [negb].
  assert (exists i, (match b with
      | Some k => FindFile C files (InternalKey k kMaxSequenceNumber kValueTypeForSeek)
      | None => Some 0%nat end) = Some i /\
      (forall j f, files !! j = Some f -> AfterFile C b f = true <-> (j < i)%nat)) as (i & -> & Hi).
  { destruct b as [k|]; [|exists 0%nat; split; [done|]; intros j f _; split; [done|lia]].
    set (ik := InternalKey k kMaxSequenceNumber kValueTypeForSeek).
    assert (Hks : kvs_sorted IC (level_kvs files)).
    { apply kvs_sorted_of_lookup. intros i j x y Hi Hj Hij. unfold level_kvs in *. rewrite list_lookup_fmap in Hi, Hj.
      destruct (files !! i) as [f|] eqn:Ei; [|done]. destruct (files !! j) as [f'|] eqn:Ej; [|done].
      injection Hi as <-. injection Hj as <-. unfold kv_lt. cbn [fst].
      destruct (Hok f' ltac:(by eapply list_elem_of_lookup_2)) as (_ & _ & _ & _ & _ & _ & Hf').
      eapply (Compare_lt_le_trans (C := IC)); [by apply (Hs i j f f')|exact Hf']. }
    exists (lower_bound IC ik (level_kvs files)). split; [by apply FindFile_spec|].
    intros j f Hj. rewrite AfterFile_ikey by (apply Hok; by eapply list_elem_of_lookup_2).
    by apply (lower_bound_spec (C := IC) ik _ _ _ _ Hks (level_kvs_lookup _ _ _ Hj)). }
  cbn [mbind option_bind]. destruct (files !! i) as [f|] eqn:Ef; f_equal; symmetry.
  - pose proof (Hi i f Ef) as Hnot. assert (Haf : AfterFile C b f = false) by (apply not_true_is_false; rewrite Hnot; lia).
    destruct (BeforeFile C e f) eqn:Eb; cbn [negb].
    + apply overlap_all_before. intros g [j Hj]%list_elem_of_lookup. unfold overlaps.
      destruct (Nat.lt_ge_cases j i) as [Hlt|Hge]; [by rewrite (proj2 (Hi j g Hj) Hlt)|].
      by rewrite (sorted_BeforeFile files i j f g e Hok Hs Ef Hj Hge Eb), orb_true_r.
    + apply existsb_exists. exists f. split; [by eapply list_elem_of_In, list_elem_of_lookup_2|].
      unfold overlaps. by rewrite Haf, Eb.
  - apply overlap_all_before. intros g [j Hj]%list_elem_of_lookup. unfold overlaps.
    apply lookup_ge_None in Ef. rewrite (proj2 (Hi j g Hj)); [done|]. apply lookup_lt_Some in Hj. lia.
Qed.

(** *** The restarting search *)

(** A wider bound. *)
Definition begin_le (b' b : option bytes) : Prop :=
  match b', b with Some x, Some y => ucmp x y <> Gt | None, None => True | _, _ => False end.
Definition end_le (e e' : option bytes) : Prop :=
  match e, e' with Some x, Some y => ucmp x y <> Gt | None, None => True | _, _ => False end.

Lemma begin_le_refl b : begin_le b b.
Proof. destruct b; cbn; [by rewrite Compare_refl|done]. Qed.
Lemma end_le_refl b : end_le b b.
Proof. destruct b; cbn; [by rewrite Compare_refl|done]. Qed.
Lemma begin_le_trans a b c : begin_le a b -> begin_le b c -> begin_le a c.
Proof. destruct a, b, c; cbn; try done. apply Compare_le_trans. Qed.
Lemma end_le_trans a b c : end_le a b -> end_le b c -> end_le a c.
Proof. destruct a, b, c; cbn; try done. apply Compare_le_trans. Qed.

(** A wider range overlaps more. *)
Lemma overlaps_mono b b' e e' f : begin_le b' b -> end_le e e' -> overlaps b e f = true -> overlaps b' e' f = true.
Proof.
  unfold overlaps. rewrite !negb_true_iff, !orb_false_iff. intros Hb He [H1 H2]. split.
  - destruct b' as [x|], b as [y|]; cbn in *; try done. rewrite bool_decide_eq_false in H1 |- *.
    intros Hgt. apply Hb. apply Compare_gt_lt. eapply Compare_le_lt_trans; [|by apply Compare_gt_lt].
    by apply Compare_ngt_le, Compare_nlt_le.
  - destruct e as [x|], e' as [y|]; cbn in *; try done. rewrite bool_decide_eq_false in H2 |- *.
    intros Hlt. apply H2. by eapply Compare_le_lt_trans.
Qed.

Lemma before_range b f : file_is C f_largest_user Lt b f = AfterFile C b f.
Proof. destruct b as [k|]; [|done]. cbn. apply bool_decide_ext. symmetry. apply Compare_gt_lt. Qed.
Lemma after_range e f : file_is C f_smallest_user Gt e f = BeforeFile C e f.
Proof. destruct e as [k|]; [|done]. cbn. apply bool_decide_ext. symmetry. apply Compare_lt_gt. Qed.

Notation starts_before := (file_is C f_smallest_user Lt).
Notation ends_after := (file_is C f_largest_user Gt).

(** How many files reach beyond the bounds: what a restart decreases. *)
Definition beyond (files : list FilePtr) (b e : option bytes) : nat :=
  (length (List.filter (starts_before b) files) + length (List.filter (ends_after e) files))%nat.

Lemma filter_length_mono {A} (p q : A -> bool) l :
  (forall x, p x = true -> q x = true) -> (length (List.filter p l) <= length (List.filter q l))%nat.
Proof.
  intros H. induction l as [|x l IH]; [done|]. cbn. destruct (p x) eqn:Ep; [rewrite (H x Ep); cbn; lia|].
  destruct (q x); cbn; lia.
Qed.

Lemma filter_length_lt {A} (p q : A -> bool) l x :
  (forall x, p x = true -> q x = true) -> x ∈ l -> p x = false -> q x = true ->
  (length (List.filter p l) < length (List.filter q l))%nat.
Proof.
  intros H Hx Hp Hq. apply list_elem_of_split in Hx as (l1 & l2 & ->). rewrite !List.filter_app, !length_app. cbn.
  rewrite Hp, Hq. cbn. pose proof (filter_length_mono p q l1 H). pose proof (filter_length_mono p q l2 H). lia.
Qed.

(** What a pass leads to. *)
Lemma overlapping_pass_spec level0 all files b e inputs :
  (forall f, f ∈ files -> f ∈ all) ->
  match overlapping_pass C level0 files b e inputs with
  | inl res => res = inputs ++ overlapping b e files /\
      (level0 = true -> forall f, f ∈ overlapping b e files -> starts_before b f = false /\ ends_after e f = false)
  | inr (b', e') => level0 = true /\ begin_le b' b /\ end_le e e' /\ (beyond all b' e' < beyond all b e)%nat /\
      exists f, f ∈ all /\ overlaps b e f = true /\ ((b' = Some (f_smallest_user f) /\ e' = e) \/ (b' = b /\ e' = Some (f_largest_user f)))
  end.
Proof.
  revert inputs. induction files as [|f files IH]; intros inputs Hin; cbn [overlapping_pass].
  { unfold overlapping. cbn. rewrite app_nil_r. split; [done|]. by intros _ f ?%elem_of_nil. }
  assert (Hin' : forall g, g ∈ files -> g ∈ all) by (intros g Hg; apply Hin; by right).
  specialize (IH inputs Hin') as IH0. specialize (IH (inputs ++ [f]) Hin').
  assert (Ho : overlapping b e (f :: files) =
    if AfterFile C b f || BeforeFile C e f then overlapping b e files else f :: overlapping b e files).
  { unfold overlapping. cbn [List.filter]. unfold overlaps at 1. by destruct (AfterFile C b f || BeforeFile C e f). }
  rewrite Ho, before_range, after_range. destruct (AfterFile C b f) eqn:Ea; [exact IH0|].
  destruct (BeforeFile C e f) eqn:Eb; [exact IH0|]. cbn [orb].
  assert (Hov : overlaps b e f = true) by (unfold overlaps; by rewrite Ea, Eb).
  destruct (level0 && starts_before b f) eqn:E1; [|destruct (level0 && ends_after e f) eqn:E2].
  - apply andb_prop in E1 as [-> E1]. destruct b as [k|]; [|done]. cbn in E1. pose proof E1 as Hk%bool_decide_eq_true.
    split; [done|]. split; [cbn; by rewrite Hk|]. split; [apply end_le_refl|].
    split; [|exists f; split; [apply Hin; by left|]; split; [done|by left]]. unfold beyond.
    apply Nat.add_lt_mono_r. apply (filter_length_lt _ _ _ f); [|apply Hin; by left|cbn; by rewrite Compare_refl|exact E1].
    intros g Hg. cbn in *. rewrite bool_decide_eq_true in Hg |- *. by eapply Compare_lt_trans.
  - apply andb_prop in E2 as [-> E2]. destruct e as [k|]; [|done]. cbn in E2. pose proof E2 as Hk%bool_decide_eq_true.
    apply Compare_gt_lt in Hk. split; [done|]. split; [apply begin_le_refl|]. split; [cbn; by rewrite Hk|].
    split; [|exists f; split; [apply Hin; by left|]; split; [done|by right]]. unfold beyond.
    apply Nat.add_lt_mono_l. apply (filter_length_lt _ _ _ f); [|apply Hin; by left|cbn; by rewrite Compare_refl|exact E2].
    intros g Hg. cbn in *. rewrite bool_decide_eq_true in Hg |- *. apply Compare_gt_lt. apply Compare_gt_lt in Hg.
    by eapply Compare_lt_trans.
  - destruct (overlapping_pass C level0 files b e (inputs ++ [f])) as [res|[b' e']]; [|done].
    destruct IH as [-> Hc]. split; [by rewrite <- app_assoc|]. intros -> g [->|Hg]%elem_of_cons; [by split|by apply Hc].
Qed.

Definition ends_before (e : option bytes) (s : bytes) : Prop := match e with Some k => ucmp k s = Lt | None => False end.
Definition begins_after (b : option bytes) (l : bytes) : Prop := match b with Some k => ucmp l k = Lt | None => False end.

(** A range that overlaps no file found lies outside the range of the search if it did at first. *)
Definition no_jump (files : list FilePtr) (b e b' e' : option bytes) : Prop :=
  forall s l, ucmp s l <> Gt -> (forall g, g ∈ overlapping b' e' files -> overlaps (Some s) (Some l) g = false) ->
    (ends_before e s -> ends_before e' s) /\ (begins_after b l -> begins_after b' l).

Lemma no_jump_step files b e b1 e1 b' e' f :
  begin_le b' b1 -> end_le e1 e' -> begin_le b1 b -> end_le e e1 -> f ∈ files -> overlaps b e f = true ->
  (b1 = Some (f_smallest_user f) /\ e1 = e) \/ (b1 = b /\ e1 = Some (f_largest_user f)) -> no_jump files b1 e1 b' e' -> no_jump files b e b' e'.
Proof.
  intros Hb' He' Hb1 He1 Hf Ho Hstep Hj s l Hsl Hno. destruct (Hj s l Hsl Hno) as [J1 J2].
  assert (Hof : overlaps (Some s) (Some l) f = false).
  { apply Hno, list_elem_of_In, List.filter_In. split; [by apply list_elem_of_In|]. apply (overlaps_mono b b' e e'); [by eapply begin_le_trans|by eapply end_le_trans|done]. }
  unfold overlaps, AfterFile, BeforeFile in Hof, Ho. apply negb_false_iff, orb_true_iff in Hof. apply negb_true_iff, orb_false_iff in Ho as [O1 O2].
  rewrite !bool_decide_eq_true in Hof. destruct Hstep as [[-> ->]|[-> ->]]; split; intros Hx; [by apply J1|apply J2|apply J1|by apply J2].
  - destruct b as [k|]; [|done]. cbn in *. rewrite bool_decide_eq_false in O1. destruct Hof as [Hof|Hof]; [|done]. exfalso. apply O1.
    apply Compare_lt_gt. apply Compare_lt_gt in Hof. eapply Compare_lt_trans; [exact Hof|]. by eapply Compare_le_lt_trans.
  - destruct e as [k|]; [|done]. cbn in *. rewrite bool_decide_eq_false in O2. destruct Hof as [Hof|Hof]; [by apply Compare_lt_gt|]. exfalso. apply O2.
    eapply Compare_lt_trans; [exact Hx|]. by eapply Compare_le_lt_trans.
Qed.

(** The search ends: what it finds is all that overlaps a range that includes
    the one asked for, and in level 0 nothing found reaches out of it. *)
Lemma overlapping_loop_spec fuel level0 files b e :
  (beyond files b e < fuel)%nat ->
  exists b' e', overlapping_loop C fuel level0 files b e = Some (overlapping b' e' files) /\
    begin_le b' b /\ end_le e e' /\ no_jump files b e b' e' /\
    (if level0 then forall f, f ∈ overlapping b' e' files -> starts_before b' f = false /\ ends_after e' f = false
     else b' = b /\ e' = e).
Proof.
  revert b e. induction fuel as [|fuel IH]; intros b e Hf; [lia|]. cbn [overlapping_loop].
  pose proof (overlapping_pass_spec level0 files files b e [] (fun f H => H)) as Hp.
  destruct (overlapping_pass C level0 files b e []) as [res|[b1 e1]].
  - destruct Hp as [-> Hc]. exists b, e. split; [done|]. split; [apply begin_le_refl|]. split; [apply end_le_refl|].
    split; [by intros s l _ _|]. destruct level0; [by apply Hc|done].
  - destruct Hp as (-> & Hb & He & Hlt & f & Hin & Ho & Hstep). destruct (IH b1 e1 ltac:(lia)) as (b' & e' & -> & Hb' & He' & Hj & Hc).
    exists b', e'. split; [done|]. split; [by eapply begin_le_trans|]. split; [by eapply end_le_trans|]. split; [|done].
    by apply (no_jump_step files b e b1 e1 b' e' f).
Qed.

Lemma beyond_le files b e : (beyond files b e <= 2 * length files)%nat.
Proof.
  unfold beyond. assert (H : forall p : FilePtr -> bool, (length (List.filter p files) <= length files)%nat).
  { intros p. induction files as [|f fs IH]; [done|]. cbn. destruct (p f); cbn; lia. }
  pose proof (H (starts_before b)). pose proof (H (ends_after e)). lia.
Qed.

Lemma GetOverlappingInputs_spec v level b e :
  exists b' e', GetOverlappingInputs C v level b e = Some (overlapping b' e' (level_files v level)) /\
    begin_le b' (ExtractUserKey <$> b) /\ end_le (ExtractUserKey <$> e) e' /\
    no_jump (level_files v level) (ExtractUserKey <$> b) (ExtractUserKey <$> e) b' e' /\
    (if (level =? 0)%nat
     then forall f, f ∈ overlapping b' e' (level_files v level) -> starts_before b' f = false /\ ends_after e' f = false
     else b' = ExtractUserKey <$> b /\ e' = ExtractUserKey <$> e).
Proof.
  apply overlapping_loop_spec. pose proof (beyond_le (level_files v level) (ExtractUserKey <$> b) (ExtractUserKey <$> e)). lia.
Qed.

(** Two files share part of the key space. *)
Definition files_overlap (f g : FilePtr) : Prop :=
  ucmp (f_smallest_user f) (f_largest_user g) <> Gt /\ ucmp (f_smallest_user g) (f_largest_user f) <> Gt.

Lemma inputs_closed b e files f g :
  (forall f, f ∈ overlapping b e files -> starts_before b f = false /\ ends_after e f = false) ->
  f ∈ overlapping b e files -> g ∈ files -> files_overlap f g -> g ∈ overlapping b e files.
Proof.
  intros Hc Hf Hg [H1 H2]. destruct (Hc f Hf) as [Hs He]. apply list_elem_of_In, List.filter_In.
  split; [by apply list_elem_of_In|]. unfold overlaps. rewrite negb_true_iff, orb_false_iff. split.
  - destruct b as [k|]; [|done]. cbn in *. rewrite bool_decide_eq_false in Hs |- *. intros Hk. apply Hs.
    apply Compare_gt_lt in Hk. by eapply Compare_le_lt_trans.
  - destruct e as [k|]; [|done]. cbn in *. rewrite bool_decide_eq_false in He |- *. intros Hk. apply He.
    apply Compare_gt_lt. by eapply Compare_lt_le_trans.
Qed.

(** *** The level for a new table *)

Definition levels_ok (v : Version) : Prop :=
  forall level, (1 <= level)%nat ->
    (forall f, f ∈ level_files v level -> bounds_ok f) /\ files_sorted (C := C) (level_files v level).

Lemma OverlapInLevel_spec v level b e :
  levels_ok v -> OverlapInLevel C v level b e = Some (existsb (overlaps b e) (level_files v level)).
Proof.
  intros Hv. unfold OverlapInLevel. apply SomeFileOverlapsRange_spec. intros Hl%Nat.ltb_lt. apply Hv. lia.
Qed.

(** The decision tree of the comment above [PickLevelForMemTableOutput]. *)
Definition pick_level_tree (options : Options) (v : Version) (small large : bytes) : nat :=
  let overlap level := existsb (overlaps (Some small) (Some large)) (level_files v level) in
  let bytes_over level :=
    MaxGrandParentOverlapBytes options <? TotalFileSize (overlapping (Some small) (Some large) (level_files v level)) in
  if overlap 0%nat then 0%nat
  else if overlap 1%nat then 0%nat
  else if overlap 2%nat then (if bytes_over 2%nat then 0%nat else 1%nat)
  else if bytes_over 3%nat then 1%nat else 2%nat.

Lemma no_overlap_empty b e files : existsb (overlaps b e) files = false -> overlapping b e files = [].
Proof.
  intros H. induction files as [|f fs IH]; [done|]. cbn in *. apply orb_false_elim in H as [H1 H2].
  unfold overlapping in *. cbn. by rewrite H1, IH.
Qed.

Lemma GetOverlappingInputs_sorted v level small large :
  (1 <= level)%nat ->
  GetOverlappingInputs C v level (Some (InternalKey small kMaxSequenceNumber kValueTypeForSeek)) (Some (InternalKey large 0 kTypeDeletion))
  = Some (overlapping (Some small) (Some large) (level_files v level)).
Proof.
  intros Hl. destruct (GetOverlappingInputs_spec v level (Some (InternalKey small kMaxSequenceNumber kValueTypeForSeek))
    (Some (InternalKey large 0 kTypeDeletion))) as (b' & e' & -> & _ & _ & _ & H).
  destruct (Nat.eqb_spec level 0); [lia|]. destruct H as [-> ->]. cbn [fmap option_fmap option_map].
  by rewrite !ExtractUserKey_InternalKey.
Qed.

Lemma PickLevel_spec options v small large :
  levels_ok v -> 0 <= MaxGrandParentOverlapBytes options ->
  PickLevelForMemTableOutput C options v small large = Some (pick_level_tree options v small large).
Proof.
  intros Hv Hm. unfold PickLevelForMemTableOutput, pick_level_tree. rewrite OverlapInLevel_spec by done.
  cbn [mbind option_bind]. destruct (existsb _ (level_files v 0)); [done|].
  change kMaxMemCompactLevel with 2%nat. cbn [pick_level_loop]. rewrite !OverlapInLevel_spec by done.
  cbn [mbind option_bind Nat.add]. destruct (existsb _ (level_files v 1)); [done|].
  change (2 <? kNumLevels)%nat with true. change (3 <? kNumLevels)%nat with true. cbv iota.
  rewrite !GetOverlappingInputs_sorted by lia. cbn [mbind option_bind].
  destruct (existsb _ (level_files v 2)) eqn:E2.
  - by destruct (_ <? _).
  - rewrite (no_overlap_empty _ _ _ E2). change (TotalFileSize []) with 0.
    destruct (Z.ltb_spec (MaxGrandParentOverlapBytes options) 0); [lia|]. by destruct (_ <? _).
Qed.

Lemma pick_level_tree_safe options v small large level :
  (0 < pick_level_tree options v small large)%nat -> (level <= pick_level_tree options v small large)%nat ->
  existsb (overlaps (Some small) (Some large)) (level_files v level) = false.
Proof.
  unfold pick_level_tree. destruct (existsb _ (level_files v 0)) eqn:E0; [lia|]. destruct (existsb _ (level_files v 1)) eqn:E1; [lia|].
  destruct (existsb _ (level_files v 2)) eqn:E2.
  - destruct (_ <? _); intros H1 H2; [lia|]. destruct level as [|[|level]]; [done|done|lia].
  - destruct (_ <? _); intros H1 H2; destruct level as [|[|[|level]]]; done || lia.
Qed.
End Overlap.

(** ** Properties *)

(** C33: the restarting search for overlapping files ends on every version and
    range; in a sorted level it finds exactly the files that overlap the
    range, and in level 0, where files overlap each other, it finds all files
    that overlap the range or, directly or not, a file found. *)
Theorem get_overlapping_inputs_closed (C : Comparator) (L : ComparatorLaws C) (v : Version) (level : nat) (b e : option bytes) :
  exists inputs, GetOverlappingInputs C v level b e = Some inputs /\
    (forall f, f ∈ inputs -> f ∈ level_files v level) /\
    (forall f, f ∈ level_files v level -> overlaps (C := C) (ExtractUserKey <$> b) (ExtractUserKey <$> e) f = true -> f ∈ inputs) /\
    ((1 <= level)%nat -> inputs = overlapping (C := C) (ExtractUserKey <$> b) (ExtractUserKey <$> e) (level_files v level)) /\
    (level = 0%nat -> forall f g, f ∈ inputs -> g ∈ level_files v level -> files_overlap (C := C) f g -> g ∈ inputs).
Proof.
  destruct (GetOverlappingInputs_spec v level b e) as (b' & e' & E & Hb & He & _ & H). eexists. split; [exact E|].
  assert (Hin : forall f, f ∈ overlapping (C := C) b' e' (level_files v level) <->
    f ∈ level_files v level /\ overlaps (C := C) b' e' f = true) by (intros f; rewrite !list_elem_of_In; apply List.filter_In).
  split; [by intros f [? _]%Hin|]. split.
  - intros f Hf Ho. apply Hin. split; [done|]. by eapply overlaps_mono.
  - split.
    + intros Hl. destruct (Nat.eqb_spec level 0); [lia|]. by destruct H as [-> ->].
    + intros ->. cbn in H. intros f g. by apply inputs_closed.
Qed.

Lemma get_overlapping_inputs_closed_witness :
  GetOverlappingInputs BytewiseComparator example_version 1 (Some (entry_ikey (mkEntry (cstr "b") 9 kTypeValue []))) None
    = Some (level_files example_version 1) /\
  forall f, f ∈ level_files example_version 1 ->
    overlaps (C := BytewiseComparator) (Some (cstr "b")) None f = true -> f ∈ level_files example_version 1.
Proof.
  destruct (get_overlapping_inputs_closed BytewiseComparator _ example_version 1
    (Some (entry_ikey (mkEntry (cstr "b") 9 kTypeValue []))) None) as (inputs & E & _ & H & _).
  assert (E' : inputs = level_files example_version 1).
  { vm_compute in E |- *. by injection E as <-. }
  rewrite E' in E, H. split; [exact E|exact H].
Defined.

(** The level chosen for a memtable's table is the one of the decision tree
    its comment gives, and a level other than 0 is chosen only when no file
    of that level or above overlaps the table. *)
Theorem pick_level_decision_tree (C : Comparator) (L : ComparatorLaws C) (options : Options) (v : Version) (small large : bytes)
    (Hv : levels_ok (C := C) v) (Hm : 0 <= max_file_size options <= 2 ^ 30) :
  let level := pick_level_tree (C := C) options v small large in
  PickLevelForMemTableOutput C options v small large = Some level /\ (level <= 2)%nat /\
  forall i, (0 < level)%nat -> (i <= level)%nat ->
    existsb (overlaps (C := C) (Some small) (Some large)) (level_files v i) = false.
Proof.
  split; [|split].
  - apply PickLevel_spec; [done|]. unfold MaxGrandParentOverlapBytes, TargetFileSize, s64. rewrite (u64_small (10 * _)) by lia.
    rewrite u64_small by lia. destruct (Z.ltb_spec (10 * max_file_size options) (2 ^ 63)); lia.
  - unfold pick_level_tree. repeat case_match; lia.
  - intros i H1 H2. by apply (pick_level_tree_safe options v small large i).
Qed.

Lemma example_levels_ok : levels_ok (C := BytewiseComparator) example_version.
Proof.
  intros level Hl. split; [|by apply (vo_sorted _ _ example_version_ok)].
  intros f Hf. by eapply file_ok_bounds, (vo_files _ _ example_version_ok).
Qed.

Lemma pick_level_decision_tree_witness :
  PickLevelForMemTableOutput BytewiseComparator Options_default example_version (cstr "c") (cstr "d") = Some 2%nat /\
  PickLevelForMemTableOutput BytewiseComparator Options_default example_version (cstr "b") (cstr "d") = Some 0%nat.
Proof.
  split; (refine (eq_trans (proj1 (pick_level_decision_tree BytewiseComparator BytewiseComparator_laws Options_default
    example_version _ _ example_levels_ok _)) _); [split; discriminate|vm_compute; reflexivity]).
Defined.
