(* ===== verification/InternalTable.v ===== *)
(** * Tables of internal keys

    The tables of a database: Table.v over internal keys, with the internal
    comparator and the wrapped filter policy.  A lookup key finds the newest
    visible entry of its user key, although an index key or a filter may end a
    lookup early. *)

From Stdlib Require Import Sorted.
From stdpp Require Import sorting.
From S2P Require Import Prelude Coding Comparator Crc32c Bloom Status Iterator BlockBuilder Block Format FilterBlock.
From S2P Require Import IteratorWrapper TwoLevelIterator Options TableBuilder Table DbFormat MemTable UserView Version VersionGet.

#[export] Instance InternalKeyComparator_short C : ShortComparator (InternalKeyComparator C).
Proof.
  assert (H : forall tmp k : bytes, zlen tmp < zlen (ExtractUserKey k) ->
    zlen (PutFixed64 tmp (PackSequenceAndType kMaxSequenceNumber kValueTypeForSeek)) <= zlen k).
  { intros tmp k. unfold ExtractUserKey, PutFixed64. rewrite zlen_app. unfold zlen. rewrite length_take, EncodeFixed64_len. lia. }
  split; cbn; intros.
  - unfold InternalKey_FindShortestSeparator. destruct (Z.ltb_spec (zlen (FindShortestSeparator (ExtractUserKey s) (ExtractUserKey l)))
      (zlen (ExtractUserKey s))); [|done]. cbn [andb]. case (Compare _ _); [done| |done]. by apply H.
  - unfold InternalKey_FindShortSuccessor. destruct (Z.ltb_spec (zlen (FindShortSuccessor (ExtractUserKey k)))
      (zlen (ExtractUserKey k))); [|done]. cbn [andb]. case (Compare _ _); [done| |done]. by apply H.
Qed.

Section InternalTable.
Context `{CS : Checksum} {F : Type} {R : RandomAccessFile F} {raf_contents : F -> bytes} {RL : RandomAccessFileLaws R raf_contents}.
Context {K : Type} {BC : BlockCache K} {bc_holds : K -> bytes -> Block -> Prop} {BL : BlockCacheLaws BC bc_holds}.
Context (Snappy Zstd : Compressor) {SL : CompressorLaws Snappy} {ZL : CompressorLaws Zstd}.
Context {U : Comparator} {UL : ComparatorLaws U} {o : Options} (Hcmp : comparator o = InternalKeyComparator U).
Context (Hfilter : forall name P, filter_policy o = Some (name, P) ->
  (exists P0, P = InternalFilterPolicy P0) /\ forall a b, Compare (Comparator := U) a b = Eq -> a = b).
Notation IC := (InternalKeyComparator U).
Notation ucmp := (Compare (Comparator := U)).

(** No index key lies between a lookup key and an entry it should find. *)
Lemma separator_gap u s e e' :
  entry_ok e -> entry_ok e' -> 0 <= s <= kMaxSequenceNumber ->
  visible (C := U) u s e -> InternalKey_Compare U (entry_ikey e') (InternalKey u s kValueTypeForSeek) = Lt ->
  InternalKey_Compare U (InternalKey u s kValueTypeForSeek) (InternalKey_FindShortestSeparator U (entry_ikey e') (entry_ikey e)) = Gt.
Proof.
  intros [He _] [He' _] Hs [Hk Hv] Hlt. unfold InternalKey_FindShortestSeparator.
  assert (Hlt' : InternalKey_Compare U (entry_ikey e') (entry_ikey e) = Lt).
  { eapply (Compare_lt_le_trans (C := IC)); [exact Hlt|]. apply lookup_key_position; [done..|]. by right. }
  unfold entry_ikey in *. rewrite !ExtractUserKey_InternalKey.
  set (tmp := FindShortestSeparator (Comparator := U) (e_user_key e') (e_user_key e)).
  destruct (ucmp (e_user_key e') tmp) eqn:Et; rewrite ?andb_false_r; [by apply (Compare_gt_lt (C := IC))| |by apply (Compare_gt_lt (C := IC))].
  destruct (zlen tmp <? zlen (e_user_key e')); cbn [andb]; [|by apply (Compare_gt_lt (C := IC))].
  rewrite InternalKey_Compare_encoded in Hlt' by done.
  assert (Hu : ucmp (e_user_key e') (e_user_key e) = Lt).
  { destruct (ucmp (e_user_key e') (e_user_key e)) eqn:Ec; [|done|done].
    pose proof (separator_eq _ _ Ec) as H. fold tmp in H. congruence. }
  pose proof (separator_lt _ _ Hu) as Htmp. fold tmp in Htmp.
  apply (Compare_gt_lt (C := IC)), InternalKey_Compare_lt. unfold PutFixed64. rewrite ExtractUserKey_app, ExtractUserKey_InternalKey.
  rewrite (Compare_eq_r (C := U) u (e_user_key e) tmp) by done. done.
Qed.

Section Opened.
Context {file : F} {blocks : list written} {footer : Footer} {off : Z} {es : list Entry}.
Context {L : ComparatorLaws (comparator o)} {SC : ShortComparator (comparator o)}.
Context (Hlay : table_layout Snappy Zstd o (raf_contents file) blocks footer off) (Hblocks : all_entries blocks = map entry_kv es).
Context (Hok : Forall entry_ok es) (Hsorted : entries_sorted U es).
Context (Hinterval : 1 <= block_restart_interval o).
Context (Hsize : entries_size (map entry_kv es) + 20 * zlen es < 2 ^ 32) (Hfile : zlen (raf_contents file) < 2 ^ 32).
Context (Hpolicy : forall name P, filter_policy o = Some (name, P) -> FilterPolicyLaws P /\ zlen name < 2 ^ 31).

Lemma table_get_answer t id opts cache u s :
  opened (o := o) (file := file) (blocks := blocks) (footer := footer) (off := off) id t ->
  cache_coherent (o := o) (bc_holds := bc_holds) (blocks := blocks) id cache ->
  0 <= s <= kMaxSequenceNumber ->
  exists res cache', InternalGet Snappy Zstd t opts cache (InternalKey u s kValueTypeForSeek) = Some (OK, res, cache') /\
    cache_coherent (o := o) (bc_holds := bc_holds) (blocks := blocks) id cache' /\ get_answer U u s es res.
Proof.
  intros Hop Hco Hs.
  assert (Hso : kvs_sorted (comparator o) (all_entries blocks)) by (rewrite Hcmp, Hblocks; exact Hsorted).
  assert (Hsz : entries_size (all_entries blocks) + 20 * zlen (all_entries blocks) < 2 ^ 32).
  { rewrite Hblocks. unfold zlen in *. by rewrite length_map. }
  destruct (InternalGet_spec (bc_holds := bc_holds) Snappy Zstd Hlay Hinterval Hso Hsz Hfile Hpolicy t id opts cache
    (InternalKey u s kValueTypeForSeek) Hop Hco) as (res & cache' & E & Hco' & Hres).
  exists res, cache'. split; [done|]. split; [done|].
  pose proof (sorted_get_answer (C := U) es u s Hok Hsorted Hs) as Hans. rewrite Hblocks, Hcmp in Hres.
  destruct res as [x|]; [by rewrite Hres in Hans|].
  destruct Hans as [(e & Hnew & Ee)|[Hno _]]; [|by right].
  exfalso. destruct Hnew as (Hin & Hv & _). pose proof (proj1 (Forall_forall _ _) Hok e Hin) as Heok.
  destruct (Hres _ Ee) as [(e' & Hin' & Hlt & Hsep)|(name & P & f & Ep & Hne)].
  - rewrite Hblocks in Hin'. apply list_elem_of_fmap in Hin' as (e0 & -> & Hin0).
    pose proof (proj1 (Forall_forall _ _) Hok e0 Hin0) as Heok0. rewrite Hcmp in Hlt, Hsep. cbn [entry_kv fst snd] in *.
    cbn [Compare FindShortestSeparator InternalKeyComparator] in Hlt, Hsep.
    rewrite (separator_gap u s e e0) in Hsep by done. done.
  - destruct (Hfilter name P Ep) as ((P0 & ->) & Hexact). apply Hne. cbn [InternalFilterPolicy KeyMayMatch entry_kv fst]. destruct Hv as [Hk _]. apply Hexact in Hk as ->.
    unfold entry_ikey. by rewrite !ExtractUserKey_InternalKey.
Qed.
End Opened.
End InternalTable.

(** ** Properties *)

(** C13: a table built from entries sorted by internal key and opened again
    answers every lookup key with the newest visible entry of its user key,
    and gives no entry of that key when none is visible - although the index
    keys between blocks are shortened and the filter sees user keys only. *)
Theorem internal_table_get {W F K : Type} (WF : WritableFile W) (wf_contents : W -> bytes) (WL : WritableFileLaws WF wf_contents)
    (R : RandomAccessFile F) (raf_contents : F -> bytes) (RL : RandomAccessFileLaws R raf_contents)
    (BC : BlockCache K) (bc_holds : K -> bytes -> Block -> Prop) (BL : BlockCacheLaws BC bc_holds)
    (Snappy Zstd : Compressor) (SL : CompressorLaws Snappy) (ZL : CompressorLaws Zstd)
    (U : Comparator) (UL : ComparatorLaws U) (o : Options) (w : W) (es : list Entry)
    (Hcmp : comparator o = InternalKeyComparator U)
    (Hfilter : forall name P, filter_policy o = Some (name, P) ->
       exists P0, P = InternalFilterPolicy P0 /\ FilterPolicyLaws P0 /\ zlen name < 2 ^ 31 /\
         forall a b, Compare (Comparator := U) a b = Eq -> a = b)
    (Hw : wf_contents w = []) (Hok : Forall entry_ok es) (Hsorted : entries_sorted U es) (Hi : 1 <= block_restart_interval o)
    (Hsize : entries_size (map entry_kv es) + 20 * zlen es < 2 ^ 32) :
  exists r r', add_entries Snappy Zstd (TableBuilder_new o w) (map entry_kv es) = Some r /\
    Finish Snappy Zstd r = Some (OK, r') /\
    forall file opts, raf_contents file = wf_contents (r_file r') -> FileSize r' < 2 ^ 32 ->
      exists t, Table_Open Snappy Zstd o (None : option K) file (FileSize r') = Some (inr t, None) /\
        forall u s, 0 <= s <= kMaxSequenceNumber ->
          exists res cache', InternalGet Snappy Zstd t opts (None : option K) (InternalKey u s kValueTypeForSeek)
              = Some (OK, res, cache') /\ get_answer U u s es res.
Proof.
  assert (L : ComparatorLaws (comparator o)) by (rewrite Hcmp; apply _).
  assert (SC : ShortComparator (comparator o)) by (rewrite Hcmp; apply _).
  assert (Hp : forall name P, filter_policy o = Some (name, P) -> FilterPolicyLaws P /\ zlen name < 2 ^ 31).
  { intros name P (P0 & -> & H & Hn & _)%Hfilter. split; [by apply InternalFilterPolicy_laws|done]. }
  assert (Hs : kvs_sorted (comparator o) (map entry_kv es)) by (rewrite Hcmp; exact Hsorted).
  destruct (build_table Snappy Zstd o w _ L Hw Hs) as (r & r' & blocks & footer & off & E & E' & Eb & Hlay & Hz & _).
  exists r, r'. do 2 (split; [done|]). intros file opts Hf Hlen. rewrite Hz in Hlen |- *. rewrite <- Hf in Hlay, Hlen |- *.
  destruct (Open_spec Snappy Zstd Hlay Hi Hlen Hp (None : option K)) as (t & Eo & Hop). exists t. split; [exact Eo|].
  intros u s Hseq. destruct (table_get_answer (bc_holds := bc_holds) Snappy Zstd Hcmp
    ltac:(intros name P (P0 & HP & _ & _ & He)%Hfilter; split; [by exists P0|exact He])
    Hlay Eb Hok Hsorted Hi Hsize Hlen Hp t _ opts None u s Hop I Hseq) as (res & cache' & Eg & _ & Hans).
  by exists res, cache'.
Qed.

Lemma internal_table_get_witness :
  let o := mkOptions (InternalKeyComparator BytewiseComparator) false false false 4194304 1000 4096 16 2097152 kSnappyCompression false
             (Some (cstr "bloom", InternalFilterPolicy (BloomFilterPolicy 10))) in
  exists r r', add_entries StoreCompressor StoreCompressor (TableBuilder_new o []) (map entry_kv (example_entries 3)) = Some r /\
    Finish StoreCompressor StoreCompressor r = Some (OK, r').
Proof.
  destruct (internal_table_get StringDest id StringDest_laws StringFile id StringFile_laws EmptyCache (fun _ _ _ => False) EmptyCache_laws
    StoreCompressor StoreCompressor StoreCompressor_laws StoreCompressor_laws BytewiseComparator BytewiseComparator_laws
    (mkOptions (InternalKeyComparator BytewiseComparator) false false false 4194304 1000 4096 16 2097152 kSnappyCompression false
      (Some (cstr "bloom", InternalFilterPolicy (BloomFilterPolicy 10)))) [] (example_entries 3) eq_refl)
    as (r & r' & H1 & H2 & _).
  - intros name P [= <- <-]. exists (BloomFilterPolicy 10). split; [reflexivity|].
    split; [apply BloomFilterPolicy_laws; split; [discriminate|reflexivity]|]. split; [reflexivity|]. intros a b. apply bytewise_Compare_eq.
  - reflexivity.
  - repeat constructor; vm_compute; discriminate || reflexivity.
  - repeat constructor; vm_compute; reflexivity.
  - discriminate.
  - reflexivity.
  - exists r, r'. split; [exact H1|exact H2].
Defined.
