(* ===== verification/TableCache.v ===== *)
(** * db/table_cache: the open tables

    Models src/db/table_cache.cc over any cache, any environment that opens
    random-access files, and the tables of Table.v.  A handle of the cache is
    held from [FindTable] until its release, and for an iterator until its
    cleanup.  The theorems say that a table of internal keys answers through the
    cache as it does when it is opened: this is what Version.v asks of a table
    cache.  The code uses the LRU cache of Cache.v here, which is specified on its
    own. *)

From Stdlib Require Import Sorted.
From stdpp Require Import sorting.
From S2P Require Import Prelude Coding Comparator Crc32c Bloom Status Iterator BlockBuilder Block Format FilterBlock.
From S2P Require Import IteratorWrapper TwoLevelIterator Options TableBuilder Table DbFormat MemTable UserView Filename.
From S2P Require Import Version VersionGet InternalTable.

(** [Env::NewRandomAccessFile]. *)
Class RandomAccessFiles (E F : Type) := {
  NewRandomAccessFile : bytes -> E -> Status + F;
}.

(** [DeleteEntry] is the only deleter. *)
Inductive TableDeleter := DeleteEntry.

(** ** The cache *)

(** The operations of [Cache] that the table cache uses; [None] is undefined
    behaviour, as the use of a handle that was released. *)
Class CacheOps (KC H V D : Type) := {
  c_Lookup : bytes -> KC -> option (option H * KC);
  c_Insert : bytes -> V -> Z -> D -> KC -> option (H * KC);
  c_Value : H -> KC -> option V;
  c_Release : H -> KC -> option KC;
  c_Erase : bytes -> KC -> option KC;
}.

(** [c_ok b P held c]: every value in the cache [c] was inserted under a key that
    has [P] with it, [held] are the handles that the client holds, and the cache
    serves [b] more operations (its counters are of fixed width).  The value of a
    handle that is held does not depend on the operations that follow. *)
Class CacheLaws {KC H V D} (CO : CacheOps KC H V D) (c_ok : nat -> (bytes -> V -> Prop) -> list H -> KC -> Prop) : Prop := {
  c_Lookup_ok : forall b P held c key, c_ok (S b) P held c -> zlen key < 2 ^ 31 ->
    exists r c', c_Lookup key c = Some (r, c') /\
      match r with
      | Some h => c_ok b P (h :: held) c' /\ exists v, c_Value h c' = Some v /\ P key v
      | None => c_ok b P held c'
      end;
  c_Insert_ok : forall b P held c key v n d, c_ok (S b) P held c -> P key v -> zlen key < 2 ^ 31 ->
    exists h c', c_Insert key v n d c = Some (h, c') /\ c_ok b P (h :: held) c' /\ c_Value h c' = Some v;
  c_Release_ok : forall b P h held c, c_ok (S b) P (h :: held) c -> exists c', c_Release h c = Some c' /\ c_ok b P held c';
  c_Erase_ok : forall b P held c key, c_ok (S b) P held c -> zlen key < 2 ^ 31 -> exists c', c_Erase key c = Some c' /\ c_ok b P held c';
  c_ok_weaken : forall b b' (P Q : bytes -> V -> Prop) held c, (b' <= b)%nat -> (forall k v, P k v -> Q k v) -> c_ok b P held c -> c_ok b' Q held c;
}.

(** ** [TableCache] *)

Section TableCache.
Context `{CS : Checksum} {E F KC H K : Type} {R : RandomAccessFile F} {RF : RandomAccessFiles E F}.
Context {CO : CacheOps KC H (Table F) TableDeleter} {BC : BlockCache K}.
Variables (Snappy Zstd : Compressor) (dbname_ : bytes) (options_ : Options).

(** The environment, the cache of tables, and the block cache in the options.
    [TableAndFile] is the table, which has its file. *)
Record TableCacheState := mkTC { tcs_env : E; cache_ : KC; tcs_blocks : option K }.

Definition with_cache (c : KC) (tc : TableCacheState) : TableCacheState := mkTC (tcs_env tc) c (tcs_blocks tc).
Definition with_blocks (b : option K) (tc : TableCacheState) : TableCacheState := mkTC (tcs_env tc) (cache_ tc) b.

Definition open_table_file (file_number : Z) (env : E) : Status + F :=
  match NewRandomAccessFile (TableFileName dbname_ file_number) env with
  | inr file => inr file
  | inl s =>
      match NewRandomAccessFile (SSTTableFileName dbname_ file_number) env with
      | inr file => inr file
      | inl _ => inl s
      end
  end.

(** The status, or the handle. *)
Definition FindTable (file_number file_size : Z) (tc : TableCacheState) : option ((Status + H) * TableCacheState) :=
  let key := EncodeFixed64 file_number in
  '(handle, cache) ← c_Lookup key (cache_ tc);
  let tc := with_cache cache tc in
  match handle with
  | Some h => Some (inr h, tc)
  | None =>
      match open_table_file file_number (tcs_env tc) with
      | inl s => Some (inl s, tc)
      | inr file =>
          '(r, blocks) ← Table_Open Snappy Zstd options_ (tcs_blocks tc) file file_size;
          let tc := with_blocks blocks tc in
          match r with
          | inl s => Some (inl s, tc)
          | inr table =>
              '(h, cache) ← c_Insert key table 1 DeleteEntry (cache_ tc);
              Some (inr h, with_cache cache tc)
          end
      end
  end.

(** The error of an error iterator, or an iterator over the table and the handle
    that its cleanup releases. *)
Definition TableCache_NewIterator (file_number file_size : Z) (tc : TableCacheState)
    : option ((Status + TwoLevelIterator BlockIterator BlockIterator (option K) * Table F * H) * TableCacheState) :=
  '(r, tc) ← FindTable file_number file_size tc;
  match r with
  | inl s => Some (inl s, tc)
  | inr handle =>
      table ← c_Value handle (cache_ tc);
      result ← Table_NewIterator table (tcs_blocks tc);
      Some (inr (result, table, handle), tc)
  end.

(** [UnrefEntry] *)
Definition UnrefEntry (h : H) (tc : TableCacheState) : option TableCacheState :=
  cache ← c_Release h (cache_ tc);
  Some (with_cache cache tc).

Definition TableCache_Get (tc : TableCacheState) (options : ReadOptions) (file_number file_size : Z) (k : bytes)
    : option (Status * option kv * TableCacheState) :=
  '(r, tc) ← FindTable file_number file_size tc;
  match r with
  | inl s => Some (s, None, tc)
  | inr handle =>
      t ← c_Value handle (cache_ tc);
      '(s, result, blocks) ← InternalGet Snappy Zstd t options (tcs_blocks tc) k;
      tc ← UnrefEntry handle (with_blocks blocks tc);
      Some (s, result, tc)
  end.

Definition Evict (file_number : Z) (tc : TableCacheState) : option TableCacheState :=
  cache ← c_Erase (EncodeFixed64 file_number) (cache_ tc);
  Some (with_cache cache tc).
End TableCache.

Arguments TableCacheState : clear implicits.

(** ** What a lookup leaves in the block cache *)

(** Clients of the block cache get the numbers 1, 2, ... from a 64-bit counter. *)
Class BlockCacheIds {K} (BC : BlockCache K) (bc_next : K -> Z) : Prop := {
  bc_NewId_next : forall c, 0 <= bc_next c < 2 ^ 64 - 1 -> (bc_NewId c).1 = bc_next c + 1 /\ bc_next (bc_NewId c).2 = bc_next c + 1;
  bc_Lookup_next : forall c k, bc_next (bc_Lookup c k).2 = bc_next c;
  bc_Insert_next : forall c k b n, bc_next (bc_Insert c k b n) = bc_next c;
}.

Lemma EncodeFixed64_inj x y a b : 0 <= x < 2 ^ 64 -> 0 <= y < 2 ^ 64 -> EncodeFixed64 x ++ a = EncodeFixed64 y ++ b -> x = y.
Proof. intros Hx Hy E. apply (f_equal DecodeFixed64) in E. rewrite !DecodeFixed64_encode in E. by rewrite !u64_small in E. Qed.

Section Frame.
Context `{CS : Checksum} {F : Type} {R : RandomAccessFile F} (Snappy Zstd : Compressor).
Context {K : Type} {BC : BlockCache K} {bc_holds : K -> bytes -> Block -> Prop} {BL : BlockCacheLaws BC bc_holds}.
Context {bc_next : K -> Z} {BI : BlockCacheIds BC bc_next}.

(** Only blocks of the table are new. *)
Definition only_from (id : Z) (c c' : K) : Prop :=
  bc_next c' = bc_next c /\ forall k b, bc_holds c' k b -> bc_holds c k b \/ exists y, k = EncodeFixed64 id ++ y.

Lemma only_from_refl id c : only_from id c c.
Proof. split; [done|]. by left. Qed.

Lemma only_from_trans id c1 c2 c3 : only_from id c1 c2 -> only_from id c2 c3 -> only_from id c1 c3.
Proof. intros [N1 H1] [N2 H2]. split; [congruence|]. intros k b [H|H]%H2; [by apply H1|by right]. Qed.

Lemma only_from_Lookup id c k : only_from id c (bc_Lookup c k).2.
Proof. split; [apply bc_Lookup_next|]. intros k' b H. left. by eapply bc_Lookup_keeps. Qed.

Lemma only_from_Insert id c y b n : only_from id c (bc_Insert c (EncodeFixed64 id ++ y) b n).
Proof. split; [apply bc_Insert_next|]. intros k' b' [[-> _]|[_ H]]%bc_Insert_holds; [right; by exists y|by left]. Qed.

Lemma BlockReader_frame (t : Table F) options c iv it cache' :
  BlockReader Snappy Zstd t options (Some c) iv = Some (it, cache') -> exists c', cache' = Some c' /\ only_from (t_cache_id t) c c'.
Proof.
  unfold BlockReader. destruct (BlockHandle_DecodeFrom _ iv) as [[s h] r]. destruct (negb (ok s)).
  { intros [= _ <-]. exists c. split; [done|apply only_from_refl]. }
  pose proof (only_from_Lookup (t_cache_id t) c (cache_key t h)) as Hl. destruct (bc_Lookup c (cache_key t h)) as [[b|] c1]; cbn [snd] in Hl.
  { intros [= _ <-]. by exists c1. }
  destruct (read_new_block _ _ t options h) as [[s'|[b cachable]]|]; cbn [mbind option_bind]; [| |done]; intros [= _ <-]; (eexists; split; [done|]).
  - done.
  - destruct (cachable && fill_cache options); [|done]. eapply only_from_trans; [exact Hl|apply only_from_Insert].
Qed.

Lemma InternalGet_frame (t : Table F) options c k s res cache' :
  InternalGet Snappy Zstd t options (Some c) k = Some (s, res, cache') -> exists c', cache' = Some c' /\ only_from (t_cache_id t) c c'.
Proof.
  assert (H0 : forall cache : option K, cache = Some c -> exists c', cache = Some c' /\ only_from (t_cache_id t) c c').
  { intros cache ->. exists c. split; [done|apply only_from_refl]. }
  unfold InternalGet. destruct (it_Seek _ k) as [iiter|]; [|done]. cbn [mbind option_bind].
  destruct (it_Valid iiter); [|intros [= _ _ <-]; by apply H0]. destruct (it_value iiter) as [hv|]; [|done]. cbn [mbind option_bind].
  destruct (BlockHandle_DecodeFrom _ hv) as [[hs h] rest]. match goal with |- (x ← ?m; _) = _ -> _ => destruct m as [[]|] end; cbn [mbind option_bind]; [| |done].
  { intros [= _ _ <-]. by apply H0. }
  destruct (BlockReader _ _ t options (Some c) hv) as [[it c1]|] eqn:Eb; [|done]. apply BlockReader_frame in Eb. cbn [mbind option_bind].
  destruct (it_Seek it k) as [it'|]; [|done]. cbn [mbind option_bind]. destruct (it_Valid it').
  - destruct (it_key it') as [k'|]; [|done]. cbn [mbind option_bind]. destruct (it_value it') as [v'|]; [|done]. cbn [mbind option_bind]. by intros [= _ _ <-].
  - cbn [mbind option_bind]. by intros [= _ _ <-].
Qed.
End Frame.

(** ** The tables of a database *)

(** What a file that the table builder wrote holds. *)
Record TableImage := mkImage { img_bytes : bytes; img_blocks : list written; img_footer : Footer; img_end : Z; img_entries : list Entry }.

Section Tables.
Context `{CS : Checksum} {E F KC H K : Type} {R : RandomAccessFile F} {RF : RandomAccessFiles E F}.
Context {raf_contents : F -> bytes} {RL : RandomAccessFileLaws R raf_contents}.
Context {CO : CacheOps KC H (Table F) TableDeleter} {c_ok : nat -> (bytes -> Table F -> Prop) -> list H -> KC -> Prop} {CL : CacheLaws CO c_ok}.
Context {BC : BlockCache K} {bc_holds : K -> bytes -> Block -> Prop} {BL : BlockCacheLaws BC bc_holds} {bc_next : K -> Z} {BI : BlockCacheIds BC bc_next}.
Context (Snappy Zstd : Compressor) {SL : CompressorLaws Snappy} {ZL : CompressorLaws Zstd}.
Context {U : Comparator} {UL : ComparatorLaws U} {o : Options} (dbname : bytes).
Context (Hcmp : comparator o = InternalKeyComparator U) (Hinterval : 1 <= block_restart_interval o).
Context (Hfilter : forall name P, filter_policy o = Some (name, P) ->
  exists P0, P = InternalFilterPolicy P0 /\ FilterPolicyLaws P0 /\ zlen name < 2 ^ 31 /\ forall a b, Compare (Comparator := U) a b = Eq -> a = b).
(** The tables that there are, by file number. *)
Variable sst : Z -> option TableImage.
Notation TC := (TableCacheState E KC K).
Implicit Types tc : TC.

Record image_ok (i : TableImage) : Prop := {
  im_layout : table_layout Snappy Zstd o (img_bytes i) (img_blocks i) (img_footer i) (img_end i);
  im_entries : all_entries (img_blocks i) = map entry_kv (img_entries i);
  im_ok : Forall entry_ok (img_entries i);
  im_sorted : entries_sorted U (img_entries i);
  im_size : entries_size (map entry_kv (img_entries i)) + 20 * zlen (img_entries i) < 2 ^ 32;
  im_file : zlen (img_bytes i) < 2 ^ 32;
}.

(** File [n] is a table of [es]. *)
Definition has_table tc (n size : Z) (es : list Entry) : Prop :=
  0 <= n < 2 ^ 64 /\ exists i f, sst n = Some i /\ image_ok i /\ img_entries i = es /\ size = zlen (img_bytes i) /\
    open_table_file dbname n (tcs_env tc) = inr f /\ raf_contents f = img_bytes i.

Definition opened_as (i : TableImage) (t : Table F) : Prop :=
  exists f, raf_contents f = img_bytes i /\
    opened (o := o) (file := f) (blocks := img_blocks i) (footer := img_footer i) (off := img_end i) (t_cache_id t) t.

(** [own id]: the table that was opened with the number [id]. *)
Definition right_table (own : Z -> option TableImage) (key : bytes) (t : Table F) : Prop :=
  forall n, 0 <= n < 2 ^ 64 -> key = EncodeFixed64 n ->
    exists i, sst n = Some i /\ image_ok i /\ own (t_cache_id t) = Some i /\ opened_as i t.

Record blocks_ok (own : Z -> option TableImage) (c : K) : Prop := {
  bo_next : 0 <= bc_next c;
  bo_own : forall id i, own id = Some i -> 0 < id <= bc_next c;
  bo_keys : forall k b, bc_holds c k b -> exists id y, k = EncodeFixed64 id ++ y /\ 0 < id <= bc_next c;
  bo_blocks : forall id i, own id = Some i -> cache_coherent (o := o) (bc_holds := bc_holds) (blocks := img_blocks i) id (Some c);
}.

(** The cache serves [b] more calls. *)
Definition cache_ready (b : nat) tc : Prop :=
  exists own held c, c_ok (3 * b) (right_table own) held (cache_ tc) /\ tcs_blocks tc = Some c /\ blocks_ok own c /\ bc_next c + Z.of_nat b < 2 ^ 64.

Lemma coherent_frame id id' c c' bs :
  only_from (bc_holds := bc_holds) (bc_next := bc_next) id c c' -> id' <> id -> 0 <= id < 2 ^ 64 -> 0 <= id' < 2 ^ 64 ->
  cache_coherent (o := o) (bc_holds := bc_holds) (blocks := bs) id' (Some c) -> cache_coherent (o := o) (bc_holds := bc_holds) (blocks := bs) id' (Some c').
Proof.
  intros [_ Hf] Hne Hid Hid' Hco kvs h b Hin Hb. apply Hf in Hb as [Hb|[y Ey]]; [by eapply Hco|].
  by apply EncodeFixed64_inj in Ey.
Qed.

Lemma blocks_ok_frame own id c c' i :
  only_from (bc_holds := bc_holds) (bc_next := bc_next) id c c' -> blocks_ok own c -> bc_next c < 2 ^ 64 -> own id = Some i ->
  cache_coherent (o := o) (bc_holds := bc_holds) (blocks := img_blocks i) id (Some c') -> blocks_ok own c'.
Proof.
  intros Hf [B1 B2 B3 B4] Hb Hi Hco. pose proof Hf as [En Hk]. split; rewrite ?En; [done|done| |].
  - intros k b [H1|[y ->]]%Hk; [by eapply B3|]. exists id, y. split; [done|by eapply B2].
  - intros id' i' Hi'. destruct (decide (id' = id)) as [->|Hne]; [by rewrite Hi in Hi'; injection Hi' as <-|].
    apply (coherent_frame id id' c c' _ Hf Hne); [apply B2 in Hi; lia|apply B2 in Hi'; lia|by apply B4].
Qed.

(** A new number for a table. *)
Lemma blocks_ok_new own c i :
  blocks_ok own c -> bc_next c + 1 < 2 ^ 64 ->
  own (bc_NewId c).1 = None /\
  blocks_ok (fun id => if decide (id = (bc_NewId c).1) then Some i else own id) (bc_NewId c).2 /\ bc_next (bc_NewId c).2 = bc_next c + 1.
Proof.
  intros [B1 B2 B3 B4] Hb. destruct (bc_NewId_next (bc_next := bc_next) c ltac:(lia)) as [E1 E2]. split; [|split; [|done]].
  { destruct (own _) as [i'|] eqn:Eo; [|done]. apply B2 in Eo. lia. }
  split; rewrite ?E2; [lia| | |].
  - intros id i'. case_decide; [intros _; lia|]. intros Hi%B2. lia.
  - intros k b Hk%bc_NewId_holds. apply B3 in Hk as (id & y & -> & Hid). exists id, y. split; [done|lia].
  - intros id i'. case_decide as Hid; intros Hi kvs h b Hin Hk%bc_NewId_holds.
    + apply B3 in Hk as (id' & y & Ek & Hid'). apply EncodeFixed64_inj in Ek; lia.
    + by eapply B4.
Qed.

Lemma image_instances i : image_ok i -> ComparatorLaws (comparator o) /\ ShortComparator (comparator o) /\
  (forall name P, filter_policy o = Some (name, P) -> FilterPolicyLaws P /\ zlen name < 2 ^ 31).
Proof.
  intros _. rewrite Hcmp. split; [apply _|]. split; [apply _|].
  intros name P (P0 & -> & HP & Hn & _)%Hfilter. split; [by apply InternalFilterPolicy_laws|done].
Qed.

(** *** A table is found *)

Record found (b : nat) (n : Z) tc (h : H) (t : Table F) (i : TableImage) own held c : Prop := {
  fo_value : c_Value h (cache_ tc) = Some t;
  fo_cache : c_ok (S (3 * b)) (right_table own) (h :: held) (cache_ tc);
  fo_blocks : tcs_blocks tc = Some c;
  fo_blocks_ok : blocks_ok own c;
  fo_ready : bc_next c + Z.of_nat b < 2 ^ 64;
  fo_image : sst n = Some i /\ image_ok i;
  fo_own : own (t_cache_id t) = Some i;
  fo_opened : opened_as i t;
}.

Lemma FindTable_spec b tc n size es :
  cache_ready (S b) tc -> has_table tc n size es ->
  exists h tc' t i own held c, FindTable Snappy Zstd dbname o n size tc = Some (inr h, tc') /\ tcs_env tc' = tcs_env tc /\
    found b n tc' h t i own held c /\ img_entries i = es.
Proof.
  intros (own & held & c & Hc & Hb & Hbo & Hn) (Hrange & i & f & Es & Hi & <- & -> & Eo & Ef).
  assert (Hkey : zlen (EncodeFixed64 n) < 2 ^ 31) by (unfold zlen; by rewrite EncodeFixed64_len).
  replace (3 * S b)%nat with (S (S (S (3 * b)))) in Hc by lia. unfold FindTable. destruct (c_Lookup_ok _ _ _ _ _ Hc Hkey) as (r & k' & -> & Hr). cbn [mbind option_bind]. destruct r as [h|].
  - destruct Hr as (Hc' & t & Hv & Hp). destruct (Hp n Hrange eq_refl) as (i' & Es' & Hi' & Hown & Hop). assert (i' = i) as -> by congruence.
    exists h, (with_cache k' tc), t, i, own, held, c. split; [done|]. split; [done|]. split; [|done].
    split; [done|eapply c_ok_weaken; [|by intros ? ? H1; exact H1|exact Hc']; lia|done|done|lia|done|done|done].
  - cbn [tcs_env with_cache]. rewrite Eo. destruct (image_instances i Hi) as (L & SC & Hp).
    destruct (Open_spec (o := o) (file := f) (blocks := img_blocks i) (footer := img_footer i) (off := img_end i) Snappy Zstd
      ltac:(rewrite Ef; apply (im_layout _ Hi)) Hinterval ltac:(rewrite Ef; apply (im_file _ Hi)) Hp (Some c)) as (t & Et & Hop).
    cbn [tcs_blocks with_cache]. rewrite Hb, <- Ef, Et. cbn [mbind option_bind new_id after_id].
    destruct (blocks_ok_new own c i Hbo ltac:(lia)) as (Hfresh & Hbo' & Hnext). set (own' := fun id => if decide (id = _) then _ else _) in Hbo'.
    cbn [new_id] in Hop. assert (Eid : t_cache_id t = (bc_NewId c).1) by by destruct Hop as (_ & _ & -> & _).
    assert (Hown : own' (t_cache_id t) = Some i) by (unfold own'; by rewrite Eid, decide_True).
    assert (Hopen : opened_as i t) by (exists f; by rewrite Eid).
    cbn [cache_ with_blocks with_cache].
    destruct (c_Insert_ok (S (3 * b)) (right_table own') held k' (EncodeFixed64 n) t 1 DeleteEntry) as (h & k'' & -> & Hc'' & Hv).
    { eapply c_ok_weaken; [reflexivity| |exact Hr]. intros k t' Hp' m Hm Ek. destruct (Hp' m Hm Ek) as (j & H1 & H2 & H3 & H4).
      exists j. do 2 (split; [done|]). split; [|done]. unfold own'. case_decide as Hd; [|done]. rewrite Hd in H3. congruence. }
    { intros m Hm Ek. rewrite <- (app_nil_r (EncodeFixed64 n)), <- (app_nil_r (EncodeFixed64 m)) in Ek. apply EncodeFixed64_inj in Ek as <-; [|done..]. by exists i. }
    { done. }
    cbn [mbind option_bind]. eexists h, _, t, i, own', held, (bc_NewId c).2. split; [done|]. split; [done|]. split; [|done].
    split; cbn; try done. lia.
Qed.

Lemma TableCache_Get_spec b tc n size es opts u s :
  cache_ready (S b) tc -> has_table tc n size es -> 0 <= s <= kMaxSequenceNumber ->
  exists res tc', TableCache_Get Snappy Zstd dbname o tc opts n size (InternalKey u s kValueTypeForSeek) = Some (OK, res, tc') /\
    cache_ready b tc' /\ tcs_env tc' = tcs_env tc /\ get_answer U u s es res.
Proof.
  intros Hready Ht Hs. destruct (FindTable_spec b tc n size es Hready Ht) as (h & tc1 & t & i & own & held & c & Ef & Eenv & Hf & <-).
  destruct Hf as [F1 F2 F3 F4 F5 [F6 Hi] F7 (f & Ei & Hop)]. unfold TableCache_Get. rewrite Ef. cbn [mbind option_bind]. rewrite F1, F3. cbn [mbind option_bind].
  destruct (image_instances i Hi) as (L & SC & Hp).
  assert (Hco : cache_coherent (o := o) (bc_holds := bc_holds) (blocks := img_blocks i) (t_cache_id t) (Some c)) by by apply (bo_blocks _ _ F4).
  destruct (table_get_answer (bc_holds := bc_holds) Snappy Zstd Hcmp
    ltac:(intros name P (P0 & HP & _ & _ & He)%Hfilter; split; [by exists P0|exact He])
    ltac:(rewrite Ei; exact (im_layout _ Hi)) (im_entries _ Hi) (im_ok _ Hi) (im_sorted _ Hi) Hinterval (im_size _ Hi)
    ltac:(rewrite Ei; exact (im_file _ Hi)) Hp t _ opts (Some c) u s Hop Hco Hs) as (res & cache' & Eg & Hco' & Hans).
  rewrite Eg. cbn [mbind option_bind].
  destruct (InternalGet_frame (bc_holds := bc_holds) (bc_next := bc_next) Snappy Zstd t opts c _ _ _ _ Eg) as (c' & -> & Hfr).
  unfold UnrefEntry. cbn [cache_ with_blocks]. destruct (c_Release_ok _ _ h held _ F2) as (k' & -> & Hk'). cbn [mbind option_bind].
  eexists res, _. split; [done|]. split; [|split; [done|done]].
  exists own, held, c'. split; [done|]. split; [done|]. split; [|by rewrite (proj1 Hfr)].
  eapply blocks_ok_frame; [exact Hfr|done|lia|exact F7|done].
Qed.

#[export] Instance TableCache_ops : TableCache TC := TableCache_Get Snappy Zstd dbname o.

(** What [Version::Get] asks of a table cache. *)
Lemma TableCache_laws : TableCacheLaws TableCache_ops U cache_ready has_table.
Proof.
  split.
  - intros b tc n size es opts u s Hr Ht Hs _. destruct (TableCache_Get_spec b tc n size es opts u s Hr Ht Hs) as (res & tc' & E1 & Hr' & Eenv & Ha).
    exists res, tc'. split; [done|]. split; [done|]. split; [|done]. intros m size' es'. unfold has_table. by rewrite Eenv.
  - intros b b' tc Hle (own & held & c & H1 & H2 & H3 & H4). exists own, held, c. split; [eapply c_ok_weaken; [|by intros ? ? H0; exact H0|exact H1]; lia|]. do 2 (split; [done|]). lia.
Qed.
End Tables.
