(* ===== verification/BuildTable.v ===== *)
(** * db/builder: the table of a memtable

    Models [BuildTable] of src/db/builder.cc: a file with the entries an iterator
    gives, which is opened through the table cache before it counts.  What the
    environment sees of a file that is written is what was written when it is
    closed.  Afterwards the table is there, with its bounds, and nothing else
    changes; or a file failed, the status says so, and no table is there. *)

From Stdlib Require Import Sorted.
From stdpp Require Import sorting.
From S2P Require Import Prelude Coding Comparator Crc32c Bloom Status Iterator BlockBuilder Block Format FilterBlock.
From S2P Require Import IteratorWrapper TwoLevelIterator Options TableBuilder Table DbFormat MemTable UserView MemIter Filename.
From S2P Require Import VersionEdit Version VersionGet InternalTable TableCache.

(** [WritableFile::Close], with its effect on the file system: what was written
    to the file of that name is there. *)
Class TableFiles (E W : Type) := {
  CloseWritableFile : bytes -> W -> E -> Status * E;
}.

Section BuildTable.
Context `{CS : Checksum} {E F W KC H K S : Type} {R : RandomAccessFile F} {RF : RandomAccessFiles E F} {WF : WritableFile W}.
Context {LF : LogFiles E W} {TF : TableFiles E W} {EF : EnvFiles E}.
Context {CO : CacheOps KC H (Table F) TableDeleter} {BC : BlockCache K} {I : Iterator S}.
Variables (Snappy Zstd : Compressor) (dbname : bytes) (options : Options).
Notation TC := (TableCacheState E KC K).

Definition with_tcs_env (e : E) (tc : TC) : TC := mkTC e (cache_ tc) (tcs_blocks tc).

Definition with_size (n : Z) (m : FileMetaData) : FileMetaData := mkFile (refs m) (allowed_seeks m) (number m) n (smallest m) (largest m).
Definition with_smallest (k : bytes) (m : FileMetaData) : FileMetaData := mkFile (refs m) (allowed_seeks m) (number m) (file_size m) k (largest m).
Definition with_largest (k : bytes) (m : FileMetaData) : FileMetaData := mkFile (refs m) (allowed_seeks m) (number m) (file_size m) (smallest m) k.

(** [for (; iter->Valid(); iter->Next())], with the last key. *)
Fixpoint build_loop (fuel : nat) (iter : S) (builder : TableBuilder W) (key : bytes) : option (S * TableBuilder W * bytes) :=
  match fuel with
  | O => None
  | Datatypes.S fuel =>
      if it_Valid iter then
        key ← it_key iter;
        value ← it_value iter;
        builder ← Add Snappy Zstd builder key value;
        iter ← it_Next iter;
        build_loop fuel iter builder key
      else Some (iter, builder, key)
  end.

(** [it = table_cache->NewIterator(...); s = it->status(); delete it;] *)
Definition verify_table (meta : FileMetaData) (tc : TC) : option (Status * TC) :=
  '(r, tc) ← TableCache_NewIterator Snappy Zstd dbname options (number meta) (file_size meta) tc;
  match r with
  | inl s => Some (s, tc)
  | inr (it, _, handle) =>
      tc ← UnrefEntry handle tc;
      Some (TwoLevel_status it, tc)
  end.

(** From the new file to the verified table. *)
Definition write_table (fuel : nat) (iter : S) (file : W) (meta : FileMetaData) (tc : TC)
    : option (Status * S * FileMetaData * TC) :=
  let fname := TableFileName dbname (number meta) in
  key ← it_key iter;
  let meta := with_smallest key meta in
  '(iter, builder, key) ← build_loop fuel iter (TableBuilder_new options file) [];
  let meta := if bool_decide (key = []) then meta else with_largest key meta in
  '(s, builder) ← Finish Snappy Zstd builder;
  let meta := if ok s then with_size (FileSize builder) meta else meta in
  if ok s && negb (0 <? file_size meta) then None
  else
    let file := r_file builder in
    let '(s, file) := if ok s then wf_Sync file else (s, file) in
    let '(s, env) := if ok s then CloseWritableFile fname file (tcs_env tc) else (s, tcs_env tc) in
    let tc := with_tcs_env env tc in
    '(s, tc) ← (if ok s then verify_table meta tc else Some (s, tc));
    Some (s, iter, meta, tc).

(** The status, the metadata, and the state. *)
Definition BuildTable (fuel : nat) (iter : S) (meta : FileMetaData) (tc : TC) : option (Status * FileMetaData * TC) :=
  let meta := with_size 0 meta in
  iter ← it_SeekToFirst iter;
  let fname := TableFileName dbname (number meta) in
  let keep (s : Status) (iter : S) (meta : FileMetaData) (tc : TC) :=
    let s := if ok (it_status iter) then s else it_status iter in
    if ok s && (0 <? file_size meta) then (s, meta, tc)
    else (s, meta, with_tcs_env (Filename.RemoveFile (tcs_env tc) fname).2 tc) in
  if it_Valid iter then
    let '(r, env) := NewWritableFile fname (tcs_env tc) in
    let tc := with_tcs_env env tc in
    match r with
    | inl s => Some (s, meta, tc)
    | inr file =>
        '(s, iter, meta, tc) ← write_table fuel iter file meta tc;
        Some (keep s iter meta tc)
    end
  else Some (keep OK iter meta tc).
End BuildTable.

(** ** A file system that works *)

(** A new file is empty; what was written is there once it is closed; a file
    that exists can be read. *)
Class FileSystem {E F W} (RF : RandomAccessFiles E F) (LF : LogFiles E W) (TF : TableFiles E W) (EF : EnvFiles E)
    (raf_contents : F -> bytes) (wf_contents : W -> bytes) : Prop := {
  fs_new : forall f e, exists w e', NewWritableFile f e = (inr w, e') /\ wf_contents w = [] /\
    forall g, g <> f -> contents e' g = contents e g;
  fs_close : forall f w e, exists e', CloseWritableFile f w e = (OK, e') /\ contents e' f = Some (wf_contents w) /\
    forall g, g <> f -> contents e' g = contents e g;
  fs_random : forall f e,
    match contents e f with
    | Some b => exists r, NewRandomAccessFile f e = inr r /\ raf_contents r = b
    | None => exists s, NewRandomAccessFile f e = inl s
    end;
}.

(** The same when creating, writing and closing files may fail at any time: a
    call that returns [OK] has done its work, no call fails while [works] holds, and
    no call touches another file.  Files that exist can still be read. *)
Class FaultyFileSystem (works : Prop) {E F W} (WF : WritableFile W) (RF : RandomAccessFiles E F) (LF : LogFiles E W) (TF : TableFiles E W) (EF : EnvFiles E)
    (raf_contents : F -> bytes) (wf_contents : W -> bytes) : Prop := {
  ff_file :: FaultyFile works WF wf_contents;
  ff_new : forall f e r e', NewWritableFile f e = (r, e') ->
    (forall g, g <> f -> contents e' g = contents e g) /\ match r with inr w => wf_contents w = [] | inl s => ok s = false /\ ~ works end;
  ff_close : forall f w e s e', CloseWritableFile f w e = (s, e') ->
    (forall g, g <> f -> contents e' g = contents e g) /\ if ok s then contents e' f = Some (wf_contents w) else ~ works;
  ff_random : forall f e,
    match contents e f with
    | Some b => exists r, NewRandomAccessFile f e = inr r /\ raf_contents r = b
    | None => exists s, NewRandomAccessFile f e = inl s
    end;
}.

#[export] Instance working_files {E F W} (WF : WritableFile W) (RF : RandomAccessFiles E F) (LF : LogFiles E W) (TF : TableFiles E W) (EF : EnvFiles E)
    (raf_contents : F -> bytes) (wf_contents : W -> bytes) :
  WritableFileLaws WF wf_contents -> FileSystem RF LF TF EF raf_contents wf_contents -> FaultyFileSystem True WF RF LF TF EF raf_contents wf_contents.
Proof.
  intros WL FS. split.
  - apply _.
  - intros f e r e' En. destruct (fs_new f e) as (w & e1 & E1 & Hw & Hg). rewrite En in E1. by injection E1 as -> ->.
  - intros f w e s e' Ec. destruct (fs_close f w e) as (e1 & E1 & Hw & Hg). rewrite Ec in E1. by injection E1 as -> ->.
  - apply fs_random.
Qed.

Section Spec.
Context `{CS : Checksum} {E F W KC H K S : Type} {R : RandomAccessFile F} {RF : RandomAccessFiles E F} {WF : WritableFile W}.
Context {LF : LogFiles E W} {TF : TableFiles E W} {EF : EnvFiles E} {EFL : EnvFilesLaws E}.
Context {works : Prop} {raf_contents : F -> bytes} {RL : RandomAccessFileLaws R raf_contents} {wf_contents : W -> bytes}.
Context {FS : FaultyFileSystem works WF RF LF TF EF raf_contents wf_contents}.
Context {CO : CacheOps KC H (Table F) TableDeleter} {c_ok : nat -> (bytes -> Table F -> Prop) -> list H -> KC -> Prop} {CL : CacheLaws CO c_ok}.
Context {BC : BlockCache K} {bc_holds : K -> bytes -> Block -> Prop} {BL : BlockCacheLaws BC bc_holds} {bc_next : K -> Z} {BI : BlockCacheIds BC bc_next}.
Context (Snappy Zstd : Compressor) {SL : CompressorLaws Snappy} {ZL : CompressorLaws Zstd}.
Context {U : Comparator} {UL : ComparatorLaws U} {o : Options} (dbname : bytes).
Context (Hcmp : comparator o = InternalKeyComparator U) (Hinterval : 1 <= block_restart_interval o).
Context (Hfilter : forall name P, filter_policy o = Some (name, P) ->
  exists P0, P = InternalFilterPolicy P0 /\ FilterPolicyLaws P0 /\ zlen name < 2 ^ 31 /\ forall a b, Compare (Comparator := U) a b = Eq -> a = b).
Context {I : Iterator S}.
Notation TC := (TableCacheState E KC K).
Notation ready := (cache_ready (raf_contents := raf_contents) (c_ok := c_ok) (bc_holds := bc_holds) (bc_next := bc_next) Snappy Zstd (U := U) (o := o)).
Notation has_table := (has_table (raf_contents := raf_contents) Snappy Zstd (U := U) (o := o) dbname).
Implicit Types tc : TC.

(** The tables with a new one. *)
Definition add_sst (sst : Z -> option TableImage) (n : Z) (i : TableImage) : Z -> option TableImage :=
  fun m => if decide (m = n) then Some i else sst m.

Lemma ready_add sst n i b tc : sst n = None -> ready sst b tc -> ready (add_sst sst n i) b tc.
Proof.
  intros Hn (own & held & c & H1 & H2 & H3 & H4). exists own, held, c. split; [|done].
  eapply c_ok_weaken; [reflexivity| |exact H1]. intros k t Hp m Hm Ek. destruct (Hp m Hm Ek) as (j & Ej & Hj). exists j. split; [|done].
  unfold add_sst. case_decide; [congruence|done].
Qed.

Lemma ready_le sst b b' tc : (b' <= b)%nat -> ready sst b tc -> ready sst b' tc.
Proof.
  intros Hle (own & held & c & H1 & H2 & H3 & H4). exists own, held, c. split; [eapply c_ok_weaken; [|by intros ? ? Hp; exact Hp|exact H1]; lia|].
  do 2 (split; [done|]). lia.
Qed.

Lemma ready_env sst b tc e : ready sst b tc -> ready sst b (with_tcs_env e tc).
Proof. done. Qed.

(** The bytes of table [n]. *)
Definition table_bytes (n : Z) (e : E) : option bytes :=
  match contents e (TableFileName dbname n) with Some b => Some b | None => contents e (SSTTableFileName dbname n) end.

Lemma open_table_file_spec n e b :
  table_bytes n e = Some b <-> exists f, open_table_file dbname n e = inr f /\ raf_contents f = b.
Proof.
  unfold table_bytes, open_table_file. pose proof (ff_random (TableFileName dbname n) e) as H1. pose proof (ff_random (SSTTableFileName dbname n) e) as H2.
  destruct (contents e (TableFileName dbname n)) as [b1|].
  - destruct H1 as (r & -> & <-). split; [intros [= <-]; by exists r|]. by intros (f & [= ->] & ->).
  - destruct H1 as (s & ->). destruct (contents e (SSTTableFileName dbname n)) as [b2|].
    + destruct H2 as (r & -> & <-). split; [intros [= <-]; by exists r|]. by intros (f & [= ->] & ->).
    + destruct H2 as (s' & ->). split; [done|]. by intros (f & ? & _).
Qed.

Lemma has_table_bytes sst tc n size es :
  has_table sst tc n size es <->
  0 <= n < 2 ^ 64 /\ exists i, sst n = Some i /\ image_ok Snappy Zstd (U := U) (o := o) i /\ img_entries i = es /\ size = zlen (img_bytes i) /\
    table_bytes n (tcs_env tc) = Some (img_bytes i).
Proof.
  split.
  - intros (Hn & i & f & H1 & H2 & H3 & H4 & H5 & H6). split; [done|]. exists i. do 4 (split; [done|]). apply open_table_file_spec. by exists f.
  - intros (Hn & i & H1 & H2 & H3 & H4 & (f & H5 & H6)%open_table_file_spec). split; [done|]. by exists i, f.
Qed.

(** Tables stay when other files change. *)
Lemma has_table_frame sst tc n size es e' :
  has_table sst tc n size es ->
  contents e' (TableFileName dbname n) = contents (tcs_env tc) (TableFileName dbname n) ->
  contents e' (SSTTableFileName dbname n) = contents (tcs_env tc) (SSTTableFileName dbname n) ->
  has_table sst (with_tcs_env e' tc) n size es.
Proof. rewrite !has_table_bytes. unfold table_bytes. cbn [tcs_env with_tcs_env]. intros Ht -> ->. exact Ht. Qed.

Lemma has_table_add sst n i tc m size es : sst n = None -> has_table sst tc m size es -> has_table (add_sst sst n i) tc m size es.
Proof.
  intros Hn (Hm & j & f & H1 & Hj). split; [done|]. exists j, f. split; [|done]. unfold add_sst. case_decide; [congruence|done].
Qed.

(** *** The loop and the check *)

Lemma build_loop_spec fuel it kvs builder key r :
  scans it kvs -> (length kvs < fuel)%nat -> add_entries Snappy Zstd builder kvs = Some r ->
  exists it', build_loop Snappy Zstd fuel it builder key = Some (it', r, match last kvs with Some e => e.1 | None => key end) /\ it_status it' = OK.
Proof.
  revert it kvs builder key. induction fuel as [|fuel IH]; intros it kvs builder key Hs Hf Ha; [lia|]. cbn [build_loop].
  destruct kvs as [|[k v] kvs]; destruct Hs as [Hok Hs].
  - rewrite Hs. exists it. injection Ha as <-. done.
  - destruct Hs as (-> & -> & -> & it' & Hn & Hs). cbn [add_entries] in Ha. cbn [mbind option_bind].
    destruct (Add Snappy Zstd builder k v) as [b1|]; [|done]. cbn [mbind option_bind] in *. rewrite Hn. cbn [mbind option_bind].
    cbn [length] in Hf. destruct (IH it' kvs b1 k Hs ltac:(lia) Ha) as (it2 & -> & Est). exists it2. split; [|done].
    destruct kvs as [|kv kvs _] using rev_ind; [done|]. by rewrite app_comm_cons, !last_snoc.
Qed.

Lemma verify_table_spec sst b tc meta es :
  ready sst (Datatypes.S b) tc -> has_table sst tc (number meta) (file_size meta) es ->
  exists tc', verify_table Snappy Zstd dbname o meta tc = Some (OK, tc') /\ ready sst b tc' /\ tcs_env tc' = tcs_env tc.
Proof.
  intros Hr Ht. destruct (FindTable_spec Snappy Zstd dbname Hcmp Hinterval Hfilter sst b tc _ _ es Hr Ht)
    as (h & tc1 & t & i & own & held & c & Ef & Eenv & [F1 F2 F3 F4 F5 [F6 Hi] F7 (f & Ei & Hop)] & _).
  unfold verify_table, TableCache_NewIterator. rewrite Ef. cbn [mbind option_bind]. rewrite F1, F3. cbn [mbind option_bind].
  destruct (image_instances Snappy Zstd Hcmp Hfilter i Hi) as (L & SC & Hp).
  assert (Hco : cache_coherent (o := o) (bc_holds := bc_holds) (blocks := img_blocks i) (t_cache_id t) (Some c)) by by apply (bo_blocks _ _ F4).
  assert (Hso : kvs_sorted (comparator o) (all_entries (img_blocks i))) by (rewrite Hcmp, (im_entries _ _ _ Hi); exact (im_sorted _ _ _ Hi)).
  assert (Hsz : entries_size (all_entries (img_blocks i)) + 20 * zlen (all_entries (img_blocks i)) < 2 ^ 32).
  { rewrite (im_entries _ _ _ Hi). pose proof (im_size _ _ _ Hi). unfold zlen in *. by rewrite length_map. }
  pose proof (im_layout _ _ _ Hi) as Hlay. rewrite <- Ei in Hlay.
  destruct (table_iterator (bc_holds := bc_holds) Snappy Zstd Hlay Hinterval Hso Hsz
    ltac:(rewrite Ei; exact (im_file _ _ _ Hi)) t _ ReadOptions_default (Some c) (length (img_blocks i)) Hop Hco) as (it & pos & Eit & HL & Hpos); [done|].
  rewrite Eit. cbn [mbind option_bind]. unfold UnrefEntry. destruct (c_Release_ok _ _ h held _ F2) as (k' & Ek & Hk'). rewrite Ek. cbn [mbind option_bind].
  pose proof (pos_status (IteratorLaws := HL) _ _ Hpos) as Hst. cbn [it_status TwoLevel_Iterator] in Hst. rewrite Hst. eexists. split; [done|]. split; [|done].
  exists own, held, c. split; [eapply c_ok_weaken; [|by intros ? ? Hp0; exact Hp0|exact Hk']; lia|]. done.
Qed.

(** *** The table *)

(** The table of these entries is smaller than 4 GiB. *)
Definition table_fits (es : list Entry) : Prop :=
  entries_size (map entry_kv es) + 20 * zlen es < 2 ^ 32 /\
  forall w r r', wf_contents w = [] -> add_entries Snappy Zstd (TableBuilder_new o w) (map entry_kv es) = Some r ->
    Finish Snappy Zstd r = Some (OK, r') -> FileSize r' < 2 ^ 32.

(** The metadata of a table of [es], and the state with it. *)
Definition built (sst : Z -> option TableImage) (b : nat) (es : list Entry) (meta meta' : FileMetaData) tc' : Prop :=
  number meta' = number meta /\ refs meta' = refs meta /\ allowed_seeks meta' = allowed_seeks meta /\ 0 < file_size meta' < 2 ^ 32 /\
  (exists e, es !! 0%nat = Some e /\ smallest meta' = entry_ikey e) /\ (exists e, last es = Some e /\ largest meta' = entry_ikey e) /\
  exists i, sst (number meta) = None /\ ready (add_sst sst (number meta) i) b tc' /\
    has_table (add_sst sst (number meta) i) tc' (number meta) (file_size meta') es.

Lemma entry_ikey_nonempty e : entry_ikey e <> [].
Proof. intros H0. apply (f_equal length) in H0. unfold entry_ikey in H0. rewrite InternalKey_length in H0. cbn in H0. lia. Qed.

(** The end of a table: the builder finishes, the file is synced and closed, and
    the table can be opened; unless the file fails on the way. *)
Lemma finish_table meta es sst b tc w :
  es <> [] -> Forall entry_ok es -> entries_sorted U es -> 0 <= number meta < 2 ^ 64 -> sst (number meta) = None -> ready sst (Datatypes.S b) tc -> table_fits es -> wf_contents w = [] ->
  exists r s r', add_entries Snappy Zstd (TableBuilder_new o w) (map entry_kv es) = Some r /\ closed r = false /\ Finish Snappy Zstd r = Some (s, r') /\
    let '(s1, w') := if ok s then wf_Sync (r_file r') else (s, r_file r') in
    let '(s2, e') := if ok s1 then CloseWritableFile (TableFileName dbname (number meta)) w' (tcs_env tc) else (s1, tcs_env tc) in
    (forall g, g <> TableFileName dbname (number meta) -> contents e' g = contents (tcs_env tc) g) /\ (ok s = true -> NumEntries r = zlen es /\ 0 < FileSize r' < 2 ^ 32) /\
    if ok s2 then
      ok s = true /\ exists tc' i, verify_table Snappy Zstd dbname o (with_size (FileSize r') meta) (with_tcs_env e' tc) = Some (OK, tc') /\ tcs_env tc' = e' /\
        ready (add_sst sst (number meta) i) b tc' /\ has_table (add_sst sst (number meta) i) tc' (number meta) (FileSize r') es
    else ~ works.
Proof.
  intros Hne Hok Hs Hn Hfresh Hr (Hsize & Hfile) Hw. assert (L : ComparatorLaws (comparator o)) by (rewrite Hcmp; apply _).
  destruct (build_table_faulty Snappy Zstd o w (map entry_kv es) L Hw ltac:(rewrite Hcmp; exact Hs)) as (r & s & r' & Ea & Hc & _ & Efin & Hres).
  exists r, s, r'. do 3 (split; [done|]). destruct (ok s) eqn:Es; [|do 2 (cbv beta iota; rewrite Es); by split; [|split]].
  destruct Hres as (blocks & footer & off & Eb & Hlay & Hz & Hcount). apply ok_OK in Es as ->. specialize (Hfile w r r' Hw Ea Efin). set (n := number meta) in *.
  assert (Hpos : 0 < FileSize r').
  { rewrite Hz. destruct (tl_footer _ _ _ _ _ _ _ Hlay) as [x Ex]. rewrite Ex, zlen_app. pose proof (Footer_length footer). unfold zlen. unfold Footer_kEncodedLength in *. lia. }
  assert (Hcz : NumEntries r = zlen es) by (unfold zlen in *; by rewrite Hcount, length_map).
  destruct (wf_Sync (r_file r')) as [s1 w'] eqn:Esync. apply wf_Sync_may in Esync. destruct (ok s1) eqn:Es1; [|do 2 (cbv beta iota; rewrite ?Es1); by split; [|split]].
  destruct (CloseWritableFile (TableFileName dbname n) w' (tcs_env tc)) as [s2 e'] eqn:Eclose. apply ff_close in Eclose as [Hother Hc']. split; [done|]. split; [done|].
  destruct (ok s2) eqn:Es2; [|done]. split; [done|].
  set (i := mkImage (wf_contents (r_file r')) blocks footer off es).
  assert (Hi : image_ok Snappy Zstd (U := U) (o := o) i) by (split; [done|done|done|done|done|cbn; by rewrite <- Hz]).
  assert (Ht : has_table (add_sst sst n i) (with_tcs_env e' tc) n (FileSize r') es).
  { apply has_table_bytes. split; [done|]. exists i. unfold add_sst. rewrite decide_True by done. split; [done|]. split; [done|]. split; [done|]. split; [exact Hz|].
    unfold table_bytes. cbn [tcs_env with_tcs_env]. rewrite Hc'. cbn. by rewrite Esync. }
  destruct (verify_table_spec (add_sst sst n i) b (with_tcs_env e' tc) (with_size (FileSize r') meta) es (ready_add sst n i _ _ Hfresh (ready_env _ _ _ e' Hr)) Ht) as (tc' & Ever & Hr' & Eenv).
  exists tc', i. split; [done|]. split; [exact Eenv|]. split; [done|]. revert Ht. rewrite !has_table_bytes, Eenv. done.
Qed.

Lemma write_table_spec fuel it meta es sst b tc w :
  scans it (map entry_kv es) -> es <> [] -> Forall entry_ok es -> entries_sorted U es -> (length es < fuel)%nat ->
  0 <= number meta < 2 ^ 64 -> sst (number meta) = None -> ready sst (Datatypes.S b) tc -> table_fits es -> wf_contents w = [] ->
  exists s it' meta' tc', write_table Snappy Zstd dbname o fuel it w meta tc = Some (s, it', meta', tc') /\ it_status it' = OK /\ number meta' = number meta /\
    (forall g, g <> TableFileName dbname (number meta) -> contents (tcs_env tc') g = contents (tcs_env tc) g) /\
    if ok s then built sst b es meta meta' tc' else ~ works /\ ready sst (Datatypes.S b) tc'.
Proof.
  intros Hsc Hne Hok Hs Hf Hn Hfresh Hr Hfit Hw. destruct es as [|e0 es0] eqn:Ees; [done|]. rewrite <- Ees in *.
  assert (Hlast : exists el, last es = Some el) by (rewrite Ees; destruct es0 using rev_ind; [by eexists|rewrite app_comm_cons, last_snoc; by eexists]). destruct Hlast as [el El].
  set (meta1 := with_largest (entry_ikey el) (with_smallest (entry_ikey e0) meta)).
  destruct (finish_table meta1 es sst b tc w Hne Hok Hs Hn Hfresh Hr Hfit Hw) as (r & s & r' & Ea & _ & Efin & Htail). change (number meta1) with (number meta) in Htail.
  assert (Hkey : it_key it = Some (entry_ikey e0)) by (rewrite Ees in Hsc; by destruct Hsc as (_ & _ & ? & _)).
  unfold write_table. rewrite Hkey. cbn [mbind option_bind].
  destruct (build_loop_spec fuel it (map entry_kv es) (TableBuilder_new o w) [] r Hsc ltac:(by rewrite length_map) Ea) as (it' & -> & Est).
  cbn [mbind option_bind]. rewrite fmap_last, El. cbn [fmap option_fmap option_map entry_kv fst]. rewrite bool_decide_eq_false_2 by apply entry_ikey_nonempty.
  rewrite Efin. cbn [mbind option_bind]. fold meta1. set (meta2 := if ok s then with_size (FileSize r') meta1 else meta1).
  assert (Hm2 : number meta2 = number meta) by (unfold meta2; by destruct (ok s)). change (number (with_smallest (entry_ikey e0) meta)) with (number meta).
  destruct (if ok s then _ else _) as [s1 w'] eqn:E1 in Htail. rewrite E1. destruct (if ok s1 then _ else _) as [s2 e'] eqn:E2 in Htail.
  destruct Htail as (Hother & Hsz & Hres).
  assert (Ha : ok s && negb (0 <? file_size meta2) = false).
  { unfold meta2. destruct (ok s) eqn:Es; [|done]. destruct (Hsz eq_refl) as [_ Hz]. cbn [file_size with_size]. by rewrite (proj2 (Z.ltb_lt _ _)) by lia. }
  rewrite Ha. rewrite E2. destruct (ok s2) eqn:Es2.
  - destruct Hres as (Es & tc' & i & Ever & Eenv & Hr' & Ht). destruct (Hsz Es) as [_ Hz]. assert (Hm : meta2 = with_size (FileSize r') meta1) by (unfold meta2; by rewrite Es). rewrite Hm, Ever.
    cbn [mbind option_bind]. eexists OK, it', _, tc'. split; [done|]. split; [done|]. split; [done|]. split; [by rewrite Eenv|]. cbn [ok].
    do 3 (split; [done|]). split; [exact Hz|]. split; [exists e0; by rewrite Ees|]. split; [by exists el|]. by exists i.
  - cbn [mbind option_bind]. eexists s2, it', meta2, _. split; [done|]. split; [done|]. split; [done|]. split; [exact Hother|]. by rewrite Es2.
Qed.

(** The file of a table that is kept is all that changes; one that failed is not kept. *)
Lemma BuildTable_spec fuel iter it meta es sst b tc :
  it_SeekToFirst iter = Some it -> scans it (map entry_kv es) -> Forall entry_ok es -> entries_sorted U es -> (length es < fuel)%nat ->
  0 <= number meta < 2 ^ 64 -> sst (number meta) = None -> ready sst (Datatypes.S b) tc -> (es <> [] -> table_fits es) ->
  exists s meta' tc', BuildTable Snappy Zstd dbname o fuel iter meta tc = Some (s, meta', tc') /\ number meta' = number meta /\
    (forall g, g <> TableFileName dbname (number meta) -> contents (tcs_env tc') g = contents (tcs_env tc) g) /\
    if ok s then
      match es with
      | [] => meta' = with_size 0 meta /\ ready sst (Datatypes.S b) tc'
      | _ => built sst b es meta meta' tc'
      end
    else ~ works /\ ready sst (Datatypes.S b) tc'.
Proof.
  intros Hit Hsc Hok Hs Hf Hn Hfresh Hr Hfit. unfold BuildTable. rewrite Hit. cbn [mbind option_bind].
  assert (Hremove : forall tc' g, g <> TableFileName dbname (number meta) ->
    contents (tcs_env (with_tcs_env (Filename.RemoveFile (tcs_env tc') (TableFileName dbname (number meta))).2 tc')) g = contents (tcs_env tc') g).
  { intros tc' g Hg. cbn [tcs_env with_tcs_env]. destruct (Filename.RemoveFile (tcs_env tc') _) as [s e'] eqn:Er. by apply (remove_file _ _ _ _ Er). }
  destruct es as [|e0 es0] eqn:Ees.
  - destruct Hsc as [-> ->]. cbn [ok andb file_size with_size Z.ltb Z.compare]. eexists OK, _, _. split; [done|]. split; [done|]. split; [|done]. apply Hremove.
  - rewrite <- Ees in *. assert (Hv : it_Valid it = true) by (rewrite Ees in Hsc; by destruct Hsc as (_ & ? & _)). rewrite Hv.
    change (number (with_size 0 meta)) with (number meta). destruct (NewWritableFile (TableFileName dbname (number meta)) (tcs_env tc)) as [res e1] eqn:En.
    apply ff_new in En as [Hother Hres]. destruct res as [s|w].
    { destruct Hres as [Es Hw]. exists s, (with_size 0 meta), (with_tcs_env e1 tc). split; [done|]. split; [done|]. split; [exact Hother|]. by rewrite Es. }
    destruct (write_table_spec fuel it (with_size 0 meta) es sst b (with_tcs_env e1 tc) w Hsc ltac:(by rewrite Ees) Hok Hs Hf Hn Hfresh (ready_env _ _ _ e1 Hr)
      (Hfit ltac:(by rewrite Ees)) Hres) as (s & it' & meta' & tc' & -> & Est & Hnum & Henv & Hb). cbn [mbind option_bind]. rewrite Est. cbn [ok]. destruct (ok s) eqn:Es.
    + pose proof Hb as (_ & _ & _ & Hsz & _). cbn [andb]. rewrite (proj2 (Z.ltb_lt _ _) (proj1 Hsz)). exists s, meta', tc'. split; [done|]. split; [done|]. split.
      * intros g Hg. rewrite Henv by done. by apply Hother.
      * rewrite Es. destruct es; done.
    + cbn [andb]. eexists s, meta', _. split; [done|]. split; [done|]. split; [intros g Hg; rewrite Hremove, Henv by done; by apply Hother|]. by rewrite Es.
Qed.
End Spec.
