(* ===== verification/MemoryFiles.v ===== *)
(** * Files and caches in memory

    Instances of the interfaces of files, environments and caches that keep
    everything in memory, with their laws, and a disk that is full: they show that the hypotheses of the
    theorems about whole databases can hold, and make them run. *)

From Stdlib Require Import Sorted.
From stdpp Require Import sorting.
From S2P Require Import Prelude Coding Comparator Crc32c Bloom Status Iterator BlockBuilder Block Format FilterBlock.
From S2P Require Import IteratorWrapper TwoLevelIterator Options TableBuilder Table DbFormat MemTable UserView MemIter Filename.
From S2P Require Import VersionEdit Version VersionGet InternalTable TableCache BuildTable.

(** ** An environment that maps names to contents *)

Abbreviation MemoryEnv := (bytes -> option bytes).

Definition store (f b : bytes) (e : MemoryEnv) : MemoryEnv := fun g => if decide (g = f) then Some b else e g.

Lemma store_other f b e g : g <> f -> store f b e g = e g.
Proof. intros Hg. unfold store. by rewrite decide_False. Qed.

#[export] Instance MemoryLogs : LogFiles MemoryEnv bytes := {| NewWritableFile f e := (inr [], store f [] e); CloseFile _ := OK |}.
#[export] Instance MemoryReads : SequentialFiles MemoryEnv bytes :=
  {| NewSequentialFile f e := match e f with Some b => inr b | None => inl (NotFound f []) end |}.
#[export] Instance MemoryAppends : AppendableFiles MemoryEnv bytes :=
  {| GetFileSize f e := match e f with Some b => inr (zlen b) | None => inl (NotFound f []) end; NewAppendableFile f e := (inr (default [] (e f)), e) |}.
#[export] Instance MemoryRandom : RandomAccessFiles MemoryEnv bytes :=
  {| NewRandomAccessFile f e := match e f with Some b => inr b | None => inl (NotFound f []) end |}.
#[export] Instance MemoryTables : TableFiles MemoryEnv bytes := {| CloseWritableFile f w e := (OK, store f w e) |}.

#[export] Instance MemoryFileSystem : FileSystem MemoryRandom MemoryLogs MemoryTables PureFiles id id.
Proof.
  split.
  - intros f e. exists [], (store f [] e). split; [done|]. split; [done|]. intros g Hg. by apply store_other.
  - intros f w e. exists (store f w e). split; [done|]. split; [by cbn; unfold store; rewrite decide_True|]. intros g Hg. by apply store_other.
  - intros f e. cbn. destruct (e f) as [b|]; [by exists b|by eexists].
Qed.

(** The disk is full: nothing can be appended. *)
Definition FullDisk : WritableFile bytes := {|
  wf_Append _ w := (IOError (cstr "No space left on device") [], w);
  wf_Flush w := (OK, w);
  wf_Sync w := (OK, w);
|}.

Lemma FullDisk_faulty : FaultyFileSystem False FullDisk MemoryRandom MemoryLogs MemoryTables PureFiles id id.
Proof.
  split.
  - split; intros *; intros [= <- <-]; vm_compute; tauto.
  - intros f e r e' [= <- <-]. split; [|done]. intros g Hg. by apply store_other.
  - intros f w e s e' [= <- <-]. split; [|by cbn; unfold store; rewrite decide_True]. intros g Hg. by apply store_other.
  - apply fs_random.
Qed.

(** ** A cache of tables that keeps everything *)

Section ListCache.
Context {V D : Type}.

Definition lookup_key {A} (key : bytes) (c : list (bytes * A)) : option A := snd <$> List.find (fun p => bool_decide (p.1 = key)) c.

(** A handle is the value. *)
Definition ListCache : CacheOps (list (bytes * V)) V V D := {|
  c_Lookup key c := Some (lookup_key key c, c);
  c_Insert key v _ _ c := Some (v, (key, v) :: c);
  c_Value h _ := Some h;
  c_Release _ c := Some c;
  c_Erase key c := Some (List.filter (fun p => negb (bool_decide (p.1 = key))) c);
|}.

Definition list_cache_ok (b : nat) (P : bytes -> V -> Prop) (held : list V) (c : list (bytes * V)) : Prop := forall p, In p c -> P p.1 p.2.

Lemma lookup_key_in {A} key (c : list (bytes * A)) v : lookup_key key c = Some v -> In (key, v) c.
Proof.
  unfold lookup_key. destruct (List.find _ c) as [[k v']|] eqn:E; [|done]. intros [= <-]. apply find_some in E as [Hin Hk].
  by apply bool_decide_eq_true in Hk as <-.
Qed.

Lemma ListCache_laws : CacheLaws ListCache list_cache_ok.
Proof.
  split.
  - intros b P held c key Hc _. exists (lookup_key key c), c. split; [done|]. destruct (lookup_key key c) as [v|] eqn:E; [|done].
    split; [done|]. exists v. split; [done|]. exact (Hc _ (lookup_key_in _ _ _ E)).
  - intros b P held c key v n d Hc Hp _. exists v, ((key, v) :: c). split; [done|]. split; [|done]. intros p [<-|Hin]; [done|by apply Hc].
  - intros b P h held c Hc. by exists c.
  - intros b P held c key Hc _. eexists. split; [done|]. intros p [Hin _]%filter_In. by apply Hc.
  - intros b b' P Q held c _ HPQ Hc p Hin. by apply HPQ, Hc.
Qed.
End ListCache.

(** ** A block cache that keeps everything *)

Definition ListBlocks : BlockCache (Z * list (bytes * Block)) := {|
  bc_NewId c := (c.1 + 1, (c.1 + 1, c.2));
  bc_Lookup c k := (lookup_key k c.2, c);
  bc_Insert c k b _ := (c.1, (k, b) :: c.2);
|}.

Definition list_blocks_hold (c : Z * list (bytes * Block)) (k : bytes) (b : Block) : Prop := lookup_key k c.2 = Some b.

Lemma ListBlocks_laws : BlockCacheLaws ListBlocks list_blocks_hold.
Proof.
  split; try done. intros c k b n k' b'. unfold list_blocks_hold, lookup_key. cbn [bc_Insert ListBlocks snd List.find fst].
  destruct (bool_decide_reflect (k = k')) as [->|Hne]; cbn; [intros [= ->]; by left|]. intros H. right. by split; [intros ->|].
Qed.

Lemma ListBlocks_ids : BlockCacheIds ListBlocks fst.
Proof. by split. Qed.

(** Nothing is open. *)
Lemma memory_ready {F : Type} {RF : RandomAccessFile F} (raf_contents : F -> bytes) `{CS : Checksum} (Snappy Zstd : Compressor) (U : Comparator) (o : Options) sst (b : nat) (e : MemoryEnv) :
  Z.of_nat b < 2 ^ 64 ->
  cache_ready (raf_contents := raf_contents) (c_ok := list_cache_ok) (H := Table F) (bc_holds := list_blocks_hold) (bc_next := fst) Snappy Zstd (U := U) (o := o) sst b (mkTC e [] (Some (0, []))).
Proof. intros Hb. exists (fun _ => None), [], (0, []). split; [by intros ? []|]. split; [done|]. split; [by split|done]. Qed.
