(* ===== verification/Compaction.v ===== *)
(** * db/compaction: choosing what to compact

    Models class [Compaction] and the parts of [VersionSet] that score levels
    and choose the inputs of a compaction (src/db/version_set.h and
    src/db/version_set.cc).  [compact_pointer_] and the current version are
    arguments; [input_version_] is the version a compaction was made from. *)

From Stdlib Require Import Sorted SpecFloat.
From stdpp Require Import sorting.
From S2P Require Import Prelude Coding Comparator DbFormat Status MemTable VersionEdit Options Version VersionGet.

(** ** Scores *)

(** [while (level > 1)] *)
Fixpoint max_bytes_loop (level : nat) (result : spec_float) : spec_float :=
  match level with
  | O | S O => result
  | S level => max_bytes_loop level (double_mul result (double_of_Z 10))
  end.

Definition MaxBytesForLevel (level : nat) : spec_float :=
  max_bytes_loop level (double_mul (double_of_Z 10) (double_of_Z 1048576)).

Definition level_score (v : Version) (level : nat) : spec_float :=
  if (level =? 0)%nat
  then double_div (double_of_Z (Z.of_nat (NumFiles v level))) (double_of_Z kL0_CompactionTrigger)
  else double_div (double_of_Z (u64 (TotalFileSize (level_files v level)))) (MaxBytesForLevel level).

(** The best level and its score; a level replaces the best only when its score
    is larger. *)
Fixpoint best_score (v : Version) (levels : list nat) (best_level : Z) (best_score_ : spec_float) : Z * spec_float :=
  match levels with
  | [] => (best_level, best_score_)
  | level :: levels =>
      let score := level_score v level in
      if SFltb best_score_ score then best_score v levels (Z.of_nat level) score
      else best_score v levels best_level best_score_
  end.

Definition Finalize (v : Version) : Version :=
  let '(level, score) := best_score v (seq 0 (kNumLevels - 1)) (-1) (double_of_Z (-1)) in
  mkVersion (files_ v) (file_to_compact_ v) (file_to_compact_level_ v) score level.

(** ** Compactions *)

Record Compaction := mkCompaction {
  c_options : Options;
  c_level : nat;
  c_max_output_file_size : Z;
  c_input_version : Version;
  c_edit : VersionEdit;
  c_inputs0 : list FilePtr;
  c_inputs1 : list FilePtr;
  c_grandparents : list FilePtr;
  c_grandparent_index : nat;
  c_seen_key : bool;
  c_overlapped_bytes : Z;
  c_level_ptrs : list nat;
}.

(** The constructor, with the input version the callers then set. *)
Definition Compaction_new (options : Options) (level : nat) (v : Version) : Compaction :=
  mkCompaction options level (MaxFileSizeForLevel options level) v Clear [] [] [] 0 false 0 (replicate kNumLevels 0%nat).

Definition c_inputs (c : Compaction) (which : nat) : list FilePtr :=
  if (which =? 0)%nat then c_inputs0 c else c_inputs1 c.

Definition with_inputs (i0 i1 : list FilePtr) (c : Compaction) : Compaction :=
  mkCompaction (c_options c) (c_level c) (c_max_output_file_size c) (c_input_version c) (c_edit c) i0 i1
    (c_grandparents c) (c_grandparent_index c) (c_seen_key c) (c_overlapped_bytes c) (c_level_ptrs c).
Definition with_grandparents (g : list FilePtr) (e : VersionEdit) (c : Compaction) : Compaction :=
  mkCompaction (c_options c) (c_level c) (c_max_output_file_size c) (c_input_version c) e (c_inputs0 c) (c_inputs1 c)
    g (c_grandparent_index c) (c_seen_key c) (c_overlapped_bytes c) (c_level_ptrs c).
Definition with_progress (i : nat) (seen : bool) (bytes : Z) (c : Compaction) : Compaction :=
  mkCompaction (c_options c) (c_level c) (c_max_output_file_size c) (c_input_version c) (c_edit c) (c_inputs0 c) (c_inputs1 c)
    (c_grandparents c) i seen bytes (c_level_ptrs c).
Definition with_ptrs (ptrs : list nat) (c : Compaction) : Compaction :=
  mkCompaction (c_options c) (c_level c) (c_max_output_file_size c) (c_input_version c) (c_edit c) (c_inputs0 c) (c_inputs1 c)
    (c_grandparents c) (c_grandparent_index c) (c_seen_key c) (c_overlapped_bytes c) ptrs.

Definition IsTrivialMove (c : Compaction) : bool :=
  (length (c_inputs0 c) =? 1)%nat && (length (c_inputs1 c) =? 0)%nat &&
  (TotalFileSize (c_grandparents c) <=? MaxGrandParentOverlapBytes (c_options c)).

Definition AddInputDeletions (c : Compaction) (edit : VersionEdit) : VersionEdit :=
  let remove which edit := fold_left (fun e f => RemoveFile e (Z.of_nat (c_level c + which)) (f_number f)) (c_inputs c which) edit in
  remove 1%nat (remove 0%nat edit).

Section Choice.
Variable C : Comparator.

(** ** Ranges *)

Definition range_step (r : bytes * bytes) (f : FilePtr) : bytes * bytes :=
  (match InternalKey_Compare C (f_smallest f) r.1 with Lt => f_smallest f | _ => r.1 end,
   match InternalKey_Compare C (f_largest f) r.2 with Gt => f_largest f | _ => r.2 end).

(** [None]: the inputs are empty, which the code asserts they are not. *)
Definition GetRange (inputs : list FilePtr) : option (bytes * bytes) :=
  match inputs with
  | [] => None
  | f :: files => Some (fold_left range_step files (f_smallest f, f_largest f))
  end.

Definition GetRange2 (inputs1 inputs2 : list FilePtr) : option (bytes * bytes) := GetRange (inputs1 ++ inputs2).

(** ** Boundary files *)

Definition FindLargestKey (files : list FilePtr) : option bytes :=
  match files with
  | [] => None
  | f :: files =>
      Some (fold_left (fun k f => match InternalKey_Compare C (f_largest f) k with Gt => f_largest f | _ => k end)
              files (f_largest f))
  end.

(** The file begins after the key, with the same user key. *)
Definition is_boundary (largest_key : bytes) (f : FilePtr) : bool :=
  bool_decide (InternalKey_Compare C (f_smallest f) largest_key = Gt) &&
  bool_decide (Compare (Comparator := C) (f_smallest_user f) (ExtractUserKey largest_key) = Eq).

Fixpoint smallest_boundary (level_files : list FilePtr) (largest_key : bytes) (best : option FilePtr) : option FilePtr :=
  match level_files with
  | [] => best
  | f :: files =>
      let best :=
        if is_boundary largest_key f then
          match best with
          | None => Some f
          | Some b =>
              match InternalKey_Compare C (f_smallest f) (f_smallest b) with Lt => Some f | _ => best end
          end
        else best in
      smallest_boundary files largest_key best
  end.

Definition FindSmallestBoundaryFile (level_files : list FilePtr) (largest_key : bytes) : option FilePtr :=
  smallest_boundary level_files largest_key None.

(** [while (continue_searching)] *)
Fixpoint boundary_loop (fuel : nat) (level_files : list FilePtr) (largest_key : bytes) (compaction_files : list FilePtr)
    : option (list FilePtr) :=
  match fuel with
  | O => None
  | S fuel =>
      match FindSmallestBoundaryFile level_files largest_key with
      | None => Some compaction_files
      | Some f => boundary_loop fuel level_files (f_largest f) (compaction_files ++ [f])
      end
  end.

Definition AddBoundaryInputs (level_files compaction_files : list FilePtr) : option (list FilePtr) :=
  match FindLargestKey compaction_files with
  | None => Some compaction_files
  | Some largest_key => boundary_loop (S (length level_files)) level_files largest_key compaction_files
  end.

(** ** [SetupOtherInputs] *)

(** The inputs grown on the first level without changing those of the second,
    with their range, or those given. *)
Definition expand_inputs (options : Options) (v : Version) (level : nat) (i0 i1 : list FilePtr) (largest : bytes)
    (all_range : bytes * bytes) : option (list FilePtr * list FilePtr * bytes * (bytes * bytes)) :=
  match i1 with
  | [] => Some (i0, i1, largest, all_range)
  | _ =>
      expanded0 ← GetOverlappingInputs C v level (Some all_range.1) (Some all_range.2);
      expanded0 ← AddBoundaryInputs (level_files v level) expanded0;
      let inputs1_size := TotalFileSize i1 in
      let expanded0_size := TotalFileSize expanded0 in
      if (length i0 <? length expanded0)%nat &&
         (s64 (inputs1_size + expanded0_size) <? ExpandedCompactionByteSizeLimit options)
      then
        '(new_start, new_limit) ← GetRange expanded0;
        expanded1 ← GetOverlappingInputs C v (level + 1) (Some new_start) (Some new_limit);
        expanded1 ← AddBoundaryInputs (level_files v (level + 1)) expanded1;
        if (length expanded1 =? length i1)%nat then
          all_range ← GetRange2 expanded0 expanded1;
          Some (expanded0, expanded1, new_limit, all_range)
        else Some (i0, i1, largest, all_range)
      else Some (i0, i1, largest, all_range)
  end.

(** The compaction and the new [compact_pointer_[level]]. *)
Definition SetupOtherInputs (c : Compaction) : option (Compaction * bytes) :=
  let v := c_input_version c in
  let level := c_level c in
  inputs0 ← AddBoundaryInputs (level_files v level) (c_inputs0 c);
  '(smallest, largest) ← GetRange inputs0;
  inputs1 ← GetOverlappingInputs C v (level + 1) (Some smallest) (Some largest);
  inputs1 ← AddBoundaryInputs (level_files v (level + 1)) inputs1;
  all_range ← GetRange2 inputs0 inputs1;
  '(inputs0, inputs1, largest, all_range) ← expand_inputs (c_options c) v level inputs0 inputs1 largest all_range;
  grandparents ←
    (if (level + 2 <? kNumLevels)%nat
     then GetOverlappingInputs C v (level + 2) (Some all_range.1) (Some all_range.2)
     else Some (c_grandparents c));
  let c := with_inputs inputs0 inputs1 c in
  Some (with_grandparents grandparents (SetCompactPointer (c_edit c) (Z.of_nat level) largest) c, largest).

(** ** Picking a compaction *)

(** The first file that ends after the pointer. *)
Definition after_pointer (compact_pointer : bytes) (f : FilePtr) : bool :=
  (length compact_pointer =? 0)%nat || bool_decide (InternalKey_Compare C (f_largest f) compact_pointer = Gt).

(** The compaction and the new [compact_pointer_], if there is one to make. *)
Definition PickCompaction (options : Options) (current : Version) (compact_pointer : list bytes)
    : option (option (Compaction * list bytes)) :=
  let size_compaction := SFleb (double_of_Z 1) (compaction_score_ current) in
  let pick :=
    if size_compaction then
      let level := Z.to_nat (compaction_level_ current) in
      pointer ← compact_pointer !! level;
      let files := level_files current level in
      f ← match List.find (after_pointer pointer) files with
          | Some f => Some f
          | None => files !! 0%nat
          end;
      Some (Some (level, [f]))
    else
      match file_to_compact_ current with
      | Some f => Some (Some (Z.to_nat (file_to_compact_level_ current), [f]))
      | None => Some None
      end in
  pick ← pick;
  match pick with
  | None => Some None
  | Some (level, inputs) =>
      inputs ←
        (if (level =? 0)%nat then
           '(smallest, largest) ← GetRange inputs;
           inputs ← GetOverlappingInputs C current 0 (Some smallest) (Some largest);
           if (length inputs =? 0)%nat then None else Some inputs
         else Some inputs);
      '(c, largest) ← SetupOtherInputs (with_inputs inputs [] (Compaction_new options level current));
      Some (Some (c, <[level := largest]> compact_pointer))
  end.

(** The inputs up to the one that reaches the limit. *)
Fixpoint limit_inputs (limit total : Z) (inputs : list FilePtr) : list FilePtr :=
  match inputs with
  | [] => []
  | f :: inputs =>
      let total := u64 (total + f_size f) in
      if limit <=? total then [f] else f :: limit_inputs limit total inputs
  end.

Definition CompactRange (options : Options) (current : Version) (compact_pointer : list bytes) (level : nat)
    (begin_key end_key : option bytes) : option (option (Compaction * list bytes)) :=
  inputs ← GetOverlappingInputs C current level begin_key end_key;
  match inputs with
  | [] => Some None
  | _ =>
      let inputs := if (0 <? level)%nat then limit_inputs (MaxFileSizeForLevel options level) 0 inputs else inputs in
      '(c, largest) ← SetupOtherInputs (with_inputs inputs [] (Compaction_new options level current));
      Some (Some (c, <[level := largest]> compact_pointer))
  end.

(** ** While a compaction runs *)

(** [while (level_ptrs_[lvl] < files.size())]: whether the key falls in a file,
    and the new index. *)
Fixpoint base_level_loop (files : list FilePtr) (ptr : nat) (user_key : bytes) : bool * nat :=
  match files with
  | [] => (false, ptr)
  | f :: files =>
      match Compare (Comparator := C) user_key (f_largest_user f) with
      | Gt => base_level_loop files (ptr + 1) user_key
      | _ => (match Compare (Comparator := C) user_key (f_smallest_user f) with Lt => false | _ => true end, ptr)
      end
  end.

(** [for (int lvl = level_ + 2; lvl < config::kNumLevels; lvl++)] *)
Fixpoint base_levels (n lvl : nat) (v : Version) (ptrs : list nat) (user_key : bytes) : bool * list nat :=
  match n with
  | O => (true, ptrs)
  | S n =>
      let ptr := default 0%nat (ptrs !! lvl) in
      let '(covered, ptr) := base_level_loop (drop ptr (level_files v lvl)) ptr user_key in
      let ptrs := <[lvl := ptr]> ptrs in
      if (covered : bool) then (false, ptrs) else base_levels n (lvl + 1) v ptrs user_key
  end.

Definition IsBaseLevelForKey (c : Compaction) (user_key : bytes) : bool * Compaction :=
  let '(base, ptrs) :=
    base_levels (kNumLevels - (c_level c + 2)) (c_level c + 2) (c_input_version c) (c_level_ptrs c) user_key in
  (base, with_ptrs ptrs c).

(** [while (grandparent_index_ < grandparents_.size() && ...)] *)
Fixpoint grandparent_loop (files : list FilePtr) (index : nat) (seen_key : bool) (overlapped : Z) (internal_key : bytes)
    : nat * Z :=
  match files with
  | [] => (index, overlapped)
  | f :: files =>
      match InternalKey_Compare C internal_key (f_largest f) with
      | Gt => grandparent_loop files (index + 1) seen_key (if seen_key then s64 (overlapped + f_size f) else overlapped) internal_key
      | _ => (index, overlapped)
      end
  end.

Definition ShouldStopBefore (c : Compaction) (internal_key : bytes) : bool * Compaction :=
  let '(index, overlapped) :=
    grandparent_loop (drop (c_grandparent_index c) (c_grandparents c)) (c_grandparent_index c) (c_seen_key c)
      (c_overlapped_bytes c) internal_key in
  if MaxGrandParentOverlapBytes (c_options c) <? overlapped
  then (true, with_progress index true 0 c)
  else (false, with_progress index true overlapped c).
End Choice.

(** ** Sizes of levels *)

Definition NumLevelBytes (current : Version) (level : nat) : Z := TotalFileSize (level_files current level).

Definition MaxNextLevelOverlappingBytes (C : Comparator) (current : Version) : option Z :=
  foldr (fun level r =>
           foldr (fun f r =>
                    result ← r;
                    overlaps ← GetOverlappingInputs C current (level + 1) (Some (f_smallest f)) (Some (f_largest f));
                    Some (Z.max result (TotalFileSize overlaps)))
             r (rev (level_files current level)))
    (Some 0) (rev (seq 1 (kNumLevels - 2))).

(** ** Boundary files: the loop ends, and the result is closed *)

Section Boundary.
Context {C : Comparator} {L : ComparatorLaws C}.
Notation IC := (InternalKeyComparator C).
Notation icmp := (InternalKey_Compare C).

(** A file's keys are in order. *)
Definition file_keys_ok (f : FilePtr) : Prop := icmp (f_largest f) (f_smallest f) <> Lt.

Lemma smallest_boundary_spec files k best :
  match smallest_boundary C files k best with
  | Some f => (best = Some f \/ (f ∈ files /\ is_boundary C k f = true))
  | None => best = None /\ forall f, f ∈ files -> is_boundary C k f = false
  end.
Proof.
  revert best. induction files as [|f files IH]; intros best; cbn [smallest_boundary].
  { destruct best; [by left|]. split; [done|]. by intros f ?%elem_of_nil. }
  destruct (is_boundary C k f) eqn:E.
  - set (best' := match best with None => _ | Some b => _ end). specialize (IH best').
    assert (Hb : best' = Some f \/ (best' = best /\ best <> None)).
    { unfold best'. destruct best as [b|]; [|by left]. destruct (icmp _ _); auto. }
    destruct (smallest_boundary C files k best') as [g|].
    + destruct IH as [IH|[IH1 IH2]]; [|right; split; [by right|done]].
      destruct Hb as [Hb|[Hb _]]; [|left; congruence]. right. rewrite Hb in IH. injection IH as <-. split; [by left|done].
    + destruct IH as [IH _], Hb as [Hb|[Hb1 Hb2]]; congruence.
  - specialize (IH best). destruct (smallest_boundary C files k best) as [g|].
    + destruct IH as [IH|[IH1 IH2]]; [by left|right; split; [by right|done]].
    + destruct IH as [-> IH]. split; [done|]. intros g [->|Hg]%elem_of_cons; auto.
Qed.

Lemma FindSmallestBoundaryFile_spec files k :
  match FindSmallestBoundaryFile C files k with
  | Some f => f ∈ files /\ is_boundary C k f = true
  | None => forall f, f ∈ files -> is_boundary C k f = false
  end.
Proof.
  pose proof (smallest_boundary_spec files k None) as H. unfold FindSmallestBoundaryFile.
  destruct (smallest_boundary C files k None); [destruct H as [?|?]; done|by destruct H].
Qed.

Lemma is_boundary_spec k f :
  is_boundary C k f = true <->
  icmp (f_smallest f) k = Gt /\ Compare (Comparator := C) (f_smallest_user f) (ExtractUserKey k) = Eq.
Proof. unfold is_boundary. by rewrite andb_true_iff, !bool_decide_eq_true. Qed.

Lemma icmp_lt_gt a b : icmp a b = Gt <-> icmp b a = Lt.
Proof. exact (Compare_gt_lt (C := IC) a b). Qed.

(** The boundary file that is found is the first. *)
Lemma smallest_boundary_first fs k best x g : smallest_boundary C fs k best = Some x -> (best = Some g \/ (g ∈ fs /\ is_boundary C k g = true)) -> icmp (f_smallest x) (f_smallest g) <> Gt.
Proof.
  revert best g. induction fs as [|f fs IH]; intros best g Hx Hg; cbn [smallest_boundary] in Hx.
  - destruct Hg as [->|[Hg%elem_of_nil _]]; [|done]. injection Hx as ->. change (Compare (Comparator := IC) (f_smallest x) (f_smallest x) <> Gt). by rewrite Compare_refl.
  - assert (Hnew : forall b, smallest_boundary C fs k (Some b) = Some x -> icmp (f_smallest b) (f_smallest g) <> Gt -> icmp (f_smallest x) (f_smallest g) <> Gt).
    { intros b Hb Hle. apply (Compare_le_trans (C := IC) _ (f_smallest b)); [|exact Hle]. apply (IH (Some b) b Hb). by left. }
    destruct (is_boundary C k f) eqn:Eb.
    + destruct best as [b|].
      * destruct (icmp (f_smallest f) (f_smallest b)) eqn:Ec.
        -- destruct Hg as [[= ->]|[[->|Hg]%elem_of_cons Hgb]]; [by apply (IH (Some g) g Hx); left| |by apply (IH (Some b) g Hx); right].
           apply (Hnew b Hx). change (Compare (Comparator := IC) (f_smallest b) (f_smallest f) <> Gt). by rewrite (Compare_eq_sym (C := IC) _ _ Ec).
        -- destruct Hg as [[= ->]|[[->|Hg]%elem_of_cons Hgb]]; [by apply (Hnew f Hx); rewrite Ec|by apply (IH (Some f) _ Hx); left|by apply (IH (Some f) _ Hx); right].
        -- destruct Hg as [[= ->]|[[->|Hg]%elem_of_cons Hgb]]; [by apply (IH (Some g) g Hx); left| |by apply (IH (Some b) g Hx); right].
           apply (Hnew b Hx). apply icmp_lt_gt in Ec. by rewrite Ec.
      * destruct Hg as [Hg|[[->|Hg]%elem_of_cons Hgb]]; [done|by apply (IH (Some f) _ Hx); left|by apply (IH (Some f) _ Hx); right].
    + destruct Hg as [->|[[->|Hg]%elem_of_cons Hgb]]; [by apply (IH (Some g) g Hx); left|congruence|by apply (IH best g Hx); right].
Qed.

Lemma FindSmallestBoundaryFile_first files k f g :
  FindSmallestBoundaryFile C files k = Some f -> g ∈ files -> is_boundary C k g = true -> icmp (f_smallest f) (f_smallest g) <> Gt.
Proof. intros Hf Hg Hb. apply (smallest_boundary_first files k None f g Hf). by right. Qed.

(** A file that begins between the key and the first boundary file is one, too. *)
Lemma boundary_between k f g : is_boundary C k f = true -> icmp (f_smallest g) k = Gt -> icmp (f_smallest g) (f_smallest f) <> Gt -> is_boundary C k g = true.
Proof.
  intros [Hf Hu]%is_boundary_spec Hg Hle. apply is_boundary_spec. split; [done|]. apply ikey_le_user in Hle.
  assert (Hk : Compare (Comparator := C) (ExtractUserKey k) (f_smallest_user g) <> Gt) by (apply ikey_le_user; apply icmp_lt_gt in Hg; by rewrite Hg).
  assert (Hle' : Compare (Comparator := C) (f_smallest_user g) (ExtractUserKey k) <> Gt) by by rewrite <- (Compare_eq_r _ _ (f_smallest_user g) Hu).
  rewrite (Compare_antisym (f_smallest_user g)) in Hk. by destruct (Compare (f_smallest_user g) (ExtractUserKey k)).
Qed.

(** A boundary file ends after the key it was found for. *)
Lemma boundary_largest k f : file_keys_ok f -> is_boundary C k f = true -> icmp (f_largest f) k = Gt.
Proof.
  intros Hok [Hgt _]%is_boundary_spec. apply icmp_lt_gt in Hgt. apply icmp_lt_gt.
  unfold file_keys_ok in Hok. change icmp with (Compare (Comparator := IC)) in *.
  destruct (Compare (Comparator := IC) (f_smallest f) (f_largest f)) eqn:E.
  - by rewrite <- (Compare_eq_r (C := IC) _ _ k E).
  - by eapply Compare_lt_trans.
  - by rewrite (Compare_antisym (C := IC)), E in Hok.
Qed.

(** The files that begin after a key: what the loop still can add. *)
Definition later_files (k : bytes) (files : list FilePtr) : list FilePtr :=
  List.filter (fun f => bool_decide (icmp (f_smallest f) k = Gt)) files.

Lemma later_files_mono files j k :
  icmp k j = Gt -> (length (later_files k files) <= length (later_files j files))%nat.
Proof.
  intros Hkj. induction files as [|f files IH]; [done|]. unfold later_files in *. cbn.
  case_bool_decide as H1; [|case_bool_decide; cbn; lia]. rewrite bool_decide_true; [cbn; lia|].
  apply icmp_lt_gt in H1, Hkj. apply icmp_lt_gt. change icmp with (Compare (Comparator := IC)) in *. by eapply Compare_lt_trans.
Qed.

Lemma later_files_less files j k f :
  f ∈ files -> icmp (f_smallest f) j = Gt -> icmp k (f_smallest f) <> Lt ->
  (length (later_files k files) < length (later_files j files))%nat.
Proof.
  intros Hf Hj Hk. assert (Hkj : icmp k j = Gt).
  { apply icmp_lt_gt in Hj. apply icmp_lt_gt. change icmp with (Compare (Comparator := IC)) in *.
    destruct (Compare (Comparator := IC) k (f_smallest f)) eqn:E; [|done|].
    - by rewrite (Compare_eq_r (C := IC) _ _ j E).
    - eapply Compare_lt_trans; [exact Hj|]. by apply icmp_lt_gt. }
  induction files as [|g files IH]; [by apply elem_of_nil in Hf|].
  pose proof (later_files_mono files j k Hkj) as Hm. unfold later_files in *. cbn. apply elem_of_cons in Hf as [<-|Hf].
  - rewrite (bool_decide_true (icmp (f_smallest f) j = Gt)) by done.
    rewrite bool_decide_false; [cbn; lia|]. intros H. apply Hk. by apply icmp_lt_gt.
  - specialize (IH Hf). pose proof (later_files_mono [g] j k Hkj) as Hg. unfold later_files in Hg. cbn in Hg.
    destruct (bool_decide (icmp (f_smallest g) k = Gt)), (bool_decide (icmp (f_smallest g) j = Gt)); cbn in *; lia.
Qed.

Lemma FindLargestKey_snoc files f k :
  FindLargestKey C files = Some k -> icmp (f_largest f) k = Gt -> FindLargestKey C (files ++ [f]) = Some (f_largest f).
Proof.
  destruct files as [|g files]; [done|]. cbn. intros [= <-] H. rewrite fold_left_app. cbn. by rewrite H.
Qed.

(** The files that were added, each the first boundary file of those before it. *)
Definition boundary_chain (level_files files added : list FilePtr) : Prop :=
  forall i f, added !! i = Some f ->
    f ∈ level_files /\ exists k, FindLargestKey C (files ++ take i added) = Some k /\ is_boundary C k f = true /\
      forall g, g ∈ level_files -> is_boundary C k g = true -> icmp (f_smallest f) (f_smallest g) <> Gt.

(** The files of a level that begin after [k0] and not after [k] begin within one
    that was added. *)
Definition no_gap (level_files added : list FilePtr) (k0 k : bytes) : Prop :=
  forall f, f ∈ level_files -> icmp (f_smallest f) k0 = Gt -> icmp (f_smallest f) k <> Gt ->
    exists g, g ∈ added /\ icmp (f_smallest g) (f_smallest f) <> Gt /\ icmp (f_smallest f) (f_largest g) <> Gt.

Lemma sorted_within level_files f g : Forall file_keys_ok level_files -> files_sorted (C := C) level_files -> f ∈ level_files -> g ∈ level_files ->
  icmp (f_smallest g) (f_smallest f) <> Gt -> icmp (f_smallest f) (f_largest g) <> Gt -> f = g.
Proof.
  intros Hok Hs Hf Hg H1 H2. rewrite Forall_forall in Hok. pose proof (Hok f Hf) as Hff. change icmp with (Compare (Comparator := IC)) in *.
  apply list_elem_of_lookup in Hf as [i Hi], Hg as [j Hj]. destruct (lt_eq_lt_dec i j) as [[Hlt| ->]|Hgt]; [|congruence|].
  - pose proof (Hs i j f g Hi Hj Hlt) as Hb. exfalso. apply H1. apply icmp_lt_gt. eapply (Compare_le_lt_trans (C := IC)); [|exact Hb].
    intros E%icmp_lt_gt. by apply Hff.
  - pose proof (Hs j i g f Hj Hi Hgt) as Hb. exfalso. apply H2. by apply icmp_lt_gt.
Qed.

Lemma boundary_chain_cons level_files files added f k :
  f ∈ level_files -> FindLargestKey C files = Some k -> is_boundary C k f = true ->
  (forall g, g ∈ level_files -> is_boundary C k g = true -> icmp (f_smallest f) (f_smallest g) <> Gt) ->
  boundary_chain level_files (files ++ [f]) added -> boundary_chain level_files files (f :: added).
Proof.
  intros Hf Hk Hb Hmin Hc [|i] g Hg; cbn in Hg.
  - injection Hg as <-. split; [done|]. exists k. cbn. by rewrite app_nil_r.
  - destruct (Hc i g Hg) as (Hin & k' & Hk' & Hb'). split; [done|]. exists k'. cbn [take]. by rewrite <- app_assoc in Hk'.
Qed.

Lemma boundary_loop_spec level_files fuel k files :
  Forall file_keys_ok level_files -> FindLargestKey C files = Some k ->
  (length (later_files k level_files) < fuel)%nat ->
  exists added k', boundary_loop C fuel level_files k files = Some (files ++ added) /\
    FindLargestKey C (files ++ added) = Some k' /\ boundary_chain level_files files added /\ no_gap level_files added k k' /\
    forall f, f ∈ level_files -> is_boundary C k' f = false.
Proof.
  intros Hok. revert k files. induction fuel as [|fuel IH]; intros k files Hk Hfuel; [lia|]. cbn [boundary_loop].
  pose proof (FindSmallestBoundaryFile_spec level_files k) as Hs.
  destruct (FindSmallestBoundaryFile C level_files k) as [f|] eqn:Ef; [|exists [], k; rewrite app_nil_r; split; [done|split; [done|split; [intros i f; by rewrite lookup_nil|split; [by intros f|exact Hs]]]]].
  destruct Hs as [Hf Hb]. pose proof (fun g => FindSmallestBoundaryFile_first level_files k f g Ef) as Hmin. pose proof (proj1 (Forall_forall _ _) Hok f Hf) as Hfok.
  destruct (IH (f_largest f) (files ++ [f])) as (added & k' & E & Hk' & Hc & Hgap & Hno).
  - apply (FindLargestKey_snoc _ _ k); [done|]. by apply boundary_largest.
  - pose proof (later_files_less level_files k (f_largest f) f Hf (proj1 (proj1 (is_boundary_spec _ _) Hb)) Hfok). lia.
  - exists (f :: added), k'. rewrite <- app_assoc in E, Hk'. split; [done|]. split; [done|]. split.
    { by apply (boundary_chain_cons _ _ _ _ k). }
    split; [|done]. intros g Hg Hgk Hgk'. destruct (icmp (f_smallest g) (f_largest f)) eqn:El.
    3: { destruct (Hgap g Hg El Hgk') as (x & Hx & H1). exists x. split; [by right|done]. }
    all: exists f; split; [by left|]; split; [|by rewrite El].
    all: intros Hlt; apply (Hmin g Hg); [|exact Hlt]; apply (boundary_between k f g Hb Hgk); apply icmp_lt_gt in Hlt; by rewrite Hlt.
Qed.

End Boundary.

(** Three files that share the user key k at their ends. *)
Definition boundary_example : list FilePtr :=
  let file n a s b t := mkFilePtr n (FileMetaData_new n 100 (cstr a ++ EncodeFixed64 (PackSequenceAndType s kTypeValue))
    (cstr b ++ EncodeFixed64 (PackSequenceAndType t kTypeValue))) in
  [file 1 "a" 9 "k" 8; file 2 "k" 7 "k" 5; file 3 "k" 4 "m" 3; file 4 "n" 2 "p" 1].

Example boundary_example_inputs :
  option_map (map f_number) (AddBoundaryInputs BytewiseComparator boundary_example (take 1 boundary_example)) = Some [1; 2; 3].
Proof. vm_compute. reflexivity. Qed.

