(* ===== verification/InputIterator.v ===== *)
(** * db/version_set: iterators over tables

    Models the iterators that [Version::AddIterators] and
    [VersionSet::MakeInputIterator] of src/db/version_set.cc put together: over a
    table that the table cache opens, over the tables of a level that
    [GetFileIterator] opens one after the other, and the merge of those.

    An open iterator works on its own copies of the table cache and the block
    cache, as they were when it was made: what the caches hold does not change what
    is read (TableCache.v), and the tables are pinned while it is there. *)

From Stdlib Require Import Sorted.
From stdpp Require Import gmap sorting.
From S2P Require Import Prelude Coding Comparator Crc32c Bloom DbFormat Status Iterator IteratorWrapper TwoLevelIterator Merger BlockBuilder Block Format FilterBlock TableBuilder Table MemTable UserView.
From S2P Require Import VersionEdit Options Version VersionGet InternalTable TableCache BuildTable Filename Compaction.

Section InputIterator.
Context `{CS : Checksum} {E F KC H K : Type} {R : RandomAccessFile F} {RF : RandomAccessFiles E F}.
Context {CO : CacheOps KC H (Table F) TableDeleter} {BC : BlockCache K}.
Variables (Snappy Zstd : Compressor) (C : Comparator) (dbname : bytes) (options_ : Options).
(** A bound on the empty blocks or tables that an iterator skips at once. *)
Variable fuel : nat.
Notation TC := (TableCacheState E KC K).

(** ** A table *)

(** The iterator that [TableCache::NewIterator] returns, with its table. *)
Definition TableIterator : Type := Table F * TwoLevelIterator BlockIterator BlockIterator (option K).

Section Table.
Variable options : ReadOptions.
Notation T t := (TwoLevel_Iterator (BlockReader Snappy Zstd t options) fuel).

Definition on_table (f : Iterator (TwoLevelIterator BlockIterator BlockIterator (option K)) -> option (TwoLevelIterator BlockIterator BlockIterator (option K))) (t : Table F)
    : option TableIterator := s ← f (T t); Some (t, s).

#[export] Instance Table_Iterator : Iterator TableIterator := {|
  it_Valid '(t, s) := it_Valid (Iterator := T t) s;
  it_SeekToFirst '(t, s) := on_table (fun I => it_SeekToFirst (Iterator := I) s) t;
  it_SeekToLast '(t, s) := on_table (fun I => it_SeekToLast (Iterator := I) s) t;
  it_Seek '(t, s) k := on_table (fun I => it_Seek (Iterator := I) s k) t;
  it_Next '(t, s) := on_table (fun I => it_Next (Iterator := I) s) t;
  it_Prev '(t, s) := on_table (fun I => it_Prev (Iterator := I) s) t;
  it_key '(t, s) := it_key (Iterator := T t) s;
  it_value '(t, s) := it_value (Iterator := T t) s;
  it_status '(t, s) := it_status (Iterator := T t) s;
|}.

(** An error iterator, or one over the table. *)
Definition FileIterator : Type := EmptyIterator + TableIterator.

#[export] Instance File_Iterator : Iterator FileIterator := Sum_Iterator (IB := Table_Iterator).

(** [table_cache->NewIterator(options, number, size)] *)
Definition file_iterator (number size : Z) (tc : TC) : option (FileIterator * TC) :=
  '(r, tc) ← TableCache_NewIterator Snappy Zstd dbname options_ number size tc;
  Some (match r with inl s => inl (NewErrorIterator s) | inr (it, table, _) => inr (table, it) end, tc).

(** ** A level *)

Definition GetFileIterator (tc : TC) (file_value : bytes) : option (FileIterator * TC) :=
  if negb (zlen file_value =? 16) then Some (inl (NewErrorIterator (Corruption (cstr "FileReader invoked with unexpected value") [])), tc)
  else '(it, _) ← file_iterator (DecodeFixed64 file_value) (DecodeFixed64 (drop 8 file_value)) tc; Some (it, tc).

Definition LevelIterator : Type := TwoLevelIterator LevelFileNumIterator FileIterator TC.

#[export] Instance Level_Iterator : Iterator LevelIterator :=
  TwoLevel_Iterator (II := LevelFileNum_Iterator C) (ID := File_Iterator) GetFileIterator fuel.

(** [NewTwoLevelIterator(new LevelFileNumIterator(icmp, &files), &GetFileIterator,
    table_cache, options)]: [NewConcatenatingIterator] for the files of a level. *)
Definition level_iterator (files : list FilePtr) (tc : TC) : option LevelIterator :=
  NewTwoLevelIterator (II := LevelFileNum_Iterator C) (ID := File_Iterator) (LevelFileNumIterator_new files) tc.

(** A table of level 0, or a level. *)
Definition TablesIterator : Type := FileIterator + LevelIterator.

#[export] Instance Tables_Iterator : Iterator TablesIterator := Sum_Iterator (IA := File_Iterator) (IB := Level_Iterator).

Definition file_iterators (files : list FilePtr) (tc : TC) : option (list TablesIterator) :=
  mapM (fun f => '(it, _) ← file_iterator (f_number f) (f_size f) tc; Some (inl it)) files.

Definition level_iterators (files : list FilePtr) (tc : TC) : option (list TablesIterator) :=
  match files with
  | [] => Some []
  | _ => it ← level_iterator files tc; Some [inr it]
  end.

Definition AddIterators (v : Version) (tc : TC) : option (list TablesIterator) :=
  tables ← file_iterators (level_files v 0) tc;
  levels ← mapM (fun level => level_iterators (level_files v level) tc) (seq 1 (kNumLevels - 1));
  Some (tables ++ concat levels).
End Table.

(** ** [VersionSet::MakeInputIterator] *)

Definition input_options : ReadOptions := mkReadOptions (paranoid_checks options_) false None.

Definition InputIterator : Type := EmptyIterator + (TablesIterator + MergingIterator TablesIterator).

#[export] Instance Input_Iterator : Iterator InputIterator :=
  Sum_Iterator (IB := Sum_Iterator (IA := Tables_Iterator input_options) (IB := MergingIterator_Iterator (I := Tables_Iterator input_options) (InternalKeyComparator C))).

Definition MakeInputIterator (c : Compaction) (tc : TC) : option InputIterator :=
  let children which :=
    if (c_level c + which =? 0)%nat then file_iterators (c_inputs c which) tc
    else level_iterators input_options (c_inputs c which) tc in
  l0 ← children 0%nat;
  l1 ← children 1%nat;
  NewMergingIterator (I := Tables_Iterator input_options) (l0 ++ l1).
End InputIterator.
