(* ===== verification/CompactionDrop.v ===== *)
(** * Which entries a compaction drops

    The decision of the loop of [DBImpl::DoCompactionWork] (src/db/db_impl.cc)
    whether an entry is written to the output, and the theorem that dropping
    does not change what any reader can see. *)

From Stdlib Require Import Sorted.
From stdpp Require Import sorting.
From S2P Require Import Prelude Coding Comparator DbFormat Status MemTable Iterator UserView VersionEdit Options Version VersionGet Overlap Compaction.

Section Drop.
Variable C : Comparator.

(** [current_user_key], [has_current_user_key] and [last_sequence_for_key]. *)
Record DropState := mkDrop { ds_user_key : bytes; ds_has_key : bool; ds_last_sequence : Z }.

Definition DropState_new : DropState := mkDrop [] false kMaxSequenceNumber.

(** [drop], with the state and the compaction after the decision. *)
Definition drop_decision (smallest_snapshot : Z) (ds : DropState) (c : Compaction) (key : bytes) : bool * DropState * Compaction :=
  match ParseInternalKey key with
  | None => (false, DropState_new, c)
  | Some ikey =>
      let ds :=
        if negb (ds_has_key ds) || bool_decide (Compare (Comparator := C) (user_key ikey) (ds_user_key ds) <> Eq)
        then mkDrop (user_key ikey) true kMaxSequenceNumber else ds in
      let '(dropped, c) :=
        if ds_last_sequence ds <=? smallest_snapshot then (true, c)
        else if bool_decide (type ikey = kTypeDeletion) && (sequence ikey <=? smallest_snapshot)
        then IsBaseLevelForKey C c (user_key ikey)
        else (false, c) in
      (dropped, mkDrop (ds_user_key ds) (ds_has_key ds) (sequence ikey), c)
  end.

(** The entries written, of those the input yields. *)
Fixpoint kept_entries (smallest_snapshot : Z) (ds : DropState) (c : Compaction) (kvs : list kv) : list kv :=
  match kvs with
  | [] => []
  | (k, v) :: kvs =>
      let '(dropped, ds, c) := drop_decision smallest_snapshot ds c k in
      if (dropped : bool) then kept_entries smallest_snapshot ds c kvs
      else (k, v) :: kept_entries smallest_snapshot ds c kvs
  end.
End Drop.

(** ** Base levels *)

Section BaseLevel.
Context {C : Comparator} {L : ComparatorLaws C}.
Notation ucmp := (Compare (Comparator := C)).

(** The reference: a file's range has the key. *)
Definition covers (k : bytes) (f : FilePtr) : bool :=
  bool_decide (ucmp (f_smallest_user f) k <> Gt) && bool_decide (ucmp k (f_largest_user f) <> Gt).

Definition covered_in (v : Version) (lvl : nat) (k : bytes) : bool := existsb (covers k) (level_files v lvl).

(** The files a level's index has passed end before the key. *)
Definition ptr_ok (files : list FilePtr) (ptr : nat) (k : bytes) : Prop :=
  forall j f, files !! j = Some f -> (j < ptr)%nat -> ucmp (f_largest_user f) k = Lt.

Lemma ptr_ok_mono files ptr k k' : ptr_ok files ptr k -> ucmp k k' <> Gt -> ptr_ok files ptr k'.
Proof. intros H Hk j f Hj Hlt. eapply Compare_lt_le_trans; [by eapply H|done]. Qed.

Lemma base_level_loop_spec files ptr k :
  (forall f, f ∈ files -> bounds_ok (C := C) f) -> files_sorted (C := C) files -> ptr_ok files ptr k ->
  let '(covered, ptr') := base_level_loop C (drop ptr files) ptr k in
  covered = existsb (covers k) files /\ ptr_ok files ptr' k.
Proof.
  intros Hok Hs. remember (drop ptr files) as rest eqn:E. revert ptr E.
  induction rest as [|f rest IH]; intros ptr E Hp; cbn [base_level_loop].
  - split; [|done]. symmetry. apply not_true_is_false. intros (f & Hf & Hc)%existsb_exists.
    apply list_elem_of_In, list_elem_of_lookup in Hf as [j Hj].
    assert (length files <= ptr)%nat by (apply (f_equal length) in E; rewrite length_drop in E; cbn in E; lia).
    pose proof (Hp j f Hj ltac:(apply lookup_lt_Some in Hj; lia)) as Hlt. apply andb_prop in Hc as [_ Hc%bool_decide_eq_true].
    by apply Hc, Compare_gt_lt.
  - assert (Hf : files !! ptr = Some f) by (rewrite <- (Nat.add_0_r ptr), <- lookup_drop, <- E; done).
    assert (Erest : rest = drop (ptr + 1) files).
    { rewrite (Nat.add_comm ptr 1), <- skipn_skipn, <- E. done. }
    destruct (ucmp k (f_largest_user f)) eqn:Ec.
    3: { apply IH; [done|]. intros j g Hj Hlt. destruct (decide (j = ptr)) as [->|]; [|apply (Hp j); [done|lia]].
         simplify_eq. by apply Compare_gt_lt. }
    all: split; [|done].
    all: assert (Hbefore : forall j g, files !! j = Some g -> (j < ptr)%nat -> covers k g = false).
    1,3: intros j g Hj Hlt; apply andb_false_intro2, bool_decide_eq_false; intros H; apply H, Compare_gt_lt; by apply (Hp j).
    all: destruct (ucmp k (f_smallest_user f)) eqn:Es.
    2,5: symmetry; apply not_true_is_false; intros (g & Hg & Hc)%existsb_exists;
      apply list_elem_of_In, list_elem_of_lookup in Hg as [j Hj];
      destruct (Nat.lt_ge_cases j ptr) as [Hlt|Hge]; [by rewrite (Hbefore j g Hj Hlt) in Hc|];
      apply andb_prop in Hc as [Hc%bool_decide_eq_true _];
      assert (Hb : BeforeFile C (Some k) f = true) by (by apply bool_decide_eq_true);
      apply (sorted_BeforeFile files ptr j f g (Some k) Hok Hs Hf Hj Hge), bool_decide_eq_true in Hb;
      by apply Hc, Compare_gt_lt.
    all: symmetry; apply existsb_exists; exists f; split; [by eapply list_elem_of_In, list_elem_of_lookup_2|];
      apply andb_true_intro; split; apply bool_decide_eq_true; [apply Compare_nlt_le; congruence|congruence].
Qed.

(** All the indices of a compaction. *)
Definition ptrs_ok (c : Compaction) (k : bytes) : Prop :=
  length (c_level_ptrs c) = kNumLevels /\
  forall lvl ptr, c_level_ptrs c !! lvl = Some ptr -> ptr_ok (level_files (c_input_version c) lvl) ptr k.

Definition base_levels_spec_def (v : Version) (n lvl : nat) (k : bytes) : bool :=
  forallb (fun lvl => negb (covered_in v lvl k)) (seq lvl n).

Lemma base_levels_spec n lvl v ptrs k :
  levels_ok (C := C) v -> (1 <= lvl)%nat -> (lvl + n <= length ptrs)%nat ->
  (forall l ptr, ptrs !! l = Some ptr -> ptr_ok (level_files v l) ptr k) ->
  let '(base, ptrs') := base_levels C n lvl v ptrs k in
  base = base_levels_spec_def v n lvl k /\ length ptrs' = length ptrs /\
  forall l ptr, ptrs' !! l = Some ptr -> ptr_ok (level_files v l) ptr k.
Proof.
  intros Hv. revert lvl ptrs. induction n as [|n IH]; intros lvl ptrs Hl Hlen Hp; cbn [base_levels]; [done|].
  destruct (lookup_lt_is_Some_2 ptrs lvl ltac:(lia)) as [ptr Eptr]. rewrite Eptr. change (default 0%nat (Some ptr)) with ptr.
  destruct (Hv lvl Hl) as [Hok Hs]. pose proof (base_level_loop_spec (level_files v lvl) ptr k Hok Hs (Hp _ _ Eptr)) as H.
  destruct (base_level_loop C (drop ptr (level_files v lvl)) ptr k) as [covered ptr']. destruct H as [Hc Hptr].
  assert (Hp' : forall l p, <[lvl := ptr']> ptrs !! l = Some p -> ptr_ok (level_files v l) p k).
  { intros l p Hlp. destruct (decide (l = lvl)) as [->|Hne].
    - rewrite list_lookup_insert_eq in Hlp by lia. by injection Hlp as <-.
    - rewrite list_lookup_insert_ne in Hlp by done. by apply Hp. }
  unfold base_levels_spec_def. cbn [seq forallb]. unfold covered_in at 1. rewrite <- Hc. destruct covered; cbn [negb andb].
  - split; [done|]. split; [by rewrite length_insert|done].
  - specialize (IH (lvl + 1)%nat (<[lvl := ptr']> ptrs) ltac:(lia) ltac:(rewrite length_insert; lia) Hp').
    destruct (base_levels C n (lvl + 1) v (<[lvl := ptr']> ptrs) k) as [base ptrs']. destruct IH as (-> & Hlen' & Hp'').
    rewrite length_insert in Hlen'. rewrite Nat.add_1_r. done.
Qed.

(** No file below the output level has the key. *)
Definition is_base (v : Version) (level : nat) (k : bytes) : bool :=
  base_levels_spec_def v (kNumLevels - (level + 2)) (level + 2) k.

Lemma IsBaseLevelForKey_spec c k :
  levels_ok (C := C) (c_input_version c) -> (c_level c + 2 <= kNumLevels)%nat -> ptrs_ok c k ->
  exists ptrs, IsBaseLevelForKey C c k = (is_base (c_input_version c) (c_level c) k, with_ptrs ptrs c) /\
    ptrs_ok (with_ptrs ptrs c) k.
Proof.
  intros Hv Hl [Hlen Hp]. unfold IsBaseLevelForKey.
  pose proof (base_levels_spec (kNumLevels - (c_level c + 2)) (c_level c + 2) (c_input_version c) (c_level_ptrs c) k Hv
    ltac:(lia) ltac:(lia) Hp) as H.
  destruct (base_levels C _ _ _ _ _) as [base ptrs]. destruct H as (-> & Hlen' & Hp'). exists ptrs. split; [done|].
  split; [cbn; lia|exact Hp'].
Qed.
End BaseLevel.

(** ** The entries kept *)

Section Kept.
Context {C : Comparator} {L : ComparatorLaws C}.
Notation ucmp := (Compare (Comparator := C)).
Variables (v : Version) (level : nat) (smallest_snapshot : Z).
Context (Hv : levels_ok (C := C) v) (Hlevel : (level + 2 <= kNumLevels)%nat).

(** The reference: an entry is dropped when an entry of its user key before it
    is visible at the smallest snapshot, or when it is a deletion visible
    there and no deeper level has the key. *)
Definition hidden (before : list Entry) (e : Entry) : bool :=
  existsb (fun e' => bool_decide (ucmp (e_user_key e') (e_user_key e) = Eq) && (e_seq e' <=? smallest_snapshot)) before.

Definition obsolete (e : Entry) : bool :=
  bool_decide (e_type e = kTypeDeletion) && (e_seq e <=? smallest_snapshot) && is_base (C := C) v level (e_user_key e).

Fixpoint kept_from (before es : list Entry) : list Entry :=
  match es with
  | [] => []
  | e :: es => (if hidden before e || obsolete e then [] else [e]) ++ kept_from (before ++ [e]) es
  end.

Lemma kept_from_elem before es e :
  e ∈ kept_from before es <->
  exists es1 es2, es = es1 ++ e :: es2 /\ hidden (before ++ es1) e = false /\ obsolete e = false.
Proof.
  revert before. induction es as [|x es IH]; intros before; cbn [kept_from].
  { split; [by intros ?%elem_of_nil|]. by intros ([|] & ? & ? & _). }
  rewrite elem_of_app, IH. split.
  - intros [Hx|(es1 & es2 & -> & H1 & H2)].
    + destruct (hidden before x || obsolete x) eqn:E; [by apply elem_of_nil in Hx|]. apply list_elem_of_singleton in Hx as ->.
      apply orb_false_elim in E as [H1 H2]. exists [], es. by rewrite app_nil_r.
    + exists (x :: es1), es2. split; [done|]. by rewrite <- app_assoc in H1.
  - intros ([|y es1] & es2 & [= -> ->] & H1 & H2).
    + left. rewrite app_nil_r in H1. rewrite H1, H2. by left.
    + right. exists es1, es2. split; [done|]. by rewrite <- app_assoc.
Qed.

(** What the state of the loop says of the entries before. *)
Definition drop_inv (before : list Entry) (ds : DropState) : Prop :=
  match last before with
  | None => ds_has_key ds = false
  | Some e => ds_has_key ds = true /\ ucmp (ds_user_key ds) (e_user_key e) = Eq /\ ds_last_sequence ds = e_seq e
  end.

Lemma sorted_before_last before e0 e x :
  Forall entry_ok ((before ++ [e0]) ++ [e]) -> entries_sorted C ((before ++ [e0]) ++ [e]) -> x ∈ before ++ [e0] ->
  ucmp (e_user_key x) (e_user_key e) = Eq ->
  ucmp (e_user_key e0) (e_user_key e) = Eq /\ e_seq e0 <= e_seq x.
Proof.
  intros Hok Hs [i Hi]%list_elem_of_lookup Hk. set (es := (before ++ [e0]) ++ [e]) in *.
  assert (H0 : es !! length before = Some e0).
  { unfold es. rewrite <- app_assoc. cbn. by rewrite lookup_app_r, Nat.sub_diag by lia. }
  assert (He : es !! (length before + 1)%nat = Some e).
  { unfold es. rewrite lookup_app_r by (rewrite length_app; cbn; lia). rewrite length_app. cbn. by rewrite Nat.sub_diag. }
  assert (Hi' : es !! i = Some x) by (by apply lookup_app_l_Some).
  pose proof (lookup_lt_Some _ _ _ Hi) as Hlt. rewrite length_app in Hlt. cbn in Hlt.
  pose proof (entry_before_le Hok Hs i (length before) x e0 Hi' H0 ltac:(lia)) as H1.
  pose proof (entry_before_le Hok Hs (length before) (length before + 1) e0 e H0 He ltac:(lia)) as H2.
  assert (Hk0 : ucmp (e_user_key e0) (e_user_key e) = Eq).
  { destruct (ucmp (e_user_key e0) (e_user_key e)) eqn:E; [done| |done]. pose proof (Compare_le_lt_trans _ _ _ H1 E). congruence. }
  split; [done|]. destruct (decide (i = length before)) as [->|Hne]; [simplify_eq; lia|].
  apply (entry_before Hok Hs i (length before) x e0 Hi' H0 ltac:(lia)).
  rewrite (Compare_eq_l (C := C) _ _ (e_user_key e0) Hk). by apply Compare_eq_sym.
Qed.

(** The code's test of the last entry of the key finds a hiding entry if there
    is one. *)
Lemma hidden_spec before ds e :
  Forall entry_ok (before ++ [e]) -> entries_sorted C (before ++ [e]) -> drop_inv before ds ->
  0 <= smallest_snapshot < kMaxSequenceNumber ->
  hidden before e =
    (ds_last_sequence
       (if negb (ds_has_key ds) || bool_decide (ucmp (e_user_key e) (ds_user_key ds) <> Eq)
        then mkDrop (e_user_key e) true kMaxSequenceNumber else ds) <=? smallest_snapshot).
Proof.
  intros Hok Hs Hinv Hsnap. unfold drop_inv in Hinv. destruct before as [|e0 before _] using rev_ind.
  { cbn in Hinv. rewrite Hinv. cbn. symmetry. apply Z.leb_gt. lia. }
  rewrite last_snoc in Hinv. destruct Hinv as (-> & Hk & Hseq). cbn [negb orb].
  assert (Hek : ucmp (e_user_key e) (ds_user_key ds) = Eq <-> ucmp (e_user_key e0) (e_user_key e) = Eq).
  { rewrite <- (Compare_eq_l _ _ (e_user_key e) Hk). split; apply Compare_eq_sym. }
  case_bool_decide as Hc.
  - cbn [ds_last_sequence]. rewrite (proj2 (Z.leb_gt _ _)) by lia. apply not_true_is_false.
    intros (x & Hx%list_elem_of_In & [Hxk%bool_decide_eq_true _]%andb_prop)%existsb_exists.
    apply Hc, Hek. by apply (sorted_before_last before e0 e x Hok Hs Hx).
  - assert (He0 : ucmp (e_user_key e0) (e_user_key e) = Eq).
    { apply Hek. by destruct (ucmp (e_user_key e) (ds_user_key ds)) eqn:E; [|destruct Hc..]. }
    rewrite Hseq. destruct (Z.leb_spec (e_seq e0) smallest_snapshot) as [Hle|Hgt].
    + apply existsb_exists. exists e0. split; [apply in_or_app; right; by left|].
      apply andb_true_intro. split; [by apply bool_decide_eq_true|by apply Z.leb_le].
    + apply not_true_is_false. intros (x & Hx%list_elem_of_In & [Hxk%bool_decide_eq_true Hxs%Z.leb_le]%andb_prop)%existsb_exists.
      destruct (sorted_before_last before e0 e x Hok Hs Hx Hxk) as [_ Hle]. lia.
Qed.

Lemma ptrs_ok_mono c k k' : ptrs_ok (C := C) c k -> ucmp k k' <> Gt -> ptrs_ok (C := C) c k'.
Proof. intros [Hl Hp] Hk. split; [done|]. intros lvl ptr Hlp. eapply ptr_ok_mono; [by apply Hp|done]. Qed.

Lemma entries_sorted_app_l a b : entries_sorted C (a ++ b) -> entries_sorted C a.
Proof. unfold entries_sorted. rewrite map_app. apply StronglySorted_app_1_l. Qed.

Lemma is_base_decision c e :
  c_input_version c = v -> c_level c = level -> ptrs_ok (C := C) c (e_user_key e) ->
  exists ptrs, (if bool_decide (e_type e = kTypeDeletion) && (e_seq e <=? smallest_snapshot)
              then IsBaseLevelForKey C c (e_user_key e) else (false, c)) = (obsolete e, with_ptrs ptrs c) /\
    ptrs_ok (C := C) (with_ptrs ptrs c) (e_user_key e).
Proof.
  intros Ev El Hp. unfold obsolete. destruct (bool_decide _ && _); cbn [andb]; [|exists (c_level_ptrs c); by destruct c].
  destruct (IsBaseLevelForKey_spec c (e_user_key e) ltac:(by rewrite Ev) ltac:(by rewrite El) Hp) as (ptrs & -> & Hp').
  rewrite Ev, El. by exists ptrs.
Qed.

(** The decision for the next entry. *)
Lemma drop_decision_spec before e ds c :
  c_input_version c = v -> c_level c = level -> 0 <= smallest_snapshot < kMaxSequenceNumber ->
  Forall entry_ok (before ++ [e]) -> entries_sorted C (before ++ [e]) -> drop_inv before ds -> ptrs_ok (C := C) c (e_user_key e) ->
  exists ds' ptrs, drop_decision C smallest_snapshot ds c (entry_ikey e) = (hidden before e || obsolete e, ds', with_ptrs ptrs c) /\
    drop_inv (before ++ [e]) ds' /\ ptrs_ok (C := C) (with_ptrs ptrs c) (e_user_key e).
Proof.
  intros Ev El Hsnap Hoke Hse Hinv Hpe. pose proof (hidden_spec before ds e Hoke Hse Hinv Hsnap) as Hh.
  assert (Heok : entry_ok e) by (apply Forall_app in Hoke as [_ H]; by apply Forall_cons in H as [H _]).
  assert (Hparse : ParseInternalKey (entry_ikey e) = Some (mkParsed (e_user_key e) (e_seq e) (e_type e)))
    by apply ParseInternalKey_InternalKey, Heok.
  unfold drop_decision. rewrite Hparse. cbn [user_key type sequence].
  set (ds' := if negb (ds_has_key ds) || _ then _ else ds) in *. exists (mkDrop (ds_user_key ds') (ds_has_key ds') (e_seq e)).
  assert (Hds' : drop_inv (before ++ [e]) (mkDrop (ds_user_key ds') (ds_has_key ds') (e_seq e))).
  { unfold drop_inv. rewrite last_snoc. cbn. split; [|split; [|done]].
    - unfold ds'. destruct (ds_has_key ds) eqn:Eh; cbn; [by case_bool_decide|done].
    - unfold ds'. destruct (ds_has_key ds); cbn; [|apply Compare_refl]. case_bool_decide as Hc; [apply Compare_refl|].
      apply Compare_eq_sym. by destruct (ucmp (e_user_key e) (ds_user_key ds)) eqn:E; [|destruct Hc..]. }
  rewrite <- Hh. destruct (hidden before e); cbn [orb].
  - exists (c_level_ptrs c). split; [by destruct c|]. split; [exact Hds'|]. by destruct c.
  - destruct (is_base_decision c e Ev El Hpe) as (ptrs & -> & Hp'). by exists ptrs.
Qed.

Lemma ptrs_ok_next before e e' es c :
  Forall entry_ok (before ++ e :: e' :: es) -> entries_sorted C (before ++ e :: e' :: es) -> ptrs_ok (C := C) c (e_user_key e) -> ptrs_ok (C := C) c (e_user_key e').
Proof.
  intros Hok Hs Hc. eapply ptrs_ok_mono; [exact Hc|]. apply (entry_before_le Hok Hs (length before) (length before + 1)); [..|lia].
  - by rewrite lookup_app_r, Nat.sub_diag by lia.
  - rewrite lookup_app_r by lia. by replace (length before + 1 - length before)%nat with 1%nat by lia.
Qed.

Lemma kept_entries_spec before es ds c :
  c_input_version c = v -> c_level c = level -> 0 <= smallest_snapshot < kMaxSequenceNumber ->
  Forall entry_ok (before ++ es) -> entries_sorted C (before ++ es) -> drop_inv before ds ->
  (forall e, es !! 0%nat = Some e -> ptrs_ok (C := C) c (e_user_key e)) ->
  kept_entries C smallest_snapshot ds c (map entry_kv es) = map entry_kv (kept_from before es).
Proof.
  intros Ev El Hsnap. revert before ds c Ev El. induction es as [|e es IH]; intros before ds c Ev El Hok Hs Hinv Hptr; [done|].
  assert (Happ : before ++ e :: es = (before ++ [e]) ++ es) by by rewrite <- app_assoc.
  pose proof Hok as Hok1. pose proof Hs as Hs1. rewrite Happ in Hok1, Hs1.
  destruct (drop_decision_spec before e ds c Ev El Hsnap (proj1 (proj1 (Forall_app _ _ _) Hok1)) (entries_sorted_app_l _ _ Hs1) Hinv (Hptr e eq_refl)) as (ds' & ptrs & Ed & Hds & Hp).
  cbn [map kept_entries kept_from]. change (entry_kv e) with (entry_ikey e, e_value e). cbv iota. rewrite Ed.
  assert (Hrest : kept_entries C smallest_snapshot ds' (with_ptrs ptrs c) (map entry_kv es) = map entry_kv (kept_from (before ++ [e]) es)).
  { apply IH; try done. intros e' He'. destruct es as [|x es]; [done|]. injection He' as ->. by apply (ptrs_ok_next before e e' es). }
  rewrite Hrest. by destruct (_ || _).
Qed.

Lemma kept_from_snoc before es e : kept_from before (es ++ [e]) = kept_from before es ++ (if hidden (before ++ es) e || obsolete e then [] else [e]).
Proof.
  revert before. induction es as [|x es IH]; intros before; cbn [app kept_from]; [by rewrite !app_nil_r|].
  by rewrite IH, <- !app_assoc.
Qed.

(** *** What readers see *)

(** The value a read of [u] at [s] gives. *)
Definition read_value (u : bytes) (s : Z) (es : list Entry) (r : option bytes) : Prop :=
  (exists e, newest_visible (C := C) u s es e /\ r = match e_type e with kTypeValue => Some (e_value e) | kTypeDeletion => None end) \/
  ((forall e, e ∈ es -> ~ visible (C := C) u s e) /\ r = None).

(** No two entries of a user key have the same sequence number. *)
Definition seqs_distinct (es : list Entry) : Prop :=
  forall i j e e', es !! i = Some e -> es !! j = Some e' -> ucmp (e_user_key e) (e_user_key e') = Eq -> e_seq e = e_seq e' -> i = j.

Lemma visible_same_key u s e e' :
  visible (C := C) u s e -> visible (C := C) u s e' -> ucmp (e_user_key e) (e_user_key e') = Eq.
Proof. intros [H _] [H' _]. by rewrite <- (Compare_eq_l u). Qed.

Lemma kept_sub es e : e ∈ kept_from [] es -> e ∈ es.
Proof. intros (es1 & es2 & -> & _)%kept_from_elem. apply elem_of_app. right. by left. Qed.

Section Reads.
Context (es older : list Entry) (Hok : Forall entry_ok es) (Hs : entries_sorted C es) (Hd : seqs_distinct es).
Context (Hnewer : newer (C := C) es older).
Context (Hbase : forall e e', e ∈ es -> e' ∈ older -> ucmp (e_user_key e) (e_user_key e') = Eq -> is_base (C := C) v level (e_user_key e) = false).
Context (u : bytes) (s : Z) (Hsnap : smallest_snapshot <= s).
Notation kept := (kept_from [] es).

(** A newest visible entry that is dropped is an obsolete deletion. *)
Lemma newest_dropped e :
  newest_visible (C := C) u s es e -> e ∈ kept \/ (obsolete e = true /\ forall x, x ∈ kept -> ~ visible (C := C) u s x).
Proof.
  intros (He & Hve & Hnew). apply list_elem_of_split in He as (es1 & es2 & Ees).
  assert (Ei : es !! length es1 = Some e) by by rewrite Ees, lookup_app_r, Nat.sub_diag by lia.
  assert (Hvis : forall x j, es !! j = Some x -> (j < length es1)%nat -> ucmp (e_user_key x) (e_user_key e) = Eq ->
    ~ e_seq x <= s).
  { intros x j Hj Hlt Hk Hxs. assert (Hvx : visible (C := C) u s x).
    { split; [|done]. rewrite (Compare_eq_r (C := C) _ _ u Hk). apply Hve. }
    pose proof (Hnew x ltac:(by eapply list_elem_of_lookup_2) Hvx) as H1.
    pose proof (proj2 (entry_before Hok Hs j (length es1) x e Hj Ei Hlt) Hk) as H2.
    pose proof (Hd j (length es1) x e Hj Ei Hk ltac:(lia)). lia. }
  assert (Hnh : hidden es1 e = false).
  { apply not_true_is_false. intros (x & Hx%list_elem_of_In & [Hk%bool_decide_eq_true Hxs%Z.leb_le]%andb_prop)%existsb_exists.
    apply list_elem_of_lookup in Hx as [j Hj]. apply (Hvis x j); [|by apply lookup_lt_Some in Hj|done|lia].
    rewrite Ees. by apply lookup_app_l_Some. }
  destruct (obsolete e) eqn:Eo; [right|left; apply kept_from_elem; by exists es1, es2].
  split; [done|]. intros x (x1 & x2 & Ex & Hh & Hox)%kept_from_elem Hvx. cbn [app] in Hh.
  assert (Ej : es !! length x1 = Some x) by by rewrite Ex, lookup_app_r, Nat.sub_diag by lia.
  pose proof (visible_same_key u s x e Hvx Hve) as Hk. pose proof Eo as Eo'.
  apply andb_prop in Eo' as [[_ Hes%Z.leb_le]%andb_prop _].
  destruct (Nat.lt_trichotomy (length x1) (length es1)) as [Hlt|[Heq|Hgt]].
  - apply (Hvis x (length x1)); [done|done|done|apply Hvx].
  - rewrite Heq, Ei in Ej. injection Ej as ->. congruence.
  - apply not_true_iff_false in Hh. apply Hh. apply existsb_exists. exists e. split.
    + apply list_elem_of_In, list_elem_of_lookup. exists (length es1). rewrite Ex in Ei. by rewrite lookup_app_l in Ei.
    + apply andb_true_intro. split; [apply bool_decide_eq_true; by apply Compare_eq_sym|by apply Z.leb_le].
Qed.

Lemma older_none e : obsolete e = true -> visible (C := C) u s e -> e ∈ es -> forall x, x ∈ older -> ~ visible (C := C) u s x.
Proof.
  intros Eo Hve He x Hx Hvx. apply andb_prop in Eo as [_ Eb].
  by rewrite (Hbase e x He Hx (visible_same_key u s e x Hve Hvx)) in Eb.
Qed.

Lemma newest_sub e : newest_visible (C := C) u s es e -> e ∈ kept -> newest_visible (C := C) u s kept e.
Proof. intros (_ & Hve & Hnew) Hk. split; [done|]. split; [done|]. intros x Hx. by apply Hnew, kept_sub. Qed.

(** A read of what is kept, over the older entries, gives what it gave. *)
Lemma read_kept r : read_value u s (es ++ older) r -> read_value u s (kept ++ older) r.
Proof.
  assert (Hn : newer (C := C) kept older) by (intros e e' He; by apply Hnewer, kept_sub).
  intros [(e & (He & Hve & Hnew) & ->)|[Hno ->]].
  - apply elem_of_app in He as [He|He].
    + assert (Hnes : newest_visible (C := C) u s es e).
      { split; [done|]. split; [done|]. intros x Hx. apply Hnew, elem_of_app. by left. }
      destruct (newest_dropped e Hnes) as [Hk|[Eo Hno]].
      * left. exists e. split; [|done]. apply newest_app_l; [by apply newest_sub|done].
      * right. split.
        -- intros x [Hx|Hx]%elem_of_app; [by apply Hno|by apply (older_none e Eo Hve He)].
        -- apply andb_prop in Eo as [[->%bool_decide_eq_true _]%andb_prop _]. done.
    + left. exists e. split; [|done]. split; [by apply elem_of_app; right|]. split; [done|].
      intros x [Hx%kept_sub|Hx]%elem_of_app; apply Hnew, elem_of_app; auto.
  - right. split; [|done]. intros x [Hx%kept_sub|Hx]%elem_of_app; apply Hno, elem_of_app; auto.
Qed.
End Reads.
End Kept.

Section ReadsThrough.
Context {C : Comparator} {L : ComparatorLaws C}.

(** Entries above that are newer do not matter. *)
Lemma read_value_under u s new a b r :
  newer (C := C) new a -> (forall e, e ∈ b -> e ∈ a) -> (forall r, read_value (C := C) u s a r -> read_value (C := C) u s b r) ->
  read_value (C := C) u s (new ++ a) r -> read_value (C := C) u s (new ++ b) r.
Proof.
  intros Hn Hsub Hab [(e & (He & Hve & Hnew) & ->)|[Hno ->]].
  - apply elem_of_app in He as [He|He].
    + left. exists e. split; [|done]. split; [by apply elem_of_app; left|]. split; [done|].
      intros x Hx. apply Hnew. apply elem_of_app. apply elem_of_app in Hx as [Hx|Hx]; auto.
    + assert (Hnone : forall x, x ∈ new -> ~ visible (C := C) u s x).
      { intros x Hx Hvx. pose proof (Hnew x ltac:(apply elem_of_app; by left) Hvx) as H1.
        pose proof (Hn x e Hx He (visible_same_key u s x e Hvx Hve)). lia. }
      destruct (Hab match e_type e with kTypeValue => Some (e_value e) | kTypeDeletion => None end) as [(e' & Hne & Er)|[Hno Er]].
      * left. exists e. split; [|done]. split; [done|]. split; [done|]. intros x Hx. apply Hnew, elem_of_app. by right.
      * left. exists e'. split; [by apply newest_app_r|done].
      * right. split; [|done]. intros x [Hx|Hx]%elem_of_app; auto.
  - right. split; [|done]. intros x [Hx|Hx]%elem_of_app; apply Hno, elem_of_app; auto.
Qed.

Lemma kept_from_sorted v level snap before es :
  entries_sorted C es -> entries_sorted C (kept_from (C := C) v level snap before es).
Proof.
  revert before. unfold entries_sorted, kvs_sorted. induction es as [|e es IH]; intros before; cbn [map kept_from]; [done|].
  intros [Hs Hf]%StronglySorted_inv. destruct (_ || _); cbn [app map]; [by apply IH|]. constructor; [by apply IH|].
  apply Forall_forall. intros x (x' & -> & Hx')%list_elem_of_fmap. apply (proj1 (Forall_forall _ _) Hf). apply list_elem_of_fmap_2.
  apply kept_from_elem in Hx' as (es1 & es2 & -> & _). apply elem_of_app. right. by left.
Qed.

(** The entries of the levels under the output. *)
Definition deeper_entries (contents : FilePtr -> list Entry) (v : Version) (level : nat) : list Entry :=
  concat (map (level_entries contents v) (seq (level + 2) (kNumLevels - (level + 2)))).

Lemma deeper_not_base contents v level e e' :
  version_ok (C := C) contents v -> (level + 2 <= kNumLevels)%nat ->
  e' ∈ deeper_entries contents v level -> Compare (Comparator := C) (e_user_key e) (e_user_key e') = Eq ->
  is_base (C := C) v level (e_user_key e) = false.
Proof.
  intros Hv Hl (lvl & Hlvl & (f & Hf & He)%level_entries_elem)%elem_concat Hk. apply not_true_is_false. intros Hb.
  unfold is_base, base_levels_spec_def in Hb. apply list_elem_of_In in Hlvl. rewrite forallb_forall in Hb. specialize (Hb lvl Hlvl).
  apply negb_true_iff, not_true_iff_false in Hb. apply Hb. apply existsb_exists. exists f. split; [by apply list_elem_of_In|].
  destruct (file_user_bounds contents f e' (vo_files _ _ Hv _ _ Hf) He) as [H1 H2].
  apply andb_true_intro. split; apply bool_decide_eq_true.
  - by rewrite (Compare_eq_r (C := C) _ _ (f_smallest_user f) Hk).
  - by rewrite (Compare_eq_l (C := C) _ _ (f_largest_user f) Hk).
Qed.

Lemma version_levels_ok contents v : version_ok (C := C) contents v -> levels_ok (C := C) v.
Proof.
  intros Hv lvl Hl. split; [|by apply (vo_sorted _ _ Hv)]. intros f Hf. by eapply file_ok_bounds, (vo_files _ _ Hv).
Qed.
(** A compaction keeps the reads at the smallest snapshot and later. *)
Lemma kept_reads (contents : FilePtr -> list Entry) (v : Version) (level : nat) (snap : Z) (new es : list Entry) u s r :
  version_ok (C := C) contents v -> (level + 2 <= kNumLevels)%nat -> Forall entry_ok es -> entries_sorted C es -> seqs_distinct (C := C) es ->
  newer (C := C) new (es ++ deeper_entries contents v level) -> newer (C := C) es (deeper_entries contents v level) -> snap <= s ->
  read_value (C := C) u s (new ++ es ++ deeper_entries contents v level) r ->
  read_value (C := C) u s (new ++ kept_from (C := C) v level snap [] es ++ deeper_entries contents v level) r.
Proof.
  intros Hv Hl Hok Hs Hd Hnew Hold Hsn. apply read_value_under; [done| |].
  - intros e [He%kept_sub|He]%elem_of_app; apply elem_of_app; auto.
  - intros r'. apply read_kept; try done. intros e e' _ He'. by eapply deeper_not_base.
Qed.
End ReadsThrough.

(** ** Properties *)

(** C19: dropping entries in a compaction changes no read: when the merged input
    of a compaction is sorted and older data of its keys is only in deeper
    levels, the entries the loop keeps are some of the input, in order, and
    every read at the smallest live snapshot or a later one gives the same
    value or the same absence as before, whatever newer entries are above. *)
Theorem compaction_drop_preserves_reads (C : Comparator) (L : ComparatorLaws C) (contents : FilePtr -> list Entry)
    (c : Compaction) (smallest_snapshot : Z) (new es : list Entry)
    (Hv : version_ok (C := C) contents (c_input_version c)) (Hl : (c_level c + 2 <= kNumLevels)%nat)
    (Hp : c_level_ptrs c = replicate kNumLevels 0%nat) (Hsnap : 0 <= smallest_snapshot < kMaxSequenceNumber)
    (Hok : Forall entry_ok es) (Hs : entries_sorted C es) (Hd : seqs_distinct (C := C) es)
    (Hnew : newer (C := C) new (es ++ deeper_entries contents (c_input_version c) (c_level c)))
    (Hold : newer (C := C) es (deeper_entries contents (c_input_version c) (c_level c))) :
  exists ks, kept_entries C smallest_snapshot DropState_new c (map entry_kv es) = map entry_kv ks /\
    (forall e, e ∈ ks -> e ∈ es) /\ entries_sorted C ks /\
    forall u s r, smallest_snapshot <= s ->
      read_value (C := C) u s (new ++ es ++ deeper_entries contents (c_input_version c) (c_level c)) r ->
      read_value (C := C) u s (new ++ ks ++ deeper_entries contents (c_input_version c) (c_level c)) r.
Proof.
  set (older := deeper_entries _ _ _) in *. pose proof (version_levels_ok contents _ Hv) as Hlv.
  exists (kept_from (C := C) (c_input_version c) (c_level c) smallest_snapshot [] es). split; [|split; [|split]].
  - apply kept_entries_spec; try done. intros e _. split; [by rewrite Hp, length_replicate|].
    intros lvl ptr Hptr. rewrite Hp in Hptr. apply lookup_replicate_1 in Hptr as [-> _]. intros j f _ Hj. lia.
  - intros e. by apply kept_sub.
  - by apply kept_from_sorted.
  - intros u s r Hsn. by apply kept_reads.
Qed.

Definition example_input : list Entry :=
  [mkEntry (cstr "a") 9 kTypeDeletion []; mkEntry (cstr "a") 7 kTypeValue (cstr "x");
   mkEntry (cstr "b") 5 kTypeValue (cstr "y"); mkEntry (cstr "b") 3 kTypeValue (cstr "z")].

Lemma Version_new_files level : level_files Version_new level = [].
Proof. unfold level_files. cbn [files_ Version_new]. destruct (replicate kNumLevels [] !! level) as [l|] eqn:E; [|done]. by apply lookup_replicate_1 in E as [-> _]. Qed.

Lemma Version_new_ok {C : Comparator} contents : version_ok (C := C) contents Version_new.
Proof.
  assert (He : forall level, level_entries contents Version_new level = []).
  { intros level. unfold level_entries. by rewrite Version_new_files. }
  split.
  - intros level f. rewrite Version_new_files. by intros ?%elem_of_nil.
  - intros level _ i j f f'. by rewrite Version_new_files.
  - intros level level' _ e e'. rewrite He. by intros ?%elem_of_nil.
  - intros f f'. rewrite Version_new_files. by intros ?%elem_of_nil.
  - rewrite Version_new_files. constructor.
Qed.

Lemma compaction_drop_preserves_reads_witness :
  let ks := [mkEntry (cstr "b") 5 kTypeValue (cstr "y")] in
  kept_entries BytewiseComparator 9 DropState_new (Compaction_new Options_default 0 Version_new) (map entry_kv example_input)
    = map entry_kv ks /\
  exists ks', map entry_kv ks = map entry_kv ks' /\ entries_sorted BytewiseComparator ks'.
Proof.
  split; [vm_compute; reflexivity|].
  destruct (compaction_drop_preserves_reads BytewiseComparator BytewiseComparator_laws (fun _ => [])
    (Compaction_new Options_default 0 Version_new) 9 [] example_input) as (ks & E & _ & Hs & _).
  - apply Version_new_ok.
  - unfold kNumLevels. cbn. lia.
  - reflexivity.
  - split; vm_compute; [discriminate|reflexivity].
  - repeat constructor; vm_compute; discriminate || reflexivity.
  - repeat constructor; vm_compute; reflexivity.
  - intros i j e e' Hi Hj _ Hseq. do 4 (destruct i as [|i]; [do 4 (destruct j as [|j]; [by simplify_eq/=|]); done|]). done.
  - intros e e' He. by apply elem_of_nil in He.
  - intros e e' _ He'. vm_compute in He'. by apply elem_of_nil in He'.
  - exists ks. split; [rewrite <- E; vm_compute; reflexivity|exact Hs].
Defined.
