(* ===== verification/VersionBuilder.v ===== *)
(** * db/version_set: building versions from edits

    Models [VersionSet::Builder] of src/db/version_set.cc: applying edits to
    the file sets of the levels, and merging these with the files of the base
    version.  The set of added files, ordered by [BySmallestKey], is a sorted
    list.  A failing assertion is [None]. *)

From Stdlib Require Import Sorted.
From stdpp Require Import sorting gmap.
From S2P Require Import Prelude Coding Comparator DbFormat Status MemTable Iterator UserView VersionEdit Options Version VersionGet.

Section Builder.
Variable C : Comparator.

(** [BySmallestKey::operator()] *)
Definition BySmallestKey (f1 f2 : FilePtr) : bool :=
  match InternalKey_Compare C (f_smallest f1) (f_smallest f2) with
  | Lt => true
  | Gt => false
  | Eq => f_number f1 <? f_number f2
  end.

(** [FileSet::insert]: a file equivalent to one in the set is not inserted. *)
Fixpoint fileset_insert (f : FilePtr) (files : list FilePtr) : list FilePtr :=
  match files with
  | [] => [f]
  | g :: files' =>
      if BySmallestKey f g then f :: files
      else if BySmallestKey g f then g :: fileset_insert f files'
      else files
  end.

Record LevelState := mkLevel { deleted_files : gset Z; added_files : list FilePtr }.

(** [base_] and [levels_]. *)
Record Builder := mkBuilder { b_base : Version; b_levels : list LevelState }.

Definition Builder_new (base : Version) : Builder := mkBuilder base (replicate kNumLevels (mkLevel ∅ [])).

(** What the builder changes outside itself: [vset_->compact_pointer_] and the
    file objects, with the address of the next one. *)
Record Objects := mkObjects { o_compact_pointer : list bytes; o_next : Z; o_seeks : Seeks }.

(** An index into an array of levels. *)
Definition level_index (level : Z) : option nat :=
  if (0 <=? level) && (level <? Z.of_nat kNumLevels) then Some (Z.to_nat level) else None.

Definition update_level (g : LevelState -> LevelState) (level : Z) (b : Builder) : option Builder :=
  l ← level_index level;
  st ← b_levels b !! l;
  Some (mkBuilder (b_base b) (<[l := g st]> (b_levels b))).

Definition apply_pointer (o : Objects) (p : Z * bytes) : option Objects :=
  l ← level_index p.1;
  Some (mkObjects (<[l := p.2]> (o_compact_pointer o)) (o_next o) (o_seeks o)).

Definition apply_deleted (b : Builder) (p : Z * Z) : option Builder :=
  update_level (fun st => mkLevel ({[p.2]} ∪ deleted_files st) (added_files st)) p.1 b.

(** [static_cast<int>(f->file_size / 16384U)], at least 100. *)
Definition seeks_for (size : Z) : Z := let n := s32 (size / 16384) in if n <? 100 then 100 else n.

(** [new FileMetaData(...)] with the members set. *)
Definition new_file (addr : Z) (m : FileMetaData) : FilePtr :=
  mkFilePtr addr (mkFile 1 (seeks_for (file_size m)) (number m) (file_size m) (smallest m) (largest m)).

Definition apply_new (bo : Builder * Objects) (p : Z * FileMetaData) : option (Builder * Objects) :=
  let '(b, o) := bo in
  let f := new_file (o_next o) p.2 in
  let o := mkObjects (o_compact_pointer o) (o_next o + 1) (<[f_addr f := allowed_seeks (f_meta f)]> (o_seeks o)) in
  b ← update_level (fun st => mkLevel (deleted_files st ∖ {[f_number f]}) (fileset_insert f (added_files st))) p.1 b;
  Some (b, o).

Fixpoint foldM {A B} (g : A -> B -> option A) (l : list B) (a : A) : option A :=
  match l with
  | [] => Some a
  | x :: l => a ← g a x; foldM g l a
  end.

Definition Apply (edit : VersionEdit) (b : Builder) (o : Objects) : option (Builder * Objects) :=
  o ← foldM apply_pointer (compact_pointers_ edit) o;
  b ← foldM apply_deleted (deleted_files_ edit) b;
  foldM apply_new (new_files_ edit) (b, o).

(** ** [SaveTo] *)

(** Appending to the level's files; the deleted ones are left out. *)
Definition MaybeAddFile (deleted : gset Z) (level : nat) (files : list FilePtr) (f : FilePtr) : option (list FilePtr) :=
  if decide (f_number f ∈ deleted) then Some files
  else
    match last files with
    | Some prev =>
        if (0 <? level)%nat && negb (bool_decide (InternalKey_Compare C (f_largest prev) (f_smallest f) = Lt))
        then None else Some (files ++ [f])
    | None => Some (files ++ [f])
    end.

(** [std::upper_bound] on a sorted range: the elements that are not greater
    than the file, and the rest. *)
Fixpoint span_upper (f : FilePtr) (base : list FilePtr) : list FilePtr * list FilePtr :=
  match base with
  | [] => ([], [])
  | g :: base' =>
      if BySmallestKey f g then ([], base)
      else let '(a, b) := span_upper f base' in (g :: a, b)
  end.

Fixpoint merge_level (deleted : gset Z) (level : nat) (base added files : list FilePtr) : option (list FilePtr) :=
  match added with
  | [] => foldM (MaybeAddFile deleted level) base files
  | f :: added =>
      let '(smaller, base) := span_upper f base in
      files ← foldM (MaybeAddFile deleted level) smaller files;
      files ← MaybeAddFile deleted level files f;
      merge_level deleted level base added files
  end.

Definition save_level (b : Builder) (level : nat) : option (list FilePtr) :=
  st ← b_levels b !! level;
  merge_level (deleted_files st) level (level_files (b_base b) level) (added_files st) [].

(** The new version's files; its other members are as the constructor left them. *)
Definition SaveTo (b : Builder) : option Version :=
  files ← mapM (save_level b) (seq 0 kNumLevels);
  Some (mkVersion files None (-1) (compaction_score_ Version_new) (-1)).
End Builder.

(** ** The merged level *)

Section Merge.
Context {C : Comparator} {L : ComparatorLaws C}.
Notation IC := (InternalKeyComparator C).
Notation lt f g := (BySmallestKey C f g = true).

Lemma BySmallestKey_cases f g :
  lt f g <-> InternalKey_Compare C (f_smallest f) (f_smallest g) = Lt \/
    (InternalKey_Compare C (f_smallest f) (f_smallest g) = Eq /\ f_number f < f_number g).
Proof.
  unfold BySmallestKey. destruct (InternalKey_Compare C (f_smallest f) (f_smallest g)); [|split; auto|split; [done|intros [?|[? _]]; done]].
  rewrite Z.ltb_lt. split; [auto|]. intros [?|[_ ?]]; done.
Qed.

Lemma BySmallestKey_trans f g h : lt f g -> lt g h -> lt f h.
Proof.
  rewrite !BySmallestKey_cases. change (InternalKey_Compare C) with (Compare (Comparator := IC)).
  intros [H1|[H1 H1']] [H2|[H2 H2']].
  - left. by eapply Compare_lt_trans.
  - left. by rewrite <- (Compare_eq_r (C := IC) _ _ (f_smallest f) H2).
  - left. by rewrite (Compare_eq_l (C := IC) _ _ (f_smallest h) H1).
  - right. split; [by rewrite (Compare_eq_l (C := IC) _ _ (f_smallest h) H1)|lia].
Qed.

Lemma BySmallestKey_irrefl f : ~ lt f f.
Proof. rewrite BySmallestKey_cases. pose proof (Compare_refl (C := IC) (f_smallest f)) as H. cbn in H. rewrite H. intros [?|[_ ?]]; [done|lia]. Qed.

(** Files that are equivalent have the same number. *)
Lemma BySmallestKey_total f g : ~ lt f g -> ~ lt g f -> f_number f = f_number g.
Proof.
  rewrite !BySmallestKey_cases. change (InternalKey_Compare C) with (Compare (Comparator := IC)).
  rewrite (Compare_antisym (C := IC) (f_smallest f) (f_smallest g)).
  destruct (Compare (Comparator := IC) (f_smallest f) (f_smallest g)); cbn; intros H1 H2; [|tauto..].
  assert (~ f_number f < f_number g) by tauto. assert (~ f_number g < f_number f) by tauto. lia.
Qed.

Definition set_sorted (files : list FilePtr) : Prop := StronglySorted (fun f g => lt f g) files.

Lemma fileset_insert_elem f files x : x ∈ fileset_insert C f files -> x = f \/ x ∈ files.
Proof.
  induction files as [|g files IH]; cbn; [intros ?%list_elem_of_singleton; auto|].
  destruct (BySmallestKey C f g); [intros [?|?]%elem_of_cons; auto|].
  destruct (BySmallestKey C g f); [|auto]. intros [?|?%IH]%elem_of_cons; rewrite !elem_of_cons; tauto.
Qed.

Lemma fileset_insert_old f files x : x ∈ files -> x ∈ fileset_insert C f files.
Proof.
  induction files as [|g files IH]; cbn; [by intros ?%elem_of_nil|]. destruct (BySmallestKey C f g); [by right|].
  destruct (BySmallestKey C g f); [|done]. intros [->|Hx]%elem_of_cons; [by left|right; auto].
Qed.

Lemma fileset_insert_new f files :
  (forall g, g ∈ files -> f_number g <> f_number f) -> f ∈ fileset_insert C f files.
Proof.
  induction files as [|g files IH]; intros Hn; cbn; [by left|]. destruct (BySmallestKey C f g) eqn:E1; [by left|].
  destruct (BySmallestKey C g f) eqn:E2; [right; apply IH; intros h Hh; apply Hn; by right|].
  destruct (Hn g ltac:(by left)). apply BySmallestKey_total; congruence.
Qed.

Lemma fileset_insert_sorted f files : set_sorted files -> set_sorted (fileset_insert C f files).
Proof.
  unfold set_sorted. induction 1 as [|g files Hs IH Hf]; cbn; [repeat constructor|].
  destruct (BySmallestKey C f g) eqn:E1; [|destruct (BySmallestKey C g f) eqn:E2; [|by constructor]].
  - constructor; [by constructor|]. constructor; [done|]. eapply Forall_impl; [exact Hf|]. intros h. by apply BySmallestKey_trans.
  - constructor; [done|]. apply Forall_forall. intros h [->|Hh]%fileset_insert_elem; [done|].
    by apply (proj1 (Forall_forall _ _) Hf).
Qed.

(** *** Appending *)

Definition live (deleted : gset Z) (files : list FilePtr) : list FilePtr :=
  List.filter (fun f => negb (bool_decide (f_number f ∈ deleted))) files.

Lemma live_app deleted a b : live deleted (a ++ b) = live deleted a ++ live deleted b.
Proof. apply List.filter_app. Qed.

Lemma live_elem deleted files f : f ∈ live deleted files <-> f ∈ files /\ f_number f ∉ deleted.
Proof.
  unfold live. rewrite !list_elem_of_In, List.filter_In, negb_true_iff, bool_decide_eq_false. done.
Qed.

(** Adjacent files do not overlap. *)
Definition chained (files : list FilePtr) : Prop :=
  forall i f g, files !! i = Some f -> files !! S i = Some g -> InternalKey_Compare C (f_largest f) (f_smallest g) = Lt.

Lemma MaybeAddFile_spec deleted level files f :
  (level = 0%nat \/ chained (files ++ live deleted [f])) ->
  MaybeAddFile C deleted level files f = Some (files ++ live deleted [f]).
Proof.
  unfold MaybeAddFile, live. cbn. case_decide as Hd.
  { rewrite bool_decide_true by done. cbn. by rewrite app_nil_r. }
  rewrite bool_decide_false by done. cbn. intros Hc.
  destruct (last files) as [p|] eqn:E; [|done]. destruct level as [|level]; [done|]. destruct Hc as [?|Hc]; [done|].
  cbn [Nat.ltb Nat.leb andb]. apply last_Some in E as [pre ->].
  rewrite bool_decide_true; [done|]. apply (Hc (length pre)).
  - rewrite <- app_assoc. by rewrite lookup_app_r, Nat.sub_diag by lia.
  - rewrite <- app_assoc. rewrite lookup_app_r by lia. by replace (S (length pre) - length pre)%nat with 1%nat by lia.
Qed.

Lemma chained_prefix a b : chained (a ++ b) -> chained a.
Proof.
  intros H i f g Hf Hg. apply (H i); by apply lookup_app_l_Some.
Qed.

Lemma add_all_files deleted level new files :
  (level = 0%nat \/ chained (files ++ live deleted new)) ->
  foldM (MaybeAddFile C deleted level) new files = Some (files ++ live deleted new).
Proof.
  revert files. induction new as [|f new IH]; intros files Hc; [by rewrite app_nil_r|].
  change (live deleted (f :: new)) with (live deleted ([f] ++ new)) in *. rewrite live_app in *. cbn [foldM].
  rewrite app_assoc in Hc. rewrite MaybeAddFile_spec by (destruct Hc as [?|Hc%chained_prefix]; auto).
  cbn [mbind option_bind]. rewrite IH by done. by rewrite app_assoc.
Qed.

(** *** Merging *)

Fixpoint merged (base added : list FilePtr) : list FilePtr :=
  match added with
  | [] => base
  | f :: added => let '(smaller, base) := span_upper C f base in smaller ++ f :: merged base added
  end.

Lemma span_upper_app f base : (span_upper C f base).1 ++ (span_upper C f base).2 = base.
Proof.
  induction base as [|g base IH]; cbn; [done|]. destruct (BySmallestKey C f g); [done|].
  destruct (span_upper C f base). cbn in *. by rewrite IH.
Qed.

Lemma merge_level_spec deleted level base added files :
  (level = 0%nat \/ chained (files ++ live deleted (merged base added))) ->
  merge_level C deleted level base added files = Some (files ++ live deleted (merged base added)).
Proof.
  revert base files. induction added as [|f added IH]; intros base files Hc; cbn [merge_level merged]; [by apply add_all_files|].
  cbn [merged] in Hc. destruct (span_upper C f base) as [smaller rest].
  change (smaller ++ f :: merged rest added) with (smaller ++ ([f] ++ merged rest added)) in *.
  rewrite !live_app in *. rewrite !app_assoc in *.
  rewrite add_all_files by (destruct Hc as [?|Hc%chained_prefix%chained_prefix]; auto). cbn [mbind option_bind].
  rewrite MaybeAddFile_spec by (destruct Hc as [?|Hc%chained_prefix]; auto). cbn [mbind option_bind]. by apply IH.
Qed.

Lemma merged_elem base added f : f ∈ merged base added <-> f ∈ base \/ f ∈ added.
Proof.
  revert base. induction added as [|g added IH]; intros base; cbn [merged].
  { split; [auto|]. by intros [?|?%elem_of_nil]. }
  pose proof (span_upper_app g base) as E. destruct (span_upper C g base) as [smaller rest]. cbn in E. subst base.
  rewrite !elem_of_app, !elem_of_cons, IH. tauto.
Qed.

Lemma span_upper_spec f base :
  set_sorted base ->
  (forall g, g ∈ (span_upper C f base).1 -> ~ lt f g) /\ (forall g, g ∈ (span_upper C f base).2 -> lt f g).
Proof.
  unfold set_sorted. induction 1 as [|g base Hs IH Hf]; cbn; [split; by intros ? ?%elem_of_nil|].
  destruct (BySmallestKey C f g) eqn:E; cbn.
  - split; [by intros ? ?%elem_of_nil|]. intros h [->|Hh]%elem_of_cons; [done|].
    eapply BySmallestKey_trans; [exact E|]. by apply (proj1 (Forall_forall _ _) Hf).
  - destruct (span_upper C f base) as [a b]. cbn in *. destruct IH as [IH1 IH2]. split; [|done].
    intros h [->|Hh]%elem_of_cons; [congruence|by apply IH1].
Qed.

Lemma set_sorted_app a b : set_sorted (a ++ b) <-> set_sorted a /\ set_sorted b /\ forall x y, x ∈ a -> y ∈ b -> lt x y.
Proof.
  unfold set_sorted. split.
  - intros H. split; [by eapply StronglySorted_app_1_l|]. split; [by eapply StronglySorted_app_1_r|].
    intros x y Hx Hy. exact (StronglySorted_app_1_elem_of (fun f g : FilePtr => lt f g) a b x y H Hx Hy).
  - intros (Ha & Hb & H). induction Ha as [|x a Ha IH Hf]; [done|]. cbn. constructor.
    + apply IH. intros y z Hy. apply H. by right.
    + apply Forall_app. split; [done|]. apply Forall_forall. intros y Hy. apply H; [by left|done].
Qed.

(** No file of the base has the number of an added one: then the merge is
    sorted. *)
Lemma merged_sorted base added :
  set_sorted base -> set_sorted added ->
  (forall f g, f ∈ base -> g ∈ added -> f_number f <> f_number g) -> set_sorted (merged base added).
Proof.
  revert base. induction added as [|f added IH]; intros base Hb Ha Hn; cbn [merged]; [done|].
  pose proof (span_upper_app f base) as E. pose proof (span_upper_spec f base Hb) as [H1 H2].
  destruct (span_upper C f base) as [smaller rest]. cbn in E, H1, H2. subst base.
  apply set_sorted_app in Hb as (Hb1 & Hb2 & Hb3). apply StronglySorted_inv in Ha as [Ha Hf].
  assert (Hn' : forall x g, x ∈ rest -> g ∈ added -> f_number x <> f_number g).
  { intros x g Hx Hg. apply Hn; [apply elem_of_app; by right|by right]. }
  assert (Hsm : forall x, x ∈ smaller -> lt x f).
  { intros x Hx. destruct (BySmallestKey C x f) eqn:Ex; [done|]. destruct (Hn x f); [apply elem_of_app; by left|by left|].
    apply BySmallestKey_total; [congruence|by apply H1]. }
  assert (Hrest : forall y, y ∈ merged rest added -> lt f y).
  { intros y [Hy|Hy]%merged_elem; [by apply H2|by apply (proj1 (Forall_forall _ _) Hf)]. }
  apply set_sorted_app. split; [done|]. split.
  - constructor; [by apply IH|]. apply Forall_forall. exact Hrest.
  - intros x y Hx [->|Hy]%elem_of_cons; [by apply Hsm|]. eapply BySmallestKey_trans; [by apply Hsm|by apply Hrest].
Qed.

Lemma live_sorted deleted files : set_sorted files -> set_sorted (live deleted files).
Proof.
  unfold set_sorted. induction 1 as [|f files Hs IH Hf]; cbn; [constructor|]. destruct (negb _); [|done].
  constructor; [done|]. apply Forall_forall. intros g [Hg _]%live_elem. by apply (proj1 (Forall_forall _ _) Hf).
Qed.

(** Files of which no two overlap are disjoint in the order of their keys. *)
Definition no_overlap (files : list FilePtr) : Prop :=
  forall f g, f ∈ files -> g ∈ files -> lt f g -> InternalKey_Compare C (f_largest f) (f_smallest g) = Lt.

Lemma sorted_no_overlap files : set_sorted files -> no_overlap files -> files_sorted (C := C) files.
Proof.
  intros Hs Hn i j f g Hi Hj Hij. apply Hn; [by eapply list_elem_of_lookup_2..|].
  rewrite <- (take_drop_middle _ _ _ Hi) in Hs. apply set_sorted_app in Hs as (_ & Hs & _).
  apply StronglySorted_inv in Hs as [_ Hs]. apply (proj1 (Forall_forall _ _) Hs).
  apply list_elem_of_lookup. exists (j - S i)%nat. rewrite lookup_drop. by replace (S i + (j - S i))%nat with j by lia.
Qed.
End Merge.

(** ** Applying edits *)

Definition edit_adds (lvl : nat) (e : VersionEdit) : list FileMetaData :=
  map snd (List.filter (fun p => p.1 =? Z.of_nat lvl) (new_files_ e)).
Definition edit_dels (lvl : nat) (e : VersionEdit) : list Z :=
  map snd (List.filter (fun p => p.1 =? Z.of_nat lvl) (deleted_files_ e)).

(** What identifies a table: number, size, first and last key. *)
Definition file_id (m : FileMetaData) : Z * Z * bytes * bytes := (number m, file_size m, smallest m, largest m).
Definition id_number (i : Z * Z * bytes * bytes) : Z := i.1.1.1.

(** The reference: one edit after the other on the tables of a level. *)
Definition apply_ref (lvl : nat) (ids : list (Z * Z * bytes * bytes)) (e : VersionEdit) : list (Z * Z * bytes * bytes) :=
  List.filter (fun i => negb (bool_decide (id_number i ∈ edit_dels lvl e))) ids ++ map file_id (edit_adds lvl e).
Definition level_ids (v : Version) (lvl : nat) : list (Z * Z * bytes * bytes) :=
  map (fun f => file_id (f_meta f)) (level_files v lvl).
Definition edits_ref (base : Version) (edits : list VersionEdit) (lvl : nat) : list (Z * Z * bytes * bytes) :=
  fold_left (apply_ref lvl) edits (level_ids base lvl).

Definition edit_levels_ok (e : VersionEdit) : Prop :=
  Forall (fun p => 0 <= p.1 < Z.of_nat kNumLevels) (compact_pointers_ e) /\
  Forall (fun p => 0 <= p.1 < Z.of_nat kNumLevels) (deleted_files_ e) /\
  Forall (fun p => 0 <= p.1 < Z.of_nat kNumLevels) (new_files_ e).

Section ApplySpec.
Context {C : Comparator} {L : ComparatorLaws C} (base : Version).
Notation ids := (list (Z * Z * bytes * bytes)).

(** A level's state stands for the tables [S], with [used] numbers. *)
Record level_inv (lvl : nat) (st : LevelState) (S : ids) (used : list Z) : Prop := {
  li_sorted : set_sorted (C := C) (added_files st);
  li_ids : forall i, i ∈ S <-> exists f, file_id (f_meta f) = i /\ (f ∈ level_files base lvl \/ f ∈ added_files st) /\
    f_number f ∉ deleted_files st;
  li_used : forall f, f ∈ level_files base lvl \/ f ∈ added_files st -> f_number f ∈ used;
  li_new : forall f g, f ∈ level_files base lvl -> g ∈ added_files st -> f_number f <> f_number g;
}.

Definition builder_inv (b : Builder) (S : nat -> ids) (used : nat -> list Z) : Prop :=
  b_base b = base /\ length (b_levels b) = kNumLevels /\
  forall lvl st, b_levels b !! lvl = Some st -> level_inv lvl st (S lvl) (used lvl).

Lemma level_index_spec level : 0 <= level < Z.of_nat kNumLevels -> level_index level = Some (Z.to_nat level).
Proof. intros H. unfold level_index. rewrite (proj2 (Z.leb_le _ _)), (proj2 (Z.ltb_lt _ _)) by lia. done. Qed.

(** An update of one level. *)
Lemma update_level_spec g level b S used S' used' :
  0 <= level < Z.of_nat kNumLevels -> builder_inv b S used ->
  (forall lvl, Z.of_nat lvl <> level -> S' lvl = S lvl /\ used' lvl = used lvl) ->
  (forall st, level_inv (Z.to_nat level) st (S (Z.to_nat level)) (used (Z.to_nat level)) ->
     level_inv (Z.to_nat level) (g st) (S' (Z.to_nat level)) (used' (Z.to_nat level))) ->
  exists b', update_level g level b = Some b' /\ builder_inv b' S' used'.
Proof.
  intros Hl (Eb & Hlen & Hinv) Hother Hg. unfold update_level. rewrite level_index_spec by done. cbn [mbind option_bind].
  destruct (lookup_lt_is_Some_2 (b_levels b) (Z.to_nat level) ltac:(lia)) as [st E]. rewrite E. cbn [mbind option_bind].
  eexists. split; [done|]. split; [done|]. cbn. split; [by rewrite length_insert|]. intros lvl st' Hst.
  destruct (decide (lvl = Z.to_nat level)) as [->|Hne].
  - rewrite list_lookup_insert_eq in Hst by lia. injection Hst as <-. by apply Hg, Hinv.
  - rewrite list_lookup_insert_ne in Hst by done. destruct (Hother lvl ltac:(lia)) as [-> ->]. by apply Hinv.
Qed.

Lemma deleted_inv lvl st S used n :
  level_inv lvl st S used ->
  level_inv lvl (mkLevel ({[n]} ∪ deleted_files st) (added_files st)) (List.filter (fun i => negb (id_number i =? n)) S) used.
Proof.
  intros [H1 H2 H3 H4]. split; cbn; try done. intros i. rewrite list_elem_of_In, List.filter_In, <- list_elem_of_In, H2, negb_true_iff.
  rewrite Z.eqb_neq. split.
  - intros [(f & <- & Hf & Hd) Hn]. exists f. split; [done|]. split; [done|].
    intros [Hin%elem_of_singleton|?]%elem_of_union; [|done]. apply Hn. exact Hin.
  - intros (f & <- & Hf & Hd). apply not_elem_of_union in Hd as [Hd1 Hd2]. split; [by exists f|].
    intros E. apply Hd1, elem_of_singleton. exact E.
Qed.

Lemma new_file_inv lvl st S used addr m :
  level_inv lvl st S used -> number m ∉ used ->
  level_inv lvl (mkLevel (deleted_files st ∖ {[number m]}) (fileset_insert C (new_file addr m) (added_files st)))
    (S ++ [file_id m]) (used ++ [number m]).
Proof.
  intros [H1 H2 H3 H4] Hn. set (f := new_file addr m). assert (Hid : file_id (f_meta f) = file_id m) by done.
  assert (Hfresh : forall g, g ∈ level_files base lvl \/ g ∈ added_files st -> f_number g <> number m).
  { intros g Hg E. apply Hn. rewrite <- E. by apply H3. }
  split; cbn.
  - by apply fileset_insert_sorted.
  - intros i. rewrite elem_of_app, list_elem_of_singleton, H2. split.
    + intros [(g & <- & Hg & Hd)| ->].
      * exists g. split; [done|]. split; [destruct Hg as [?|?]; [by left|right; by apply fileset_insert_old]|].
        intros [? _]%elem_of_difference. done.
      * exists f. split; [done|]. split; [right; apply fileset_insert_new; intros g Hg; apply Hfresh; by right|].
        intros [_ H]%elem_of_difference. apply H. by apply elem_of_singleton.
    + intros (g & <- & Hg & Hd). assert (Hcase : g = f \/ (g ∈ level_files base lvl \/ g ∈ added_files st)).
      { destruct Hg as [Hg|[->|Hg]%fileset_insert_elem]; auto. }
      destruct Hcase as [->|Hg']; [by right|]. left. exists g. split; [done|]. split; [done|].
      intros Hin. apply Hd, elem_of_difference. split; [done|]. intros E%elem_of_singleton. by apply (Hfresh g Hg').
  - intros g [Hg|[->|Hg]%fileset_insert_elem]; apply elem_of_app; [left; auto|right; by left|left; auto].
  - intros g h Hg [->|Hh]%fileset_insert_elem; [|by apply H4]. apply Hfresh. by left.
Qed.

(** *** The phases of [Apply] *)

Definition dels_at (lvl : nat) (ps : list (Z * Z)) : list Z := map snd (List.filter (fun p => p.1 =? Z.of_nat lvl) ps).
Definition adds_at (lvl : nat) (ps : list (Z * FileMetaData)) : list FileMetaData :=
  map snd (List.filter (fun p => p.1 =? Z.of_nat lvl) ps).

Definition without (ns : list Z) (S : ids) : ids := List.filter (fun i => negb (bool_decide (id_number i ∈ ns))) S.

Lemma without_cons n ns S : without ns (List.filter (fun i => negb (id_number i =? n)) S) = without (n :: ns) S.
Proof.
  unfold without. induction S as [|i S IH]; [done|]. cbn. destruct (Z.eqb_spec (id_number i) n) as [E|E]; cbn.
  - rewrite bool_decide_true by (rewrite E; by left). cbn. done.
  - rewrite (bool_decide_ext (id_number i ∈ n :: ns) (id_number i ∈ ns)) by (rewrite elem_of_cons; tauto).
    destruct (negb _); [by rewrite IH|done].
Qed.

Lemma without_nil S : without [] S = S.
Proof. unfold without. induction S as [|i S IH]; [done|]. cbn. rewrite IH. done. Qed.

Lemma deletes_spec ps b S used :
  Forall (fun p => 0 <= p.1 < Z.of_nat kNumLevels) ps -> builder_inv b S used ->
  exists b', foldM apply_deleted ps b = Some b' /\ builder_inv b' (fun lvl => without (dels_at lvl ps) (S lvl)) used.
Proof.
  intros Hps. revert b S. induction Hps as [|[level n] ps Hl Hps IH]; intros b S Hb; cbn [foldM].
  { exists b. split; [done|]. destruct Hb as (E & Hlen & H). split; [done|]. split; [done|]. intros lvl st Hst.
    rewrite without_nil. by apply H. }
  cbn [fst] in Hl.
  destruct (update_level_spec (fun st => mkLevel ({[n]} ∪ deleted_files st) (added_files st)) level b S used
    (fun lvl => if level =? Z.of_nat lvl then List.filter (fun i => negb (id_number i =? n)) (S lvl) else S lvl) used Hl Hb)
    as (b1 & E1 & Hb1).
  - intros lvl Hne. by rewrite (proj2 (Z.eqb_neq _ _)) by lia.
  - intros st Hst. rewrite Z2Nat.id, Z.eqb_refl by lia. by apply deleted_inv.
  - change (apply_deleted b (level, n)) with (update_level (fun st => mkLevel ({[n]} ∪ deleted_files st) (added_files st)) level b). rewrite E1. cbn [mbind option_bind]. destruct (IH b1 _ Hb1) as (b' & -> & Hb').
    exists b'. split; [done|]. destruct Hb' as (E & Hlen & H). split; [done|]. split; [done|]. intros lvl st Hst.
    specialize (H lvl st Hst). cbn beta in H. unfold dels_at in *. cbn [List.filter fst]. destruct (level =? Z.of_nat lvl); [|done].
    cbn [map snd]. by rewrite <- without_cons.
Qed.

Lemma adds_spec ps b o S used :
  Forall (fun p => 0 <= p.1 < Z.of_nat kNumLevels) ps -> builder_inv b S used ->
  (forall lvl, NoDup (used lvl ++ map number (adds_at lvl ps))) ->
  exists b' o', foldM (apply_new C) ps (b, o) = Some (b', o') /\
    builder_inv b' (fun lvl => S lvl ++ map file_id (adds_at lvl ps)) (fun lvl => used lvl ++ map number (adds_at lvl ps)) /\
    o_compact_pointer o' = o_compact_pointer o.
Proof.
  intros Hps. revert b o S used. induction Hps as [|[level m] ps Hl Hps IH]; intros b o S used Hb Hnd; cbn [foldM].
  { exists b, o. split; [done|]. split; [|done]. destruct Hb as (E & Hlen & H). split; [done|]. split; [done|]. intros lvl st Hst.
    cbn. rewrite !app_nil_r. by apply H. }
  cbn [fst] in Hl.
  assert (Hm : number m ∉ used (Z.to_nat level)).
  { specialize (Hnd (Z.to_nat level)). unfold adds_at in Hnd. cbn [List.filter fst] in Hnd.
    rewrite Z2Nat.id, Z.eqb_refl in Hnd by lia. cbn in Hnd. apply NoDup_app in Hnd as (_ & Hnd & _).
    intros Hin. apply (Hnd _ Hin). by left. }
  destruct (update_level_spec (fun st => mkLevel (deleted_files st ∖ {[number m]})
      (fileset_insert C (new_file (o_next o) m) (added_files st))) level b S used
    (fun lvl => if level =? Z.of_nat lvl then S lvl ++ [file_id m] else S lvl)
    (fun lvl => if level =? Z.of_nat lvl then used lvl ++ [number m] else used lvl) Hl Hb) as (b1 & E1 & Hb1).
  - intros lvl Hne. by rewrite (proj2 (Z.eqb_neq _ _)) by lia.
  - intros st Hst. rewrite Z2Nat.id, Z.eqb_refl by lia. by apply new_file_inv.
  - assert (E2 : apply_new C (b, o) (level, m) = Some (b1, mkObjects (o_compact_pointer o) (o_next o + 1)
      (<[f_addr (new_file (o_next o) m) := allowed_seeks (f_meta (new_file (o_next o) m))]> (o_seeks o)))).
    { transitivity (b ← update_level (fun st => mkLevel (deleted_files st ∖ {[number m]})
        (fileset_insert C (new_file (o_next o) m) (added_files st))) level b;
        Some (b, mkObjects (o_compact_pointer o) (o_next o + 1)
          (<[f_addr (new_file (o_next o) m) := allowed_seeks (f_meta (new_file (o_next o) m))]> (o_seeks o)))); [done|by rewrite E1]. }
    rewrite E2. cbn [mbind option_bind].
    destruct (IH b1 (mkObjects (o_compact_pointer o) (o_next o + 1) (<[f_addr (new_file (o_next o) m) :=
      allowed_seeks (f_meta (new_file (o_next o) m))]> (o_seeks o))) _ _ Hb1) as (b' & o' & -> & Hb' & Ep).
    { intros lvl. specialize (Hnd lvl). unfold adds_at in *. cbn [List.filter fst] in Hnd.
      destruct (level =? Z.of_nat lvl); [|done]. cbn [map snd] in Hnd. by rewrite <- app_assoc. }
    exists b', o'. split; [done|]. split; [|done]. destruct Hb' as (E & Hlen & H). split; [done|]. split; [done|].
    intros lvl st Hst. specialize (H lvl st Hst). cbn beta in H. unfold adds_at in *. cbn [List.filter fst].
    destruct (level =? Z.of_nat lvl); [|done]. cbn [map snd]. by rewrite <- !app_assoc in H.
Qed.

Lemma pointers_total ps o :
  Forall (fun p => 0 <= p.1 < Z.of_nat kNumLevels) ps -> exists o', foldM apply_pointer ps o = Some o'.
Proof.
  intros Hps. revert o. induction Hps as [|[level k] ps Hl Hps IH]; intros o; cbn [foldM]; [by exists o|].
  assert (E : apply_pointer o (level, k) = Some (mkObjects (<[Z.to_nat level := k]> (o_compact_pointer o)) (o_next o) (o_seeks o))).
  { unfold apply_pointer. by rewrite level_index_spec by done. }
  rewrite E. cbn [mbind option_bind]. apply IH.
Qed.

Lemma Apply_spec e b o S used :
  edit_levels_ok e -> builder_inv b S used ->
  (forall lvl, NoDup (used lvl ++ map number (edit_adds lvl e))) ->
  exists b' o', Apply C e b o = Some (b', o') /\
    builder_inv b' (fun lvl => apply_ref lvl (S lvl) e) (fun lvl => used lvl ++ map number (edit_adds lvl e)).
Proof.
  intros (Hp & Hd & Ha) Hb Hnd. unfold Apply. destruct (pointers_total _ o Hp) as (o1 & ->). cbn [mbind option_bind].
  destruct (deletes_spec _ b S used Hd Hb) as (b1 & -> & Hb1). cbn [mbind option_bind].
  destruct (adds_spec _ b1 o1 _ used Ha Hb1 Hnd) as (b' & o' & E & Hb' & _). by exists b', o'.
Qed.

Fixpoint apply_edits (edits : list VersionEdit) (b : Builder) (o : Objects) : option (Builder * Objects) :=
  match edits with
  | [] => Some (b, o)
  | e :: edits => '(b, o) ← Apply C e b o; apply_edits edits b o
  end.

Lemma apply_edits_spec edits b o S used :
  Forall edit_levels_ok edits -> builder_inv b S used ->
  (forall lvl, NoDup (used lvl ++ concat (map (fun e => map number (edit_adds lvl e)) edits))) ->
  exists b' o', apply_edits edits b o = Some (b', o') /\
    exists used', builder_inv b' (fun lvl => fold_left (apply_ref lvl) edits (S lvl)) used'.
Proof.
  intros He. revert b o S used. induction He as [|e edits He Hes IH]; intros b o S used Hb Hnd; cbn [apply_edits].
  { exists b, o. split; [done|]. by exists used. }
  destruct (Apply_spec e b o S used He Hb) as (b1 & o1 & -> & Hb1).
  { intros lvl. specialize (Hnd lvl). cbn [map concat] in Hnd. rewrite app_assoc in Hnd. by apply NoDup_app in Hnd as [? _]. }
  cbn [mbind option_bind]. destruct (IH b1 o1 _ _ Hb1) as (b' & o' & E & Hb'); [|by exists b', o'].
  intros lvl. specialize (Hnd lvl). cbn [map concat] in Hnd. by rewrite <- app_assoc.
Qed.

Lemma Builder_new_inv : builder_inv (Builder_new base) (level_ids base) (fun lvl => map f_number (level_files base lvl)).
Proof.
  split; [done|]. split; [done|]. intros lvl st Hst. change (replicate kNumLevels (mkLevel ∅ []) !! lvl = Some st) in Hst. apply lookup_replicate_1 in Hst as [-> _]. split; cbn.
  - constructor.
  - intros i. unfold level_ids. split.
    + intros (f & -> & Hf)%list_elem_of_fmap. exists f. split; [done|]. split; [by left|]. apply not_elem_of_empty.
    + intros (f & <- & [Hf|Hf%elem_of_nil] & _); [|done]. by apply (list_elem_of_fmap_2 (fun f => file_id (f_meta f))).
  - intros f [Hf|Hf%elem_of_nil]; [|done]. by apply list_elem_of_fmap_2.
  - by intros f g _ ?%elem_of_nil.
Qed.

(** Tables of which no two overlap. *)
Definition ids_disjoint (S : ids) : Prop :=
  forall i j, i ∈ S -> j ∈ S ->
    (InternalKey_Compare C i.1.2 j.1.2 = Lt \/ (InternalKey_Compare C i.1.2 j.1.2 = Eq /\ id_number i < id_number j)) ->
    InternalKey_Compare C i.2 j.1.2 = Lt.

Lemma save_level_spec b S used lvl :
  builder_inv b S used -> (lvl < kNumLevels)%nat -> set_sorted (C := C) (level_files base lvl) ->
  (lvl = 0%nat \/ ids_disjoint (S lvl)) ->
  exists files, save_level C b lvl = Some files /\ set_sorted (C := C) files /\
    (forall i, i ∈ map (fun f => file_id (f_meta f)) files <-> i ∈ S lvl) /\
    ((1 <= lvl)%nat -> files_sorted (C := C) files).
Proof.
  intros (Eb & Hlen & Hinv) Hl Hbs Hd. unfold save_level.
  destruct (lookup_lt_is_Some_2 (b_levels b) lvl ltac:(lia)) as [st E]. rewrite E, Eb. cbn [mbind option_bind].
  destruct (Hinv _ _ E) as [H1 H2 H3 H4]. set (files := live (deleted_files st) (merged (C := C) (level_files base lvl) (added_files st))).
  assert (Hs : set_sorted (C := C) files) by (apply live_sorted, merged_sorted; done).
  assert (Hids : forall i, i ∈ map (fun f => file_id (f_meta f)) files <-> i ∈ S lvl).
  { intros i. rewrite H2. split.
    - intros (f & -> & [Hf%merged_elem Hn]%live_elem)%list_elem_of_fmap. by exists f.
    - intros (f & <- & Hf & Hn). apply (list_elem_of_fmap_2 (fun f => file_id (f_meta f))). apply live_elem. split; [by apply merged_elem|done]. }
  assert (Hfs : (1 <= lvl)%nat -> files_sorted (C := C) files).
  { intros Hl1. destruct Hd as [?|Hd]; [lia|]. apply sorted_no_overlap; [done|]. intros f g Hf Hg Hlt.
    apply (Hd (file_id (f_meta f)) (file_id (f_meta g))).
    - apply Hids. by apply (list_elem_of_fmap_2 (fun f => file_id (f_meta f))).
    - apply Hids. by apply (list_elem_of_fmap_2 (fun f => file_id (f_meta f))).
    - by apply BySmallestKey_cases. }
  exists files. split; [|by split].
  change files with ([] ++ files). apply merge_level_spec. destruct lvl as [|lvl]; [by left|right].
  intros i f g Hf Hg. apply (Hfs ltac:(lia) i (Datatypes.S i)); [done|done|lia].
Qed.

Lemma mapM_seq {A} (g : nat -> option A) n k :
  (forall i, (k <= i < k + n)%nat -> is_Some (g i)) ->
  exists l, mapM g (seq k n) = Some l /\ length l = n /\ forall i, (i < n)%nat -> l !! i = g (k + i)%nat.
Proof.
  revert k. induction n as [|n IH]; intros k Hg; cbn; [exists []; split; [done|]; split; [done|lia]|].
  destruct (Hg k ltac:(lia)) as [x Ex]. rewrite Ex. destruct (IH (S k)) as (l & -> & Hl & Hi); [intros i ?; apply Hg; lia|].
  exists (x :: l). split; [done|]. split; [cbn; lia|]. intros [|i] Hi'; [by rewrite Nat.add_0_r|].
  cbn. rewrite Hi by lia. f_equal. lia.
Qed.

Lemma SaveTo_spec b S used :
  builder_inv b S used ->
  (forall lvl, (lvl < kNumLevels)%nat -> set_sorted (C := C) (level_files base lvl)) ->
  (forall lvl, (1 <= lvl < kNumLevels)%nat -> ids_disjoint (S lvl)) ->
  exists v, SaveTo C b = Some v /\ length (files_ v) = kNumLevels /\
    forall lvl, (lvl < kNumLevels)%nat ->
      set_sorted (C := C) (level_files v lvl) /\ (forall i, i ∈ level_ids v lvl <-> i ∈ S lvl) /\
      ((1 <= lvl)%nat -> files_sorted (C := C) (level_files v lvl)).
Proof.
  intros Hb Hs Hd.
  assert (Hlevel : forall lvl, (lvl < kNumLevels)%nat -> _) by
    (intros lvl Hl; exact (save_level_spec b S used lvl Hb Hl (Hs lvl Hl)
       ltac:(destruct lvl; [by left|right; apply Hd; lia]))).
  destruct (mapM_seq (save_level C b) kNumLevels 0) as (files & E & Hlen & Hi).
  { intros lvl Hl. destruct (Hlevel lvl ltac:(lia)) as (fs & -> & _). by eexists. }
  unfold SaveTo. rewrite E. cbn [mbind option_bind]. eexists. split; [done|]. split; [done|].
  intros lvl Hl. destruct (Hlevel lvl Hl) as (fs & E1 & H1 & H2 & H3).
  assert (E2 : level_files (mkVersion files None (-1) (compaction_score_ Version_new) (-1)) lvl = fs).
  { unfold level_files. cbn [files_]. rewrite Hi by done. cbn [Nat.add]. by rewrite E1. }
  unfold level_ids. rewrite E2. by split.
Qed.

(** C23: The builder applied to a run of edits makes the version that the edits
    describe.  When every edit names levels that exist, no file number is added
    twice and the tables that remain in a level above 0 do not overlap, no
    assertion fails, every level of the new version is sorted by smallest key
    and holds exactly the tables that deleting and adding edit by edit leaves,
    and above level 0 they are disjoint and in key order. *)
Theorem builder_applies_edits edits o :
  (forall lvl, (lvl < kNumLevels)%nat -> set_sorted (C := C) (level_files base lvl)) ->
  Forall edit_levels_ok edits ->
  (forall lvl, NoDup (map f_number (level_files base lvl) ++ concat (map (fun e => map number (edit_adds lvl e)) edits))) ->
  (forall lvl, (1 <= lvl < kNumLevels)%nat -> ids_disjoint (edits_ref base edits lvl)) ->
  exists b o' v, apply_edits edits (Builder_new base) o = Some (b, o') /\ SaveTo C b = Some v /\
    length (files_ v) = kNumLevels /\
    forall lvl, (lvl < kNumLevels)%nat ->
      set_sorted (C := C) (level_files v lvl) /\ (forall i, i ∈ level_ids v lvl <-> i ∈ edits_ref base edits lvl) /\
      ((1 <= lvl)%nat -> files_sorted (C := C) (level_files v lvl)).
Proof.
  intros Hs He Hn Hd. destruct (apply_edits_spec edits _ o _ _ He Builder_new_inv Hn) as (b & o' & E & used & Hb).
  destruct (SaveTo_spec b _ used Hb Hs Hd) as (v & Ev & Hv). by exists b, o', v.
Qed.
End ApplySpec.

(** Two edits on an empty version: two tables come in, then one is compacted
    into the next level. *)
Definition ikey_of (user : string) (seq : Z) : bytes := entry_ikey (mkEntry (cstr user) seq kTypeValue []).

Definition example_edits : list VersionEdit :=
  [AddFile (AddFile Clear 0 5 100 (ikey_of "a" 3) (ikey_of "c" 4)) 1 6 200 (ikey_of "m" 1) (ikey_of "p" 2);
   AddFile (RemoveFile Clear 0 5) 1 7 90 (ikey_of "a" 3) (ikey_of "c" 4)].

Lemma builder_applies_edits_witness :
  exists b o' v, apply_edits (C := BytewiseComparator) example_edits (Builder_new Version_new) (mkObjects (replicate kNumLevels []) 1 ∅)
      = Some (b, o') /\ SaveTo BytewiseComparator b = Some v /\
    map (map f_number) (files_ v) = [[]; [7; 6]; []; []; []; []; []].
Proof.
  destruct (builder_applies_edits (C := BytewiseComparator) Version_new example_edits (mkObjects (replicate kNumLevels []) 1 ∅))
    as (b & o' & v & Ea & Es & _).
  - intros lvl Hl. do 7 (destruct lvl as [|lvl]; [constructor|]). unfold kNumLevels in Hl. lia.
  - repeat constructor; cbn; done.
  - intros [|[|lvl]]; [change (NoDup [5])|change (NoDup [6; 7])|];
      [apply NoDup_singleton|by apply NoDup_cons; (split; [by intros ?%list_elem_of_singleton|apply NoDup_singleton])|].
    assert (E0 : (0 =? Z.of_nat (S (S lvl))) = false) by (apply Z.eqb_neq; lia). assert (E1 : (1 =? Z.of_nat (S (S lvl))) = false) by (apply Z.eqb_neq; lia).
    unfold edit_adds. cbn -[lookup Z.eqb Z.of_nat]. rewrite E0, E1. rewrite app_nil_r.
    assert (E2 : level_files Version_new (S (S lvl)) = []); [|rewrite E2; constructor].
    do 5 (destruct lvl as [|lvl]; [done|]). done.
  - intros [|[|lvl]] Hl; [lia| |intros i j Hi].
    + assert (E : edits_ref Version_new example_edits 1 =
        [(6, 200, ikey_of "m" 1, ikey_of "p" 2); (7, 90, ikey_of "a" 3, ikey_of "c" 4)]) by done.
      rewrite E. intros i j [->| ->%list_elem_of_singleton]%elem_of_cons [->| ->%list_elem_of_singleton]%elem_of_cons H;
        vm_compute in H |- *; first [done|destruct H as [?|[? ?]]; done].
    + do 5 (destruct lvl as [|lvl]; [change (i ∈ []) in Hi; by apply not_elem_of_nil in Hi|]). unfold kNumLevels in Hl. lia.
  - exists b, o', v. split; [done|]. split; [done|]. vm_compute in Ea. injection Ea as <- <-. vm_compute in Es. by injection Es as <-.
Defined.
