(* ===== verification/HandleTable.v ===== *)
(** * util/cache: handles, their lists and the hash table

    Models [LRUHandle], the list operations and [HandleTable] of
    src/util/cache.cc over a heap: one map per pointer member of a handle and
    one for its other members.  Address 0 is the null pointer; the addresses 1
    and 2 are the dummy heads [lru_] and [in_use_], of which the code uses only
    the links.  Reading or writing what is not there, and a failing assertion,
    is [None]. *)

From stdpp Require Import gmap.
From S2P Require Import Prelude Coding Comparator.

Section HandleTable.
Context {V D : Type}.

(** The members of [LRUHandle] that are not links; [D] stands for deleters. *)
Record LRUHandle := mkHandle {
  h_value : V;
  h_deleter : D;
  h_charge : Z;
  h_key : bytes;
  h_in_cache : bool;
  h_refs : Z;
  h_hash : Z;
}.

Record Heap := mkHeap {
  hp_next : gmap Z Z;
  hp_prev : gmap Z Z;
  hp_next_hash : gmap Z Z;
  hp_handles : gmap Z LRUHandle;
}.

Definition lru_head : Z := 1.
Definition in_use_head : Z := 2.

(** Memory that may be accessed: a dummy head or an allocated handle. *)
Definition allocated (h : Heap) (a : Z) : bool :=
  (a =? lru_head) || (a =? in_use_head) || bool_decide (is_Some (hp_handles h !! a)).

Definition set_next (a n : Z) (h : Heap) : option Heap :=
  if allocated h a then Some (mkHeap (<[a := n]> (hp_next h)) (hp_prev h) (hp_next_hash h) (hp_handles h)) else None.
Definition set_prev (a p : Z) (h : Heap) : option Heap :=
  if allocated h a then Some (mkHeap (hp_next h) (<[a := p]> (hp_prev h)) (hp_next_hash h) (hp_handles h)) else None.
Definition set_next_hash (a n : Z) (h : Heap) : option Heap :=
  if bool_decide (is_Some (hp_handles h !! a))
  then Some (mkHeap (hp_next h) (hp_prev h) (<[a := n]> (hp_next_hash h)) (hp_handles h)) else None.
Definition set_handle (a : Z) (e : LRUHandle) (h : Heap) : Heap :=
  mkHeap (hp_next h) (hp_prev h) (hp_next_hash h) (<[a := e]> (hp_handles h)).

(** [LRUHandle::key()], with its assertion. *)
Definition handle_key (h : Heap) (a : Z) : option bytes :=
  e ← hp_handles h !! a;
  n ← hp_next h !! a;
  if n =? a then None else Some (h_key e).

(** ** The lists *)

Definition LRU_Remove (e : Z) (h : Heap) : option Heap :=
  n ← hp_next h !! e;
  p ← hp_prev h !! e;
  h ← set_prev n p h;
  p ← hp_prev h !! e;
  n ← hp_next h !! e;
  set_next p n h.

Definition LRU_Append (list e : Z) (h : Heap) : option Heap :=
  h ← set_next e list h;
  p ← hp_prev h !! list;
  h ← set_prev e p h;
  p ← hp_prev h !! e;
  h ← set_next p e h;
  n ← hp_next h !! e;
  set_prev n e h.

(** ** The hash table *)

Record HandleTable := mkHashTable { length_ : Z; elems_ : Z; list_ : list Z }.

(** What an [LRUHandle**] points to. *)
Inductive Slot := Bucket (i : nat) | NextHash (a : Z).

Definition read_slot (h : Heap) (t : HandleTable) (s : Slot) : option Z :=
  match s with
  | Bucket i => list_ t !! i
  | NextHash a => hp_next_hash h !! a
  end.

Definition write_slot (s : Slot) (a : Z) (h : Heap) (t : HandleTable) : option (Heap * HandleTable) :=
  match s with
  | Bucket i => if (i <? length (list_ t))%nat then Some (h, mkHashTable (length_ t) (elems_ t) (<[i := a]> (list_ t))) else None
  | NextHash b => h ← set_next_hash b a h; Some (h, t)
  end.

(** The loop of [FindPointer]. *)
Fixpoint find_loop (fuel : nat) (h : Heap) (t : HandleTable) (key : bytes) (hash : Z) (ptr : Slot) : option Slot :=
  match fuel with
  | O => None
  | S fuel =>
      a ← read_slot h t ptr;
      if a =? 0 then Some ptr
      else
        e ← hp_handles h !! a;
        if h_hash e =? hash then
          k ← handle_key h a;
          if negb (Slice_eqb key k) then find_loop fuel h t key hash (NextHash a) else Some ptr
        else find_loop fuel h t key hash (NextHash a)
  end.

(** The slot of the bucket's list; a list has no more handles than there are. *)
Definition bucket_of (len hash : Z) : nat := Z.to_nat (Z.land hash (len - 1)).

Definition FindPointer (h : Heap) (t : HandleTable) (key : bytes) (hash : Z) : option Slot :=
  find_loop (S (size (hp_handles h))) h t key hash (Bucket (bucket_of (length_ t) hash)).

Definition HT_Lookup (h : Heap) (t : HandleTable) (key : bytes) (hash : Z) : option Z :=
  s ← FindPointer h t key hash; read_slot h t s.

(** *** Resizing *)

(** [while (new_length < elems_)], at most 32 times for a 32-bit length. *)
Fixpoint new_length_loop (fuel : nat) (elems new_length : Z) : option Z :=
  match fuel with
  | O => None
  | S fuel => if new_length <? elems then new_length_loop fuel elems (u32 (new_length * 2)) else Some new_length
  end.

(** [while (h != nullptr)]: the handles of a bucket go to the front of the
    buckets they belong in. *)
Fixpoint move_chain (fuel : nat) (h : Heap) (new_list : list Z) (new_length a count : Z) : option (Heap * list Z * Z) :=
  match fuel with
  | O => None
  | S fuel =>
      if a =? 0 then Some (h, new_list, count)
      else
        next ← hp_next_hash h !! a;
        e ← hp_handles h !! a;
        let i := bucket_of new_length (h_hash e) in
        first ← new_list !! i;
        h ← set_next_hash a first h;
        move_chain fuel h (<[i := a]> new_list) new_length next (u32 (count + 1))
  end.

Fixpoint move_buckets (buckets : list Z) (h : Heap) (new_list : list Z) (new_length count : Z) : option (Heap * list Z * Z) :=
  match buckets with
  | [] => Some (h, new_list, count)
  | a :: buckets =>
      '(h, new_list, count) ← move_chain (S (size (hp_handles h))) h new_list new_length a count;
      move_buckets buckets h new_list new_length count
  end.

Definition Resize (h : Heap) (t : HandleTable) : option (Heap * HandleTable) :=
  new_length ← new_length_loop 33 (elems_ t) 4;
  '(h, new_list, count) ← move_buckets (list_ t) h (replicate (Z.to_nat new_length) 0) new_length 0;
  if elems_ t =? count then Some (h, mkHashTable new_length (elems_ t) new_list) else None.

(** The constructor: [Resize] of a table without buckets. *)
Definition HandleTable_new : HandleTable := mkHashTable 4 0 (replicate 4 0).

(** *** Insertion and removal *)

Definition HT_Insert (a : Z) (h : Heap) (t : HandleTable) : option (Z * Heap * HandleTable) :=
  e ← hp_handles h !! a;
  k ← handle_key h a;
  ptr ← FindPointer h t k (h_hash e);
  old ← read_slot h t ptr;
  n ← (if old =? 0 then Some 0 else hp_next_hash h !! old);
  h ← set_next_hash a n h;
  '(h, t) ← write_slot ptr a h t;
  if old =? 0 then
    let t := mkHashTable (length_ t) (u32 (elems_ t + 1)) (list_ t) in
    '(h, t) ← (if length_ t <? elems_ t then Resize h t else Some (h, t));
    Some (old, h, t)
  else Some (old, h, t).

Definition HT_Remove (key : bytes) (hash : Z) (h : Heap) (t : HandleTable) : option (Z * Heap * HandleTable) :=
  ptr ← FindPointer h t key hash;
  result ← read_slot h t ptr;
  if result =? 0 then Some (result, h, t)
  else
    n ← hp_next_hash h !! result;
    '(h, t) ← write_slot ptr n h t;
    Some (result, h, mkHashTable (length_ t) (u32 (elems_ t - 1)) (list_ t)).
End HandleTable.
Arguments LRUHandle : clear implicits.
Arguments Heap : clear implicits.

(** The constructor's [Resize] indeed makes an empty table of four buckets. *)
Example HandleTable_new_resize (h : Heap unit unit) : Resize h (mkHashTable 0 0 []) = Some (h, HandleTable_new).
Proof. reflexivity. Qed.

(** ** Paths through links *)

Section Paths.
Implicit Types (f : gmap Z Z) (a b x : Z) (l : list Z).

(** Following [f] from [a] passes the nodes of the list and arrives at [b]. *)
Fixpoint path f a l b : Prop :=
  match l with
  | [] => f !! a = Some b
  | x :: l => f !! a = Some x /\ path f x l b
  end.

Lemma path_app f a l1 x l2 b : path f a (l1 ++ x :: l2) b <-> path f a l1 x /\ path f x l2 b.
Proof. revert a. induction l1 as [|y l1 IH]; intros a; cbn; [done|]. rewrite IH. tauto. Qed.

(** A store outside the path. *)
Lemma path_frame f a l b x y : x ∉ a :: l -> path (<[x := y]> f) a l b <-> path f a l b.
Proof.
  revert a. induction l as [|z l IH]; intros a Hx; apply not_elem_of_cons in Hx as [Hx1 Hx2]; cbn.
  - by rewrite lookup_insert_ne by done.
  - by rewrite lookup_insert_ne, IH by done.
Qed.

Lemma last_cons x l a : List.last (x :: l) a = List.last l x.
Proof. revert x. induction l as [|y l IHl]; intros x; [done|]. cbn in *. by destruct l. Qed.

Lemma last_elem l a : List.last l a ∈ a :: l.
Proof. revert a. induction l as [|y l IH]; intros a; [by left|]. rewrite last_cons. right. apply IH. Qed.

Lemma last_rev l a : List.last (rev l) a = List.hd a l.
Proof. destruct l as [|x l]; [done|]. cbn. apply List.last_last. Qed.

Lemma path_delete f a l b x : x ∉ a :: l -> path f a l b -> path (delete x f) a l b.
Proof.
  revert a. induction l as [|z l IH]; intros a Hx; apply not_elem_of_cons in Hx as [Hx1 Hx2]; cbn.
  - by rewrite lookup_delete_ne by done.
  - intros [H1 H2]. rewrite lookup_delete_ne by done. split; [done|by apply IH].
Qed.

(** The last node of the path is made to lead elsewhere. *)
Lemma path_redirect f a l b c : NoDup (a :: l) -> path f a l b -> path (<[List.last l a := c]> f) a l c.
Proof.
  revert a. induction l as [|x l IH]; intros a Hnd; [intros _; apply lookup_insert_eq|].
  intros [Ha Hp]. rewrite last_cons. apply NoDup_cons in Hnd as [Hn Hnd]. specialize (IH x Hnd Hp).
  split; [|done]. rewrite lookup_insert_ne; [done|]. intros E. apply Hn. rewrite <- E. apply last_elem.
Qed.

Lemma path_head f a l b : path f a l b -> f !! a = Some (List.hd b l).
Proof. destruct l; [done|by intros [? _]]. Qed.

Lemma path_node f a l b x : path f a l b -> x ∈ a :: l -> is_Some (f !! x).
Proof.
  revert a. induction l as [|y l IH]; intros a Hp Hx; cbn in Hp.
  - apply list_elem_of_singleton in Hx as ->. by eexists.
  - destruct Hp as [Ha Hp]. apply elem_of_cons in Hx as [->|Hx]; [by eexists|by apply (IH y)].
Qed.

(** A node on a circular path leads to another one. *)
Lemma path_next_ne f a l x : NoDup (a :: l) -> path f a l a -> x ∈ l -> exists n, f !! x = Some n /\ n <> x /\ n ∈ a :: l.
Proof.
  intros Hnd Hp Hx. apply list_elem_of_split in Hx as (l1 & l2 & ->). apply path_app in Hp as [_ Hp].
  rewrite app_comm_cons in Hnd. apply NoDup_app in Hnd as (_ & Hd & Hnd). apply NoDup_cons in Hnd as [Hn _].
  destruct l2 as [|y l2]; cbn in Hp.
  - exists a. split; [done|]. split; [|by left]. intros ->. apply (Hd x); [by left|by left].
  - destruct Hp as [Hp _]. exists y. split; [done|]. split; [intros ->; apply Hn; by left|]. right. apply elem_of_app. right. right. by left.
Qed.

(** The node is taken out. *)
Lemma path_remove f a l1 x l2 b n :
  NoDup (a :: l1 ++ x :: l2) -> path f a (l1 ++ x :: l2) b -> f !! x = Some n ->
  path (<[List.last l1 a := n]> f) a (l1 ++ l2) b.
Proof.
  intros Hnd [Hp1 Hp2]%path_app Hx. rewrite app_comm_cons in Hnd. apply NoDup_app in Hnd as (Hnd1 & Hd & Hnd2).
  pose proof (path_redirect f a l1 x n Hnd1 Hp1) as Hr.
  pose proof (last_elem l1 a) as Hlast.
  destruct l2 as [|y l2]; cbn in Hp2.
  - rewrite app_nil_r. assert (n = b) as -> by congruence. done.
  - destruct Hp2 as [Hy Hp2]. assert (n = y) as -> by congruence. apply path_app. split; [done|].
    apply path_frame; [|done]. intros Hin. apply (Hd _ Hlast). by right.
Qed.
End Paths.

(** ** The doubly linked lists *)

Section Lists.
Context {V D : Type}.
Implicit Types (h : Heap V D) (l : list Z).

(** The circular list of the nodes, with its dummy head. *)
Definition dll (next prev : gmap Z Z) (head : Z) (l : list Z) : Prop :=
  NoDup (head :: l) /\ path next head l head /\ path prev head (rev l) head.

(** Nothing but links of the nodes matters. *)
Lemma dll_frame_next next prev head l x y : x ∉ head :: l -> dll next prev head l -> dll (<[x := y]> next) prev head l.
Proof. intros Hx (H1 & H2 & H3). split; [done|]. split; [by apply path_frame|done]. Qed.

Lemma dll_frame_prev next prev head l x y : x ∉ head :: l -> dll next prev head l -> dll next (<[x := y]> prev) head l.
Proof.
  intros Hx (H1 & H2 & H3). split; [done|]. split; [done|]. apply path_frame; [|done].
  intros H. apply Hx. rewrite !elem_of_cons in *. destruct H as [?|H]; [by left|right].
  rewrite list_elem_of_In in *. by apply in_rev.
Qed.

Lemma dll_delete next prev head l x : x ∉ head :: l -> dll next prev head l -> dll (delete x next) (delete x prev) head l.
Proof.
  intros Hx (H1 & H2 & H3). split; [done|]. split; [by apply path_delete|]. apply path_delete; [|done].
  intros H. apply Hx. rewrite !elem_of_cons in *. destruct H as [?|H]; [by left|right].
  rewrite list_elem_of_In in *. by apply in_rev.
Qed.

Lemma dll_next next prev head l x : dll next prev head l -> x ∈ head :: l -> is_Some (next !! x).
Proof. intros (_ & H & _). by apply (path_node _ _ _ _ _ H). Qed.

Lemma LRU_Remove_spec h head l1 e l2 :
  dll (hp_next h) (hp_prev h) head (l1 ++ e :: l2) -> (forall a, a ∈ head :: l1 ++ e :: l2 -> allocated h a = true) ->
  exists n p, LRU_Remove e h = Some (mkHeap (<[p := n]> (hp_next h)) (<[n := p]> (hp_prev h)) (hp_next_hash h) (hp_handles h)) /\
    n ∈ head :: l1 ++ l2 /\ p ∈ head :: l1 ++ l2 /\
    dll (<[p := n]> (hp_next h)) (<[n := p]> (hp_prev h)) head (l1 ++ l2).
Proof.
  intros (Hnd & Hn & Hp) Hall.
  assert (Er : rev (l1 ++ e :: l2) = rev l2 ++ e :: rev l1) by (by rewrite rev_app_distr; cbn; rewrite <- app_assoc).
  rewrite Er in Hp.
  pose proof (path_head _ _ _ _ (proj2 (proj1 (path_app _ _ _ _ _ _) Hn))) as En.
  pose proof (path_head _ _ _ _ (proj2 (proj1 (path_app _ _ _ _ _ _) Hp))) as Ep.
  set (n := List.hd head l2) in *. set (p := List.hd head (rev l1)) in *.
  assert (Hni : n ∈ head :: l2) by (unfold n; rewrite <- last_rev; destruct (proj1 (elem_of_cons _ _ _) (last_elem (rev l2) head)) as [->|H];
    [by left|right; rewrite list_elem_of_In in *; by apply in_rev]).
  assert (Hpi : p ∈ head :: l1) by (unfold p; rewrite <- last_rev, rev_involutive; apply last_elem).
  assert (Hne : e <> head /\ e ∉ l1 ++ l2).
  { rewrite app_comm_cons in Hnd. apply NoDup_app in Hnd as (_ & Hd & [Hnd _]%NoDup_cons). split.
    - intros ->. apply (Hd head); by left.
    - intros [H|H]%elem_of_app; [|done]. apply (Hd e); [by right|by left]. }
  exists n, p. assert (Hn' : n ∈ head :: l1 ++ l2) by (rewrite elem_of_cons, elem_of_app in *; tauto).
  assert (Hp' : p ∈ head :: l1 ++ l2) by (rewrite elem_of_cons, elem_of_app in *; tauto).
  assert (He : forall a, a ∈ head :: l1 ++ l2 -> a <> e) by (intros a Ha ->; apply elem_of_cons in Ha as [?|?]; tauto).
  assert (Hal : forall a, a ∈ head :: l1 ++ l2 -> allocated h a = true).
  { intros a Ha. apply Hall. rewrite elem_of_cons, elem_of_app, elem_of_cons in *. tauto. }
  split; [|split; [done|split; [done|]]].
  - unfold LRU_Remove. rewrite En, Ep. cbn [mbind option_bind]. unfold set_prev, set_next. rewrite Hal by done. cbn [mbind option_bind hp_prev hp_next].
    rewrite lookup_insert_ne by (by apply He). rewrite Ep. cbn [mbind option_bind]. rewrite En. cbn [mbind option_bind].
    unfold allocated. cbn [hp_handles]. fold (allocated h p). by rewrite Hal.
  - split; [|split].
    + rewrite app_comm_cons in Hnd |- *. apply NoDup_app in Hnd as (H1 & H2 & [_ H3]%NoDup_cons). apply NoDup_app.
      split; [done|]. split; [|done]. intros x Hx Hx2. apply (H2 x Hx). by right.
    + assert (Ep' : p = List.last l1 head) by (unfold p; by rewrite <- last_rev, rev_involutive). rewrite Ep'. by eapply path_remove.
    + rewrite rev_app_distr. assert (En' : n = List.last (rev l2) head) by (unfold n; by rewrite last_rev). rewrite En'.
      eapply path_remove; [|exact Hp|done]. rewrite <- Er. apply NoDup_cons in Hnd as [H1 H2]. apply NoDup_cons. split.
      * rewrite list_elem_of_In in *. by rewrite <- in_rev.
      * by apply NoDup_ListNoDup, NoDup_rev, NoDup_ListNoDup.
Qed.

Lemma LRU_Append_spec h head l e :
  dll (hp_next h) (hp_prev h) head l -> e ∉ head :: l -> (forall a, a ∈ e :: head :: l -> allocated h a = true) ->
  exists p, LRU_Append head e h =
      Some (mkHeap (<[p := e]> (<[e := head]> (hp_next h))) (<[head := e]> (<[e := p]> (hp_prev h))) (hp_next_hash h) (hp_handles h)) /\
    p ∈ head :: l /\
    dll (<[p := e]> (<[e := head]> (hp_next h))) (<[head := e]> (<[e := p]> (hp_prev h))) head (l ++ [e]).
Proof.
  intros (Hnd & Hn & Hp) He Hall. pose proof (path_head _ _ _ _ Hp) as Ep. set (p := List.hd head (rev l)) in *.
  assert (Epl : p = List.last l head) by (unfold p; by rewrite <- last_rev, rev_involutive).
  assert (Hpi : p ∈ head :: l) by (rewrite Epl; apply last_elem).
  assert (Hpe : p <> e) by (intros ->; done). assert (Hhe : head <> e) by (intros ->; apply He; by left).
  assert (Hae : allocated h e = true) by (apply Hall; by left). assert (Hap : allocated h p = true) by (apply Hall; by right).
  assert (Hah : allocated h head = true) by (apply Hall; right; by left).
  exists p. split; [|split; [done|split; [|split]]].
  - unfold LRU_Append, set_next, set_prev. rewrite Hae. cbn [mbind option_bind hp_prev hp_next hp_next_hash hp_handles]. rewrite Ep. cbn [mbind option_bind].
    unfold allocated. cbn [hp_handles]. fold (allocated h e) (allocated h p) (allocated h head). rewrite Hae. cbn [mbind option_bind hp_prev hp_next].
    rewrite lookup_insert_eq. cbn [mbind option_bind hp_next hp_prev hp_next_hash hp_handles]. fold (allocated h p). rewrite Hap. cbn [mbind option_bind hp_prev hp_next].
    rewrite lookup_insert_ne by done. rewrite lookup_insert_eq. cbn [mbind option_bind hp_next hp_prev hp_next_hash hp_handles].
    fold (allocated h head). by rewrite Hah.
  - rewrite app_comm_cons. apply NoDup_app. split; [done|]. split; [by intros x Hx ->%list_elem_of_singleton|apply NoDup_singleton].
  - apply path_app. split; [|cbn; by rewrite lookup_insert_ne, lookup_insert_eq].
    rewrite Epl. eapply path_redirect; [done|]. by apply path_frame.
  - rewrite rev_app_distr. cbn. split; [by rewrite lookup_insert_eq|].
    assert (Hnd' : head ∉ rev l) by (apply NoDup_cons in Hnd as [H _]; rewrite list_elem_of_In in *; by rewrite <- in_rev).
    assert (Her : e ∉ rev l) by (intros H; apply He; right; rewrite list_elem_of_In in *; by apply in_rev).
    destruct (rev l) as [|x r]; cbn in *.
    + by rewrite lookup_insert_ne, lookup_insert_eq.
    + destruct Hp as [_ Hp]. split; [by rewrite lookup_insert_ne, lookup_insert_eq|].
      rewrite path_frame by done. by rewrite path_frame.
Qed.
End Lists.

(** ** The hash table's contents *)

Section Chains.
Implicit Types (nh : gmap Z Z) (l : list Z).

(** A null-terminated list. *)
Fixpoint chain nh (p : Z) l : Prop :=
  match l with
  | [] => p = 0
  | x :: l => p = x /\ x <> 0 /\ exists n, nh !! x = Some n /\ chain nh n l
  end.

Lemma chain_frame nh p l x y : x ∉ l -> chain (<[x := y]> nh) p l <-> chain nh p l.
Proof.
  revert p. induction l as [|z l IH]; intros p Hx; cbn; [done|]. apply not_elem_of_cons in Hx as [Hx1 Hx2].
  rewrite lookup_insert_ne by done. by setoid_rewrite IH.
Qed.

Lemma chain_head nh p l : chain nh p l -> p = List.hd 0 l.
Proof. destruct l; [done|by intros [-> _]]. Qed.

Lemma chain_app nh p l1 x l2 : chain nh p (l1 ++ x :: l2) -> chain nh x (x :: l2).
Proof. revert p. induction l1 as [|y l1 IH]; intros p; cbn; [by intros (-> & ? & ?)|]. intros (_ & _ & n & _ & H). by apply (IH n). Qed.

Lemma chain_redirect nh p y l1 l2 v l3 :
  chain nh p (y :: l1 ++ l2) -> NoDup (y :: l1) -> chain nh v l3 -> (forall x, x ∈ l3 -> x ∉ y :: l1) ->
  chain (<[List.last l1 y := v]> nh) p (y :: l1 ++ l3).
Proof.
  revert p y. induction l1 as [|z l1 IH]; intros p y (-> & Hy & n & Hn & Hc) Hnd Hv Hd.
  - cbn. split; [done|]. split; [done|]. exists v. rewrite lookup_insert_eq. split; [done|]. apply chain_frame; [|done].
    intros H. apply (Hd y H). by left.
  - apply NoDup_cons in Hnd as [Hn1 Hnd]. rewrite last_cons. split; [done|]. split; [done|]. exists n.
    rewrite lookup_insert_ne; [|intros E; apply Hn1; rewrite <- E; apply last_elem]. split; [done|].
    apply IH; [done..|]. intros x Hx Hin. apply (Hd x Hx). by right.
Qed.

(** The slot that follows the handles of the list. *)
Definition slot_after (s : Slot) l : Slot := match l with [] => s | x :: l => NextHash (List.last l x) end.

Lemma slot_after_cons s x l : slot_after (NextHash x) l = slot_after s (x :: l).
Proof. destruct l as [|y l]; [done|]. cbn [slot_after]. by rewrite last_cons. Qed.

Definition chains nh (ps : list Z) (B : list (list Z)) : Prop := Forall2 (chain nh) ps B.

Lemma chains_frame nh ps B x y : x ∉ concat B -> chains (<[x := y]> nh) ps B <-> chains nh ps B.
Proof.
  intros Hx. unfold chains. split; intros H; induction H as [|p b ps B Hb HB IH]; constructor; cbn in Hx;
    apply not_elem_of_app in Hx as [Hx1 Hx2]; [by eapply chain_frame|auto|by apply chain_frame|auto].
Qed.

Lemma concat_lookup (B : list (list Z)) i b : B !! i = Some b -> concat B = concat (take i B) ++ b ++ concat (drop (S i) B).
Proof. intros H. rewrite <- (take_drop_middle _ _ _ H) at 1. by rewrite concat_app. Qed.

Lemma concat_insert (B : list (list Z)) i b c : B !! i = Some b -> concat (<[i := c]> B) = concat (take i B) ++ c ++ concat (drop (S i) B).
Proof. intros H. rewrite insert_take_drop by (by eapply lookup_lt_Some). by rewrite concat_app. Qed.
End Chains.

Section Table.
Context {V D : Type}.
Implicit Types (h : Heap V D) (t : HandleTable) (T : list Z).

(** The handle's key, which can be asked for, and its hash. *)
Definition keyed h (key : bytes) (hash x : Z) : Prop :=
  exists e n, hp_handles h !! x = Some e /\ hp_next h !! x = Some n /\ n <> x /\ h_key e = key /\ h_hash e = hash.

Lemma keyed_handle_key h key hash x : keyed h key hash x -> handle_key h x = Some key.
Proof.
  intros (e & n & He & Hn & Hne & <- & _). unfold handle_key. rewrite He, Hn. cbn. by rewrite (proj2 (Z.eqb_neq n x) Hne).
Qed.

Record table_rep h t (B : list (list Z)) : Prop := {
  tr_length : exists k, 2 <= k /\ length_ t = 2 ^ k;
  tr_list : length_ t = Z.of_nat (length (list_ t));
  tr_chains : chains (hp_next_hash h) (list_ t) B;
  tr_nodup : NoDup (concat B);
  tr_keyed : forall i b x, B !! i = Some b -> x ∈ b -> exists key hash, keyed h key hash x /\ bucket_of (length_ t) hash = i;
}.

(** The handles in the table, in some order. *)
Definition table_ok h t T : Prop := exists B, table_rep h t B /\ T ≡ₚ concat B /\ elems_ t = Z.of_nat (length T).

Lemma bucket_of_lt k hash : 0 <= k -> (bucket_of (2 ^ k) hash < Z.to_nat (2 ^ k))%nat.
Proof.
  intros Hk. unfold bucket_of. replace (2 ^ k - 1) with (Z.ones k) by (rewrite Z.ones_equiv; lia). rewrite Z.land_ones by lia.
  pose proof (Z.mod_pos_bound hash (2 ^ k) ltac:(lia)). lia.
Qed.

Lemma table_bucket h t B hash :
  table_rep h t B -> exists p b, list_ t !! bucket_of (length_ t) hash = Some p /\ B !! bucket_of (length_ t) hash = Some b /\ chain (hp_next_hash h) p b.
Proof.
  intros [(k & Hk & Ek) Hl Hc _ _]. pose proof (bucket_of_lt k hash ltac:(lia)) as Hlt. rewrite <- Ek in Hlt.
  destruct (lookup_lt_is_Some_2 (list_ t) (bucket_of (length_ t) hash) ltac:(lia)) as [p Hp].
  destruct (Forall2_lookup_l _ _ _ _ _ Hc Hp) as (b & Hb & Hch). by exists p, b.
Qed.

Lemma bucket_elem (B : list (list Z)) i b x : B !! i = Some b -> x ∈ b -> x ∈ concat B.
Proof. intros Hb Hx. rewrite (concat_lookup _ _ _ Hb), !elem_of_app. tauto. Qed.

Lemma concat_elem (B : list (list Z)) x : x ∈ concat B -> exists i b, B !! i = Some b /\ x ∈ b.
Proof.
  induction B as [|b B IH]; cbn; [by intros ?%elem_of_nil|]. intros [Hx|Hx]%elem_of_app; [by exists 0%nat, b|].
  destruct (IH Hx) as (i & c & Hi & Hc). by exists (S i), c.
Qed.

(** *** [FindPointer] *)

Lemma find_loop_spec h t key hash fuel s l p :
  read_slot h t s = Some p -> chain (hp_next_hash h) p l -> (length l < fuel)%nat ->
  (forall x, x ∈ l -> exists key hash, keyed h key hash x) ->
  exists l1 l2, l = l1 ++ l2 /\ (forall x, x ∈ l1 -> ~ keyed h key hash x) /\
    (forall x l3, l2 = x :: l3 -> keyed h key hash x) /\
    find_loop fuel h t key hash s = Some (slot_after s l1) /\ read_slot h t (slot_after s l1) = Some (List.hd 0 l2).
Proof.
  revert s l p. induction fuel as [|fuel IH]; intros s l p Hs Hc Hf Hk; [lia|]. cbn [find_loop]. rewrite Hs. cbn [mbind option_bind].
  destruct l as [|x l].
  { cbn in Hc. subst p. exists [], []. split; [done|]. split; [by intros x ?%elem_of_nil|]. by split. }
  destruct Hc as (-> & Hx & n & Hn & Hc). rewrite (proj2 (Z.eqb_neq x 0) Hx).
  destruct (Hk x ltac:(by left)) as (key' & hash' & Hkx). pose proof Hkx as (e & m & He & Hm & Hmx & Ek & Eh).
  rewrite He. cbn [mbind option_bind]. rewrite (keyed_handle_key _ _ _ _ Hkx). cbn [mbind option_bind].
  assert (Hskip : ~ keyed h key hash x ->
    exists l1 l2, x :: l = l1 ++ l2 /\ (forall x, x ∈ l1 -> ~ keyed h key hash x) /\
      (forall x l3, l2 = x :: l3 -> keyed h key hash x) /\
      find_loop fuel h t key hash (NextHash x) = Some (slot_after s l1) /\ read_slot h t (slot_after s l1) = Some (List.hd 0 l2)).
  { intros Hne. destruct (IH (NextHash x) l n Hn Hc ltac:(cbn in Hf; lia)) as (l1 & l2 & -> & H1 & H2 & H3 & H4).
    - intros y Hy. apply Hk. by right.
    - exists (x :: l1), l2. rewrite (slot_after_cons s) in H3, H4. split; [done|]. split; [|done].
      intros y [->|Hy]%elem_of_cons; auto. }
  destruct (Z.eqb_spec (h_hash e) hash) as [Ehh|Ehh].
  2: { apply Hskip. intros (e' & ? & He' & _ & _ & _ & ?). congruence. }
  destruct (Slice_eqb key key') eqn:Es; cbn [negb].
  - apply Slice_eqb_eq in Es. exists [], (x :: l). split; [done|]. split; [by intros y ?%elem_of_nil|]. split; [|done].
    intros y l3 [= <- <-]. exists e, m. repeat split; congruence.
  - apply Hskip. intros (e' & ? & He' & _ & _ & Hke & _). assert (Slice_eqb key key' = true); [apply Slice_eqb_eq|]; congruence.
Qed.

(** No more handles on a list than there are. *)
Lemma keyed_size h b : NoDup b -> (forall x, x ∈ b -> exists key hash, keyed h key hash x) -> (length b < S (size (hp_handles h)))%nat.
Proof.
  intros Hnd Hk. rewrite <- (size_list_to_set (C := gset Z) b) by done. rewrite <- (size_dom (D := gset Z) (hp_handles h)).
  apply Nat.lt_succ_r, subseteq_size. intros x Hx%elem_of_list_to_set. destruct (Hk x Hx) as (? & ? & (e & _ & He & _)).
  apply elem_of_dom. by exists e.
Qed.

(** Where [FindPointer] stops: the bucket is split there. *)
Lemma FindPointer_spec h t B key hash :
  table_rep h t B ->
  let i := bucket_of (length_ t) hash in
  exists l1 l2, B !! i = Some (l1 ++ l2) /\ FindPointer h t key hash = Some (slot_after (Bucket i) l1) /\
    read_slot h t (slot_after (Bucket i) l1) = Some (List.hd 0 l2) /\ chain (hp_next_hash h) (List.hd 0 l2) l2 /\
    (forall x l3, l2 = x :: l3 -> keyed h key hash x) /\ (l2 = [] -> forall x, x ∈ concat B -> ~ keyed h key hash x).
Proof.
  intros Ht i. destruct (table_bucket h t B hash Ht) as (p & b & Hp & Hb & Hc). fold i in Hp, Hb.
  pose proof (tr_keyed _ _ _ Ht) as Hk.
  assert (Hsize : (length b < S (size (hp_handles h)))%nat).
  { apply keyed_size.
    - pose proof (tr_nodup _ _ _ Ht) as H. rewrite (concat_lookup _ _ _ Hb) in H. by apply NoDup_app in H as (_ & _ & (H & _)%NoDup_app).
    - intros x Hx. destruct (Hk i b x Hb Hx) as (key' & hash' & ? & _). by exists key', hash'. }
  destruct (find_loop_spec h t key hash (S (size (hp_handles h))) (Bucket i) b p Hp Hc Hsize) as (l1 & l2 & -> & H1 & H2 & H3 & H4).
  { intros x Hx. destruct (Hk i b x Hb Hx) as (? & ? & Hkx & _). by eexists _, _. }
  exists l1, l2. split; [done|]. split; [exact H3|]. split; [done|]. split; [|split; [done|]].
  - destruct l2 as [|x l2]; [done|]. by apply (chain_app _ p l1).
  - intros -> x (j & c & Hj & Hx)%concat_elem Hkx. destruct (Hk j c x Hj Hx) as (key' & hash' & Hkx' & Ej).
    assert (hash' = hash) as -> by (destruct Hkx as (e & _ & He & _ & _ & _ & ?), Hkx' as (e' & _ & He' & _ & _ & _ & ?); congruence).
    fold i in Ej. subst j. assert (c = l1 ++ []) as -> by congruence. rewrite app_nil_r in Hx. by apply (H1 x).
Qed.

(** *** Stores into slots *)

(** Only hash links differ. *)
Definition same_but_hash h h' : Prop :=
  hp_next h' = hp_next h /\ hp_prev h' = hp_prev h /\ hp_handles h' = hp_handles h.

Lemma same_refl h : same_but_hash h h.
Proof. done. Qed.

Lemma same_trans h1 h2 h3 : same_but_hash h1 h2 -> same_but_hash h2 h3 -> same_but_hash h1 h3.
Proof. intros (? & ? & ?) (? & ? & ?). repeat split; congruence. Qed.

Lemma keyed_same h h' key hash x : same_but_hash h h' -> keyed h key hash x <-> keyed h' key hash x.
Proof. intros (E1 & _ & E2). unfold keyed. by rewrite E1, E2. Qed.

Lemma set_next_hash_some h x v :
  is_Some (hp_handles h !! x) ->
  set_next_hash x v h = Some (mkHeap (hp_next h) (hp_prev h) (<[x := v]> (hp_next_hash h)) (hp_handles h)).
Proof. intros H. unfold set_next_hash. by rewrite bool_decide_true. Qed.

Lemma chains_insert nh ps B i p b : chains nh ps B -> chain nh p b -> chains nh (<[i := p]> ps) (<[i := b]> B).
Proof. intros HB Hb. by apply Forall2_insert. Qed.

Lemma chains_other nh ps B i b x y : chains nh ps B -> NoDup (concat B) -> B !! i = Some b -> x ∈ b ->
  forall j p c, j <> i -> ps !! j = Some p -> B !! j = Some c -> chain (<[x := y]> nh) p c.
Proof.
  intros HB Hnd Hb Hx j p c Hj Hp Hc. apply chain_frame; [|by eapply Forall2_lookup_lr].
  intros Hxc. clear HB Hp. revert i j Hb Hc Hj. induction B as [|a B IH]; intros i j Hb Hc Hj; [done|].
  cbn in Hnd. apply NoDup_app in Hnd as (_ & Hd & Hnd). destruct i as [|i], j as [|j]; [done|..]; cbn in Hb, Hc.
  - injection Hb as ->. apply (Hd x Hx). by eapply bucket_elem.
  - injection Hc as ->. apply (Hd x Hxc). by eapply bucket_elem.
  - apply (IH Hnd i j Hb Hc). congruence.
Qed.

Lemma write_slot_spec h t B i l1 l2 v l3 :
  chains (hp_next_hash h) (list_ t) B -> NoDup (concat B) -> B !! i = Some (l1 ++ l2) ->
  chain (hp_next_hash h) v l3 -> (forall x, x ∈ l3 -> x ∉ l1) -> (forall x, x ∈ l1 -> is_Some (hp_handles h !! x)) ->
  exists h' t', write_slot (slot_after (Bucket i) l1) v h t = Some (h', t') /\ same_but_hash h h' /\
    length_ t' = length_ t /\ elems_ t' = elems_ t /\ length (list_ t') = length (list_ t) /\
    chains (hp_next_hash h') (list_ t') (<[i := l1 ++ l3]> B).
Proof.
  intros HB Hnd Hi Hv Hd Hh. pose proof (Forall2_length _ _ _ HB) as Elen.
  assert (Hil : (i < length (list_ t))%nat) by (rewrite Elen; by eapply lookup_lt_Some).
  destruct l1 as [|y l1]; cbn [slot_after write_slot].
  - rewrite (proj2 (Nat.ltb_lt _ _) Hil). eexists _, _. split; [done|]. split; [done|]. cbn. rewrite length_insert.
    do 3 (split; [done|]). by apply chains_insert.
  - set (x := List.last l1 y). assert (Hx : x ∈ y :: l1) by apply last_elem.
    rewrite set_next_hash_some by auto. eexists _, _. split; [done|]. split; [done|]. cbn [length_ elems_ list_ hp_next_hash].
    do 3 (split; [done|]). apply Forall2_same_length_lookup. split; [by rewrite length_insert|]. intros j p c Hp Hc.
    destruct (decide (j = i)) as [->|Hj].
    + rewrite list_lookup_insert_eq in Hc by lia. injection Hc as <-. apply (chain_redirect _ p y l1 l2); [|..|done|done].
      * change (chain (hp_next_hash h) p ((y :: l1) ++ l2)). by eapply Forall2_lookup_lr.
      * rewrite (concat_lookup _ _ _ Hi) in Hnd. apply NoDup_app in Hnd as (_ & _ & ((Hnd & _)%NoDup_app & _)%NoDup_app). done.
    + rewrite list_lookup_insert_ne in Hc by done.
      eapply (chains_other _ (list_ t) B i); [done|done|done| |done|done|done]. apply elem_of_app. by left.
Qed.

(** A bucket is exchanged; what the buckets then hold. *)
Lemma table_rep_update h t B h' t' i b c :
  table_rep h t B -> B !! i = Some b -> same_but_hash h h' -> length_ t' = length_ t -> length (list_ t') = length (list_ t) ->
  chains (hp_next_hash h') (list_ t') (<[i := c]> B) -> NoDup c ->
  (forall x, x ∈ c -> x ∈ b \/ (x ∉ concat B /\ exists key hash, keyed h key hash x /\ bucket_of (length_ t) hash = i)) ->
  table_rep h' t' (<[i := c]> B).
Proof.
  intros Ht Hi Hs El Ell HB Hc Hsub. split.
  - rewrite El. apply (tr_length _ _ _ Ht).
  - rewrite El, Ell. apply (tr_list _ _ _ Ht).
  - done.
  - pose proof (tr_nodup _ _ _ Ht) as Hnd. rewrite (concat_insert _ _ _ _ Hi). pose proof (concat_lookup _ _ _ Hi) as Econ.
    rewrite Econ in Hnd. apply NoDup_app in Hnd as (H1 & H2 & (H3 & H4 & H5)%NoDup_app).
    assert (Hin : forall x, x ∈ c -> x ∈ b \/ x ∉ concat B) by (intros x Hx; destruct (Hsub x Hx) as [?|[? _]]; auto).
    apply NoDup_app. split; [done|]. split.
    + intros x Hx [Hxc|Hxr]%elem_of_app; [|apply (H2 x Hx), elem_of_app; by right].
      destruct (Hin x Hxc) as [Hb|Hb]; [apply (H2 x Hx), elem_of_app; by left|]. apply Hb. rewrite Econ, !elem_of_app. by left.
    + apply NoDup_app. split; [done|]. split; [|done]. intros x Hx Hxr. destruct (Hin x Hx) as [Hb|Hb]; [by apply (H4 x)|].
      apply Hb. rewrite Econ, !elem_of_app. tauto.
  - intros j d x Hj Hx. rewrite El. destruct (decide (j = i)) as [->|Hne].
    + rewrite list_lookup_insert_eq in Hj by (by eapply lookup_lt_Some). injection Hj as <-.
      destruct (Hsub x Hx) as [Hb|(_ & key & hash & Hk & Eb)]; [|exists key, hash; split; [by apply (keyed_same h)|done]].
      destruct (tr_keyed _ _ _ Ht i b x Hi Hb) as (key & hash & Hk & Eb). exists key, hash. split; [by apply (keyed_same h)|done].
    + rewrite list_lookup_insert_ne in Hj by done. destruct (tr_keyed _ _ _ Ht j d x Hj Hx) as (key & hash & Hk & Eb).
      exists key, hash. split; [by apply (keyed_same h)|done].
Qed.

(** *** [Lookup] and [Remove] *)

Definition found h (key : bytes) (hash : Z) T (r : Z) : Prop :=
  (r = 0 /\ forall x, x ∈ T -> ~ keyed h key hash x) \/ (r <> 0 /\ r ∈ T /\ keyed h key hash r).

Lemma found_split h key hash t B T l1 l2 :
  table_rep h t B -> T ≡ₚ concat B -> B !! bucket_of (length_ t) hash = Some (l1 ++ l2) -> chain (hp_next_hash h) (List.hd 0 l2) l2 ->
  (forall x l3, l2 = x :: l3 -> keyed h key hash x) -> (l2 = [] -> forall x, x ∈ concat B -> ~ keyed h key hash x) ->
  found h key hash T (List.hd 0 l2).
Proof.
  intros Ht HT Hi Hc Hsome Hnone. destruct l2 as [|x l2].
  - left. split; [done|]. intros x Hx. rewrite HT in Hx. by apply Hnone.
  - right. cbn in Hc |- *. destruct Hc as (_ & Hx & _). split; [done|]. split; [|by eapply Hsome]. rewrite HT.
    apply (bucket_elem _ _ _ _ Hi). apply elem_of_app. right. by left.
Qed.

Lemma HT_Lookup_spec h t T key hash : table_ok h t T -> exists r, HT_Lookup h t key hash = Some r /\ found h key hash T r.
Proof.
  intros (B & Ht & HT & _). destruct (FindPointer_spec h t B key hash Ht) as (l1 & l2 & Hi & E & Er & Hc & Hsome & Hnone).
  exists (List.hd 0 l2). unfold HT_Lookup. rewrite E. cbn [mbind option_bind]. split; [done|]. by eapply found_split.
Qed.

Lemma HT_Remove_spec h t T key hash :
  table_ok h t T -> zlen T < 2 ^ 32 ->
  exists r h' t', HT_Remove key hash h t = Some (r, h', t') /\ found h key hash T r /\ same_but_hash h h' /\
    exists T', (T ≡ₚ if r =? 0 then T' else r :: T') /\ table_ok h' t' T'.
Proof.
  intros (B & Ht & HT & El) Hmax. destruct (FindPointer_spec h t B key hash Ht) as (l1 & l2 & Hi & E & Er & Hc & Hsome & Hnone).
  pose proof (found_split h key hash t B T l1 l2 Ht HT Hi Hc Hsome Hnone) as Hf.
  unfold HT_Remove. rewrite E. cbn [mbind option_bind]. rewrite Er. cbn [mbind option_bind]. destruct l2 as [|x l2]; cbn [List.hd] in *.
  { exists 0, h, t. split; [done|]. split; [done|]. split; [done|]. exists T. split; [done|]. by exists B. }
  destruct Hc as (_ & Hx & n & Hn & Hc). rewrite (proj2 (Z.eqb_neq x 0) Hx), Hn. cbn [mbind option_bind].
  pose proof (tr_nodup _ _ _ Ht) as Hnd. rewrite (concat_lookup _ _ _ Hi) in Hnd.
  apply NoDup_app in Hnd as (_ & _ & (Hnd & _)%NoDup_app). apply NoDup_app in Hnd as (Hnd1 & Hnd2 & [Hnx Hnd3]%NoDup_cons).
  destruct (write_slot_spec h t B _ l1 (x :: l2) n l2 (tr_chains _ _ _ Ht) (tr_nodup _ _ _ Ht) Hi Hc) as (h' & t' & Ew & Hs & El' & Ee' & Ell & HB).
  { intros y Hy Hy1. apply (Hnd2 y Hy1). by right. }
  { intros y Hy. destruct (tr_keyed _ _ _ Ht _ _ y Hi) as (? & ? & (e & _ & He & _) & _); [apply elem_of_app; by left|by exists e]. }
  rewrite Ew. cbn [mbind option_bind]. exists x, h'. eexists. split; [done|]. split; [done|]. split; [done|].
  rewrite (proj2 (Z.eqb_neq x 0) Hx). set (B' := <[_ := l1 ++ l2]> B) in *. exists (concat B').
  assert (HP : T ≡ₚ x :: concat B').
  { rewrite HT, (concat_lookup _ _ _ Hi). unfold B'. rewrite (concat_insert _ _ _ _ Hi). solve_Permutation. }
  split; [done|]. exists B'. split; [|split; [done|]].
  - assert (Ht' : table_rep h' t' B').
    { eapply table_rep_update; [exact Ht|exact Hi|done..| |].
      - apply NoDup_app. split; [done|]. split; [|done]. intros y Hy Hy2. apply (Hnd2 y Hy). by right.
      - intros y Hy. left. rewrite elem_of_app, elem_of_cons in *. tauto. }
    destruct Ht' as [? ? ? ? ?]. by split.
  - cbn. rewrite Ee', El. pose proof (Permutation_length HP) as EP. cbn in EP. unfold u32, zlen in *. rewrite EP in *.
    rewrite Z.mod_small; lia.
Qed.

(** *** [Resize] *)

Lemma new_length_loop_spec fuel elems k :
  2 <= k <= 31 -> 31 - k < Z.of_nat fuel -> elems <= 2 ^ 31 ->
  exists k', new_length_loop fuel elems (2 ^ k) = Some (2 ^ k') /\ k <= k' <= 31.
Proof.
  revert k. induction fuel as [|fuel IH]; intros k Hk Hf He; [lia|]. cbn [new_length_loop].
  destruct (Z.ltb_spec (2 ^ k) elems) as [Hlt|Hge]; [|exists k; split; [done|lia]].
  assert (Hk' : k < 31) by (apply (Z.pow_lt_mono_r_iff 2); lia).
  assert (E : u32 (2 ^ k * 2) = 2 ^ (k + 1)).
  { rewrite Z.pow_add_r by lia. unfold u32. rewrite Z.mod_small; [done|].
    pose proof (Z.pow_le_mono_r 2 k 30 ltac:(lia) ltac:(lia)). lia. }
  rewrite E. destruct (IH (k + 1) ltac:(lia) ltac:(lia) He) as (k' & Ek & ?). exists k'. split; [done|lia].
Qed.

Definition placed h (len : Z) (B : list (list Z)) : Prop :=
  forall i b x, B !! i = Some b -> x ∈ b -> exists key hash, keyed h key hash x /\ bucket_of len hash = i.

Lemma chains_ext nh nh' ps B : chains nh ps B -> (forall x, x ∈ concat B -> nh' !! x = nh !! x) -> chains nh' ps B.
Proof.
  assert (Hone : forall p b, chain nh p b -> (forall x, x ∈ b -> nh' !! x = nh !! x) -> chain nh' p b).
  { intros p b. revert p. induction b as [|y b IH]; intros p Hc He; [done|]. destruct Hc as (-> & Hy & n & Hn & Hc).
    split; [done|]. split; [done|]. exists n. rewrite He by (by left). split; [done|]. apply IH; [done|]. intros x Hx. apply He. by right. }
  intros HB. induction HB as [|p b ps B Hb HB IH]; intros He; constructor.
  - apply Hone; [done|]. intros x Hx. apply He. cbn. apply elem_of_app. by left.
  - apply IH. intros x Hx. apply He. cbn. apply elem_of_app. by right.
Qed.

Lemma chain_ext nh nh' p b : chain nh p b -> (forall x, x ∈ b -> nh' !! x = nh !! x) -> chain nh' p b.
Proof.
  intros Hc He. assert (H : chains nh' [p] [b]); [|by inversion H].
  apply (chains_ext nh); [by repeat constructor|]. cbn. by rewrite app_nil_r.
Qed.

(** A handle goes to the front of its bucket. *)
Lemma push_front h new_list B x first k key hash :
  chains (hp_next_hash h) new_list B -> length new_list = Z.to_nat (2 ^ k) -> 0 <= k -> placed h (2 ^ k) B ->
  x ∉ concat B -> x <> 0 -> keyed h key hash x -> new_list !! bucket_of (2 ^ k) hash = Some first ->
  let nh' := <[x := first]> (hp_next_hash h) in
  exists B', chains nh' (<[bucket_of (2 ^ k) hash := x]> new_list) B' /\ concat B' ≡ₚ x :: concat B /\ placed h (2 ^ k) B'.
Proof.
  intros HB Hl Hk HP Hx H0 Hkx Hi nh'. destruct (Forall2_lookup_l _ _ _ _ _ HB Hi) as (b & Hb & Hc).
  exists (<[bucket_of (2 ^ k) hash := x :: b]> B). split; [|split].
  - apply chains_insert; [by apply chains_frame|]. split; [done|]. split; [done|]. exists first. unfold nh'. rewrite lookup_insert_eq.
    split; [done|]. apply chain_frame; [|done]. intros H. apply Hx. by eapply bucket_elem.
  - rewrite (concat_insert _ _ _ _ Hb), (concat_lookup _ _ _ Hb). solve_Permutation.
  - intros j c y Hj Hy. destruct (decide (j = bucket_of (2 ^ k) hash)) as [->|Hne].
    + rewrite list_lookup_insert_eq in Hj by (by eapply lookup_lt_Some). injection Hj as <-.
      apply elem_of_cons in Hy as [->|Hy]; [by exists key, hash|by apply (HP _ b)].
    + rewrite list_lookup_insert_ne in Hj by done. by apply (HP j c).
Qed.

Lemma move_chain_spec fuel h new_list B k a l count :
  chain (hp_next_hash h) a l -> (length l < fuel)%nat -> chains (hp_next_hash h) new_list B ->
  length new_list = Z.to_nat (2 ^ k) -> 0 <= k -> placed h (2 ^ k) B -> NoDup (l ++ concat B) ->
  (forall x, x ∈ l -> exists key hash, keyed h key hash x) -> 0 <= count -> count + zlen l < 2 ^ 32 ->
  exists h' new_list' B', move_chain fuel h new_list (2 ^ k) a count = Some (h', new_list', count + zlen l) /\
    same_but_hash h h' /\ (forall x, x ∉ l -> hp_next_hash h' !! x = hp_next_hash h !! x) /\
    chains (hp_next_hash h') new_list' B' /\ length new_list' = length new_list /\ placed h' (2 ^ k) B' /\
    concat B' ≡ₚ l ++ concat B.
Proof.
  revert h new_list B a l count. induction fuel as [|fuel IH]; intros h new_list B a l count Hc Hf HB Hl Hk HP Hnd Hkeyed Hcnt Hmax; [lia|].
  cbn [move_chain]. destruct l as [|x l].
  { cbn in Hc. subst a. exists h, new_list, B. rewrite Z.add_0_r. by repeat split. }
  destruct Hc as (-> & Hx & n & Hn & Hc). rewrite (proj2 (Z.eqb_neq x 0) Hx), Hn. cbn [mbind option_bind].
  destruct (Hkeyed x ltac:(by left)) as (key & hash & Hkx). pose proof Hkx as (e & m & He & _ & _ & _ & Eh). rewrite He. cbn [mbind option_bind].
  rewrite Eh. pose proof (bucket_of_lt k hash Hk) as Hlt. destruct (lookup_lt_is_Some_2 new_list (bucket_of (2 ^ k) hash) ltac:(lia)) as [first Hfirst].
  rewrite Hfirst. cbn [mbind option_bind]. rewrite set_next_hash_some by (by eexists). cbn [mbind option_bind].
  cbn in Hnd. apply NoDup_cons in Hnd as [Hnx Hnd]. apply not_elem_of_app in Hnx as [Hnx1 Hnx2].
  destruct (push_front h new_list B x first k key hash HB Hl Hk HP Hnx2 Hx Hkx Hfirst) as (B1 & HB1 & HP1 & Hpl1).
  set (h1 := mkHeap _ _ (<[x := first]> _) _). assert (Hs1 : same_but_hash h h1) by done.
  assert (Ezl : zlen (x :: l) = 1 + zlen l) by (unfold zlen; cbn; lia). rewrite Ezl in *. pose proof (Zle_0_nat (length l)) as Hz. fold (zlen l) in Hz.
  assert (Eu : u32 (count + 1) = count + 1) by (unfold u32; apply Z.mod_small; lia). rewrite Eu.
  destruct (IH h1 (<[bucket_of (2 ^ k) hash := x]> new_list) B1 n l (count + 1)) as (h' & nl' & B' & E & Hs & Hnh & HB' & El & Hpl & HPm).
  - cbn. by apply chain_frame.
  - cbn in Hf. lia.
  - done.
  - by rewrite length_insert.
  - done.
  - intros i b y Hb Hy. destruct (Hpl1 i b y Hb Hy) as (key' & hash' & Hky & Eb). exists key', hash'. split; [by apply (keyed_same h)|done].
  - rewrite HP1. apply NoDup_app in Hnd as (H1 & H2 & H3). apply NoDup_app. split; [done|]. split; [|by apply NoDup_cons].
    intros y Hy [->|Hy2]%elem_of_cons; [done|by apply (H2 y)].
  - intros y Hy. destruct (Hkeyed y ltac:(by right)) as (key' & hash' & Hky). exists key', hash'. by apply (keyed_same h).
  - lia.
  - lia.
  - exists h', nl', B'. split; [rewrite E; do 2 f_equal; lia|]. split; [by eapply same_trans|]. split.
    + intros y Hy. apply not_elem_of_cons in Hy as [Hy1 Hy2]. rewrite Hnh by done. cbn. by rewrite lookup_insert_ne.
    + split; [done|]. split; [by rewrite El, length_insert|]. split; [done|]. rewrite HPm, HP1. solve_Permutation.
Qed.

Lemma move_buckets_spec buckets Bs h new_list B k count :
  chains (hp_next_hash h) buckets Bs -> chains (hp_next_hash h) new_list B ->
  length new_list = Z.to_nat (2 ^ k) -> 0 <= k -> placed h (2 ^ k) B -> NoDup (concat Bs ++ concat B) ->
  (forall x, x ∈ concat Bs -> exists key hash, keyed h key hash x) -> 0 <= count -> count + zlen (concat Bs) < 2 ^ 32 ->
  exists h' new_list' B', move_buckets buckets h new_list (2 ^ k) count = Some (h', new_list', count + zlen (concat Bs)) /\
    same_but_hash h h' /\ chains (hp_next_hash h') new_list' B' /\ length new_list' = length new_list /\ placed h' (2 ^ k) B' /\
    concat B' ≡ₚ concat Bs ++ concat B.
Proof.
  revert Bs h new_list B count. induction buckets as [|a buckets IH]; intros Bs h new_list B count Hold HB Hl Hk HP Hnd Hkeyed Hcnt Hmax;
    cbn [move_buckets].
  { apply Forall2_nil_inv_l in Hold as ->. exists h, new_list, B. cbn. rewrite Z.add_0_r. by repeat split. }
  apply Forall2_cons_inv_l in Hold as (b & Bs' & Hb & Hold & ->). rename Bs' into Bs.
  cbn [concat] in *. rewrite <- app_assoc in Hnd. pose proof (Zle_0_nat (length b)) as Hz. fold (zlen b) in Hz.
  assert (Ez : zlen (b ++ concat Bs) = zlen b + zlen (concat Bs)) by (unfold zlen; rewrite length_app; lia). rewrite Ez in *.
  pose proof (Zle_0_nat (length (concat Bs))) as Hz2. fold (zlen (concat Bs)) in Hz2.
  apply NoDup_app in Hnd as (Hn1 & Hn2 & Hn3). apply NoDup_app in Hn3 as (Hn3 & Hn4 & Hn5).
  assert (Hsize := keyed_size h b Hn1 (fun x Hx => Hkeyed x (proj2 (elem_of_app _ _ _) (or_introl Hx)))).
  destruct (move_chain_spec (S (size (hp_handles h))) h new_list B k a b count Hb Hsize HB Hl Hk HP) as (h1 & nl1 & B1 & E1 & Hs1 & Hnh1 & HB1 & El1 & Hpl1 & HPm1).
  { apply NoDup_app. split; [done|]. split; [|done]. intros x Hx Hx2. apply (Hn2 x Hx), elem_of_app. by right. }
  { intros x Hx. apply Hkeyed, elem_of_app. by left. } { done. } { lia. }
  rewrite E1. cbn [mbind option_bind].
  assert (Hold1 : chains (hp_next_hash h1) buckets Bs).
  { apply (chains_ext (hp_next_hash h)); [done|]. intros x Hx. apply Hnh1. intros Hxb. apply (Hn2 x Hxb), elem_of_app. by left. }
  destruct (IH Bs h1 nl1 B1 (count + zlen b) Hold1 HB1) as (h' & nl' & B' & E & Hs & HB' & El & Hpl & HPm).
  - by rewrite El1.
  - done.
  - done.
  - rewrite HPm1. rewrite Permutation_app_comm, <- app_assoc. apply NoDup_app. split; [done|]. split.
    + intros x Hx Hx2. apply (Hn2 x Hx). rewrite elem_of_app in *. tauto.
    + rewrite Permutation_app_comm. apply NoDup_app. by split.
  - intros x Hx. destruct (Hkeyed x ltac:(apply elem_of_app; by right)) as (key & hash & Hkx). exists key, hash. by apply (keyed_same h).
  - lia.
  - lia.
  - exists h', nl', B'. split; [rewrite E; do 2 f_equal; lia|]. split; [by eapply same_trans|]. split; [done|].
    split; [congruence|]. split; [done|]. rewrite HPm, HPm1. solve_Permutation.
Qed.

Lemma concat_replicate_nil n : concat (replicate n ([] : list Z)) = [].
Proof. by induction n. Qed.

Lemma empty_chains nh n : chains nh (replicate n 0) (replicate n []).
Proof. apply Forall2_replicate. done. Qed.

Lemma Resize_spec h t T :
  table_ok h t T -> zlen T <= 2 ^ 31 ->
  exists h' t', Resize h t = Some (h', t') /\ same_but_hash h h' /\ table_ok h' t' T.
Proof.
  intros (B & Ht & HT & El) Hmax. unfold Resize. fold (zlen T) in El.
  destruct (new_length_loop_spec 33 (elems_ t) 2) as (k & Ek & Hk); [lia|lia|lia|]. change (2 ^ 2) with 4 in Ek. rewrite Ek. cbn [mbind option_bind].
  assert (EzT : zlen (concat B) = zlen T) by (unfold zlen; by rewrite <- (Permutation_length HT)).
  destruct (move_buckets_spec (list_ t) B h (replicate (Z.to_nat (2 ^ k)) 0) (replicate (Z.to_nat (2 ^ k)) []) k 0) as (h' & nl & B' & E & Hs & HB & Eln & Hpl & HPm).
  - apply (tr_chains _ _ _ Ht).
  - apply empty_chains.
  - apply length_replicate.
  - lia.
  - intros i b x [-> _]%lookup_replicate_1 ?%elem_of_nil. done.
  - rewrite concat_replicate_nil, app_nil_r. apply (tr_nodup _ _ _ Ht).
  - intros x (i & b & Hb & Hx)%concat_elem. destruct (tr_keyed _ _ _ Ht i b x Hb Hx) as (key & hash & ? & _). by exists key, hash.
  - done.
  - lia.
  - rewrite E. cbn [mbind option_bind]. rewrite Z.add_0_l, EzT, El, Z.eqb_refl. eexists _, _. split; [done|]. split; [done|].
    rewrite concat_replicate_nil, app_nil_r in HPm. exists B'. cbn [elems_]. split; [|split; [by rewrite HPm|done]]. split; cbn [length_ list_].
    + exists k. split; [lia|done].
    + rewrite Eln, length_replicate. pose proof (Z.pow_nonneg 2 k). lia.
    + done.
    + rewrite HPm. apply (tr_nodup _ _ _ Ht).
    + done.
Qed.

(** *** [Insert] *)

Lemma HT_Insert_spec h t T a key hash :
  table_ok h t T -> zlen T < 2 ^ 31 -> a ∉ T -> a <> 0 -> keyed h key hash a ->
  exists old h' t', HT_Insert a h t = Some (old, h', t') /\ found h key hash T old /\ same_but_hash h h' /\
    exists T', (T ≡ₚ if old =? 0 then T' else old :: T') /\ table_ok h' t' (a :: T').
Proof.
  intros (B & Ht & HT & El) Hmax Ha Ha0 Hka. pose proof Hka as (e & m & He & _ & _ & _ & Eh).
  destruct (FindPointer_spec h t B key hash Ht) as (l1 & l2 & Hi & E & Er & Hc & Hsome & Hnone).
  pose proof (found_split h key hash t B T l1 l2 Ht HT Hi Hc Hsome Hnone) as Hf. set (i := bucket_of (length_ t) hash) in *.
  unfold HT_Insert. rewrite He. cbn [mbind option_bind]. rewrite (keyed_handle_key _ _ _ _ Hka). cbn [mbind option_bind]. rewrite Eh, E.
  cbn [mbind option_bind]. rewrite Er. cbn [mbind option_bind].
  assert (Ha' : a ∉ concat B) by (by rewrite <- HT).
  assert (Hal : a ∉ l1 ++ l2) by (intros H; apply Ha'; by eapply bucket_elem).
  pose proof (tr_nodup _ _ _ Ht) as Hnd. rewrite (concat_lookup _ _ _ Hi) in Hnd.
  apply NoDup_app in Hnd as (_ & _ & (Hnd & _)%NoDup_app). apply NoDup_app in Hnd as (Hnd1 & Hnd2 & Hnd3).
  assert (Hn : exists n, (if List.hd 0 l2 =? 0 then Some 0 else hp_next_hash h !! List.hd 0 l2) = Some n /\ chain (hp_next_hash h) n (tail l2)).
  { destruct l2 as [|x l2]; cbn [List.hd tail]; [by exists 0|]. destruct Hc as (_ & Hx & n & Hn & Hc).
    rewrite (proj2 (Z.eqb_neq x 0) Hx). by exists n. }
  destruct Hn as (n & En & Hcn). rewrite En. cbn [mbind option_bind]. rewrite set_next_hash_some by (by eexists). cbn [mbind option_bind].
  set (h1 := mkHeap _ _ (<[a := n]> _) _). assert (Hs1 : same_but_hash h h1) by done.
  assert (Htl : forall x, x ∈ tail l2 -> x ∈ l2) by (intros x; destruct l2; [done|by right]).
  destruct (write_slot_spec h1 t B i l1 l2 a (a :: tail l2)) as (h2 & t2 & Ew & Hs2 & El2 & Ee2 & Ell2 & HB2).
  - cbn. apply chains_frame; [done|]. apply (tr_chains _ _ _ Ht).
  - apply (tr_nodup _ _ _ Ht).
  - done.
  - cbn. split; [done|]. split; [done|]. exists n. rewrite lookup_insert_eq. split; [done|]. apply chain_frame; [|done].
    intros H. apply Hal, elem_of_app. right. by apply Htl.
  - intros x [->|Hx]%elem_of_cons Hx1; [apply Hal, elem_of_app; by left|]. apply (Hnd2 x Hx1). by apply Htl.
  - intros x Hx. destruct (tr_keyed _ _ _ Ht _ _ x Hi) as (? & ? & (e' & _ & He' & _) & _); [apply elem_of_app; by left|by exists e'].
  - rewrite Ew. cbn [mbind option_bind]. set (B2 := <[i := l1 ++ a :: tail l2]> B) in *.
    assert (Ht2 : table_rep h2 t2 B2).
    { eapply table_rep_update; [exact Ht|exact Hi|by eapply same_trans|done..| |].
      - apply NoDup_app. split; [done|]. split.
        + intros x Hx [->|Hx2]%elem_of_cons; [apply Hal, elem_of_app; by left|]. by apply (Hnd2 x Hx), Htl.
        + apply NoDup_cons. split; [intros H; apply Hal, elem_of_app; right; by apply Htl|]. destruct l2; [constructor|by apply NoDup_cons in Hnd3 as [_ ?]].
      - intros x [Hx|[->|Hx]%elem_of_cons]%elem_of_app; [left; apply elem_of_app; by left| |left; apply elem_of_app; right; by apply Htl].
        right. split; [done|]. by exists key, hash. }
    set (T' := concat (<[i := l1 ++ tail l2]> B)).
    assert (HP2 : concat B2 ≡ₚ a :: T') by (unfold B2, T'; rewrite !(concat_insert _ _ _ _ Hi); solve_Permutation).
    destruct l2 as [|x l2]; cbn [List.hd tail] in *.
    + rewrite Z.eqb_refl. assert (HP : T ≡ₚ T') by (unfold T'; rewrite HT, (concat_insert _ _ _ _ Hi), (concat_lookup _ _ _ Hi); done).
      set (t3 := mkHashTable _ _ _).
      assert (Ht3 : table_ok h2 t3 (a :: T')).
      { exists B2. split; [destruct Ht2; by split|]. split; [done|]. cbn. rewrite Ee2, El, (Permutation_length HP). unfold u32, zlen in *.
        rewrite (Permutation_length HP) in Hmax. rewrite Z.mod_small; lia. }
      destruct (length_ t3 <? elems_ t3).
      * destruct (Resize_spec h2 t3 (a :: T') Ht3) as (h4 & t4 & -> & Hs4 & Ht4).
        { unfold zlen in *. cbn. rewrite <- (Permutation_length HP). lia. }
        cbn [mbind option_bind]. exists 0, h4, t4. split; [done|]. split; [done|]. split; [by do 2 (eapply same_trans; [eassumption|])|].
        by exists T'.
      * cbn [mbind option_bind]. exists 0, h2, t3. split; [done|]. split; [done|]. split; [by eapply same_trans|]. by exists T'.
    + destruct Hc as (_ & Hx & _). rewrite (proj2 (Z.eqb_neq x 0) Hx). exists x, h2, t2. split; [done|]. split; [done|].
      split; [by eapply same_trans|]. rewrite (proj2 (Z.eqb_neq x 0) Hx).
      assert (HP : T ≡ₚ x :: T') by (unfold T'; rewrite HT, (concat_insert _ _ _ _ Hi), (concat_lookup _ _ _ Hi); solve_Permutation).
      exists T'. split; [done|]. exists B2. split; [done|]. split; [done|]. rewrite Ee2, El. cbn. by rewrite (Permutation_length HP).
Qed.

(** What the table's shape depends on. *)
Lemma table_ok_ext h h' t T :
  table_ok h t T -> (forall x, x ∈ T -> hp_next_hash h' !! x = hp_next_hash h !! x) ->
  (forall x key hash, x ∈ T -> keyed h key hash x -> keyed h' key hash x) -> table_ok h' t T.
Proof.
  intros (B & [H1 H2 H3 H4 H5] & HT & El) Enh Hk. exists B. split; [|done]. split; [done|done| |done|].
  - apply (chains_ext (hp_next_hash h)); [done|]. intros x Hx. apply Enh. by rewrite HT.
  - intros i b x Hb Hx. destruct (H5 i b x Hb Hx) as (key & hash & Hkx & Eb). exists key, hash. split; [|done]. apply Hk; [|done].
    rewrite HT. by eapply bucket_elem.
Qed.

Lemma table_ok_perm h t T T' : table_ok h t T -> T ≡ₚ T' -> table_ok h t T'.
Proof. intros (B & Ht & HT & El) HP. exists B. split; [done|]. split; [by rewrite <- HP|]. by rewrite <- (Permutation_length HP). Qed.

Lemma table_ok_new h : table_ok h HandleTable_new [].
Proof.
  exists (replicate 4 []). split; [|done]. split; cbn.
  - by exists 2.
  - done.
  - apply (empty_chains _ 4).
  - constructor.
  - intros i b x Hb Hx. change (replicate 4 (@nil Z) !! i = Some b) in Hb. apply lookup_replicate_1 in Hb as [-> _]. by apply elem_of_nil in Hx.
Qed.
End Table.
