(* ===== verification/Cache.v ===== *)
(** * util/cache: the LRU cache

    Models [LRUCache] and [ShardedLRUCache] of src/util/cache.cc over the heap
    of HandleTable.v.  Memory comes from a counter, and a deleter call is
    recorded with its arguments.  Reading freed memory, and a failing
    assertion, is [None].

    The reference is a cache of three lists of entries: those in the cache and
    not in use, oldest first; those in the cache and in use; and those erased
    but still in use.  A run of operations on the code's cache gives what the
    run gives on the reference. *)

From stdpp Require Import gmap.
From S2P Require Import Prelude Coding Comparator Bloom HandleTable.

Section LRUCache.
Context {V D : Type}.
Notation Heap := (Heap V D).

Record LRUCache := mkCache {
  capacity_ : Z;
  usage_ : Z;
  heap_ : Heap;
  table_ : HandleTable;
  malloc_ : Z;
  deleted_ : list (D * bytes * V);
}.

Definition with_heap (h : Heap) (c : LRUCache) : LRUCache :=
  mkCache (capacity_ c) (usage_ c) h (table_ c) (malloc_ c) (deleted_ c).
Definition with_table (h : Heap) (t : HandleTable) (c : LRUCache) : LRUCache :=
  mkCache (capacity_ c) (usage_ c) h t (malloc_ c) (deleted_ c).
Definition with_usage (u : Z) (c : LRUCache) : LRUCache :=
  mkCache (capacity_ c) u (heap_ c) (table_ c) (malloc_ c) (deleted_ c).

(** The constructor and [SetCapacity]: two empty circular lists. *)
Definition LRUCache_new (capacity : Z) : LRUCache :=
  mkCache capacity 0 (mkHeap {[lru_head := lru_head; in_use_head := in_use_head]} {[lru_head := lru_head; in_use_head := in_use_head]} ∅ ∅)
    HandleTable_new 3 [].

Definition with_refs (n : Z) (e : LRUHandle V D) : LRUHandle V D :=
  mkHandle (h_value e) (h_deleter e) (h_charge e) (h_key e) (h_in_cache e) n (h_hash e).
Definition out_of_cache (e : LRUHandle V D) : LRUHandle V D :=
  mkHandle (h_value e) (h_deleter e) (h_charge e) (h_key e) false (h_refs e) (h_hash e).

Definition Ref (a : Z) (h : Heap) : option Heap :=
  e ← hp_handles h !! a;
  h ← (if (h_refs e =? 1) && h_in_cache e then h ← LRU_Remove a h; LRU_Append in_use_head a h else Some h);
  Some (set_handle a (with_refs (u32 (h_refs e + 1)) e) h).

Definition free (a : Z) (h : Heap) : Heap :=
  mkHeap (delete a (hp_next h)) (delete a (hp_prev h)) (delete a (hp_next_hash h)) (delete a (hp_handles h)).

Definition Unref (a : Z) (c : LRUCache) : option LRUCache :=
  e ← hp_handles (heap_ c) !! a;
  if negb (0 <? h_refs e) then None
  else
    let e := with_refs (u32 (h_refs e - 1)) e in
    let h := set_handle a e (heap_ c) in
    if h_refs e =? 0 then
      if h_in_cache e then None
      else
        k ← handle_key h a;
        Some (mkCache (capacity_ c) (usage_ c) (free a h) (table_ c) (malloc_ c) (deleted_ c ++ [(h_deleter e, k, h_value e)]))
    else if h_in_cache e && (h_refs e =? 1) then
      h ← LRU_Remove a h;
      h ← LRU_Append lru_head a h;
      Some (with_heap h c)
    else Some (with_heap h c).

(** [FinishErase]; 0 is a null pointer. *)
Definition FinishErase (a : Z) (c : LRUCache) : option LRUCache :=
  if a =? 0 then Some c
  else
    e ← hp_handles (heap_ c) !! a;
    if negb (h_in_cache e) then None
    else
      h ← LRU_Remove a (heap_ c);
      let h := set_handle a (out_of_cache e) h in
      Unref a (with_usage (u64 (usage_ c - h_charge e)) (with_heap h c)).

Definition Lookup (key : bytes) (hash : Z) (c : LRUCache) : option (Z * LRUCache) :=
  a ← HT_Lookup (heap_ c) (table_ c) key hash;
  h ← (if a =? 0 then Some (heap_ c) else Ref a (heap_ c));
  Some (a, with_heap h c).

Definition Release (a : Z) (c : LRUCache) : option LRUCache := Unref a c.

(** Taking the oldest handle out of the table and the cache. *)
Definition evict_oldest (c : LRUCache) : option LRUCache :=
  old ← hp_next (heap_ c) !! lru_head;
  e ← hp_handles (heap_ c) !! old;
  if negb (h_refs e =? 1) then None
  else
    k ← handle_key (heap_ c) old;
    '(r, h, t) ← HT_Remove k (h_hash e) (heap_ c) (table_ c);
    c ← FinishErase r (with_table h t c);
    if r =? 0 then None else Some c.

(** [while (usage_ > capacity_ && lru_.next != &lru_)]: each turn frees a
    handle, so there are no more turns than handles. *)
Fixpoint evict_loop (fuel : nat) (c : LRUCache) : option LRUCache :=
  match fuel with
  | O => None
  | S fuel =>
      n ← hp_next (heap_ c) !! lru_head;
      if (capacity_ c <? usage_ c) && negb (n =? lru_head) then c ← evict_oldest c; evict_loop fuel c
      else Some c
  end.

(** The new handle [a], cached or not. *)
Definition add_handle (a : Z) (key : bytes) (hash : Z) (value : V) (charge : Z) (deleter : D) (c : LRUCache) : option LRUCache :=
  if 0 <? capacity_ c then
    h ← LRU_Append in_use_head a (set_handle a (mkHandle value deleter charge key true 2 hash) (heap_ c));
    let c := with_usage (u64 (usage_ c + charge)) (with_heap h c) in
    '(old, h, t) ← HT_Insert a (heap_ c) (table_ c);
    FinishErase old (with_table h t c)
  else
    h ← set_next a 0 (set_handle a (mkHandle value deleter charge key false 1 hash) (heap_ c));
    Some (with_heap h c).

Definition Insert (key : bytes) (hash : Z) (value : V) (charge : Z) (deleter : D) (c : LRUCache) : option (Z * LRUCache) :=
  let a := malloc_ c in
  c ← add_handle a key hash value charge deleter (mkCache (capacity_ c) (usage_ c) (heap_ c) (table_ c) (a + 1) (deleted_ c));
  c ← evict_loop (S (size (hp_handles (heap_ c)))) c;
  Some (a, c).

Definition Erase (key : bytes) (hash : Z) (c : LRUCache) : option LRUCache :=
  '(r, h, t) ← HT_Remove key hash (heap_ c) (table_ c);
  FinishErase r (with_table h t c).

Fixpoint prune_loop (fuel : nat) (c : LRUCache) : option LRUCache :=
  match fuel with
  | O => None
  | S fuel =>
      n ← hp_next (heap_ c) !! lru_head;
      if n =? lru_head then Some c else c ← evict_oldest c; prune_loop fuel c
  end.

Definition Prune (c : LRUCache) : option LRUCache := prune_loop (S (size (hp_handles (heap_ c)))) c.

Definition TotalCharge (c : LRUCache) : Z := usage_ c.

(** The destructor: the client has released all its handles. *)
Fixpoint destroy_loop (fuel : nat) (a : Z) (c : LRUCache) : option LRUCache :=
  match fuel with
  | O => None
  | S fuel =>
      if a =? lru_head then Some c
      else
        next ← hp_next (heap_ c) !! a;
        e ← hp_handles (heap_ c) !! a;
        if negb (h_in_cache e) || negb (h_refs e =? 1) then None
        else
          c ← Unref a (with_heap (set_handle a (out_of_cache e) (heap_ c)) c);
          destroy_loop fuel next c
  end.

Definition LRUCache_delete (c : LRUCache) : option LRUCache :=
  n ← hp_next (heap_ c) !! in_use_head;
  if negb (n =? in_use_head) then None
  else
    a ← hp_next (heap_ c) !! lru_head;
    destroy_loop (S (size (hp_handles (heap_ c)))) a c.
End LRUCache.
Arguments LRUCache : clear implicits.

(** ** The reference *)

Section Reference.
Context {V D : Type}.

(** An entry with the address of its handle and the number of references its
    clients hold. *)
Record AEntry := mkAEntry {
  ae_id : Z; ae_key : bytes; ae_hash : Z; ae_value : V; ae_charge : Z; ae_deleter : D; ae_pins : Z
}.

Record ACache := mkACache {
  a_capacity : Z;
  a_lru : list AEntry;
  a_used : list AEntry;
  a_out : list AEntry;
  a_next : Z;
  a_deleted : list (D * bytes * V);
}.

Definition ACache_new (capacity : Z) : ACache := mkACache capacity [] [] [] 3 [].

Definition cached (A : ACache) : list AEntry := a_lru A ++ a_used A.
Definition held (A : ACache) : list AEntry := a_used A ++ a_out A.
Definition charges (l : list AEntry) : Z := foldr (fun e n => ae_charge e + n) 0 l.
Definition a_usage (A : ACache) : Z := u64 (charges (cached A)).

Definition with_pins (n : Z) (e : AEntry) : AEntry :=
  mkAEntry (ae_id e) (ae_key e) (ae_hash e) (ae_value e) (ae_charge e) (ae_deleter e) n.

(** The entry with the address, and the others. *)
Fixpoint take_out (id : Z) (l : list AEntry) : option (AEntry * list AEntry) :=
  match l with
  | [] => None
  | e :: l => if ae_id e =? id then Some (e, l) else '(f, l) ← take_out id l; Some (f, e :: l)
  end.

Definition a_find (key : bytes) (hash : Z) (l : list AEntry) : option AEntry :=
  List.find (fun e => bool_decide (ae_key e = key) && (ae_hash e =? hash)) l.

Definition with_lists (lru used out : list AEntry) (A : ACache) : ACache :=
  mkACache (a_capacity A) lru used out (a_next A) (a_deleted A).
Definition with_deletion (e : AEntry) (A : ACache) : ACache :=
  mkACache (a_capacity A) (a_lru A) (a_used A) (a_out A) (a_next A) (a_deleted A ++ [(ae_deleter e, ae_key e, ae_value e)]).

(** A client gets a reference. *)
Definition a_pin (id : Z) (A : ACache) : ACache :=
  match take_out id (a_lru A) with
  | Some (e, lru) => with_lists lru (a_used A ++ [with_pins (ae_pins e + 1) e]) (a_out A) A
  | None =>
      with_lists (a_lru A) (map (fun e => if ae_id e =? id then with_pins (ae_pins e + 1) e else e) (a_used A)) (a_out A) A
  end.

(** A client gives a reference back: an entry that nobody uses any more becomes
    the newest in LRU order, or is deleted when it has been erased. *)
Definition a_release (id : Z) (A : ACache) : ACache :=
  match take_out id (a_used A) with
  | Some (e, used) =>
      if ae_pins e =? 1 then with_lists (a_lru A ++ [with_pins 0 e]) used (a_out A) A
      else with_lists (a_lru A) (map (fun e => if ae_id e =? id then with_pins (ae_pins e - 1) e else e) (a_used A)) (a_out A) A
  | None =>
      match take_out id (a_out A) with
      | Some (e, out) =>
          if ae_pins e =? 1 then with_deletion e (with_lists (a_lru A) (a_used A) out A)
          else with_lists (a_lru A) (a_used A) (map (fun e => if ae_id e =? id then with_pins (ae_pins e - 1) e else e) (a_out A)) A
      | None => A
      end
  end.

(** An entry leaves the cache: it is deleted when nobody uses it. *)
Definition a_drop (id : Z) (A : ACache) : ACache :=
  match take_out id (a_lru A) with
  | Some (e, lru) => with_deletion e (with_lists lru (a_used A) (a_out A) A)
  | None =>
      match take_out id (a_used A) with
      | Some (e, used) => with_lists (a_lru A) used (a_out A ++ [e]) A
      | None => A
      end
  end.

Definition a_lookup (key : bytes) (hash : Z) (A : ACache) : Z * ACache :=
  match a_find key hash (cached A) with
  | Some e => (ae_id e, a_pin (ae_id e) A)
  | None => (0, A)
  end.

Definition a_erase (key : bytes) (hash : Z) (A : ACache) : ACache :=
  match a_find key hash (cached A) with
  | Some e => a_drop (ae_id e) A
  | None => A
  end.

(** The oldest unused entries go while there is too much. *)
Fixpoint a_evict (lru : list AEntry) (A : ACache) : ACache :=
  match lru with
  | [] => A
  | e :: lru => if a_capacity A <? a_usage A then a_evict lru (a_drop (ae_id e) A) else A
  end.

Definition a_insert (key : bytes) (hash : Z) (value : V) (charge : Z) (deleter : D) (A : ACache) : Z * ACache :=
  let e := mkAEntry (a_next A) key hash value charge deleter 1 in
  let A1 := mkACache (a_capacity A) (a_lru A) (a_used A) (a_out A) (a_next A + 1) (a_deleted A) in
  let A2 :=
    if 0 <? a_capacity A then
      let A2 := with_lists (a_lru A) (a_used A ++ [e]) (a_out A) A1 in
      match a_find key hash (cached A) with Some old => a_drop (ae_id old) A2 | None => A2 end
    else with_lists (a_lru A) (a_used A) (a_out A ++ [e]) A1 in
  (a_next A, a_evict (a_lru A2) A2).

Definition a_prune (A : ACache) : ACache := fold_left (fun A e => a_drop (ae_id e) A) (a_lru A) A.

(** *** Lists of entries *)

Notation ids l := (map ae_id l).

Lemma take_out_split id l1 e l2 : ae_id e = id -> id ∉ ids l1 -> take_out id (l1 ++ e :: l2) = Some (e, l1 ++ l2).
Proof.
  intros He. induction l1 as [|f l1 IH]; cbn; intros Hn.
  - by rewrite (proj2 (Z.eqb_eq _ _) He).
  - apply not_elem_of_cons in Hn as [Hn1 Hn2]. rewrite (proj2 (Z.eqb_neq _ _)) by congruence. by rewrite IH.
Qed.

Lemma take_out_none id l : id ∉ ids l -> take_out id l = None.
Proof.
  induction l as [|e l IH]; cbn; [done|]. intros [Hn1 Hn2]%not_elem_of_cons. rewrite (proj2 (Z.eqb_neq _ _)) by congruence. by rewrite IH.
Qed.

Lemma take_out_Some id l e r : take_out id l = Some (e, r) -> exists l1 l2, l = l1 ++ e :: l2 /\ r = l1 ++ l2 /\ ae_id e = id.
Proof.
  revert r. induction l as [|f l IH]; intros r; cbn; [done|]. destruct (Z.eqb_spec (ae_id f) id) as [E|E].
  - intros [= -> ->]. by exists [], r.
  - destruct (take_out id l) as [[g l']|]; cbn; [|done]. intros [= -> <-]. destruct (IH _ eq_refl) as (l1 & l2 & -> & -> & ?). by exists (f :: l1), l2.
Qed.

(** Changing the entry with the address changes that one. *)
Lemma map_at_split (g : AEntry -> AEntry) id l1 e l2 : ae_id e = id -> NoDup (ids (l1 ++ e :: l2)) ->
  map (fun e => if ae_id e =? id then g e else e) (l1 ++ e :: l2) = l1 ++ g e :: l2.
Proof.
  intros He Hnd. rewrite map_app in Hnd |- *. cbn in Hnd |- *. apply NoDup_app in Hnd as (_ & Hd & [Hn _]%NoDup_cons).
  assert (Hid : forall l, ae_id e ∉ ids l -> map (fun e => if ae_id e =? id then g e else e) l = l).
  { intros l. induction l as [|f l IH]; cbn; [done|]. intros [H1 H2]%not_elem_of_cons. rewrite (proj2 (Z.eqb_neq _ _)) by congruence. by rewrite IH. }
  rewrite (proj2 (Z.eqb_eq _ _) He), !Hid; [done|done|]. intros H. apply (Hd _ H). by left.
Qed.

Lemma charges_app l1 l2 : charges (l1 ++ l2) = charges l1 + charges l2.
Proof. unfold charges. induction l1 as [|e l1 IH]; cbn; [done|]. rewrite IH. lia. Qed.

Lemma charges_cons e l : charges (e :: l) = ae_charge e + charges l.
Proof. done. Qed.
End Reference.
Arguments AEntry : clear implicits.
Arguments ACache : clear implicits.

(** ** The heap of a cache *)

Section HeapRel.
Context {V D : Type}.
Implicit Types (h : Heap V D) (e : AEntry V D) (lru used out : list (AEntry V D)).
Notation ids l := (map ae_id l).

Definition handle_of (in_cache : bool) (e : AEntry V D) : LRUHandle V D :=
  mkHandle (ae_value e) (ae_deleter e) (ae_charge e) (ae_key e) in_cache (ae_pins e + if in_cache then 1 else 0) (ae_hash e).

(** All the handles there are. *)
Definition handles_of lru used out : list (Z * LRUHandle V D) :=
  map (fun e => (ae_id e, handle_of true e)) (lru ++ used) ++ map (fun e => (ae_id e, handle_of false e)) out.

Record heap_rel h lru used out : Prop := {
  hr_lru : dll (hp_next h) (hp_prev h) lru_head (ids lru);
  hr_used : dll (hp_next h) (hp_prev h) in_use_head (ids used);
  hr_nodup : NoDup (ids (lru ++ used ++ out));
  hr_low : forall e, e ∈ lru ++ used ++ out -> 3 <= ae_id e;
  hr_handles : hp_handles h = list_to_map (handles_of lru used out);
  hr_next : forall e, e ∈ out -> exists n, hp_next h !! ae_id e = Some n /\ n <> ae_id e;
}.

Lemma handles_of_fst lru used out : (handles_of lru used out).*1 = ids (lru ++ used ++ out).
Proof.
  unfold handles_of. change (map fst (map (fun e => (ae_id e, handle_of true e)) (lru ++ used) ++
    map (fun e => (ae_id e, handle_of false e)) out) = ids (lru ++ used ++ out)).
  rewrite !map_app, !map_map. cbn. by rewrite <- app_assoc.
Qed.

Lemma handles_perm (l l' : list (Z * LRUHandle V D)) : NoDup (l.*1) -> l ≡ₚ l' -> (list_to_map l : gmap Z _) = list_to_map l'.
Proof. apply list_to_map_proper. Qed.

Lemma handles_set (l l' R : list (Z * LRUHandle V D)) i x y :
  NoDup (l.*1) -> l ≡ₚ (i, x) :: R -> l' ≡ₚ (i, y) :: R -> (list_to_map l' : gmap Z _) = <[i := y]> (list_to_map l).
Proof.
  intros Hnd H H'. assert (Hnd' : NoDup (l'.*1)) by (rewrite H', H in *; exact Hnd).
  rewrite (handles_perm l' _ Hnd' H'), (handles_perm l _ Hnd H). cbn. by rewrite insert_insert_eq.
Qed.

Lemma handles_new (l l' : list (Z * LRUHandle V D)) i y :
  NoDup (l'.*1) -> l' ≡ₚ (i, y) :: l -> (list_to_map l' : gmap Z _) = <[i := y]> (list_to_map l).
Proof. intros Hnd H. by rewrite (handles_perm l' _ Hnd H). Qed.

Lemma handles_free (l l' : list (Z * LRUHandle V D)) i x y :
  NoDup (l.*1) -> l ≡ₚ (i, x) :: l' -> (list_to_map l' : gmap Z _) = delete i (<[i := y]> (list_to_map l)).
Proof.
  intros Hnd H. rewrite delete_insert_eq. rewrite (handles_perm l _ Hnd H). rewrite H in Hnd. cbn in *. apply NoDup_cons in Hnd as [Hn _].
  rewrite delete_insert_eq. symmetry. apply delete_id. by apply not_elem_of_list_to_map_1.
Qed.

Lemma handles_lookup h lru used out i x R :
  heap_rel h lru used out -> handles_of lru used out ≡ₚ (i, x) :: R -> hp_handles h !! i = Some x.
Proof.
  intros H HP. rewrite (hr_handles _ _ _ _ H).
  rewrite (handles_perm _ _ ltac:(rewrite handles_of_fst; apply (hr_nodup _ _ _ _ H)) HP). apply lookup_insert_eq.
Qed.

Lemma handle_cached h lru used out e : heap_rel h lru used out -> e ∈ lru ++ used -> hp_handles h !! ae_id e = Some (handle_of true e).
Proof.
  intros H (l1 & l2 & E)%list_elem_of_split. eapply (handles_lookup _ _ _ _ _ _ _ H).
  unfold handles_of. rewrite E, map_app. cbn. symmetry. rewrite <- app_assoc. apply (Permutation_middle (map _ l1)).
Qed.

Lemma handle_out h lru used out e : heap_rel h lru used out -> e ∈ out -> hp_handles h !! ae_id e = Some (handle_of false e).
Proof.
  intros H (l1 & l2 & ->)%list_elem_of_split. eapply (handles_lookup _ _ _ _ _ _ _ H).
  unfold handles_of. rewrite (map_app _ l1). cbn. symmetry. rewrite app_assoc. apply Permutation_middle.
Qed.

(** Cached entries can be found by key. *)
Lemma keyed_cached h lru used out e : heap_rel h lru used out -> e ∈ lru ++ used -> keyed h (ae_key e) (ae_hash e) (ae_id e).
Proof.
  intros H He. pose proof (handle_cached _ _ _ _ _ H He) as Eh.
  assert (Hn : exists n, hp_next h !! ae_id e = Some n /\ n <> ae_id e).
  { apply elem_of_app in He as [He|He].
    - destruct (hr_lru _ _ _ _ H) as (Hnd & Hp & _). destruct (path_next_ne _ _ _ (ae_id e) Hnd Hp) as (n & ? & ? & _); [by apply list_elem_of_fmap_2|by exists n].
    - destruct (hr_used _ _ _ _ H) as (Hnd & Hp & _). destruct (path_next_ne _ _ _ (ae_id e) Hnd Hp) as (n & ? & ? & _); [by apply list_elem_of_fmap_2|by exists n]. }
  destruct Hn as (n & En & Hne). exists (handle_of true e), n. done.
Qed.

Lemma allocated_cached h lru used out a :
  heap_rel h lru used out -> a ∈ lru_head :: ids lru \/ a ∈ in_use_head :: ids used -> allocated h a = true.
Proof.
  intros H Ha. unfold allocated. destruct (Z.eqb_spec a lru_head) as [->|]; [done|]. destruct (Z.eqb_spec a in_use_head) as [->|]; [done|]. cbn.
  apply bool_decide_eq_true. assert (Ha' : a ∈ ids (lru ++ used)).
  { rewrite map_app, elem_of_app, !elem_of_cons in *. tauto. }
  apply list_elem_of_fmap in Ha' as (e & -> & He). eexists. by apply (handle_cached _ lru used out).
Qed.

(** *** Links *)

(** An address leaves list [a]. *)
Lemma unlink h a b L1 i L2 Lb :
  dll (hp_next h) (hp_prev h) a (L1 ++ i :: L2) -> dll (hp_next h) (hp_prev h) b Lb ->
  (forall x, x ∈ a :: L1 ++ i :: L2 -> x ∉ b :: Lb) -> (forall x, x ∈ a :: L1 ++ i :: L2 -> allocated h x = true) ->
  exists h', LRU_Remove i h = Some h' /\ hp_handles h' = hp_handles h /\ hp_next_hash h' = hp_next_hash h /\
    dll (hp_next h') (hp_prev h') a (L1 ++ L2) /\ dll (hp_next h') (hp_prev h') b Lb /\
    (forall x, x ∉ a :: L1 ++ L2 -> hp_next h' !! x = hp_next h !! x).
Proof.
  intros Ha Hb Hd Hal. destruct (LRU_Remove_spec h a L1 i L2 Ha Hal) as (n & p & E & Hn & Hp & Ha').
  eexists. split; [exact E|]. cbn. split; [done|]. split; [done|]. split; [done|].
  assert (Hsub : forall x, x ∈ a :: L1 ++ L2 -> x ∈ a :: L1 ++ i :: L2) by (intros x; rewrite !elem_of_cons, !elem_of_app, elem_of_cons; tauto).
  split.
  - apply dll_frame_next; [by apply Hd, Hsub|]. apply dll_frame_prev; [by apply Hd, Hsub|done].
  - intros x Hx. rewrite lookup_insert_ne; [done|]. by intros ->.
Qed.

(** An address joins the end of list [a]. *)
Lemma link h a b L i Lb :
  dll (hp_next h) (hp_prev h) a L -> dll (hp_next h) (hp_prev h) b Lb ->
  (forall x, x ∈ i :: a :: L -> x ∉ b :: Lb) -> i ∉ a :: L -> (forall x, x ∈ i :: a :: L -> allocated h x = true) ->
  exists h', LRU_Append a i h = Some h' /\ hp_handles h' = hp_handles h /\ hp_next_hash h' = hp_next_hash h /\
    dll (hp_next h') (hp_prev h') a (L ++ [i]) /\ dll (hp_next h') (hp_prev h') b Lb /\
    (forall x, x ∉ i :: a :: L -> hp_next h' !! x = hp_next h !! x).
Proof.
  intros Ha Hb Hd Hi Hal. destruct (LRU_Append_spec h a L i Ha Hi Hal) as (p & E & Hp & Ha').
  eexists. split; [exact E|]. cbn. split; [done|]. split; [done|]. split; [done|].
  assert (Hbi : i ∉ b :: Lb) by (apply Hd; by left). assert (Hbp : p ∉ b :: Lb) by (apply Hd; by right).
  assert (Hba : a ∉ b :: Lb) by (apply Hd; right; by left). split.
  - by do 2 (apply dll_frame_next; [done|]); do 2 (apply dll_frame_prev; [done|]).
  - intros x Hx. apply not_elem_of_cons in Hx as [Hx1 Hx2]. rewrite lookup_insert_ne by (intros ->; done). by rewrite lookup_insert_ne.
Qed.

Lemma lists_disjoint h lru used out x :
  heap_rel h lru used out -> x ∈ lru_head :: ids lru -> x ∈ in_use_head :: ids used -> False.
Proof.
  intros [_ _ Hnd Hlow _ _] H1 H2. unfold lru_head, in_use_head in *.
  assert (Hl : forall x, x ∈ ids lru -> 3 <= x) by (intros y (e & -> & He)%list_elem_of_fmap; apply Hlow, elem_of_app; by left).
  assert (Hu : forall x, x ∈ ids used -> 3 <= x) by (intros y (e & -> & He)%list_elem_of_fmap; apply Hlow; rewrite !elem_of_app; tauto).
  rewrite elem_of_cons in H1, H2. destruct H1 as [H1|H1], H2 as [H2|H2]; [lia|apply Hu in H2; lia|apply Hl in H1; lia|].
  rewrite map_app in Hnd. apply NoDup_app in Hnd as (_ & Hd & _). apply (Hd _ H1). rewrite map_app. apply elem_of_app. by left.
Qed.

(** An erased entry is on neither list. *)
Lemma out_unlinked h lru used out f :
  heap_rel h lru used out -> f ∈ out -> ae_id f ∉ lru_head :: ids lru /\ ae_id f ∉ in_use_head :: ids used.
Proof.
  intros [_ _ Hnd Hlow _ _] Hf. unfold lru_head, in_use_head. pose proof (Hlow f ltac:(rewrite !elem_of_app; tauto)) as Hl.
  rewrite !map_app in Hnd. apply NoDup_app in Hnd as (_ & Hd1 & (_ & Hd2 & _)%NoDup_app).
  assert (Hfi : ae_id f ∈ ids out) by (by apply list_elem_of_fmap_2).
  split; intros [Hx|Hx]%elem_of_cons; [lia|apply (Hd1 _ Hx), elem_of_app; by right|lia|by apply (Hd2 _ Hx)].
Qed.

Lemma ids_split (l1 l2 : list (AEntry V D)) e : ids (l1 ++ e :: l2) = ids l1 ++ ae_id e :: ids l2.
Proof. by rewrite map_app. Qed.

(** An address moves from one list to the end of the other. *)
Lemma relink h a b L1 i L2 Lb :
  dll (hp_next h) (hp_prev h) a (L1 ++ i :: L2) -> dll (hp_next h) (hp_prev h) b Lb ->
  (forall x, x ∈ a :: L1 ++ i :: L2 -> x ∉ b :: Lb) ->
  (forall x, x ∈ a :: L1 ++ i :: L2 \/ x ∈ b :: Lb -> allocated h x = true) ->
  exists h', (h1 ← LRU_Remove i h; LRU_Append b i h1) = Some h' /\ hp_handles h' = hp_handles h /\ hp_next_hash h' = hp_next_hash h /\
    dll (hp_next h') (hp_prev h') a (L1 ++ L2) /\ dll (hp_next h') (hp_prev h') b (Lb ++ [i]) /\
    (forall x, x ∉ a :: L1 ++ i :: L2 -> x ∉ b :: Lb -> hp_next h' !! x = hp_next h !! x).
Proof.
  intros H1 H2 Hdis Hal.
  destruct (unlink h a b L1 i L2 Lb H1 H2 Hdis) as (h1 & -> & Eh1 & En1 & D1 & D2 & Hn1); [intros x Hx; apply Hal; by left|].
  cbn [mbind option_bind]. assert (Hal1 : forall x, allocated h1 x = allocated h x) by (intros x; unfold allocated; by rewrite Eh1).
  assert (Hi : i ∈ a :: L1 ++ i :: L2) by (right; apply elem_of_app; right; by left).
  assert (Hout : i ∉ a :: L1 ++ L2).
  { destruct H1 as (Hnd & _). rewrite app_comm_cons in Hnd |- *. apply NoDup_app in Hnd as (_ & Hd & [Hn _]%NoDup_cons).
    intros [Hx|Hx]%elem_of_app; [|done]. apply (Hd _ Hx). by left. }
  destruct (link h1 b a Lb i (L1 ++ L2) D2 D1) as (h2 & -> & Eh2 & En2 & D3 & D4 & Hn2).
  { intros x [->|Hx]%elem_of_cons Hx2; [done|]. apply (Hdis x); [|done]. rewrite !elem_of_cons, !elem_of_app in *. rewrite elem_of_cons. tauto. }
  { by apply Hdis. }
  { intros x [->|Hx]%elem_of_cons; rewrite Hal1; apply Hal; [by left|by right]. }
  exists h2. split; [done|]. split; [congruence|]. split; [congruence|]. split; [done|]. split; [done|].
  intros x Hx1 Hx2. rewrite !elem_of_cons, !elem_of_app, elem_of_cons in *.
  rewrite Hn2 by (rewrite !elem_of_cons; tauto). rewrite Hn1 by (rewrite elem_of_cons, elem_of_app; tauto). done.
Qed.

(** The entries are the same up to their pins. *)
Lemma heap_rel_move h h' lru used out lru' used' out' :
  heap_rel h lru used out ->
  dll (hp_next h') (hp_prev h') lru_head (ids lru') -> dll (hp_next h') (hp_prev h') in_use_head (ids used') ->
  ids (lru' ++ used' ++ out') ≡ₚ ids (lru ++ used ++ out) -> hp_handles h' = list_to_map (handles_of lru' used' out') ->
  (forall e, e ∈ out' -> exists n, hp_next h' !! ae_id e = Some n /\ n <> ae_id e) -> heap_rel h' lru' used' out'.
Proof.
  intros [H1 H2 H3 H4 H5 H6] D1 D2 HP Hh Hn. split; [done|done|by rewrite HP| |done|done].
  intros e He. assert (Hi : ae_id e ∈ ids (lru ++ used ++ out)) by (rewrite <- HP; by apply list_elem_of_fmap_2).
  apply list_elem_of_fmap in Hi as (f & -> & Hf). by apply H4.
Qed.

(** *** Taking a reference *)

Lemma Ref_lru h l1 e l2 used out :
  heap_rel h (l1 ++ e :: l2) used out -> ae_pins e = 0 ->
  exists h', Ref (ae_id e) h = Some h' /\ hp_next_hash h' = hp_next_hash h /\
    heap_rel h' (l1 ++ l2) (used ++ [with_pins (ae_pins e + 1) e]) out.
Proof.
  intros H Hp. pose proof (handle_cached h (l1 ++ e :: l2) used out e H ltac:(rewrite !elem_of_app; left; right; by left)) as Eh.
  unfold Ref. rewrite Eh. cbn [mbind option_bind handle_of h_refs h_in_cache]. rewrite Hp. cbn [Z.add Z.eqb Pos.eqb andb].
  destruct (relink h lru_head in_use_head (ids l1) (ae_id e) (ids l2) (ids used)) as (h2 & E2 & Eh2 & En2 & D1 & D2 & Hn2).
  { rewrite <- ids_split. apply (hr_lru _ _ _ _ H). } { apply (hr_used _ _ _ _ H). }
  { rewrite <- ids_split. intros x Hx Hx2. by apply (lists_disjoint h _ _ _ x H). }
  { rewrite <- ids_split. intros x. apply (allocated_cached h _ _ _ x H). }
  cbn [mbind option_bind] in E2 |- *. rewrite E2. cbn [mbind option_bind]. eexists. split; [done|]. split; [done|].
  eapply heap_rel_move; [exact H|..]; cbn [hp_next hp_prev hp_handles set_handle].
  - by rewrite map_app.
  - by rewrite map_app.
  - rewrite !map_app. cbn. solve_Permutation.
  - rewrite Eh2, (hr_handles _ _ _ _ H). symmetry. set (y := with_refs _ _).
    assert (Ey : y = handle_of true (with_pins 1 e)) by done. rewrite Ey. apply (handles_set _ _ (handles_of (l1 ++ l2) used out) _ (handle_of true e)).
    + rewrite handles_of_fst. apply (hr_nodup _ _ _ _ H).
    + unfold handles_of. rewrite !map_app. cbn. solve_Permutation.
    + unfold handles_of. rewrite !map_app. cbn. solve_Permutation.
  - intros f Hf. destruct (hr_next _ _ _ _ H f Hf) as (n & En & Hne). exists n. split; [|done].
    destruct (out_unlinked h _ _ _ f H Hf) as [Ho1 Ho2]. rewrite ids_split in Ho1. by rewrite Hn2.
Qed.

(** A handle gets another count. *)
Lemma heap_rel_used h lru l1 e l2 out n :
  heap_rel h lru (l1 ++ e :: l2) out ->
  heap_rel (set_handle (ae_id e) (handle_of true (with_pins n e)) h) lru (l1 ++ with_pins n e :: l2) out.
Proof.
  intros H. eapply heap_rel_move; [exact H|..]; cbn [hp_next hp_prev hp_handles set_handle].
  - apply (hr_lru _ _ _ _ H).
  - pose proof (hr_used _ _ _ _ H) as H2. by rewrite map_app in *.
  - by rewrite !map_app.
  - rewrite (hr_handles _ _ _ _ H). symmetry. apply (handles_set _ _ (handles_of lru (l1 ++ l2) out) _ (handle_of true e)).
    + rewrite handles_of_fst. apply (hr_nodup _ _ _ _ H).
    + unfold handles_of. rewrite !map_app. cbn. solve_Permutation.
    + unfold handles_of. rewrite !map_app. cbn. solve_Permutation.
  - apply (hr_next _ _ _ _ H).
Qed.

Lemma heap_rel_out h lru used l1 e l2 n :
  heap_rel h lru used (l1 ++ e :: l2) ->
  heap_rel (set_handle (ae_id e) (handle_of false (with_pins n e)) h) lru used (l1 ++ with_pins n e :: l2).
Proof.
  intros H. eapply heap_rel_move; [exact H|..]; cbn [hp_next hp_prev hp_handles set_handle].
  - apply (hr_lru _ _ _ _ H).
  - apply (hr_used _ _ _ _ H).
  - by rewrite !map_app.
  - rewrite (hr_handles _ _ _ _ H). symmetry. apply (handles_set _ _ (handles_of lru used (l1 ++ l2)) _ (handle_of false e)).
    + rewrite handles_of_fst. apply (hr_nodup _ _ _ _ H).
    + unfold handles_of. rewrite !map_app. cbn. solve_Permutation.
    + unfold handles_of. rewrite !map_app. cbn. solve_Permutation.
  - intros f Hf. assert (Hc : f = with_pins n e \/ f ∈ l1 ++ e :: l2) by (rewrite !elem_of_app, !elem_of_cons in *; tauto).
    destruct Hc as [->|Hc]; [apply (hr_next _ _ _ _ H e); apply elem_of_app; right; by left|by apply (hr_next _ _ _ _ H)].
Qed.

Lemma Ref_used h lru l1 e l2 out :
  heap_rel h lru (l1 ++ e :: l2) out -> 1 <= ae_pins e < 2 ^ 32 - 2 ->
  exists h', Ref (ae_id e) h = Some h' /\ hp_next_hash h' = hp_next_hash h /\
    heap_rel h' lru (l1 ++ with_pins (ae_pins e + 1) e :: l2) out.
Proof.
  intros H Hp. pose proof (handle_cached h lru (l1 ++ e :: l2) out e H ltac:(rewrite !elem_of_app; right; right; by left)) as Eh.
  unfold Ref. rewrite Eh. cbn [mbind option_bind handle_of h_refs h_in_cache]. rewrite (proj2 (Z.eqb_neq _ 1)) by lia. cbn [andb mbind option_bind].
  eexists. split; [done|]. split; [done|]. set (y := with_refs _ _).
  assert (Ey : y = handle_of true (with_pins (ae_pins e + 1) e)).
  { unfold y, with_refs, handle_of, u32. cbn. rewrite Z.mod_small by lia. done. }
  rewrite Ey. by apply heap_rel_used.
Qed.

(** *** Giving a reference back *)

Lemma Unref_used c lru l1 e l2 out :
  heap_rel (heap_ c) lru (l1 ++ e :: l2) out -> 2 <= ae_pins e < 2 ^ 32 - 1 ->
  exists h', Unref (ae_id e) c = Some (with_heap h' c) /\ hp_next_hash h' = hp_next_hash (heap_ c) /\
    heap_rel h' lru (l1 ++ with_pins (ae_pins e - 1) e :: l2) out.
Proof.
  intros H Hp. pose proof (handle_cached (heap_ c) lru (l1 ++ e :: l2) out e H ltac:(rewrite !elem_of_app; right; right; by left)) as Eh.
  unfold Unref. rewrite Eh. cbn [mbind option_bind]. set (y := with_refs _ _).
  assert (Ey : y = handle_of true (with_pins (ae_pins e - 1) e)).
  { unfold y, with_refs, handle_of, u32. cbn. rewrite Z.mod_small by lia. f_equal. lia. }
  rewrite Ey. cbn [handle_of h_refs h_in_cache with_pins ae_pins]. rewrite (proj2 (Z.ltb_lt 0 _)) by lia. cbn [negb].
  rewrite (proj2 (Z.eqb_neq _ 0)), (proj2 (Z.eqb_neq _ 1)) by lia. cbn [andb]. eexists. split; [done|]. split; [done|]. by apply heap_rel_used.
Qed.

Lemma Unref_out c lru used l1 e l2 :
  heap_rel (heap_ c) lru used (l1 ++ e :: l2) -> 2 <= ae_pins e < 2 ^ 32 - 1 ->
  exists h', Unref (ae_id e) c = Some (with_heap h' c) /\ hp_next_hash h' = hp_next_hash (heap_ c) /\
    heap_rel h' lru used (l1 ++ with_pins (ae_pins e - 1) e :: l2).
Proof.
  intros H Hp. pose proof (handle_out (heap_ c) lru used (l1 ++ e :: l2) e H ltac:(rewrite !elem_of_app; right; by left)) as Eh.
  unfold Unref. rewrite Eh. cbn [mbind option_bind]. set (y := with_refs _ _).
  assert (Ey : y = handle_of false (with_pins (ae_pins e - 1) e)).
  { unfold y, with_refs, handle_of, u32. cbn. rewrite Z.mod_small by lia. f_equal. lia. }
  rewrite Ey. cbn [handle_of h_refs h_in_cache with_pins ae_pins]. rewrite (proj2 (Z.ltb_lt 0 _)) by lia. cbn [negb].
  rewrite (proj2 (Z.eqb_neq _ 0)) by lia. cbn [andb]. eexists. split; [done|]. split; [done|]. by apply heap_rel_out.
Qed.

(** The last reference of a cached entry: it becomes the newest unused one. *)
Lemma Unref_last c lru l1 e l2 out :
  heap_rel (heap_ c) lru (l1 ++ e :: l2) out -> ae_pins e = 1 ->
  exists h', Unref (ae_id e) c = Some (with_heap h' c) /\ hp_next_hash h' = hp_next_hash (heap_ c) /\
    heap_rel h' (lru ++ [with_pins 0 e]) (l1 ++ l2) out.
Proof.
  intros H0 Hp. pose proof (handle_cached (heap_ c) lru (l1 ++ e :: l2) out e H0 ltac:(rewrite !elem_of_app; right; right; by left)) as Eh.
  unfold Unref. rewrite Eh. cbn [mbind option_bind]. set (y := with_refs _ _).
  assert (Ey : y = handle_of true (with_pins 0 e)) by (unfold y, with_refs, handle_of; cbn; by rewrite Hp).
  rewrite Ey. cbn [handle_of h_refs h_in_cache with_pins ae_pins]. rewrite Hp. cbn [Z.add Z.ltb Z.compare Z.eqb Pos.eqb negb andb].
  pose proof (heap_rel_used _ _ _ _ _ _ 0 H0) as H. set (h := set_handle _ _ _) in *. change (set_handle (ae_id e) _ (heap_ c)) with h.
  destruct (relink h in_use_head lru_head (ids l1) (ae_id e) (ids l2) (ids lru)) as (h2 & E2 & Eh2 & En2 & D1 & D2 & Hn2).
  { pose proof (hr_used _ _ _ _ H) as H2. by rewrite ids_split in H2. } { apply (hr_lru _ _ _ _ H). }
  { intros x Hx Hx2. apply (lists_disjoint h _ _ _ x H); [done|by rewrite ids_split]. }
  { intros x Hx. apply (allocated_cached h _ _ _ x H). rewrite ids_split. destruct Hx; auto. }
  destruct (LRU_Remove (ae_id e) h) as [h1|]; [|done]. cbn [mbind option_bind] in E2 |- *. rewrite E2. cbn [mbind option_bind].
  exists h2. split; [done|]. split; [done|].
  eapply heap_rel_move; [exact H|..].
  - by rewrite map_app.
  - by rewrite map_app.
  - rewrite !map_app. cbn. solve_Permutation.
  - rewrite Eh2, (hr_handles _ _ _ _ H). apply handles_perm; [rewrite handles_of_fst; apply (hr_nodup _ _ _ _ H)|].
    unfold handles_of. rewrite !map_app. cbn. solve_Permutation.
  - intros f Hf. destruct (hr_next _ _ _ _ H f Hf) as (n & En & Hne). exists n. split; [|done].
    destruct (out_unlinked h _ _ _ f H Hf) as [Ho1 Ho2]. rewrite ids_split in Ho2. by rewrite Hn2.
Qed.

Definition add_deleted (e : AEntry V D) (c : LRUCache V D) : LRUCache V D :=
  mkCache (capacity_ c) (usage_ c) (heap_ c) (table_ c) (malloc_ c) (deleted_ c ++ [(ae_deleter e, ae_key e, ae_value e)]).

(** The last reference of an erased entry: it is deleted. *)
Lemma Unref_free c lru used l1 e l2 :
  heap_rel (heap_ c) lru used (l1 ++ e :: l2) -> ae_pins e = 1 ->
  exists h', Unref (ae_id e) c = Some (add_deleted e (with_heap h' c)) /\
    hp_next_hash h' = delete (ae_id e) (hp_next_hash (heap_ c)) /\ heap_rel h' lru used (l1 ++ l2).
Proof.
  intros H Hp. assert (Hin : e ∈ l1 ++ e :: l2) by (rewrite !elem_of_app; right; by left).
  pose proof (handle_out (heap_ c) lru used (l1 ++ e :: l2) e H Hin) as Eh. destruct (hr_next _ _ _ _ H e Hin) as (n & En & Hne).
  unfold Unref. rewrite Eh. cbn [mbind option_bind]. set (y := with_refs _ _).
  assert (Ey : y = handle_of false (with_pins 0 e)) by (unfold y, with_refs, handle_of; cbn; by rewrite Hp).
  rewrite Ey. cbn [handle_of h_refs h_in_cache with_pins ae_pins]. rewrite Hp. cbn [Z.add Z.ltb Z.compare Z.eqb Pos.eqb negb andb].
  unfold handle_key. cbn [set_handle hp_handles hp_next]. rewrite lookup_insert_eq. cbn [mbind option_bind]. rewrite En. cbn [mbind option_bind].
  rewrite (proj2 (Z.eqb_neq n _)) by done. cbn [mbind option_bind]. eexists. split; [done|]. split; [done|].
  destruct (out_unlinked _ _ _ _ e H Hin) as [Ho1 Ho2]. destruct H as [H1 H2 H3 H4 H5 H6].
  assert (Hsub : forall f, f ∈ l1 ++ l2 -> f ∈ l1 ++ e :: l2) by (intros f; rewrite !elem_of_app, elem_of_cons; tauto).
  assert (HP : ids (lru ++ used ++ l1 ++ e :: l2) ≡ₚ ae_id e :: ids (lru ++ used ++ l1 ++ l2)) by (rewrite !map_app; cbn; solve_Permutation).
  pose proof H3 as Hnd. rewrite HP in Hnd. apply NoDup_cons in Hnd as [Hnid Hnd].
  split; cbn [free set_handle hp_next hp_prev hp_handles].
  - by apply dll_delete.
  - by apply dll_delete.
  - done.
  - intros f Hf. apply H4. rewrite !elem_of_app, elem_of_cons in *. tauto.
  - rewrite H5. symmetry. eapply handles_free; [rewrite handles_of_fst; exact H3|].
    unfold handles_of. rewrite !map_app. cbn. solve_Permutation.
  - intros f Hf. destruct (H6 f (Hsub f Hf)) as (m & Em & Hm). exists m. rewrite lookup_delete_ne; [done|].
    intros E. apply Hnid. rewrite E. apply list_elem_of_fmap_2. rewrite !elem_of_app in *. tauto.
Qed.

(** *** Leaving the cache *)

Lemma with_pins_self e : with_pins (ae_pins e) e = e.
Proof. by destruct e. Qed.

(** A handle is taken off its list and out of the cache; the cache's reference
    is then like a client's. *)
Lemma detach_lru h l1 e l2 used out :
  heap_rel h (l1 ++ e :: l2) used out ->
  exists h', LRU_Remove (ae_id e) h = Some h' /\ hp_next_hash h' = hp_next_hash h /\
    heap_rel (set_handle (ae_id e) (out_of_cache (handle_of true e)) h') (l1 ++ l2) used (out ++ [with_pins (ae_pins e + 1) e]).
Proof.
  intros H. destruct (unlink h lru_head in_use_head (ids l1) (ae_id e) (ids l2) (ids used)) as (h' & E & Eh & En & D1 & D2 & Hn).
  { rewrite <- ids_split. apply (hr_lru _ _ _ _ H). } { apply (hr_used _ _ _ _ H). }
  { rewrite <- ids_split. intros x Hx Hx2. by apply (lists_disjoint h _ _ _ x H). }
  { rewrite <- ids_split. intros x Hx. apply (allocated_cached h _ _ _ x H). by left. }
  exists h'. split; [done|]. split; [done|]. destruct (keyed_cached h _ used out e H) as (? & n & _ & Enx & Hne & _).
  { rewrite !elem_of_app. left. right. by left. }
  pose proof (hr_lru _ _ _ _ H) as (Hnd & _). rewrite ids_split in Hnd.
  eapply heap_rel_move; [exact H|..]; cbn [set_handle hp_next hp_prev hp_handles].
  - by rewrite map_app.
  - done.
  - rewrite !map_app. cbn. solve_Permutation.
  - rewrite Eh, (hr_handles _ _ _ _ H). symmetry. assert (Ey : out_of_cache (handle_of true e) = handle_of false (with_pins (ae_pins e + 1) e)).
    { unfold out_of_cache, handle_of. cbn. f_equal. lia. }
    rewrite Ey. apply (handles_set _ _ (handles_of (l1 ++ l2) used out) _ (handle_of true e)).
    + rewrite handles_of_fst. apply (hr_nodup _ _ _ _ H).
    + unfold handles_of. rewrite !map_app. cbn. solve_Permutation.
    + unfold handles_of. rewrite !map_app. cbn. solve_Permutation.
  - intros f [Hf| ->%list_elem_of_singleton]%elem_of_app.
    + destruct (hr_next _ _ _ _ H f Hf) as (m & Em & Hm). exists m. split; [|done]. rewrite Hn; [done|].
      destruct (out_unlinked h _ _ _ f H Hf) as [Ho1 _]. rewrite ids_split in Ho1. rewrite !elem_of_cons, !elem_of_app, elem_of_cons in *. tauto.
    + cbn. exists n. split; [|done]. rewrite Hn; [done|]. rewrite app_comm_cons in Hnd |- *.
      apply NoDup_app in Hnd as (_ & Hd & [Hnn _]%NoDup_cons). intros [Hx|Hx]%elem_of_app; [apply (Hd _ Hx); by left|done].
Qed.

Lemma detach_used h lru l1 e l2 out :
  heap_rel h lru (l1 ++ e :: l2) out ->
  exists h', LRU_Remove (ae_id e) h = Some h' /\ hp_next_hash h' = hp_next_hash h /\
    heap_rel (set_handle (ae_id e) (out_of_cache (handle_of true e)) h') lru (l1 ++ l2) (out ++ [with_pins (ae_pins e + 1) e]).
Proof.
  intros H. destruct (unlink h in_use_head lru_head (ids l1) (ae_id e) (ids l2) (ids lru)) as (h' & E & Eh & En & D1 & D2 & Hn).
  { rewrite <- ids_split. apply (hr_used _ _ _ _ H). } { apply (hr_lru _ _ _ _ H). }
  { rewrite <- ids_split. intros x Hx Hx2. by apply (lists_disjoint h _ _ _ x H). }
  { rewrite <- ids_split. intros x Hx. apply (allocated_cached h _ _ _ x H). by right. }
  exists h'. split; [done|]. split; [done|]. destruct (keyed_cached h lru _ out e H) as (? & n & _ & Enx & Hne & _).
  { rewrite !elem_of_app. right. right. by left. }
  pose proof (hr_used _ _ _ _ H) as (Hnd & _). rewrite ids_split in Hnd.
  eapply heap_rel_move; [exact H|..]; cbn [set_handle hp_next hp_prev hp_handles].
  - done.
  - by rewrite map_app.
  - rewrite !map_app. cbn. solve_Permutation.
  - rewrite Eh, (hr_handles _ _ _ _ H). symmetry. assert (Ey : out_of_cache (handle_of true e) = handle_of false (with_pins (ae_pins e + 1) e)).
    { unfold out_of_cache, handle_of. cbn. f_equal. lia. }
    rewrite Ey. apply (handles_set _ _ (handles_of lru (l1 ++ l2) out) _ (handle_of true e)).
    + rewrite handles_of_fst. apply (hr_nodup _ _ _ _ H).
    + unfold handles_of. rewrite !map_app. cbn. solve_Permutation.
    + unfold handles_of. rewrite !map_app. cbn. solve_Permutation.
  - intros f [Hf| ->%list_elem_of_singleton]%elem_of_app.
    + destruct (hr_next _ _ _ _ H f Hf) as (m & Em & Hm). exists m. split; [|done]. rewrite Hn; [done|].
      destruct (out_unlinked h _ _ _ f H Hf) as [_ Ho1]. rewrite ids_split in Ho1. rewrite !elem_of_cons, !elem_of_app, elem_of_cons in *. tauto.
    + cbn. exists n. split; [|done]. rewrite Hn; [done|]. rewrite app_comm_cons in Hnd |- *.
      apply NoDup_app in Hnd as (_ & Hd & [Hnn _]%NoDup_cons). intros [Hx|Hx]%elem_of_app; [apply (Hd _ Hx); by left|done].
Qed.

Lemma FinishErase_lru c l1 e l2 used out :
  heap_rel (heap_ c) (l1 ++ e :: l2) used out -> ae_pins e = 0 ->
  exists h', FinishErase (ae_id e) c = Some (add_deleted e (with_heap h' (with_usage (u64 (usage_ c - ae_charge e)) c))) /\
    (forall x, x <> ae_id e -> hp_next_hash h' !! x = hp_next_hash (heap_ c) !! x) /\ heap_rel h' (l1 ++ l2) used out.
Proof.
  intros H Hp. assert (Hin : e ∈ (l1 ++ e :: l2) ++ used) by (rewrite !elem_of_app; left; right; by left).
  pose proof (handle_cached _ _ _ _ e H Hin) as Eh. pose proof (hr_low _ _ _ _ H e) as Hlow.
  unfold FinishErase. rewrite (proj2 (Z.eqb_neq _ 0)) by (specialize (Hlow ltac:(rewrite !elem_of_app, elem_of_cons; tauto)); lia).
  rewrite Eh. cbn [mbind option_bind handle_of h_in_cache negb]. destruct (detach_lru _ _ _ _ _ _ H) as (h1 & E1 & En1 & H1).
  rewrite E1. cbn [mbind option_bind]. rewrite Hp in H1.
  set (c1 := with_usage _ _). destruct (Unref_free c1 (l1 ++ l2) used out (with_pins (0 + 1) e) []) as (h2 & E2 & En2 & H2); [exact H1|done|].
  cbn [ae_id with_pins] in E2. rewrite E2. exists h2. split; [done|]. rewrite app_nil_r in H2. split; [|done].
  intros x Hx. rewrite En2. cbn. rewrite lookup_delete_ne by done. by rewrite En1.
Qed.

Lemma FinishErase_used c lru l1 e l2 out :
  heap_rel (heap_ c) lru (l1 ++ e :: l2) out -> 1 <= ae_pins e < 2 ^ 32 - 2 ->
  exists h', FinishErase (ae_id e) c = Some (with_heap h' (with_usage (u64 (usage_ c - ae_charge e)) c)) /\
    hp_next_hash h' = hp_next_hash (heap_ c) /\ heap_rel h' lru (l1 ++ l2) (out ++ [e]).
Proof.
  intros H Hp. assert (Hin : e ∈ lru ++ (l1 ++ e :: l2)) by (rewrite !elem_of_app; right; right; by left).
  pose proof (handle_cached _ _ _ _ e H Hin) as Eh. pose proof (hr_low _ _ _ _ H e) as Hlow.
  unfold FinishErase. rewrite (proj2 (Z.eqb_neq _ 0)) by (specialize (Hlow ltac:(rewrite !elem_of_app, elem_of_cons; tauto)); lia).
  rewrite Eh. cbn [mbind option_bind handle_of h_in_cache negb]. destruct (detach_used _ _ _ _ _ _ H) as (h1 & E1 & En1 & H1).
  rewrite E1. cbn [mbind option_bind]. set (c1 := with_usage _ _).
  destruct (Unref_out c1 lru (l1 ++ l2) out (with_pins (ae_pins e + 1) e) []) as (h2 & E2 & En2 & H2); [exact H1|cbn; lia|].
  cbn [ae_id with_pins ae_pins] in E2, H2. rewrite E2. exists h2. split; [done|]. split; [by rewrite En2|].
  replace (ae_pins e + 1 - 1) with (ae_pins e) in H2 by lia.
  assert (Ee : with_pins (ae_pins e) (with_pins (ae_pins e + 1) e) = e) by (by destruct e). by rewrite <- Ee.
Qed.

(** *** New entries *)

Lemma fresh_not_linked h lru used out a :
  heap_rel h lru used out -> 3 <= a -> a ∉ ids (lru ++ used ++ out) -> a ∉ lru_head :: ids lru /\ a ∉ in_use_head :: ids used.
Proof.
  intros H Ha Hn. rewrite !map_app, !elem_of_app in Hn. unfold lru_head, in_use_head.
  split; intros [Hx|Hx]%elem_of_cons; first [lia|tauto].
Qed.

Lemma attach h lru used out e :
  heap_rel h lru used out -> 3 <= ae_id e -> ae_id e ∉ ids (lru ++ used ++ out) ->
  exists h', LRU_Append in_use_head (ae_id e) (set_handle (ae_id e) (handle_of true e) h) = Some h' /\
    hp_next_hash h' = hp_next_hash h /\ heap_rel h' lru (used ++ [e]) out.
Proof.
  intros H Ha Hn. destruct (fresh_not_linked _ _ _ _ _ H Ha Hn) as [Hn1 Hn2]. set (h1 := set_handle _ _ h).
  assert (Hal : forall x, allocated h x = true -> allocated h1 x = true).
  { intros x. unfold allocated, h1. cbn. rewrite !orb_true_iff, !bool_decide_eq_true. intros [?|[y Hy]]; [auto|].
    destruct (decide (x = ae_id e)) as [->|Hne]; [rewrite lookup_insert_eq; eauto|rewrite lookup_insert_ne by done; eauto]. }
  destruct (link h1 in_use_head lru_head (ids used) (ae_id e) (ids lru)) as (h' & E & Eh & En & D1 & D2 & Hnx).
  { apply (hr_used _ _ _ _ H). } { apply (hr_lru _ _ _ _ H). }
  { intros x [->|Hx]%elem_of_cons Hx2; [done|]. by apply (lists_disjoint h lru used out x H). }
  { done. }
  { intros x [->|Hx]%elem_of_cons.
    - unfold allocated, h1. cbn. rewrite lookup_insert_eq. rewrite !orb_true_iff, !bool_decide_eq_true. eauto.
    - apply Hal, (allocated_cached h lru used out x H). by right. }
  exists h'. split; [done|]. split; [done|].
  assert (HP : ids (lru ++ (used ++ [e]) ++ out) ≡ₚ ae_id e :: ids (lru ++ used ++ out)) by (rewrite !map_app; cbn; solve_Permutation).
  assert (Hnd : NoDup (ids (lru ++ (used ++ [e]) ++ out))) by (rewrite HP; apply NoDup_cons; split; [done|apply (hr_nodup _ _ _ _ H)]).
  split.
  - done.
  - by rewrite map_app.
  - done.
  - intros f Hf. assert (Hc : f = e \/ f ∈ lru ++ used ++ out) by (rewrite !elem_of_app, list_elem_of_singleton in *; tauto).
    destruct Hc as [->|Hc]; [done|by apply (hr_low _ _ _ _ H)].
  - rewrite Eh. cbn. rewrite (hr_handles _ _ _ _ H). symmetry. apply handles_new; [by rewrite handles_of_fst|].
    unfold handles_of. rewrite !map_app. cbn. solve_Permutation.
  - intros f Hf. destruct (hr_next _ _ _ _ H f Hf) as (n & En' & Hne). exists n. split; [|done].
    destruct (out_unlinked h _ _ _ f H Hf) as [Ho1 Ho2]. rewrite Hnx; [done|]. intros [Hx|Hx]%elem_of_cons; [|done].
    apply Hn. rewrite <- Hx, !map_app, !elem_of_app. right. right. by apply list_elem_of_fmap_2.
Qed.

Lemma attach_out h lru used out e :
  heap_rel h lru used out -> 3 <= ae_id e -> ae_id e ∉ ids (lru ++ used ++ out) ->
  exists h', set_next (ae_id e) 0 (set_handle (ae_id e) (handle_of false e) h) = Some h' /\
    hp_next_hash h' = hp_next_hash h /\ heap_rel h' lru used (out ++ [e]).
Proof.
  intros H Ha Hn. destruct (fresh_not_linked _ _ _ _ _ H Ha Hn) as [Hn1 Hn2].
  unfold set_next, allocated. cbn. rewrite lookup_insert_eq. rewrite (bool_decide_true (is_Some _)) by eauto. rewrite orb_true_r.
  eexists. split; [done|]. split; [done|].
  assert (HP : ids (lru ++ used ++ out ++ [e]) ≡ₚ ae_id e :: ids (lru ++ used ++ out)) by (rewrite !map_app; cbn; solve_Permutation).
  assert (Hnd : NoDup (ids (lru ++ used ++ out ++ [e]))) by (rewrite HP; apply NoDup_cons; split; [done|apply (hr_nodup _ _ _ _ H)]).
  split; cbn [hp_next hp_prev hp_handles].
  - apply dll_frame_next; [done|]. apply (hr_lru _ _ _ _ H).
  - apply dll_frame_next; [done|]. apply (hr_used _ _ _ _ H).
  - done.
  - intros f Hf. assert (Hc : f = e \/ f ∈ lru ++ used ++ out) by (rewrite !elem_of_app, list_elem_of_singleton in *; tauto).
    destruct Hc as [->|Hc]; [done|by apply (hr_low _ _ _ _ H)].
  - rewrite (hr_handles _ _ _ _ H). symmetry. apply handles_new; [by rewrite handles_of_fst|].
    unfold handles_of. rewrite !map_app. cbn. solve_Permutation.
  - intros f [Hf| ->%list_elem_of_singleton]%elem_of_app; [|exists 0; rewrite lookup_insert_eq; split; [done|lia]].
    destruct (hr_next _ _ _ _ H f Hf) as (n & En' & Hne). exists n. split; [|done]. rewrite lookup_insert_ne; [done|].
    intros Hx. apply Hn. rewrite Hx, !map_app, !elem_of_app. right. right. by apply list_elem_of_fmap_2.
Qed.

Lemma heap_rel_same h h' lru used out : same_but_hash h h' -> heap_rel h lru used out -> heap_rel h' lru used out.
Proof. intros (E1 & E2 & E3) [H1 H2 H3 H4 H5 H6]. split; rewrite ?E1, ?E2, ?E3; done. Qed.

Lemma heap_rel_new capacity : heap_rel (heap_ (LRUCache_new (V := V) (D := D) capacity)) [] [] [].
Proof.
  split; cbn; try done; try by intros ? ?%elem_of_nil.
  1,2: split; [apply NoDup_singleton|by split].
  constructor.
Qed.
End HeapRel.

(** ** The relation to the reference *)

Section Rel.
Context {V D : Type}.
Implicit Types (c : LRUCache V D) (A : ACache V D) (e f : AEntry V D) (T : list Z) (lru used out : list (AEntry V D)).
Notation ids l := (map ae_id l).

(** The cache with the handles [T] in its table stands for [A]; no entry has
    more than [M] references. *)
Record rel (M : Z) c A T : Prop := {
  rl_capacity : capacity_ c = a_capacity A;
  rl_usage : usage_ c = a_usage A;
  rl_deleted : deleted_ c = a_deleted A;
  rl_malloc : malloc_ c = a_next A;
  rl_fresh : forall e, e ∈ a_lru A ++ a_used A ++ a_out A -> ae_id e < a_next A;
  rl_next : 3 <= a_next A;
  rl_heap : heap_rel (heap_ c) (a_lru A) (a_used A) (a_out A);
  rl_unused : forall e, e ∈ a_lru A -> ae_pins e = 0;
  rl_held : forall e, e ∈ held A -> 1 <= ae_pins e <= M;
  rl_table : table_ok (heap_ c) (table_ c) T;
  rl_sub : forall x, x ∈ T -> x ∈ ids (cached A);
}.

Definition keys_distinct (l : list (AEntry V D)) : Prop :=
  forall e f, e ∈ l -> f ∈ l -> ae_key e = ae_key f -> ae_hash e = ae_hash f -> e = f.

(** Between operations the table holds exactly the cached entries. *)
Definition cache_rel (M : Z) c A : Prop := exists T, rel M c A T /\ T ≡ₚ ids (cached A) /\ keys_distinct (cached A).

Lemma id_inj h lru used out e f :
  heap_rel h lru used out -> e ∈ lru ++ used ++ out -> f ∈ lru ++ used ++ out -> ae_id e = ae_id f -> e = f.
Proof.
  intros H He Hf E. pose proof (hr_nodup _ _ _ _ H) as Hnd. apply list_elem_of_split in He as (l1 & l2 & El). rewrite El in Hnd, Hf.
  rewrite map_app in Hnd. cbn in Hnd. apply NoDup_app in Hnd as (_ & Hd & [Hn _]%NoDup_cons).
  apply elem_of_app in Hf as [Hf|[->|Hf]%elem_of_cons]; [|done|]; exfalso.
  - apply (Hd (ae_id f)); [by apply list_elem_of_fmap_2|]. rewrite <- E. by left.
  - apply Hn. rewrite E. by apply list_elem_of_fmap_2.
Qed.

Lemma keyed_iff h lru used out e key hash :
  heap_rel h lru used out -> e ∈ lru ++ used -> keyed h key hash (ae_id e) <-> ae_key e = key /\ ae_hash e = hash.
Proof.
  intros H He. split.
  - intros (x & _ & Ex & _ & _ & <- & <-). rewrite (handle_cached _ _ _ _ e H He) in Ex. by injection Ex as <-.
  - intros [<- <-]. by eapply keyed_cached.
Qed.

(** What the table finds is what the reference finds. *)
Lemma found_find M c A T key hash r :
  rel M c A T -> T ≡ₚ ids (cached A) -> keys_distinct (cached A) -> found (heap_ c) key hash T r ->
  match a_find key hash (cached A) with
  | Some e => e ∈ cached A /\ ae_key e = key /\ ae_hash e = hash /\ r = ae_id e
  | None => r = 0 /\ forall e, e ∈ cached A -> ~ (ae_key e = key /\ ae_hash e = hash)
  end.
Proof.
  intros HR HT Hk Hf. unfold a_find. destruct (List.find _ (cached A)) as [e|] eqn:E.
  - apply List.find_some in E as [He%list_elem_of_In [Ek%bool_decide_eq_true Eh%Z.eqb_eq]%andb_prop]. split; [done|]. split; [done|]. split; [done|].
    assert (Hke : keyed (heap_ c) key hash (ae_id e)) by (by apply (keyed_iff _ _ _ _ _ _ _ (rl_heap _ _ _ _ HR) He)).
    destruct Hf as [[_ Hno]|(Hr & HrT & Hkr)].
    + destruct (Hno (ae_id e)); [|done]. rewrite HT. by apply list_elem_of_fmap_2.
    + rewrite HT in HrT. apply list_elem_of_fmap in HrT as (f & -> & Hf).
      apply (keyed_iff _ _ _ _ _ _ _ (rl_heap _ _ _ _ HR) Hf) in Hkr as [Ek' Eh']. f_equal. apply Hk; [done|done|congruence..].
  - assert (Hno : forall e, e ∈ cached A -> ~ (ae_key e = key /\ ae_hash e = hash)).
    { intros e He [Ek Eh]. pose proof (List.find_none _ _ E e (proj1 (list_elem_of_In _ _) He)) as Hn. cbn in Hn.
      rewrite bool_decide_true in Hn by done. by rewrite Eh, Z.eqb_refl in Hn. }
    split; [|done]. destruct Hf as [[-> _]|(Hr & HrT & Hkr)]; [done|]. rewrite HT in HrT. apply list_elem_of_fmap in HrT as (f & -> & Hf).
    apply (keyed_iff _ _ _ _ _ _ _ (rl_heap _ _ _ _ HR) Hf) in Hkr. by destruct (Hno f Hf).
Qed.

Lemma a_drop_lru A l1 e l2 :
  a_lru A = l1 ++ e :: l2 -> NoDup (ids (a_lru A)) -> a_drop (ae_id e) A = with_deletion e (with_lists (l1 ++ l2) (a_used A) (a_out A) A).
Proof.
  intros E Hnd. unfold a_drop. rewrite E in *. rewrite take_out_split; [done|done|].
  rewrite map_app in Hnd. apply NoDup_app in Hnd as (_ & Hd & _). intros Hx. apply (Hd _ Hx). by left.
Qed.

Lemma a_drop_used A l1 e l2 :
  a_used A = l1 ++ e :: l2 -> NoDup (ids (a_lru A ++ a_used A)) -> a_drop (ae_id e) A = with_lists (a_lru A) (l1 ++ l2) (a_out A ++ [e]) A.
Proof.
  intros E Hnd. unfold a_drop. rewrite E in *. rewrite !map_app in Hnd. apply NoDup_app in Hnd as (_ & Hd & (_ & Hd2 & _)%NoDup_app).
  rewrite take_out_none; [rewrite take_out_split; [done|done|]|].
  - intros Hx. apply (Hd2 _ Hx). by left.
  - intros Hx. apply (Hd _ Hx). apply elem_of_app. right. by left.
Qed.

Lemma rel_nodup M c A T : rel M c A T -> NoDup (ids (a_lru A ++ a_used A)).
Proof.
  intros H. pose proof (hr_nodup _ _ _ _ (rl_heap _ _ _ _ H)) as Hnd. rewrite app_assoc, map_app in Hnd. by apply NoDup_app in Hnd as (? & _).
Qed.

Lemma table_step M c A T h' lru' used' out' :
  rel M c A T -> heap_rel h' lru' used' out' -> (forall x, x ∈ T -> hp_next_hash h' !! x = hp_next_hash (heap_ c) !! x) ->
  (forall e, e ∈ cached A -> ae_id e ∈ T -> exists f, f ∈ lru' ++ used' /\ ae_id f = ae_id e /\ ae_key f = ae_key e /\ ae_hash f = ae_hash e) ->
  table_ok h' (table_ c) T /\ (forall x, x ∈ T -> x ∈ ids (lru' ++ used')).
Proof.
  intros HR Hh Hnh Hsub. split.
  - apply (table_ok_ext (heap_ c)); [apply (rl_table _ _ _ _ HR)|done|]. intros x key hash Hx Hk.
    pose proof (rl_sub _ _ _ _ HR x Hx) as (e & -> & He)%list_elem_of_fmap.
    apply (keyed_iff _ _ _ _ _ _ _ (rl_heap _ _ _ _ HR) He) in Hk as [<- <-].
    destruct (Hsub e He Hx) as (f & Hf & Ef & Ek & Eh). rewrite <- Ef, <- Ek, <- Eh. by eapply keyed_cached.
  - intros x Hx. pose proof (rl_sub _ _ _ _ HR x Hx) as (e & -> & He)%list_elem_of_fmap.
    destruct (Hsub e He Hx) as (f & Hf & Ef & _). rewrite <- Ef. by apply list_elem_of_fmap_2.
Qed.

Lemma u64_sub a b : u64 (u64 a - b) = u64 (a - b).
Proof. unfold u64. by rewrite Zminus_mod_idemp_l. Qed.

Lemma u64_add a b : u64 (u64 a + b) = u64 (a + b).
Proof. unfold u64. by rewrite Zplus_mod_idemp_l. Qed.

(** An entry that is no longer in the table leaves the cache. *)
Lemma FinishErase_rel M c A T e :
  rel M c A T -> M < 2 ^ 32 - 2 -> e ∈ cached A -> ae_id e ∉ T ->
  exists c', FinishErase (ae_id e) c = Some c' /\ rel M c' (a_drop (ae_id e) A) T /\
    cached A ≡ₚ e :: cached (a_drop (ae_id e) A) /\ table_ c' = table_ c.
Proof.
  intros HR HM He HT. pose proof (rel_nodup _ _ _ _ HR) as Hnd. pose proof HR as [R1 R2 R3 R4 R5 R5' R6 R7 R8 R9 R10].
  unfold cached in He. apply elem_of_app in He as [He|He]; apply list_elem_of_split in He as (l1 & l2 & E).
  - rewrite (a_drop_lru A l1 e l2 E) by (rewrite map_app in Hnd; by apply NoDup_app in Hnd as (? & _)).
    assert (Hp : ae_pins e = 0) by (apply R7; rewrite E; apply elem_of_app; right; by left).
    rewrite E in R6. destruct (FinishErase_lru c l1 e l2 _ _ R6 Hp) as (h' & EF & Hnh & Hh). eexists. split; [exact EF|].
    assert (HP : cached A ≡ₚ e :: (l1 ++ l2) ++ a_used A) by (unfold cached; rewrite E; solve_Permutation).
    split; [|split; [exact HP|done]].
    destruct (table_step M c A T h' _ _ _ HR Hh) as [Ht Hs].
    { intros x Hx. apply Hnh. by intros ->. }
    { intros f Hf HfT. exists f. split; [|done]. unfold cached in Hf. rewrite E, !elem_of_app, elem_of_cons in *.
      destruct Hf as [[?|[->|?]]|?]; tauto. }
    split; cbn; try done.
    + rewrite R2. unfold a_usage. rewrite u64_sub. f_equal. unfold cached. cbn [with_deletion with_lists a_lru a_used]. rewrite E, !charges_app, charges_cons. lia.
    + by rewrite R3.
    + intros f Hf. apply R5. rewrite E, !elem_of_app, elem_of_cons in *. tauto.
    + intros f Hf. apply R7. rewrite E, !elem_of_app, elem_of_cons in *. tauto.
  - rewrite (a_drop_used A l1 e l2 E) by done.
    assert (Hp : 1 <= ae_pins e <= M) by (apply R8; unfold held; rewrite E, !elem_of_app, elem_of_cons; tauto).
    rewrite E in R6. destruct (FinishErase_used c _ l1 e l2 _ R6 ltac:(lia)) as (h' & EF & Hnh & Hh). eexists. split; [exact EF|].
    assert (HP : cached A ≡ₚ e :: a_lru A ++ l1 ++ l2) by (unfold cached; rewrite E; solve_Permutation).
    split; [|split; [exact HP|done]].
    destruct (table_step M c A T h' _ _ _ HR Hh) as [Ht Hs].
    { intros x Hx. by rewrite Hnh. }
    { intros f Hf HfT. exists f. split; [|done]. unfold cached in Hf. rewrite E, !elem_of_app, elem_of_cons in *.
      destruct Hf as [?|[?|[->|?]]]; tauto. }
    split; cbn; try done.
    + rewrite R2. unfold a_usage. rewrite u64_sub. f_equal. unfold cached. cbn [with_deletion with_lists a_lru a_used]. rewrite E, !charges_app, charges_cons. lia.
    + intros f Hf. apply R5. rewrite E, !elem_of_app, elem_of_cons. rewrite !elem_of_app, list_elem_of_singleton in Hf. tauto.
    + intros f Hf. apply R8. unfold held in *. cbn in Hf. rewrite E, !elem_of_app, elem_of_cons. rewrite !elem_of_app, list_elem_of_singleton in Hf. tauto.
Qed.

Lemma keys_distinct_sub (l l' : list (AEntry V D)) : keys_distinct l -> (forall e, e ∈ l' -> e ∈ l) -> keys_distinct l'.
Proof. intros Hk Hs e f He Hf. apply Hk; auto. Qed.

(** An entry is taken out of the table and the cache. *)
Lemma remove_rel M c A e key hash :
  cache_rel M c A -> M < 2 ^ 32 - 2 -> zlen (cached A) < 2 ^ 32 -> a_find key hash (cached A) = Some e ->
  exists h t c', HT_Remove key hash (heap_ c) (table_ c) = Some (ae_id e, h, t) /\
    FinishErase (ae_id e) (with_table h t c) = Some c' /\ cache_rel M c' (a_drop (ae_id e) A).
Proof.
  intros (T & HR & HT & Hk) HM Hlen Ef. pose proof HR as [R1 R2 R3 R4 R5 R5' R6 R7 R8 R9 R10].
  destruct (HT_Remove_spec (heap_ c) (table_ c) T key hash R9) as (r & h & t & E & Hf & Hs & T' & HP & Ht').
  { unfold zlen in *. rewrite HT, length_map. done. }
  pose proof (found_find _ _ _ _ _ _ _ HR HT Hk Hf) as Hr. rewrite Ef in Hr. destruct Hr as (He & _ & _ & ->).
  assert (He0 : ae_id e <> 0) by (pose proof (hr_low _ _ _ _ R6 e ltac:(unfold cached in He; rewrite !elem_of_app in *; tauto)); lia).
  rewrite (proj2 (Z.eqb_neq _ 0) He0) in HP.
  assert (HndT : NoDup T) by (rewrite HT; apply (rel_nodup _ _ _ _ HR)). rewrite HP in HndT. apply NoDup_cons in HndT as [Hn HndT].
  assert (HR1 : rel M (with_table h t c) A T').
  { split; cbn; try done; [by eapply heap_rel_same|]. intros x Hx. apply R10. rewrite HP. by right. }
  destruct (FinishErase_rel M (with_table h t c) A T' e HR1 HM He Hn) as (c' & EF & HR' & HPc & Etab).
  exists h, t, c'. split; [done|]. split; [done|]. exists T'. split; [done|]. split.
  - rewrite HT, HPc in HP. cbn in HP. by apply Permutation_cons_inv in HP.
  - apply (keys_distinct_sub (cached A)); [done|]. intros f Hfc. rewrite HPc. by right.
Qed.

Lemma drop_length A id : (length (a_lru (a_drop id A)) <= length (a_lru A))%nat /\ (length (cached (a_drop id A)) <= length (cached A))%nat.
Proof.
  unfold a_drop. destruct A as [cap lru used out n del]. cbn.
  destruct (take_out id lru) as [[e l]|] eqn:E.
  - apply take_out_Some in E as (l1 & l2 & -> & -> & _). unfold cached. cbn. rewrite !length_app. cbn. lia.
  - destruct (take_out id used) as [[e l]|] eqn:E2; [|done].
    apply take_out_Some in E2 as (l1 & l2 & -> & -> & _). unfold cached. cbn. rewrite !length_app. cbn. lia.
Qed.

(** *** Operations *)

Lemma Erase_rel M c A key hash :
  cache_rel M c A -> M < 2 ^ 32 - 2 -> zlen (cached A) < 2 ^ 32 ->
  exists c', Erase key hash c = Some c' /\ cache_rel M c' (a_erase key hash A).
Proof.
  intros HC HM Hlen. unfold Erase, a_erase. destruct (a_find key hash (cached A)) as [e|] eqn:Ef.
  - destruct (remove_rel M c A e key hash HC HM Hlen Ef) as (h & t & c' & -> & E2 & HC'). cbn [mbind option_bind].
    exists c'. by rewrite E2.
  - destruct HC as (T & HR & HT & Hk). pose proof HR as [R1 R2 R3 R4 R5 R5' R6 R7 R8 R9 R10].
    destruct (HT_Remove_spec (heap_ c) (table_ c) T key hash R9) as (r & h & t & E & Hf & Hs & T' & HP & Ht').
    { unfold zlen in *. rewrite HT, length_map. done. }
    pose proof (found_find _ _ _ _ _ _ _ HR HT Hk Hf) as Hr. rewrite Ef in Hr. destruct Hr as (-> & _). rewrite E. cbn [mbind option_bind].
    unfold FinishErase. cbn [Z.eqb]. eexists. split; [done|]. exists T'. cbn in HP. split; [|split; [by rewrite <- HP|done]].
    split; cbn; try done; [by eapply heap_rel_same|]. intros x Hx. apply R10. by rewrite HP.
Qed.

Lemma a_find_self l e : keys_distinct l -> e ∈ l -> a_find (ae_key e) (ae_hash e) l = Some e.
Proof.
  intros Hk He. unfold a_find. destruct (List.find _ l) as [f|] eqn:E.
  - apply List.find_some in E as [Hf%list_elem_of_In [Ek%bool_decide_eq_true Eh%Z.eqb_eq]%andb_prop]. f_equal. by apply Hk.
  - pose proof (List.find_none _ _ E e (proj1 (list_elem_of_In _ _) He)) as Hn. cbn in Hn.
    rewrite bool_decide_true in Hn by done. by rewrite Z.eqb_refl in Hn.
Qed.

Lemma evict_oldest_rel M c A e lru :
  cache_rel M c A -> M < 2 ^ 32 - 2 -> zlen (cached A) < 2 ^ 32 -> a_lru A = e :: lru ->
  exists c', evict_oldest c = Some c' /\ cache_rel M c' (a_drop (ae_id e) A).
Proof.
  intros HC HM Hlen El. pose proof HC as (T & HR & HT & Hk). pose proof (rl_heap _ _ _ _ HR) as Hh.
  assert (He : e ∈ cached A) by (unfold cached; rewrite El; by left).
  pose proof (hr_lru _ _ _ _ Hh) as (_ & Hp & _). rewrite El in Hp. destruct Hp as [Hp _].
  unfold evict_oldest. rewrite Hp. cbn [mbind option_bind]. rewrite (handle_cached _ _ _ _ e Hh He). cbn [mbind option_bind handle_of h_refs h_hash].
  rewrite (rl_unused _ _ _ _ HR e ltac:(rewrite El; by left)). cbn [Z.add Z.eqb Pos.eqb negb].
  rewrite (keyed_handle_key _ _ _ _ (keyed_cached _ _ _ _ e Hh He)). cbn [mbind option_bind].
  destruct (remove_rel M c A e (ae_key e) (ae_hash e) HC HM Hlen (a_find_self _ _ Hk He)) as (h & t & c' & E1 & E2 & HC').
  rewrite E1. cbn [mbind option_bind]. rewrite E2. cbn [mbind option_bind].
  assert (He0 : ae_id e <> 0) by (pose proof (hr_low _ _ _ _ Hh e ltac:(unfold cached in He; rewrite !elem_of_app in *; tauto)); lia).
  rewrite (proj2 (Z.eqb_neq _ 0) He0). by exists c'.
Qed.

(** The list of unused entries is empty exactly when its head leads to itself. *)
Lemma lru_head_next M c A T : rel M c A T -> hp_next (heap_ c) !! lru_head = Some (match a_lru A with [] => lru_head | e :: _ => ae_id e end).
Proof. intros HR. destruct (hr_lru _ _ _ _ (rl_heap _ _ _ _ HR)) as (_ & Hp & _). destruct (a_lru A); [done|by destruct Hp]. Qed.

Lemma lru_id_ne M c A T e lru : rel M c A T -> a_lru A = e :: lru -> (ae_id e =? lru_head) = false.
Proof.
  intros HR E. apply Z.eqb_neq. pose proof (hr_low _ _ _ _ (rl_heap _ _ _ _ HR) e ltac:(rewrite E; by left)). unfold lru_head. lia.
Qed.

Lemma drop_first A e lru : a_lru A = e :: lru -> a_lru (a_drop (ae_id e) A) = lru.
Proof. intros E. unfold a_drop. rewrite E. cbn. by rewrite Z.eqb_refl. Qed.

Lemma evict_loop_rel M fuel c A :
  cache_rel M c A -> M < 2 ^ 32 - 2 -> zlen (cached A) < 2 ^ 32 -> (length (a_lru A) < fuel)%nat ->
  exists c', evict_loop fuel c = Some c' /\ cache_rel M c' (a_evict (a_lru A) A).
Proof.
  revert c A. induction fuel as [|fuel IH]; intros c A HC HM Hlen Hf; [lia|]. cbn [evict_loop].
  pose proof HC as (T & HR & _). rewrite (lru_head_next _ _ _ _ HR). cbn [mbind option_bind].
  rewrite (rl_capacity _ _ _ _ HR), (rl_usage _ _ _ _ HR). destruct (a_lru A) as [|e lru] eqn:El; cbn [a_evict].
  - rewrite Z.eqb_refl, andb_false_r. by exists c.
  - rewrite (lru_id_ne _ _ _ _ _ _ HR El), andb_true_r. destruct (a_capacity A <? a_usage A); [|by exists c].
    destruct (evict_oldest_rel M c A e lru HC HM Hlen El) as (c1 & -> & HC1). cbn [mbind option_bind].
    pose proof (drop_length A (ae_id e)) as [_ Hl2]. pose proof (drop_first A e lru El) as Ed.
    destruct (IH c1 (a_drop (ae_id e) A) HC1 HM) as (c' & E & HC'); [unfold zlen in *; lia|rewrite Ed; cbn in Hf; lia|].
    exists c'. split; [done|]. by rewrite Ed in HC'.
Qed.

Lemma prune_loop_rel M fuel c A :
  cache_rel M c A -> M < 2 ^ 32 - 2 -> zlen (cached A) < 2 ^ 32 -> (length (a_lru A) < fuel)%nat ->
  exists c', prune_loop fuel c = Some c' /\ cache_rel M c' (a_prune A).
Proof.
  revert c A. induction fuel as [|fuel IH]; intros c A HC HM Hlen Hf; [lia|]. cbn [prune_loop].
  pose proof HC as (T & HR & _). rewrite (lru_head_next _ _ _ _ HR). cbn [mbind option_bind]. unfold a_prune.
  destruct (a_lru A) as [|e lru] eqn:El; cbn [fold_left].
  - rewrite Z.eqb_refl. by exists c.
  - rewrite (lru_id_ne _ _ _ _ _ _ HR El). destruct (evict_oldest_rel M c A e lru HC HM Hlen El) as (c1 & -> & HC1). cbn [mbind option_bind].
    pose proof (drop_length A (ae_id e)) as [_ Hl2]. pose proof (drop_first A e lru El) as Ed.
    destruct (IH c1 (a_drop (ae_id e) A) HC1 HM) as (c' & E & HC'); [unfold zlen in *; lia|rewrite Ed; cbn in Hf; lia|].
    exists c'. split; [done|]. unfold a_prune in HC'. by rewrite Ed in HC'.
Qed.

Lemma lru_size M c A : cache_rel M c A -> (length (a_lru A) < S (size (hp_handles (heap_ c))))%nat.
Proof.
  intros (T & HR & _). pose proof (rl_heap _ _ _ _ HR) as Hh. assert (Hnd : NoDup (ids (a_lru A))).
  { pose proof (hr_nodup _ _ _ _ Hh) as H. rewrite map_app in H. by apply NoDup_app in H as (? & _). }
  rewrite <- (length_map ae_id). apply keyed_size; [done|]. intros x (e & -> & He)%list_elem_of_fmap.
  exists (ae_key e), (ae_hash e). apply (keyed_cached _ (a_lru A) (a_used A) (a_out A)); [done|]. apply elem_of_app. by left.
Qed.

Lemma Prune_rel M c A :
  cache_rel M c A -> M < 2 ^ 32 - 2 -> zlen (cached A) < 2 ^ 32 -> exists c', Prune c = Some c' /\ cache_rel M c' (a_prune A).
Proof. intros HC HM Hlen. apply prune_loop_rel; [done..|by eapply lru_size]. Qed.

Lemma rel_weaken M M' c A T : M <= M' -> rel M c A T -> rel M' c A T.
Proof. intros HM [? ? ? ? ? ? ? ? R8 ? ?]. split; try done. intros e He. specialize (R8 e He). lia. Qed.

Lemma cache_rel_weaken M M' c A : M <= M' -> cache_rel M c A -> cache_rel M' c A.
Proof. intros HM (T & HR & H). exists T. split; [by eapply rel_weaken|done]. Qed.

(** What a change of pins leaves. *)
Definition fixed (e : AEntry V D) : Z * bytes * Z * Z := (ae_id e, ae_key e, ae_hash e, ae_charge e).

Lemma charges_fixed (l l' : list (AEntry V D)) : map fixed l ≡ₚ map fixed l' -> charges l = charges l'.
Proof.
  intros HP. assert (E : forall l, charges l = foldr (fun x n => x.2 + n) 0 (map fixed l)) by (intros l0; induction l0 as [|e l0 IH]; [done|rewrite charges_cons, IH; done]).
  rewrite !E. induction HP; cbn; lia.
Qed.

Lemma fixed_in (l l' : list (AEntry V D)) e : map fixed l ≡ₚ map fixed l' -> e ∈ l ->
  exists f, f ∈ l' /\ ae_id f = ae_id e /\ ae_key f = ae_key e /\ ae_hash f = ae_hash e.
Proof.
  intros HP He. assert (Hi : fixed e ∈ map fixed l') by (rewrite <- HP; by apply list_elem_of_fmap_2).
  apply list_elem_of_fmap in Hi as (f & E & Hf). exists f. unfold fixed in E. by injection E as -> -> -> _.
Qed.

Lemma fixed_ids (l l' : list (AEntry V D)) : map fixed l ≡ₚ map fixed l' -> ids l ≡ₚ ids l'.
Proof.
  intros HP. assert (E : forall l, ids l = map (fun x => x.1.1.1) (map fixed l)) by (intros l0; rewrite map_map; done).
  rewrite !E. by apply Permutation_map.
Qed.

Lemma cached_id_inj M c A T f g : rel M c A T -> f ∈ cached A -> g ∈ cached A -> ae_id f = ae_id g -> f = g.
Proof.
  intros HR Hf Hg. apply (id_inj _ _ _ _ _ _ (rl_heap _ _ _ _ HR)); unfold cached in *; rewrite !elem_of_app in *; tauto.
Qed.

(** New links and pins; the entries are the same. *)
Lemma repin M M' c A h' lru used out :
  cache_rel M c A -> M <= M' -> heap_rel h' lru used out -> hp_next_hash h' = hp_next_hash (heap_ c) ->
  (forall e, e ∈ lru ++ used ++ out -> ae_id e < a_next A) -> map fixed (lru ++ used) ≡ₚ map fixed (cached A) ->
  (forall e, e ∈ lru -> ae_pins e = 0) -> (forall e, e ∈ used ++ out -> 1 <= ae_pins e <= M') ->
  cache_rel M' (with_heap h' c) (with_lists lru used out A).
Proof.
  intros (T & HR & HT & Hk) HM Hh Hnh Hfr HP Hun Hhe. destruct (table_step M c A T h' _ _ _ HR Hh) as [Ht Hs].
  { intros x Hx. by rewrite Hnh. } { intros e He _. by apply (fixed_in (cached A)). }
  assert (HR' : rel M' (with_heap h' c) (with_lists lru used out A) T).
  { destruct HR as [R1 R2 R3 R4 R5 R5' R6 R7 R8 R9 R10]. split; cbn; try done.
    rewrite R2. unfold a_usage, cached in *. cbn [with_lists a_lru a_used]. by rewrite (charges_fixed _ _ HP). }
  exists T. split; [done|]. split; [rewrite HT; symmetry; by apply fixed_ids|].
  intros f g Hf Hg Ek Eh. apply (cached_id_inj M' _ _ T f g HR' Hf Hg). unfold cached in Hf, Hg. cbn in Hf, Hg.
  destruct (fixed_in _ _ f HP Hf) as (e1 & He1 & I1 & K1 & H1), (fixed_in _ _ g HP Hg) as (e2 & He2 & I2 & K2 & H2).
  rewrite <- I1, <- I2. f_equal. apply Hk; congruence.
Qed.

Lemma pins_bound M c A T e : rel M c A T -> e ∈ held A -> 1 <= ae_pins e <= M.
Proof. intros HR. apply (rl_held _ _ _ _ HR). Qed.

(** *** [Lookup] and [Release] *)

Lemma Lookup_rel M c A key hash :
  cache_rel M c A -> 0 <= M < 2 ^ 32 - 3 ->
  exists c', Lookup key hash c = Some ((a_lookup key hash A).1, c') /\ cache_rel (M + 1) c' (a_lookup key hash A).2.
Proof.
  intros HC HM. pose proof HC as (T & HR & HT & Hk). pose proof HR as [R1 R2 R3 R4 R5 R5' R6 R7 R8 R9 R10].
  unfold Lookup, a_lookup. destruct (HT_Lookup_spec _ _ _ key hash R9) as (r & -> & Hf). cbn [mbind option_bind].
  pose proof (found_find _ _ _ _ _ _ _ HR HT Hk Hf) as Hr. destruct (a_find key hash (cached A)) as [e|] eqn:Ef; cbn [fst snd].
  2: { destruct Hr as [-> _]. cbn. exists c. split; [by destruct c|]. apply (cache_rel_weaken M); [lia|done]. }
  destruct Hr as (He & _ & _ & ->). pose proof (hr_low _ _ _ _ R6) as Hlow.
  rewrite (proj2 (Z.eqb_neq _ 0)) by (specialize (Hlow e ltac:(unfold cached in He; rewrite !elem_of_app in *; tauto)); lia).
  unfold a_pin. pose proof (hr_nodup _ _ _ _ R6) as Hnd. rewrite !map_app in Hnd.
  apply NoDup_app in Hnd as (Hnd1 & Hd1 & (Hnd2 & Hd2 & _)%NoDup_app).
  unfold cached in He. apply elem_of_app in He as [He|He]; apply list_elem_of_split in He as (l1 & l2 & E).
  - assert (Hp : ae_pins e = 0) by (apply R7; rewrite E; apply elem_of_app; right; by left).
    rewrite E in R6, Hnd1 |- *. rewrite take_out_split; [|done|].
    2: { rewrite map_app in Hnd1. apply NoDup_app in Hnd1 as (_ & Hd & _). intros Hx. apply (Hd _ Hx). by left. }
    destruct (Ref_lru _ l1 e l2 _ _ R6 Hp) as (h' & -> & Hnh & Hh). cbn [mbind option_bind]. exists (with_heap h' c). split; [done|].
    apply (repin M); [done|lia|done|done|..].
    + intros f Hf'. assert (Hc : f = with_pins (ae_pins e + 1) e \/ f ∈ a_lru A ++ a_used A ++ a_out A).
      { rewrite E. rewrite !elem_of_app, list_elem_of_singleton in *. rewrite elem_of_cons. tauto. }
      destruct Hc as [->|Hc]; [apply (R5 e); rewrite E, !elem_of_app, elem_of_cons; tauto|by apply R5].
    + unfold cached. rewrite E, !map_app. cbn. solve_Permutation.
    + intros f Hf'. apply R7. rewrite E, !elem_of_app, elem_of_cons in *. tauto.
    + intros f Hf'. rewrite !elem_of_app, list_elem_of_singleton in Hf'.
      assert (Hc : f = with_pins (ae_pins e + 1) e \/ f ∈ held A) by (unfold held; rewrite elem_of_app; tauto).
      destruct Hc as [->|Hc]; [cbn; lia|specialize (R8 f Hc); lia].
  - pose proof (R8 e ltac:(unfold held; rewrite E, !elem_of_app, elem_of_cons; tauto)) as Hp.
    rewrite E in R6, Hnd2, Hd1 |- *. rewrite take_out_none by (intros Hx; apply (Hd1 _ Hx); rewrite map_app, !elem_of_app; cbn; rewrite elem_of_cons; tauto).
    rewrite map_at_split by done. destruct (Ref_used _ _ l1 e l2 _ R6 ltac:(lia)) as (h' & -> & Hnh & Hh). cbn [mbind option_bind].
    exists (with_heap h' c). split; [done|]. apply (repin M); [done|lia|done|done|..].
    + intros f Hf'. assert (Hc : f = with_pins (ae_pins e + 1) e \/ f ∈ a_lru A ++ a_used A ++ a_out A).
      { rewrite E. rewrite !elem_of_app, !elem_of_cons in *. tauto. }
      destruct Hc as [->|Hc]; [apply (R5 e); rewrite E, !elem_of_app, elem_of_cons; tauto|by apply R5].
    + unfold cached. rewrite E, !map_app. cbn. done.
    + done.
    + intros f Hf'. rewrite !elem_of_app, elem_of_cons in Hf'.
      assert (Hc : f = with_pins (ae_pins e + 1) e \/ f ∈ held A) by (unfold held; rewrite E, !elem_of_app, elem_of_cons; tauto).
      destruct Hc as [->|Hc]; [cbn; lia|specialize (R8 f Hc); lia].
Qed.

Lemma Release_rel M c A a :
  cache_rel M c A -> M < 2 ^ 32 - 2 -> a ∈ ids (held A) ->
  exists c', Release a c = Some c' /\ cache_rel M c' (a_release a A).
Proof.
  intros HC HM Ha. pose proof HC as (T & HR & HT & Hk). pose proof HR as [R1 R2 R3 R4 R5 R5' R6 R7 R8 R9 R10].
  pose proof (hr_nodup _ _ _ _ R6) as Hnd. rewrite !map_app in Hnd.
  apply NoDup_app in Hnd as (_ & _ & (Hnd2 & Hd2 & Hnd3)%NoDup_app).
  apply list_elem_of_fmap in Ha as (e & -> & He). unfold Release, a_release. pose proof (R8 e He) as Hp.
  unfold held in He. apply elem_of_app in He as [He|He]; apply list_elem_of_split in He as (l1 & l2 & E).
  - assert (Hn : ae_id e ∉ ids l1).
    { rewrite E, map_app in Hnd2. apply NoDup_app in Hnd2 as (_ & Hd & _). intros Hx. apply (Hd _ Hx). by left. }
    rewrite E in R6, Hnd2 |- *. rewrite take_out_split by done. destruct (Z.eqb_spec (ae_pins e) 1) as [Hp1|Hp1].
    + destruct (Unref_last c _ l1 e l2 _ R6 Hp1) as (h' & -> & Hnh & Hh). exists (with_heap h' c). split; [done|].
      apply (repin M); [done|lia|done|done|..].
      * intros f Hf'. assert (Hc : f = with_pins 0 e \/ f ∈ a_lru A ++ a_used A ++ a_out A).
        { rewrite E. rewrite !elem_of_app, list_elem_of_singleton in *. rewrite elem_of_cons. tauto. }
        destruct Hc as [->|Hc]; [apply (R5 e); rewrite E, !elem_of_app, elem_of_cons; tauto|by apply R5].
      * unfold cached. rewrite E, !map_app. cbn. solve_Permutation.
      * intros f [Hf'| ->%list_elem_of_singleton]%elem_of_app; [by apply R7|done].
      * intros f Hf'. apply R8. unfold held. rewrite E, !elem_of_app, elem_of_cons in *. tauto.
    + rewrite map_at_split by done. destruct (Unref_used c _ l1 e l2 _ R6 ltac:(lia)) as (h' & -> & Hnh & Hh).
      exists (with_heap h' c). split; [done|]. apply (repin M); [done|lia|done|done|..].
      * intros f Hf'. assert (Hc : f = with_pins (ae_pins e - 1) e \/ f ∈ a_lru A ++ a_used A ++ a_out A).
        { rewrite E. rewrite !elem_of_app, !elem_of_cons in *. tauto. }
        destruct Hc as [->|Hc]; [apply (R5 e); rewrite E, !elem_of_app, elem_of_cons; tauto|by apply R5].
      * unfold cached. rewrite E, !map_app. cbn. done.
      * done.
      * intros f Hf'. rewrite !elem_of_app, elem_of_cons in Hf'.
        assert (Hc : f = with_pins (ae_pins e - 1) e \/ f ∈ held A) by (unfold held; rewrite E, !elem_of_app, elem_of_cons; tauto).
        destruct Hc as [->|Hc]; [cbn; lia|by apply R8].
  - assert (Hn : ae_id e ∉ ids l1).
    { rewrite E, map_app in Hnd3. apply NoDup_app in Hnd3 as (_ & Hd & _). intros Hx. apply (Hd _ Hx). by left. }
    rewrite take_out_none by (intros Hx; apply (Hd2 _ Hx); rewrite E, map_app, elem_of_app; cbn; rewrite elem_of_cons; tauto).
    rewrite E in R6, Hnd3 |- *. rewrite take_out_split by done. destruct (Z.eqb_spec (ae_pins e) 1) as [Hp1|Hp1].
    + destruct (Unref_free c _ _ l1 e l2 R6 Hp1) as (h' & -> & Hnh & Hh). eexists. split; [done|]. exists T.
      assert (HnT : ae_id e ∉ T).
      { intros Hx%R10. unfold cached in Hx. pose proof (hr_nodup _ _ _ _ R6) as Hnd. rewrite app_assoc, map_app in Hnd.
        apply NoDup_app in Hnd as (_ & Hd & _). apply (Hd _ Hx). rewrite map_app, elem_of_app. right. by left. }
      split; [|done]. destruct (table_step M c A T h' _ _ _ HR Hh) as [Ht Hs].
      { intros x Hx. rewrite Hnh, lookup_delete_ne; [done|]. by intros <-. } { intros f Hf' _. by exists f. }
      split; cbn; try done; [by rewrite R3| |].
      * intros f Hf'. apply R5. rewrite E, !elem_of_app, elem_of_cons in *. tauto.
      * intros f Hf'. apply R8. unfold held in *. cbn in Hf'. rewrite E, !elem_of_app, elem_of_cons in *. tauto.
    + rewrite map_at_split by done. destruct (Unref_out c _ _ l1 e l2 R6 ltac:(lia)) as (h' & -> & Hnh & Hh).
      exists (with_heap h' c). split; [done|]. apply (repin M); [done|lia|done|done|..].
      * intros f Hf'. assert (Hc : f = with_pins (ae_pins e - 1) e \/ f ∈ a_lru A ++ a_used A ++ a_out A).
        { rewrite E. rewrite !elem_of_app, !elem_of_cons in *. tauto. }
        destruct Hc as [->|Hc]; [apply (R5 e); rewrite E, !elem_of_app, elem_of_cons; tauto|by apply R5].
      * done.
      * done.
      * intros f Hf'. rewrite !elem_of_app, elem_of_cons in Hf'.
        assert (Hc : f = with_pins (ae_pins e - 1) e \/ f ∈ held A) by (unfold held; rewrite E, !elem_of_app, elem_of_cons; tauto).
        destruct Hc as [->|Hc]; [cbn; lia|by apply R8].
Qed.

(** *** [Insert] *)

Definition new_entry (key : bytes) (hash : Z) (value : V) (charge : Z) (deleter : D) (A : ACache V D) : AEntry V D :=
  mkAEntry (a_next A) key hash value charge deleter 1.
Definition bump (A : ACache V D) : ACache V D :=
  mkACache (a_capacity A) (a_lru A) (a_used A) (a_out A) (a_next A + 1) (a_deleted A).
Definition bump_malloc (c : LRUCache V D) : LRUCache V D :=
  mkCache (capacity_ c) (usage_ c) (heap_ c) (table_ c) (malloc_ c + 1) (deleted_ c).

Lemma new_id_fresh M c A T : rel M c A T -> a_next A ∉ ids (a_lru A ++ a_used A ++ a_out A).
Proof. intros HR (e & E & He)%list_elem_of_fmap. pose proof (rl_fresh _ _ _ _ HR e He). lia. Qed.

(** Before the table knows the new entry. *)
Lemma attach_rel M c A T e :
  rel M c A T -> 1 <= M -> e = mkAEntry (a_next A) (ae_key e) (ae_hash e) (ae_value e) (ae_charge e) (ae_deleter e) 1 ->
  exists h, LRU_Append in_use_head (ae_id e) (set_handle (ae_id e) (handle_of true e) (heap_ c)) = Some h /\
    rel M (with_usage (u64 (usage_ c + ae_charge e)) (with_heap h (bump_malloc c))) (with_lists (a_lru A) (a_used A ++ [e]) (a_out A) (bump A)) T.
Proof.
  intros HR HM Ee. assert (Hid : ae_id e = a_next A) by (by rewrite Ee). assert (Hp : ae_pins e = 1) by (by rewrite Ee).
  pose proof HR as [R1 R2 R3 R4 R5 R5' R6 R7 R8 R9 R10].
  destruct (attach _ _ _ _ e R6) as (h & E & Hnh & Hh); [lia|rewrite Hid; by eapply new_id_fresh|]. exists h. split; [done|].
  destruct (table_step M c A T h _ _ _ HR Hh) as [Ht Hs].
  { intros x Hx. by rewrite Hnh. } { intros f Hf _. exists f. split; [|done]. unfold cached in Hf. rewrite !elem_of_app in *. tauto. }
  split; cbn; try done.
  - rewrite R2. unfold a_usage. rewrite u64_add. f_equal. unfold cached. cbn [with_lists bump a_lru a_used].
    rewrite !charges_app, (charges_cons e []). assert (E0 : charges ([] : list (AEntry V D)) = 0) by done. lia.
  - lia.
  - intros f Hf. assert (Hc : f = e \/ f ∈ a_lru A ++ a_used A ++ a_out A) by (rewrite !elem_of_app, list_elem_of_singleton in *; tauto).
    destruct Hc as [->|Hc]; [lia|specialize (R5 f Hc); lia].
  - lia.
  - intros f Hf. unfold held in Hf. cbn in Hf.
    assert (Hc : f = e \/ f ∈ held A) by (unfold held; rewrite !elem_of_app, list_elem_of_singleton in *; tauto).
    destruct Hc as [->|Hc]; [lia|by apply R8].
Qed.

Lemma Insert_cached_rel M c A key hash value charge deleter :
  cache_rel M c A -> 1 <= M < 2 ^ 32 - 2 -> zlen (cached A) < 2 ^ 31 ->
  let e := new_entry key hash value charge deleter A in
  let A2 := with_lists (a_lru A) (a_used A ++ [e]) (a_out A) (bump A) in
  exists h old h' t c', LRU_Append in_use_head (ae_id e) (set_handle (ae_id e) (handle_of true e) (heap_ c)) = Some h /\
    HT_Insert (ae_id e) h (table_ c) = Some (old, h', t) /\
    FinishErase old (with_table h' t (with_usage (u64 (usage_ c + charge)) (with_heap h (bump_malloc c)))) = Some c' /\
    cache_rel M c' (match a_find key hash (cached A) with Some old => a_drop (ae_id old) A2 | None => A2 end).
Proof.
  intros (T & HR & HT & Hk) HM Hlen e A2. destruct (attach_rel M c A T e HR ltac:(lia) eq_refl) as (h & E & HR2). fold A2 in HR2.
  set (c2 := with_usage _ _) in HR2. pose proof HR as [R1 R2 R3 R4 R5 R5' R6 R7 R8 R9 R10].
  assert (Hin : forall f, f ∈ cached A -> f ∈ cached A2) by (intros f; unfold cached; cbn; rewrite !elem_of_app; tauto).
  assert (He : e ∈ cached A2) by (unfold cached; cbn; rewrite !elem_of_app, list_elem_of_singleton; tauto).
  assert (HnT : ae_id e ∉ T).
  { intros Hx%R10. apply (new_id_fresh _ _ _ _ HR). unfold cached in Hx. rewrite !map_app, !elem_of_app in *. tauto. }
  destruct (HT_Insert_spec h (table_ c) T (ae_id e) key hash (rl_table _ _ _ _ HR2)) as (old & h' & t & EI & Hf & Hs & T' & HP & Ht').
  { unfold zlen in *. by rewrite HT, length_map. } { done. } { cbn. lia. } { apply (keyed_cached _ _ _ _ e (rl_heap _ _ _ _ HR2) He). }
  assert (Hf' : found (heap_ c) key hash T old).
  { assert (Hkk : forall x, x ∈ T -> keyed h key hash x <-> keyed (heap_ c) key hash x).
    { intros x Hx. destruct (proj1 (list_elem_of_fmap _ _ _) (R10 x Hx)) as (f & -> & Hfc).
      rewrite (keyed_iff _ _ _ _ f key hash R6 Hfc), (keyed_iff h _ _ _ f key hash (rl_heap _ _ _ _ HR2) (Hin f Hfc)). done. }
    destruct Hf as [[-> Hno]|(H0 & HoT & Ho)]; [left; split; [done|]|right; split; [done|]; split; [done|by apply Hkk]].
    intros x Hx Hx2. apply (Hno x Hx). by apply Hkk. }
  pose proof (found_find _ _ _ _ _ _ _ HR HT Hk Hf') as Hr.
  set (c3 := with_table h' t c2).
  assert (HsubT : forall x, x ∈ T' -> x ∈ T) by (intros x Hx; rewrite HP; destruct (old =? 0); [done|by right]).
  assert (HR3 : rel M c3 A2 (ae_id e :: T')).
  { destruct HR2 as [Q1 Q2 Q3 Q4 Q5 Q5' Q6 Q7 Q8 Q9 Q10]. split; cbn; try done; [by eapply heap_rel_same|].
    intros x [->|Hx]%elem_of_cons; [by apply (list_elem_of_fmap_2 ae_id _ e)|]. by apply Q10, HsubT. }
  assert (HPc : ids (cached A2) ≡ₚ ae_id e :: T) by (rewrite HT; unfold cached; cbn; rewrite !map_app; cbn; solve_Permutation).
  exists h, old, h', t. destruct (a_find key hash (cached A)) as [o|].
  - destruct Hr as (Ho & Eok & Eoh & ->). assert (Ho0 : ae_id o <> 0) by (pose proof (hr_low _ _ _ _ R6 o ltac:(unfold cached in Ho; rewrite !elem_of_app in *; tauto)); lia).
    rewrite (proj2 (Z.eqb_neq _ 0) Ho0) in HP.
    assert (HndT : NoDup T) by (rewrite HT; apply (rel_nodup _ _ _ _ HR)). rewrite HP in HndT. apply NoDup_cons in HndT as [Hn HndT].
    assert (HoT : ae_id o ∈ T) by (rewrite HP; by left).
    destruct (FinishErase_rel M c3 A2 _ o HR3 ltac:(lia) (Hin o Ho)) as (c' & EF & HR' & HPo & _).
    { intros [Hx|Hx]%elem_of_cons; [by rewrite Hx in HoT|done]. }
    exists c'. split; [done|]. split; [done|]. split; [exact EF|]. exists (ae_id e :: T'). split; [done|]. split.
    + assert (H1 : ae_id o :: ids (cached (a_drop (ae_id o) A2)) ≡ₚ ae_id o :: ae_id e :: T').
      { transitivity (ids (cached A2)); [by rewrite HPo|]. rewrite HPc, HP. apply Permutation_swap. }
      by apply Permutation_cons_inv in H1.
    + assert (Hne : forall f, f ∈ cached (a_drop (ae_id o) A2) -> f = e \/ (f ∈ cached A /\ f <> o)).
      { intros f Hfd. assert (Hf2 : f ∈ cached A2) by (rewrite HPo; by right).
        assert (Hfo : f <> o).
        { intros ->. pose proof (rel_nodup _ _ _ _ HR2) as Hnd2. change (NoDup (ids (cached A2))) in Hnd2. rewrite HPo in Hnd2.
          apply NoDup_cons in Hnd2 as [Hx _]. apply Hx. by apply list_elem_of_fmap_2. }
        unfold cached in Hf2 |- *. cbn in Hf2. rewrite !elem_of_app, list_elem_of_singleton in *. tauto. }
      assert (Hon : forall f, f ∈ cached A -> f <> o -> ae_key f = key -> ae_hash f = hash -> False).
      { intros f Hfc Hfo Kf Hf2. apply Hfo. apply Hk; congruence. }
      intros f g [->|[Hf1 Hf2]]%Hne [->|[Hg1 Hg2]]%Hne Ek Eh; [done|by destruct (Hon g)|by destruct (Hon f)|by apply Hk].
  - destruct Hr as [-> Hno]. cbn in HP. exists c3. split; [done|]. split; [done|]. split; [done|]. exists (ae_id e :: T'). split; [done|].
    split; [by rewrite HPc, HP|]. assert (Hne : forall f, f ∈ cached A2 -> f = e \/ f ∈ cached A).
    { intros f. unfold cached. cbn. rewrite !elem_of_app, list_elem_of_singleton. tauto. }
    intros f g [->|Hf1]%Hne [->|Hg1]%Hne Ek Eh; [done|by destruct (Hno g Hg1)|by destruct (Hno f Hf1)|by apply Hk].
Qed.

Lemma Insert_rel M c A key hash value charge deleter :
  cache_rel M c A -> 1 <= M < 2 ^ 32 - 2 -> zlen (cached A) < 2 ^ 31 ->
  exists c', Insert key hash value charge deleter c = Some ((a_insert key hash value charge deleter A).1, c') /\
    cache_rel M c' (a_insert key hash value charge deleter A).2.
Proof.
  intros HC HM Hlen. pose proof HC as (T & HR & HT & Hk). pose proof HR as [R1 R2 R3 R4 R5 R5' R6 R7 R8 R9 R10].
  unfold Insert, a_insert. cbn [fst snd]. change (mkCache _ _ _ _ _ _) with (bump_malloc c). rewrite R4.
  set (A3 := if 0 <? a_capacity A then _ else _).
  assert (Hc : exists c3, add_handle (a_next A) key hash value charge deleter (bump_malloc c) = Some c3 /\ cache_rel M c3 A3 /\
      (length (cached A3) <= S (length (cached A)))%nat).
  { unfold A3, add_handle. cbn [bump_malloc capacity_ heap_]. rewrite R1. destruct (0 <? a_capacity A).
    - destruct (Insert_cached_rel M c A key hash value charge deleter HC HM Hlen) as (h & old & h' & t & c' & E1 & E2 & E3 & HC').
      cbn [new_entry ae_id] in E1, E2. exists c'.
      split; [|split; [exact HC'|]].
      + assert (E1' : LRU_Append in_use_head (a_next A) (set_handle (a_next A) (mkHandle value deleter charge key true 2 hash) (heap_ c)) = Some h) by exact E1.
        rewrite E1'. cbn [mbind option_bind]. change (HT_Insert (a_next A) (heap_ _) (table_ _)) with (HT_Insert (a_next A) h (table_ c)).
        rewrite E2. exact E3.
      + set (A2 := with_lists _ _ _ _). assert (Hl : length (cached A2) = S (length (cached A))) by (unfold cached; cbn; rewrite !length_app; cbn; lia).
        destruct (a_find key hash (cached A)) as [o|]; [|lia]. pose proof (drop_length A2 (ae_id o)). lia.
    - set (e := new_entry key hash value charge deleter A).
      destruct (attach_out _ _ _ _ e R6) as (h & E & Hnh & Hh); [cbn; lia|by eapply new_id_fresh|].
      assert (E' : set_next (a_next A) 0 (set_handle (a_next A) (mkHandle value deleter charge key false 1 hash) (heap_ c)) = Some h) by exact E.
      rewrite E'. cbn [mbind option_bind]. eexists. split; [done|]. split; [|unfold cached; cbn; lia].
      destruct (table_step M c A T h _ _ _ HR Hh) as [Ht Hs]; [intros x Hx; by rewrite Hnh|intros f Hf _; by exists f|].
      exists T. split; [|done]. split; cbn; try done.
      + lia.
      + intros f Hf. assert (Hcf : f = e \/ f ∈ a_lru A ++ a_used A ++ a_out A) by (rewrite !elem_of_app, list_elem_of_singleton in *; tauto).
        destruct Hcf as [->|Hcf]; [cbn; lia|specialize (R5 f Hcf); lia].
      + lia.
      + intros f Hf. unfold held in Hf. cbn in Hf.
        assert (Hcf : f = e \/ f ∈ held A) by (unfold held; rewrite !elem_of_app, list_elem_of_singleton in *; tauto).
        destruct Hcf as [->|Hcf]; [cbn; lia|by apply R8]. }
  destruct Hc as (c3 & E & HC3 & Hl3). rewrite E. cbn [mbind option_bind].
  destruct (evict_loop_rel M (S (size (hp_handles (heap_ c3)))) c3 A3 HC3) as (c4 & -> & HC4); [lia|unfold zlen in *; lia|by eapply lru_size|].
  cbn [mbind option_bind]. by exists c4.
Qed.

Lemma new_rel M capacity : cache_rel M (LRUCache_new capacity) (ACache_new capacity).
Proof.
  exists []. split; [|split; [done|by intros ? ? ?%elem_of_nil]]. split; cbn; try done; try by intros ? ?%elem_of_nil.
  - apply (heap_rel_new capacity).
  - apply table_ok_new.
Qed.
End Rel.

(** ** The sharded cache *)

Section Sharded.
Context {V D : Type}.

Definition kNumShardBits : Z := 4.
Definition kNumShards : nat := 16.
Definition HashSlice (s : bytes) : Z := Hash s 0.
Definition Shard (hash : Z) : nat := Z.to_nat (Z.shiftr hash (32 - kNumShardBits)).

Record ShardedLRUCache := mkSharded { shard_ : list (LRUCache V D); last_id_ : Z }.

Definition per_shard (capacity : Z) : Z := u64 (capacity + 15) / 16.
Definition ShardedLRUCache_new (capacity : Z) : ShardedLRUCache :=
  mkSharded (replicate kNumShards (LRUCache_new (per_shard capacity))) 0.

(** A shard's handles are in memory of its own: a handle is a shard's number
    and an address. *)
Definition Handle : Type := nat * Z.

Definition on_shard {A} (i : nat) (f : LRUCache V D -> option (A * LRUCache V D)) (c : ShardedLRUCache) : option (A * ShardedLRUCache) :=
  s ← shard_ c !! i;
  '(r, s) ← f s;
  Some (r, mkSharded (<[i := s]> (shard_ c)) (last_id_ c)).

Definition handle_in (i : nat) (a : Z) : option Handle := if a =? 0 then None else Some (i, a).

Definition Sharded_Insert (key : bytes) (value : V) (charge : Z) (deleter : D) (c : ShardedLRUCache) : option (option Handle * ShardedLRUCache) :=
  let hash := HashSlice key in
  '(a, c) ← on_shard (Shard hash) (Insert key hash value charge deleter) c;
  Some (handle_in (Shard hash) a, c).

Definition Sharded_Lookup (key : bytes) (c : ShardedLRUCache) : option (option Handle * ShardedLRUCache) :=
  let hash := HashSlice key in
  '(a, c) ← on_shard (Shard hash) (Lookup key hash) c;
  Some (handle_in (Shard hash) a, c).

Definition unit_result (f : LRUCache V D -> option (LRUCache V D)) (c : LRUCache V D) : option (unit * LRUCache V D) :=
  c ← f c; Some (tt, c).

(** [shard_[Shard(h->hash)].Release(handle)] *)
Definition Sharded_Release (handle : Handle) (c : ShardedLRUCache) : option ShardedLRUCache :=
  s ← shard_ c !! handle.1;
  h ← hp_handles (heap_ s) !! handle.2;
  '(_, c) ← on_shard (Shard (h_hash h)) (unit_result (Release handle.2)) c;
  Some c.

Definition Sharded_Erase (key : bytes) (c : ShardedLRUCache) : option ShardedLRUCache :=
  let hash := HashSlice key in
  '(_, c) ← on_shard (Shard hash) (unit_result (Erase key hash)) c;
  Some c.

Definition Sharded_Value (handle : Handle) (c : ShardedLRUCache) : option V :=
  s ← shard_ c !! handle.1;
  h ← hp_handles (heap_ s) !! handle.2;
  Some (h_value h).

Definition Sharded_NewId (c : ShardedLRUCache) : Z * ShardedLRUCache :=
  let id := u64 (last_id_ c + 1) in (id, mkSharded (shard_ c) id).

Definition Sharded_Prune (c : ShardedLRUCache) : option ShardedLRUCache :=
  shards ← mapM Prune (shard_ c); Some (mkSharded shards (last_id_ c)).

Definition Sharded_TotalCharge (c : ShardedLRUCache) : Z :=
  fold_left (fun total s => u64 (total + TotalCharge s)) (shard_ c) 0.

(** *** Runs *)

Inductive CacheOp :=
  | OpInsert (key : bytes) (value : V) (charge : Z) (deleter : D)
  | OpLookup (key : bytes)
  | OpRelease (handle : Handle)
  | OpErase (key : bytes)
  | OpPrune.

Definition cache_step (op : CacheOp) (c : ShardedLRUCache) : option (option Handle * ShardedLRUCache) :=
  match op with
  | OpInsert key value charge deleter => Sharded_Insert key value charge deleter c
  | OpLookup key => Sharded_Lookup key c
  | OpRelease handle => c ← Sharded_Release handle c; Some (None, c)
  | OpErase key => c ← Sharded_Erase key c; Some (None, c)
  | OpPrune => c ← Sharded_Prune c; Some (None, c)
  end.

Fixpoint cache_run (ops : list CacheOp) (c : ShardedLRUCache) : option (list (option Handle) * ShardedLRUCache) :=
  match ops with
  | [] => Some ([], c)
  | op :: ops => '(r, c) ← cache_step op c; '(rs, c) ← cache_run ops c; Some (r :: rs, c)
  end.

(** The same on the reference, with a cache per shard. *)
Definition a_on_shard {A} (i : nat) (dummy : A) (f : ACache V D -> A * ACache V D) (As : list (ACache V D)) : A * list (ACache V D) :=
  match As !! i with
  | Some A => let '(r, A) := f A in (r, <[i := A]> As)
  | None => (dummy, As)
  end.

Definition a_step (op : CacheOp) (As : list (ACache V D)) : option Handle * list (ACache V D) :=
  match op with
  | OpInsert key value charge deleter =>
      let '(a, As) := a_on_shard (Shard (HashSlice key)) 0 (a_insert key (HashSlice key) value charge deleter) As in
      (handle_in (Shard (HashSlice key)) a, As)
  | OpLookup key =>
      let '(a, As) := a_on_shard (Shard (HashSlice key)) 0 (a_lookup key (HashSlice key)) As in
      (handle_in (Shard (HashSlice key)) a, As)
  | OpRelease handle => (None, (a_on_shard handle.1 tt (fun A => (tt, a_release handle.2 A)) As).2)
  | OpErase key => (None, (a_on_shard (Shard (HashSlice key)) tt (fun A => (tt, a_erase key (HashSlice key) A)) As).2)
  | OpPrune => (None, map a_prune As)
  end.

Fixpoint a_run (ops : list CacheOp) (As : list (ACache V D)) : list (option Handle) * list (ACache V D) :=
  match ops with
  | [] => ([], As)
  | op :: ops => let '(r, As) := a_step op As in let '(rs, As) := a_run ops As in (r :: rs, As)
  end.

(** What a client may do: it releases handles that it has. *)
Definition op_allowed (op : CacheOp) (As : list (ACache V D)) : Prop :=
  match op with
  | OpRelease handle => exists A, As !! handle.1 = Some A /\ handle.2 ∈ map ae_id (held A)
  | _ => True
  end.

Fixpoint ops_allowed (ops : list CacheOp) (As : list (ACache V D)) : Prop :=
  match ops with
  | [] => True
  | op :: ops => op_allowed op As /\ ops_allowed ops (a_step op As).2
  end.
End Sharded.
Arguments ShardedLRUCache : clear implicits.
Arguments CacheOp : clear implicits.

(** ** The sharded cache refines the reference *)

Section ShardedRel.
Context {V D : Type}.
Implicit Types (A : ACache V D) (e f : AEntry V D) (c : ShardedLRUCache V D).

Definition entries (A : ACache V D) : list (AEntry V D) := a_lru A ++ a_used A ++ a_out A.

Definition hashes_ok (P : Z -> Prop) A : Prop := forall e, e ∈ entries A -> P (ae_hash e).

(** An operation keeps entries, up to pins, and drops some. *)
Definition shrinks A A' : Prop :=
  (forall f, f ∈ entries A' -> exists e, e ∈ entries A /\ ae_hash f = ae_hash e) /\ (length (cached A') <= length (cached A))%nat.

Lemma shrinks_refl A : shrinks A A.
Proof. split; [|done]. intros f Hf. by exists f. Qed.

Lemma shrinks_trans A1 A2 A3 : shrinks A1 A2 -> shrinks A2 A3 -> shrinks A1 A3.
Proof. intros [H1 L1] [H2 L2]. split; [|lia]. intros f (e & He & E)%H2. destruct (H1 e He) as (g & Hg & E'). exists g. split; [done|congruence]. Qed.

Lemma shrinks_hashes P A A' : shrinks A A' -> hashes_ok P A -> hashes_ok P A'.
Proof. intros [H _] HP f (e & He & ->)%H. by apply HP. Qed.

Lemma drop_shrinks A id : shrinks A (a_drop id A).
Proof.
  split; [|apply drop_length]. unfold a_drop, entries. destruct A as [cap lru used out n del]. cbn.
  destruct (take_out id lru) as [[e l]|] eqn:E; [|destruct (take_out id used) as [[e l]|] eqn:E2].
  - apply take_out_Some in E as (l1 & l2 & -> & -> & _). intros f Hf. exists f. split; [|done]. cbn in Hf. rewrite !elem_of_app, elem_of_cons in *. tauto.
  - apply take_out_Some in E2 as (l1 & l2 & -> & -> & _). intros f Hf. exists f. split; [|done]. cbn in Hf.
    rewrite !elem_of_app, elem_of_cons. rewrite !elem_of_app, list_elem_of_singleton in Hf. tauto.
  - intros f Hf. by exists f.
Qed.

Lemma evict_shrinks l A : shrinks A (a_evict l A).
Proof.
  revert A. induction l as [|e l IH]; intros A; cbn; [apply shrinks_refl|]. destruct (_ <? _); [|apply shrinks_refl].
  eapply shrinks_trans; [apply drop_shrinks|apply IH].
Qed.

Lemma prune_shrinks A : shrinks A (a_prune A).
Proof.
  unfold a_prune. generalize (a_lru A) as l. intros l. revert A. induction l as [|e l IH]; intros A; cbn; [apply shrinks_refl|].
  eapply shrinks_trans; [apply drop_shrinks|apply IH].
Qed.

Lemma map_at_elem (g : AEntry V D -> AEntry V D) id (l : list (AEntry V D)) f :
  (forall e, ae_hash (g e) = ae_hash e) -> f ∈ map (fun e => if ae_id e =? id then g e else e) l -> exists e, e ∈ l /\ ae_hash f = ae_hash e.
Proof. intros Hg (e & -> & He)%list_elem_of_fmap. exists e. split; [done|]. by destruct (ae_id e =? id). Qed.

Lemma pin_shrinks A id : shrinks A (a_pin id A).
Proof.
  unfold a_pin, shrinks, entries, cached. destruct A as [cap lru used out n del]. cbn.
  destruct (take_out id lru) as [[e l]|] eqn:E; cbn.
  - apply take_out_Some in E as (l1 & l2 & -> & -> & _). split; [|rewrite !length_app; cbn; lia]. intros f Hf.
    rewrite !elem_of_app, list_elem_of_singleton in Hf.
    assert (Hc : f = with_pins (ae_pins e + 1) e \/ (f ∈ l1 \/ f ∈ l2 \/ f ∈ used \/ f ∈ out)) by tauto.
    destruct Hc as [->|Hc]; [exists e|exists f]; (split; [|done]); rewrite !elem_of_app, elem_of_cons; tauto.
  - split; [|rewrite !length_app, length_map; lia]. intros f Hf. rewrite !elem_of_app in Hf. destruct Hf as [Hf|[Hf|Hf]].
    + exists f. rewrite !elem_of_app. tauto.
    + apply map_at_elem in Hf as (e & He & E'); [|done]. exists e. rewrite !elem_of_app. tauto.
    + exists f. rewrite !elem_of_app. tauto.
Qed.

Lemma release_shrinks A id : shrinks A (a_release id A).
Proof.
  unfold a_release, shrinks, entries, cached. destruct A as [cap lru used out n del]. cbn.
  destruct (take_out id used) as [[e l]|] eqn:E.
  - destruct (ae_pins e =? 1); cbn.
    + apply take_out_Some in E as (l1 & l2 & -> & -> & _). split; [|rewrite !length_app; cbn; lia]. intros f Hf.
      rewrite !elem_of_app, list_elem_of_singleton in Hf.
      assert (Hc : f = with_pins 0 e \/ (f ∈ l1 \/ f ∈ l2 \/ f ∈ lru \/ f ∈ out)) by tauto.
      destruct Hc as [->|Hc]; [exists e|exists f]; (split; [|done]); rewrite !elem_of_app, elem_of_cons; tauto.
    + split; [|rewrite !length_app, length_map; lia]. intros f Hf. rewrite !elem_of_app in Hf. destruct Hf as [Hf|[Hf|Hf]].
      * exists f. rewrite !elem_of_app. tauto.
      * apply map_at_elem in Hf as (e' & He & E'); [|done]. exists e'. rewrite !elem_of_app. tauto.
      * exists f. rewrite !elem_of_app. tauto.
  - destruct (take_out id out) as [[e l]|] eqn:E2; [|split; [intros f Hf; by exists f|done]]. destruct (ae_pins e =? 1); cbn; (split; [|done]).
    + apply take_out_Some in E2 as (l1 & l2 & -> & -> & _). intros f Hf. exists f. rewrite !elem_of_app, elem_of_cons in *. tauto.
    + intros f Hf. rewrite !elem_of_app in Hf. destruct Hf as [Hf|[Hf|Hf]].
      * exists f. rewrite !elem_of_app. tauto.
      * exists f. rewrite !elem_of_app. tauto.
      * apply map_at_elem in Hf as (e' & He & E'); [|done]. exists e'. rewrite !elem_of_app. tauto.
Qed.

Lemma lookup_shrinks A key hash : shrinks A (a_lookup key hash A).2.
Proof. unfold a_lookup. destruct (a_find key hash (cached A)); [apply pin_shrinks|apply shrinks_refl]. Qed.

Lemma erase_shrinks A key hash : shrinks A (a_erase key hash A).
Proof. unfold a_erase. destruct (a_find key hash (cached A)); [apply drop_shrinks|apply shrinks_refl]. Qed.

Lemma insert_hashes P A key hash value charge deleter :
  P hash -> hashes_ok P A -> hashes_ok P (a_insert key hash value charge deleter A).2.
Proof.
  intros Hh HP. unfold a_insert. cbn [snd]. eapply shrinks_hashes; [apply evict_shrinks|].
  assert (Hnew : forall lru used out B, (forall e, e ∈ lru ++ used ++ out -> e ∈ entries A \/ ae_hash e = hash) ->
    hashes_ok P (with_lists (V := V) (D := D) lru used out B)).
  { intros lru used out B Hin e He. destruct (Hin e He) as [H|H]; [by apply HP|by rewrite H]. }
  destruct (0 <? a_capacity A).
  - set (A2 := with_lists _ _ _ _). assert (H2 : hashes_ok P A2).
    { apply Hnew. intros e. unfold entries. rewrite !elem_of_app, list_elem_of_singleton. intros [?|[[?| ->]|?]]; tauto. }
    destruct (a_find key hash (cached A)); [|done]. by eapply shrinks_hashes; [apply drop_shrinks|].
  - apply Hnew. intros e. unfold entries. rewrite !elem_of_app, list_elem_of_singleton. intros [?|[?|[?| ->]]]; tauto.
Qed.

Lemma insert_length A key hash value charge deleter :
  (length (cached (a_insert key hash value charge deleter A).2) <= S (length (cached A)))%nat.
Proof.
  unfold a_insert. cbn [snd]. set (A2 := if 0 <? a_capacity A then _ else _). pose proof (evict_shrinks (a_lru A2) A2) as [_ H].
  assert (H2 : (length (cached A2) <= S (length (cached A)))%nat); [|lia]. unfold A2. destruct (0 <? a_capacity A); [|unfold cached; cbn; lia].
  set (A3 := with_lists _ _ _ _). assert (H3 : length (cached A3) = S (length (cached A))) by (unfold cached; cbn; rewrite !length_app; cbn; lia).
  destruct (a_find key hash (cached A)) as [o|]; [|lia]. pose proof (drop_length A3 (ae_id o)). lia.
Qed.

(** Each shard stands for its reference, and has entries of its hashes only. *)
Record sharded_rel (n : Z) c (As : list (ACache V D)) : Prop := {
  sr_shards : Forall2 (cache_rel (n + 1)) (shard_ c) As;
  sr_length : length As = kNumShards;
  sr_hashes : forall i A, As !! i = Some A -> hashes_ok (fun h => Shard h = i) A;
  sr_size : forall i A, As !! i = Some A -> zlen (cached A) <= n;
}.

Lemma Shard_lt hash : 0 <= hash < 2 ^ 32 -> (Shard hash < kNumShards)%nat.
Proof.
  intros H. unfold Shard, kNumShardBits, kNumShards. rewrite Z.shiftr_div_pow2 by lia. change (2 ^ (32 - 4)) with 268435456.
  pose proof (Z.div_lt_upper_bound hash 268435456 16 ltac:(lia) ltac:(lia)). pose proof (Z.div_pos hash 268435456). lia.
Qed.

Lemma Shard_key key : (Shard (HashSlice key) < kNumShards)%nat.
Proof. apply Shard_lt, Hash_range. Qed.

(** An operation of one shard. *)
Lemma on_shard_rel {R : Type} n c As i (f : LRUCache V D -> option (R * LRUCache V D)) (g : ACache V D -> R * ACache V D) dummy :
  sharded_rel n c As -> (i < kNumShards)%nat ->
  (forall s A, As !! i = Some A -> cache_rel (n + 1) s A -> exists s', f s = Some ((g A).1, s') /\ cache_rel (n + 1 + 1) s' (g A).2) ->
  (forall A, As !! i = Some A -> hashes_ok (fun h => Shard h = i) A -> hashes_ok (fun h => Shard h = i) (g A).2) ->
  (forall A, (length (cached (g A).2) <= S (length (cached A)))%nat) ->
  exists c', on_shard i f c = Some ((a_on_shard i dummy g As).1, c') /\ sharded_rel (n + 1) c' (a_on_shard i dummy g As).2.
Proof.
  intros [S1 S2 S3 S4] Hi Hf Hh Hl. destruct (lookup_lt_is_Some_2 As i ltac:(lia)) as [A EA].
  destruct (Forall2_lookup_r _ _ _ _ _ S1 EA) as (s & Es & HC). unfold on_shard, a_on_shard. rewrite EA, Es. cbn [mbind option_bind].
  destruct (Hf s A EA HC) as (s' & -> & HC'). specialize (Hh A EA). specialize (Hl A). destruct (g A) as [r A'] eqn:Eg. cbn [mbind option_bind fst snd] in *.
  eexists. split; [done|]. split; cbn.
  - apply Forall2_insert; [|done]. eapply Forall2_impl; [exact S1|]. intros. eapply cache_rel_weaken; [|done]. lia.
  - by rewrite length_insert.
  - intros j B Hj. destruct (decide (j = i)) as [->|Hne].
    + rewrite list_lookup_insert_eq in Hj by lia. injection Hj as <-. apply Hh. by apply S3.
    + rewrite list_lookup_insert_ne in Hj by done. by apply S3.
  - intros j B Hj. destruct (decide (j = i)) as [->|Hne].
    + rewrite list_lookup_insert_eq in Hj by lia. injection Hj as <-. specialize (S4 _ _ EA). unfold zlen in *. lia.
    + rewrite list_lookup_insert_ne in Hj by done. specialize (S4 _ _ Hj). lia.
Qed.

Lemma prune_all_rel n (ss : list (LRUCache V D)) (As : list (ACache V D)) :
  Forall2 (cache_rel (n + 1)) ss As -> n < 2 ^ 31 -> (forall i A, As !! i = Some A -> zlen (cached A) <= n) ->
  exists ss', mapM Prune ss = Some ss' /\ Forall2 (cache_rel (n + 1)) ss' (map a_prune As).
Proof.
  intros H Hn. induction H as [|s A ss As Hs H IH]; intros Hl; [by exists []|]. cbn [mapM map].
  destruct (Prune_rel (n + 1) s A Hs) as (s' & -> & Hs'); [lia|specialize (Hl 0%nat A eq_refl); lia|]. cbn.
  destruct IH as (ss' & -> & H'); [intros i B Hi; by apply (Hl (S i))|]. cbn. exists (s' :: ss'). split; [done|by constructor].
Qed.

Lemma cache_step_rel n op c As :
  sharded_rel n c As -> 0 <= n < 2 ^ 31 - 1 -> op_allowed op As ->
  exists c', cache_step op c = Some ((a_step op As).1, c') /\ sharded_rel (n + 1) c' (a_step op As).2.
Proof.
  intros HS Hn Ha. pose proof HS as [S1 S2 S3 S4].
  assert (Hsz : forall i A, As !! i = Some A -> zlen (cached A) < 2 ^ 31) by (intros i A Hi; specialize (S4 i A Hi); lia).
  destruct op as [key value charge deleter|key|[i a]|key|]; cbn [cache_step a_step].
  - destruct (on_shard_rel n c As (Shard (HashSlice key)) (Insert key (HashSlice key) value charge deleter) (a_insert key (HashSlice key) value charge deleter) 0 HS (Shard_key key))
      as (c' & E & HR).
    + intros s A EA HC. destruct (Insert_rel (n + 1) s A key (HashSlice key) value charge deleter HC ltac:(lia) (Hsz _ _ EA)) as (s' & E & HC').
      exists s'. split; [done|]. eapply cache_rel_weaken; [|done]. lia.
    + intros A _. by apply insert_hashes.
    + intros A. apply insert_length.
    + unfold Sharded_Insert. rewrite E. cbn [mbind option_bind].
      destruct (a_on_shard _ 0 _ As) as [a As']. cbn in *. by exists c'.
  - destruct (on_shard_rel n c As (Shard (HashSlice key)) (Lookup key (HashSlice key)) (a_lookup key (HashSlice key)) 0 HS (Shard_key key))
      as (c' & E & HR).
    + intros s A EA HC. apply Lookup_rel; [done|lia].
    + intros A _. apply shrinks_hashes, lookup_shrinks.
    + intros A. destruct (lookup_shrinks A key (HashSlice key)) as [_ H]. lia.
    + unfold Sharded_Lookup. rewrite E. cbn [mbind option_bind].
      destruct (a_on_shard _ 0 _ As) as [a As']. cbn in *. by exists c'.
  - destruct Ha as (A & EA & Ha). cbn [fst snd] in *. pose proof (lookup_lt_Some _ _ _ EA) as Hi.
    destruct (Forall2_lookup_r _ _ _ _ _ S1 EA) as (s & Es & HC). pose proof HC as (T & HR & _).
    pose proof Ha as (e & Ee & He)%list_elem_of_fmap.
    assert (Hh : exists h, hp_handles (heap_ s) !! a = Some h /\ Shard (h_hash h) = i).
    { assert (Hhe : Shard (ae_hash e) = i) by (apply (S3 i A EA); unfold entries, held in *; rewrite !elem_of_app in *; tauto).
      rewrite Ee. unfold held in He. apply elem_of_app in He as [He|He].
      - exists (handle_of true e). split; [|done]. apply (handle_cached _ _ _ _ e (rl_heap _ _ _ _ HR)). apply elem_of_app. by right.
      - exists (handle_of false e). split; [|done]. by apply (handle_out _ _ _ _ e (rl_heap _ _ _ _ HR)). }
    destruct Hh as (h & Eh & Esh).
    destruct (on_shard_rel n c As i (unit_result (Release a)) (fun A => (tt, a_release a A)) tt HS ltac:(lia)) as (c' & E & HR').
    + intros s0 A0 EA0 HC0. assert (A0 = A) as -> by congruence. destruct (Release_rel (n + 1) s0 A a HC0 ltac:(lia) Ha) as (s' & E & HC').
      unfold unit_result. rewrite E. exists s'. split; [done|]. eapply cache_rel_weaken; [|done]. lia.
    + intros A0 _. apply shrinks_hashes, release_shrinks.
    + intros A0. destruct (release_shrinks A0 a) as [_ H]. cbn. lia.
    + unfold Sharded_Release. cbn [fst snd]. rewrite Es. cbn [mbind option_bind]. rewrite Eh. cbn [mbind option_bind]. rewrite Esh, E. cbn. by exists c'.
  - destruct (on_shard_rel n c As (Shard (HashSlice key)) (unit_result (Erase key (HashSlice key))) (fun A => (tt, a_erase key (HashSlice key) A)) tt HS (Shard_key key))
      as (c' & E & HR).
    + intros s A EA HC. destruct (Erase_rel (n + 1) s A key (HashSlice key) HC ltac:(lia)) as (s' & E & HC'); [specialize (Hsz _ _ EA); lia|].
      unfold unit_result. rewrite E. exists s'. split; [done|]. eapply cache_rel_weaken; [|done]. lia.
    + intros A _. apply shrinks_hashes, erase_shrinks.
    + intros A. destruct (erase_shrinks A key (HashSlice key)) as [_ H]. cbn. lia.
    + unfold Sharded_Erase. rewrite E. cbn. by exists c'.
  - destruct (prune_all_rel n (shard_ c) As S1 ltac:(lia) S4) as (ss' & E & HF). unfold Sharded_Prune. rewrite E. cbn.
    eexists. split; [done|]. split; cbn.
    + eapply Forall2_impl; [exact HF|]. intros. eapply cache_rel_weaken; [|done]. lia.
    + by rewrite length_map.
    + intros i A (B & -> & EB)%list_lookup_fmap_Some. eapply shrinks_hashes; [apply prune_shrinks|by apply S3].
    + intros i A (B & -> & EB)%list_lookup_fmap_Some. specialize (S4 i B EB). destruct (prune_shrinks B) as [_ H]. unfold zlen in *. lia.
Qed.

Lemma cache_run_rel ops n c As :
  sharded_rel n c As -> 0 <= n -> n + zlen ops < 2 ^ 31 -> ops_allowed ops As ->
  exists c', cache_run ops c = Some ((a_run ops As).1, c') /\ sharded_rel (n + zlen ops) c' (a_run ops As).2.
Proof.
  revert n c As. induction ops as [|op ops IH]; intros n c As HS Hn Hl Ha; cbn [cache_run a_run].
  { exists c. split; [done|]. by rewrite Z.add_0_r. }
  assert (Ez : zlen (op :: ops) = 1 + zlen ops) by (unfold zlen; cbn; lia). rewrite Ez in *. pose proof (Zle_0_nat (length ops)) as H0. fold (zlen ops) in H0.
  destruct Ha as [Ha1 Ha2]. destruct (cache_step_rel n op c As HS ltac:(lia) Ha1) as (c1 & -> & HS1). cbn [mbind option_bind].
  destruct (a_step op As) as [r As1]. cbn [fst snd] in *.
  destruct (IH (n + 1) c1 As1 HS1 ltac:(lia) ltac:(lia) Ha2) as (c' & -> & HS'). cbn [mbind option_bind].
  destruct (a_run ops As1) as [rs As']. cbn [fst snd] in *. exists c'. split; [done|].
  by replace (n + (1 + zlen ops)) with (n + 1 + zlen ops) by lia.
Qed.

Definition As_new (capacity : Z) : list (ACache V D) := replicate kNumShards (ACache_new (per_shard capacity)).

Lemma sharded_new_rel capacity : sharded_rel 0 (ShardedLRUCache_new capacity) (As_new capacity).
Proof.
  unfold As_new. split; cbn [shard_ ShardedLRUCache_new].
  - apply Forall2_replicate. apply new_rel.
  - apply length_replicate.
  - intros i A [-> _]%lookup_replicate_1 e ?%elem_of_nil. done.
  - intros i A [-> _]%lookup_replicate_1. done.
Qed.

(** *** Every value is deleted once *)

Definition deletion (e : AEntry V D) : D * bytes * V := (ae_deleter e, ae_key e, ae_value e).

(** The deleter calls made and those still to be made. *)
Definition deletions (A : ACache V D) : list (D * bytes * V) := a_deleted A ++ map deletion (entries A).

Lemma map_at_deletion id n (l : list (AEntry V D)) :
  map deletion (map (fun e => if ae_id e =? id then with_pins (n e) e else e) l) = map deletion l.
Proof. rewrite map_map. apply map_ext. intros e. by destruct (ae_id e =? id). Qed.

Lemma drop_deletions A id : deletions (a_drop id A) ≡ₚ deletions A.
Proof.
  unfold deletions, entries, a_drop. destruct A as [cap lru used out n del]. cbn.
  destruct (take_out id lru) as [[e l]|] eqn:E; [|destruct (take_out id used) as [[e l]|] eqn:E2; [|done]].
  - apply take_out_Some in E as (l1 & l2 & -> & -> & _). cbn. rewrite !map_app. cbn. unfold deletion. solve_Permutation.
  - apply take_out_Some in E2 as (l1 & l2 & -> & -> & _). cbn. rewrite !map_app. cbn. solve_Permutation.
Qed.

Lemma evict_deletions l A : deletions (a_evict l A) ≡ₚ deletions A.
Proof. revert A. induction l as [|e l IH]; intros A; cbn; [done|]. destruct (_ <? _); [|done]. by rewrite IH, drop_deletions. Qed.

Lemma prune_deletions A : deletions (a_prune A) ≡ₚ deletions A.
Proof.
  unfold a_prune. generalize (a_lru A) as l. intros l. revert A. induction l as [|e l IH]; intros A; cbn; [done|].
  by rewrite IH, drop_deletions.
Qed.

Lemma pin_deletions A id : deletions (a_pin id A) ≡ₚ deletions A.
Proof.
  unfold deletions, entries, a_pin. destruct A as [cap lru used out n del]. cbn. destruct (take_out id lru) as [[e l]|] eqn:E; cbn.
  - apply take_out_Some in E as (l1 & l2 & -> & -> & _). rewrite !map_app. cbn. unfold deletion at 3. cbn. fold (deletion e). solve_Permutation.
  - by rewrite !map_app, map_at_deletion.
Qed.

Lemma release_deletions A id : deletions (a_release id A) ≡ₚ deletions A.
Proof.
  unfold deletions, entries, a_release. destruct A as [cap lru used out n del]. cbn. destruct (take_out id used) as [[e l]|] eqn:E.
  - destruct (ae_pins e =? 1); cbn; [|by rewrite !map_app, map_at_deletion].
    apply take_out_Some in E as (l1 & l2 & -> & -> & _). rewrite !map_app. cbn. unfold deletion at 2. cbn. fold (deletion e). solve_Permutation.
  - destruct (take_out id out) as [[e l]|] eqn:E2; [|done]. destruct (ae_pins e =? 1); cbn; [|by rewrite !map_app, map_at_deletion].
    apply take_out_Some in E2 as (l1 & l2 & -> & -> & _). rewrite !map_app. cbn. unfold deletion. solve_Permutation.
Qed.

Lemma insert_deletions A key hash value charge deleter :
  deletions (a_insert key hash value charge deleter A).2 ≡ₚ (deleter, key, value) :: deletions A.
Proof.
  unfold a_insert. cbn [snd]. rewrite evict_deletions. destruct (0 <? a_capacity A).
  - assert (H : deletions (with_lists (a_lru A) (a_used A ++ [mkAEntry (a_next A) key hash value charge deleter 1]) (a_out A)
      (mkACache (a_capacity A) (a_lru A) (a_used A) (a_out A) (a_next A + 1) (a_deleted A))) ≡ₚ (deleter, key, value) :: deletions A).
    { unfold deletions, entries. cbn. rewrite !map_app. cbn. unfold deletion at 3. cbn. solve_Permutation. }
    destruct (a_find key hash (cached A)); [by rewrite drop_deletions|done].
  - unfold deletions, entries. cbn. rewrite !map_app. cbn. unfold deletion at 4. cbn. solve_Permutation.
Qed.

(** The insertions into a shard. *)
Definition insertions_of (i : nat) (op : CacheOp V D) : list (D * bytes * V) :=
  match op with
  | OpInsert key value _ deleter => if (Shard (HashSlice key) =? i)%nat then [(deleter, key, value)] else []
  | _ => []
  end.
Definition insertions (i : nat) (ops : list (CacheOp V D)) : list (D * bytes * V) := concat (map (insertions_of i) ops).

Lemma on_shard_other {R : Type} (g : ACache V D -> R * ACache V D) i j dummy As A :
  As !! j = Some A -> (a_on_shard i dummy g As).2 !! j = Some (if (i =? j)%nat then (g A).2 else A).
Proof.
  intros HA. unfold a_on_shard. destruct (Nat.eqb_spec i j) as [->|Hne].
  - rewrite HA. destruct (g A). cbn. rewrite list_lookup_insert_eq; [done|by eapply lookup_lt_Some].
  - destruct (As !! i); [|done]. destruct (g _). cbn. by rewrite list_lookup_insert_ne.
Qed.

Lemma step_deletions op As i A :
  As !! i = Some A -> exists A', (a_step op As).2 !! i = Some A' /\ deletions A' ≡ₚ deletions A ++ insertions_of i op.
Proof.
  intros HA. destruct op as [key value charge deleter|key|[j a]|key|]; cbn [a_step insertions_of].
  - destruct (a_on_shard _ 0 _ As) as [a As'] eqn:E. pose proof (on_shard_other (a_insert key (HashSlice key) value charge deleter) (Shard (HashSlice key)) i 0 As A HA) as H.
    rewrite E in H. cbn [snd] in *. eexists. split; [exact H|]. destruct (Shard (HashSlice key) =? i)%nat; [|by rewrite app_nil_r].
    rewrite insert_deletions. by rewrite Permutation_app_comm.
  - destruct (a_on_shard _ 0 _ As) as [a As'] eqn:E. pose proof (on_shard_other (a_lookup key (HashSlice key)) (Shard (HashSlice key)) i 0 As A HA) as H.
    rewrite E in H. cbn [snd] in *. eexists. split; [exact H|]. rewrite app_nil_r. destruct (_ =? i)%nat; [|done].
    unfold a_lookup. destruct (a_find _ _ _); [apply pin_deletions|done].
  - eexists. split; [exact (on_shard_other (fun A => (tt, a_release a A)) j i tt As A HA)|]. rewrite app_nil_r. destruct (_ =? i)%nat; [apply release_deletions|done].
  - eexists. split; [exact (on_shard_other (fun A => (tt, a_erase key (HashSlice key) A)) (Shard (HashSlice key)) i tt As A HA)|]. rewrite app_nil_r.
    destruct (_ =? i)%nat; [|done]. cbn. unfold a_erase. destruct (a_find _ _ _); [apply drop_deletions|done].
  - exists (a_prune A). cbn. rewrite app_nil_r. split; [|apply prune_deletions]. change (map a_prune As) with (a_prune <$> As). by rewrite list_lookup_fmap, HA.
Qed.

Lemma run_deletions ops As i A :
  As !! i = Some A -> exists A', (a_run ops As).2 !! i = Some A' /\ deletions A' ≡ₚ deletions A ++ insertions i ops.
Proof.
  revert As A. induction ops as [|op ops IH]; intros As A HA; cbn [a_run].
  { exists A. split; [done|]. by rewrite app_nil_r. }
  destruct (step_deletions op As i A HA) as (A1 & H1 & P1). destruct (a_step op As) as [r As1]. cbn [snd] in *.
  destruct (IH As1 A1 H1) as (A2 & H2 & P2). destruct (a_run ops As1) as [rs As2]. cbn [snd] in *. exists A2. split; [done|].
  unfold insertions in *. cbn [map concat]. by rewrite P2, P1, app_assoc.
Qed.

(** Right after an insertion the charges are within the capacity, or everything
    left is in use. *)
Lemma insert_within_capacity A key hash value charge deleter :
  let A' := (a_insert key hash value charge deleter A).2 in a_lru A' = [] \/ a_usage A' <= a_capacity A'.
Proof.
  cbn zeta. unfold a_insert. cbn [snd]. set (A2 := if 0 <? a_capacity A then _ else _).
  assert (H : forall l A, a_lru A = l -> let A' := a_evict l A in a_lru A' = [] \/ a_usage A' <= a_capacity A'); [|by apply H].
  clear. intros l. induction l as [|e l IH]; intros A E; cbn [a_evict]; [by left|].
  destruct (Z.ltb_spec (a_capacity A) (a_usage A)) as [Hlt|Hge]; [|by right]. apply IH. by apply drop_first.
Qed.

(** C18: the cache refines its reference.  For every run of operations by a
    client that releases only handles it holds, no assertion fails and no freed
    or unset memory is read; every operation returns what it returns on the
    reference, a cache of three lists that drops the least recently used of the
    entries that nobody holds; the total charge and the deleter calls agree, in
    order; a held handle has its value; the deleter calls made and the entries
    left are together exactly the insertions, so no value is deleted twice or
    lost; and no other handle is in memory. *)
Theorem sharded_cache_refines (capacity : Z) (ops : list (CacheOp V D)) :
  ops_allowed ops (As_new capacity) -> zlen ops < 2 ^ 31 ->
  exists c', cache_run ops (ShardedLRUCache_new capacity) = Some ((a_run ops (As_new capacity)).1, c') /\
    forall i A, (a_run ops (As_new capacity)).2 !! i = Some A ->
      exists s, shard_ c' !! i = Some s /\ deleted_ s = a_deleted A /\ TotalCharge s = a_usage A /\
        (forall e, e ∈ held A -> Sharded_Value (i, ae_id e) c' = Some (ae_value e)) /\
        a_deleted A ++ map deletion (entries A) ≡ₚ insertions i ops /\
        (forall a, is_Some (hp_handles (heap_ s) !! a) <-> a ∈ map ae_id (entries A)).
Proof.
  intros Ha Hl. destruct (cache_run_rel ops 0 _ _ (sharded_new_rel capacity) ltac:(done) Hl Ha) as (c' & E & [S1 S2 S3 S4]).
  exists c'. split; [done|]. intros i A HA. destruct (Forall2_lookup_r _ _ _ _ _ S1 HA) as (s & Es & (T & HR & _)). exists s.
  split; [done|]. split; [apply (rl_deleted _ _ _ _ HR)|]. split; [apply (rl_usage _ _ _ _ HR)|]. pose proof (rl_heap _ _ _ _ HR) as Hh. split; [|split].
  - intros e He. unfold Sharded_Value. cbn [fst snd]. rewrite Es. cbn [mbind option_bind]. unfold held in He. apply elem_of_app in He as [He|He].
    + rewrite (handle_cached _ _ _ _ e Hh) by (apply elem_of_app; by right). done.
    + rewrite (handle_out _ _ _ _ e Hh He). done.
  - assert (Hi : (i < kNumShards)%nat) by (rewrite <- S2; by eapply lookup_lt_Some).
    destruct (run_deletions ops (As_new capacity) i (ACache_new (per_shard capacity))) as (A' & HA' & HP); [by apply lookup_replicate_2|].
    assert (A' = A) as -> by congruence. exact HP.
  - intros a. rewrite (hr_handles _ _ _ _ Hh). unfold entries. rewrite <- handles_of_fst. split.
    + intros [h Hx]. apply elem_of_list_to_map_2 in Hx. by apply (list_elem_of_fmap_2 fst _ (a, h)).
    + intros Hx. apply not_eq_None_Some. intros Hn. by apply not_elem_of_list_to_map in Hn.
Qed.
End ShardedRel.

(** A cache with room for one entry in each shard. *)
Definition example_ops : list (CacheOp Z Z) :=
  let h := (Shard (HashSlice (cstr "k")), 3) in
  [OpInsert (cstr "k") 10 1 0; OpRelease h; OpInsert (cstr "k") 20 1 0; OpLookup (cstr "k"); OpErase (cstr "k"); OpLookup (cstr "k")].

Lemma sharded_cache_refines_witness :
  exists c', cache_run example_ops (ShardedLRUCache_new 16) = Some ([Some (Shard (HashSlice (cstr "k")), 3); None;
    Some (Shard (HashSlice (cstr "k")), 4); Some (Shard (HashSlice (cstr "k")), 4); None; None], c').
Proof.
  destruct (sharded_cache_refines 16 example_ops) as (c' & E & _).
  - vm_compute. repeat split. eexists. split; [reflexivity|]. by left.
  - reflexivity.
  - exists c'. exact E.
Defined.
