(* ===== verification/VersionSet.v ===== *)
(** * db/version_set: the set of versions and its manifest

    Models class [VersionSet] of src/db/version_set.h and src/db/version_set.cc:
    the list of live versions with their reference counts, file numbers,
    [LogAndApply] with [WriteSnapshot], [Recover] with [ReuseManifest], and
    [ReadFileToString] of src/util/env.cc.  [None] is a failed assertion, or too
    little fuel for a file that does not end. *)

From stdpp Require Import gmap.
From S2P Require Import Prelude Coding Comparator Crc32c DbFormat Status Filename LogWriter LogReader LogReplay VersionEdit Options Version Compaction VersionBuilder.

(** ** [ReadFileToString] *)

Section ReadFile.
Context {E F : Type} {SF : SequentialFile F} {NS : SequentialFiles E F}.

Definition kBufferSize : Z := 8192.

Fixpoint read_fragments (fuel : nat) (file : F) (data : bytes) : option (Status * bytes) :=
  match fuel with
  | O => None
  | S fuel =>
      let '(s, fragment, file) := seq_Read kBufferSize file in
      if negb (ok s) then Some (s, data)
      else
        let data := data ++ fragment in
        if bool_decide (fragment = []) then Some (s, data) else read_fragments fuel file data
  end.

Definition ReadFileToString (fuel : nat) (env : E) (fname : bytes) : option (Status * bytes) :=
  match NewSequentialFile fname env with
  | inl s => Some (s, [])
  | inr file => read_fragments fuel file []
  end.
End ReadFile.

(** ** The list of versions *)

(** A version in the list; its address tells it from others. *)
Record VNode := mkVNode { vn_addr : Z; vn_refs : Z; vn_version : Version }.

Definition with_vrefs (n : Z) (v : VNode) : VNode := mkVNode (vn_addr v) n (vn_version v).

Section List.
Definition find_version (a : Z) (vs : list VNode) : option VNode := List.find (fun v => vn_addr v =? a) vs.

Definition set_vrefs (a n : Z) (vs : list VNode) : list VNode :=
  map (fun v => if vn_addr v =? a then with_vrefs n v else v) vs.

Definition Version_Ref (a : Z) (vs : list VNode) : option (list VNode) :=
  v ← find_version a vs;
  Some (set_vrefs a (vn_refs v + 1) vs).

(** At zero the version leaves the list. *)
Definition Version_Unref (a : Z) (vs : list VNode) : option (list VNode) :=
  v ← find_version a vs;
  if vn_refs v <? 1 then None
  else if vn_refs v - 1 =? 0 then Some (List.filter (fun v => negb (vn_addr v =? a)) vs)
  else Some (set_vrefs a (vn_refs v - 1) vs).

Definition AddLiveFiles (live : gset Z) (vs : list VNode) : gset Z :=
  fold_left (fun live v =>
    fold_left (fun live level => fold_left (fun live f => {[f_number f]} ∪ live) (level_files (vn_version v) level) live)
      (seq 0 kNumLevels) live) vs live.
End List.

(** ** [VersionSet] *)

Section Set_.
Context `{CS : Checksum} {W F E : Type} {WF : WritableFile W} {SF : SequentialFile F}.
Context {LF : LogFiles E W} {NS : SequentialFiles E F} {AF : AppendableFiles E W} {EF : EnvFiles E}.
Variables (C : Comparator) (comparator_name : bytes) (dbname_ : bytes) (options_ : Options).

Record VersionSet := mkVersionSet {
  vs_env : E;
  vs_next_file_number : Z;
  vs_manifest_file_number : Z;
  vs_last_sequence : Z;
  vs_log_number : Z;
  vs_prev_log_number : Z;
  descriptor_log_ : option (Writer W);
  dummy_versions_ : list VNode;
  current_ : option Z;
  vs_next_addr : Z;
  vs_objects : Objects;
}.

Definition with_vs_env (e : E) (vs : VersionSet) : VersionSet :=
  mkVersionSet e (vs_next_file_number vs) (vs_manifest_file_number vs) (vs_last_sequence vs) (vs_log_number vs) (vs_prev_log_number vs)
    (descriptor_log_ vs) (dummy_versions_ vs) (current_ vs) (vs_next_addr vs) (vs_objects vs).
Definition with_next_file (n : Z) (vs : VersionSet) : VersionSet :=
  mkVersionSet (vs_env vs) n (vs_manifest_file_number vs) (vs_last_sequence vs) (vs_log_number vs) (vs_prev_log_number vs)
    (descriptor_log_ vs) (dummy_versions_ vs) (current_ vs) (vs_next_addr vs) (vs_objects vs).
Definition with_manifest (n : Z) (vs : VersionSet) : VersionSet :=
  mkVersionSet (vs_env vs) (vs_next_file_number vs) n (vs_last_sequence vs) (vs_log_number vs) (vs_prev_log_number vs)
    (descriptor_log_ vs) (dummy_versions_ vs) (current_ vs) (vs_next_addr vs) (vs_objects vs).
Definition with_last_sequence (n : Z) (vs : VersionSet) : VersionSet :=
  mkVersionSet (vs_env vs) (vs_next_file_number vs) (vs_manifest_file_number vs) n (vs_log_number vs) (vs_prev_log_number vs)
    (descriptor_log_ vs) (dummy_versions_ vs) (current_ vs) (vs_next_addr vs) (vs_objects vs).
Definition with_logs (log prev : Z) (vs : VersionSet) : VersionSet :=
  mkVersionSet (vs_env vs) (vs_next_file_number vs) (vs_manifest_file_number vs) (vs_last_sequence vs) log prev
    (descriptor_log_ vs) (dummy_versions_ vs) (current_ vs) (vs_next_addr vs) (vs_objects vs).
Definition with_descriptor (d : option (Writer W)) (vs : VersionSet) : VersionSet :=
  mkVersionSet (vs_env vs) (vs_next_file_number vs) (vs_manifest_file_number vs) (vs_last_sequence vs) (vs_log_number vs) (vs_prev_log_number vs)
    d (dummy_versions_ vs) (current_ vs) (vs_next_addr vs) (vs_objects vs).
Definition with_versions (l : list VNode) (c : option Z) (next : Z) (vs : VersionSet) : VersionSet :=
  mkVersionSet (vs_env vs) (vs_next_file_number vs) (vs_manifest_file_number vs) (vs_last_sequence vs) (vs_log_number vs) (vs_prev_log_number vs)
    (descriptor_log_ vs) l c next (vs_objects vs).
Definition with_objects (o : Objects) (vs : VersionSet) : VersionSet :=
  mkVersionSet (vs_env vs) (vs_next_file_number vs) (vs_manifest_file_number vs) (vs_last_sequence vs) (vs_log_number vs) (vs_prev_log_number vs)
    (descriptor_log_ vs) (dummy_versions_ vs) (current_ vs) (vs_next_addr vs) o.

(** [*current_] *)
Definition current (vs : VersionSet) : option Version := a ← current_ vs; vn_version <$> find_version a (dummy_versions_ vs).

(** The new version is at a new address; its reference count is 1 after [Ref]. *)
Definition AppendVersion (v : Version) (vs : VersionSet) : option VersionSet :=
  l ← (match current_ vs with Some a => Version_Unref a (dummy_versions_ vs) | None => Some (dummy_versions_ vs) end);
  Some (with_versions (l ++ [mkVNode (vs_next_addr vs) 1 v]) (Some (vs_next_addr vs)) (vs_next_addr vs + 1) vs).

Definition VersionSet_new (env : E) : option VersionSet :=
  AppendVersion Version_new
    (mkVersionSet env 2 0 0 0 0 None [] None 0 (mkObjects (replicate kNumLevels []) 0 ∅)).

Definition NewFileNumber (vs : VersionSet) : Z * VersionSet := (vs_next_file_number vs, with_next_file (u64 (vs_next_file_number vs + 1)) vs).

Definition ReuseFileNumber (file_number : Z) (vs : VersionSet) : VersionSet :=
  if vs_next_file_number vs =? u64 (file_number + 1) then with_next_file file_number vs else vs.

Definition vs_SetLastSequence (s : Z) (vs : VersionSet) : option VersionSet :=
  if vs_last_sequence vs <=? s then Some (with_last_sequence s vs) else None.

Definition MarkFileNumberUsed (number : Z) (vs : VersionSet) : VersionSet :=
  if vs_next_file_number vs <=? number then with_next_file (u64 (number + 1)) vs else vs.

(** ** [LogAndApply] *)

Definition snapshot_pointers (pointers : list bytes) (edit : VersionEdit) : VersionEdit :=
  fold_left (fun edit level =>
    match pointers !! level with
    | Some (b :: p) => SetCompactPointer edit (Z.of_nat level) (b :: p)
    | _ => edit
    end) (seq 0 kNumLevels) edit.

Definition snapshot_files (v : Version) (edit : VersionEdit) : VersionEdit :=
  fold_left (fun edit level =>
    fold_left (fun edit f => AddFile edit (Z.of_nat level) (f_number f) (f_size f) (f_smallest f) (f_largest f)) (level_files v level) edit)
    (seq 0 kNumLevels) edit.

Definition snapshot_edit (v : Version) (o : Objects) : VersionEdit :=
  snapshot_files v (snapshot_pointers (o_compact_pointer o) (SetComparatorName Clear comparator_name)).

Definition WriteSnapshot (log : Writer W) (vs : VersionSet) : option (Status * Writer W) :=
  v ← current vs;
  Some (AddRecord log (EncodeTo (snapshot_edit v (vs_objects vs)) [])).

(** The first step: the edit is completed. *)
Definition complete_edit (edit : VersionEdit) (vs : VersionSet) : option VersionEdit :=
  edit ← (if has_log_number_ edit
          then if (vs_log_number vs <=? log_number_ edit) && (log_number_ edit <? vs_next_file_number vs) then Some edit else None
          else Some (SetLogNumber edit (vs_log_number vs)));
  let edit := if has_prev_log_number_ edit then edit else SetPrevLogNumber edit (vs_prev_log_number vs) in
  Some (SetLastSequence (SetNextFile edit (vs_next_file_number vs)) (vs_last_sequence vs)).

(** The second: the new version. *)
Definition build_version (edit : VersionEdit) (vs : VersionSet) : option (Version * VersionSet) :=
  base ← current vs;
  '(b, o) ← Apply C edit (Builder_new base) (vs_objects vs);
  v ← SaveTo C b;
  Some (Finalize v, with_objects o vs).

(** A new descriptor with a snapshot, if there is none: the status, the name of
    the new manifest ([[]] if there is none), and the state. *)
Definition open_descriptor (vs : VersionSet) : option (Status * bytes * VersionSet) :=
  match descriptor_log_ vs with
  | Some _ => Some (OK, [], vs)
  | None =>
      let new_manifest_file := DescriptorFileName dbname_ (vs_manifest_file_number vs) in
      let '(r, env) := NewWritableFile new_manifest_file (vs_env vs) in
      let vs := with_vs_env env vs in
      match r with
      | inl s => Some (s, new_manifest_file, vs)
      | inr file =>
          '(s, log) ← WriteSnapshot (Writer_new file) vs;
          Some (s, new_manifest_file, with_descriptor (Some log) vs)
      end
  end.

(** The third step: the record and [Sync], then [CURRENT] for a new manifest. *)
Definition write_edit (edit : VersionEdit) (new_manifest_file : bytes) (vs : VersionSet) : option (Status * VersionSet) :=
  log ← descriptor_log_ vs;
  let '(s, log) := AddRecord log (EncodeTo edit []) in
  let '(s, log) :=
    if ok s then let '(s, d) := wf_Sync (dest_ log) in (s, mkWriter d (block_offset_ log) (type_crc_ log)) else (s, log) in
  let vs := with_descriptor (Some log) vs in
  if ok s && negb (bool_decide (new_manifest_file = [])) then
    let '(s, env) := SetCurrentFile (vs_env vs) dbname_ (vs_manifest_file_number vs) in
    Some (s, with_vs_env env vs)
  else Some (s, vs).

(** Up to where the mutex is released: the completed edit, the new version, the
    status, the name of the new manifest, and the state. *)
Definition LogAndApply_begin (edit : VersionEdit) (vs : VersionSet) : option (VersionEdit * Version * Status * bytes * VersionSet) :=
  edit ← complete_edit edit vs;
  '(v, vs) ← build_version edit vs;
  '(s, new_manifest_file, vs) ← open_descriptor vs;
  Some (edit, v, s, new_manifest_file, vs).

(** From there: the writing, and installing the version or cleaning up. *)
Definition LogAndApply_end (edit : VersionEdit) (v : Version) (s : Status) (new_manifest_file : bytes) (vs : VersionSet) : option (Status * VersionEdit * VersionSet) :=
  '(s, vs) ← (if ok s then write_edit edit new_manifest_file vs else Some (s, vs));
  if ok s then
    vs ← AppendVersion v vs;
    Some (s, edit, with_logs (log_number_ edit) (prev_log_number_ edit) vs)
  else
    if bool_decide (new_manifest_file = []) then Some (s, edit, vs)
    else Some (s, edit, with_vs_env (Filename.RemoveFile (vs_env vs) new_manifest_file).2 (with_descriptor None vs)).

(** The status, the edit as it is after the call, and the state, when nobody else
    does anything meanwhile. *)
Definition LogAndApply (edit : VersionEdit) (vs : VersionSet) : option (Status * VersionEdit * VersionSet) :=
  '(edit, v, s, new_manifest_file, vs) ← LogAndApply_begin edit vs;
  LogAndApply_end edit v s new_manifest_file vs.

(** ** [Recover] *)

(** The variables of the loop over the manifest's records. *)
Record RecoverState := mkRecover {
  rs_status : Status;
  rs_log_number : option Z;
  rs_prev_log_number : option Z;
  rs_next_file : option Z;
  rs_last_sequence : option Z;
  rs_builder : Builder;
  rs_objects : Objects;
}.

Definition with_rs_status (s : Status) (rs : RecoverState) : RecoverState :=
  mkRecover s (rs_log_number rs) (rs_prev_log_number rs) (rs_next_file rs) (rs_last_sequence rs) (rs_builder rs) (rs_objects rs).

(** A number an edit sets. *)
Definition or_set (has : bool) (v : Z) (old : option Z) : option Z := if has then Some v else old.

Definition recover_record (record : bytes) (rs : RecoverState) : option (bool * RecoverState) :=
  let '(s, edit) := DecodeFrom record in
  let s :=
    if ok s && has_comparator_ edit && negb (bool_decide (comparator_ edit = comparator_name))
    then InvalidArgument (comparator_ edit ++ cstr " does not match existing comparator ") comparator_name else s in
  '(b, o) ← (if ok s then Apply C edit (rs_builder rs) (rs_objects rs) else Some (rs_builder rs, rs_objects rs));
  Some (true, mkRecover s (or_set (has_log_number_ edit) (log_number_ edit) (rs_log_number rs))
    (or_set (has_prev_log_number_ edit) (prev_log_number_ edit) (rs_prev_log_number rs))
    (or_set (has_next_file_number_ edit) (next_file_number_ edit) (rs_next_file rs))
    (or_set (has_last_sequence_ edit) (last_sequence_ edit) (rs_last_sequence rs)) b o).

Definition ReuseManifest (dscname dscbase : bytes) (vs : VersionSet) : bool * VersionSet :=
  if negb (reuse_logs options_) then (false, vs)
  else
    match ParseFileName dscbase with
    | Some (manifest_number, kDescriptorFile) =>
        match GetFileSize dscname (vs_env vs) with
        | inl _ => (false, vs)
        | inr manifest_size =>
            if TargetFileSize options_ <=? manifest_size then (false, vs)
            else
              let '(r, env) := NewAppendableFile dscname (vs_env vs) in
              let vs := with_vs_env env vs in
              match r with
              | inl _ => (false, vs)
              | inr file => (true, with_manifest manifest_number (with_descriptor (Some (Writer_new_at file manifest_size)) vs))
              end
        end
    | _ => (false, vs)
    end.

(** What follows the loop: the missing numbers, and the new version. *)
Definition recover_end (dscname dscbase : bytes) (rs : RecoverState) (vs : VersionSet) : option (Status * bool * VersionSet) :=
  let vs := with_objects (rs_objects rs) vs in
  if negb (ok (rs_status rs)) then Some (rs_status rs, false, vs)
  else
    let s :=
      match rs_next_file rs, rs_log_number rs, rs_last_sequence rs with
      | None, _, _ => Corruption (cstr "no meta-nextfile entry in descriptor") []
      | _, None, _ => Corruption (cstr "no meta-lognumber entry in descriptor") []
      | _, _, None => Corruption (cstr "no last-sequence-number entry in descriptor") []
      | _, _, _ => OK
      end in
    let vs := MarkFileNumberUsed (default 0 (rs_log_number rs)) (MarkFileNumberUsed (default 0 (rs_prev_log_number rs)) vs) in
    if ok s then
      v ← SaveTo C (rs_builder rs);
      vs ← AppendVersion (Finalize v) vs;
      let next_file := default 0 (rs_next_file rs) in
      let vs := with_logs (default 0 (rs_log_number rs)) (default 0 (rs_prev_log_number rs))
                  (with_last_sequence (default 0 (rs_last_sequence rs)) (with_next_file (u64 (next_file + 1)) (with_manifest next_file vs))) in
      let '(reused, vs) := ReuseManifest dscname dscbase vs in
      Some (s, negb reused, vs)
    else Some (s, false, vs).

(** The status, whether [*save_manifest] was set, and the state. *)
Definition Recover (fuel : nat) (vs : VersionSet) : option (Status * bool * VersionSet) :=
  '(s, name) ← ReadFileToString fuel (vs_env vs) (CurrentFileName dbname_);
  if negb (ok s) then Some (s, false, vs)
  else if negb (bool_decide (last name = Some x0a)) then Some (Corruption (cstr "CURRENT file does not end with newline") [], false, vs)
  else
    let name := removelast name in
    let dscname := dbname_ ++ cstr "/" ++ name in
    match NewSequentialFile dscname (vs_env vs) with
    | inl s =>
        Some ((if IsNotFound s then Corruption (cstr "CURRENT points to a non-existent file") (Status_ToString s) else s), false, vs)
    | inr file =>
        base ← current vs;
        let rs := mkRecover OK None None None None (Builder_new base) (vs_objects vs) in
        rs ← record_loop rs_status with_rs_status recover_record fuel fuel (Reader_new file (Some []) true 0) rs;
        recover_end dscname name rs vs
    end.
End Set_.

Arguments VersionSet : clear implicits.
