(* ===== verification/Manifest.v ===== *)
(** * The manifest records the versions

    What [LogAndApply] writes is what [Recover] reads, also after a crash that
    cuts the manifest short: sessions of a [VersionSet] as a step relation, the
    invariant that ties its current version to the records of its manifest, and
    the recovery of a state that is at least as new as the last one whose
    [LogAndApply] returned [OK]. *)

From Stdlib Require Import Sorted.
From stdpp Require Import gmap.
From S2P Require Import Prelude Coding Comparator Crc32c DbFormat Status Filename LogWriter LogReader LogReplay VersionEdit Options Version VersionGet Compaction VersionBuilder VersionSet.

(** ** Edits and the tables they leave *)

#[local] Notation table_id := (Z * Z * bytes * bytes)%type.

Lemma apply_ref_elem lvl (S : list table_id) e i :
  i ∈ apply_ref lvl S e <-> (i ∈ S /\ id_number i ∉ edit_dels lvl e) \/ i ∈ map file_id (edit_adds lvl e).
Proof.
  unfold apply_ref. rewrite elem_of_app, list_elem_of_In, filter_In, negb_true_iff, bool_decide_eq_false. by rewrite <- list_elem_of_In.
Qed.

Lemma apply_ref_ext lvl (S S' : list table_id) e : (forall i, i ∈ S <-> i ∈ S') -> forall i, i ∈ apply_ref lvl S e <-> i ∈ apply_ref lvl S' e.
Proof. intros H i. by rewrite !apply_ref_elem, H. Qed.

Lemma apply_ref_fold_ext lvl es (S S' : list table_id) : (forall i, i ∈ S <-> i ∈ S') ->
  forall i, i ∈ fold_left (apply_ref lvl) es S <-> i ∈ fold_left (apply_ref lvl) es S'.
Proof. revert S S'. induction es as [|e es IH]; intros S S' H; [done|]. cbn. apply IH. by apply apply_ref_ext. Qed.

Section Disjoint.
Context {C : Comparator}.

Lemma ids_disjoint_ext (S S' : list table_id) : (forall i, i ∈ S <-> i ∈ S') -> ids_disjoint (C := C) S -> ids_disjoint (C := C) S'.
Proof. intros H Hd i j Hi Hj. apply Hd; by apply H. Qed.

(** The numbers of the tables that edits leave. *)
Lemma edits_numbers lvl es (S : list table_id) (used : list Z) :
  NoDup (used ++ concat (map (fun e => map number (edit_adds lvl e)) es)) ->
  (forall i, i ∈ S -> id_number i ∈ used) -> (forall i j, i ∈ S -> j ∈ S -> id_number i = id_number j -> i = j) ->
  let S' := fold_left (apply_ref lvl) es S in
  (forall i, i ∈ S' -> id_number i ∈ used ++ concat (map (fun e => map number (edit_adds lvl e)) es)) /\
  (forall i j, i ∈ S' -> j ∈ S' -> id_number i = id_number j -> i = j).
Proof.
  revert S used. induction es as [|e es IH]; intros S used Hn Hu Hi; cbn [map concat fold_left] in *; [by rewrite app_nil_r|].
  rewrite app_assoc in *. apply (IH _ (used ++ map number (edit_adds lvl e))); [done|..].
  - intros i [[Hi1 _]|(m & -> & Hm)%list_elem_of_fmap]%apply_ref_elem; [apply elem_of_app; left; by apply Hu|].
    apply elem_of_app. right. by apply (list_elem_of_fmap_2 number).
  - apply NoDup_app in Hn as [Hn _]. apply NoDup_app in Hn as (_ & Hdis & Hnd).
    assert (Hadd : forall a b, a ∈ edit_adds lvl e -> b ∈ edit_adds lvl e -> number a = number b -> a = b).
    { intros a b Ha Hb Hab. apply list_elem_of_lookup in Ha as [x Ha], Hb as [y Hb].
      assert (x = y) as ->; [|congruence]. eapply NoDup_lookup; [exact Hnd|..]; rewrite list_lookup_fmap; [by rewrite Ha|rewrite Hb; cbn; congruence]. }
    intros i j [[Hi1 _]|(m & -> & Hm)%list_elem_of_fmap]%apply_ref_elem [[Hj1 _]|(m' & -> & Hm')%list_elem_of_fmap]%apply_ref_elem Hij.
    + by apply Hi.
    + exfalso. apply (Hdis (id_number i)); [by apply Hu|]. rewrite Hij. by apply (list_elem_of_fmap_2 number).
    + exfalso. apply (Hdis (id_number j)); [by apply Hu|]. rewrite <- Hij. by apply (list_elem_of_fmap_2 number).
    + f_equal. by apply Hadd.
Qed.
End Disjoint.

Lemma sorted_numbers {C : Comparator} {L : ComparatorLaws C} files :
  set_sorted (C := C) files ->
  (forall i j, i ∈ map (fun f => file_id (f_meta f)) files -> j ∈ map (fun f => file_id (f_meta f)) files -> id_number i = id_number j -> i = j) ->
  NoDup (map f_number files).
Proof.
  intros Hs. induction Hs as [|f files Hs IH Hf]; intros Hi; cbn; constructor.
  - intros (g & Hg & Hin)%list_elem_of_fmap. rewrite Forall_forall in Hf. specialize (Hf g Hin).
    assert (E : file_id (f_meta f) = file_id (f_meta g)).
    { apply Hi; [by left|right; by apply (list_elem_of_fmap_2 (fun f => file_id (f_meta f)))|exact Hg]. }
    injection E as E1 _ E3 _. apply (BySmallestKey_irrefl (C := C) f). unfold BySmallestKey, f_smallest, f_number in *. rewrite <- E3 in Hf at 1. by rewrite <- E1 in Hf.
  - apply IH. intros i j Hi1 Hj. apply Hi; by right.
Qed.

(** ** Compact pointers *)

Definition objects_ok (o : Objects) : Prop := Forall (fun p => zlen p < 2 ^ 32) (o_compact_pointer o).

Lemma foldM_inv {A B} (P : A -> Prop) (g : A -> B -> option A) l a a' :
  foldM g l a = Some a' -> P a -> (forall x a a', x ∈ l -> g a x = Some a' -> P a -> P a') -> P a'.
Proof.
  revert a. induction l as [|x l IH]; intros a E Ha Hg; cbn [foldM] in E; [congruence|].
  destruct (g a x) as [a1|] eqn:E1; [|done]. cbn [mbind option_bind] in E. apply (IH a1 E); [apply (Hg x a); [by left|done..]|].
  intros y b b' Hy. apply Hg. by right.
Qed.

Lemma Apply_objects C e b o b' o' :
  Apply C e b o = Some (b', o') -> edit_ok e -> objects_ok o -> objects_ok o'.
Proof.
  intros E He Ho. unfold Apply in E. destruct (foldM apply_pointer _ o) as [o1|] eqn:E1; [|done]. cbn [mbind option_bind] in E.
  destruct (foldM apply_deleted _ b) as [b1|]; [|done]. cbn [mbind option_bind] in E.
  assert (H1 : objects_ok o1).
  { apply (foldM_inv _ _ _ _ _ E1 Ho). intros p a a' Hp Ea Ha. unfold apply_pointer in Ea. destruct (level_index p.1); [|done]. injection Ea as <-.
    unfold objects_ok. cbn. apply Forall_insert; [exact Ha|]. apply (proj1 (Forall_forall _ _) (ok_pointers _ He) p Hp). }
  apply (foldM_inv (fun bo => objects_ok bo.2) _ _ _ _ E H1). intros p [b2 o2] [b3 o3] _ Ea Ha. unfold apply_new in Ea.
  destruct (update_level _ _ _); [|done]. by injection Ea as _ <-.
Qed.

(** ** The snapshot *)

Definition files_fit (v : Version) : Prop := forall lvl f, (lvl < kNumLevels)%nat -> f ∈ level_files v lvl ->
  0 <= f_number f < 2 ^ 64 /\ 0 <= f_size f < 2 ^ 64 /\ f_smallest f <> [] /\ zlen (f_smallest f) < 2 ^ 32 /\ f_largest f <> [] /\ zlen (f_largest f) < 2 ^ 32.

(** An edit that only adds to the lists, and its tables. *)
Lemma snapshot_pointers_spec pointers edit :
  Forall (fun p => zlen p < 2 ^ 32) pointers -> edit_ok edit ->
  edit_ok (snapshot_pointers pointers edit) /\ new_files_ (snapshot_pointers pointers edit) = new_files_ edit /\
  deleted_files_ (snapshot_pointers pointers edit) = deleted_files_ edit /\ has_comparator_ (snapshot_pointers pointers edit) = has_comparator_ edit /\
  comparator_ (snapshot_pointers pointers edit) = comparator_ edit.
Proof.
  intros Hp. unfold snapshot_pointers. assert (Hl : Forall (fun l => l < kNumLevels)%nat (seq 0 kNumLevels)).
  { apply Forall_forall. intros l Hl%elem_of_seq. lia. }
  revert edit Hl. generalize (seq 0 kNumLevels). intros ls. induction ls as [|l ls IH]; intros edit Hl He; [done|].
  apply Forall_cons in Hl as [Hl1 Hl]. cbn [fold_left]. destruct (pointers !! l) as [[|b p]|] eqn:El; [by apply IH| |by apply IH].
  destruct (IH (SetCompactPointer edit (Z.of_nat l) (b :: p)) Hl) as (H1 & H2 & H3 & H4 & H5); [|done].
  apply SetCompactPointer_ok; [unfold level_ok; lia|done| |done]. apply (proj1 (Forall_lookup _ _) Hp l _ El).
Qed.

Definition level_adds (level : nat) (files : list FilePtr) : list (Z * FileMetaData) :=
  map (fun f => (Z.of_nat level, FileMetaData_new (f_number f) (f_size f) (f_smallest f) (f_largest f))) files.

Definition add_files (edit : VersionEdit) (adds : list (Z * FileMetaData)) : VersionEdit :=
  fold_left (fun e p => push_file e p.1 p.2) adds edit.

Lemma add_files_app edit a b : add_files edit (a ++ b) = add_files (add_files edit a) b.
Proof. apply fold_left_app. Qed.

Lemma add_files_spec adds edit :
  Forall (fun p => level_ok p.1 /\ VersionEdit.file_ok p.2) adds -> edit_ok edit ->
  edit_ok (add_files edit adds) /\ new_files_ (add_files edit adds) = new_files_ edit ++ adds /\
  deleted_files_ (add_files edit adds) = deleted_files_ edit /\ has_comparator_ (add_files edit adds) = has_comparator_ edit /\
  comparator_ (add_files edit adds) = comparator_ edit.
Proof.
  revert edit. induction adds as [|p adds IH]; intros edit Hf He; [by rewrite app_nil_r|]. apply Forall_cons in Hf as [[Hl Hp] Hf].
  cbn [add_files fold_left]. destruct (IH (push_file edit p.1 p.2) Hf) as (H1 & H2 & H3 & H4 & H5); [by apply push_file_ok|].
  split; [exact H1|]. split; [|done]. etransitivity; [exact H2|]. cbn. rewrite <- app_assoc. by destruct p.
Qed.

Lemma snapshot_files_adds v edit : snapshot_files v edit = add_files edit (concat (map (fun l => level_adds l (level_files v l)) (seq 0 kNumLevels))).
Proof.
  unfold snapshot_files. revert edit. generalize (seq 0 kNumLevels). intros ls. induction ls as [|l ls IH]; intros edit; [done|].
  cbn [fold_left map concat]. rewrite add_files_app, IH. f_equal. unfold level_adds, add_files. generalize (level_files v l). intros fs.
  revert edit. induction fs as [|f fs IHf]; intros edit; [done|]. cbn [map fold_left]. by rewrite IHf.
Qed.

Lemma filter_concat {A} (g : A -> bool) ls : List.filter g (concat ls) = concat (map (List.filter g) ls).
Proof. induction ls as [|l ls IH]; [done|]. cbn. by rewrite List.filter_app, IH. Qed.

Lemma level_adds_filter lvl l files :
  List.filter (fun p : Z * FileMetaData => p.1 =? Z.of_nat lvl) (level_adds l files) = if (l =? lvl)%nat then level_adds l files else [].
Proof.
  unfold level_adds. induction files as [|f files IH]; [by destruct (l =? lvl)%nat|]. cbn [map List.filter fst]. rewrite IH.
  destruct (Nat.eqb_spec l lvl) as [->|Hne]; [by rewrite Z.eqb_refl|]. by rewrite (proj2 (Z.eqb_neq _ _)) by lia.
Qed.

Lemma concat_at {A} (g : nat -> list A) lvl n o :
  concat (map (fun l => if (l =? lvl)%nat then g l else []) (seq o n)) = if ((o <=? lvl) && (lvl <? o + n))%nat then g lvl else [].
Proof.
  revert o. induction n as [|n IH]; intros o; cbn [seq map concat].
  - destruct (Nat.leb_spec o lvl), (Nat.ltb_spec lvl (o + 0)); cbn; try done; lia.
  - rewrite IH. destruct (Nat.eqb_spec o lvl) as [->|Hne].
    + rewrite (proj2 (Nat.leb_gt (S lvl) lvl)), (proj2 (Nat.leb_le lvl lvl)), (proj2 (Nat.ltb_lt lvl (lvl + S n))) by lia. cbn. apply app_nil_r.
    + cbn [app]. destruct (Nat.leb_spec (S o) lvl), (Nat.leb_spec o lvl), (Nat.ltb_spec lvl (S o + n)), (Nat.ltb_spec lvl (o + S n)); cbn; try done; lia.
Qed.

Lemma snapshot_edit_spec name v o :
  files_fit v -> objects_ok o -> zlen name < 2 ^ 32 ->
  edit_ok (snapshot_edit name v o) /\ comparator_ (snapshot_edit name v o) = name /\
  forall lvl, (lvl < kNumLevels)%nat -> edit_dels lvl (snapshot_edit name v o) = [] /\
    map number (edit_adds lvl (snapshot_edit name v o)) = map f_number (level_files v lvl) /\
    apply_ref lvl [] (snapshot_edit name v o) = level_ids v lvl.
Proof.
  intros Hv Ho Hn. unfold snapshot_edit. rewrite snapshot_files_adds.
  destruct (snapshot_pointers_spec (o_compact_pointer o) (SetComparatorName Clear name) Ho (SetComparatorName_ok _ _ Hn Clear_ok)) as (P1 & P2 & P3 & P4 & P5).
  set (e0 := snapshot_pointers _ _) in *. set (adds := concat _).
  assert (Hadds : Forall (fun p => level_ok p.1 /\ VersionEdit.file_ok p.2) adds).
  { apply Forall_forall. intros p Hp. unfold adds in Hp. apply list_elem_of_In, in_concat in Hp as (ps & Hps & Hp). apply in_map_iff in Hps as (l & <- & Hl%in_seq).
    apply in_map_iff in Hp as (f & <- & Hf%list_elem_of_In). split; [unfold level_ok; cbn; lia|]. destruct (Hv l f ltac:(lia) Hf) as (? & ? & ? & ? & ? & ?). done. }
  destruct (add_files_spec adds e0 Hadds P1) as (A1 & A2 & A3 & A4 & A5). split; [exact A1|]. split; [by rewrite A5, P5|].
  intros lvl Hlvl. assert (Eadds : List.filter (fun p : Z * FileMetaData => p.1 =? Z.of_nat lvl) adds = level_adds lvl (level_files v lvl)).
  { unfold adds. rewrite filter_concat, map_map. rewrite (map_ext _ (fun l => if (l =? lvl)%nat then level_adds l (level_files v l) else [])) by (intros l; apply level_adds_filter).
    rewrite (concat_at (fun l => level_adds l (level_files v l))). cbn [Nat.leb andb]. by rewrite (proj2 (Nat.ltb_lt lvl (0 + kNumLevels))) by lia. }
  assert (Ea : edit_adds lvl (add_files e0 adds) = map snd (level_adds lvl (level_files v lvl))).
  { unfold edit_adds. rewrite A2, P2. cbn [SetComparatorName Clear new_files_ app]. by rewrite Eadds. }
  split; [unfold edit_dels; by rewrite A3, P3|]. unfold apply_ref. rewrite Ea. unfold level_adds. rewrite !map_map. split; [by apply map_ext|].
  cbn [List.filter app]. unfold level_ids. apply map_ext. by intros f.
Qed.

(** ** One call of [LogAndApply] *)

(** All numbers of the set are in range. *)
Definition in_u64 (n : Z) : Prop := 0 <= n < 2 ^ 64.

Section Steps.
Context `{CS : Checksum} {W F E : Type} {WF : WritableFile W} {SF : SequentialFile F}.
Context {LF : LogFiles E W} {NS : SequentialFiles E F} {AF : AppendableFiles E W} {EF : EnvFiles E} {EFL : EnvFilesLaws E}.
Context (wf_contents : W -> bytes) {WL : WritableFileLaws WF wf_contents} (seq_rest : F -> bytes) {SL : SequentialFileLaws SF seq_rest}.
Context (C : Comparator) {L : ComparatorLaws C} (name : bytes) (dbname : bytes) (options : Options).
Implicit Types (vs : VersionSet W E) (v : Version) (e edit : VersionEdit).

(** The edit sets every number, as [LogAndApply] makes it, and fits the
    comparator. *)
Definition complete e : Prop :=
  edit_ok e /\ has_log_number_ e = true /\ has_prev_log_number_ e = true /\ has_next_file_number_ e = true /\ has_last_sequence_ e = true /\
  (has_comparator_ e = true -> comparator_ e = name).

Definition numbers_ok vs : Prop :=
  in_u64 (vs_next_file_number vs) /\ in_u64 (vs_last_sequence vs) /\ in_u64 (vs_log_number vs) /\ in_u64 (vs_prev_log_number vs).

Lemma complete_edit_spec edit vs e :
  complete_edit edit vs = Some e -> edit_ok edit -> (has_comparator_ edit = true -> comparator_ edit = name) -> numbers_ok vs ->
  complete e /\ new_files_ e = new_files_ edit /\ deleted_files_ e = deleted_files_ edit /\
  next_file_number_ e = vs_next_file_number vs /\ last_sequence_ e = vs_last_sequence vs.
Proof.
  intros E0 He Hc (N1 & N2 & N3 & N4). unfold complete_edit in E0.
  set (r := if has_log_number_ edit then _ else _) in E0. destruct r as [e1|] eqn:Er; [|done]. cbn [mbind option_bind] in E0.
  assert (H1 : edit_ok e1 /\ has_log_number_ e1 = true /\ has_comparator_ e1 = has_comparator_ edit /\ comparator_ e1 = comparator_ edit /\
    new_files_ e1 = new_files_ edit /\ deleted_files_ e1 = deleted_files_ edit).
  { unfold r in Er. destruct (has_log_number_ edit) eqn:Eh; [destruct (_ && _); [|done]|]; injection Er as <-; [done|]. split; [by apply SetLogNumber_ok|done]. }
  destruct H1 as (O1 & L1 & C1 & C2 & F1 & D1).
  set (e2 := if has_prev_log_number_ e1 then e1 else _) in E0.
  assert (H2 : edit_ok e2 /\ has_prev_log_number_ e2 = true /\ has_log_number_ e2 = true /\ has_comparator_ e2 = has_comparator_ edit /\
    comparator_ e2 = comparator_ edit /\ new_files_ e2 = new_files_ edit /\ deleted_files_ e2 = deleted_files_ edit).
  { unfold e2. destruct (has_prev_log_number_ e1) eqn:Eh; [done|]. split; [by apply SetPrevLogNumber_ok|done]. }
  clearbody e2. destruct H2 as (O2 & P2 & L2 & C3 & C4 & F2 & D2). injection E0 as <-.
  split; [|done]. split; [apply SetLastSequence_ok; [done|]; by apply SetNextFile_ok|]. cbn. split; [done|]. split; [done|]. split; [done|]. split; [done|].
  rewrite C3, C4. exact Hc.
Qed.

(** A version with the tables [S] of each level. *)
Definition holds v (S : nat -> list table_id) : Prop :=
  length (files_ v) = kNumLevels /\
  forall lvl, (lvl < kNumLevels)%nat -> set_sorted (C := C) (level_files v lvl) /\ (forall i, i ∈ level_ids v lvl <-> i ∈ S lvl) /\
    ((1 <= lvl)%nat -> files_sorted (C := C) (level_files v lvl)).

Lemma edit_ok_levels e : edit_ok e -> edit_levels_ok e.
Proof.
  intros He. split; [|split].
  - eapply Forall_impl; [exact (ok_pointers _ He)|]. by intros p (? & _).
  - eapply Forall_impl; [exact (ok_deleted _ He)|]. by intros p (? & _).
  - eapply Forall_impl; [exact (ok_new _ He)|]. by intros p (? & _).
Qed.

Lemma Finalize_levels v lvl : level_files (Finalize v) lvl = level_files v lvl.
Proof. unfold Finalize. by destruct (best_score _ _ _ _). Qed.

Lemma Finalize_holds v S : holds v S -> holds (Finalize v) S.
Proof.
  intros [Hl H]. split; [unfold Finalize; by destruct (best_score _ _ _ _)|]. intros lvl Hlvl. unfold level_ids. rewrite Finalize_levels. by apply H.
Qed.

Lemma build_version_spec edit vs v S :
  current vs = Some v -> holds v S -> edit_ok edit -> objects_ok (vs_objects vs) ->
  (forall lvl, NoDup (map f_number (level_files v lvl) ++ map number (edit_adds lvl edit))) ->
  (forall lvl, (1 <= lvl < kNumLevels)%nat -> ids_disjoint (C := C) (apply_ref lvl (S lvl) edit)) ->
  exists v' o', build_version C edit vs = Some (v', with_objects o' vs) /\ holds v' (fun lvl => apply_ref lvl (S lvl) edit) /\ objects_ok o'.
Proof.
  intros Hc [_ Hv] He Ho Hn Hd. unfold build_version. rewrite Hc. cbn [mbind option_bind].
  destruct (Apply_spec (C := C) v edit (Builder_new v) (vs_objects vs) (level_ids v) (fun lvl => map f_number (level_files v lvl)) (edit_ok_levels _ He)) as (b & o' & E1 & Hb).
  { apply Builder_new_inv. } { exact Hn. }
  rewrite E1. cbn [mbind option_bind].
  assert (Hext : forall lvl, (lvl < kNumLevels)%nat -> forall i, i ∈ apply_ref lvl (level_ids v lvl) edit <-> i ∈ apply_ref lvl (S lvl) edit).
  { intros lvl Hl. apply apply_ref_ext. by apply Hv. }
  destruct (SaveTo_spec (C := C) v b _ _ Hb) as (v' & E2 & Hlen & Hv').
  { intros lvl Hl. by apply Hv. }
  { intros lvl Hl. apply (ids_disjoint_ext (apply_ref lvl (S lvl) edit)); [|by apply Hd]. intros i. symmetry. apply Hext. lia. }
  rewrite E2. cbn [mbind option_bind]. exists (Finalize v'), o'. split; [done|]. split; [|by eapply Apply_objects].
  apply Finalize_holds. split; [exact Hlen|]. intros lvl Hl. destruct (Hv' lvl Hl) as (H1 & H2 & H3). split; [exact H1|]. split; [|exact H3].
  intros i. rewrite H2. by apply Hext.
Qed.

(** The list of versions: addresses are distinct, and the last one is current. *)
Record versions_ok vs : Prop := {
  vo_below : Forall (fun n => vn_addr n < vs_next_addr vs) (dummy_versions_ vs);
  vo_refs : Forall (fun n => 1 <= vn_refs n) (dummy_versions_ vs);
  vo_current : exists a n, current_ vs = Some a /\ find_version a (dummy_versions_ vs) = Some n;
}.

Lemma find_version_some a l n : find_version a l = Some n -> n ∈ l /\ vn_addr n = a.
Proof. intros E0. apply List.find_some in E0 as [H1 H2]. split; [by apply list_elem_of_In|]. by apply Z.eqb_eq. Qed.

Lemma find_version_app a l l' : find_version a (l ++ l') = match find_version a l with Some n => Some n | None => find_version a l' end.
Proof. unfold find_version. induction l as [|n l IH]; [done|]. cbn. by destruct (vn_addr n =? a). Qed.

Lemma find_version_none a l : Forall (fun n => vn_addr n <> a) l -> find_version a l = None.
Proof. induction 1 as [|n l Hn _ IH]; [done|]. cbn. by rewrite (proj2 (Z.eqb_neq _ _)). Qed.

Lemma Forall_filtered {A} (P : A -> Prop) g (l : list A) : Forall P l -> Forall P (List.filter g l).
Proof. induction 1 as [|x l Hx _ IH]; [constructor|]. cbn. destruct (g x); [by constructor|done]. Qed.

Lemma set_vrefs_find a n l b : find_version b (set_vrefs a n l) = (if b =? a then with_vrefs n else fun m => m) <$> find_version b l.
Proof.
  unfold find_version, set_vrefs. induction l as [|m l IH]; [done|]. cbn. destruct (Z.eqb_spec (vn_addr m) a) as [Ea|Ea]; cbn.
  - destruct (Z.eqb_spec (vn_addr m) b) as [Eb|Eb]; [|exact IH]. cbn. by rewrite (proj2 (Z.eqb_eq b a)) by congruence.
  - destruct (Z.eqb_spec (vn_addr m) b) as [Eb|Eb]; [|exact IH]. cbn. by rewrite (proj2 (Z.eqb_neq b a)) by congruence.
Qed.

Lemma set_vrefs_Forall (P : VNode -> Prop) a n l :
  Forall P l -> (forall m, P m -> P (with_vrefs n m)) -> Forall P (set_vrefs a n l).
Proof. intros H Hp. unfold set_vrefs. apply Forall_map. eapply Forall_impl; [exact H|]. intros m Hm. cbn. destruct (_ =? a); [by apply Hp|done]. Qed.

(** The new version is current; the old one is gone unless somebody else holds it. *)
Lemma AppendVersion_spec v vs :
  versions_ok vs -> exists vs', AppendVersion v vs = Some vs' /\ versions_ok vs' /\ current vs' = Some v /\ exists l c n, vs' = with_versions l c n vs.
Proof.
  intros [Hb Hr (a & n & Ec & Ef)]. unfold AppendVersion. rewrite Ec. unfold Version_Unref. rewrite Ef. cbn [mbind option_bind].
  destruct (find_version_some _ _ _ Ef) as [Hn Ha]. rewrite Forall_forall in Hr. pose proof (Hr n Hn) as Hr1. rewrite <- Forall_forall in Hr.
  rewrite (proj2 (Z.ltb_ge (vn_refs n) 1)) by lia.
  set (l := if vn_refs n - 1 =? 0 then _ else _).
  assert (Hl : exists l', l = Some l' /\ Forall (fun n => vn_addr n < vs_next_addr vs) l' /\ Forall (fun n => 1 <= vn_refs n) l').
  { unfold l. destruct (Z.eqb_spec (vn_refs n - 1) 0) as [E0|E0]; eexists; (split; [done|]).
    - split; by apply Forall_filtered.
    - split; (apply set_vrefs_Forall; [done|]); [done|]. intros m _. cbn. lia. }
  destruct Hl as (l' & -> & Hb' & Hr'). cbn [mbind option_bind]. eexists. split; [done|].
  assert (Ef' : find_version (vs_next_addr vs) (l' ++ [mkVNode (vs_next_addr vs) 1 v]) = Some (mkVNode (vs_next_addr vs) 1 v)).
  { rewrite find_version_app, find_version_none; [cbn; by rewrite Z.eqb_refl|]. eapply Forall_impl; [exact Hb'|]. cbn. intros m Hm. lia. }
  split; [|split; [unfold current; cbn [with_versions current_ dummy_versions_ mbind option_bind]; by rewrite Ef'|by eexists _, _, _]]. split; cbn.
  - apply Forall_app. split; [|by repeat constructor; cbn; lia]. eapply Forall_impl; [exact Hb'|]. cbn. intros m Hm. lia.
  - apply Forall_app. split; [done|]. by repeat constructor.
  - by eexists _, _.
Qed.

(** ** Sessions *)

(** What others may do between two calls of [LogAndApply]: take file numbers and
    sequence numbers, hold and release versions, and change other files. *)
Record untouched vs vs' : Prop := {
  un_current : current vs' = current vs;
  un_versions : versions_ok vs';
  un_numbers : numbers_ok vs';
  un_logs : vs_log_number vs' = vs_log_number vs /\ vs_prev_log_number vs' = vs_prev_log_number vs;
  un_manifest : vs_manifest_file_number vs' = vs_manifest_file_number vs;
  un_descriptor : descriptor_log_ vs' = descriptor_log_ vs;
  un_objects : vs_objects vs' = vs_objects vs;
  un_CURRENT : contents (vs_env vs') (CurrentFileName dbname) = contents (vs_env vs) (CurrentFileName dbname);
}.

(** What a caller of [LogAndApply] owes: an edit that the manifest can hold, and
    tables that do not overlap above level 0. *)
Record edit_fits edit vs : Prop := {
  ef_ok : edit_ok edit;
  ef_comparator : has_comparator_ edit = true -> comparator_ edit = name;
  ef_disjoint : forall v lvl, current vs = Some v -> (1 <= lvl < kNumLevels)%nat -> ids_disjoint (C := C) (apply_ref lvl (level_ids v lvl) edit);
}.

(** The completed edits of calls that returned [OK]. *)
Inductive session : VersionSet W E -> list VersionEdit -> VersionSet W E -> Prop :=
  | session_nil vs : session vs [] vs
  | session_other vs es vs1 vs2 : session vs es vs1 -> untouched vs1 vs2 -> session vs es vs2
  | session_apply vs es vs1 edit e vs2 :
      session vs es vs1 -> edit_fits edit vs1 -> LogAndApply C name dbname edit vs1 = Some (OK, e, vs2) ->
      session vs (es ++ [e]) vs2.

Definition enc e : bytes := EncodeTo e [].

Record common v0 es vs : Prop := {
  co_versions : versions_ok vs;
  co_numbers : numbers_ok vs;
  co_objects : objects_ok (vs_objects vs);
  co_current : exists v, current vs = Some v /\ holds v (edits_ref v0 es);
  co_complete : Forall complete es;
  co_disjoint : forall k lvl, (1 <= lvl < kNumLevels)%nat -> ids_disjoint (C := C) (edits_ref v0 (take k es) lvl);
  co_last : forall es' e, es = es' ++ [e] -> vs_log_number vs = log_number_ e /\ vs_prev_log_number vs = prev_log_number_ e;
}.

(** The manifest of a session that has started: a snapshot and the edits. *)
Definition started v0 (n : Z) (o : Objects) es vs : Prop :=
  vs_manifest_file_number vs = n /\
  (exists log, descriptor_log_ vs = Some log /\ logged wf_contents log (map enc (snapshot_edit name v0 o :: es))) /\
  exists cur, contents (vs_env vs) (CurrentFileName dbname) = Some (cur ++ [x0a]) /\ dbname ++ cstr "/" ++ cur = DescriptorFileName dbname n.

Definition not_started v0 (n : Z) vs : Prop :=
  vs_manifest_file_number vs = n /\ descriptor_log_ vs = None /\ current vs = Some v0.

Lemma edits_ref_snoc v0 es e lvl : edits_ref v0 (es ++ [e]) lvl = apply_ref lvl (edits_ref v0 es lvl) e.
Proof. unfold edits_ref. by rewrite fold_left_app. Qed.

(** No file number is added twice to a level. *)
Definition numbers_fresh v0 es : Prop :=
  forall lvl, NoDup (map f_number (level_files v0 lvl) ++ concat (map (fun e => map number (edit_adds lvl e)) es)).

Lemma numbers_fresh_prefix v0 es es' : numbers_fresh v0 (es ++ es') -> numbers_fresh v0 es.
Proof. intros H lvl. specialize (H lvl). rewrite map_app, concat_app, app_assoc in H. by apply NoDup_app in H as [? _]. Qed.

Lemma level_files_out v lvl : length (files_ v) = kNumLevels -> ~ (lvl < kNumLevels)%nat -> level_files v lvl = [].
Proof. intros Hl Hlvl. unfold level_files. by rewrite lookup_ge_None_2 by lia. Qed.

Lemma step_numbers v0 es e v lvl :
  numbers_fresh v0 (es ++ [e]) -> holds v (edits_ref v0 es) -> NoDup (map f_number (level_files v lvl) ++ map number (edit_adds lvl e)).
Proof.
  intros Hn [Hlen Hv]. pose proof (Hn lvl) as Hn1. rewrite map_app, concat_app in Hn1. cbn [map concat] in Hn1. rewrite app_nil_r, app_assoc in Hn1.
  apply NoDup_app in Hn1 as (Hn1 & Hdis & Hadd). destruct (decide (lvl < kNumLevels)%nat) as [Hlvl|Hlvl]; [|by rewrite level_files_out].
  destruct (edits_numbers lvl es (level_ids v0 lvl) (map f_number (level_files v0 lvl)) Hn1) as [Hin Hinj].
  { intros i (f & -> & Hf)%list_elem_of_fmap. by apply (list_elem_of_fmap_2 f_number). }
  { apply NoDup_app in Hn1 as (Hn1 & _ & _). intros i j (f & -> & Hf)%list_elem_of_fmap (g & -> & Hg)%list_elem_of_fmap Hij.
    apply list_elem_of_lookup in Hf as [x Hx], Hg as [y Hy]. assert (x = y) as ->; [|congruence].
    eapply NoDup_lookup; [exact Hn1|..]; rewrite list_lookup_fmap; [by rewrite Hx|rewrite Hy; cbn; f_equal; exact (eq_sym Hij)]. }
  destruct (Hv lvl Hlvl) as (Hs & Hids & _). apply NoDup_app. split; [|split; [|done]].
  - apply (sorted_numbers (C := C) _ Hs). intros i j Hi Hj. apply Hinj; by apply Hids.
  - intros n (f & -> & Hf)%list_elem_of_fmap. apply Hdis. apply (Hin (file_id (f_meta f))). apply Hids. by apply (list_elem_of_fmap_2 (fun f => file_id (f_meta f))).
Qed.

(** The parts of a call that returned [OK]. *)
Lemma open_descriptor_parts vs s nm vs' :
  open_descriptor name dbname vs = Some (s, nm, vs') -> exists d env, vs' = with_descriptor d (with_vs_env env vs).
Proof.
  unfold open_descriptor. destruct (descriptor_log_ vs) as [log|] eqn:Ed.
  - intros [= _ _ <-]. exists (Some log), (vs_env vs). destruct vs; cbn in *. by rewrite Ed.
  - destruct (NewWritableFile _ _) as [[s1|file] env].
    + intros [= _ _ <-]. exists None, env. destruct vs; cbn in *. by rewrite Ed.
    + destruct (WriteSnapshot _ _ _) as [[s1 log]|]; [|done]. cbn [mbind option_bind]. intros [= _ _ <-]. by eexists _, _.
Qed.

Lemma write_edit_parts e nm vs s vs' :
  write_edit dbname e nm vs = Some (s, vs') -> exists d env, vs' = with_descriptor d (with_vs_env env vs).
Proof.
  unfold write_edit. destruct (descriptor_log_ vs) as [log|]; [|done]. cbn [mbind option_bind]. destruct (AddRecord log _) as [s1 log1].
  destruct (if ok s1 then _ else _) as [s2 log2]. destruct (ok s2 && _); [|intros [= _ <-]; by eexists _, _].
  destruct (SetCurrentFile _ _ _) as [s3 env3]. intros [= _ <-]. by eexists _, _.
Qed.

Lemma LogAndApply_parts edit vs e vs' :
  LogAndApply C name dbname edit vs = Some (OK, e, vs') ->
  exists v vs1 nm vs2 vs3 vs4, complete_edit edit vs = Some e /\ build_version C e vs = Some (v, vs1) /\
    open_descriptor name dbname vs1 = Some (OK, nm, vs2) /\ write_edit dbname e nm vs2 = Some (OK, vs3) /\
    AppendVersion v vs3 = Some vs4 /\ vs' = with_logs (log_number_ e) (prev_log_number_ e) vs4.
Proof.
  unfold LogAndApply, LogAndApply_begin, LogAndApply_end. destruct (complete_edit edit vs) as [e1|]; [|done]. cbn [mbind option_bind].
  destruct (build_version C e1 vs) as [[v vs1]|] eqn:Eb; [|done]. cbn [mbind option_bind].
  destruct (open_descriptor _ _ vs1) as [[[s nm] vs2]|] eqn:Eo; [|done]. cbn [mbind option_bind].
  destruct (if ok s then _ else _) as [[s' vs3]|] eqn:Ew; [|done]. cbn [mbind option_bind]. destruct s' as [|c m]; cbn [ok].
  - destruct s as [|c m]; cbn [ok] in Ew; [|congruence]. destruct (AppendVersion v vs3) as [vs4|] eqn:Ea; [|done]. cbn [mbind option_bind]. intros [= <- <-].
    by exists v, vs1, nm, vs2, vs3, vs4.
  - by case_bool_decide.
Qed.

Lemma apply_ref_same lvl S e e' : new_files_ e = new_files_ e' -> deleted_files_ e = deleted_files_ e' -> apply_ref lvl S e = apply_ref lvl S e'.
Proof. intros E1 E2. unfold apply_ref, edit_adds, edit_dels. by rewrite E1, E2. Qed.

Lemma common_step v0 es edit vs e vs' :
  common v0 es vs -> numbers_fresh v0 (es ++ [e]) -> edit_fits edit vs -> LogAndApply C name dbname edit vs = Some (OK, e, vs') ->
  common v0 (es ++ [e]) vs'.
Proof.
  intros [C1 C2 C3 (v & Ec & Hv) C5 C6 C7] Hn [F1 F2 F3] E0.
  destruct (LogAndApply_parts _ _ _ _ E0) as (v' & vs1 & nm & vs2 & vs3 & vs4 & P1 & P2 & P3 & P4 & P5 & ->).
  destruct (complete_edit_spec _ _ _ P1 F1 F2 C2) as (Hce & En & Ed & _). pose proof Hce as (Hok & _).
  assert (Hd : forall lvl, (1 <= lvl < kNumLevels)%nat -> ids_disjoint (C := C) (apply_ref lvl (edits_ref v0 es lvl) e)).
  { intros lvl Hl. rewrite (apply_ref_same _ _ e edit En Ed). apply (ids_disjoint_ext (apply_ref lvl (level_ids v lvl) edit)); [|by apply F3].
    apply apply_ref_ext. apply Hv. lia. }
  destruct (build_version_spec e vs v _ Ec Hv Hok C3) as (v1 & o1 & P2' & Hv1 & Ho1); [intros lvl; by apply (step_numbers v0 es)|exact Hd|].
  rewrite P2 in P2'. injection P2' as <- ->.
  destruct (open_descriptor_parts _ _ _ _ P3) as (d1 & env1 & ->). destruct (write_edit_parts _ _ _ _ _ P4) as (d2 & env2 & ->).
  destruct (AppendVersion_spec v' (with_descriptor d2 (with_vs_env env2 (with_descriptor d1 (with_vs_env env1 (with_objects o1 vs)))))) as (vs5 & P5' & V1 & V2 & l & c & a & E5).
  { destruct C1. by split. }
  rewrite P5 in P5'. injection P5' as <-. destruct V1 as [V11 V12 V13]. split.
  - rewrite E5 in *. by split.
  - rewrite E5. destruct C2 as (N1 & N2 & _ & _). split; [exact N1|]. split; [exact N2|]. split; [apply (ok_log _ Hok)|apply (ok_prev_log _ Hok)].
  - rewrite E5. exact Ho1.
  - exists v'. split; [by rewrite E5 in *|]. destruct Hv1 as [Hl Hv1]. split; [exact Hl|]. intros lvl Hlvl. rewrite edits_ref_snoc. by apply Hv1.
  - apply Forall_app. split; [done|]. by apply Forall_singleton.
  - intros k lvl Hl. destruct (decide (k <= length es)%nat).
    + rewrite take_app_le by lia. by apply C6.
    + rewrite take_ge by (rewrite length_app; cbn; lia). rewrite edits_ref_snoc. by apply Hd.
  - intros es' e' (-> & [= ->])%app_inj_tail. by rewrite E5.
Qed.

Lemma common_untouched v0 es vs vs' : common v0 es vs -> untouched vs vs' -> common v0 es vs'.
Proof.
  intros [C1 C2 C3 C4 C5 C6 C7] [U1 U2 U3 [U4 U5] U6 U7 U8 U9]. split; try done; [by rewrite U8|by rewrite U1|].
  intros es' e He. rewrite U4, U5. by eapply C7.
Qed.

(** The edit's record is appended and the manifest synced. *)
Lemma write_edit_log e nm vs vs' log recs :
  write_edit dbname e nm vs = Some (OK, vs') -> descriptor_log_ vs = Some log -> logged wf_contents log recs ->
  exists log', descriptor_log_ vs' = Some log' /\ logged wf_contents log' (recs ++ [enc e]) /\
    vs_env vs' = if bool_decide (nm = []) then vs_env vs else (SetCurrentFile (vs_env vs) dbname (vs_manifest_file_number vs)).2.
Proof.
  intros E0 Ed Hlog. unfold write_edit in E0. rewrite Ed in E0. cbn [mbind option_bind] in E0.
  destruct (logged_AddRecord wf_contents log recs (enc e) Hlog) as (log1 & E1 & H1). change (EncodeTo e []) with (enc e) in E0. rewrite E1 in E0. cbn [ok] in E0.
  destruct (wf_Sync_ok (wf_contents := wf_contents) (dest_ log1)) as (d & Es & Hd). rewrite Es in E0. cbn [ok andb] in E0.
  exists (mkWriter d (block_offset_ log1) (type_crc_ log1)). case_bool_decide as Enm; cbn [negb] in E0.
  - injection E0 as <-. split; [done|]. split; [by apply logged_dest|done].
  - cbn [with_descriptor vs_env vs_manifest_file_number] in E0. destruct (SetCurrentFile _ _ _) as [s3 env3]. injection E0 as -> <-. split; [done|]. split; [by apply logged_dest|done].
Qed.

Lemma started_step v0 n o es edit vs e vs' :
  started v0 n o es vs -> LogAndApply C name dbname edit vs = Some (OK, e, vs') -> versions_ok vs -> started v0 n o (es ++ [e]) vs'.
Proof.
  intros (Hn & (log & Ed & Hlog) & Hcur) E0 Hvo.
  destruct (LogAndApply_parts _ _ _ _ E0) as (v' & vs1 & nm & vs2 & vs3 & vs4 & P1 & P2 & P3 & P4 & P5 & ->).
  assert (H1 : exists o1, vs1 = with_objects o1 vs).
  { unfold build_version in P2. destruct (current vs); [|done]. cbn [mbind option_bind] in P2. destruct (Apply _ _ _ _) as [[b o1]|]; [|done].
    cbn [mbind option_bind] in P2. destruct (SaveTo _ _); [|done]. injection P2 as _ <-. by eexists. }
  destruct H1 as [o1 ->]. unfold open_descriptor in P3. cbn [with_objects descriptor_log_] in P3. rewrite Ed in P3. injection P3 as <- <-.
  destruct (write_edit_log _ _ _ _ log _ P4 Ed Hlog) as (log' & Ed' & Hlog' & Eenv). rewrite bool_decide_eq_true_2 in Eenv by done.
  destruct (write_edit_parts _ _ _ _ _ P4) as (d2 & env2 & ->).
  destruct (AppendVersion_spec v' (with_descriptor d2 (with_vs_env env2 (with_objects o1 vs)))) as (vs5 & P5' & _ & _ & l & c & a & E5); [destruct Hvo; by split|].
  rewrite P5 in P5'. injection P5' as <-. rewrite E5.
  cbn [vs_manifest_file_number descriptor_log_ vs_env with_logs with_versions with_descriptor with_vs_env with_objects] in *. split; [done|].
  split; [|by rewrite Eenv]. exists log'. split; [done|]. change (snapshot_edit name v0 o :: es ++ [e]) with ((snapshot_edit name v0 o :: es) ++ [e]). by rewrite map_app.
Qed.

(** The first call makes the manifest. *)
Lemma not_started_step v0 n edit vs e vs' :
  not_started v0 n vs -> 0 <= n < 2 ^ 64 -> LogAndApply C name dbname edit vs = Some (OK, e, vs') -> versions_ok vs -> objects_ok (vs_objects vs) ->
  edit_ok edit -> (has_comparator_ edit = true -> comparator_ edit = name) -> numbers_ok vs -> (forall f env r env', NewWritableFile f env = (inr r : Status + W, env') -> wf_contents r = []) ->
  exists o, objects_ok o /\ started v0 n o [e] vs'.
Proof.
  intros (Hn & Ed & Ec) Hr E0 Hvo Ho Hok Hcmp Hnum Hnew.
  destruct (LogAndApply_parts _ _ _ _ E0) as (v' & vs1 & nm & vs2 & vs3 & vs4 & P1 & P2 & P3 & P4 & P5 & ->).
  destruct (complete_edit_spec _ _ _ P1 Hok Hcmp Hnum) as ((Hok' & _) & _).
  assert (H1 : exists o1, vs1 = with_objects o1 vs /\ objects_ok o1).
  { unfold build_version in P2. rewrite Ec in P2. cbn [mbind option_bind] in P2. destruct (Apply _ _ _ _) as [[b o1]|] eqn:Ea; [|done].
    cbn [mbind option_bind] in P2. destruct (SaveTo _ _); [|done]. injection P2 as _ <-. exists o1. split; [done|]. by eapply Apply_objects. }
  destruct H1 as (o1 & -> & Ho1). unfold open_descriptor in P3. cbn [with_objects descriptor_log_ vs_manifest_file_number vs_env] in P3. rewrite Ed, Hn in P3.
  destruct (NewWritableFile _ _) as [[s|file] env] eqn:Ef.
  { injection P3 as _ _ <-. unfold write_edit in P4. cbn [with_vs_env with_objects descriptor_log_] in P4. by rewrite Ed in P4. }
  unfold WriteSnapshot in P3.
  change (current (with_vs_env env (with_objects o1 vs))) with (current vs) in P3. rewrite Ec in P3. cbn [mbind option_bind with_vs_env with_objects vs_objects] in P3.
  destruct (logged_AddRecord wf_contents (Writer_new file) [] (enc (snapshot_edit name v0 o1)) (logged_new wf_contents file (Hnew _ _ _ _ Ef))) as (log1 & E1 & H1).
  change (EncodeTo (snapshot_edit name v0 o1) []) with (enc (snapshot_edit name v0 o1)) in P3. rewrite E1 in P3. cbn [mbind option_bind] in P3. injection P3 as <- <-.
  destruct (write_edit_log _ _ _ _ log1 _ P4 eq_refl H1) as (log' & Ed' & Hlog' & Eenv).
  rewrite bool_decide_eq_false_2 in Eenv by (unfold DescriptorFileName; intros (_ & [=])%app_eq_nil). cbn [with_descriptor with_vs_env with_objects vs_env vs_manifest_file_number] in Eenv. rewrite Hn in Eenv.
  destruct (write_edit_parts _ _ _ _ _ P4) as (d2 & env2 & ->).
  match type of P5 with AppendVersion _ ?x = _ => destruct (AppendVersion_spec v' x) as (vs5 & P5' & _ & _ & l & c & a & E5); [destruct Hvo; by split|] end.
  rewrite P5 in P5'. injection P5' as <-. rewrite E5.
  exists o1. split; [done|]. split; [exact Hn|]. split; [by exists log'|].
  cbn [vs_manifest_file_number descriptor_log_ vs_env with_logs with_versions with_descriptor with_vs_env with_objects] in *. rewrite Eenv. unfold write_edit in P4. cbn [mbind option_bind with_descriptor descriptor_log_] in P4.
  pose proof (SetCurrentFile_spec E EF EFL env dbname n Hr) as Hs. destruct (SetCurrentFile env dbname n) as [s3 env3] eqn:E3. destruct Hs as [Hs _].
  assert (s3 = OK) as ->; [|exact Hs].
  destruct (AddRecord log1 _) as [s4 log4]. destruct (if ok s4 then _ else _) as [s5 log5].
  rewrite bool_decide_eq_false_2 in P4 by (unfold DescriptorFileName; intros (_ & [=])%app_eq_nil). cbn in P4. rewrite Hn, E3 in P4. destruct s5; cbn in P4; congruence.
Qed.

Lemma session_inv v0 n es vs es' vs' :
  session vs es' vs' -> common v0 es vs -> numbers_fresh v0 (es ++ es') -> 0 <= n < 2 ^ 64 ->
  (forall f env r env', NewWritableFile f env = (inr r : Status + W, env') -> wf_contents r = []) ->
  common v0 (es ++ es') vs' /\ (forall o, started v0 n o es vs -> started v0 n o (es ++ es') vs') /\
  (es = [] -> not_started v0 n vs -> es' = [] /\ not_started v0 n vs' \/ exists o, objects_ok o /\ started v0 n o es' vs').
Proof.
  intros Hs Hc Hn Hr Hnew. induction Hs as [vs|vs es' vs1 vs2 Hs IH Hu|vs es' vs1 edit e vs2 Hs IH Hf E0].
  - rewrite app_nil_r. split; [done|]. split; [done|]. intros _ Hns. by left.
  - destruct (IH Hc Hn) as (H1 & H2 & H3). split; [by eapply common_untouched|]. destruct Hu as [U1 U2 U3 U4 U5 U6 U7 U8].
    assert (Hst : forall o es0, started v0 n o es0 vs1 -> started v0 n o es0 vs2).
    { intros o es0 (S1 & S2 & S3). split; [by rewrite U5|]. split; [by rewrite U6|by rewrite U8]. }
    split; [intros o Ho; by apply Hst, H2|]. intros He Hns. destruct (H3 He Hns) as [[-> (N1 & N2 & N3)]|(o & Ho & Hs')]; [left|right; exists o; auto].
    split; [done|]. split; [by rewrite U5|]. split; [by rewrite U6|by rewrite U1].
  - rewrite app_assoc in Hn. destruct (IH Hc (numbers_fresh_prefix _ _ _ Hn)) as (H1 & H2 & H3). rewrite app_assoc.
    pose proof (co_versions _ _ _ H1) as Hv. split; [by eapply common_step|]. split; [intros o Ho; eapply started_step; [by apply H2|exact E0|exact Hv]|].
    intros He Hns. right. destruct (H3 He Hns) as [[-> Hns1]|(o & Ho & Hs')].
    + destruct (not_started_step v0 n edit vs1 e vs2 Hns1 Hr E0 Hv (co_objects _ _ _ H1) (ef_ok _ _ Hf) (ef_comparator _ _ Hf) (co_numbers _ _ _ H1) Hnew) as (o & Ho & Hst).
      by exists o.
    + exists o. split; [done|]. by eapply started_step.
Qed.

(** ** [Recover] *)

Definition fits e : Prop := edit_ok e /\ (has_comparator_ e = true -> comparator_ e = name).

Lemma recover_record_enc e rs b o :
  edit_ok e -> (has_comparator_ e = true -> comparator_ e = name) -> Apply C e (rs_builder rs) (rs_objects rs) = Some (b, o) ->
  recover_record C name (enc e) rs = Some (true, mkRecover OK
    (or_set (has_log_number_ e) (log_number_ e) (rs_log_number rs)) (or_set (has_prev_log_number_ e) (prev_log_number_ e) (rs_prev_log_number rs))
    (or_set (has_next_file_number_ e) (next_file_number_ e) (rs_next_file rs)) (or_set (has_last_sequence_ e) (last_sequence_ e) (rs_last_sequence rs)) b o).
Proof.
  intros He Hc E1. unfold recover_record, enc. rewrite DecodeFrom_EncodeTo by done.
  assert (Ecmp : (ok OK && has_comparator_ e && negb (bool_decide (comparator_ e = name)))%bool = false).
  { cbn. destruct (has_comparator_ e) eqn:Eh; [|done]. by rewrite bool_decide_eq_true_2 by auto. }
  rewrite Ecmp. cbn [ok]. by rewrite E1.
Qed.

Lemma recover_fold recs rs b o :
  Forall fits recs -> rs_status rs = OK -> apply_edits (C := C) recs (rs_builder rs) (rs_objects rs) = Some (b, o) ->
  body_fold rs_status (recover_record C name) (map enc recs) rs = Some (mkRecover OK
    (fold_left (fun x e => or_set (has_log_number_ e) (log_number_ e) x) recs (rs_log_number rs))
    (fold_left (fun x e => or_set (has_prev_log_number_ e) (prev_log_number_ e) x) recs (rs_prev_log_number rs))
    (fold_left (fun x e => or_set (has_next_file_number_ e) (next_file_number_ e) x) recs (rs_next_file rs))
    (fold_left (fun x e => or_set (has_last_sequence_ e) (last_sequence_ e) x) recs (rs_last_sequence rs)) b o).
Proof.
  intros Hf. revert rs. induction Hf as [|e recs [He Hc] Hf IH]; intros rs Hs Ea; cbn [map body_fold fold_left].
  - injection Ea as <- <-. destruct rs as [st lg pl nf ls bu ob]. cbn in *. by rewrite Hs.
  - rewrite Hs. cbn [ok]. cbn [apply_edits] in Ea. destruct (Apply C e _ _) as [[b1 o1]|] eqn:E1; [|done]. cbn [mbind option_bind] in Ea.
    rewrite (recover_record_enc e rs b1 o1 He Hc E1). cbn [mbind option_bind]. by apply (IH (mkRecover OK _ _ _ _ b1 o1)).
Qed.

Lemma read_fragments_spec fuel file data :
  (S (S (length (seq_rest file))) <= fuel)%nat -> read_fragments fuel file data = Some (OK, data ++ seq_rest file).
Proof.
  revert file data. induction fuel as [|fuel IH]; intros file data Hf; [lia|]. cbn [read_fragments].
  destruct (seq_Read_ok (seq_rest := seq_rest) kBufferSize file ltac:(unfold kBufferSize; lia)) as (file' & -> & E1). cbn [ok negb].
  destruct (seq_rest file) as [|c rest] eqn:Er.
  - rewrite take_nil, app_nil_r. by rewrite bool_decide_eq_true_2.
  - rewrite bool_decide_eq_false_2 by done. rewrite IH.
    + rewrite E1, <- app_assoc. by rewrite take_drop.
    + rewrite E1. cbn [length] in *. assert (length (drop (Z.to_nat kBufferSize) (c :: rest)) <= length rest)%nat; [|lia].
      rewrite length_drop. unfold kBufferSize. cbn [length]. lia.
Qed.

Lemma ReuseManifest_parts dsc base vs : exists d env m, (ReuseManifest options dsc base vs).2 = with_manifest m (with_descriptor d (with_vs_env env vs)).
Proof.
  unfold ReuseManifest. assert (H0 : exists d env m, vs = with_manifest m (with_descriptor d (with_vs_env env vs))).
  { exists (descriptor_log_ vs), (vs_env vs), (vs_manifest_file_number vs). by destruct vs. }
  destruct (negb _); [exact H0|]. destruct (ParseFileName base) as [[mn []]|]; try exact H0. destruct (GetFileSize _ _) as [|sz]; [exact H0|].
  destruct (_ <=? sz); [exact H0|]. destruct (NewAppendableFile _ _) as [[s|file] env]; cbn [snd]; [|by eexists _, _, _].
  exists (descriptor_log_ vs), env, (vs_manifest_file_number vs). by destruct vs.
Qed.

Lemma MarkFileNumberUsed_parts k vs : exists nf, MarkFileNumberUsed k vs = with_next_file nf vs.
Proof. unfold MarkFileNumberUsed. destruct (_ <=? _); [by eexists|]. exists (vs_next_file_number vs). by destruct vs. Qed.

Lemma recover_end_spec dsc base rs vs lg nf ls v S :
  rs_status rs = OK -> rs_log_number rs = Some lg -> rs_next_file rs = Some nf -> rs_last_sequence rs = Some ls ->
  SaveTo C (rs_builder rs) = Some v -> holds v S -> versions_ok vs ->
  exists save vs', recover_end C options dsc base rs vs = Some (OK, save, vs') /\
    (exists v', current vs' = Some v' /\ holds v' S) /\ versions_ok vs' /\ vs_log_number vs' = lg /\ vs_prev_log_number vs' = default 0 (rs_prev_log_number rs) /\
    vs_last_sequence vs' = ls /\ vs_next_file_number vs' = u64 (nf + 1).
Proof.
  intros Hs Hl Hn Hls Hsave Hv Hvo. unfold recover_end. rewrite Hs, Hl, Hn, Hls. cbn [ok negb default]. rewrite Hsave. cbn [mbind option_bind].
  destruct (MarkFileNumberUsed_parts (default 0 (rs_prev_log_number rs)) (with_objects (rs_objects rs) vs)) as [n1 ->].
  destruct (MarkFileNumberUsed_parts lg (with_next_file n1 (with_objects (rs_objects rs) vs))) as [n2 E2]. unfold Datatypes.id. rewrite E2.
  destruct (AppendVersion_spec (Finalize v) (with_next_file n2 (with_next_file n1 (with_objects (rs_objects rs) vs)))) as (vs1 & -> & [V1 V2 V3] & V4 & l & c & a & E5); [destruct Hvo; by split|].
  cbn [mbind option_bind].
  match goal with |- context [ReuseManifest options dsc base ?x] => destruct (ReuseManifest_parts dsc base x) as (d & env & mn & Er) end.
  destruct (ReuseManifest options dsc base _) as [reused vs2]. cbn [snd] in Er. subst vs2. eexists _, _. split; [done|].
  split; [exists (Finalize v); split; [exact V4|by apply Finalize_holds]|]. split; [by split|done].
Qed.

(** A set that is about to write its first manifest, with number [n]. *)
Record opened v0 (n : Z) vs : Prop := {
  op_common : common v0 [] vs;
  op_not_started : not_started v0 n vs;
  op_files : files_fit v0;
  op_number : 0 <= n < 2 ^ 64;
}.

(** What an environment reads from a file. *)
Definition reads (env : E) (fname b : bytes) : Prop := exists file, NewSequentialFile fname env = inr file /\ seq_rest file = b.

Lemma filter_none {A} (g : A -> bool) (l : list A) : (forall x, x ∈ l -> g x = false) -> List.filter g l = [].
Proof. induction l as [|x l IH]; intros H; [done|]. cbn. rewrite (H x) by by left. apply IH. intros y Hy. apply H. by right. Qed.

Lemma last_setting (has : VersionEdit -> bool) (val : VersionEdit -> Z) es e :
  has e = true -> fold_left (fun x e => or_set (has e) (val e) x) (es ++ [e]) None = Some (val e).
Proof. intros H. rewrite fold_left_app. cbn. by rewrite H. Qed.

(** The records of a prefix of a session, read into a new set. *)
Lemma recover_prefix v0 o es k e vsn dsc base :
  (forall lvl, (1 <= lvl < kNumLevels)%nat -> ids_disjoint (C := C) (edits_ref v0 (take k es) lvl)) -> Forall complete es -> numbers_fresh v0 es ->
  files_fit v0 -> objects_ok o -> zlen name < 2 ^ 32 -> take k es !! (k - 1)%nat = Some e -> (1 <= k <= length es)%nat ->
  current vsn = Some Version_new -> versions_ok vsn ->
  exists rs save vs', body_fold rs_status (recover_record C name) (map enc (snapshot_edit name v0 o :: take k es))
      (mkRecover OK None None None None (Builder_new Version_new) (vs_objects vsn)) = Some rs /\
    recover_end C options dsc base rs vsn = Some (OK, save, vs') /\
    (exists v', current vs' = Some v' /\ holds v' (edits_ref v0 (take k es))) /\ versions_ok vs' /\ vs_log_number vs' = log_number_ e /\
    vs_prev_log_number vs' = prev_log_number_ e /\ vs_last_sequence vs' = last_sequence_ e /\ vs_next_file_number vs' = u64 (next_file_number_ e + 1).
Proof.
  intros Hd Hce Hn Hv0 Ho Hname He Hk Hc Hvo.
  destruct (snapshot_edit_spec name v0 o Hv0 Ho Hname) as (Hs1 & Hs2 & Hs3). set (snap := snapshot_edit name v0 o) in *.
  assert (Etk : take k es = take (k - 1) es ++ [e]).
  { rewrite lookup_take_lt in He by lia. rewrite <- (take_S_r _ _ _ He). f_equal. lia. }
  assert (Hcek : Forall complete (take k es)) by (by apply Forall_take).
  assert (Hfit : Forall fits (snap :: take k es)).
  { constructor; [split; [done|by intros _]|]. eapply Forall_impl; [exact Hcek|]. intros e' (? & _ & _ & _ & _ & ?). by split. }
  assert (Eref : forall lvl, (lvl < kNumLevels)%nat -> fold_left (apply_ref lvl) (snap :: take k es) (level_ids Version_new lvl) = edits_ref v0 (take k es) lvl).
  { intros lvl Hl. cbn [fold_left]. unfold edits_ref. f_equal. destruct (Hs3 lvl Hl) as (_ & _ & <-). f_equal.
    unfold level_ids, level_files, Version_new. cbn [files_]. by rewrite lookup_replicate_2. }
  destruct (apply_edits_spec (C := C) Version_new (snap :: take k es) (Builder_new Version_new) (vs_objects vsn) (level_ids Version_new) (fun lvl => map f_number (level_files Version_new lvl))) as (b & o' & Ea & used & Hb).
  { eapply Forall_impl; [exact Hfit|]. intros e' [? _]. by apply edit_ok_levels. } { apply Builder_new_inv. }
  { intros lvl. assert (E0 : level_files Version_new lvl = []).
    { unfold level_files, Version_new. cbn [files_]. destruct (replicate kNumLevels [] !! lvl) as [l|] eqn:El; [|done]. by apply lookup_replicate in El as [-> _]. }
    rewrite E0. cbn [map concat app]. destruct (decide (lvl < kNumLevels)%nat) as [Hl|Hl].
    - destruct (Hs3 lvl Hl) as (_ & -> & _). rewrite <- (take_drop k es) in Hn. by apply numbers_fresh_prefix in Hn.
    - assert (Ea : forall e', edit_ok e' -> edit_adds lvl e' = []).
      { intros e' He'. unfold edit_adds. rewrite filter_none; [done|]. intros p Hp. apply Z.eqb_neq.
        destruct (proj1 (Forall_forall _ _) (ok_new _ He') p Hp) as [Hlp _]. unfold VersionEdit.level_ok in Hlp. lia. }
      rewrite (Ea snap Hs1). cbn [map app]. assert (E1 : concat (map (fun e => map number (edit_adds lvl e)) (take k es)) = []); [|rewrite E1; constructor].
      clear -Ea Hcek. induction Hcek as [|e' l (He' & _) _ IH]; [done|]. cbn. by rewrite (Ea e' He'). }
  destruct (SaveTo_spec (C := C) Version_new b _ used Hb) as (v & Ev & Hlen & Hv).
  { intros lvl Hl. unfold level_files, Version_new. cbn [files_]. rewrite lookup_replicate_2 by done. constructor. }
  { intros lvl Hl. rewrite Eref by lia. by apply Hd. }
  assert (Hh : holds v (edits_ref v0 (take k es))).
  { split; [exact Hlen|]. intros lvl Hl. destruct (Hv lvl Hl) as (A1 & A2 & A3). split; [exact A1|]. split; [|exact A3]. intros i. rewrite <- (Eref lvl Hl). apply A2. }
  assert (Hcomp : complete e) by (eapply (proj1 (Forall_lookup _ _) Hcek); exact He). destruct Hcomp as (_ & F1 & F2 & F3 & F4 & _).
  rewrite (recover_fold _ (mkRecover OK None None None None (Builder_new Version_new) (vs_objects vsn)) b o' Hfit eq_refl Ea).
  eexists. destruct (recover_end_spec dsc base (mkRecover OK (Some (log_number_ e)) (Some (prev_log_number_ e)) (Some (next_file_number_ e)) (Some (last_sequence_ e)) b o')
    vsn (log_number_ e) (next_file_number_ e) (last_sequence_ e) v _ eq_refl eq_refl eq_refl eq_refl Ev Hh Hvo) as (save & vs' & E1 & E2).
  exists save, vs'. split; [|split; [exact E1|exact E2]]. cbn [rs_log_number rs_prev_log_number rs_next_file rs_last_sequence].
  rewrite Etk. change (snap :: take (k - 1) es ++ [e]) with ((snap :: take (k - 1) es) ++ [e]). by rewrite !last_setting by done.
Qed.

Lemma VersionSet_new_spec (env : E) :
  exists vsn : VersionSet W E, VersionSet_new env = Some vsn /\ vs_env vsn = env /\ current vsn = Some Version_new /\ versions_ok vsn.
Proof.
  eexists. split; [done|]. split; [done|]. split; [done|]. split; cbn; [by repeat constructor|by repeat constructor|]. by exists 0, (mkVNode 0 1 Version_new).
Qed.
End Steps.


(** ** A run *)

Lemma level_ids_new lvl : level_ids Version_new lvl = [].
Proof.
  unfold level_ids, level_files, Version_new. cbn [files_]. destruct (replicate kNumLevels [] !! lvl) as [l|] eqn:El; [|done].
  by apply lookup_replicate in El as [-> _].
Qed.

Lemma level_files_new lvl : level_files Version_new lvl = [].
Proof.
  unfold level_files, Version_new. cbn [files_]. destruct (replicate kNumLevels [] !! lvl) as [l|] eqn:El; [|done]. by apply lookup_replicate in El as [-> _].
Qed.

(** A new database is ready for its first manifest. *)
Lemma opened_new {W E : Type} {EF : EnvFiles E} (C : Comparator) {L : ComparatorLaws C} name n (env : E) (vs : VersionSet W E) :
  VersionSet_new env = Some vs -> 0 <= n < 2 ^ 64 -> opened C name Version_new n (with_manifest n vs).
Proof.
  intros [= <-] Hn. split; [|done| |done].
  - split; cbn; [|done| |exists Version_new; split; [done|]|done| |by intros [|??] ?].
    + split; cbn; [by repeat constructor..|]. by exists 0, (mkVNode 0 1 Version_new).
    + by repeat constructor.
    + split; [done|]. intros lvl Hl. unfold edits_ref. cbn [fold_left]. rewrite level_files_new. split; [constructor|]. split; [done|]. intros _ i j f g Hi. by rewrite lookup_nil in Hi.
    + intros k lvl _ i j Hi. rewrite take_nil in Hi. unfold edits_ref in Hi. cbn [fold_left] in Hi. rewrite level_ids_new in Hi. by apply not_elem_of_nil in Hi.
  - intros lvl f _ Hf. rewrite level_files_new in Hf. by apply not_elem_of_nil in Hf.
Qed.

#[local] Instance TestLogs : LogFiles (bytes -> option bytes) bytes := {| NewWritableFile _ e := (inr [], e); CloseFile _ := OK |}.
#[local] Instance TestReads : SequentialFiles (bytes -> option bytes) bytes :=
  {| NewSequentialFile f e := match e f with Some b => inr b | None => inl (NotFound f []) end |}.
#[local] Instance TestAppends : AppendableFiles (bytes -> option bytes) bytes :=
  {| GetFileSize f e := match e f with Some b => inr (zlen b) | None => inl (NotFound f []) end; NewAppendableFile f e := (inr (default [] (e f)), e) |}.

Definition test_name : bytes := cstr "leveldb.BytewiseComparator".
Definition test_edit : VersionEdit := AddFile (SetLogNumber Clear 1) 0 7 100 (ikey_of "a" 3) (ikey_of "c" 4).

Definition test_done : VersionEdit := SetLastSequence (SetNextFile (SetPrevLogNumber test_edit 0) 2) 0.

Lemma test_edit_ok : edit_ok test_edit.
Proof. apply push_file_ok; [done| |apply SetLogNumber_ok; [lia|apply Clear_ok]]. repeat split; cbn; try done; lia. Qed.


(** ** Failures *)

Lemma descriptor_not_CURRENT dbname n : CurrentFileName dbname <> DescriptorFileName dbname n.
Proof. unfold CurrentFileName, DescriptorFileName. intros E%app_inv_head. discriminate E. Qed.

(** C22: A call of [LogAndApply] that fails installs nothing.  Whatever goes wrong,
    in creating the manifest, writing the snapshot or the edit, in [Sync] or in
    renaming [CURRENT], the versions, the current one, and all numbers of the set
    are as before, and so is the file [CURRENT]; a manifest that was being created
    is closed, and one that was in use stays in use. *)
Theorem log_and_apply_failure `{CS : Checksum} {W E : Type} {WF : WritableFile W} {LF : LogFiles E W} {EF : EnvFiles E} {EFL : EnvFilesLaws E}
    (C : Comparator) (name dbname : bytes) (edit e : VersionEdit) (vs vs' : VersionSet W E) (s : Status)
    (Hnew : forall f env r env' g, NewWritableFile f env = (r : Status + W, env') -> g <> f -> contents env' g = contents env g)
    (Hn : 0 <= vs_manifest_file_number vs < 2 ^ 64)
    (Hcall : LogAndApply C name dbname edit vs = Some (s, e, vs')) (Hs : s <> OK) :
  dummy_versions_ vs' = dummy_versions_ vs /\ current_ vs' = current_ vs /\ vs_next_file_number vs' = vs_next_file_number vs /\
  vs_last_sequence vs' = vs_last_sequence vs /\ vs_log_number vs' = vs_log_number vs /\ vs_prev_log_number vs' = vs_prev_log_number vs /\
  vs_manifest_file_number vs' = vs_manifest_file_number vs /\ (descriptor_log_ vs' = None <-> descriptor_log_ vs = None) /\
  contents (vs_env vs') (CurrentFileName dbname) = contents (vs_env vs) (CurrentFileName dbname).
Proof.
  unfold LogAndApply, LogAndApply_begin, LogAndApply_end in Hcall. destruct (complete_edit edit vs) as [e1|]; [|done]. cbn [mbind option_bind] in Hcall.
  destruct (build_version C e1 vs) as [[v vs1]|] eqn:Eb; [|done]. cbn [mbind option_bind] in Hcall.
  assert (H1 : exists o1, vs1 = with_objects o1 vs).
  { unfold build_version in Eb. destruct (current vs); [|done]. cbn [mbind option_bind] in Eb. destruct (Apply _ _ _ _) as [[b o1]|]; [|done].
    cbn [mbind option_bind] in Eb. destruct (SaveTo _ _); [|done]. injection Eb as _ <-. by eexists. }
  destruct H1 as [o1 ->]. destruct (open_descriptor name dbname _) as [[[s1 nm] vs2]|] eqn:Eo; [|done]. cbn [mbind option_bind] in Hcall.
  assert (H2 : exists d env, vs2 = with_descriptor d (with_vs_env env (with_objects o1 vs)) /\
    contents env (CurrentFileName dbname) = contents (vs_env vs) (CurrentFileName dbname) /\
    ((nm = [] /\ d = descriptor_log_ vs /\ d <> None) \/ (nm = DescriptorFileName dbname (vs_manifest_file_number vs) /\ descriptor_log_ vs = None))).
  { unfold open_descriptor in Eo. cbn [with_objects descriptor_log_ vs_env vs_manifest_file_number] in Eo. destruct (descriptor_log_ vs) as [log|] eqn:Ed.
    - injection Eo as _ <- <-. exists (Some log), (vs_env vs). split; [destruct vs; cbn in *; by rewrite Ed|]. split; [done|by left].
    - destruct (NewWritableFile _ _) as [r env] eqn:En. pose proof (Hnew _ _ _ _ (CurrentFileName dbname) En (descriptor_not_CURRENT _ _)) as Hc. destruct r as [s2|file].
      + injection Eo as _ <- <-. exists None, env. split; [destruct vs; cbn in *; by rewrite Ed|]. split; [done|by right].
      + destruct (WriteSnapshot _ _ _) as [[s2 log]|]; [|done]. cbn [mbind option_bind] in Eo. injection Eo as _ <- <-. eexists _, env. split; [done|]. split; [done|by right]. }
  destruct H2 as (d & env & -> & Henv & Hd).
  set (vs2 := with_descriptor d (with_vs_env env (with_objects o1 vs))) in *.
  destruct (if ok s1 then _ else _) as [[s2 vs3]|] eqn:Ew; [|done]. cbn [mbind option_bind] in Hcall.
  assert (H3 : s2 <> OK -> exists d3 env3, vs3 = with_descriptor d3 (with_vs_env env3 vs2) /\ contents env3 (CurrentFileName dbname) = contents env (CurrentFileName dbname) /\
    (d <> None -> d3 <> None)).
  { intros Hs2. destruct (ok s1); [|injection Ew as _ <-; by exists d, env].
    unfold write_edit, vs2 in Ew. cbn [with_descriptor with_vs_env with_objects descriptor_log_ vs_env vs_manifest_file_number] in Ew. destruct d as [log|]; [|done]. cbn [mbind option_bind] in Ew.
    destruct (AddRecord log _) as [s4 log4]. destruct (if ok s4 then _ else _) as [s5 log5]. destruct (ok s5 && _); [|injection Ew as _ <-; by exists (Some log5), env].
    pose proof (SetCurrentFile_spec E EF EFL env dbname _ Hn) as Hset.
    destruct (SetCurrentFile env dbname _) as [s6 env6]. destruct Hset as [Hset _]. injection Ew as -> <-. exists (Some log5), env6. split; [done|]. split; [|done].
    destruct s2; [done|exact Hset]. }
  destruct s2 as [|code msg]; cbn [ok] in Hcall; [destruct (AppendVersion v vs3); [|done]; cbn [mbind option_bind] in Hcall; congruence|].
  destruct (H3 ltac:(done)) as (d3 & env3 & -> & Henv3 & Hd3). clear H3 Ew Eo Eb. case_bool_decide as Enm; injection Hcall as <- <- <-.
  - cbn. rewrite Henv3, Henv. do 7 (split; [done|]). split; [|done]. destruct Hd as [(_ & Ed & Hd)|[-> _]].
    + rewrite <- Ed. specialize (Hd3 Hd). by split.
    + exfalso. unfold DescriptorFileName in Enm. by apply app_eq_nil in Enm as [_ ?].
  - cbn. do 7 (split; [done|]). destruct Hd as [[-> _]|[-> Ed]]; [done|]. split; [by rewrite Ed|].
    destruct (Filename.RemoveFile env3 _) as [s7 env7] eqn:E7. cbn. rewrite (remove_file _ _ _ _ E7 _ (descriptor_not_CURRENT _ _)). by rewrite Henv3, Henv.
Qed.

(** A descriptor that cannot be created. *)
#[local] Instance NoLogs : LogFiles (bytes -> option bytes) bytes := {| NewWritableFile f e := (inl (IOError f []), e); CloseFile _ := OK |}.

Lemma log_and_apply_failure_witness :
  exists vs0 s e vs', VersionSet_new (W := bytes) (fun _ : bytes => None) = Some vs0 /\
    LogAndApply (LF := NoLogs) BytewiseComparator test_name (cstr "db") test_edit (with_manifest 1 vs0) = Some (s, e, vs') /\ s <> OK /\
    dummy_versions_ vs' = dummy_versions_ vs0 /\ contents (vs_env vs') (CurrentFileName (cstr "db")) = None.
Proof.
  destruct (VersionSet_new (W := bytes) (fun _ : bytes => None)) as [vs0|] eqn:E0; [|discriminate E0]. exists vs0.
  set (r := LogAndApply (LF := NoLogs) _ _ _ _ _). assert (Hr : option_map (fun '(s, _, _) => ok s) r = Some false) by (injection E0 as <-; vm_compute; reflexivity).
  destruct r as [[[s e] vs']|] eqn:Er; [|discriminate Hr]. exists s, e, vs'. assert (Hs : s <> OK) by (intros ->; discriminate Hr). split; [reflexivity|]. split; [reflexivity|]. split; [exact Hs|].
  destruct (log_and_apply_failure (LF := NoLogs) BytewiseComparator test_name (cstr "db") test_edit e (with_manifest 1 vs0) vs' s) as (H1 & _ & _ & _ & _ & _ & _ & _ & H2).
  - intros f env r0 env' g [= _ <-] _. reflexivity.
  - cbn. lia.
  - exact Er.
  - exact Hs.
  - split; [exact H1|]. rewrite H2. injection E0 as <-. reflexivity.
Defined.
