(* ===== verification/Install.v ===== *)
(** * What a call of [LogAndApply] leaves

    For the callers of [VersionSet::LogAndApply] (VersionSet.v): the state that the
    set of versions keeps between calls, and what one call makes of it, whether it
    succeeds or fails: the tables of the new version, the file objects, the
    versions that others hold, and the files it does not touch. *)

From Stdlib Require Import Sorted.
From stdpp Require Import gmap.
From S2P Require Import Prelude Coding Comparator Crc32c DbFormat Status Filename LogWriter VersionEdit Options Version VersionGet Compaction VersionBuilder VersionSet Manifest.

(** ** File objects *)

(** Every file of a version has its object. *)
Definition seeks_ok (o : Objects) (v : Version) : Prop := forall lvl f, f ∈ level_files v lvl -> is_Some (o_seeks o !! f_addr f).
Definition objects_le (o o' : Objects) : Prop := forall x, is_Some (o_seeks o !! x) -> is_Some (o_seeks o' !! x).

Lemma seeks_ok_le o o' v : objects_le o o' -> seeks_ok o v -> seeks_ok o' v.
Proof. intros Hle Hs lvl f Hf. by eapply Hle, Hs. Qed.

Section Build.
Context {C : Comparator}.

Definition added_ok (b : Builder) (o : Objects) : Prop := forall st f, st ∈ b_levels b -> f ∈ added_files st -> is_Some (o_seeks o !! f_addr f).

Lemma fileset_insert_in f files x : x ∈ fileset_insert C f files -> x = f \/ x ∈ files.
Proof.
  induction files as [|g files IH]; cbn; [by intros ->%list_elem_of_singleton; left|].
  destruct (BySmallestKey C f g); [by intros [->|?]%elem_of_cons; [left|right]|].
  destruct (BySmallestKey C g f); [|by right]. intros [->|[?|?]%IH]%elem_of_cons; [right; by left|by left|right; by right].
Qed.

Lemma update_level_in g level (b b' : Builder) st : update_level g level b = Some b' -> st ∈ b_levels b' -> st ∈ b_levels b \/ exists st0, st0 ∈ b_levels b /\ st = g st0.
Proof.
  unfold update_level. destruct (level_index level) as [l|]; [|done]. cbn [mbind option_bind]. destruct (b_levels b !! l) as [st0|] eqn:E; [|done].
  cbn [mbind option_bind]. intros [= <-]. cbn [b_levels]. intros [i Hi]%list_elem_of_lookup.
  destruct (decide (i = l)) as [->|Hne].
  - rewrite list_lookup_insert_eq in Hi by (by eapply lookup_lt_Some). injection Hi as <-. right. exists st0. split; [by eapply list_elem_of_lookup_2|done].
  - rewrite list_lookup_insert_ne in Hi by done. left. by eapply list_elem_of_lookup_2.
Qed.

Lemma update_level_base g level (b b' : Builder) : update_level g level b = Some b' -> b_base b' = b_base b.
Proof. unfold update_level. destruct (level_index level); [|done]. cbn. destruct (b_levels b !! _); [|done]. by intros [= <-]. Qed.

Lemma Apply_seeks e b o b' o' :
  Apply C e b o = Some (b', o') -> added_ok b o -> added_ok b' o' /\ objects_le o o' /\ b_base b' = b_base b.
Proof.
  unfold Apply. intros E Hb. destruct (foldM apply_pointer _ o) as [o1|] eqn:E1; [|done]. cbn [mbind option_bind] in E.
  destruct (foldM apply_deleted _ b) as [b1|] eqn:E2; [|done]. cbn [mbind option_bind] in E.
  assert (H1 : o_seeks o1 = o_seeks o).
  { apply (foldM_inv (fun o1 => o_seeks o1 = o_seeks o) _ _ _ _ E1 eq_refl). intros p a a' _ Ea Ha. unfold apply_pointer in Ea. destruct (level_index p.1); [|done]. by injection Ea as <-. }
  assert (H2 : added_ok b1 o /\ b_base b1 = b_base b).
  { apply (foldM_inv (fun b1 => added_ok b1 o /\ b_base b1 = b_base b) _ _ _ _ E2 (conj Hb eq_refl)). intros p a a' _ Ea [Ha Hbase]. split; [|by rewrite (update_level_base _ _ _ _ Ea)].
    intros st f Hst Hf. destruct (update_level_in _ _ _ _ _ Ea Hst) as [Hin|(st0 & Hin & ->)]; [by eapply Ha|]. by eapply (Ha st0). }
  destruct H2 as [H2 H2'].
  assert (H3 : added_ok b' o' /\ objects_le o1 o' /\ b_base b' = b_base b1).
  { apply (foldM_inv (fun bo => added_ok bo.1 bo.2 /\ objects_le o1 bo.2 /\ b_base bo.1 = b_base b1) _ _ _ _ E); [split; [|split; [by intros x|done]]|].
    - intros st f Hst Hf. cbn. rewrite H1. by eapply H2.
    - intros p [b2 o2] [b3 o3] _ Ea (Ha & Hle & Hbase). cbn [fst snd] in *. unfold apply_new in Ea. set (f0 := new_file (o_next o2) p.2) in Ea.
      destruct (update_level _ p.1 b2) as [b4|] eqn:Eu; [|done]. cbn [mbind option_bind] in Ea. injection Ea as <- <-.
      assert (Hkeep : forall x, is_Some (o_seeks o2 !! x) -> is_Some (<[f_addr f0 := allowed_seeks (f_meta f0)]> (o_seeks o2) !! x)).
      { intros x Hx. destruct (decide (x = f_addr f0)) as [->|]; [rewrite lookup_insert_eq; by eexists|by rewrite lookup_insert_ne]. }
      split; [|split; [intros x Hx; by apply Hkeep, Hle|by rewrite (update_level_base _ _ _ _ Eu)]].
      intros st f Hst Hf. cbn [o_seeks]. destruct (update_level_in _ _ _ _ _ Eu Hst) as [Hin|(st0 & Hin & ->)]; [by apply Hkeep; eapply Ha|].
      cbn [added_files] in Hf. apply fileset_insert_in in Hf as [->|Hf]; [rewrite lookup_insert_eq; by eexists|]. apply Hkeep. by eapply Ha. }
  destruct H3 as (H3 & H4 & H5). split; [done|]. split; [|congruence]. intros x Hx. apply H4. by rewrite H1.
Qed.

(** The files of a level come from the base or the builder. *)
Lemma MaybeAddFile_in deleted level files f files' x : MaybeAddFile C deleted level files f = Some files' -> x ∈ files' -> x ∈ files \/ x = f.
Proof.
  unfold MaybeAddFile. case_decide; [intros [= <-]; by left|]. destruct (last files); [destruct (_ && _); [done|]|];
    intros [= <-] [?|?%list_elem_of_singleton]%elem_of_app; auto.
Qed.

Lemma add_files_in deleted level new files files' x : foldM (MaybeAddFile C deleted level) new files = Some files' -> x ∈ files' -> x ∈ files \/ x ∈ new.
Proof.
  intros E. refine (foldM_inv (fun fs => x ∈ fs -> x ∈ files \/ x ∈ new) _ _ _ _ E _ _); [by left|].
  intros f a a' Hf Ea Ha Hx. destruct (MaybeAddFile_in _ _ _ _ _ _ Ea Hx) as [?| ->]; [by apply Ha|by right].
Qed.

Lemma merge_level_in deleted level base added files files' x :
  merge_level C deleted level base added files = Some files' -> x ∈ files' -> x ∈ files \/ x ∈ base \/ x ∈ added.
Proof.
  revert base files. induction added as [|f added IH]; intros base files E Hx; cbn [merge_level] in E.
  { destruct (add_files_in _ _ _ _ _ _ E Hx); auto. }
  pose proof (span_upper_app (C := C) f base) as Hsp. destruct (span_upper C f base) as [smaller rest]. cbn [fst snd] in Hsp. subst base.
  destruct (foldM _ smaller files) as [fs1|] eqn:E1; [|done]. cbn [mbind option_bind] in E. destruct (MaybeAddFile C deleted level fs1 f) as [fs2|] eqn:E2; [|done].
  cbn [mbind option_bind] in E. destruct (IH _ _ E Hx) as [H2|[H2|H2]]; [|right; left; apply elem_of_app; by right|right; right; by right].
  destruct (MaybeAddFile_in _ _ _ _ _ _ E2 H2) as [H1| ->]; [|right; right; by left].
  destruct (add_files_in _ _ _ _ _ _ E1 H1); [by left|right; left; apply elem_of_app; by left].
Qed.

Lemma SaveTo_in b v lvl f : SaveTo C b = Some v -> f ∈ level_files v lvl -> f ∈ level_files (b_base b) lvl \/ exists st, st ∈ b_levels b /\ f ∈ added_files st.
Proof.
  unfold SaveTo. destruct (mapM (save_level C b) (seq 0 kNumLevels)) as [files|] eqn:E; [|done]. intros [= <-]. unfold level_files at 1. cbn [files_].
  intros Hf. destruct (files !! lvl) as [fs|] eqn:El; [|by apply elem_of_nil in Hf]. cbn in Hf. apply mapM_Some_1 in E.
  destruct (Forall2_lookup_r _ _ _ _ _ E El) as (k & Hk & Es). apply lookup_seq in Hk as [-> _]. unfold save_level in Es.
  destruct (b_levels b !! _) as [st|] eqn:Est; [|done]. cbn [mbind option_bind] in Es.
  destruct (merge_level_in _ _ _ _ _ _ _ Es Hf) as [H0|[H1|H2]]; [by apply elem_of_nil in H0|by left|right]. exists st. split; [by eapply list_elem_of_lookup_2|done].
Qed.
End Build.

(** ** One call *)

Section Call.
Context `{CS : Checksum} {W E : Type} {WF : WritableFile W} {LF : LogFiles E W} {EF : EnvFiles E} {EFL : EnvFilesLaws E}.
Context (C : Comparator) {L : ComparatorLaws C} (name dbname : bytes).
Context (Hnew : forall f env (r : Status + W) env' g, NewWritableFile f env = (r, env') -> g <> f -> contents env' g = contents env g).
Context (Hfail : forall f env s env', NewWritableFile (W := W) f env = (inl s, env') -> ok s = false).
Implicit Types (vs : VersionSet W E) (v : Version).

(** What the set of versions keeps between calls, with the current version [v]. *)
Record managed vs v : Prop := {
  ma_versions : versions_ok vs;
  ma_numbers : numbers_ok vs;
  ma_manifest : in_u64 (vs_manifest_file_number vs);
  ma_objects : objects_ok (vs_objects vs);
  ma_current : current vs = Some v;
  ma_holds : holds C v (level_ids v);
  ma_seeks : seeks_ok (vs_objects vs) v;
  ma_files : forall lvl f, f ∈ level_files v lvl -> 0 <= f_number f < vs_next_file_number vs;
  ma_distinct : forall lvl, NoDup (map f_number (level_files v lvl));
}.

(** An edit that may be applied to it. *)
Record applicable edit vs v : Prop := {
  ap_ok : edit_ok edit;
  ap_comparator : has_comparator_ edit = true -> comparator_ edit = name;
  ap_log : has_log_number_ edit = true -> vs_log_number vs <= log_number_ edit < vs_next_file_number vs;
  ap_numbers : forall lvl, NoDup (map f_number (level_files v lvl) ++ map number (edit_adds lvl edit));
  ap_disjoint : forall lvl, (1 <= lvl < kNumLevels)%nat -> ids_disjoint (C := C) (apply_ref lvl (level_ids v lvl) edit);
  ap_files : forall lvl m, m ∈ edit_adds lvl edit -> 0 <= number m < vs_next_file_number vs;
}.

(** The paths of tables and logs. *)
Definition table_or_log (path : bytes) : Prop :=
  exists n t, ParseFileName (drop (length dbname + 1) path) = Some (n, t) /\ (t = kTableFile \/ t = kLogFile).

Lemma table_or_log_ne path n : 0 <= n < 2 ^ 64 -> table_or_log path ->
  path <> DescriptorFileName dbname n /\ path <> CurrentFileName dbname /\ path <> TempFileName dbname n.
Proof.
  intros Hn (k & t & Hp & Ht). destruct (filename_roundtrip dbname [] n 0 kLogFile Hn) as (_ & _ & _ & _ & R4 & R5 & R6 & _).
  split; [|split]; intros ->; rewrite ?R4, ?R5, ?R6 in Hp; injection Hp as <- <-; by destruct Ht.
Qed.

(** A version that somebody else holds stays in the list. *)
Lemma AppendVersion_others v vs vs' a n :
  AppendVersion v vs = Some vs' -> versions_ok vs -> find_version a (dummy_versions_ vs) = Some n -> (current_ vs = Some a -> 2 <= vn_refs n) ->
  current_ vs' <> Some a /\ exists n', find_version a (dummy_versions_ vs') = Some n' /\ vn_version n' = vn_version n /\
    vn_refs n' = vn_refs n - (if decide (current_ vs = Some a) then 1 else 0).
Proof.
  unfold AppendVersion. intros E0 [Hb Hr (a0 & n0 & Ec & Ef)] En Hrefs. rewrite Ec in E0. unfold Version_Unref in E0. rewrite Ef in E0. cbn [mbind option_bind] in E0.
  destruct (_ <? 1); [done|]. set (l := if vn_refs n0 - 1 =? 0 then _ else _) in E0.
  assert (Hl : exists l' n', l = Some l' /\ find_version a l' = Some n' /\ vn_version n' = vn_version n /\ vn_refs n' = vn_refs n - (if decide (current_ vs = Some a) then 1 else 0)).
  { unfold l. destruct (Z.eqb_spec (vn_refs n0 - 1) 0) as [E1|E1].
    - eexists _, n. split; [done|]. split.
      + assert (Hne : a <> a0) by (intros ->; rewrite Ef in En; injection En as ->; specialize (Hrefs Ec); lia).
        clear - En Hne. unfold find_version in *. induction (dummy_versions_ vs) as [|m l IH]; [done|]. cbn in *. destruct (Z.eqb_spec (vn_addr m) a) as [Ea|Ea].
        * rewrite (proj2 (Z.eqb_neq _ a0)) by congruence. cbn. rewrite (proj2 (Z.eqb_eq _ a)) by done. exact En.
        * destruct (negb _); cbn; [rewrite (proj2 (Z.eqb_neq _ a)) by done|]; by apply IH.
      + split; [done|]. rewrite decide_False; [lia|]. intros Hc. rewrite Ec in Hc. injection Hc as ->. rewrite Ef in En. injection En as ->. specialize (Hrefs Ec). lia.
    - eexists _, _. split; [done|]. rewrite set_vrefs_find, En. cbn. split; [done|]. destruct (Z.eqb_spec a a0) as [->|Hne].
      + rewrite Ef in En. injection En as ->. rewrite decide_True by done. done.
      + rewrite decide_False by congruence. split; [done|lia]. }
  destruct Hl as (l' & n' & -> & El & Hn'). cbn [mbind option_bind] in E0. injection E0 as <-. split.
  - cbn. intros [= Ea]. apply find_version_some in En as [Hin Hadr]. rewrite Forall_forall in Hb. specialize (Hb n Hin). cbn in Hb. lia.
  - exists n'. split; [|done]. cbn [with_versions dummy_versions_]. by rewrite find_version_app, El.
Qed.

(** The versions in the list after it. *)
Lemma AppendVersion_nodes v vs vs' n' :
  AppendVersion v vs = Some vs' -> n' ∈ dummy_versions_ vs' -> vn_version n' = v \/ exists n, n ∈ dummy_versions_ vs /\ vn_version n' = vn_version n.
Proof.
  unfold AppendVersion. intros E0 Hn. set (l := match current_ vs with Some a => _ | None => _ end) in E0.
  destruct l as [l'|] eqn:El; [|done]. cbn [mbind option_bind] in E0. injection E0 as <-. cbn [with_versions dummy_versions_] in Hn.
  apply elem_of_app in Hn as [Hn| ->%list_elem_of_singleton]; [right|by left]. unfold l in El. destruct (current_ vs) as [a|]; [|injection El as <-; by exists n'].
  unfold Version_Unref in El. destruct (find_version a _) as [n0|]; [|done]. cbn [mbind option_bind] in El. destruct (_ <? 1); [done|].
  destruct (_ =? 0); injection El as <-.
  - exists n'. split; [|done]. by apply list_elem_of_In, filter_In in Hn as [Hn%list_elem_of_In _].
  - apply list_elem_of_fmap in Hn as (n & -> & Hn). exists n. split; [done|]. by destruct (_ =? a).
Qed.

Lemma applied_distinct edit v lvl files :
  NoDup (map f_number (level_files v lvl) ++ map number (edit_adds lvl edit)) -> NoDup (map f_number (level_files v lvl)) ->
  set_sorted (C := C) files -> (forall i, i ∈ map (fun f => file_id (f_meta f)) files <-> i ∈ apply_ref lvl (level_ids v lvl) edit) -> NoDup (map f_number files).
Proof.
  intros Hn Hd Hs Hi. destruct (edits_numbers lvl [edit] (level_ids v lvl) (map f_number (level_files v lvl))) as [_ Hinj].
  - cbn. by rewrite app_nil_r.
  - intros i (f & -> & Hf)%list_elem_of_fmap. by apply (list_elem_of_fmap_2 f_number).
  - intros i j (f & -> & Hf)%list_elem_of_fmap (g & -> & Hg)%list_elem_of_fmap Hij.
    apply list_elem_of_lookup in Hf as [x Hx], Hg as [y Hy]. assert (x = y) as ->; [|congruence].
    eapply NoDup_lookup; [exact Hd|..]; rewrite list_lookup_fmap; [by rewrite Hx|rewrite Hy; cbn; f_equal; exact (eq_sym Hij)].
  - apply (sorted_numbers (C := C) _ Hs). intros i j H1%Hi H2%Hi. by apply Hinj.
Qed.

Lemma find_set_version vs v : versions_ok vs -> current vs = Some v -> exists a n, current_ vs = Some a /\ find_version a (dummy_versions_ vs) = Some n /\ vn_version n = v /\ 1 <= vn_refs n.
Proof.
  intros [_ Hr (a & n & Ea & En)] Hc. unfold current in Hc. rewrite Ea in Hc. cbn [mbind option_bind] in Hc. rewrite En in Hc. injection Hc as <-. exists a, n.
  split; [done|]. split; [done|]. split; [done|]. rewrite Forall_forall in Hr. apply Hr. by eapply find_version_some.
Qed.

(** The version that [LogAndApply] builds. *)
Lemma build_run edit e vs v :
  managed vs v -> applicable edit vs v -> complete_edit edit vs = Some e ->
  exists v' o', build_version C e vs = Some (v', with_objects o' vs) /\ holds C v' (fun lvl => apply_ref lvl (level_ids v lvl) edit) /\
    objects_ok o' /\ objects_le (vs_objects vs) o' /\ seeks_ok o' v'.
Proof.
  intros [M1 M2 M3 M4 M5 M6 M7 M8 M9] [A1 A2 A3 A4 A5 A6] Ec.
  destruct (complete_edit_spec name _ _ _ Ec A1 A2 M2) as (Hce & En & Ed & _). pose proof Hce as (Hok & _).
  assert (Eadds : forall lvl, edit_adds lvl e = edit_adds lvl edit) by (intros lvl; unfold edit_adds; by rewrite En).
  destruct (build_version_spec C e vs v _ M5 M6 Hok M4) as (v' & o' & Eb & Hv' & Ho').
  { intros lvl. by rewrite Eadds. }
  { intros lvl Hl. rewrite (apply_ref_same _ _ e edit En Ed). by apply A5. }
  exists v', o'. split; [done|]. split.
  { destruct Hv' as [Hl Hv']. split; [done|]. intros lvl Hlvl. destruct (Hv' lvl Hlvl) as (H1 & H2 & H3). split; [done|]. split; [|done].
    intros i. by rewrite H2, (apply_ref_same _ _ e edit En Ed). }
  split; [done|]. unfold build_version in Eb. rewrite M5 in Eb. cbn [mbind option_bind] in Eb. destruct (Apply C e _ _) as [[b o1]|] eqn:Ea; [|done].
  cbn [mbind option_bind] in Eb. destruct (SaveTo C b) as [v1|] eqn:Es; [|done]. cbn [mbind option_bind] in Eb. injection Eb as Ev Eo. 
  subst o1 v'.
  destruct (Apply_seeks _ _ _ _ _ Ea) as (Hadd & Hle & Hbase).
  { intros st f Hst Hf. apply elem_of_replicate in Hst as [-> _]. by apply elem_of_nil in Hf. }
  split; [done|]. intros lvl f Hf. rewrite Finalize_levels in Hf. destruct (SaveTo_in _ _ _ _ Es Hf) as [Hf'|(st & Hst & Hf')]; [|by eapply Hadd].
  rewrite Hbase in Hf'. apply Hle. by eapply M7.
Qed.

Lemma open_descriptor_frame vs s nm vs' :
  open_descriptor name dbname vs = Some (s, nm, vs') -> in_u64 (vs_manifest_file_number vs) ->
  (exists d env, vs' = with_descriptor d (with_vs_env env vs) /\ forall g, table_or_log g -> contents env g = contents (vs_env vs) g) /\
  (nm = [] \/ nm = DescriptorFileName dbname (vs_manifest_file_number vs)) /\ (ok s = true -> exists log, descriptor_log_ vs' = Some log).
Proof.
  unfold open_descriptor. intros E0 Hm. destruct (descriptor_log_ vs) as [log|] eqn:Ed.
  - injection E0 as <- <- <-. split; [|split; [by left|by eauto]]. exists (Some log), (vs_env vs). split; [destruct vs; cbn in *; by rewrite Ed|done].
  - destruct (NewWritableFile _ _) as [r env] eqn:En. assert (Hg : forall g, table_or_log g -> contents env g = contents (vs_env vs) g).
    { intros g Hg. apply (Hnew _ _ _ _ _ En). by apply table_or_log_ne. }
    destruct r as [s1|file].
    + injection E0 as <- <- <-. split; [|split; [by right|]]. { exists None, env. split; [destruct vs; cbn in *; by rewrite Ed|done]. }
      by rewrite (Hfail _ _ _ _ En).
    + destruct (WriteSnapshot _ _ _) as [[s1 log]|]; [|done]. cbn [mbind option_bind] in E0. injection E0 as <- <- <-. split; [by eexists _, _|]. split; [by right|]. by eexists.
Qed.

Lemma write_edit_frame e nm vs :
  in_u64 (vs_manifest_file_number vs) -> (exists log, descriptor_log_ vs = Some log) ->
  exists s vs', write_edit dbname e nm vs = Some (s, vs') /\
    exists d env, vs' = with_descriptor d (with_vs_env env vs) /\ forall g, table_or_log g -> contents env g = contents (vs_env vs) g.
Proof.
  intros Hm (log & Ed). unfold write_edit. rewrite Ed. cbn [mbind option_bind]. destruct (AddRecord log _) as [s1 log1].
  destruct (if ok s1 then _ else _) as [s2 log2]. destruct (ok s2 && _).
  - pose proof (SetCurrentFile_spec E EF EFL (vs_env vs) dbname _ Hm) as Hset. cbn [with_descriptor vs_env vs_manifest_file_number].
    destruct (SetCurrentFile _ _ _) as [s3 env3]. destruct Hset as [_ Hset]. eexists _, _. split; [done|]. exists (Some log2), env3. split; [done|].
    intros g Hg. destruct (table_or_log_ne g _ Hm Hg) as (_ & H1 & H2). by apply Hset.
  - eexists _, _. split; [done|]. exists (Some log2), (vs_env vs). by destruct vs.
Qed.

Lemma complete_edit_total edit vs v :
  managed vs v -> applicable edit vs v ->
  exists e, complete_edit edit vs = Some e /\ in_u64 (log_number_ e) /\ in_u64 (prev_log_number_ e) /\
    log_number_ e = (if has_log_number_ edit then log_number_ edit else vs_log_number vs) /\
    prev_log_number_ e = (if has_prev_log_number_ edit then prev_log_number_ edit else vs_prev_log_number vs).
Proof.
  intros Hma [A1 A2 A3 _ _ _]. assert (Hex : exists e, complete_edit edit vs = Some e /\
    log_number_ e = (if has_log_number_ edit then log_number_ edit else vs_log_number vs) /\
    prev_log_number_ e = (if has_prev_log_number_ edit then prev_log_number_ edit else vs_prev_log_number vs)).
  { unfold complete_edit. destruct (has_log_number_ edit) eqn:Eh.
    - destruct (A3 eq_refl) as [H1 H2]. rewrite (proj2 (Z.leb_le _ _) H1), (proj2 (Z.ltb_lt _ _) H2). cbn [andb mbind option_bind].
      eexists. split; [done|]. by destruct (has_prev_log_number_ edit).
    - cbn [mbind option_bind SetLogNumber has_prev_log_number_]. eexists. split; [done|]. by destruct (has_prev_log_number_ edit). }
  destruct Hex as (e & Ee & E1 & E2). exists e. split; [done|].
  destruct (complete_edit_spec name _ _ _ Ee A1 A2 (ma_numbers _ _ Hma)) as (Hce & _). pose proof Hce as (Hok & _). split; [apply (ok_log _ Hok)|]. split; [apply (ok_prev_log _ Hok)|done].
Qed.

Lemma applied_ids edit v lvl i : i ∈ apply_ref lvl (level_ids v lvl) edit ->
  (exists f, f ∈ level_files v lvl /\ i = file_id (f_meta f) /\ f_number f ∉ edit_dels lvl edit) \/ exists m, m ∈ edit_adds lvl edit /\ i = file_id m.
Proof.
  intros [[(f & -> & Hf)%list_elem_of_fmap Hn]|(m & -> & Hm)%list_elem_of_fmap]%apply_ref_elem; [left; by exists f|right; by exists m].
Qed.

(** A version that is ready to be installed. *)
Record ready_version vs v : Prop := {
  rv_holds : holds C v (level_ids v);
  rv_seeks : seeks_ok (vs_objects vs) v;
  rv_files : forall lvl f, f ∈ level_files v lvl -> 0 <= f_number f < vs_next_file_number vs;
  rv_distinct : forall lvl, NoDup (map f_number (level_files v lvl));
}.

(** What does not change in the first part, nor when the second part fails. *)
Record same_set vs vs' : Prop := {
  ss_versions : dummy_versions_ vs' = dummy_versions_ vs;
  ss_current : current_ vs' = current_ vs;
  ss_logs : vs_log_number vs' = vs_log_number vs /\ vs_prev_log_number vs' = vs_prev_log_number vs;
}.

(** What no part changes. *)
Record frame vs vs' : Prop := {
  fr_files : forall g, table_or_log g -> contents (vs_env vs') g = contents (vs_env vs) g;
  fr_next : vs_next_file_number vs' = vs_next_file_number vs;
  fr_last : vs_last_sequence vs' = vs_last_sequence vs;
  fr_manifest : vs_manifest_file_number vs' = vs_manifest_file_number vs;
  fr_objects : objects_le (vs_objects vs) (vs_objects vs');
}.

Lemma frame_trans vs vs' vs'' : frame vs vs' -> frame vs' vs'' -> frame vs vs''.
Proof.
  intros [A1 A2 A3 A4 A5] [B1 B2 B3 B4 B5]. split; try congruence; [|by intros x Hx; apply B5, A5].
  intros g Hg. by rewrite B1, A1.
Qed.

Lemma LogAndApply_begin_run edit vs v :
  managed vs v -> applicable edit vs v ->
  exists e v' s nm vs', LogAndApply_begin C name dbname edit vs = Some (e, v', s, nm, vs') /\
    managed vs' v /\ ready_version vs' v' /\ same_set vs vs' /\ frame vs vs' /\
    (forall lvl i, (lvl < kNumLevels)%nat -> i ∈ level_ids v' lvl <-> i ∈ apply_ref lvl (level_ids v lvl) edit) /\
    (nm = [] \/ nm = DescriptorFileName dbname (vs_manifest_file_number vs')) /\ (ok s = true -> exists log, descriptor_log_ vs' = Some log) /\
    in_u64 (log_number_ e) /\ in_u64 (prev_log_number_ e) /\
    log_number_ e = (if has_log_number_ edit then log_number_ edit else vs_log_number vs) /\
    prev_log_number_ e = (if has_prev_log_number_ edit then prev_log_number_ edit else vs_prev_log_number vs).
Proof.
  intros Hma Hap. destruct (complete_edit_total edit vs v Hma Hap) as (e & Ec & He).
  destruct (build_run edit e vs v Hma Hap Ec) as (v' & o' & Eb & [Hlen Hv'] & Ho' & Hle & Hseeks).
  pose proof Hma as [M1 M2 M3 M4 M5 M6 M7 M8 M9]. pose proof Hap as [_ _ _ A4 _ A6]. unfold LogAndApply_begin. rewrite Ec. cbn [mbind option_bind]. rewrite Eb. cbn [mbind option_bind].
  set (vs1 := with_objects o' vs).
  assert (Hopen : exists s1 nm vs2, open_descriptor name dbname vs1 = Some (s1, nm, vs2)).
  { unfold open_descriptor. destruct (descriptor_log_ vs1); [by eauto|]. destruct (NewWritableFile _ _) as [[s1|file] env]; [by eauto|].
    unfold WriteSnapshot. change (current (with_vs_env env vs1)) with (current vs). rewrite M5. cbn [mbind option_bind]. destruct (AddRecord _ _). by eauto. }
  destruct Hopen as (s1 & nm & vs2 & Eo). rewrite Eo. cbn [mbind option_bind].
  destruct (open_descriptor_frame _ _ _ _ Eo M3) as ((d & env & -> & Henv) & Hnm & Hlogd).
  exists e, v', s1, nm. eexists. split; [done|]. split; [split; try done; [by destruct M1|by eapply seeks_ok_le]|]. split; [split|].
  - split; [exact Hlen|]. intros lvl Hl. destruct (Hv' lvl Hl) as (H1 & _ & H3). by split.
  - exact Hseeks.
  - intros lvl f Hf. cbn. destruct (decide (lvl < kNumLevels)%nat) as [Hl|Hl]; [|rewrite level_files_out in Hf by done; by apply elem_of_nil in Hf].
    destruct (Hv' lvl Hl) as (_ & H2 & _). assert (Hi : file_id (f_meta f) ∈ level_ids v' lvl) by by apply (list_elem_of_fmap_2 (fun f => file_id (f_meta f))).
    apply H2, applied_ids in Hi as [(g & Hg & Eg & _)|(m & Hm & Em)].
    + injection Eg as Eg _ _ _. unfold f_number. rewrite Eg. by apply (M8 lvl g).
    + injection Em as Em _ _ _. unfold f_number. rewrite Em. by apply (A6 lvl).
  - intros lvl. destruct (decide (lvl < kNumLevels)%nat) as [Hl|Hl]; [|rewrite level_files_out by done; constructor].
    destruct (Hv' lvl Hl) as (H1 & H2 & _). by eapply (applied_distinct edit v lvl).
  - split; [by split|]. split; [by split|]. split; [by intros lvl i Hl; apply Hv'|]. split; [exact Hnm|]. split; [exact Hlogd|exact He].
Qed.

Lemma LogAndApply_end_run e v v' s1 nm vs :
  managed vs v -> ready_version vs v' -> (nm = [] \/ nm = DescriptorFileName dbname (vs_manifest_file_number vs)) ->
  (ok s1 = true -> exists log, descriptor_log_ vs = Some log) -> in_u64 (log_number_ e) -> in_u64 (prev_log_number_ e) ->
  exists s vs', LogAndApply_end dbname e v' s1 nm vs = Some (s, e, vs') /\ frame vs vs' /\
    (forall a n, find_version a (dummy_versions_ vs) = Some n -> (ok s = true -> current_ vs = Some a -> 2 <= vn_refs n) ->
       exists n', find_version a (dummy_versions_ vs') = Some n' /\ vn_version n' = vn_version n /\
         if ok s then current_ vs' <> Some a /\ vn_refs n' = vn_refs n - (if decide (current_ vs = Some a) then 1 else 0) else n' = n) /\
    (forall n', n' ∈ dummy_versions_ vs' -> vn_version n' = v' \/ exists n, n ∈ dummy_versions_ vs /\ vn_version n' = vn_version n) /\
    if ok s then managed vs' v' /\ vs_log_number vs' = log_number_ e /\ vs_prev_log_number vs' = prev_log_number_ e
    else managed vs' v /\ same_set vs vs'.
Proof.
  intros Hma [R1 R2 R3 R4] Hnm Hlogd Hlog Hprev. pose proof Hma as [M1 M2 M3 M4 M5 M6 M7 M8 M9]. unfold LogAndApply_end.
  assert (Hkeep : forall a n, find_version a (dummy_versions_ vs) = Some n ->
    exists n', find_version a (dummy_versions_ vs) = Some n' /\ vn_version n' = vn_version n /\ n' = n) by (intros a n Hx; by exists n).
  assert (Hwrite : exists s vs3, (if ok s1 then write_edit dbname e nm vs else Some (s1, vs)) = Some (s, vs3) /\
    exists d3 env3, vs3 = with_descriptor d3 (with_vs_env env3 vs) /\ forall g, table_or_log g -> contents env3 g = contents (vs_env vs) g).
  { destruct (ok s1) eqn:Es1; [by apply write_edit_frame; [|apply Hlogd]|].
    exists s1, vs. split; [done|]. exists (descriptor_log_ vs), (vs_env vs). by destruct vs. }
  destruct Hwrite as (s & vs3 & Ew & d3 & env3 & -> & Henv3). rewrite Ew. cbn [mbind option_bind]. destruct (ok s) eqn:Es.
  - destruct (AppendVersion_spec v' (with_descriptor d3 (with_vs_env env3 vs))) as (vs4 & Ea & V1 & V2 & l & c & a & E4); [by destruct M1|].
    rewrite Ea. cbn [mbind option_bind]. eexists s, _. split; [done|]. rewrite Es. split; [rewrite E4; split; [exact Henv3|done|done|done|by intros x]|]. split.
    { intros x n Hx Hr. destruct (AppendVersion_others v' _ _ x n Ea) as (Hc & n' & H1 & H2 & H3); [by destruct M1|exact Hx|by apply Hr|]. exists n'. by rewrite E4 in *. }
    split; [by intros n'; apply (AppendVersion_nodes v' _ _ n' Ea)|]. split; [|done]. destruct V1 as [V11 V12 V13]. split; try done.
    + rewrite E4. destruct M2 as (N1 & N2 & _ & _). split; [exact N1|]. split; [exact N2|]. by split.
    + by rewrite E4.
    + by rewrite E4.
    + rewrite E4. exact R2.
    + rewrite E4. exact R3.
  - case_bool_decide as Enm; eexists s, _; (split; [done|]); rewrite Es.
    + split; [split; [exact Henv3|done|done|done|by intros x]|]. split; [by intros a n Hx _; apply Hkeep|].
      split; [intros n' Hn'; right; by exists n'|]. split; [|by split]. split; try done. by destruct M1.
    + destruct Hnm as [->| ->]; [done|]. split; [split; [|done|done|done|by intros x]|split; [by intros a n Hx _; apply Hkeep|split; [intros n' Hn'; right; by exists n'|split; [|by split]]]].
      * intros g Hg. cbn. destruct (Filename.RemoveFile env3 _) as [s7 env7] eqn:E7. cbn. rewrite (remove_file _ _ _ _ E7) by (by apply table_or_log_ne). by apply Henv3.
      * split; try done. by destruct M1.
Qed.
End Call.
