(* ===== verification/Levels.v ===== *)
(** * Versions by the names of their tables

    A version is well-formed (VersionGet.v) when the identities of its tables -
    number, size, first and last key - fit together, level by level; and stays so
    when a table comes in below everything it could hide. *)

From Stdlib Require Import Sorted.
From stdpp Require Import gmap sorting.
From S2P Require Import Prelude Coding Comparator Bloom DbFormat Status Iterator BlockBuilder Block Format FilterBlock TableBuilder Table MemTable UserView.
From S2P Require Import VersionEdit Options Version VersionGet Overlap InternalTable TableCache Compaction VersionBuilder VersionSet Manifest.

(** The entries of a file. *)
Definition table_contents (sst : Z -> option TableImage) (f : FilePtr) : list Entry :=
  match sst (f_number f) with Some i => img_entries i | None => [] end.

#[local] Notation table_id := (Z * Z * bytes * bytes)%type.

Section Ids.
Context {C : Comparator} {L : ComparatorLaws C} (sst : Z -> option TableImage).

Definition id_entries (i : table_id) : list Entry := match sst (id_number i) with Some im => img_entries im | None => [] end.

(** The table [i] has sorted entries between its bounds. *)
Record id_ok (i : table_id) : Prop := {
  id_entries_ok : Forall entry_ok (id_entries i);
  id_sorted : entries_sorted C (id_entries i);
  id_smallest : exists e, id_entries i !! 0%nat = Some e /\ i.1.2 = entry_ikey e;
  id_largest : exists e, last (id_entries i) = Some e /\ i.2 = entry_ikey e;
}.

Lemma id_ok_file f : id_ok (file_id (f_meta f)) <-> file_ok (C := C) (table_contents sst) f.
Proof. split; intros [H1 H2 H3 H4]; by split. Qed.

Record ids_ok (S : nat -> list table_id) : Prop := {
  io_files : forall lvl i, i ∈ S lvl -> id_ok i;
  io_levels : forall lvl lvl' i j, (lvl < lvl')%nat -> i ∈ S lvl -> j ∈ S lvl' -> newer (C := C) (id_entries i) (id_entries j);
  io_level0 : forall i j, i ∈ S 0%nat -> j ∈ S 0%nat -> id_number j < id_number i -> newer (C := C) (id_entries i) (id_entries j);
}.

Lemma level_ids_elem v lvl i : i ∈ level_ids v lvl <-> exists f, f ∈ level_files v lvl /\ i = file_id (f_meta f).
Proof.
  split; [intros (f & -> & Hf)%list_elem_of_fmap; by exists f|]. intros (f & Hf & ->). by apply (list_elem_of_fmap_2 (fun f => file_id (f_meta f))).
Qed.

Lemma level_entries_ids v lvl e : e ∈ level_entries (table_contents sst) v lvl <-> exists i, i ∈ level_ids v lvl /\ e ∈ id_entries i.
Proof.
  rewrite level_entries_elem. split.
  - intros (f & Hf & He). exists (file_id (f_meta f)). split; [|done]. apply level_ids_elem. by exists f.
  - intros (i & (f & Hf & ->)%level_ids_elem & He). by exists f.
Qed.

Lemma version_ok_ids v : holds C v (level_ids v) -> NoDup (map f_number (level_files v 0)) ->
  version_ok (C := C) (table_contents sst) v <-> ids_ok (level_ids v).
Proof.
  intros [Hlen Hv] Hnd. split.
  - intros [V1 V2 V3 V4 V5]. split.
    + intros lvl i (f & Hf & ->)%level_ids_elem. apply id_ok_file. by eapply V1.
    + intros lvl lvl' i j Hl Hi Hj e e' He He'. apply (V3 lvl lvl' Hl); apply level_entries_ids; eauto.
    + intros i j (f & Hf & ->)%level_ids_elem (g & Hg & ->)%level_ids_elem Hn. by apply V4.
  - intros [I1 I2 I3]. split; [| | | |done].
    + intros lvl f Hf. apply id_ok_file, (I1 lvl), level_ids_elem. by exists f.
    + intros lvl Hl. destruct (decide (lvl < kNumLevels)%nat) as [Hlt|Hlt]; [by apply (Hv lvl Hlt)|]. rewrite level_files_out by done. by intros ? ? ? ? ?.
    + intros lvl lvl' Hl e e' (i & Hi & He)%level_entries_ids (j & Hj & He')%level_entries_ids. by apply (I2 lvl lvl' i j).
    + intros f g Hf Hg Hn. refine (I3 (file_id (f_meta f)) (file_id (f_meta g)) _ _ Hn); apply level_ids_elem; [by exists f|by exists g].
Qed.

Lemma version_entries_ids v : holds C v (level_ids v) ->
  forall e, e ∈ version_entries (table_contents sst) v <-> exists lvl i, i ∈ level_ids v lvl /\ e ∈ id_entries i.
Proof.
  intros [Hlen _] e. unfold version_entries. rewrite elem_concat. split.
  - intros (lvl & _ & (i & Hi & He)%level_entries_ids). eauto.
  - intros (lvl & i & Hi & He). exists lvl. split; [|apply level_entries_ids; eauto]. apply elem_of_seq. split; [lia|].
    destruct (decide (lvl < kNumLevels)%nat) as [?|Hlt]; [lia|]. apply level_ids_elem in Hi as (f & Hf & _). rewrite level_files_out in Hf by done. by apply elem_of_nil in Hf.
Qed.
End Ids.

(** The invariant of a version depends only on its files. *)
Lemma version_ok_files {C : Comparator} contents v v' : files_ v' = files_ v -> version_ok (C := C) contents v -> version_ok (C := C) contents v'.
Proof.
  intros Ef Hv. assert (Hl : forall lvl, level_files v' lvl = level_files v lvl) by (intros lvl; unfold level_files; by rewrite Ef).
  destruct Hv as [V1 V2 V3 V4 V5]. unfold level_entries in *. split; intros *; unfold level_entries; rewrite ?Hl; auto. apply V1.
Qed.


(** ** Tables of one level *)

Section Pairs.
Context {C : Comparator} {L : ComparatorLaws C}.
Notation icmp := (InternalKey_Compare C).

(** One table ends before the other begins. *)
Definition separate (i j : table_id) : Prop := icmp i.2 j.1.2 = Lt \/ icmp j.2 i.1.2 = Lt.

Definition pairwise (S : list table_id) : Prop := forall i j, i ∈ S -> j ∈ S -> i = j \/ separate i j.

Lemma pairwise_disjoint (S : list table_id) : (forall i, i ∈ S -> icmp i.1.2 i.2 <> Gt) -> pairwise S -> ids_disjoint (C := C) S.
Proof.
  intros Hb Hp i j Hi Hj Hlt. destruct (Hp i j Hi Hj) as [->|[Hs|Hs]]; [|done|].
  - exfalso. destruct Hlt as [Hlt|[_ Hlt]]; [|lia]. pose proof (Compare_refl (C := InternalKeyComparator C) j.1.2) as Hr. cbn in Hr. congruence.
  - exfalso. assert (H1 : icmp j.1.2 i.1.2 = Lt).
    { apply (Compare_le_lt_trans (C := InternalKeyComparator C) j.1.2 j.2 i.1.2); [by apply Hb|done]. }
    pose proof (Compare_antisym (C := InternalKeyComparator C) i.1.2 j.1.2) as Ha. cbn in Ha. rewrite H1 in Ha. destruct Hlt as [Hlt|[Hlt _]]; rewrite Hlt in Ha; done.
Qed.

Lemma files_sorted_pairwise files : files_sorted (C := C) files -> pairwise (map (fun f => file_id (f_meta f)) files).
Proof.
  intros Hs i j (f & -> & [x Hx]%list_elem_of_lookup)%list_elem_of_fmap (g & -> & [y Hy]%list_elem_of_lookup)%list_elem_of_fmap.
  destruct (Nat.lt_total x y) as [Hlt|[->|Hlt]].
  - right. left. by apply (Hs x y f g).
  - left. congruence.
  - right. right. by apply (Hs y x g f).
Qed.
End Pairs.

(** ** A new table *)

Section NewTable.
Context {C : Comparator} {L : ComparatorLaws C} (sst : Z -> option TableImage).
Notation icmp := (InternalKey_Compare C).
Notation ucmp := (Compare (Comparator := C)).
Notation id_ok := (id_ok (C := C) sst).
Notation id_entries := (id_entries sst).

(** No user key is in both tables. *)
Definition apart (i j : table_id) : Prop := forall e e', e ∈ id_entries i -> e' ∈ id_entries j -> ucmp (e_user_key e) (e_user_key e') <> Eq.

Lemma apart_newer i j : apart i j -> newer (C := C) (id_entries i) (id_entries j).
Proof. intros Ha e e' He He' Heq. by destruct (Ha e e' He He'). Qed.

(** A table that comes in at [level] is newer than all others, and no table of a
    lower level shares a user key with it. *)
Lemma add_table_ok (S S' : nat -> list table_id) level i0 :
  ids_ok (C := C) sst S -> id_ok i0 -> (forall lvl i, i ∈ S lvl -> newer (C := C) (id_entries i0) (id_entries i)) ->
  (forall lvl i, i ∈ S lvl -> id_number i < id_number i0) -> (forall lvl i, (lvl < level)%nat -> i ∈ S lvl -> apart i i0) ->
  (forall lvl j, j ∈ S' lvl -> j ∈ S lvl \/ (lvl = level /\ j = i0)) -> ids_ok (C := C) sst S'.
Proof.
  intros [I1 I2 I3] H0 Hnew Hnum Hap HS. split.
  - intros lvl i [Hi|[_ ->]]%HS; [by eapply I1|done].
  - intros lvl lvl' i j Hl [Hi|[-> ->]]%HS [Hj|[-> ->]]%HS.
    + by eapply I2.
    + by apply apart_newer, (Hap lvl).
    + by eapply Hnew.
    + lia.
  - intros i j [Hi|[-> ->]]%HS [Hj|[_ ->]]%HS Hn.
    + by apply I3.
    + specialize (Hnum _ _ Hi). lia.
    + by eapply Hnew.
    + lia.
Qed.

(** The bounds of a table, and of its user keys. *)
Lemma id_bounds f : id_ok (file_id (f_meta f)) -> file_ok (C := C) (table_contents sst) f.
Proof. by intros ?%id_ok_file. Qed.

(** Files whose ranges of user keys do not overlap. *)
Lemma overlaps_false small large f :
  file_ok (C := C) (table_contents sst) f -> overlaps (C := C) (Some small) (Some large) f = false ->
  ucmp (f_largest_user f) small = Lt \/ ucmp large (f_smallest_user f) = Lt.
Proof.
  intros Hf Ho. unfold overlaps in Ho. apply negb_false_iff, orb_true_iff in Ho as [Ho|Ho]; [left|right].
  - unfold AfterFile in Ho. apply bool_decide_eq_true in Ho. by apply Compare_lt_gt.
  - unfold BeforeFile in Ho. by apply bool_decide_eq_true in Ho.
Qed.

Lemma ends_apart f g : file_ok (C := C) (table_contents sst) f -> file_ok (C := C) (table_contents sst) g ->
  ucmp (f_largest_user f) (f_smallest_user g) = Lt ->
  apart (file_id (f_meta f)) (file_id (f_meta g)) /\ separate (C := C) (file_id (f_meta f)) (file_id (f_meta g)).
Proof.
  intros Hf Hg Hlt. split.
  - intros e e' He He' Heq. destruct (file_user_bounds _ _ _ Hf He) as [_ H1]. destruct (file_user_bounds _ _ _ Hg He') as [H2 _].
    assert (H3 : ucmp (e_user_key e) (e_user_key e') = Lt) by (eapply Compare_lt_le_trans; [eapply Compare_le_lt_trans; [exact H1|exact Hlt]|exact H2]).
    congruence.
  - left. cbn. rewrite InternalKey_Compare_eq_spec. unfold f_largest_user, f_smallest_user in Hlt. unfold f_largest, f_smallest in Hlt. by rewrite Hlt.
Qed.
End NewTable.
