(* ===== verification/InputLaws.v ===== *)
(** * The iterators over tables, lawful

    The iterators of InputIterator.v are cursors: over a table, in its entries; over
    the tables of a sorted level, in the concatenation of their entries; and the
    merge of such, in the sorted list of all. *)

From Stdlib Require Import Sorted.
From stdpp Require Import gmap sorting.
From S2P Require Import Prelude Coding Comparator Crc32c Bloom DbFormat Status Iterator IteratorWrapper TwoLevelIterator Merger BlockBuilder Block Format FilterBlock TableBuilder Table MemTable UserView.
From S2P Require Import VersionEdit Options Version VersionGet InternalTable TableCache BuildTable Filename Compaction InputIterator Levels.

Section Laws.
Context `{CS : Checksum} {E F KC H K : Type} {R : RandomAccessFile F} {RF : RandomAccessFiles E F}.
Context {raf_contents : F -> bytes} {RL : RandomAccessFileLaws R raf_contents}.
Context {CO : CacheOps KC H (Table F) TableDeleter} {c_ok : nat -> (bytes -> Table F -> Prop) -> list H -> KC -> Prop} {CL : CacheLaws CO c_ok}.
Context {BC : BlockCache K} {bc_holds : K -> bytes -> Block -> Prop} {BL : BlockCacheLaws BC bc_holds} {bc_next : K -> Z} {BI : BlockCacheIds BC bc_next}.
Context (Snappy Zstd : Compressor) {SL : CompressorLaws Snappy} {ZL : CompressorLaws Zstd}.
Context {U : Comparator} {UL : ComparatorLaws U} {o : Options} (dbname : bytes).
Context (Hcmp : comparator o = InternalKeyComparator U) (Hinterval : 1 <= block_restart_interval o).
Context (Hfilter : forall name P, filter_policy o = Some (name, P) ->
  exists P0, P = InternalFilterPolicy P0 /\ FilterPolicyLaws P0 /\ zlen name < 2 ^ 31 /\ forall a b, Compare (Comparator := U) a b = Eq -> a = b).
Variables (sst : Z -> option TableImage) (options : ReadOptions) (fuel : nat).
Notation TC := (TableCacheState E KC K).
Notation ready := (cache_ready (raf_contents := raf_contents) (c_ok := c_ok) (bc_holds := bc_holds) (bc_next := bc_next) Snappy Zstd (U := U) (o := o)).
Notation has_table := (has_table (raf_contents := raf_contents) Snappy Zstd (U := U) (o := o) dbname).
Notation IC := (InternalKeyComparator U).
Implicit Types tc : TC.

#[local] Instance TI : Iterator (TableIterator (F := F) (K := K)) := Table_Iterator Snappy Zstd fuel options.
#[local] Instance FI : Iterator (FileIterator (F := F) (K := K)) := File_Iterator Snappy Zstd fuel options.
#[local] Instance LI : Iterator (LevelIterator (E := E) (F := F) (KC := KC) (K := K)) := Level_Iterator (H := H) Snappy Zstd U dbname o fuel options.
#[local] Instance TSI : Iterator (TablesIterator (E := E) (F := F) (KC := KC) (K := K)) := Tables_Iterator (H := H) Snappy Zstd U dbname o fuel options.

(** ** A table *)

Lemma Table_Iterator_laws (t : Table F) kvs pos :
  IteratorLaws (TwoLevel_Iterator (BlockReader Snappy Zstd t options) fuel) IC kvs pos ->
  IteratorLaws TI IC kvs (fun s i => s.1 = t /\ pos s.2 i).
Proof.
  intros HL. set (I := TwoLevel_Iterator _ _) in HL.
  assert (Hon : forall f j, (exists s', f = Some s' /\ pos s' j) -> exists s' : TableIterator (F := F) (K := K), (s ← f; Some (t, s)) = Some s' /\ s'.1 = t /\ pos s'.2 j).
  { intros f j (s' & -> & Hp). by exists (t, s'). }
  split; intros [t' s] i; cbn [fst snd].
  - intros [-> Hp]. exact (pos_le (IteratorLaws := HL) _ _ Hp).
  - intros [-> Hp]. exact (pos_valid (IteratorLaws := HL) _ _ Hp).
  - intros [-> Hp]. exact (pos_status (IteratorLaws := HL) _ _ Hp).
  - intros k v [-> Hp]. exact (pos_key (IteratorLaws := HL) _ _ k v Hp).
  - intros k v [-> Hp]. exact (pos_value (IteratorLaws := HL) _ _ k v Hp).
  - intros [-> Hp]. apply Hon. exact (pos_first (IteratorLaws := HL) _ _ Hp).
  - intros [-> Hp]. apply Hon. exact (pos_last (IteratorLaws := HL) _ _ Hp).
  - intros k [-> Hp] Hk. apply Hon. exact (pos_seek (IteratorLaws := HL) _ _ k Hp Hk).
  - intros [-> Hp] Hi. apply Hon. exact (pos_next (IteratorLaws := HL) _ _ Hp Hi).
  - intros [-> Hp] Hi. apply Hon. exact (pos_prev (IteratorLaws := HL) _ _ Hp Hi).
Qed.

(** The iterator is over a table and stands at entry [i] of [kvs]. *)
Definition file_pos (kvs : list kv) (it : FileIterator (F := F) (K := K)) (i : nat) : Prop :=
  exists x : Table F * (_ -> nat -> Prop),
    IteratorLaws (TwoLevel_Iterator (BlockReader Snappy Zstd x.1 options) fuel) IC kvs x.2 /\
    sum_pos none (fun s i => s.1 = x.1 /\ x.2 s.2 i) it i.

Lemma file_laws kvs : IteratorLaws FI IC kvs (file_pos kvs).
Proof.
  apply laws_exists. intros x HL. apply sum_laws; [by intros (? & ? & [])|]. intros _. by apply Table_Iterator_laws.
Qed.

(** An iterator of the table cache, and the release of its table. *)
Lemma NewIterator_spec b tc n size es :
  ready sst (S b) tc -> has_table sst tc n size es -> (length es <= fuel)%nat ->
  exists it t h tc1 tc2, TableCache_NewIterator Snappy Zstd dbname o n size tc = Some (inr (it, t, h), tc1) /\ file_pos (map entry_kv es) (inr (t, it)) (length es) /\
    UnrefEntry h tc1 = Some tc2 /\ ready sst b tc2 /\ tcs_env tc2 = tcs_env tc.
Proof.
  intros Hr Ht Hfuel. destruct (FindTable_spec Snappy Zstd dbname Hcmp Hinterval Hfilter sst b tc n size es Hr Ht)
    as (h & tc1 & t & i & own & held & c & Ef & Eenv & [F1 F2 F3 F4 F5 [F6 Hi] F7 (f & Ei & Hop)] & Ees). subst es.
  unfold TableCache_NewIterator. rewrite Ef. cbn [mbind option_bind]. rewrite F1, F3. cbn [mbind option_bind].
  destruct (image_instances Snappy Zstd Hcmp Hfilter i Hi) as (L & SC & Hp).
  assert (Hco : cache_coherent (o := o) (bc_holds := bc_holds) (blocks := img_blocks i) (t_cache_id t) (Some c)) by by apply (bo_blocks _ _ F4).
  pose proof (im_layout _ _ _ Hi) as Hlay. pose proof (im_entries _ _ _ Hi) as Hent.
  assert (Hso : kvs_sorted (comparator o) (all_entries (img_blocks i))) by (rewrite Hcmp, Hent; exact (im_sorted _ _ _ Hi)).
  assert (Hsz : entries_size (all_entries (img_blocks i)) + 20 * zlen (all_entries (img_blocks i)) < 2 ^ 32).
  { rewrite Hent. pose proof (im_size _ _ _ Hi). unfold zlen in *. by rewrite length_map. }
  assert (Hlen : (length (img_blocks i) <= fuel)%nat).
  { rewrite <- Ei in Hlay. pose proof (blocks_le_entries Snappy Zstd Hlay) as Hle. rewrite Hent in Hle. unfold zlen in Hle. rewrite length_map in Hle. lia. }
  rewrite <- Ei in Hlay. destruct (table_iterator (bc_holds := bc_holds) Snappy Zstd Hlay Hinterval Hso Hsz
    ltac:(rewrite Ei; exact (im_file _ _ _ Hi)) t _ options (Some c) fuel Hop Hco Hlen) as (it & pos & Eit & HL & Hpos).
  rewrite Eit. cbn [mbind option_bind]. destruct (c_Release_ok _ _ h held _ F2) as (k' & Ek & Hk').
  exists it, t, h, tc1, (with_cache k' tc1). split; [done|]. rewrite Hcmp, Hent in HL. rewrite Hent, length_map in Hpos. split; [by exists (t, pos)|].
  split; [unfold UnrefEntry; by rewrite Ek|]. split; [|exact Eenv].
  exists own, held, c. split; [eapply c_ok_weaken; [|by intros ? ? Hp0; exact Hp0|exact Hk']; lia|]. done.
Qed.

Lemma file_iterator_spec b tc n size es :
  ready sst (S b) tc -> has_table sst tc n size es -> (length es <= fuel)%nat ->
  exists it tc', file_iterator (H := H) Snappy Zstd dbname o n size tc = Some (it, tc') /\ file_pos (map entry_kv es) it (length es).
Proof.
  intros Hr Ht Hfuel. destruct (NewIterator_spec b tc n size es Hr Ht Hfuel) as (it & t & h & tc1 & _ & E1 & Hp & _).
  unfold file_iterator. rewrite E1. cbn [mbind option_bind]. by exists (inr (t, it)), tc1.
Qed.

(** ** A level *)

(** A table that an iterator can be made for. *)
Definition readable tc (f : FilePtr) : Prop :=
  has_table sst tc (f_number f) (f_size f) (table_contents sst f) /\ file_ok (C := U) (table_contents sst) f /\ (length (table_contents sst f) <= fuel)%nat.

(** The entries of the table that a value names. *)
Definition value_entries (h : bytes) : list kv :=
  match sst (DecodeFixed64 h) with Some i => map entry_kv (img_entries i) | None => [] end.

Lemma value_entries_file tc f : readable tc f -> value_entries (file_value f) = map entry_kv (table_contents sst f).
Proof.
  intros [[Hn _] _]. unfold value_entries, file_value. rewrite DecodeFixed64_encode, u64_small by exact Hn. unfold table_contents. by destruct (sst (f_number f)).
Qed.

Lemma GetFileIterator_spec b tc f :
  ready sst (S b) tc -> readable tc f ->
  exists it p, GetFileIterator (H := H) Snappy Zstd dbname o tc (file_value f) = Some (it, tc) /\ file_pos (value_entries (file_value f)) it p.
Proof.
  intros Hr Hf. rewrite (value_entries_file tc f Hf). destruct Hf as (Ht & _ & Hfuel).
  destruct (file_iterator_spec b tc _ _ _ Hr Ht Hfuel) as (it & tc' & E1 & Hp). exists it, (length (table_contents sst f)). split; [|exact Hp].
  destruct Ht as [Hn (i & g & _ & Hi & _ & Hz & _)]. pose proof (im_file _ _ _ Hi). pose proof (zlen_nonneg (img_bytes i)).
  unfold GetFileIterator, file_value. rewrite zlen_app. unfold zlen at 1 2. rewrite !EncodeFixed64_len. cbn [Z.of_nat Z.add negb Pos.of_succ_nat Z.eqb].
  rewrite DecodeFixed64_encode. rewrite u64_small by exact Hn. rewrite drop_app_length' by (by rewrite EncodeFixed64_len).
  rewrite <- (app_nil_r (EncodeFixed64 (f_size f))), DecodeFixed64_encode, u64_small by lia. by rewrite E1.
Qed.

Lemma level_separates tc files : Forall (readable tc) files -> files_sorted (C := U) files ->
  (forall j k h e, level_kvs files !! j = Some (k, h) -> e ∈ value_entries h -> Compare (Comparator := IC) e.1 k <> Gt) /\
  (forall j j' k h k' h' e, level_kvs files !! j = Some (k, h) -> level_kvs files !! j' = Some (k', h') -> (j < j')%nat ->
     e ∈ value_entries h' -> Compare (Comparator := IC) k e.1 = Lt).
Proof.
  intros Hf Hs. rewrite Forall_forall in Hf.
  assert (Hin : forall j k h, level_kvs files !! j = Some (k, h) -> exists f, files !! j = Some f /\ readable tc f /\ k = f_largest f /\ h = file_value f).
  { intros j k h E1. unfold level_kvs in E1. rewrite list_lookup_fmap in E1. destruct (files !! j) as [f|] eqn:Ef; [|done]. injection E1 as <- <-.
    exists f. split; [done|]. split; [|done]. apply Hf. by eapply list_elem_of_lookup_2. }
  split.
  - intros j k h e (f & Ef & Hr & -> & ->)%Hin. rewrite (value_entries_file tc f Hr). intros (x & -> & Hx)%list_elem_of_fmap.
    destruct Hr as (_ & Hok & _). by apply (file_bounds (table_contents sst) f x Hok).
  - intros j j' k h k' h' e (f & Ef & Hr & -> & ->)%Hin (f' & Ef' & Hr' & -> & ->)%Hin Hlt. rewrite (value_entries_file tc f' Hr'). intros (x & -> & Hx)%list_elem_of_fmap.
    destruct Hr' as (_ & Hok & _). eapply (Compare_lt_le_trans (C := IC)); [exact (Hs j j' f f' Ef Ef' Hlt)|]. by apply (file_bounds (table_contents sst) f' x Hok).
Qed.

Definition level_pos tc (files : list FilePtr) : LevelIterator (E := E) (F := F) (KC := KC) (K := K) -> nat -> Prop :=
  two_level_pos (ikvs := level_kvs files) (B := value_entries) (PI := fun it i => it = mkLevelIter files i /\ (i <= length files)%nat)
    (PD := fun h => file_pos (value_entries h)) (EI := fun tc' => tc' = tc).

Lemma level_block_entries tc files : Forall (readable tc) files -> block_entries value_entries (level_kvs files) = map entry_kv (concat (map (table_contents sst) files)).
Proof.
  intros Hf. unfold block_entries, level_kvs. induction Hf as [|f files Hf _ IH]; [done|]. cbn [map concat snd]. rewrite map_app, (value_entries_file tc f Hf). by f_equal.
Qed.

Lemma level_index_laws tc files : Forall (readable tc) files -> files_sorted (C := U) files ->
  IteratorLaws (LevelFileNum_Iterator U) IC (level_kvs files) (fun it i => it = mkLevelIter files i /\ (i <= length files)%nat).
Proof. intros Hf Hs. apply LevelFileNum_laws, (level_kvs_sorted (table_contents sst)); [|done]. rewrite Forall_forall in Hf. intros f Hin. by apply Hf. Qed.

Lemma level_laws b tc files : ready sst (S b) tc -> Forall (readable tc) files -> files_sorted (C := U) files -> (length files <= fuel)%nat ->
  IteratorLaws LI IC (map entry_kv (concat (map (table_contents sst) files))) (level_pos tc files).
Proof.
  intros Hr Hf Hs Hfuel. rewrite <- (level_block_entries tc) by done. destruct (level_separates tc files Hf Hs) as [Hle Hgt].
  apply (TwoLevel_laws (HI := level_index_laws tc files Hf Hs)); [intros k h _; apply file_laws| |exact Hle|exact Hgt|by unfold level_kvs; rewrite length_map].
  - intros k h tc' (f & [= -> ->] & Hin)%list_elem_of_fmap ->. rewrite Forall_forall in Hf. destruct (GetFileIterator_spec b tc f Hr (Hf f Hin)) as (it & p & E1 & Hp).
    by exists it, tc, p.
Qed.

Lemma level_iterator_spec tc files : Forall (readable tc) files -> files_sorted (C := U) files ->
  exists it, level_iterator Snappy Zstd U fuel options files tc = Some it /\ level_pos tc files it (length (concat (map (table_contents sst) files))).
Proof.
  intros Hf Hs. destruct (NewTwoLevelIterator_pos (II := LevelFileNum_Iterator U) (ID := FI) (HI := level_index_laws tc files Hf Hs) (B := value_entries)
    (PD := fun h => file_pos (value_entries h)) (EI := fun tc' => tc' = tc) (LevelFileNumIterator_new files) tc (length files)) as (it & E1 & Hp); [done|done|].
  exists it. split; [exact E1|]. rewrite (level_block_entries tc), length_map in Hp by done. exact Hp.
Qed.

(** ** Several *)

(** What a child iterates over: a table, or a sorted run of tables. *)
Inductive Child := FileChild (f : FilePtr) | LevelChild (files : list FilePtr).

Definition child_entries (c : Child) : list Entry :=
  match c with FileChild f => table_contents sst f | LevelChild files => concat (map (table_contents sst) files) end.

Definition child_ok tc (c : Child) : Prop :=
  match c with
  | FileChild f => readable tc f
  | LevelChild files => Forall (readable tc) files /\ files_sorted (C := U) files /\ (length files <= fuel)%nat
  end.

Definition child_pos tc (c : Child) : TablesIterator (E := E) (F := F) (KC := KC) (K := K) -> nat -> Prop :=
  match c with
  | FileChild f => sum_pos (file_pos (map entry_kv (table_contents sst f))) none
  | LevelChild files => sum_pos none (level_pos tc files)
  end.

Lemma child_laws b tc c : ready sst (S b) tc -> child_ok tc c -> IteratorLaws TSI IC (map entry_kv (child_entries c)) (child_pos tc c).
Proof.
  intros Hr Hc. destruct c as [f|files]; apply sum_laws.
  - intros _. apply file_laws.
  - by intros (? & ? & []).
  - by intros (? & ? & []).
  - intros _. destruct Hc as (H1 & H2 & H3). by eapply level_laws.
Qed.

Lemma run_sorted tc files : Forall (readable tc) files -> files_sorted (C := U) files -> entries_sorted U (concat (map (table_contents sst) files)).
Proof.
  intros Hf. induction Hf as [|f files Hf Hfs IH]; intros Hs; [constructor|]. cbn [map concat]. unfold entries_sorted, kvs_sorted. rewrite map_app.
  destruct Hf as (Ht & Hok & Hlen). apply StronglySorted_app. split; [|split; [exact (fo_sorted _ _ Hok)|]].
  - intros x y (e & -> & He)%list_elem_of_fmap (e' & -> & (f' & Hf' & He')%elem_concat)%list_elem_of_fmap. rewrite Forall_forall in Hfs. destruct (Hfs f' Hf') as (_ & Hok' & _).
    apply list_elem_of_lookup in Hf' as [j Hj]. unfold kv_lt. cbn [fst entry_kv].
    eapply (Compare_le_lt_trans (C := IC)); [by apply (file_bounds (table_contents sst) f e Hok)|].
    eapply (Compare_lt_le_trans (C := IC)); [exact (Hs 0%nat (S j) f f' eq_refl Hj ltac:(lia))|]. by apply (file_bounds (table_contents sst) f' e' Hok').
  - apply IH. intros i j g g' Hi Hj Hlt. by apply (Hs (S i) (S j) g g'); [| |lia].
Qed.

Lemma child_sorted tc c : child_ok tc c -> kvs_sorted IC (map entry_kv (child_entries c)).
Proof. destruct c as [f|files]; [intros (_ & Hok & _); exact (fo_sorted _ _ Hok)|intros (H1 & H2 & _); by apply (run_sorted tc)]. Qed.

Lemma file_iterators_spec b tc files : ready sst (S b) tc -> Forall (readable tc) files ->
  exists its, file_iterators (H := H) Snappy Zstd dbname o files tc = Some its /\ Forall2 (fun c it => exists i, child_pos tc c it i) (map FileChild files) its.
Proof.
  intros Hr Hf. induction Hf as [|f files (Ht & Hok & Hlen) Hf (its & E1 & H1)]; [by exists []|].
  destruct (file_iterator_spec b tc _ _ _ Hr Ht Hlen) as (it & tc' & E2 & Hp). unfold file_iterators in *. cbn [mapM]. rewrite E2. cbn [mbind option_bind]. rewrite E1. cbn [mbind option_bind].
  eexists. split; [done|]. constructor; [|exact H1]. by exists (length (table_contents sst f)).
Qed.

Definition run_child (files : list FilePtr) : list Child := match files with [] => [] | _ => [LevelChild files] end.

Lemma level_iterators_spec tc files : Forall (child_ok tc) (run_child files) ->
  exists its, level_iterators Snappy Zstd U fuel options files tc = Some its /\ Forall2 (fun c it => exists i, child_pos tc c it i) (run_child files) its.
Proof.
  destruct files as [|f files]; [by exists []|]. intros (Hf & Hs & Hl)%Forall_singleton.
  destruct (level_iterator_spec tc (f :: files) Hf Hs) as (it & E1 & Hp). unfold level_iterators. rewrite E1. cbn [mbind option_bind].
  eexists. split; [done|]. constructor; [|constructor]. eexists. exact Hp.
Qed.

(** *** The tables of a version *)

Definition version_children (v : Version) : list Child :=
  map FileChild (level_files v 0) ++ concat (map (fun level => run_child (level_files v level)) (seq 1 (kNumLevels - 1))).

Lemma level_children_spec tc v levels : Forall (child_ok tc) (concat (map (fun level => run_child (level_files v level)) levels)) ->
  exists its, mapM (fun level => level_iterators Snappy Zstd U fuel options (level_files v level) tc) levels = Some its /\
    Forall2 (fun c it => exists i, child_pos tc c it i) (concat (map (fun level => run_child (level_files v level)) levels)) (concat its).
Proof.
  induction levels as [|level levels IH]; [by exists []|]. cbn [map concat]. intros [Hc Hcs]%Forall_app.
  destruct (IH Hcs) as (its & E1 & H1). destruct (level_iterators_spec tc _ Hc) as (it & E2 & H2).
  cbn [mapM]. rewrite E2. cbn [mbind option_bind]. rewrite E1. cbn [mbind option_bind]. eexists. split; [done|]. cbn [concat]. by apply Forall2_app.
Qed.

Lemma AddIterators_spec b tc v : ready sst (S b) tc -> Forall (child_ok tc) (version_children v) ->
  exists its, AddIterators (H := H) Snappy Zstd U dbname o fuel options v tc = Some its /\
    Forall2 (fun c it => exists i, child_pos tc c it i) (version_children v) its.
Proof.
  intros Hr [H0 H1]%Forall_app. rewrite Forall_map in H0. unfold AddIterators.
  destruct (file_iterators_spec b tc (level_files v 0) Hr H0) as (its & -> & F0). cbn [mbind option_bind].
  destruct (level_children_spec tc v (seq 1 (kNumLevels - 1)) H1) as (its' & -> & F1). cbn [mbind option_bind]. eexists. split; [done|]. by apply Forall2_app.
Qed.

(** A merge of children. *)
Lemma merged_spec b tc cs its es : ready sst (S b) tc -> Forall (child_ok tc) cs -> Forall2 (fun c it => exists i, child_pos tc c it i) cs its ->
  entries_sorted U es -> es ≡ₚ concat (map child_entries cs) ->
  exists it pos i, NewMergingIterator (I := TSI) its = Some it /\
    IteratorLaws (Sum_Iterator (IB := Sum_Iterator (IB := MergingIterator_Iterator (I := TSI) IC))) IC (map entry_kv es) pos /\ pos it i.
Proof.
  intros Hr Hok Hpos Hs Hperm. pose proof (Forall2_length _ _ _ Hpos) as Hlen.
  assert (Hlook : forall j kvs, map (fun c => map entry_kv (child_entries c)) cs !! j = Some kvs -> exists c, cs !! j = Some c /\ child_ok tc c /\ kvs = map entry_kv (child_entries c)).
  { intros j kvs. rewrite list_lookup_fmap. destruct (cs !! j) as [c|] eqn:Ec; [|done]. intros [= <-]. exists c. split; [done|]. split; [|done].
    rewrite Forall_lookup in Hok. by eapply Hok. }
  apply (NewMergingIterator_laws its (map (fun c => map entry_kv (child_entries c)) cs) (map entry_kv es)
    (fun j => match cs !! j with Some c => child_pos tc c | None => none end)).
  - split; [|exact Hs]. rewrite Hperm, concat_map, map_map. done.
  - by rewrite length_map.
  - intros j kvs (c & _ & Hc & ->)%Hlook. by apply (child_sorted tc).
  - done.
  - intros j kvs (c & Ec & Hc & ->)%Hlook. rewrite Ec. by apply (child_laws b).
  - intros j s kvs Ej (c & Ec & Hc & _)%Hlook. rewrite Ec. destruct (Forall2_lookup_l _ _ _ _ _ Hpos Ec) as (s' & Ej' & Hi). rewrite Ej in Ej'. by injection Ej' as ->.
Qed.
End Laws.

(** ** The input of a compaction *)

Section Input.
Context `{CS : Checksum} {E F KC H K : Type} {R : RandomAccessFile F} {RF : RandomAccessFiles E F}.
Context {raf_contents : F -> bytes} {RL : RandomAccessFileLaws R raf_contents}.
Context {CO : CacheOps KC H (Table F) TableDeleter} {c_ok : nat -> (bytes -> Table F -> Prop) -> list H -> KC -> Prop} {CL : CacheLaws CO c_ok}.
Context {BC : BlockCache K} {bc_holds : K -> bytes -> Block -> Prop} {BL : BlockCacheLaws BC bc_holds} {bc_next : K -> Z} {BI : BlockCacheIds BC bc_next}.
Context (Snappy Zstd : Compressor) {SL : CompressorLaws Snappy} {ZL : CompressorLaws Zstd}.
Context {U : Comparator} {UL : ComparatorLaws U} {o : Options} (dbname : bytes).
Context (Hcmp : comparator o = InternalKeyComparator U) (Hinterval : 1 <= block_restart_interval o).
Context (Hfilter : forall name P, filter_policy o = Some (name, P) ->
  exists P0, P = InternalFilterPolicy P0 /\ FilterPolicyLaws P0 /\ zlen name < 2 ^ 31 /\ forall a b, Compare (Comparator := U) a b = Eq -> a = b).
Variables (sst : Z -> option TableImage) (fuel : nat).
Notation TC := (TableCacheState E KC K).
Notation ready := (cache_ready (raf_contents := raf_contents) (c_ok := c_ok) (bc_holds := bc_holds) (bc_next := bc_next) Snappy Zstd (U := U) (o := o)).
Notation child_ok := (child_ok (raf_contents := raf_contents) Snappy Zstd (U := U) (o := o) dbname sst fuel).
Implicit Types tc : TC.

Definition input_children (c : Compaction) : list Child :=
  (if (c_level c =? 0)%nat then map FileChild (c_inputs0 c) else run_child (c_inputs0 c)) ++ run_child (c_inputs1 c).

Lemma MakeInputIterator_spec b tc c es : ready sst (S b) tc -> Forall (child_ok tc) (input_children c) ->
  entries_sorted U es -> es ≡ₚ concat (map (child_entries sst) (input_children c)) ->
  exists it pos i, MakeInputIterator (H := H) Snappy Zstd U dbname o fuel c tc = Some it /\
    IteratorLaws (Input_Iterator (H := H) Snappy Zstd U dbname o fuel) (InternalKeyComparator U) (map entry_kv es) pos /\ pos it i.
Proof.
  intros Hr [H0 H1]%Forall_app Hs Hperm. unfold MakeInputIterator. rewrite Nat.add_0_r. change (c_inputs c 0) with (c_inputs0 c).
  assert (Hc0 : exists its, (if (c_level c =? 0)%nat then file_iterators (H := H) Snappy Zstd dbname o (c_inputs0 c) tc
      else level_iterators Snappy Zstd U fuel (input_options o) (c_inputs0 c) tc) = Some its /\
    Forall2 (fun c it => exists i, child_pos (U := U) (E := E) (KC := KC) Snappy Zstd sst (input_options o) fuel tc c it i)
      (if (c_level c =? 0)%nat then map FileChild (c_inputs0 c) else run_child (c_inputs0 c)) its).
  { destruct (c_level c =? 0)%nat; [apply (file_iterators_spec Snappy Zstd dbname Hcmp Hinterval Hfilter sst (input_options o) fuel b); [done|by rewrite Forall_map in H0]|].
    by apply (level_iterators_spec (o := o) (raf_contents := raf_contents) Snappy Zstd dbname). }
  destruct Hc0 as (its0 & -> & F0). cbn [mbind option_bind]. rewrite (proj2 (Nat.eqb_neq (c_level c + 1) 0)) by lia. change (c_inputs c 1) with (c_inputs1 c).
  destruct (level_iterators_spec (o := o) (raf_contents := raf_contents) Snappy Zstd dbname sst (input_options o) fuel tc (c_inputs1 c) H1) as (its1 & -> & F1). cbn [mbind option_bind].
  apply (merged_spec Snappy Zstd dbname Hcmp Hinterval Hfilter sst (input_options o) fuel b tc (input_children c)); [done|by apply Forall_app|by apply Forall2_app|done|exact Hperm].
Qed.
End Input.
