(* ===== verification/DBImpl.v ===== *)
(** * db/db_impl: the state of a database

    The members of [DBImpl] of src/db/db_impl.h that recovery, reads and
    compactions use, with the list of snapshots of src/db/snapshot.h, and the
    small operations on them: [GetSnapshot], [ReleaseSnapshot],
    [RecordBackgroundError] and [MaybeScheduleCompaction].  The set of versions
    holds the environment, in which the table cache works too.  [None] is a failed
    assertion. *)

From Stdlib Require Import SpecFloat.
From stdpp Require Import gmap.
From S2P Require Import Prelude Coding Status Block Format Table TableCache LogWriter MemTable Version VersionSet.

(** The calls of [Env] about the directory and its lock. *)
Class EnvDirectory (E : Type) := {
  CreateDir : bytes -> E -> E;
  LockFile : bytes -> E -> Status * E;
  FileExists : bytes -> E -> bool;
  GetChildren : bytes -> E -> Status * list bytes;
}.

(** ** Snapshots *)

(** [SnapshotImpl], and the list from [head_.next_] to [head_.prev_] with the
    address of the next object. *)
Record SnapshotImpl := mkSnapshot { sn_addr : Z; sn_sequence : Z }.
Record SnapshotList := mkSnapshots { sl_snapshots : list SnapshotImpl; sl_next_addr : Z }.

Section Snapshots.
Definition snapshots_empty (l : SnapshotList) : bool := bool_decide (sl_snapshots l = []).
Definition oldest (l : SnapshotList) : option SnapshotImpl := sl_snapshots l !! 0%nat.
Definition newest (l : SnapshotList) : option SnapshotImpl := last (sl_snapshots l).

(** [SnapshotList::New] *)
Definition New (sequence_number : Z) (l : SnapshotList) : option (SnapshotImpl * SnapshotList) :=
  if match newest l with None => true | Some s => sn_sequence s <=? sequence_number end then
    let snapshot := mkSnapshot (sl_next_addr l) sequence_number in
    Some (snapshot, mkSnapshots (sl_snapshots l ++ [snapshot]) (sl_next_addr l + 1))
  else None.

(** [SnapshotList::Delete] *)
Definition Delete (snapshot : SnapshotImpl) (l : SnapshotList) : option SnapshotList :=
  if bool_decide (sn_addr snapshot ∈ map sn_addr (sl_snapshots l)) then
    Some (mkSnapshots (List.filter (fun s => negb (sn_addr s =? sn_addr snapshot)) (sl_snapshots l)) (sl_next_addr l))
  else None.
End Snapshots.

(** ** The members *)

Record ManualCompaction := mkManual {
  mc_level : nat;
  mc_done : bool;
  mc_begin : option bytes;
  mc_end : option bytes;
}.

(** What the background work shares with the other threads.  The requests of
    manual compactions are objects of the threads that wait for them. *)
Record Shared := mkShared {
  snapshots_ : SnapshotList;
  seed_ : Z;
  sh_bg_error : Status;
  shutting_down_ : bool;
  sh_scheduled : bool;
  manual_compaction_ : option Z;
  sh_manuals : gmap Z ManualCompaction;
}.

Definition Shared_new : Shared := mkShared (mkSnapshots [] 0) 0 OK false false None ∅.

Definition with_snapshots (l : SnapshotList) (sh : Shared) : Shared :=
  mkShared l (seed_ sh) (sh_bg_error sh) (shutting_down_ sh) (sh_scheduled sh) (manual_compaction_ sh) (sh_manuals sh).
Definition with_seed (n : Z) (sh : Shared) : Shared :=
  mkShared (snapshots_ sh) n (sh_bg_error sh) (shutting_down_ sh) (sh_scheduled sh) (manual_compaction_ sh) (sh_manuals sh).
Definition with_bg_error (s : Status) (sh : Shared) : Shared :=
  mkShared (snapshots_ sh) (seed_ sh) s (shutting_down_ sh) (sh_scheduled sh) (manual_compaction_ sh) (sh_manuals sh).
Definition with_scheduled (b : bool) (sh : Shared) : Shared :=
  mkShared (snapshots_ sh) (seed_ sh) (sh_bg_error sh) (shutting_down_ sh) b (manual_compaction_ sh) (sh_manuals sh).
Definition with_manual (m : option Z) (ms : gmap Z ManualCompaction) (sh : Shared) : Shared :=
  mkShared (snapshots_ sh) (seed_ sh) (sh_bg_error sh) (shutting_down_ sh) (sh_scheduled sh) m ms.

Section DBImpl.
Context {E W KC K : Type}.

Record DBImpl := mkDBImpl {
  db_versions : VersionSet W E;
  db_tables : KC;
  db_blocks : option K;
  pending_outputs_ : gset Z;
  db_mem : option MemTable;
  db_imm : option MemTable;
  db_log : option (Writer W);
  db_logfile_number : Z;
  db_shared : Shared;
}.

Definition with_db_versions (v : VersionSet W E) (db : DBImpl) : DBImpl :=
  mkDBImpl v (db_tables db) (db_blocks db) (pending_outputs_ db) (db_mem db) (db_imm db) (db_log db) (db_logfile_number db) (db_shared db).
Definition with_pending (p : gset Z) (db : DBImpl) : DBImpl :=
  mkDBImpl (db_versions db) (db_tables db) (db_blocks db) p (db_mem db) (db_imm db) (db_log db) (db_logfile_number db) (db_shared db).
Definition with_db_imm (imm : option MemTable) (db : DBImpl) : DBImpl :=
  mkDBImpl (db_versions db) (db_tables db) (db_blocks db) (pending_outputs_ db) (db_mem db) imm (db_log db) (db_logfile_number db) (db_shared db).
Definition with_db_log (mem : MemTable) (log : Writer W) (number : Z) (db : DBImpl) : DBImpl :=
  mkDBImpl (db_versions db) (db_tables db) (db_blocks db) (pending_outputs_ db) (Some mem) (db_imm db) (Some log) number (db_shared db).
Definition with_shared (sh : Shared) (db : DBImpl) : DBImpl :=
  mkDBImpl (db_versions db) (db_tables db) (db_blocks db) (pending_outputs_ db) (db_mem db) (db_imm db) (db_log db) (db_logfile_number db) sh.

Definition db_env (db : DBImpl) : E := vs_env (db_versions db).
Definition with_db_env (e : E) (db : DBImpl) : DBImpl := with_db_versions (with_vs_env e (db_versions db)) db.

(** The table cache works in the same environment. *)
Definition table_cache_ (db : DBImpl) : TableCacheState E KC K := mkTC (db_env db) (db_tables db) (db_blocks db).
Definition with_table_cache (tc : TableCacheState E KC K) (db : DBImpl) : DBImpl :=
  mkDBImpl (with_vs_env (tcs_env tc) (db_versions db)) (cache_ tc) (tcs_blocks tc) (pending_outputs_ db) (db_mem db) (db_imm db) (db_log db)
    (db_logfile_number db) (db_shared db).

(** ** Snapshots *)

Definition GetSnapshot (db : DBImpl) : option (SnapshotImpl * DBImpl) :=
  '(snapshot, l) ← New (vs_last_sequence (db_versions db)) (snapshots_ (db_shared db));
  Some (snapshot, with_shared (with_snapshots l (db_shared db)) db).

Definition ReleaseSnapshot (snapshot : SnapshotImpl) (db : DBImpl) : option DBImpl :=
  l ← Delete snapshot (snapshots_ (db_shared db));
  Some (with_shared (with_snapshots l (db_shared db)) db).

(** ** Background work *)

(** The waiters that it signals are not part of this state. *)
Definition RecordBackgroundError (s : Status) (db : DBImpl) : DBImpl :=
  if ok (sh_bg_error (db_shared db)) then with_shared (with_bg_error s (db_shared db)) db else db.

(** [VersionSet::NeedsCompaction] *)
Definition NeedsCompaction (vs : VersionSet W E) : option bool :=
  v ← current vs;
  Some (SFleb (double_of_Z 1) (compaction_score_ v) || match file_to_compact_ v with Some _ => true | None => false end).

(** [env_->Schedule] puts [BGWork] into the queue of the environment; it is there
    or runs while [sh_scheduled]. *)
Definition MaybeScheduleCompaction (db : DBImpl) : option DBImpl :=
  let sh := db_shared db in
  if sh_scheduled sh then Some db
  else if shutting_down_ sh then Some db
  else if negb (ok (sh_bg_error sh)) then Some db
  else
    work ← (match db_imm db, manual_compaction_ sh with
            | None, None => NeedsCompaction (db_versions db)
            | _, _ => Some true
            end);
    Some (if (work : bool) then with_shared (with_scheduled true sh) db else db).
End DBImpl.

Arguments DBImpl : clear implicits.
