(* ===== verification/Repair.v ===== *)
(** * db/repair: repairing a database

    Models src/db/repair.cc, and [DestroyDB] of src/db/db_impl.cc.  A repair turns the
    logs into tables, scans every table for its bounds and its largest sequence
    number, copies what can be read of the tables that cannot be read to the end, and
    writes a new manifest that has all of them in level 0.  Messages to the
    information log are left out.  [None] is a failed assertion, or too little fuel.

    An open iterator over a table works on its own copy of the block cache, as in
    InputIterator.v; the handle of the table is released when the iterator is
    deleted. *)

From Stdlib Require Import Sorted.
From stdpp Require Import gmap sorting.
From S2P Require Import Prelude Coding Comparator Crc32c Bloom DbFormat Status Iterator IteratorWrapper TwoLevelIterator BlockBuilder Block Format FilterBlock TableBuilder Table SkipList MemTable UserView MemIter WriteBatch Filename.
From S2P Require Import VersionEdit Options Version VersionGet InternalTable TableCache BuildTable LogWriter LogReader LogReplay Compaction InputIterator DBImpl.

(** The calls of [Env] that only [DestroyDB] makes. *)
Class EnvRemoval (E : Type) := {
  UnlockFile : bytes -> E -> E;
  RemoveDir : bytes -> E -> E;
}.

Section Repair.
Context `{CS : Checksum} {E F RA W KC H K : Type} {SF : SequentialFile F} {R : RandomAccessFile RA} {WF : WritableFile W}.
Context {LF : LogFiles E W} {NS : SequentialFiles E F} {AF : AppendableFiles E W} {EF : EnvFiles E} {ED : EnvDirectory E}.
Context {RF : RandomAccessFiles E RA} {TF : TableFiles E W} {CO : CacheOps KC H (Table RA) TableDeleter} {BC : BlockCache K}.
Variables (Snappy Zstd : Compressor) (C : Comparator) (comparator_name dbname_ : bytes) (options_ : Options).
Notation TC := (TableCacheState E KC K).

(** ** The state *)

Record TableInfo := mkTableInfo { ti_meta : FileMetaData; max_sequence : Z }.

(** The members that change; the environment is in the table cache.  [edit_] is only
    used in [WriteDescriptor]. *)
Record Repairer := mkRepairer {
  manifests_ : list bytes;
  table_numbers_ : list Z;
  logs_ : list Z;
  tables_ : list TableInfo;
  rp_next_file_number : Z;
  rp_table_cache : TC;
}.

Definition Repairer_new (tc : TC) : Repairer := mkRepairer [] [] [] [] 1 tc.

Notation rp_env r := (tcs_env (rp_table_cache r)).
Definition with_rp_cache (tc : TC) (r : Repairer) : Repairer := mkRepairer (manifests_ r) (table_numbers_ r) (logs_ r) (tables_ r) (rp_next_file_number r) tc.
Definition with_rp_env (e : E) (r : Repairer) : Repairer := with_rp_cache (with_tcs_env e (rp_table_cache r)) r.
Definition add_table (t : TableInfo) (r : Repairer) : Repairer :=
  mkRepairer (manifests_ r) (table_numbers_ r) (logs_ r) (tables_ r ++ [t]) (rp_next_file_number r) (rp_table_cache r).
Definition add_table_number (n : Z) (r : Repairer) : Repairer :=
  mkRepairer (manifests_ r) (table_numbers_ r ++ [n]) (logs_ r) (tables_ r) (rp_next_file_number r) (rp_table_cache r).

(** [next_file_number_++] *)
Definition take_number (r : Repairer) : Z * Repairer :=
  (rp_next_file_number r, mkRepairer (manifests_ r) (table_numbers_ r) (logs_ r) (tables_ r) (u64 (rp_next_file_number r + 1)) (rp_table_cache r)).

(** ** [FindFiles] *)

Definition find_file (filename : bytes) (r : Repairer) : Repairer :=
  match ParseFileName filename with
  | Some (_, kDescriptorFile) =>
      mkRepairer (manifests_ r ++ [filename]) (table_numbers_ r) (logs_ r) (tables_ r) (rp_next_file_number r) (rp_table_cache r)
  | Some (number, type) =>
      let next := if rp_next_file_number r <? u64 (number + 1) then u64 (number + 1) else rp_next_file_number r in
      mkRepairer (manifests_ r) (if bool_decide (type = kTableFile) then table_numbers_ r ++ [number] else table_numbers_ r)
        (if bool_decide (type = kLogFile) then logs_ r ++ [number] else logs_ r) (tables_ r) next (rp_table_cache r)
  | None => r
  end.

Definition FindFiles (r : Repairer) : Status * Repairer :=
  let '(status, filenames) := GetChildren dbname_ (rp_env r) in
  if negb (ok status) then (status, r)
  else if bool_decide (filenames = []) then (IOError dbname_ (cstr "repair found no files"), r)
  else (OK, fold_left (fun r filename => find_file filename r) filenames r).

(** ** [ArchiveFile] *)

(** The string up to a zero. *)
Fixpoint c_str (s : bytes) : bytes :=
  match s with
  | [] => []
  | c :: s => if bool_decide (c = x00) then [] else c :: c_str s
  end.

(** [strrchr(s, '/')]: the last index. *)
Fixpoint last_slash (s : bytes) : option nat :=
  match s with
  | [] => None
  | c :: s =>
      match last_slash s with
      | Some i => Some (Datatypes.S i)
      | None => if bool_decide (c = x2f) then Some O else None
      end
  end.

Definition archive_dir (fname : bytes) : bytes :=
  (match last_slash (c_str fname) with Some i => take i fname | None => [] end) ++ cstr "/lost".
Definition archive_name (fname : bytes) : bytes :=
  archive_dir fname ++ cstr "/" ++ (match last_slash (c_str fname) with Some i => drop (i + 1) (c_str fname) | None => c_str fname end).

Definition ArchiveFile (fname : bytes) (env : E) : E := (Filename.RenameFile (CreateDir (archive_dir fname) env) fname (archive_name fname)).2.

(** ** [ConvertLogToTable] *)

(** Errors are logged, and the loop goes on. *)
Definition convert_record (record : bytes) (mem : MemTable) : option (bool * MemTable) :=
  if zlen record <? 12 then Some (true, mem)
  else mem ← (InsertInto C (SetContents record) mem).2; Some (true, mem).

Definition ConvertLogToTable (fuel : nat) (log : Z) (r : Repairer) : option (Status * Repairer) :=
  match NewSequentialFile (LogFileName dbname_ log) (rp_env r) with
  | inl status => Some (status, r)
  | inr lfile =>
      mem ← record_loop (fun _ => OK) (fun _ mem => mem) convert_record fuel fuel (Reader_new lfile (Some []) false 0) MemTable_new;
      let '(n, r) := take_number r in
      '(status, meta, tc) ← BuildTable (S := MemTableIterator) (I := MemTableIterator_Iterator C) Snappy Zstd dbname_ options_ (Datatypes.S (length (nodes mem)))
        (MemTable_NewIterator mem) (FileMetaData_new n 0 [] []) (rp_table_cache r);
      let r := with_rp_cache tc r in
      Some (status, if ok status && (0 <? file_size meta) then add_table_number n r else r)
  end.

Definition ConvertLogFilesToTables (fuel : nat) (r : Repairer) : option Repairer :=
  foldl (fun r log =>
    r ← r;
    '(_, r) ← ConvertLogToTable fuel log r;
    Some (with_rp_env (ArchiveFile (LogFileName dbname_ log) (rp_env r)) r)) (Some r) (logs_ r).

(** ** [ScanTable] *)

Definition table_options : ReadOptions := mkReadOptions (paranoid_checks options_) true None.

(** The iterator, and the handle of its table. *)
Definition NewTableIterator (meta : FileMetaData) (tc : TC) : option (FileIterator * option H * TC) :=
  '(r, tc) ← TableCache_NewIterator Snappy Zstd dbname_ options_ (number meta) (file_size meta) tc;
  Some (match r with
        | inl s => (inl (NewErrorIterator s), None, tc)
        | inr (it, table, handle) => (inr (table, it), Some handle, tc)
        end).

Definition delete_iterator (handle : option H) (tc : TC) : option TC :=
  match handle with Some h => UnrefEntry h tc | None => Some tc end.

Section Scan.
Context {S : Type} {I : Iterator.Iterator S}.

(** [for (iter->SeekToFirst(); iter->Valid(); iter->Next())], with the variable
    [empty]. *)
Fixpoint scan_loop (fuel : nat) (iter : S) (empty : bool) (t : TableInfo) : option (S * TableInfo) :=
  match fuel with
  | O => None
  | Datatypes.S fuel =>
      if it_Valid iter then
        key ← it_key iter;
        let '(empty, t) :=
          match ParseInternalKey key with
          | None => (empty, t)
          | Some parsed =>
              let meta := with_largest key (if empty then with_smallest key (ti_meta t) else ti_meta t) in
              (false, mkTableInfo meta (if max_sequence t <? sequence parsed then sequence parsed else max_sequence t))
          end in
        iter ← it_Next iter;
        scan_loop fuel iter empty t
      else Some (iter, t)
  end.

(** The loop of [RepairTable]; [counter] is the number of entries. *)
Fixpoint copy_loop (fuel : nat) (iter : S) (builder : TableBuilder W) (counter : nat) : option (S * TableBuilder W * nat) :=
  match fuel with
  | O => None
  | Datatypes.S fuel =>
      if it_Valid iter then
        key ← it_key iter;
        value ← it_value iter;
        builder ← Add Snappy Zstd builder key value;
        iter ← it_Next iter;
        copy_loop fuel iter builder (Datatypes.S counter)
      else Some (iter, builder, counter)
  end.
End Scan.

(** ** [RepairTable] *)

Definition RepairTable (fuel : nat) (src : bytes) (t : TableInfo) (r : Repairer) : option Repairer :=
  let '(n, r) := take_number r in
  let copy := TableFileName dbname_ n in
  let '(f, env) := NewWritableFile copy (rp_env r) in
  let r := with_rp_env env r in
  match f with
  | inl _ => Some r
  | inr file =>
      '(iter, handle, tc) ← NewTableIterator (ti_meta t) (rp_table_cache r);
      iter ← it_SeekToFirst (Iterator := File_Iterator Snappy Zstd fuel table_options) iter;
      '(_, builder, counter) ← copy_loop (I := File_Iterator Snappy Zstd fuel table_options) fuel iter (TableBuilder_new options_ file) 0;
      tc ← delete_iterator handle tc;
      let r := with_rp_env (ArchiveFile src (tcs_env tc)) (with_rp_cache tc r) in
      '(s, t, builder) ← (if (counter =? 0)%nat then builder ← Abandon builder; Some (OK, t, builder)
                          else '(s, builder) ← Finish Snappy Zstd builder;
                               Some (s, if ok s then mkTableInfo (with_size (FileSize builder) (ti_meta t)) (max_sequence t) else t, builder));
      let '(s, env) := if ok s then CloseWritableFile copy (r_file builder) (rp_env r) else (s, rp_env r) in
      let '(s, added, env) :=
        if (0 <? counter)%nat && ok s then
          let '(s, env) := Filename.RenameFile env copy (TableFileName dbname_ (number (ti_meta t))) in (s, ok s, env)
        else (s, false, env) in
      let r := with_rp_env env r in
      let r := if added then add_table t r else r in
      Some (if negb (ok s) then with_rp_env (Filename.RemoveFile (rp_env r) copy).2 r else r)
  end.

Definition ScanTable (fuel : nat) (n : Z) (r : Repairer) : option Repairer :=
  let '(fname, size) :=
    match GetFileSize (TableFileName dbname_ n) (rp_env r) with
    | inr size => (TableFileName dbname_ n, Some size)
    | inl _ => (SSTTableFileName dbname_ n, match GetFileSize (SSTTableFileName dbname_ n) (rp_env r) with inr size => Some size | inl _ => None end)
    end in
  match size with
  | None => Some (with_rp_env (ArchiveFile (SSTTableFileName dbname_ n) (ArchiveFile (TableFileName dbname_ n) (rp_env r))) r)
  | Some size =>
      let t := mkTableInfo (FileMetaData_new n size [] []) 0 in
      '(iter, handle, tc) ← NewTableIterator (ti_meta t) (rp_table_cache r);
      iter ← it_SeekToFirst (Iterator := File_Iterator Snappy Zstd fuel table_options) iter;
      '(iter, t) ← scan_loop (I := File_Iterator Snappy Zstd fuel table_options) fuel iter true t;
      tc ← delete_iterator handle tc;
      let r := with_rp_cache tc r in
      if ok (it_status (Iterator := File_Iterator Snappy Zstd fuel table_options) iter) then Some (add_table t r) else RepairTable fuel fname t r
  end.

Definition ExtractMetaData (fuel : nat) (r : Repairer) : option Repairer :=
  foldl (fun r n => r ← r; ScanTable fuel n r) (Some r) (table_numbers_ r).

(** ** [WriteDescriptor] *)

Definition descriptor_edit (r : Repairer) : VersionEdit :=
  let max_sequence := fold_left (fun m t => if m <? max_sequence t then max_sequence t else m) (tables_ r) 0 in
  let edit := SetLastSequence (SetNextFile (SetLogNumber (SetComparatorName Clear comparator_name) 0) (rp_next_file_number r)) max_sequence in
  fold_left (fun edit t => AddFile edit 0 (number (ti_meta t)) (file_size (ti_meta t)) (smallest (ti_meta t)) (largest (ti_meta t))) (tables_ r) edit.

Definition write_descriptor (r : Repairer) (env : E) : Status * E :=
  let tmp := TempFileName dbname_ 1 in
  let '(f, env) := NewWritableFile tmp env in
  match f with
  | inl status => (status, env)
  | inr file =>
      let '(status, log) := AddRecord (Writer_new file) (EncodeTo (descriptor_edit r) []) in
      let '(status, env) := if ok status then CloseWritableFile tmp (dest_ log) env else (status, env) in
      if negb (ok status) then (status, (Filename.RemoveFile env tmp).2)
      else
        let env := fold_left (fun env manifest => ArchiveFile (dbname_ ++ cstr "/" ++ manifest) env) (manifests_ r) env in
        let '(status, env) := Filename.RenameFile env tmp (DescriptorFileName dbname_ 1) in
        if ok status then SetCurrentFile env dbname_ 1 else (status, (Filename.RemoveFile env tmp).2)
  end.

Definition WriteDescriptor (r : Repairer) : Status * Repairer :=
  let '(status, env) := write_descriptor r (rp_env r) in (status, with_rp_env env r).

(** ** [Run] *)

Definition Run (fuel : nat) (r : Repairer) : option (Status * Repairer) :=
  let '(status, r) := FindFiles r in
  if ok status then
    r ← ConvertLogFilesToTables fuel r;
    r ← ExtractMetaData fuel r;
    Some (WriteDescriptor r)
  else Some (status, r).

(** The status, and the environment. *)
Definition RepairDB (fuel : nat) (tc : TC) : option (Status * E) :=
  '(status, r) ← Run fuel (Repairer_new tc); Some (status, rp_env r).
End Repair.

(** ** [DestroyDB] *)

Section Destroy.
Context {E : Type} {EF : EnvFiles E} {ED : EnvDirectory E} {ER : EnvRemoval E}.

(** A file of the database, but for the lock. *)
Definition destroys (filename : bytes) : bool :=
  match ParseFileName filename with Some (_, type) => negb (bool_decide (type = kDBLockFile)) | None => false end.

Definition destroy_files (dbname : bytes) (filenames : list bytes) (env : E) : Status * E :=
  fold_left (fun '(result, env) filename =>
    if destroys filename then
      let '(del, env) := Filename.RemoveFile env (dbname ++ cstr "/" ++ filename) in
      (if ok result && negb (ok del) then del else result, env)
    else (result, env)) filenames (OK, env).

Definition DestroyDB (dbname : bytes) (env : E) : Status * E :=
  let '(result, filenames) := GetChildren dbname env in
  if negb (ok result) then (OK, env)
  else
    let lockname := LockFileName dbname in
    let '(result, env) := LockFile lockname env in
    if ok result then
      let '(result, env) := destroy_files dbname filenames env in
      let env := UnlockFile lockname env in
      let env := (Filename.RemoveFile env lockname).2 in
      (result, RemoveDir dbname env)
    else (result, env).

End Destroy.
