(* ===== verification/Obsolete.v ===== *)
(** * db/db_impl: removing obsolete files

    Models [DBImpl::RemoveObsoleteFiles] of src/db/db_impl.cc, and shows that it
    removes files of numbers and kinds that are not in use, and nothing else.  The
    files are removed without the mutex; [others] is what the other threads do to
    the state meanwhile. *)

From stdpp Require Import gmap sorting.
From S2P Require Import Prelude Coding Comparator Crc32c DbFormat Status Block Format Table MemTable VersionEdit Options Filename.
From S2P Require Import Version TableCache LogWriter VersionBuilder VersionSet MemoryFiles DBImpl.

Section Obsolete.
Context `{CS : Checksum} {E F W KC H K : Type} {R : RandomAccessFile F} {RF : RandomAccessFiles E F}.
Context {EF : EnvFiles E} {ED : EnvDirectory E} {CO : CacheOps KC H (Table F) TableDeleter} {BC : BlockCache K}.
Variable dbname_ : bytes.
Notation DBImpl := (DBImpl E W KC K).
Notation TC := (TableCacheState E KC K).
Variable others : DBImpl -> DBImpl.

(** [keep] for a file of this number and type. *)
Definition keep (live : gset Z) (versions : VersionSet W E) (number : Z) (type : FileType) : bool :=
  match type with
  | kLogFile => (vs_log_number versions <=? number) || (number =? vs_prev_log_number versions)
  | kDescriptorFile => vs_manifest_file_number versions <=? number
  | kTableFile | kTempFile => bool_decide (number ∈ live)
  | kCurrentFile | kDBLockFile | kInfoLogFile => true
  end.

(** The first loop: [files_to_delete], and the tables leave the cache. *)
Fixpoint scan_obsolete (live : gset Z) (versions : VersionSet W E) (filenames files_to_delete : list bytes) (tc : TC) : option (list bytes * TC) :=
  match filenames with
  | [] => Some (files_to_delete, tc)
  | filename :: filenames =>
      match ParseFileName filename with
      | Some (number, type) =>
          if keep live versions number type then scan_obsolete live versions filenames files_to_delete tc
          else
            tc ← (if bool_decide (type = kTableFile) then Evict number tc else Some tc);
            scan_obsolete live versions filenames (files_to_delete ++ [filename]) tc
      | None => scan_obsolete live versions filenames files_to_delete tc
      end
  end.

(** The second loop. *)
Definition remove_files (files_to_delete : list bytes) (env : E) : E :=
  fold_left (fun env filename => (Filename.RemoveFile env (dbname_ ++ cstr "/" ++ filename)).2) files_to_delete env.

Definition live_files (db : DBImpl) : gset Z := AddLiveFiles (pending_outputs_ db) (dummy_versions_ (db_versions db)).

Definition RemoveObsoleteFiles (db : DBImpl) : option DBImpl :=
  if negb (ok (sh_bg_error (db_shared db))) then Some db
  else
    let live := live_files db in
    let filenames := (GetChildren dbname_ (db_env db)).2 in
    '(files_to_delete, tc) ← scan_obsolete live (db_versions db) filenames [] (table_cache_ db);
    let db := others (with_table_cache tc db) in
    Some (with_db_env (remove_files files_to_delete (db_env db)) db).
End Obsolete.

(** ** What is removed *)

Section Spec.
Context {E W KC K : Type} {EF : EnvFiles E} {EFL : EnvFilesLaws E} {ED : EnvDirectory E}.
Context (dbname : bytes).
Notation DB := (DBImpl E W KC K).
Implicit Types db : DB.

(** The name of a file in the directory that is not in use. *)
Definition obsolete_name db (filename : bytes) : Prop :=
  exists number type, ParseFileName filename = Some (number, type) /\ keep (live_files db) (db_versions db) number type = false.

Lemma remove_files_frame files (e : E) g :
  (forall f, f ∈ files -> g <> dbname ++ cstr "/" ++ f) -> contents (remove_files dbname files e) g = contents e g.
Proof.
  revert e. induction files as [|f files IH]; intros e Hf; [done|].
  change (remove_files dbname (f :: files) e) with (remove_files dbname files (Filename.RemoveFile e (dbname ++ cstr "/" ++ f)).2). rewrite IH by (intros x Hx; apply Hf; by right).
  destruct (Filename.RemoveFile e _) as [s e'] eqn:Er. cbn. apply (remove_file _ _ _ _ Er). apply Hf. by left.
Qed.

(** Collecting numbers in nested loops. *)
Lemma elem_fold {A} (g : gset Z -> A -> gset Z) (P : A -> Prop) n l live :
  (forall live x, n ∈ g live x <-> n ∈ live \/ P x) -> n ∈ fold_left g l live <-> n ∈ live \/ exists x, x ∈ l /\ P x.
Proof.
  intros Hg. revert live. induction l as [|x l IH]; intros live; cbn [fold_left].
  - split; [by left|]. intros [?|(x & Hx & _)]; [done|by apply elem_of_nil in Hx].
  - rewrite IH, Hg. split.
    + intros [[?|?]|(y & Hy & Hp)]; [by left|right; exists x; split; [by left|done]|right; exists y; split; [by right|done]].
    + intros [?|(y & [->|Hy]%elem_of_cons & Hp)]; [by left; left|by left; right|right; by exists y].
Qed.

(** The live files are those of the versions in the list. *)
Lemma elem_live l live n : n ∈ AddLiveFiles live l <->
  n ∈ live \/ exists v, v ∈ l /\ exists level, level ∈ seq 0 kNumLevels /\ exists f, f ∈ level_files (vn_version v) level /\ n = f_number f.
Proof. unfold AddLiveFiles. do 3 (apply elem_fold; intros ??). set_solver. Qed.

Context `{CS : Checksum} {F H : Type} {R : RandomAccessFile F} {RF : RandomAccessFiles E F}.
Context {CO : CacheOps KC H (Table F) TableDeleter} {c_ok : nat -> (bytes -> Table F -> Prop) -> list H -> KC -> Prop} {CL : CacheLaws CO c_ok}.

(** Whether a name is one of those to remove. *)
Definition obsolete live (versions : VersionSet W E) (filename : bytes) : bool :=
  match ParseFileName filename with Some (number, type) => negb (keep live versions number type) | None => false end.

Lemma obsolete_spec db filename : obsolete (live_files db) (db_versions db) filename = true <-> obsolete_name db filename.
Proof.
  unfold obsolete, obsolete_name. destruct (ParseFileName filename) as [[number type]|]; [|by split; [|intros (? & ? & ? & _)]].
  rewrite negb_true_iff. split; [by eauto|]. by intros (? & ? & [= <- <-] & ?).
Qed.

Lemma scan_obsolete_spec live (versions : VersionSet W E) b P held filenames del (tc : TableCacheState E KC K) :
  c_ok (length filenames + b) P held (cache_ tc) ->
  exists c', scan_obsolete live versions filenames del tc = Some (del ++ List.filter (obsolete live versions) filenames, with_cache c' tc) /\ c_ok b P held c'.
Proof.
  revert del tc. induction filenames as [|filename filenames IH]; intros del tc Hc; cbn [scan_obsolete List.filter length Nat.add] in *.
  { exists (cache_ tc). rewrite app_nil_r. split; [by destruct tc|done]. }
  assert (Hkeep : c_ok (length filenames + b) P held (cache_ tc)) by (eapply c_ok_weaken; [|by intros ? ? Hp; exact Hp|exact Hc]; lia).
  unfold obsolete at 1. destruct (ParseFileName filename) as [[number type]|]; [|by apply IH].
  destruct (keep live versions number type); cbn [negb]; [by apply IH|].
  assert (Hev : exists c1, (if bool_decide (type = kTableFile) then Evict number tc else Some tc) = Some (with_cache c1 tc) /\ c_ok (length filenames + b) P held c1).
  { case_bool_decide; [|exists (cache_ tc); split; [by destruct tc|done]]. unfold Evict.
    destruct (c_Erase_ok _ P held (cache_ tc) (EncodeFixed64 number) Hc) as (c1 & -> & Hc1); [unfold zlen; by rewrite EncodeFixed64_len|by exists c1]. }
  destruct Hev as (c1 & -> & Hc1). cbn [mbind option_bind]. destruct (IH (del ++ [filename]) (with_cache c1 tc) Hc1) as (c' & -> & Hc').
  exists c'. by rewrite <- app_assoc.
Qed.

(** The paths of files whose numbers and kinds are in use. *)
Definition in_use db (path : bytes) : Prop :=
  (exists n, 0 <= n < 2 ^ 64 /\
     ((n ∈ live_files db /\ path ∈ [TableFileName dbname n; SSTTableFileName dbname n; TempFileName dbname n]) \/
      ((vs_log_number (db_versions db) <= n \/ n = vs_prev_log_number (db_versions db)) /\ path = LogFileName dbname n) \/
      (vs_manifest_file_number (db_versions db) <= n /\ path = DescriptorFileName dbname n))) \/
  path ∈ [CurrentFileName dbname; LockFileName dbname; InfoLogFileName dbname; OldInfoLogFileName dbname].

Lemma in_use_not_obsolete db path filename : in_use db path -> path = dbname ++ cstr "/" ++ filename -> ~ obsolete_name db filename.
Proof.
  intros Hin Ep (number & type & Hparse & Hkeep).
  assert (Hp : ParseFileName (drop (length dbname + 1) path) = Some (number, type)) by (rewrite Ep; rewrite <- Hparse; f_equal; exact (drop_dbname dbname filename x2f)).
  assert (H0 : 0 <= 0 < 2 ^ 64) by lia. pose proof (fun n Hn => filename_roundtrip dbname [] n 0 kLogFile Hn) as Hrt. cbn zeta in Hrt.
  destruct Hin as [(n & Hn & Hcase)|Hfix].
  - destruct (Hrt n Hn) as (_ & R1 & R2 & R3 & R4 & R5 & _). destruct Hcase as [[Hl Hpath]|[[Hl ->]|[Hl ->]]].
    + rewrite !elem_of_cons, elem_of_nil in Hpath. destruct Hpath as [->|[->|[->|[]]]]; rewrite ?R2, ?R3, ?R4 in Hp; injection Hp as <- <-; cbn in Hkeep;
        by apply bool_decide_eq_false in Hkeep.
    + rewrite R1 in Hp. injection Hp as <- <-. cbn in Hkeep. apply orb_false_iff in Hkeep as [?%Z.leb_gt ?%Z.eqb_neq]. lia.
    + rewrite R5 in Hp. injection Hp as <- <-. cbn in Hkeep. apply Z.leb_gt in Hkeep. lia.
  - destruct (Hrt 0 H0) as (_ & _ & _ & _ & _ & _ & R6 & R7 & R8 & R9).
    rewrite !elem_of_cons, elem_of_nil in Hfix. destruct Hfix as [->|[->|[->|[->|[]]]]]; rewrite ?R6, ?R7, ?R8, ?R9 in Hp; by injection Hp as <- <-.
Qed.

(** Files in use stay. *)
Lemma remove_obsolete_keeps db names (e : E) g :
  in_use db g -> contents (remove_files dbname (List.filter (obsolete (live_files db) (db_versions db)) names) e) g = contents e g.
Proof.
  intros Hin. apply remove_files_frame. intros f [_ Ho%obsolete_spec]%list_elem_of_In%filter_In Eg. by apply (in_use_not_obsolete db g f).
Qed.

Lemma RemoveObsoleteFiles_spec b P held db others :
  ok (sh_bg_error (db_shared db)) = true -> let names := (GetChildren dbname (db_env db)).2 in c_ok (length names + b) P held (db_tables db) ->
  exists c', c_ok b P held c' /\ let db1 := others (with_table_cache (mkTC (db_env db) c' (db_blocks db)) db) in
    RemoveObsoleteFiles dbname others db =
      Some (with_db_env (remove_files dbname (List.filter (obsolete (live_files db) (db_versions db)) names) (db_env db1)) db1).
Proof.
  intros Hok names Hc. unfold RemoveObsoleteFiles. rewrite Hok. cbn [negb].
  destruct (scan_obsolete_spec (live_files db) (db_versions db) b P held names [] (table_cache_ db) Hc) as (c' & E1 & Hc').
  fold names. rewrite E1. exists c'. done.
Qed.
End Spec.

(** ** Properties *)


(** A table that a version holds, one that nobody holds, and an old log. *)
Definition obsolete_example : DBImpl MemoryEnv bytes (list (bytes * Table bytes)) (Z * list (bytes * Block)) :=
  mkDBImpl (mkVersionSet (fun _ => Some []) 9 2 0 7 0 None
      [mkVNode 0 1 (mkVersion [[mkFilePtr 0 (FileMetaData_new 5 100 [] [])]] None (-1) (double_of_Z (-1)) (-1))] (Some 0) 1 (mkObjects [] 1 ∅))
    [] None ∅ None None None 7 Shared_new.

Definition obsolete_names : list bytes := [cstr "CURRENT"; cstr "000005.ldb"; cstr "000006.ldb"; cstr "000004.log"; cstr "000007.log"].
Definition obsolete_directory : EnvDirectory MemoryEnv :=
  {| CreateDir := fun _ e => e; LockFile := fun _ e => (OK, e); FileExists := fun _ _ => true; GetChildren := fun _ _ => (OK, obsolete_names) |}.

