(* ===== verification/DBGet.v ===== *)
(** * db/db_impl: reads

    Models [DBImpl::Get] and [DBImpl::RecordReadSample] of src/db/db_impl.cc.  While
    a read does not hold the mutex the other threads go on: [others n] is what they
    do to the state before or after the read's own work there.  The memtables are
    those the read has pinned; the reference counts of memtables are left out. *)

From Stdlib Require Import Sorted.
From stdpp Require Import gmap sorting.
From S2P Require Import Prelude Coding Comparator Crc32c DbFormat Status Block Format Table MemTable UserView VersionEdit Options.
From S2P Require Import Version VersionGet TableCache LogWriter VersionBuilder VersionSet DBImpl.

Section Get.
Context `{CS : Checksum} {E F W KC H K : Type} {R : RandomAccessFile F} {RF : RandomAccessFiles E F}.
Context {CO : CacheOps KC H (Table F) TableDeleter} {BC : BlockCache K}.
Variables (Snappy Zstd : Compressor) (C : Comparator) (dbname_ : bytes) (options_ : Options).
Notation DBImpl := (DBImpl E W KC K).
Variable others : nat -> DBImpl -> DBImpl.

(** *** The version at an address *)

Definition set_version (a : Z) (v : Version) (l : list VNode) : list VNode :=
  map (fun n => if vn_addr n =? a then mkVNode (vn_addr n) (vn_refs n) v else n) l.

Definition with_nodes (l : list VNode) (db : DBImpl) : DBImpl :=
  with_db_versions (with_versions l (current_ (db_versions db)) (vs_next_addr (db_versions db)) (db_versions db)) db.

Definition Ref_at (a : Z) (db : DBImpl) : option DBImpl :=
  l ← Version_Ref a (dummy_versions_ (db_versions db)); Some (with_nodes l db).
Definition Unref_at (a : Z) (db : DBImpl) : option DBImpl :=
  l ← Version_Unref a (dummy_versions_ (db_versions db)); Some (with_nodes l db).

(** [f] changes the version and the counters of seeks in the file objects. *)
Definition update_at (a : Z) (f : Version -> Seeks -> option (bool * Version * Seeks)) (db : DBImpl) : option (bool * DBImpl) :=
  n ← find_version a (dummy_versions_ (db_versions db));
  let o := vs_objects (db_versions db) in
  '(r, v, seeks) ← f (vn_version n) (o_seeks o);
  let db := with_nodes (set_version a v (dummy_versions_ (db_versions db))) db in
  Some (r, with_db_versions (with_objects (mkObjects (o_compact_pointer o) (o_next o) seeks) (db_versions db)) db).

(** ** [DBImpl::Get] *)

(** The part without the mutex: the status, [*value], [stats] if the version was
    asked, and the state of the table cache. *)
Definition get_unlocked (options : ReadOptions) (lkey : LookupKey) (mem : MemTable) (imm : option MemTable) (current : Version) (value : bytes) (tc : TableCacheState E KC K)
    : option (Status * bytes * option GetStats * TableCacheState E KC K) :=
  '(found, value, s) ← MemTable_Get C mem lkey value OK;
  if (found : bool) then Some (s, value, None, tc)
  else
    '(found, value, s) ← (match imm with Some imm => MemTable_Get C imm lkey value s | None => Some (false, value, s) end);
    if (found : bool) then Some (s, value, None, tc)
    else
      '(s, value, stats, tc) ← Version_Get (TC := TableCache_Get Snappy Zstd dbname_ options_) C current options lkey value tc;
      Some (s, value, Some stats, tc).

(** The status, [*value], and the state. *)
Definition Get (options : ReadOptions) (key value : bytes) (db : DBImpl) : option (Status * bytes * DBImpl) :=
  let snapshot := default (vs_last_sequence (db_versions db)) (Options.snapshot options) in
  mem ← db_mem db;
  let imm := db_imm db in
  a ← current_ (db_versions db);
  node ← find_version a (dummy_versions_ (db_versions db));
  db ← Ref_at a db;
  let db := others 0 db in
  let lkey := LookupKey_new key snapshot in
  '(s, value, stats, tc) ← get_unlocked options lkey mem imm (vn_version node) value (table_cache_ db);
  let db := others 1 (with_table_cache tc db) in
  '(work, db) ← (match stats with Some stats => update_at a (UpdateStats stats) db | None => Some (false, db) end);
  db ← (if (work : bool) then MaybeScheduleCompaction db else Some db);
  db ← Unref_at a db;
  Some (s, value, db).

Definition RecordReadSample (key : bytes) (db : DBImpl) : option DBImpl :=
  a ← current_ (db_versions db);
  '(work, db) ← update_at a (fun v seeks => RecordReadSample C v seeks key) db;
  if (work : bool) then MaybeScheduleCompaction db else Some db.
End Get.
