(* ===== verification/LSM.v ===== *)
(** * What a database holds

    The invariant of the log-structured merge tree: the newer of two entries of a
    user key is in the memtable that is read first, or in the lower level; every
    table of the current version is a readable file; and that reads of the
    database (DBGet.v) answer from all entries together. *)

From Stdlib Require Import Sorted.
From stdpp Require Import gmap sorting.
From S2P Require Import Prelude Coding Comparator Crc32c Bloom DbFormat Status Iterator BlockBuilder Block Format FilterBlock TableBuilder Table SkipList MemTable UserView.
From S2P Require Import VersionEdit Options Version VersionGet InternalTable TableCache LogWriter Filename Compaction VersionBuilder VersionSet Manifest Levels DBImpl DBGet.

(** ** The files that a search reads *)

Section Visits.
Context {C : Comparator} {S : Type} (func : S -> nat -> FilePtr -> option (bool * S)) (v : Version) (P : S -> Prop).
Hypothesis func_P : forall s level f c s', P s -> f ∈ level_files v level -> func s level f = Some (c, s') -> P s'.

Lemma visit_files_inv files s c s' :
  (forall f, f ∈ files -> f ∈ level_files v 0) -> P s -> visit_files func 0 files s = Some (c, s') -> P s'.
Proof.
  revert s. induction files as [|f files IH]; intros s Hf Hs E; cbn in E; [by injection E as <- <-|].
  destruct (func s 0%nat f) as [[c1 s1]|] eqn:E1; [|done]. cbn in E. apply func_P in E1; [|done|by apply Hf; left].
  destruct c1; [|by injection E as <- <-]. apply (IH s1); [|done|done]. intros g Hg. apply Hf. by right.
Qed.

Lemma visit_levels_inv n level user_key internal_key s c s' :
  P s -> visit_levels C func n level v user_key internal_key s = Some (c, s') -> P s'.
Proof.
  revert level s. induction n as [|n IH]; intros level s Hs E; cbn [visit_levels] in E; [by injection E as <- <-|].
  destruct (_ =? _)%nat; [by eapply IH|]. destruct (FindFile C (level_files v level) internal_key) as [index|]; [|done]. cbn [mbind option_bind] in E.
  destruct (level_files v level !! index) as [f|] eqn:Ef; [|by eapply IH]. apply list_elem_of_lookup_2 in Ef.
  assert (Hcall : ('(c, s) ← func s level f; if (c : bool) then visit_levels C func n (level + 1) v user_key internal_key s else Some (false, s)) = Some (c, s') -> P s').
  { destruct (func s level f) as [[c1 s1]|] eqn:E1; [|done]. cbn. apply func_P in E1; [|done|done]. destruct c1; [by apply IH|by intros [= <- <-]]. }
  destruct (Compare _ _); [by apply Hcall|by eapply IH|by apply Hcall].
Qed.

Lemma ForEachOverlapping_inv user_key internal_key s s' :
  P s -> ForEachOverlapping C func v user_key internal_key s = Some s' -> P s'.
Proof.
  unfold ForEachOverlapping. intros Hs E. destruct (visit_files func 0 _ s) as [[c1 s1]|] eqn:E1; [|done]. cbn [mbind option_bind] in E.
  apply visit_files_inv in E1; [|intros f; unfold level0_overlapping; rewrite merge_sort_Permutation; rewrite !list_elem_of_In; by intros [? _]%filter_In|done].
  destruct c1; [|by injection E as <-]. destruct (visit_levels C func _ 1 v user_key internal_key s1) as [[c2 s2]|] eqn:E2; [|done].
  injection E as <-. by eapply visit_levels_inv.
Qed.
End Visits.

(** The file that a search charges is one of the version's. *)
Lemma Version_Get_stats {T} (TC : TableCache T) (C : Comparator) v options k value tables s value' stats tables' :
  Version_Get C v options k value tables = Some (s, value', stats, tables') ->
  match stats with Some (f, level) => f ∈ level_files v level | None => True end.
Proof.
  unfold Version_Get. set (st0 := mkGetState _ _ _ _ _ _). intros E.
  set (P := fun st : GetState T => forall p, gs_stats st = Some p \/ gs_last_file_read st = Some p -> p.1 ∈ level_files v p.2).
  destruct (ForEachOverlapping C _ v _ _ st0) as [st|] eqn:Ef; [|done]. injection E as _ _ <- _.
  apply (ForEachOverlapping_inv (C := C) _ v P) in Ef.
  - destruct (gs_stats st) as [[f level]|] eqn:Es; [|done]. apply (Ef (f, level)). by left.
  - intros st1 level f c st2 HP Hf Em. unfold Get_Match in Em. destruct (tc_Get _ _ _ _ _) as [[[s1 r] tb]|]; [|done]. cbn [mbind option_bind] in Em.
    set (stats1 := match gs_stats st1 with Some p => Some p | None => gs_last_file_read st1 end).
    assert (Hst : gs_stats st2 = stats1 /\ gs_last_file_read st2 = Some (f, level)).
    { subst stats1. repeat case_match; injection Em as _ <-; done. }
    destruct Hst as [E1 E2]. intros p [Hp|Hp]; [|rewrite E2 in Hp; by injection Hp as <-].
    apply HP. rewrite E1 in Hp. unfold stats1 in Hp. destruct (gs_stats st1); [by left|by right].
  - intros p [|]; done.
Qed.

(** ** The invariant *)

Section LSM.
Context `{CS : Checksum} {E F W KC H K : Type} {R : RandomAccessFile F} {RF : RandomAccessFiles E F}.
Context {raf_contents : F -> bytes} {RL : RandomAccessFileLaws R raf_contents}.
Context {CO : CacheOps KC H (Table F) TableDeleter} {c_ok : nat -> (bytes -> Table F -> Prop) -> list H -> KC -> Prop} {CL : CacheLaws CO c_ok}.
Context {BC : BlockCache K} {bc_holds : K -> bytes -> Block -> Prop} {BL : BlockCacheLaws BC bc_holds} {bc_next : K -> Z} {BI : BlockCacheIds BC bc_next}.
Context (Snappy Zstd : Compressor) {SL : CompressorLaws Snappy} {ZL : CompressorLaws Zstd}.
Context {U : Comparator} {UL : ComparatorLaws U} {o : Options} (dbname : bytes).
Context (Hcmp : comparator o = InternalKeyComparator U) (Hinterval : 1 <= block_restart_interval o).
Context (Hfilter : forall name P, filter_policy o = Some (name, P) ->
  exists P0, P = InternalFilterPolicy P0 /\ FilterPolicyLaws P0 /\ zlen name < 2 ^ 31 /\ forall a b, Compare (Comparator := U) a b = Eq -> a = b).
Notation DB := (DBImpl E W KC K).
Notation ready := (cache_ready (raf_contents := raf_contents) (c_ok := c_ok) (bc_holds := bc_holds) (bc_next := bc_next) Snappy Zstd (U := U) (o := o)).
Notation has_table := (has_table (raf_contents := raf_contents) Snappy Zstd (U := U) (o := o) dbname).
Implicit Types (db : DB) (sst : Z -> option TableImage) (v : Version).

Notation version_entries sst v := (version_entries (table_contents sst) v).

(** The version at [a] is pinned: its files and their objects are there, and the
    cache of tables serves [b] more calls. *)
Record pinned sst (b : nat) (a : Z) v db : Prop := {
  pin_node : exists n, find_version a (dummy_versions_ (db_versions db)) = Some n /\ 1 <= vn_refs n /\ files_ (vn_version n) = files_ v;
  pin_tables : forall level f, f ∈ level_files v level -> has_table sst (table_cache_ db) (f_number f) (f_size f) (table_contents sst f);
  pin_seeks : forall level f, f ∈ level_files v level -> is_Some (o_seeks (vs_objects (db_versions db)) !! f_addr f);
  pin_ready : ready sst b (table_cache_ db);
  pin_current : exists v', current (db_versions db) = Some v';
}.

(** The entries that the memtable, the immutable memtable and the current version
    hold. *)
Record lsm sst (b : nat) (ments iments : list Entry) v db : Prop := {
  lsm_current : exists a n, current_ (db_versions db) = Some a /\ find_version a (dummy_versions_ (db_versions db)) = Some n /\ vn_version n = v;
  lsm_pinned : forall a, current_ (db_versions db) = Some a -> pinned sst b a v db;
  lsm_version : version_ok (C := U) (table_contents sst) v;
  lsm_mem : exists mem, db_mem db = Some mem /\ mem_repr (C := U) mem ments;
  lsm_imm : match db_imm db with Some imm => mem_repr (C := U) imm iments | None => iments = [] end;
  lsm_newer_mem : newer (C := U) ments (iments ++ version_entries sst v);
  lsm_newer_imm : newer (C := U) iments (version_entries sst v);
}.

(** The answer to a read of [u] at [s] from the entries [es]. *)
Definition answer (u : bytes) (s : Z) (es : list Entry) (value : bytes) (st : Status) (value' : bytes) : Prop :=
  (exists e, newest_visible (C := U) u s es e /\
     match e_type e with
     | kTypeValue => st = OK /\ value' = e_value e
     | kTypeDeletion => st = NotFound [] [] /\ value' = value
     end) \/
  ((forall e, e ∈ es -> ~ visible (C := U) u s e) /\ st = NotFound [] [] /\ value' = value).

Lemma answer_app_r u s es es' value st value' :
  (forall e, e ∈ es -> ~ visible (C := U) u s e) -> answer u s es' value st value' -> answer u s (es ++ es') value st value'.
Proof.
  intros Hno [(e & He & Ht)|(Hno' & Hst)]; [left; exists e; split; [by apply newest_app_r|done]|right].
  split; [|done]. intros e [He|He]%elem_of_app; [by apply Hno|by apply Hno'].
Qed.

Lemma answer_app_l u s es es' value e st value' :
  newest_visible (C := U) u s es e -> newer (C := U) es es' ->
  match e_type e with kTypeValue => st = OK /\ value' = e_value e | kTypeDeletion => st = NotFound [] [] /\ value' = value end ->
  answer u s (es ++ es') value st value'.
Proof. intros He Hn Ht. left. exists e. split; [|done]. by apply newest_app_l. Qed.

(** ** [DBImpl::Get] *)

Lemma get_unlocked_spec sst b ments iments v db0 db a options u s value mem :
  db_mem db0 = Some mem -> lsm sst 0 ments iments v db0 -> pinned sst (length (level_files v 0) + (kNumLevels + b)) a v db ->
  0 <= s <= kMaxSequenceNumber -> zlen u + 8 < 2 ^ 32 ->
  exists st value' stats tc, get_unlocked Snappy Zstd U dbname o options (LookupKey_new u s) mem (db_imm db0) v value (table_cache_ db) = Some (st, value', stats, tc) /\
    (forall level f, f ∈ level_files v level -> has_table sst tc (f_number f) (f_size f) (table_contents sst f)) /\ ready sst b tc /\
    match stats with Some (Some (f, level)) => f ∈ level_files v level | _ => True end /\
    answer u s (ments ++ iments ++ version_entries sst v) value st value'.
Proof.
  intros Em Hl Hp Hs Hu. destruct Hl as [_ _ Hv Hmem Himm Hn1 Hn2]. destruct Hmem as (mem' & Em' & Hm). rewrite Em in Em'. injection Em' as <-.
  pose proof (TableCache_laws (c_ok := c_ok) (bc_next := bc_next) Snappy Zstd dbname Hcmp Hinterval Hfilter sst) as TL.
  assert (Htab : forall level f, f ∈ level_files v level -> has_table sst (table_cache_ db) (f_number f) (f_size f) (table_contents sst f)) by apply (pin_tables _ _ _ _ _ Hp).
  assert (Hready : forall b', (b' <= length (level_files v 0) + (kNumLevels + b))%nat -> ready sst b' (table_cache_ db)).
  { intros b' Hb. eapply (tc_ready_le (TableCacheLaws := TL)); [exact Hb|]. apply Hp. }
  unfold get_unlocked. destruct (MemTable_Get_spec mem ments u s value OK Hm Hs Hu) as [(e & He & ->)|(Hno & ->)].
  { exists (match e_type e with kTypeValue => OK | kTypeDeletion => NotFound [] [] end), (match e_type e with kTypeValue => e_value e | kTypeDeletion => value end), None, (table_cache_ db).
    split; [by destruct (e_type e)|]. split; [done|]. split; [apply Hready; lia|]. split; [done|]. eapply answer_app_l; [exact He|exact Hn1|]. by destruct (e_type e). }
  cbn [mbind option_bind]. assert (Himm' : (exists e, newest_visible (C := U) u s iments e /\ exists r, r = match e_type e with kTypeValue => (true, e_value e, OK) | kTypeDeletion => (true, value, NotFound [] []) end /\
      match db_imm db0 with Some imm => MemTable_Get U imm (LookupKey_new u s) value OK | None => Some (false, value, OK) end = Some r) \/
    ((forall e, e ∈ iments -> ~ visible (C := U) u s e) /\
      match db_imm db0 with Some imm => MemTable_Get U imm (LookupKey_new u s) value OK | None => Some (false, value, OK) end = Some (false, value, OK))).
  { destruct (db_imm db0) as [imm|]; [|right; rewrite Himm; split; [intros e; by rewrite elem_of_nil|done]].
    destruct (MemTable_Get_spec imm iments u s value OK Himm Hs Hu) as [(e & He & ->)|(Hno' & ->)]; [left; exists e; split; [done|by eexists]|by right]. }
  destruct Himm' as [(e & He & r & -> & ->)|(Hno' & ->)].
  { exists (match e_type e with kTypeValue => OK | kTypeDeletion => NotFound [] [] end), (match e_type e with kTypeValue => e_value e | kTypeDeletion => value end), None, (table_cache_ db).
    split; [by destruct (e_type e)|]. split; [done|]. split; [apply Hready; lia|]. split; [done|]. apply answer_app_r; [done|]. eapply answer_app_l; [exact He|exact Hn2|]. by destruct (e_type e). }
  cbn [mbind option_bind].
  destruct (Version_Get_spec (TL := TL) (table_contents sst) Hv options u s value Hs Hu b (table_cache_ db)) as (st & value' & stats & tc & E1 & [Hr' Ht'] & Ha).
  { split; [by apply Hready|done]. }
  change (Version_Get (TC := TableCache_Get Snappy Zstd dbname o) U v options (LookupKey_new u s) value (table_cache_ db)) with
    (Version_Get (TC := TableCache_ops Snappy Zstd (o := o) dbname) U v options (LookupKey_new u s) value (table_cache_ db)).
  rewrite E1. cbn [mbind option_bind]. exists st, value', (Some stats), tc. split; [done|]. split; [done|]. split; [done|]. split; [by eapply Version_Get_stats|].
  do 2 (apply answer_app_r; [done|]). exact Ha.
Qed.

(** *** The state around it *)

Lemma set_version_find a v n l : find_version a l = Some n -> find_version a (set_version a v l) = Some (mkVNode a (vn_refs n) v).
Proof.
  unfold find_version, set_version. induction l as [|m l IH]; [done|]. cbn. destruct (Z.eqb_spec (vn_addr m) a) as [Ea|Ea]; cbn.
  - rewrite Ea, Z.eqb_refl. by intros [= ->].
  - by rewrite (proj2 (Z.eqb_neq _ _) Ea).
Qed.

Lemma find_version_map a f l : (forall n, vn_addr (f n) = vn_addr n) -> find_version a (map f l) = f <$> find_version a l.
Proof. intros Hf. unfold find_version. induction l as [|m l IH]; [done|]. cbn. rewrite Hf. by destruct (vn_addr m =? a). Qed.

(** Changing versions one by one in the list keeps a current one. *)
Lemma current_map f vs v :
  (forall n, vn_addr (f n) = vn_addr n) -> current vs = Some v ->
  exists v', current (with_versions (W := W) (E := E) (map f (dummy_versions_ vs)) (current_ vs) (vs_next_addr vs) vs) = Some v'.
Proof.
  intros Hf. unfold current. cbn [current_ with_versions dummy_versions_]. destruct (current_ vs) as [a|]; [|done]. cbn [mbind option_bind].
  rewrite (find_version_map _ _ _ Hf). destruct (find_version a (dummy_versions_ vs)) as [n|]; [|done]. cbn. eauto.
Qed.

Lemma Ref_at_pinned sst b a v db : pinned sst b a v db -> exists db', Ref_at a db = Some db' /\ pinned sst b a v db'.
Proof.
  intros [(n & En & Hr & Hf) H2 H3 H4 (v' & Hc)]. unfold Ref_at, Version_Ref. rewrite En. cbn [mbind option_bind]. eexists. split; [done|].
  split; [|exact H2|exact H3|exact H4|].
  - eexists. cbn [with_nodes with_db_versions db_versions with_versions dummy_versions_ with_objects]. rewrite set_vrefs_find, En, Z.eqb_refl. split; [done|]. cbn. split; [lia|done].
  - eapply (current_map (fun m => if vn_addr m =? a then with_vrefs (vn_refs n + 1) m else m)); [intros m; by destruct (_ =? _)|exact Hc].
Qed.

Lemma Unref_at_pinned sst b a v db : pinned sst b a v db -> exists db', Unref_at a db = Some db'.
Proof.
  intros [(n & En & Hr & Hf) _ _ _ _]. unfold Unref_at, Version_Unref. rewrite En. cbn [mbind option_bind].
  rewrite (proj2 (Z.ltb_ge _ _)) by lia. destruct (_ =? 0); eauto.
Qed.

Lemma UpdateStats_spec stats v seeks :
  (match stats with Some (f, level) => is_Some (seeks !! f_addr f) | None => True end) ->
  exists r v' seeks', UpdateStats stats v seeks = Some (r, v', seeks') /\ files_ v' = files_ v /\ forall x, is_Some (seeks !! x) -> is_Some (seeks' !! x).
Proof.
  destruct stats as [[f level]|]; [|by eauto 10]. intros [n Hn]. unfold UpdateStats. rewrite Hn. cbn [mbind option_bind].
  assert (Hs : forall x, is_Some (seeks !! x) -> is_Some (<[f_addr f := n - 1]> seeks !! x)).
  { intros x Hx. destruct (decide (x = f_addr f)) as [->|]; [rewrite lookup_insert_eq; by eexists|by rewrite lookup_insert_ne]. }
  destruct (file_to_compact_ v); [by eauto 10|]. destruct (_ <=? 0); by eauto 10.
Qed.

Lemma update_stats_pinned sst b a v stats db :
  pinned sst b a v db -> (match stats with Some (f, level) => f ∈ level_files v level | None => True end) ->
  exists r db', update_at a (UpdateStats stats) db = Some (r, db') /\ pinned sst b a v db'.
Proof.
  intros [(n & En & Hr & Hf) H2 H3 H4 (v' & Hc)] Hst. unfold update_at. rewrite En. cbn [mbind option_bind].
  destruct (UpdateStats_spec stats (vn_version n) (o_seeks (vs_objects (db_versions db)))) as (r & v1 & seeks & -> & Hf1 & Hs1).
  { destruct stats as [[f level]|]; [by eapply H3|done]. }
  cbn [mbind option_bind]. eexists _, _. split; [done|]. split; [|exact H2| |exact H4|].
  - eexists. cbn [with_nodes with_db_versions db_versions with_versions dummy_versions_ with_objects]. split; [by apply set_version_find|]. cbn. split; [done|]. by rewrite Hf1.
  - intros level f Hin. cbn. apply Hs1. by eapply H3.
  - eapply (current_map (fun m => if vn_addr m =? a then mkVNode (vn_addr m) (vn_refs m) v1 else m) (db_versions db)); [intros m; by destruct (vn_addr m =? a)|exact Hc].
Qed.

Lemma MaybeSchedule_spec db : (exists v, current (db_versions db) = Some v) -> exists sh, MaybeScheduleCompaction db = Some (with_shared sh db).
Proof.
  intros [v Hc]. assert (Hself : Some db = Some (with_shared (db_shared db) db)) by by destruct db. unfold MaybeScheduleCompaction, NeedsCompaction. rewrite Hc.
  destruct (sh_scheduled _); [by eauto|]. destruct (shutting_down_ _); [by eauto|]. destruct (negb _); [by eauto|].
  destruct (db_imm db), (manual_compaction_ (db_shared db)); cbn [mbind option_bind]; [by eauto..|]. destruct (_ || _); by eauto.
Qed.

Lemma pinned_cache sst b b' a v db tc :
  pinned sst b a v db -> (forall level f, f ∈ level_files v level -> has_table sst tc (f_number f) (f_size f) (table_contents sst f)) -> ready sst b' tc ->
  pinned sst b' a v (with_table_cache tc db).
Proof. intros [H1 H2 H3 H4 H5] Ht Hr. split; [exact H1| |exact H3| |exact H5]; by destruct tc. Qed.

Lemma pinned_shared sst b a v db sh : pinned sst b a v db -> pinned sst b a v (with_shared sh db).
Proof. intros [H1 H2 H3 H4 H5]. by split. Qed.

Lemma Get_spec (others : nat -> DB -> DB) sst b B ments iments v db a options u value :
  let s := default (vs_last_sequence (db_versions db)) (Options.snapshot options) in
  lsm sst B ments iments v db -> current_ (db_versions db) = Some a ->
  (forall db', pinned sst B a v db' -> pinned sst (length (level_files v 0) + (kNumLevels + b)) a v (others 0%nat db')) ->
  (forall db', pinned sst b a v db' -> pinned sst 0 a v (others 1%nat db')) ->
  0 <= s <= kMaxSequenceNumber -> zlen u + 8 < 2 ^ 32 ->
  exists st value' db', Get Snappy Zstd U dbname o others options u value db = Some (st, value', db') /\
    answer u s (ments ++ iments ++ version_entries sst v) value st value'.
Proof.
  intros s Hl Ha Ho0 Ho1 Hs Hu. unfold Get. fold s. pose proof Hl as [(a' & n & Ha' & En & Ev) Hp _ (mem & Em & _) _ _ _]. simplify_eq.
  rewrite Em. cbn [mbind option_bind]. rewrite Ha. cbn [mbind option_bind]. rewrite En. cbn [mbind option_bind].
  destruct (Ref_at_pinned sst B a (vn_version n) db (Hp a Ha)) as (db1 & -> & Hp1). cbn [mbind option_bind].
  destruct (get_unlocked_spec sst b ments iments (vn_version n) db (others 0%nat db1) a options u s value mem Em) as (st & value' & stats & tc & -> & Ht & Hr & Hst & Hans);
    [|by apply Ho0|done|done|].
  { destruct Hl as [L1 L2 L3 L4 L5 L6 L7]. split; try done. intros a0 Ha0. destruct (L2 a0 Ha0) as [P1 P2 P3 P4 P5]. split; try done.
    eapply (tc_ready_le (TableCacheLaws := TableCache_laws (c_ok := c_ok) (bc_next := bc_next) Snappy Zstd dbname Hcmp Hinterval Hfilter sst)); [|exact P4]. lia. }
  cbn [mbind option_bind]. exists st, value'. pose proof (Ho1 _ (pinned_cache sst _ b a _ _ tc (Ho0 _ Hp1) Ht Hr)) as Hp2. revert Hp2. generalize (others 1%nat (with_table_cache tc (others 0%nat db1))). intros db2 Hp2.
  assert (Hw : exists r db3, match stats with Some stats => update_at a (UpdateStats stats) db2 | None => Some (false, db2) end = Some (r, db3) /\ pinned sst 0 a (vn_version n) db3).
  { destruct stats as [stats|]; [|by eauto]. by apply (update_stats_pinned sst 0 a (vn_version n)). }
  destruct Hw as (r & db3 & -> & Hp3). cbn [mbind option_bind].
  assert (Hm : exists db4, (if r then MaybeScheduleCompaction db3 else Some db3) = Some db4 /\ pinned sst 0 a (vn_version n) db4).
  { destruct r; [|by eauto]. destruct (MaybeSchedule_spec db3 (pin_current _ _ _ _ _ Hp3)) as (sh & ->). eexists. split; [done|]. by apply pinned_shared. }
  destruct Hm as (db4 & -> & Hp4). cbn [mbind option_bind]. destruct (Unref_at_pinned sst 0 a _ db4 Hp4) as (db5 & ->). by exists db5.
Qed.
End LSM.
