(* ===== verification/Invariant.v ===== *)
(** * The invariant of a database

    What holds of the members of [DBImpl] whenever a thread holds the mutex: the
    set of versions is ready for the next edit, the tables of every version in the
    list can be read, and the memtables and the current version form a
    log-structured merge tree (LSM.v).  And what the background thread relies on
    while it has released the mutex. *)

From Stdlib Require Import Sorted.
From stdpp Require Import gmap sorting.
From S2P Require Import Prelude Coding Comparator Crc32c Bloom DbFormat Status Iterator BlockBuilder Block Format FilterBlock TableBuilder Table SkipList MemTable UserView.
From S2P Require Import VersionEdit Options Version VersionGet InternalTable TableCache BuildTable LogWriter Filename Compaction VersionBuilder VersionSet Manifest Install Levels DBImpl DBGet LSM Obsolete.

(** ** The invariant *)

Section Invariant.
Context `{CS : Checksum} {E F W KC H K : Type} {R : RandomAccessFile F} {RF : RandomAccessFiles E F}.
Context {WF : WritableFile W} {raf_contents : F -> bytes} {wf_contents : W -> bytes} {c_ok : nat -> (bytes -> Table F -> Prop) -> list H -> KC -> Prop}.
Context {CO : CacheOps KC H (Table F) TableDeleter} {bc_holds : K -> bytes -> Block -> Prop} {BC : BlockCache K} {bc_next : K -> Z}.
Context (Snappy Zstd : Compressor) {U : Comparator} {o : Options} (dbname : bytes).
Notation DB := (DBImpl E W KC K).
Notation ready := (cache_ready (raf_contents := raf_contents) (c_ok := c_ok) (bc_holds := bc_holds) (bc_next := bc_next) Snappy Zstd (U := U) (o := o)).
Notation has_table := (has_table (raf_contents := raf_contents) Snappy Zstd (U := U) (o := o) dbname).
Implicit Types (db : DB) (sst : Z -> option TableImage) (v : Version).

(** The references that the background thread holds: a list of addresses. *)
Definition holding (held : list Z) (db : DB) : Prop :=
  forall a, a ∈ held -> exists n, find_version a (dummy_versions_ (db_versions db)) = Some n /\
    Z.of_nat (length (List.filter (Z.eqb a) held)) + (if decide (current_ (db_versions db) = Some a) then 1 else 0) <= vn_refs n.

(** A sequence number is used once. *)
Definition unique_keys (es : list Entry) : Prop :=
  forall e e', e ∈ es -> e' ∈ es -> Compare (Comparator := U) (e_user_key e) (e_user_key e') = Eq -> e_seq e = e_seq e' -> e = e'.

Lemma unique_keys_sub es es' : (forall e, e ∈ es' -> e ∈ es) -> unique_keys es -> unique_keys es'.
Proof. intros Hsub Hu e e' He He'. apply Hu; auto. Qed.

(** [b] calls of the table cache and as many file numbers are left, [held] are the
    versions the background thread has pinned, and the entries of the immutable
    memtable make a table. *)
Record inv sst (b : nat) (held : list Z) (ments iments : list Entry) v db : Prop := {
  iv_managed : managed U (db_versions db) v;
  iv_version : version_ok (C := U) (table_contents sst) v;
  iv_live : forall n level f, n ∈ dummy_versions_ (db_versions db) -> f ∈ level_files (vn_version n) level ->
    has_table sst (table_cache_ db) (f_number f) (f_size f) (table_contents sst f) /\ is_Some (o_seeks (vs_objects (db_versions db)) !! f_addr f) /\ (level < kNumLevels)%nat;
  iv_ready : ready sst b (table_cache_ db);
  iv_fresh : forall n, vs_next_file_number (db_versions db) <= n -> sst n = None;
  iv_held : holding held db;
  iv_log : vs_log_number (db_versions db) <= db_logfile_number db < vs_next_file_number (db_versions db);
  iv_mem : exists mem, db_mem db = Some mem /\ mem_repr (C := U) mem ments;
  iv_imm : match db_imm db with Some imm => mem_repr (C := U) imm iments | None => iments = [] end;
  iv_newer_mem : newer (C := U) ments (iments ++ version_entries (table_contents sst) v);
  iv_newer_imm : newer (C := U) iments (version_entries (table_contents sst) v);
  iv_unique : unique_keys (ments ++ iments ++ version_entries (table_contents sst) v);
  iv_fits : forall es, es ≡ₚ iments -> entries_sorted U es -> es <> [] -> table_fits (o := o) (wf_contents := wf_contents) Snappy Zstd es;
  iv_room : vs_next_file_number (db_versions db) + Z.of_nat b < 2 ^ 64 - 1;
}.

(** ** Other threads *)

(** What the other threads do while the background thread has released the mutex:
    they add newer entries, and may make the memtable immutable when there is no
    immutable one; they hold and release versions, take file numbers, and use the
    caches; they may begin to shut down; they leave the tables alone. *)
Record moved sst (ments iments : list Entry) v db (ments' iments' : list Entry) v' db' : Prop := {
  mv_files : files_ v' = files_ v;
  mv_grow : exists new, newer (C := U) new (ments ++ iments ++ version_entries (table_contents sst) v) /\
    Forall (fun e => vs_last_sequence (db_versions db) < e_seq e) new /\ forall e, e ∈ ments' ++ iments' <-> e ∈ new ++ ments ++ iments;
  mv_last : vs_last_sequence (db_versions db) <= vs_last_sequence (db_versions db');
  mv_imm : is_Some (db_imm db) -> db_imm db' = db_imm db /\ iments' = iments;
  mv_next : vs_next_file_number (db_versions db) <= vs_next_file_number (db_versions db');
  mv_logfile : db_logfile_number db <= db_logfile_number db';
  mv_pending : pending_outputs_ db' = pending_outputs_ db;
  mv_current : current_ (db_versions db') = current_ (db_versions db);
  mv_descriptor : descriptor_log_ (db_versions db') = descriptor_log_ (db_versions db);
  mv_manifest : vs_manifest_file_number (db_versions db') = vs_manifest_file_number (db_versions db);
  mv_logs : vs_log_number (db_versions db') = vs_log_number (db_versions db) /\ vs_prev_log_number (db_versions db') = vs_prev_log_number (db_versions db);
  mv_objects : objects_le (vs_objects (db_versions db)) (vs_objects (db_versions db'));
  mv_nodes : forall n', n' ∈ dummy_versions_ (db_versions db') -> exists n, n ∈ dummy_versions_ (db_versions db) /\ files_ (vn_version n') = files_ (vn_version n);
  mv_tables : forall n size es, has_table sst (table_cache_ db) n size es -> has_table sst (table_cache_ db') n size es;
  mv_shutdown : shutting_down_ (db_shared db) = true -> shutting_down_ (db_shared db') = true;
}.

(** [others] is such a behaviour; it makes at most [c] calls of the table cache and
    takes at most as many file numbers. *)
Definition rely (c : nat) (others : DB -> DB) : Prop :=
  forall sst b held ments iments v db, inv sst (c + b) held ments iments v db ->
    exists ments' iments' v', inv sst b held ments' iments' v' (others db) /\ moved sst ments iments v db ments' iments' v' (others db).

(** Everything that can be read, before and after: newer entries come in, past the
    sequence number [last], and nothing else changes. *)
Definition keeps (last : Z) sst (ments iments : list Entry) v sst' (ments' iments' : list Entry) v' : Prop :=
  exists new, newer (C := U) new (ments ++ iments ++ version_entries (table_contents sst) v) /\ Forall (fun e => last < e_seq e) new /\
    forall e, e ∈ ments' ++ iments' ++ version_entries (table_contents sst') v' <-> e ∈ new ++ ments ++ iments ++ version_entries (table_contents sst) v.

Lemma keeps_refl last sst ments iments v : keeps last sst ments iments v sst ments iments v.
Proof. exists []. split; [|done]. intros e e' He. by apply elem_of_nil in He. Qed.

Lemma newer_app_l a b es : newer (C := U) (a ++ b) es <-> newer (C := U) a es /\ newer (C := U) b es.
Proof.
  split; [intros H0; split; intros e e' He He'; apply H0; (done || apply elem_of_app; auto)|].
  intros [H1 H2] e e' [He|He]%elem_of_app He'; [by apply H1|by apply H2].
Qed.

Lemma newer_elem (a a' es es' : list Entry) : (forall e, e ∈ a' -> e ∈ a) -> (forall e, e ∈ es' -> e ∈ es) -> newer (C := U) a es -> newer (C := U) a' es'.
Proof. intros H1 H2 Hn e e' He He'. apply Hn; auto. Qed.

Lemma keeps_trans last last1 sst ments iments v sst1 ments1 iments1 v1 sst2 ments2 iments2 v2 :
  last <= last1 -> keeps last sst ments iments v sst1 ments1 iments1 v1 -> keeps last1 sst1 ments1 iments1 v1 sst2 ments2 iments2 v2 ->
  keeps last sst ments iments v sst2 ments2 iments2 v2.
Proof.
  intros Hle (new1 & N1 & S1 & E1) (new2 & N2 & S2 & E2). exists (new2 ++ new1). split; [|split].
  - apply newer_app_l. split; [|done]. eapply newer_elem; [by intros e He; exact He| |exact N2]. intros e He. apply E1, elem_of_app. by right.
  - apply Forall_app. split; [|done]. eapply Forall_impl; [exact S2|]. cbn. lia.
  - intros e. rewrite E2, <- app_assoc, (elem_of_app new2), (elem_of_app new2), E1. done.
Qed.

(** Old reads are answered as before. *)
Lemma keeps_answer last sst ments iments v sst' ments' iments' v' u s value st value' :
  keeps last sst ments iments v sst' ments' iments' v' -> s <= last ->
  answer (U := U) u s (ments ++ iments ++ version_entries (table_contents sst) v) value st value' <->
  answer (U := U) u s (ments' ++ iments' ++ version_entries (table_contents sst') v') value st value'.
Proof.
  intros (new & _ & Hnew & He) Hs. set (es := ments ++ _) in *. set (es' := ments' ++ _) in *.
  assert (Hvis : forall e, visible (C := U) u s e -> e ∈ es' <-> e ∈ es).
  { intros e [_ Hv]. rewrite He, elem_of_app. split; [|by right]. intros [Hn|?]; [|done]. rewrite Forall_forall in Hnew. specialize (Hnew e Hn). cbn in Hnew. lia. }
  assert (Hnewest : forall e, newest_visible (C := U) u s es e <-> newest_visible (C := U) u s es' e).
  { intros e. unfold newest_visible. split; intros (H1 & H2 & H3); (split; [by apply Hvis|]); (split; [done|]); intros e' He' Hv'; apply H3; by try apply Hvis. }
  unfold answer. split; (intros [(e & He1 & Ht)|(Hno & Hr)]; [left; exists e; split; [by apply Hnewest|done]|right; split; [|done]]);
    intros e He1 Hv; apply (Hno e); [by apply Hvis|done|by apply Hvis|done].
Qed.

Lemma version_entries_files sst v v' : files_ v' = files_ v -> version_entries (table_contents sst) v' = version_entries (table_contents sst) v.
Proof. intros Ef. unfold version_entries, level_entries, level_files. by rewrite Ef. Qed.

Lemma moved_keeps sst ments iments v db ments' iments' v' db' :
  moved sst ments iments v db ments' iments' v' db' -> keeps (vs_last_sequence (db_versions db)) sst ments iments v sst ments' iments' v'.
Proof.
  intros [Hf (new & Hn & Hs & He) _ _ _ _ _ _ _ _ _ _ _ _]. exists new. split; [done|]. split; [done|]. intros e. rewrite (version_entries_files _ _ _ Hf), !app_assoc.
  rewrite (elem_of_app (ments' ++ iments')), He, <- !app_assoc, <- elem_of_app, <- !app_assoc. done.
Qed.

Lemma rely_id : rely 0 (fun db => db).
Proof.
  intros sst b held ments iments v db Hi. exists ments, iments, v. split; [exact Hi|]. split; try done.
  - exists []. split; [|done]. intros e e' He. by apply elem_of_nil in He.
  - by intros x.
  - intros n' Hn. by exists n'.
Qed.

(** ** References *)

Lemma current_nodes (g : list VNode -> list VNode) (vs : VersionSet W E) v :
  current vs = Some v -> (forall a n, current_ vs = Some a -> find_version a (dummy_versions_ vs) = Some n ->
    exists n', find_version a (g (dummy_versions_ vs)) = Some n' /\ vn_version n' = vn_version n) ->
  current (with_versions (g (dummy_versions_ vs)) (current_ vs) (vs_next_addr vs) vs) = Some v.
Proof.
  unfold current. cbn [with_versions current_ dummy_versions_]. destruct (current_ vs) as [a|]; [|done]. cbn [mbind option_bind].
  destruct (find_version a (dummy_versions_ vs)) as [n|] eqn:En; [|done]. cbn. intros [= <-] Hg. destruct (Hg a n eq_refl En) as (n' & -> & En'). cbn. by rewrite En'.
Qed.

Lemma find_filter_ne a b l : a <> b -> find_version a (List.filter (fun n => negb (vn_addr n =? b)) l) = find_version a l.
Proof.
  intros Hne. unfold find_version. induction l as [|n l IH]; [done|]. cbn. destruct (Z.eqb_spec (vn_addr n) a) as [Ea|Ea].
  - rewrite (proj2 (Z.eqb_neq (vn_addr n) b)) by congruence. cbn. by rewrite (proj2 (Z.eqb_eq _ _) Ea).
  - destruct (negb _); cbn; [by rewrite (proj2 (Z.eqb_neq _ _) Ea)|done].
Qed.

(** A change of the list of versions that keeps the versions. *)
Lemma with_nodes_inv sst b held held' ments iments v db g :
  inv sst b held ments iments v db ->
  (forall n', n' ∈ g (dummy_versions_ (db_versions db)) -> (exists n, n ∈ dummy_versions_ (db_versions db) /\ vn_addr n' = vn_addr n /\ vn_version n' = vn_version n) /\ 1 <= vn_refs n') ->
  (forall a n, current_ (db_versions db) = Some a -> find_version a (dummy_versions_ (db_versions db)) = Some n ->
    exists n', find_version a (g (dummy_versions_ (db_versions db))) = Some n' /\ vn_version n' = vn_version n) ->
  holding held' (with_nodes (g (dummy_versions_ (db_versions db))) db) ->
  inv sst b held' ments iments v (with_nodes (g (dummy_versions_ (db_versions db))) db).
Proof.
  intros [I1 I2 I3 I4 I5 I6 I7 I8 I9 I10 I11 I12 I13 I14] Hg Hc Hh. split; try done.
  - destruct I1 as [M1 M2 M3 M4 M5 M6 M7 M8 M9]. split; try done; [|by apply (current_nodes g)].
    destruct M1 as [B1 B2 (a & n & Ea & En)]. rewrite Forall_forall in B1. split; cbn.
    + apply Forall_forall. intros n' ((m & Hm & -> & _) & _)%Hg. by apply B1.
    + apply Forall_forall. by intros n' [_ ?]%Hg.
    + destruct (Hc a n Ea En) as (n' & En' & _). eauto.
  - intros n' level f [(n & Hn & _ & Ev) _]%Hg Hf. rewrite Ev in Hf. by apply (I3 n level f).
Qed.

Lemma Ref_at_inv sst b held ments iments v db a n :
  inv sst b held ments iments v db -> find_version a (dummy_versions_ (db_versions db)) = Some n -> current_ (db_versions db) = Some a ->
  exists db', Ref_at a db = Some db' /\ inv sst b (a :: held) ments iments v db' /\ db_imm db' = db_imm db /\ db_shared db' = db_shared db /\
    pending_outputs_ db' = pending_outputs_ db /\ vs_next_file_number (db_versions db') = vs_next_file_number (db_versions db) /\
    vs_last_sequence (db_versions db') = vs_last_sequence (db_versions db) /\ table_cache_ db' = table_cache_ db /\ current_ (db_versions db') = Some a.
Proof.
  intros Hi En Ea. unfold Ref_at, Version_Ref. rewrite En. cbn [mbind option_bind]. eexists. split; [done|]. split; [|done].
  pose proof (vo_refs _ (ma_versions _ _ _ (iv_managed _ _ _ _ _ _ _ Hi))) as Hrefs. rewrite Forall_forall in Hrefs.
  apply (with_nodes_inv _ _ held); [exact Hi| | |].
  - intros n' (m & -> & Hm)%list_elem_of_fmap. pose proof (Hrefs m Hm) as H1. cbn in H1. destruct (Z.eqb_spec (vn_addr m) a) as [Em|_]; (split; [by exists m|]); [|done].
    cbn. assert (1 <= vn_refs n) by (apply Hrefs; by eapply find_version_some). lia.
  - intros a' n' Ha' En'. rewrite set_vrefs_find, En'. cbn. destruct (a' =? a); eauto.
  - intros x Hx. destruct (decide (x = a)) as [->|Hne].
    + exists (with_vrefs (vn_refs n + 1) n). cbn [with_nodes with_db_versions db_versions with_versions dummy_versions_ current_]. rewrite set_vrefs_find, En, Z.eqb_refl. split; [done|].
      cbn [List.filter]. rewrite Z.eqb_refl. cbn [length vn_refs with_vrefs]. rewrite decide_True by done.
      destruct (decide (a ∈ held)) as [Hin|Hout].
      * destruct (iv_held _ _ _ _ _ _ _ Hi a Hin) as (n' & En' & Hr). rewrite En in En'. injection En' as <-. rewrite decide_True in Hr by done. lia.
      * assert (Ef : List.filter (Z.eqb a) held = []).
        { apply filter_none. intros y Hy. apply Z.eqb_neq. intros <-. by apply Hout. }
        rewrite Ef. cbn. assert (1 <= vn_refs n) by (apply Hrefs; by eapply find_version_some). lia.
    + apply elem_of_cons in Hx as [->|Hx]; [done|]. destruct (iv_held _ _ _ _ _ _ _ Hi x Hx) as (n' & En' & Hr). exists n'.
      cbn [with_nodes with_db_versions db_versions with_versions dummy_versions_ current_]. rewrite set_vrefs_find, En', (proj2 (Z.eqb_neq _ _)) by done. split; [done|].
      cbn [List.filter]. by rewrite (proj2 (Z.eqb_neq _ _)) by done.
Qed.

Lemma Unref_at_inv sst b held ments iments v db a :
  inv sst b (a :: held) ments iments v db ->
  exists db', Unref_at a db = Some db' /\ inv sst b held ments iments v db' /\ db_imm db' = db_imm db /\ db_shared db' = db_shared db /\
    pending_outputs_ db' = pending_outputs_ db /\ vs_next_file_number (db_versions db') = vs_next_file_number (db_versions db) /\
    vs_last_sequence (db_versions db') = vs_last_sequence (db_versions db) /\ table_cache_ db' = table_cache_ db /\ db_logfile_number db' = db_logfile_number db.
Proof.
  intros Hi. pose proof (iv_held _ _ _ _ _ _ _ Hi) as Hh. destruct (Hh a ltac:(by left)) as (n & En & Hr). cbn [List.filter length] in Hr. rewrite Z.eqb_refl in Hr. cbn [length] in Hr.
  pose proof (vo_refs _ (ma_versions _ _ _ (iv_managed _ _ _ _ _ _ _ Hi))) as Hrefs. rewrite Forall_forall in Hrefs.
  assert (Hcount : forall x, x ∈ held -> (1 <= length (List.filter (Z.eqb x) held))%nat).
  { intros x Hx. assert (Hin : x ∈ List.filter (Z.eqb x) held) by (apply list_elem_of_In, filter_In; split; [by apply list_elem_of_In|by apply Z.eqb_refl]).
    destruct (List.filter (Z.eqb x) held); [by apply elem_of_nil in Hin|cbn; lia]. }
  unfold Unref_at, Version_Unref. rewrite En. cbn [mbind option_bind].
  assert (1 <= vn_refs n) by (destruct (decide _); lia). rewrite (proj2 (Z.ltb_ge _ _)) by lia.
  destruct (Z.eqb_spec (vn_refs n - 1) 0) as [E0|E0]; cbn [mbind option_bind]; eexists; (split; [done|]); (split; [|done]).
  - assert (Hcur : current_ (db_versions db) <> Some a) by (intros Hc; rewrite decide_True in Hr by done; lia).
    apply (with_nodes_inv _ _ (a :: held) held ments iments v db (List.filter (fun m => negb (vn_addr m =? a)))); [exact Hi| | |].
    + intros n' [Hn'%list_elem_of_In _]%list_elem_of_In%filter_In. split; [by exists n'|by apply Hrefs].
    + intros x n' Hx Hn'. exists n'. rewrite find_filter_ne; [done|]. intros ->. by apply Hcur.
    + intros x Hx. assert (Hne : x <> a). { intros ->. pose proof (Hcount a Hx). destruct (decide _); lia. }
      destruct (Hh x ltac:(by right)) as (n' & En' & Hr'). cbn [List.filter] in Hr'. rewrite (proj2 (Z.eqb_neq _ _)) in Hr' by done. exists n'.
      cbn [with_nodes with_db_versions db_versions with_versions dummy_versions_ current_]. by rewrite find_filter_ne.
  - apply (with_nodes_inv _ _ (a :: held) held ments iments v db (set_vrefs a (vn_refs n - 1))); [exact Hi| | |].
    + intros n' (m & -> & Hm)%list_elem_of_fmap. pose proof (Hrefs m Hm). cbn. destruct (Z.eqb_spec (vn_addr m) a) as [Em|_]; (split; [by exists m|]); [|done]. cbn. lia.
    + intros x n' Hx Hn'. rewrite set_vrefs_find, Hn'. cbn. destruct (x =? a); eauto.
    + intros x Hx. destruct (Hh x ltac:(by right)) as (n' & En' & Hr'). cbn [with_nodes with_db_versions db_versions with_versions dummy_versions_ current_].
      rewrite set_vrefs_find, En'. eexists. split; [done|]. destruct (Z.eqb_spec x a) as [->|Hne].
      * rewrite En in En'. injection En' as <-. cbn. lia.
      * cbn [List.filter] in Hr'. by rewrite (proj2 (Z.eqb_neq _ _)) in Hr' by done.
Qed.

(** ** Small changes *)

(** A change of the members that the invariant does not read. *)
Lemma inv_pending sst b held ments iments v db p : inv sst b held ments iments v db -> inv sst b held ments iments v (with_pending p db).
Proof. intros [I1 I2 I3 I4 I5 I6 I7 I8 I9 I10 I11 I12 I13 I14]. by split. Qed.

Lemma inv_shared sst b held ments iments v db sh : inv sst b held ments iments v db -> inv sst b held ments iments v (with_shared sh db).
Proof. intros [I1 I2 I3 I4 I5 I6 I7 I8 I9 I10 I11 I12 I13 I14]. by split. Qed.

Lemma inv_error sst b held ments iments v db s : inv sst b held ments iments v db -> inv sst b held ments iments v (RecordBackgroundError s db).
Proof. intros Hi. unfold RecordBackgroundError. destruct (ok _); [by apply inv_shared|done]. Qed.
End Invariant.
