(* ===== verification/InstallEdit.v ===== *)
(** * db/db_impl: installing an edit

    The call [versions_->LogAndApply(edit, &mutex_)] with the rest of the database:
    the manifest is written without the mutex, and [others] is what the other
    threads do meanwhile.  When the tables of the edited version are there and fit
    together, the invariant holds afterwards, with the new version or, after an
    error, the old one. *)

From Stdlib Require Import Sorted.
From stdpp Require Import gmap sorting.
From S2P Require Import Prelude Coding Comparator Crc32c Bloom DbFormat Status Iterator BlockBuilder Block Format FilterBlock TableBuilder Table SkipList MemTable UserView MemIter.
From S2P Require Import VersionEdit Options Version VersionGet Overlap InternalTable TableCache BuildTable LogWriter Filename Compaction VersionBuilder VersionSet Manifest Install Levels.
From S2P Require Import DBImpl DBGet LSM Obsolete Invariant.

Section Apply.
Context `{CS : Checksum} {E W KC K : Type} {WF : WritableFile W} {LF : LogFiles E W} {EF : EnvFiles E}.
Variables (C : Comparator) (comparator_name dbname_ : bytes).
Notation DBImpl := (DBImpl E W KC K).

(** [versions_->LogAndApply(edit, &mutex_)] *)
Definition LogAndApply_unlocked (others : DBImpl -> DBImpl) (edit : VersionEdit) (db : DBImpl) : option (Status * VersionEdit * DBImpl) :=
  '(edit, v, s, new_manifest_file, versions) ← LogAndApply_begin C comparator_name dbname_ edit (db_versions db);
  let db := others (with_db_versions versions db) in
  '(s, edit, versions) ← LogAndApply_end dbname_ edit v s new_manifest_file (db_versions db);
  Some (s, edit, with_db_versions versions db).
End Apply.

(** ** The invariant *)

Section Spec.
Context `{CS : Checksum} {E RA W KC H K : Type} {R : RandomAccessFile RA} {WF : WritableFile W}.
Context {LF : LogFiles E W} {EF : EnvFiles E} {EFL : EnvFilesLaws E} {ED : EnvDirectory E} {RF : RandomAccessFiles E RA} {TF : TableFiles E W}.
Context {works : Prop} {raf_contents : RA -> bytes} {RL : RandomAccessFileLaws R raf_contents} {wf_contents : W -> bytes}.
Context {FS : FaultyFileSystem works WF RF LF TF EF raf_contents wf_contents}.
Context {CO : CacheOps KC H (Table RA) TableDeleter} {c_ok : nat -> (bytes -> Table RA -> Prop) -> list H -> KC -> Prop} {CL : CacheLaws CO c_ok}.
Context {BC : BlockCache K} {bc_holds : K -> bytes -> Block -> Prop} {BL : BlockCacheLaws BC bc_holds} {bc_next : K -> Z} {BI : BlockCacheIds BC bc_next}.
Context (Snappy Zstd : Compressor) {SL : CompressorLaws Snappy} {ZL : CompressorLaws Zstd}.
Context {U : Comparator} {UL : ComparatorLaws U} {o : Options} (comparator_name dbname : bytes).
Context (Hcmp : comparator o = InternalKeyComparator U) (Hinterval : 1 <= block_restart_interval o).
Context (Hfilter : forall name P, filter_policy o = Some (name, P) ->
  exists P0, P = InternalFilterPolicy P0 /\ FilterPolicyLaws P0 /\ zlen name < 2 ^ 31 /\ forall a b, Compare (Comparator := U) a b = Eq -> a = b).
Notation DB := (DBImpl E W KC K).
Notation ready := (cache_ready (raf_contents := raf_contents) (c_ok := c_ok) (bc_holds := bc_holds) (bc_next := bc_next) Snappy Zstd (U := U) (o := o)).
Notation has_table := (has_table (raf_contents := raf_contents) Snappy Zstd (U := U) (o := o) dbname).
Notation inv := (inv (raf_contents := raf_contents) (wf_contents := wf_contents) (c_ok := c_ok) (bc_holds := bc_holds) (bc_next := bc_next) Snappy Zstd (U := U) (o := o) dbname).
Implicit Types (db : DB) (sst : Z -> option TableImage) (v : Version) (tc : TableCacheState E KC K).

(** The current version is in the list. *)
Lemma current_in sst b held ments iments v db :
  inv sst b held ments iments v db -> exists a n, current_ (db_versions db) = Some a /\ find_version a (dummy_versions_ (db_versions db)) = Some n /\
    n ∈ dummy_versions_ (db_versions db) /\ vn_version n = v.
Proof.
  intros Hi. destruct (find_set_version _ _ (ma_versions _ _ _ (iv_managed _ _ _ _ _ _ _ _ _ _ Hi)) (ma_current _ _ _ (iv_managed _ _ _ _ _ _ _ _ _ _ Hi))) as (a & n & Ea & En & Ev & _).
  exists a, n. split; [done|]. split; [done|]. split; [by eapply find_version_some|done].
Qed.

Lemma new_file_frame f (e : E) (r : Status + W) e' g : NewWritableFile f e = (r, e') -> g <> f -> contents e' g = contents e g.
Proof. intros [Hg _]%ff_new. apply Hg. Qed.

Lemma new_file_fails f (e : E) s e' : NewWritableFile (W := W) f e = (inl s, e') -> ok s = false.
Proof. by intros [_ [Hs _]]%ff_new. Qed.

(** Tables do not depend on other files, nor on the caches. *)
Lemma has_table_env sst tc tc' n size es :
  (forall g, table_or_log dbname g -> contents (tcs_env tc') g = contents (tcs_env tc) g) -> has_table sst tc n size es -> has_table sst tc' n size es.
Proof.
  intros He Ht. pose proof Ht as (Hn & _). destruct (filename_roundtrip dbname [] n 0 kLogFile Hn) as (_ & _ & R2 & R3 & _).
  assert (H1 : table_or_log dbname (TableFileName dbname n)) by (exists n, kTableFile; auto).
  assert (H2 : table_or_log dbname (SSTTableFileName dbname n)) by (exists n, kTableFile; auto).
  rewrite has_table_bytes in *. unfold table_bytes in *. by rewrite !He by done.
Qed.

(** New versions of the set with the same list. *)
Lemma inv_versions sst b held ments iments v db vs :
  inv sst b held ments iments v db -> managed U vs v -> same_set (db_versions db) vs -> frame dbname (db_versions db) vs ->
  inv sst b held ments iments v (with_db_versions vs db).
Proof.
  intros [I1 I2 I3 I4 I5 I6 I7 I8 I9 I10 I11 I12 I13 I14] Hm [S1 S2 [S3 S4]] [F1 F2 F3 F4 F5]. split; try done.
  - intros n level f Hn Hf. cbn in Hn. rewrite S1 in Hn. destruct (I3 n level f Hn Hf) as (Ht & Hs & Hlv). split; [|split; [by apply F5|done]]. by apply (has_table_env sst (table_cache_ db)).
  - cbn. by rewrite F2.
  - intros a Ha. cbn. rewrite S1, S2. by apply I6.
  - cbn. by rewrite F2, S3.
  - cbn. by rewrite F2.
Qed.

(** What a call of [LogAndApply] needs: the tables of the edited version fit
    together and can be read. *)
Record installable sst (edit : VersionEdit) v db : Prop := {
  in_applicable : applicable U comparator_name edit (db_versions db) v;
  in_ids : ids_ok (C := U) sst (fun lvl => apply_ref lvl (level_ids v lvl) edit);
  in_tables : forall lvl i, i ∈ apply_ref lvl (level_ids v lvl) edit -> has_table sst (table_cache_ db) (id_number i) i.1.1.2 (id_entries sst i);
  in_log : has_log_number_ edit = true -> log_number_ edit <= db_logfile_number db;
}.

Lemma LogAndApply_inv others c sst b held ments iments v db edit :
  inv sst (c + b) held ments iments v db -> rely (raf_contents := raf_contents) (wf_contents := wf_contents) (c_ok := c_ok) (bc_holds := bc_holds) (bc_next := bc_next) Snappy Zstd (U := U) (o := o) dbname c others ->
  installable sst edit v db ->
  exists s e db' ments' iments' v1, LogAndApply_unlocked U comparator_name dbname others edit db = Some (s, e, db') /\ files_ v1 = files_ v /\
    (exists new, newer (C := U) new (ments ++ iments ++ version_entries (table_contents sst) v) /\
      Forall (fun e => vs_last_sequence (db_versions db) < e_seq e) new /\ forall e, e ∈ ments' ++ iments' <-> e ∈ new ++ ments ++ iments) /\
    (is_Some (db_imm db) -> db_imm db' = db_imm db /\ iments' = iments) /\ vs_last_sequence (db_versions db) <= vs_last_sequence (db_versions db') /\
    pending_outputs_ db' = pending_outputs_ db /\ newer (C := U) ments' (iments' ++ version_entries (table_contents sst) v) /\
    unique_keys (U := U) (ments' ++ iments' ++ version_entries (table_contents sst) v) /\
    vs_next_file_number (db_versions db) <= vs_next_file_number (db_versions db') /\
    (forall n size es, has_table sst (table_cache_ db) n size es -> has_table sst (table_cache_ db') n size es) /\
    (shutting_down_ (db_shared db) = true -> shutting_down_ (db_shared db') = true) /\
    (match db_imm db' with Some imm => mem_repr (C := U) imm iments' | None => iments' = [] end /\ newer (C := U) iments' (version_entries (table_contents sst) v) /\
      forall es, es ≡ₚ iments' -> entries_sorted U es -> es <> [] -> table_fits (o := o) (wf_contents := wf_contents) Snappy Zstd es) /\
    if ok s then
      exists v', (forall lvl i, (lvl < kNumLevels)%nat -> i ∈ level_ids v' lvl <-> i ∈ apply_ref lvl (level_ids v lvl) edit) /\ holds U v' (level_ids v') /\
        forall imm2 iments2, match imm2 with Some imm => mem_repr (C := U) imm iments2 | None => iments2 = [] end ->
          newer (C := U) ments' (iments2 ++ version_entries (table_contents sst) v') -> newer (C := U) iments2 (version_entries (table_contents sst) v') ->
          unique_keys (U := U) (ments' ++ iments2 ++ version_entries (table_contents sst) v') ->
          (forall es, es ≡ₚ iments2 -> entries_sorted U es -> es <> [] -> table_fits (o := o) (wf_contents := wf_contents) Snappy Zstd es) ->
          inv sst b held ments' iments2 v' (with_db_imm imm2 db')
    else inv sst b held ments' iments' v1 db'.
Proof.
  intros Hi Hrely [Hap Hids Htab Hlog]. pose proof Hi as [I1 I2 I3 I4 I5 I6 I7 I8 I9 I10 I11 I12 I13 I14]. unfold LogAndApply_unlocked.
  destruct (LogAndApply_begin_run U comparator_name dbname new_file_frame new_file_fails edit (db_versions db) v I1 Hap)
    as (e & v' & s1 & nm & vs2 & -> & Hm2 & Hrv & Hss & Hfr & Hv' & Hnm & Hlogd & He1 & He2 & He3 & He4). cbn [mbind option_bind].
  destruct (Hrely sst b held ments iments v (with_db_versions vs2 db) (inv_versions _ _ _ _ _ _ _ _ Hi Hm2 Hss Hfr)) as (ments' & iments' & v1 & Hi2 & Hmv).
  set (db2 := others (with_db_versions vs2 db)) in *. destruct Hmv as [V1 V2 V3 V4 V5 V6 V7 V8 V9 V10 V11 V12 V13 V14 V15]. cbn [with_db_versions db_versions db_imm pending_outputs_ db_logfile_number] in *.
  pose proof Hi2 as [J1 J2 J3 J4 J5 J6 J7 J8 J9 J10 J11 J12 J13 J14]. destruct Hrv as [R1 R2 R3 R4].
  destruct (LogAndApply_end_run U dbname e v1 v' s1 nm (db_versions db2) J1) as (s & vs3 & -> & Hfr3 & Hfind & Hnodes & Hres).
  { split; [exact R1|by eapply seeks_ok_le|intros lvl f Hf; specialize (R3 lvl f Hf); lia|exact R4]. }
  { by rewrite V10. }
  { by rewrite V9. }
  { done. }
  { done. }
  cbn [mbind option_bind]. exists s, e, (with_db_versions vs3 db2), ments', iments', v1. split; [done|]. split; [exact V1|].
  destruct Hss as [S1 S2 [S3 S4]]. destruct Hfr as [F1 F2 F3 F4 F5]. split; [by rewrite F3 in V2|]. split; [exact V4|].
  split; [cbn; rewrite (fr_last _ _ _ Hfr3); lia|]. split; [exact V7|].
  rewrite (version_entries_files _ _ _ V1) in J10, J11, J12. split; [exact J10|]. split; [exact J12|].
  assert (Htabs : forall n size es, has_table sst (table_cache_ db) n size es -> has_table sst (table_cache_ (with_db_versions vs3 db2)) n size es).
  { intros n size es Ht. apply (has_table_env sst (table_cache_ db2)); [apply Hfr3|]. apply V14. by apply (has_table_env sst (table_cache_ db)). }
  split; [cbn; rewrite (fr_next _ _ _ Hfr3); rewrite F2 in V5; exact V5|]. split; [exact Htabs|]. split; [exact V15|]. split; [by split|].
  destruct (ok s) eqn:Es.
  2: { destruct Hres as [Hm3 Hss3]. by apply inv_versions. }
  destruct Hres as (Hm3 & L1 & L2). exists v'. split; [exact Hv'|]. split; [exact R1|]. intros imm2 iments2 Himm2 Hn1 Hn2 Hn3 Hn4.
  assert (Hids' : ids_ok (C := U) sst (level_ids v')).
  { assert (Hsub : forall lvl i, i ∈ level_ids v' lvl -> i ∈ apply_ref lvl (level_ids v lvl) edit).
    { intros lvl i Hin. destruct (decide (lvl < kNumLevels)%nat); [by apply Hv'|]. apply level_ids_elem in Hin as (f & Hf & _). rewrite level_files_out in Hf by (apply R1 || done). by apply elem_of_nil in Hf. }
    destruct Hids as [D1 D2 D3]. split; intros *; intros; eauto. }
  split; try done.
  - apply version_ok_ids; [exact R1|apply R4|exact Hids'].
  - intros n level f Hn Hf. cbn in Hn. split; [|split].
    + destruct (Hnodes n Hn) as [En|(m & Hm & Em)].
      * rewrite En in Hf. assert (Hl : (level < kNumLevels)%nat).
        { destruct (decide (level < kNumLevels)%nat); [done|]. rewrite level_files_out in Hf by (apply R1 || done). by apply elem_of_nil in Hf. }
        apply Htabs. apply (Htab level (file_id (f_meta f))). apply Hv'; [done|]. apply level_ids_elem. by exists f.
      * rewrite Em in Hf. apply (has_table_env sst (table_cache_ db2)); [apply Hfr3|]. by apply (J3 m level).
    + destruct (Hnodes n Hn) as [En|(m & Hm & Em)]; [rewrite En in Hf; by apply (ma_seeks _ _ _ Hm3 level)|].
      rewrite Em in Hf. apply (fr_objects _ _ _ Hfr3). by apply (J3 m level).
    + destruct (Hnodes n Hn) as [En|(m & Hm & Em)]; [|rewrite Em in Hf; by apply (J3 m level f)].
      rewrite En in Hf. destruct (decide (level < kNumLevels)%nat); [done|]. rewrite level_files_out in Hf by (apply R1 || done). by apply elem_of_nil in Hf.
  - intros n Hn. apply J5. cbn in Hn. by rewrite (fr_next _ _ _ Hfr3) in Hn.
  - intros a Ha. destruct (J6 a Ha) as (n & En & Hr). assert (Hc : (1 <= length (List.filter (Z.eqb a) held))%nat).
    { assert (Hin : a ∈ List.filter (Z.eqb a) held) by (apply list_elem_of_In, filter_In; split; [by apply list_elem_of_In|by apply Z.eqb_refl]).
      destruct (List.filter (Z.eqb a) held); [by apply elem_of_nil in Hin|cbn; lia]. }
    destruct (Hfind a n En) as (n' & En' & _ & Hc' & Hr').
    { intros _ Hcur. rewrite decide_True in Hr by done. lia. }
    exists n'. split; [exact En'|]. cbn. rewrite (decide_False (P := current_ vs3 = Some a)) by done. lia.
  - cbn. rewrite (fr_next _ _ _ Hfr3), L1, He3. split; [|by apply J7]. destruct (has_log_number_ edit) eqn:Eh; [specialize (Hlog eq_refl); lia|].
    destruct J7 as [J7 _]. rewrite (proj1 V11), S3 in J7. exact J7.
  - cbn. by rewrite (fr_next _ _ _ Hfr3).
Qed.
End Spec.
