(* ===== verification/Evolve.v ===== *)
(** * How a database changes while the background thread works

    [evolves]: from one state to a later one newer entries come in, tables that hold
    entries of a memtable join the version, and what was there stays: the entries
    that can be read, the tables of the version, and the tables among the pending
    outputs. *)

From Stdlib Require Import Sorted.
From stdpp Require Import gmap sorting.
From S2P Require Import Prelude Coding Comparator Crc32c Bloom DbFormat Status Iterator BlockBuilder Block Format FilterBlock TableBuilder Table SkipList MemTable UserView.
From S2P Require Import VersionEdit Options Version VersionGet Overlap InternalTable TableCache BuildTable LogWriter Filename Compaction VersionBuilder VersionSet Manifest Install Levels.
From S2P Require Import DBImpl DBGet LSM Obsolete Invariant InstallEdit.

#[local] Notation table_id := (Z * Z * bytes * bytes)%type.

Section Evolve.
Context `{CS : Checksum} {E F W KC H K : Type} {R : RandomAccessFile F} {RF : RandomAccessFiles E F}.
Context {WF : WritableFile W} {raf_contents : F -> bytes} {wf_contents : W -> bytes} {c_ok : nat -> (bytes -> Table F -> Prop) -> list H -> KC -> Prop}.
Context {CO : CacheOps KC H (Table F) TableDeleter} {bc_holds : K -> bytes -> Block -> Prop} {BC : BlockCache K} {bc_next : K -> Z}.
Context (Snappy Zstd : Compressor) {U : Comparator} {UL : ComparatorLaws U} {o : Options} (dbname : bytes).
Notation DB := (DBImpl E W KC K).
Notation has_table := (has_table (raf_contents := raf_contents) Snappy Zstd (U := U) (o := o) dbname).
Notation inv := (inv (raf_contents := raf_contents) (wf_contents := wf_contents) (c_ok := c_ok) (bc_holds := bc_holds) (bc_next := bc_next) Snappy Zstd (U := U) (o := o) dbname).
Notation moved := (moved (raf_contents := raf_contents) Snappy Zstd (U := U) (o := o) dbname).
Implicit Types (db : DB) (sst : Z -> option TableImage) (v : Version).
Notation next db := (vs_next_file_number (db_versions db)).
Notation lastseq db := (vs_last_sequence (db_versions db)).

(** The user keys of a table are apart from those of a file. *)
Definition id_overlaps (i : table_id) (f : FilePtr) : bool :=
  overlaps (C := U) (Some (ExtractUserKey i.1.2)) (Some (ExtractUserKey i.2)) f.

(** A table that joined a version at a level: its number is new, its entries are
    newer than those there, and at a level below the first it overlaps nothing above. *)
Definition joins sst v sst' (n : Z) (lvl : nat) (i : table_id) : Prop :=
  n <= id_number i /\ newer (C := U) (id_entries sst' i) (version_entries (table_contents sst) v) /\
  forall lvl' f, (0 < lvl)%nat -> (lvl' <= lvl)%nat -> f ∈ level_files v lvl' -> id_overlaps i f = false.

Record evolves (lim lo : Z) sst (ments iments : list Entry) v db sst' (ments' iments' : list Entry) v' db' : Prop := {
  ev_sst : forall k, k < lim \/ is_Some (sst k) -> sst' k = sst k;
  ev_next : next db <= next db';
  ev_keeps : keeps (U := U) (lastseq db) sst ments iments v sst' ments' iments' v';
  ev_last : lastseq db <= lastseq db';
  ev_pending : forall k, k < lim -> k ∈ pending_outputs_ db -> k ∈ pending_outputs_ db';
  ev_tables : forall k size es, k < lim -> k ∈ pending_outputs_ db -> has_table sst (table_cache_ db) k size es -> has_table sst' (table_cache_ db') k size es;
  ev_ids : exists N : nat -> list table_id,
    (forall lvl i, (lvl < kNumLevels)%nat -> i ∈ level_ids v' lvl <-> i ∈ level_ids v lvl \/ i ∈ N lvl) /\
    forall lvl i, (lvl < kNumLevels)%nat -> i ∈ N lvl -> joins sst v sst' lo lvl i;
  ev_shutdown : shutting_down_ (db_shared db) = true -> shutting_down_ (db_shared db') = true;
}.

Lemma evolves_lim lim lim' lo sst ments iments v db sst' ments' iments' v' db' :
  lim' <= lim -> evolves lim lo sst ments iments v db sst' ments' iments' v' db' -> evolves lim' lo sst ments iments v db sst' ments' iments' v' db'.
Proof. intros Hle [E1 E2 E3 E4 E5 E6 E7 E8]. split; try done; intros; [apply E1|eapply E5|eapply E6]; try done; try lia. destruct H0; [left; lia|by right]. Qed.

Lemma evolves_lo lim lo lo' sst ments iments v db sst' ments' iments' v' db' :
  lo' <= lo -> evolves lim lo sst ments iments v db sst' ments' iments' v' db' -> evolves lim lo' sst ments iments v db sst' ments' iments' v' db'.
Proof.
  intros Hle [E1 E2 E3 E4 E5 E6 (N & H1 & H2) E8]. split; try done. exists N. split; [done|]. intros lvl i Hl Hi.
  destruct (H2 lvl i Hl Hi) as (J1 & J2 & J3). split; [lia|by split].
Qed.

(** ** The tables of a version *)

Lemma inv_holds sst b held ments iments v db : inv sst b held ments iments v db -> holds U v (level_ids v).
Proof. intros Hi. apply (ma_holds _ _ _ (iv_managed _ _ _ _ _ _ _ _ _ _ Hi)). Qed.

Lemma inv_level sst b held ments iments v db lvl f : inv sst b held ments iments v db -> f ∈ level_files v lvl -> (lvl < kNumLevels)%nat.
Proof.
  intros [Hl _]%inv_holds Hf. destruct (decide (lvl < kNumLevels)%nat); [done|]. rewrite level_files_out in Hf by done. by apply elem_of_nil in Hf.
Qed.

Lemma inv_table sst b held ments iments v db lvl i : inv sst b held ments iments v db -> i ∈ level_ids v lvl -> is_Some (sst (id_number i)).
Proof.
  intros Hi (f & Hf & ->)%level_ids_elem. destruct (current_in Snappy Zstd dbname _ _ _ _ _ _ _ Hi) as (a & nd & _ & _ & Hnd & Ev). rewrite <- Ev in Hf.
  destruct (iv_live _ _ _ _ _ _ _ _ _ _ Hi nd lvl f Hnd Hf) as ((_ & i & _ & Ei & _) & _). by exists i.
Qed.

Lemma id_entries_same sst sst' i : sst' (id_number i) = sst (id_number i) -> id_entries sst' i = id_entries sst i.
Proof. intros Es. unfold id_entries. by rewrite Es. Qed.

(** Old tables with their entries are in the later version. *)
Lemma evolves_entries lim lo sst b held ments iments v db sst' b' held' ments' iments' v' db' :
  inv sst b held ments iments v db -> inv sst' b' held' ments' iments' v' db' -> evolves lim lo sst ments iments v db sst' ments' iments' v' db' ->
  (forall lvl i, i ∈ level_ids v lvl -> i ∈ level_ids v' lvl /\ id_entries sst' i = id_entries sst i) /\
  forall e, e ∈ version_entries (table_contents sst) v -> e ∈ version_entries (table_contents sst') v'.
Proof.
  intros Hi Hi' He. pose proof He as [E1 _ _ _ _ _ (N & Hids & _) _].
  assert (H0 : forall lvl i, i ∈ level_ids v lvl -> i ∈ level_ids v' lvl /\ id_entries sst' i = id_entries sst i).
  { intros lvl i Hin. split; [|apply id_entries_same, E1; right; by eapply (inv_table sst b held ments iments v)]. apply Hids; [|by left].
    apply level_ids_elem in Hin as (f & Hf & _). by eapply (inv_level sst b held ments iments v). }
  split; [exact H0|]. intros e. rewrite (version_entries_ids sst v), (version_entries_ids sst' v') by (by eapply inv_holds). intros (lvl & i & Hin & Hent).
  destruct (H0 lvl i Hin) as [Hin' Eq]. exists lvl, i. by rewrite Eq.
Qed.

Lemma level_file_of_id v lvl i : i ∈ level_ids v lvl -> exists f, f ∈ level_files v lvl /\ i = file_id (f_meta f).
Proof. by intros ?%level_ids_elem. Qed.

Lemma id_overlaps_file i f g : file_id (f_meta f) = file_id (f_meta g) -> id_overlaps i f = id_overlaps i g.
Proof. intros [= _ _ Es El]. unfold id_overlaps, overlaps, AfterFile, BeforeFile, f_smallest_user, f_largest_user, f_smallest, f_largest. by rewrite Es, El. Qed.

(** ** Composition *)

Lemma evolves_trans lim lo sst b held ments iments v db sst1 b1 held1 ments1 iments1 v1 db1 sst2 b2 held2 ments2 iments2 v2 db2 :
  lim <= next db -> inv sst b held ments iments v db -> inv sst1 b1 held1 ments1 iments1 v1 db1 -> inv sst2 b2 held2 ments2 iments2 v2 db2 ->
  evolves lim lo sst ments iments v db sst1 ments1 iments1 v1 db1 -> evolves lim lo sst1 ments1 iments1 v1 db1 sst2 ments2 iments2 v2 db2 ->
  evolves lim lo sst ments iments v db sst2 ments2 iments2 v2 db2.
Proof.
  intros Hlim Hi Hi1 Hi2 Ev1 Ev2. destruct (evolves_entries _ _ _ _ _ _ _ _ _ _ _ _ _ _ _ _ Hi Hi1 Ev1) as [Hold Hent].
  destruct (evolves_entries _ _ _ _ _ _ _ _ _ _ _ _ _ _ _ _ Hi1 Hi2 Ev2) as [Hold1 _].
  pose proof Ev1 as [A1 A2 A3 A4 A5 A6 (N1 & B1 & C1) A8]. pose proof Ev2 as [D1 D2 D3 D4 D5 D6 (N2 & B2 & C2) D8]. split.
  - intros k Hk. assert (E1 : sst1 k = sst k) by by apply A1. rewrite D1; [done|]. rewrite E1. done.
  - lia.
  - by eapply keeps_trans.
  - lia.
  - eauto.
  - eauto.
  - exists (fun lvl => N1 lvl ++ N2 lvl). split.
    + intros lvl i Hl. rewrite B2, B1, elem_of_app by done. tauto.
    + intros lvl i Hl [Hin|Hin]%elem_of_app.
      * destruct (C1 lvl i Hl Hin) as (J1 & J2 & J3). split; [done|]. split; [|done].
        rewrite (proj2 (Hold1 lvl i ltac:(apply B1; [done|by right]))). exact J2.
      * destruct (C2 lvl i Hl Hin) as (J1 & J2 & J3). split; [lia|]. split.
        -- eapply newer_elem; [by intros e He; exact He| |exact J2]. exact Hent.
        -- intros lvl' f H1 H2 Hf. destruct (Hold lvl' (file_id (f_meta f))) as [(g & Hg & Eg)%level_ids_elem _]; [apply level_ids_elem; by exists f|].
           rewrite (id_overlaps_file i f g Eg). by apply (J3 lvl' g).
  - auto.
Qed.

(** The same entries and tables. *)
Lemma evolves_same lim lo sst ments iments v v' db db' :
  files_ v' = files_ v -> next db <= next db' -> lastseq db <= lastseq db' -> (forall k, k < lim -> k ∈ pending_outputs_ db -> k ∈ pending_outputs_ db') ->
  (forall k size es, k < lim -> k ∈ pending_outputs_ db -> has_table sst (table_cache_ db) k size es -> has_table sst (table_cache_ db') k size es) ->
  (shutting_down_ (db_shared db) = true -> shutting_down_ (db_shared db') = true) -> evolves lim lo sst ments iments v db sst ments iments v' db'.
Proof.
  intros Ef Hn Hl Hp Ht Hsh. split; try done.
  - exists []. split; [intros e e' Hx; by apply elem_of_nil in Hx|]. split; [done|]. intros e. by rewrite (version_entries_files _ _ _ Ef).
  - exists (fun _ => []). unfold level_ids, level_files. rewrite Ef. split; [|by intros ? ? _ ?%elem_of_nil].
    intros lvl i _. split; [by left|]. by intros [?|?%elem_of_nil].
Qed.

Lemma evolves_moved lim lo sst ments iments v db ments' iments' v' db' :
  moved sst ments iments v db ments' iments' v' db' -> evolves lim lo sst ments iments v db sst ments' iments' v' db'.
Proof.
  intros Hm. pose proof (moved_keeps _ _ _ _ _ _ _ _ _ _ _ _ Hm) as Hk. destruct Hm as [V1 V2 V3 V4 V5 V6 V7 V8 V9 V10 V11 V12 V13 V14 V15].
  destruct (evolves_same lim lo sst ments iments v v' db db' V1 V5 V3) as [S1 S2 S3 S4 S5 S6 S7 S8]; [by rewrite V7|by intros; apply V14|exact V15|]. by split.
Qed.
End Evolve.
