(* ===== verification/Recovery.v ===== *)
(** * db/db_impl: recovery

    Models the part of src/db/db_impl.cc that brings a database up: [NewDB],
    [MaybeIgnoreError], [WriteLevel0Table], [RecoverLogFile], [Recover] and
    [DB::Open].  [None] is a failed assertion, or too little fuel for a
    log that does not end. *)

From Stdlib Require Import Sorted.
From stdpp Require Import sorting gmap.
From S2P Require Import Prelude Coding Comparator Logging Crc32c Bloom Status Iterator BlockBuilder Block Format FilterBlock.
From S2P Require Import IteratorWrapper TwoLevelIterator Options TableBuilder Table DbFormat SkipList MemTable UserView MemIter WriteBatch Filename.
From S2P Require Import VersionEdit Version VersionGet InternalTable TableCache BuildTable LogWriter LogReader LogReplay Compaction VersionBuilder VersionSet DBImpl Obsolete.

Section Recovery.
Context `{CS : Checksum} {E F RA W KC H K : Type} {SF : SequentialFile F} {R : RandomAccessFile RA} {WF : WritableFile W}.
Context {LF : LogFiles E W} {NS : SequentialFiles E F} {AF : AppendableFiles E W} {EF : EnvFiles E} {ED : EnvDirectory E}.
Context {RF : RandomAccessFiles E RA} {TF : TableFiles E W} {CO : CacheOps KC H (Table RA) TableDeleter} {BC : BlockCache K}.
Variables (Snappy Zstd : Compressor) (C : Comparator) (comparator_name dbname_ : bytes) (options_ : Options) (mem_usage : MemTable -> Z).

Notation DBImpl := (DBImpl E W KC K).

(** ** A new database *)

Definition new_db_edit : VersionEdit := SetLastSequence (SetNextFile (SetLogNumber (SetComparatorName Clear comparator_name) 0) 2) 0.

Definition NewDB (env : E) : Status * E :=
  let manifest := DescriptorFileName dbname_ 1 in
  let '(r, env) := NewWritableFile manifest env in
  match r with
  | inl s => (s, env)
  | inr file =>
      let '(s, log) := AddRecord (Writer_new file) (EncodeTo new_db_edit []) in
      let '(s, file) := if ok s then wf_Sync (dest_ log) else (s, dest_ log) in
      let '(s, env) := if ok s then CloseWritableFile manifest file env else (s, env) in
      if ok s then SetCurrentFile env dbname_ 1 else (s, (Filename.RemoveFile env manifest).2)
  end.

Definition MaybeIgnoreError (s : Status) : Status := if ok s || paranoid_checks options_ then s else OK.

(** ** [WriteLevel0Table] *)

(** The fuel counts the nodes of the memtable; [others] is what the other threads
    do to the state while the mutex is free. *)
Definition WriteLevel0Table (others : DBImpl -> DBImpl) (mem : MemTable) (edit : VersionEdit) (base : option Version) (db : DBImpl)
    : option (Status * VersionEdit * DBImpl) :=
  let '(n, versions) := NewFileNumber (db_versions db) in
  let db := with_pending ({[n]} ∪ pending_outputs_ db) (with_db_versions versions db) in
  '(s, meta, tc) ← BuildTable (S := MemTableIterator) (I := MemTableIterator_Iterator C) Snappy Zstd dbname_ options_ (S (length (nodes mem)))
                     (MemTable_NewIterator mem) (FileMetaData_new n 0 [] []) (table_cache_ db);
  let db := others (with_table_cache tc db) in
  let db := with_pending (pending_outputs_ db ∖ {[number meta]}) db in
  edit ← (if ok s && (0 <? file_size meta) then
            let min_user_key := ExtractUserKey (smallest meta) in
            let max_user_key := ExtractUserKey (largest meta) in
            level ← (match base with
                     | Some v => PickLevelForMemTableOutput C options_ v min_user_key max_user_key
                     | None => Some 0%nat
                     end);
            Some (AddFile edit (Z.of_nat level) (number meta) (file_size meta) (smallest meta) (largest meta))
          else Some edit);
  Some (s, edit, db).

(** ** [RecoverLogFile] *)

(** The variables of the loop. *)
Record RecoverLog := mkRecoverLog {
  rl_status : Status;
  rl_mem : option MemTable;
  rl_compactions : Z;
  rl_edit : VersionEdit;
  rl_max_sequence : Z;
  rl_save_manifest : bool;
  rl_db : DBImpl;
}.

Definition with_rl_status (s : Status) (rl : RecoverLog) : RecoverLog :=
  mkRecoverLog s (rl_mem rl) (rl_compactions rl) (rl_edit rl) (rl_max_sequence rl) (rl_save_manifest rl) (rl_db rl).

(** The reporter has no status unless the checks are paranoid. *)
Definition log_report (s : Status) (rl : RecoverLog) : RecoverLog := if paranoid_checks options_ then with_rl_status s rl else rl.

Definition recover_log_record (record : bytes) (rl : RecoverLog) : option (bool * RecoverLog) :=
  if zlen record <? 12 then
    Some (true, if ok (rl_status rl) then log_report (Corruption (cstr "log record too small") []) rl else rl)
  else
    let batch := SetContents record in
    let mem := default MemTable_new (rl_mem rl) in
    let '(status, mem) := InsertInto C batch mem in
    mem ← mem;
    let status := MaybeIgnoreError status in
    let rl := mkRecoverLog status (Some mem) (rl_compactions rl) (rl_edit rl) (rl_max_sequence rl) (rl_save_manifest rl) (rl_db rl) in
    if negb (ok status) then Some (false, rl)
    else
      let last_seq := u64 (Sequence batch + Count batch - 1) in
      let max_sequence := if rl_max_sequence rl <? last_seq then last_seq else rl_max_sequence rl in
      if write_buffer_size options_ <? mem_usage mem then
        '(status, edit, db) ← WriteLevel0Table (fun db => db) mem (rl_edit rl) None (rl_db rl);
        Some (ok status, mkRecoverLog status None (rl_compactions rl + 1) edit max_sequence true db)
      else
        Some (true, mkRecoverLog status (Some mem) (rl_compactions rl) (rl_edit rl) max_sequence (rl_save_manifest rl) (rl_db rl)).

(** [See if we should keep reusing the last log file.] *)
Definition reuse_log (fname : bytes) (log_number : Z) (last_log : bool) (rl : RecoverLog) : option RecoverLog :=
  if ok (rl_status rl) && reuse_logs options_ && last_log && (rl_compactions rl =? 0) then
    if match db_log (rl_db rl), db_mem (rl_db rl) with None, None => true | _, _ => false end then
      match GetFileSize fname (db_env (rl_db rl)) with
      | inl _ => Some rl
      | inr lfile_size =>
          let '(r, env) := NewAppendableFile fname (db_env (rl_db rl)) in
          let db := with_db_env env (rl_db rl) in
          match r with
          | inl _ => Some (mkRecoverLog (rl_status rl) (rl_mem rl) (rl_compactions rl) (rl_edit rl) (rl_max_sequence rl) (rl_save_manifest rl) db)
          | inr logfile =>
              let db := with_db_log (default MemTable_new (rl_mem rl)) (Writer_new_at logfile lfile_size) log_number db in
              Some (mkRecoverLog (rl_status rl) None (rl_compactions rl) (rl_edit rl) (rl_max_sequence rl) (rl_save_manifest rl) db)
          end
      end
    else None
  else Some rl.

(** [mem did not get reused; compact it.] *)
Definition compact_rest (rl : RecoverLog) : option RecoverLog :=
  match rl_mem rl with
  | Some mem =>
      if ok (rl_status rl) then
        '(status, edit, db) ← WriteLevel0Table (fun db => db) mem (rl_edit rl) None (rl_db rl);
        Some (mkRecoverLog status None (rl_compactions rl) edit (rl_max_sequence rl) true db)
      else Some rl
  | None => Some rl
  end.

(** The status, [*edit], [*max_sequence], [*save_manifest], and the state. *)
Definition RecoverLogFile (fuel : nat) (log_number : Z) (last_log : bool) (save_manifest : bool) (edit : VersionEdit) (max_sequence : Z) (db : DBImpl)
    : option (Status * VersionEdit * Z * bool * DBImpl) :=
  let fname := LogFileName dbname_ log_number in
  match NewSequentialFile fname (db_env db) with
  | inl status => Some (MaybeIgnoreError status, edit, max_sequence, save_manifest, db)
  | inr file =>
      rl ← record_loop rl_status log_report recover_log_record fuel fuel (Reader_new file (Some []) true 0)
             (mkRecoverLog OK None 0 edit max_sequence save_manifest db);
      rl ← reuse_log fname log_number last_log rl;
      rl ← compact_rest rl;
      Some (rl_status rl, rl_edit rl, rl_max_sequence rl, rl_save_manifest rl, rl_db rl)
  end.

(** ** [DBImpl::Recover] *)

(** The numbers that the names in the directory take out of [expected], and the
    logs to recover, as they come. *)
Definition scan_children (min_log prev_log : Z) (filenames : list bytes) (expected : gset Z) : gset Z * list Z :=
  fold_left (fun '(expected, logs) filename =>
    match ParseFileName filename with
    | Some (number, type) =>
        (expected ∖ {[number]},
         if bool_decide (type = kLogFile) && ((min_log <=? number) || (number =? prev_log)) then logs ++ [number] else logs)
    | None => (expected, logs)
    end) filenames (expected, []).

(** The loop over the logs. *)
Fixpoint recover_logs (fuel : nat) (logs : list Z) (save_manifest : bool) (edit : VersionEdit) (max_sequence : Z) (db : DBImpl)
    : option (Status * VersionEdit * Z * bool * DBImpl) :=
  match logs with
  | [] => Some (OK, edit, max_sequence, save_manifest, db)
  | log :: logs =>
      '(s, edit, max_sequence, save_manifest, db) ← RecoverLogFile fuel log (bool_decide (logs = [])) save_manifest edit max_sequence db;
      if negb (ok s) then Some (s, edit, max_sequence, save_manifest, db)
      else recover_logs fuel logs save_manifest edit max_sequence (with_db_versions (MarkFileNumberUsed log (db_versions db)) db)
  end.

Definition missing_files (expected : gset Z) : Status :=
  let numbers := merge_sort Z.le (elements expected) in
  Corruption (NumberToString (zlen numbers) ++ cstr " missing files; e.g.") (TableFileName dbname_ (default 0 (numbers !! 0%nat))).

(** What follows the lock and the check of [CURRENT]. *)
Definition recover_versions (fuel : nat) (edit : VersionEdit) (save_manifest : bool) (db : DBImpl) : option (Status * VersionEdit * bool * DBImpl) :=
  '(s, save, versions) ← VersionSet.Recover C comparator_name dbname_ options_ fuel (db_versions db);
  let db := with_db_versions versions db in
  let save_manifest := save_manifest || save in
  if negb (ok s) then Some (s, edit, save_manifest, db)
  else
    let '(s, filenames) := GetChildren dbname_ (db_env db) in
    if negb (ok s) then Some (s, edit, save_manifest, db)
    else
      let '(expected, logs) := scan_children (vs_log_number versions) (vs_prev_log_number versions) filenames (AddLiveFiles ∅ (dummy_versions_ versions)) in
      if negb (bool_decide (expected = ∅)) then Some (missing_files expected, edit, save_manifest, db)
      else
        '(s, edit, max_sequence, save_manifest, db) ← recover_logs fuel (merge_sort Z.le logs) save_manifest edit 0 db;
        if negb (ok s) then Some (s, edit, save_manifest, db)
        else
          versions ← (if vs_last_sequence (db_versions db) <? max_sequence
                      then vs_SetLastSequence max_sequence (db_versions db) else Some (db_versions db));
          Some (OK, edit, save_manifest, with_db_versions versions db).

(** The status, [*edit], [*save_manifest], and the state. *)
Definition Recover (fuel : nat) (edit : VersionEdit) (save_manifest : bool) (db : DBImpl) : option (Status * VersionEdit * bool * DBImpl) :=
  let env := CreateDir dbname_ (db_env db) in
  let '(s, env) := LockFile (LockFileName dbname_) env in
  let db := with_db_env env db in
  if negb (ok s) then Some (s, edit, save_manifest, db)
  else if negb (FileExists (CurrentFileName dbname_) env) then
    if create_if_missing options_ then
      let '(s, env) := NewDB env in
      let db := with_db_env env db in
      if negb (ok s) then Some (s, edit, save_manifest, db) else recover_versions fuel edit save_manifest db
    else Some (InvalidArgument dbname_ (cstr "does not exist (create_if_missing is false)"), edit, save_manifest, db)
  else if error_if_exists options_ then Some (InvalidArgument dbname_ (cstr "exists (error_if_exists is true)"), edit, save_manifest, db)
  else recover_versions fuel edit save_manifest db.

(** ** [DB::Open] *)

(** A new log and a memtable, unless a log is reused. *)
Definition open_log (edit : VersionEdit) (db : DBImpl) : Status * VersionEdit * DBImpl :=
  match db_mem db with
  | Some _ => (OK, edit, db)
  | None =>
      let '(n, versions) := NewFileNumber (db_versions db) in
      let '(r, env) := NewWritableFile (LogFileName dbname_ n) (vs_env versions) in
      let db := with_db_versions (with_vs_env env versions) db in
      match r with
      | inl s => (s, edit, db)
      | inr lfile => (OK, SetLogNumber edit n, with_db_log MemTable_new (Writer_new lfile) n db)
      end
  end.

(** The status and [*dbptr]. *)
Definition DB_Open (fuel : nat) (db : DBImpl) : option (Status * option DBImpl) :=
  '(s, edit, save_manifest, db) ← Recover fuel Clear false db;
  let '(s, edit, db) := if ok s then open_log edit db else (s, edit, db) in
  '(s, db) ← (if ok s && save_manifest then
                let edit := SetLogNumber (SetPrevLogNumber edit 0) (db_logfile_number db) in
                '(s, _, versions) ← LogAndApply C comparator_name dbname_ edit (db_versions db);
                Some (s, with_db_versions versions db)
              else Some (s, db));
  if ok s then
    db ← RemoveObsoleteFiles dbname_ (fun db => db) db;
    db ← MaybeScheduleCompaction db;
    Some (s, Some db)
  else Some (s, None).
End Recovery.
