(* ===== verification/LogRecovery.v ===== *)
(** * db/db_impl: a log is recovered

    What [WriteLevel0Table] (Recovery.v) does, whether or not its file fails; and
    what [RecoverLogFile] does with working files: the batches of a log that survive a crash are in the tables of level 0
    that the edit adds, and in the memtable when the log is reused, in order. *)

From Stdlib Require Import Sorted.
From stdpp Require Import sorting gmap.
From S2P Require Import Prelude Coding Comparator Crc32c Bloom Status Iterator BlockBuilder Block Format FilterBlock.
From S2P Require Import IteratorWrapper TwoLevelIterator Options TableBuilder Table DbFormat SkipList MemTable UserView MemIter WriteBatch Filename.
From S2P Require Import VersionEdit Version VersionGet InternalTable TableCache BuildTable LogWriter LogReader LogReplay Compaction VersionBuilder VersionSet DBImpl Recovery.

(** The last sequence number, as [RecoverLogFile] finds it. *)
Definition last_sequence_of (m : Z) (gs : list (Z * list Op)) : Z := fold_left (fun m g => Z.max m (g.1 + zlen g.2 - 1)) gs m.

(** ** [WriteLevel0Table] *)

Section WriteTable.
Context `{CS : Checksum} {E RA W KC H K : Type} {R : RandomAccessFile RA} {WF : WritableFile W}.
Context {LF : LogFiles E W} {EF : EnvFiles E} {EFL : EnvFilesLaws E} {RF : RandomAccessFiles E RA} {TF : TableFiles E W}.
Context {works : Prop} {raf_contents : RA -> bytes} {RL : RandomAccessFileLaws R raf_contents} {wf_contents : W -> bytes}.
Context {FS : FaultyFileSystem works WF RF LF TF EF raf_contents wf_contents}.
Context {CO : CacheOps KC H (Table RA) TableDeleter} {c_ok : nat -> (bytes -> Table RA -> Prop) -> list H -> KC -> Prop} {CL : CacheLaws CO c_ok}.
Context {BC : BlockCache K} {bc_holds : K -> bytes -> Block -> Prop} {BL : BlockCacheLaws BC bc_holds} {bc_next : K -> Z} {BI : BlockCacheIds BC bc_next}.
Context (Snappy Zstd : Compressor) {SL : CompressorLaws Snappy} {ZL : CompressorLaws Zstd}.
Context {U : Comparator} {UL : ComparatorLaws U} {o : Options} (dbname : bytes).
Context (Hcmp : comparator o = InternalKeyComparator U) (Hinterval : 1 <= block_restart_interval o).
Context (Hfilter : forall name P, filter_policy o = Some (name, P) ->
  exists P0, P = InternalFilterPolicy P0 /\ FilterPolicyLaws P0 /\ zlen name < 2 ^ 31 /\ forall a b, Compare (Comparator := U) a b = Eq -> a = b).
Notation DB := (DBImpl E W KC K).
Notation ready := (cache_ready (raf_contents := raf_contents) (c_ok := c_ok) (bc_holds := bc_holds) (bc_next := bc_next) Snappy Zstd (U := U) (o := o)).
Notation table_fits := (table_fits (o := o) (wf_contents := wf_contents) Snappy Zstd).
Implicit Types db : DB.

(** The state while the table is built, and after [WriteLevel0Table]. *)
Definition building db : DB :=
  with_pending ({[vs_next_file_number (db_versions db)]} ∪ pending_outputs_ db)
    (with_db_versions (with_next_file (vs_next_file_number (db_versions db) + 1) (db_versions db)) db).
Definition unpend (n : Z) db : DB := with_pending (pending_outputs_ db ∖ {[n]}) db.

(** The level that [base] gives a table with these bounds. *)
Definition picks (base : option Version) (meta : FileMetaData) (level : nat) : Prop :=
  match base with
  | Some v => PickLevelForMemTableOutput U o v (ExtractUserKey (smallest meta)) (ExtractUserKey (largest meta)) = Some level
  | None => level = 0%nat
  end.

(** The table of a memtable, or an error and the edit as it was. *)
Lemma WriteLevel0Table_run others mem es edit base sst b db :
  mem_repr (C := U) mem es -> let n := vs_next_file_number (db_versions db) in
  0 <= n < 2 ^ 64 - 1 -> sst n = None -> ready sst (S b) (table_cache_ db) ->
  (forall es', es' ≡ₚ es -> entries_sorted U es' -> es' <> [] -> table_fits es') ->
  exists s meta tc es', (forall g, g <> TableFileName dbname n -> contents (tcs_env tc) g = contents (db_env db) g) /\ es' ≡ₚ es /\
    let db' := unpend n (others (with_table_cache tc (building db))) in
    if ok s then
      match es with
      | [] => ready sst (S b) tc /\ WriteLevel0Table Snappy Zstd U dbname o others mem edit base db = Some (OK, edit, db')
      | _ => number meta = n /\ Forall entry_ok es' /\ entries_sorted U es' /\
          built (raf_contents := raf_contents) (c_ok := c_ok) (bc_holds := bc_holds) (bc_next := bc_next) Snappy Zstd (U := U) (o := o) dbname
            sst b es' (FileMetaData_new n 0 [] []) meta tc /\
          forall level, picks base meta level ->
            WriteLevel0Table Snappy Zstd U dbname o others mem edit base db =
              Some (OK, AddFile edit (Z.of_nat level) (number meta) (file_size meta) (smallest meta) (largest meta), db')
      end
    else ~ works /\ ready sst (S b) tc /\ WriteLevel0Table Snappy Zstd U dbname o others mem edit base db = Some (s, edit, db').
Proof.
  intros Hm n Hn Hfresh Hr Hfit. destruct (MemTable_scans mem es Hm) as (es' & it & Hp & Hok & Hs & Hit & Hsc).
  assert (Hlen : (length es' < S (length (nodes mem)))%nat).
  { destruct Hm as (_ & ks & (_ & order & h & Hinv & _ & Hk) & Hpk). pose proof (order_length _ _ _ _ Hinv) as Hl.
    apply Permutation_length in Hpk, Hp. rewrite length_map in Hpk. unfold keys_at in Hk. apply (f_equal length) in Hk. rewrite !length_map in Hk. lia. }
  unfold WriteLevel0Table. cbn [NewFileNumber]. fold n. rewrite u64_small by lia. change (with_pending ({[n]} ∪ _) _) with (building db).
  destruct (BuildTable_spec Snappy Zstd dbname Hcmp Hinterval Hfilter (I := MemTableIterator_Iterator U) _ (MemTable_NewIterator mem) it
    (FileMetaData_new n 0 [] []) es' sst b (table_cache_ (building db)) Hit Hsc Hok Hs Hlen ltac:(cbn; lia) Hfresh Hr ltac:(intros; by apply Hfit))
    as (s & meta & tc & -> & En & Henv & Hb). cbn [mbind option_bind]. exists s, meta, tc, es'. split; [exact Henv|]. split; [exact Hp|]. cbn zeta.
  cbn [number FileMetaData_new] in En. destruct (ok s) eqn:Es; cbn [andb].
  2: { destruct Hb as [Hw Hr']. split; [exact Hw|]. split; [exact Hr'|]. by rewrite En. }
  apply ok_OK in Es as ->. destruct es' as [|e0 es0] eqn:Ees.
  - destruct Hb as (-> & Hr'). destruct es; [|by apply Permutation_length in Hp]. split; [exact Hr'|]. done.
  - rewrite <- Ees in *. assert (Hb' : built (raf_contents := raf_contents) (c_ok := c_ok) (bc_holds := bc_holds) (bc_next := bc_next)
      Snappy Zstd (U := U) (o := o) dbname sst b es' (FileMetaData_new n 0 [] []) meta tc) by by destruct es'.
    clear Hb. destruct es as [|e1 es1] eqn:Ees1; [apply Permutation_nil_r in Hp; congruence|]. rewrite <- Ees1 in *.
    pose proof Hb' as (_ & _ & _ & Hz & _). split; [done|]. split; [done|]. split; [done|]. split; [done|].
    intros level Hlev. rewrite (proj2 (Z.ltb_lt _ _) (proj1 Hz)), En. unfold picks in Hlev. destruct base as [v|]; [rewrite Hlev|rewrite Hlev]; done.
Qed.
End WriteTable.

(** ** The recovery of a log *)

Section LogRecovery.
Context `{CS : Checksum} {E F RA W KC H K : Type} {SF : SequentialFile F} {R : RandomAccessFile RA} {WF : WritableFile W}.
Context {LF : LogFiles E W} {NS : SequentialFiles E F} {AF : AppendableFiles E W} {EF : EnvFiles E} {EFL : EnvFilesLaws E}.
Context {RF : RandomAccessFiles E RA} {TF : TableFiles E W}.
Context {raf_contents : RA -> bytes} {RL : RandomAccessFileLaws R raf_contents} {wf_contents : W -> bytes} {WL : WritableFileLaws WF wf_contents}.
Context {FS : FileSystem RF LF TF EF raf_contents wf_contents}.
Context {CO : CacheOps KC H (Table RA) TableDeleter} {c_ok : nat -> (bytes -> Table RA -> Prop) -> list H -> KC -> Prop} {CL : CacheLaws CO c_ok}.
Context {BC : BlockCache K} {bc_holds : K -> bytes -> Block -> Prop} {BL : BlockCacheLaws BC bc_holds} {bc_next : K -> Z} {BI : BlockCacheIds BC bc_next}.
Context (Snappy Zstd : Compressor) {SL : CompressorLaws Snappy} {ZL : CompressorLaws Zstd}.
Context {U : Comparator} {UL : ComparatorLaws U} {o : Options} (dbname : bytes) (mem_usage : MemTable -> Z).
Context (Hcmp : comparator o = InternalKeyComparator U) (Hinterval : 1 <= block_restart_interval o).
Context (Hfilter : forall name P, filter_policy o = Some (name, P) ->
  exists P0, P = InternalFilterPolicy P0 /\ FilterPolicyLaws P0 /\ zlen name < 2 ^ 31 /\ forall a b, Compare (Comparator := U) a b = Eq -> a = b).
Notation DB := (DBImpl E W KC K).
Notation ready := (cache_ready (raf_contents := raf_contents) (c_ok := c_ok) (bc_holds := bc_holds) (bc_next := bc_next) Snappy Zstd (U := U) (o := o)).
Notation has_table := (has_table (raf_contents := raf_contents) Snappy Zstd (U := U) (o := o) dbname).
Notation table_fits := (table_fits (o := o) (wf_contents := wf_contents) Snappy Zstd).
Implicit Types db : DB.


(** File [n] is a table of level 0 with the entries [es], as an edit describes it. *)
Definition level0_table (sst : Z -> option TableImage) db (n : Z) (meta : FileMetaData) (es : list Entry) : Prop :=
  number meta = n /\ 0 < file_size meta < 2 ^ 32 /\
  exists es', es' ≡ₚ es /\ Forall entry_ok es' /\ entries_sorted U es' /\ has_table sst (table_cache_ db) n (file_size meta) es' /\
    (exists e, es' !! 0%nat = Some e /\ smallest meta = entry_ikey e) /\ (exists e, last es' = Some e /\ largest meta = entry_ikey e).

Definition add_meta (edit : VersionEdit) (meta : FileMetaData) : VersionEdit :=
  AddFile edit 0 (number meta) (file_size meta) (smallest meta) (largest meta).

(** [db'] is [db] with one more file number used, and perhaps that table. *)
Definition after_table db db' : Prop :=
  exists e tables blocks, (forall g, g <> TableFileName dbname (vs_next_file_number (db_versions db)) -> contents e g = contents (db_env db) g) /\
    db' = mkDBImpl (with_vs_env e (with_next_file (vs_next_file_number (db_versions db) + 1) (db_versions db))) tables blocks
            (pending_outputs_ db) (db_mem db) (db_imm db) (db_log db) (db_logfile_number db) (db_shared db).

Lemma WriteLevel0Table_spec mem es edit sst b db :
  mem_repr (C := U) mem es -> let n := vs_next_file_number (db_versions db) in
  0 <= n < 2 ^ 64 - 1 -> sst n = None -> n ∉ pending_outputs_ db -> ready sst (S b) (table_cache_ db) ->
  (forall es', es' ≡ₚ es -> entries_sorted U es' -> es' <> [] -> table_fits es') ->
  exists edit' db', WriteLevel0Table Snappy Zstd U dbname o (fun db => db) mem edit None db = Some (OK, edit', db') /\ after_table db db' /\
    match es with
    | [] => edit' = edit /\ ready sst (S b) (table_cache_ db')
    | _ => exists meta i, edit' = add_meta edit meta /\ ready (add_sst sst n i) b (table_cache_ db') /\ level0_table (add_sst sst n i) db' n meta es
    end.
Proof.
  intros Hm n Hn Hfresh Hpend Hr Hfit.
  destruct (WriteLevel0Table_run Snappy Zstd dbname Hcmp Hinterval Hfilter (fun db => db) mem es edit None sst b db Hm Hn Hfresh Hr Hfit) as (s & meta & tc & es' & Henv & Hp & Hrun). fold n in Hrun. destruct (ok s); [|by destruct Hrun].
  assert (Hafter : after_table db (unpend n (with_table_cache tc (building db)))).
  { exists (tcs_env tc), (cache_ tc), (tcs_blocks tc). split; [exact Henv|]. unfold unpend, with_table_cache, with_pending, building. cbn. f_equal. set_solver. }
  destruct es as [|e1 es1] eqn:Ees.
  - destruct Hrun as (Hr' & ->). by eexists _, _.
  - rewrite <- Ees in *. destruct Hrun as (En & Hok & Hs & (_ & _ & _ & Hz & Hsm & Hla & i & _ & Hr' & Ht) & Hw). rewrite (Hw 0%nat eq_refl).
    eexists _, _. split; [done|]. split; [exact Hafter|]. exists meta, i. split; [done|]. split; [exact Hr'|].
    split; [done|]. split; [done|]. by exists es'.
Qed.

(** ** The loop *)

(** [db'] is [db] with [c] more file numbers used, and perhaps those tables. *)
Definition after_tables (c : nat) db db' : Prop :=
  exists e tables blocks, (forall g, (forall j, (j < c)%nat -> g <> TableFileName dbname (vs_next_file_number (db_versions db) + Z.of_nat j)) ->
      contents e g = contents (db_env db) g) /\
    db' = mkDBImpl (with_vs_env e (with_next_file (vs_next_file_number (db_versions db) + Z.of_nat c) (db_versions db))) tables blocks
            (pending_outputs_ db) (db_mem db) (db_imm db) (db_log db) (db_logfile_number db) (db_shared db).

Lemma after_tables_step c db db1 db2 : after_tables c db db1 -> after_table db1 db2 -> after_tables (S c) db db2.
Proof.
  intros (e1 & t1 & b1 & H1 & ->) (e2 & t2 & b2 & H2 & ->). cbn [db_versions with_vs_env with_next_file vs_next_file_number db_env vs_env] in H2.
  exists e2, t2, b2. split.
  - intros g Hg. rewrite H2 by (apply Hg; lia). apply H1. intros j Hj. apply Hg. lia.
  - cbn. unfold with_vs_env, with_next_file. cbn. by replace (vs_next_file_number (db_versions db) + Z.of_nat (S c)) with (vs_next_file_number (db_versions db) + Z.of_nat c + 1) by lia.
Qed.

Lemma level0_table_frame sst sst' db db' m meta es :
  let n := vs_next_file_number (db_versions db) in
  level0_table sst db m meta es -> after_table db db' -> (forall k, k <> n -> sst' k = sst k) -> 0 <= n < 2 ^ 64 -> m <> n ->
  level0_table sst' db' m meta es.
Proof.
  intros n (H1 & H2 & es' & P1 & P2 & P3 & Ht & P4) (e & t & b & He & ->) Hs Hr Hne. split; [done|]. split; [done|]. exists es'. do 3 (split; [done|]). split; [|done].
  pose proof Ht as (Hm & _). assert (Ht' : has_table sst (table_cache_ (mkDBImpl (with_vs_env e (db_versions db)) t b (pending_outputs_ db) (db_mem db) (db_imm db) (db_log db) (db_logfile_number db) (db_shared db)))
    m (file_size meta) es').
  { apply (has_table_frame Snappy Zstd dbname sst _ m _ es' e Ht); cbn; apply He.
    - by intros ?%TableFileName_inj.
    - intros Hx. exact (Table_not_SST dbname n m Hr Hm (eq_sym Hx)). }
  destruct Ht' as (_ & i & f & Hi & Hrest). split; [done|]. exists i, f. by rewrite Hs.
Qed.

Section Loop.
Context (edit0 : VersionEdit) (max0 : Z) (save0 : bool) (db0 : DB) (sst0 : Z -> option TableImage) (B : nat).
Notation n0 := (vs_next_file_number (db_versions db0)).

(** The tables of a run of segments; a segment without entries has none. *)
Definition segment_table (sst : Z -> option TableImage) db (n : Z) (seg : list (Z * list Op)) (meta : option FileMetaData) : Prop :=
  match meta with Some meta => level0_table sst db n meta (entries_of seg) | None => entries_of seg = [] end.

Definition segment_tables (sst : Z -> option TableImage) db (segs : list (list (Z * list Op))) (metas : list (option FileMetaData)) : Prop :=
  length metas = length segs /\
  forall j seg meta, segs !! j = Some seg -> metas !! j = Some meta -> segment_table sst db (n0 + Z.of_nat j) seg meta.

(** What holds when the batches [gs] are recovered: the segments are in tables,
    the rest in the memtable. *)
Record recovered (gs : list (Z * list Op)) (rl : RecoverLog) sst segs metas rest : Prop := {
  rv_groups : gs = concat segs ++ rest;
  rv_status : rl_status rl = OK;
  rv_mem : match rl_mem rl with Some m => mem_repr (C := U) m (entries_of rest) | None => rest = [] end;
  rv_tables : segment_tables sst (rl_db rl) segs metas;
  rv_edit : rl_edit rl = fold_left add_meta (omap (fun m => m) metas) edit0;
  rv_max : rl_max_sequence rl = last_sequence_of max0 gs;
  rv_save : rl_save_manifest rl = save0 || negb (bool_decide (segs = []));
  rv_compactions : rl_compactions rl = zlen segs;
  rv_old : forall m, m < n0 -> sst m = sst0 m;
  rv_new : forall m, n0 + zlen segs <= m -> sst m = None;
  rv_ready : ready sst (B - length segs) (table_cache_ (rl_db rl));
  rv_db : after_tables (length segs) db0 (rl_db rl);
}.

Lemma recovered_start : (forall m, n0 <= m -> sst0 m = None) -> ready sst0 B (table_cache_ db0) ->
  recovered [] (mkRecoverLog OK None 0 edit0 max0 save0 db0) sst0 [] [] [].
Proof.
  intros Hn Hr. split; try done.
  - by rewrite orb_false_r.
  - intros m. rewrite Z.add_0_r. apply Hn.
  - by rewrite Nat.sub_0_r.
  - exists (db_env db0), (db_tables db0), (db_blocks db0). split; [done|]. rewrite Z.add_0_r. unfold with_vs_env, with_next_file, db_env. cbn. by destruct db0 as [[] ].
Qed.

(** One more segment. *)
Lemma segment_tables_snoc sst sst' db db' segs metas seg meta :
  let n := vs_next_file_number (db_versions db) in
  segment_tables sst db segs metas -> after_table db db' -> n = n0 + zlen segs -> 0 <= n0 -> n < 2 ^ 64 -> (forall k, k <> n -> sst' k = sst k) ->
  segment_table sst' db' n seg meta -> segment_tables sst' db' (segs ++ [seg]) (metas ++ [meta]).
Proof.
  intros n [Hl Ht] Ha En H0 Hn Hs Hnew. split; [rewrite !length_app; cbn; lia|]. intros j sg mt Hj Hm.
  apply lookup_app_Some in Hj as [Hj|[Hge Hj]].
  - pose proof (lookup_lt_Some _ _ _ Hj) as Hlt. rewrite lookup_app_l in Hm by lia. specialize (Ht _ _ _ Hj Hm). destruct mt as [mt|]; [|done].
    apply (level0_table_frame sst sst' db); try done; unfold zlen in *; lia.
  - apply list_lookup_singleton_Some in Hj as [Hj <-]. assert (j = length segs) as -> by lia. rewrite lookup_app_r in Hm by lia.
    rewrite Hl, Nat.sub_diag in Hm. injection Hm as <-. change (Z.of_nat (length segs)) with (zlen segs). by rewrite <- En.
Qed.

Context (H0 : 0 <= n0) (Hpend : forall m, n0 <= m -> m ∉ pending_outputs_ db0).

(** Segments that make tables of less than 4 GiB. *)
Definition segment_fits (seg : list (Z * list Op)) : Prop :=
  forall es, es ≡ₚ entries_of seg -> entries_sorted U es -> es <> [] -> table_fits es.

(** The memtable is written. *)
Lemma recovered_table gs rl sst segs metas rest mem :
  recovered gs rl sst segs metas rest -> rl_mem rl = Some mem -> (length segs < B)%nat -> n0 + zlen segs < 2 ^ 64 - 1 -> segment_fits rest ->
  exists edit' db' sst' metas', WriteLevel0Table Snappy Zstd U dbname o (fun db => db) mem (rl_edit rl) None (rl_db rl) = Some (OK, edit', db') /\
    forall c, c = zlen segs + 1 -> recovered gs (mkRecoverLog OK None c edit' (rl_max_sequence rl) true db') sst' (segs ++ [rest]) metas' [].
Proof.
  intros [R1 R2 R3 R4 R5 R6 R7 R8 R9 R10 R11 R12] Em Hb Hn Hfit. rewrite Em in R3. pose proof R12 as (e0 & t0 & b0 & _ & Edb).
  assert (En : vs_next_file_number (db_versions (rl_db rl)) = n0 + zlen segs) by by rewrite Edb.
  assert (Ep : pending_outputs_ (rl_db rl) = pending_outputs_ db0) by by rewrite Edb.
  assert (Hz : 0 <= zlen segs) by apply zlen_nonneg. assert (Ez : zlen (segs ++ [rest]) = zlen segs + 1) by (rewrite zlen_app; done).
  destruct (WriteLevel0Table_spec mem (entries_of rest) (rl_edit rl) sst (B - S (length segs)) (rl_db rl) R3) as (edit' & db' & E1 & Ha & Hres);
    [rewrite En; lia|rewrite En; apply R10; lia|rewrite Ep, En; apply Hpend; lia|by replace (S (B - S (length segs))) with (B - length segs)%nat by lia|exact Hfit|].
  exists edit', db'. assert (Hat : after_tables (length (segs ++ [rest])) db0 db') by (rewrite length_app, Nat.add_1_r; by apply (after_tables_step _ _ (rl_db rl))).
  assert (Hsv : true = save0 || negb (bool_decide (segs ++ [rest] = []))).
  { rewrite bool_decide_eq_false_2; [by rewrite orb_true_r|]. by intros [_ ?]%app_eq_nil. }
  assert (Hgs : gs = concat (segs ++ [rest]) ++ []) by (rewrite concat_app; cbn; by rewrite !app_nil_r).
  destruct (entries_of rest) as [|x xs] eqn:Ee.
  - destruct Hres as [-> Hr']. exists sst, (metas ++ [None]). split; [done|]. intros c ->. split; try done.
    + apply (segment_tables_snoc sst sst (rl_db rl)); rewrite ?En; try done; lia.
    + cbn. by rewrite omap_app, app_nil_r.
    + intros m. rewrite Ez. intros Hm. apply R10. lia.
    + eapply (ready_le Snappy Zstd); [|exact Hr']. rewrite length_app. cbn [length]. lia.
  - destruct Hres as (meta & i & -> & Hr' & Ht). rewrite En in *. exists (add_sst sst (n0 + zlen segs) i), (metas ++ [Some meta]). split; [done|].
    assert (Hadd : forall k, k <> n0 + zlen segs -> add_sst sst (n0 + zlen segs) i k = sst k) by (intros k Hk; unfold add_sst; by rewrite decide_False).
    intros c ->. split; try done.
    + apply (segment_tables_snoc sst _ (rl_db rl)); rewrite ?En; try done; [lia|]. cbn. by rewrite Ee.
    + cbn. rewrite omap_app, fold_left_app. by rewrite <- R5.
    + intros m Hm. rewrite Hadd by lia. by apply R9.
    + intros m. rewrite Ez. intros Hm. rewrite Hadd by lia. apply R10. lia.
    + eapply (ready_le Snappy Zstd); [|exact Hr']. rewrite length_app. cbn [length]. lia.
Qed.

Lemma batch_record_batch g : 0 <= g.1 -> g.1 + zlen g.2 <= kMaxSequenceNumber + 1 -> zlen g.2 < 2 ^ 31 ->
  12 <= zlen (batch_record g) /\ Sequence (batch_record g) = g.1 /\ Count (batch_record g) = zlen g.2.
Proof.
  destruct g as [s ops]. cbn [fst snd]. intros Hs Hmax Hn. pose proof (zlen_nonneg ops). change kMaxSequenceNumber with (2 ^ 56 - 1) in Hmax.
  unfold batch_record. cbn [fst snd]. rewrite build_batch, SetSequence_batch by done. split; [|split].
  - unfold zlen. rewrite batch_length. lia.
  - apply Sequence_batch. lia.
  - apply Count_batch. lia.
Qed.

Lemma recover_log_record_spec gs g rl sst segs metas rest lo :
  recovered gs rl sst segs metas rest -> 1 <= lo -> batches_from lo (gs ++ [g]) -> (length segs < B)%nat -> n0 + zlen segs < 2 ^ 64 - 1 ->
  segment_fits (rest ++ [g]) ->
  exists rl' sst' segs' metas' rest', recover_log_record Snappy Zstd U dbname o mem_usage (batch_record g) rl = Some (true, rl') /\
    recovered (gs ++ [g]) rl' sst' segs' metas' rest' /\ (length segs' <= S (length segs))%nat.
Proof.
  intros Hrv Hlo Hgs Hb Hn Hfit. destruct (batches_from_app _ _ _ Hgs) as (_ & Hseq & Hg1 & Hg2 & Hg3 & Hg4).
  destruct (batch_record_batch g ltac:(lia) Hg2 Hg3) as (Hlen & Eseq & Ecount). pose proof Hrv as [R1 R2 R3 R4 R5 R6 R7 R8 R9 R10 R11 R12].
  unfold recover_log_record. rewrite (proj2 (Z.ltb_ge _ _) Hlen). unfold SetContents.
  assert (Hm : mem_repr (C := U) (default MemTable_new (rl_mem rl)) (entries_of rest)).
  { destruct (rl_mem rl) as [m|]; [exact R3|]. rewrite R3. apply MemTable_new_repr. }
  destruct (InsertInto_build g.2 g.1 _ _ Hm) as (mem' & E1 & Hm'); [|lia|done|done|done|].
  { intros e He. apply Hseq. rewrite R1. apply entries_of_app. by right. }
  change (SetSequence (build g.2) g.1) with (batch_record g) in E1. rewrite E1. cbn [mbind option_bind].
  assert (Eig : MaybeIgnoreError o OK = OK) by done. rewrite Eig. cbn [ok negb]. cbn [rl_max_sequence rl_db rl_edit rl_compactions rl_save_manifest].
  rewrite Eseq, Ecount. change kMaxSequenceNumber with (2 ^ 56 - 1) in Hg2. pose proof (zlen_nonneg g.2) as Hz. rewrite u64_small by lia.
  set (mx := if rl_max_sequence rl <? g.1 + zlen g.2 - 1 then g.1 + zlen g.2 - 1 else rl_max_sequence rl).
  assert (Emx : mx = last_sequence_of max0 (gs ++ [g])).
  { unfold mx, last_sequence_of. rewrite fold_left_app. cbn [fold_left]. fold (last_sequence_of max0 gs). rewrite <- R6.
    destruct (Z.ltb_spec (rl_max_sequence rl) (g.1 + zlen g.2 - 1)); lia. }
  assert (Hme : mem_repr (C := U) mem' (entries_of (rest ++ [g]))) by (destruct g as [sq ops]; by rewrite entries_of_snoc).
  set (rl1 := mkRecoverLog OK (Some mem') (rl_compactions rl) (rl_edit rl) mx (rl_save_manifest rl) (rl_db rl)).
  assert (Hrv1 : recovered (gs ++ [g]) rl1 sst segs metas (rest ++ [g])) by (split; try done; by rewrite R1, app_assoc).
  destruct (write_buffer_size o <? mem_usage mem').
  - destruct (recovered_table _ rl1 _ _ _ _ mem' Hrv1 eq_refl Hb Hn Hfit) as (edit' & db' & sst' & metas' & E2 & Hrv2).
    cbn [rl1 rl_edit rl_db] in E2. rewrite E2. cbn [mbind option_bind ok]. eexists _, sst', (segs ++ [rest ++ [g]]), metas', []. split; [done|].
    split; [apply Hrv2; rewrite R8; done|]. rewrite length_app. cbn. lia.
  - exists rl1, sst, segs, metas, (rest ++ [g]). split; [done|]. split; [done|]. lia.
Qed.

Lemma recover_records_spec gs2 gs rl sst segs metas rest lo :
  recovered gs rl sst segs metas rest -> 1 <= lo -> batches_from lo (gs ++ gs2) -> (length segs + length gs2 <= B)%nat ->
  n0 + zlen segs + zlen gs2 < 2 ^ 64 - 1 ->
  (forall pre seg post, gs ++ gs2 = pre ++ seg ++ post -> segment_fits seg) ->
  exists rl' sst' segs' metas' rest', body_fold rl_status (recover_log_record Snappy Zstd U dbname o mem_usage) (map batch_record gs2) rl = Some rl' /\
    recovered (gs ++ gs2) rl' sst' segs' metas' rest' /\ (length segs' <= length segs + length gs2)%nat.
Proof.
  revert gs rl sst segs metas rest. induction gs2 as [|g gs2 IH]; intros gs rl sst segs metas rest Hrv Hlo Hgs Hb Hn Hfit; cbn [map body_fold].
  { exists rl, sst, segs, metas, rest. rewrite app_nil_r. split; [done|]. split; [done|]. lia. }
  assert (Hpre : forall gs2 lo, batches_from lo ((gs ++ [g]) ++ gs2) -> batches_from lo (gs ++ [g])).
  { clear. intros gs2. generalize (gs ++ [g]) as l. intros l. induction l as [|[s ops] l IH]; intros lo; cbn [app batches_from]; [done|].
    intros (H1 & H2 & H3 & H4 & H5). do 4 (split; [done|]). by apply IH. }
  assert (Eapp : gs ++ g :: gs2 = (gs ++ [g]) ++ gs2) by by rewrite <- app_assoc. rewrite Eapp in *. cbn [length] in *.
  assert (Hz : zlen (g :: gs2) = 1 + zlen gs2) by (rewrite zlen_cons; lia). pose proof (zlen_nonneg gs2). pose proof (zlen_nonneg segs).
  destruct (recover_log_record_spec gs g rl sst segs metas rest lo Hrv Hlo (Hpre _ _ Hgs) ltac:(lia) ltac:(lia)) as (rl1 & sst1 & segs1 & metas1 & rest1 & E1 & Hrv1 & Hl1).
  { apply (Hfit (concat segs) _ gs2). rewrite (rv_groups _ _ _ _ _ _ Hrv), <- !app_assoc. done. }
  rewrite (rv_status _ _ _ _ _ _ Hrv). cbn [ok]. rewrite E1. cbn [mbind option_bind].
  destruct (IH (gs ++ [g]) rl1 sst1 segs1 metas1 rest1 Hrv1 Hlo Hgs) as (rl' & sst' & segs' & metas' & rest' & E2 & Hrv2 & Hl2); [lia|unfold zlen in *; lia|done|].
  exists rl', sst', segs', metas', rest'. split; [done|]. split; [done|]. lia.
Qed.
End Loop.

(** ** [RecoverLogFile] *)

Context (seq_rest : F -> bytes) {SQ : SequentialFileLaws SF seq_rest}.

(** A log file that holds [b]. *)
Definition readable (e : E) (fname b : bytes) : Prop := exists file, NewSequentialFile fname e = inr file /\ seq_rest file = b.

(** Opening a file for appending leaves every file as it is. *)
Definition appends : Prop := forall f (e : E) (r : Status + W) e', NewAppendableFile f e = (r, e') -> forall g, contents e' g = contents e g.

(** The two ends: everything is in tables, or the log is reused and its batches
    are in the memtable. *)
Definition log_recovered (edit0 : VersionEdit) (max0 : Z) (save0 : bool) (db0 : DB) sst0 (b : nat) (log_number : Z) (last_log : bool) gs
    (result : Status * VersionEdit * Z * bool * DB) : Prop :=
  exists rl sst segs metas rest, recovered edit0 max0 save0 db0 sst0 b gs rl sst segs metas rest /\
    ((rl_mem rl = None /\ result = (OK, rl_edit rl, rl_max_sequence rl, rl_save_manifest rl, rl_db rl)) \/
     (reuse_logs o = true /\ last_log = true /\ segs = [] /\
      exists e mem log, (forall g, contents e g = contents (db_env (rl_db rl)) g) /\ mem_repr (C := U) mem (entries_of gs) /\
        result = (OK, rl_edit rl, rl_max_sequence rl, rl_save_manifest rl, with_db_log mem log log_number (with_db_env e (rl_db rl))))).

Lemma compact_rest_spec edit0 max0 save0 db0 sst0 b gs rl sst segs metas rest :
  let n0 := vs_next_file_number (db_versions db0) in
  recovered edit0 max0 save0 db0 sst0 b gs rl sst segs metas rest -> 0 <= n0 -> (forall m, n0 <= m -> m ∉ pending_outputs_ db0) ->
  (length segs < b)%nat -> n0 + zlen segs < 2 ^ 64 - 1 -> segment_fits rest ->
  exists rl' c sst' segs' metas', compact_rest Snappy Zstd U dbname o rl = Some rl' /\
    rl' = mkRecoverLog OK None (rl_compactions rl') (rl_edit rl') (rl_max_sequence rl') (rl_save_manifest rl') (rl_db rl') /\
    recovered edit0 max0 save0 db0 sst0 b gs (mkRecoverLog OK None c (rl_edit rl') (rl_max_sequence rl') (rl_save_manifest rl') (rl_db rl')) sst' segs' metas' [].
Proof.
  intros n0 Hrv H0 Hp Hb Hn Hfit. unfold compact_rest. destruct (rl_mem rl) as [mem|] eqn:Em.
  - rewrite (rv_status _ _ _ _ _ _ _ _ _ _ _ _ Hrv). cbn [ok].
    destruct (recovered_table edit0 max0 save0 db0 sst0 b H0 Hp gs rl sst segs metas rest mem Hrv Em Hb Hn Hfit) as (edit' & db' & sst' & metas' & -> & Hrv').
    cbn [mbind option_bind]. eexists _, (zlen segs + 1), sst', (segs ++ [rest]), metas'. split; [done|]. split; [done|]. by apply Hrv'.
  - destruct Hrv as [R1 R2 R3 R4 R5 R6 R7 R8 R9 R10 R11 R12]. rewrite Em in R3. subst rest.
    exists rl, (rl_compactions rl), sst, segs, metas. split; [done|]. split; [destruct rl; cbn in *; congruence|]. split; done.
Qed.

Lemma reuse_log_spec edit0 max0 save0 db0 sst0 b gs rl sst segs metas rest fname log_number last_log :
  recovered edit0 max0 save0 db0 sst0 b gs rl sst segs metas rest -> appends ->
  (reuse_logs o = true -> last_log = true -> db_log db0 = None /\ db_mem db0 = None) ->
  (exists e, reuse_log o fname log_number last_log rl =
      Some (mkRecoverLog OK (rl_mem rl) (rl_compactions rl) (rl_edit rl) (rl_max_sequence rl) (rl_save_manifest rl) (with_db_env e (rl_db rl))) /\
    forall g, contents e g = contents (db_env (rl_db rl)) g) \/
  (reuse_logs o = true /\ last_log = true /\ segs = [] /\
   exists e mem log, (forall g, contents e g = contents (db_env (rl_db rl)) g) /\ mem_repr (C := U) mem (entries_of gs) /\
     reuse_log o fname log_number last_log rl = Some (mkRecoverLog OK None (rl_compactions rl) (rl_edit rl) (rl_max_sequence rl) (rl_save_manifest rl)
       (with_db_log mem log log_number (with_db_env e (rl_db rl))))).
Proof.
  intros Hrv Ha Hnone. pose proof Hrv as [R1 R2 R3 R4 R5 R6 R7 R8 R9 R10 R11 R12]. unfold reuse_log. rewrite R2. cbn [ok andb].
  assert (Hsame : with_db_env (db_env (rl_db rl)) (rl_db rl) = rl_db rl) by (by destruct (rl_db rl) as [[]]).
  destruct (reuse_logs o && last_log && (rl_compactions rl =? 0)) eqn:Ec.
  - apply andb_prop in Ec as [[Er El]%andb_prop Ecz]. destruct (Hnone Er El) as [En1 En2]. destruct R12 as (e0 & t0 & b0 & He0 & Edb).
    assert (Hl : db_log (rl_db rl) = None /\ db_mem (rl_db rl) = None) by by rewrite Edb. destruct Hl as [-> ->].
    destruct (GetFileSize fname (db_env (rl_db rl))) as [s|n].
    { left. exists (db_env (rl_db rl)). rewrite Hsame. split; [|done]. f_equal. destruct rl; cbn in *; congruence. }
    destruct (NewAppendableFile fname (db_env (rl_db rl))) as [[s|w] e] eqn:Ea; pose proof (Ha _ _ _ _ Ea) as Hc.
    { left. by exists e. }
    right. apply Z.eqb_eq in Ecz. assert (Hs : segs = []) by (destruct segs; [done|rewrite R8, zlen_cons in Ecz; pose proof (zlen_nonneg segs); lia]).
    do 3 (split; [done|]). exists e, (default MemTable_new (rl_mem rl)). eexists. split; [done|]. split; [|done].
    rewrite R1, Hs. cbn [concat app]. destruct (rl_mem rl) as [m|]; [exact R3|]. rewrite R3. apply MemTable_new_repr.
  - left. exists (db_env (rl_db rl)). rewrite Hsame. split; [|done]. f_equal. destruct rl; cbn in *; congruence.
Qed.

(** An environment with the same contents changes nothing of this. *)
Lemma recovered_env edit0 max0 save0 db0 sst0 b gs rl sst segs metas rest e :
  recovered edit0 max0 save0 db0 sst0 b gs rl sst segs metas rest -> (forall g, contents e g = contents (db_env (rl_db rl)) g) ->
  recovered edit0 max0 save0 db0 sst0 b gs
    (mkRecoverLog OK (rl_mem rl) (rl_compactions rl) (rl_edit rl) (rl_max_sequence rl) (rl_save_manifest rl) (with_db_env e (rl_db rl))) sst segs metas rest.
Proof.
  intros [R1 R2 R3 [Rl Rt] R5 R6 R7 R8 R9 R10 R11 R12] He. split; try done.
  - split; [done|]. intros j seg meta Hj Hm. specialize (Rt j seg meta Hj Hm). destruct meta as [meta|]; [|done]. cbn [segment_table rl_db] in *.
    destruct Rt as (H1 & H2 & es' & P1 & P2 & P3 & Ht & P4). split; [done|]. split; [done|]. exists es'. do 3 (split; [done|]). split; [|done].
    exact (has_table_frame Snappy Zstd dbname sst _ _ _ es' e Ht (He _) (He _)).
  - destruct R12 as (e0 & t0 & b0 & He0 & Edb). cbn [rl_db]. exists e, t0, b0. split; [|by rewrite Edb].
    intros g Hg. rewrite He, Edb. by apply He0.
Qed.

(** What a crash leaves of a log is recovered.  [gs] are the batches of the
    log [w], of which [m] bytes are left. *)
Lemma RecoverLogFile_spec edit0 max0 save0 db0 sst0 b lo gs w m fuel log_number last_log :
  let n0 := vs_next_file_number (db_versions db0) in
  logged wf_contents w (map batch_record gs) -> 1 <= lo -> batches_from lo gs -> zlen (wf_contents (dest_ w)) < 2 ^ 64 ->
  readable (db_env db0) (LogFileName dbname log_number) (take m (wf_contents (dest_ w))) ->
  (length gs < fuel)%nat -> (length (wf_contents (dest_ w)) < fuel)%nat ->
  0 <= n0 -> n0 + zlen gs < 2 ^ 64 - 1 -> (forall m, n0 <= m -> sst0 m = None /\ m ∉ pending_outputs_ db0) ->
  ready sst0 b (table_cache_ db0) -> (length gs < b)%nat -> (forall pre seg post, gs = pre ++ seg ++ post -> segment_fits seg) ->
  appends -> (reuse_logs o = true -> last_log = true -> db_log db0 = None /\ db_mem db0 = None) ->
  exists k result, (k <= length gs)%nat /\
    (forall w1 j, logged wf_contents w1 (map batch_record (take j gs)) -> (length (wf_contents (dest_ w1)) <= m)%nat -> (j <= k \/ length gs <= k)%nat) /\
    RecoverLogFile Snappy Zstd U dbname o mem_usage fuel log_number last_log save0 edit0 max0 db0 = Some result /\
    log_recovered edit0 max0 save0 db0 sst0 b log_number last_log (take k gs) result.
Proof.
  intros n0 Hlog Hlo Hgs Hsize (file & Eopen & Hfile) Hf1 Hf2 H0 Hn Hfresh Hr Hb Hfit Happ Hnone.
  unfold RecoverLogFile. rewrite Eopen. set (rl0 := mkRecoverLog OK None 0 edit0 max0 save0 db0).
  destruct (logged_replay wf_contents seq_rest rl_status (log_report o) (recover_log_record Snappy Zstd U dbname o mem_usage) w _ file m fuel fuel rl0 Hlog Hsize Hfile)
    as (k & Hk & Er & Hkeep); [by rewrite length_map|done|]. rewrite length_map in Hk, Hkeep.
  rewrite firstn_map in Er.
  assert (Hkeep' : forall w1 j, logged wf_contents w1 (map batch_record (take j gs)) -> (length (wf_contents (dest_ w1)) <= m)%nat -> (j <= k \/ length gs <= k)%nat)
    by (intros w1 j; rewrite <- firstn_map; apply Hkeep).
  exists k. rewrite Er. assert (Htk : batches_from lo ([] ++ take k gs)) by by apply batches_from_take.
  assert (Hlen : (length (take k gs) <= length gs)%nat) by (rewrite length_take; lia).
  destruct (recover_records_spec edit0 max0 save0 db0 sst0 b H0 (fun m Hm => proj2 (Hfresh m Hm)) (take k gs) [] rl0 sst0 [] [] [] lo) as
    (rl & sst & segs & metas & rest & E1 & Hrv & Hl); [apply recovered_start; [intros ? ?; by apply Hfresh|done]|done|done|cbn; lia|change (zlen (@nil (list (Z * list Op)))) with 0; unfold zlen in *; lia| |].
  { intros pre seg post Ep. apply (Hfit pre seg (post ++ drop k gs)). rewrite <- (take_drop k gs) at 1. cbn [app] in Ep. by rewrite Ep, <- !app_assoc. }
  rewrite E1. cbn [mbind option_bind app length] in *. assert (Hfr : segment_fits rest).
  { apply (Hfit (concat segs) _ (drop k gs)). rewrite <- (take_drop k gs) at 1. by rewrite (rv_groups _ _ _ _ _ _ _ _ _ _ _ _ Hrv), <- app_assoc. }
  assert (Hsz : n0 + zlen segs < 2 ^ 64 - 1) by (unfold zlen in *; lia).
  destruct (reuse_log_spec _ _ _ _ _ _ _ _ _ _ _ _ (LogFileName dbname log_number) log_number last_log Hrv Happ Hnone) as [(e & -> & He)|(Hr1 & Hr2 & Hs & e & mem & log & He & Hm & ->)].
  - cbn [mbind option_bind]. pose proof (recovered_env _ _ _ _ _ _ _ _ _ _ _ _ e Hrv He) as Hrv1.
    destruct (compact_rest_spec _ _ _ _ _ _ _ _ _ _ _ _ Hrv1 H0 (fun m Hm => proj2 (Hfresh m Hm)) ltac:(lia) Hsz Hfr) as (rl' & c & sst' & segs' & metas' & -> & -> & Hrv2).
    cbn [mbind option_bind rl_status rl_edit rl_max_sequence rl_save_manifest rl_db] in *. eexists. split; [done|]. split; [exact Hkeep'|]. split; [done|].
    exists (mkRecoverLog OK None c (rl_edit rl') (rl_max_sequence rl') (rl_save_manifest rl') (rl_db rl')), sst', segs', metas', [].
    split; [exact Hrv2|]. by left.
  - cbn [mbind option_bind]. unfold compact_rest. cbn [rl_mem mbind option_bind rl_status rl_edit rl_max_sequence rl_save_manifest rl_db].
    eexists. split; [done|]. split; [exact Hkeep'|]. split; [done|]. exists rl, sst, segs, metas, rest. split; [done|]. right. do 3 (split; [done|]). by exists e, mem, log.
Qed.
End LogRecovery.
