(* ===== verification/CompactMemTable.v ===== *)
(** * db/db_impl: compaction of the memtable

    Models [DBImpl::CompactMemTable] of src/db/db_impl.cc, and shows that whatever the other
    threads do meanwhile, and whether or not the files that are written fail, the
    immutable memtable becomes a table of the new version, or everything stays
    readable and the background error is set.
    [others n] is what they do at the [n]-th point where the mutex is free. *)

From Stdlib Require Import Sorted.
From stdpp Require Import gmap sorting.
From S2P Require Import Prelude Coding Comparator Crc32c Bloom DbFormat Status Iterator BlockBuilder Block Format FilterBlock TableBuilder Table SkipList MemTable UserView MemIter.
From S2P Require Import VersionEdit Options Version VersionGet Overlap InternalTable TableCache BuildTable LogWriter Filename Compaction VersionBuilder VersionSet Manifest Install Levels.
From S2P Require Import DBImpl DBGet LSM Obsolete Recovery LogRecovery Invariant InstallEdit Evolve.

Section CompactMemTable.
Context `{CS : Checksum} {E RA W KC H K : Type} {R : RandomAccessFile RA} {WF : WritableFile W}.
Context {LF : LogFiles E W} {EF : EnvFiles E} {ED : EnvDirectory E} {RF : RandomAccessFiles E RA} {TF : TableFiles E W}.
Context {CO : CacheOps KC H (Table RA) TableDeleter} {BC : BlockCache K}.
Variables (Snappy Zstd : Compressor) (C : Comparator) (comparator_name dbname_ : bytes) (options_ : Options).
Notation DBImpl := (DBImpl E W KC K).
Variable others : nat -> DBImpl -> DBImpl.

(** Up to the decision: the status of the table, the edit, and the state. *)
Definition write_imm (db : DBImpl) : option (Status * VersionEdit * DBImpl) :=
  imm ← db_imm db;
  base ← current_ (db_versions db);
  node ← find_version base (dummy_versions_ (db_versions db));
  db ← Ref_at base db;
  '(s, edit, db) ← WriteLevel0Table Snappy Zstd C dbname_ options_ (others 0) imm Clear (Some (vn_version node)) db;
  db ← Unref_at base db;
  let s := if ok s && shutting_down_ (db_shared db) then IOError (cstr "Deleting DB during memtable compaction") [] else s in
  Some (s, edit, db).

Definition CompactMemTable (db : DBImpl) : option DBImpl :=
  '(s, edit, db) ← write_imm db;
  '(s, db) ← (if ok s then
                let edit := SetLogNumber (SetPrevLogNumber edit 0) (db_logfile_number db) in
                '(s, _, db) ← LogAndApply_unlocked C comparator_name dbname_ (others 1) edit db;
                Some (s, db)
              else Some (s, db));
  if ok s then RemoveObsoleteFiles dbname_ (others 2) (with_db_imm None db)
  else Some (RecordBackgroundError s db).
End CompactMemTable.

(** ** The invariant through a compaction of the memtable *)

Section Spec.
Context `{CS : Checksum} {E RA W KC H K : Type} {R : RandomAccessFile RA} {WF : WritableFile W}.
Context {LF : LogFiles E W} {EF : EnvFiles E} {EFL : EnvFilesLaws E} {ED : EnvDirectory E} {RF : RandomAccessFiles E RA} {TF : TableFiles E W}.
Context {works : Prop} {raf_contents : RA -> bytes} {RL : RandomAccessFileLaws R raf_contents} {wf_contents : W -> bytes}.
Context {FS : FaultyFileSystem works WF RF LF TF EF raf_contents wf_contents}.
Context {CO : CacheOps KC H (Table RA) TableDeleter} {c_ok : nat -> (bytes -> Table RA -> Prop) -> list H -> KC -> Prop} {CL : CacheLaws CO c_ok}.
Context {BC : BlockCache K} {bc_holds : K -> bytes -> Block -> Prop} {BL : BlockCacheLaws BC bc_holds} {bc_next : K -> Z} {BI : BlockCacheIds BC bc_next}.
Context (Snappy Zstd : Compressor) {SL : CompressorLaws Snappy} {ZL : CompressorLaws Zstd}.
Context {U : Comparator} {UL : ComparatorLaws U} {o : Options} (comparator_name dbname : bytes).
Context (Hcmp : comparator o = InternalKeyComparator U) (Hinterval : 1 <= block_restart_interval o).
Context (Hfilter : forall name P, filter_policy o = Some (name, P) ->
  exists P0, P = InternalFilterPolicy P0 /\ FilterPolicyLaws P0 /\ zlen name < 2 ^ 31 /\ forall a b, Compare (Comparator := U) a b = Eq -> a = b).
Notation DB := (DBImpl E W KC K).
Notation ready := (cache_ready (raf_contents := raf_contents) (c_ok := c_ok) (bc_holds := bc_holds) (bc_next := bc_next) Snappy Zstd (U := U) (o := o)).
Notation has_table := (has_table (raf_contents := raf_contents) Snappy Zstd (U := U) (o := o) dbname).
Notation inv := (inv (raf_contents := raf_contents) (wf_contents := wf_contents) (c_ok := c_ok) (bc_holds := bc_holds) (bc_next := bc_next) Snappy Zstd (U := U) (o := o) dbname).
Notation evolves := (evolves (raf_contents := raf_contents) Snappy Zstd (U := U) (o := o) dbname).
Notation joins := (joins (U := U)).
Implicit Types (db : DB) (sst : Z -> option TableImage) (v : Version) (tc : TableCacheState E KC K).

(** The tables [sst'] are those of [sst], but for number [n]. *)
Lemma has_table_other sst sst' tc m size es n : (forall k, k <> n -> sst' k = sst k) -> m <> n -> has_table sst tc m size es -> has_table sst' tc m size es.
Proof. intros Hs Hne (Hm & i & f & H1 & Hrest). split; [done|]. exists i, f. split; [by rewrite Hs|done]. Qed.

(** A file number is taken, and stays among the pending outputs. *)
Lemma building_inv sst b held ments iments v db : inv sst (S b) held ments iments v db -> inv sst b held ments iments v (building db).
Proof.
  intros [I1 I2 I3 I4 I5 I6 I7 I8 I9 I10 I11 I12 I13 I14]. pose proof I1 as [M1 M2 M3 M4 M5 M6 M7 M8 M9]. split; try done.
  - split; try done.
    + by destruct M1.
    + destruct M2 as (N1 & N2 & N3 & N4). unfold in_u64 in *. split; [|done]. change (0 <= vs_next_file_number (db_versions db) + 1 < 2 ^ 64). lia.
    + intros level f Hf. cbn. specialize (M8 level f Hf). lia.
  - apply (ready_le Snappy Zstd (U := U)) with (b := S b); [lia|exact I4].
  - intros k Hk. apply I5. cbn in Hk. lia.
  - cbn. lia.
  - cbn. lia.
Qed.

(** Table [n] is written, whose number was taken before. *)
Lemma new_table_inv sst sst' n b b' held ments iments v db tc :
  inv sst b held ments iments v db -> sst n = None -> 0 <= n < vs_next_file_number (db_versions db) -> (forall k, k <> n -> sst' k = sst k) ->
  (forall g, g <> TableFileName dbname n -> contents (tcs_env tc) g = contents (db_env db) g) -> ready sst' b' tc -> (b' <= b)%nat ->
  inv sst' b' held ments iments v (with_table_cache tc db) /\
  version_entries (table_contents sst') v = version_entries (table_contents sst) v /\
  forall m size es, has_table sst (table_cache_ db) m size es -> has_table sst' tc m size es.
Proof.
  intros Hi Hno Hn Hs Henv Hr Hb. pose proof Hi as [I1 I2 I3 I4 I5 I6 I7 I8 I9 I10 I11 I12 I13 I14]. pose proof I1 as [M1 M2 M3 M4 M5 M6 M7 M8 M9].
  assert (Htab : forall m size es, has_table sst (table_cache_ db) m size es -> has_table sst' tc m size es).
  { intros m size es Ht. assert (Hne : m <> n) by (intros ->; destruct Ht as (_ & i & _ & Ei & _); congruence).
    apply (has_table_other sst sst' _ _ _ _ n Hs Hne). pose proof Ht as (Hm & _).
    apply (has_table_frame Snappy Zstd dbname sst _ m size es (tcs_env tc)) in Ht; [exact Ht|..]; apply Henv; [by intros ?%TableFileName_inj; lia|].
    intros Hx. exact (Table_not_SST dbname n m ltac:(lia) Hm (eq_sym Hx)). }
  destruct (current_in _ _ _ _ _ _ _ _ _ _ Hi) as (a & nd & _ & _ & Hnd & Ev).
  assert (Hnum : forall nd level f, nd ∈ dummy_versions_ (db_versions db) -> f ∈ level_files (vn_version nd) level -> f_number f <> n).
  { intros m level f Hm Hf Eq. destruct (I3 m level f Hm Hf) as [(_ & i & _ & Hi' & _) _]. congruence. }
  assert (Hcont : forall f, f_number f <> n -> table_contents sst' f = table_contents sst f) by (intros f Hf; unfold table_contents; by rewrite Hs).
  assert (Hent : forall level f, f ∈ level_files v level -> table_contents sst' f = table_contents sst f).
  { intros level f Hf. apply Hcont. rewrite <- Ev in Hf. by eapply Hnum. }
  assert (Elev : forall level, level_entries (table_contents sst') v level = level_entries (table_contents sst) v level).
  { intros level. unfold level_entries. f_equal. apply map_ext_in. intros f Hf%list_elem_of_In. by eapply Hent. }
  assert (Ever : version_entries (table_contents sst') v = version_entries (table_contents sst) v).
  { unfold version_entries. f_equal. apply map_ext. exact Elev. }
  split; [|split; [exact Ever|exact Htab]]. split; rewrite ?Ever; try done.
  - split; try done. by destruct M1.
  - destruct I2 as [V1 V2 V3 V4 V5]. split; [| | | |done].
    + intros level f Hf. destruct (V1 level f Hf) as [F1 F2 F3 F4]. split; rewrite ?(Hent level f Hf); done.
    + exact V2.
    + intros level level' Hl. rewrite !Elev. by apply V3.
    + intros f f' Hf Hf' Hlt. rewrite (Hent 0%nat f Hf), (Hent 0%nat f' Hf'). by apply V4.
  - intros m level f Hm Hf. destruct (I3 m level f Hm Hf) as [Ht Hsk]. split; [|exact Hsk]. rewrite (Hcont f (Hnum m level f Hm Hf)).
    change (table_cache_ (with_table_cache tc db)) with (mkTC (tcs_env tc) (cache_ tc) (tcs_blocks tc)). destruct tc. by apply Htab.
  - intros k Hk. rewrite Hs; [by apply I5|]. cbn in Hk. lia.
  - cbn. lia.
Qed.

(** *** The edit *)

Definition memtable_edit (level : nat) (meta : FileMetaData) (log : Z) : VersionEdit :=
  SetLogNumber (SetPrevLogNumber (AddFile Clear (Z.of_nat level) (number meta) (file_size meta) (smallest meta) (largest meta)) 0) log.

Definition new_meta (meta : FileMetaData) : FileMetaData := FileMetaData_new (number meta) (file_size meta) (smallest meta) (largest meta).

Lemma memtable_edit_adds level meta log lvl :
  edit_adds lvl (memtable_edit level meta log) = (if decide (lvl = level) then [new_meta meta] else []) /\ edit_dels lvl (memtable_edit level meta log) = [].
Proof.
  split; [|done]. unfold edit_adds. cbn. case_decide as Hl; [subst; by rewrite Z.eqb_refl|]. by rewrite (proj2 (Z.eqb_neq _ _)) by lia.
Qed.

Lemma entry_ikey_small e : entry_ok e -> entry_ikey e <> [] /\ zlen (entry_ikey e) < 2 ^ 32.
Proof.
  intros He. assert (El : zlen (entry_ikey e) = zlen (e_user_key e) + 8) by (unfold zlen, entry_ikey; rewrite InternalKey_length; lia).
  pose proof He as [_ Hk]. split; [intros E0; rewrite E0 in El; unfold zlen in El; cbn in El; lia|]. rewrite El. apply Hk.
Qed.

(** The table's bounds and entries as an edit has them. *)
Definition table_of sst (n : Z) (es : list Entry) (meta : FileMetaData) : Prop :=
  number meta = n /\ 0 < file_size meta < 2 ^ 32 /\ Forall entry_ok es /\ entries_sorted U es /\
  (exists e, es !! 0%nat = Some e /\ smallest meta = entry_ikey e) /\ (exists e, last es = Some e /\ largest meta = entry_ikey e) /\
  exists i, sst n = Some i /\ img_entries i = es.

Lemma table_of_id sst n es meta : table_of sst n es meta ->
  id_ok (C := U) sst (file_id meta) /\ id_entries sst (file_id meta) = es /\ (0 <= n < 2 ^ 64 -> VersionEdit.file_ok (new_meta meta)).
Proof.
  intros (En & Hz & Hok & Hs & (e0 & E0 & Es) & (e1 & E1 & El) & i & Ei & Ee).
  assert (Hent : id_entries sst (file_id meta) = es) by (unfold id_entries; cbn; by rewrite En, Ei).
  assert (He : forall e, e ∈ es -> entry_ok e) by (by apply Forall_forall).
  split; [split; rewrite Hent; eauto|]. split; [done|]. intros Hn. unfold VersionEdit.file_ok. cbn. rewrite En, Es, El.
  destruct (entry_ikey_small e0) as [A1 A2]; [apply He; by eapply list_elem_of_lookup_2|].
  destruct (entry_ikey_small e1) as [B1 B2]; [apply He; by eapply last_Some_elem_of|]. repeat split; done || lia.
Qed.

Lemma version_bounds_ok sst v : version_ok (C := U) (table_contents sst) v -> levels_ok (C := U) v.
Proof.
  intros Hv level Hl. split; [|by apply (vo_sorted _ _ Hv)]. intros f Hf. apply (file_ok_bounds (table_contents sst)). by apply (vo_files _ _ Hv level).
Qed.

(** The tables of a level are apart, with their bounds in order. *)
Lemma level_pairwise sst v lvl : version_ok (C := U) (table_contents sst) v -> (1 <= lvl)%nat ->
  pairwise (C := U) (level_ids v lvl) /\ forall i, i ∈ level_ids v lvl -> InternalKey_Compare U i.1.2 i.2 <> Gt.
Proof.
  intros Hv Hl. split; [by apply files_sorted_pairwise, (vo_sorted _ _ Hv)|]. intros i (f & Hf & ->)%level_ids_elem.
  destruct (file_ok_bounds _ f (vo_files _ _ Hv lvl f Hf)) as (_ & _ & _ & _ & _ & _ & Hb). exact Hb.
Qed.

Section Edit.
Context (sst : Z -> option TableImage) (v base : Version) (n : Z) (es : list Entry) (meta : FileMetaData) (level : nat) (log : Z).
Hypothesis v_ok : version_ok (C := U) (table_contents sst) v.
Hypothesis v_holds : holds U v (level_ids v).
Hypothesis v_distinct : forall lvl, NoDup (map f_number (level_files v lvl)).
Hypothesis below_n : forall lvl f, f ∈ level_files v lvl -> f_number f < n.
Hypothesis n_range : 0 <= n < 2 ^ 64.
Hypothesis is_table : table_of sst n es meta.
Hypothesis base_files : files_ base = files_ v.
Hypothesis picked : picks (U := U) (o := o) (Some base) meta level.
Hypothesis options_range : 0 <= max_file_size o <= 2 ^ 30.
Hypothesis es_newer : newer (C := U) es (version_entries (table_contents sst) v).
Notation edit := (memtable_edit level meta log).

(** The level is small, and no table of it or below overlaps the new one. *)
Lemma picked_level : (level <= 2)%nat /\ forall lvl f, (0 < level)%nat -> (lvl <= level)%nat -> f ∈ level_files v lvl ->
  overlaps (C := U) (Some (ExtractUserKey (smallest meta))) (Some (ExtractUserKey (largest meta))) f = false.
Proof.
  assert (Hb : version_ok (C := U) (table_contents sst) base) by by apply (version_ok_files _ v).
  assert (Hl : forall lvl, level_files base lvl = level_files v lvl) by (intros lvl; unfold level_files; by rewrite base_files).
  assert (Hlev : level = pick_level_tree (C := U) o base (ExtractUserKey (smallest meta)) (ExtractUserKey (largest meta))).
  { unfold picks in picked. rewrite (PickLevel_spec o base) in picked; [congruence|by eapply version_bounds_ok|].
    unfold MaxGrandParentOverlapBytes, TargetFileSize, s64. rewrite (u64_small (10 * _)) by lia.
    rewrite u64_small by lia. destruct (Z.ltb_spec (10 * max_file_size o) (2 ^ 63)); lia. }
  split; [rewrite Hlev; unfold pick_level_tree; repeat case_match; lia|]. intros lvl f H1 H2 Hf. rewrite <- Hl in Hf.
  pose proof (pick_level_tree_safe (C := U) o base (ExtractUserKey (smallest meta)) (ExtractUserKey (largest meta)) lvl ltac:(lia) ltac:(lia)) as Hno.
  destruct (overlaps _ _ f) eqn:Eo; [|done]. exfalso. assert (Hex : existsb (overlaps (C := U) (Some (ExtractUserKey (smallest meta))) (Some (ExtractUserKey (largest meta)))) (level_files base lvl) = true); [|congruence].
  apply existsb_exists. exists f. split; [by apply list_elem_of_In|done].
Qed.

(** A file of the new table. *)
Lemma new_apart lvl f : (0 < level)%nat -> (lvl <= level)%nat -> f ∈ level_files v lvl ->
  apart (C := U) sst (file_id (f_meta f)) (file_id meta) /\ separate (C := U) (file_id (f_meta f)) (file_id meta).
Proof.
  intros H1 H2 Hf. destruct picked_level as [_ Hno]. specialize (Hno lvl f H1 H2 Hf).
  assert (Hfo : VersionGet.file_ok (C := U) (table_contents sst) f) by by apply (vo_files _ _ v_ok lvl).
  destruct (table_of_id _ _ _ _ is_table) as (Hid & _ & _). set (g := mkFilePtr 0 meta). change (file_id meta) with (file_id (f_meta g)) in *.
  apply id_ok_file in Hid. destruct (overlaps_false sst _ _ _ Hfo Hno) as [Hlt|Hlt].
  - by apply ends_apart.
  - destruct (ends_apart sst g f Hid Hfo Hlt) as [Ha Hs]. split.
    + intros e e' He He' Heq. apply (Ha e' e He' He). rewrite (Compare_antisym (e_user_key e)), Heq. done.
    + destruct Hs as [Hs|Hs]; [by right|by left].
Qed.

Lemma edit_ids lvl i : i ∈ apply_ref lvl (level_ids v lvl) edit <-> i ∈ level_ids v lvl \/ (lvl = level /\ i = file_id meta).
Proof.
  destruct (memtable_edit_adds level meta log lvl) as [Ea Ed]. rewrite apply_ref_elem, Ea, Ed. case_decide as Hl.
  - change (map file_id [new_meta meta]) with [file_id meta]. rewrite list_elem_of_singleton. split; [intros [[? _]| ->]; auto|]. intros [?|[_ ->]]; [left; split; [done|apply not_elem_of_nil]|by right].
  - split; [intros [[? _]|Hx]; [by left|by apply elem_of_nil in Hx]|]. intros [?|[? _]]; [left; split; [done|apply not_elem_of_nil]|done].
Qed.

Lemma edit_ids_ok : ids_ok (C := U) sst (fun lvl => apply_ref lvl (level_ids v lvl) edit).
Proof.
  destruct (table_of_id _ _ _ _ is_table) as (Hid & Hent & _).
  apply (add_table_ok sst (level_ids v) _ level (file_id meta)); [by apply version_ok_ids|done| | | |].
  - intros lvl i Hi. rewrite Hent. eapply newer_elem; [by intros e He; exact He| |exact es_newer]. intros e He. apply version_entries_ids; [done|]. eauto.
  - intros lvl i (f & Hf & ->)%level_ids_elem. destruct is_table as [En _]. cbn. rewrite En. by eapply below_n.
  - intros lvl i Hl (f & Hf & ->)%level_ids_elem. apply (new_apart lvl f); [lia|lia|done].
  - intros lvl j. by rewrite edit_ids.
Qed.

Lemma edit_disjoint lvl : (1 <= lvl < kNumLevels)%nat -> ids_disjoint (C := U) (apply_ref lvl (level_ids v lvl) edit).
Proof.
  intros Hl. destruct (level_pairwise sst v lvl v_ok ltac:(lia)) as [Hp Hb]. destruct (table_of_id _ _ _ _ is_table) as (Hid & _ & _).
  pose proof Hid as Hid'. set (g := mkFilePtr 0 meta). change (file_id meta) with (file_id (f_meta g)) in Hid'. apply id_ok_file, file_ok_bounds in Hid' as (_ & _ & _ & _ & _ & _ & Hg).
  apply pairwise_disjoint.
  - intros i [Hi|[_ ->]]%edit_ids; [by apply Hb|exact Hg].
  - intros i j [Hi|[-> ->]]%edit_ids [Hj|[El ->]]%edit_ids; [by apply Hp| | |by left].
    + right. subst lvl. apply level_ids_elem in Hi as (f & Hf & ->). apply (new_apart level f); [lia|lia|done].
    + right. apply level_ids_elem in Hj as (f & Hf & ->). destruct (new_apart level f ltac:(lia) ltac:(lia) Hf) as [_ [Hs|Hs]]; [by right|by left].
Qed.

Lemma edit_applicable (vs : VersionSet W E) : managed U vs v -> n < vs_next_file_number vs -> vs_log_number vs <= log < vs_next_file_number vs -> in_u64 log ->
  applicable U comparator_name edit vs v.
Proof.
  intros Hma Hn Hlog Hu. pose proof picked_level as [Hl2 _]. destruct (table_of_id _ _ _ _ is_table) as (_ & _ & Hfo). specialize (Hfo n_range).
  assert (En : number (new_meta meta) = n) by apply is_table. split; try done.
  - apply SetLogNumber_ok; [exact Hu|]. apply SetPrevLogNumber_ok; [lia|]. apply push_file_ok; [|exact Hfo|apply Clear_ok].
    unfold level_ok. change (Z.of_nat kNumLevels) with 7. lia.
  - intros lvl. destruct (memtable_edit_adds level meta log lvl) as [-> _]. case_decide; cbn; [|by rewrite app_nil_r].
    apply NoDup_app. split; [done|]. split; [|apply NoDup_singleton]. intros x (f & -> & Hf)%list_elem_of_fmap. rewrite list_elem_of_singleton. intros Eq.
    specialize (below_n lvl f Hf). rewrite Eq in below_n. unfold new_meta in En. cbn in En. lia.
  - by apply edit_disjoint.
  - intros lvl m. destruct (memtable_edit_adds level meta log lvl) as [-> _]. case_decide; [|by intros ?%elem_of_nil].
    intros ->%list_elem_of_singleton. rewrite En. lia.
Qed.
End Edit.

Lemma memtable_joins sst v base n es meta level :
  version_ok (C := U) (table_contents sst) v -> files_ base = files_ v -> picks (U := U) (o := o) (Some base) meta level -> 0 <= max_file_size o <= 2 ^ 30 ->
  table_of sst n es meta -> newer (C := U) es (version_entries (table_contents sst) v) -> joins sst v sst n level (file_id (new_meta meta)).
Proof.
  intros Hv Hb Hp Ho Ht Hn. destruct (table_of_id _ _ _ _ Ht) as (_ & He & _). change (file_id (new_meta meta)) with (file_id meta). split; [destruct Ht as [<- _]; done|].
  split; [by rewrite He|]. intros lvl' f H1 H2 Hf. destruct (picked_level sst v base meta level Hv Hb Hp Ho) as [_ Hno]. by apply (Hno lvl' f).
Qed.

(** *** The table *)

(** The version with the edit has the tables' entries and those of the memtable. *)
Definition edited_entries sst v (edit : VersionEdit) (e : Entry) : Prop :=
  exists lvl i, (lvl < kNumLevels)%nat /\ i ∈ apply_ref lvl (level_ids v lvl) edit /\ e ∈ id_entries sst i.

Definition no_tables (edit : VersionEdit) : Prop := new_files_ edit = [] /\ deleted_files_ edit = [].

Lemma no_tables_ids edit v lvl i : no_tables edit -> i ∈ apply_ref lvl (level_ids v lvl) edit <-> i ∈ level_ids v lvl.
Proof.
  intros [H1 H2]. rewrite apply_ref_elem. unfold edit_adds, edit_dels. rewrite H1, H2. cbn. split; [intros [[? _]|Hx]; [done|by apply elem_of_nil in Hx]|].
  intros Hi. left. split; [done|apply not_elem_of_nil].
Qed.

Lemma holds_level v lvl i : holds U v (level_ids v) -> i ∈ level_ids v lvl -> (lvl < kNumLevels)%nat.
Proof.
  intros [Hl _] (f & Hf & _)%level_ids_elem. destruct (decide (lvl < kNumLevels)%nat); [done|]. rewrite level_files_out in Hf by done. by apply elem_of_nil in Hf.
Qed.

(** Without tables the edit may always be installed. *)
Lemma no_tables_installable sst b held ments iments v db edit :
  inv sst b held ments iments v db -> no_tables edit -> edit_ok edit -> has_comparator_ edit = false -> log_number_ edit = db_logfile_number db ->
  installable (raf_contents := raf_contents) Snappy Zstd (U := U) (o := o) comparator_name dbname sst edit v db /\ forall e, edited_entries sst v edit e <-> e ∈ version_entries (table_contents sst) v.
Proof.
  intros Hi Hno Hok Hcmp0 Hlog. pose proof Hi as [I1 I2 I3 I4 I5 I6 I7 I8 I9 I10 I11 I12 I13 I14]. pose proof I1 as [M1 M2 M3 M4 M5 M6 M7 M8 M9].
  pose proof Hno as [Hnew Hdel]. assert (Hadds : forall lvl, edit_adds lvl edit = []) by (intros lvl; unfold edit_adds; by rewrite Hnew).
  assert (Hids : ids_ok (C := U) sst (level_ids v)) by by apply version_ok_ids.
  split; [split|].
  - split; [done|by rewrite Hcmp0|intros _; rewrite Hlog; exact I7| | |].
    + intros lvl. rewrite Hadds, app_nil_r. apply M9.
    + intros lvl Hl. apply (ids_disjoint_ext (level_ids v lvl)); [intros i; by rewrite no_tables_ids|].
      destruct (level_pairwise sst v lvl I2 ltac:(lia)). by apply pairwise_disjoint.
    + intros lvl m. rewrite Hadds. by intros ?%elem_of_nil.
  - destruct Hids as [D1 D2 D3]. split; intros *; rewrite ?no_tables_ids by done; eauto.
  - intros lvl i. rewrite no_tables_ids by done. intros (f & Hf & ->)%level_ids_elem.
    destruct (current_in _ _ _ _ _ _ _ _ _ _ Hi) as (a & nd & _ & _ & Hnd & Ev). rewrite <- Ev in Hf. by apply (I3 nd lvl f Hnd Hf).
  - intros _. rewrite Hlog. lia.
  - intros e. rewrite version_entries_ids by done. unfold edited_entries. split.
    + intros (lvl & i & _ & Hin & He). rewrite no_tables_ids in Hin by done. eauto.
    + intros (lvl & i & Hin & He). exists lvl, i. split; [by eapply holds_level|]. by rewrite no_tables_ids.
Qed.

(** With one table. *)
Lemma memtable_installable sst b held ments iments v db base n es meta level :
  inv sst b held ments iments v db -> (forall lvl f, f ∈ level_files v lvl -> f_number f < n) -> 0 <= n < 2 ^ 64 -> n < vs_next_file_number (db_versions db) ->
  table_of sst n es meta -> es ≡ₚ iments -> has_table sst (table_cache_ db) n (file_size meta) es -> files_ base = files_ v ->
  picks (U := U) (o := o) (Some base) meta level -> 0 <= max_file_size o <= 2 ^ 30 ->
  let edit := memtable_edit level meta (db_logfile_number db) in
  installable (raf_contents := raf_contents) Snappy Zstd (U := U) (o := o) comparator_name dbname sst edit v db /\
  forall e, edited_entries sst v edit e <-> e ∈ iments ++ version_entries (table_contents sst) v.
Proof.
  intros Hi Hbelow Hn Hnext Htab Hperm Hhas Hbase Hpick Hopt edit. pose proof Hi as [I1 I2 I3 I4 I5 I6 I7 I8 I9 I10 I11 I12 I13 I14]. pose proof I1 as [M1 M2 M3 M4 M5 M6 M7 M8 M9].
  assert (Hes : newer (C := U) es (version_entries (table_contents sst) v)) by (apply (newer_elem iments es (version_entries (table_contents sst) v)); [intros e He; by rewrite <- Hperm|done|exact I11]).
  assert (Hids : forall lvl i, i ∈ apply_ref lvl (level_ids v lvl) edit <-> i ∈ level_ids v lvl \/ (lvl = level /\ i = file_id meta)) by (intros; apply edit_ids).
  destruct (table_of_id _ _ _ _ Htab) as (_ & Hent & _).
  split; [split|].
  - apply (edit_applicable sst v base n es meta level (db_logfile_number db)); try done. destruct M2 as (N1 & _ & N3 & _). unfold in_u64 in *. lia.
  - by apply (edit_ids_ok sst v base n es meta level (db_logfile_number db)).
  - intros lvl i [(f & Hf & ->)%level_ids_elem|[-> ->]]%Hids.
    + destruct (current_in _ _ _ _ _ _ _ _ _ _ Hi) as (a & nd & _ & _ & Hnd & Ev). rewrite <- Ev in Hf. by apply (I3 nd lvl f Hnd Hf).
    + rewrite Hent. cbn. destruct Htab as [-> _]. exact Hhas.
  - intros _. cbn. lia.
  - intros e. rewrite elem_of_app, version_entries_ids by done. unfold edited_entries. split.
    + intros (lvl & i & _ & [Hin|[-> ->]]%Hids & He); [right; eauto|left]. rewrite Hent in He. by rewrite <- Hperm.
    + intros [He|(lvl & i & Hin & He)].
      * exists level, (file_id meta). split; [|split; [apply Hids; by right|rewrite Hent; by rewrite Hperm]].
        destruct (picked_level sst v base meta level I2 Hbase Hpick Hopt) as [Hl _]. change kNumLevels with 7%nat. lia.
      * exists lvl, i. split; [by eapply holds_level|]. split; [|done]. apply Hids. by left.
Qed.

Lemma write_imm_spec (others : nat -> DB -> DB) c lim sst b held ments iments v db imm :
  inv sst (c + S b) held ments iments v db -> db_imm db = Some imm -> 0 <= max_file_size o <= 2 ^ 30 ->
  lim <= vs_next_file_number (db_versions db) -> rely (raf_contents := raf_contents) (wf_contents := wf_contents) (c_ok := c_ok) (bc_holds := bc_holds) (bc_next := bc_next) Snappy Zstd (U := U) (o := o) dbname c (others 0%nat) ->
  exists s edit db' sst' ments' v', write_imm Snappy Zstd U dbname o others db = Some (s, edit, db') /\ inv sst' b held ments' iments v' db' /\
    db_imm db' = Some imm /\ files_ v' = files_ v /\ version_entries (table_contents sst') v' = version_entries (table_contents sst) v /\
    evolves lim (vs_next_file_number (db_versions db)) sst ments iments v db sst' ments' iments v' db' /\
    let edit' := SetLogNumber (SetPrevLogNumber edit 0) (db_logfile_number db') in
    installable (raf_contents := raf_contents) Snappy Zstd (U := U) (o := o) comparator_name dbname sst' edit' v' db' /\ (length (new_files_ edit') <= 1)%nat /\
    (forall lvl, edit_dels lvl edit' = [] /\ forall m, m ∈ edit_adds lvl edit' -> joins sst' v' sst' (vs_next_file_number (db_versions db)) lvl (file_id m)) /\
    (ok s = true -> forall e, edited_entries sst' v' edit' e <-> e ∈ iments ++ version_entries (table_contents sst') v').
Proof.
  intros Hi Himm Hopt Hlim Hrely. unfold write_imm. rewrite Himm. cbn [mbind option_bind].
  destruct (current_in _ _ _ _ _ _ _ _ _ _ Hi) as (a & nd & Ea & En & Hnd & Ev). rewrite Ea. cbn [mbind option_bind]. rewrite En. cbn [mbind option_bind].
  destruct (Ref_at_inv _ _ _ _ _ _ _ _ _ _ a nd Hi En Ea) as (db1 & -> & Hi1 & R1 & R2 & R3 & R4 & R5 & R6 & R7). cbn [mbind option_bind].
  pose proof Hi1 as [I1 I2 I3 I4 I5 I6 I7 I8 I9 I10 I11 I12 I13 I14]. rewrite R1, Himm in I9.
  set (n := vs_next_file_number (db_versions db1)). assert (Hn0 : 0 <= n < 2 ^ 64 - 1).
  { unfold n. destruct (ma_numbers _ _ _ I1) as ([N1 _] & _). lia. }
  assert (Hready : ready sst (S (c + b)) (table_cache_ db1)) by (by rewrite <- Nat.add_succ_r).
  destruct (WriteLevel0Table_run Snappy Zstd dbname Hcmp Hinterval Hfilter (others 0%nat) imm iments Clear (Some (vn_version nd)) sst (c + b) db1 I9 Hn0 (I5 n ltac:(lia)) Hready I13)
    as (s0 & meta & tc & es' & Henv & Hperm & Hrun). fold n in Henv, Hrun.
  assert (Hcase : exists sst' edit, (forall k, k <> n -> sst' k = sst k) /\ ready sst' (c + b) tc /\
    (forall db2, db2 = unpend n (others 0%nat (with_table_cache tc (building db1))) ->
       WriteLevel0Table Snappy Zstd U dbname o (others 0%nat) imm Clear (Some (vn_version nd)) db1 = Some (s0, edit, db2)) /\
    (edit = Clear /\ (ok s0 = true -> iments = []) \/
     exists level, edit = AddFile Clear (Z.of_nat level) (number meta) (file_size meta) (smallest meta) (largest meta) /\ table_of sst' n es' meta /\
       picks (U := U) (o := o) (Some (vn_version nd)) meta level /\ has_table sst' tc n (file_size meta) es')).
  { destruct (ok s0) eqn:Es0.
    2: { destruct Hrun as (_ & Hr' & Hw). exists sst, Clear. split; [done|]. split; [eapply (ready_le Snappy Zstd (U := U)); [|exact Hr']; lia|]. split; [by intros db2 ->|]. left. by split. }
    apply ok_OK in Es0 as ->. destruct iments as [|e0 iments0] eqn:Eim.
    - destruct Hrun as [Hr' Hw]. exists sst, Clear. split; [done|]. split; [eapply (ready_le Snappy Zstd (U := U)); [|exact Hr']; lia|]. split; [by intros db2 ->|]. by left.
    - rewrite <- Eim in *. destruct Hrun as (Enum & Hok & Hsort & (B1 & B2 & B3 & B4 & B5 & B6 & i & B7 & B8 & B9) & Hw). cbn [number FileMetaData_new] in *.
      set (level := pick_level_tree (C := U) o (vn_version nd) (ExtractUserKey (smallest meta)) (ExtractUserKey (largest meta))).
      assert (Hpick : picks (U := U) (o := o) (Some (vn_version nd)) meta level).
      { unfold picks. apply PickLevel_spec; [rewrite Ev; by eapply version_bounds_ok|]. unfold MaxGrandParentOverlapBytes, TargetFileSize, s64.
        rewrite (u64_small (10 * _)) by lia. rewrite u64_small by lia. destruct (Z.ltb_spec (10 * max_file_size o) (2 ^ 63)); lia. }
      exists (add_sst sst n i), (AddFile Clear (Z.of_nat level) (number meta) (file_size meta) (smallest meta) (largest meta)).
      split; [intros k Hk; unfold add_sst; by rewrite decide_False|]. split; [exact B8|]. split; [intros db2 ->; by apply Hw|]. right. exists level. split; [done|].
      split; [|by split]. do 4 (split; [done|]). split; [done|]. split; [done|]. destruct B9 as (_ & i' & f & Ei & _ & Ees & _). by exists i'. }
  destruct Hcase as (sst' & edit & Hs & Hr' & Hw & Hedit). rewrite (Hw _ eq_refl). cbn [mbind option_bind]. clear Hw Hrun.
  rewrite Nat.add_succ_r in Hi1. destruct (new_table_inv sst sst' n (c + b) (c + b) (a :: held) ments iments v (building db1) tc (building_inv _ _ _ _ _ _ _ Hi1)) as (Hi2 & Ever & Htabs); [apply I5; unfold n; lia|cbn; fold n; lia|exact Hs|exact Henv|exact Hr'|done|].
  destruct (Hrely sst' b (a :: held) ments iments v _ Hi2) as (ments' & iments' & v' & Hi3 & Hmv).
  pose proof Hmv as [V1 V2 V3 V4 V5 V6 V7 V8 V9 V10 V11 V12 V13 V14 V15].
  assert (Himm2 : is_Some (db_imm (with_table_cache tc (building db1)))) by (cbn; rewrite R1, Himm; by eexists).
  destruct (V4 Himm2) as [Himm3 ->]. change (db_imm (with_table_cache tc (building db1))) with (db_imm db1) in Himm3. rewrite R1, Himm in Himm3.
  change (vs_next_file_number (db_versions (with_table_cache tc (building db1)))) with (n + 1) in V5.
  change (vs_last_sequence (db_versions (with_table_cache tc (building db1)))) with (vs_last_sequence (db_versions db1)) in V3.
  pose proof (moved_keeps _ _ _ _ _ _ _ _ _ _ _ _ Hmv) as Hkeep. change (vs_last_sequence (db_versions (with_table_cache tc (building db1)))) with (vs_last_sequence (db_versions db1)) in Hkeep.
  set (db3 := others 0%nat (with_table_cache tc (building db1))) in *.
  destruct (Unref_at_inv _ _ _ _ _ _ _ _ _ (unpend n db3) a (inv_pending _ _ _ _ _ _ _ _ _ _ (pending_outputs_ db3 ∖ {[n]}) Hi3)) as (db4 & Eu & Hi4 & T1 & T2 & T3 & T4 & T5 & T6 & T7).
  change (Unref_at a (unpend n db3)) with (Unref_at a (unpend n db3)) in Eu. rewrite Eu. cbn [mbind option_bind].
  assert (Ever' : version_entries (table_contents sst') v' = version_entries (table_contents sst) v) by (by rewrite (version_entries_files _ _ _ V1), Ever).
  eexists _, edit, db4, sst', ments', v'. split; [done|]. split; [exact Hi4|]. split; [by rewrite T1|]. split; [exact V1|]. split; [exact Ever'|]. split.
  { destruct Hkeep as (new & K1 & K2 & K3). rewrite Ever in K1, K3. rewrite R5 in K2. split.
    - intros k Hk. apply Hs. intros ->. destruct Hk as [Hk|[? Hk]]; [rewrite <- R4 in Hlim; fold n in Hlim; lia|]. by rewrite I5 in Hk by (unfold n; lia).
    - rewrite T4, <- R4. cbn. fold n. lia.
    - exists new. by split.
    - rewrite T5. cbn. lia.
    - intros k Hk Hp. rewrite T3. cbn [unpend with_pending pending_outputs_]. rewrite V7. cbn [with_table_cache building with_pending pending_outputs_]. rewrite R3. rewrite <- R4 in Hlim. fold n in Hlim.
      apply elem_of_difference. split; [by apply elem_of_union_r|]. intros ->%elem_of_singleton. fold n in Hk. lia.
    - intros k size es Hk Hp Ht. rewrite T6. change (table_cache_ (unpend n db3)) with (table_cache_ db3). apply V14, Htabs. change (has_table sst (table_cache_ db1) k size es). by rewrite R6.
    - exists (fun _ => []). unfold level_ids, level_files. rewrite V1. split; [|by intros ? ? _ ?%elem_of_nil]. intros lvl i _. split; [by left|]. by intros [?|?%elem_of_nil].
    - rewrite T2. intros Hsd. apply V15. cbn. by rewrite R2. }
  set (edit' := SetLogNumber _ _). destruct Hedit as [[-> Eim]|(level & -> & Htab & Hpick & Hhas)].
  - destruct (no_tables_installable sst' b held ments' iments v' db4 edit' Hi4) as [Hin He]; try done.
    + apply SetLogNumber_ok; [|by apply SetPrevLogNumber_ok, Clear_ok]. destruct Hi4 as [[_ (N1 & _ & N3 & _)] _ _ _ _ _ J7 _ _ _ _]. unfold in_u64 in *. lia.
    + split; [exact Hin|]. split; [cbn; lia|]. split; [intros lvl; split; [done|]; by intros m ?%elem_of_nil|]. intros Eok e. rewrite He, Eim; [done|]. destruct (ok s0) eqn:E0; [done|]. cbn in Eok. congruence.
  - cut (installable (raf_contents := raf_contents) Snappy Zstd (U := U) (o := o) comparator_name dbname sst' edit' v' db4 /\
      forall e, edited_entries sst' v' edit' e <-> e ∈ iments ++ version_entries (table_contents sst') v').
    { intros [Hin0 He0]. split; [exact Hin0|]. split; [cbn; lia|]. split; [|by intros _]. intros lvl. destruct (memtable_edit_adds level meta (db_logfile_number db4) lvl) as [Ea0 Ed0].
      split; [exact Ed0|]. change edit' with (memtable_edit level meta (db_logfile_number db4)). rewrite Ea0. case_decide as Hlv; [|by intros ? ?%elem_of_nil].
      intros m ->%list_elem_of_singleton. subst lvl. rewrite <- R4. fold n. apply (memtable_joins sst' v' (vn_version nd) n es' meta level); try done.
      - apply Hi4.
      - by rewrite V1, <- Ev.
      - intros e e' He He'. rewrite Ever', <- Ever in He'. apply (iv_newer_imm _ _ _ _ _ _ _ _ _ _ Hi2); [by rewrite <- Hperm|exact He']. }
    apply (memtable_installable sst' b held ments' iments v' db4 (vn_version nd) n es' meta level); try done.
    + intros lvl f Hf. assert (Hf' : f ∈ level_files v lvl) by (unfold level_files in *; by rewrite V1 in Hf). pose proof (ma_files _ _ _ I1 lvl f Hf') as Hlt. fold n in Hlt. lia.
    + lia.
    + rewrite T4. cbn. lia.
    + rewrite T6. apply V14. by destruct tc.
    + by rewrite V1, <- Ev.
Qed.

(** *** Removing obsolete files *)

Lemma inv_le sst b b' held ments iments v db : (b <= b')%nat -> inv sst b' held ments iments v db -> inv sst b held ments iments v db.
Proof. intros Hb [I1 I2 I3 I4 I5 I6 I7 I8 I9 I10 I11 I12 I13 I14]. split; try done; [|lia]. eapply (ready_le Snappy Zstd (U := U)); [exact Hb|exact I4]. Qed.

(** Files other than the tables of the versions do not matter. *)
Lemma inv_env sst b held ments iments v db e :
  inv sst b held ments iments v db ->
  (forall n level f path, n ∈ dummy_versions_ (db_versions db) -> f ∈ level_files (vn_version n) level -> 0 <= f_number f < 2 ^ 64 ->
     path ∈ [TableFileName dbname (f_number f); SSTTableFileName dbname (f_number f)] -> contents e path = contents (db_env db) path) ->
  inv sst b held ments iments v (with_db_env e db).
Proof.
  intros [I1 I2 I3 I4 I5 I6 I7 I8 I9 I10 I11 I12 I13 I14] He. split; try done.
  - destruct I1 as [M1 M2 M3 M4 M5 M6 M7 M8 M9]. split; try done. by destruct M1.
  - intros n level f Hn Hf. destruct (I3 n level f Hn Hf) as [Ht Hs]. split; [|exact Hs]. pose proof Ht as [Hr _].
    apply (has_table_frame Snappy Zstd dbname sst _ _ _ _ e) in Ht; [exact Ht| |]; apply (He n level f); done || (rewrite !elem_of_cons; auto).
Qed.

Lemma RemoveObsoleteFiles_inv (others : DB -> DB) c m lim lo sst b held ments iments v db :
  inv sst (m + (c + b)) held ments iments v db -> (length (GetChildren dbname (db_env db)).2 <= m)%nat ->
  rely (raf_contents := raf_contents) (wf_contents := wf_contents) (c_ok := c_ok) (bc_holds := bc_holds) (bc_next := bc_next) Snappy Zstd (U := U) (o := o) dbname c others ->
  exists db' ments' iments' v', RemoveObsoleteFiles dbname others db = Some db' /\ inv sst b held ments' iments' v' db' /\ files_ v' = files_ v /\
    evolves lim lo sst ments iments v db sst ments' iments' v' db'.
Proof.
  intros Hi Hm Hrely. destruct (ok (sh_bg_error (db_shared db))) eqn:Eok.
  2: { exists db, ments, iments, v. unfold RemoveObsoleteFiles. rewrite Eok. split; [done|]. split; [by apply (inv_le sst b (m + (c + b))); [lia|]|]. split; [done|].
       apply evolves_same; done || lia. }
  pose proof (iv_ready _ _ _ _ _ _ _ _ _ _ Hi) as (own & hs & bc & Hc & R1 & R2 & R3).
  destruct (RemoveObsoleteFiles_spec dbname (3 * (c + b)) (right_table (raf_contents := raf_contents) Snappy Zstd (U := U) (o := o) sst own) hs db others Eok) as (c' & Hc' & E1).
  { eapply c_ok_weaken; [|by intros ? ? Hp; exact Hp|exact Hc]. lia. }
  cbn zeta in E1. set (db1 := with_table_cache _ db) in E1.
  assert (Hi1 : inv sst (c + b) held ments iments v db1).
  { destruct Hi as [I1 I2 I3 I4 I5 I6 I7 I8 I9 I10 I11 I12 I13 I14]. split; try done.
    - destruct I1 as [M1 M2 M3 M4 M5 M6 M7 M8 M9]. split; try done. by destruct M1.
    - exists own, hs, bc. split; [exact Hc'|]. split; [exact R1|]. split; [exact R2|lia].
    - cbn. lia. }
  destruct (Hrely sst b held ments iments v db1 Hi1) as (ments' & iments' & v' & Hi2 & Hmv). set (db2 := others db1) in *.
  pose proof (evolves_moved Snappy Zstd dbname lim lo _ _ _ _ _ _ _ _ _ Hmv) as [A1 A2 A3 A4 A5 A6 A7 A8]. destruct Hmv as [V1 V2 V3 V4 V5 V6 V7 V8 V9 V10 V11 V12 V13 V14 V15].
  set (rest := List.filter (obsolete (live_files db) (db_versions db)) (GetChildren dbname (db_env db)).2) in E1. assert (Hkept : forall k path, k ∈ live_files db -> 0 <= k < 2 ^ 64 -> path ∈ [TableFileName dbname k; SSTTableFileName dbname k] ->
    contents (remove_files dbname rest (db_env db2)) path = contents (db_env db2) path).
  { intros k path Hk Hr Hpath. apply (remove_obsolete_keeps dbname db). left. exists k. split; [exact Hr|]. left. split; [exact Hk|].
    rewrite !elem_of_cons in *. destruct Hpath as [->|[->|[]%elem_of_nil]]; auto. }
  eexists _, ments', iments', v'. split; [exact E1|]. split; [|split; [exact V1|split]]; try done.
  - apply inv_env; [exact Hi2|]. intros nd level f path Hn Hf Hr Hpath. apply (Hkept (f_number f)); [|exact Hr|exact Hpath].
    destruct (V13 nd Hn) as (nd0 & Hn0 & Ef). apply elem_live. right. exists nd0. split; [exact Hn0|]. exists level. unfold level_files in Hf. rewrite Ef in Hf. split; [|by exists f].
    apply elem_of_seq. destruct (iv_live _ _ _ _ _ _ _ _ _ _ Hi nd0 level f Hn0 Hf) as (_ & _ & Hlv). lia.
  - intros k size es Hk Hp Ht. pose proof (V14 k size es Ht) as Ht2. pose proof Ht2 as [Hr _].
    apply (has_table_frame Snappy Zstd dbname sst _ _ _ _ (remove_files dbname rest (db_env db2))) in Ht2; [exact Ht2| |]; apply (Hkept k); try done;
      (apply elem_live; by left) || (rewrite !elem_of_cons; auto).
Qed.

(** *** The compaction *)

(** The entries of the immutable memtable move into the version. *)
Lemma keeps_install last sst sst' ments iments v ments' v1 v' new :
  newer (C := U) new (ments ++ iments ++ version_entries (table_contents sst) v) -> Forall (fun e => last < e_seq e) new ->
  (forall e, e ∈ ments' ++ iments <-> e ∈ new ++ ments ++ iments) -> version_entries (table_contents sst) v1 = version_entries (table_contents sst) v ->
  (forall e, e ∈ version_entries (table_contents sst') v' <-> e ∈ iments ++ version_entries (table_contents sst) v1) ->
  keeps (U := U) last sst ments iments v sst' ments' [] v'.
Proof.
  intros Hn Hs He Hv Hv'. exists new. split; [done|]. split; [done|]. intros e. cbn [app]. specialize (He e). specialize (Hv' e). rewrite Hv in Hv'.
  rewrite !elem_of_app in *. tauto.
Qed.

Lemma error_recorded s db : ok s = false -> ok (sh_bg_error (db_shared (RecordBackgroundError s db))) = false.
Proof. intros Hs. unfold RecordBackgroundError. destruct (ok (sh_bg_error (db_shared db))) eqn:Ex; done. Qed.

Lemma error_frame s db : db_versions (RecordBackgroundError s db) = db_versions db /\ pending_outputs_ (RecordBackgroundError s db) = pending_outputs_ db /\
  table_cache_ (RecordBackgroundError s db) = table_cache_ db /\ shutting_down_ (db_shared (RecordBackgroundError s db)) = shutting_down_ (db_shared db).
Proof. unfold RecordBackgroundError. by destruct (ok (sh_bg_error (db_shared db))). Qed.

Lemma error_imm s db : db_imm (RecordBackgroundError s db) = db_imm db.
Proof. unfold RecordBackgroundError. by destruct (ok (sh_bg_error (db_shared db))). Qed.

(** The edit adds at most its tables to a level. *)
Lemma edited_length v v' edit lvl :
  NoDup (map f_number (level_files v' lvl)) -> (forall i, i ∈ level_ids v' lvl -> i ∈ apply_ref lvl (level_ids v lvl) edit) ->
  (length (level_files v' lvl) <= length (level_files v lvl) + length (new_files_ edit))%nat.
Proof.
  intros Hnd Hv'. rewrite <- (length_map f_number (level_files v' lvl)).
  transitivity (length (map f_number (level_files v lvl) ++ map number (edit_adds lvl edit))).
  - apply NoDup_incl_length; [by apply NoDup_ListNoDup|]. intros x (f & <- & Hf)%in_map_iff. apply list_elem_of_In in Hf.
    apply in_or_app. assert (Hi : file_id (f_meta f) ∈ level_ids v' lvl) by (apply level_ids_elem; by exists f).
    apply Hv', apply_ref_elem in Hi as [[(g & Hg & Eg)%level_ids_elem _]|(m & Em & Hm)%list_elem_of_fmap].
    + left. apply in_map_iff. exists g. split; [|by apply list_elem_of_In]. by injection Eg.
    + right. apply in_map_iff. exists m. split; [|by apply list_elem_of_In]. by injection Em.
  - rewrite length_app, !length_map. unfold edit_adds. rewrite length_map. pose proof (List.filter_length_le (fun p => p.1 =? Z.of_nat lvl) (new_files_ edit)). lia.
Qed.

(** The decision and what follows, when the table has been written. *)
Lemma install_memtable (others : nat -> DB -> DB) c1 c2 m lim lo sst b held ments iments v db imm edit :
  inv sst (c1 + (m + (c2 + b))) held ments iments v db -> db_imm db = Some imm ->
  (forall e : E, (length (GetChildren dbname e).2 <= m)%nat) ->
  rely (raf_contents := raf_contents) (wf_contents := wf_contents) (c_ok := c_ok) (bc_holds := bc_holds) (bc_next := bc_next) Snappy Zstd (U := U) (o := o) dbname c1 (others 1%nat) ->
  rely (raf_contents := raf_contents) (wf_contents := wf_contents) (c_ok := c_ok) (bc_holds := bc_holds) (bc_next := bc_next) Snappy Zstd (U := U) (o := o) dbname c2 (others 2%nat) ->
  installable (raf_contents := raf_contents) Snappy Zstd (U := U) (o := o) comparator_name dbname sst edit v db ->
  (forall lvl, edit_dels lvl edit = [] /\ forall m, m ∈ edit_adds lvl edit -> joins sst v sst lo lvl (file_id m)) ->
  (forall e, edited_entries sst v edit e <-> e ∈ iments ++ version_entries (table_contents sst) v) ->
  exists s e1 db1 db' ments' iments' v', LogAndApply_unlocked U comparator_name dbname (others 1%nat) edit db = Some (s, e1, db1) /\
    (if ok s then RemoveObsoleteFiles dbname (others 2%nat) (with_db_imm None db1) else Some (RecordBackgroundError s db1)) = Some db' /\
    inv sst b held ments' iments' v' db' /\ evolves lim lo sst ments iments v db sst ments' iments' v' db' /\
    (length (level_files v' 0) <= length (level_files v 0) + length (new_files_ edit))%nat /\
    if ok s then forall e, e ∈ iments -> e ∈ version_entries (table_contents sst) v' else ok (sh_bg_error (db_shared db')) = false /\ db_imm db' = Some imm.
Proof.
  intros Hi Himm Hm Hr1 Hr2 Hin Hadds Hed.
  destruct (LogAndApply_inv Snappy Zstd comparator_name dbname (others 1%nat) c1 sst (m + (c2 + b)) held ments iments v db edit Hi Hr1 Hin)
    as (s & e1 & db1 & ments1 & iments1 & v1 & E1 & Ef & (new & N1 & N2 & N3) & Hi1 & Hlast & Hpend & Hnm & Huq & Hnext & Htabs & Hsd & _ & Hres).
  destruct (Hi1 ltac:(rewrite Himm; by eexists)) as [Himm1 ->]. exists s, e1, db1. pose proof (version_entries_files sst _ _ Ef) as Ev1.
  destruct (ok s) eqn:Es.
  - destruct Hres as (v' & Hv' & Hh & Hinv). assert (Hent : forall e, e ∈ version_entries (table_contents sst) v' <-> e ∈ iments ++ version_entries (table_contents sst) v).
    { intros e. rewrite <- Hed, version_entries_ids by done. unfold edited_entries. split.
      - intros (lvl & i & Hx & He). pose proof (holds_level _ _ _ Hh Hx) as Hl. exists lvl, i. split; [done|]. split; [by apply Hv'|done].
      - intros (lvl & i & Hl & Hx & He). exists lvl, i. split; [by apply Hv'|done]. }
    assert (Hi2 : inv sst (m + (c2 + b)) held ments1 [] v' (with_db_imm None db1)).
    { apply Hinv; [done| |intros ? ? Hx; by apply elem_of_nil in Hx| |by intros ? ->%Permutation_nil_r].
      - eapply newer_elem; [by intros e He; exact He| |exact Hnm]. intros e. cbn [app]. by rewrite Hent.
      - eapply unique_keys_sub; [|exact Huq]. intros e. cbn [app]. rewrite !elem_of_app, Hent, !elem_of_app. tauto. }
    destruct (RemoveObsoleteFiles_inv (others 2%nat) c2 m lim lo sst b held ments1 [] v' (with_db_imm None db1) Hi2 (Hm _) Hr2)
      as (db' & ments' & iments' & v2 & E2 & Hi3 & Ef2 & [A1 A2 A3 A4 A5 A6 A7 A8]).
    exists db', ments', iments', v2. split; [done|]. split; [exact E2|]. split; [exact Hi3|]. split; [|split].
    + split; [done|cbn in A2; lia| |cbn in A4; lia| | | |auto].
      * eapply keeps_trans; [exact Hlast|eapply (keeps_install _ sst sst); [exact N1|exact N2|exact N3|exact Ev1|]|exact A3]. intros e. rewrite Ev1. apply Hent.
      * intros k Hk Hp. apply A5; [done|]. cbn. by rewrite Hpend.
      * intros k size es Hk Hp Ht. apply A6; [done|cbn; by rewrite Hpend|]. by apply Htabs.
      * exists (fun lvl => map file_id (edit_adds lvl edit)). split.
        -- intros lvl i Hl. unfold level_ids at 1, level_files. rewrite Ef2. change (i ∈ level_ids v' lvl <-> i ∈ level_ids v lvl \/ i ∈ map file_id (edit_adds lvl edit)).
           rewrite Hv', apply_ref_elem, (proj1 (Hadds lvl)) by done. split; [intros [[? _]|?]; auto|]. intros [?|?]; [left; split; [done|apply not_elem_of_nil]|by right].
        -- intros lvl i _ (mt & -> & Hmt)%list_elem_of_fmap. by apply Hadds.
    + unfold level_files at 1. rewrite Ef2. apply edited_length; [exact (ma_distinct _ _ _ (iv_managed _ _ _ _ _ _ _ _ _ _ Hi2) 0%nat)|]. intros i Hx. apply (Hv' 0%nat); [change kNumLevels with 7%nat; lia|done].
    + intros e He. rewrite (version_entries_files _ _ _ Ef2). apply Hent, elem_of_app. by left.
  - exists (RecordBackgroundError s db1), ments1, iments, v1. split; [done|]. split; [done|]. split; [by apply inv_error, (inv_le sst b (m + (c2 + b))); [lia|]|].
    destruct (error_frame s db1) as (Efr1 & Efr2 & Etc & Esd).
    split; [|split; [unfold level_files at 1; rewrite Ef; unfold level_files; lia|split; [by apply error_recorded|by rewrite error_imm, Himm1]]]. split; rewrite ?Efr1, ?Efr2, ?Etc, ?Esd; try done.
    + exists new. split; [done|]. split; [done|]. intros e. specialize (N3 e). rewrite Ev1. rewrite !elem_of_app in *. tauto.
    + intros k _. by rewrite Hpend.
    + intros k size es _ _. apply Htabs.
    + exists (fun _ => []). unfold level_ids, level_files. rewrite Ef. split; [|by intros ? ? _ ?%elem_of_nil]. intros lvl i _. split; [by left|]. by intros [?|?%elem_of_nil].
Qed.

Lemma CompactMemTable_spec (others : nat -> DB -> DB) c0 c1 c2 m lim sst b held ments iments v db imm :
  inv sst (c0 + S (c1 + (m + (c2 + b)))) held ments iments v db -> db_imm db = Some imm -> 0 <= max_file_size o <= 2 ^ 30 ->
  (forall e : E, (length (GetChildren dbname e).2 <= m)%nat) -> lim <= vs_next_file_number (db_versions db) ->
  rely (raf_contents := raf_contents) (wf_contents := wf_contents) (c_ok := c_ok) (bc_holds := bc_holds) (bc_next := bc_next) Snappy Zstd (U := U) (o := o) dbname c0 (others 0%nat) ->
  rely (raf_contents := raf_contents) (wf_contents := wf_contents) (c_ok := c_ok) (bc_holds := bc_holds) (bc_next := bc_next) Snappy Zstd (U := U) (o := o) dbname c1 (others 1%nat) ->
  rely (raf_contents := raf_contents) (wf_contents := wf_contents) (c_ok := c_ok) (bc_holds := bc_holds) (bc_next := bc_next) Snappy Zstd (U := U) (o := o) dbname c2 (others 2%nat) ->
  exists db' sst' ments' iments' v', CompactMemTable Snappy Zstd U comparator_name dbname o others db = Some db' /\ inv sst' b held ments' iments' v' db' /\
    evolves lim (vs_next_file_number (db_versions db)) sst ments iments v db sst' ments' iments' v' db' /\
    (length (level_files v' 0) <= S (length (level_files v 0)))%nat /\
    ((ok (sh_bg_error (db_shared db')) = false /\ db_imm db' = Some imm) \/ forall e, e ∈ iments -> e ∈ version_entries (table_contents sst') v').
Proof.
  intros Hi Himm Hopt Hm Hlim Hr0 Hr1 Hr2. unfold CompactMemTable.
  destruct (write_imm_spec others c0 lim sst (c1 + (m + (c2 + b))) held ments iments v db imm Hi Himm Hopt Hlim Hr0)
    as (s & edit & db1 & sst' & ments1 & v1 & -> & Hi1 & Himm1 & Ef & Ev & Hk1 & Hin & Hlen & Hadds & Hed). cbn [mbind option_bind].
  destruct (ok s) eqn:Es; cbn [mbind option_bind].
  - destruct (install_memtable others c1 c2 m lim (vs_next_file_number (db_versions db)) sst' b held ments1 iments v1 db1 imm _ Hi1 Himm1 Hm Hr1 Hr2 Hin Hadds (Hed eq_refl))
      as (s1 & e1 & db2 & db' & ments' & iments' & v' & -> & E2 & Hi2 & Hk2 & Hle & Hres). cbn [mbind option_bind].
    exists db', sst', ments', iments', v'. split; [exact E2|]. split; [exact Hi2|]. split; [by eapply (evolves_trans Snappy Zstd dbname lim); [exact Hlim|exact Hi|exact Hi1|exact Hi2|exact Hk1|exact Hk2]|].
    split; [unfold level_files at 2 in Hle; rewrite Ef in Hle; unfold level_files; unfold level_files in Hle; lia|]. destruct (ok s1); auto.
  - rewrite Es. exists (RecordBackgroundError s db1), sst', ments1, iments, v1. assert (Hi2 : inv sst' b held ments1 iments v1 (RecordBackgroundError s db1)) by by apply inv_error, (inv_le sst' b (c1 + (m + (c2 + b)))); [lia|].
    split; [done|]. split; [exact Hi2|]. split.
    { eapply (evolves_trans Snappy Zstd dbname lim); [exact Hlim|exact Hi|exact Hi1|exact Hi2|exact Hk1|]. destruct (error_frame s db1) as (Efr1 & Efr2 & Etc & Esd).
      apply evolves_same; rewrite ?Efr1, ?Efr2, ?Etc, ?Esd; done. }
    split; [unfold level_files; rewrite Ef; lia|]. left. split; [by apply error_recorded|by rewrite error_imm].
Qed.
End Spec.
