(* ===== verification/ReadStability.v ===== *)
(** * db/db_impl: reads, and the compaction of the memtable

    [Get] answers from the log-structured merge tree of the memtables and the
    current version; a compaction of the memtable changes no answer.  Both are
    shown with the other threads at work whenever the mutex is free, and are run
    on a database in memory. *)

From Stdlib Require Import Sorted.
From stdpp Require Import gmap sorting.
From S2P Require Import Prelude Coding Comparator Crc32c Bloom DbFormat Status Iterator BlockBuilder Block Format FilterBlock TableBuilder Table SkipList MemTable UserView MemIter.
From S2P Require Import VersionEdit Options Version VersionGet Overlap InternalTable TableCache BuildTable MemoryFiles LogWriter Filename Compaction CompactionDrop VersionBuilder VersionSet Manifest Install Levels.
From S2P Require Import DBImpl DBGet LSM Obsolete Recovery LogRecovery Invariant InstallEdit Evolve CompactMemTable.

Section Reads.
Context `{CS : Checksum} {E RA W KC H K : Type} {R : RandomAccessFile RA} {RF : RandomAccessFiles E RA} {WF : WritableFile W} {wf_contents : W -> bytes}.
Context {raf_contents : RA -> bytes} {RL : RandomAccessFileLaws R raf_contents}.
Context {CO : CacheOps KC H (Table RA) TableDeleter} {c_ok : nat -> (bytes -> Table RA -> Prop) -> list H -> KC -> Prop} {CL : CacheLaws CO c_ok}.
Context {BC : BlockCache K} {bc_holds : K -> bytes -> Block -> Prop} {BL : BlockCacheLaws BC bc_holds} {bc_next : K -> Z} {BI : BlockCacheIds BC bc_next}.
Context (Snappy Zstd : Compressor) {SL : CompressorLaws Snappy} {ZL : CompressorLaws Zstd}.
Context {U : Comparator} {UL : ComparatorLaws U} {o : Options} (dbname : bytes).
Context (Hcmp : comparator o = InternalKeyComparator U) (Hinterval : 1 <= block_restart_interval o).
Context (Hfilter : forall name P, filter_policy o = Some (name, P) ->
  exists P0, P = InternalFilterPolicy P0 /\ FilterPolicyLaws P0 /\ zlen name < 2 ^ 31 /\ forall a b, Compare (Comparator := U) a b = Eq -> a = b).
Notation DB := (DBImpl E W KC K).
Notation inv := (inv (raf_contents := raf_contents) (wf_contents := wf_contents) (c_ok := c_ok) (bc_holds := bc_holds) (bc_next := bc_next) Snappy Zstd (U := U) (o := o) dbname).
Notation lsm := (lsm (raf_contents := raf_contents) (c_ok := c_ok) (bc_holds := bc_holds) (bc_next := bc_next) Snappy Zstd (U := U) (o := o) dbname).

(** A database in order is a log-structured merge tree. *)
Lemma inv_lsm sst b held ments iments v (db : DB) : inv sst b held ments iments v db -> lsm sst b ments iments v db.
Proof.
  intros Hi. destruct (find_set_version _ _ (ma_versions _ _ _ (iv_managed _ _ _ _ _ _ _ _ _ _ Hi)) (ma_current _ _ _ (iv_managed _ _ _ _ _ _ _ _ _ _ Hi))) as (a & n & Ea & En & Ev & _).
  pose proof (find_version_some _ _ _ En) as [Hn _]. destruct Hi as [I1 I2 I3 I4 I5 I6 I7 I8 I9 I10 I11 I12 I13 I14]. split; try done; [by exists a, n|].
  intros a' Ea'. rewrite Ea in Ea'. injection Ea' as <-. split.
  - exists n. split; [done|]. split; [|by rewrite Ev]. pose proof (vo_refs _ (ma_versions _ _ _ I1)) as Hr. rewrite Forall_forall in Hr. by apply Hr.
  - intros level f Hf. rewrite <- Ev in Hf. by apply (I3 n level f).
  - intros level f Hf. rewrite <- Ev in Hf. by apply (I3 n level f).
  - exact I4.
  - exists v. apply I1.
Qed.

(** [Get] at a snapshot, when no other thread interferes. *)
Lemma Get_in_order sst b held ments iments v (db : DB) options s u value :
  inv sst b held ments iments v db -> (length (level_files v 0) + kNumLevels <= b)%nat -> Options.snapshot options = Some s -> 0 <= s <= kMaxSequenceNumber -> zlen u + 8 < 2 ^ 32 ->
  exists st value' db', Get Snappy Zstd U dbname o (fun _ db => db) options u value db = Some (st, value', db') /\
    answer (U := U) u s (ments ++ iments ++ version_entries (table_contents sst) v) value st value'.
Proof.
  intros Hi Hb Es Hs Hu. pose proof (inv_lsm sst b held ments iments v db Hi) as Hlsm. pose proof Hlsm as [(a & n & Ea & _) _ _ _ _ _ _].
  destruct (Get_spec Snappy Zstd dbname Hcmp Hinterval Hfilter (fun _ db => db) sst 0 b ments iments v db a options u value Hlsm Ea) as (st & value' & db' & E1 & Ha).
  - intros db0 [P1 P2 P3 P4 P5]. split; try done.
    eapply (tc_ready_le (TableCacheLaws := TableCache_laws (c_ok := c_ok) (bc_next := bc_next) Snappy Zstd dbname Hcmp Hinterval Hfilter sst)); [|exact P4]. lia.
  - done.
  - rewrite Es. exact Hs.
  - done.
  - exists st, value', db'. split; [exact E1|]. by rewrite Es in Ha.
Qed.
End Reads.

(** ** Properties *)

(** C5: [DBImpl::Get] answers for the newest visible entry.  The entries of the
    memtable, the immutable memtable and the tables of the current version form a
    log-structured merge tree ([lsm]); then, at the snapshot of the options or the
    last sequence number, [Get] returns with the value of the newest entry of the
    key that is not newer than the snapshot, [NotFound] when it is a deletion, and
    [NotFound] when there is none; whatever the other threads do while the mutex
    is free, as long as the pinned version and its tables stay. *)
Theorem get_newest_visible `{CS : Checksum} {E RA W KC H K : Type} {R : RandomAccessFile RA} {RF : RandomAccessFiles E RA}
    (raf_contents : RA -> bytes) {RL : RandomAccessFileLaws R raf_contents}
    {CO : CacheOps KC H (Table RA) TableDeleter} (c_ok : nat -> (bytes -> Table RA -> Prop) -> list H -> KC -> Prop) {CL : CacheLaws CO c_ok}
    {BC : BlockCache K} (bc_holds : K -> bytes -> Block -> Prop) {BL : BlockCacheLaws BC bc_holds} (bc_next : K -> Z) {BI : BlockCacheIds BC bc_next}
    (Snappy Zstd : Compressor) {SL : CompressorLaws Snappy} {ZL : CompressorLaws Zstd}
    (U : Comparator) {UL : ComparatorLaws U} (o : Options) (dbname : bytes)
    (Hcmp : comparator o = InternalKeyComparator U) (Hinterval : 1 <= block_restart_interval o)
    (Hfilter : forall name P, filter_policy o = Some (name, P) ->
      exists P0, P = InternalFilterPolicy P0 /\ FilterPolicyLaws P0 /\ zlen name < 2 ^ 31 /\ forall a b, Compare (Comparator := U) a b = Eq -> a = b)
    (others : nat -> DBImpl E W KC K -> DBImpl E W KC K) (sst : Z -> option TableImage) (b B : nat) (ments iments : list Entry) (v : Version) (db : DBImpl E W KC K)
    (a : Z) (options : ReadOptions) (u value : bytes) :
  let pinned b := pinned (raf_contents := raf_contents) (c_ok := c_ok) (bc_holds := bc_holds) (bc_next := bc_next) Snappy Zstd (U := U) (o := o) dbname sst b a v in
  let s := default (vs_last_sequence (db_versions db)) (Options.snapshot options) in
  lsm (raf_contents := raf_contents) (c_ok := c_ok) (bc_holds := bc_holds) (bc_next := bc_next) Snappy Zstd (U := U) (o := o) dbname sst B ments iments v db ->
  current_ (db_versions db) = Some a ->
  (forall db', pinned B db' -> pinned (length (level_files v 0) + (kNumLevels + b))%nat (others 0%nat db')) ->
  (forall db', pinned b db' -> pinned 0%nat (others 1%nat db')) ->
  0 <= s <= kMaxSequenceNumber -> zlen u + 8 < 2 ^ 32 ->
  exists st value' db', Get Snappy Zstd U dbname o others options u value db = Some (st, value', db') /\
    answer (U := U) u s (ments ++ iments ++ version_entries (table_contents sst) v) value st value'.
Proof. intros pin s Hl Ha H0 H1 Hs Hu. exact (Get_spec Snappy Zstd dbname Hcmp Hinterval Hfilter others sst b B ments iments v db a options u value Hl Ha H0 H1 Hs Hu). Qed.

(** C2: A compaction of the memtable is safe.  From a state in order, with an
    immutable memtable, and whatever the other threads do at the three points where
    the mutex is free (they add newer entries, take file numbers, hold and release
    versions, use the caches), [CompactMemTable] returns a state in order; either
    the version then has the entries of the immutable memtable, or the background
    error is set and the immutable memtable is kept.  This holds although creating,
    writing, syncing, closing and removing files may fail at any time
    ([FaultyFileSystem]); only reads of files that exist must succeed.  Every read
    of a key at a snapshot that existed before is answered afterwards from the
    entries that were there before. *)
Theorem memtable_compaction_keeps_reads `{CS : Checksum} {E RA W KC H K : Type} {R : RandomAccessFile RA} {WF : WritableFile W}
    {LF : LogFiles E W} {EF : EnvFiles E} {EFL : EnvFilesLaws E} {ED : EnvDirectory E} {RF : RandomAccessFiles E RA} {TF : TableFiles E W}
    (works : Prop) (raf_contents : RA -> bytes) {RL : RandomAccessFileLaws R raf_contents} (wf_contents : W -> bytes)
    {FS : FaultyFileSystem works WF RF LF TF EF raf_contents wf_contents}
    {CO : CacheOps KC H (Table RA) TableDeleter} (c_ok : nat -> (bytes -> Table RA -> Prop) -> list H -> KC -> Prop) {CL : CacheLaws CO c_ok}
    {BC : BlockCache K} (bc_holds : K -> bytes -> Block -> Prop) {BL : BlockCacheLaws BC bc_holds} (bc_next : K -> Z) {BI : BlockCacheIds BC bc_next}
    (Snappy Zstd : Compressor) {SL : CompressorLaws Snappy} {ZL : CompressorLaws Zstd}
    (U : Comparator) {UL : ComparatorLaws U} (o : Options) (comparator_name dbname : bytes)
    (Hcmp : comparator o = InternalKeyComparator U) (Hinterval : 1 <= block_restart_interval o) (Hsize : 0 <= max_file_size o <= 2 ^ 30)
    (Hfilter : forall name P, filter_policy o = Some (name, P) ->
      exists P0, P = InternalFilterPolicy P0 /\ FilterPolicyLaws P0 /\ zlen name < 2 ^ 31 /\ forall a b, Compare (Comparator := U) a b = Eq -> a = b)
    (others : nat -> DBImpl E W KC K -> DBImpl E W KC K) (c0 c1 c2 m b : nat)
    (sst : Z -> option TableImage) (held : list Z) (ments iments : list Entry) (v : Version) (db : DBImpl E W KC K) :
  let in_order := inv (raf_contents := raf_contents) (wf_contents := wf_contents) (c_ok := c_ok) (bc_holds := bc_holds) (bc_next := bc_next) Snappy Zstd (U := U) (o := o) dbname in
  let relied := rely (H := H) (raf_contents := raf_contents) (wf_contents := wf_contents) (c_ok := c_ok) (bc_holds := bc_holds) (bc_next := bc_next) Snappy Zstd (U := U) (o := o) dbname in
  relied c0 (others 0%nat) -> relied c1 (others 1%nat) -> relied c2 (others 2%nat) ->
  (forall e : E, (length (GetChildren dbname e).2 <= m)%nat) ->
  in_order sst (c0 + S (c1 + (m + (c2 + b))))%nat held ments iments v db ->
  is_Some (db_imm db) ->
  exists db' sst' ments' iments' v', CompactMemTable Snappy Zstd U comparator_name dbname o others db = Some db' /\
    in_order sst' b held ments' iments' v' db' /\ (length (level_files v' 0) <= S (length (level_files v 0)))%nat /\
    ((ok (sh_bg_error (db_shared db')) = false /\ db_imm db' = db_imm db) \/ forall e, e ∈ iments -> e ∈ version_entries (table_contents sst') v') /\
    forall options s u value, (S (length (level_files v 0)) + kNumLevels <= b)%nat -> Options.snapshot options = Some s ->
      0 <= s <= vs_last_sequence (db_versions db) -> s <= kMaxSequenceNumber -> zlen u + 8 < 2 ^ 32 ->
      exists st value' db'', Get Snappy Zstd U dbname o (fun _ db => db) options u value db' = Some (st, value', db'') /\
        answer (U := U) u s (ments ++ iments ++ version_entries (table_contents sst) v) value st value'.
Proof.
  intros inor rel H0 H1 H2 Hm Hi [imm Himm].
  destruct (CompactMemTable_spec Snappy Zstd comparator_name dbname Hcmp Hinterval Hfilter others c0 c1 c2 m (vs_next_file_number (db_versions db)) sst b held ments iments v db imm Hi Himm Hsize Hm (Z.le_refl _) H0 H1 H2)
    as (db' & sst' & ments' & iments' & v' & E1 & Hi' & Hev & Hlen & Hres).
  pose proof (ev_keeps _ _ _ _ _ _ _ _ _ _ _ _ _ _ _ Hev) as Hk.
  exists db', sst', ments', iments', v'. split; [exact E1|]. split; [exact Hi'|]. split; [exact Hlen|]. split; [by rewrite Himm|].
  intros options s u value Hb Es Hs Hmax Hu.
  destruct (Get_in_order (wf_contents := wf_contents) Snappy Zstd dbname Hcmp Hinterval Hfilter sst' b held ments' iments' v' db' options s u value Hi' ltac:(lia) Es ltac:(lia) Hu) as (st & value' & db'' & E2 & Ha).
  exists st, value', db''. split; [exact E2|]. by eapply (keeps_answer _ _ _ _ _ _ _ _ _ _ s); [exact Hk|lia|].
Qed.

(** A database in memory, with one entry in the memtable and one in the immutable
    memtable, and no tables. *)
Definition reading_options : Options :=
  mkOptions (InternalKeyComparator BytewiseComparator) false false false 4194304 1000 4096 16 2097152 kNoCompression false None.

Definition new_entry : Entry := mkEntry (cstr "b") 9 kTypeValue (cstr "2").
Definition old_entry : Entry := mkEntry (cstr "a") 8 kTypeValue (cstr "1").
Definition memtable_of (e : Entry) : MemTable :=
  default MemTable_new (MemTable_Add BytewiseComparator MemTable_new (e_seq e) (e_type e) (e_user_key e) (e_value e)).

Definition reading_db : DBImpl MemoryEnv bytes (list (bytes * Table bytes)) (Z * list (bytes * Block)) :=
  mkDBImpl (mkVersionSet (fun _ => None) 5 2 9 3 0 None [mkVNode 0 1 Version_new] (Some 0) 1 (mkObjects (replicate kNumLevels []) 0 ∅))
    [] (Some (0, [])) ∅ (Some (memtable_of new_entry)) (Some (memtable_of old_entry)) None 4 Shared_new.

Definition empty_directory : EnvDirectory MemoryEnv :=
  {| CreateDir := fun _ e => e; LockFile := fun _ e => (OK, e); FileExists := fun _ _ => true; GetChildren := fun _ _ => (OK, []) |}.

Notation memory_inv_on WF := (inv (WF := WF) (raf_contents := id) (wf_contents := id) (c_ok := list_cache_ok) (bc_holds := list_blocks_hold) (bc_next := fst) (H := Table bytes) StoreCompressor StoreCompressor
  (U := BytewiseComparator) (o := reading_options) (cstr "db")).
Notation memory_inv := (memory_inv_on StringDest).

Lemma memtable_of_repr e : entry_ok e -> mem_repr (C := BytewiseComparator) (memtable_of e) [e].
Proof.
  intros He. destruct (MemTable_Add_repr (C := BytewiseComparator) MemTable_new [] e MemTable_new_repr He) as (mem & E & Hm); [by intros e' Hx%elem_of_nil|].
  unfold memtable_of. by rewrite E.
Qed.

Lemma new_version_entries sst : version_entries (table_contents sst) Version_new = [].
Proof. done. Qed.

(** A table is as large as one written to a string. *)
Lemma small_fits {works : Prop} {WF : WritableFile bytes} {FL : FaultyFile works WF id} es n : entries_size (map entry_kv es) + 20 * zlen es < 2 ^ 32 ->
  (r ← add_entries (WF := StringDest) StoreCompressor StoreCompressor (TableBuilder_new reading_options []) (map entry_kv es);
   FileSize ∘ snd <$> Finish (WF := StringDest) StoreCompressor StoreCompressor r) = Some n -> n < 2 ^ 32 ->
  table_fits (o := reading_options) (wf_contents := id) StoreCompressor StoreCompressor es.
Proof.
  intros Hz Hn Hlt. split; [done|]. intros w r r' Hw Ha Hf. unfold id in Hw. subst w.
  destruct (add_entries (WF := StringDest) _ _ _ _) as [q|] eqn:Eq; [|done]. cbn [mbind option_bind] in Hn.
  destruct (add_entries_tracks (wf_contents := id) _ _ (map entry_kv es) (TableBuilder_new reading_options []) _ q eq_refl ltac:(by left) ltac:(done) ltac:(done) Eq) as (r1 & E1 & Hc & Ht & _).
  rewrite Ha in E1. injection E1 as <-. destruct (Finish (WF := StringDest) _ _ q) as [[s q']|] eqn:Efin; [|done].
  destruct (Finish_tracks _ _ r q s q' Hc Ht Efin) as (s' & r1 & E1 & Hres). rewrite Hf in E1. injection E1 as <- <-. destruct Hres as (_ & _ & ->). by injection Hn as <-.
Qed.

(** The table of that entry is small. *)
Lemma reading_fits {works : Prop} {WF : WritableFile bytes} {FL : FaultyFile works WF id} es :
  es ≡ₚ [old_entry] -> table_fits (o := reading_options) (wf_contents := id) StoreCompressor StoreCompressor es.
Proof. intros ->%Permutation_singleton_r. by apply (small_fits _ 114); vm_compute. Qed.

Lemma reading_inv {works : Prop} {WF : WritableFile bytes} {FL : FaultyFile works WF id} b : Z.of_nat b < 2 ^ 63 -> memory_inv_on WF (fun _ => None) b [] [new_entry] [old_entry] Version_new reading_db.
Proof.
  intros Hb. split.
  - split; try (by repeat constructor); try (intros lvl; rewrite Version_new_files; intros ? ?%elem_of_nil; done).
    + split; [by repeat constructor|by apply Forall_singleton|]. exists 0, (mkVNode 0 1 Version_new). done.
    + split; [done|]. intros lvl Hl. rewrite Version_new_files. split; [constructor|]. split; [unfold level_ids; by rewrite Version_new_files|done].
    + intros lvl. rewrite Version_new_files. constructor.
  - apply Version_new_ok.
  - intros n level f ->%list_elem_of_singleton. cbn [vn_version]. rewrite Version_new_files. by intros ?%elem_of_nil.
  - apply memory_ready. lia.
  - done.
  - by intros a ?%elem_of_nil.
  - done.
  - eexists. split; [done|]. by apply memtable_of_repr.
  - by apply memtable_of_repr.
  - rewrite new_version_entries, app_nil_r. intros e e' ->%list_elem_of_singleton ->%list_elem_of_singleton. done.
  - rewrite new_version_entries. by intros e e' _ ?%elem_of_nil.
  - rewrite new_version_entries, app_nil_r. intros e e' He He'. cbn [app] in *. set_unfold. by destruct He as [->|[->|[]]], He' as [->|[->|[]]].
  - intros es Hp _ _. by apply reading_fits.
  - cbn. lia.
Qed.

Lemma reading_answer u s value st value' :
  answer (U := BytewiseComparator) u s ([new_entry] ++ [old_entry] ++ version_entries (table_contents (fun _ => None)) Version_new) value st value' ->
  u = cstr "a" -> 8 <= s -> st = OK /\ value' = cstr "1".
Proof.
  rewrite new_version_entries, app_nil_r. intros [(e & (He & [Hk _] & _) & Ht)|(Hno & _)] -> Hs.
  - apply elem_of_app in He as [->%list_elem_of_singleton| ->%list_elem_of_singleton]; [by vm_compute in Hk|exact Ht].
  - destruct (Hno old_entry); [apply elem_of_app; right; by apply list_elem_of_singleton|]. by split.
Qed.

Lemma get_newest_visible_witness :
  exists db', Get (CO := ListCache) (BC := ListBlocks) StoreCompressor StoreCompressor BytewiseComparator (cstr "db") reading_options (fun _ db => db)
    (mkReadOptions false true None) (cstr "a") [] reading_db = Some (OK, cstr "1", db').
Proof.
  assert (Hi : memory_inv (fun _ => None) 7 [] [new_entry] [old_entry] Version_new reading_db) by by apply reading_inv.
  destruct (get_newest_visible (CO := ListCache) (CL := ListCache_laws) (BC := ListBlocks) (BL := ListBlocks_laws) (BI := ListBlocks_ids)
    (SL := StoreCompressor_laws) (ZL := StoreCompressor_laws) id list_cache_ok list_blocks_hold fst StoreCompressor StoreCompressor
    BytewiseComparator reading_options (cstr "db") eq_refl ltac:(by vm_compute) ltac:(by intros ? ?) (fun _ db => db) (fun _ => None) 0 7 [new_entry] [old_entry] Version_new reading_db 0
    (mkReadOptions false true None) (cstr "a") []) as (st & value' & db' & E1 & Ha).
  - by apply (inv_lsm (wf_contents := id) _ _ _ _ _ []).
  - reflexivity.
  - done.
  - by intros db0 [P1 P2 P3 P4 P5].
  - by vm_compute.
  - by vm_compute.
  - exists db'. destruct (reading_answer _ _ _ _ _ Ha eq_refl ltac:(vm_compute; discriminate)) as [-> ->]. exact E1.
Defined.

Notation compact_memtable WF := (CompactMemTable (WF := WF) (CO := ListCache) (BC := ListBlocks) (ED := empty_directory) StoreCompressor StoreCompressor BytewiseComparator
  (cstr "leveldb.BytewiseComparator") (cstr "db") reading_options (fun _ db => db)).
Notation read_a db := (Get (CO := ListCache) (BC := ListBlocks) StoreCompressor StoreCompressor BytewiseComparator (cstr "db") reading_options (fun _ db => db)
  (mkReadOptions false true (Some 8)) (cstr "a") [] db).

Lemma full_disk_error : (fun db => ok (sh_bg_error (db_shared db))) <$> compact_memtable FullDisk reading_db = Some false.
Proof. vm_compute. reflexivity. Qed.

(** On a disk that works, and on one that is full. *)
Lemma memtable_compaction_keeps_reads_witness :
  (exists db' db'', compact_memtable StringDest reading_db = Some db' /\ read_a db' = Some (OK, cstr "1", db'')) /\
  (exists db' db'', compact_memtable FullDisk reading_db = Some db' /\ ok (sh_bg_error (db_shared db')) = false /\ read_a db' = Some (OK, cstr "1", db'')).
Proof.
  assert (Hsafe : forall (works : Prop) (WF : WritableFile bytes), FaultyFileSystem works WF MemoryRandom MemoryLogs MemoryTables PureFiles id id ->
    exists db' db'', compact_memtable WF reading_db = Some db' /\ read_a db' = Some (OK, cstr "1", db'')).
  { intros works WF FS.
    destruct (memtable_compaction_keeps_reads (ED := empty_directory) (CO := ListCache) (CL := ListCache_laws) (BC := ListBlocks) (BL := ListBlocks_laws) (BI := ListBlocks_ids)
      (SL := StoreCompressor_laws) (ZL := StoreCompressor_laws) works id id (FS := FS) list_cache_ok list_blocks_hold fst StoreCompressor StoreCompressor
      BytewiseComparator reading_options (cstr "leveldb.BytewiseComparator") (cstr "db") eq_refl ltac:(by vm_compute) ltac:(by vm_compute) ltac:(by intros ? ?) (fun _ db => db) 0 0 0 0 8
      (fun _ => None) [] [new_entry] [old_entry] Version_new reading_db) as (db' & sst' & ments' & iments' & v' & E1 & _ & _ & _ & Hread).
    - apply rely_id.
    - apply rely_id.
    - apply rely_id.
    - intros e. reflexivity.
    - by apply (reading_inv (works := works)).
    - by eexists.
    - destruct (Hread (mkReadOptions false true (Some 8)) 8 (cstr "a") []) as (st & value' & db'' & E2 & Ha); [apply Nat.leb_le; reflexivity|reflexivity|split; vm_compute; discriminate|vm_compute; discriminate|vm_compute; reflexivity|].
      exists db', db''. destruct (reading_answer _ _ _ _ _ Ha eq_refl ltac:(vm_compute; discriminate)) as [-> ->]. split; [exact E1|exact E2]. }
  split.
  - apply (Hsafe True). apply _.
  - destruct (Hsafe False FullDisk FullDisk_faulty) as (db' & db'' & E1 & E2). exists db', db''. split; [exact E1|]. split; [|exact E2].
    pose proof full_disk_error as He. rewrite E1 in He. by injection He.
Defined.
