(* ===== verification/DoCompaction.v ===== *)
(** * db/db_impl: the compaction work

    Models [DBImpl::DoCompactionWork] of src/db/db_impl.cc with what it calls, and
    [BackgroundCompaction], [BackgroundCall] and [TEST_CompactRange].  While the
    background thread does not hold the mutex the other threads go on:
    [others n] is what they do at the [n]-th point where they can, and [t] is the
    number of the first such point of an operation. *)

From stdpp Require Import gmap sorting.
From S2P Require Import Prelude Coding Comparator Crc32c DbFormat Status Iterator Block Format TableBuilder Table MemTable.
From S2P Require Import VersionEdit Options Version TableCache BuildTable LogWriter Filename Compaction CompactionDrop InputIterator VersionBuilder VersionSet.
From S2P Require Import DBImpl DBGet Obsolete Recovery InstallEdit CompactMemTable.

(** ** [CompactionState] *)

Record Output := mkOutput { out_number : Z; out_file_size : Z; out_smallest : bytes; out_largest : bytes }.

(** [outfile] is the file of the builder. *)
Record CompactionState {W : Type} := mkCompactionState {
  compaction : Compaction;
  smallest_snapshot : Z;
  outputs : list Output;
  builder : option (TableBuilder W);
  total_bytes : Z;
}.
Arguments CompactionState : clear implicits.

Section CompactionState.
Context {W : Type}.
Implicit Types compact : CompactionState W.

Definition CompactionState_new (c : Compaction) : CompactionState W := mkCompactionState W c 0 [] None 0.

Definition with_compaction (c : Compaction) compact : CompactionState W :=
  mkCompactionState W c (smallest_snapshot compact) (outputs compact) (builder compact) (total_bytes compact).
Definition with_smallest_snapshot (s : Z) compact : CompactionState W :=
  mkCompactionState W (compaction compact) s (outputs compact) (builder compact) (total_bytes compact).
Definition with_outputs (l : list Output) compact : CompactionState W :=
  mkCompactionState W (compaction compact) (smallest_snapshot compact) l (builder compact) (total_bytes compact).
Definition with_builder (b : option (TableBuilder W)) compact : CompactionState W :=
  mkCompactionState W (compaction compact) (smallest_snapshot compact) (outputs compact) b (total_bytes compact).
Definition with_total (n : Z) compact : CompactionState W :=
  mkCompactionState W (compaction compact) (smallest_snapshot compact) (outputs compact) (builder compact) n.

(** [current_output()], and an assignment to it. *)
Definition current_output compact : option Output := last (outputs compact).
Definition update_output (f : Output -> Output) compact : CompactionState W :=
  match current_output compact with
  | Some out => with_outputs (removelast (outputs compact) ++ [f out]) compact
  | None => compact
  end.

Definition has_builder compact : bool := match builder compact with Some _ => true | None => false end.
End CompactionState.

Section DoCompaction.
Context `{CS : Checksum} {E RA W KC H K : Type} {R : RandomAccessFile RA} {WF : WritableFile W}.
Context {LF : LogFiles E W} {EF : EnvFiles E} {ED : EnvDirectory E} {RF : RandomAccessFiles E RA} {TF : TableFiles E W}.
Context {CO : CacheOps KC H (Table RA) TableDeleter} {BC : BlockCache K}.
Variables (Snappy Zstd : Compressor) (C : Comparator) (comparator_name dbname_ : bytes) (options_ : Options).
Notation DBImpl := (DBImpl E W KC K).
Notation CompactionState := (CompactionState W).
Variable others : nat -> DBImpl -> DBImpl.

(** ** The output files *)

(** A full slot of an assertion is [None]. *)
Definition OpenCompactionOutputFile (t : nat) (compact : CompactionState) (db : DBImpl) : option (Status * CompactionState * DBImpl) :=
  if has_builder compact then None
  else
    let db := others t db in
    let '(file_number, versions) := NewFileNumber (db_versions db) in
    let db := with_pending ({[file_number]} ∪ pending_outputs_ db) (with_db_versions versions db) in
    let compact := with_outputs (outputs compact ++ [mkOutput file_number 0 [] []]) compact in
    let db := others (t + 1)%nat db in
    let '(r, env) := NewWritableFile (TableFileName dbname_ file_number) (db_env db) in
    let db := with_db_env env db in
    match r with
    | inl s => Some (s, compact, db)
    | inr file => Some (OK, with_builder (Some (TableBuilder_new options_ file)) compact, db)
    end.

(** [s] is the status of the input. *)
Definition FinishCompactionOutputFile (t : nat) (s : Status) (compact : CompactionState) (db : DBImpl) : option (Status * CompactionState * DBImpl) :=
  let db := others t db in
  b ← builder compact;
  out ← current_output compact;
  if out_number out =? 0 then None
  else
    let current_entries := NumEntries b in
    '(s, b) ← (if ok s then Finish Snappy Zstd b else b ← Abandon b; Some (s, b));
    let current_bytes := FileSize b in
    let compact := update_output (fun out => mkOutput (out_number out) current_bytes (out_smallest out) (out_largest out)) compact in
    let compact := with_builder None (with_total (u64 (total_bytes compact + current_bytes)) compact) in
    let file := r_file b in
    let '(s, file) := if ok s then wf_Sync file else (s, file) in
    let '(s, env) := if ok s then CloseWritableFile (TableFileName dbname_ (out_number out)) file (db_env db) else (s, db_env db) in
    let db := with_db_env env db in
    '(s, tc) ← (if ok s && (0 <? current_entries)
                then verify_table Snappy Zstd dbname_ options_ (FileMetaData_new (out_number out) current_bytes [] []) (table_cache_ db)
                else Some (s, table_cache_ db));
    Some (s, compact, with_table_cache tc db).

(** The status and the state. *)
Definition InstallCompactionResults (t : nat) (compact : CompactionState) (db : DBImpl) : option (Status * DBImpl) :=
  let c := compaction compact in
  let edit := AddInputDeletions c (c_edit c) in
  let edit := fold_left (fun edit out => AddFile edit (Z.of_nat (c_level c + 1)) (out_number out) (out_file_size out) (out_smallest out) (out_largest out))
                (outputs compact) edit in
  '(s, _, db) ← LogAndApply_unlocked C comparator_name dbname_ (others t) edit db;
  Some (s, db).

(** ** The loop *)

Section Loop.
Context {I : Type} {II : Iterator I}.

Record Loop := mkLoop {
  lp_time : nat;
  lp_input : I;
  lp_status : Status;
  lp_drop : DropState;
  lp_compact : CompactionState;
  lp_db : DBImpl;
}.

(** Compaction of the immutable memtable comes first. *)
Definition imm_work (t : nat) (db : DBImpl) : option DBImpl :=
  let db := others t db in
  match db_imm db with
  | None => Some db
  | Some _ =>
      let db := others (t + 1)%nat db in
      match db_imm db with
      | Some _ => CompactMemTable Snappy Zstd C comparator_name dbname_ options_ (fun i => others (t + 2 + i)%nat) db
      | None => Some db
      end
  end.

(** The bounds of the output and the table. *)
Definition add_entry (key value : bytes) (compact : CompactionState) : option CompactionState :=
  b ← builder compact;
  let compact :=
    if NumEntries b =? 0 then update_output (fun out => mkOutput (out_number out) (out_file_size out) key (out_largest out)) compact else compact in
  let compact := update_output (fun out => mkOutput (out_number out) (out_file_size out) (out_smallest out) key) compact in
  b ← Add Snappy Zstd b key value;
  Some (with_builder (Some b) compact).

(** [if (!drop) { ... }] *)
Definition write_entry (t : nat) (s : Status) (key value : bytes) (compact : CompactionState) (db : DBImpl) : option (Status * CompactionState * DBImpl) :=
  '(status, compact, db) ← (if has_builder compact then Some (OK, compact, db) else OpenCompactionOutputFile t compact db);
  if negb (ok status) then Some (status, compact, db)
  else
    compact ← add_entry key value compact;
    b ← builder compact;
    if c_max_output_file_size (compaction compact) <=? FileSize b then FinishCompactionOutputFile (t + 2) s compact db
    else Some (OK, compact, db).

(** One iteration, and whether there is another one. *)
Definition compaction_step (lp : Loop) : option (bool * Loop) :=
  let t := lp_time lp in
  let input := lp_input lp in
  db ← imm_work t (lp_db lp);
  key ← it_key input;
  let '(stop, c) := ShouldStopBefore C (compaction (lp_compact lp)) key in
  let compact := with_compaction c (lp_compact lp) in
  '(status, compact, db) ← (if stop && has_builder compact then FinishCompactionOutputFile (t + 5) (it_status input) compact db else Some (OK, compact, db));
  if negb (ok status) then Some (false, mkLoop (t + 9) input status (lp_drop lp) compact db)
  else
    let '(dropped, ds, c) := drop_decision C (smallest_snapshot compact) (lp_drop lp) (compaction compact) key in
    let compact := with_compaction c compact in
    '(status, compact, db) ← (if (dropped : bool) then Some (OK, compact, db)
                              else value ← it_value input; write_entry (t + 6) (it_status input) key value compact db);
    if negb (ok status) then Some (false, mkLoop (t + 9) input status ds compact db)
    else input ← it_Next input; Some (true, mkLoop (t + 9) input status ds compact db).

(** [None]: out of fuel. *)
Fixpoint compaction_loop (fuel : nat) (lp : Loop) : option Loop :=
  if it_Valid (lp_input lp) && negb (shutting_down_ (db_shared (lp_db lp))) then
    match fuel with
    | O => None
    | S fuel =>
        '(continue, lp) ← compaction_step lp;
        if (continue : bool) then compaction_loop fuel lp else Some lp
    end
  else Some lp.

(** What follows the loop: the status and the state. *)
Definition finish_work (lp : Loop) : option (Status * CompactionState * DBImpl) :=
  let t := lp_time lp in
  let db := others t (lp_db lp) in
  let status := lp_status lp in
  let status := if ok status && shutting_down_ (db_shared db) then IOError (cstr "Deleting DB during compaction") [] else status in
  '(status, compact, db) ← (if ok status && has_builder (lp_compact lp) then FinishCompactionOutputFile (t + 1) (it_status (lp_input lp)) (lp_compact lp) db
                            else Some (status, lp_compact lp, db));
  let status := if ok status then it_status (lp_input lp) else status in
  let db := others (t + 2)%nat db in
  '(status, db) ← (if ok status then InstallCompactionResults (t + 3) compact db else Some (status, db));
  Some (status, compact, if ok status then db else RecordBackgroundError status db).

(** The work on an input: the first snapshot that still counts, the loop, and the end. *)
Definition compaction_work (fuel t : nat) (input : I) (compact : CompactionState) (db : DBImpl) : option (Status * CompactionState * DBImpl) :=
  let snapshots := snapshots_ (db_shared db) in
  smallest ← (if snapshots_empty snapshots then Some (vs_last_sequence (db_versions db)) else sn_sequence <$> oldest snapshots);
  let compact := with_smallest_snapshot smallest compact in
  let db := others t db in
  input ← it_SeekToFirst input;
  lp ← compaction_loop fuel (mkLoop (t + 1) input OK DropState_new compact db);
  finish_work lp.
End Loop.

(** The fuel bounds the entries of the input, and the tables of a level. *)
Definition DoCompactionWork (fuel t : nat) (compact : CompactionState) (db : DBImpl) : option (Status * CompactionState * DBImpl) :=
  let c := compaction compact in
  v ← current (db_versions db);
  if (length (level_files v (c_level c)) =? 0)%nat || has_builder compact then None
  else
    input ← MakeInputIterator (H := H) Snappy Zstd C dbname_ options_ fuel c (table_cache_ db);
    compaction_work (II := Input_Iterator (H := H) Snappy Zstd C dbname_ options_ fuel) fuel t input compact db.

Definition CleanupCompaction (compact : CompactionState) (db : DBImpl) : option DBImpl :=
  let db := with_pending (fold_left (fun pending out => pending ∖ {[out_number out]}) (outputs compact) (pending_outputs_ db)) db in
  match builder compact with
  | Some b => _ ← Abandon b; Some db
  | None => Some db
  end.

(** ** Background work *)

(** [f->...] of the only input moves to the next level. *)
Definition move_edit (c : Compaction) (f : FilePtr) : VersionEdit :=
  AddFile (VersionEdit.RemoveFile (c_edit c) (Z.of_nat (c_level c)) (f_number f)) (Z.of_nat (c_level c + 1)) (f_number f) (f_size f) (f_smallest f) (f_largest f).

Definition with_manual_of (p : Z) (f : ManualCompaction -> ManualCompaction) (db : DBImpl) : option DBImpl :=
  m ← sh_manuals (db_shared db) !! p;
  Some (with_shared (with_manual (manual_compaction_ (db_shared db)) (<[p := f m]> (sh_manuals (db_shared db))) (db_shared db)) db).

Definition set_done (d : bool) (m : ManualCompaction) : ManualCompaction := mkManual (mc_level m) d (mc_begin m) (mc_end m).
Definition set_begin (k : bytes) (m : ManualCompaction) : ManualCompaction := mkManual (mc_level m) (mc_done m) (Some k) (mc_end m).

(** The choice: the compaction, and the end of a manual one. *)
Definition choose_compaction (db : DBImpl) : option (option Compaction * bytes * DBImpl) :=
  v ← current (db_versions db);
  let pointers := o_compact_pointer (vs_objects (db_versions db)) in
  let install r db :=
    match r with
    | None => (None, db)
    | Some (c, pointers) =>
        let o := vs_objects (db_versions db) in
        (Some c, with_db_versions (with_objects (mkObjects pointers (o_next o) (o_seeks o)) (db_versions db)) db)
    end in
  match manual_compaction_ (db_shared db) with
  | Some p =>
      m ← sh_manuals (db_shared db) !! p;
      r ← CompactRange C options_ v pointers (mc_level m) (mc_begin m) (mc_end m);
      let '(c, db) := install r db in
      db ← with_manual_of p (set_done match c with None => true | Some _ => false end) db;
      manual_end ← (match c with None => Some [] | Some c => f_largest <$> last (c_inputs0 c) end);
      Some (c, manual_end, db)
  | None =>
      r ← PickCompaction C options_ v pointers;
      let '(c, db) := install r db in
      Some (c, [], db)
  end.

(** What is left of a manual compaction. *)
Definition finish_manual (status : Status) (manual_end : bytes) (db : DBImpl) : option DBImpl :=
  p ← manual_compaction_ (db_shared db);
  db ← (if ok status then Some db else with_manual_of p (set_done true) db);
  m ← sh_manuals (db_shared db) !! p;
  db ← (if mc_done m then Some db else with_manual_of p (set_begin manual_end) db);
  Some (with_shared (with_manual None (sh_manuals (db_shared db)) (db_shared db)) db).

(** The compaction of [c], which holds the version at [a]. *)
Definition run_compaction (fuel t : nat) (is_manual : bool) (a : Z) (c : Compaction) (db : DBImpl) : option (Status * DBImpl) :=
  if negb is_manual && IsTrivialMove c then
    f ← c_inputs0 c !! 0%nat;
    '(status, _, db) ← LogAndApply_unlocked C comparator_name dbname_ (others t) (move_edit c f) db;
    let db := if ok status then db else RecordBackgroundError status db in
    db ← Unref_at a db;
    Some (status, db)
  else
    '(status, compact, db) ← DoCompactionWork fuel t (CompactionState_new c) db;
    let db := if ok status then db else RecordBackgroundError status db in
    db ← CleanupCompaction compact db;
    db ← Unref_at a db;
    db ← RemoveObsoleteFiles dbname_ (others (t + 5 + 9 * fuel)%nat) db;
    Some (status, db).

Definition BackgroundCompaction (fuel : nat) (db : DBImpl) : option DBImpl :=
  match db_imm db with
  | Some _ => CompactMemTable Snappy Zstd C comparator_name dbname_ options_ others db
  | None =>
      let is_manual := match manual_compaction_ (db_shared db) with Some _ => true | None => false end in
      '(c, manual_end, db) ← choose_compaction db;
      '(status, db) ← (match c with
                       | None => Some (OK, db)
                       | Some c =>
                           a ← current_ (db_versions db);
                           db ← Ref_at a db;
                           run_compaction fuel 0 is_manual a c db
                       end);
      if is_manual then finish_manual status manual_end db else Some db
  end.

Definition BackgroundCall (fuel : nat) (db : DBImpl) : option DBImpl :=
  if negb (sh_scheduled (db_shared db)) then None
  else
    db ← (if shutting_down_ (db_shared db) then Some db
          else if negb (ok (sh_bg_error (db_shared db))) then Some db
          else BackgroundCompaction fuel db);
    MaybeScheduleCompaction (with_shared (with_scheduled false (db_shared db)) db).

(** ** Manual compactions *)

(** The request. *)
Definition manual_request (level : nat) (begin_key end_key : option bytes) : ManualCompaction :=
  mkManual level false ((fun k => InternalKey k kMaxSequenceNumber kValueTypeForSeek) <$> begin_key) ((fun k => InternalKey k 0 kTypeDeletion) <$> end_key).

(** The loop of the thread that waits at address [p]: [Wait] lets the others go on. *)
Fixpoint manual_loop (fuel t : nat) (p : Z) (db : DBImpl) : option DBImpl :=
  m ← sh_manuals (db_shared db) !! p;
  if negb (mc_done m) && negb (shutting_down_ (db_shared db)) && ok (sh_bg_error (db_shared db)) then
    match fuel with
    | O => None
    | S fuel =>
        db ← (match manual_compaction_ (db_shared db) with
              | None => MaybeScheduleCompaction (with_shared (with_manual (Some p) (sh_manuals (db_shared db)) (db_shared db)) db)
              | Some _ => Some (others t db)
              end);
        manual_loop fuel (t + 1) p db
    end
  else Some db.

Definition TEST_CompactRange (fuel t : nat) (p : Z) (level : nat) (begin_key end_key : option bytes) (db : DBImpl) : option DBImpl :=
  if negb (level + 1 <? kNumLevels)%nat then None
  else
    let sh := db_shared db in
    let db := with_shared (with_manual (manual_compaction_ sh) (<[p := manual_request level begin_key end_key]> (sh_manuals sh)) sh) db in
    db ← manual_loop fuel t p db;
    let sh := db_shared db in
    let manual := if bool_decide (manual_compaction_ sh = Some p) then None else manual_compaction_ sh in
    Some (with_shared (with_manual manual (delete p (sh_manuals sh)) sh) db).
End DoCompaction.
