(* ===== verification/CompactionRun.v ===== *)
(** * db/db_impl: the steps of a compaction

    The invariant through what the loop of DoCompaction.v does: the compaction of
    the immutable memtable, opening an output file and finishing it.  The state
    between the steps is in order, what could be read stays, and the tables that
    are finished stay readable until the version has them.  A file that fails ends
    the work with an error and a state in order. *)

From Stdlib Require Import Sorted.
From stdpp Require Import gmap sorting.
From S2P Require Import Prelude Coding Comparator Crc32c Bloom DbFormat Status Iterator BlockBuilder Block Format FilterBlock TableBuilder Table SkipList MemTable UserView MemIter.
From S2P Require Import VersionEdit Options Version VersionGet Overlap InternalTable TableCache BuildTable LogWriter Filename Compaction CompactionDrop VersionBuilder VersionSet Manifest Install Levels.
From S2P Require Import DBImpl DBGet LSM Obsolete Recovery LogRecovery Invariant InstallEdit Evolve CompactMemTable DoCompaction.

#[local] Notation table_id := (Z * Z * bytes * bytes)%type.

Lemma nonempty_ends {A} (l : list A) : l <> [] -> exists x y, l !! 0%nat = Some x /\ last l = Some y.
Proof. destruct l as [|x l]; [done|]. intros _. destruct (last (x :: l)) as [y|] eqn:E; [by exists x, y|]. by apply last_None in E. Qed.

(** What the tables and memtables hold. *)
Record Ghost := mkGhost { g_sst : Z -> option TableImage; g_ments : list Entry; g_iments : list Entry; g_v : Version }.

Section Run.
Context `{CS : Checksum} {E RA W KC H K : Type} {R : RandomAccessFile RA} {WF : WritableFile W}.
Context {LF : LogFiles E W} {EF : EnvFiles E} {EFL : EnvFilesLaws E} {ED : EnvDirectory E} {RF : RandomAccessFiles E RA} {TF : TableFiles E W}.
Context {works : Prop} {raf_contents : RA -> bytes} {RL : RandomAccessFileLaws R raf_contents} {wf_contents : W -> bytes}.
Context {FS : FaultyFileSystem works WF RF LF TF EF raf_contents wf_contents}.
Context {CO : CacheOps KC H (Table RA) TableDeleter} {c_ok : nat -> (bytes -> Table RA -> Prop) -> list H -> KC -> Prop} {CL : CacheLaws CO c_ok}.
Context {BC : BlockCache K} {bc_holds : K -> bytes -> Block -> Prop} {BL : BlockCacheLaws BC bc_holds} {bc_next : K -> Z} {BI : BlockCacheIds BC bc_next}.
Context (Snappy Zstd : Compressor) {SL : CompressorLaws Snappy} {ZL : CompressorLaws Zstd}.
Context {U : Comparator} {UL : ComparatorLaws U} {o : Options} (comparator_name dbname : bytes).
Context (Hcmp : comparator o = InternalKeyComparator U) (Hinterval : 1 <= block_restart_interval o) (Hsize : 0 <= max_file_size o <= 2 ^ 30).
Context (Hfilter : forall name P, filter_policy o = Some (name, P) ->
  exists P0, P = InternalFilterPolicy P0 /\ FilterPolicyLaws P0 /\ zlen name < 2 ^ 31 /\ forall a b, Compare (Comparator := U) a b = Eq -> a = b).
Notation DB := (DBImpl E W KC K).
Notation ready := (cache_ready (raf_contents := raf_contents) (c_ok := c_ok) (bc_holds := bc_holds) (bc_next := bc_next) Snappy Zstd (U := U) (o := o)).
Notation has_table := (has_table (raf_contents := raf_contents) Snappy Zstd (U := U) (o := o) dbname).
Notation inv := (inv (raf_contents := raf_contents) (wf_contents := wf_contents) (c_ok := c_ok) (bc_holds := bc_holds) (bc_next := bc_next) Snappy Zstd (U := U) (o := o) dbname).
Notation evolves := (evolves (raf_contents := raf_contents) Snappy Zstd (U := U) (o := o) dbname).
Notation relied := (rely (raf_contents := raf_contents) (wf_contents := wf_contents) (c_ok := c_ok) (bc_holds := bc_holds) (bc_next := bc_next) Snappy Zstd (U := U) (o := o) dbname).
Notation table_fits := (table_fits (o := o) (wf_contents := wf_contents) Snappy Zstd).
Notation next db := (vs_next_file_number (db_versions db)).
Implicit Types (db : DB) (g : Ghost).

Definition good (b : nat) (held : list Z) g db : Prop := inv (g_sst g) b held (g_ments g) (g_iments g) (g_v g) db.

(** Tables numbered from [lim] on may come and go, those of the version and those
    among the pending outputs stay. *)
Definition goes (lim : Z) g db g' db' : Prop :=
  evolves lim lim (g_sst g) (g_ments g) (g_iments g) (g_v g) db (g_sst g') (g_ments g') (g_iments g') (g_v g') db'.

Lemma good_le b b' held g db : (b' <= b)%nat -> good b held g db -> good b' held g db.
Proof. intros Hle Hg. by apply (inv_le Snappy Zstd dbname _ b' b). Qed.

Lemma goes_lim lim lim' g db g' db' : lim' <= lim -> goes lim g db g' db' -> goes lim' g db g' db'.
Proof. intros Hle H1. eapply evolves_lo; [exact Hle|]. by eapply evolves_lim. Qed.

Lemma goes_next lim g db g' db' : goes lim g db g' db' -> next db <= next db'.
Proof. apply ev_next. Qed.

Lemma goes_trans lim b b1 b2 held held1 held2 g db g1 db1 g2 db2 :
  lim <= next db -> good b held g db -> good b1 held1 g1 db1 -> good b2 held2 g2 db2 -> goes lim g db g1 db1 -> goes (next db1) g1 db1 g2 db2 -> goes lim g db g2 db2.
Proof.
  intros Hlim Hg Hg1 Hg2 H1 H2. pose proof (goes_next _ _ _ _ _ H1) as Hn. eapply evolves_trans; [done|exact Hg|exact Hg1|exact Hg2|exact H1|].
  apply (goes_lim (next db1)); [lia|exact H2].
Qed.

(** *** What the other threads do *)

Lemma others_goes others c b held g db : relied c others -> good (c + b) held g db ->
  exists g', g_sst g' = g_sst g /\ good b held g' (others db) /\ goes (next db) g db g' (others db).
Proof.
  intros Hr Hg. destruct (Hr _ _ _ _ _ _ _ Hg) as (ments' & iments' & v' & Hg' & Hm). exists (mkGhost (g_sst g) ments' iments' v'). split; [done|]. split; [exact Hg'|].
  by apply evolves_moved.
Qed.

(** *** The immutable memtable first *)

Lemma imm_work_spec (others : nat -> DB -> DB) t c m b held g db :
  (forall n, relied c (others n)) -> (forall e : E, (length (GetChildren dbname e).2 <= m)%nat) -> good (5 * c + m + 1 + b) held g db ->
  exists g' db', imm_work Snappy Zstd U comparator_name dbname o others t db = Some db' /\ good b held g' db' /\ goes (next db) g db g' db'.
Proof.
  intros Hr Hm Hg. unfold imm_work.
  destruct (others_goes (others t) c (4 * c + m + 1 + b) held g db (Hr t)) as (g1 & _ & Hg1 & E1); [eapply good_le; [|exact Hg]; lia|].
  set (db1 := others t db) in *. destruct (db_imm db1) as [imm0|].
  2: { exists g1, db1. split; [done|]. split; [|exact E1]. eapply good_le; [|exact Hg1]. lia. }
  destruct (others_goes (others (t + 1)%nat) c (3 * c + m + 1 + b) held g1 db1 (Hr (t + 1)%nat)) as (g2 & _ & Hg2 & E2); [eapply good_le; [|exact Hg1]; lia|].
  set (db2 := others (t + 1)%nat db1) in *. pose proof (goes_trans _ _ _ _ _ _ _ _ _ _ _ _ _ (Z.le_refl _) Hg Hg1 Hg2 E1 E2) as E12. destruct (db_imm db2) as [imm|] eqn:Eimm.
  2: { exists g2, db2. split; [done|]. split; [|exact E12]. eapply good_le; [|exact Hg2]. lia. }
  destruct (CompactMemTable_spec Snappy Zstd comparator_name dbname Hcmp Hinterval Hfilter (fun i => others (t + 2 + i)%nat) c c c m (next db2) (g_sst g2) b held (g_ments g2) (g_iments g2) (g_v g2) db2 imm)
    as (db' & sst' & ments' & iments' & v' & Ec & Hi & Ev & _); try done.
  { eapply good_le; [|exact Hg2]. lia. }
  exists (mkGhost sst' ments' iments' v'), db'. split; [exact Ec|]. split; [exact Hi|]. eapply goes_trans; [done|exact Hg|exact Hg2|exact Hi|exact E12|exact Ev].
Qed.

(** *** The output files *)

(** File [n] is taken, and no table of the version. *)
Record taken (lo : Z) g db (n : Z) : Prop := {
  tk_range : lo <= n < next db;
  tk_pending : n ∈ pending_outputs_ db;
  tk_free : forall lvl i, i ∈ level_ids (g_v g) lvl -> id_number i <> n;
}.

Definition out_meta (out : Output) : FileMetaData := FileMetaData_new (out_number out) (out_file_size out) (out_smallest out) (out_largest out).

(** The file of [out] is a table of [es]. *)
Record finished (lo : Z) g db (out : Output) (es : list Entry) : Prop := {
  fi_taken : taken lo g db (out_number out);
  fi_table : table_of (U := U) (g_sst g) (out_number out) es (out_meta out);
  fi_there : has_table (g_sst g) (table_cache_ db) (out_number out) (out_file_size out) es;
}.

(** The table of [out] is being built, and [es] are its entries so far. *)
Record writing (lo : Z) g db (out : Output) (b : TableBuilder W) (es : list Entry) : Prop := {
  wr_taken : taken lo g db (out_number out);
  wr_new : g_sst g (out_number out) = None;
  wr_builder : exists w, wf_contents w = [] /\ add_entries Snappy Zstd (TableBuilder_new o w) (map entry_kv es) = Some b;
  wr_smallest : forall e, es !! 0%nat = Some e -> out_smallest out = entry_ikey e;
  wr_largest : forall e, last es = Some e -> out_largest out = entry_ikey e;
}.

Lemma taken_goes lim lo b held g db b' held' g' db' n : good b held g db -> good b' held' g' db' -> goes lim g db g' db' -> n < lim -> taken lo g db n -> taken lo g' db' n.
Proof.
  intros Hg Hg' [E1 E2 E3 E4 E5 E6 (N & H1 & H2) E8] Hlim [T1 T2 T3]. split; [lia|by apply E5|]. intros lvl i Hi.
  assert (Hl : (lvl < kNumLevels)%nat).
  { pose proof Hi as (f & Hf & _)%level_ids_elem. by eapply (inv_level Snappy Zstd dbname (g_sst g') b' held'). }
  apply H1 in Hi as [Hi|Hi]; [by apply (T3 lvl)| |done]. destruct (H2 lvl i Hl Hi) as (J1 & _). lia.
Qed.

Lemma finished_goes lim lo b held g db b' held' g' db' out es :
  good b held g db -> good b' held' g' db' -> goes lim g db g' db' -> out_number out < lim -> finished lo g db out es -> finished lo g' db' out es.
Proof.
  intros Hg Hg' He Hlim [T1 T2 T3]. pose proof (taken_goes _ _ _ _ _ _ _ _ _ _ _ Hg Hg' He Hlim T1) as T1'. destruct He as [E1 E2 E3 E4 E5 E6 E7 E8]. destruct T1 as [T4 T5 _].
  split; [done| |by apply E6]. destruct T2 as (A1 & A2 & A3 & A4 & A5 & A6 & i & A7 & A8). do 6 (split; [done|]). exists i. split; [rewrite E1; [done|by left]|done].
Qed.

Lemma writing_goes lim lo b held g db b' held' g' db' out tb es :
  good b held g db -> good b' held' g' db' -> goes lim g db g' db' -> out_number out < lim -> writing lo g db out tb es -> writing lo g' db' out tb es.
Proof.
  intros Hg Hg' He Hlim [T1 T2 T3 T4 T5]. pose proof (taken_goes _ _ _ _ _ _ _ _ _ _ _ Hg Hg' He Hlim T1) as T1'. split; try done.
  rewrite (ev_sst _ _ _ _ _ _ _ _ _ _ _ _ _ _ _ He); [done|by left].
Qed.

(** A number without a table is not in the version. *)
Lemma unused_free b held g db n : good b held g db -> g_sst g n = None -> forall lvl i, i ∈ level_ids (g_v g) lvl -> id_number i <> n.
Proof.
  intros Hg Hn lvl i (f & Hf & ->)%level_ids_elem <-. destruct (current_in Snappy Zstd dbname _ _ _ _ _ _ _ Hg) as (a & nd & _ & _ & Hnd & Ev).
  rewrite <- Ev in Hf. destruct (iv_live _ _ _ _ _ _ _ _ _ _ Hg nd lvl f Hnd Hf) as ((_ & i & _ & Hi & _) & _). change (id_number (file_id (f_meta f))) with (f_number f) in Hn. congruence.
Qed.

(** What an error leaves to clean up: the builder, if there is one, may be abandoned. *)
Definition stopped (s : Status) (compact : CompactionState W) : Prop := ok s = false /\ forall tb, builder compact = Some tb -> closed tb = false.

(** A file without a table may change. *)
Lemma new_file_goes b held g db n e :
  good b held g db -> g_sst g n = None -> 0 <= n < 2 ^ 64 -> (forall f, f <> TableFileName dbname n -> contents e f = contents (db_env db) f) ->
  good b held g (with_db_env e db) /\ goes (next db) g db g (with_db_env e db).
Proof.
  intros Hg Hn Hr He.
  assert (Hpath : forall k path, k <> n -> 0 <= k < 2 ^ 64 -> path ∈ [TableFileName dbname k; SSTTableFileName dbname k] -> contents e path = contents (db_env db) path).
  { intros k path Hne Hk Hp. apply He. rewrite !elem_of_cons in Hp. destruct Hp as [->|[->|[]%elem_of_nil]]; [by intros ?%TableFileName_inj; lia|].
    intros Hx. exact (Table_not_SST dbname n k Hr Hk (eq_sym Hx)). }
  split.
  - apply inv_env; [exact Hg|]. intros nd level f path Hnd Hf Hk Hp. apply (Hpath (f_number f)); [|done|done]. intros Eq.
    destruct (iv_live _ _ _ _ _ _ _ _ _ _ Hg nd level f Hnd Hf) as ((_ & i & _ & Hi & _) & _). congruence.
  - apply evolves_same; try done. intros k size es Hk _ Ht. pose proof Ht as (Hk0 & i & _ & Hi & _). assert (Hne : k <> n) by congruence.
    apply (has_table_frame Snappy Zstd dbname (g_sst g) _ _ _ _ e) in Ht; [exact Ht| |]; apply (Hpath k); done || (rewrite !elem_of_cons; auto).
Qed.

Lemma building_goes b held g db : good (S b) held g db -> good b held g (building db) /\ goes (next db) g db g (building db).
Proof.
  intros Hg. split; [by apply building_inv|]. apply evolves_same; try done.
  - cbn. lia.
  - intros k _ Hk. cbn. by apply elem_of_union_r.
Qed.

Lemma OpenCompactionOutputFile_spec (others : nat -> DB -> DB) t c b held g db compact lo :
  (forall n, relied c (others n)) -> good (2 * c + 1 + b) held g db -> has_builder compact = false -> lo <= next db ->
  exists s compact' g' db', OpenCompactionOutputFile dbname o others t compact db = Some (s, compact', db') /\ good b held g' db' /\ goes (next db) g db g' db' /\
    if ok s then exists out w, s = OK /\ compact' = with_builder (Some (TableBuilder_new o w)) (with_outputs (outputs compact ++ [out]) compact) /\
      writing lo g' db' out (TableBuilder_new o w) [] /\ next db <= out_number out
    else stopped s compact'.
Proof.
  intros Hr Hg Hb Hlo. unfold OpenCompactionOutputFile. rewrite Hb.
  destruct (others_goes (others t) c (S (c + b)) held g db (Hr t)) as (g1 & _ & Hg1 & E1); [eapply good_le; [|exact Hg]; lia|].
  set (db1 := others t db) in *. set (n := next db1).
  pose proof (iv_room _ _ _ _ _ _ _ _ _ _ Hg1) as Hroom. destruct (ma_numbers _ _ _ (iv_managed _ _ _ _ _ _ _ _ _ _ Hg1)) as ([N1 _] & _). fold n in Hroom, N1.
  destruct (building_goes _ _ _ _ Hg1) as [Hg2 E2]. cbn [NewFileNumber]. fold n. rewrite u64_small by lia. change (with_pending ({[n]} ∪ _) _) with (building db1).
  destruct (others_goes (others (t + 1)%nat) c b held g1 (building db1) (Hr (t + 1)%nat) Hg2) as (g3 & Es3 & Hg3 & E3). set (db3 := others (t + 1)%nat (building db1)) in *.
  destruct (NewWritableFile (TableFileName dbname n) (db_env db3)) as [res e] eqn:Enew. apply ff_new in Enew as [He Hres].
  assert (Hn1 : g_sst g1 n = None) by (apply (iv_fresh _ _ _ _ _ _ _ _ _ _ Hg1); unfold n; lia).
  assert (Hn3 : g_sst g3 n = None) by by rewrite Es3.
  assert (Hn : 0 <= n < 2 ^ 64) by lia. destruct (new_file_goes b held g3 db3 n e Hg3 Hn3 Hn He) as [Hg4 E4].
  pose proof (goes_trans _ _ _ _ _ _ _ _ _ _ _ _ _ (Z.le_refl _) Hg1 Hg2 Hg3 E2 E3) as E23. pose proof (goes_trans _ _ _ _ _ _ _ _ _ _ _ _ _ (Z.le_refl _) Hg Hg1 Hg3 E1 E23) as E13.
  assert (E14 : goes (next db) g db g3 (with_db_env e db3)) by (eapply goes_trans; [done|exact Hg|exact Hg3|exact Hg4|exact E13|exact E4]).
  destruct res as [s|w].
  { destruct Hres as [Es _]. eexists s, _, g3, (with_db_env e db3). split; [done|]. split; [exact Hg4|]. split; [exact E14|]. rewrite Es. split; [exact Es|].
    intros tb Etb. cbn [builder with_outputs] in Etb. unfold has_builder in Hb. by rewrite Etb in Hb. }
  eexists OK, _, g3, (with_db_env e db3). split; [done|]. split; [exact Hg4|]. split; [exact E14|]. cbn [ok]. exists (mkOutput n 0 [] []), w. split; [done|]. split; [done|].
  pose proof (ev_next _ _ _ _ _ _ _ _ _ _ _ _ _ _ _ E1) as Hn01. fold n in Hn01. split; [|exact Hn01]. split; try done.
  - split; cbn [out_number].
    + pose proof (ev_next _ _ _ _ _ _ _ _ _ _ _ _ _ _ _ E3) as Hn23. change (next (building db1)) with (n + 1) in Hn23. change (next (with_db_env e db3)) with (next db3). lia.
    + change (pending_outputs_ (with_db_env e db3)) with (pending_outputs_ db3). apply (ev_pending _ _ _ _ _ _ _ _ _ _ _ _ _ _ _ E3); [change (next (building db1)) with (n + 1); lia|].
      cbn. fold n. set_solver.
    + by eapply unused_free.
  - by exists w.
Qed.

(** A table is there: nothing else changes. *)
Lemma new_table_goes b b' held g db n i tc :
  good b held g db -> g_sst g n = None -> 0 <= n < next db -> (forall f, f <> TableFileName dbname n -> contents (tcs_env tc) f = contents (db_env db) f) ->
  ready (add_sst (g_sst g) n i) b' tc -> (b' <= b)%nat ->
  let g' := mkGhost (add_sst (g_sst g) n i) (g_ments g) (g_iments g) (g_v g) in
  good b' held g' (with_table_cache tc db) /\ goes n g db g' (with_table_cache tc db).
Proof.
  intros Hg Hno Hn He Hr Hb g'. assert (Hs : forall k, k <> n -> add_sst (g_sst g) n i k = g_sst g k) by (intros k Hk; unfold add_sst; by rewrite decide_False).
  destruct (new_table_inv Snappy Zstd dbname _ _ n b b' held _ _ _ db tc Hg Hno Hn Hs He Hr Hb) as (Hg' & Ev & Ht). split; [exact Hg'|]. split; try done; cbn [g' g_sst g_ments g_iments g_v].
  - intros k [Hk|[? Hk]]; apply Hs; [lia|]. intros ->. congruence.
  - exists []. split; [by intros ? ? ?%elem_of_nil|]. split; [done|]. intros e. by rewrite Ev.
  - intros k size es _ _. destruct tc. apply Ht.
  - exists (fun _ => []). split; [|by intros ? ? _ ?%elem_of_nil]. intros lvl j _. split; [by left|]. by intros [?|?%elem_of_nil].
Qed.

Lemma FinishCompactionOutputFile_spec (others : nat -> DB -> DB) t c b held g db compact lo outs out tb es :
  (forall n, relied c (others n)) -> good (c + S b) held g db -> builder compact = Some tb -> outputs compact = outs ++ [out] ->
  writing lo g db out tb es -> 0 < lo -> es <> [] -> Forall entry_ok es -> entries_sorted U es -> table_fits es ->
  exists s compact' g' db', FinishCompactionOutputFile Snappy Zstd dbname o others t OK compact db = Some (s, compact', db') /\
    good b held g' db' /\ goes (out_number out) g db g' db' /\
    if ok s then exists out' total, s = OK /\ compact' = with_builder None (with_total total (with_outputs (outs ++ [out']) compact)) /\
      finished lo g' db' out' es /\ out_number out' = out_number out
    else stopped s compact'.
Proof.
  intros Hr Hg Eb Eo Hw Hlo Hne Hok Hs Hfit. unfold FinishCompactionOutputFile.
  destruct (others_goes (others t) c (S b) held g db (Hr t) Hg) as (g1 & _ & Hg1 & E1). set (db1 := others t db) in *.
  set (n := out_number out) in *. assert (Hn : lo <= n < next db) by apply Hw.
  pose proof (writing_goes (next db) _ _ _ _ _ _ _ _ _ _ _ _ Hg Hg1 E1 (proj2 Hn) Hw) as [T1 T2 (w & Hw0 & Ea) T4 T5]. fold n in T1, T2.
  rewrite Eb. cbn [mbind option_bind]. unfold current_output. rewrite Eo, last_snoc. cbn [mbind option_bind]. fold n. rewrite (proj2 (Z.eqb_neq n 0)) by lia. cbn [ok].
  pose proof (iv_room _ _ _ _ _ _ _ _ _ _ Hg1) as Hroom. destruct T1 as [K1 K2 K3].
  destruct (finish_table Snappy Zstd dbname Hcmp Hinterval Hfilter (FileMetaData_new n 0 [] []) es (g_sst g1) b (table_cache_ db1) w)
    as (r & s & r' & Ea' & _ & Efin & Htail); try done.
  { cbn. lia. }
  { exact (iv_ready _ _ _ _ _ _ _ _ _ _ Hg1). }
  cbn [number FileMetaData_new] in *. rewrite Ea in Ea'. injection Ea' as <-. rewrite Efin. cbn [mbind option_bind]. unfold update_output, current_output. rewrite Eo, last_snoc, removelast_last.
  change (db_env db1) with (tcs_env (table_cache_ db1)). destruct (if ok s then _ else _) as [s1 w'] eqn:Es1 in Htail. rewrite Es1. destruct (if ok s1 then _ else _) as [s2 e'] eqn:Es2 in Htail. rewrite Es2.
  destruct Htail as (Henv & Hsz & Hres). destruct (ok s2) eqn:Eok; cbn [andb].
  - destruct Hres as (Es & tc' & i & Ever & Eenv & Hr' & Ht). destruct (Hsz Es) as [Ecount Hz]. rewrite Ecount, (proj2 (Z.ltb_lt 0 (zlen es))) by (destruct es; [done|unfold zlen; cbn; lia]).
    change (FileMetaData_new n (FileSize r') [] []) with (with_size (FileSize r') (FileMetaData_new n 0 [] [])).
    change (table_cache_ (with_db_env e' db1)) with (with_tcs_env e' (table_cache_ db1)). rewrite Ever. cbn [mbind option_bind].
    destruct (new_table_goes (S b) b held g1 db1 n i tc' Hg1 T2 ltac:(lia) ltac:(by rewrite Eenv) Hr' ltac:(lia)) as [Hg2 E2]. change (with_table_cache tc' (with_db_env e' db1)) with (with_table_cache tc' db1).
    eexists OK, _, _, _. split; [done|]. split; [exact Hg2|]. split; [|cbn [ok]].
    + eapply evolves_trans; [|exact Hg|exact Hg1|exact Hg2|eapply (goes_lim (next db)); [|exact E1]|exact E2]; lia.
    + eexists (mkOutput n (FileSize r') (out_smallest out) (out_largest out)), _. do 2 (split; [done|]). split; [|done]. split; cbn [out_number out_file_size].
      * split; [exact K1|exact K2|exact K3].
      * split; [done|]. split; [exact Hz|]. split; [exact Hok|]. split; [exact Hs|]. cbn [out_meta smallest largest FileMetaData_new out_smallest out_largest].
        destruct (nonempty_ends es Hne) as (e0 & el & H0 & Hl). split; [exists e0; split; [done|by apply T4]|]. split; [exists el; split; [done|by apply T5]|].
        destruct Ht as (_ & i' & f & Hi' & _ & Hes & _). by exists i'.
      * destruct tc'. exact Ht.
  - cbn [mbind option_bind]. destruct (new_file_goes (S b) held g1 db1 n e' Hg1 T2 ltac:(lia) Henv) as [Hg2 E2].
    eexists s2, _, g1, (with_db_env e' db1). split; [done|]. split; [eapply good_le; [|exact Hg2]; lia|]. split; [|rewrite Eok; by split].
    eapply evolves_trans; [|exact Hg|exact Hg1|exact Hg2|eapply (goes_lim (next db)); [|exact E1]|eapply (goes_lim (next db1)); [|exact E2]]; lia.
Qed.
End Run.
