(* ===== verification/CompactionLoop.v ===== *)
(** * db/db_impl: the loop of a compaction

    After [i] entries of the input the output files hold what the reference of
    CompactionDrop.v keeps of those [i] entries, cut into tables in order; the loop
    ends at the end of the input, when the database shuts down, or with the error of
    a file that failed, and then nothing is installed. *)

From Stdlib Require Import Sorted.
From stdpp Require Import gmap sorting.
From S2P Require Import Prelude Coding Comparator Crc32c Bloom DbFormat Status Iterator BlockBuilder Block Format FilterBlock TableBuilder Table SkipList MemTable UserView MemIter.
From S2P Require Import VersionEdit Options Version VersionGet Overlap InternalTable TableCache BuildTable LogWriter Filename Compaction CompactionDrop VersionBuilder VersionSet Manifest Install Levels.
From S2P Require Import DBImpl DBGet LSM Obsolete Recovery LogRecovery Invariant InstallEdit Evolve CompactMemTable DoCompaction CompactionRun.


Section Loop.
Context `{CS : Checksum} {E RA W KC H K : Type} {R : RandomAccessFile RA} {WF : WritableFile W}.
Context {LF : LogFiles E W} {EF : EnvFiles E} {EFL : EnvFilesLaws E} {ED : EnvDirectory E} {RF : RandomAccessFiles E RA} {TF : TableFiles E W}.
Context {works : Prop} {raf_contents : RA -> bytes} {RL : RandomAccessFileLaws R raf_contents} {wf_contents : W -> bytes}.
Context {FS : FaultyFileSystem works WF RF LF TF EF raf_contents wf_contents}.
Context {CO : CacheOps KC H (Table RA) TableDeleter} {c_ok : nat -> (bytes -> Table RA -> Prop) -> list H -> KC -> Prop} {CL : CacheLaws CO c_ok}.
Context {BC : BlockCache K} {bc_holds : K -> bytes -> Block -> Prop} {BL : BlockCacheLaws BC bc_holds} {bc_next : K -> Z} {BI : BlockCacheIds BC bc_next}.
Context (Snappy Zstd : Compressor) {SL : CompressorLaws Snappy} {ZL : CompressorLaws Zstd}.
Context {U : Comparator} {UL : ComparatorLaws U} {o : Options} (comparator_name dbname : bytes).
Context (Hcmp : comparator o = InternalKeyComparator U) (Hinterval : 1 <= block_restart_interval o) (Hsize : 0 <= max_file_size o <= 2 ^ 30).
Context (Hfilter : forall name P, filter_policy o = Some (name, P) ->
  exists P0, P = InternalFilterPolicy P0 /\ FilterPolicyLaws P0 /\ zlen name < 2 ^ 31 /\ forall a b, Compare (Comparator := U) a b = Eq -> a = b).
Notation DB := (DBImpl E W KC K).
Notation ready := (cache_ready (raf_contents := raf_contents) (c_ok := c_ok) (bc_holds := bc_holds) (bc_next := bc_next) Snappy Zstd (U := U) (o := o)).
Notation has_table := (has_table (raf_contents := raf_contents) Snappy Zstd (U := U) (o := o) dbname).
Notation inv := (inv (raf_contents := raf_contents) (wf_contents := wf_contents) (c_ok := c_ok) (bc_holds := bc_holds) (bc_next := bc_next) Snappy Zstd (U := U) (o := o) dbname).
Notation evolves := (evolves (raf_contents := raf_contents) Snappy Zstd (U := U) (o := o) dbname).
Notation relied := (rely (raf_contents := raf_contents) (wf_contents := wf_contents) (c_ok := c_ok) (bc_holds := bc_holds) (bc_next := bc_next) Snappy Zstd (U := U) (o := o) dbname).
Notation table_fits := (table_fits (o := o) (wf_contents := wf_contents) Snappy Zstd).
Notation next db := (vs_next_file_number (db_versions db)).
Notation good := (good (raf_contents := raf_contents) (wf_contents := wf_contents) (c_ok := c_ok) (bc_holds := bc_holds) (bc_next := bc_next) Snappy Zstd (U := U) (o := o) dbname).
Notation goes := (goes (raf_contents := raf_contents) Snappy Zstd (U := U) (o := o) dbname).
Notation finished := (finished (raf_contents := raf_contents) Snappy Zstd (U := U) (o := o) dbname).
Notation writing := (writing (wf_contents := wf_contents) Snappy Zstd (o := o)).
Notation IC := (InternalKeyComparator U).
Implicit Types (db : DB) (g : Ghost).

(** The compaction [c0] starts in the state [g0], [db0]; [es] is its input, [snap] the
    smallest snapshot. *)
Context (g0 : Ghost) (db0 : DB) (b0 : nat) (held : list Z) (good0 : good b0 held g0 db0).
Context (c0 : Compaction) (snap : Z) (es : list Entry).
Notation v0 := (c_input_version c0).
Notation lo := (next db0).
Notation kept := (kept_from (C := U) v0 (c_level c0) snap []).

(** *** The state between two entries *)

(** What the loop leaves of a compaction. *)
Record same_task (c c' : Compaction) : Prop := {
  st_level : c_level c' = c_level c;
  st_version : c_input_version c' = c_input_version c;
  st_edit : c_edit c' = c_edit c;
  st_inputs0 : c_inputs0 c' = c_inputs0 c;
  st_inputs1 : c_inputs1 c' = c_inputs1 c;
}.

(** The outputs: finished tables [outs], and the entries [cur] of the one that is open. *)
Record holds_outputs g db (compact : CompactionState W) (outs : list (Output * list Entry)) (cur : list Entry) : Prop := {
  ho_finished : Forall (fun p => finished lo g db p.1 p.2) outs;
  ho_increasing : StronglySorted Z.lt (map out_number (outputs compact));
  ho_open : match builder compact with
            | None => outputs compact = map fst outs /\ cur = []
            | Some tb => exists out, outputs compact = map fst outs ++ [out] /\ writing lo g db out tb cur
            end;
}.

Record working g db (ds : DropState) (compact : CompactionState W) (i : nat) : Prop := {
  wk_task : same_task c0 (compaction compact);
  wk_snap : smallest_snapshot compact = snap;
  wk_drop : drop_inv (C := U) (take i es) ds;
  wk_ptrs : forall e, es !! i = Some e -> ptrs_ok (C := U) (compaction compact) (e_user_key e);
  wk_outputs : exists outs cur, holds_outputs g db compact outs cur /\ (has_builder compact = true -> cur <> []) /\
    concat (map snd outs) ++ cur = kept (take i es);
}.

(** The state [g], [db] came from the start. *)
Definition here (b : nat) g db : Prop := good b held g db /\ goes lo g0 db0 g db.

Lemma here_goes b b' lim g db g' db' : here b g db -> good b' held g' db' -> lo <= lim -> goes lim g db g' db' -> here b' g' db'.
Proof.
  intros [Hg He] Hg' Hl He'. split; [done|]. eapply evolves_trans; [done|exact good0|exact Hg|exact Hg'|exact He|]. by eapply goes_lim.
Qed.

Lemma here_le b b' g db : (b' <= b)%nat -> here b g db -> here b' g db.
Proof. intros Hle [Hg He]. split; [by eapply good_le|done]. Qed.

Lemma lo_positive : 0 < lo.
Proof.
  destruct (iv_log _ _ _ _ _ _ _ _ _ _ good0) as [H1 H2]. destruct (ma_numbers _ _ _ (iv_managed _ _ _ _ _ _ _ _ _ _ good0)) as (_ & _ & N3 & _).
  unfold in_u64 in N3. lia.
Qed.

(** *** The outputs *)

Lemma holds_numbers g db compact outs cur out : holds_outputs g db compact outs cur -> out ∈ outputs compact -> lo <= out_number out < next db.
Proof.
  intros [H1 H2 H3] Hin. assert (Hf : out ∈ map fst outs -> lo <= out_number out < next db).
  { intros (p & -> & Hp)%list_elem_of_fmap. rewrite Forall_forall in H1. apply (H1 p Hp). }
  destruct (builder compact) as [tb|]; [|destruct H3 as [E0 _]; rewrite E0 in Hin; auto].
  destruct H3 as (x & E0 & Hw). rewrite E0 in Hin. apply elem_of_app in Hin as [Hin| ->%list_elem_of_singleton]; [auto|]. apply Hw.
Qed.

Lemma increasing_snoc l x : StronglySorted Z.lt (l ++ [x]) <-> StronglySorted Z.lt l /\ forall y, y ∈ l -> y < x.
Proof.
  rewrite StronglySorted_app. split.
  - intros (H1 & H2 & _). split; [done|]. intros y Hy. apply H1; [done|by left].
  - intros [H1 H2]. split; [intros y z Hy ->%list_elem_of_singleton; auto|]. split; [done|]. by repeat constructor.
Qed.

Lemma holds_goes b b' g db g' db' compact outs cur :
  good b held g db -> good b' held g' db' -> goes (next db) g db g' db' -> holds_outputs g db compact outs cur -> holds_outputs g' db' compact outs cur.
Proof.
  intros Hg Hg' He Hh. pose proof Hh as [H1 H2 H3]. assert (Hf : Forall (fun p => finished lo g' db' p.1 p.2) outs).
  { eapply Forall_impl; [exact H1|]. intros p Hp. eapply finished_goes; [exact Hg|exact Hg'|exact He|apply Hp|exact Hp]. }
  split; [done|done|]. destruct (builder compact) as [tb|]; [|done]. destruct H3 as (out & E0 & Hw). exists out. split; [done|].
  eapply writing_goes; [exact Hg|exact Hg'|exact He|apply Hw|exact Hw].
Qed.

Lemma holds_open b b' g db g' db' compact outs out tb :
  good b held g db -> good b' held g' db' -> goes (next db) g db g' db' -> holds_outputs g db compact outs [] -> builder compact = None ->
  writing lo g' db' out tb [] -> next db <= out_number out ->
  holds_outputs g' db' (with_builder (Some tb) (with_outputs (outputs compact ++ [out]) compact)) outs [].
Proof.
  intros Hg Hg' He Hh Eb Hw Hn. destruct (holds_goes _ _ _ _ _ _ _ _ _ Hg Hg' He Hh) as [H1 H2 H3]. rewrite Eb in H3. destruct H3 as [E0 _].
  split; [done| |by exists out; rewrite <- E0]. cbn [outputs with_builder with_outputs]. rewrite map_app. apply increasing_snoc. split; [done|].
  intros y (x & -> & Hx)%list_elem_of_fmap. pose proof (holds_numbers _ _ _ _ _ x Hh Hx). lia.
Qed.

Lemma holds_finish b b' g db g' db' compact outs cur out out' tb total :
  good b held g db -> good b' held g' db' -> goes (out_number out) g db g' db' -> holds_outputs g db compact outs cur ->
  builder compact = Some tb -> outputs compact = map fst outs ++ [out] -> finished lo g' db' out' cur -> out_number out' = out_number out ->
  holds_outputs g' db' (with_builder None (with_total total (with_outputs (map fst outs ++ [out']) compact))) (outs ++ [(out', cur)]) [].
Proof.
  intros Hg Hg' He [H1 H2 H3] Eb E0 Hf En. rewrite E0, map_app in H2. pose proof (proj1 (increasing_snoc _ _) H2) as [H4 H5]. split.
  - apply Forall_app. split; [|by constructor]. apply Forall_forall. intros p Hp. rewrite Forall_forall in H1.
    eapply finished_goes; [exact Hg|exact Hg'|exact He| |by apply H1]. apply H5, list_elem_of_fmap. exists p.1. split; [done|]. by apply list_elem_of_fmap_2.
  - cbn. rewrite map_app. cbn. by rewrite En.
  - cbn. split; [|done]. by rewrite map_app.
Qed.

Lemma add_entries_app (r : TableBuilder W) kvs kvs' : add_entries Snappy Zstd r (kvs ++ kvs') = (r ← add_entries Snappy Zstd r kvs; add_entries Snappy Zstd r kvs').
Proof.
  revert r. induction kvs as [|[k v] kvs IH]; intros r; [done|]. cbn [app add_entries]. destruct (Add Snappy Zstd r k v) as [r'|]; [|done]. cbn [mbind option_bind]. apply IH.
Qed.

(** The next entry comes in. *)
Lemma add_next w cur e tb :
  wf_contents w = [] -> entries_sorted U (cur ++ [e]) -> add_entries Snappy Zstd (TableBuilder_new o w) (map entry_kv cur) = Some tb ->
  (NumEntries tb = 0 <-> cur = []) /\
  exists tb', Add Snappy Zstd tb (entry_ikey e) (e_value e) = Some tb' /\ add_entries Snappy Zstd (TableBuilder_new o w) (map entry_kv (cur ++ [e])) = Some tb'.
Proof.
  intros Hw Hs Ha. assert (LC : ComparatorLaws (comparator o)) by (rewrite Hcmp; apply _).
  destruct (build_table_faulty Snappy Zstd o w (map entry_kv cur) LC Hw ltac:(rewrite Hcmp; by apply entries_sorted_app_l in Hs)) as (r & _ & _ & Ea & _ & Hc & _).
  rewrite Ha in Ea. injection Ea as <-. split; [rewrite Hc; split; [by apply map_eq_nil|by intros ->]|].
  destruct (build_table_faulty Snappy Zstd o w (map entry_kv (cur ++ [e])) LC Hw ltac:(rewrite Hcmp; exact Hs)) as (r & _ & _ & Ea & _).
  exists r. split; [|exact Ea]. rewrite map_app, add_entries_app, Ha in Ea. cbn [mbind option_bind map add_entries] in Ea.
  change (entry_kv e) with (entry_ikey e, e_value e) in Ea. cbv iota in Ea. by destruct (Add Snappy Zstd tb _ _).
Qed.

Lemma add_entry_spec g db compact outs cur e tb :
  holds_outputs g db compact outs cur -> builder compact = Some tb -> entries_sorted U (cur ++ [e]) ->
  exists compact' tb', add_entry Snappy Zstd (entry_ikey e) (e_value e) compact = Some compact' /\ builder compact' = Some tb' /\
    holds_outputs g db compact' outs (cur ++ [e]) /\ compaction compact' = compaction compact /\ smallest_snapshot compact' = smallest_snapshot compact.
Proof.
  intros [H1 H2 H3] Eb Hs. rewrite Eb in H3. destruct H3 as (out & E0 & [T1 T2 (w & Hw & Ea) T4 T5]).
  destruct (add_next w cur e tb Hw Hs Ea) as (Hc & tb' & Eadd & Ea'). unfold add_entry. rewrite Eb. cbn [mbind option_bind].
  set (first := mkOutput (out_number out) (out_file_size out) (entry_ikey e) (out_largest out)).
  set (compact1 := if NumEntries tb =? 0 then _ else compact).
  assert (E1 : exists out1, compact1 = with_outputs (map fst outs ++ [out1]) compact /\ out1 = if NumEntries tb =? 0 then first else out).
  { unfold compact1. destruct (NumEntries tb =? 0).
    - exists first. split; [|done]. unfold update_output, current_output. by rewrite E0, last_snoc, removelast_last.
    - exists out. split; [|done]. rewrite <- E0. by destruct compact. }
  destruct E1 as (out1 & -> & Eo1). unfold update_output at 1, current_output. cbn [outputs with_outputs]. rewrite last_snoc, removelast_last.
  rewrite Eadd. cbn [mbind option_bind]. eexists _, tb'. split; [done|]. split; [done|]. split; [|done].
  assert (En : out_number out1 = out_number out) by (subst out1; by destruct (_ =? _)).
  split; [done| |].
  - cbn. rewrite E0 in H2. rewrite map_app in *. cbn in *. by rewrite En.
  - cbn. eexists. split; [done|]. split; cbn [out_number out_smallest out_largest]; rewrite ?En; try done.
    + by exists w.
    + intros e0 He0. subst out1. destruct cur as [|c cur]; [rewrite (proj2 (Z.eqb_eq _ 0)) by (by apply Hc); by injection He0 as <-|].
      rewrite (proj2 (Z.eqb_neq _ 0)) by (intros E0'%Hc; discriminate E0'). by apply T4.
    + intros e0. rewrite last_snoc. by intros [= <-].
Qed.

(** *** One entry *)

Context (v0_levels : levels_ok (C := U) v0) (level_le : (c_level c0 + 2 <= kNumLevels)%nat) (snap_range : 0 <= snap < kMaxSequenceNumber).
Context (es_ok : Forall entry_ok es) (es_sorted : entries_sorted U es).
Context (es_fit : forall es', es' `sublist_of` es -> es' <> [] -> table_fits es').
Variables (others : nat -> DB -> DB) (c m : nat).
Context (others_relied : forall n, relied c (others n)) (few_files : forall e : E, (length (GetChildren dbname e).2 <= m)%nat).

Lemma kept_from_sublist before l : kept_from (C := U) v0 (c_level c0) snap before l `sublist_of` l.
Proof.
  revert before. induction l as [|e l IH]; intros before; cbn [kept_from]; [constructor|]. destruct (_ || _); cbn [app]; [by apply sublist_cons|by apply sublist_skip].
Qed.

(** The entries of an output make a table. *)
Lemma cur_good (outs : list (Output * list Entry)) cur i : concat (map snd outs) ++ cur = kept (take i es) -> Forall entry_ok cur /\ entries_sorted U cur /\ (cur <> [] -> table_fits cur).
Proof.
  intros Hk. assert (Hsub : cur `sublist_of` es).
  { etransitivity; [|apply (sublist_take es i)]. etransitivity; [|apply (kept_from_sublist [])]. rewrite <- Hk. by apply sublist_inserts_l. }
  split; [|split; [|by apply es_fit]].
  - apply Forall_forall. intros e He. rewrite Forall_forall in es_ok. apply es_ok. by eapply elem_of_sublist.
  - assert (Hs : entries_sorted U (concat (map snd outs) ++ cur)).
    { rewrite Hk. apply kept_from_sorted. rewrite <- (take_drop i es) in es_sorted. by apply entries_sorted_app_l in es_sorted. }
    unfold entries_sorted, kvs_sorted in *. rewrite map_app in Hs. by apply StronglySorted_app in Hs as (_ & _ & ?).
Qed.

(** The output is full, or the input has ended. *)
Lemma finish_output t b g db compact outs cur tb i :
  here (c + S b) g db -> holds_outputs g db compact outs cur -> builder compact = Some tb -> cur <> [] -> concat (map snd outs) ++ cur = kept (take i es) ->
  exists s compact' g' db', FinishCompactionOutputFile Snappy Zstd dbname o others t OK compact db = Some (s, compact', db') /\ here b g' db' /\
    if ok s then s = OK /\ builder compact' = None /\ compaction compact' = compaction compact /\ smallest_snapshot compact' = smallest_snapshot compact /\
      exists outs', holds_outputs g' db' compact' outs' [] /\ concat (map snd outs') ++ [] = kept (take i es)
    else stopped s compact'.
Proof.
  intros Hh Ho Eb Hne Hk. destruct (cur_good outs cur i Hk) as (Hok & Hs & Hfit). pose proof Ho as [H1 H2 H3]. rewrite Eb in H3. destruct H3 as (out & E0 & Hw).
  destruct (FinishCompactionOutputFile_spec Snappy Zstd dbname Hcmp Hinterval Hfilter others t c b held g db compact lo (map fst outs) out tb cur others_relied (proj1 Hh) Eb E0 Hw lo_positive Hne Hok Hs (Hfit Hne))
    as (s & compact' & g' & db' & E1 & Hg' & He & Hres).
  exists s, compact', g', db'. split; [exact E1|]. split; [eapply here_goes; [exact Hh|exact Hg'|apply Hw|exact He]|]. destruct (ok s); [|done].
  destruct Hres as (out' & total & -> & -> & Hf & En). do 4 (split; [done|]).
  exists (outs ++ [(out', cur)]). split; [eapply (holds_finish (c + S b) b g db); [apply Hh|exact Hg'|exact He|exact Ho|exact Eb|exact E0|exact Hf|exact En]|].
  rewrite map_app, concat_app. cbn. by rewrite !app_nil_r.
Qed.

Lemma write_entry_spec t b g db compact outs cur i e :
  here (3 * c + 2 + b) g db -> holds_outputs g db compact outs cur -> es !! i = Some e -> concat (map snd outs) ++ cur ++ [e] = kept (take (i + 1) es) ->
  exists s compact' g' db', write_entry Snappy Zstd dbname o others t OK (entry_ikey e) (e_value e) compact db = Some (s, compact', db') /\ here b g' db' /\
    if ok s then s = OK /\ compaction compact' = compaction compact /\ smallest_snapshot compact' = smallest_snapshot compact /\
      exists outs' cur', holds_outputs g' db' compact' outs' cur' /\ (has_builder compact' = true -> cur' <> []) /\ concat (map snd outs') ++ cur' = kept (take (i + 1) es)
    else stopped s compact'.
Proof.
  intros Hh Ho He Hk. unfold write_entry.
  assert (Hopen : exists s1 compact1 g1 db1, (if has_builder compact then Some (OK, compact, db) else OpenCompactionOutputFile dbname o others t compact db) = Some (s1, compact1, db1) /\
    here (c + 1 + b) g1 db1 /\ if ok s1 then holds_outputs g1 db1 compact1 outs cur /\ has_builder compact1 = true /\ compaction compact1 = compaction compact /\ smallest_snapshot compact1 = smallest_snapshot compact
      else stopped s1 compact1).
  { unfold has_builder at 1. destruct (builder compact) as [tb|] eqn:Eb.
    - exists OK, compact, g, db. split; [done|]. split; [eapply here_le; [|exact Hh]; lia|]. split; [done|]. unfold has_builder. by rewrite Eb.
    - pose proof Ho as [_ _ H3]. rewrite Eb in H3. destruct H3 as [_ ->].
      pose proof (here_le (3 * c + 2 + b) (2 * c + 1 + (c + 1 + b)) g db ltac:(lia) Hh) as Hh'. destruct Hh as [Hg Hlo]. pose proof (ev_next _ _ _ _ _ _ _ _ _ _ _ _ _ _ _ Hlo) as Hn.
      destruct (OpenCompactionOutputFile_spec Snappy Zstd dbname Hcmp Hinterval Hsize Hfilter others t c (c + 1 + b) held g db compact lo others_relied (proj1 Hh')) as (s1 & compact1 & g1 & db1 & E1 & Hg1 & E2 & Hres); [unfold has_builder; by rewrite Eb|exact Hn|].
      exists s1, compact1, g1, db1. split; [exact E1|]. split; [eapply here_goes; [exact Hh'|exact Hg1|exact Hn|exact E2]|]. destruct (ok s1); [|done].
      destruct Hres as (out & w & -> & -> & Hw & Hnum). split; [|done].
      eapply (holds_open _ _ g db); [apply Hh'|exact Hg1|exact E2|exact Ho|exact Eb|exact Hw|exact Hnum]. }
  destruct Hopen as (s1 & compact1 & g1 & db1 & -> & Hh1 & Hres1). cbn [mbind option_bind]. destruct (ok s1) eqn:Es1; cbn [negb].
  2: { exists s1, compact1, g1, db1. split; [done|]. split; [eapply here_le; [|exact Hh1]; lia|]. by rewrite Es1. }
  destruct Hres1 as (Ho1 & Hb1 & Ec1 & Esn1). unfold has_builder in Hb1. destruct (builder compact1) as [tb|] eqn:Eb1; [|done].
  destruct (cur_good outs (cur ++ [e]) (i + 1) Hk) as (_ & Hs & _).
  destruct (add_entry_spec g1 db1 compact1 outs cur e tb Ho1 Eb1 Hs) as (compact2 & tb2 & -> & Eb2 & Ho2 & Ec2 & Esn2). cbn [mbind option_bind]. rewrite Eb2. cbn [mbind option_bind].
  assert (Hne : cur ++ [e] <> []) by by destruct cur. destruct (_ <=? _).
  - destruct (finish_output (t + 2) b g1 db1 compact2 outs (cur ++ [e]) tb2 (i + 1)) as (s' & compact' & g' & db' & E3 & Hh' & Hres'); try done.
    { eapply here_le; [|exact Hh1]. lia. }
    exists s', compact', g', db'. split; [exact E3|]. split; [done|]. destruct (ok s'); [|done]. destruct Hres' as (-> & Eb3 & Ec3 & Es3 & outs' & Ho' & Hk').
    split; [done|]. split; [congruence|]. split; [congruence|]. exists outs', []. split; [done|]. split; [|done]. unfold has_builder. by rewrite Eb3.
  - exists OK, compact2, g1, db1. split; [done|]. split; [eapply here_le; [|exact Hh1]; lia|]. split; [done|]. split; [congruence|]. split; [congruence|]. by exists outs, (cur ++ [e]).
Qed.

(** *** The loop *)

Context {I : Type} {II : Iterator.Iterator I} {pos : I -> nat -> Prop} {HL : IteratorLaws II IC (map entry_kv es) pos}.

Lemma ShouldStopBefore_progress c1 key : exists stop index seen total, ShouldStopBefore U c1 key = (stop, with_progress index seen total c1).
Proof. unfold ShouldStopBefore. destruct (grandparent_loop _ _ _ _ _ _) as [index overlapped]. destruct (_ <? _); by eexists _, _, _, _. Qed.

Lemma holds_same g db compact compact' outs cur :
  outputs compact' = outputs compact -> builder compact' = builder compact -> holds_outputs g db compact outs cur -> holds_outputs g db compact' outs cur.
Proof. intros E1 E2 [H1 H2 H3]. split; rewrite ?E1, ?E2; done. Qed.

Lemma take_next i e : es !! i = Some e -> take (i + 1) es = take i es ++ [e].
Proof. intros He. rewrite Nat.add_1_r. by apply take_S_r. Qed.

Lemma compaction_step_spec t b g db ds compact input i :
  here (9 * c + m + 4 + b) g db -> working g db ds compact i -> pos input i -> (i < length es)%nat ->
  exists continue lp g', compaction_step Snappy Zstd U comparator_name dbname o others (mkLoop t input OK ds compact db) = Some (continue, lp) /\ here b g' (lp_db lp) /\
    if continue : bool then lp_status lp = OK /\ working g' (lp_db lp) (lp_drop lp) (lp_compact lp) (i + 1) /\ pos (lp_input lp) (i + 1)%nat
    else stopped (lp_status lp) (lp_compact lp).
Proof.
  intros Hh [W1 W2 W3 W4 (outs & cur & Ho & Hne & Hk)] Hpos Hi. unfold compaction_step. cbn [lp_time lp_input lp_db lp_compact lp_drop].
  destruct (lookup_lt_is_Some_2 es i Hi) as [e He]. assert (Hkv : map entry_kv es !! i = Some (entry_ikey e, e_value e)) by by rewrite list_lookup_fmap, He.
  destruct (imm_work_spec Snappy Zstd comparator_name dbname Hcmp Hinterval Hsize Hfilter others t c m (4 * c + 3 + b) held g db others_relied few_files) as (g1 & db1 & -> & Hg1 & E1).
  { eapply good_le; [|apply Hh]. lia. }
  pose proof (ev_next _ _ _ _ _ _ _ _ _ _ _ _ _ _ _ (proj2 Hh)) as Hn. pose proof (here_goes _ _ _ _ _ _ _ Hh Hg1 Hn E1) as Hh1.
  pose proof (holds_goes _ _ _ _ _ _ _ _ _ (proj1 Hh) Hg1 E1 Ho) as Ho1. cbn [mbind option_bind].
  rewrite (pos_key (IteratorLaws := HL) _ _ _ _ Hpos Hkv). cbn [mbind option_bind].
  destruct (ShouldStopBefore_progress (compaction compact) (entry_ikey e)) as (stop & index & seen & total & ->). set (c1 := with_progress index seen total (compaction compact)).
  assert (Hstop : exists s2 compact2 g2 db2, (if stop && has_builder (with_compaction c1 compact)
      then FinishCompactionOutputFile Snappy Zstd dbname o others (t + 5) (it_status input) (with_compaction c1 compact) db1 else Some (OK, with_compaction c1 compact, db1)) = Some (s2, compact2, db2) /\
    here (3 * c + 2 + b) g2 db2 /\ if ok s2 then compaction compact2 = c1 /\ smallest_snapshot compact2 = snap /\
      exists outs2 cur2, holds_outputs g2 db2 compact2 outs2 cur2 /\ (has_builder compact2 = true -> cur2 <> []) /\ concat (map snd outs2) ++ cur2 = kept (take i es)
    else stopped s2 compact2).
  { destruct (stop && _) eqn:Es.
    - apply andb_prop in Es as [_ Hb]. rewrite (pos_status (IteratorLaws := HL) _ _ Hpos). unfold has_builder in *. cbn [builder with_compaction] in *. destruct (builder compact) as [tb|] eqn:Eb; [|done].
      destruct (finish_output (t + 5) (3 * c + 2 + b) g1 db1 (with_compaction c1 compact) outs cur tb i) as (s2 & compact2 & g2 & db2 & E2 & Hh2 & Hres2).
      + eapply here_le; [|exact Hh1]. lia.
      + by apply (holds_same _ _ compact).
      + exact Eb.
      + by apply Hne.
      + exact Hk.
      + exists s2, compact2, g2, db2. split; [exact E2|]. split; [exact Hh2|]. destruct (ok s2); [|done]. destruct Hres2 as (-> & Eb2 & Ec2 & Es2 & outs2 & Ho2 & Hk2).
        split; [exact Ec2|]. split; [by rewrite Es2|]. exists outs2, []. split; [exact Ho2|]. split; [by rewrite Eb2|exact Hk2].
    - exists OK, (with_compaction c1 compact), g1, db1. split; [done|]. split; [eapply here_le; [|exact Hh1]; lia|]. split; [done|]. split; [done|].
      exists outs, cur. split; [by apply (holds_same _ _ compact)|]. by split. }
  destruct Hstop as (s2 & compact2 & g2 & db2 & -> & Hh2 & Hres2). cbn [mbind option_bind]. destruct (ok s2) eqn:Eok2; cbn [negb].
  2: { exists false, (mkLoop (t + 9) input s2 ds compact2 db2), g2. split; [done|]. split; [eapply here_le; [|exact Hh2]; lia|]. exact Hres2. }
  destruct Hres2 as (Ec2 & Es2 & outs2 & cur2 & Ho2 & Hne2 & Hk2).
  pose proof (take_next i e He) as Ht. assert (Hall : Forall entry_ok (take i es ++ [e]) /\ entries_sorted U (take i es ++ [e])).
  { rewrite <- Ht. split; [by apply Forall_take|]. rewrite <- (take_drop (i + 1) es) in es_sorted. by apply entries_sorted_app_l in es_sorted. }
  destruct (drop_decision_spec v0 (c_level c0) snap v0_levels level_le (take i es) e ds c1) as (ds' & ptrs & Ed & Hds & Hptrs); try by apply Hall || apply W1 || done.
  { by apply W4. }
  rewrite Es2, Ec2, Ed. pose proof (kept_from_snoc v0 (c_level c0) snap [] (take i es) e) as Hsnoc. cbn [app] in Hsnoc. rewrite <- Ht in Hsnoc.
  assert (Hptr' : forall e', es !! (i + 1)%nat = Some e' -> ptrs_ok (C := U) (with_ptrs ptrs c1) (e_user_key e')).
  { intros e' He'. eapply ptrs_ok_mono; [exact Hptrs|]. apply (entry_before_le es_ok es_sorted i (i + 1) e e' He He'). lia. }
  assert (Htask : same_task c0 (with_ptrs ptrs c1)) by (destruct W1; by split).
  destruct (pos_next (IteratorLaws := HL) _ _ Hpos) as (input' & En & Hp'); [by rewrite length_map|].
  destruct (hidden snap (take i es) e || CompactionDrop.obsolete v0 (c_level c0) snap e).
  - cbn [mbind option_bind ok negb]. rewrite En. cbn [mbind option_bind]. rewrite app_nil_r in Hsnoc.
    eexists true, _, g2. split; [done|]. split; [eapply here_le; [|exact Hh2]; cbn; lia|]. cbn [lp_status lp_db lp_drop lp_compact lp_input]. split; [done|]. split; [|exact Hp']. split; try done.
    + by rewrite Ht.
    + exists outs2, cur2. split; [by apply (holds_same _ _ compact2)|]. split; [exact Hne2|]. by rewrite Hsnoc.
  - rewrite (pos_value (IteratorLaws := HL) _ _ _ _ Hpos Hkv), (pos_status (IteratorLaws := HL) _ _ Hpos). cbn [mbind option_bind].
    destruct (write_entry_spec (t + 6) b g2 db2 (with_compaction (with_ptrs ptrs c1) compact2) outs2 cur2 i e) as (s3 & compact3 & g3 & db3 & -> & Hh3 & Hres3).
    + exact Hh2.
    + by apply (holds_same _ _ compact2).
    + exact He.
    + by rewrite app_assoc, Hk2, Hsnoc.
    + cbn [mbind option_bind]. destruct (ok s3) eqn:Eok3; cbn [negb].
      2: { by exists false, (mkLoop (t + 9) input s3 ds' compact3 db3), g3. }
      destruct Hres3 as (-> & Ec3 & Es3 & Hout). rewrite En. cbn [mbind option_bind]. exists true, (mkLoop (t + 9) input' OK ds' compact3 db3), g3. split; [done|]. split; [exact Hh3|].
      cbn [lp_status lp_db lp_drop lp_compact lp_input]. split; [done|]. split; [|exact Hp']. split; rewrite ?Ec3, ?Es3; try done. by rewrite Ht.
Qed.

(** What [i] entries cost. *)
Definition step_cost : nat := (9 * c + m + 4)%nat.

(** Where the loop ends. *)
Definition loop_ends g (lp : Loop) : Prop :=
  stopped (lp_status lp) (lp_compact lp) \/
  (lp_status lp = OK /\ exists i, working g (lp_db lp) (lp_drop lp) (lp_compact lp) i /\ pos (lp_input lp) i /\ (i = length es \/ shutting_down_ (db_shared (lp_db lp)) = true)).

Lemma compaction_loop_spec fuel b lp g i :
  (length es - i <= fuel)%nat -> here (step_cost * (length es - i) + b) g (lp_db lp) -> lp_status lp = OK -> working g (lp_db lp) (lp_drop lp) (lp_compact lp) i -> pos (lp_input lp) i ->
  exists lp' g', compaction_loop Snappy Zstd U comparator_name dbname o others fuel lp = Some lp' /\ here b g' (lp_db lp') /\ loop_ends g' lp'.
Proof.
  revert lp g i. induction fuel as [|fuel IH]; intros lp g i Hf Hh Hst Hw Hp; pose proof (pos_le (IteratorLaws := HL) _ _ Hp) as Hle; rewrite length_map in Hle;
    cbn [compaction_loop]; rewrite (pos_valid (IteratorLaws := HL) _ _ Hp), length_map; destruct (Nat.ltb_spec i (length es)) as [Hi|Hi]; cbn [andb].
  1: lia.
  1, 3: exists lp, g; (split; [done|]); (split; [eapply here_le; [apply Nat.le_add_l|exact Hh]|]); right; (split; [done|]); exists i; (split; [done|]); (split; [done|]); left; lia.
  destruct (shutting_down_ (db_shared (lp_db lp))) eqn:Esh; cbn [negb].
  - exists lp, g. split; [done|]. split; [eapply here_le; [apply Nat.le_add_l|exact Hh]|]. right. split; [done|]. exists i. split; [done|]. split; [done|]. by right.
  - destruct lp as [t input st ds compact db]. cbn [lp_status lp_db lp_drop lp_compact lp_input] in *. subst st.
    destruct (compaction_step_spec t (step_cost * (length es - (i + 1)) + b) g db ds compact input i) as (continue & lp' & g' & -> & Hh' & Hres); try done.
    { eapply here_le; [|exact Hh]. unfold step_cost. replace (length es - i)%nat with (S (length es - (i + 1))) by lia. lia. }
    cbn [mbind option_bind]. destruct continue.
    + destruct Hres as (Hst' & Hw' & Hp'). apply (IH lp' g' (i + 1)%nat); [lia|done|done|done|done].
    + exists lp', g'. split; [done|]. split; [eapply here_le; [apply Nat.le_add_l|exact Hh']|]. by left.
Qed.

(** *** After the loop *)

(** The outputs hold what is kept of the whole input. *)
Record written g db (compact : CompactionState W) (outs : list (Output * list Entry)) : Prop := {
  wn_task : same_task c0 (compaction compact);
  wn_outputs : outputs compact = map fst outs;
  wn_closed : builder compact = None;
  wn_finished : Forall (fun p => finished lo g db p.1 p.2) outs;
  wn_increasing : StronglySorted Z.lt (map out_number (outputs compact));
  wn_kept : concat (map snd outs) = kept es;
}.

(** An open builder may be abandoned. *)
Lemma open_builder g db compact outs cur i tb :
  holds_outputs g db compact outs cur -> concat (map snd outs) ++ cur = kept (take i es) -> builder compact = Some tb -> closed tb = false.
Proof.
  intros [H1 H2 H3] Hk Eb. rewrite Eb in H3. destruct H3 as (out & _ & Hw). destruct (wr_builder _ _ _ _ _ _ _ _ Hw) as (w & Hw0 & Ea).
  destruct (cur_good outs cur i Hk) as (_ & Hs & _). assert (LC : ComparatorLaws (comparator o)) by (rewrite Hcmp; apply _).
  destruct (build_table_faulty Snappy Zstd o w (map entry_kv cur) LC Hw0 ltac:(rewrite Hcmp; exact Hs)) as (r & _ & _ & Ea' & Hc & _). rewrite Ea in Ea'. by injection Ea' as ->.
Qed.

(** Either there is an error, or all that is left is to install the outputs. *)
Lemma finish_work_spec b g lp :
  here (4 * c + 1 + b) g (lp_db lp) -> loop_ends g lp ->
  exists g' db' compact', here (c + b) g' db' /\
    ((exists s, stopped s compact' /\ finish_work Snappy Zstd U comparator_name dbname o others lp = Some (s, compact', RecordBackgroundError s db')) \/
     (exists outs t, written g' db' compact' outs /\
        finish_work Snappy Zstd U comparator_name dbname o others lp =
          ('(s, db) ← InstallCompactionResults U comparator_name dbname others t compact' db';
           Some (s, compact', if ok s then db else RecordBackgroundError s db)))).
Proof.
  intros Hh Hend. destruct lp as [t input st ds compact db]. unfold finish_work, loop_ends in *. cbn [lp_time lp_db lp_status lp_input lp_compact lp_drop] in *.
  pose proof (ev_next _ _ _ _ _ _ _ _ _ _ _ _ _ _ _ (proj2 Hh)) as Hn.
  destruct (others_goes Snappy Zstd dbname (others t) c (3 * c + 1 + b) held g db (others_relied t)) as (g1 & _ & Hg1 & E1); [eapply good_le; [|apply Hh]; lia|].
  pose proof (here_goes _ _ _ _ _ _ _ Hh Hg1 Hn E1) as Hh1. set (db1 := others t db) in *.
  assert (Hlast : forall b' g' db', here (c + b') g' db' -> exists g2, here b' g2 (others (t + 2)%nat db') /\ goes (next db') g' db' g2 (others (t + 2)%nat db')).
  { intros b' g' db' Hh'. destruct (others_goes Snappy Zstd dbname (others (t + 2)%nat) c b' held g' db' (others_relied _) (proj1 Hh')) as (g2 & _ & Hg2 & E2).
    exists g2. split; [|exact E2]. eapply here_goes; [exact Hh'|exact Hg2|apply (ev_next _ _ _ _ _ _ _ _ _ _ _ _ _ _ _ (proj2 Hh'))|exact E2]. }
  destruct Hend as [[Est Hcl]|(-> & i & [W1 W2 W3 W4 (outs & cur & Ho & Hne & Hk)] & Hpos & Hend)].
  { rewrite Est. cbn [andb mbind option_bind]. rewrite Est. cbn [andb mbind option_bind]. rewrite !Est. cbn [mbind option_bind]. rewrite Est.
    destruct (Hlast (c + b)%nat g1 db1) as (g2 & Hh2 & _); [eapply here_le; [|exact Hh1]; lia|]. exists g2, (others (t + 2)%nat db1), compact. split; [exact Hh2|]. left. by exists st. }
  pose proof (holds_goes _ _ _ _ _ _ _ _ _ (proj1 Hh) Hg1 E1 Ho) as Ho1. cbn [ok andb]. destruct (shutting_down_ (db_shared db1)) eqn:Esh.
  { cbn [ok IOError andb mbind option_bind]. destruct (Hlast (c + b)%nat g1 db1) as (g2 & Hh2 & _); [eapply here_le; [|exact Hh1]; lia|].
    exists g2, (others (t + 2)%nat db1), compact. split; [exact Hh2|]. left. exists (IOError (cstr "Deleting DB during compaction") []).
    split; [|reflexivity]. split; [reflexivity|]. intros tb Eb. exact (open_builder g1 db1 compact outs cur i tb Ho1 Hk Eb). }
  destruct Hend as [->|Hend]; [|rewrite (ev_shutdown _ _ _ _ _ _ _ _ _ _ _ _ _ _ _ E1) in Esh; done].
  rewrite take_ge in Hk by done. cbn [ok andb]. rewrite (pos_status (IteratorLaws := HL) _ _ Hpos).
  assert (Hclose : exists s2 compact2 g2 db2, (if has_builder compact then FinishCompactionOutputFile Snappy Zstd dbname o others (t + 1) OK compact db1 else Some (OK, compact, db1)) = Some (s2, compact2, db2) /\
    here (c + (c + b)) g2 db2 /\ if ok s2 then s2 = OK /\ compaction compact2 = compaction compact /\ builder compact2 = None /\ exists outs2, holds_outputs g2 db2 compact2 outs2 [] /\ concat (map snd outs2) = kept es
      else stopped s2 compact2).
  { unfold has_builder in *. destruct (builder compact) as [tb|] eqn:Eb.
    - destruct (finish_output (t + 1) (c + (c + b)) g1 db1 compact outs cur tb (length es)) as (s2 & compact2 & g2 & db2 & E2 & Hh2 & Hres2); try done.
      + eapply here_le; [|exact Hh1]. lia.
      + by apply Hne.
      + by rewrite take_ge.
      + exists s2, compact2, g2, db2. split; [exact E2|]. split; [exact Hh2|]. destruct (ok s2); [|done]. destruct Hres2 as (-> & Eb2 & Ec2 & _ & outs2 & Ho2 & Hk2).
        split; [done|]. split; [exact Ec2|]. split; [exact Eb2|]. exists outs2. split; [exact Ho2|]. by rewrite app_nil_r, take_ge in Hk2.
    - exists OK, compact, g1, db1. split; [done|]. split; [eapply here_le; [|exact Hh1]; lia|]. do 3 (split; [done|]). exists outs. pose proof Ho1 as [_ _ H3]. rewrite Eb in H3. destruct H3 as [_ ->].
      split; [exact Ho1|]. by rewrite app_nil_r in Hk. }
  destruct Hclose as (s2 & compact2 & g2 & db2 & -> & Hh2 & Hres2). cbn [mbind option_bind].
  destruct (Hlast _ g2 db2 Hh2) as (g3 & Hh3 & E3). exists g3, (others (t + 2)%nat db2), compact2. split; [exact Hh3|]. destruct (ok s2) eqn:Es2.
  - destruct Hres2 as (-> & Ec2 & Eb2 & outs2 & Ho2 & Hk2). destruct (holds_goes _ _ _ _ _ _ _ _ _ (proj1 Hh2) (proj1 Hh3) E3 Ho2) as [H1 H2 H3]. rewrite Eb2 in H3.
    right. exists outs2, (t + 3)%nat. cbn [ok]. split; [|done]. split; try done; [|apply H3]. by rewrite Ec2.
  - left. exists s2. split; [exact Hres2|]. rewrite Es2. cbn [mbind option_bind]. by rewrite Es2.
Qed.
End Loop.
