(* ===== verification/CompactionInstall.v ===== *)
(** * db/db_impl: installing a compaction

    The edit that a compaction applies: the inputs go, and tables with what is kept
    of their entries come in one level below.  The tables of the new version fit
    together, and every read at the smallest snapshot or later is answered as
    before. *)

From Stdlib Require Import Sorted.
From stdpp Require Import gmap sorting.
From S2P Require Import Prelude Coding Comparator Crc32c Bloom DbFormat Status Iterator BlockBuilder Block Format FilterBlock TableBuilder Table SkipList MemTable UserView MemIter.
From S2P Require Import VersionEdit Options Version VersionGet Overlap InternalTable TableCache BuildTable LogWriter Filename Compaction CompactionDrop VersionBuilder VersionSet Manifest Install Levels.
From S2P Require Import DBImpl DBGet LSM Obsolete Recovery LogRecovery Invariant InstallEdit Evolve CompactMemTable DoCompaction CompactionRun.


#[local] Notation table_id := (Z * Z * bytes * bytes)%type.

(** ** Reads *)

Section Reads.
Context {U : Comparator} {UL : ComparatorLaws U}.
Notation ucmp := (Compare (Comparator := U)).
Notation read_value := (read_value (C := U)).

Lemma read_value_ext u s es es' r : (forall e, e ∈ es <-> e ∈ es') -> read_value u s es r -> read_value u s es' r.
Proof.
  intros He [(e & (H1 & H2 & H3) & ->)|[Hno ->]].
  - left. exists e. split; [|done]. split; [by apply He|]. split; [done|]. intros x Hx. apply H3. by apply He.
  - right. split; [|done]. intros x Hx. apply Hno. by apply He.
Qed.

(** Entries past the snapshot do not matter. *)
Lemma read_value_past u s new es r : Forall (fun e => s < e_seq e) new -> read_value u s (new ++ es) r <-> read_value u s es r.
Proof.
  intros Hn. rewrite Forall_forall in Hn. assert (Hv : forall x, x ∈ new -> ~ visible (C := U) u s x).
  { intros x Hx [_ Hs]. specialize (Hn x Hx). cbn in Hn. lia. }
  split; (intros [(e & (H1 & H2 & H3) & ->)|[Hno ->]]; [left; exists e; split; [|done]|right; split; [|done]]).
  - split; [|split; [done|]]; [apply elem_of_app in H1 as [H1|H1]; [by destruct (Hv e H1)|done]|]. intros x Hx. apply H3, elem_of_app. by right.
  - intros x Hx. apply Hno, elem_of_app. by right.
  - split; [apply elem_of_app; by right|]. split; [done|]. intros x [Hx|Hx]%elem_of_app Hvx; [by destruct (Hv x Hx)|by apply H3].
  - intros x [Hx|Hx]%elem_of_app; [by apply Hv|by apply Hno].
Qed.

#[local] Instance visible_decision u s e : Decision (visible (C := U) u s e).
Proof. unfold visible. apply _. Defined.

Lemma read_value_total u s es : exists r, read_value u s es r.
Proof.
  assert (Hm : (exists e, newest_visible (C := U) u s es e) \/ forall e, e ∈ es -> ~ visible (C := U) u s e).
  { induction es as [|x es IH]; [right; by intros e ?%elem_of_nil|]. destruct (decide (visible (C := U) u s x)) as [Hx|Hx].
    - left. destruct IH as [(e & H1 & H2 & H3)|Hno].
      + destruct (Z.le_gt_cases (e_seq x) (e_seq e)) as [Hle|Hgt].
        * exists e. split; [by right|]. split; [done|]. intros y [->|Hy]%elem_of_cons Hv; [done|by apply H3].
        * exists x. split; [by left|]. split; [done|]. intros y [->|Hy]%elem_of_cons Hv; [lia|]. specialize (H3 y Hy Hv). lia.
      + exists x. split; [by left|]. split; [done|]. intros y [->|Hy]%elem_of_cons Hv; [lia|]. by destruct (Hno y Hy).
    - destruct IH as [(e & H1 & H2 & H3)|Hno].
      + left. exists e. split; [by right|]. split; [done|]. intros y [->|Hy]%elem_of_cons Hv; [done|by apply H3].
      + right. intros y [->|Hy]%elem_of_cons; [done|by apply Hno]. }
  destruct Hm as [(e & He)|Hno]; eexists; [left; by exists e|by right].
Qed.

Lemma read_value_unique u s es r r' : unique_keys (U := U) es -> read_value u s es r -> read_value u s es r' -> r = r'.
Proof.
  intros Hu [(e & (H1 & H2 & H3) & ->)|[Hno ->]] [(e' & (H1' & H2' & H3') & ->)|[Hno' ->]]; [|by destruct (Hno' e)|by destruct (Hno e')|done].
  assert (Hs : e_seq e = e_seq e') by (pose proof (H3 e' H1' H2'); pose proof (H3' e H1 H2); lia).
  by rewrite (Hu e e' H1 H1' (visible_same_key u s e e' H2 H2') Hs).
Qed.

(** The answer of [Get] says what is read. *)
Lemma answer_read u s es value st value' :
  answer (U := U) u s es value st value' <->
  exists r, read_value u s es r /\ match r with Some x => st = OK /\ value' = x | None => st = NotFound [] [] /\ value' = value end.
Proof.
  split.
  - intros [(e & He & Ht)|(Hno & Ht)]; eexists; (split; [|]); [left; by exists e|by destruct (e_type e)|by right|done].
  - intros (r & [(e & He & ->)|[Hno ->]] & Ht); [left; exists e; split; [done|]; by destruct (e_type e)|by right].
Qed.

(** Reads of [es'] answer as reads of [es] do. *)
Lemma answer_kept u s es es' value st value' :
  unique_keys (U := U) es' -> (forall r, read_value u s es r -> read_value u s es' r) -> answer (U := U) u s es' value st value' -> answer (U := U) u s es value st value'.
Proof.
  intros Hu Hr (r' & Hr' & Ht)%answer_read. destruct (read_value_total u s es) as [r Hr0]. apply answer_read. exists r. split; [done|].
  by rewrite (read_value_unique u s es' r r' Hu (Hr r Hr0) Hr').
Qed.
End Reads.

(** ** The choice *)

Section Chosen.
Context {U : Comparator} {UL : ComparatorLaws U}.
Notation ucmp := (Compare (Comparator := U)).
Notation icmp := (InternalKey_Compare U).
Notation newer := (newer (C := U)).

Definition all_inputs (c : Compaction) : list FilePtr := c_inputs0 c ++ c_inputs1 c.

(** The compaction [c] takes tables of two neighbouring levels of [v], and the rest
    of these levels lies around them: it is newer where it shares a user key with an
    input, the rest of the lower level lies on one side of all inputs, and so does
    every range of user keys that overlaps none of them. *)
Record chosen (contents : FilePtr -> list Entry) (v : Version) (c : Compaction) : Prop := {
  ch_level : (c_level c + 2 <= kNumLevels)%nat;
  ch_version : c_input_version c = v;
  ch_ptrs : c_level_ptrs c = replicate kNumLevels 0%nat;
  ch_edit : edit_ok (c_edit c) /\ new_files_ (c_edit c) = [] /\ deleted_files_ (c_edit c) = [] /\ has_comparator_ (c_edit c) = false /\ has_log_number_ (c_edit c) = false;
  ch_inputs0 : forall f, f ∈ c_inputs0 c -> f ∈ level_files v (c_level c);
  ch_inputs1 : forall f, f ∈ c_inputs1 c -> f ∈ level_files v (c_level c + 1);
  ch_some : c_inputs0 c <> [];
  ch_distinct : NoDup (c_inputs0 c);
  ch_run0 : (0 < c_level c)%nat -> files_sorted (C := U) (c_inputs0 c);
  ch_run1 : files_sorted (C := U) (c_inputs1 c);
  ch_newer : forall f g, f ∈ level_files v (c_level c) /\ f ∉ c_inputs0 c \/ f ∈ level_files v (c_level c + 1) /\ f ∉ c_inputs1 c ->
    g ∈ all_inputs c -> newer (contents f) (contents g);
  ch_sides : forall f, f ∈ level_files v (c_level c + 1) -> f ∉ c_inputs1 c ->
    (forall g, g ∈ all_inputs c -> icmp (f_largest f) (f_smallest g) = Lt) \/ (forall g, g ∈ all_inputs c -> icmp (f_largest g) (f_smallest f) = Lt);
  ch_connected : forall small large, ucmp small large <> Gt -> (forall g, g ∈ all_inputs c -> overlaps (C := U) (Some small) (Some large) g = false) ->
    (forall g, g ∈ all_inputs c -> ucmp large (f_smallest_user g) = Lt) \/ (forall g, g ∈ all_inputs c -> ucmp (f_largest_user g) small = Lt);
}.

Context (contents : FilePtr -> list Entry) (v : Version) (c : Compaction) (v_ok : version_ok (C := U) contents v) (is_chosen : chosen contents v c).
Notation L := (c_level c).

(** The entries of the inputs. *)
Definition input_entries : list Entry := concat (map contents (all_inputs c)).

Lemma input_file g : g ∈ all_inputs c -> (g ∈ c_inputs0 c /\ g ∈ level_files v L) \/ (g ∈ c_inputs1 c /\ g ∈ level_files v (L + 1)).
Proof. intros [Hg|Hg]%elem_of_app; [left|right]; (split; [done|]); by apply is_chosen. Qed.

Lemma input_file_ok g : g ∈ all_inputs c -> VersionGet.file_ok (C := U) contents g.
Proof. intros [[_ Hg]|[_ Hg]]%input_file; by eapply vo_files. Qed.

Lemma newer_inputs es : (forall g, g ∈ all_inputs c -> newer es (contents g)) -> newer es input_entries.
Proof. intros Hn e e' He (g & Hg & He')%elem_concat. by apply (Hn g). Qed.

Lemma file_level_entries lvl f e : f ∈ level_files v lvl -> e ∈ contents f -> e ∈ level_entries contents v lvl.
Proof. intros Hf He. apply level_entries_elem. by exists f. Qed.

(** What stays above is newer. *)
Lemma above_newer lvl f : f ∈ level_files v lvl -> (lvl <= L + 1)%nat -> (lvl = L -> f ∉ c_inputs0 c) -> (lvl = (L + 1)%nat -> f ∉ c_inputs1 c) -> newer (contents f) input_entries.
Proof.
  intros Hf Hl H0 H1. apply newer_inputs. intros g Hg. destruct (decide (lvl = L)) as [->|Hne]; [apply (ch_newer _ _ _ is_chosen); [left; auto|done]|].
  destruct (decide (lvl = L + 1)%nat) as [->|Hne1]; [apply (ch_newer _ _ _ is_chosen); [right; auto|done]|].
  intros e e' He He'. destruct (input_file g Hg) as [[_ Hg']|[_ Hg']].
  - apply (vo_levels _ _ v_ok lvl L ltac:(lia)); by eapply file_level_entries.
  - apply (vo_levels _ _ v_ok lvl (L + 1) ltac:(lia)); by eapply file_level_entries.
Qed.

(** What is below is older. *)
Lemma below_older lvl f : f ∈ level_files v lvl -> (L + 2 <= lvl)%nat -> newer input_entries (contents f).
Proof.
  intros Hf Hl e e' (g & Hg & He)%elem_concat He'. destruct (input_file g Hg) as [[_ Hg']|[_ Hg']].
  - apply (vo_levels _ _ v_ok L lvl ltac:(lia)); by eapply file_level_entries.
  - apply (vo_levels _ _ v_ok (L + 1) lvl ltac:(lia)); by eapply file_level_entries.
Qed.

Lemma deeper_elem e : e ∈ deeper_entries contents v L <-> exists lvl f, (L + 2 <= lvl < kNumLevels)%nat /\ f ∈ level_files v lvl /\ e ∈ contents f.
Proof.
  unfold deeper_entries. rewrite elem_concat. pose proof (ch_level _ _ _ is_chosen) as Hl. split.
  - intros (lvl & Hin%elem_of_seq & (f & Hf & He)%level_entries_elem). exists lvl, f. split; [lia|done].
  - intros (lvl & f & Hlv & Hf & He). exists lvl. split; [apply elem_of_seq; lia|]. by eapply file_level_entries.
Qed.

Lemma inputs_newer_deeper : newer input_entries (deeper_entries contents v L).
Proof. intros e e' He (lvl & f & Hl & Hf & He')%deeper_elem. by apply (below_older lvl f Hf ltac:(lia)). Qed.

Lemma input_entries_ok : Forall entry_ok input_entries.
Proof. apply Forall_forall. intros e (g & Hg & He)%elem_concat. eapply file_entry_ok; [by apply input_file_ok|exact He]. Qed.
End Chosen.

(** A sorted list cut into tables. *)
Section Runs.
Context {U : Comparator} {UL : ComparatorLaws U}.
Notation icmp := (InternalKey_Compare U).

Lemma runs_separate (sst : Z -> option TableImage) (ms : list (FileMetaData * list Entry)) :
  Forall (fun p => table_of (U := U) sst (number p.1) p.2 p.1) ms -> entries_sorted U (concat (map snd ms)) -> pairwise (C := U) (map (fun p => file_id p.1) ms).
Proof.
  induction 1 as [|[m es] ms Hm Hms IH]; [intros _ i j ?%elem_of_nil; done|]. cbn [map concat snd fst] in *. intros Hs.
  unfold entries_sorted, kvs_sorted in Hs. rewrite map_app in Hs. apply StronglySorted_app in Hs as (Hlt & _ & Hs). specialize (IH Hs).
  destruct Hm as (_ & _ & _ & _ & _ & (el & El & Ela) & _).
  assert (Hfirst : forall j, j ∈ map (fun p => file_id p.1) ms -> icmp (largest m) j.1.2 = Lt).
  { intros j ([m' es'] & -> & Hp)%list_elem_of_fmap. rewrite Forall_forall in Hms. destruct (Hms _ Hp) as (_ & _ & _ & _ & (e0 & E0 & Es0) & _). cbn [fst snd file_id] in *.
    rewrite Ela, Es0. apply (Hlt (entry_kv el) (entry_kv e0)); apply list_elem_of_fmap_2; [by eapply last_Some_elem_of|].
    apply elem_concat. exists (m', es'). split; [done|]. by eapply list_elem_of_lookup_2. }
  intros i j [->|Hi]%elem_of_cons [->|Hj]%elem_of_cons; [by left| | |by apply IH].
  - right. left. by apply Hfirst.
  - right. right. by apply Hfirst.
Qed.
End Runs.

(** ** The new version *)

Section Install.
Context `{CS : Checksum} {E RA W KC H K : Type} {R : RandomAccessFile RA} {WF : WritableFile W}.
Context {LF : LogFiles E W} {EF : EnvFiles E} {EFL : EnvFilesLaws E} {ED : EnvDirectory E} {RF : RandomAccessFiles E RA} {TF : TableFiles E W}.
Context {works : Prop} {raf_contents : RA -> bytes} {RL : RandomAccessFileLaws R raf_contents} {wf_contents : W -> bytes}.
Context {FS : FaultyFileSystem works WF RF LF TF EF raf_contents wf_contents}.
Context {CO : CacheOps KC H (Table RA) TableDeleter} {c_ok : nat -> (bytes -> Table RA -> Prop) -> list H -> KC -> Prop} {CL : CacheLaws CO c_ok}.
Context {BC : BlockCache K} {bc_holds : K -> bytes -> Block -> Prop} {BL : BlockCacheLaws BC bc_holds} {bc_next : K -> Z} {BI : BlockCacheIds BC bc_next}.
Context (Snappy Zstd : Compressor) {SL : CompressorLaws Snappy} {ZL : CompressorLaws Zstd}.
Context {U : Comparator} {UL : ComparatorLaws U} {o : Options} (comparator_name dbname : bytes).
Context (Hcmp : comparator o = InternalKeyComparator U) (Hinterval : 1 <= block_restart_interval o) (Hsize : 0 <= max_file_size o <= 2 ^ 30).
Context (Hfilter : forall name P, filter_policy o = Some (name, P) ->
  exists P0, P = InternalFilterPolicy P0 /\ FilterPolicyLaws P0 /\ zlen name < 2 ^ 31 /\ forall a b, Compare (Comparator := U) a b = Eq -> a = b).
Notation DB := (DBImpl E W KC K).
Notation ready := (cache_ready (raf_contents := raf_contents) (c_ok := c_ok) (bc_holds := bc_holds) (bc_next := bc_next) Snappy Zstd (U := U) (o := o)).
Notation has_table := (has_table (raf_contents := raf_contents) Snappy Zstd (U := U) (o := o) dbname).
Notation inv := (inv (raf_contents := raf_contents) (wf_contents := wf_contents) (c_ok := c_ok) (bc_holds := bc_holds) (bc_next := bc_next) Snappy Zstd (U := U) (o := o) dbname).
Notation evolves := (evolves (raf_contents := raf_contents) Snappy Zstd (U := U) (o := o) dbname).
Notation relied := (rely (raf_contents := raf_contents) (wf_contents := wf_contents) (c_ok := c_ok) (bc_holds := bc_holds) (bc_next := bc_next) Snappy Zstd (U := U) (o := o) dbname).
Notation table_fits := (table_fits (o := o) (wf_contents := wf_contents) Snappy Zstd).
Notation next db := (vs_next_file_number (db_versions db)).
Notation good := (good (raf_contents := raf_contents) (wf_contents := wf_contents) (c_ok := c_ok) (bc_holds := bc_holds) (bc_next := bc_next) Snappy Zstd (U := U) (o := o) dbname).
Notation goes := (goes (raf_contents := raf_contents) Snappy Zstd (U := U) (o := o) dbname).
Notation ucmp := (Compare (Comparator := U)).
Notation icmp := (InternalKey_Compare U).
Notation newer := (newer (C := U)).
Implicit Types (db : DB) (g : Ghost).

(** The compaction was chosen in the state [g0], [db0], and is installed in [g], [db]:
    [ms] are the tables that come in, with their entries. *)
Context (g0 : Ghost) (db0 : DB) (b0 : nat) (held0 : list Z) (good0 : good b0 held0 g0 db0).
Context (c0 : Compaction) (is_chosen : chosen (U := U) (table_contents (g_sst g0)) (g_v g0) c0).
Context (g : Ghost) (db : DB) (b : nat) (held : list Z) (good1 : good b held g db) (came : goes (next db0) g0 db0 g db).
Context (ms : list (FileMetaData * list Entry)).
Notation L := (c_level c0).
Notation v0 := (g_v g0).
Notation v := (g_v g).
Notation sst := (g_sst g).
Notation contents0 := (table_contents (g_sst g0)).
Notation inputs := (input_entries contents0 c0).
Notation ks := (concat (map snd ms)).
Context (tables : Forall (fun p => table_of (U := U) sst (number p.1) p.2 p.1 /\ has_table sst (table_cache_ db) (number p.1) (file_size p.1) p.2 /\
  0 <= number p.1 < next db /\ forall i, i ∈ level_ids v (L + 1) -> id_number i <> number p.1) ms).
Context (distinct : NoDup (map (fun p => number p.1) ms)) (cut : entries_sorted U ks) (from_inputs : forall e, e ∈ ks -> e ∈ inputs).

Lemma v0_ok : version_ok (C := U) contents0 v0.
Proof. exact (iv_version _ _ _ _ _ _ _ _ _ _ good0). Qed.

Lemma v_ok : version_ok (C := U) (table_contents sst) v.
Proof. exact (iv_version _ _ _ _ _ _ _ _ _ _ good1). Qed.

Lemma v0_holds : holds U v0 (level_ids v0).
Proof. exact (inv_holds Snappy Zstd dbname _ _ _ _ _ _ _ good0). Qed.

Lemma v_holds : holds U v (level_ids v).
Proof. exact (inv_holds Snappy Zstd dbname _ _ _ _ _ _ _ good1). Qed.

(** *** Where the tables of the version come from *)

(** A table of the first version with its entries. *)
Lemma old_contents lvl f : f ∈ level_files v0 lvl -> id_entries sst (file_id (f_meta f)) = contents0 f /\ table_contents sst f = contents0 f.
Proof.
  intros Hf. assert (Es : sst (f_number f) = g_sst g0 (f_number f)).
  { apply (ev_sst _ _ _ _ _ _ _ _ _ _ _ _ _ _ _ came). right. apply (inv_table Snappy Zstd dbname _ _ _ _ _ _ _ lvl (file_id (f_meta f)) good0). apply level_ids_elem. by exists f. }
  unfold id_entries, table_contents. change (id_number (file_id (f_meta f))) with (f_number f). by rewrite Es.
Qed.

(** A table came since. *)
Definition joined (lvl : nat) (i : table_id) : Prop := joins (U := U) (g_sst g0) v0 sst (next db0) lvl i /\ i ∈ level_ids v lvl.

Lemma table_cases lvl i : i ∈ level_ids v lvl -> (exists f, f ∈ level_files v0 lvl /\ i = file_id (f_meta f)) \/ joined lvl i.
Proof.
  intros Hi. destruct (ev_ids _ _ _ _ _ _ _ _ _ _ _ _ _ _ _ came) as (N & H1 & H2). pose proof (holds_level _ _ _ v_holds Hi) as Hl.
  apply H1 in Hi as Hi'; [|done]. destruct Hi' as [Hi'|Hi']; [left; by apply level_ids_elem|right; by split; [apply H2|]].
Qed.

Lemma old_stays lvl f : f ∈ level_files v0 lvl -> file_id (f_meta f) ∈ level_ids v lvl.
Proof.
  intros Hf. destruct (ev_ids _ _ _ _ _ _ _ _ _ _ _ _ _ _ _ came) as (N & H1 & _). assert (Hi : file_id (f_meta f) ∈ level_ids v0 lvl) by (apply level_ids_elem; by exists f).
  apply H1; [|by left]. exact (holds_level _ _ _ v0_holds Hi).
Qed.

(** It is newer than all inputs, and from the levels of the inputs on it shares no
    user key with them and lies on one side of them. *)
Lemma joined_newer lvl i : joined lvl i -> newer (id_entries sst i) (inputs ++ deeper_entries contents0 v0 L).
Proof.
  intros [(_ & Hn & _) _] e e' He He'. apply Hn; [done|]. rewrite version_entries_ids by exact v0_holds.
  assert (Hex : exists lvl f, f ∈ level_files v0 lvl /\ e' ∈ contents0 f).
  { apply elem_of_app in He' as [(f & Hf & He')%elem_concat|He']; [|apply (deeper_elem _ _ _ is_chosen) in He' as (lvl' & f & _ & Hf & He'); eauto].
    apply (input_file _ _ _ is_chosen) in Hf as [[_ Hf]|[_ Hf]]; eauto. }
  destruct Hex as (lvl' & f & Hf & Hx). exists lvl', (file_id (f_meta f)). split; [apply level_ids_elem; by exists f|done].
Qed.

Lemma joined_no_overlap lvl i f : joined lvl i -> (L + 1 <= lvl)%nat -> f ∈ all_inputs c0 -> id_overlaps (U := U) i f = false.
Proof.
  intros [(_ & _ & Ho) _] Hl Hf. apply (input_file _ _ _ is_chosen) in Hf as [[_ Hf]|[_ Hf]]; [apply (Ho L f)|apply (Ho (L + 1)%nat f)]; done || lia.
Qed.

Lemma joined_apart lvl i e e' : joined lvl i -> (L + 1 <= lvl)%nat -> e ∈ inputs -> e' ∈ id_entries sst i -> ucmp (e_user_key e) (e_user_key e') <> Eq.
Proof.
  intros Hj Hl (f & Hf & He)%elem_concat He' Heq. pose proof (joined_no_overlap lvl i f Hj Hl Hf) as Ho. destruct Hj as [_ (x & Hx & ->)%level_ids_elem].
  pose proof (input_file_ok _ _ _ v0_ok is_chosen f Hf) as Hfo. assert (Hxo : VersionGet.file_ok (C := U) (table_contents sst) x) by (by apply (vo_files _ _ v_ok lvl)).
  destruct (file_user_bounds _ f e Hfo He) as [B1 B2]. destruct (file_user_bounds _ x e' Hxo He') as [B3 B4].
  unfold id_overlaps in Ho. apply (overlaps_false (g_sst g0)) in Ho as [Ho|Ho]; [| |exact Hfo].
  - change (ExtractUserKey (file_id (f_meta x)).1.2) with (f_smallest_user x) in Ho.
    assert (Hlt : ucmp (e_user_key e) (e_user_key e') = Lt) by (eapply Compare_lt_le_trans; [eapply Compare_le_lt_trans; [exact B2|exact Ho]|exact B3]). congruence.
  - change (ExtractUserKey (file_id (f_meta x)).2) with (f_largest_user x) in Ho.
    assert (Hlt : ucmp (e_user_key e') (e_user_key e) = Lt) by (eapply Compare_lt_le_trans; [eapply Compare_le_lt_trans; [exact B4|exact Ho]|exact B1]).
    rewrite (Compare_eq_sym (C := U) _ _ Heq) in Hlt. done.
Qed.

(** *** The tables that come in *)

Lemma table_in p : p ∈ ms -> table_of (U := U) sst (number p.1) p.2 p.1 /\ has_table sst (table_cache_ db) (number p.1) (file_size p.1) p.2 /\
  0 <= number p.1 < next db /\ forall i, i ∈ level_ids v (L + 1) -> id_number i <> number p.1.
Proof. rewrite Forall_forall in tables. apply tables. Qed.

Lemma table_in_entries p e : p ∈ ms -> e ∈ p.2 -> e ∈ inputs.
Proof. intros Hp He. apply from_inputs, elem_concat. by exists p. Qed.

(** Its bounds are keys of inputs. *)
Lemma table_in_bounds p : p ∈ ms -> exists f f', f ∈ all_inputs c0 /\ f' ∈ all_inputs c0 /\
  icmp (f_smallest f) (smallest p.1) <> Gt /\ icmp (largest p.1) (f_largest f') <> Gt /\
  ucmp (f_smallest_user f) (ExtractUserKey (smallest p.1)) <> Gt /\ ucmp (ExtractUserKey (largest p.1)) (f_largest_user f') <> Gt.
Proof.
  intros Hp. destruct (table_in p Hp) as ((_ & _ & _ & _ & (e0 & E0 & Es) & (e1 & E1 & El) & _) & _).
  assert (H0 : e0 ∈ inputs) by (apply (table_in_entries p e0 Hp); by eapply list_elem_of_lookup_2).
  assert (H1 : e1 ∈ inputs) by (apply (table_in_entries p e1 Hp); by eapply last_Some_elem_of).
  apply elem_concat in H0 as (f & Hf & H0). apply elem_concat in H1 as (f' & Hf' & H1). exists f, f'. split; [done|]. split; [done|].
  pose proof (input_file_ok _ _ _ v0_ok is_chosen f Hf) as Hfo. pose proof (input_file_ok _ _ _ v0_ok is_chosen f' Hf') as Hfo'.
  assert (Eu : forall e, ExtractUserKey (entry_ikey e) = e_user_key e) by (intros e; apply ExtractUserKey_InternalKey). rewrite Es, El, !Eu. split; [by apply (file_bounds contents0 f e0 Hfo)|]. split; [by apply (file_bounds contents0 f' e1 Hfo')|].
  split; [by apply (file_user_bounds contents0 f e0 Hfo)|by apply (file_user_bounds contents0 f' e1 Hfo')].
Qed.

Lemma old_separate f p : f ∈ level_files v0 (L + 1) -> f ∉ c_inputs1 c0 -> p ∈ ms -> separate (C := U) (file_id (f_meta f)) (file_id p.1).
Proof.
  intros Hf Hno Hp. destruct (table_in_bounds p Hp) as (x & y & Hx & Hy & B1 & B2 & _ & _). destruct (ch_sides _ _ _ is_chosen f Hf Hno) as [Hs|Hs].
  - left. apply (Compare_lt_le_trans (C := InternalKeyComparator U) _ (f_smallest x)); [by apply Hs|exact B1].
  - right. apply (Compare_le_lt_trans (C := InternalKeyComparator U) _ (f_largest y)); [exact B2|by apply Hs].
Qed.

Lemma joined_separate i p : joined (L + 1) i -> p ∈ ms -> separate (C := U) i (file_id p.1).
Proof.
  intros Hj Hp. destruct (table_in_bounds p Hp) as (x & y & Hx & Hy & _ & _ & B1 & B2).
  destruct (ch_connected _ _ _ is_chosen (ExtractUserKey i.1.2) (ExtractUserKey i.2)) as [Hs|Hs].
  - destruct Hj as [_ (z & Hz & ->)%level_ids_elem]. by apply ikey_le_user, (file_keys_le (table_contents sst)), (vo_files _ _ v_ok (L + 1)).
  - intros f Hf. by apply (joined_no_overlap (L + 1) i f Hj).
  - left. change (icmp i.2 (smallest p.1) = Lt). rewrite InternalKey_Compare_eq_spec. by rewrite (Compare_lt_le_trans _ _ _ (Hs x Hx) B1).
  - right. change (icmp (largest p.1) i.1.2 = Lt). rewrite InternalKey_Compare_eq_spec. by rewrite (Compare_le_lt_trans _ _ _ B2 (Hs y Hy)).
Qed.

(** ** The edit *)

Context (edit : VersionEdit).
Record compaction_edit : Prop := {
  ce_ok : edit_ok edit;
  ce_plain : has_comparator_ edit = false /\ has_log_number_ edit = false;
  ce_dels : forall lvl n, n ∈ edit_dels lvl edit <-> (lvl = L /\ n ∈ map f_number (c_inputs0 c0)) \/ (lvl = (L + 1)%nat /\ n ∈ map f_number (c_inputs1 c0));
  ce_adds : forall lvl, map file_id (edit_adds lvl edit) = if decide (lvl = (L + 1)%nat) then map (fun p => file_id p.1) ms else [];
}.
Context (edit_is : compaction_edit).

(** A table of the version that is not an input. *)
Definition stays (lvl : nat) (i : table_id) : Prop := i ∈ level_ids v lvl /\ id_number i ∉ edit_dels lvl edit.

Lemma edited_ids lvl i : i ∈ apply_ref lvl (level_ids v lvl) edit <-> stays lvl i \/ (lvl = (L + 1)%nat /\ exists p, p ∈ ms /\ i = file_id p.1).
Proof.
  rewrite apply_ref_elem, (ce_adds edit_is). unfold stays. case_decide as Hl; [|split; [intros [?|Hx]; [by left|by apply elem_of_nil in Hx]|intros [?|[? _]]; [by left|done]]].
  split; (intros [?|H0]; [by left|right]).
  - split; [done|]. apply list_elem_of_fmap in H0 as (p & -> & Hp). by exists p.
  - destruct H0 as (_ & p & Hp & ->). by apply (list_elem_of_fmap_2 (fun p => file_id p.1)).
Qed.

Lemma stays_not_input lvl f : stays lvl (file_id (f_meta f)) -> (lvl = L -> f ∉ c_inputs0 c0) /\ (lvl = (L + 1)%nat -> f ∉ c_inputs1 c0).
Proof.
  intros [_ Hn]. rewrite (ce_dels edit_is) in Hn. split; intros -> Hf; apply Hn; [left|right]; (split; [done|]); by apply (list_elem_of_fmap_2 f_number).
Qed.

Lemma stays_cases lvl i : stays lvl i ->
  (exists f, f ∈ level_files v0 lvl /\ i = file_id (f_meta f) /\ (lvl = L -> f ∉ c_inputs0 c0) /\ (lvl = (L + 1)%nat -> f ∉ c_inputs1 c0)) \/ joined lvl i.
Proof.
  intros Hs. destruct (table_cases lvl i (proj1 Hs)) as [(f & Hf & ->)|Hj]; [left|by right]. exists f. split; [done|]. split; [done|]. by apply stays_not_input.
Qed.

(** An entry of a table that goes is one of the inputs'. *)
Lemma goes_input lvl i : i ∈ level_ids v lvl -> id_number i ∈ edit_dels lvl edit -> exists f, f ∈ all_inputs c0 /\ i = file_id (f_meta f).
Proof.
  intros Hi Hd. assert (Hpick : forall fs, (forall f, f ∈ fs -> f ∈ level_files v0 lvl) -> id_number i ∈ map f_number fs -> exists f, f ∈ fs /\ i = file_id (f_meta f)).
  { intros fs Hfs (f & En & Hf)%list_elem_of_fmap. exists f. split; [done|]. pose proof (old_stays lvl f (Hfs f Hf)) as Hf'.
    apply level_ids_elem in Hi as (x & Hx & ->). apply level_ids_elem in Hf' as (y & Hy & Ey). rewrite Ey. f_equal.
    assert (Exy : f_number x = f_number y) by (change (id_number (file_id (f_meta x))) with (f_number x) in En; rewrite En; by injection Ey).
    apply list_elem_of_lookup in Hx as [j Hj]. apply list_elem_of_lookup in Hy as [k Hk].
    assert (j = k); [|by simplify_eq]. eapply (NoDup_lookup (map f_number (level_files v lvl))); [exact (ma_distinct _ _ _ (iv_managed _ _ _ _ _ _ _ _ _ _ good1) lvl)| |];
      rewrite list_lookup_fmap; [by rewrite Hj|by rewrite Hk, Exy]. }
  apply (ce_dels edit_is) in Hd as [[-> Hd]|[-> Hd]].
  - destruct (Hpick (c_inputs0 c0)) as (f & Hf & Ei); [apply is_chosen|done|]. exists f. split; [apply elem_of_app; by left|done].
  - destruct (Hpick (c_inputs1 c0)) as (f & Hf & Ei); [apply is_chosen|done|]. exists f. split; [apply elem_of_app; by right|done].
Qed.

(** *** The tables fit together *)

Lemma stays_above lvl i : stays lvl i -> (lvl <= L + 1)%nat -> newer (id_entries sst i) inputs.
Proof.
  intros [(f & Hf & -> & H0 & H1)|Hj]%stays_cases Hl.
  - rewrite (proj1 (old_contents lvl f Hf)). by apply (above_newer contents0 v0 c0 v0_ok is_chosen lvl).
  - intros e e' He He'. apply (joined_newer lvl i Hj e e' He). apply elem_of_app. by left.
Qed.

Lemma stays_below lvl i : stays lvl i -> (L + 2 <= lvl)%nat -> newer inputs (id_entries sst i).
Proof.
  intros [(f & Hf & -> & _ & _)|Hj]%stays_cases Hl.
  - rewrite (proj1 (old_contents lvl f Hf)). by apply (below_older contents0 v0 c0 v0_ok is_chosen lvl).
  - intros e e' He He' Heq. by destruct (joined_apart lvl i e e' Hj ltac:(lia) He He').
Qed.

Lemma v_ids_ok : ids_ok (C := U) sst (level_ids v).
Proof. apply version_ok_ids; [exact v_holds|exact (ma_distinct _ _ _ (iv_managed _ _ _ _ _ _ _ _ _ _ good1) 0%nat)|exact v_ok]. Qed.

Lemma edited_ids_ok : ids_ok (C := U) sst (fun lvl => apply_ref lvl (level_ids v lvl) edit).
Proof.
  destruct v_ids_ok as [D1 D2 D3].
  assert (Hsub : forall p e, p ∈ ms -> e ∈ id_entries sst (file_id p.1) -> e ∈ inputs).
  { intros p e Hp He. destruct (table_in p Hp) as (Ht & _). destruct (table_of_id _ _ _ _ Ht) as (_ & Ee & _). rewrite Ee in He. by eapply table_in_entries. }
  split.
  - intros lvl i [[Hi _]|(_ & p & Hp & ->)]%edited_ids; [by apply (D1 lvl)|]. destruct (table_in p Hp) as (Ht & _). by eapply table_of_id.
  - intros lvl lvl' i j Hl [Hi|(-> & p & Hp & ->)]%edited_ids [Hj|(-> & q & Hq & ->)]%edited_ids.
    + apply (D2 lvl lvl'); [done|apply Hi|apply Hj].
    + eapply newer_elem; [by intros e He; exact He| |apply (stays_above lvl i Hi); lia]. intros e. by apply Hsub.
    + eapply newer_elem; [|by intros e He; exact He|apply (stays_below lvl' j Hj); lia]. intros e. by apply Hsub.
    + lia.
  - intros i j [[Hi _]|(? & _)]%edited_ids [[Hj _]|(? & _)]%edited_ids; [by apply D3|lia|lia|lia].
Qed.

Lemma edited_disjoint lvl : (1 <= lvl < kNumLevels)%nat -> ids_disjoint (C := U) (apply_ref lvl (level_ids v lvl) edit).
Proof.
  intros Hl. destruct (level_pairwise sst v lvl v_ok ltac:(lia)) as [Hp Hb]. apply pairwise_disjoint.
  - intros i [[Hi _]|(_ & p & Hp' & ->)]%edited_ids; [by apply Hb|]. destruct (table_in p Hp') as (Ht & _). destruct (table_of_id _ _ _ _ Ht) as (Hid & _ & _).
    set (x := mkFilePtr 0 p.1). change (file_id p.1) with (file_id (f_meta x)) in *. apply id_ok_file, file_ok_bounds in Hid as (_ & _ & _ & _ & _ & _ & Hx). exact Hx.
  - assert (Hsep : forall i p, stays (L + 1) i -> p ∈ ms -> separate (C := U) i (file_id p.1)).
    { intros i p Hs Hp'. destruct (stays_cases _ _ Hs) as [(f & Hf & -> & _ & Hno)|Hj]; [by apply old_separate; auto|by apply joined_separate]. }
    intros i j [Hi|(-> & p & Hp' & ->)]%edited_ids [Hj|(El & q & Hq & ->)]%edited_ids.
    + apply Hp; [apply Hi|apply Hj].
    + right. subst lvl. by apply Hsep.
    + right. destruct (Hsep j p Hj Hp') as [Hs|Hs]; [by right|by left].
    + apply (runs_separate sst ms); [|exact cut|by apply (list_elem_of_fmap_2 (fun p => file_id p.1))|by apply (list_elem_of_fmap_2 (fun p => file_id p.1))].
      eapply Forall_impl; [exact tables|]. by intros ? [? _].
Qed.

Lemma compaction_installable : installable (raf_contents := raf_contents) Snappy Zstd (U := U) (o := o) comparator_name dbname sst edit v db.
Proof.
  destruct (ce_plain edit_is) as [Hc0 Hl0]. assert (Hnums : forall lvl, map number (edit_adds lvl edit) = if decide (lvl = (L + 1)%nat) then map (fun p => number p.1) ms else []).
  { intros lvl. pose proof (f_equal (map id_number) (ce_adds edit_is lvl)) as Em. rewrite map_map in Em. change (fun x => id_number (file_id x)) with number in Em. rewrite Em.
    case_decide; [|done]. by rewrite map_map. }
  split.
  - split; [apply edit_is|by rewrite Hc0|by rewrite Hl0| |exact edited_disjoint|].
    + intros lvl. rewrite Hnums. pose proof (ma_distinct _ _ _ (iv_managed _ _ _ _ _ _ _ _ _ _ good1) lvl) as Hd. case_decide as Hl; [|by rewrite app_nil_r].
      subst lvl. apply NoDup_app. split; [exact Hd|]. split; [|exact distinct]. intros n (f & -> & Hf)%list_elem_of_fmap (p & En & Hp)%list_elem_of_fmap.
      destruct (table_in p Hp) as (_ & _ & _ & Hno). apply (Hno (file_id (f_meta f))); [apply level_ids_elem; by exists f|exact En].
    + intros lvl mt Hm. assert (Hn : number mt ∈ map number (edit_adds lvl edit)) by by apply list_elem_of_fmap_2. rewrite Hnums in Hn.
      case_decide; [|by apply elem_of_nil in Hn]. apply list_elem_of_fmap in Hn as (p & -> & Hp). by apply (table_in p Hp).
  - exact edited_ids_ok.
  - intros lvl i [[Hi _]|(_ & p & Hp & ->)]%edited_ids.
    + apply level_ids_elem in Hi as (f & Hf & ->). destruct (current_in Snappy Zstd dbname _ _ _ _ _ _ _ good1) as (a & nd & _ & _ & Hnd & Ev). rewrite <- Ev in Hf.
      by apply (iv_live _ _ _ _ _ _ _ _ _ _ good1 nd lvl f Hnd Hf).
    + destruct (table_in p Hp) as (Ht & Hh & _). destruct (table_of_id _ _ _ _ Ht) as (_ & Ee & _). rewrite Ee. exact Hh.
  - by rewrite Hl0.
Qed.

(** *** What can be read *)

(** The tables that stay, but for the old ones under the outputs. *)
Definition upper_tables : list Entry :=
  concat (map (fun lvl => concat (map (id_entries sst) (List.filter (fun i => negb (bool_decide (id_number i ∈ edit_dels lvl edit)) &&
    negb ((L + 2 <=? lvl)%nat && bool_decide (i ∈ level_ids v0 lvl))) (level_ids v lvl)))) (seq 0 kNumLevels)).

Lemma upper_elem e : e ∈ upper_tables <-> exists lvl i, stays lvl i /\ ~ ((L + 2 <= lvl)%nat /\ i ∈ level_ids v0 lvl) /\ e ∈ id_entries sst i.
Proof.
  unfold upper_tables. rewrite elem_concat. split.
  - intros (lvl & _ & (i & Hi & He)%elem_concat). apply list_elem_of_In, filter_In in Hi as [Hi%list_elem_of_In [H1%negb_true_iff%bool_decide_eq_false H2%negb_true_iff]%andb_prop].
    exists lvl, i. split; [done|]. split; [|done]. intros [Hl Hin]. rewrite (proj2 (Nat.leb_le _ _) Hl), bool_decide_eq_true_2 in H2; done.
  - intros (lvl & i & [Hi Hn] & Ho & He). exists lvl. split; [apply elem_of_seq; pose proof (holds_level _ _ _ v_holds Hi); lia|]. apply elem_concat. exists i. split; [|done].
    apply list_elem_of_In, filter_In. split; [by apply list_elem_of_In|]. apply andb_true_intro. split; [by apply negb_true_iff, bool_decide_eq_false|].
    apply negb_true_iff, not_true_iff_false. intros [H1%Nat.leb_le H2%bool_decide_eq_true]%andb_prop. by apply Ho.
Qed.

Lemma deeper_old e : e ∈ deeper_entries contents0 v0 L <-> exists lvl i, (L + 2 <= lvl)%nat /\ i ∈ level_ids v0 lvl /\ e ∈ id_entries sst i.
Proof.
  rewrite (deeper_elem _ _ _ is_chosen). split.
  - intros (lvl & f & Hl & Hf & He). exists lvl, (file_id (f_meta f)). split; [lia|]. split; [apply level_ids_elem; by exists f|]. by rewrite (proj1 (old_contents lvl f Hf)).
  - intros (lvl & i & Hl & Hi & He). pose proof (holds_level _ _ _ v0_holds Hi). apply level_ids_elem in Hi as (f & Hf & ->). exists lvl, f. split; [lia|]. split; [done|].
    by rewrite <- (proj1 (old_contents lvl f Hf)).
Qed.

(** An old table below the outputs stays. *)
Lemma deeper_stays lvl i : (L + 2 <= lvl)%nat -> i ∈ level_ids v0 lvl -> stays lvl i.
Proof.
  intros Hl (f & Hf & ->)%level_ids_elem. split; [by apply old_stays|]. rewrite (ce_dels edit_is). intros [[-> _]|[-> _]]; lia.
Qed.

Lemma before_entries e : e ∈ version_entries (table_contents sst) v <-> e ∈ upper_tables ++ inputs ++ deeper_entries contents0 v0 L.
Proof.
  rewrite version_entries_ids by exact v_holds. rewrite !elem_of_app, upper_elem, deeper_old. split.
  - intros (lvl & i & Hi & He). destruct (decide (id_number i ∈ edit_dels lvl edit)) as [Hd|Hd].
    + destruct (goes_input lvl i Hi Hd) as (f & Hf & ->). right. left. apply elem_concat. exists f. split; [done|].
      apply (input_file _ _ _ is_chosen) in Hf as [[_ Hf]|[_ Hf]]; by rewrite <- (proj1 (old_contents _ f Hf)).
    + destruct (decide ((L + 2 <= lvl)%nat /\ i ∈ level_ids v0 lvl)) as [[H1 H2]|Hno]; [right; right; eauto|]. left. exists lvl, i. by split.
  - intros [(lvl & i & [Hi _] & _ & He)|[(f & Hf & He)%elem_concat|(lvl & i & Hl & Hi & He)]].
    + eauto.
    + apply (input_file _ _ _ is_chosen) in Hf as [[_ Hf]|[_ Hf]]; eexists _, (file_id (f_meta f)); (split; [by apply old_stays|]); by rewrite (proj1 (old_contents _ f Hf)).
    + exists lvl, i. split; [by apply deeper_stays|done].
Qed.

Lemma after_entries v' : holds U v' (level_ids v') -> (forall lvl i, (lvl < kNumLevels)%nat -> i ∈ level_ids v' lvl <-> i ∈ apply_ref lvl (level_ids v lvl) edit) ->
  forall e, e ∈ version_entries (table_contents sst) v' <-> e ∈ upper_tables ++ ks ++ deeper_entries contents0 v0 L.
Proof.
  intros Hh Hv' e. rewrite version_entries_ids by exact Hh. rewrite !elem_of_app, upper_elem, deeper_old. split.
  - intros (lvl & i & Hi & He). pose proof (holds_level _ _ _ Hh Hi) as Hl. apply Hv', edited_ids in Hi as [Hi|(_ & p & Hp & ->)]; [| |done].
    + destruct (decide ((L + 2 <= lvl)%nat /\ i ∈ level_ids v0 lvl)) as [[H1 H2]|Hno]; [right; right; eauto|]. left. by exists lvl, i.
    + right. left. destruct (table_in p Hp) as (Ht & _). destruct (table_of_id _ _ _ _ Ht) as (_ & Ee & _). rewrite Ee in He. apply elem_concat. by exists p.
  - intros [(lvl & i & Hi & _ & He)|[(p & Hp & He)%elem_concat|(lvl & i & Hl & Hi & He)]].
    + exists lvl, i. split; [|done]. apply Hv', edited_ids; [|by left]. exact (holds_level _ _ _ v_holds (proj1 Hi)).
    + exists (L + 1)%nat, (file_id p.1). split; [apply Hv', edited_ids; [pose proof (ch_level _ _ _ is_chosen); lia|right; eauto]|].
      destruct (table_in p Hp) as (Ht & _). destruct (table_of_id _ _ _ _ Ht) as (_ & Ee & _). by rewrite Ee.
    + exists lvl, i. split; [|done]. apply Hv', edited_ids; [exact (holds_level _ _ _ v0_holds Hi)|left; by apply deeper_stays].
Qed.

Lemma upper_newer : newer upper_tables (inputs ++ deeper_entries contents0 v0 L).
Proof.
  intros e e' (lvl & i & Hi & Ho & He)%upper_elem He'. destruct (stays_cases lvl i Hi) as [(f & Hf & -> & H0 & H1)|Hj]; [|by apply (joined_newer lvl i Hj)].
  assert (Hl : (lvl <= L + 1)%nat).
  { destruct (Nat.le_gt_cases lvl (L + 1)) as [?|Hgt]; [done|]. exfalso. apply Ho. split; [lia|]. apply level_ids_elem. by exists f. }
  rewrite (proj1 (old_contents lvl f Hf)) in He. apply elem_of_app in He' as [He'|He']; [by apply (above_newer contents0 v0 c0 v0_ok is_chosen lvl f)|].
  apply (deeper_elem _ _ _ is_chosen) in He' as (lvl' & f' & Hl' & Hf' & He'). apply (vo_levels _ _ v0_ok lvl lvl' ltac:(lia)); by eapply file_level_entries.
Qed.

(** Nothing is read that was not there. *)
Lemma after_sub v' : holds U v' (level_ids v') -> (forall lvl i, (lvl < kNumLevels)%nat -> i ∈ level_ids v' lvl <-> i ∈ apply_ref lvl (level_ids v lvl) edit) ->
  forall e, e ∈ version_entries (table_contents sst) v' -> e ∈ version_entries (table_contents sst) v.
Proof.
  intros Hh Hv' e. rewrite (after_entries v' Hh Hv'), before_entries, !elem_of_app. intros [?|[?|?]]; auto.
Qed.

(** Reads of the inputs, under newer entries, and of what is kept of them. *)
Definition keeps_reads (snap : Z) : Prop := forall new u s r, newer new (inputs ++ deeper_entries contents0 v0 L) -> snap <= s ->
  read_value (C := U) u s (new ++ inputs ++ deeper_entries contents0 v0 L) r -> read_value (C := U) u s (new ++ ks ++ deeper_entries contents0 v0 L) r.

Lemma installed_reads snap v' u s r :
  keeps_reads snap -> holds U v' (level_ids v') -> (forall lvl i, (lvl < kNumLevels)%nat -> i ∈ level_ids v' lvl <-> i ∈ apply_ref lvl (level_ids v lvl) edit) -> snap <= s ->
  read_value (C := U) u s (g_ments g ++ g_iments g ++ version_entries (table_contents sst) v) r ->
  read_value (C := U) u s (g_ments g ++ g_iments g ++ version_entries (table_contents sst) v') r.
Proof.
  intros Hk Hh Hv' Hs Hr. set (new := (g_ments g ++ g_iments g) ++ upper_tables).
  apply (read_value_ext u s (new ++ ks ++ deeper_entries contents0 v0 L)); [intros e; pose proof (after_entries v' Hh Hv' e) as Ha; unfold new; rewrite !elem_of_app in *; tauto|].
  apply Hk; [|done|].
  - apply newer_app_l. split; [|exact upper_newer]. apply newer_app_l. split; (eapply newer_elem; [by intros e He; exact He| |]);
      [|exact (iv_newer_mem _ _ _ _ _ _ _ _ _ _ good1)| |exact (iv_newer_imm _ _ _ _ _ _ _ _ _ _ good1)]; intros e He.
    + apply elem_of_app. right. apply before_entries, elem_of_app. by right.
    + apply before_entries, elem_of_app. by right.
  - eapply read_value_ext; [|exact Hr]. intros e. pose proof (before_entries e) as Hb. unfold new. rewrite !elem_of_app in *. tauto.
Qed.

Definition all_entries g : list Entry := g_ments g ++ g_iments g ++ version_entries (table_contents (g_sst g)) (g_v g).

(** ** [LogAndApply] *)

(** The edit is applied, or nothing changes. *)
Lemma install_spec (others : DB -> DB) c' b' snap :
  b = (c' + b')%nat -> rely (raf_contents := raf_contents) (wf_contents := wf_contents) (c_ok := c_ok) (bc_holds := bc_holds) (bc_next := bc_next) Snappy Zstd (U := U) (o := o) dbname c' others ->
  keeps_reads snap ->
  exists s e g' db', LogAndApply_unlocked U comparator_name dbname others edit db = Some (s, e, db') /\ good b' held g' db' /\ g_sst g' = sst /\
    vs_last_sequence (db_versions db) <= vs_last_sequence (db_versions db') /\ pending_outputs_ db' = pending_outputs_ db /\
    (shutting_down_ (db_shared db) = true -> shutting_down_ (db_shared db') = true) /\
    (if ok s then forall lvl i, (lvl < kNumLevels)%nat -> i ∈ level_ids (g_v g') lvl <-> i ∈ apply_ref lvl (level_ids v lvl) edit else files_ (g_v g') = files_ v) /\
    forall u sq r, snap <= sq <= vs_last_sequence (db_versions db) -> read_value (C := U) u sq (all_entries g) r -> read_value (C := U) u sq (all_entries g') r.
Proof.
  intros Hb Hr Hk. pose proof good1 as Hg. rewrite Hb in Hg.
  destruct (LogAndApply_inv Snappy Zstd comparator_name dbname others c' sst b' held (g_ments g) (g_iments g) v db edit Hg Hr compaction_installable)
    as (s & e & db' & ments' & iments' & v1 & E1 & Ef & (new & N1 & N2 & N3) & _ & Hlast & Hpend & Hnm & Huq & _ & _ & Hsd & (Hm & Hni & Hfit) & Hres).
  assert (Hgrow : forall u sq r, sq <= vs_last_sequence (db_versions db) -> forall ve, read_value (C := U) u sq (g_ments g ++ g_iments g ++ ve) r <-> read_value (C := U) u sq (ments' ++ iments' ++ ve) r).
  { intros u sq r Hsq ve. rewrite <- (read_value_past u sq new); [|eapply Forall_impl; [exact N2|cbn; lia]].
    split; apply read_value_ext; intros x; specialize (N3 x); rewrite !elem_of_app in *; tauto. }
  exists s, e. destruct (ok s) eqn:Es.
  - destruct Hres as (v' & Hv' & Hh & Hinv). pose proof (after_sub v' Hh Hv') as Hsub. exists (mkGhost sst ments' iments' v'), db'. split; [exact E1|].
    split; [|split; [done|]; do 3 (split; [done|]); split; [exact Hv'|]].
    + replace db' with (with_db_imm (db_imm db') db') by by destruct db'. apply Hinv; [exact Hm| | | |exact Hfit].
      * eapply newer_elem; [by intros x Hx; exact Hx| |exact Hnm]. intros x. rewrite !elem_of_app. intros [?|?]; auto.
      * eapply newer_elem; [by intros x Hx; exact Hx|exact Hsub|exact Hni].
      * eapply unique_keys_sub; [|exact Huq]. intros x. rewrite !elem_of_app. intros [?|[?|?]]; auto.
    + intros u sq r Hsq Hrd. unfold all_entries. cbn [g_sst g_ments g_iments g_v]. apply Hgrow; [lia|]. by apply (installed_reads snap v' u sq r Hk Hh Hv' ltac:(lia)).
  - exists (mkGhost sst ments' iments' v1), db'. split; [exact E1|]. split; [exact Hres|]. split; [done|]. do 3 (split; [done|]). split; [exact Ef|].
    intros u sq r Hsq Hrd. unfold all_entries. cbn [g_sst g_ments g_iments g_v]. apply Hgrow; [lia|]. by rewrite (version_entries_files _ _ _ Ef).
Qed.
End Install.
