(* ===== verification/CompactionInput.v ===== *)
(** * The input of a compaction, sorted

    No entry is in two tables of a version, so the entries of a compaction's inputs
    have one sorted list, which [MakeInputIterator] goes through. *)

From Stdlib Require Import Sorted.
From stdpp Require Import gmap sorting.
From S2P Require Import Prelude Coding Comparator Crc32c Bloom DbFormat Status Iterator BlockBuilder Block Format FilterBlock TableBuilder Table SkipList MemTable UserView MemIter.
From S2P Require Import VersionEdit Options Version VersionGet Overlap InternalTable TableCache BuildTable LogWriter Filename Compaction InputIterator CompactionDrop VersionBuilder VersionSet Manifest Install Levels InputLaws.
From S2P Require Import DBImpl DBGet LSM Obsolete Recovery LogRecovery Invariant InstallEdit Evolve CompactMemTable DoCompaction CompactionRun CompactionInstall.

(** ** Sorting entries *)

Section Sort.
Context {U : Comparator} {UL : ComparatorLaws U}.
Notation icmp := (InternalKey_Compare U).
Notation ucmp := (Compare (Comparator := U)).

Definition entry_le (e e' : Entry) : Prop := icmp (entry_ikey e) (entry_ikey e') <> Gt.

#[local] Instance entry_le_decision e e' : Decision (entry_le e e').
Proof. unfold entry_le. apply _. Defined.

#[local] Instance entry_le_transitive : Transitive entry_le.
Proof. intros x y z Hxy Hyz. by apply (Compare_le_trans (C := InternalKeyComparator U) _ (entry_ikey y)). Qed.

#[local] Instance entry_le_total : Total entry_le.
Proof.
  intros x y. unfold entry_le. generalize (entry_ikey x) as a, (entry_ikey y) as b. intros a b.
  pose proof (Compare_antisym (C := InternalKeyComparator U) a b) as Ha. cbn in Ha. rewrite Ha. destruct (icmp a b); [by left|by left|by right].
Qed.

(** Different entries have different keys. *)
Lemma icmp_unique es e e' : Forall entry_ok es -> unique_keys (U := U) es -> e ∈ es -> e' ∈ es -> icmp (entry_ikey e) (entry_ikey e') = Eq -> e = e'.
Proof.
  intros Hok Hu He He' Heq. rewrite Forall_forall in Hok. destruct (Hok e He) as [Hs _], (Hok e' He') as [Hs' _]. unfold entry_ikey in Heq.
  rewrite InternalKey_Compare_encoded in Heq by done. destruct (ucmp (e_user_key e) (e_user_key e')) eqn:Ek; [|done..].
  apply Hu; [done|done|done|]. destruct (Z.compare_spec (e_seq e') (e_seq e)); [lia|done..].
Qed.

Lemma sort_entries es : Forall entry_ok es -> NoDup es -> unique_keys (U := U) es -> exists es', es' ≡ₚ es /\ entries_sorted U es'.
Proof.
  intros Hok Hnd Hu. exists (merge_sort entry_le es). pose proof (merge_sort_Permutation entry_le es) as Hp. split; [done|].
  pose proof (StronglySorted_merge_sort entry_le es) as Hs. rewrite <- Hp in Hnd.
  assert (Hin : forall e, e ∈ merge_sort entry_le es -> e ∈ es) by (intros e; by rewrite Hp). revert Hs Hnd Hin. generalize (merge_sort entry_le es). clear Hp.
  intros l Hs. unfold entries_sorted, kvs_sorted. induction Hs as [|x l Hs IH Hx]; intros Hnd Hin; cbn [map]; [constructor|]. apply NoDup_cons in Hnd as [Hnx Hnd].
  constructor; [apply IH; [done|]; intros e He; apply Hin; by right|]. apply Forall_forall. intros kv (y & -> & Hy)%list_elem_of_fmap. rewrite Forall_forall in Hx.
  specialize (Hx y Hy). unfold kv_lt. cbn [fst entry_kv]. change (icmp (entry_ikey x) (entry_ikey y) = Lt). destruct (icmp (entry_ikey x) (entry_ikey y)) eqn:Ec; [|done|done].
  rewrite (icmp_unique es x y Hok Hu (Hin x ltac:(by left)) (Hin y ltac:(by right)) Ec) in Hnx. done.
Qed.

Lemma sorted_index es i j e : entries_sorted U es -> es !! i = Some e -> es !! j = Some e -> i = j.
Proof.
  intros Hs Hi Hj. assert (Hlt : forall a b, es !! a = Some e -> es !! b = Some e -> (a < b)%nat -> False).
  { intros a b Ha Hb Hab. pose proof (kvs_sorted_lookup (C := InternalKeyComparator U) (map entry_kv es) a b (entry_ikey e) (e_value e) (entry_ikey e) (e_value e) Hs) as Hx.
    rewrite !list_lookup_fmap, Ha, Hb in Hx. specialize (Hx eq_refl eq_refl Hab). by rewrite Compare_refl in Hx. }
  destruct (Nat.lt_total i j) as [?|[?|?]]; [by destruct (Hlt i j)|done|by destruct (Hlt j i)].
Qed.

Lemma sorted_distinct es : entries_sorted U es -> unique_keys (U := U) es -> seqs_distinct (C := U) es.
Proof.
  intros Hs Hu i j e e' Hi Hj Hk Hq. assert (Ee : e = e') by (apply Hu; [by eapply list_elem_of_lookup_2..|done|done]). subst e'. by eapply sorted_index.
Qed.

Lemma sorted_distinct_entries es : entries_sorted U es -> NoDup es.
Proof. intros Hs. apply NoDup_alt. intros i j e. by apply sorted_index. Qed.
End Sort.

Lemma NoDup_concat_map {A} (f : A -> list Entry) l :
  NoDup l -> (forall x, x ∈ l -> NoDup (f x)) -> (forall x y z, x ∈ l -> y ∈ l -> x <> y -> z ∈ f x -> z ∈ f y -> False) -> NoDup (concat (map f l)).
Proof.
  induction 1 as [|x l Hx Hl IH]; intros H1 H2; [constructor|]. cbn [map concat]. apply NoDup_app. split; [apply H1; by left|]. split.
  - intros z Hz (y & Hy & Hzy)%elem_concat. apply (H2 x y z); [by left|by right| |done|done]. by intros ->.
  - apply IH; [intros y Hy; apply H1; by right|]. intros y y' z Hy Hy'. apply H2; by right.
Qed.

(** ** The inputs *)

Section Inputs.
Context {U : Comparator} {UL : ComparatorLaws U}.
Context (contents : FilePtr -> list Entry) (v : Version) (c : Compaction) (v_ok : version_ok (C := U) contents v) (is_chosen : chosen (U := U) contents v c).
Notation L := (c_level c).

(** No entry is in two tables. *)
Lemma files_disjoint lvl lvl' f g e : f ∈ level_files v lvl -> g ∈ level_files v lvl' -> e ∈ contents f -> e ∈ contents g -> lvl = lvl' /\ f = g.
Proof.
  intros Hf Hg He He'. assert (Hno : forall a b, newer (C := U) (contents a) (contents b) -> e ∈ contents a -> e ∈ contents b -> False).
  { intros a b Hn Ha Hb. specialize (Hn e e Ha Hb (Compare_refl _)). lia. }
  assert (Hlev : forall a b x y, (a < b)%nat -> x ∈ level_files v a -> y ∈ level_files v b -> e ∈ contents x -> e ∈ contents y -> False).
  { intros a b x y Hl Hx Hy Hex Hey. assert (Hn : e_seq e < e_seq e); [|lia]. apply (vo_levels _ _ v_ok a b Hl); [by eapply file_level_entries..|apply Compare_refl]. }
  assert (lvl = lvl') as <-.
  { destruct (Nat.lt_total lvl lvl') as [?|[?|?]]; [by destruct (Hlev lvl lvl' f g)|done|by destruct (Hlev lvl' lvl g f)]. }
  split; [done|]. destruct (decide (lvl = 0%nat)) as [->|Hne].
  - destruct (Z.lt_total (f_number f) (f_number g)) as [Hlt|[Heq|Hlt]].
    + by destruct (Hno g f (vo_level0 _ _ v_ok g f Hg Hf Hlt)).
    + apply list_elem_of_lookup in Hf as [i Hi]. apply list_elem_of_lookup in Hg as [j Hj]. assert (i = j); [|by simplify_eq].
      eapply (NoDup_lookup _ _ _ (f_number f) (vo_numbers _ _ v_ok)); rewrite list_lookup_fmap; [by rewrite Hi|by rewrite Hj, Heq].
    + by destruct (Hno f g (vo_level0 _ _ v_ok f g Hf Hg Hlt)).
  - pose proof (vo_files _ _ v_ok _ _ Hf) as Hfo. pose proof (vo_files _ _ v_ok _ _ Hg) as Hgo.
    destruct (file_bounds _ f e Hfo He) as [F1 F2]. destruct (file_bounds _ g e Hgo He') as [G1 G2].
    apply list_elem_of_lookup in Hf as [i Hi]. apply list_elem_of_lookup in Hg as [j Hj].
    assert (Hlt : forall a b, InternalKey_Compare U (f_largest a) (f_smallest b) = Lt -> InternalKey_Compare U (entry_ikey e) (f_largest a) <> Gt -> InternalKey_Compare U (f_smallest b) (entry_ikey e) <> Gt -> False).
    { intros a b H1 H2 H3. pose proof (Compare_lt_le_trans (C := InternalKeyComparator U) _ _ _ (Compare_le_lt_trans (C := InternalKeyComparator U) _ _ _ H2 H1) H3) as Hx.
      by rewrite Compare_refl in Hx. }
    destruct (Nat.lt_total i j) as [Hij|[->|Hij]]; [|by simplify_eq|].
    + by destruct (Hlt f g (vo_sorted _ _ v_ok lvl ltac:(lia) i j f g Hi Hj Hij)).
    + by destruct (Hlt g f (vo_sorted _ _ v_ok lvl ltac:(lia) j i g f Hj Hi Hij)).
Qed.

Lemma contents_nonempty f : VersionGet.file_ok (C := U) contents f -> exists e, e ∈ contents f.
Proof. intros [_ _ (e & He & _) _]. exists e. by eapply list_elem_of_lookup_2. Qed.

(** Nor is a table twice in a sorted run. *)
Lemma sorted_run_distinct fs : (forall f, f ∈ fs -> VersionGet.file_ok (C := U) contents f) -> files_sorted (C := U) fs -> NoDup fs.
Proof.
  intros Hf Hs. apply NoDup_alt. intros i j f Hi Hj. assert (Hlt : forall a b, fs !! a = Some f -> fs !! b = Some f -> (a < b)%nat -> False).
  { intros a b Ha Hb Hab. pose proof (Hs a b f f Ha Hb Hab) as Hx. pose proof (Hf f ltac:(by eapply list_elem_of_lookup_2)) as Hfo.
    destruct (contents_nonempty f Hfo) as [e He]. destruct (file_bounds _ f e Hfo He) as [F1 F2].
    pose proof (Compare_lt_le_trans (C := InternalKeyComparator U) _ _ _ (Compare_le_lt_trans (C := InternalKeyComparator U) _ _ _ F2 Hx) F1) as Hy. by rewrite Compare_refl in Hy. }
  destruct (Nat.lt_total i j) as [?|[?|?]]; [by destruct (Hlt i j)|done|by destruct (Hlt j i)].
Qed.

Lemma inputs_distinct : NoDup (all_inputs c).
Proof.
  apply NoDup_app. split; [apply is_chosen|]. split.
  - intros f H0 H1. apply (ch_inputs0 _ _ _ is_chosen) in H0. apply (ch_inputs1 _ _ _ is_chosen) in H1.
    destruct (contents_nonempty f (vo_files _ _ v_ok _ _ H0)) as [e He]. destruct (files_disjoint _ _ _ _ e H0 H1 He He). lia.
  - apply sorted_run_distinct; [|apply is_chosen]. intros f Hf. apply (input_file_ok _ _ _ v_ok is_chosen). apply elem_of_app. by right.
Qed.

(** No entry is twice in a version. *)
Lemma level_distinct lvl : NoDup (level_files v lvl).
Proof.
  destruct (decide (lvl = 0%nat)) as [->|Hne]; [exact (NoDup_fmap_1 f_number _ (vo_numbers _ _ v_ok))|].
  apply sorted_run_distinct; [exact (vo_files _ _ v_ok lvl)|apply (vo_sorted _ _ v_ok); lia].
Qed.

Lemma version_entries_distinct : NoDup (version_entries contents v).
Proof.
  apply NoDup_concat_map; [apply NoDup_seq| |].
  - intros lvl _. apply NoDup_concat_map; [apply level_distinct| |].
    + intros f Hf. apply (sorted_distinct_entries (U := U)). exact (fo_sorted _ _ (vo_files _ _ v_ok _ _ Hf)).
    + intros f g e Hf Hg Hne He He'. apply Hne. by destruct (files_disjoint _ _ _ _ e Hf Hg He He').
  - intros lvl lvl' e _ _ Hne (f & Hf & He)%elem_concat (g & Hg & He')%elem_concat. apply Hne. by destruct (files_disjoint _ _ _ _ e Hf Hg He He').
Qed.

Lemma input_entries_distinct : NoDup (input_entries contents c).
Proof.
  apply NoDup_concat_map; [exact inputs_distinct| |].
  - intros f Hf. apply (sorted_distinct_entries (U := U)). exact (fo_sorted _ _ (input_file_ok _ _ _ v_ok is_chosen f Hf)).
  - intros f g e Hf Hg Hne He He'. apply Hne. destruct (input_file _ _ _ is_chosen f Hf) as [[_ Hf']|[_ Hf']], (input_file _ _ _ is_chosen g Hg) as [[_ Hg']|[_ Hg']];
      by destruct (files_disjoint _ _ _ _ e Hf' Hg' He He').
Qed.

(** Tables are not empty. *)
Lemma files_le_entries (fs : list FilePtr) : (forall f, f ∈ fs -> exists e, e ∈ contents f) -> (length fs <= length (concat (map contents fs)))%nat.
Proof.
  induction fs as [|f fs IH]; intros Hf; [done|]. cbn [map concat length]. rewrite length_app. specialize (IH ltac:(intros g Hg; apply Hf; by right)).
  destruct (Hf f ltac:(by left)) as [e He]. destruct (contents f); [by apply elem_of_nil in He|cbn; lia].
Qed.
End Inputs.
