(* ===== verification/CompactionChoice.v ===== *)
(** * db/version_set: the choice of a compaction is sound

    [PickCompaction] chooses inputs whose neighbours in their two levels are newer or
    have no user key in common with them, and that leave no gap for a table between
    them: what [chosen] says, and the compaction relies on. *)

From Stdlib Require Import SpecFloat.
From stdpp Require Import gmap sorting.
From S2P Require Import Prelude Coding Comparator DbFormat Status Iterator MemTable UserView.
From S2P Require Import VersionEdit Options Version VersionGet Overlap InternalTable TableCache BuildTable Compaction CompactionDrop VersionBuilder VersionSet Levels.
From S2P Require Import Invariant CompactionInstall CompactionInput.

#[export] Instance FileMetaData_eq_dec : EqDecision FileMetaData.
Proof. solve_decision. Defined.

#[export] Instance FilePtr_eq_dec : EqDecision FilePtr.
Proof. solve_decision. Defined.

Section Choice.
Context {U : Comparator} {UL : ComparatorLaws U}.
Notation IC := (InternalKeyComparator U).
Notation ucmp := (Compare (Comparator := U)).
Notation icmp := (InternalKey_Compare U).
Implicit Types (f g x : FilePtr) (S T F : list FilePtr).

(** ** Ranges *)

Definition in_order f : Prop := icmp (f_smallest f) (f_largest f) <> Gt.

(** One file ends before the other begins. *)
Definition before f g : Prop := icmp (f_largest f) (f_smallest g) = Lt.

Lemma in_order_user f : in_order f -> ucmp (f_smallest_user f) (f_largest_user f) <> Gt.
Proof. apply ikey_le_user. Qed.

Lemma before_user f g : before f g -> ucmp (f_largest_user f) (f_smallest_user g) <> Gt.
Proof. intros Hb. apply ikey_le_user. by rewrite Hb. Qed.

Lemma user_before f g : ucmp (f_largest_user f) (f_smallest_user g) = Lt -> before f g.
Proof. intros Hlt. unfold before. rewrite InternalKey_Compare_eq_spec. change (ExtractUserKey (f_largest f)) with (f_largest_user f). change (ExtractUserKey (f_smallest g)) with (f_smallest_user g). by rewrite Hlt. Qed.

Lemma before_trans f g x : in_order g -> before f g -> before g x -> before f x.
Proof. intros Hg H1 H2. apply (Compare_lt_le_trans (C := IC) _ (f_smallest g)); [exact H1|]. change (icmp (f_smallest g) (f_smallest x) <> Gt).
  assert (Hx : icmp (f_smallest g) (f_smallest x) = Lt) by (apply (Compare_le_lt_trans (C := IC) _ (f_largest g)); [exact Hg|exact H2]). by rewrite Hx. Qed.

Lemma before_irrefl f : in_order f -> ~ before f f.
Proof. intros Hf Hb. assert (Hx : icmp (f_largest f) (f_largest f) = Lt) by (apply (Compare_lt_le_trans (C := IC) _ (f_smallest f)); [exact Hb|exact Hf]). change (Compare (Comparator := IC) (f_largest f) (f_largest f) = Lt) in Hx. by rewrite Compare_refl in Hx. Qed.

Notation meets x g := (overlaps (C := U) (Some (f_smallest_user x)) (Some (f_largest_user x)) g = true).

Lemma overlaps_true a b f : overlaps (C := U) (Some a) (Some b) f = true <-> ucmp a (f_largest_user f) <> Gt /\ ucmp (f_smallest_user f) b <> Gt.
Proof.
  unfold overlaps, AfterFile, BeforeFile. rewrite negb_true_iff, orb_false_iff, !bool_decide_eq_false, <- (Compare_nlt_le b). done.
Qed.

Lemma overlaps_not a b f : overlaps (C := U) (Some a) (Some b) f = false -> ucmp (f_largest_user f) a = Lt \/ ucmp b (f_smallest_user f) = Lt.
Proof.
  intros Ho. unfold overlaps in Ho. apply negb_false_iff, orb_true_iff in Ho as [Ho|Ho]; [left|right].
  - unfold AfterFile in Ho. apply bool_decide_eq_true in Ho. by apply Compare_lt_gt.
  - unfold BeforeFile in Ho. by apply bool_decide_eq_true in Ho.
Qed.

(** [GetRange] gives the hull. *)
Lemma range_steps S r : let r' := fold_left (range_step U) S r in
  (r'.1 = r.1 \/ exists g, g ∈ S /\ r'.1 = f_smallest g) /\ (r'.2 = r.2 \/ exists g, g ∈ S /\ r'.2 = f_largest g) /\
  icmp r'.1 r.1 <> Gt /\ icmp r.2 r'.2 <> Gt /\ (forall g, g ∈ S -> icmp r'.1 (f_smallest g) <> Gt /\ icmp (f_largest g) r'.2 <> Gt).
Proof.
  revert r. induction S as [|f S IH]; intros r; cbn zeta; cbn [fold_left].
  { split; [by left|]. split; [by left|]. change icmp with (Compare (Comparator := IC)). rewrite !Compare_refl. split; [done|]. split; [done|]. by intros g ?%elem_of_nil. }
  destruct (IH (range_step U r f)) as (I1 & I2 & I3 & I4 & I5).
  assert (Hs : ((range_step U r f).1 = r.1 \/ (range_step U r f).1 = f_smallest f) /\ icmp (range_step U r f).1 r.1 <> Gt /\ icmp (range_step U r f).1 (f_smallest f) <> Gt).
  { unfold range_step. cbn [fst]. change icmp with (Compare (Comparator := IC)). destruct (Compare (f_smallest f) r.1) eqn:Ec; rewrite ?Compare_refl, ?Ec.
    - split; [by left|]. split; [done|]. by rewrite (Compare_eq_sym (C := IC) _ _ Ec).
    - split; [by right|]. by split.
    - split; [by left|]. split; [done|]. apply Compare_gt_lt in Ec. by rewrite Ec. }
  assert (Hl : ((range_step U r f).2 = r.2 \/ (range_step U r f).2 = f_largest f) /\ icmp r.2 (range_step U r f).2 <> Gt /\ icmp (f_largest f) (range_step U r f).2 <> Gt).
  { unfold range_step. cbn [snd]. change icmp with (Compare (Comparator := IC)). destruct (Compare (f_largest f) r.2) eqn:Ec; rewrite ?Compare_refl, ?Ec.
    - split; [by left|]. by split.
    - split; [by left|]. by split.
    - split; [by right|]. apply Compare_gt_lt in Ec. by rewrite Ec. }
  destruct Hs as (S1 & S2 & S3), Hl as (L1 & L2 & L3). split; [|split; [|split; [|split]]].
  - destruct I1 as [->|(g & Hg & ->)]; [|right; exists g; split; [by right|done]]. destruct S1 as [-> | ->]; [by left|right; exists f; split; [by left|done]].
  - destruct I2 as [->|(g & Hg & ->)]; [|right; exists g; split; [by right|done]]. destruct L1 as [-> | ->]; [by left|right; exists f; split; [by left|done]].
  - by apply (Compare_le_trans (C := IC) _ (range_step U r f).1).
  - by apply (Compare_le_trans (C := IC) _ (range_step U r f).2).
  - intros g [->|Hg]%elem_of_cons; [|by apply I5]. split; [by apply (Compare_le_trans (C := IC) _ (range_step U r f).1)|by apply (Compare_le_trans (C := IC) _ (range_step U r f).2)].
Qed.

Lemma GetRange_spec S : S <> [] -> exists lo hi, GetRange U S = Some (lo, hi) /\ (exists g, g ∈ S /\ lo = f_smallest g) /\ (exists g, g ∈ S /\ hi = f_largest g) /\
  forall g, g ∈ S -> icmp lo (f_smallest g) <> Gt /\ icmp (f_largest g) hi <> Gt.
Proof.
  intros Hne. destruct S as [|f S]; [done|]. unfold GetRange. destruct (range_steps S (f_smallest f, f_largest f)) as (I1 & I2 & I3 & I4 & I5). cbn [fst snd] in *.
  destruct (fold_left _ S _) as [lo hi]. cbn [fst snd] in *. exists lo, hi. split; [done|]. split; [|split].
  - destruct I1 as [->|(g & Hg & ->)]; [exists f; split; [by left|done]|exists g; split; [by right|done]].
  - destruct I2 as [->|(g & Hg & ->)]; [exists f; split; [by left|done]|exists g; split; [by right|done]].
  - intros g [->|Hg]%elem_of_cons; [done|by apply I5].
Qed.

(** ** No gaps *)

(** A range of user keys that meets none of the files lies on one side of them all. *)
Definition linked S : Prop := forall small large, ucmp small large <> Gt -> (forall g, g ∈ S -> overlaps (C := U) (Some small) (Some large) g = false) ->
  (forall g, g ∈ S -> ucmp large (f_smallest_user g) = Lt) \/ (forall g, g ∈ S -> ucmp (f_largest_user g) small = Lt).

Lemma linked_ext S T : (forall f, f ∈ S <-> f ∈ T) -> linked S -> linked T.
Proof.
  intros He Hl small large Hle Hno. destruct (Hl small large Hle) as [Hs|Hs]; [intros g Hg; by apply Hno, He|left|right]; intros g Hg; by apply Hs, He.
Qed.

Lemma linked_one f : linked [f].
Proof.
  intros small large _ Hno. destruct (overlaps_not _ _ f (Hno f ltac:(by left))); [right|left]; by intros g ->%list_elem_of_singleton.
Qed.

Lemma linked_app S T : linked S -> (forall x, x ∈ T -> exists g, g ∈ S /\ meets x g) -> linked (S ++ T).
Proof.
  intros Hl Ht small large Hle Hno. destruct (Hl small large Hle) as [Hs|Hs]; [intros g Hg; apply Hno, elem_of_app; by left|left|right];
    intros x [Hx|Hx]%elem_of_app; try (by apply Hs); destruct (Ht x Hx) as (g & Hg & [H1 H2]%overlaps_true); specialize (Hs g Hg);
    destruct (overlaps_not _ _ x (Hno x ltac:(apply elem_of_app; by right))) as [Ho|Ho]; try done; exfalso.
  - assert (Hc : ucmp (f_largest_user x) (f_largest_user x) = Lt); [|by rewrite Compare_refl in Hc].
    eapply Compare_lt_le_trans; [eapply Compare_lt_le_trans; [exact Ho|exact Hle]|]. assert (Hc : ucmp large (f_largest_user x) = Lt) by (eapply Compare_lt_le_trans; [exact Hs|exact H2]). by rewrite Hc.
  - assert (Hc : ucmp (f_smallest_user x) (f_smallest_user x) = Lt); [|by rewrite Compare_refl in Hc].
    eapply Compare_le_lt_trans; [exact H1|]. eapply Compare_lt_le_trans; [exact Hs|]. intros Hgt%Compare_gt_lt.
    assert (Hc : ucmp large large = Lt); [|by rewrite Compare_refl in Hc]. eapply Compare_lt_le_trans; [exact Ho|]. intros Hg2. apply Hle.
    apply Compare_lt_gt. eapply Compare_lt_trans; [|exact Hgt]. by apply Compare_gt_lt.
Qed.

(** What meets the hull meets a file. *)
Lemma linked_hull S lo hi x : linked S -> GetRange U S = Some (lo, hi) -> in_order x -> overlaps (C := U) (Some (ExtractUserKey lo)) (Some (ExtractUserKey hi)) x = true ->
  exists g, g ∈ S /\ meets x g.
Proof.
  intros Hl Hr Hx [H1 H2]%overlaps_true. destruct S as [|s S]; [done|]. destruct (GetRange_spec (s :: S)) as (lo' & hi' & Hr' & (gl & Hgl & ->) & (gh & Hgh & ->) & _); [done|].
  rewrite Hr in Hr'. injection Hr' as -> ->. destruct (existsb (overlaps (C := U) (Some (f_smallest_user x)) (Some (f_largest_user x))) (s :: S)) eqn:Ee.
  - apply existsb_exists in Ee as (g & Hg%list_elem_of_In & Ho). by exists g.
  - exfalso. assert (Hno : forall g, g ∈ s :: S -> overlaps (C := U) (Some (f_smallest_user x)) (Some (f_largest_user x)) g = false).
    { intros g Hg. destruct (overlaps _ _ g) eqn:Eo; [|done]. rewrite <- Ee. symmetry. apply existsb_exists. exists g. by rewrite <- list_elem_of_In. }
    destruct (Hl _ _ (in_order_user x Hx) Hno) as [Hs|Hs].
    + apply H1, Compare_lt_gt. exact (Hs gl Hgl).
    + apply H2, Compare_lt_gt. exact (Hs gh Hgh).
Qed.

(** ** The files of one level *)

(** A file left out ends before those that were taken, or has greater user keys. *)
Definition left_apart F S : Prop := forall f g, f ∈ F -> f ∉ S -> g ∈ S -> before f g \/ ucmp (f_largest_user g) (f_smallest_user f) = Lt.

Lemma left_apart_newer contents F S f g : left_apart F S -> f ∈ F -> f ∉ S -> g ∈ S -> VersionGet.file_ok (C := U) contents f -> VersionGet.file_ok (C := U) contents g ->
  unique_keys (U := U) (contents f ++ contents g) -> newer (C := U) (contents f) (contents g).
Proof.
  intros Ha Hf Hno Hg Hfo Hgo Hu e e' He He' Hk. destruct (Ha f g Hf Hno Hg) as [Hb|Hb].
  - destruct (file_bounds _ f e Hfo He) as [_ H1]. destruct (file_bounds _ g e' Hgo He') as [H2 _].
    assert (Hlt : icmp (entry_ikey e) (entry_ikey e') = Lt) by (apply (Compare_lt_le_trans (C := IC) _ (f_smallest g)); [apply (Compare_le_lt_trans (C := IC) _ (f_largest f)); [exact H1|exact Hb]|exact H2]).
    destruct (file_entry_ok contents f e Hfo He) as [Hs _]. destruct (file_entry_ok contents g e' Hgo He') as [Hs' _]. unfold entry_ikey in Hlt.
    destruct (Z.eq_dec (e_seq e) (e_seq e')) as [Heq|Hne].
    + rewrite (Hu e e') in Hlt by (done || (apply elem_of_app; auto)). change (Compare (Comparator := IC) (InternalKey (e_user_key e') (e_seq e') (e_type e')) (InternalKey (e_user_key e') (e_seq e') (e_type e')) = Lt) in Hlt.
      by rewrite Compare_refl in Hlt.
    + rewrite InternalKey_Compare_encoded, Hk in Hlt by done. destruct (Z.compare_spec (e_seq e') (e_seq e)); [lia|done|done].
  - exfalso. destruct (file_user_bounds _ f e Hfo He) as [H1 _]. destruct (file_user_bounds _ g e' Hgo He') as [_ H2].
    assert (Hlt : ucmp (e_user_key e') (e_user_key e) = Lt) by (eapply Compare_le_lt_trans; [exact H2|]; eapply Compare_lt_le_trans; [exact Hb|exact H1]).
    by rewrite (Compare_eq_sym (C := U) _ _ Hk) in Hlt.
Qed.

Section Level.
Context (F : list FilePtr) (F_order : forall f, f ∈ F -> in_order f) (F_sorted : files_sorted (C := U) F).

Lemma in_turn f g : f ∈ F -> g ∈ F -> f = g \/ before f g \/ before g f.
Proof.
  intros [i Hi]%list_elem_of_lookup [j Hj]%list_elem_of_lookup. destruct (Nat.lt_total i j) as [Hl|[->|Hl]]; [|left; by simplify_eq|].
  - right. left. exact (F_sorted i j f g Hi Hj Hl).
  - right. right. exact (F_sorted j i g f Hj Hi Hl).
Qed.

Lemma not_both f g : in_order f -> in_order g -> before f g -> before g f -> False.
Proof. intros Hf Hg H1 H2. apply (before_irrefl f Hf). by apply (before_trans f g f). Qed.

(** A run of the level: what is left lies before or after it. *)
Record run S : Prop := {
  rn_in : forall f, f ∈ S -> f ∈ F;
  rn_sorted : files_sorted (C := U) S;
  rn_convex : forall f, f ∈ F -> f ∉ S -> (forall g, g ∈ S -> before f g) \/ (forall g, g ∈ S -> before g f);
}.

Lemma run_one f : f ∈ F -> run [f].
Proof.
  intros Hf. split; [by intros g ->%list_elem_of_singleton| |].
  - intros [|i] [|j] g g' Hi Hj Hl; try lia; done.
  - intros g Hg Hno. destruct (in_turn f g Hf Hg) as [->|[Hb|Hb]]; [by destruct Hno; left|right|left]; by intros x ->%list_elem_of_singleton.
Qed.

Lemma sorted_filter (p : FilePtr -> bool) S : files_sorted (C := U) S -> files_sorted (C := U) (List.filter p S).
Proof.
  intros Hs. assert (H1 : forall f fs, files_sorted (C := U) (f :: fs) <-> (forall g, g ∈ fs -> before f g) /\ files_sorted (C := U) fs).
  { intros f fs. split.
    - intros Hx. split; [|intros i j g g' Hi Hj Hl; by apply (Hx (Datatypes.S i) (Datatypes.S j) g g' Hi Hj); lia].
      intros g [j Hj]%list_elem_of_lookup. by apply (Hx 0%nat (Datatypes.S j) f g eq_refl Hj); lia.
    - intros [Hx Hy] [|i] [|j] g g' Hi Hj Hl; try lia; cbn in Hi, Hj.
      + injection Hi as <-. apply Hx. by eapply list_elem_of_lookup_2.
      + apply (Hy i j g g' Hi Hj). lia. }
  induction S as [|f S IH]; [done|]. apply H1 in Hs as [Hf Hs]. cbn [List.filter]. destruct (p f); [|by apply IH]. apply H1. split; [|by apply IH].
  intros g [Hg _]%list_elem_of_In%List.filter_In. apply Hf. by apply list_elem_of_In.
Qed.

Lemma run_overlapping b e : run (overlapping (C := U) (Some b) (Some e) F).
Proof.
  assert (Hin : forall f, f ∈ overlapping (C := U) (Some b) (Some e) F <-> f ∈ F /\ overlaps (C := U) (Some b) (Some e) f = true).
  { intros f. unfold overlapping. by rewrite list_elem_of_In, List.filter_In, <- list_elem_of_In. }
  split; [by intros f Hx%Hin; apply Hx|by apply sorted_filter|]. intros f Hf Hno. destruct (overlaps (C := U) (Some b) (Some e) f) eqn:Eo; [by destruct Hno; apply Hin|].
  pose proof (in_order_user f (F_order f Hf)) as Hu.
  destruct (overlaps_not _ _ f Eo) as [Ho|Ho]; [left|right]; intros g Hg%Hin; destruct Hg as [Hg Hm]; apply overlaps_true in Hm as [H1 H2];
    (destruct (in_turn f g Hf Hg) as [->|[Hb|Hb]]; [rewrite (proj2 (overlaps_true _ _ _)) in Eo by (by split); done| |]); try done; apply before_user in Hb; exfalso.
  - apply H1. apply Compare_lt_gt. eapply Compare_le_lt_trans; [exact Hb|]. by eapply Compare_le_lt_trans.
  - apply H2. apply Compare_lt_gt. eapply Compare_lt_le_trans; [exact Ho|]. by eapply Compare_le_trans.
Qed.

(** *** [AddBoundaryInputs] *)

Lemma FindLargestKey_spec S k : FindLargestKey U S = Some k -> (exists g, g ∈ S /\ k = f_largest g) /\ forall g, g ∈ S -> icmp (f_largest g) k <> Gt.
Proof.
  intros Hk. assert (Hne : S <> []) by by destruct S. destruct (GetRange_spec S Hne) as (lo & hi & Hr & _ & Hhi & Hb).
  assert (Ek : k = hi).
  { destruct S as [|f S]; [done|]. unfold GetRange, FindLargestKey in *. injection Hk as <-. injection Hr as Hr.
    assert (Ef : forall T r, (fold_left (range_step U) T r).2 = fold_left (fun k f => match icmp (f_largest f) k with Gt => f_largest f | _ => k end) T r.2).
    { induction T as [|x T IH]; intros r; [done|]. cbn [fold_left]. by rewrite IH. }
    specialize (Ef S (f_smallest f, f_largest f)). rewrite Hr in Ef. cbn [snd] in Ef. by rewrite <- Ef. }
  subst k. split; [exact Hhi|]. intros g Hg. by apply Hb.
Qed.

(** What a boundary file keeps, all of them keep. *)
Lemma AddBoundaryInputs_ind (P : list FilePtr -> Prop) S :
  P S -> (forall T k x, P T -> FindLargestKey U T = Some k -> FindSmallestBoundaryFile U F k = Some x -> P (T ++ [x])) ->
  exists S', AddBoundaryInputs U F S = Some S' /\ P S' /\ (forall f, f ∈ S -> f ∈ S') /\ (S = [] -> S' = []) /\
    (S <> [] -> exists k, FindLargestKey U S' = Some k /\ forall f, f ∈ F -> is_boundary U k f = false).
Proof.
  intros HS Hstep.
  assert (Hind : forall fuel k T R, P T -> FindLargestKey U T = Some k -> boundary_loop U fuel F k T = Some R -> P R).
  { induction fuel as [|fuel IH]; intros k T R HT Hk E; cbn [boundary_loop] in E; [done|]. destruct (FindSmallestBoundaryFile U F k) as [x|] eqn:Ex; [|by injection E as <-].
    pose proof (FindSmallestBoundaryFile_spec F k) as Hb. rewrite Ex in Hb. destruct Hb as [Hx Hb]. apply (IH (f_largest x) (T ++ [x]) R); [by eapply Hstep| |done].
    apply (FindLargestKey_snoc _ _ k); [done|]. apply boundary_largest; [|done]. intros Hgt%icmp_lt_gt. by apply (F_order x Hx). }
  unfold AddBoundaryInputs. destruct (FindLargestKey U S) as [k|] eqn:Hk; [|by exists S; destruct S].
  assert (Hok : Forall (file_keys_ok (C := U)) F).
  { apply Forall_forall. intros f Hf. unfold file_keys_ok. intros Hgt%icmp_lt_gt. by apply (F_order f Hf). }
  destruct (boundary_loop_spec F (Datatypes.S (length F)) k S Hok Hk) as (added & k' & E & Hk' & _ & _ & Hno).
  { pose proof (List.filter_length_le (fun f => bool_decide (icmp (f_smallest f) k = Gt)) F). unfold later_files. lia. }
  exists (S ++ added). split; [exact E|]. split; [by eapply Hind|]. split; [intros f Hf; apply elem_of_app; by left|]. split; [by intros ->|]. intros _. by exists k'.
Qed.

Lemma boundary_meets S k x : run S -> FindLargestKey U S = Some k -> FindSmallestBoundaryFile U F k = Some x ->
  x ∈ F /\ (forall g, g ∈ S -> before g x) /\ exists g, g ∈ S /\ meets x g /\ k = f_largest g /\ ucmp (f_smallest_user x) (f_largest_user g) = Eq.
Proof.
  intros Hs Hk Ex. pose proof (FindSmallestBoundaryFile_spec F k) as Hb. rewrite Ex in Hb. destruct Hb as [Hx [Hgt Hu]%is_boundary_spec].
  destruct (FindLargestKey_spec S k Hk) as [(g & Hg & ->) Hmax]. apply icmp_lt_gt in Hgt. split; [done|]. split.
  - intros y Hy. apply (Compare_le_lt_trans (C := IC) _ (f_largest g)); [by apply Hmax|exact Hgt].
  - exists g. split; [done|]. split; [|done]. change (ExtractUserKey (f_largest g)) with (f_largest_user g) in Hu. apply overlaps_true. split; [by rewrite Hu|].
    apply (Compare_le_trans _ (f_largest_user g)); [apply in_order_user, F_order; by apply Hs|]. rewrite <- (Compare_eq_l _ _ (f_largest_user x) Hu). by apply in_order_user, F_order.
Qed.

Lemma boundary_run S k x : run S -> FindLargestKey U S = Some k -> FindSmallestBoundaryFile U F k = Some x -> run (S ++ [x]).
Proof.
  intros Hs Hk Ex. destruct (boundary_meets S k x Hs Hk Ex) as (Hx & Hbef & g & Hg & _ & Ek & Hu). pose proof Hs as [H1 H2 H3]. split.
  - intros f [Hf| ->%list_elem_of_singleton]%elem_of_app; [by apply H1|done].
  - intros i j f f' Hi Hj Hl. apply lookup_app_Some in Hj as [Hj|[Hge Hj]].
    + rewrite lookup_app_l in Hi by (apply lookup_lt_Some in Hj; lia). by apply (H2 i j).
    + apply list_lookup_singleton_Some in Hj as [Hj ->]. apply Hbef. rewrite lookup_app_l in Hi by lia. by eapply list_elem_of_lookup_2.
  - intros f Hf Hno. rewrite elem_of_app, list_elem_of_singleton in Hno. destruct (H3 f Hf ltac:(auto)) as [Hb|Hb].
    + left. intros y [Hy| ->%list_elem_of_singleton]%elem_of_app; [by apply Hb|]. apply (before_trans f g x); [by apply F_order, H1|by apply Hb|by apply Hbef].
    + right. intros y [Hy| ->%list_elem_of_singleton]%elem_of_app; [by apply Hb|]. destruct (in_turn x f Hx Hf) as [->|[?|Hfx]]; [by destruct Hno; right|done|]. exfalso.
      assert (Hfb : is_boundary U k f = true).
      { apply is_boundary_spec. subst k. pose proof (Hb g Hg) as Hgf. split; [by apply icmp_lt_gt|]. change (ExtractUserKey (f_largest g)) with (f_largest_user g).
        pose proof (before_user g f Hgf) as U1. assert (U2 : ucmp (f_smallest_user f) (f_largest_user g) <> Gt).
        { rewrite <- (Compare_eq_r _ _ (f_smallest_user f) Hu). apply (Compare_le_trans _ (f_largest_user f)); [by apply in_order_user, F_order|by apply before_user]. }
        destruct (ucmp (f_smallest_user f) (f_largest_user g)) eqn:Ec; [done| |done]. by rewrite (Compare_antisym (f_smallest_user f)), Ec in U1. }
      pose proof (FindSmallestBoundaryFile_first F k x f Ex Hf Hfb) as Hle. apply Hle. apply icmp_lt_gt.
      apply (Compare_le_lt_trans (C := IC) _ (f_largest f)); [by apply F_order|exact Hfx].
Qed.

(** The boundary files close a run. *)
Lemma AddBoundaryInputs_run S : run S -> exists S', AddBoundaryInputs U F S = Some S' /\ run S' /\ (forall f, f ∈ S -> f ∈ S') /\ (S = [] -> S' = []) /\ left_apart F S' /\
  (forall R, linked R -> (forall f, f ∈ S -> f ∈ R) -> linked (R ++ S')) /\
  (forall Q, (forall f, f ∈ Q -> f ∈ F) -> left_apart F Q -> (forall f, f ∈ S -> f ∈ Q) -> forall f, f ∈ S' -> f ∈ Q).
Proof.
  intros Hs. destruct (AddBoundaryInputs_ind (fun T => run T /\ (forall R, linked R -> (forall f, f ∈ S -> f ∈ R) -> linked (R ++ T)) /\
    (forall Q, (forall f, f ∈ Q -> f ∈ F) -> left_apart F Q -> (forall f, f ∈ S -> f ∈ Q) -> forall f, f ∈ T -> f ∈ Q)) S) as (S' & E & (Hr & Hl & Hq) & Hsub & Hnil & Hclosed).
  - split; [done|]. split; [|by intros Q _ _ Hx]. intros R HR Hin. apply (linked_ext R); [|done]. intros f. rewrite elem_of_app. naive_solver.
  - intros T k x (HT & Hl & Hq) Hk Ex. destruct (boundary_meets T k x HT Hk Ex) as (Hx & Hbef & g & Hg & Hm & -> & Hu). split; [by eapply boundary_run|]. split.
    + intros R HR Hin. rewrite app_assoc. apply linked_app; [by apply Hl|]. intros y ->%list_elem_of_singleton. exists g. split; [apply elem_of_app; by right|done].
    + intros Q HQ Ha Hin f [Hf| ->%list_elem_of_singleton]%elem_of_app; [by apply (Hq Q)|]. destruct (decide (x ∈ Q)) as [?|Hno]; [done|]. exfalso.
      destruct (Ha x g Hx Hno (Hq Q HQ Ha Hin g Hg)) as [Hb|Hb]; [by apply (not_both x g); [apply F_order|apply F_order, HT| |apply Hbef]|].
      by rewrite (Compare_eq_sym (C := U) _ _ Hu) in Hb.
  - exists S'. split; [done|]. split; [done|]. split; [done|]. split; [done|]. split; [|by split]. intros f g Hf Hno Hg.
    assert (Hne : S <> []) by (intros ->; rewrite Hnil in Hg by done; by apply elem_of_nil in Hg). destruct (Hclosed Hne) as (k & Hk & Hb).
    destruct (rn_convex _ Hr f Hf Hno) as [Hbef|Haft]; [left; by apply Hbef|right]. destruct (FindLargestKey_spec S' k Hk) as [(y & Hy & ->) Hmax].
    specialize (Hb f Hf). pose proof (Haft y Hy) as Hyf. pose proof (before_user y f Hyf) as Hle. apply (Compare_le_lt_trans _ (f_largest_user y)); [apply ikey_le_user; by apply Hmax|].
    destruct (ucmp (f_largest_user y) (f_smallest_user f)) eqn:Ec; [|done|done]. rewrite (proj2 (is_boundary_spec _ _)) in Hb; [done|]. split; [by apply icmp_lt_gt|]. by apply Compare_eq_sym.
Qed.
End Level.

(** ** The inputs of one level *)

Section Pick.
Context (contents : FilePtr -> list Entry) (v : Version) (v_ok : version_ok (C := U) contents v) (v_unique : unique_keys (U := U) (version_entries contents v)).
Notation files lvl := (level_files v lvl).

Lemma files_in_order lvl f : f ∈ files lvl -> in_order f.
Proof. intros Hf. apply (file_keys_le contents). by apply (vo_files _ _ v_ok lvl). Qed.

(** Inputs that may leave the level. *)
Record group (lvl : nat) S : Prop := {
  gr_in : forall f, f ∈ S -> f ∈ files lvl;
  gr_distinct : NoDup S;
  gr_run : (0 < lvl)%nat -> run (files lvl) S;
  gr_apart : left_apart (files lvl) S;
}.

Lemma group_newer lvl S f g : (lvl < kNumLevels)%nat -> group lvl S -> f ∈ files lvl -> f ∉ S -> g ∈ S -> newer (C := U) (contents f) (contents g).
Proof.
  intros Hl Hg Hf Hno HgS. apply (left_apart_newer contents (files lvl) S); [apply Hg|done|done|done|by apply (vo_files _ _ v_ok lvl)|apply (vo_files _ _ v_ok lvl); by apply Hg|].
  eapply unique_keys_sub; [|exact v_unique]. intros e [He|He]%elem_of_app; apply elem_concat; (exists lvl; split; [apply elem_of_seq; lia|]); apply elem_concat; [by exists f|].
  exists g. split; [by apply Hg|done].
Qed.

Lemma run_distinct F S : (forall f, f ∈ S -> in_order f) -> files_sorted (C := U) S -> NoDup S.
Proof.
  intros Ho Hs. apply NoDup_alt. intros i j f Hi Hj. destruct (Nat.lt_total i j) as [Hl|[?|Hl]]; [|done|]; exfalso; apply (before_irrefl f).
  - apply Ho. by eapply list_elem_of_lookup_2.
  - exact (Hs i j f f Hi Hj Hl).
  - apply Ho. by eapply list_elem_of_lookup_2.
  - exact (Hs j i f f Hj Hi Hl).
Qed.

Lemma run_group lvl S : (0 < lvl)%nat -> run (files lvl) S -> left_apart (files lvl) S -> group lvl S.
Proof.
  intros Hl Hr Ha. split; [apply Hr| |done|done]. apply (run_distinct (files lvl)); [|apply Hr]. intros f Hf. apply (files_in_order lvl). by apply Hr.
Qed.

Lemma overlapping_in b e F f : f ∈ overlapping (C := U) b e F <-> f ∈ F /\ overlaps (C := U) b e f = true.
Proof. unfold overlapping. by rewrite list_elem_of_In, List.filter_In, <- list_elem_of_In. Qed.

(** What a search with restarts finds has no boundary files, and is apart. *)
Lemma closed_group b e : (forall f, f ∈ overlapping (C := U) b e (files 0) -> file_is U f_smallest_user Lt b f = false /\ file_is U f_largest_user Gt e f = false) ->
  AddBoundaryInputs U (files 0) (overlapping (C := U) b e (files 0)) = Some (overlapping (C := U) b e (files 0)) /\ group 0 (overlapping (C := U) b e (files 0)).
Proof.
  intros Hc. set (S := overlapping b e (files 0)) in *. assert (Hcl : forall f g, f ∈ S -> g ∈ files 0 -> files_overlap (C := U) f g -> g ∈ S).
  { intros f g Hf Hg Hfg. by apply (inputs_closed b e (files 0) f g). }
  assert (Hin : forall f, f ∈ S -> f ∈ files 0) by (intros f Hf; apply overlapping_in in Hf; apply Hf). split.
  - unfold AddBoundaryInputs. destruct (FindLargestKey U S) as [k|] eqn:Hk; [|done]. cbn [boundary_loop]. pose proof (FindSmallestBoundaryFile_spec (files 0) k) as Hb.
    destruct (FindSmallestBoundaryFile U (files 0) k) as [x|]; [|done]. exfalso. destruct Hb as [Hx [Hgt Hu]%is_boundary_spec].
    destruct (FindLargestKey_spec S k Hk) as [(g & Hg & ->) Hmax]. change (ExtractUserKey (f_largest g)) with (f_largest_user g) in Hu.
    assert (HxS : x ∈ S).
    { apply (Hcl g x Hg Hx). split; [|by rewrite Hu]. apply (Compare_le_trans _ (f_largest_user g)); [by apply in_order_user, (files_in_order 0), Hin|].
      rewrite <- (Compare_eq_l _ _ (f_largest_user x) Hu). by apply in_order_user, (files_in_order 0). }
    apply icmp_lt_gt in Hgt. apply (before_irrefl x); [by apply (files_in_order 0)|]. apply (Compare_le_lt_trans (C := IC) _ (f_largest g)); [by apply Hmax|exact Hgt].
  - split; [done| |lia|].
    + unfold S, overlapping. apply NoDup_ListNoDup, List.NoDup_filter, NoDup_ListNoDup. apply (NoDup_fmap_1 f_number). exact (vo_numbers _ _ v_ok).
    + intros f g Hf Hno Hg. destruct (decide (ucmp (f_smallest_user f) (f_largest_user g) = Gt)) as [Hgt|H1]; [right; by apply Compare_gt_lt|].
      destruct (decide (ucmp (f_smallest_user g) (f_largest_user f) = Gt)) as [Hgt|H2]; [left; apply user_before; by apply Compare_gt_lt|].
      destruct Hno. by apply (Hcl g f Hg Hf).
Qed.

(** A search, and the boundary files. *)
Lemma search_group lvl lo hi : exists pre S, GetOverlappingInputs U v lvl (Some lo) (Some hi) = Some pre /\ AddBoundaryInputs U (files lvl) pre = Some S /\ group lvl S /\
  (forall f, f ∈ pre -> f ∈ S) /\ (pre = [] -> S = []) /\
  (forall f, f ∈ files lvl -> f ∉ S -> overlaps (C := U) (Some (ExtractUserKey lo)) (Some (ExtractUserKey hi)) f = false) /\
  ((0 < lvl)%nat -> forall f, f ∈ pre -> overlaps (C := U) (Some (ExtractUserKey lo)) (Some (ExtractUserKey hi)) f = true) /\
  (forall T R, linked T -> (forall f, f ∈ R -> f ∈ T) -> GetRange U R = Some (lo, hi) -> linked (T ++ S)) /\
  ((0 < lvl)%nat -> forall Q, (forall f, f ∈ Q -> f ∈ files lvl) -> left_apart (files lvl) Q -> (forall f, f ∈ pre -> f ∈ Q) -> forall f, f ∈ S -> f ∈ Q).
Proof.
  destruct (GetOverlappingInputs_spec v lvl (Some lo) (Some hi)) as (b' & e' & Eo & Hb & He & Hj & Hc). cbn [fmap option_fmap option_map] in *.
  set (pre := overlapping b' e' (files lvl)) in *.
  assert (Hmiss : forall f, f ∈ files lvl -> f ∉ pre -> overlaps (C := U) (Some (ExtractUserKey lo)) (Some (ExtractUserKey hi)) f = false).
  { intros f Hf Hno. destruct (overlaps _ _ f) eqn:E; [|done]. destruct Hno. apply overlapping_in. split; [done|]. by apply (overlaps_mono (Some (ExtractUserKey lo)) b' (Some (ExtractUserKey hi)) e'). }
  assert (Hlink : forall T R, linked T -> (forall f, f ∈ R -> f ∈ T) -> GetRange U R = Some (lo, hi) -> linked (T ++ pre)).
  { intros T R HT HR Hr. destruct R as [|r R]; [done|]. destruct (GetRange_spec (r :: R)) as (lo' & hi' & Hr' & (gl & Hgl & El) & (gh & Hgh & Eh) & _); [done|].
    rewrite Hr in Hr'. injection Hr' as <- <-. intros s l Hsl Hno.
    destruct (Hj s l Hsl) as [J1 J2]; [intros g Hg; apply Hno, elem_of_app; by right|].
    destruct (HT s l Hsl) as [Hs|Hs]; [intros g Hg; apply Hno, elem_of_app; by left|left|right]; intros x [Hx|Hx]%elem_of_app; try (by apply Hs);
      pose proof Hx as [_ Hox]%overlapping_in; unfold overlaps in Hox; apply negb_true_iff, orb_false_iff in Hox as [O1 O2];
      destruct (overlaps_not _ _ x (Hno x ltac:(apply elem_of_app; by right))) as [Ho|Ho]; try done; exfalso.
    - assert (Hba : begins_after (C := U) b' l) by (apply J2; cbn; rewrite El; by apply Hs, HR). destruct b' as [k|]; [|done]. cbn in *. rewrite bool_decide_eq_false in O1. apply O1.
      apply Compare_lt_gt. eapply Compare_lt_trans; [exact Ho|]. by eapply Compare_le_lt_trans.
    - assert (Hea : ends_before (C := U) e' s) by (apply J1; cbn; rewrite Eh; by apply Hs, HR). destruct e' as [k|]; [|done]. cbn in *. rewrite bool_decide_eq_false in O2. apply O2.
      eapply Compare_lt_trans; [exact Hea|]. by eapply Compare_le_lt_trans. }
  destruct (Nat.eqb_spec lvl 0) as [->|Hne].
  - destruct (closed_group b' e' Hc) as [Ea Hg]. exists pre, pre. split; [exact Eo|]. split; [exact Ea|]. split; [exact Hg|]. split; [done|]. split; [done|]. split; [exact Hmiss|].
    split; [lia|]. split; [exact Hlink|lia].
  - destruct Hc as [-> ->]. destruct (AddBoundaryInputs_run (files lvl) (files_in_order lvl) (vo_sorted _ _ v_ok lvl ltac:(lia)) pre) as (S & Ea & Hr & Hsub & Hnil & Hap & Hl & Hq).
    { apply run_overlapping; [by apply files_in_order|apply (vo_sorted _ _ v_ok); lia]. }
    exists pre, S. split; [exact Eo|]. split; [exact Ea|]. split; [apply run_group; [lia|done|done]|]. split; [exact Hsub|]. split; [exact Hnil|]. split; [|split; [|split]].
    + intros f Hf Hno. apply Hmiss; [done|]. intros Hin. by apply Hno, Hsub.
    + intros _ f Hf. apply overlapping_in in Hf. apply Hf.
    + intros T R HT HR Hrange. apply (linked_ext ((T ++ pre) ++ S)); [intros f; rewrite !elem_of_app; pose proof (Hsub f); tauto|]. apply Hl; [by eapply Hlink|]. intros f Hf. apply elem_of_app. by right.
    + intros _. exact Hq.
Qed.

(** ** Two levels *)

Record sound_inputs (lvl : nat) S0 S1 : Prop := {
  si_group0 : group lvl S0;
  si_group1 : group (lvl + 1) S1;
  si_some : S0 <> [];
  si_linked : linked (S0 ++ S1);
  si_range : exists lo hi, GetRange U S0 = Some (lo, hi) /\
    (forall f, f ∈ files (lvl + 1) -> f ∉ S1 -> overlaps (C := U) (Some (ExtractUserKey lo)) (Some (ExtractUserKey hi)) f = false) /\
    (S1 <> [] -> exists g, g ∈ S1 /\ overlaps (C := U) (Some (ExtractUserKey lo)) (Some (ExtractUserKey hi)) g = true);
}.

Lemma range_user S lo hi g : S <> [] -> GetRange U S = Some (lo, hi) -> g ∈ S -> ucmp (ExtractUserKey lo) (f_smallest_user g) <> Gt /\ ucmp (f_largest_user g) (ExtractUserKey hi) <> Gt.
Proof.
  intros Hne Hr Hg. destruct (GetRange_spec S Hne) as (lo' & hi' & Hr' & _ & _ & Hb). rewrite Hr in Hr'. injection Hr' as <- <-.
  destruct (Hb g Hg). split; by apply ikey_le_user.
Qed.

Lemma sound_sides lvl S0 S1 f : sound_inputs lvl S0 S1 -> f ∈ files (lvl + 1) -> f ∉ S1 -> (forall g, g ∈ S0 ++ S1 -> before f g) \/ (forall g, g ∈ S0 ++ S1 -> before g f).
Proof.
  intros [G0 G1 Hne Hl (lo & hi & Hr & Hout & Hmeet)] Hf Hno. pose proof (in_order_user f (files_in_order _ f Hf)) as Hfu.
  assert (Hrun : run (files (lvl + 1)) S1) by (apply (gr_run _ _ G1); lia).
  assert (Hside : forall (P Q : FilePtr -> Prop), (forall g, g ∈ S1 -> P g) \/ (forall g, g ∈ S1 -> Q g) -> (forall g, g ∈ S1 -> Q g -> overlaps (C := U) (Some (ExtractUserKey lo)) (Some (ExtractUserKey hi)) g = false) -> forall g, g ∈ S1 -> P g).
  { intros P Q [HP|HQ] Hx g Hg; [by apply HP|]. destruct Hmeet as (y & Hy & Hm); [by intros ->; apply elem_of_nil in Hg|]. by rewrite (Hx y Hy (HQ y Hy)) in Hm. }
  pose proof (rn_convex _ _ Hrun f Hf Hno) as Hcv.
  destruct (overlaps_not _ _ f (Hout f Hf Hno)) as [Ho|Ho]; [left|right].
  - intros g [Hg|Hg]%elem_of_app; [apply user_before; eapply Compare_lt_le_trans; [exact Ho|by apply (range_user S0 lo hi)]|].
    apply (Hside (before f) (fun g => before g f) Hcv); [|done]. intros y Hy Hb%before_user. destruct (overlaps _ _ y) eqn:E; [|done]. apply overlaps_true in E as [E1 _]. exfalso. apply E1, Compare_lt_gt.
    eapply Compare_le_lt_trans; [exact Hb|]. by eapply Compare_le_lt_trans.
  - intros g [Hg|Hg]%elem_of_app; [apply user_before; eapply Compare_le_lt_trans; [by apply (range_user S0 lo hi)|exact Ho]|].
    apply (Hside (fun g => before g f) (before f)); [tauto| |done]. intros y Hy Hb%before_user. destruct (overlaps _ _ y) eqn:E; [|done]. apply overlaps_true in E as [_ E2]. exfalso. apply E2, Compare_lt_gt.
    eapply Compare_lt_le_trans; [exact Ho|]. by eapply Compare_le_trans.
Qed.

Lemma sound_newer lvl S0 S1 f g : (lvl + 2 <= kNumLevels)%nat -> sound_inputs lvl S0 S1 -> f ∈ files lvl /\ f ∉ S0 \/ f ∈ files (lvl + 1) /\ f ∉ S1 -> g ∈ S0 ++ S1 -> newer (C := U) (contents f) (contents g).
Proof.
  intros Hl [G0 G1 Hne _ (lo & hi & Hr & Hout & _)] [[Hf Hno]|[Hf Hno]] [Hg|Hg]%elem_of_app.
  - by apply (group_newer lvl S0); [lia|..].
  - intros e e' He He'. apply (vo_levels _ _ v_ok lvl (lvl + 1) ltac:(lia)); apply elem_concat; [by exists f|exists g]. split; [by apply G1|done].
  - intros e e' He He' Hk. exfalso. assert (Hfo : VersionGet.file_ok (C := U) contents f) by by apply (vo_files _ _ v_ok (lvl + 1)).
    assert (Hgo : VersionGet.file_ok (C := U) contents g) by (apply (vo_files _ _ v_ok lvl); by apply G0).
    destruct (file_user_bounds _ f e Hfo He) as [B1 B2], (file_user_bounds _ g e' Hgo He') as [B3 B4]. destruct (range_user S0 lo hi g Hne Hr Hg) as [R1 R2].
    destruct (overlaps_not _ _ f (Hout f Hf Hno)) as [Ho|Ho].
    + assert (Hc : ucmp (e_user_key e) (e_user_key e') = Lt); [|congruence]. eapply Compare_le_lt_trans; [exact B2|]. eapply Compare_lt_le_trans; [exact Ho|]. by eapply Compare_le_trans.
    + assert (Hc : ucmp (e_user_key e') (e_user_key e) = Lt); [|by rewrite (Compare_eq_sym (C := U) _ _ Hk) in Hc]. eapply Compare_le_lt_trans; [eapply Compare_le_trans; [exact B4|exact R2]|]. by eapply Compare_lt_le_trans.
  - by apply (group_newer (lvl + 1) S1); [lia|..].
Qed.

Lemma sound_chosen c : c_input_version c = v -> (c_level c + 2 <= kNumLevels)%nat -> c_level_ptrs c = replicate kNumLevels 0%nat ->
  edit_ok (c_edit c) /\ new_files_ (c_edit c) = [] /\ deleted_files_ (c_edit c) = [] /\ has_comparator_ (c_edit c) = false /\ has_log_number_ (c_edit c) = false ->
  sound_inputs (c_level c) (c_inputs0 c) (c_inputs1 c) -> chosen (U := U) contents v c.
Proof.
  intros Hv Hl Hp He Hs. pose proof Hs as [G0 G1 Hne Hlk _]. split; try done.
  - apply G0.
  - apply G1.
  - apply G0.
  - intros Hpos. apply (gr_run _ _ G0 Hpos).
  - apply (gr_run _ _ G1). lia.
  - intros f g Hf Hg. by apply (sound_newer (c_level c) (c_inputs0 c) (c_inputs1 c)).
  - intros f Hf Hno. by apply (sound_sides (c_level c) (c_inputs0 c) (c_inputs1 c)).
Qed.

(** The second level follows from the first. *)
Lemma second_level lvl S0 T : (lvl + 2 <= kNumLevels)%nat -> group lvl S0 -> S0 <> [] -> linked T -> (forall f, f ∈ S0 -> f ∈ T) ->
  exists lo hi pre S1, GetRange U S0 = Some (lo, hi) /\ GetOverlappingInputs U v (lvl + 1) (Some lo) (Some hi) = Some pre /\ AddBoundaryInputs U (files (lvl + 1)) pre = Some S1 /\
    linked (T ++ S1) /\ (linked (S0 ++ S1) -> sound_inputs lvl S0 S1) /\ group (lvl + 1) S1 /\
    (forall f, f ∈ files (lvl + 1) -> f ∉ S1 -> overlaps (C := U) (Some (ExtractUserKey lo)) (Some (ExtractUserKey hi)) f = false) /\
    (forall Q, (forall f, f ∈ Q -> f ∈ files (lvl + 1)) -> left_apart (files (lvl + 1)) Q ->
      (forall f, f ∈ files (lvl + 1) -> overlaps (C := U) (Some (ExtractUserKey lo)) (Some (ExtractUserKey hi)) f = true -> f ∈ Q) -> forall f, f ∈ S1 -> f ∈ Q).
Proof.
  intros Hl G0 Hne HT Hsub. destruct (GetRange_spec S0 Hne) as (lo & hi & Hr & _). destruct (search_group (lvl + 1) lo hi) as (pre & S1 & Eo & Ea & G1 & Hps & Hnil & Hout & Hpre & Hlk & Hq).
  exists lo, hi, pre, S1. split; [done|]. split; [done|]. split; [done|]. split; [by apply (Hlk T S0)|]. split.
  - intros Hl01. split; try done. exists lo, hi. split; [done|]. split; [done|]. intros Hne1. destruct pre as [|g pre]; [by rewrite Hnil in Hne1|]. exists g. split; [apply Hps; by left|]. apply Hpre; [lia|by left].
  - split; [done|]. split; [done|]. intros Q HQ Ha Hin. apply (Hq ltac:(lia) Q HQ Ha). intros f Hf. apply Hin; [apply G1; by apply Hps|]. apply Hpre; [lia|done].
Qed.

(** ** [SetupOtherInputs] *)

Lemma file_key_size lvl f : f ∈ files lvl -> f_largest f <> [] /\ zlen (f_largest f) < 2 ^ 32.
Proof.
  intros Hf. pose proof (vo_files _ _ v_ok lvl f Hf) as Hfo. destruct (largest_elem contents f Hfo) as (el & Hel & E & _). rewrite E.
  split; [apply entry_ikey_nonempty|]. apply entry_ikey_size. by eapply file_entry_ok.
Qed.

Lemma range_key lvl S lo hi : (forall f, f ∈ S -> f ∈ files lvl) -> S <> [] -> GetRange U S = Some (lo, hi) -> hi <> [] /\ zlen hi < 2 ^ 32.
Proof.
  intros Hin Hne Hr. destruct (GetRange_spec S Hne) as (lo' & hi' & Hr' & _ & (g & Hg & ->) & _). rewrite Hr in Hr'. injection Hr' as -> ->.
  apply (file_key_size lvl). by apply Hin.
Qed.

Lemma expand_inputs_spec options lvl S0 S1 largest range : (lvl + 2 <= kNumLevels)%nat -> sound_inputs lvl S0 S1 -> GetRange U (S0 ++ S1) = Some range ->
  (forall lo hi Q, GetRange U S0 = Some (lo, hi) -> (forall f, f ∈ Q -> f ∈ files (lvl + 1)) -> left_apart (files (lvl + 1)) Q ->
      (forall f, f ∈ files (lvl + 1) -> overlaps (C := U) (Some (ExtractUserKey lo)) (Some (ExtractUserKey hi)) f = true -> f ∈ Q) -> forall f, f ∈ S1 -> f ∈ Q) ->
  largest <> [] /\ zlen largest < 2 ^ 32 ->
  exists S0' S1' largest' range', expand_inputs U options v lvl S0 S1 largest range = Some (S0', S1', largest', range') /\ sound_inputs lvl S0' S1' /\ largest' <> [] /\ zlen largest' < 2 ^ 32.
Proof.
  intros Hl Hs Hr HqS Hk. unfold expand_inputs. destruct S1 as [|s1 S1]; [by exists S0, [], largest, range|]. set (S1' := s1 :: S1) in *. destruct range as [a l]. cbn [fst snd].
  destruct (search_group lvl a l) as (pre0 & E0 & -> & Ea0 & GE0 & _ & _ & Hout0 & _ & Hlk0 & _). cbn [mbind option_bind]. rewrite Ea0. cbn [mbind option_bind].
  destruct (_ && _) eqn:Ec; [|by exists S0, S1', largest, (a, l)]. apply andb_prop in Ec as [Hlen%Nat.ltb_lt _]. pose proof Hs as [G0 G1 Hne Hl01 (lo & hi & Hr0 & Hout & Hmeet)].
  assert (Hne0 : E0 <> []) by (intros ->; cbn in Hlen; lia).
  assert (HT : linked ((S0 ++ S1') ++ E0)) by (by apply (Hlk0 _ (S0 ++ S1'))).
  assert (H0E : forall f, f ∈ S0 -> f ∈ E0).
  { intros f Hf. destruct (decide (f ∈ E0)) as [?|Hno]; [done|]. exfalso. specialize (Hout0 f (gr_in _ _ G0 f Hf) Hno).
    destruct (range_user (S0 ++ S1') a l f) as [R1 R2]; [by destruct S0|done|apply elem_of_app; by left|].
    assert (Hu : ucmp (f_smallest_user f) (f_largest_user f) <> Gt) by (apply in_order_user, (files_in_order lvl); by apply G0).
    rewrite (proj2 (overlaps_true _ _ f)) in Hout0; [done|]. split; [by eapply Compare_le_trans|]. by eapply Compare_le_trans. }
  destruct (second_level lvl E0 ((S0 ++ S1') ++ E0) Hl GE0 Hne0 HT) as (ns & nl & pre1 & E1 & Hr1 & Eo1 & Ea1 & HT1 & Hsound & GE1 & Hout1 & _); [intros f Hf; apply elem_of_app; by right|].
  rewrite Hr1. cbn [mbind option_bind]. rewrite Eo1. cbn [mbind option_bind]. rewrite Ea1. cbn [mbind option_bind].
  destruct (_ =? _)%nat; [|by exists S0, S1', largest, (a, l)].
  destruct (GetRange_spec (E0 ++ E1)) as (a' & l' & Hr' & _); [by destruct E0|]. unfold GetRange2. rewrite Hr'. cbn [mbind option_bind].
  eexists _, _, _, _. split; [done|]. split; [|by apply (range_key lvl E0 ns); [apply GE0|..]]. apply Hsound.
  apply (linked_ext (((S0 ++ S1') ++ E0) ++ E1)); [|done]. intros f. rewrite !elem_of_app. split; [|naive_solver]. intros [[[Hf|Hf]|Hf]|Hf]; [by left; apply H0E| |by left|by right].
  right. apply (HqS lo hi E1 Hr0); [apply GE1|apply GE1| |exact Hf]. intros x Hx Hox. destruct (decide (x ∈ E1)) as [?|Hno]; [done|]. exfalso. specialize (Hout1 x Hx Hno).
  apply overlaps_true in Hox as [O1 O2]. rewrite (proj2 (overlaps_true _ _ x)) in Hout1; [done|].
  destruct (GetRange_spec S0 Hne) as (lo' & hi' & Hr0' & (gl & Hgl & El) & (gh & Hgh & Eh) & _). rewrite Hr0 in Hr0'. injection Hr0' as <- <-. subst lo hi.
  split; [eapply Compare_le_trans; [|exact O1]; by apply (range_user E0 ns nl gl), H0E|]. eapply Compare_le_trans; [exact O2|]. by apply (range_user E0 ns nl gh), H0E.
Qed.

(** Inputs of one level that may be completed: their boundary files make a group. *)
Definition seed (lvl : nat) S : Prop :=
  exists S', AddBoundaryInputs U (files lvl) S = Some S' /\ group lvl S' /\ S' <> [] /\ linked S'.

Lemma seed_one lvl f : (0 < lvl)%nat -> f ∈ files lvl -> seed lvl [f].
Proof.
  intros Hl Hf. destruct (AddBoundaryInputs_run (files lvl) (files_in_order lvl) (vo_sorted _ _ v_ok lvl ltac:(lia)) [f]) as (S' & Ea & Hr & Hsub & _ & Hap & Hlk & _).
  { apply run_one; [apply (vo_sorted _ _ v_ok); lia|done]. }
  exists S'. split; [exact Ea|]. split; [by apply run_group|]. split; [intros ->; specialize (Hsub f ltac:(by left)); by apply elem_of_nil in Hsub|].
  apply (linked_ext ([f] ++ S')); [intros g; rewrite elem_of_app; pose proof (Hsub g); tauto|]. by apply Hlk; [apply linked_one|].
Qed.

Lemma seed_search f lo hi : f ∈ files 0 -> GetRange U [f] = Some (lo, hi) ->
  exists pre, GetOverlappingInputs U v 0 (Some lo) (Some hi) = Some pre /\ pre <> [] /\ seed 0 pre.
Proof.
  intros Hf Hr. destruct (search_group 0 lo hi) as (pre & S & Eo & Ea & HG & Hsub & Hnil & Hout & _ & Hlk & _). exists pre. split; [exact Eo|].
  injection Hr as <- <-. assert (HfS : f ∈ S).
  { destruct (decide (f ∈ S)) as [?|Hno]; [done|]. exfalso. specialize (Hout f Hf Hno). pose proof (in_order_user f (files_in_order 0 f Hf)) as Hu.
    change (ExtractUserKey (f_smallest f)) with (f_smallest_user f) in Hout. change (ExtractUserKey (f_largest f)) with (f_largest_user f) in Hout.
    by rewrite (proj2 (overlaps_true _ _ f)) in Hout. }
  assert (Hne : S <> []) by (intros ->; by apply elem_of_nil in HfS). split; [intros ->; by rewrite Hnil in Hne|]. exists S. split; [exact Ea|]. split; [exact HG|]. split; [done|].
  apply (linked_ext ([f] ++ S)); [intros g; rewrite elem_of_app, list_elem_of_singleton; naive_solver|]. by apply (Hlk [f] [f]); [apply linked_one| |].
Qed.

Lemma SetupOtherInputs_spec options lvl S : (lvl + 2 <= kNumLevels)%nat -> seed lvl S ->
  exists c largest, SetupOtherInputs U (with_inputs S [] (Compaction_new options lvl v)) = Some (c, largest) /\ chosen (U := U) contents v c /\ c_level c = lvl /\ largest <> [] /\ zlen largest < 2 ^ 32.
Proof.
  intros Hl (S0 & Ea & G0 & Hne & Hlk). unfold SetupOtherInputs. cbn [c_input_version c_level c_inputs0 c_options with_inputs Compaction_new]. rewrite Ea. cbn [mbind option_bind].
  destruct (second_level lvl S0 S0 Hl G0 Hne Hlk) as (lo & hi & pre & S1 & Hr & Eo & Ea1 & Hl01 & Hs & _ & _ & Hq); [done|]. rewrite Hr. cbn [mbind option_bind]. rewrite Eo. cbn [mbind option_bind].
  rewrite Ea1. cbn [mbind option_bind]. destruct (GetRange_spec (S0 ++ S1)) as (a & l & Hr2 & _); [by destruct S0|]. unfold GetRange2. rewrite Hr2. cbn [mbind option_bind].
  destruct (expand_inputs_spec options lvl S0 S1 hi (a, l) Hl (Hs Hl01) Hr2) as (S0' & S1' & largest & [a' l'] & -> & Hs' & Hk1 & Hk2).
  { intros lo' hi' Q Hr' HQ Ha Hin. rewrite Hr in Hr'. injection Hr' as <- <-. by apply Hq. }
  { by apply (range_key lvl S0 lo); [apply G0|..]. }
  cbn [mbind option_bind fst snd].
  assert (Hg : exists gp, (if (lvl + 2 <? kNumLevels)%nat then GetOverlappingInputs U v (lvl + 2) (Some a') (Some l') else Some (c_grandparents (with_inputs S [] (Compaction_new options lvl v)))) = Some gp).
  { destruct (_ <? _)%nat; [|by eexists]. destruct (GetOverlappingInputs_spec v (lvl + 2) (Some a') (Some l')) as (b' & e' & E & _). eexists. exact E. }
  destruct Hg as [gp ->]. cbn [mbind option_bind]. eexists _, largest. split; [done|]. split; [|done].
  apply sound_chosen; [done|done|done| |exact Hs']. cbn [c_edit with_grandparents with_inputs Compaction_new]. split; [|done].
  apply SetCompactPointer_ok; [unfold level_ok; lia|done|done|exact Clear_ok].
Qed.

(** ** [PickCompaction] *)

(** What the version says is to be compacted is there. *)
Record pickable : Prop := {
  pk_size : SFleb (double_of_Z 1) (compaction_score_ v) = true -> (Z.to_nat (compaction_level_ v) + 2 <= kNumLevels)%nat /\ files (Z.to_nat (compaction_level_ v)) <> [];
  pk_seek : forall f, file_to_compact_ v = Some f -> (Z.to_nat (file_to_compact_level_ v) + 2 <= kNumLevels)%nat /\ f ∈ files (Z.to_nat (file_to_compact_level_ v));
}.

Lemma PickCompaction_spec options pointers : pickable -> length pointers = kNumLevels ->
  exists r, PickCompaction U options v pointers = Some r /\
    match r with None => True | Some (c, pointers') => chosen (U := U) contents v c /\ exists largest, pointers' = <[c_level c := largest]> pointers /\ zlen largest < 2 ^ 32 end.
Proof.
  intros [Hsize Hseek] Hlen. unfold PickCompaction.
  assert (Hgo : forall lvl f, (lvl + 2 <= kNumLevels)%nat -> f ∈ files lvl -> exists r,
    (inputs ← (if (lvl =? 0)%nat then '(smallest, largest) ← GetRange U [f]; inputs ← GetOverlappingInputs U v 0 (Some smallest) (Some largest); if (length inputs =? 0)%nat then None else Some inputs else Some [f]);
     '(c, largest) ← SetupOtherInputs U (with_inputs inputs [] (Compaction_new options lvl v)); Some (Some (c, <[lvl := largest]> pointers))) = Some r /\
    match r with None => True | Some (c, pointers') => chosen (U := U) contents v c /\ exists largest, pointers' = <[c_level c := largest]> pointers /\ zlen largest < 2 ^ 32 end).
  { intros lvl f Hl Hf. assert (Hi : exists S, (if (lvl =? 0)%nat then '(smallest, largest) ← GetRange U [f]; inputs ← GetOverlappingInputs U v 0 (Some smallest) (Some largest); if (length inputs =? 0)%nat then None else Some inputs else Some [f]) = Some S /\ seed lvl S).
    { destruct (Nat.eqb_spec lvl 0) as [->|Hne]; [|exists [f]; split; [done|]; apply seed_one; [lia|done]].
      destruct (seed_search f _ _ Hf eq_refl) as (pre & Eo & Hne & Hs). cbn [GetRange fold_left mbind option_bind]. rewrite Eo. cbn [mbind option_bind]. destruct pre; [done|]. by eexists. }
    destruct Hi as (S & -> & Hs). cbn [mbind option_bind]. destruct (SetupOtherInputs_spec options lvl S Hl Hs) as (c & largest & -> & Hc & El & _ & Hk). cbn [mbind option_bind].
    eexists. split; [done|]. split; [done|]. exists largest. by rewrite El. }
  destruct (SFleb _ _) eqn:Es.
  - destruct (Hsize eq_refl) as [Hl Hne]. destruct (lookup_lt_is_Some_2 pointers (Z.to_nat (compaction_level_ v))) as [p ->]; [lia|]. cbn [mbind option_bind].
    destruct (files (Z.to_nat (compaction_level_ v))) as [|x xs] eqn:Ef; [done|]. set (fs := x :: xs) in *.
    assert (Hpick : exists f, match List.find (after_pointer U p) fs with Some f => Some f | None => fs !! 0%nat end = Some f /\ f ∈ fs).
    { destruct (List.find _ fs) as [f|] eqn:Efind; [apply List.find_some in Efind as [Hin _]; exists f; split; [done|by apply list_elem_of_In]|]. exists x. split; [done|by left]. }
    destruct Hpick as (f & -> & Hf). cbn [mbind option_bind]. apply Hgo; [done|by rewrite Ef].
  - destruct (file_to_compact_ v) as [f|] eqn:Ef; [|by exists None]. destruct (Hseek f eq_refl) as [Hl Hf]. cbn [mbind option_bind]. by apply Hgo.
Qed.
End Pick.

(** [Finalize] leaves such a choice. *)
Lemma best_score_spec v levels b s : let r := best_score v levels b s in r = (b, s) \/ exists l, l ∈ levels /\ r = (Z.of_nat l, level_score v l).
Proof.
  revert b s. induction levels as [|l ls IH]; intros b s; cbn zeta; cbn [best_score]; [by left|].
  destruct (SFltb s (level_score v l)).
  - destruct (IH (Z.of_nat l) (level_score v l)) as [->|(l' & Hl & ->)]; [right; exists l; split; [by left|done]|right; exists l'; split; [by right|done]].
  - destruct (IH b s) as [->|(l' & Hl & ->)]; [by left|right; exists l'; split; [by right|done]].
Qed.

Lemma empty_score v l : (l < kNumLevels)%nat -> level_files v l = [] -> SFleb (double_of_Z 1) (level_score v l) = false.
Proof.
  intros Hl He. unfold level_score, NumFiles. rewrite He. assert (Hall : Forall (fun l => SFleb (double_of_Z 1) (if (l =? 0)%nat then double_div (double_of_Z 0) (double_of_Z kL0_CompactionTrigger) else double_div (double_of_Z 0) (MaxBytesForLevel l)) = false) (seq 0 kNumLevels)).
  { repeat constructor. }
  rewrite Forall_forall in Hall. apply (Hall l). apply elem_of_seq. lia.
Qed.

Lemma Finalize_pickable v : file_to_compact_ v = None -> pickable (Finalize v).
Proof.
  intros Hf. unfold Finalize. destruct (best_score_spec v (seq 0 (kNumLevels - 1)) (-1) (double_of_Z (-1))) as [Hb|(l & Hl%elem_of_seq & Hb)]; rewrite Hb; (split; [|cbn; congruence]).
  - cbn [compaction_score_]. intros Hx. by vm_compute in Hx.
  - cbn [compaction_score_ compaction_level_]. rewrite Nat2Z.id. intros Hx. split; [cbn in Hl; unfold kNumLevels; lia|]. change (level_files (mkVersion _ _ _ _ _) l) with (level_files v l).
    intros He. rewrite empty_score in Hx; [done| |done]. unfold kNumLevels in *. lia.
Qed.
End Choice.
