(* ===== verification/CompactionWork.v ===== *)
(** * db/db_impl: a compaction from its start to the new version

    [DoCompactionWork] puts the parts together: the input, the loop, and the edit that
    installs the outputs.  The state stays in order, every read at the smallest
    snapshot or later is answered as before, and without an error the inputs are
    gone from the version. *)

From Stdlib Require Import Sorted.
From stdpp Require Import gmap sorting.
From S2P Require Import Prelude Coding Comparator Crc32c Bloom DbFormat Status Iterator BlockBuilder Block Format FilterBlock TableBuilder Table SkipList MemTable UserView MemIter.
From S2P Require Import VersionEdit Options Version VersionGet Overlap InternalTable TableCache BuildTable LogWriter Filename Compaction InputIterator CompactionDrop VersionBuilder VersionSet Manifest Install Levels InputLaws.
From S2P Require Import DBImpl DBGet LSM Obsolete Recovery LogRecovery Invariant InstallEdit Evolve CompactMemTable DoCompaction CompactionRun CompactionLoop CompactionInstall CompactionInput.

(** ** The edits *)

Section Edits.
Context {U : Comparator} {UL : ComparatorLaws U}.

Lemma edit_dels_remove e lv n lvl m : m ∈ edit_dels lvl (VersionEdit.RemoveFile e (Z.of_nat lv) n) <-> m ∈ edit_dels lvl e \/ (lvl = lv /\ m = n).
Proof.
  unfold edit_dels, VersionEdit.RemoveFile. cbn [deleted_files_]. split.
  - intros ([l x] & -> & [Hp%list_elem_of_In Hl%Z.eqb_eq]%list_elem_of_In%filter_In)%list_elem_of_fmap. cbn [fst snd] in *. apply set_insert_elem in Hp as [[= -> ->]|Hp]; [right; split; lia|].
    left. apply (list_elem_of_fmap_2 snd _ (l, x)). apply list_elem_of_In, filter_In. split; [by apply list_elem_of_In|]. by apply Z.eqb_eq.
  - intros H0. assert (Hin : (Z.of_nat lvl, m) ∈ set_insert (Z.of_nat lv, n) (deleted_files_ e)).
    { apply set_insert_elem. destruct H0 as [([l x] & -> & [Hp%list_elem_of_In Hl%Z.eqb_eq]%list_elem_of_In%filter_In)%list_elem_of_fmap|[-> ->]]; [|by left].
      cbn [fst snd] in *. right. by rewrite <- Hl. }
    apply (list_elem_of_fmap_2 snd _ (Z.of_nat lvl, m)). apply list_elem_of_In, filter_In. split; [by apply list_elem_of_In|]. by apply Z.eqb_eq.
Qed.

(** The files of a level go. *)
Definition remove_all (lv : nat) (fs : list FilePtr) (e : VersionEdit) : VersionEdit :=
  fold_left (fun e f => VersionEdit.RemoveFile e (Z.of_nat lv) (f_number f)) fs e.

Lemma remove_all_spec lv fs e : edit_ok e -> (lv < kNumLevels)%nat -> (forall f, f ∈ fs -> 0 <= f_number f < 2 ^ 64) ->
  let e' := remove_all lv fs e in
  edit_ok e' /\ has_comparator_ e' = has_comparator_ e /\ has_log_number_ e' = has_log_number_ e /\ new_files_ e' = new_files_ e /\
  forall lvl n, n ∈ edit_dels lvl e' <-> n ∈ edit_dels lvl e \/ (lvl = lv /\ n ∈ map f_number fs).
Proof.
  revert e. induction fs as [|f fs IH]; intros e He Hl Hf; cbn zeta; cbn [remove_all fold_left].
  { split; [done|]. do 3 (split; [done|]). intros lvl n. split; [by left|]. by intros [?|[_ ?%elem_of_nil]]. }
  destruct (IH (VersionEdit.RemoveFile e (Z.of_nat lv) (f_number f))) as (H1 & H2 & H3 & H4 & H5); [|done|intros g Hg; apply Hf; by right|].
  { apply RemoveFile_ok; [unfold level_ok; lia|apply Hf; by left|done]. }
  split; [exact H1|]. do 3 (split; [done|]). intros lvl n. rewrite (H5 lvl n), edit_dels_remove. cbn [map]. rewrite elem_of_cons. naive_solver.
Qed.

(** Tables come in. *)
Definition add_all (lv : nat) (ms : list FileMetaData) (e : VersionEdit) : VersionEdit :=
  fold_left (fun e m => AddFile e (Z.of_nat lv) (number m) (file_size m) (smallest m) (largest m)) ms e.

Lemma add_all_spec lv ms e : edit_ok e -> (lv < kNumLevels)%nat -> (forall m, m ∈ ms -> VersionEdit.file_ok (new_meta m)) ->
  let e' := add_all lv ms e in
  edit_ok e' /\ has_comparator_ e' = has_comparator_ e /\ has_log_number_ e' = has_log_number_ e /\ deleted_files_ e' = deleted_files_ e /\
  forall lvl, edit_adds lvl e' = edit_adds lvl e ++ if decide (lvl = lv) then map new_meta ms else [].
Proof.
  revert e. induction ms as [|m ms IH]; intros e He Hl Hf; cbn zeta; cbn [add_all fold_left].
  { split; [done|]. do 3 (split; [done|]). intros lvl. case_decide; by rewrite app_nil_r. }
  destruct (IH (AddFile e (Z.of_nat lv) (number m) (file_size m) (smallest m) (largest m))) as (H1 & H2 & H3 & H4 & H5); [|done|intros x Hx; apply Hf; by right|].
  { apply push_file_ok; [unfold level_ok; lia| |done]. apply (Hf m). by left. }
  split; [exact H1|]. do 3 (split; [done|]). intros lvl. etransitivity; [exact (H5 lvl)|]. unfold edit_adds at 1. cbn [AddFile push_file new_files_]. rewrite List.filter_app, map_app, <- app_assoc. f_equal. cbn [List.filter fst].
  case_decide as Hd; [subst lvl; by rewrite Z.eqb_refl|]. by rewrite (proj2 (Z.eqb_neq _ _)) by lia.
Qed.
End Edits.

(** ** The work *)

Section Work.
Context `{CS : Checksum} {E RA W KC H K : Type} {R : RandomAccessFile RA} {WF : WritableFile W}.
Context {LF : LogFiles E W} {EF : EnvFiles E} {EFL : EnvFilesLaws E} {ED : EnvDirectory E} {RF : RandomAccessFiles E RA} {TF : TableFiles E W}.
Context {works : Prop} {raf_contents : RA -> bytes} {RL : RandomAccessFileLaws R raf_contents} {wf_contents : W -> bytes}.
Context {FS : FaultyFileSystem works WF RF LF TF EF raf_contents wf_contents}.
Context {CO : CacheOps KC H (Table RA) TableDeleter} {c_ok : nat -> (bytes -> Table RA -> Prop) -> list H -> KC -> Prop} {CL : CacheLaws CO c_ok}.
Context {BC : BlockCache K} {bc_holds : K -> bytes -> Block -> Prop} {BL : BlockCacheLaws BC bc_holds} {bc_next : K -> Z} {BI : BlockCacheIds BC bc_next}.
Context (Snappy Zstd : Compressor) {SL : CompressorLaws Snappy} {ZL : CompressorLaws Zstd}.
Context {U : Comparator} {UL : ComparatorLaws U} {o : Options} (comparator_name dbname : bytes).
Context (Hcmp : comparator o = InternalKeyComparator U) (Hinterval : 1 <= block_restart_interval o) (Hsize : 0 <= max_file_size o <= 2 ^ 30).
Context (Hfilter : forall name P, filter_policy o = Some (name, P) ->
  exists P0, P = InternalFilterPolicy P0 /\ FilterPolicyLaws P0 /\ zlen name < 2 ^ 31 /\ forall a b, Compare (Comparator := U) a b = Eq -> a = b).
Notation DB := (DBImpl E W KC K).
Notation ready := (cache_ready (raf_contents := raf_contents) (c_ok := c_ok) (bc_holds := bc_holds) (bc_next := bc_next) Snappy Zstd (U := U) (o := o)).
Notation has_table := (has_table (raf_contents := raf_contents) Snappy Zstd (U := U) (o := o) dbname).
Notation inv := (inv (raf_contents := raf_contents) (wf_contents := wf_contents) (c_ok := c_ok) (bc_holds := bc_holds) (bc_next := bc_next) Snappy Zstd (U := U) (o := o) dbname).
Notation evolves := (evolves (raf_contents := raf_contents) Snappy Zstd (U := U) (o := o) dbname).
Notation relied := (rely (raf_contents := raf_contents) (wf_contents := wf_contents) (c_ok := c_ok) (bc_holds := bc_holds) (bc_next := bc_next) Snappy Zstd (U := U) (o := o) dbname).
Notation table_fits := (table_fits (o := o) (wf_contents := wf_contents) Snappy Zstd).
Notation next db := (vs_next_file_number (db_versions db)).
Notation good := (good (raf_contents := raf_contents) (wf_contents := wf_contents) (c_ok := c_ok) (bc_holds := bc_holds) (bc_next := bc_next) Snappy Zstd (U := U) (o := o) dbname).
Notation goes := (goes (raf_contents := raf_contents) Snappy Zstd (U := U) (o := o) dbname).
Notation here := (here (raf_contents := raf_contents) (wf_contents := wf_contents) (c_ok := c_ok) (bc_holds := bc_holds) (bc_next := bc_next) Snappy Zstd (U := U) (o := o) dbname).
Notation written := (written (raf_contents := raf_contents) Snappy Zstd (U := U) (o := o) dbname).
Notation child_ok := (child_ok (raf_contents := raf_contents) Snappy Zstd (U := U) (o := o) dbname).
Notation newer := (newer (C := U)).
Implicit Types (db : DB) (g : Ghost).

Lemma goes_reads lim g db g' db' u s r : goes lim g db g' db' -> s <= vs_last_sequence (db_versions db) ->
  read_value (C := U) u s (all_entries g) r -> read_value (C := U) u s (all_entries g') r.
Proof.
  intros He Hs Hr. destruct (ev_keeps _ _ _ _ _ _ _ _ _ _ _ _ _ _ _ He) as (new & _ & N2 & N3).
  apply (read_value_ext u s (new ++ all_entries g)); [intros e; symmetry; apply N3|]. apply read_value_past; [|done]. eapply Forall_impl; [exact N2|]. cbn. lia.
Qed.

Lemma goes_refl db g : goes (next db) g db g db.
Proof. by apply evolves_same. Qed.

Variables (others : nat -> DB -> DB) (c m : nat).
Context (others_relied : forall n, relied c (others n)) (few_files : forall e : E, (length (GetChildren dbname e).2 <= m)%nat).

(** The choice was made in [g0], [db0]. *)
Context (g0 : Ghost) (db0 : DB) (b0 : nat) (held : list Z) (good0 : good b0 held g0 db0).
Context (c0 : Compaction) (is_chosen : chosen (U := U) (table_contents (g_sst g0)) (g_v g0) c0).
Notation L := (c_level c0).
Notation v0 := (g_v g0).
Notation contents0 := (table_contents (g_sst g0)).
Notation inputs := (input_entries contents0 c0).

Lemma input_number f : f ∈ all_inputs c0 -> 0 <= f_number f < 2 ^ 64.
Proof.
  intros Hf. pose proof (iv_managed _ _ _ _ _ _ _ _ _ _ good0) as Hm. destruct (ma_numbers _ _ _ Hm) as ([_ N1] & _).
  assert (Hn : 0 <= f_number f < next db0); [|lia]. apply (input_file _ _ _ is_chosen) in Hf as [[_ Hf]|[_ Hf]]; by eapply (ma_files _ _ _ Hm).
Qed.

(** The edit of a compaction. *)
Lemma installed_edit (cm : Compaction) (ms : list (FileMetaData * list Entry)) :
  same_task c0 cm -> (forall p, p ∈ ms -> VersionEdit.file_ok (new_meta p.1)) ->
  compaction_edit c0 ms (add_all (c_level cm + 1) (map fst ms) (AddInputDeletions cm (c_edit cm))).
Proof.
  intros [T1 T2 T3 T4 T5] Hms. destruct (ch_edit _ _ _ is_chosen) as (E1 & E2 & E3 & E4 & E5). pose proof (ch_level _ _ _ is_chosen) as Hl.
  change (AddInputDeletions cm (c_edit cm)) with (remove_all (c_level cm + 1) (c_inputs1 cm) (remove_all (c_level cm + 0) (c_inputs0 cm) (c_edit cm))).
  rewrite T1, T3, T4, T5, Nat.add_0_r.
  destruct (remove_all_spec L (c_inputs0 c0) (c_edit c0) E1 ltac:(lia)) as (A1 & A2 & A3 & A4 & A5); [intros f Hf; apply input_number, elem_of_app; by left|].
  destruct (remove_all_spec (L + 1) (c_inputs1 c0) _ A1 ltac:(lia)) as (B1 & B2 & B3 & B4 & B5); [intros f Hf; apply input_number, elem_of_app; by right|].
  destruct (add_all_spec (L + 1) (map fst ms) _ B1 ltac:(lia)) as (C1 & C2 & C3 & C4 & C5); [by intros x (p & -> & Hp)%list_elem_of_fmap; apply Hms|].
  split; [exact C1|by rewrite C2, B2, A2, C3, B3, A3| |].
  - intros lvl n. unfold edit_dels at 1. rewrite C4. fold (edit_dels lvl (remove_all (L + 1) (c_inputs1 c0) (remove_all L (c_inputs0 c0) (c_edit c0)))).
    rewrite (B5 lvl n), (A5 lvl n). unfold edit_dels. rewrite E3. cbn. split; [intros [[?%elem_of_nil|?]|?]; auto; done|]. intros [?|?]; auto.
  - intros lvl. rewrite (C5 lvl). unfold edit_adds. rewrite B4, A4, E2. cbn. case_decide; [|done]. by rewrite !map_map.
Qed.

(** The children of the input can be read. *)
Context (fuel : nat) (fuel_enough : (length inputs <= fuel)%nat).

Lemma input_readable f : f ∈ all_inputs c0 -> InputLaws.readable (raf_contents := raf_contents) Snappy Zstd (U := U) (o := o) dbname (g_sst g0) fuel (table_cache_ db0) f.
Proof.
  intros Hf. pose proof (iv_version _ _ _ _ _ _ _ _ _ _ good0) as Hv. split; [|split; [exact (input_file_ok _ _ _ Hv is_chosen f Hf)|]].
  - destruct (current_in Snappy Zstd dbname _ _ _ _ _ _ _ good0) as (a & nd & _ & _ & Hnd & Ev).
    apply (input_file _ _ _ is_chosen) in Hf as [[_ Hf]|[_ Hf]]; rewrite <- Ev in Hf; by apply (iv_live _ _ _ _ _ _ _ _ _ _ good0 nd _ f Hnd Hf).
  - etransitivity; [|exact fuel_enough]. apply list_elem_of_split in Hf as (l1 & l2 & El). unfold input_entries. rewrite El, map_app, concat_app. cbn [map concat]. rewrite !length_app. lia.
Qed.

Lemma run_ok fs : (forall f, f ∈ fs -> f ∈ all_inputs c0) -> files_sorted (C := U) fs -> (length fs <= fuel)%nat ->
  Forall (child_ok (g_sst g0) fuel (table_cache_ db0)) (run_child fs) /\ concat (map (child_entries (g_sst g0)) (run_child fs)) = concat (map contents0 fs).
Proof.
  intros Hf Hs Hl. destruct fs as [|f fs]; [split; [constructor|done]|]. split; [|cbn; by rewrite app_nil_r].
  constructor; [|constructor]. split; [|done]. apply Forall_forall. intros x Hx. by apply input_readable, Hf.
Qed.

Lemma input_children_ok : Forall (child_ok (g_sst g0) fuel (table_cache_ db0)) (input_children c0) /\ concat (map (child_entries (g_sst g0)) (input_children c0)) = inputs.
Proof.
  pose proof (iv_version _ _ _ _ _ _ _ _ _ _ good0) as Hv.
  assert (Hlen : (length (c_inputs0 c0) <= fuel)%nat /\ (length (c_inputs1 c0) <= fuel)%nat).
  { pose proof (files_le_entries contents0 (all_inputs c0)) as Hle. unfold all_inputs at 2 in Hle. rewrite length_app in Hle.
    assert ((length (c_inputs0 c0) + length (c_inputs1 c0) <= length inputs)%nat); [|lia]. apply Hle. intros f Hf. exact (contents_nonempty _ f (input_file_ok _ _ _ Hv is_chosen f Hf)). }
  destruct (run_ok (c_inputs1 c0)) as [H1 E1]; [intros f Hf; apply elem_of_app; by right|apply is_chosen|apply Hlen|].
  unfold input_children. rewrite map_app, concat_app, E1. unfold input_entries, all_inputs. rewrite map_app, concat_app.
  destruct (Nat.eqb_spec L 0) as [El|El].
  - split; [|by rewrite map_map]. apply Forall_app. split; [|exact H1]. apply Forall_forall. intros x (f & -> & Hf)%list_elem_of_fmap. apply input_readable, elem_of_app. by left.
  - destruct (run_ok (c_inputs0 c0)) as [H0 E0]; [intros f Hf; apply elem_of_app; by left|apply is_chosen; lia|apply Hlen|]. split; [by apply Forall_app|by rewrite E0].
Qed.

(** *** [DoCompactionWork] *)

(** The smallest snapshot that still counts. *)
Definition smallest_of db : option Z :=
  if snapshots_empty (snapshots_ (db_shared db)) then Some (vs_last_sequence (db_versions db)) else sn_sequence <$> oldest (snapshots_ (db_shared db)).

(** What the outputs hold makes tables. *)
Definition outputs_fit : Prop := forall es, entries_sorted U es -> es <> [] -> (forall e, e ∈ es -> e ∈ inputs) -> table_fits es.

Context (snap : Z) (snap_range : 0 <= snap < kMaxSequenceNumber) (fit : outputs_fit).

(** No input is in the version any more. *)
Definition inputs_gone (v : Version) : Prop :=
  (forall f, f ∈ c_inputs0 c0 -> file_id (f_meta f) ∉ level_ids v L) /\ (forall f, f ∈ c_inputs1 c0 -> file_id (f_meta f) ∉ level_ids v (L + 1)).

(** Reads at [snap] or later, up to [last], that came before are answered as before. *)
Definition reads_stay (last : Z) g g' : Prop :=
  forall u s r, snap <= s <= last -> read_value (C := U) u s (all_entries g) r -> read_value (C := U) u s (all_entries g') r.

Section Outputs.
Context (es : list Entry) (es_inputs : es ≡ₚ inputs) (es_sorted : entries_sorted U es).
Notation kept := (kept_from (C := U) (c_input_version c0) L snap []).

Lemma v0_inv : version_ok (C := U) contents0 v0.
Proof. exact (iv_version _ _ _ _ _ _ _ _ _ _ good0). Qed.

Lemma es_unique : unique_keys (U := U) es.
Proof.
  eapply unique_keys_sub; [|exact (iv_unique _ _ _ _ _ _ _ _ _ _ good0)]. intros e He. rewrite es_inputs in He. apply elem_of_app. right. apply elem_of_app. right.
  apply version_entries_ids; [exact (inv_holds Snappy Zstd dbname _ _ _ _ _ _ _ good0)|]. apply elem_concat in He as (f & Hf & He).
  apply (input_file _ _ _ is_chosen) in Hf as [[_ Hf]|[_ Hf]]; eexists _, (file_id (f_meta f)); (split; [apply level_ids_elem; by exists f|exact He]).
Qed.

Lemma kept_keeps_reads (ms : list (FileMetaData * list Entry)) : concat (map snd ms) = kept es -> keeps_reads (U := U) g0 c0 ms snap.
Proof.
  intros Ek new u s r Hn Hs Hr. rewrite Ek, (ch_version _ _ _ is_chosen).
  assert (Hok : Forall entry_ok es) by (rewrite es_inputs; exact (input_entries_ok _ _ _ v0_inv is_chosen)).
  apply (kept_reads contents0 v0 L snap new es u s r); try done.
  - exact v0_inv.
  - apply is_chosen.
  - by apply sorted_distinct, es_unique.
  - eapply newer_elem; [by intros e He; exact He| |exact Hn]. intros e. rewrite !elem_of_app, es_inputs. done.
  - eapply newer_elem; [|by intros e He; exact He|exact (inputs_newer_deeper _ _ _ v0_inv is_chosen)]. intros e. by rewrite es_inputs.
  - eapply read_value_ext; [|exact Hr]. intros e. by rewrite !elem_of_app, es_inputs.
Qed.

Lemma install_outputs t b g db (compact : CompactionState W) outs :
  here g0 db0 held (c + b) g db -> written db0 c0 snap es g db compact outs ->
  exists s g' db', InstallCompactionResults U comparator_name dbname others t compact db = Some (s, db') /\ good b held g' db' /\
    vs_last_sequence (db_versions db) <= vs_last_sequence (db_versions db') /\ (if ok s then inputs_gone (g_v g') else True) /\
    reads_stay (vs_last_sequence (db_versions db)) g g'.
Proof.
  intros [Hg He] [W1 W2 W3 W4 W5 W6]. set (ms := map (fun p => (out_meta p.1, p.2)) outs).
  assert (Hks : concat (map snd ms) = kept es) by (unfold ms; rewrite map_map; exact W6).
  assert (Hfin : forall p, p ∈ ms -> exists out, finished (raf_contents := raf_contents) Snappy Zstd (U := U) (o := o) dbname (next db0) g db out p.2 /\ p.1 = out_meta out).
  { intros p (q & -> & Hq)%list_elem_of_fmap. rewrite Forall_forall in W4. exists q.1. split; [by apply W4|done]. }
  assert (Htab : Forall (fun p => table_of (U := U) (g_sst g) (number p.1) p.2 p.1 /\ has_table (g_sst g) (table_cache_ db) (number p.1) (file_size p.1) p.2 /\
    0 <= number p.1 < next db /\ forall i, i ∈ level_ids (g_v g) (L + 1) -> id_number i <> number p.1) ms).
  { apply Forall_forall. intros p Hp. destruct (Hfin p Hp) as (out & [F1 F2 F3] & ->). split; [exact F2|]. split; [exact F3|]. destruct F1 as [T1 T2 T3].
    pose proof (lo_positive Snappy Zstd dbname g0 db0 b0 held good0). split; [cbn; lia|]. intros i. apply T3. }
  assert (Hd : NoDup (map (fun p => number p.1) ms)).
  { unfold ms. rewrite map_map. change (fun x => number (out_meta x.1, x.2).1) with (fun x : Output * list Entry => out_number x.1). rewrite W2, map_map in W5.
    clear -W5. induction W5 as [|x l Hs IH Hx]; constructor; [|done]. intros Hin. rewrite Forall_forall in Hx. specialize (Hx x Hin). lia. }
  assert (Hfrom : forall e, e ∈ concat (map snd ms) -> e ∈ inputs) by (intros e; rewrite Hks, <- es_inputs; apply kept_sub).
  assert (Hcut : entries_sorted U (concat (map snd ms))) by (rewrite Hks; by apply kept_from_sorted).
  assert (Hedit : compaction_edit c0 ms (add_all (c_level (compaction compact) + 1) (map fst ms) (AddInputDeletions (compaction compact) (c_edit (compaction compact))))).
  { apply installed_edit; [done|]. intros p Hp. destruct (Hfin p Hp) as (out & [F1 F2 F3] & ->). apply (table_of_id _ _ _ _ F2). apply F3. }
  destruct (install_spec Snappy Zstd comparator_name dbname Hsize g0 db0 b0 held good0 c0 is_chosen g db (c + b) held Hg He ms Htab Hd Hcut Hfrom _ Hedit (others t) c b snap eq_refl (others_relied t) (kept_keeps_reads ms Hks))
    as (s & e & g' & db' & E1 & Hg' & Esst & Hlast & Hpend & Hsd & Hres & Hrd).
  exists s, g', db'. split.
  { unfold InstallCompactionResults. assert (Ef : forall (l : list Output) lv ed, fold_left (fun edit out => AddFile edit (Z.of_nat lv) (out_number out) (out_file_size out) (out_smallest out) (out_largest out)) l ed = add_all lv (map out_meta l) ed).
    { induction l as [|x l IH]; intros lv ed; [done|]. cbn [fold_left map add_all]. apply IH. }
    rewrite Ef, W2. unfold ms in E1. rewrite map_map in E1. cbn [fst] in E1. rewrite map_map, E1. done. }
  split; [exact Hg'|]. split; [exact Hlast|]. split; [|exact Hrd]. destruct (ok s); [|done]. pose proof (ch_level _ _ _ is_chosen) as Hl.
  assert (Hno : forall lvl f, f ∈ all_inputs c0 -> f ∈ level_files v0 lvl -> f_number f ∈ edit_dels lvl (add_all (c_level (compaction compact) + 1) (map fst ms) (AddInputDeletions (compaction compact) (c_edit (compaction compact)))) ->
    (lvl < kNumLevels)%nat -> file_id (f_meta f) ∉ level_ids (g_v g') lvl).
  { intros lvl f Hf Hlv Hdel Hlt Hin. apply Hres in Hin; [|done]. apply apply_ref_elem in Hin as [[_ Hn]|Hin]; [by apply Hn|].
    rewrite (ce_adds _ _ _ Hedit) in Hin. case_decide as Hd1; [|by apply elem_of_nil in Hin]. apply list_elem_of_fmap in Hin as (p & Ep & Hp).
    destruct (Hfin p Hp) as (out & [[T1 _ _] _ _] & Eo). rewrite Eo in Ep. injection Ep as En _ _ _.
    pose proof (ma_files _ _ _ (iv_managed _ _ _ _ _ _ _ _ _ _ good0) lvl f Hlv). unfold f_number in *. lia. }
  split; intros f Hf.
  - apply Hno; [apply elem_of_app; by left|by apply is_chosen| |lia]. apply (ce_dels _ _ _ Hedit). left. split; [done|]. by apply (list_elem_of_fmap_2 f_number).
  - apply Hno; [apply elem_of_app; by right|by apply is_chosen| |lia]. apply (ce_dels _ _ _ Hedit). right. split; [done|]. by apply (list_elem_of_fmap_2 f_number).
Qed.
End Outputs.

Lemma sublist_sorted (es' es : list Entry) : es' `sublist_of` es -> entries_sorted U es -> entries_sorted U es'.
Proof.
  unfold entries_sorted, kvs_sorted. induction 1 as [|x l1 l2 Hsub IH|x l1 l2 Hsub IH]; cbn [map]; [done|..]; intros [Hs Hx]%StronglySorted_inv; [|by apply IH].
  constructor; [by apply IH|]. rewrite Forall_forall in *. intros y (z & -> & Hz)%list_elem_of_fmap. apply Hx, list_elem_of_fmap_2. by eapply elem_of_sublist.
Qed.

(** The sorted list of the inputs. *)
Lemma sorted_inputs : exists es, es ≡ₚ inputs /\ entries_sorted U es.
Proof.
  apply sort_entries; [exact (input_entries_ok _ _ _ v0_inv is_chosen)|exact (input_entries_distinct _ _ _ v0_inv is_chosen)|].
  by apply (es_unique inputs).
Qed.

Lemma background_error_set (s : Status) db : ok s = false -> ok (sh_bg_error (db_shared (RecordBackgroundError s db))) = false.
Proof. intros Hs. unfold RecordBackgroundError. by destruct (ok (sh_bg_error (db_shared db))) eqn:Eb. Qed.

Lemma start_working es g db : chosen (U := U) contents0 v0 c0 -> holds_outputs (raf_contents := raf_contents) (wf_contents := wf_contents) Snappy Zstd (U := U) (o := o) dbname db0 g db
    (with_smallest_snapshot snap (CompactionState_new c0) : CompactionState W) [] [] /\
  working (raf_contents := raf_contents) (wf_contents := wf_contents) Snappy Zstd (U := U) (o := o) dbname db0 c0 snap es g db DropState_new (with_smallest_snapshot snap (CompactionState_new c0)) 0.
Proof.
  intros Hc. assert (Hh : holds_outputs (raf_contents := raf_contents) (wf_contents := wf_contents) Snappy Zstd (U := U) (o := o) dbname db0 g db
    (with_smallest_snapshot snap (CompactionState_new c0) : CompactionState W) [] []) by (split; constructor; done).
  split; [exact Hh|]. split; try done.
  - intros e _. cbn [compaction with_smallest_snapshot CompactionState_new]. unfold ptrs_ok. rewrite (ch_ptrs _ _ _ Hc), length_replicate. split; [done|].
    intros lvl ptr [-> _]%lookup_replicate j f _ Hj. lia.
  - by exists [], [].
Qed.

(** What the work costs. *)
Definition work_cost : nat := (step_cost c m * length inputs + (4 * c + 1))%nat.

Lemma DoCompactionWork_spec t b :
  b0 = (c + (work_cost + b))%nat -> smallest_of db0 = Some snap ->
  exists s compact' g' db', DoCompactionWork Snappy Zstd U comparator_name dbname o others fuel t (CompactionState_new c0) db0 = Some (s, compact', db') /\
    good b held g' db' /\ (forall tb, builder compact' = Some tb -> closed tb = false) /\
    vs_last_sequence (db_versions db0) <= vs_last_sequence (db_versions db') /\
    reads_stay (vs_last_sequence (db_versions db0)) g0 g' /\ (if ok s then inputs_gone (g_v g') else ok (sh_bg_error (db_shared db')) = false).
Proof.
  intros Eb Esn. destruct sorted_inputs as (es & Hp & Hs). pose proof good0 as Hg0. rewrite Eb in Hg0. pose proof (ch_some _ _ _ is_chosen) as Hsome.
  unfold DoCompactionWork. destruct (current_in Snappy Zstd dbname _ _ _ _ _ _ _ good0) as (a & nd & Ea & En & _ & Ev).
  assert (Ec : current (db_versions db0) = Some v0) by (unfold current; rewrite Ea; cbn [mbind option_bind]; rewrite En; cbn; by rewrite Ev).
  rewrite Ec. cbn [mbind option_bind compaction CompactionState_new has_builder builder orb].
  destruct (Nat.eqb_spec (length (level_files v0 L)) 0) as [E0|_].
  { apply nil_length_inv in E0. destruct (c_inputs0 c0) as [|f fs] eqn:Ef; [done|]. assert (Hf : f ∈ level_files v0 L) by (apply is_chosen; rewrite Ef; by left).
    rewrite E0 in Hf. by apply elem_of_nil in Hf. }
  cbn [orb]. destruct input_children_ok as [Hch Hce].
  assert (Hr : ready (g_sst g0) 1 (table_cache_ db0)).
  { eapply (ready_le Snappy Zstd); [|exact (iv_ready _ _ _ _ _ _ _ _ _ _ Hg0)]. unfold work_cost. lia. }
  destruct (MakeInputIterator_spec Snappy Zstd dbname Hcmp Hinterval Hfilter (g_sst g0) fuel 0 (table_cache_ db0) c0 es Hr Hch Hs) as (it & pos & i & -> & HL & Hpos).
  { by rewrite Hce. }
  cbn [mbind option_bind]. unfold compaction_work. change (snapshots_ (db_shared db0)) with (snapshots_ (db_shared db0)).
  unfold smallest_of in Esn. rewrite Esn. cbn [mbind option_bind].
  destruct (others_goes Snappy Zstd dbname (others t) c (work_cost + b) held g0 db0 (others_relied t) Hg0) as (g1 & _ & Hg1 & E1).
  destruct (pos_first (IteratorLaws := HL) _ _ Hpos) as (it0 & -> & Hpos0). cbn [mbind option_bind].
  assert (Hfit : forall es', es' `sublist_of` es -> es' <> [] -> table_fits es').
  { intros es' Hsub Hne. apply fit; [by eapply sublist_sorted|done|]. intros e He. rewrite <- Hp. by eapply elem_of_sublist. }
  assert (Hv : levels_ok (C := U) (c_input_version c0)) by (rewrite (ch_version _ _ _ is_chosen); by eapply version_levels_ok, v0_inv).
  assert (Hok : Forall entry_ok es) by (rewrite Hp; exact (input_entries_ok _ _ _ v0_inv is_chosen)).
  assert (Hlen : length es = length inputs) by (by rewrite Hp).
  destruct (start_working es g1 (others t db0) is_chosen) as [_ Hw].
  destruct (compaction_loop_spec Snappy Zstd comparator_name dbname Hcmp Hinterval Hsize Hfilter g0 db0 b0 held good0 c0 snap es Hv (ch_level _ _ _ is_chosen) snap_range Hok Hs Hfit
    others c m others_relied few_files (HL := HL) fuel (4 * c + 1 + b) (mkLoop (t + 1) it0 OK DropState_new (with_smallest_snapshot snap (CompactionState_new c0)) (others t db0)) g1 0)
    as (lp & g2 & -> & Hh2 & Hend); [lia| |done|exact Hw|exact Hpos0|].
  { split; [|exact E1]. eapply good_le; [|exact Hg1]. unfold work_cost. rewrite Nat.sub_0_r, Hlen. lia. }
  cbn [mbind option_bind].
  destruct (finish_work_spec Snappy Zstd comparator_name dbname Hcmp Hinterval Hfilter g0 db0 b0 held good0 c0 snap es (ch_level _ _ _ is_chosen) Hok Hs Hfit others c others_relied (HL := HL)
    b g2 lp Hh2 Hend) as (g3 & db3 & compact' & Hh3 & [(s & [Es Hcl] & ->)|(outs & t1 & Hwr & ->)]).
  - exists s, compact', g3, (RecordBackgroundError s db3). split; [done|]. split; [apply inv_error; eapply good_le; [|apply Hh3]; lia|]. split; [exact Hcl|].
    split; [rewrite (proj1 (error_frame s db3)); apply (ev_last _ _ _ _ _ _ _ _ _ _ _ _ _ _ _ (proj2 Hh3))|].
    split; [|rewrite Es; by apply background_error_set]. intros u sq r [_ Hsq]. eapply goes_reads; [apply Hh3|exact Hsq].
  - destruct (install_outputs es Hp Hs t1 b g3 db3 compact' outs Hh3 Hwr) as (s & g' & db' & -> & Hg' & Hlast & Hgone & Hrd). cbn [mbind option_bind].
    exists s, compact', g', (if ok s then db' else RecordBackgroundError s db'). split; [done|]. split; [destruct (ok s); [done|by apply inv_error]|].
    split; [intros tb Etb; destruct Hwr as [_ _ Hclosed _ _ _]; by rewrite Hclosed in Etb|]. pose proof (ev_last _ _ _ _ _ _ _ _ _ _ _ _ _ _ _ (proj2 Hh3)) as Hlast0.
    split; [destruct (ok s); [|rewrite (proj1 (error_frame s db'))]; lia|]. split.
    + intros u sq r [Hsq0 Hsq] Hread. apply Hrd; [split; [done|lia]|]. eapply goes_reads; [apply Hh3|exact Hsq|exact Hread].
    + destruct (ok s) eqn:Es; [done|by apply background_error_set].
Qed.

(** *** A table moves *)

(** Any file of the version is a table of its entries. *)
Lemma version_table lvl f : f ∈ level_files v0 lvl ->
  table_of (U := U) (g_sst g0) (f_number f) (contents0 f) (f_meta f) /\ has_table (g_sst g0) (table_cache_ db0) (f_number f) (f_size f) (contents0 f) /\ 0 <= f_number f < next db0.
Proof.
  intros Hf. destruct (current_in Snappy Zstd dbname _ _ _ _ _ _ _ good0) as (a & nd & _ & _ & Hnd & Ev). pose proof Hf as Hf'. rewrite <- Ev in Hf'.
  destruct (iv_live _ _ _ _ _ _ _ _ _ _ good0 nd lvl f Hnd Hf') as (Ht & _ & _). split; [|split; [done|by apply (ma_files _ _ _ (iv_managed _ _ _ _ _ _ _ _ _ _ good0) lvl)]].
  pose proof (vo_files _ _ v0_inv lvl f Hf) as Hfo. destruct Ht as (_ & i & _ & Hi & Hio & Hes & Hz & _). split; [done|]. split; [|split; [apply Hfo|split; [apply Hfo|split; [exact (fo_smallest _ _ Hfo)|split; [exact (fo_largest _ _ Hfo)|by exists i]]]]].
  change (file_size (f_meta f)) with (f_size f). rewrite Hz. split; [|apply Hio]. destruct (tl_footer _ _ _ _ _ _ _ (im_layout _ _ _ Hio)) as [x ->]. rewrite zlen_app. pose proof (zlen_nonneg x).
  assert (Hl : zlen (Footer_EncodeTo (img_footer i) []) = 48) by (unfold zlen; by rewrite Footer_length). lia.
Qed.

Lemma other_number lvl lvl' f i : f ∈ level_files v0 lvl -> i ∈ level_ids v0 lvl' -> lvl <> lvl' -> id_number i <> f_number f.
Proof.
  intros Hf (x & Hx & ->)%level_ids_elem Hne En. change (id_number (file_id (f_meta x))) with (f_number x) in En. pose proof (vo_files _ _ v0_inv lvl f Hf) as Hfo.
  destruct (contents_nonempty _ f Hfo) as [e He]. destruct (files_disjoint contents0 v0 v0_inv lvl lvl' f x e Hf Hx He) as [? _]; [|done]. unfold table_contents in *. by rewrite En.
Qed.

Lemma trivial_move t b f : c_inputs0 c0 = [f] -> c_inputs1 c0 = [] -> b0 = (c + b)%nat ->
  exists s e g' db', LogAndApply_unlocked U comparator_name dbname (others t) (move_edit c0 f) db0 = Some (s, e, db') /\ good b held g' db' /\
    reads_stay (vs_last_sequence (db_versions db0)) g0 g' /\ (if ok s then inputs_gone (g_v g') else True).
Proof.
  intros E0 E1 Eb. set (ms := [(f_meta f, contents0 f)]). assert (Hf : f ∈ level_files v0 L) by (apply is_chosen; rewrite E0; by left).
  destruct (version_table L f Hf) as (Ht & Hh & Hn). assert (Hks : concat (map snd ms) = inputs) by (unfold input_entries, all_inputs; by rewrite E0, E1).
  assert (Hedit : compaction_edit c0 ms (move_edit c0 f)).
  { assert (He : move_edit c0 f = add_all (c_level c0 + 1) (map fst ms) (AddInputDeletions c0 (c_edit c0))).
    { unfold move_edit, AddInputDeletions, c_inputs. rewrite E0, E1, Nat.add_0_r. done. }
    rewrite He. apply installed_edit; [done|]. intros p ->%list_elem_of_singleton. apply (table_of_id _ _ _ _ Ht). apply input_number, elem_of_app. left. rewrite E0. by left. }
  destruct (install_spec Snappy Zstd comparator_name dbname Hsize g0 db0 b0 held good0 c0 is_chosen g0 db0 b0 held good0 (goes_refl db0 g0) ms) with (edit := move_edit c0 f) (others := others t) (c' := c) (b' := b) (snap := snap)
    as (s & e & g' & db' & E2 & Hg' & _ & _ & _ & _ & Hres & Hrd).
  - apply Forall_singleton. split; [done|]. split; [exact Hh|]. split; [exact Hn|]. intros i Hi. apply (other_number L (L + 1)); [done|done|lia].
  - apply NoDup_singleton.
  - cbn. rewrite app_nil_r. exact (fo_sorted _ _ (vo_files _ _ v0_inv L f Hf)).
  - intros x. by rewrite Hks.
  - exact Hedit.
  - exact Eb.
  - apply others_relied.
  - intros new u sq r _ _. by rewrite Hks.
  - exists s, e, g', db'. split; [exact E2|]. split; [exact Hg'|]. split; [exact Hrd|]. destruct (ok s); [|done]. pose proof (ch_level _ _ _ is_chosen) as Hl. split; [|intros x; rewrite E1; by intros ?%elem_of_nil].
    rewrite E0. intros x ->%list_elem_of_singleton. intros Hin. apply Hres in Hin; [|lia]. apply apply_ref_elem in Hin as [[_ Hno]|Hin].
    + apply Hno, (ce_dels _ _ _ Hedit). left. rewrite E0. split; [done|]. by left.
    + rewrite (ce_adds _ _ _ Hedit) in Hin. case_decide; [lia|]. by apply elem_of_nil in Hin.
Qed.

(** *** The compaction, and what follows it *)

Lemma cleanup_spec (b : nat) h g db (compact : CompactionState W) : good b h g db -> (forall tb, builder compact = Some tb -> closed tb = false) ->
  exists db', CleanupCompaction compact db = Some db' /\ good b h g db' /\ db_shared db' = db_shared db /\ vs_last_sequence (db_versions db') = vs_last_sequence (db_versions db).
Proof.
  intros Hg Hc. unfold CleanupCompaction. set (db1 := with_pending _ db). assert (Hg1 : good b h g db1) by by apply inv_pending.
  destruct (builder compact) as [tb|]; [|by exists db1]. unfold Abandon. rewrite (Hc tb eq_refl). by exists db1.
Qed.

Lemma reads_stay_trans last last' g g1 g2 : last <= last' -> reads_stay last g g1 -> reads_stay last' g1 g2 -> reads_stay last g g2.
Proof. intros Hl H1 H2 u s r [Hs1 Hs2] Hr. apply H2; [lia|]. by apply H1. Qed.

Lemma gone_files v v' : files_ v' = files_ v -> inputs_gone v -> inputs_gone v'.
Proof. intros Ef. unfold inputs_gone, level_ids, level_files. by rewrite Ef. Qed.

Lemma obsolete_work_spec t b h g db : good (m + (c + b)) h g db ->
  exists g' db', RemoveObsoleteFiles dbname (others t) db = Some db' /\ good b h g' db' /\ files_ (g_v g') = files_ (g_v g) /\ reads_stay (vs_last_sequence (db_versions db)) g g' /\
    (ok (sh_bg_error (db_shared db)) = false -> ok (sh_bg_error (db_shared db')) = false).
Proof.
  intros Hg. destruct (RemoveObsoleteFiles_inv Snappy Zstd dbname (others t) c m (next db) (next db) (g_sst g) b h (g_ments g) (g_iments g) (g_v g) db Hg (few_files _) (others_relied t))
    as (db' & ments' & iments' & v' & E1 & Hi & Ef & Hev). exists (mkGhost (g_sst g) ments' iments' v'), db'. split; [exact E1|]. split; [exact Hi|]. split; [exact Ef|]. split.
  - intros u s r [_ Hs] Hr. by apply (goes_reads (next db) g db (mkGhost (g_sst g) ments' iments' v') db').
  - intros Eok. unfold RemoveObsoleteFiles in E1. rewrite Eok in E1. cbn [negb] in E1. by injection E1 as <-.
Qed.

Lemma run_compaction_spec t b a h is_manual :
  held = a :: h -> b0 = (c + (work_cost + (m + (c + b))))%nat -> smallest_of db0 = Some snap ->
  exists s g' db', run_compaction Snappy Zstd U comparator_name dbname o others fuel t is_manual a c0 db0 = Some (s, db') /\ good b h g' db' /\
    reads_stay (vs_last_sequence (db_versions db0)) g0 g' /\ (if ok s then inputs_gone (g_v g') else ok (sh_bg_error (db_shared db')) = false).
Proof.
  intros Eh Eb Esn. unfold run_compaction. destruct (negb is_manual && IsTrivialMove c0) eqn:Et.
  - apply andb_prop in Et as [_ Et]. unfold IsTrivialMove in Et. apply andb_prop in Et as [Et _]. apply andb_prop in Et as [E0%Nat.eqb_eq E1%Nat.eqb_eq].
    destruct (c_inputs0 c0) as [|f [|]] eqn:Ei; try done. apply nil_length_inv in E1. cbn [lookup list_lookup mbind option_bind].
    destruct (trivial_move t (work_cost + (m + (c + b))) f Ei E1 Eb) as (s & e & g1 & db1 & -> & Hg1 & Hrd & Hres). cbn [mbind option_bind].
    set (db2 := if ok s then db1 else RecordBackgroundError s db1). assert (Hg2 : good (work_cost + (m + (c + b))) (a :: h) g1 db2).
    { rewrite <- Eh. unfold db2. destruct (ok s); [done|by apply inv_error]. }
    destruct (Unref_at_inv Snappy Zstd dbname _ _ _ _ _ _ _ _ Hg2) as (db3 & -> & Hg3 & _ & Hsh & _). cbn [mbind option_bind]. exists s, g1, db3. split; [done|].
    split; [eapply good_le; [|exact Hg3]; lia|]. split; [exact Hrd|]. unfold db2 in Hsh. destruct (ok s) eqn:Es; [done|]. rewrite Hsh. by apply background_error_set.
  - destruct (DoCompactionWork_spec t (m + (c + b)) Eb Esn) as (s & compact & g1 & db1 & -> & Hg1 & Hcl & Hl1 & Hrd & Hres). cbn [mbind option_bind]. rewrite Eh in Hg1.
    set (db2 := if ok s then db1 else RecordBackgroundError s db1). assert (Hg2 : good (m + (c + b)) (a :: h) g1 db2) by (unfold db2; destruct (ok s); [done|by apply inv_error]).
    assert (Hl2 : vs_last_sequence (db_versions db2) = vs_last_sequence (db_versions db1)) by (unfold db2; destruct (ok s); [done|by rewrite (proj1 (error_frame s db1))]).
    destruct (cleanup_spec _ _ _ _ compact Hg2 Hcl) as (db3 & -> & Hg3 & Hsh3 & Hl3). cbn [mbind option_bind].
    destruct (Unref_at_inv Snappy Zstd dbname _ _ _ _ _ _ _ _ Hg3) as (db4 & -> & Hg4 & _ & Hsh4 & _ & _ & Hl4 & _). cbn [mbind option_bind].
    destruct (obsolete_work_spec (t + 5 + 9 * fuel) b h g1 db4 Hg4) as (g' & db' & -> & Hg' & Ef & Hrd' & Hbad). cbn [mbind option_bind]. exists s, g', db'. split; [done|]. split; [exact Hg'|].
    split; [eapply reads_stay_trans; [|exact Hrd|exact Hrd']; congruence|]. destruct (ok s) eqn:Es; [by apply (gone_files (g_v g1))|].
    apply Hbad. rewrite Hsh4, Hsh3. by apply background_error_set.
Qed.
End Work.
