(* ===== verification/Background.v ===== *)
(** * db/db_impl: background compactions keep the reads

    [BackgroundCompaction] compacts the immutable memtable, or what [PickCompaction]
    chooses: it returns, with the state in order, and every read at the smallest
    snapshot or later is answered as before, whether or not the files that are
    written fail.  The property is run on a database in memory with two tables, on
    a disk that works and on one that is full. *)

From Stdlib Require Import Sorted SpecFloat.
From stdpp Require Import gmap sorting.
From S2P Require Import Prelude Coding Comparator Crc32c Bloom DbFormat Status Iterator BlockBuilder Block Format FilterBlock TableBuilder Table SkipList MemTable UserView MemIter.
From S2P Require Import VersionEdit Options Version VersionGet Overlap InternalTable TableCache BuildTable MemoryFiles LogWriter Filename Compaction InputIterator CompactionDrop VersionBuilder VersionSet Manifest Install Levels InputLaws.
From S2P Require Import DBImpl DBGet LSM Obsolete Recovery LogRecovery Invariant InstallEdit Evolve CompactMemTable ReadStability DoCompaction CompactionRun CompactionLoop CompactionInstall CompactionInput CompactionChoice CompactionWork.

Section Background.
Context `{CS : Checksum} {E RA W KC H K : Type} {R : RandomAccessFile RA} {WF : WritableFile W}.
Context {LF : LogFiles E W} {EF : EnvFiles E} {EFL : EnvFilesLaws E} {ED : EnvDirectory E} {RF : RandomAccessFiles E RA} {TF : TableFiles E W}.
Context {works : Prop} {raf_contents : RA -> bytes} {RL : RandomAccessFileLaws R raf_contents} {wf_contents : W -> bytes}.
Context {FS : FaultyFileSystem works WF RF LF TF EF raf_contents wf_contents}.
Context {CO : CacheOps KC H (Table RA) TableDeleter} {c_ok : nat -> (bytes -> Table RA -> Prop) -> list H -> KC -> Prop} {CL : CacheLaws CO c_ok}.
Context {BC : BlockCache K} {bc_holds : K -> bytes -> Block -> Prop} {BL : BlockCacheLaws BC bc_holds} {bc_next : K -> Z} {BI : BlockCacheIds BC bc_next}.
Context (Snappy Zstd : Compressor) {SL : CompressorLaws Snappy} {ZL : CompressorLaws Zstd}.
Context {U : Comparator} {UL : ComparatorLaws U} {o : Options} (comparator_name dbname : bytes).
Context (Hcmp : comparator o = InternalKeyComparator U) (Hinterval : 1 <= block_restart_interval o) (Hsize : 0 <= max_file_size o <= 2 ^ 30).
Context (Hfilter : forall name P, filter_policy o = Some (name, P) ->
  exists P0, P = InternalFilterPolicy P0 /\ FilterPolicyLaws P0 /\ zlen name < 2 ^ 31 /\ forall a b, Compare (Comparator := U) a b = Eq -> a = b).
Notation DB := (DBImpl E W KC K).
Notation ready := (cache_ready (raf_contents := raf_contents) (c_ok := c_ok) (bc_holds := bc_holds) (bc_next := bc_next) Snappy Zstd (U := U) (o := o)).
Notation has_table := (has_table (raf_contents := raf_contents) Snappy Zstd (U := U) (o := o) dbname).
Notation inv := (inv (raf_contents := raf_contents) (wf_contents := wf_contents) (c_ok := c_ok) (bc_holds := bc_holds) (bc_next := bc_next) Snappy Zstd (U := U) (o := o) dbname).
Notation evolves := (evolves (raf_contents := raf_contents) Snappy Zstd (U := U) (o := o) dbname).
Notation relied := (rely (raf_contents := raf_contents) (wf_contents := wf_contents) (c_ok := c_ok) (bc_holds := bc_holds) (bc_next := bc_next) Snappy Zstd (U := U) (o := o) dbname).
Notation table_fits := (table_fits (o := o) (wf_contents := wf_contents) Snappy Zstd).
Notation next db := (vs_next_file_number (db_versions db)).
Notation good := (good (raf_contents := raf_contents) (wf_contents := wf_contents) (c_ok := c_ok) (bc_holds := bc_holds) (bc_next := bc_next) Snappy Zstd (U := U) (o := o) dbname).
Notation goes := (goes (raf_contents := raf_contents) Snappy Zstd (U := U) (o := o) dbname).
Notation here := (here (raf_contents := raf_contents) (wf_contents := wf_contents) (c_ok := c_ok) (bc_holds := bc_holds) (bc_next := bc_next) Snappy Zstd (U := U) (o := o) dbname).
Notation written := (written (raf_contents := raf_contents) Snappy Zstd (U := U) (o := o) dbname).
Notation child_ok := (child_ok (raf_contents := raf_contents) Snappy Zstd (U := U) (o := o) dbname).
Notation newer := (newer (C := U)).
Implicit Types (db : DB) (g : Ghost).

Variables (others : nat -> DB -> DB) (c m : nat).
Context (others_relied : forall n, relied c (others n)) (few_files : forall e : E, (length (GetChildren dbname e).2 <= m)%nat).

(** *** The choice *)

Lemma inv_pointers b held g db ptrs : Forall (fun p => zlen p < 2 ^ 32) ptrs -> good b held g db ->
  good b held g (with_db_versions (with_objects (mkObjects ptrs (o_next (vs_objects (db_versions db))) (o_seeks (vs_objects (db_versions db)))) (db_versions db)) db).
Proof.
  intros Hp [I1 I2 I3 I4 I5 I6 I7 I8 I9 I10 I11 I12 I13 I14]. split; try done. destruct I1 as [[V1 V2 V3] M2 M3 M4 M5 M6 M7 M8 M9]. by split.
Qed.

Lemma unique_version b held g db : good b held g db -> unique_keys (U := U) (version_entries (table_contents (g_sst g)) (g_v g)).
Proof. intros Hg. eapply unique_keys_sub; [|exact (iv_unique _ _ _ _ _ _ _ _ _ _ Hg)]. intros e He. apply elem_of_app. right. apply elem_of_app. by right. Qed.

Lemma choose_compaction_spec b held g db :
  good b held g db -> manual_compaction_ (db_shared db) = None -> pickable (g_v g) -> length (o_compact_pointer (vs_objects (db_versions db))) = kNumLevels ->
  exists r db', choose_compaction U o db = Some (r, [], db') /\ good b held g db' /\ db_shared db' = db_shared db /\ vs_last_sequence (db_versions db') = vs_last_sequence (db_versions db) /\
    current_ (db_versions db') = current_ (db_versions db) /\
    (exists ptrs, PickCompaction U o (g_v g) (o_compact_pointer (vs_objects (db_versions db))) = Some ((fun c => (c, ptrs)) <$> r)) /\
    match r with None => True | Some c0 => chosen (U := U) (table_contents (g_sst g)) (g_v g) c0 end.
Proof.
  intros Hg Hman Hp Hlen. unfold choose_compaction. rewrite (ma_current _ _ _ (iv_managed _ _ _ _ _ _ _ _ _ _ Hg)). cbn [mbind option_bind]. rewrite Hman.
  destruct (PickCompaction_spec (table_contents (g_sst g)) (g_v g) (iv_version _ _ _ _ _ _ _ _ _ _ Hg) (unique_version _ _ _ _ Hg) o _ Hp Hlen) as (r & -> & Hr). cbn [mbind option_bind].
  destruct r as [[c0 ptrs]|].
  - destruct Hr as [Hc (largest & -> & Hk)]. eexists _, _. split; [done|]. split; [|do 3 (split; [done|]); split; [by eexists|done]]. apply inv_pointers; [|done].
    apply Forall_insert; [exact (ma_objects _ _ _ (iv_managed _ _ _ _ _ _ _ _ _ _ Hg))|done].
  - exists None, db. split; [done|]. split; [done|]. do 3 (split; [done|]). split; [by exists []|done].
Qed.

(** *** [BackgroundCompaction] *)

(** What it may cost on a version of [n] entries. *)
Definition background_cost (n : nat) : nat := (c + (step_cost c m * n + (4 * c + 1) + (m + c)))%nat.

Lemma inputs_length contents v c0 : version_ok (C := U) contents v -> length (files_ v) = kNumLevels -> chosen (U := U) contents v c0 ->
  (forall e, e ∈ input_entries contents c0 -> e ∈ version_entries contents v) /\ (length (input_entries contents c0) <= length (version_entries contents v))%nat.
Proof.
  intros Hv Hlen Hc. assert (Hin : forall e, e ∈ input_entries contents c0 -> e ∈ version_entries contents v).
  { intros e (f & Hf & He)%elem_concat. pose proof (ch_level _ _ _ Hc). apply elem_concat.
    apply (input_file _ _ _ Hc) in Hf as [[_ Hf]|[_ Hf]]; eexists; (split; [apply elem_of_seq; split; [apply Nat.le_0_l|]|by eapply file_level_entries]); cbn; lia. }
  split; [exact Hin|]. apply submseteq_length, NoDup_submseteq; [exact (input_entries_distinct _ _ _ Hv Hc)|exact Hin].
Qed.

Context (fuel : nat) (snap : Z) (snap_range : 0 <= snap < kMaxSequenceNumber).

(** Reads at [snap] or later, up to the last sequence number of [db]. *)
Definition keeps g db g' : Prop := reads_stay (U := U) snap (vs_last_sequence (db_versions db)) g g'.

Lemma BackgroundCompaction_spec b held g db :
  good (background_cost fuel + b) held g db -> manual_compaction_ (db_shared db) = None -> pickable (g_v g) -> length (o_compact_pointer (vs_objects (db_versions db))) = kNumLevels ->
  smallest_of db = Some snap -> (length (version_entries (table_contents (g_sst g)) (g_v g)) <= fuel)%nat ->
  (forall c0, chosen (U := U) (table_contents (g_sst g)) (g_v g) c0 -> outputs_fit (wf_contents := wf_contents) Snappy Zstd (U := U) (o := o) g c0) ->
  exists g' db', BackgroundCompaction Snappy Zstd U comparator_name dbname o others fuel db = Some db' /\ good b held g' db' /\ keeps g db g' /\
    (ok (sh_bg_error (db_shared db')) = false \/ (db_imm db <> None /\ forall e, e ∈ g_iments g -> e ∈ version_entries (table_contents (g_sst g')) (g_v g')) \/
     forall c0 ptrs, PickCompaction U o (g_v g) (o_compact_pointer (vs_objects (db_versions db))) = Some (Some (c0, ptrs)) -> inputs_gone c0 (g_v g')).
Proof.
  intros Hg Hman Hp Hlen Hsn Hfuel Hfit. unfold BackgroundCompaction. destruct (db_imm db) as [imm|] eqn:Eimm.
  - destruct (CompactMemTable_spec Snappy Zstd comparator_name dbname Hcmp Hinterval Hfilter others c c c m (next db) (g_sst g) b held (g_ments g) (g_iments g) (g_v g) db imm)
      as (db' & sst' & ments' & iments' & v' & Ec & Hi & Ev & _ & Hres); try done.
    { eapply good_le; [|exact Hg]. unfold background_cost. lia. }
    exists (mkGhost sst' ments' iments' v'), db'. split; [exact Ec|]. split; [exact Hi|]. split; [|by destruct Hres as [[Hb _]|Hin]; [left|right; left]].
    intros u s r [_ Hs] Hr. by eapply (goes_reads Snappy Zstd dbname (next db) g db (mkGhost sst' ments' iments' v') db').
  - rewrite Hman. destruct (choose_compaction_spec _ _ _ _ Hg Hman Hp Hlen) as (r & db1 & -> & Hg1 & Hsh1 & Hl1 & Ecur1 & (ptrs & Epick) & Hc). cbn [mbind option_bind].
    destruct r as [c0|].
    2: { cbn [mbind option_bind]. exists g, db1. split; [done|]. split; [eapply good_le; [apply Nat.le_add_l|exact Hg1]|]. split; [by intros u s r _|]. right. right. intros c0 p Ec. rewrite Epick in Ec. done. }
    destruct (find_set_version _ _ (ma_versions _ _ _ (iv_managed _ _ _ _ _ _ _ _ _ _ Hg1)) (ma_current _ _ _ (iv_managed _ _ _ _ _ _ _ _ _ _ Hg1))) as (a & n & Ea & En & _).
    rewrite Ea. cbn [mbind option_bind]. destruct (Ref_at_inv Snappy Zstd dbname _ _ _ _ _ _ _ a n Hg1 En Ea) as (db2 & -> & Hg2 & _ & Hsh2 & _ & _ & Hl2 & _). cbn [mbind option_bind].
    pose proof (iv_version _ _ _ _ _ _ _ _ _ _ Hg) as Hv. destruct (inputs_length _ _ c0 Hv (proj1 (inv_holds Snappy Zstd dbname _ _ _ _ _ _ _ Hg)) Hc) as [_ Hle].
    set (n0 := length (input_entries (table_contents (g_sst g)) c0)) in *.
    assert (Hgood : good (c + (work_cost c m g c0 + (m + (c + b)))) (a :: held) g db2).
    { eapply good_le; [|exact Hg2]. unfold background_cost, work_cost. fold n0. assert (step_cost c m * n0 <= step_cost c m * fuel)%nat by (apply Nat.mul_le_mono_l; lia). lia. }
    destruct (run_compaction_spec Snappy Zstd comparator_name dbname Hcmp Hinterval Hsize Hfilter others c m others_relied few_files g db2 _ (a :: held) Hgood c0 Hc fuel) with (snap := snap) (t := 0%nat) (b := b) (a := a) (h := held) (is_manual := false)
      as (s & g' & db' & -> & Hg' & Hrd & Hres); try done.
    { lia. }
    { by apply Hfit. }
    { unfold smallest_of in *. by rewrite Hsh2, Hsh1, Hl2, Hl1. }
    cbn [mbind option_bind]. exists g', db'. split; [done|]. split; [exact Hg'|]. split; [unfold keeps; by rewrite <- Hl1, <- Hl2|].
    destruct (ok s) eqn:Es; [|by left]. right. right. intros c1 p Ec. rewrite Epick in Ec. by injection Ec as -> ->.
Qed.
End Background.

(** ** Property *)

(** C3: A background compaction is safe.  From a state in order, with no manual
    compaction requested ([manual_compaction_] is null) and a version whose choice
    of a compaction is sound, and whatever the other threads do at each point where
    the mutex is free, [BackgroundCompaction] returns a state in order.  A read of a
    key at the smallest snapshot that is held, or later, is answered by [Get] from
    the entries that were there before: the merge of the inputs drops only what no
    such read can see.  Afterwards the background error is set, or the entries of
    the immutable memtable are in the version, or no input of the compaction that
    was chosen is left in its level.  All this holds although creating, writing,
    syncing, closing and removing files may fail at any time ([FaultyFileSystem]):
    the outputs of a compaction that failed are not installed, and its inputs stay.
    Only reads of files that exist must succeed. *)
Theorem background_compaction_keeps_reads `{CS : Checksum} {E RA W KC H K : Type} {R : RandomAccessFile RA} {WF : WritableFile W}
    {LF : LogFiles E W} {EF : EnvFiles E} {EFL : EnvFilesLaws E} {ED : EnvDirectory E} {RF : RandomAccessFiles E RA} {TF : TableFiles E W}
    (works : Prop) (raf_contents : RA -> bytes) {RL : RandomAccessFileLaws R raf_contents} (wf_contents : W -> bytes)
    {FS : FaultyFileSystem works WF RF LF TF EF raf_contents wf_contents}
    {CO : CacheOps KC H (Table RA) TableDeleter} (c_ok : nat -> (bytes -> Table RA -> Prop) -> list H -> KC -> Prop) {CL : CacheLaws CO c_ok}
    {BC : BlockCache K} (bc_holds : K -> bytes -> Block -> Prop) {BL : BlockCacheLaws BC bc_holds} (bc_next : K -> Z) {BI : BlockCacheIds BC bc_next}
    (Snappy Zstd : Compressor) {SL : CompressorLaws Snappy} {ZL : CompressorLaws Zstd}
    (U : Comparator) {UL : ComparatorLaws U} (o : Options) (comparator_name dbname : bytes)
    (Hcmp : comparator o = InternalKeyComparator U) (Hinterval : 1 <= block_restart_interval o) (Hsize : 0 <= max_file_size o <= 2 ^ 30)
    (Hfilter : forall name P, filter_policy o = Some (name, P) ->
      exists P0, P = InternalFilterPolicy P0 /\ FilterPolicyLaws P0 /\ zlen name < 2 ^ 31 /\ forall a b, Compare (Comparator := U) a b = Eq -> a = b)
    (others : nat -> DBImpl E W KC K -> DBImpl E W KC K) (c m b fuel : nat) (snap : Z)
    (sst : Z -> option TableImage) (held : list Z) (ments iments : list Entry) (v : Version) (db : DBImpl E W KC K) :
  let in_order := inv (raf_contents := raf_contents) (wf_contents := wf_contents) (c_ok := c_ok) (bc_holds := bc_holds) (bc_next := bc_next) Snappy Zstd (U := U) (o := o) dbname in
  let entries := version_entries (table_contents sst) v in
  let pointers := o_compact_pointer (vs_objects (db_versions db)) in
  (forall n, rely (H := H) (raf_contents := raf_contents) (wf_contents := wf_contents) (c_ok := c_ok) (bc_holds := bc_holds) (bc_next := bc_next) Snappy Zstd (U := U) (o := o) dbname c (others n)) ->
  (forall e : E, (length (GetChildren dbname e).2 <= m)%nat) ->
  in_order sst (background_cost c m fuel + b)%nat held ments iments v db ->
  manual_compaction_ (db_shared db) = None -> pickable v -> length pointers = kNumLevels ->
  smallest_of db = Some snap -> 0 <= snap < kMaxSequenceNumber -> (length entries <= fuel)%nat ->
  (forall es, entries_sorted U es -> es <> [] -> (forall e, e ∈ es -> e ∈ entries) -> table_fits (o := o) (wf_contents := wf_contents) Snappy Zstd es) ->
  exists db' sst' ments' iments' v', BackgroundCompaction Snappy Zstd U comparator_name dbname o others fuel db = Some db' /\
    in_order sst' b held ments' iments' v' db' /\
    (ok (sh_bg_error (db_shared db')) = false \/ (db_imm db <> None /\ forall e, e ∈ iments -> e ∈ version_entries (table_contents sst') v') \/
     forall c0 ptrs, PickCompaction U o v pointers = Some (Some (c0, ptrs)) ->
       (forall f, f ∈ c_inputs0 c0 -> file_id (f_meta f) ∉ level_ids v' (c_level c0)) /\ (forall f, f ∈ c_inputs1 c0 -> file_id (f_meta f) ∉ level_ids v' (c_level c0 + 1))) /\
    forall options s u value, (length (level_files v' 0) + kNumLevels <= b)%nat -> Options.snapshot options = Some s ->
      snap <= s <= vs_last_sequence (db_versions db) -> s <= kMaxSequenceNumber -> zlen u + 8 < 2 ^ 32 ->
      exists st value' db'', Get Snappy Zstd U dbname o (fun _ db => db) options u value db' = Some (st, value', db'') /\
        answer (U := U) u s (ments ++ iments ++ entries) value st value'.
Proof.
  intros inor entries pointers Hr Hm Hi Hman Hp Hlen Hsn Hrange Hfuel Hfit. set (g := mkGhost sst ments iments v).
  destruct (BackgroundCompaction_spec Snappy Zstd comparator_name dbname Hcmp Hinterval Hsize Hfilter others c m Hr Hm fuel snap Hrange b held g db Hi Hman Hp Hlen Hsn Hfuel)
    as ([sst' ments' iments' v'] & db' & E1 & Hi' & Hk & Hres).
  { intros c0 Hc es Hs Hne Hin. apply Hfit; [done|done|]. intros e He. apply (inputs_length _ v c0 (iv_version _ _ _ _ _ _ _ _ _ _ Hi) (proj1 (inv_holds Snappy Zstd dbname _ _ _ _ _ _ _ Hi)) Hc). by apply Hin. }
  exists db', sst', ments', iments', v'. split; [exact E1|]. split; [exact Hi'|]. split; [exact Hres|].
  intros options s u value Hb Es Hs Hmax Hu.
  destruct (Get_in_order (wf_contents := wf_contents) Snappy Zstd dbname Hcmp Hinterval Hfilter sst' b held ments' iments' v' db' options s u value Hi' Hb Es ltac:(lia) Hu) as (st & value' & db'' & E2 & Ha).
  exists st, value', db''. split; [exact E2|]. eapply answer_kept; [exact (iv_unique _ _ _ _ _ _ _ _ _ _ Hi')| |exact Ha]. intros r. exact (Hk u s r Hs).
Qed.

(** ** A database in memory: the table of level 1 hides the one of level 2 *)

Definition hiding_entry : Entry := mkEntry (cstr "a") 9 kTypeValue (cstr "2").

(** The file of a table. *)
Definition table_file (es : list Entry) : bytes :=
  default [] (r ← add_entries StoreCompressor StoreCompressor (TableBuilder_new reading_options []) (map entry_kv es);
              r_file ∘ snd <$> Finish StoreCompressor StoreCompressor r).

Definition hiding_table : bytes := Eval vm_compute in table_file [hiding_entry].
Definition old_table : bytes := Eval vm_compute in table_file [old_entry].

Definition compacting_env : MemoryEnv :=
  store (TableFileName (cstr "db") 4) old_table (store (TableFileName (cstr "db") 5) hiding_table (fun _ => None)).

Definition table_ptr (addr n : Z) (b : bytes) (e : Entry) : FilePtr := mkFilePtr addr (FileMetaData_new n (zlen b) (entry_ikey e) (entry_ikey e)).
Definition upper_file : FilePtr := table_ptr 1 5 hiding_table hiding_entry.
Definition lower_file : FilePtr := table_ptr 0 4 old_table old_entry.

(** Reads have used up the seeks of the upper table. *)
Definition compacting_version : Version := mkVersion [[]; [upper_file]; [lower_file]; []; []; []; []] (Some upper_file) 1 (double_of_Z 0) 2.

Definition compacting_db : DBImpl MemoryEnv bytes (list (bytes * Table bytes)) (Z * list (bytes * Block)) :=
  mkDBImpl (mkVersionSet compacting_env 6 2 9 3 0 None [mkVNode 0 1 compacting_version] (Some 0) 1 (mkObjects (replicate kNumLevels []) 2 {[0 := 100; 1 := 0]}))
    [] (Some (0, [])) ∅ (Some MemTable_new) None None 4 Shared_new.

Definition compacting_entries : list Entry := [hiding_entry; old_entry].

Lemma compacting_sorted es : entries_sorted BytewiseComparator es -> es <> [] -> (forall e, e ∈ es -> e ∈ compacting_entries) ->
  es = [hiding_entry] \/ es = [old_entry] \/ es = compacting_entries.
Proof.
  intros Hs Hne Hin. assert (Hb : forall e, e ∈ es -> e = hiding_entry \/ e = old_entry).
  { intros e [->|[->|[]%elem_of_nil]%elem_of_cons]%Hin%elem_of_cons; auto. }
  assert (Hno : forall x y l, entries_sorted BytewiseComparator (x :: y :: l) -> InternalKey_Compare BytewiseComparator (entry_ikey x) (entry_ikey y) = Lt).
  { intros x y l Hx. apply StronglySorted_inv in Hx as [_ Hx]. by inversion Hx. }
  assert (Hpair : forall x y l, entries_sorted BytewiseComparator (x :: y :: l) -> x = hiding_entry \/ x = old_entry -> y = hiding_entry \/ y = old_entry -> x = hiding_entry /\ y = old_entry).
  { intros x y l Hx%Hno [-> | ->] [-> | ->]; by vm_compute in Hx. }
  destruct es as [|x [|y [|z l]]]; [done| | |].
  - destruct (Hb x ltac:(by left)) as [-> | ->]; auto.
  - destruct (Hpair x y [] Hs (Hb x ltac:(by left)) (Hb y ltac:(by right; left))) as [-> ->]. auto.
  - destruct (Hpair x y _ Hs (Hb x ltac:(by left)) (Hb y ltac:(by right; left))) as [_ ->]. apply StronglySorted_inv in Hs as [Hs _].
    by destruct (Hpair old_entry z l Hs (Hb _ ltac:(by right; left)) (Hb z ltac:(by right; right; left))).
Qed.

Lemma compacting_fits {works : Prop} {WF : WritableFile bytes} {FL : FaultyFile works WF id} es : entries_sorted BytewiseComparator es -> es <> [] -> (forall e, e ∈ es -> e ∈ compacting_entries) ->
  table_fits (o := reading_options) (wf_contents := id) StoreCompressor StoreCompressor es.
Proof.
  intros Hs Hne Hin. destruct (compacting_sorted es Hs Hne Hin) as [-> |[-> | ->]]; (eapply small_fits; [by vm_compute|vm_compute; reflexivity|by vm_compute]).
Qed.

(** The files are tables. *)
Lemma table_image e : entry_ok e -> entries_size [entry_kv e] + 20 * zlen [e] < 2 ^ 32 -> zlen (table_file [e]) < 2 ^ 32 ->
  exists i, image_ok StoreCompressor StoreCompressor (U := BytewiseComparator) (o := reading_options) i /\ img_entries i = [e] /\ img_bytes i = table_file [e].
Proof.
  intros He Hz Hf. destruct (build_table (wf_contents := id) StoreCompressor StoreCompressor reading_options [] (map entry_kv [e]) _ eq_refl) as (r & r' & blocks & footer & off & Ea & Efin & Eb & Hlay & _).
  { by repeat constructor. }
  assert (Et : table_file [e] = r_file r') by (unfold table_file; rewrite Ea; cbn [mbind option_bind]; by rewrite Efin).
  exists (mkImage (table_file [e]) blocks footer off [e]). split; [|done]. split; cbn [img_bytes img_blocks img_footer img_end img_entries]; [by rewrite Et|done|by constructor|by repeat constructor|done|done].
Qed.

Lemma compacting_files lvl f : f ∈ level_files compacting_version lvl -> (lvl = 1%nat /\ f = upper_file) \/ (lvl = 2%nat /\ f = lower_file).
Proof.
  do 7 (destruct lvl as [|lvl]; [cbn; rewrite ?elem_of_nil, ?list_elem_of_singleton; auto; tauto|]). unfold level_files. cbn. by intros ?%elem_of_nil.
Qed.

Definition two_tables (i4 i5 : TableImage) (n : Z) : option TableImage := if n =? 4 then Some i4 else if n =? 5 then Some i5 else None.

Section Witness.
Context (i4 i5 : TableImage).
Context (ok4 : image_ok StoreCompressor StoreCompressor (U := BytewiseComparator) (o := reading_options) i4) (es4 : img_entries i4 = [old_entry]) (bytes4 : img_bytes i4 = old_table).
Context (ok5 : image_ok StoreCompressor StoreCompressor (U := BytewiseComparator) (o := reading_options) i5) (es5 : img_entries i5 = [hiding_entry]) (bytes5 : img_bytes i5 = hiding_table).
Notation sst := (two_tables i4 i5).

Lemma upper_contents : table_contents sst upper_file = [hiding_entry].
Proof. unfold table_contents. cbn. exact es5. Qed.
Lemma lower_contents : table_contents sst lower_file = [old_entry].
Proof. unfold table_contents. cbn. exact es4. Qed.

Lemma compacting_version_entries : version_entries (table_contents sst) compacting_version = compacting_entries.
Proof. unfold version_entries, level_entries, level_files. cbn -[table_contents]. by rewrite upper_contents, lower_contents. Qed.

Lemma table_ptr_ok addr n b e : entry_ok e -> table_contents sst (table_ptr addr n b e) = [e] -> VersionGet.file_ok (C := BytewiseComparator) (table_contents sst) (table_ptr addr n b e).
Proof. intros He Ec. split; rewrite Ec; [by constructor|by repeat constructor|by exists e|by exists e]. Qed.

Lemma compacting_version_ok : version_ok (C := BytewiseComparator) (table_contents sst) compacting_version.
Proof.
  split.
  - intros level f [[_ ->]|[_ ->]]%compacting_files; apply table_ptr_ok; [by vm_compute|exact upper_contents|by vm_compute|exact lower_contents].
  - intros level _ i j f g Hi Hj Hlt. assert (Hlen : (length (level_files compacting_version level) <= 1)%nat).
    { do 7 (destruct level as [|level]; [cbn; lia|]). change (0 <= 1)%nat. lia. }
    apply lookup_lt_Some in Hj. lia.
  - intros level level' Hlt e e' (f & Hf & He)%elem_concat (g & Hg & He')%elem_concat Hk.
    apply compacting_files in Hf as [[-> ->]|[-> ->]], Hg as [[-> ->]|[-> ->]]; try lia.
    rewrite upper_contents in He. rewrite lower_contents in He'. apply list_elem_of_singleton in He as ->. apply list_elem_of_singleton in He' as ->. done.
  - intros f g Hf. by apply elem_of_nil in Hf.
  - constructor.
Qed.

Lemma upper_there : has_table (raf_contents := id) StoreCompressor StoreCompressor (U := BytewiseComparator) (o := reading_options) (cstr "db") sst (table_cache_ compacting_db) 5 (zlen hiding_table) [hiding_entry].
Proof. split; [lia|]. exists i5, hiding_table. do 3 (split; [done|]). split; [by rewrite bytes5|]. split; [reflexivity|by rewrite bytes5]. Qed.

Lemma lower_there : has_table (raf_contents := id) StoreCompressor StoreCompressor (U := BytewiseComparator) (o := reading_options) (cstr "db") sst (table_cache_ compacting_db) 4 (zlen old_table) [old_entry].
Proof. split; [lia|]. exists i4, old_table. do 3 (split; [done|]). split; [by rewrite bytes4|]. split; [reflexivity|by rewrite bytes4]. Qed.

Lemma compacting_inv {WF : WritableFile bytes} b : Z.of_nat b < 2 ^ 63 -> memory_inv_on WF sst b [] [] [] compacting_version compacting_db.
Proof.
  intros Hb. split.
  - split.
    + split; [by repeat constructor|by apply Forall_singleton|]. by exists 0, (mkVNode 0 1 compacting_version).
    + by repeat split.
    + done.
    + by repeat constructor.
    + done.
    + split; [done|]. intros lvl Hl. split; [|split; [done|intros Hlv; by apply (vo_sorted _ _ compacting_version_ok)]].
      do 7 (destruct lvl as [|lvl]; [by repeat constructor|]). unfold kNumLevels in Hl. lia.
    + intros lvl f [[_ ->]|[_ ->]]%compacting_files; by eexists.
    + intros lvl f [[_ ->]|[_ ->]]%compacting_files; done.
    + intros lvl. do 7 (destruct lvl as [|lvl]; [first [apply NoDup_nil_2|apply NoDup_singleton]|]). apply NoDup_nil_2.
  - exact compacting_version_ok.
  - intros n level f ->%list_elem_of_singleton. cbn [vn_version]. intros [[-> ->]|[-> ->]]%compacting_files; (split; [|split; [by eexists|by apply Nat.ltb_lt]]).
    + rewrite upper_contents. exact upper_there.
    + rewrite lower_contents. exact lower_there.
  - apply memory_ready. lia.
  - intros n Hn. cbn in Hn. unfold two_tables. by rewrite !(proj2 (Z.eqb_neq _ _)) by lia.
  - by intros a ?%elem_of_nil.
  - done.
  - eexists. split; [done|]. apply MemTable_new_repr.
  - done.
  - by intros e e' ?%elem_of_nil.
  - by intros e e' ?%elem_of_nil.
  - rewrite compacting_version_entries. intros e e' He He'. cbn [app] in *. set_unfold. destruct He as [->|[->|[]]], He' as [->|[->|[]]]; done.
  - by intros es ->%Permutation_nil_r.
  - cbn. lia.
Qed.

Lemma compacting_pickable : pickable compacting_version.
Proof.
  split; [intros Hx; by vm_compute in Hx|]. intros f [= <-]. split; [vm_compute; lia|]. by left.
Qed.
End Witness.

Notation compact_in_memory WF := (BackgroundCompaction (WF := WF) (CO := ListCache) (BC := ListBlocks) (ED := empty_directory) StoreCompressor StoreCompressor BytewiseComparator
  (cstr "leveldb.BytewiseComparator") (cstr "db") reading_options (fun _ db => db) 2).
Notation read_newest db := (Get (CO := ListCache) (BC := ListBlocks) StoreCompressor StoreCompressor BytewiseComparator (cstr "db") reading_options (fun _ db => db)
  (mkReadOptions false true (Some 9)) (cstr "a") [] db).

(** Level 0, the tables of levels 1 and 2, and whether there is no background error. *)
Definition compacted_levels (db : DBImpl MemoryEnv bytes (list (bytes * Table bytes)) (Z * list (bytes * Block))) : option (nat * (nat * nat) * bool) :=
  v ← current (db_versions db);
  Some (length (level_files v 0), (length (level_files v 1), length (level_files v 2)), ok (sh_bg_error (db_shared db))).

Lemma compacted_disk : (db ← compact_in_memory StringDest compacting_db; compacted_levels db) = Some (0%nat, (0%nat, 1%nat), true).
Proof. vm_compute. reflexivity. Qed.

Lemma compacted_full_disk : (db ← compact_in_memory FullDisk compacting_db; compacted_levels db) = Some (0%nat, (1%nat, 1%nat), false).
Proof. vm_compute. reflexivity. Qed.

Lemma compacting_answer value st value' : answer (U := BytewiseComparator) (cstr "a") 9 ([] ++ [] ++ compacting_entries) value st value' -> st = OK /\ value' = cstr "2".
Proof.
  intros [(e & (He & _ & Hmax) & Ht)|(Hno & _)].
  - cbn [app] in He. apply elem_of_cons in He as [->|[->|[]%elem_of_nil]%elem_of_cons]; [exact Ht|]. assert (Hx : 9 <= 8); [|lia]. apply (Hmax hiding_entry); [by left|by split].
  - destruct (Hno hiding_entry); [by left|by split].
Qed.

(** The merge drops the older entry, and the newer one is read; on a full disk the
    inputs stay. *)
Lemma background_compaction_keeps_reads_witness :
  (exists db' db'', compact_in_memory StringDest compacting_db = Some db' /\ compacted_levels db' = Some (0%nat, (0%nat, 1%nat), true) /\ read_newest db' = Some (OK, cstr "2", db'')) /\
  (exists db' db'', compact_in_memory FullDisk compacting_db = Some db' /\ compacted_levels db' = Some (0%nat, (1%nat, 1%nat), false) /\ read_newest db' = Some (OK, cstr "2", db'')).
Proof.
  destruct (table_image old_entry) as (i4 & ok4 & es4 & bytes4); [by vm_compute|by vm_compute|by vm_compute|].
  destruct (table_image hiding_entry) as (i5 & ok5 & es5 & bytes5); [by vm_compute|by vm_compute|by vm_compute|].
  assert (Eold : table_file [old_entry] = old_table) by (vm_compute; reflexivity). assert (Ehiding : table_file [hiding_entry] = hiding_table) by (vm_compute; reflexivity).
  rewrite Eold in bytes4. rewrite Ehiding in bytes5.
  pose proof (compacting_version_entries i4 i5 es4 es5) as Hentries.
  assert (Hrun : forall (works : Prop) (WF : WritableFile bytes) levels error, FaultyFileSystem works WF MemoryRandom MemoryLogs MemoryTables PureFiles id id ->
    (db ← compact_in_memory WF compacting_db; compacted_levels db) = Some (0%nat, levels, error) ->
    exists db' db'', compact_in_memory WF compacting_db = Some db' /\ compacted_levels db' = Some (0%nat, levels, error) /\ read_newest db' = Some (OK, cstr "2", db'')).
  { intros works WF levels error FS Hlev.
    pose proof (background_compaction_keeps_reads (ED := empty_directory) (CO := ListCache) (CL := ListCache_laws) (BC := ListBlocks) (BL := ListBlocks_laws) (BI := ListBlocks_ids)
      (SL := StoreCompressor_laws) (ZL := StoreCompressor_laws) works id id (FS := FS) list_cache_ok list_blocks_hold fst StoreCompressor StoreCompressor
      BytewiseComparator reading_options (cstr "leveldb.BytewiseComparator") (cstr "db") eq_refl ltac:(vm_compute; discriminate) ltac:(split; vm_compute; discriminate) ltac:(intros ? ? Hx; discriminate Hx) (fun _ db => db) 0 0 20 2 9
      (two_tables i4 i5) [] [] [] compacting_version compacting_db) as Hsafe. cbn zeta in Hsafe. rewrite Hentries in Hsafe.
    destruct Hsafe as (db' & sst' & ments' & iments' & v' & E1 & Hi' & _ & Hread).
    - intros n. apply rely_id.
    - intros e. reflexivity.
    - apply compacting_inv; try assumption. vm_compute. reflexivity.
    - reflexivity.
    - exact compacting_pickable.
    - reflexivity.
    - reflexivity.
    - split; [vm_compute; discriminate|vm_compute; reflexivity].
    - apply Nat.leb_le. reflexivity.
    - exact compacting_fits.
    - rewrite E1 in Hlev. cbn [mbind option_bind] in Hlev. pose proof Hlev as Hl0. unfold compacted_levels in Hl0.
      rewrite (ma_current _ _ _ (iv_managed _ _ _ _ _ _ _ _ _ _ Hi')) in Hl0. injection Hl0 as Hl0 _ _.
      destruct (Hread (mkReadOptions false true (Some 9)) 9 (cstr "a") []) as (st & value' & db'' & E2 & Ha).
      + rewrite Hl0. apply Nat.leb_le. reflexivity.
      + reflexivity.
      + split; vm_compute; discriminate.
      + vm_compute; discriminate.
      + vm_compute; reflexivity.
      + exists db', db''. destruct (compacting_answer _ _ _ Ha) as [-> ->]. split; [exact E1|]. split; [exact Hlev|exact E2]. }
  split; [apply (Hrun True StringDest); [apply _|exact compacted_disk]|apply (Hrun False FullDisk); [exact FullDisk_faulty|exact compacted_full_disk]].
Defined.
