(* ===== verification/NewIterator.v ===== *)
(** * db/db_impl: iterators over the database

    Models [NewInternalIterator], the release of what it pins, and [NewIterator] of
    src/db/db_impl.cc.  The iterator walks the memtables as they are when it is made;
    what is added to them later is newer than its sequence number, and not shown.

    The iterator is a cursor in a sorted map, and [Get] at the same snapshot answers
    from that map. *)

From Stdlib Require Import Sorted.
From stdpp Require Import gmap sorting.
From S2P Require Import Prelude Coding Comparator Crc32c Bloom DbFormat Status Iterator IteratorWrapper Merger BlockBuilder Block Format FilterBlock TableBuilder Table SkipList MemTable UserView MemIter DBIter.
From S2P Require Import VersionEdit Options Version VersionGet Overlap InternalTable TableCache BuildTable MemoryFiles LogWriter Filename Compaction InputIterator CompactionDrop VersionBuilder VersionSet Manifest Install Levels InputLaws.
From S2P Require Import DBImpl DBGet LSM Obsolete Recovery LogRecovery Invariant InstallEdit Evolve CompactMemTable ReadStability DoCompaction CompactionRun CompactionLoop CompactionInstall CompactionInput Background.

Section NewIterator.
Context `{CS : Checksum} {E F W KC H K : Type} {R : RandomAccessFile F} {RF : RandomAccessFiles E F}.
Context {CO : CacheOps KC H (Table F) TableDeleter} {BC : BlockCache K}.
Variables (Snappy Zstd : Compressor) (C : Comparator) (dbname_ : bytes) (options_ : Options).
(** A bound on the rounds of the iterators' loops. *)
Variable fuel : nat.
Notation DBImpl := (DBImpl E W KC K).

(** A memtable, a table of level 0 or a level. *)
Definition ChildIterator : Type := MemTableIterator + TablesIterator (E := E) (F := F) (KC := KC) (K := K).

#[export] Instance Child_Iterator (options : ReadOptions) : Iterator.Iterator ChildIterator :=
  Sum_Iterator (IA := MemTableIterator_Iterator C) (IB := Tables_Iterator (H := H) Snappy Zstd C dbname_ options_ fuel options).

Definition InternalIterator : Type := EmptyIterator + (ChildIterator + MergingIterator ChildIterator).

#[export] Instance Internal_Iterator (options : ReadOptions) : Iterator.Iterator InternalIterator :=
  Sum_Iterator (IB := Sum_Iterator (IA := Child_Iterator options) (IB := MergingIterator_Iterator (I := Child_Iterator options) (InternalKeyComparator C))).

(** [IterState]: the version; the references of the memtables are left out. *)
Definition IterState : Type := Z.

Definition CleanupIteratorState (state : IterState) (db : DBImpl) : option DBImpl := Unref_at state db.

(** The iterator with its cleanup, [*latest_snapshot], [*seed], and the state. *)
Definition NewInternalIterator (options : ReadOptions) (db : DBImpl) : option (InternalIterator * IterState * Z * Z * DBImpl) :=
  let latest_snapshot := vs_last_sequence (db_versions db) in
  mem ← db_mem db;
  let list := inl (MemTable_NewIterator mem) :: match db_imm db with Some imm => [inl (MemTable_NewIterator imm)] | None => [] end in
  a ← current_ (db_versions db);
  current ← find_version a (dummy_versions_ (db_versions db));
  tables ← AddIterators (H := H) Snappy Zstd C dbname_ options_ fuel options (vn_version current) (table_cache_ db);
  internal_iter ← NewMergingIterator (I := Child_Iterator options) (list ++ map inr tables);
  db ← Ref_at a db;
  let seed := u32 (seed_ (db_shared db) + 1) in
  Some (internal_iter, a, latest_snapshot, seed, with_shared (with_seed seed (db_shared db)) db).

(** The iterator, the sequence number it reads at, and what it pins. *)
Definition NewIterator (options : ReadOptions) (db : DBImpl) : option (DBIter.DBIter InternalIterator * Z * IterState * DBImpl) :=
  '(iter, state, latest_snapshot, seed, db) ← NewInternalIterator options db;
  Some (NewDBIterator iter seed, default latest_snapshot (Options.snapshot options), state, db).

Definition TEST_NewInternalIterator (db : DBImpl) : option (InternalIterator * IterState * DBImpl) :=
  '(iter, state, _, _, db) ← NewInternalIterator ReadOptions_default db;
  Some (iter, state, db).
End NewIterator.

(** ** The map that an iterator walks *)

(** What a lookup in a sorted map of user keys gives. *)
Definition map_answer (U : Comparator) (kvs : list kv) (u value : bytes) (st : Status) (value' : bytes) : Prop :=
  (exists k, (k, value') ∈ kvs /\ Compare (Comparator := U) u k = Eq /\ st = OK) \/
  ((forall k v, (k, v) ∈ kvs -> Compare (Comparator := U) u k <> Eq) /\ st = NotFound [] [] /\ value' = value).

(** A user key whose internal key is a target. *)
Definition small_key : Targets := fun u => zlen u + 8 < 2 ^ 32.

Section View.
Context {U : Comparator} {UL : ComparatorLaws U}.

Lemma newest_same_key u s (es : list Entry) e : newest_visible (C := U) u s es e -> newest_visible (C := U) (e_user_key e) s es e.
Proof.
  intros (He & [Hk Hs] & Hmax). split; [done|]. split; [split; [apply Compare_refl|done]|]. intros e' He' [Hk' Hs']. apply Hmax; [done|].
  split; [by rewrite (Compare_eq_l _ _ _ Hk)|done].
Qed.

(** The view answers like the entries. *)
Lemma view_answer s es entries u value st value' :
  0 <= s <= kMaxSequenceNumber -> Forall entry_ok es -> entries_sorted U es -> (forall e, e ∈ es <-> e ∈ entries) -> unique_keys (U := U) entries ->
  answer (U := U) u s entries value st value' -> map_answer U (user_view U s es) u value st value'.
Proof.
  intros Hs Hok Hsorted Hin Huq.
  assert (Hnew : forall u e, newest_visible (C := U) u s es e <-> newest_visible (C := U) u s entries e).
  { intros x e. unfold newest_visible. split; intros (H1 & H2 & H3); (split; [by apply Hin|]); (split; [done|]); intros e' He'; by apply H3, Hin. }
  assert (Hview : forall k v, (k, v) ∈ user_view U s es -> Compare (Comparator := U) u k = Eq -> exists e, newest_visible (C := U) u s entries e /\ e_type e = kTypeValue /\ v = e_value e).
  { intros k v (e & He & Ht & -> & ->)%user_view_elem Hk; [|done..]. exists e. split; [|done]. apply Hnew in He as (H1 & [H2 H3] & H4).
    split; [done|]. split; [done|]. intros e' He' [Hk' Hs']. apply H4; [done|]. split; [by rewrite <- (Compare_eq_l _ _ _ Hk)|done]. }
  intros [(e & He & Ht)|(Hno & -> & ->)].
  - destruct (e_type e) eqn:Et; destruct Ht as [-> ->].
    + right. split; [|done]. intros k v Hkv Hk. destruct (Hview k v Hkv Hk) as (e' & He' & Et' & _).
      assert (e = e'); [|congruence]. destruct He as (H1 & [H2 H3] & H4), He' as (H1' & [H2' H3'] & H4').
      apply Huq; [done|done|by rewrite <- (Compare_eq_l _ _ _ H2)|]. pose proof (H4 e' H1' (conj H2' H3')). pose proof (H4' e H1 (conj H2 H3)). lia.
    + left. exists (e_user_key e). split; [|split; [apply He|done]]. apply user_view_elem; [done..|]. exists e. split; [|done]. by apply (newest_same_key u), Hnew.
  - right. split; [|done]. intros k v Hkv Hk. destruct (Hview k v Hkv Hk) as (e & (He & Hv & _) & _). by apply (Hno e).
Qed.
End View.

(** ** The iterator *)

Section Spec.
Context `{CS : Checksum} {E F W KC H K : Type} {R : RandomAccessFile F} {RF : RandomAccessFiles E F} {WF : WritableFile W} {wf_contents : W -> bytes}.
Context {raf_contents : F -> bytes} {RL : RandomAccessFileLaws R raf_contents}.
Context {CO : CacheOps KC H (Table F) TableDeleter} {c_ok : nat -> (bytes -> Table F -> Prop) -> list H -> KC -> Prop} {CL : CacheLaws CO c_ok}.
Context {BC : BlockCache K} {bc_holds : K -> bytes -> Block -> Prop} {BL : BlockCacheLaws BC bc_holds} {bc_next : K -> Z} {BI : BlockCacheIds BC bc_next}.
Context (Snappy Zstd : Compressor) {SL : CompressorLaws Snappy} {ZL : CompressorLaws Zstd}.
Context {U : Comparator} {UL : ComparatorLaws U} {o : Options} (dbname : bytes).
Context (Hcmp : comparator o = InternalKeyComparator U) (Hinterval : 1 <= block_restart_interval o).
Context (Hfilter : forall name P, filter_policy o = Some (name, P) ->
  exists P0, P = InternalFilterPolicy P0 /\ FilterPolicyLaws P0 /\ zlen name < 2 ^ 31 /\ forall a b, Compare (Comparator := U) a b = Eq -> a = b).
Notation DB := (DBImpl E W KC K).
Notation IC := (InternalKeyComparator U).
Notation inv := (inv (raf_contents := raf_contents) (wf_contents := wf_contents) (c_ok := c_ok) (bc_holds := bc_holds) (bc_next := bc_next) Snappy Zstd (U := U) (o := o) dbname).
Notation ready := (cache_ready (raf_contents := raf_contents) (c_ok := c_ok) (bc_holds := bc_holds) (bc_next := bc_next) Snappy Zstd (U := U) (o := o)).
Variables (options : ReadOptions) (fuel : nat).
#[local] Instance CI : Iterator.Iterator (ChildIterator (E := E) (F := F) (KC := KC) (K := K)) := Child_Iterator (H := H) Snappy Zstd U dbname o fuel options.

(** What a child walks: a memtable with its sorted entries, or tables. *)
Definition Source : Type := MemTable * list Entry + Child.

Section Sources.
Context (sst : Z -> option TableImage) (b : nat) (tc : TableCacheState E KC K) (Hr : ready sst (S b) tc).
Notation child_ok := (child_ok (raf_contents := raf_contents) Snappy Zstd (U := U) (o := o) dbname sst fuel tc).
Notation child_pos := (child_pos Snappy Zstd (U := U) (E := E) (KC := KC) sst options fuel tc).

Definition source_entries (x : Source) : list Entry := match x with inl (_, es) => es | inr c => child_entries sst c end.

Definition source_ok (x : Source) : Prop :=
  match x with
  | inl (mem, es) => Forall entry_ok es /\ entries_sorted U es /\ skip_repr (KeyComparator U) mem (map entry_encoding es)
  | inr c => child_ok c
  end.

Definition source_pos (x : Source) : ChildIterator (E := E) (F := F) (KC := KC) (K := K) -> nat -> Prop :=
  match x with
  | inl (mem, es) => sum_pos (mem_pos (C := U) mem es) none
  | inr c => sum_pos none (child_pos c)
  end.

Lemma source_laws x : source_ok x -> IteratorLaws (T := small_target) CI IC (map entry_kv (source_entries x)) (source_pos x).
Proof.
  intros Hx. destruct x as [[mem es]|c]; apply sum_laws.
  - intros _. destruct Hx as (H1 & H2 & H3). by apply mem_laws.
  - by intros (? & ? & []).
  - by intros (? & ? & []).
  - intros _. apply laws_targets. by apply (child_laws Snappy Zstd dbname Hcmp Hinterval Hfilter sst options fuel b).
Qed.

Lemma source_sorted x : source_ok x -> kvs_sorted IC (map entry_kv (source_entries x)).
Proof. destruct x as [[mem es]|c]; [by intros (_ & ? & _)|intros Hx; exact (child_sorted Snappy Zstd dbname sst fuel tc c Hx)]. Qed.

Lemma sources_merged xs its es : Forall source_ok xs -> Forall2 (fun x it => exists i, source_pos x it i) xs its ->
  Forall entry_ok es -> entries_sorted U es -> es ≡ₚ concat (map source_entries xs) ->
  exists it pos i, NewMergingIterator (I := CI) its = Some it /\
    IteratorLaws (T := small_target) (Internal_Iterator (H := H) Snappy Zstd U dbname o fuel options) IC (map entry_kv es) pos /\ pos it i.
Proof.
  intros Hok Hpos Hes Hs Hperm. pose proof (Forall2_length _ _ _ Hpos) as Hlen.
  assert (Hlook : forall j kvs, map (fun x => map entry_kv (source_entries x)) xs !! j = Some kvs -> exists x, xs !! j = Some x /\ source_ok x /\ kvs = map entry_kv (source_entries x)).
  { intros j kvs. rewrite list_lookup_fmap. destruct (xs !! j) as [x|] eqn:Ex; [|done]. intros [= <-]. exists x. split; [done|]. split; [|done].
    rewrite Forall_lookup in Hok. by eapply Hok. }
  apply (NewMergingIterator_laws its (map (fun x => map entry_kv (source_entries x)) xs) (map entry_kv es)
    (fun j => match xs !! j with Some x => source_pos x | None => none end)).
  - split; [|exact Hs]. rewrite Hperm, concat_map, map_map. done.
  - by rewrite length_map.
  - intros j kvs (x & _ & Hx & ->)%Hlook. by apply source_sorted.
  - intros kv (e & -> & He)%list_elem_of_fmap. rewrite Forall_forall in Hes. exact (entry_ikey_size e (Hes e He)).
  - intros j kvs (x & Ex & Hx & ->)%Hlook. rewrite Ex. by apply source_laws.
  - intros j s kvs Ej (x & Ex & Hx & _)%Hlook. rewrite Ex. destruct (Forall2_lookup_l _ _ _ _ _ Hpos Ex) as (s' & Ej' & Hi). rewrite Ej in Ej'. by injection Ej' as ->.
Qed.
End Sources.

(** *** The tables of the version *)

Lemma length_concat_elem {A B} (f : A -> list B) l x : x ∈ l -> (length (f x) <= length (concat (map f l)))%nat.
Proof. intros (l1 & l2 & ->)%list_elem_of_split. rewrite map_app, concat_app. cbn [map concat]. rewrite !length_app. lia. Qed.

Section Version.
Context (sst : Z -> option TableImage) (b : nat) (held : list Z) (ments iments : list Entry) (v : Version) (db : DB).
Context (Hi : inv sst (S b) held ments iments v db).
Notation contents := (table_contents sst).
Context (Hfuel : (length (version_entries contents v) <= fuel)%nat).
Notation child_ok := (child_ok (raf_contents := raf_contents) Snappy Zstd (U := U) (o := o) dbname sst fuel (table_cache_ db)).

Lemma level_bound lvl : (lvl < kNumLevels)%nat -> (length (level_entries contents v lvl) <= fuel)%nat.
Proof. intros Hl. etransitivity; [|exact Hfuel]. apply (length_concat_elem (level_entries contents v)). apply elem_of_seq. lia. Qed.

Lemma file_readable lvl f : (lvl < kNumLevels)%nat -> f ∈ level_files v lvl -> InputLaws.readable (raf_contents := raf_contents) Snappy Zstd (U := U) (o := o) dbname sst fuel (table_cache_ db) f.
Proof.
  intros Hl Hf. split; [|split; [exact (vo_files _ _ (iv_version _ _ _ _ _ _ _ _ _ _ Hi) lvl f Hf)|]].
  - destruct (current_in Snappy Zstd dbname _ _ _ _ _ _ _ Hi) as (a & nd & _ & _ & Hnd & Ev). rewrite <- Ev in Hf. by apply (iv_live _ _ _ _ _ _ _ _ _ _ Hi nd lvl f Hnd Hf).
  - etransitivity; [exact (length_concat_elem contents _ f Hf)|]. by apply level_bound.
Qed.

Lemma level_ok lvl : (1 <= lvl < kNumLevels)%nat ->
  Forall child_ok (run_child (level_files v lvl)) /\ concat (map (child_entries sst) (run_child (level_files v lvl))) = level_entries contents v lvl.
Proof.
  intros Hl. pose proof (iv_version _ _ _ _ _ _ _ _ _ _ Hi) as Hv.
  assert (Hr : Forall (InputLaws.readable (raf_contents := raf_contents) Snappy Zstd (U := U) (o := o) dbname sst fuel (table_cache_ db)) (level_files v lvl)).
  { apply Forall_forall. intros f Hf. apply (file_readable lvl f); [lia|done]. }
  assert (Hlen : (length (level_files v lvl) <= fuel)%nat).
  { etransitivity; [|exact (level_bound lvl (proj2 Hl))]. apply files_le_entries. intros f Hf. exact (contents_nonempty _ f (vo_files _ _ Hv _ _ Hf)). }
  assert (Hsort := vo_sorted _ _ Hv lvl (proj1 Hl)). unfold level_entries. destruct (level_files v lvl) as [|f fs]; [done|].
  split; [|cbn; by rewrite app_nil_r]. by constructor; [|constructor].
Qed.

Lemma version_children_ok :
  Forall child_ok (version_children v) /\ concat (map (child_entries sst) (version_children v)) = version_entries contents v.
Proof.
  unfold version_children, version_entries. change (seq 0 kNumLevels) with (0%nat :: seq 1 (kNumLevels - 1)).
  assert (Hls : forall l, l ∈ seq 1 (kNumLevels - 1) -> (1 <= l < kNumLevels)%nat) by (intros l ?%elem_of_seq; unfold kNumLevels in *; lia).
  rewrite Forall_app, map_app, concat_app. cbn [map concat]. split; [split|f_equal].
  - apply Forall_map, Forall_forall. intros f Hf. apply (file_readable 0 f); [unfold kNumLevels; lia|done].
  - revert Hls. generalize (seq 1 (kNumLevels - 1)). induction l as [|l ls IH]; intros Hls; [constructor|]. cbn [map concat].
    apply Forall_app. split; [apply level_ok, Hls; by left|]. apply IH. intros x Hx. apply Hls. by right.
  - by rewrite map_map.
  - revert Hls. generalize (seq 1 (kNumLevels - 1)). induction l as [|l ls IH]; intros Hls; [done|]. cbn [map concat]. rewrite map_app, concat_app. f_equal.
    + apply level_ok, Hls. by left.
    + apply IH. intros x Hx. apply Hls. by right.
Qed.
End Version.

(** *** Everything in the database *)

Lemma newer_disjoint (es es' : list Entry) e : newer (C := U) es es' -> e ∈ es -> e ∈ es' -> False.
Proof. intros Hn He He'. specialize (Hn e e He He' (Compare_refl _)). lia. Qed.

Lemma mem_distinct mem es : mem_repr (C := U) mem es -> Forall entry_ok es /\ NoDup es.
Proof.
  intros Hm. split; [apply Hm|]. destruct (mem_sorted mem es Hm) as (es' & Hp & _ & Hs & _). rewrite <- Hp. exact (sorted_distinct_entries (U := U) es' Hs).
Qed.

Section All.
Context (sst : Z -> option TableImage) (b : nat) (held : list Z) (ments iments : list Entry) (v : Version) (db : DB).
Context (Hi : inv sst (S b) held ments iments v db).
Notation entries := (ments ++ iments ++ version_entries (table_contents sst) v).

Lemma imm_distinct : Forall entry_ok iments /\ NoDup iments.
Proof. pose proof (iv_imm _ _ _ _ _ _ _ _ _ _ Hi) as Him. destruct (db_imm db); [by eapply mem_distinct|]. rewrite Him. split; constructor. Qed.

Lemma entries_distinct : Forall entry_ok entries /\ NoDup entries.
Proof.
  destruct (iv_mem _ _ _ _ _ _ _ _ _ _ Hi) as (mem & _ & Hm). destruct (mem_distinct mem ments Hm) as [M1 M2], imm_distinct as [I1 I2].
  pose proof (iv_version _ _ _ _ _ _ _ _ _ _ Hi) as Hv. split.
  - do 2 (apply Forall_app; split; [done|]). apply Forall_forall. intros e (lvl & _ & (f & Hf & He)%elem_concat)%elem_concat.
    pose proof (fo_entries _ _ (vo_files _ _ Hv lvl f Hf)) as Hfo. rewrite Forall_forall in Hfo. by apply Hfo.
  - apply NoDup_app. split; [done|]. split; [|apply NoDup_app; split; [done|]; split].
    + intros e He He'. exact (newer_disjoint _ _ e (iv_newer_mem _ _ _ _ _ _ _ _ _ _ Hi) He He').
    + intros e He He'. exact (newer_disjoint _ _ e (iv_newer_imm _ _ _ _ _ _ _ _ _ _ Hi) He He').
    + exact (version_entries_distinct _ v Hv).
Qed.

Notation source_ok := (source_ok sst (table_cache_ db)).
Notation source_pos := (source_pos sst (table_cache_ db)).
Notation standing := (fun x it => exists i, source_pos x it i).

Lemma mem_source mem es : mem_repr (C := U) mem es ->
  exists x, source_ok x /\ standing x (inl (MemTable_NewIterator mem)) /\ source_entries sst x ≡ₚ es.
Proof.
  intros Hm. destruct (mem_sorted mem es Hm) as (es' & Hp & Hok & Hs & Hr). exists (inl (mem, es')). split; [done|]. split; [|done].
  exists (length es'). by apply mem_pos_end.
Qed.

Lemma imm_sources : exists xs, Forall source_ok xs /\
  Forall2 standing xs (match db_imm db with Some imm => [inl (MemTable_NewIterator imm)] | None => [] end) /\ concat (map (source_entries sst) xs) ≡ₚ iments.
Proof.
  pose proof (iv_imm _ _ _ _ _ _ _ _ _ _ Hi) as Him. destruct (db_imm db) as [imm|].
  - destruct (mem_source imm iments Him) as (x & Hok & Hst & Hp). exists [x]. split; [by constructor|]. split; [by repeat constructor|]. cbn. by rewrite app_nil_r.
  - exists []. rewrite Him. split; [constructor|]. split; [constructor|done].
Qed.

Lemma table_sources cs its : Forall (child_ok (raf_contents := raf_contents) Snappy Zstd (U := U) (o := o) dbname sst fuel (table_cache_ db)) cs ->
  Forall2 (fun c it => exists i, child_pos Snappy Zstd (U := U) (E := E) (KC := KC) sst options fuel (table_cache_ db) c it i) cs its ->
  Forall source_ok (map inr cs) /\ Forall2 standing (map inr cs) (map inr its) /\ map (source_entries sst) (map inr cs) = map (child_entries sst) cs.
Proof.
  intros Hc Hp. split; [by apply Forall_map|]. split; [|by rewrite map_map].
  induction Hp as [|c it cs its (i & Hc1) _ IH]; [constructor|]. apply Forall_cons in Hc as [_ Hc]. constructor; [by exists i|by apply IH].
Qed.

Context (Hfuel : (length entries < fuel)%nat).

Lemma NewInternalIterator_spec :
  exists it pos i a seed db' es, NewInternalIterator (H := H) Snappy Zstd U dbname o fuel options db = Some (it, a, vs_last_sequence (db_versions db), seed, db') /\
    es ≡ₚ entries /\ Forall entry_ok es /\ entries_sorted U es /\
    IteratorLaws (T := small_target) (Internal_Iterator (H := H) Snappy Zstd U dbname o fuel options) IC (map entry_kv es) pos /\ pos it i /\
    inv sst (S b) (a :: held) ments iments v db'.
Proof.
  destruct entries_distinct as [Hok Hnd]. destruct (sort_entries entries Hok Hnd (iv_unique _ _ _ _ _ _ _ _ _ _ Hi)) as (es & Hp & Hs).
  assert (Hes : Forall entry_ok es) by (by rewrite Hp).
  destruct (iv_mem _ _ _ _ _ _ _ _ _ _ Hi) as (mem & Em & Hm). destruct (mem_source mem ments Hm) as (x & Hx & Px & Ex), imm_sources as (xs & Hxs & Pxs & Exs).
  destruct (current_in Snappy Zstd dbname _ _ _ _ _ _ _ Hi) as (a & nd & Ea & En & _ & Ev).
  destruct (version_children_ok sst b held ments iments v db Hi) as [Hc Ec]; [rewrite !length_app in Hfuel; lia|].
  pose proof (iv_ready _ _ _ _ _ _ _ _ _ _ Hi) as Hr.
  destruct (AddIterators_spec Snappy Zstd dbname Hcmp Hinterval Hfilter sst options fuel b (table_cache_ db) v Hr Hc) as (its & E1 & F1).
  destruct (table_sources _ its Hc F1) as (Hts & Pts & Ets).
  destruct (sources_merged sst b (table_cache_ db) Hr (x :: xs ++ map inr (version_children v)) _ es
    (Forall_cons_2 _ _ _ Hx (Forall_app_2 _ _ _ Hxs Hts)) (List.Forall2_cons _ _ Px (Forall2_app Pxs Pts)) Hes Hs) as (it & pos & i & E2 & HL & Hpos).
  { cbn [map concat]. rewrite map_app, concat_app, Ets, Ec, Exs, Ex. exact Hp. }
  destruct (Ref_at_inv Snappy Zstd dbname _ _ _ _ _ _ _ _ _ Hi En Ea) as (db' & E3 & Hi' & _).
  unfold NewInternalIterator. rewrite Em. cbn [mbind option_bind]. rewrite Ea. cbn [mbind option_bind]. rewrite En. cbn [mbind option_bind]. rewrite Ev, E1. cbn [mbind option_bind].
  set (r := NewMergingIterator _). assert (Er : r = Some it) by exact E2. rewrite Er. cbn [mbind option_bind]. rewrite E3. cbn [mbind option_bind].
  exists it, pos, i, a. eexists _, _, es. split; [done|]. do 5 (split; [assumption|]). by apply inv_shared.
Qed.
End All.
End Spec.

(** ** Properties *)

(** C6: an iterator over the database is a cursor in the sorted map that [Get]
    answers from.  From a database in order, [NewIterator] returns an iterator, at
    first invalid, that goes through a sorted list of keys and values, by every
    sequence of seeks (for keys of less than 4 GiB) and moves in both directions; a
    [Get] at the same snapshot gives the value that the list has for the key, or
    [NotFound] when it has none.  The database is in order while the iterator pins
    its version, and after its cleanup. *)
Theorem new_iterator_walks_what_get_reads `{CS : Checksum} {E RA W KC H K : Type} {R : RandomAccessFile RA} {RF : RandomAccessFiles E RA} {WF : WritableFile W}
    (raf_contents : RA -> bytes) {RL : RandomAccessFileLaws R raf_contents} (wf_contents : W -> bytes)
    {CO : CacheOps KC H (Table RA) TableDeleter} (c_ok : nat -> (bytes -> Table RA -> Prop) -> list H -> KC -> Prop) {CL : CacheLaws CO c_ok}
    {BC : BlockCache K} (bc_holds : K -> bytes -> Block -> Prop) {BL : BlockCacheLaws BC bc_holds} (bc_next : K -> Z) {BI : BlockCacheIds BC bc_next}
    (Snappy Zstd : Compressor) {SL : CompressorLaws Snappy} {ZL : CompressorLaws Zstd}
    (U : Comparator) {UL : ComparatorLaws U} (o : Options) (dbname : bytes)
    (Hcmp : comparator o = InternalKeyComparator U) (Hinterval : 1 <= block_restart_interval o)
    (Hfilter : forall name P, filter_policy o = Some (name, P) ->
      exists P0, P = InternalFilterPolicy P0 /\ FilterPolicyLaws P0 /\ zlen name < 2 ^ 31 /\ forall a b, Compare (Comparator := U) a b = Eq -> a = b)
    (fuel b : nat) (sst : Z -> option TableImage) (held : list Z) (ments iments : list Entry) (v : Version) (db : DBImpl E W KC K) (options : ReadOptions) :
  let in_order := inv (raf_contents := raf_contents) (wf_contents := wf_contents) (c_ok := c_ok) (bc_holds := bc_holds) (bc_next := bc_next) Snappy Zstd (U := U) (o := o) dbname in
  let s := default (vs_last_sequence (db_versions db)) (Options.snapshot options) in
  in_order sst (S b) held ments iments v db -> 0 <= s <= kMaxSequenceNumber ->
  (length (ments ++ iments ++ version_entries (table_contents sst) v) < fuel)%nat -> (length (level_files v 0) + kNumLevels <= S b)%nat ->
  exists it state db' kvs pos, NewIterator (H := H) Snappy Zstd U dbname o fuel options db = Some (it, s, state, db') /\
    IteratorLaws (T := small_key) (DBIter_Iterator (I := Internal_Iterator (H := H) Snappy Zstd U dbname o fuel options) U s fuel) U kvs pos /\
    pos it (length kvs) /\ kvs_sorted U kvs /\
    in_order sst (S b) (state :: held) ments iments v db' /\
    (exists db'', CleanupIteratorState state db' = Some db'' /\ in_order sst (S b) held ments iments v db'') /\
    forall u value, zlen u + 8 < 2 ^ 32 ->
      exists st value' db'', Get Snappy Zstd U dbname o (fun _ db => db) (mkReadOptions false true (Some s)) u value db' = Some (st, value', db'') /\
        map_answer U kvs u value st value'.
Proof.
  intros inor s Hi Hs Hfuel Hb.
  destruct (NewInternalIterator_spec (wf_contents := wf_contents) Snappy Zstd dbname Hcmp Hinterval Hfilter options fuel sst b held ments iments v db Hi Hfuel)
    as (it & P & i & a & seed & db' & es & E1 & Hp & Hok & Hsorted & HL & HP & Hi').
  assert (Hlen : (length es < fuel)%nat) by by rewrite Hp.
  assert (HUT : forall u, is_target (Targets := small_key) u -> is_target (Targets := small_target) (InternalKey u s kValueTypeForSeek)).
  { intros u Hu. unfold is_target, small_target, small_key in *. unfold zlen in *. rewrite InternalKey_length. lia. }
  unfold NewIterator. rewrite E1. cbn [mbind option_bind].
  exists (NewDBIterator it seed), a, db', (user_view U s es), (db_iter_pos (C := U) (snapshot := s) (es := es) (P := P)). split; [done|].
  split; [exact (DBIter_laws Hs Hok Hsorted Hlen HUT)|]. split; [by eapply NewDBIterator_pos|]. split; [by apply user_view_sorted|].
  split; [exact Hi'|]. split.
  - destruct (Unref_at_inv Snappy Zstd dbname _ _ _ _ _ _ _ _ Hi') as (db'' & E2 & Hi'' & _). by exists db''.
  - intros u value Hu.
    destruct (Get_in_order (wf_contents := wf_contents) Snappy Zstd dbname Hcmp Hinterval Hfilter sst (S b) (a :: held) ments iments v db' (mkReadOptions false true (Some s)) s u value Hi' Hb eq_refl Hs Hu)
      as (st & value' & db'' & E2 & Ha).
    exists st, value', db''. split; [exact E2|]. eapply view_answer; [done|done|done| |exact (iv_unique _ _ _ _ _ _ _ _ _ _ Hi')|exact Ha]. intros e. by rewrite Hp.
Qed.

(** Two tables, in memory. *)
Lemma iterated_value :
  ('(_, _, _, db) ← NewIterator (CO := ListCache) (BC := ListBlocks) StoreCompressor StoreCompressor BytewiseComparator (cstr "db") reading_options 3 ReadOptions_default compacting_db;
   fst <$> Get (CO := ListCache) (BC := ListBlocks) StoreCompressor StoreCompressor BytewiseComparator (cstr "db") reading_options (fun _ db => db) (mkReadOptions false true (Some 9)) (cstr "a") [] db)
  = Some (OK, cstr "2").
Proof. vm_compute. reflexivity. Qed.

Lemma new_iterator_walks_what_get_reads_witness :
  exists it state db' kvs pos k, NewIterator (CO := ListCache) (BC := ListBlocks) StoreCompressor StoreCompressor BytewiseComparator (cstr "db") reading_options 3 ReadOptions_default compacting_db
      = Some (it, 9, state, db') /\
    IteratorLaws (T := small_key) (DBIter_Iterator (I := Internal_Iterator (CO := ListCache) (BC := ListBlocks) StoreCompressor StoreCompressor BytewiseComparator (cstr "db") reading_options 3 ReadOptions_default)
      BytewiseComparator 9 3) BytewiseComparator kvs pos /\
    pos it (length kvs) /\ (k, cstr "2") ∈ kvs.
Proof.
  destruct (table_image old_entry) as (i4 & ok4 & es4 & bytes4); [by vm_compute|by vm_compute|by vm_compute|].
  destruct (table_image hiding_entry) as (i5 & ok5 & es5 & bytes5); [by vm_compute|by vm_compute|by vm_compute|].
  assert (Eold : table_file [old_entry] = old_table) by (vm_compute; reflexivity). assert (Ehiding : table_file [hiding_entry] = hiding_table) by (vm_compute; reflexivity).
  rewrite Eold in bytes4. rewrite Ehiding in bytes5.
  pose proof (compacting_version_entries i4 i5 es4 es5) as Hentries.
  pose proof (new_iterator_walks_what_get_reads (CO := ListCache) (CL := ListCache_laws) (BC := ListBlocks) (BL := ListBlocks_laws) (BI := ListBlocks_ids)
    (SL := StoreCompressor_laws) (ZL := StoreCompressor_laws) id id list_cache_ok list_blocks_hold fst StoreCompressor StoreCompressor
    BytewiseComparator reading_options (cstr "db") eq_refl ltac:(vm_compute; discriminate) ltac:(intros ? ? Hx; discriminate Hx) 3 9
    (two_tables i4 i5) [] [] [] compacting_version compacting_db ReadOptions_default) as Hit. cbn zeta in Hit. rewrite Hentries in Hit.
  destruct Hit as (it & state & db' & kvs & pos & E1 & HL & Hpos & _ & _ & _ & Hget).
  - apply compacting_inv; try assumption. vm_compute. reflexivity.
  - split; vm_compute; discriminate.
  - apply Nat.ltb_lt. reflexivity.
  - apply Nat.leb_le. reflexivity.
  - destruct (Hget (cstr "a") []) as (st & value' & db'' & E2 & Ha); [vm_compute; reflexivity|].
    exists it, state, db', kvs, pos.
    pose proof iterated_value as Hval. rewrite E1 in Hval. cbn [mbind option_bind] in Hval. change (default _ _) with 9 in E2. rewrite E2 in Hval. injection Hval as -> ->.
    destruct Ha as [(k & Hk & _ & _)|(_ & Hno & _)]; [|discriminate Hno]. exists k. split; [exact E1|]. split; [exact HL|]. split; [exact Hpos|exact Hk].
Defined.
