(* ===== verification/RepairSpec.v ===== *)
(** * db/repair: a repaired database has all the tables

    What the parts of a repair do in a directory whose tables can be read: the files
    are sorted by their kind, and every table is listed with its bounds and its
    largest sequence number. *)

From Stdlib Require Import Sorted.
From stdpp Require Import gmap sorting.
From S2P Require Import Prelude Coding Comparator Logging Crc32c Bloom DbFormat Status Iterator IteratorWrapper TwoLevelIterator BlockBuilder Block Format FilterBlock TableBuilder Table SkipList MemTable UserView MemIter WriteBatch Filename.
From S2P Require Import VersionEdit Options Version VersionGet InternalTable TableCache BuildTable MemoryFiles LogWriter LogReader LogReplay Compaction InputIterator VersionBuilder VersionSet Manifest Install Levels InputLaws DBImpl Repair.

(** ** Names *)

(** The number of a table's name. *)
Definition table_of_name (filename : bytes) : option Z := match ParseFileName filename with Some (n, kTableFile) => Some n | _ => None end.
Definition is_log_name (filename : bytes) : bool := match ParseFileName filename with Some (_, kLogFile) => true | _ => false end.
Definition is_manifest_name (filename : bytes) : bool := match ParseFileName filename with Some (_, kDescriptorFile) => true | _ => false end.

(** A file below the directory whose name starts with a digit. *)
Definition numbered (dbname g : bytes) : Prop := exists c rest, g = dbname ++ cstr "/" ++ c :: rest /\ is_digit c.

Lemma numbered_name dbname n suffix : 0 <= n < 2 ^ 64 -> numbered dbname (MakeFileName dbname n suffix).
Proof.
  intros Hn. destruct (format_06llu_spec n Hn) as (Hne & Hd & _). unfold MakeFileName. destruct (format_06llu n) as [|c ds]; [done|]. apply Forall_cons in Hd as [Hc _].
  by exists c, (ds ++ cstr "." ++ suffix).
Qed.

Lemma numbered_ne dbname g s : numbered dbname g -> match s with c :: _ => ~ is_digit c | [] => True end -> g <> dbname ++ cstr "/" ++ s.
Proof. intros (c & rest & -> & Hc) Hs E. do 2 apply app_inv_head in E. destruct s as [|c' s]; [done|]. injection E as -> _. done. Qed.

(** *** The archive *)

Definition plain (s : bytes) : Prop := Forall (fun c => c <> x00 /\ c <> x2f) s.

Lemma c_str_id s : Forall (fun c => c <> x00) s -> c_str s = s.
Proof. induction 1 as [|c s Hc _ IH]; [done|]. cbn. rewrite bool_decide_false by done. by rewrite IH. Qed.

Lemma last_slash_plain s : plain s -> last_slash s = None.
Proof. induction 1 as [|c s [_ Hc] _ IH]; [done|]. cbn. rewrite IH. by rewrite bool_decide_false. Qed.

Lemma last_slash_app a s : plain s -> last_slash (a ++ x2f :: s) = Some (length a).
Proof. intros Hs. induction a as [|c a IH]; cbn; [by rewrite last_slash_plain|]. by rewrite IH. Qed.

Lemma archive_name_in dbname m : Forall (fun c => c <> x00) dbname -> plain m -> archive_name (dbname ++ cstr "/" ++ m) = dbname ++ cstr "/lost/" ++ m.
Proof.
  intros Hd Hm. unfold archive_name, archive_dir. rewrite c_str_id.
  - change (cstr "/" ++ m) with (x2f :: m). rewrite last_slash_app by done. rewrite take_app_length, Nat.add_1_r. rewrite drop_app_ge by lia.
    replace (S (length dbname) - length dbname)%nat with 1%nat by lia. change (drop 1 (x2f :: m)) with m. by rewrite <- !app_assoc.
  - apply Forall_app. split; [done|]. constructor; [done|]. eapply Forall_impl; [exact Hm|]. by intros c [? _].
Qed.

Lemma digit_plain c : is_digit c -> c <> x00 /\ c <> x2f.
Proof. unfold is_digit. intros Hc. split; intros ->; vm_compute in Hc; destruct Hc; congruence. Qed.

Lemma manifest_plain m : is_manifest_name m = true -> plain m /\ exists rest, m = x4d :: rest.
Proof.
  unfold is_manifest_name. destruct (ParseFileName m) as [[n []]|] eqn:E; try done. intros _. apply ParseFileName_sound in E as (ds & -> & _ & Hd & _).
  split; [|by eexists]. rewrite app_nil_r. apply Forall_app. split; [repeat constructor; discriminate|]. eapply Forall_impl; [exact Hd|]. intros c. apply digit_plain.
Qed.

Section Archive.
Context {E : Type} {EF : EnvFiles E} {EFL : EnvFilesLaws E} {ED : EnvDirectory E}.
Context (Hdir : forall d (e : E) g, contents (CreateDir d e) g = contents e g).
Context (dbname : bytes) (Hname : Forall (fun c => c <> x00) dbname).

Lemma archive_keeps m e g : is_manifest_name m = true -> numbered dbname g -> contents (ArchiveFile (dbname ++ cstr "/" ++ m) e) g = contents e g.
Proof.
  intros Hm Hg. destruct (manifest_plain m Hm) as [Hp [rest Er]]. unfold ArchiveFile. rewrite archive_name_in by done.
  destruct (Filename.RenameFile _ _ _) as [s e'] eqn:Ern. cbn [snd]. apply rename_file in Ern.
  - rewrite <- (Hdir (archive_dir (dbname ++ cstr "/" ++ m)) e g). destruct (ok s); [|apply Ern]. apply Ern.
    + apply (numbered_ne dbname); [done|]. rewrite Er. unfold is_digit. vm_compute. by intros [_ ?].
    + apply (numbered_ne dbname g (cstr "lost/" ++ m)); [done|]. unfold is_digit. vm_compute. by intros [_ ?].
  - intros Eq. apply app_inv_head in Eq. rewrite Er in Eq. discriminate Eq.
Qed.

Lemma archives_keep ms e g : Forall (fun m => is_manifest_name m = true) ms -> numbered dbname g ->
  contents (fold_left (fun env manifest => ArchiveFile (dbname ++ cstr "/" ++ manifest) env) ms e) g = contents e g.
Proof.
  intros Hms Hg. revert e. induction Hms as [|m ms Hm _ IH]; intros e; [done|]. cbn [fold_left]. rewrite IH. by apply archive_keeps.
Qed.
End Archive.

(** ** [FindFiles] *)

Section Find.
Context {E KC K : Type} {ED : EnvDirectory E} (dbname : bytes).
Notation Repairer := (Repairer (E := E) (KC := KC) (K := K)).
Implicit Types r : Repairer.

(** The numbers of the names are below the last one. *)
Definition numbers_small (names : list bytes) : Prop := forall f n t, f ∈ names -> ParseFileName f = Some (n, t) -> 0 <= n < 2 ^ 64 - 1.

Lemma find_file_spec f r : (forall n t, ParseFileName f = Some (n, t) -> 0 <= n < 2 ^ 64 - 1) -> 1 <= rp_next_file_number r < 2 ^ 64 ->
  exists next, find_file f r = mkRepairer (manifests_ r ++ (if is_manifest_name f then [f] else [])) (table_numbers_ r ++ option_list (table_of_name f))
      (logs_ (find_file f r)) (tables_ r) next (rp_table_cache r) /\
    (is_log_name f = false -> logs_ (find_file f r) = logs_ r) /\ rp_next_file_number r <= next < 2 ^ 64 /\ forall n, table_of_name f = Some n -> n < next.
Proof.
  intros Hn Hr. unfold find_file, is_manifest_name, table_of_name, is_log_name. destruct (ParseFileName f) as [[n t]|].
  2: { exists (rp_next_file_number r). rewrite !app_nil_r. split; [by destruct r|]. split; [done|]. split; [lia|done]. }
  specialize (Hn n t eq_refl). rewrite u64_small by lia. set (next := if _ <? _ then _ else _).
  assert (Hnext : rp_next_file_number r <= next < 2 ^ 64 /\ n < next) by (unfold next; destruct (Z.ltb_spec (rp_next_file_number r) (n + 1)); lia).
  destruct t; cbn [option_list logs_]; rewrite ?app_nil_r; first [exists next; split; [reflexivity|] | exists (rp_next_file_number r); split; [reflexivity|]]; (split; [done|]); (split; [lia|]); intros m Hm; (discriminate Hm || (injection Hm as <-; lia)).
Qed.

Lemma find_files_spec names r : numbers_small names -> Forall (fun f => is_log_name f = false) names -> 1 <= rp_next_file_number r < 2 ^ 64 ->
  exists next, fold_left (fun r filename => find_file filename r) names r =
      mkRepairer (manifests_ r ++ List.filter is_manifest_name names) (table_numbers_ r ++ omap table_of_name names) (logs_ r) (tables_ r) next (rp_table_cache r) /\
    rp_next_file_number r <= next < 2 ^ 64 /\ forall n, n ∈ omap table_of_name names -> n < next.
Proof.
  revert r. induction names as [|f names IH]; intros r Hn Hl Hr.
  { exists (rp_next_file_number r). cbn. rewrite !app_nil_r. split; [by destruct r|]. split; [lia|by intros n ?%elem_of_nil]. }
  apply Forall_cons in Hl as [Hf Hl]. destruct (find_file_spec f r) as (next & E1 & E2 & Hnext & Ht); [intros n t; apply Hn; by left|done|].
  rewrite E2 in E1 by done. cbn [fold_left]. rewrite E1.
  destruct (IH (mkRepairer (manifests_ r ++ (if is_manifest_name f then [f] else [])) (table_numbers_ r ++ option_list (table_of_name f)) (logs_ r) (tables_ r) next (rp_table_cache r)))
    as (next' & E3 & Hnext' & Ht'); [intros g n t Hg; apply Hn; by right|done|cbn; lia|].
  exists next'. cbn [manifests_ table_numbers_ logs_ tables_ rp_table_cache rp_next_file_number] in *. rewrite E3, <- !app_assoc.
  assert (Em : (if is_manifest_name f then [f] else []) ++ List.filter is_manifest_name names = List.filter is_manifest_name (f :: names)) by (cbn; by destruct (is_manifest_name f)).
  assert (Eo : option_list (table_of_name f) ++ omap table_of_name names = omap table_of_name (f :: names)) by (cbn; by destruct (table_of_name f)).
  rewrite Em, Eo. split; [done|]. split; [lia|]. intros n. rewrite <- Eo, elem_of_app. intros [Hn1|Hn1]; [|by apply Ht'].
  destruct (table_of_name f) as [m|]; [|by apply elem_of_nil in Hn1]. apply list_elem_of_singleton in Hn1 as ->. specialize (Ht m eq_refl). lia.
Qed.

Lemma FindFiles_spec (tc : TableCacheState E KC K) names : GetChildren dbname (tcs_env tc) = (OK, names) -> names <> [] -> numbers_small names -> Forall (fun f => is_log_name f = false) names ->
  exists next, FindFiles dbname (Repairer_new tc) = (OK, mkRepairer (List.filter is_manifest_name names) (omap table_of_name names) [] [] next tc) /\
    1 <= next < 2 ^ 64 /\ forall n, n ∈ omap table_of_name names -> n < next.
Proof.
  intros Eg Hne Hn Hl. unfold FindFiles. cbn [Repairer_new rp_table_cache]. rewrite Eg. cbn [ok negb]. rewrite bool_decide_false by done.
  destruct (find_files_spec names (Repairer_new tc) Hn Hl) as (next & E1 & Hnext & Ht); [cbn; lia|]. exists next. by rewrite E1.
Qed.
End Find.

(** ** [ScanTable] *)

Definition max_seq (es : list Entry) (m : Z) : Z := fold_left (fun m e => if m <? e_seq e then e_seq e else m) es m.

Lemma max_seq_spec es m : m <= max_seq es m /\ forall e, e ∈ es -> e_seq e <= max_seq es m.
Proof.
  revert m. induction es as [|e es IH]; intros m; cbn [max_seq fold_left]; [split; [done|by intros e ?%elem_of_nil]|].
  destruct (IH (if m <? e_seq e then e_seq e else m)) as [H1 H2]. unfold max_seq in *. destruct (Z.ltb_spec m (e_seq e)); (split; [lia|]); intros e' [->|He]%elem_of_cons; auto; lia.
Qed.

Lemma max_seq_range es m : Forall entry_ok es -> 0 <= m <= kMaxSequenceNumber -> 0 <= max_seq es m <= kMaxSequenceNumber.
Proof.
  revert m. induction es as [|e es IH]; intros m Hok Hm; [done|]. apply Forall_cons in Hok as [(Hs & _) Hok]. cbn [max_seq fold_left]. apply IH; [done|]. by destruct (m <? e_seq e).
Qed.

(** What is known of a table of [es]. *)
Definition table_info (n size : Z) (es : list Entry) : TableInfo :=
  mkTableInfo (FileMetaData_new n size (default [] (entry_ikey <$> es !! 0%nat)) (default [] (entry_ikey <$> last es))) (max_seq es 0).

Section ScanLoop.
Context {S : Type} {I : Iterator.Iterator S}.

Lemma scan_rest fuel it es t : scans it (map entry_kv es) -> Forall entry_ok es -> (length es < fuel)%nat ->
  exists it', scan_loop fuel it false t =
      Some (it', mkTableInfo (with_largest (default (largest (ti_meta t)) (entry_ikey <$> last es)) (ti_meta t)) (max_seq es (max_sequence t))) /\ it_status it' = OK.
Proof.
  revert it es t. induction fuel as [|fuel IH]; intros it es t Hs Hok Hf; [lia|]. cbn [scan_loop]. destruct es as [|e es]; destruct Hs as [Hst Hs].
  - rewrite Hs. exists it. split; [|done]. by destruct t as [[] ?].
  - destruct Hs as (-> & -> & _ & it' & Hn & Hs). apply Forall_cons in Hok as [He Hok]. cbn [mbind option_bind].
    unfold entry_ikey at 1. rewrite ParseInternalKey_InternalKey by apply He. rewrite Hn. cbn [mbind option_bind sequence].
    cbn [length] in Hf. destruct (IH it' es (mkTableInfo (with_largest (entry_ikey e) (ti_meta t)) (if max_sequence t <? e_seq e then e_seq e else max_sequence t)) Hs Hok ltac:(lia)) as (it2 & -> & H2).
    exists it2. split; [|done]. cbn [ti_meta max_sequence]. destruct es as [|e' es]; [done|]. change (last (e :: e' :: es)) with (last (e' :: es)).
    destruct (last (e' :: es)) as [x|] eqn:El; [done|]. by apply last_None in El.
Qed.

Lemma scan_all fuel it es n size : scans it (map entry_kv es) -> Forall entry_ok es -> (length es < fuel)%nat -> es <> [] ->
  exists it', scan_loop fuel it true (mkTableInfo (FileMetaData_new n size [] []) 0) = Some (it', table_info n size es) /\ it_status it' = OK.
Proof.
  intros Hs Hok Hf Hne. destruct es as [|e es]; [done|]. destruct fuel as [|fuel]; [cbn in Hf; lia|]. cbn [scan_loop]. destruct Hs as [Hst (-> & -> & _ & it' & Hn & Hs)].
  apply Forall_cons in Hok as [He Hok]. cbn [mbind option_bind]. unfold entry_ikey at 1. rewrite ParseInternalKey_InternalKey by apply He. rewrite Hn. cbn [mbind option_bind sequence ti_meta max_sequence].
  cbn [length] in Hf. destruct (scan_rest fuel it' es (mkTableInfo (with_largest (entry_ikey e) (with_smallest (entry_ikey e) (FileMetaData_new n size [] []))) (if 0 <? e_seq e then e_seq e else 0)) Hs Hok ltac:(lia))
    as (it2 & E2 & H2).
  exists it2. split; [|done]. etransitivity; [exact E2|]. cbn [ti_meta max_sequence]. unfold table_info. destruct es as [|e' es]; [done|].
  change (last (e :: e' :: es)) with (last (e' :: es)). destruct (last (e' :: es)) as [x|] eqn:El; [done|]. by apply last_None in El.
Qed.
End ScanLoop.

Section Scan.
Context `{CS : Checksum} {E RA W KC H K : Type} {R : RandomAccessFile RA} {WF : WritableFile W}.
Context {LF : LogFiles E W} {AF : AppendableFiles E W} {EF : EnvFiles E} {EFL : EnvFilesLaws E} {ED : EnvDirectory E} {RF : RandomAccessFiles E RA} {TF : TableFiles E W}.
Context {raf_contents : RA -> bytes} {RL : RandomAccessFileLaws R raf_contents} {wf_contents : W -> bytes} {WL : WritableFileLaws WF wf_contents}.
Context {FS : FileSystem RF LF TF EF raf_contents wf_contents}.
Context {CO : CacheOps KC H (Table RA) TableDeleter} {c_ok : nat -> (bytes -> Table RA -> Prop) -> list H -> KC -> Prop} {CL : CacheLaws CO c_ok}.
Context {BC : BlockCache K} {bc_holds : K -> bytes -> Block -> Prop} {BL : BlockCacheLaws BC bc_holds} {bc_next : K -> Z} {BI : BlockCacheIds BC bc_next}.
Context (Snappy Zstd : Compressor) {SL : CompressorLaws Snappy} {ZL : CompressorLaws Zstd}.
Context {U : Comparator} {UL : ComparatorLaws U} {o : Options} (dbname : bytes).
Context (Hcmp : comparator o = InternalKeyComparator U) (Hinterval : 1 <= block_restart_interval o).
Context (Hfilter : forall name P, filter_policy o = Some (name, P) ->
  exists P0, P = InternalFilterPolicy P0 /\ FilterPolicyLaws P0 /\ zlen name < 2 ^ 31 /\ forall a b, Compare (Comparator := U) a b = Eq -> a = b).
Context (Hsize : forall f (e : E), match contents e f with Some b => GetFileSize f e = inr (zlen b) | None => exists s, GetFileSize f e = inl s end).
Notation TC := (TableCacheState E KC K).
Notation ready := (cache_ready (raf_contents := raf_contents) (c_ok := c_ok) (bc_holds := bc_holds) (bc_next := bc_next) Snappy Zstd (U := U) (o := o)).
Notation has_table := (has_table (raf_contents := raf_contents) Snappy Zstd (U := U) (o := o) dbname).
Notation Repairer := (Repairer (E := E) (KC := KC) (K := K)).
Variables (sst : Z -> option TableImage) (fuel : nat).
Implicit Types (tc : TC) (r : Repairer).

(** A table that can be scanned. *)
Definition scannable tc (n : Z) : Prop := exists size es, has_table sst tc n size es /\ es <> [] /\ (length es < fuel)%nat.

Definition info_of (n : Z) : TableInfo :=
  match sst n with Some i => table_info n (zlen (img_bytes i)) (img_entries i) | None => table_info n 0 [] end.

Lemma scannable_env tc tc' n : tcs_env tc' = tcs_env tc -> scannable tc n -> scannable tc' n.
Proof. intros Ee (size & es & Ht & H1). exists size, es. split; [|done]. unfold TableCache.has_table in *. by rewrite Ee. Qed.

Lemma ScanTable_spec b n r : ready sst (S b) (rp_table_cache r) -> scannable (rp_table_cache r) n ->
  exists tc', ScanTable (H := H) (W := W) Snappy Zstd dbname o fuel n r = Some (add_table (info_of n) (with_rp_cache tc' r)) /\ ready sst b tc' /\ tcs_env tc' = tcs_env (rp_table_cache r).
Proof.
  intros Hr (size & es & Ht & Hne & Hf). pose proof (proj1 (has_table_bytes Snappy Zstd dbname _ _ _ _ _) Ht) as (Hn & i & Ei & Hi & Ees & Esz & Hb).
  assert (Einfo : info_of n = table_info n size es) by (unfold info_of; by rewrite Ei, Ees, Esz).
  assert (Hok : Forall entry_ok es) by (rewrite <- Ees; exact (im_ok _ _ _ Hi)).
  destruct (NewIterator_spec Snappy Zstd dbname Hcmp Hinterval Hfilter sst (table_options o) fuel b _ n size es Hr Ht ltac:(lia)) as (it & t & h & tc1 & tc2 & E1 & Hp & E2 & Hr2 & Ee2).
  pose proof (file_laws (U := U) Snappy Zstd (table_options o) fuel (map entry_kv es)) as HL.
  destruct (pos_first (IteratorLaws := HL) _ _ Hp) as (it0 & E3 & Hp0).
  pose proof (cursor_scans (InternalKeyComparator U) _ _ HL _ _ Hp0) as Hs. rewrite drop_0 in Hs.
  destruct (scan_all fuel it0 es n size Hs Hok Hf Hne) as (it1 & E4 & Est).
  unfold InputLaws.FI in *. exists tc2. rewrite Einfo. split; [|done].
  assert (Hgo : ('(iter, handle, tc) ← NewTableIterator (H := H) Snappy Zstd dbname o (FileMetaData_new n size [] []) (rp_table_cache r);
      iter ← it_SeekToFirst (Iterator := File_Iterator Snappy Zstd fuel (table_options o)) iter;
      '(iter, t) ← scan_loop (I := File_Iterator Snappy Zstd fuel (table_options o)) fuel iter true (mkTableInfo (FileMetaData_new n size [] []) 0);
      tc ← delete_iterator (H := H) handle tc; Some (iter, t, tc)) = Some (it1, table_info n size es, tc2)).
  { unfold NewTableIterator. cbn [FileMetaData_new number file_size]. rewrite E1. cbn [mbind option_bind]. rewrite E3. cbn [mbind option_bind]. rewrite E4. cbn [mbind option_bind delete_iterator]. by rewrite E2. }
  assert (Hsz : exists fname, match GetFileSize (TableFileName dbname n) (tcs_env (rp_table_cache r)) with
    | inr size => (TableFileName dbname n, Some size)
    | inl _ => (SSTTableFileName dbname n, match GetFileSize (SSTTableFileName dbname n) (tcs_env (rp_table_cache r)) with inr size => Some size | inl _ => None end)
    end = (fname, Some size)).
  { unfold table_bytes in Hb. pose proof (Hsize (TableFileName dbname n) (tcs_env (rp_table_cache r))) as H1. pose proof (Hsize (SSTTableFileName dbname n) (tcs_env (rp_table_cache r))) as H2.
    destruct (contents _ (TableFileName dbname n)) as [b1|]; [injection Hb as ->; rewrite H1, Esz; by eexists|]. destruct H1 as [s ->]. rewrite Hb in H2. rewrite H2, Esz. by eexists. }
  destruct Hsz as [fname Hsz]. unfold ScanTable. rewrite Hsz.
  destruct (NewTableIterator Snappy Zstd dbname o _ _) as [[[iter handle] tc]|]; [|done]. cbn [mbind option_bind ti_meta] in *.
  destruct (it_SeekToFirst iter) as [iter'|]; [|done]. cbn [mbind option_bind] in *. destruct (scan_loop fuel iter' _ _) as [[iter2 t2]|]; [|done]. cbn [mbind option_bind] in *.
  destruct (delete_iterator handle tc) as [tc3|]; [|done]. cbn [mbind option_bind] in *. injection Hgo as -> -> ->. by rewrite Est.
Qed.

Lemma ExtractMetaData_spec b ns r : ready sst (length ns + b) (rp_table_cache r) -> (forall n, n ∈ ns -> scannable (rp_table_cache r) n) ->
  exists tc', foldl (fun (r : option Repairer) n => r ← r; ScanTable (H := H) (W := W) Snappy Zstd dbname o fuel n r) (Some r) ns =
      Some (mkRepairer (manifests_ r) (table_numbers_ r) (logs_ r) (tables_ r ++ map info_of ns) (rp_next_file_number r) tc') /\
    ready sst b tc' /\ tcs_env tc' = tcs_env (rp_table_cache r).
Proof.
  revert r. induction ns as [|n ns IH]; intros r Hr Hs; [exists (rp_table_cache r); rewrite app_nil_r; split; [by destruct r|done]|]. cbn [foldl mbind option_bind].
  destruct (ScanTable_spec (length ns + b) n r Hr (Hs n ltac:(by left))) as (tc1 & -> & Hr1 & Ee1).
  destruct (IH (add_table (info_of n) (with_rp_cache tc1 r)) Hr1) as (tc2 & E2 & Hr2 & Ee2).
  { intros m Hm. apply (scannable_env (rp_table_cache r)); [exact Ee1|]. apply Hs. by right. }
  exists tc2. cbn [add_table with_rp_cache manifests_ table_numbers_ logs_ tables_ rp_next_file_number rp_table_cache] in *. rewrite <- app_assoc in E2. split; [exact E2|]. split; [exact Hr2|]. by rewrite Ee2.
Qed.
End Scan.
