(* ===== verification/Memenv.v ===== *)
(** * helpers/memenv: an environment in memory

    Models src/helpers/memenv/memenv.cc: files as blocks of 8 KiB with a count of
    references, the files opened for reading and writing, and the environment that
    maps names to files.  Every operation runs under the mutex of the environment or
    of the file.

    The abstract specification is a machine without blocks and reference counts:
    names, the contents of files, and open files.  The environment refines it, reads
    and deletes nothing that is not there, and leaks nothing: except that an
    appendable file with a new name is lost, and a file that is renamed to itself is
    deleted ([appendable_file_lost], [renamed_file_lost]). *)

From Stdlib Require Import Sorted.
From stdpp Require Import gmap sorting.
From S2P Require Import Prelude Comparator Status.

(** ** [FileState] *)

Definition kBlockSize : Z := 8 * 1024.

(** A block: [None] is a byte that is not initialized yet. *)
Abbreviation MemBlock := (list (option byte)).

Record FileState := mkFileState { refs_ : Z; blocks_ : list MemBlock; size_ : Z }.

Definition FileState_new : FileState := mkFileState 0 [] 0.

Definition with_refs (n : Z) (fs : FileState) : FileState := mkFileState n (blocks_ fs) (size_ fs).

Definition Size (fs : FileState) : Z := size_ fs.

Definition Truncate (fs : FileState) : FileState := mkFileState (refs_ fs) [] 0.

(** [memcpy] out of a block, and into one: inside the block, of initialized bytes. *)
Definition copy_out (block : MemBlock) (from len : Z) : option bytes :=
  if from + len <=? zlen block then mapM id (take (Z.to_nat len) (drop (Z.to_nat from) block)) else None.

Definition copy_in (block : MemBlock) (at_ : Z) (src : bytes) : option MemBlock :=
  if at_ + zlen src <=? zlen block then Some (take (Z.to_nat at_) block ++ map Some src ++ drop (Z.to_nat at_ + length src) block) else None.

Fixpoint read_loop (fuel : nat) (blocks : list MemBlock) (block block_offset bytes_to_copy : Z) : option bytes :=
  if bytes_to_copy >? 0 then
    match fuel with
    | O => None
    | S fuel =>
        let avail := kBlockSize - block_offset in
        let avail := if avail >? bytes_to_copy then bytes_to_copy else avail in
        b ← blocks !! Z.to_nat block;
        dst ← copy_out b block_offset avail;
        rest ← read_loop fuel blocks (block + 1) 0 (bytes_to_copy - avail);
        Some (dst ++ rest)
    end
  else Some [].

(** The status, and [*result] if it is set. *)
Definition FileState_Read (fs : FileState) (offset n : Z) : option (Status * option bytes) :=
  if offset >? size_ fs then Some (IOError (cstr "Offset greater than file size.") [], None)
  else
    let available := u64 (size_ fs - offset) in
    let n := if n >? available then available else n in
    if n =? 0 then Some (OK, Some [])
    else
      scratch ← read_loop (length (blocks_ fs)) (blocks_ fs) (offset / kBlockSize) (offset mod kBlockSize) n;
      Some (OK, Some scratch).

Definition new_block : MemBlock := replicate (Z.to_nat kBlockSize) None.

Fixpoint append_loop (fuel : nat) (src : bytes) (fs : FileState) : option FileState :=
  match src with
  | [] => Some fs
  | _ =>
      match fuel with
      | O => None
      | S fuel =>
          let offset := size_ fs mod kBlockSize in
          let '(blocks, avail) :=
            if negb (offset =? 0) then (blocks_ fs, kBlockSize - offset)
            else (blocks_ fs ++ [new_block], kBlockSize) in
          let avail := if avail >? zlen src then zlen src else avail in
          back ← last blocks;
          back ← copy_in back offset (take (Z.to_nat avail) src);
          append_loop fuel (drop (Z.to_nat avail) src) (mkFileState (refs_ fs) (removelast blocks ++ [back]) (u64 (size_ fs + avail)))
      end
  end.

Definition FileState_Append (fs : FileState) (data : bytes) : option (Status * FileState) :=
  fs ← append_loop (length data) data fs; Some (OK, fs).

(** ** What a file holds *)

Notation BS := (Z.to_nat kBlockSize).

(** The blocks are full but for the last one, which has room for less than a block. *)
Record holds_bytes (fs : FileState) (b : bytes) : Prop := {
  hb_blocks : Forall (fun block => length block = BS) (blocks_ fs);
  hb_size : size_ fs = zlen b;
  hb_bytes : exists room, concat (blocks_ fs) = map Some b ++ room /\ (length room < BS)%nat;
}.

Lemma new_holds r : holds_bytes (mkFileState r [] 0) [].
Proof. split; [constructor|done|]. exists []. split; [done|]. unfold kBlockSize. cbn [length]. lia. Qed.

Lemma refs_hold n fs b : holds_bytes fs b -> holds_bytes (with_refs n fs) b.
Proof. intros [H1 H2 H3]. by split. Qed.

Lemma concat_blocks_length (blocks : list MemBlock) : Forall (fun block => length block = BS) blocks -> length (concat blocks) = (length blocks * BS)%nat.
Proof. induction 1 as [|block blocks Hb _ IH]; [done|]. cbn [concat length]. rewrite length_app, IH, Hb. lia. Qed.

Lemma block_slice (blocks : list MemBlock) k : Forall (fun block => length block = BS) blocks -> (k < length blocks)%nat ->
  blocks !! k = Some (take BS (drop (k * BS) (concat blocks))).
Proof.
  intros Hb. revert k. induction Hb as [|block blocks Hb _ IH]; intros k Hk; cbn in Hk; [lia|]. destruct k as [|k].
  - cbn [lookup list_lookup concat Nat.mul]. f_equal. rewrite drop_0, take_app_length' by done. done.
  - cbn [lookup list_lookup concat]. rewrite IH by lia. do 2 f_equal. rewrite drop_app_ge by lia. f_equal. lia.
Qed.

Lemma mapM_some (l : bytes) : mapM id (map Some l) = Some l.
Proof. induction l as [|x l IH]; [done|]. cbn. by rewrite IH. Qed.

Lemma blocks_cover fs b : holds_bytes fs b -> (length b <= length (blocks_ fs) * BS < length b + BS)%nat.
Proof.
  intros [H1 _ (room & Hc & Hr)]. rewrite <- (concat_blocks_length _ H1), Hc, length_app, length_map. lia.
Qed.

Lemma copy_out_spec fs b k off len : holds_bytes fs b -> (0 < len)%nat -> (off + len <= BS)%nat -> (k * BS + off + len <= length b)%nat ->
  exists block, blocks_ fs !! k = Some block /\ copy_out block (Z.of_nat off) (Z.of_nat len) = Some (take len (drop (k * BS + off) b)).
Proof.
  intros Hf Hlen Hoff Hb. pose proof (blocks_cover fs b Hf) as Hc. destruct Hf as [H1 _ (room & Ec & _)].
  assert (Hk : (k < length (blocks_ fs))%nat) by nia.
  exists (take BS (drop (k * BS) (concat (blocks_ fs)))). split; [by apply block_slice|]. unfold copy_out, zlen.
  rewrite length_take, length_drop, (concat_blocks_length _ H1). rewrite (proj2 (Z.leb_le _ _)) by nia.
  rewrite !Nat2Z.id, skipn_firstn_comm, take_take, Nat.min_l, drop_drop, Ec by lia.
  rewrite drop_app_le by (rewrite length_map; lia). rewrite take_app_le by (rewrite length_drop, length_map; lia).
  by rewrite <- fmap_drop, <- fmap_take, mapM_some.
Qed.

Lemma read_loop_spec fs b fuel k off n : holds_bytes fs b -> (off < BS)%nat -> (k * BS + off + n <= length b)%nat -> (length (blocks_ fs) <= k + fuel)%nat ->
  read_loop fuel (blocks_ fs) (Z.of_nat k) (Z.of_nat off) (Z.of_nat n) = Some (take n (drop (k * BS + off) b)).
Proof.
  intros Hf. revert k off n. induction fuel as [|fuel IH]; intros k off n Hoff Hn Hfuel; cbn [read_loop].
  - pose proof (blocks_cover fs b Hf). destruct n as [|n]; [done|]. nia.
  - destruct n as [|n]; [done|]. rewrite (proj2 (Z.gtb_lt _ _)) by lia. set (m := Nat.min (BS - off) (S n)).
    assert (Em : (if kBlockSize - Z.of_nat off >? Z.of_nat (S n) then Z.of_nat (S n) else kBlockSize - Z.of_nat off) = Z.of_nat m).
    { unfold m, kBlockSize in *. rewrite Z.gtb_ltb. destruct (Z.ltb_spec (Z.of_nat (S n)) (8 * 1024 - Z.of_nat off)); lia. }
    rewrite Em, Nat2Z.id. destruct (copy_out_spec fs b k off m Hf) as (block & -> & Ec); [unfold m; lia..|]. cbn [mbind option_bind]. rewrite Ec. cbn [mbind option_bind].
    replace (Z.of_nat k + 1) with (Z.of_nat (S k)) by lia. replace (Z.of_nat (S n) - Z.of_nat m) with (Z.of_nat (S n - m)) by (unfold m; lia).
    destruct (Nat.eq_dec m (S n)) as [Hm|Hm].
    + rewrite Hm, Nat.sub_diag. assert (E0 : forall f, read_loop f (blocks_ fs) (Z.of_nat (S k)) 0 (Z.of_nat 0) = Some []) by (by intros []).
      rewrite E0. cbn [mbind option_bind]. by rewrite app_nil_r.
    + assert (Hm' : m = (BS - off)%nat) by (unfold m in *; lia). change 0 with (Z.of_nat 0) at 1. rewrite IH by (unfold kBlockSize in *; nia || lia).
      cbn [mbind option_bind]. f_equal. replace (S k * BS + 0)%nat with (k * BS + off + m)%nat by nia. rewrite <- (drop_drop b m (k * BS + off)).
      rewrite (take_take_drop _ m). f_equal. lia.
Qed.

Lemma FileState_Read_spec fs b offset n : holds_bytes fs b -> zlen b < 2 ^ 64 -> 0 <= offset -> 0 <= n ->
  FileState_Read fs offset n = Some (if offset >? zlen b then (IOError (cstr "Offset greater than file size.") [], None)
                                     else (OK, Some (take (Z.to_nat n) (drop (Z.to_nat offset) b)))).
Proof.
  intros Hf Hb Ho Hn. pose proof Hf as [_ Hs _]. unfold FileState_Read. rewrite Hs. rewrite Z.gtb_ltb. destruct (Z.ltb_spec (zlen b) offset) as [|Hle]; [done|].
  rewrite u64_small by lia. set (m := Nat.min (Z.to_nat n) (length b - Z.to_nat offset)).
  assert (Em : (if n >? zlen b - offset then zlen b - offset else n) = Z.of_nat m).
  { unfold m, zlen in *. rewrite Z.gtb_ltb. destruct (Z.ltb_spec (Z.of_nat (length b) - offset) n); lia. }
  rewrite Em. assert (Et : take (Z.to_nat n) (drop (Z.to_nat offset) b) = take m (drop (Z.to_nat offset) b)).
  { unfold m. destruct (Nat.le_ge_cases (Z.to_nat n) (length b - Z.to_nat offset)); [by rewrite Nat.min_l|].
    rewrite Nat.min_r by done. rewrite !take_ge by (rewrite length_drop; lia). done. }
  rewrite Et. destruct (Z.eqb_spec (Z.of_nat m) 0) as [E0|Hm]; [by replace m with 0%nat by lia|].
  assert (Hk : offset / kBlockSize = Z.of_nat (Z.to_nat (offset / kBlockSize)) /\ offset mod kBlockSize = Z.of_nat (Z.to_nat (offset mod kBlockSize)) /\
    Z.to_nat offset = (Z.to_nat (offset / kBlockSize) * BS + Z.to_nat (offset mod kBlockSize))%nat /\ (Z.to_nat (offset mod kBlockSize) < BS)%nat) by (unfold kBlockSize; dlia).
  destruct Hk as (E1 & E2 & E3 & Hlt). rewrite E1, E2, (read_loop_spec fs b); [by rewrite E3|done|done| |lia]. rewrite <- E3. unfold m, zlen in *. lia.
Qed.

(** *** [Append] *)

(** Room in the last block is filled. *)
Lemma fill_block (blocks : list MemBlock) b room src off : Forall (fun block => length block = BS) blocks -> concat blocks = map Some b ++ room ->
  (0 < length room <= BS)%nat -> (length src <= length room)%nat -> (off + length room = BS)%nat ->
  exists back back', last blocks = Some back /\ copy_in back (Z.of_nat off) src = Some back' /\
    Forall (fun block => length block = BS) (removelast blocks ++ [back']) /\ concat (removelast blocks ++ [back']) = map Some (b ++ src) ++ drop (length src) room.
Proof.
  intros Hb Hc Hr Hs Ho. destruct blocks as [|back blocks _] using rev_ind; [cbn in Hc; symmetry in Hc; apply app_nil in Hc as [_ ->]; cbn in Hr; lia|].
  apply Forall_app in Hb as [Hb Hback]. rewrite Forall_singleton in Hback. rewrite last_snoc, removelast_last, !concat_app in *. cbn [concat] in *. rewrite app_nil_r in Hc.
  exists back. unfold copy_in, zlen. rewrite (proj2 (Z.leb_le _ _)) by lia. rewrite Nat2Z.id. eexists. split; [done|]. split; [done|].
  assert (Eb : back = take off back ++ room).
  { rewrite <- (take_drop off back) at 1. f_equal. rewrite <- (take_drop off back), app_assoc in Hc. apply app_inj_2 in Hc as [_ Hc]; [done|]. rewrite length_drop. lia. }
  assert (Hoff : length (take off back) = off) by (rewrite length_take; lia). split.
  - apply Forall_app. split; [done|]. apply Forall_singleton. rewrite !length_app, length_map, length_drop. lia.
  - rewrite concat_app. cbn [concat]. rewrite app_nil_r. rewrite Eb, app_assoc in Hc. apply app_inj_2 in Hc as [Hc _]; [|done].
    rewrite map_app, <- Hc, <- !app_assoc. do 3 f_equal. rewrite Eb, drop_app_ge by lia. f_equal. lia.
Qed.

Lemma append_loop_spec fuel src fs b : holds_bytes fs b -> zlen b + zlen src < 2 ^ 64 -> (length src <= fuel)%nat ->
  exists fs', append_loop fuel src fs = Some fs' /\ holds_bytes fs' (b ++ src) /\ refs_ fs' = refs_ fs.
Proof.
  revert src fs b. induction fuel as [|fuel IH]; intros src fs b Hf Hz Hfuel.
  { destruct src; [|cbn in Hfuel; lia]. exists fs. by rewrite app_nil_r. }
  destruct src as [|x src0] eqn:Esrc; [exists fs; by rewrite app_nil_r|]. rewrite <- Esrc in *. assert (Hsrc : (0 < length src)%nat) by (rewrite Esrc; cbn; lia).
  pose proof (blocks_cover fs b Hf) as Hcov. pose proof Hf as [H1 H2 (room & H3 & H4)].
  assert (Hroom : (length (blocks_ fs) * BS = length b + length room)%nat) by (rewrite <- (concat_blocks_length _ H1), H3, length_app, length_map; done).
  set (off := Z.to_nat (size_ fs mod kBlockSize)).
  assert (Hoff : size_ fs mod kBlockSize = Z.of_nat off /\ (off < BS)%nat) by (unfold off, kBlockSize; dlia). destruct Hoff as [Eoff Hoff].
  assert (Hlen : (off + length room)%nat = 0%nat \/ (off + length room = BS)%nat).
  { rewrite H2 in Eoff. unfold zlen, kBlockSize in *. assert (Z.of_nat (length b) = 8192 * Z.of_nat (length (blocks_ fs)) - Z.of_nat (length room)) by nia. dlia. }
  assert (Hgrown : exists blocks room', (if negb (size_ fs mod kBlockSize =? 0) then (blocks_ fs, kBlockSize - size_ fs mod kBlockSize) else (blocks_ fs ++ [new_block], kBlockSize)) = (blocks, Z.of_nat (length room')) /\
    Forall (fun block => length block = BS) blocks /\ concat blocks = map Some b ++ room' /\ (0 < length room' <= BS)%nat /\ (off + length room' = BS)%nat).
  { rewrite Eoff. destruct (Z.eqb_spec (Z.of_nat off) 0) as [E0|E0]; cbn [negb].
    - exists (blocks_ fs ++ [new_block]), new_block. assert (Hn : length new_block = BS) by apply length_replicate. rewrite Hn. split; [by rewrite Z2Nat.id|].
      split; [by apply Forall_app; split; [|apply Forall_singleton]|]. split; [|unfold kBlockSize in *; lia].
      rewrite concat_app, H3. cbn. destruct room; [by rewrite !app_nil_r|cbn in *; unfold kBlockSize in *; lia].
    - exists (blocks_ fs), room. split; [f_equal; unfold kBlockSize in *; lia|]. do 2 (split; [done|]). unfold kBlockSize in *. lia. }
  destruct Hgrown as (blocks & room' & Eg & Hb & Hc & Hr & Ho). set (m := Nat.min (length room') (length src)).
  destruct (fill_block blocks b room' (take m src) off Hb Hc Hr) as (back & back' & E1 & E2 & F1 & F2); [rewrite length_take; unfold m; lia|done|].
  assert (Hm : length (take m src) = m) by (rewrite length_take; unfold m; lia).
  destruct (IH (drop m src) (mkFileState (refs_ fs) (removelast blocks ++ [back']) (u64 (size_ fs + Z.of_nat m))) (b ++ take m src)) as (fs' & E3 & Hf' & Er).
  - split; cbn [blocks_ size_]; [done| |].
    + rewrite H2, u64_small; unfold zlen in *; rewrite ?length_app, ?Hm; unfold m in *; lia.
    + exists (drop (length (take m src)) room'). split; [done|]. rewrite length_drop. unfold m in *. lia.
  - unfold zlen in *. rewrite length_app, length_drop, Hm. unfold m. lia.
  - rewrite length_drop. unfold m. lia.
  - exists fs'. split; [|split; [by rewrite <- app_assoc, take_drop in Hf'|exact Er]].
    rewrite Esrc. cbn [append_loop]. rewrite <- Esrc, Eg, Eoff.
    assert (Em : (if Z.of_nat (length room') >? zlen src then zlen src else Z.of_nat (length room')) = Z.of_nat m).
    { unfold m, zlen. rewrite Z.gtb_ltb. destruct (Z.ltb_spec (Z.of_nat (length src)) (Z.of_nat (length room'))); lia. }
    rewrite Em, Nat2Z.id, E1. cbn [mbind option_bind]. rewrite E2. cbn [mbind option_bind]. exact E3.
Qed.

Lemma FileState_Append_spec fs b data : holds_bytes fs b -> zlen b + zlen data < 2 ^ 64 ->
  exists fs', FileState_Append fs data = Some (OK, fs') /\ holds_bytes fs' (b ++ data) /\ refs_ fs' = refs_ fs.
Proof.
  intros Hf Hz. destruct (append_loop_spec (length data) data fs b Hf Hz (Nat.le_refl _)) as (fs' & E & H). exists fs'. split; [|exact H].
  unfold FileState_Append. by rewrite E.
Qed.

(** ** Names: [std::map<std::string, FileState*>] *)

Section FileMap.
Context {A : Type}.
Notation FileMap := (list (bytes * A)).

Definition map_find (f : bytes) (m : FileMap) : option A := snd <$> List.find (fun p => bool_decide (p.1 = f)) m.

(** [m[f] = x]: the map is in the order of its keys. *)
Fixpoint map_set (f : bytes) (x : A) (m : FileMap) : FileMap :=
  match m with
  | [] => [(f, x)]
  | (g, y) :: m' =>
      match Compare (Comparator := BytewiseComparator) f g with
      | Lt => (f, x) :: m
      | Eq => (f, x) :: m'
      | Gt => (g, y) :: map_set f x m'
      end
  end.

Definition map_erase (f : bytes) (m : FileMap) : FileMap := List.filter (fun p => negb (bool_decide (p.1 = f))) m.

Definition names_sorted (m : FileMap) : Prop := StronglySorted (fun p q => Compare (Comparator := BytewiseComparator) p.1 q.1 = Lt) m.
End FileMap.

(** ** The environment *)

(** Open files: the address of the file, and the position of a sequential one. *)
Inductive OpenFile := SequentialFileImpl (file_ pos_ : Z) | RandomAccessFileImpl (file_ : Z) | WritableFileImpl (file_ : Z).

Definition file_of (f : OpenFile) : Z :=
  match f with SequentialFileImpl a _ => a | RandomAccessFileImpl a => a | WritableFileImpl a => a end.

(** The map, with null pointers as [None], and the heap. *)
Record InMemoryEnv := mkEnv {
  file_map_ : list (bytes * option Z);
  heap : gmap Z FileState;
  next_addr : Z;
}.

Definition with_heap (h : gmap Z FileState) (e : InMemoryEnv) : InMemoryEnv := mkEnv (file_map_ e) h (next_addr e).
Definition with_file_map (m : list (bytes * option Z)) (e : InMemoryEnv) : InMemoryEnv := mkEnv m (heap e) (next_addr e).

Definition Ref (a : Z) (h : gmap Z FileState) : option (gmap Z FileState) :=
  fs ← h !! a; Some (<[a := with_refs (refs_ fs + 1) fs]> h).

(** The last reference deletes the file. *)
Definition Unref (a : Z) (h : gmap Z FileState) : option (gmap Z FileState) :=
  fs ← h !! a;
  let n := refs_ fs - 1 in
  if n <? 0 then None else Some (if n <=? 0 then delete a h else <[a := with_refs n fs]> h).

(** [new FileState()] *)
Definition new_FileState (e : InMemoryEnv) : Z * InMemoryEnv :=
  (next_addr e, mkEnv (file_map_ e) (<[next_addr e := FileState_new]> (heap e)) (next_addr e + 1)).

(** The constructors of open files, and their destructor. *)
Definition open_file (f : OpenFile) (e : InMemoryEnv) : option (OpenFile * InMemoryEnv) :=
  h ← Ref (file_of f) (heap e); Some (f, with_heap h e).
Definition delete_file (f : OpenFile) (e : InMemoryEnv) : option InMemoryEnv :=
  h ← Unref (file_of f) (heap e); Some (with_heap h e).

Definition no_file (fname : bytes) : Status := IOError fname (cstr "File not found").

(** An existing file is opened. *)
Definition open_existing (impl : Z -> OpenFile) (fname : bytes) (e : InMemoryEnv) : option ((Status + OpenFile) * InMemoryEnv) :=
  match map_find fname (file_map_ e) with
  | None => Some (inl (no_file fname), e)
  | Some p => a ← p; '(f, e) ← open_file (impl a) e; Some (inr f, e)
  end.

Definition NewSequentialFile (fname : bytes) (e : InMemoryEnv) := open_existing (fun a => SequentialFileImpl a 0) fname e.
Definition NewRandomAccessFile (fname : bytes) (e : InMemoryEnv) := open_existing RandomAccessFileImpl fname e.

Definition NewWritableFile (fname : bytes) (e : InMemoryEnv) : option (OpenFile * InMemoryEnv) :=
  '(a, e) ← (match map_find fname (file_map_ e) with
             | None =>
                 let '(a, e) := new_FileState e in
                 h ← Ref a (heap e);
                 Some (a, with_file_map (map_set fname (Some a) (file_map_ e)) (with_heap h e))
             | Some p =>
                 a ← p;
                 fs ← heap e !! a;
                 Some (a, with_heap (<[a := Truncate fs]> (heap e)) e)
             end);
  open_file (WritableFileImpl a) e.

(** [file_map_[fname]] makes an entry; a new file is not stored in it. *)
Definition NewAppendableFile (fname : bytes) (e : InMemoryEnv) : option (OpenFile * InMemoryEnv) :=
  let sptr := default None (map_find fname (file_map_ e)) in
  let e := with_file_map (map_set fname sptr (file_map_ e)) e in
  '(a, e) ← (match sptr with
             | None => let '(a, e) := new_FileState e in h ← Ref a (heap e); Some (a, with_heap h e)
             | Some a => Some (a, e)
             end);
  open_file (WritableFileImpl a) e.

Definition FileExists (fname : bytes) (e : InMemoryEnv) : bool := bool_decide (is_Some (map_find fname (file_map_ e))).

(** The names below a directory. *)
Definition child_name (dir filename : bytes) : option bytes :=
  if (zlen filename >=? zlen dir + 1) && bool_decide (filename !! length dir = Some x2f) && bool_decide (take (length dir) filename = dir)
  then Some (drop (length dir + 1) filename) else None.

Definition GetChildren (dir : bytes) (e : InMemoryEnv) : list bytes := omap (fun kvp => child_name dir kvp.1) (file_map_ e).

Definition RemoveFileInternal (fname : bytes) (e : InMemoryEnv) : option InMemoryEnv :=
  match map_find fname (file_map_ e) with
  | None => Some e
  | Some p => a ← p; h ← Unref a (heap e); Some (with_file_map (map_erase fname (file_map_ e)) (with_heap h e))
  end.

Definition RemoveFile (fname : bytes) (e : InMemoryEnv) : option (Status * InMemoryEnv) :=
  match map_find fname (file_map_ e) with
  | None => Some (no_file fname, e)
  | Some _ => e ← RemoveFileInternal fname e; Some (OK, e)
  end.

Definition GetFileSize (fname : bytes) (e : InMemoryEnv) : option (Status + Z) :=
  match map_find fname (file_map_ e) with
  | None => Some (inl (no_file fname))
  | Some p => a ← p; fs ← heap e !! a; Some (inr (Size fs))
  end.

Definition RenameFile (src target : bytes) (e : InMemoryEnv) : option (Status * InMemoryEnv) :=
  match map_find src (file_map_ e) with
  | None => Some (no_file src, e)
  | Some _ =>
      e ← RemoveFileInternal target e;
      let m := map_set target (default None (map_find src (file_map_ e))) (file_map_ e) in
      Some (OK, with_file_map (map_erase src m) e)
  end.

(** [~InMemoryEnv] *)
Definition destroy (e : InMemoryEnv) : option (gmap Z FileState) :=
  foldl (fun h kvp => h ← h; a ← snd kvp; Unref a h) (Some (heap e)) (file_map_ e).

(** *** Open files *)

(** The status, [*result] if it is set, and the file after the call. *)
Definition SequentialFile_Read (n file pos : Z) (e : InMemoryEnv) : option (Status * option bytes * OpenFile) :=
  fs ← heap e !! file;
  '(s, result) ← FileState_Read fs pos n;
  let pos := if ok s then u64 (pos + zlen (default [] result)) else pos in
  Some (s, result, SequentialFileImpl file pos).

Definition SequentialFile_Skip (n file pos : Z) (e : InMemoryEnv) : option (Status * OpenFile) :=
  fs ← heap e !! file;
  if pos >? Size fs then Some (IOError (cstr "pos_ > file_->Size()") [], SequentialFileImpl file pos)
  else
    let available := u64 (Size fs - pos) in
    let n := if n >? available then available else n in
    Some (OK, SequentialFileImpl file (u64 (pos + n))).

Definition RandomAccessFile_Read (offset n file : Z) (e : InMemoryEnv) : option (Status * option bytes) :=
  fs ← heap e !! file; FileState_Read fs offset n.

Definition WritableFile_Append (data : bytes) (file : Z) (e : InMemoryEnv) : option (Status * InMemoryEnv) :=
  fs ← heap e !! file;
  '(s, fs) ← FileState_Append fs data;
  Some (s, with_heap (<[file := fs]> (heap e)) e).

(** ** The environment in use *)

(** The calls of a client: of the environment, and of the files it has opened,
    which are numbered from 0. *)
Inductive Op :=
| DoNewSequentialFile (fname : bytes)
| DoNewRandomAccessFile (fname : bytes)
| DoNewWritableFile (fname : bytes)
| DoNewAppendableFile (fname : bytes)
| DoFileExists (fname : bytes)
| DoGetChildren (dir : bytes)
| DoRemoveFile (fname : bytes)
| DoCreateDir (dirname : bytes)
| DoRemoveDir (dirname : bytes)
| DoGetFileSize (fname : bytes)
| DoRenameFile (src target : bytes)
| DoRead (file : nat) (n : Z)
| DoSkip (file : nat) (n : Z)
| DoReadAt (file : nat) (offset n : Z)
| DoAppend (file : nat) (data : bytes)
| DoClose (file : nat)
| DoFlush (file : nat)
| DoSync (file : nat)
| DoDelete (file : nat).

Inductive Answer :=
| Done (s : Status)
| Opened (r : Status + nat)
| Exists (b : bool)
| Names (l : list bytes)
| HasSize (r : Status + Z)
| Bytes (s : Status) (result : option bytes).

(** The environment and the files that are open. *)
Record Mem := mkMem { m_env : InMemoryEnv; m_open : list (option OpenFile) }.

Definition Mem_new : Mem := mkMem (mkEnv [] ∅ 0) [].

Definition opened (f : OpenFile) (e : InMemoryEnv) (m : Mem) : Answer * Mem := (Opened (inr (length (m_open m))), mkMem e (m_open m ++ [Some f])).
Definition opened_existing (r : (Status + OpenFile) * InMemoryEnv) (m : Mem) : Answer * Mem :=
  match r with (inl s, e) => (Opened (inl s), mkMem e (m_open m)) | (inr f, e) => opened f e m end.
Definition with_open (i : nat) (f : option OpenFile) (m : Mem) : Mem := mkMem (m_env m) (<[i := f]> (m_open m)).

(** [None]: the client calls a file that is not there, or the code has no defined
    behaviour. *)
Definition exec (op : Op) (m : Mem) : option (Answer * Mem) :=
  let e := m_env m in
  let file i := f ← m_open m !! i; f in
  match op with
  | DoNewSequentialFile fname => r ← NewSequentialFile fname e; Some (opened_existing r m)
  | DoNewRandomAccessFile fname => r ← NewRandomAccessFile fname e; Some (opened_existing r m)
  | DoNewWritableFile fname => '(f, e) ← NewWritableFile fname e; Some (opened f e m)
  | DoNewAppendableFile fname => '(f, e) ← NewAppendableFile fname e; Some (opened f e m)
  | DoFileExists fname => Some (Exists (FileExists fname e), m)
  | DoGetChildren dir => Some (Names (GetChildren dir e), m)
  | DoRemoveFile fname => '(s, e) ← RemoveFile fname e; Some (Done s, mkMem e (m_open m))
  | DoCreateDir _ | DoRemoveDir _ => Some (Done OK, m)
  | DoGetFileSize fname => r ← GetFileSize fname e; Some (HasSize r, m)
  | DoRenameFile src target => '(s, e) ← RenameFile src target e; Some (Done s, mkMem e (m_open m))
  | DoRead i n =>
      match file i with
      | Some (SequentialFileImpl a pos) => '(s, r, f) ← SequentialFile_Read n a pos e; Some (Bytes s r, with_open i (Some f) m)
      | _ => None
      end
  | DoSkip i n =>
      match file i with
      | Some (SequentialFileImpl a pos) => '(s, f) ← SequentialFile_Skip n a pos e; Some (Done s, with_open i (Some f) m)
      | _ => None
      end
  | DoReadAt i offset n =>
      match file i with
      | Some (RandomAccessFileImpl a) => '(s, r) ← RandomAccessFile_Read offset n a e; Some (Bytes s r, m)
      | _ => None
      end
  | DoAppend i data =>
      match file i with
      | Some (WritableFileImpl a) => '(s, e) ← WritableFile_Append data a e; Some (Done s, mkMem e (m_open m))
      | _ => None
      end
  | DoClose i | DoFlush i | DoSync i => match file i with Some (WritableFileImpl _) => Some (Done OK, m) | _ => None end
  | DoDelete i => f ← file i; e ← delete_file f e; Some (Done OK, mkMem e (<[i := None]> (m_open m)))
  end.

Fixpoint run (ops : list Op) (m : Mem) : option (list Answer * Mem) :=
  match ops with
  | [] => Some ([], m)
  | op :: ops => '(a, m) ← exec op m; '(l, m) ← run ops m; Some (a :: l, m)
  end.

(** The files are deleted, and then the environment. *)
Definition end_of_program (m : Mem) : option (gmap Z FileState) :=
  e ← foldl (fun e f => e ← e; delete_file f e) (Some (m_env m)) (omap id (m_open m));
  destroy e.

(** ** The abstract machine *)

(** Names, the contents of every file there ever was, the open files. *)
Record Spec := mkSpec {
  sp_names : list (bytes * Z);
  sp_contents : Z -> bytes;
  sp_next : Z;
  sp_open : list (option OpenFile);
}.

Definition Spec_new : Spec := mkSpec [] (fun _ => []) 0 [].

Definition update (a : Z) (b : bytes) (contents : Z -> bytes) : Z -> bytes := fun x => if x =? a then b else contents x.

Definition spec_push (f : OpenFile) (sp : Spec) : Answer * Spec :=
  (Opened (inr (length (sp_open sp))), mkSpec (sp_names sp) (sp_contents sp) (sp_next sp) (sp_open sp ++ [Some f])).
Definition spec_open (impl : Z -> OpenFile) (fname : bytes) (sp : Spec) : Answer * Spec :=
  match map_find fname (sp_names sp) with None => (Opened (inl (no_file fname)), sp) | Some a => spec_push (impl a) sp end.
(** A file of that name, empty if it is new. *)
Definition spec_make (fname : bytes) (sp : Spec) : Z * Spec :=
  match map_find fname (sp_names sp) with
  | None => (sp_next sp, mkSpec (map_set fname (sp_next sp) (sp_names sp)) (update (sp_next sp) [] (sp_contents sp)) (sp_next sp + 1) (sp_open sp))
  | Some a => (a, sp)
  end.
Definition spec_write (a : Z) (b : bytes) (sp : Spec) : Spec := mkSpec (sp_names sp) (update a b (sp_contents sp)) (sp_next sp) (sp_open sp).
Definition spec_names (l : list (bytes * Z)) (sp : Spec) : Spec := mkSpec l (sp_contents sp) (sp_next sp) (sp_open sp).
Definition spec_file (i : nat) (f : option OpenFile) (sp : Spec) : Spec := mkSpec (sp_names sp) (sp_contents sp) (sp_next sp) (<[i := f]> (sp_open sp)).

Definition spec_read (b : bytes) (offset n : Z) : Status * option bytes :=
  if offset >? zlen b then (IOError (cstr "Offset greater than file size.") [], None) else (OK, Some (take (Z.to_nat n) (drop (Z.to_nat offset) b))).

Definition spec_exec (op : Op) (sp : Spec) : option (Answer * Spec) :=
  let file i := f ← sp_open sp !! i; f in
  match op with
  | DoNewSequentialFile fname => Some (spec_open (fun a => SequentialFileImpl a 0) fname sp)
  | DoNewRandomAccessFile fname => Some (spec_open RandomAccessFileImpl fname sp)
  | DoNewWritableFile fname => let '(a, sp) := spec_make fname sp in Some (spec_push (WritableFileImpl a) (spec_write a [] sp))
  | DoNewAppendableFile fname => let '(a, sp) := spec_make fname sp in Some (spec_push (WritableFileImpl a) sp)
  | DoFileExists fname => Some (Exists (bool_decide (is_Some (map_find fname (sp_names sp)))), sp)
  | DoGetChildren dir => Some (Names (omap (fun p => child_name dir p.1) (sp_names sp)), sp)
  | DoRemoveFile fname =>
      Some (match map_find fname (sp_names sp) with
            | None => (Done (no_file fname), sp)
            | Some _ => (Done OK, spec_names (map_erase fname (sp_names sp)) sp)
            end)
  | DoCreateDir _ | DoRemoveDir _ => Some (Done OK, sp)
  | DoGetFileSize fname => Some (HasSize (match map_find fname (sp_names sp) with None => inl (no_file fname) | Some a => inr (zlen (sp_contents sp a)) end), sp)
  | DoRenameFile src target =>
      Some (match map_find src (sp_names sp) with
            | None => (Done (no_file src), sp)
            | Some a => (Done OK, spec_names (map_erase src (map_set target a (sp_names sp))) sp)
            end)
  | DoRead i n =>
      match file i with
      | Some (SequentialFileImpl a pos) =>
          let '(s, r) := spec_read (sp_contents sp a) pos n in
          Some (Bytes s r, spec_file i (Some (SequentialFileImpl a (pos + zlen (default [] r)))) sp)
      | _ => None
      end
  | DoSkip i n =>
      match file i with
      | Some (SequentialFileImpl a pos) =>
          Some (if pos >? zlen (sp_contents sp a) then (Done (IOError (cstr "pos_ > file_->Size()") []), sp)
                else (Done OK, spec_file i (Some (SequentialFileImpl a (Z.min (pos + n) (zlen (sp_contents sp a))))) sp))
      | _ => None
      end
  | DoReadAt i offset n =>
      match file i with
      | Some (RandomAccessFileImpl a) => let '(s, r) := spec_read (sp_contents sp a) offset n in Some (Bytes s r, sp)
      | _ => None
      end
  | DoAppend i data =>
      match file i with
      | Some (WritableFileImpl a) => Some (Done OK, spec_write a (sp_contents sp a ++ data) sp)
      | _ => None
      end
  | DoClose i | DoFlush i | DoSync i => match file i with Some (WritableFileImpl _) => Some (Done OK, sp) | _ => None end
  | DoDelete i => _ ← file i; Some (Done OK, spec_file i None sp)
  end.

(** What the environment does: an appendable file has to exist, a file is renamed to
    another name, and files and arguments are below 2^64. *)
Definition supported (op : Op) (sp : Spec) : bool :=
  match op with
  | DoNewAppendableFile fname => bool_decide (is_Some (map_find fname (sp_names sp)))
  | DoRenameFile src target => negb (bool_decide (src = target))
  | DoRead _ n | DoSkip _ n => 0 <=? n
  | DoReadAt _ offset n => (0 <=? offset) && (0 <=? n)
  | DoAppend i data =>
      match sp_open sp !! i with
      | Some (Some (WritableFileImpl a)) => zlen (sp_contents sp a) + zlen data <? 2 ^ 64
      | _ => true
      end
  | _ => true
  end.

Fixpoint spec_run (ops : list Op) (sp : Spec) : option (list Answer * Spec) :=
  match ops with
  | [] => Some ([], sp)
  | op :: ops =>
      if supported op sp then '(a, sp) ← spec_exec op sp; '(l, sp) ← spec_run ops sp; Some (a :: l, sp)
      else None
  end.

(** ** Names *)

Section Names.
Context {A : Type}.
Implicit Types (m : list (bytes * A)) (f g : bytes).
Notation cmp := (Compare (Comparator := BytewiseComparator)).

Lemma cmp_eq f g : cmp f g = Eq -> f = g.
Proof. apply bytewise_Compare_eq. Qed.

Lemma find_elem f m x : map_find f m = Some x -> (f, x) ∈ m.
Proof.
  unfold map_find. destruct (List.find _ m) as [[g y]|] eqn:E; [|done]. intros [= <-]. apply find_some in E as [Hin Hk].
  apply bool_decide_eq_true in Hk. cbn in Hk. subst g. by apply list_elem_of_In.
Qed.

Lemma find_cons f g y m : map_find f ((g, y) :: m) = if decide (g = f) then Some y else map_find f m.
Proof. unfold map_find. cbn. by destruct (decide (g = f)) as [->|Hne]; [rewrite bool_decide_true|rewrite bool_decide_false]. Qed.

Lemma erase_cons f g y m : map_erase f ((g, y) :: m) = if decide (g = f) then map_erase f m else (g, y) :: map_erase f m.
Proof. unfold map_erase. cbn. by destruct (decide (g = f)) as [->|Hne]; [rewrite bool_decide_true|rewrite bool_decide_false]. Qed.

Lemma erase_elem f m p : p ∈ map_erase f m <-> p ∈ m /\ p.1 <> f.
Proof. unfold map_erase. rewrite !list_elem_of_In, filter_In, negb_true_iff, bool_decide_eq_false. done. Qed.

Lemma sorted_tail f x m : names_sorted ((f, x) :: m) -> map_erase f m = m /\ map_find f m = None.
Proof.
  intros [_ Hs]%StronglySorted_inv. induction m as [|[g y] m IH]; [done|]. apply Forall_cons in Hs as [Hg Hs]. cbn [fst] in Hg.
  destruct (IH Hs) as [IH1 IH2]. rewrite find_cons, erase_cons. destruct (decide (g = f)) as [->|]; [by rewrite Compare_refl in Hg|]. by rewrite IH1, IH2.
Qed.

Lemma find_erase f m x : names_sorted m -> map_find f m = Some x -> map snd m ≡ₚ x :: map snd (map_erase f m).
Proof.
  induction m as [|[g y] m IH]; [done|]. intros Hs. rewrite find_cons, erase_cons. destruct (decide (g = f)) as [->|].
  - intros [= ->]. by rewrite (proj1 (sorted_tail f x m Hs)).
  - intros Hf. apply StronglySorted_inv in Hs as [Hs _]. cbn [map snd]. rewrite (IH Hs Hf). constructor.
Qed.

Lemma find_none_erase f m : map_find f m = None -> map_erase f m = m.
Proof. induction m as [|[g y] m IH]; [done|]. rewrite find_cons, erase_cons. destruct (decide (g = f)); [done|]. intros Hf. by rewrite IH. Qed.

Lemma erase_find_other f g m : f <> g -> map_find f (map_erase g m) = map_find f m.
Proof.
  intros Hne. induction m as [|[h y] m IH]; [done|]. rewrite erase_cons, find_cons. destruct (decide (h = g)) as [->|].
  - rewrite IH, decide_False; [done|congruence].
  - rewrite find_cons, IH. done.
Qed.

Lemma erase_sorted f m : names_sorted m -> names_sorted (map_erase f m).
Proof. apply StronglySorted_filter. Qed.

Lemma set_elem f x m p : p ∈ map_set f x m -> p = (f, x) \/ p ∈ m.
Proof.
  induction m as [|[g y] m IH]; cbn [map_set]; [intros ->%list_elem_of_singleton; by left|].
  destruct (cmp f g); rewrite !elem_of_cons; naive_solver.
Qed.

Lemma set_sorted f x m : names_sorted m -> names_sorted (map_set f x m).
Proof.
  induction m as [|[g y] m IH]; intros Hs; [by repeat constructor|]. cbn [map_set CompOpp]. pose proof Hs as [Hs' Hg]%StronglySorted_inv. destruct (cmp f g) eqn:Ec.
  - apply cmp_eq in Ec as ->. by constructor.
  - constructor; [done|]. constructor; [done|]. eapply Forall_impl; [exact Hg|]. intros p Hp. cbn [fst] in *. by eapply Compare_lt_trans.
  - constructor; [by apply IH|]. rewrite Forall_forall in *. intros p [->|Hp]%set_elem; [|by apply Hg]. cbn [fst]. by rewrite Compare_antisym, Ec.
Qed.

Lemma set_find f g x m : names_sorted m -> map_find g (map_set f x m) = if decide (f = g) then Some x else map_find g m.
Proof.
  induction m as [|[h y] m IH]; intros Hs; cbn [map_set]; [by rewrite find_cons|]. pose proof Hs as [Hs' _]%StronglySorted_inv. destruct (cmp f h) eqn:Ec; rewrite !find_cons.
  - apply cmp_eq in Ec as ->. by destruct (decide (h = g)).
  - done.
  - rewrite IH by done. destruct (decide (f = g)) as [->|], (decide (h = g)) as [->|]; try done. by rewrite Compare_refl in Ec.
Qed.

Lemma set_new f x m : map_find f m = None -> map snd (map_set f x m) ≡ₚ x :: map snd m.
Proof.
  induction m as [|[g y] m IH]; [done|]. rewrite find_cons. destruct (decide (g = f)); [done|]. intros Hf. cbn [map_set CompOpp]. destruct (cmp f g) eqn:Ec; [by apply cmp_eq in Ec as ->|done|].
  cbn [map snd]. rewrite (IH Hf). constructor.
Qed.

Lemma set_same f x m : names_sorted m -> map_find f m = Some x -> map_set f x m = m.
Proof.
  induction m as [|[g y] m IH]; [done|]. intros Hs. rewrite find_cons. destruct (decide (g = f)) as [->|].
  - intros [= ->]. cbn [map_set CompOpp]. by rewrite Compare_refl.
  - intros Hf. pose proof Hs as [Hs' Hg]%StronglySorted_inv. cbn [map_set CompOpp]. rewrite Forall_forall in Hg. pose proof (Hg _ (find_elem _ _ _ Hf)) as Hlt. cbn [fst] in Hlt.
    rewrite Compare_antisym, Hlt. cbn [map_set CompOpp]. by rewrite IH.
Qed.

Lemma set_erase f x m : names_sorted m -> map_set f x (map_erase f m) = map_set f x m.
Proof.
  induction m as [|[g y] m IH]; [done|]. intros Hs. pose proof Hs as [Hs' Hg]%StronglySorted_inv. rewrite erase_cons. destruct (decide (g = f)) as [->|].
  - rewrite (proj1 (sorted_tail f y m Hs)). cbn [map_set CompOpp]. rewrite Compare_refl. destruct m as [|[h z] m]; [done|]. cbn [map_set CompOpp]. apply Forall_cons in Hg as [Hh _]. cbn [fst] in Hh. by rewrite Hh.
  - cbn [map_set CompOpp]. destruct (cmp f g) eqn:Ec; [by apply cmp_eq in Ec as ->| |by rewrite IH]. f_equal. f_equal. apply find_none_erase.
    destruct (map_find f m) as [z|] eqn:Ef; [|done]. apply find_elem in Ef. rewrite Forall_forall in Hg. specialize (Hg _ Ef). cbn [fst] in Hg.
    rewrite Compare_antisym, Hg in Ec. done.
Qed.
End Names.

(** The names of the environment, as pointers. *)
Definition pointers (m : list (bytes * Z)) : list (bytes * option Z) := map (fun p => (p.1, Some p.2)) m.

Lemma pointers_find f m : map_find f (pointers m) = Some <$> map_find f m.
Proof. induction m as [|[g y] m IH]; [done|]. change (pointers ((g, y) :: m)) with ((g, Some y) :: pointers m). rewrite !find_cons. by destruct (decide (g = f)). Qed.

Lemma pointers_set f x m : map_set f (Some x) (pointers m) = pointers (map_set f x m).
Proof. induction m as [|[g y] m IH]; [done|]. cbn [pointers map map_set fst snd]. destruct (Compare f g); [done|done|]. cbn [map fst snd]. f_equal. exact IH. Qed.

Lemma pointers_erase f m : map_erase f (pointers m) = pointers (map_erase f m).
Proof. induction m as [|[g y] m IH]; [done|]. change (pointers ((g, y) :: m)) with ((g, Some y) :: pointers m). rewrite !erase_cons. destruct (decide (g = f)); [done|]. by rewrite IH. Qed.

(** ** The heap *)

(** [us] are the references to files, of names and of open files. *)
Definition references (x : Z) (us : list Z) : Z := zlen (List.filter (Z.eqb x) us).

(** A file is there as long as something refers to it; its count is the number of the
    references, and it holds its contents. *)
Record heap_ok (h : gmap Z FileState) (contents : Z -> bytes) (next : Z) (us : list Z) : Prop := {
  ho_file : forall x fs, h !! x = Some fs -> holds_bytes fs (contents x) /\ zlen (contents x) < 2 ^ 64 /\ refs_ fs = references x us /\ 0 < refs_ fs /\ x < next;
  ho_live : forall x, x ∈ us -> is_Some (h !! x);
}.

Lemma references_cons x y us : references x (y :: us) = (if x =? y then 1 else 0) + references x us.
Proof. unfold references, zlen. cbn. destruct (x =? y); cbn [length]; lia. Qed.

Lemma references_pos x us : x ∈ us <-> 0 < references x us.
Proof.
  unfold references, zlen. split.
  - intros Hx. assert (Hf : x ∈ List.filter (Z.eqb x) us) by (apply list_elem_of_In, filter_In; split; [by apply list_elem_of_In|apply Z.eqb_refl]).
    destruct (List.filter _ us); [by apply elem_of_nil in Hf|cbn; lia].
  - destruct (List.filter (Z.eqb x) us) as [|y l] eqn:E; [cbn; lia|]. intros _. assert (Hy : In y (List.filter (Z.eqb x) us)) by (rewrite E; by left).
    apply filter_In in Hy as [Hy ->%Z.eqb_eq]. by apply list_elem_of_In.
Qed.

Lemma references_nonneg x us : 0 <= references x us.
Proof. apply zlen_nonneg. Qed.

#[export] Instance references_proper x : Proper ((≡ₚ) ==> eq) (references x).
Proof.
  intros us us' Hp. induction Hp as [|y us us' Hp IH|y z us|us us' us'' _ IH1 _ IH2]; [done|by rewrite !references_cons, IH|rewrite !references_cons; lia|by rewrite IH1].
Qed.

#[export] Instance heap_ok_proper h contents next : Proper ((≡ₚ) ==> iff) (heap_ok h contents next).
Proof.
  intros us us' Hp. split; (intros [H1 H2]; split; [intros x fs Hx; by (rewrite <- Hp || rewrite Hp); apply H1|intros x Hx; apply H2; by (rewrite Hp || rewrite <- Hp)]).
Qed.

Lemma heap_empty h contents next : heap_ok h contents next [] -> h = ∅.
Proof. intros [H1 _]. apply map_empty. intros x. destruct (h !! x) as [fs|] eqn:E; [|done]. destruct (H1 x fs E) as (_ & _ & Hr & Hp & _). rewrite Hr in Hp. by vm_compute in Hp. Qed.

Section Heap.
Context (h : gmap Z FileState) (contents : Z -> bytes) (next : Z) (us : list Z) (Hok : heap_ok h contents next us).

Lemma Ref_ok x : x ∈ us -> exists h', Ref x h = Some h' /\ heap_ok h' contents next (x :: us).
Proof.
  intros Hx. destruct (ho_live _ _ _ _ Hok x Hx) as [fs E]. unfold Ref. rewrite E. cbn [mbind option_bind]. eexists. split; [done|]. split.
  - intros y fs'. destruct (ho_file _ _ _ _ Hok x fs E) as (F1 & F2 & F3 & F4 & F5). rewrite lookup_insert_Some, references_cons. intros [[<- <-]|[Hne Ey]].
    + rewrite Z.eqb_refl. cbn [refs_ with_refs]. split; [by apply refs_hold|]. split; [done|]. lia.
    + rewrite (proj2 (Z.eqb_neq y x)) by congruence. exact (ho_file _ _ _ _ Hok y fs' Ey).
  - intros y [->|Hy]%elem_of_cons; rewrite lookup_insert_is_Some; [by left|]. destruct (decide (x = y)); [by left|right]. split; [done|]. by apply (ho_live _ _ _ _ Hok).
Qed.

(** A new file, with its first reference. *)
Lemma new_ok : heap_ok (<[next := with_refs 1 FileState_new]> h) (update next [] contents) (next + 1) (next :: us).
Proof.
  assert (Hno : next ∉ us) by (intros Hx; destruct (ho_live _ _ _ _ Hok next Hx) as [fs E]; destruct (ho_file _ _ _ _ Hok next fs E) as (_ & _ & _ & _ & ?); lia).
  split.
  - intros y fs. rewrite lookup_insert_Some, references_cons. unfold update. intros [[<- <-]|[Hne Ey]].
    + rewrite Z.eqb_refl. assert (E0 : references next us = 0) by (pose proof (references_nonneg next us); destruct (Z.lt_total 0 (references next us)) as [Hlt|[?|?]]; [by apply references_pos in Hlt|lia..]).
      rewrite E0. split; [apply new_holds|]. split; [done|]. cbn [refs_ with_refs]. lia.
    + rewrite !(proj2 (Z.eqb_neq y next)) by congruence. destruct (ho_file _ _ _ _ Hok y fs Ey) as (F1 & F2 & F3 & F4 & F5). do 4 (split; [done|]). lia.
  - intros y [->|Hy]%elem_of_cons; rewrite lookup_insert_is_Some; [by left|]. right. split; [by intros ->|]. by apply (ho_live _ _ _ _ Hok).
Qed.

(** A file that changes. *)
Lemma write_ok x fs fs' b : h !! x = Some fs -> holds_bytes fs' b -> zlen b < 2 ^ 64 -> refs_ fs' = refs_ fs -> heap_ok (<[x := fs']> h) (update x b contents) next us.
Proof.
  intros E Hb Hz Hr. split.
  - intros y fs1. rewrite lookup_insert_Some. unfold update. destruct (ho_file _ _ _ _ Hok x fs E) as (_ & _ & F3 & F4 & F5). intros [[<- <-]|[Hne Ey]].
    + rewrite Z.eqb_refl, Hr. done.
    + rewrite (proj2 (Z.eqb_neq y x)) by congruence. exact (ho_file _ _ _ _ Hok y fs1 Ey).
  - intros y Hy. rewrite lookup_insert_is_Some. destruct (decide (x = y)); [by left|right]. split; [done|]. by apply (ho_live _ _ _ _ Hok).
Qed.
End Heap.

Lemma Unref_ok h contents next x us : heap_ok h contents next (x :: us) -> exists h', Unref x h = Some h' /\ heap_ok h' contents next us.
Proof.
  intros Hok. destruct (ho_live _ _ _ _ Hok x ltac:(by left)) as [fs E]. destruct (ho_file _ _ _ _ Hok x fs E) as (F1 & F2 & F3 & F4 & F5).
  unfold Unref. rewrite E. cbn [mbind option_bind]. rewrite references_cons, Z.eqb_refl in F3. pose proof (references_nonneg x us) as Hn.
  rewrite (proj2 (Z.ltb_ge _ _)) by lia. eexists. split; [done|].
  assert (Hother : forall y fs', x <> y -> h !! y = Some fs' -> holds_bytes fs' (contents y) /\ zlen (contents y) < 2 ^ 64 /\ refs_ fs' = references y us /\ 0 < refs_ fs' /\ y < next).
  { intros y fs' Hne Ey. pose proof (ho_file _ _ _ _ Hok y fs' Ey) as Hy. by rewrite references_cons, (proj2 (Z.eqb_neq y x)) in Hy by congruence. }
  destruct (Z.leb_spec (refs_ fs - 1) 0) as [Hle|Hgt]; split.
  - intros y fs'. rewrite lookup_delete_Some. intros [Hne Ey]. by apply Hother.
  - intros y Hy. destruct (decide (x = y)) as [<-|Hne]; [apply references_pos in Hy; lia|]. rewrite lookup_delete_ne by done. apply (ho_live _ _ _ _ Hok). by right.
  - intros y fs'. rewrite lookup_insert_Some. intros [[<- <-]|[Hne Ey]]; [|by apply Hother]. cbn [refs_ with_refs]. split; [by apply refs_hold|]. split; [done|]. lia.
  - intros y Hy. rewrite lookup_insert_is_Some. destruct (decide (x = y)); [by left|right]. split; [done|]. apply (ho_live _ _ _ _ Hok). by right.
Qed.

(** ** Refinement *)

Definition files_of (l : list (option OpenFile)) : list Z := omap (fun o => file_of <$> o) l.
Definition users (sp : Spec) : list Z := map snd (sp_names sp) ++ files_of (sp_open sp).

Lemma files_of_insert l i f o : l !! i = Some (Some f) -> file_of f :: files_of (<[i := o]> l) ≡ₚ from_option (fun f => [file_of f]) [] o ++ files_of l.
Proof.
  intros E. unfold files_of. rewrite <- (take_drop_middle l i (Some f) E) at 2. rewrite insert_take_drop by by eapply lookup_lt_Some. rewrite !omap_app.
  destruct o; cbn; solve_Permutation.
Qed.

Lemma files_of_elem l i f : l !! i = Some (Some f) -> file_of f ∈ files_of l.
Proof. intros E. apply list_elem_of_omap. exists (Some f). split; [by eapply list_elem_of_lookup_2|done]. Qed.

Record refines (m : Mem) (sp : Spec) : Prop := {
  rf_names : file_map_ (m_env m) = pointers (sp_names sp);
  rf_open : m_open m = sp_open sp;
  rf_next : next_addr (m_env m) = sp_next sp;
  rf_sorted : names_sorted (sp_names sp);
  rf_heap : heap_ok (heap (m_env m)) (sp_contents sp) (sp_next sp) (users sp);
  rf_pos : forall a pos, Some (SequentialFileImpl a pos) ∈ sp_open sp -> 0 <= pos;
}.

Lemma Mem_new_refines : refines Mem_new Spec_new.
Proof. split; try done; [apply SSorted_nil|split; [intros x fs; cbn [m_env Mem_new heap]; by rewrite lookup_empty|by intros x ?%elem_of_nil]|by intros a pos ?%elem_of_nil]. Qed.

Lemma opened_refines f m sp h :
  file_map_ (m_env m) = pointers (sp_names sp) -> m_open m = sp_open sp -> next_addr (m_env m) = sp_next sp -> names_sorted (sp_names sp) ->
  (forall a pos, Some (SequentialFileImpl a pos) ∈ sp_open sp -> 0 <= pos) -> (forall a pos, f = SequentialFileImpl a pos -> 0 <= pos) ->
  heap_ok h (sp_contents sp) (sp_next sp) (file_of f :: users sp) ->
  refines (mkMem (with_heap h (m_env m)) (m_open m ++ [Some f])) (spec_push f sp).2 /\ (spec_push f sp).1 = Opened (inr (length (m_open m))).
Proof.
  intros H1 H2 H3 H4 H5 H6 H7. split; [|by rewrite H2]. split; cbn; [done|by rewrite H2|done|done| |].
  - revert H7. unfold users, files_of. cbn. rewrite omap_app. cbn. apply heap_ok_proper. solve_Permutation.
  - intros a pos [Hin|Hin%list_elem_of_singleton]%elem_of_app; [by eapply H5|]. apply (H6 a). congruence.
Qed.

Section Step.
Context (m : Mem) (sp : Spec) (Hr : refines m sp).
Notation e := (m_env m).

Lemma find_name f : map_find f (file_map_ e) = Some <$> map_find f (sp_names sp).
Proof. rewrite (rf_names _ _ Hr). apply pointers_find. Qed.

Lemma name_user f a : map_find f (sp_names sp) = Some a -> a ∈ users sp.
Proof. intros Hf. apply elem_of_app. left. apply list_elem_of_fmap. exists (f, a). split; [done|by apply find_elem]. Qed.

Lemma name_file f a : map_find f (sp_names sp) = Some a -> exists fs, heap e !! a = Some fs /\ holds_bytes fs (sp_contents sp a) /\ zlen (sp_contents sp a) < 2 ^ 64.
Proof.
  intros Hf. destruct (ho_live _ _ _ _ (rf_heap _ _ Hr) a (name_user f a Hf)) as [fs E]. destruct (ho_file _ _ _ _ (rf_heap _ _ Hr) a fs E) as (H1 & H2 & _). by exists fs.
Qed.

Lemma open_user i f : sp_open sp !! i = Some (Some f) -> file_of f ∈ users sp.
Proof. intros E. apply elem_of_app. right. by eapply files_of_elem. Qed.

Lemma open_heap i f : sp_open sp !! i = Some (Some f) -> exists fs, heap e !! file_of f = Some fs /\ holds_bytes fs (sp_contents sp (file_of f)) /\ zlen (sp_contents sp (file_of f)) < 2 ^ 64.
Proof.
  intros Hf. destruct (ho_live _ _ _ _ (rf_heap _ _ Hr) _ (open_user i f Hf)) as [fs E]. destruct (ho_file _ _ _ _ (rf_heap _ _ Hr) _ fs E) as (H1 & H2 & _). by exists fs.
Qed.

(** An existing file. *)
Lemma open_existing_refines impl f : (forall a, file_of (impl a) = a) -> (forall a b pos, impl a = SequentialFileImpl b pos -> 0 <= pos) ->
  exists r, open_existing impl f e = Some r /\ (opened_existing r m).1 = (spec_open impl f sp).1 /\ refines (opened_existing r m).2 (spec_open impl f sp).2.
Proof.
  intros Hi Hp. unfold open_existing, spec_open. rewrite find_name. destruct (map_find f (sp_names sp)) as [a|] eqn:Ef; cbn [fmap option_fmap option_map mbind option_bind].
  - unfold open_file. rewrite Hi. destruct (Ref_ok _ _ _ _ (rf_heap _ _ Hr) a (name_user f a Ef)) as (h' & -> & Hh). cbn [mbind option_bind].
    destruct (opened_refines (impl a) m sp h' (rf_names _ _ Hr) (rf_open _ _ Hr) (rf_next _ _ Hr) (rf_sorted _ _ Hr) (rf_pos _ _ Hr) (Hp a) ltac:(by rewrite Hi)) as [H1 H2].
    eexists. split; [done|]. split; [exact (eq_sym H2)|exact H1].
  - eexists. split; [done|]. split; [done|]. cbn. destruct m, Hr. by split.
Qed.
(** What a call has to do. *)
Definition step_refines (op : Op) : Prop := forall a sp', spec_exec op sp = Some (a, sp') -> exists m', exec op m = Some (a, m') /\ refines m' sp'.

Lemma same_refines : refines (mkMem e (m_open m)) sp.
Proof. destruct m, Hr. by split. Qed.

Lemma open_step (impl : Z -> OpenFile) f op : (forall a, file_of (impl a) = a) -> (forall a b pos, impl a = SequentialFileImpl b pos -> 0 <= pos) ->
  spec_exec op sp = Some (spec_open impl f sp) -> exec op m = (r ← open_existing impl f e; Some (opened_existing r m)) -> step_refines op.
Proof.
  intros Hi Hp Es Ee a sp'. rewrite Es, Ee. intros [= Ea]. destruct (open_existing_refines impl f Hi Hp) as (r & -> & H1 & H2). cbn [mbind option_bind].
  rewrite Ea in H1, H2. destruct (opened_existing r m) as [a1 m1]. cbn [fst snd] in *. subst a1. by exists m1.
Qed.

(** A file that is opened for writing. *)
Lemma push_step sp1 m1 a0 : refines m1 sp1 -> a0 ∈ users sp1 -> m_open m1 = m_open m -> forall a sp', spec_push (WritableFileImpl a0) sp1 = (a, sp') ->
  exists m', ('(f, e) ← open_file (WritableFileImpl a0) (m_env m1); Some (opened f e m)) = Some (a, m') /\ refines m' sp'.
Proof.
  intros H1 Hin Ho a sp' Es. unfold open_file. cbn [file_of]. destruct (Ref_ok _ _ _ _ (rf_heap _ _ H1) a0 Hin) as (h' & -> & Hh). cbn [mbind option_bind].
  destruct (opened_refines (WritableFileImpl a0) m1 sp1 h' (rf_names _ _ H1) (rf_open _ _ H1) (rf_next _ _ H1) (rf_sorted _ _ H1) (rf_pos _ _ H1) ltac:(done) Hh) as [H2 H3].
  rewrite Es in H2, H3. cbn in H3. subst a. rewrite Ho in *. eexists. split; [done|exact H2].
Qed.

Lemma write_refines fs' a0 fs b : heap e !! a0 = Some fs -> holds_bytes fs' b -> zlen b < 2 ^ 64 -> refs_ fs' = refs_ fs ->
  refines (mkMem (with_heap (<[a0 := fs']> (heap e)) e) (m_open m)) (spec_write a0 b sp).
Proof.
  intros E Hb Hz Hf. destruct Hr as [R1 R2 R3 R4 R5 R6]. split; try done. exact (write_ok _ _ _ _ R5 a0 fs fs' b E Hb Hz Hf).
Qed.

Lemma writable_step f : step_refines (DoNewWritableFile f).
Proof.
  intros a sp' Es. cbn [spec_exec exec] in *. unfold spec_make in Es. unfold NewWritableFile. rewrite find_name.
  destruct (map_find f (sp_names sp)) as [a0|] eqn:Ef; cbn [fmap option_fmap option_map mbind option_bind].
  - apply (inj Some) in Es. destruct (name_file f a0 Ef) as (fs & E & _). rewrite E. cbn [mbind option_bind].
    pose proof (write_refines (Truncate fs) a0 fs [] E (new_holds _) ltac:(done) eq_refl) as H1.
    destruct (push_step _ _ a0 H1 (name_user f a0 Ef) eq_refl a sp' Es) as (m' & E1 & H2). exists m'. split; [|exact H2]. exact E1.
  - apply (inj Some) in Es. unfold Ref. cbn [heap new_FileState]. rewrite lookup_insert_eq. cbn [mbind option_bind]. rewrite insert_insert_eq.
    set (sp1 := spec_write _ _ _) in Es. set (e1 := with_file_map _ _).
    assert (H1 : refines (mkMem e1 (m_open m)) sp1).
    { destruct Hr as [R1 R2 R3 R4 R5 R6]. split; cbn; [by rewrite R1, R3, pointers_set|done|by rewrite R3|by apply set_sorted| |done].
      rewrite R3. unfold users. cbn. rewrite set_new by done. pose proof (new_ok _ _ _ _ R5) as Hn. destruct Hn as [N1 N2]. split; [|exact N2].
      intros x fs Hx. destruct (N1 x fs Hx) as (F1 & F2 & F3). unfold update in *. by destruct (x =? sp_next sp). }
    rewrite (rf_next _ _ Hr) in *. assert (Hin : sp_next sp ∈ users sp1).
    { apply elem_of_app. left. cbn. rewrite set_new by done. by left. }
    destruct (push_step _ _ _ H1 Hin eq_refl a sp' Es) as (m' & E1 & H2). exists m'. split; [|exact H2]. exact E1.
Qed.

Lemma appendable_step f : is_Some (map_find f (sp_names sp)) -> step_refines (DoNewAppendableFile f).
Proof.
  intros [a0 Ef] a sp' Es. cbn [spec_exec exec] in *. unfold spec_make in Es. unfold NewAppendableFile. rewrite find_name, Ef in *. apply (inj Some) in Es.
  change (default None (Some <$> Some a0)) with (Some a0). rewrite (rf_names _ _ Hr), pointers_set, set_same by (done || exact (rf_sorted _ _ Hr)).
  destruct (push_step sp _ a0 same_refines (name_user f a0 Ef) eq_refl a sp' Es) as (m' & E1 & H2). exists m'. split; [|exact H2].
  cbn [mbind option_bind]. rewrite <- (rf_names _ _ Hr). destruct m as [[? ? ?] ?]. exact E1.
Qed.

(** Names go. *)
Lemma remove_refines f : exists e', RemoveFileInternal f e = Some e' /\ refines (mkMem e' (m_open m)) (spec_names (map_erase f (sp_names sp)) sp).
Proof.
  unfold RemoveFileInternal. rewrite find_name. destruct (map_find f (sp_names sp)) as [a0|] eqn:Ef; cbn [fmap option_fmap option_map mbind option_bind].
  - destruct Hr as [R1 R2 R3 R4 R5 R6]. pose proof (find_erase f (sp_names sp) a0 R4 Ef) as Hp.
    assert (Hu : users sp ≡ₚ a0 :: users (spec_names (map_erase f (sp_names sp)) sp)) by (unfold users; cbn; by rewrite Hp). rewrite Hu in R5.
    destruct (Unref_ok _ _ _ _ _ R5) as (h' & -> & Hh). cbn [mbind option_bind]. eexists. split; [done|]. split; cbn; [by rewrite R1, pointers_erase|done|done|by apply erase_sorted|exact Hh|done].
  - eexists. split; [done|]. rewrite find_none_erase by done. destruct m as [? ?], sp, Hr. by split.
Qed.

Lemma remove_step f : step_refines (DoRemoveFile f).
Proof.
  intros a sp' Es. cbn [spec_exec exec] in *. apply (inj Some) in Es. unfold RemoveFile. rewrite find_name. destruct (remove_refines f) as (e' & E1 & H1).
  destruct (map_find f (sp_names sp)) as [a0|]; cbn [fmap option_fmap option_map]; injection Es as <- <-.
  - rewrite E1. cbn [mbind option_bind]. eexists. split; [done|exact H1].
  - cbn [mbind option_bind]. eexists. split; [done|exact same_refines].
Qed.

Lemma rename_step src target : src <> target -> step_refines (DoRenameFile src target).
Proof.
  intros Hne a sp' Es. cbn [spec_exec exec] in *. apply (inj Some) in Es. unfold RenameFile. rewrite find_name. destruct (remove_refines target) as (e' & E1 & H1).
  destruct (map_find src (sp_names sp)) as [a0|] eqn:Ef; cbn [fmap option_fmap option_map]; injection Es as <- <-.
  2: { cbn [mbind option_bind]. eexists. split; [done|exact same_refines]. }
  rewrite E1. cbn [mbind option_bind]. pose proof (rf_sorted _ _ Hr) as Hs. pose proof (erase_sorted target _ Hs) as Hs1.
  destruct H1 as [R1 R2 R3 R4 R5 R6]. cbn [m_env m_open] in *. rewrite R1, pointers_find. cbn [spec_names sp_names] in *. rewrite erase_find_other, Ef by done.
  change (default None (Some <$> Some a0)) with (Some a0). rewrite pointers_set, pointers_erase, set_erase by done. eexists. split; [done|].
  split; cbn; [done|done|done|by apply erase_sorted, set_sorted| |done]. revert R5. apply heap_ok_proper. unfold users. cbn. f_equiv.
  assert (Ha : map_find src (map_set target a0 (sp_names sp)) = Some a0) by (rewrite set_find by done; rewrite decide_False; done).
  pose proof (find_erase src _ a0 (set_sorted target a0 _ Hs) Ha) as Hp. rewrite <- (set_erase target a0) in Hp at 1 by done.
  rewrite set_new in Hp; [by apply Permutation_cons_inv in Hp|]. destruct (map_find target (map_erase target (sp_names sp))) as [b|] eqn:Eb; [|done].
  by apply find_elem, erase_elem in Eb as [_ ?].
Qed.

Lemma size_step f : step_refines (DoGetFileSize f).
Proof.
  intros a sp' Es. cbn [spec_exec exec] in *. apply (inj Some) in Es. unfold GetFileSize. rewrite find_name.
  destruct (map_find f (sp_names sp)) as [a0|] eqn:Ef; cbn [fmap option_fmap option_map]; injection Es as <- <-.
  - destruct (name_file f a0 Ef) as (fs & E & Hb & _). cbn [mbind option_bind]. rewrite E. cbn [mbind option_bind]. unfold Size. rewrite (hb_size _ _ Hb). by exists m.
  - by exists m.
Qed.

Lemma exists_step f : step_refines (DoFileExists f).
Proof.
  intros a sp' Es. cbn [spec_exec exec] in *. apply (inj Some) in Es. injection Es as <- <-. exists m. split; [|done]. unfold FileExists. rewrite find_name. do 3 f_equal.
  apply bool_decide_ext. by rewrite fmap_is_Some.
Qed.

Lemma children_step dir : step_refines (DoGetChildren dir).
Proof.
  intros a sp' Es. cbn [spec_exec exec] in *. apply (inj Some) in Es. injection Es as <- <-. exists m. split; [|done]. unfold GetChildren. rewrite (rf_names _ _ Hr). do 3 f_equal.
  induction (sp_names sp) as [|[g x] l IH]; [done|]. cbn. destruct (child_name dir g); [f_equal|]; exact IH.
Qed.

(** *** Open files *)

Lemma move_refines i f f' : sp_open sp !! i = Some (Some f) -> file_of f' = file_of f -> (forall a pos, f' = SequentialFileImpl a pos -> 0 <= pos) ->
  refines (with_open i (Some f') m) (spec_file i (Some f') sp).
Proof.
  intros E Hf Hp. destruct Hr as [R1 R2 R3 R4 R5 R6]. split; cbn; [done|by rewrite R2|done|done| |].
  - revert R5. apply heap_ok_proper. unfold users. cbn. f_equiv. pose proof (files_of_insert _ i f (Some f') E) as Hi. cbn in Hi. rewrite Hf in Hi. by apply Permutation_cons_inv in Hi.
  - intros a pos [j Hj]%list_elem_of_lookup. rewrite list_lookup_insert_Some in Hj. destruct Hj as [(-> & Hj & _)|[_ Hj]]; [apply (Hp a); congruence|].
    apply (R6 a). by eapply list_elem_of_lookup_2.
Qed.

Lemma open_pos i a pos : sp_open sp !! i = Some (Some (SequentialFileImpl a pos)) -> 0 <= pos.
Proof. intros E. apply (rf_pos _ _ Hr a). by eapply list_elem_of_lookup_2. Qed.

Lemma read_step i n : 0 <= n -> step_refines (DoRead i n).
Proof.
  intros Hn a sp' Es. cbn [spec_exec exec] in *. rewrite (rf_open _ _ Hr). destruct (sp_open sp !! i) as [[f|]|] eqn:Ei; cbn [mbind option_bind] in *; try done.
  destruct f as [a0 pos| |]; try done. destruct (open_heap i _ Ei) as (fs & E & Hb & Hz). cbn [file_of] in *. pose proof (open_pos i a0 pos Ei) as Hpos.
  unfold SequentialFile_Read. rewrite E. cbn [mbind option_bind]. rewrite (FileState_Read_spec fs _ pos n Hb Hz Hpos Hn). cbn [mbind option_bind].
  unfold spec_read in Es. rewrite Z.gtb_ltb in *. destruct (Z.ltb_spec (zlen (sp_contents sp a0)) pos) as [Hlt|Hge]; apply (inj Some) in Es; injection Es as <- <-.
  - change (ok (IOError _ _)) with false. eexists. split; [reflexivity|]. change (default [] None) with (@nil byte). change (zlen []) with 0. rewrite Z.add_0_r. apply (move_refines i _ _ Ei); [reflexivity|]. intros ? ? [= _ <-]. exact Hpos.
  - change (ok OK) with true. eexists. split; [reflexivity|]. change (default [] (Some ?x)) with x. set (r := take _ _).
    assert (Hlen : 0 <= zlen r <= zlen (sp_contents sp a0) - pos) by (unfold r, zlen in *; rewrite length_take, length_drop; lia).
    rewrite u64_small by lia. apply (move_refines i _ _ Ei); [done|]. intros ? ? [= _ <-]. lia.
Qed.

Lemma skip_calls i n : 0 <= n -> step_refines (DoSkip i n).
Proof.
  intros Hn a sp' Es. cbn [spec_exec exec] in *. rewrite (rf_open _ _ Hr). destruct (sp_open sp !! i) as [[f|]|] eqn:Ei; cbn [mbind option_bind] in *; try done.
  destruct f as [a0 pos| |]; try done. destruct (open_heap i _ Ei) as (fs & E & Hb & Hz). cbn [file_of] in *. pose proof (open_pos i a0 pos Ei) as Hpos.
  unfold SequentialFile_Skip. rewrite E. cbn [mbind option_bind]. unfold Size. rewrite (hb_size _ _ Hb). apply (inj Some) in Es.
  rewrite Z.gtb_ltb in *. destruct (Z.ltb_spec (zlen (sp_contents sp a0)) pos) as [Hlt|Hge]; injection Es as <- <-.
  - cbn [mbind option_bind]. eexists. split; [done|]. pose proof (move_refines i _ _ Ei eq_refl) as Hm. specialize (Hm ltac:(by intros ? ? [= _ <-])).
    assert (Esame : spec_file i (Some (SequentialFileImpl a0 pos)) sp = sp) by (destruct sp; cbn in *; unfold spec_file; cbn; by rewrite list_insert_id). by rewrite Esame in Hm.
  - rewrite (u64_small (_ - pos)) by lia. cbn [mbind option_bind]. rewrite Z.gtb_ltb.
    assert (Emin : (if zlen (sp_contents sp a0) - pos <? n then zlen (sp_contents sp a0) - pos else n) = Z.min (pos + n) (zlen (sp_contents sp a0)) - pos)
      by (destruct (Z.ltb_spec (zlen (sp_contents sp a0) - pos) n); lia).
    rewrite Emin, Z.add_sub_assoc, (Z.add_comm pos), Z.add_simpl_r, u64_small by (pose proof (zlen_nonneg (sp_contents sp a0)); lia).
    eexists. split; [done|]. apply (move_refines i _ _ Ei); [done|]. intros ? ? [= _ <-]. pose proof (zlen_nonneg (sp_contents sp a0)). lia.
Qed.

Lemma read_at_step i offset n : 0 <= offset -> 0 <= n -> step_refines (DoReadAt i offset n).
Proof.
  intros Ho Hn a sp' Es. cbn [spec_exec exec] in *. rewrite (rf_open _ _ Hr). destruct (sp_open sp !! i) as [[f|]|] eqn:Ei; cbn [mbind option_bind] in *; try done.
  destruct f as [|a0|]; try done. destruct (open_heap i _ Ei) as (fs & E & Hb & Hz). cbn [file_of] in *.
  unfold RandomAccessFile_Read. rewrite E. cbn [mbind option_bind]. rewrite (FileState_Read_spec fs _ offset n Hb Hz Ho Hn). fold (spec_read (sp_contents sp a0) offset n).
  cbn [mbind option_bind]. destruct (spec_read _ _ _) as [s r]. injection Es as <- <-. by exists m.
Qed.

Lemma append_step i data : supported (DoAppend i data) sp = true -> step_refines (DoAppend i data).
Proof.
  intros Hsup a sp' Es. cbn [spec_exec exec supported] in *. rewrite (rf_open _ _ Hr). destruct (sp_open sp !! i) as [[f|]|] eqn:Ei; cbn [mbind option_bind] in *; try done.
  destruct f as [| |a0]; try done. apply Z.ltb_lt in Hsup. destruct (open_heap i _ Ei) as (fs & E & Hb & Hz). cbn [file_of] in *. injection Es as <- <-.
  unfold WritableFile_Append. rewrite E. cbn [mbind option_bind]. destruct (FileState_Append_spec fs _ data Hb Hsup) as (fs' & -> & Hb' & Hrefs). cbn [mbind option_bind].
  eexists. split; [done|]. rewrite <- (rf_open _ _ Hr). apply (write_refines fs' a0 fs); [done|done|by rewrite zlen_app|done].
Qed.

Lemma delete_step i : step_refines (DoDelete i).
Proof.
  intros a sp' Es. cbn [spec_exec exec] in *. rewrite (rf_open _ _ Hr). destruct (sp_open sp !! i) as [[f|]|] eqn:Ei; cbn [mbind option_bind] in *; try done.
  injection Es as <- <-. destruct Hr as [R1 R2 R3 R4 R5 R6]. pose proof (files_of_insert _ i f None Ei) as Hi. cbn in Hi.
  assert (Hu : users sp ≡ₚ file_of f :: users (spec_file i None sp)) by (unfold users; cbn; rewrite <- Hi; solve_Permutation). rewrite Hu in R5.
  unfold delete_file. destruct (Unref_ok _ _ _ _ _ R5) as (h' & -> & Hh). cbn [mbind option_bind]. eexists. split; [done|].
  split; cbn; [done|done|done|done|exact Hh|]. intros a pos [j Hj]%list_elem_of_lookup. rewrite list_lookup_insert_Some in Hj. destruct Hj as [(_ & ? & _)|[_ Hj]]; [done|].
  apply (R6 a). by eapply list_elem_of_lookup_2.
Qed.

Lemma no_op_step i op : spec_exec op sp = match (f ← sp_open sp !! i; f) with Some (WritableFileImpl _) => Some (Done OK, sp) | _ => None end ->
  exec op m = match (f ← m_open m !! i; f) with Some (WritableFileImpl _) => Some (Done OK, m) | _ => None end -> step_refines op.
Proof. intros Es Ee a sp'. rewrite Es, Ee, (rf_open _ _ Hr). destruct (sp_open sp !! i) as [[[| |]|]|]; try done. cbn. intros [= <- <-]. by exists m. Qed.

Lemma exec_refines op : supported op sp = true -> step_refines op.
Proof.
  intros Hsup. destruct op as [f|f|f|f|f|d|f|d|d|f|src target|i n|i n|i offset n|i data|i|i|i|i]; cbn [supported] in Hsup.
  - by apply (open_step (fun a => SequentialFileImpl a 0) f); [|intros ? ? ? [= _ <-]| |].
  - by apply (open_step RandomAccessFileImpl f).
  - apply writable_step.
  - apply appendable_step. by apply bool_decide_eq_true in Hsup.
  - apply exists_step.
  - apply children_step.
  - apply remove_step.
  - intros a sp' [= <- <-]. by exists m.
  - intros a sp' [= <- <-]. by exists m.
  - apply size_step.
  - apply rename_step. by apply negb_true_iff, bool_decide_eq_false in Hsup.
  - apply read_step. by apply Z.leb_le.
  - apply skip_calls. by apply Z.leb_le.
  - apply andb_prop in Hsup as [H1 H2]. apply read_at_step; by apply Z.leb_le.
  - by apply append_step.
  - by apply (no_op_step i).
  - by apply (no_op_step i).
  - by apply (no_op_step i).
  - apply delete_step.
Qed.
End Step.

Lemma run_refines ops m sp l sp' : refines m sp -> spec_run ops sp = Some (l, sp') -> exists m', run ops m = Some (l, m') /\ refines m' sp'.
Proof.
  revert m sp l. induction ops as [|op ops IH]; intros m sp l Hr; cbn [spec_run run]; [intros [= <- <-]; by exists m|].
  destruct (supported op sp) eqn:Hsup; [|done]. destruct (spec_exec op sp) as [[a sp1]|] eqn:Es; [|done]. cbn [mbind option_bind].
  destruct (spec_run ops sp1) as [[l1 sp2]|] eqn:El; [|done]. cbn [mbind option_bind]. intros [= <- <-].
  destruct (exec_refines m sp Hr op Hsup a sp1 Es) as (m1 & -> & Hr1). cbn [mbind option_bind]. destruct (IH m1 sp1 l1 Hr1 El) as (m' & -> & Hr'). by exists m'.
Qed.

(** *** The end *)

Lemma delete_files contents next fs : forall e us, heap_ok (heap e) contents next (map file_of fs ++ us) ->
  exists h, foldl (fun e f => e ← e; delete_file f e) (Some e) fs = Some (with_heap h e) /\ heap_ok h contents next us.
Proof.
  induction fs as [|f fs IH]; intros e us Hok; [exists (heap e); split; [by destruct e|done]|]. cbn [map app foldl mbind option_bind] in *. unfold delete_file at 2.
  destruct (Unref_ok _ _ _ _ _ Hok) as (h & -> & Hh). cbn [mbind option_bind]. destruct (IH (with_heap h e) us Hh) as (h' & E & Hh'). exists h'. split; [exact E|exact Hh'].
Qed.

Lemma destroy_names contents next m : forall h us, heap_ok h contents next (map snd m ++ us) ->
  exists h', foldl (fun h (kvp : bytes * option Z) => h ← h; a ← snd kvp; Unref a h) (Some h) (pointers m) = Some h' /\ heap_ok h' contents next us.
Proof.
  induction m as [|[f x] m IH]; intros h us Hok; [by exists h|]. cbn [map app foldl mbind option_bind pointers fst snd] in *.
  destruct (Unref_ok _ _ _ _ _ Hok) as (h1 & -> & Hh). exact (IH h1 us Hh).
Qed.

Lemma files_of_open l : files_of l = map file_of (omap id l).
Proof. induction l as [|[f|] l IH]; [done| |exact IH]. unfold files_of in *. cbn. by rewrite IH. Qed.

Lemma end_refines m sp : refines m sp -> end_of_program m = Some ∅.
Proof.
  intros [R1 R2 R3 R4 R5 R6]. unfold end_of_program, users in *. rewrite Permutation_app_comm, files_of_open in R5. rewrite R2.
  destruct (delete_files _ _ _ (m_env m) _ R5) as (h & -> & Hh). cbn [mbind option_bind]. unfold destroy. cbn [with_heap heap file_map_]. rewrite R1.
  rewrite <- (app_nil_r (map snd _)) in Hh. destruct (destroy_names _ _ _ h [] Hh) as (h' & -> & Hh'). by rewrite (heap_empty _ _ _ Hh').
Qed.

(** ** Properties *)

(** C21: the environment in memory refines its abstract machine.  For every sequence of
    calls that the machine answers, of the environment and of the files opened with
    it, also of files that were truncated, removed or renamed while open, the blocks
    and the reference counts give the same answers (files and arguments stay below
    2^64, an appendable file has to exist, and a file is renamed to another name).
    Nothing is used after its deletion, and when the files and the environment are
    deleted at the end no [FileState] is left. *)
Theorem memory_env_refines (ops : list Op) (answers : list Answer) (sp : Spec) :
  spec_run ops Spec_new = Some (answers, sp) ->
  exists m, run ops Mem_new = Some (answers, m) /\ refines m sp /\ end_of_program m = Some ∅.
Proof.
  intros Hs. destruct (run_refines ops Mem_new Spec_new answers sp Mem_new_refines Hs) as (m & E & Hr). exists m. split; [exact E|]. split; [exact Hr|exact (end_refines m sp Hr)].
Qed.

(** A file is removed while it is read, and another gets its name. *)
Definition example_calls : list Op :=
  [DoNewWritableFile (cstr "/d/a"); DoAppend 0 (cstr "hello"); DoAppend 0 (cstr " world"); DoNewSequentialFile (cstr "/d/a"); DoRead 1 5; DoRemoveFile (cstr "/d/a");
   DoNewWritableFile (cstr "/d/b"); DoAppend 2 (cstr "x"); DoRenameFile (cstr "/d/b") (cstr "/d/a"); DoGetChildren (cstr "/d"); DoRead 1 100; DoDelete 0; DoDelete 1; DoGetFileSize (cstr "/d/a")].

Definition example_answers : list Answer :=
  [Opened (inr 0%nat); Done OK; Done OK; Opened (inr 1%nat); Bytes OK (Some (cstr "hello")); Done OK;
   Opened (inr 2%nat); Done OK; Done OK; Names [cstr "a"]; Bytes OK (Some (cstr " world")); Done OK; Done OK; HasSize (inr 1)].

Lemma memory_env_refines_witness : exists m, run example_calls Mem_new = Some (example_answers, m) /\ end_of_program m = Some ∅.
Proof.
  destruct (spec_run example_calls Spec_new) as [[l sp]|] eqn:E; [|vm_compute in E; discriminate E].
  destruct (memory_env_refines example_calls l sp E) as (m & E1 & _ & E2). exists m. split; [|exact E2]. rewrite E1. f_equal. f_equal.
  assert (El : fst <$> spec_run example_calls Spec_new = Some example_answers) by (vm_compute; reflexivity). rewrite E in El. cbn in El. by injection El.
Defined.

(** *** What it does not do *)

(** A new file that is opened for appending has no name: opening it again is a use of a
    null pointer. *)
Lemma appendable_file_lost :
  (fst <$> run [DoNewAppendableFile (cstr "a"); DoAppend 0 (cstr "x"); DoFileExists (cstr "a")] Mem_new) = Some [Opened (inr 0%nat); Done OK; Exists true] /\
  run [DoNewAppendableFile (cstr "a"); DoAppend 0 (cstr "x"); DoDelete 0; DoNewSequentialFile (cstr "a")] Mem_new = None /\
  (m ← snd <$> run [DoNewAppendableFile (cstr "a"); DoDelete 0] Mem_new; end_of_program m) = None.
Proof. by vm_compute. Qed.

(** A file that is renamed to itself is deleted. *)
Lemma renamed_file_lost :
  (fst <$> run [DoNewWritableFile (cstr "a"); DoRenameFile (cstr "a") (cstr "a"); DoFileExists (cstr "a")] Mem_new) = Some [Opened (inr 0%nat); Done OK; Exists false].
Proof. by vm_compute. Qed.
