(* ===== verification/WriteQueue.v ===== *)
(** * db/db_impl: the write path

    Models [DBImpl::Write], [BuildBatchGroup] and [MakeRoomForWrite] of
    src/db/db_impl.cc as a machine of threads.  A thread is one call of [Write];
    it is numbered by its arrival.  A step is what one thread does between two
    points where it gives up the mutex, and an event names the step.  What the
    background thread does to the state that writers see is an event too.  The
    memory a memtable reports is a parameter, and the files are behind an
    interface. *)

From S2P Require Import Prelude Coding Comparator Crc32c DbFormat Status LogWriter MemTable WriteBatch Filename Options.

(** Where a thread is.  It sleeps in [w.cv.Wait()] or was signalled; the first
    in the queue may be in the 1 ms delay of [MakeRoomForWrite] or in its wait
    for background work ([force] and [allow_delay] are its variables), or write
    the log without the mutex, with the last writer of its group, whether the
    group is in [tmp_batch_], and the new last sequence number. *)
Inductive Pc :=
  | Asleep
  | Awake
  | Delayed (force : bool)
  | Waiting (force allow_delay : bool)
  | Resumed (force allow_delay : bool)
  | Logging (last_writer : nat) (in_tmp : bool) (last_sequence : Z)
  | Logged (last_writer : nat) (in_tmp : bool) (last_sequence : Z) (status : Status) (sync_error : bool)
  | Returned (status : Status).

(** [DBImpl::Writer] and its thread. *)
Record Thread := mkThread {
  w_batch : option bytes;
  w_sync : bool;
  w_done : bool;
  w_status : Status;
  w_pc : Pc;
}.

Definition at_pc (pc : Pc) (t : Thread) : Thread := mkThread (w_batch t) (w_sync t) (w_done t) (w_status t) pc.
Definition with_batch (b : bytes) (t : Thread) : Thread := mkThread (Some b) (w_sync t) (w_done t) (w_status t) (w_pc t).

(** A signal to a thread wakes it when it sleeps. *)
Definition signal (t : Thread) : Thread := match w_pc t with Asleep => at_pc Awake t | _ => t end.

(** [ready->status = status; ready->done = true; ready->cv.Signal()] *)
Definition complete (s : Status) (t : Thread) : Thread := signal (mkThread (w_batch t) (w_sync t) true s (w_pc t)).

(** ** [BuildBatchGroup] *)

(** The loop over the writers after the first.  The result is in [tmp_batch_] or
    is still the first writer's batch; [tmp] is [tmp_batch_] before. *)
Fixpoint group_loop (first_sync : bool) (max_size size : Z) (tmp result : bytes) (in_tmp : bool) (ws : list Thread) (n : nat)
    : option (bytes * bool * nat) :=
  match ws with
  | [] => Some (result, in_tmp, n)
  | w :: ws =>
      if w_sync w && negb first_sync then Some (result, in_tmp, n)
      else
        match w_batch w with
        | Some b =>
            let size := u64 (size + ApproximateSize b) in
            if max_size <? size then Some (result, in_tmp, n)
            else
              result ← (if in_tmp then Some result
                        else if Count tmp =? 0 then Some (WriteBatch_Append tmp result) else None);
              group_loop first_sync max_size size tmp (WriteBatch_Append result b) true ws (S n)
        | None => group_loop first_sync max_size size tmp result in_tmp ws (S n)
        end
  end.

(** The group's batch, whether it is in [tmp_batch_], and the number of writers
    after the first that it takes in. *)
Definition BuildBatchGroup (tmp : bytes) (first : Thread) (others : list Thread) : option (bytes * bool * nat) :=
  result ← w_batch first;
  let size := ApproximateSize result in
  let max_size := if size <=? Z.shiftl 128 10 then size + Z.shiftl 128 10 else Z.shiftl 1 20 in
  group_loop (w_sync first) max_size size tmp result false others 0.

Section Machine.
Context `{CS : Checksum} {W E : Type} {WF : WritableFile W} {LF : LogFiles E W}.
Variables (C : Comparator) (mem_usage : MemTable -> Z) (options_ : Options) (dbname_ : bytes).

(** The state behind the mutex; [other_work] says that a manual compaction or
    the versions ask for background work. *)
Record DBState := mkDB {
  threads : list Thread;
  writers_ : list nat;
  tmp_batch_ : bytes;
  LastSequence : Z;
  mem_ : MemTable;
  imm_ : option MemTable;
  log_ : Writer W;
  logfile_number_ : Z;
  next_file_number_ : Z;
  level0_files : Z;
  bg_error_ : Status;
  background_compaction_scheduled_ : bool;
  other_work : bool;
  env_ : E;
}.

Definition with_threads (ts : list Thread) (db : DBState) : DBState :=
  mkDB ts (writers_ db) (tmp_batch_ db) (LastSequence db) (mem_ db) (imm_ db) (log_ db) (logfile_number_ db) (next_file_number_ db)
    (level0_files db) (bg_error_ db) (background_compaction_scheduled_ db) (other_work db) (env_ db).
Definition with_queue (q : list nat) (db : DBState) : DBState :=
  mkDB (threads db) q (tmp_batch_ db) (LastSequence db) (mem_ db) (imm_ db) (log_ db) (logfile_number_ db) (next_file_number_ db)
    (level0_files db) (bg_error_ db) (background_compaction_scheduled_ db) (other_work db) (env_ db).
Definition with_tmp (b : bytes) (db : DBState) : DBState :=
  mkDB (threads db) (writers_ db) b (LastSequence db) (mem_ db) (imm_ db) (log_ db) (logfile_number_ db) (next_file_number_ db)
    (level0_files db) (bg_error_ db) (background_compaction_scheduled_ db) (other_work db) (env_ db).
Definition with_last (s : Z) (db : DBState) : DBState :=
  mkDB (threads db) (writers_ db) (tmp_batch_ db) s (mem_ db) (imm_ db) (log_ db) (logfile_number_ db) (next_file_number_ db)
    (level0_files db) (bg_error_ db) (background_compaction_scheduled_ db) (other_work db) (env_ db).
Definition with_mem (m : MemTable) (db : DBState) : DBState :=
  mkDB (threads db) (writers_ db) (tmp_batch_ db) (LastSequence db) m (imm_ db) (log_ db) (logfile_number_ db) (next_file_number_ db)
    (level0_files db) (bg_error_ db) (background_compaction_scheduled_ db) (other_work db) (env_ db).
Definition with_imm (m : option MemTable) (db : DBState) : DBState :=
  mkDB (threads db) (writers_ db) (tmp_batch_ db) (LastSequence db) (mem_ db) m (log_ db) (logfile_number_ db) (next_file_number_ db)
    (level0_files db) (bg_error_ db) (background_compaction_scheduled_ db) (other_work db) (env_ db).
Definition with_log (l : Writer W) (db : DBState) : DBState :=
  mkDB (threads db) (writers_ db) (tmp_batch_ db) (LastSequence db) (mem_ db) (imm_ db) l (logfile_number_ db) (next_file_number_ db)
    (level0_files db) (bg_error_ db) (background_compaction_scheduled_ db) (other_work db) (env_ db).
Definition with_numbers (logfile next : Z) (e : E) (db : DBState) : DBState :=
  mkDB (threads db) (writers_ db) (tmp_batch_ db) (LastSequence db) (mem_ db) (imm_ db) (log_ db) logfile next
    (level0_files db) (bg_error_ db) (background_compaction_scheduled_ db) (other_work db) e.
Definition with_background (level0 : Z) (err : Status) (scheduled work : bool) (db : DBState) : DBState :=
  mkDB (threads db) (writers_ db) (tmp_batch_ db) (LastSequence db) (mem_ db) (imm_ db) (log_ db) (logfile_number_ db) (next_file_number_ db)
    level0 err scheduled work (env_ db).

(** [assert(s >= last_sequence_)] *)
Definition SetLastSequence (s : Z) (db : DBState) : option DBState :=
  if LastSequence db <=? s then Some (with_last s db) else None.

(** Updating one thread. *)
Definition update (w : nat) (f : Thread -> Thread) (db : DBState) : DBState := with_threads (alter f w (threads db)) db.

(** Of those that wait for [background_work_finished_signal_], these are the
    writers. *)
Definition SignalAll (db : DBState) : DBState :=
  with_threads (map (fun t => match w_pc t with Waiting f d => at_pc (Resumed f d) t | _ => t end) (threads db)) db.

Definition RecordBackgroundError (s : Status) (db : DBState) : DBState :=
  if ok (bg_error_ db)
  then SignalAll (with_background (level0_files db) s (background_compaction_scheduled_ db) (other_work db) db)
  else db.

(** Nothing is scheduled twice, after an error, or without work. *)
Definition MaybeScheduleCompaction (db : DBState) : DBState :=
  if background_compaction_scheduled_ db then db
  else if negb (ok (bg_error_ db)) then db
  else if (match imm_ db with None => true | Some _ => false end) && negb (other_work db) then db
  else with_background (level0_files db) (bg_error_ db) true (other_work db) db.

(** ** The end of a write *)

(** [while (true)]: the writers up to the last of the group leave the queue. *)
Fixpoint pop_writers (q : list nat) (w last : nat) (s : Status) (db : DBState) : option DBState :=
  match q with
  | [] => None
  | ready :: q =>
      let db := with_queue q db in
      let db := if (ready =? w)%nat then db else update ready (complete s) db in
      if (ready =? last)%nat then Some db else pop_writers q w last s db
  end.

Definition finish (w last : nat) (s : Status) (db : DBState) : option DBState :=
  db ← pop_writers (writers_ db) w last s db;
  let db := match writers_ db with [] => db | front :: _ => update front signal db end in
  Some (update w (at_pc (Returned s)) db).

(** What follows [MakeRoomForWrite]: the group is built and the mutex given up
    to write it, or the write ends. *)
Definition after_room (w : nat) (s : Status) (db : DBState) : option DBState :=
  t ← threads db !! w;
  match w_batch t with
  | Some _ =>
      if ok s then
        others ← mapM (fun w => threads db !! w) (tail (writers_ db));
        '(result, in_tmp, n) ← BuildBatchGroup (tmp_batch_ db) t others;
        last ← writers_ db !! n;
        let result := SetSequence result (u64 (LastSequence db + 1)) in
        let seq := u64 (LastSequence db + Count result) in
        let db := if (in_tmp : bool) then with_tmp result db else update w (with_batch result) db in
        Some (update w (at_pc (Logging last in_tmp seq)) db)
      else finish w w s db
  | None => finish w w s db
  end.

(** ** [MakeRoomForWrite] *)

(** A new log file and a new memtable: the status of the loop's [break] if it
    breaks, with the state. *)
Definition switch_memtable (db : DBState) : option Status * DBState :=
  let new_log_number := next_file_number_ db in
  let '(r, env) := NewWritableFile (LogFileName dbname_ new_log_number) (env_ db) in
  match r with
  | inl s => (Some s, with_numbers (logfile_number_ db) new_log_number env db)
  | inr lfile =>
      let db := with_numbers new_log_number (u64 (new_log_number + 1)) env db in
      let s := CloseFile (E := E) (dest_ (log_ db)) in
      let db := if ok s then db else RecordBackgroundError s db in
      let db := with_log (Writer_new lfile) db in
      let db := with_mem MemTable_new (with_imm (Some (mem_ db)) db) in
      (None, MaybeScheduleCompaction db)
  end.

(** The turns of the loop until it breaks or waits.  After a switch there is an
    immutable memtable, so that the next turn is the last. *)
Fixpoint room_loop (fuel : nat) (force allow_delay : bool) (w : nat) (db : DBState) : option DBState :=
  match fuel with
  | O => None
  | S fuel =>
      if negb (ok (bg_error_ db)) then after_room w (bg_error_ db) db
      else if allow_delay && (kL0_SlowdownWritesTrigger <=? level0_files db) then Some (update w (at_pc (Delayed force)) db)
      else if negb force && (mem_usage (mem_ db) <=? write_buffer_size options_) then after_room w OK db
      else
        match imm_ db with
        | Some _ => Some (update w (at_pc (Waiting force allow_delay)) db)
        | None =>
            if kL0_StopWritesTrigger <=? level0_files db then Some (update w (at_pc (Waiting force allow_delay)) db)
            else
              let '(s, db) := switch_memtable db in
              match s with
              | Some s => after_room w s db
              | None => room_loop fuel false allow_delay w db
              end
        end
  end.

Definition room (force allow_delay : bool) (w : nat) (db : DBState) : option DBState := room_loop 2 force allow_delay w db.

(** ** The events *)

(** The loop before the write: a thread that is done returns, the first in the
    queue goes on, others sleep. *)
Definition test_queue (w : nat) (db : DBState) : option DBState :=
  t ← threads db !! w;
  if w_done t then Some (update w (at_pc (Returned (w_status t))) db)
  else if bool_decide (head (writers_ db) = Some w) then
    let force := match w_batch t with None => true | Some _ => false end in
    room force (negb force) w db
  else Some (update w (at_pc Asleep) db).

(** A new call of [Write]. *)
Definition enter (batch : option bytes) (sync : bool) (db : DBState) : option DBState :=
  let w := length (threads db) in
  test_queue w (with_queue (writers_ db ++ [w]) (with_threads (threads db ++ [mkThread batch sync false OK Awake]) db)).

(** Without the mutex: the log record, [Sync], and the memtable. *)
Definition write_log (w : nat) (t : Thread) (last : nat) (in_tmp : bool) (seq : Z) (db : DBState) : option DBState :=
  contents ← (if in_tmp then Some (tmp_batch_ db) else w_batch t);
  let '(s, log) := AddRecord (log_ db) contents in
  let '(s, sync_error, log) :=
    if ok s && w_sync t then
      let '(s, d) := wf_Sync (dest_ log) in (s, negb (ok s), mkWriter d (block_offset_ log) (type_crc_ log))
    else (s, false, log) in
  let db := with_log log db in
  if ok s then
    let '(s, mem) := InsertInto C contents (mem_ db) in
    mem ← mem;
    Some (update w (at_pc (Logged last in_tmp seq s sync_error)) (with_mem mem db))
  else Some (update w (at_pc (Logged last in_tmp seq s sync_error)) db).

Inductive Event :=
  | EvWrite (batch : option bytes) (sync : bool)
  | EvStep (w : nat)
  | EvSpurious (w : nat)
  | EvBackground (imm_done : bool) (level0 : Z) (error : option Status) (scheduled work : bool) (next : Z) (env : E).

(** A thread goes on from where it is, if it does not sleep or wait. *)
Definition thread_step (w : nat) (db : DBState) : option DBState :=
  t ← threads db !! w;
  match w_pc t with
  | Awake => test_queue w db
  | Delayed force => room force false w db
  | Resumed force allow_delay => room force allow_delay w db
  | Logging last in_tmp seq => write_log w t last in_tmp seq db
  | Logged last in_tmp seq s sync_error =>
      let db := if (sync_error : bool) then RecordBackgroundError s db else db in
      let db := if (in_tmp : bool) then with_tmp WriteBatch_Clear db else db in
      db ← SetLastSequence seq db;
      finish w last s db
  | Asleep | Waiting _ _ | Returned _ => None
  end.

Definition step (e : Event) (db : DBState) : option DBState :=
  match e with
  | EvWrite batch sync => enter batch sync db
  | EvStep w => thread_step w db
  | EvSpurious w =>
      t ← threads db !! w;
      match w_pc t with
      | Asleep => Some (update w (at_pc Awake) db)
      | Waiting force allow_delay => Some (update w (at_pc (Resumed force allow_delay)) db)
      | _ => None
      end
  | EvBackground imm_done level0 error scheduled work next env =>
      let db := if imm_done then with_imm None db else db in
      let db := with_numbers (logfile_number_ db) next env db in
      let err := match error with Some s => if ok (bg_error_ db) then s else bg_error_ db | None => bg_error_ db end in
      Some (SignalAll (with_background level0 err scheduled work db))
  end.

Fixpoint run (es : list Event) (db : DBState) : option DBState :=
  match es with
  | [] => Some db
  | e :: es => db ← step e db; run es db
  end.

(** A database without writers. *)
Definition initial (seq : Z) (mem : MemTable) (imm : option MemTable) (log : Writer W) (logfile next level0 : Z) (e : E) : DBState :=
  mkDB [] [] WriteBatch_Clear seq mem imm log logfile next level0 OK false false e.
End Machine.
