(* ===== verification/WriteSafety.v ===== *)
(** * The write path commits writes in order

    The invariant of the machine of WriteQueue.v: the calls of [Write] are
    committed in the order they arrived, in groups; every group has consecutive
    sequence numbers of its own; the memtables that background work dropped, then
    the immutable one and the current one hold, in order, exactly the groups that
    were applied; and every writer returns its group's status. *)

From S2P Require Import Prelude Coding Comparator Crc32c DbFormat Status LogWriter LogReplay MemTable WriteBatch Filename Options WriteQueue.

(** ** Batches of a group *)

(** What a thread is asked to write: operations, or nothing to force a
    compaction; and whether to sync. *)
Definition Input : Type := option (list Op) * bool.

Definition ops_of (x : Input) : list Op := default [] x.1.
Definition group_ops (ins : list Input) (first n : nat) : list Op := concat (map ops_of (take n (drop first ins))).

(** A thread that has not started yet. *)
Definition fresh (t : Thread) (x : Input) : Prop := w_batch t = build <$> x.1 /\ w_sync t = x.2 /\ w_done t = false.

Lemma group_loop_spec first_sync max_size size ops0 in_tmp ws xs n :
  Forall2 fresh ws xs -> zlen (ops0 ++ concat (map ops_of xs)) < 2 ^ 31 ->
  exists m in_tmp', group_loop first_sync max_size size WriteBatch_Clear (build ops0) in_tmp ws n
      = Some (build (ops0 ++ concat (map ops_of (take m xs))), in_tmp', (n + m)%nat) /\
    (m <= length xs)%nat /\ (forall x, x ∈ take m xs -> x.2 = true -> first_sync = true) /\
    (in_tmp' = false -> in_tmp = false /\ concat (map ops_of (take m xs)) = []).
Proof.
  intros H. revert size ops0 in_tmp n. induction H as [|w x ws xs Hw H IH]; intros size ops0 in_tmp n Hmax; cbn [group_loop].
  { exists 0%nat, in_tmp. cbn. rewrite app_nil_r, Nat.add_0_r. split; [done|]. split; [lia|]. split; [by intros x ?%elem_of_nil|done]. }
  assert (Hstop : exists m in_tmp', Some (build ops0, in_tmp, n) = Some (build (ops0 ++ concat (map ops_of (take m (x :: xs)))), in_tmp', (n + m)%nat) /\
      (m <= length (x :: xs))%nat /\ (forall y, y ∈ take m (x :: xs) -> y.2 = true -> first_sync = true) /\
      (in_tmp' = false -> in_tmp = false /\ concat (map ops_of (take m (x :: xs))) = [])).
  { exists 0%nat, in_tmp. cbn. rewrite app_nil_r, Nat.add_0_r. split; [done|]. split; [lia|]. split; [by intros y ?%elem_of_nil|done]. }
  destruct Hw as (Eb & Es & _). rewrite Es. destruct (x.2 && negb first_sync) eqn:Esync; [exact Hstop|].
  assert (Hx : x.2 = true -> first_sync = true) by (intros E; rewrite E in Esync; by destruct first_sync).
  cbn [map concat] in Hmax. rewrite app_assoc in Hmax.
  assert (Hgo : forall in_tmp1 size1, (in_tmp1 = false -> in_tmp = false /\ ops_of x = []) -> exists m in_tmp',
      group_loop first_sync max_size size1 WriteBatch_Clear (build (ops0 ++ ops_of x)) in_tmp1 ws (S n)
        = Some (build (ops0 ++ concat (map ops_of (take m (x :: xs)))), in_tmp', (n + m)%nat) /\
      (m <= length (x :: xs))%nat /\ (forall y, y ∈ take m (x :: xs) -> y.2 = true -> first_sync = true) /\
      (in_tmp' = false -> in_tmp = false /\ concat (map ops_of (take m (x :: xs))) = [])).
  { intros in_tmp1 size1 Htmp. destruct (IH size1 (ops0 ++ ops_of x) in_tmp1 (S n) Hmax) as (m & in_tmp' & E & Hm & Hsy & Hf).
    exists (S m), in_tmp'. cbn [take map concat]. rewrite E, <- app_assoc. split; [do 2 f_equal; lia|]. split; [cbn; lia|]. split.
    - intros y [Hy|Hy]%elem_of_cons; [rewrite Hy; exact Hx|by apply Hsy].
    - intros E'. destruct (Hf E') as [H1 H2]. destruct (Htmp H1) as [H3 H4]. by rewrite H4, H2. }
  rewrite Eb. unfold ops_of in Hgo at 1 2. destruct x as [[ops|] sync]; cbn [fst snd fmap option_fmap option_map default] in *.
  - destruct (max_size <? _); [exact Hstop|]. pose proof (zlen_nonneg (concat (map ops_of xs))).
    rewrite !zlen_app in Hmax. unfold ops_of in Hmax at 1. cbn in Hmax.
    assert (EA : WriteBatch_Append (build ops0) (build ops) = build (ops0 ++ ops)) by (apply Append_build; lia).
    destruct in_tmp.
    + cbn [mbind option_bind]. rewrite EA. by apply Hgo.
    + change (Count WriteBatch_Clear =? 0) with true. cbn [mbind option_bind]. pose proof (zlen_nonneg ops).
      change WriteBatch_Clear with (build []). rewrite (Append_build [] ops0) by (change (zlen (@nil Op)) with 0; lia). cbn [app]. rewrite EA. by apply Hgo.
  - rewrite app_nil_r in Hgo. by apply Hgo.
Qed.

Lemma BuildBatchGroup_spec first others ops sync xs :
  fresh first (Some ops, sync) -> Forall2 fresh others xs -> zlen (ops ++ concat (map ops_of xs)) < 2 ^ 31 ->
  exists m in_tmp, BuildBatchGroup WriteBatch_Clear first others = Some (build (ops ++ concat (map ops_of (take m xs))), in_tmp, m) /\
    (m <= length xs)%nat /\ (forall x, x ∈ take m xs -> x.2 = true -> sync = true) /\
    (in_tmp = false -> concat (map ops_of (take m xs)) = []).
Proof.
  intros (Eb & Es & _) H Hmax. unfold BuildBatchGroup. rewrite Eb, Es. cbn [fst snd fmap option_fmap option_map mbind option_bind].
  destruct (group_loop_spec sync (if ApproximateSize (build ops) <=? Z.shiftl 128 10 then ApproximateSize (build ops) + Z.shiftl 128 10 else Z.shiftl 1 20)
    (ApproximateSize (build ops)) ops false others xs 0 H Hmax) as (m & in_tmp & E & Hm & Hsy & Hf).
  exists m, in_tmp. split; [exact E|]. split; [done|]. split; [done|]. intros E'. by destruct (Hf E').
Qed.

(** ** Histories of commits *)

(** A group: its first writer and size, the first sequence number, the status it
    returned, and whether it was written at all. *)
Record Commit := mkCommit { cm_first : nat; cm_count : nat; cm_seq : Z; cm_status : Status; cm_written : bool }.

Section History.
Variable seq0 : Z.

(** The commits so far, the number of writers committed, and the last sequence
    number.  Only the first writer of a group decides for all: no writer that
    asks for a sync is in a group that does not sync.  A write that is refused
    before it is written, and one without a batch, are groups of their own. *)
Inductive history (ins : list Input) : list Commit -> nat -> Z -> Prop :=
  | history_nil : history ins [] 0 seq0
  | history_written H p last k s :
      history ins H p last -> (1 <= k)%nat -> (p + k <= length ins)%nat ->
      (exists ops sync, ins !! p = Some (Some ops, sync)) ->
      (forall x y : Input, ins !! p = Some x -> y ∈ take k (drop p ins) -> y.2 = true -> x.2 = true) ->
      history ins (H ++ [mkCommit p k (last + 1) s true]) (p + k) (last + zlen (group_ops ins p k))
  | history_single H p last s (x : Input) :
      history ins H p last -> ins !! p = Some x -> (s = OK -> x.1 = None) ->
      history ins (H ++ [mkCommit p 1 (last + 1) s false]) (p + 1) last.

Definition inputs_ok (ins : list Input) : Prop :=
  Forall op_fits (concat (map ops_of ins)) /\ zlen (concat (map ops_of ins)) < 2 ^ 31 /\
  0 <= seq0 /\ seq0 + zlen (concat (map ops_of ins)) <= kMaxSequenceNumber.

Lemma inputs_ok_prefix ins more : inputs_ok (ins ++ more) -> inputs_ok ins.
Proof.
  unfold inputs_ok. rewrite map_app, concat_app, zlen_app. pose proof (zlen_nonneg (concat (map ops_of more))).
  intros (H1 & H2 & H3 & H4). apply Forall_app in H1 as [H1 _]. repeat split; [done|lia..].
Qed.

Lemma group_ops_app ins p j k : group_ops ins p (j + k) = group_ops ins p j ++ group_ops ins (p + j) k.
Proof.
  unfold group_ops. rewrite <- concat_app, <- map_app. do 2 f_equal.
  rewrite <- (drop_drop ins j p), <- (take_drop j (take (j + k) (drop p ins))) at 1. f_equal.
  - rewrite take_take. by rewrite Nat.min_l by lia.
  - rewrite skipn_firstn_comm. by replace (j + k - j)%nat with k by lia.
Qed.

Lemma group_ops_split ins p k : concat (map ops_of ins) = group_ops ins 0 p ++ group_ops ins p k ++ concat (map ops_of (drop (p + k) ins)).
Proof.
  unfold group_ops. rewrite drop_0, <- !concat_app, <- !map_app. do 2 f_equal.
  rewrite <- (take_drop p ins) at 1. f_equal. rewrite <- (take_drop k (drop p ins)) at 1. by rewrite drop_drop.
Qed.

Lemma group_ops_extend ins more p k : (p + k <= length ins)%nat -> group_ops (ins ++ more) p k = group_ops ins p k.
Proof.
  intros H. unfold group_ops. rewrite drop_app_le by lia. by rewrite take_app_le by (rewrite length_drop; lia).
Qed.

Lemma history_bound ins H p last : history ins H p last -> (p <= length ins)%nat /\ seq0 <= last <= seq0 + zlen (group_ops ins 0 p).
Proof.
  induction 1 as [|H p last k s Hh [IH1 IH2] Hk Hp _ _|H p last s x Hh [IH1 IH2] Hx _].
  - split; [lia|]. change (zlen (group_ops ins 0 0)) with 0. lia.
  - split; [done|]. rewrite (group_ops_app ins 0 p k), zlen_app. pose proof (zlen_nonneg (group_ops ins p k)). cbn [Nat.add]. lia.
  - split; [apply lookup_lt_Some in Hx; lia|]. rewrite (group_ops_app ins 0 p 1), zlen_app. pose proof (zlen_nonneg (group_ops ins (0 + p) 1)). lia.
Qed.

Lemma history_extend ins more H p last : history ins H p last -> history (ins ++ more) H p last.
Proof.
  induction 1 as [|H p last k s Hh IH Hk Hp (ops & sync & Hb) Hs|H p last s x Hh IH Hx Hn]; [constructor| |].
  - rewrite <- (group_ops_extend ins more) by done. constructor; [done|done|rewrite length_app; lia| |].
    + exists ops, sync. by apply lookup_app_l_Some.
    + intros x y Hx Hy Hs'. rewrite lookup_app_l in Hx by lia. rewrite drop_app_le in Hy by lia.
      rewrite take_app_le in Hy by (rewrite length_drop; lia). by apply (Hs x y).
  - apply (history_single _ _ _ _ _ x); [done|by apply lookup_app_l_Some|done].
Qed.

(** The group fits what is left of the sequence numbers. *)
Lemma group_fits ins H p last k :
  history ins H p last -> inputs_ok ins ->
  Forall op_fits (group_ops ins p k) /\ zlen (group_ops ins p k) < 2 ^ 31 /\ 0 <= last /\ last + zlen (group_ops ins p k) <= kMaxSequenceNumber.
Proof.
  intros Hh (H1 & H2 & H3 & H4). destruct (history_bound _ _ _ _ Hh) as [_ Hb]. rewrite (group_ops_split ins p k) in *.
  rewrite !zlen_app in *. apply Forall_app in H1 as [_ H1]. apply Forall_app in H1 as [H1 _].
  pose proof (zlen_nonneg (group_ops ins 0 p)). pose proof (zlen_nonneg (group_ops ins p k)). pose proof (zlen_nonneg (concat (map ops_of (drop (p + k) ins)))).
  repeat split; [done|lia..].
Qed.

(** The groups that were applied, with their first sequence numbers. *)
Definition applied_ops (ins : list Input) (c : Commit) : option (Z * list Op) :=
  if cm_written c && ok (cm_status c) then Some (cm_seq c, group_ops ins (cm_first c) (cm_count c)) else None.
Definition applied (ins : list Input) (H : list Commit) : list (Z * list Op) := omap (applied_ops ins) H.

Lemma applied_snoc ins H c : applied ins (H ++ [c]) = applied ins H ++ (match applied_ops ins c with Some x => [x] | None => [] end).
Proof. unfold applied. rewrite omap_app. cbn. by destruct (applied_ops ins c). Qed.

Lemma history_groups ins H p last : history ins H p last -> forall c, c ∈ H -> (cm_first c + cm_count c <= p)%nat.
Proof.
  induction 1 as [|H p last k s Hh IH Hk Hp _ _|H p last s x Hh IH Hx _]; [by intros c ?%elem_of_nil|..];
    intros c [Hc| ->%list_elem_of_singleton]%elem_of_app; cbn; [specialize (IH c Hc)|..|specialize (IH c Hc)|]; lia.
Qed.

Lemma applied_extend ins more H p last : history ins H p last -> applied (ins ++ more) H = applied ins H.
Proof.
  intros Hh. pose proof (history_groups _ _ _ _ Hh) as Hg. pose proof (history_bound _ _ _ _ Hh) as [Hp _]. clear Hh.
  unfold applied. induction H as [|c H IH]; [done|]. cbn.
  assert (E : applied_ops (ins ++ more) c = applied_ops ins c).
  { unfold applied_ops. destruct (_ && _); [|done]. rewrite group_ops_extend; [done|]. specialize (Hg c ltac:(by left)). lia. }
  rewrite E, IH; [done|]. intros d Hd. apply Hg. by right.
Qed.
End History.

(** ** The end of a write *)

Section Finish.
Context {W E : Type}.
Implicit Types db : DBState (W := W) (E := E).

Definition pop_threads (w : nat) (s : Status) (ids : list nat) (ts : list Thread) : list Thread :=
  fold_left (fun ts id => if (id =? w)%nat then ts else alter (complete s) id ts) ids ts.

Lemma pop_writers_spec q rest w last s db :
  last ∉ q -> pop_writers (q ++ last :: rest) w last s db = Some (with_queue rest (with_threads (pop_threads w s (q ++ [last]) (threads db)) db)).
Proof.
  revert db. induction q as [|id q IH]; intros db Hn; cbn [app pop_writers].
  - rewrite Nat.eqb_refl. unfold pop_threads. cbn. by destruct (last =? w)%nat.
  - apply not_elem_of_cons in Hn as [Hn1 Hn2]. rewrite (proj2 (Nat.eqb_neq id last)) by congruence. rewrite IH by done.
    unfold pop_threads. cbn. by destruct (id =? w)%nat.
Qed.

Lemma pop_threads_length w s ids ts : length (pop_threads w s ids ts) = length ts.
Proof.
  unfold pop_threads. revert ts. induction ids as [|id ids IH]; intros ts; [done|]. cbn. rewrite IH. destruct (id =? w)%nat; [done|apply length_alter].
Qed.

Lemma pop_threads_lookup w s ids ts id :
  NoDup ids -> pop_threads w s ids ts !! id = (if decide (id ∈ ids /\ id <> w) then complete s else fun t => t) <$> ts !! id.
Proof.
  unfold pop_threads. revert ts. induction ids as [|i ids IH]; intros ts Hnd; cbn.
  - rewrite decide_False by (intros [?%elem_of_nil _]; done). by destruct (ts !! id).
  - apply NoDup_cons in Hnd as [Hn Hnd]. rewrite IH by done. destruct (Nat.eqb_spec i w) as [->|Hiw].
    + f_equal. destruct (decide (id ∈ ids /\ id <> w)) as [[H1 H2]|H]; [by rewrite decide_True by (split; [by right|done])|].
      rewrite decide_False; [done|]. intros [[?|?]%elem_of_cons ?]; [done|]. by apply H.
    + destruct (decide (id = i)) as [->|Hne].
      * rewrite list_lookup_alter_eq. rewrite decide_False by (intros [? _]; done). rewrite decide_True by (split; [by left|done]).
        by destruct (ts !! i).
      * rewrite list_lookup_alter_ne by done. f_equal. destruct (decide (id ∈ ids /\ id <> w)) as [[H1 H2]|H]; [by rewrite decide_True by (split; [by right|done])|].
        rewrite decide_False; [done|]. intros [[?|?]%elem_of_cons ?]; [done|]. by apply H.
Qed.

(** What the end of a group does to a thread. *)
Definition finished (p k : nat) (s : Status) (id : nat) (t : Thread) : Thread :=
  if (id =? p)%nat then at_pc (Returned s) t
  else if (id <? p)%nat then t
  else if (id <? p + k)%nat then complete s t
  else if (id =? p + k)%nat then signal t else t.

Lemma finish_spec p k r s db :
  (1 <= k)%nat -> writers_ db = seq p (k + r) -> length (threads db) = (p + (k + r))%nat ->
  exists ts, finish p (p + k - 1) s db = Some (with_queue (seq (p + k) r) (with_threads ts db)) /\
    length ts = length (threads db) /\ forall id, ts !! id = finished p k s id <$> threads db !! id.
Proof.
  intros Hk Hq Hlen. unfold finish. rewrite Hq.
  assert (Es : seq p (k + r) = seq p (k - 1) ++ (p + k - 1)%nat :: seq (p + k) r).
  { replace (k + r)%nat with ((k - 1) + S r)%nat by lia. rewrite seq_app. cbn [seq]. do 2 f_equal; [lia|]. f_equal. lia. }
  rewrite Es, pop_writers_spec by (rewrite elem_of_seq; lia). cbn [mbind option_bind with_queue writers_].
  assert (Ei : seq p (k - 1) ++ [(p + k - 1)%nat] = seq p k) by (replace k with ((k - 1) + 1)%nat at 3 by lia; rewrite seq_app; cbn; do 2 f_equal; lia).
  rewrite Ei. set (ts1 := pop_threads p s (seq p k) (threads db)).
  set (ts2 := match seq (p + k) r with [] => ts1 | front :: _ => alter signal front ts1 end).
  exists (alter (at_pc (Returned s)) p ts2). split; [|split].
  - unfold ts2, update. by destruct (seq (p + k) r).
  - rewrite length_alter. unfold ts2. destruct (seq (p + k) r); rewrite ?length_alter; apply pop_threads_length.
  - intros id. unfold finished. assert (E2 : ts2 !! id = (if (id =? p + k)%nat then signal else fun t => t) <$> ts1 !! id).
    { unfold ts2. destruct r as [|r]; cbn [seq].
      - destruct (Nat.eqb_spec id (p + k)) as [->|]; [|by destruct (ts1 !! id)].
        rewrite (lookup_ge_None_2 ts1) by (unfold ts1; rewrite pop_threads_length; lia). done.
      - destruct (Nat.eqb_spec id (p + k)) as [->|Hne]; [by rewrite list_lookup_alter_eq|].
        rewrite list_lookup_alter_ne by done. by destruct (ts1 !! id). }
    assert (E1 : ts1 !! id = (if decide (id ∈ seq p k /\ id <> p) then complete s else fun t => t) <$> threads db !! id) by (apply pop_threads_lookup, NoDup_seq).
    destruct (Nat.eqb_spec id p) as [->|Hne].
    + rewrite list_lookup_alter_eq, E2, E1. rewrite (proj2 (Nat.eqb_neq p (p + k))) by lia. rewrite decide_False by tauto.
      by destruct (threads db !! p).
    + rewrite list_lookup_alter_ne by done. rewrite E2, E1. destruct (Nat.ltb_spec id p) as [Hlt|Hge].
      * rewrite (proj2 (Nat.eqb_neq id (p + k))) by lia. rewrite decide_False by (intros [?%elem_of_seq _]; lia). by destruct (threads db !! id).
      * destruct (Nat.ltb_spec id (p + k)) as [Hlt|Hge2].
        -- rewrite (proj2 (Nat.eqb_neq id (p + k))) by lia. rewrite decide_True by (rewrite elem_of_seq; lia). by destruct (threads db !! id).
        -- rewrite decide_False by (intros [?%elem_of_seq _]; lia). destruct (id =? p + k)%nat; by destruct (threads db !! id).
Qed.
End Finish.

(** ** The invariant *)

Section Inv.
Context `{CS : Checksum} {W Ev : Type} {WF : WritableFile W} {LF : LogFiles Ev W}.
Context (C : Comparator) {L : ComparatorLaws C} (mem_usage : MemTable -> Z) (options : Options) (dbname : bytes) (seq0 : Z).
(** When the files work the log has the batches of the memtable. *)
Context (works : Prop) (wf_contents : W -> bytes).
Context (Hworks : works -> WritableFileLaws WF wf_contents /\ forall f e r e', NewWritableFile f e = (inr r : Status + W, e' : Ev) -> wf_contents r = []).
(** The memtables that the background thread has written out and dropped. *)
Context (D : list MemTable).
Implicit Types (db : DBState (W := W) (E := Ev)) (t : Thread) (x : Input) (ins : list Input) (H : list Commit).
Notation history := (history seq0).
Notation inputs_ok := (inputs_ok seq0).

(** A thread of a group that was committed has the group's status, or is about
    to return it. *)
Definition committed H (id : nat) t : Prop :=
  exists c, c ∈ H /\ (cm_first c <= id < cm_first c + cm_count c)%nat /\
    (w_pc t = Returned (cm_status c) \/ (w_done t = true /\ w_status t = cm_status c /\ w_pc t = Awake)).

Definition queued x t : Prop := fresh t x /\ (w_pc t = Asleep \/ w_pc t = Awake).

(** The group that the first in the queue writes. *)
Definition writing ins (p : nat) (last : Z) (tmp : bytes) x t (lw : nat) (in_tmp : bool) (sq : Z) : Prop :=
  w_done t = false /\ w_sync t = x.2 /\ (exists ops, x.1 = Some ops) /\
  exists k, (1 <= k)%nat /\ (p + k <= length ins)%nat /\ lw = (p + k - 1)%nat /\ sq = last + zlen (group_ops ins p k) /\
    (forall y : Input, y ∈ take k (drop p ins) -> y.2 = true -> x.2 = true) /\
    (if in_tmp then Some tmp else w_batch t) = Some (SetSequence (build (group_ops ins p k)) (last + 1)) /\
    (in_tmp = false -> tmp = WriteBatch_Clear).

Definition front_ok ins (p : nat) (last : Z) (tmp : bytes) x t : Prop :=
  match w_pc t with
  | Awake | Delayed _ | Waiting _ _ | Resumed _ _ => fresh t x /\ tmp = WriteBatch_Clear
  | Logging lw in_tmp sq | Logged lw in_tmp sq _ _ => writing ins p last tmp x t lw in_tmp sq
  | Asleep | Returned _ => False
  end.

(** A group that is in the memtable and not committed yet. *)
Definition pending ins (p : nat) (last : Z) (ts : list Thread) : list (Z * list Op) :=
  match ts !! p with
  | Some t => match w_pc t with Logged lw _ _ OK _ => [(last + 1, group_ops ins p (lw - p + 1))] | _ => [] end
  | None => []
  end.

(** A memtable of these groups. *)
Definition holds_groups (m : MemTable) (A : list (Z * list Op)) : Prop := mem_repr (C := C) m (entries_of A).

(** The memtables hold the applied groups: the oldest are in those that were
    dropped, then come the immutable one and the current one. *)
Definition mems_ok (A pend : list (Z * list Op)) (last : Z) (mem : MemTable) (imm : option MemTable) (log : Writer W) : Prop :=
  exists As A2 A3, A = concat As ++ A2 ++ A3 /\ Forall2 holds_groups D As /\ mem_repr (C := C) mem (entries_of (A3 ++ pend)) /\
    match imm with Some m => holds_groups m A2 | None => A2 = [] end /\ (forall e, e ∈ entries_of A3 -> e_seq e <= last) /\
    (works -> logged wf_contents log (map batch_record (A3 ++ pend))).

Record inv ins H (p : nat) db : Prop := {
  iv_history : history ins H p (LastSequence db);
  iv_length : length (threads db) = length ins;
  iv_queue : writers_ db = seq p (length ins - p);
  iv_done : forall id t, (id < p)%nat -> threads db !! id = Some t -> committed H id t;
  iv_queued : forall id t x, (p < id)%nat -> threads db !! id = Some t -> ins !! id = Some x -> queued x t;
  iv_front : forall t x, threads db !! p = Some t -> ins !! p = Some x -> front_ok ins p (LastSequence db) (tmp_batch_ db) x t;
  iv_tmp : p = length ins -> tmp_batch_ db = WriteBatch_Clear;
  iv_mem : mems_ok (applied ins H) (pending ins p (LastSequence db) (threads db)) (LastSequence db) (mem_ db) (imm_ db) (log_ db);
}.

Lemma inv_p_le ins H p db : inv ins H p db -> (p <= length ins)%nat.
Proof. intros Hi. by apply (history_bound _ _ _ _ _ (iv_history _ _ _ _ Hi)). Qed.

(** What the invariant looks at. *)
Lemma inv_ext ins H p db db' :
  threads db' = threads db -> writers_ db' = writers_ db -> tmp_batch_ db' = tmp_batch_ db -> LastSequence db' = LastSequence db ->
  mem_ db' = mem_ db -> imm_ db' = imm_ db -> log_ db' = log_ db -> inv ins H p db -> inv ins H p db'.
Proof. intros E1 E2 E3 E4 E5 E6 E7 [H1 H2 H3 H4 H5 H6 H7 H8]. split; rewrite ?E1, ?E2, ?E3, ?E4, ?E5, ?E6, ?E7; done. Qed.

(** Other threads change by signals at most. *)
Lemma pending_front ins p last ts ts' :
  (forall t t', ts !! p = Some t -> ts' !! p = Some t' -> match w_pc t with Logged _ _ _ _ _ => w_pc t' = w_pc t | _ => match w_pc t' with Logged _ _ _ _ _ => False | _ => True end end) ->
  length ts = length ts' -> pending ins p last ts' = pending ins p last ts.
Proof.
  intros Hf Hl. unfold pending. destruct (ts !! p) as [t|] eqn:E.
  - destruct (lookup_lt_is_Some_2 ts' p) as [t' E']; [rewrite <- Hl; by eapply lookup_lt_Some|]. rewrite E'. specialize (Hf t t' eq_refl E').
    destruct (w_pc t); [..|by rewrite Hf|]; by destruct (w_pc t').
  - apply lookup_ge_None in E. by rewrite lookup_ge_None_2 by lia.
Qed.

(** The first thread changes; it does not come from the log. *)
Lemma inv_front_update ins H p db f :
  inv ins H p db ->
  (forall t x, threads db !! p = Some t -> ins !! p = Some x -> front_ok ins p (LastSequence db) (tmp_batch_ db) x (f t)) ->
  pending ins p (LastSequence db) (alter f p (threads db)) = pending ins p (LastSequence db) (threads db) ->
  inv ins H p (update p f db).
Proof.
  intros [H1 H2 H3 H4 H5 H6 H7 H8] Hf Hp. split; cbn; try done.
  - by rewrite length_alter.
  - intros id t Hid Ht. rewrite list_lookup_alter_ne in Ht by lia. by apply H4.
  - intros id t x Hid Ht. rewrite list_lookup_alter_ne in Ht by lia. by apply H5.
  - intros t x Ht Hx. rewrite list_lookup_alter_eq in Ht. destruct (threads db !! p) as [t0|] eqn:E; [|done].
    injection Ht as <-. by apply Hf.
  - by rewrite Hp.
Qed.

(** The end of a group. *)
Lemma finish_commit ins H p k sq s written db :
  let c := mkCommit p k sq s written in
  history ins (H ++ [c]) (p + k) (LastSequence db) -> (1 <= k)%nat -> (p + k <= length ins)%nat ->
  length (threads db) = length ins -> writers_ db = seq p (length ins - p) ->
  (forall id t, (id < p)%nat -> threads db !! id = Some t -> committed H id t) ->
  (forall id t x, (p < id)%nat -> threads db !! id = Some t -> ins !! id = Some x -> queued x t) ->
  tmp_batch_ db = WriteBatch_Clear -> mems_ok (applied ins (H ++ [c])) [] (LastSequence db) (mem_ db) (imm_ db) (log_ db) ->
  exists db', finish p (p + k - 1) s db = Some db' /\ inv ins (H ++ [c]) (p + k) db'.
Proof.
  intros c Hh Hk Hp Hlen Hq Hdone Hque Htmp Hmem.
  destruct (finish_spec p k (length ins - (p + k)) s db Hk) as (ts & E & Hl & Hts).
  { rewrite Hq. f_equal. lia. } { lia. }
  eexists. split; [exact E|].
  assert (Hid : forall id t', ts !! id = Some t' -> exists t, threads db !! id = Some t /\ t' = finished p k s id t).
  { intros id t' Ht. rewrite Hts in Ht. destruct (threads db !! id) as [t|]; [|done]. injection Ht as <-. by exists t. }
  assert (Hfront : forall t' x, ts !! (p + k)%nat = Some t' -> ins !! (p + k)%nat = Some x -> fresh t' x /\ w_pc t' = Awake).
  { intros t' x Ht Hx. destruct (Hid _ _ Ht) as (t & Et & ->). destruct (Hque (p + k)%nat t x ltac:(lia) Et Hx) as [Hf Hpc].
    unfold finished. rewrite (proj2 (Nat.eqb_neq (p + k) p)), (proj2 (Nat.ltb_ge (p + k) p)), Nat.ltb_irrefl, Nat.eqb_refl by lia.
    unfold signal. destruct Hpc as [-> | Epc]; [by split|]. rewrite Epc. by split. }
  split; cbn [with_queue with_threads threads writers_ tmp_batch_ LastSequence mem_ imm_].
  - done.
  - by rewrite Hl.
  - f_equal.
  - intros id t' Hlt Ht. destruct (Hid _ _ Ht) as (t & Et & ->). unfold finished.
    assert (Hc : forall c0 t0, c0 ∈ H -> committed [c0] id t0 -> committed (H ++ [c]) id t0).
    { intros c0 t0 Hc0 (c1 & ->%list_elem_of_singleton & Hr). exists c0. split; [apply elem_of_app; by left|done]. }
    destruct (Nat.eqb_spec id p) as [->|Hne]; [|destruct (Nat.ltb_spec id p) as [Hlt2|Hge]].
    + exists c. split; [apply elem_of_app; right; by left|]. cbn. split; [lia|by left].
    + destruct (Hdone id t Hlt2 Et) as (c0 & Hc0 & Hr). exists c0. split; [apply elem_of_app; by left|done].
    + rewrite (proj2 (Nat.ltb_lt id (p + k))) by lia. exists c. split; [apply elem_of_app; right; by left|]. cbn. split; [lia|]. right.
      destruct (lookup_lt_is_Some_2 ins id ltac:(lia)) as [x Ex]. destruct (Hque id t x ltac:(lia) Et Ex) as [_ Hpc].
      unfold complete, signal. cbn. destruct Hpc as [-> | ->]; done.
  - intros id t' x Hlt Ht Hx. destruct (Hid _ _ Ht) as (t & Et & ->). unfold finished.
    rewrite (proj2 (Nat.eqb_neq id p)), (proj2 (Nat.ltb_ge id p)), (proj2 (Nat.ltb_ge id (p + k))), (proj2 (Nat.eqb_neq id (p + k))) by lia.
    apply (Hque id); [lia|done|done].
  - intros t' x Ht Hx. destruct (Hfront t' x Ht Hx) as [Hf Epc]. unfold front_ok. rewrite Epc. by split.
  - done.
  - assert (Epend : pending ins (p + k) (LastSequence db) ts = []); [|by rewrite Epend].
    unfold pending. destruct (ts !! (p + k)%nat) as [t'|] eqn:Et; [|done].
    destruct (lookup_lt_is_Some_2 ins (p + k)%nat) as [x Ex]; [rewrite <- Hlen, <- Hl; by eapply lookup_lt_Some|].
    by destruct (Hfront t' x eq_refl Ex) as [_ ->].
Qed.

(** Before the group is written nothing is pending. *)
Lemma pending_none ins p last ts :
  (forall t, ts !! p = Some t -> match w_pc t with Logged _ _ _ _ _ => False | _ => True end) -> pending ins p last ts = [].
Proof. intros Hn. unfold pending. destruct (ts !! p) as [t|]; [|done]. specialize (Hn t eq_refl). by destruct (w_pc t). Qed.

Lemma refuse_inv ins H p db x s :
  inv ins H p db -> ins !! p = Some x -> (s = OK -> x.1 = None) -> tmp_batch_ db = WriteBatch_Clear ->
  pending ins p (LastSequence db) (threads db) = [] ->
  exists db', finish p p s db = Some db' /\ exists c, inv ins (H ++ [c]) (p + 1) db'.
Proof.
  intros [H1 H2 H3 H4 H5 H6 H7 H8] Hx Hs Htmp Hpend. pose proof (lookup_lt_Some _ _ _ Hx) as Hlt.
  destruct (finish_commit ins H p 1 (LastSequence db + 1) s false db) as (db' & E & Hi); [|lia|lia|done..| |].
  - by apply (history_single _ _ _ _ _ _ x).
  - rewrite applied_snoc. cbn. rewrite app_nil_r. by rewrite Hpend in H8.
  - replace (p + 1 - 1)%nat with p in E by lia. exists db'. split; [done|]. by eexists.
Qed.

Lemma others_fresh ins H p db :
  inv ins H p db -> (p < length ins)%nat ->
  exists others, mapM (fun w => threads db !! w) (tail (writers_ db)) = Some others /\ Forall2 fresh others (drop (p + 1) ins).
Proof.
  intros Hi Hp. rewrite (iv_queue _ _ _ _ Hi). replace (length ins - p)%nat with (S (length ins - (p + 1))) by lia. cbn [seq tail].
  exists (drop (p + 1) (threads db)). split.
  - apply mapM_Some_2. apply Forall2_same_length_lookup_2; [rewrite length_drop, length_seq, (iv_length _ _ _ _ Hi); lia|].
    intros i w t Hw Ht. apply lookup_seq in Hw as [-> Hlt]. rewrite lookup_drop in Ht. by rewrite <- Ht, Nat.add_1_r.
  - apply Forall2_same_length_lookup_2; [by rewrite !length_drop, (iv_length _ _ _ _ Hi)|].
    intros i t x. rewrite !lookup_drop. intros Ht Hx. by apply (iv_queued _ _ _ _ Hi (p + 1 + i)%nat t x ltac:(lia)).
Qed.

(** What a turn of a thread gives: the invariant, with no commit or some more. *)
Definition goes_on ins H (r : option (DBState (W := W) (E := Ev))) : Prop :=
  exists db H' p', r = Some db /\ inv ins (H ++ H') p' db.

Lemma goes_on_same ins H p db : inv ins H p db -> goes_on ins H (Some db).
Proof. intros Hi. exists db, [], p. by rewrite app_nil_r. Qed.

Lemma after_room_inv ins H p db t x s :
  inputs_ok ins -> inv ins H p db -> threads db !! p = Some t -> ins !! p = Some x -> fresh t x -> tmp_batch_ db = WriteBatch_Clear ->
  pending ins p (LastSequence db) (threads db) = [] -> goes_on ins H (after_room p s db).
Proof.
  intros Hin Hi Ht Hx Hf Htmp Hpend. pose proof (lookup_lt_Some _ _ _ Hx) as Hp. unfold after_room. rewrite Ht. cbn [mbind option_bind].
  assert (Hrefuse : (s = OK -> x.1 = None) -> goes_on ins H (finish p p s db)).
  { intros Hs. destruct (refuse_inv ins H p db x s Hi Hx Hs Htmp Hpend) as (db' & -> & c & Hi'). by exists db', [c], (p + 1)%nat. }
  destruct x as [[ops|] sync]; destruct Hf as (Eb & Es & Ed); rewrite Eb; cbn [fst snd fmap option_fmap option_map] in *; [|by apply Hrefuse].
  destruct s as [|code msg]; cbn [ok]; [|by apply Hrefuse].
  destruct (others_fresh ins H p db Hi Hp) as (others & -> & Ho). cbn [mbind option_bind]. rewrite Htmp.
  pose proof (iv_history _ _ _ _ Hi) as Hh.
  assert (Egroup : forall m, group_ops ins p (S m) = ops ++ concat (map ops_of (take m (drop (p + 1) ins)))).
  { intros m. unfold group_ops. rewrite (drop_S _ _ _ Hx). cbn [take map concat]. by rewrite Nat.add_1_r. }
  destruct (BuildBatchGroup_spec t others ops sync (drop (p + 1) ins)) as (m & in_tmp & -> & Hm & Hsy & Hintmp); [by split|done| |].
  { destruct (group_fits seq0 ins H p (LastSequence db) (S (length (drop (p + 1) ins))) Hh Hin) as (_ & Hlt & _). rewrite Egroup, firstn_all in Hlt. exact Hlt. }
  rewrite length_drop in Hm. cbn [mbind option_bind]. rewrite <- Egroup.
  assert (Eq : writers_ db !! m = Some (p + m)%nat) by (rewrite (iv_queue _ _ _ _ Hi); apply lookup_seq; lia). rewrite Eq. cbn [mbind option_bind].
  destruct (group_fits seq0 ins H p (LastSequence db) (S m) Hh Hin) as (Hfit & Hlt & H0 & Hmax). change kMaxSequenceNumber with (2 ^ 56 - 1) in Hmax.
  pose proof (zlen_nonneg (group_ops ins p (S m))). rewrite (u64_small (LastSequence db + 1)) by lia.
  rewrite (build_batch _ Hlt), SetSequence_batch, Count_batch, <- (SetSequence_batch 0), <- (build_batch _ Hlt) by lia. rewrite (u64_small (_ + zlen _)) by lia.
  set (result := SetSequence (build (group_ops ins p (S m))) (LastSequence db + 1)).
  set (db1 := if in_tmp then with_tmp result db else update p (with_batch result) db).
  assert (Et1 : exists t1, threads db1 !! p = Some t1 /\ w_done t1 = false /\ w_sync t1 = sync /\ (if in_tmp then Some (tmp_batch_ db1) else w_batch t1) = Some result).
  { unfold db1. destruct in_tmp; [by exists t|]. cbn. rewrite list_lookup_alter_eq, Ht. by eexists. }
  destruct Et1 as (t1 & Et1 & Ed1 & Es1 & Eres).
  assert (Etmp1 : in_tmp = false -> tmp_batch_ db1 = WriteBatch_Clear) by (intros ->; exact Htmp).
  assert (Eoth : forall id, id <> p -> threads (update p (at_pc (Logging (p + m) in_tmp (LastSequence db + zlen (group_ops ins p (S m))))) db1) !! id = threads db !! id).
  { intros id Hid. cbn. rewrite list_lookup_alter_ne by done. unfold db1. destruct in_tmp; [done|]. cbn. by rewrite list_lookup_alter_ne. }
  assert (E1 : threads (update p (at_pc (Logging (p + m) in_tmp (LastSequence db + zlen (group_ops ins p (S m))))) db1) !! p =
      Some (at_pc (Logging (p + m) in_tmp (LastSequence db + zlen (group_ops ins p (S m)))) t1)) by (cbn; by rewrite list_lookup_alter_eq, Et1).
  set (db2 := update p _ db1) in *.
  assert (Erest : writers_ db2 = writers_ db /\ LastSequence db2 = LastSequence db /\ mem_ db2 = mem_ db /\ imm_ db2 = imm_ db /\ log_ db2 = log_ db /\ tmp_batch_ db2 = tmp_batch_ db1 /\ length (threads db2) = length (threads db)).
  { unfold db2, db1. destruct in_tmp; cbn; rewrite ?length_alter; tauto. }
  destruct Erest as (Ew & El & Emem & Eimm & Elog & Etm & Elen). apply (goes_on_same ins H p).
  destruct Hi as [I1 I2 I3 I4 I5 I6 I7 I8]. split.
  - by rewrite El.
  - by rewrite Elen.
  - by rewrite Ew.
  - intros id t' Hid Ht'. rewrite Eoth in Ht' by lia. by apply I4.
  - intros id t' x' Hid Ht' Hx'. rewrite Eoth in Ht' by lia. by apply (I5 id).
  - intros t' x' Ht' Hx'. rewrite E1 in Ht'. injection Ht' as <-. assert (x' = (Some ops, sync)) as -> by congruence.
    unfold front_ok. cbn [w_pc at_pc]. rewrite El, Etm. split; [done|]. split; [done|]. split; [by exists ops|].
    exists (S m). split; [lia|]. split; [lia|]. split; [lia|]. split; [done|]. split; [|by split].
    intros y Hy Hsync. rewrite (drop_S _ _ _ Hx) in Hy. cbn [take] in Hy. apply elem_of_cons in Hy as [->|Hy]; [done|].
    apply (Hsy y); [by rewrite Nat.add_1_r|done].
  - lia.
  - rewrite El, Emem, Eimm, Elog. rewrite (pending_none ins p _ (threads db2)); [by rewrite Hpend in I8|]. intros t' Ht'. rewrite E1 in Ht'. by injection Ht' as <-.
Qed.
(** ** The turns of a thread *)

Lemma SignalAll_lookup db id :
  threads (SignalAll db) !! id = (fun t => match w_pc t with Waiting f d => at_pc (Resumed f d) t | _ => t end) <$> threads db !! id.
Proof. apply list_lookup_fmap. Qed.

Lemma SignalAll_inv ins H p db : inv ins H p db -> inv ins H p (SignalAll db).
Proof.
  intros [H1 H2 H3 H4 H5 H6 H7 H8]. split; try exact H1; try exact H3; try exact H7.
  - rewrite <- H2. apply length_map.
  - intros id t Hid Ht. rewrite SignalAll_lookup in Ht. apply fmap_Some in Ht as (t0 & Ht0 & ->). pose proof (H4 id t0 Hid Ht0) as Hc.
    destruct (w_pc t0) eqn:Epc; try exact Hc. destruct Hc as (c & _ & _ & [Ec|(_ & _ & Ec)]); congruence.
  - intros id t x Hid Ht Hx. rewrite SignalAll_lookup in Ht. apply fmap_Some in Ht as (t0 & Ht0 & ->). pose proof (H5 id t0 x Hid Ht0 Hx) as Hc.
    destruct (w_pc t0) eqn:Epc; try exact Hc. destruct Hc as (_ & [Ec|Ec]); congruence.
  - intros t x Ht Hx. rewrite SignalAll_lookup in Ht. apply fmap_Some in Ht as (t0 & Ht0 & ->). pose proof (H6 t0 x Ht0 Hx) as Hc.
    destruct (w_pc t0) eqn:Epc; try exact Hc. unfold front_ok in *. by rewrite Epc in Hc.
  - replace (pending ins p (LastSequence (SignalAll db)) (threads (SignalAll db))) with (pending ins p (LastSequence db) (threads db)); [exact H8|].
    unfold pending. rewrite SignalAll_lookup. destruct (threads db !! p) as [t|]; [|done]. cbn. by destruct (w_pc t) eqn:Epc; cbn; rewrite ?Epc.
Qed.

Lemma RecordBackgroundError_inv ins H p s db : inv ins H p db -> inv ins H p (RecordBackgroundError s db).
Proof. intros Hi. unfold RecordBackgroundError. destruct (ok (bg_error_ db)); [|done]. apply SignalAll_inv. by eapply inv_ext; [..|exact Hi]. Qed.

Lemma MaybeScheduleCompaction_inv ins H p db : inv ins H p db -> inv ins H p (MaybeScheduleCompaction db).
Proof. intros Hi. unfold MaybeScheduleCompaction. repeat case_match; try exact Hi; by eapply inv_ext; [..|exact Hi]. Qed.

(** The first writer is not writing yet. *)
Definition before_write t : Prop :=
  match w_pc t with Awake | Delayed _ | Waiting _ _ | Resumed _ _ => True | _ => False end.
Definition front_before (p : nat) db : Prop := forall t, threads db !! p = Some t -> before_write t.

Lemma front_before_pending ins p db : front_before p db -> pending ins p (LastSequence db) (threads db) = [].
Proof. intros Hb. apply pending_none. intros t Ht. specialize (Hb t Ht). unfold before_write in Hb. by destruct (w_pc t). Qed.

Lemma front_before_ok ins H p db :
  inv ins H p db -> front_before p db -> (p < length ins)%nat ->
  exists t x, threads db !! p = Some t /\ ins !! p = Some x /\ fresh t x /\ tmp_batch_ db = WriteBatch_Clear.
Proof.
  intros Hi Hb Hp. destruct (lookup_lt_is_Some_2 ins p Hp) as [x Hx].
  destruct (lookup_lt_is_Some_2 (threads db) p) as [t Ht]; [rewrite (iv_length _ _ _ _ Hi); lia|].
  exists t, x. pose proof (iv_front _ _ _ _ Hi t x Ht Hx) as Hf. specialize (Hb t Ht). unfold front_ok, before_write in *. by destruct (w_pc t).
Qed.

Lemma after_room_goes_on ins H p db s :
  inputs_ok ins -> inv ins H p db -> front_before p db -> (p < length ins)%nat -> goes_on ins H (after_room p s db).
Proof.
  intros Hin Hi Hb Hp. destruct (front_before_ok _ _ _ _ Hi Hb Hp) as (t & x & Ht & Hx & Hf & Htmp).
  by apply (after_room_inv ins H p db t x s Hin Hi Ht Hx Hf Htmp (front_before_pending ins p db Hb)).
Qed.

(** It sleeps in [MakeRoomForWrite], or goes on there. *)
Lemma park_inv ins H p db pc :
  inv ins H p db -> front_before p db -> before_write (at_pc pc (mkThread None false false OK Asleep)) ->
  inv ins H p (update p (at_pc pc) db).
Proof.
  intros Hi Hb Hpc. apply inv_front_update; [exact Hi| |].
  - intros t x Ht Hx. pose proof (iv_front _ _ _ _ Hi t x Ht Hx) as Hf. specialize (Hb t Ht). unfold front_ok, before_write in *.
    destruct (w_pc t); try contradiction; cbn in *; by destruct pc.
  - rewrite (front_before_pending ins p db Hb). apply pending_none. intros t Ht. rewrite list_lookup_alter_eq in Ht.
    apply fmap_Some in Ht as (t0 & _ & ->). cbn in *. by destruct pc.
Qed.

Lemma switch_inv ins H p db :
  inv ins H p db -> front_before p db -> imm_ db = None ->
  inv ins H p (switch_memtable dbname db).2 /\ front_before p (switch_memtable dbname db).2 /\
  ((switch_memtable dbname db).1 = None -> exists m, imm_ (switch_memtable dbname db).2 = Some m).
Proof.
  intros Hi Hb Himm. unfold switch_memtable. destruct (NewWritableFile _ _) as [[s|lfile] env] eqn:Enew.
  { split; [by eapply inv_ext; [..|exact Hi]|]. by split. }
  set (db1 := with_numbers _ _ env db). cbn [fst snd].
  assert (H1 : inv ins H p db1 /\ front_before p db1 /\ imm_ db1 = None) by (split; [by eapply inv_ext; [..|exact Hi]|by split]).
  set (db2 := if ok _ then db1 else _).
  assert (H2 : inv ins H p db2 /\ front_before p db2 /\ imm_ db2 = None).
  { unfold db2. destruct (ok _); [exact H1|]. destruct H1 as (I1 & B1 & M1). split; [by apply RecordBackgroundError_inv|].
    unfold RecordBackgroundError. destruct (ok (bg_error_ db1)); [|by split]. split; [|exact M1].
    intros t Ht. rewrite SignalAll_lookup in Ht. apply fmap_Some in Ht as (t0 & Ht0 & ->). specialize (B1 t0 Ht0).
    unfold before_write in *. by destruct (w_pc t0) eqn:Epc; rewrite ?Epc. }
  clearbody db2. clear db1 H1. destruct H2 as (I2 & B2 & M2).
  set (db3 := with_mem _ _). assert (I3 : inv ins H p db3).
  { destruct I2 as [A1 A2 A3 A4 A5 A6 A7 A8]. split; try done. unfold db3. cbn [with_mem with_imm with_log imm_ mem_ threads LastSequence].
    rewrite (front_before_pending ins p db2 B2) in *. destruct A8 as (E1 & E2 & E3 & EA & HD & Hm & E2n & _). rewrite M2 in E2n. subst E2. rewrite app_nil_r in Hm.
    exists E1, E3, []. split; [by rewrite EA, app_nil_r|]. split; [done|]. split; [apply MemTable_new_repr|]. split; [exact Hm|].
    split; [by intros e ?%elem_of_nil|]. intros Hwk. apply logged_new. exact (proj2 (Hworks Hwk) _ _ _ _ Enew). }
  split; [by apply MaybeScheduleCompaction_inv|]. unfold MaybeScheduleCompaction. split; [|intros _; exists (mem_ db2)]; repeat case_match; done.
Qed.

Lemma room_loop_last ins H p fuel allow_delay db m :
  inputs_ok ins -> inv ins H p db -> front_before p db -> (p < length ins)%nat -> imm_ db = Some m ->
  goes_on ins H (room_loop mem_usage options dbname (S fuel) false allow_delay p db).
Proof.
  intros Hin Hi Hb Hp Himm. cbn [room_loop]. destruct (negb _); [by apply after_room_goes_on|].
  destruct (allow_delay && _); [apply (goes_on_same ins H p); by apply park_inv|].
  destruct (negb false && _); [by apply after_room_goes_on|]. rewrite Himm. apply (goes_on_same ins H p). by apply park_inv.
Qed.

Lemma room_goes_on ins H p force allow_delay db :
  inputs_ok ins -> inv ins H p db -> front_before p db -> (p < length ins)%nat ->
  goes_on ins H (room mem_usage options dbname force allow_delay p db).
Proof.
  intros Hin Hi Hb Hp. unfold room. cbn [room_loop]. destruct (negb _); [by apply after_room_goes_on|].
  destruct (allow_delay && _); [apply (goes_on_same ins H p); by apply park_inv|].
  destruct (negb force && _); [by apply after_room_goes_on|].
  destruct (imm_ db) as [m|] eqn:Himm; [apply (goes_on_same ins H p); by apply park_inv|].
  destruct (_ <=? level0_files db); [apply (goes_on_same ins H p); by apply park_inv|].
  destruct (switch_inv ins H p db Hi Hb Himm) as (Hi' & Hb' & Hm'). destruct (switch_memtable dbname db) as [[s|] db']; cbn [fst snd] in *.
  - by apply after_room_goes_on.
  - destruct (Hm' eq_refl) as [m Em]. by apply (room_loop_last ins H p 0 allow_delay db' m).
Qed.
(** ** The log and the memtable *)

Lemma logged_inv ins H p db t x lw in_tmp sq log s sync_error :
  inv ins H p db -> threads db !! p = Some t -> ins !! p = Some x -> w_pc t = Logging lw in_tmp sq -> s <> OK -> ~ works ->
  inv ins H p (update p (at_pc (Logged lw in_tmp sq s sync_error)) (with_log log db)).
Proof.
  intros Hi Ht Hx Epc Hs Hnw. pose proof (iv_front _ _ _ _ Hi t x Ht Hx) as Hf. unfold front_ok in Hf. rewrite Epc in Hf.
  apply inv_front_update.
  - destruct Hi as [I1 I2 I3 I4 I5 I6 I7 (A1 & A2 & A3 & EA & HD & Hm & Himm & Hseq & _)]. split; try done. by exists A1, A2, A3.
  - intros t' x' Ht' Hx'. cbn in Ht'. assert (t' = t) as -> by congruence. assert (x' = x) as -> by congruence. exact Hf.
  - cbn [with_log threads LastSequence]. unfold pending. rewrite list_lookup_alter_eq, Ht. cbn. rewrite Epc. by destruct s.
Qed.

Lemma write_log_inv ins H p db t lw in_tmp sq :
  inputs_ok ins -> inv ins H p db -> threads db !! p = Some t -> (p < length ins)%nat -> w_pc t = Logging lw in_tmp sq ->
  goes_on ins H (write_log C p t lw in_tmp sq db).
Proof.
  intros Hin Hi Ht Hp Epc. destruct (lookup_lt_is_Some_2 ins p Hp) as [x Hx].
  pose proof (iv_front _ _ _ _ Hi t x Ht Hx) as Hf. unfold front_ok in Hf. rewrite Epc in Hf.
  destruct Hf as (Ed & Es & Hops & k & Hk & Hpk & -> & -> & Hsy & Eb & Etmp). unfold write_log. rewrite Eb. cbn [mbind option_bind].
  pose proof (iv_mem _ _ _ _ Hi) as (A1 & A2 & A3 & EA & HD & Hm & Himm & Hseq & Hlog).
  rewrite (pending_none ins p _ (threads db)), app_nil_r in Hm, Hlog by (intros t' Ht'; assert (t' = t) as -> by congruence; by rewrite Epc).
  change (SetSequence (build (group_ops ins p k)) (LastSequence db + 1)) with (batch_record (LastSequence db + 1, group_ops ins p k)).
  destruct (AddRecord (log_ db) _) as [s1 log1] eqn:Eadd.
  set (r := if ok s1 && w_sync t then _ else _). destruct r as [[s2 sync_error] log2] eqn:Er.
  assert (Hlog2 : works -> s2 = OK /\ logged wf_contents log2 (map batch_record (A3 ++ [(LastSequence db + 1, group_ops ins p k)]))).
  { intros Hwk. destruct (Hworks Hwk) as [WL _]. destruct (logged_AddRecord wf_contents (log_ db) _ (batch_record (LastSequence db + 1, group_ops ins p k)) (Hlog Hwk)) as (log' & El & Hl).
    rewrite Eadd in El. injection El as -> ->. rewrite map_app. cbn [ok andb] in r. unfold r in Er. destruct (w_sync t); [|by injection Er as <- _ <-].
    destruct (wf_Sync_ok (dest_ log')) as (d & Ed' & Hd). rewrite Ed' in Er. injection Er as <- _ <-. split; [done|]. by apply logged_dest. }
  assert (Hfail : s2 <> OK -> goes_on ins H (Some (update p (at_pc (Logged (p + k - 1) in_tmp (LastSequence db + zlen (group_ops ins p k)) s2 sync_error)) (with_log log2 db)))).
  { intros Hs. apply (goes_on_same ins H p). apply (logged_inv ins H p db t x); try done. intros Hwk. by destruct (Hlog2 Hwk). }
  destruct s2 as [|code msg]; cbn [ok]; [|by apply Hfail]. clear Hfail r Er.
  pose proof Hi as [I1 I2 I3 I4 I5 I6 I7 _].
  destruct (group_fits seq0 ins H p (LastSequence db) k I1 Hin) as (Hfit & Hlt & H0 & Hmax).
  destruct (InsertInto_build (group_ops ins p k) (LastSequence db + 1) (mem_ db) (entries_of A3) Hm) as (mem' & E & Hm'); [|lia|lia|done|done|].
  { intros e He. specialize (Hseq e He). lia. }
  change (SetSequence (build (group_ops ins p k)) (LastSequence db + 1)) with (batch_record (LastSequence db + 1, group_ops ins p k)) in E.
  cbn [with_log mem_]. rewrite E. cbn [mbind option_bind]. apply (goes_on_same ins H p).
  assert (Et : alter (at_pc (Logged (p + k - 1) in_tmp (LastSequence db + zlen (group_ops ins p k)) OK sync_error)) p (threads db) !! p
      = Some (at_pc (Logged (p + k - 1) in_tmp (LastSequence db + zlen (group_ops ins p k)) OK sync_error) t)) by (by rewrite list_lookup_alter_eq, Ht).
  split; cbn [update with_threads with_mem with_log threads writers_ tmp_batch_ LastSequence mem_ imm_ log_].
  - done.
  - by rewrite length_alter.
  - done.
  - intros id t' Hid Ht'. rewrite list_lookup_alter_ne in Ht' by lia. by apply I4.
  - intros id t' x' Hid Ht' Hx'. rewrite list_lookup_alter_ne in Ht' by lia. by apply (I5 id).
  - intros t' x' Ht' Hx'. rewrite Et in Ht'. injection Ht' as <-. assert (x' = x) as -> by congruence.
    cbn. split; [done|]. split; [done|]. split; [done|]. exists k. done.
  - done.
  - exists A1, A2, A3. split; [done|]. split; [done|]. unfold pending. rewrite Et. cbn [at_pc w_pc].
    replace (p + k - 1 - p + 1)%nat with k by lia. split; [by rewrite entries_of_snoc|]. split; [done|]. split; [done|]. intros Hwk. by apply Hlog2.
Qed.

(** The group is committed. *)
Lemma commit_inv ins H p db t lw in_tmp sq s sync_error :
  inputs_ok ins -> inv ins H p db -> threads db !! p = Some t -> (p < length ins)%nat -> w_pc t = Logged lw in_tmp sq s sync_error ->
  goes_on ins H (thread_step C mem_usage options dbname p db).
Proof.
  intros Hin Hi Ht Hp Epc. destruct (lookup_lt_is_Some_2 ins p Hp) as [x Hx].
  pose proof (iv_front _ _ _ _ Hi t x Ht Hx) as Hf. unfold front_ok in Hf. rewrite Epc in Hf.
  unfold thread_step. rewrite Ht. cbn [mbind option_bind]. rewrite Epc.
  assert (Hp' : pending ins p (LastSequence db) (threads db) = match s with OK => [(LastSequence db + 1, group_ops ins p (lw - p + 1))] | _ => [] end).
  { unfold pending. by rewrite Ht, Epc. }
  set (db1 := if sync_error then RecordBackgroundError s db else db).
  assert (Hi1 : inv ins H p db1) by (unfold db1; destruct sync_error; [by apply RecordBackgroundError_inv|done]).
  assert (Efields : LastSequence db1 = LastSequence db /\ tmp_batch_ db1 = tmp_batch_ db) by (unfold db1, RecordBackgroundError; repeat case_match; done).
  assert (Hp1 : pending ins p (LastSequence db1) (threads db1) = match s with OK => [(LastSequence db + 1, group_ops ins p (lw - p + 1))] | _ => [] end).
  { rewrite <- Hp'. unfold db1, RecordBackgroundError. destruct sync_error; [|done]. destruct (ok (bg_error_ db)); [|done].
    unfold pending. rewrite SignalAll_lookup. cbn. rewrite Ht. cbn. by rewrite Epc, Epc. }
  clearbody db1. destruct Efields as [El Et]. destruct Hf as (Ed & Es & (ops & Eops) & k & Hk & Hpk & -> & -> & Hsy & Eb & Etmp).
  replace (p + k - 1 - p + 1)%nat with k in Hp1 by lia. clear Hp' Hi.
  set (db2 := if in_tmp then with_tmp WriteBatch_Clear db1 else db1).
  assert (Etmp2 : tmp_batch_ db2 = WriteBatch_Clear) by (unfold db2; destruct in_tmp; [done|rewrite Et; by apply Etmp]).
  assert (El2 : LastSequence db2 = LastSequence db1) by (unfold db2; by destruct in_tmp). pose proof (zlen_nonneg (group_ops ins p k)).
  unfold SetLastSequence. rewrite (proj2 (Z.leb_le (LastSequence db2) _)) by lia. cbn [mbind option_bind].
  set (db3 := with_last _ db2). destruct Hi1 as [I1 I2 I3 I4 I5 I6 I7 I8].
  assert (Esame : threads db3 = threads db1 /\ writers_ db3 = writers_ db1 /\ mem_ db3 = mem_ db1 /\ imm_ db3 = imm_ db1 /\ log_ db3 = log_ db1) by (unfold db3, db2; by destruct in_tmp).
  destruct Esame as (E1 & E2 & E3 & E4 & E5).
  destruct (finish_commit ins H p k (LastSequence db + 1) s true db3) as (db' & E & Hi'); rewrite ?E1, ?E2, ?E3, ?E4, ?E5; try done; try lia.
  - cbn. rewrite El in I1. apply history_written; [done..| |].
    + exists ops, x.2. destruct x as [o b]. cbn in Eops. rewrite Eops in Hx. exact Hx.
    + intros x' y Hx' Hy Hsync. assert (x' = x) as -> by congruence. by apply (Hsy y).
  - rewrite El in *. rewrite Hp1 in I8. destruct (group_fits seq0 ins H p (LastSequence db) k I1 Hin) as (_ & _ & Hlast0 & _).
    pose proof (zlen_nonneg (group_ops ins p k)). destruct I8 as (A1 & A2 & A3 & EA & HD & Hm & Himm & Hseq & Hlog).
    rewrite applied_snoc, EA. unfold applied_ops. cbn [cm_written cm_status cm_seq cm_first cm_count andb]. destruct s as [|code msg]; cbn [ok].
    + exists A1, A2, (A3 ++ [(LastSequence db + 1, group_ops ins p k)]). split; [by rewrite <- !app_assoc|]. split; [done|]. rewrite app_nil_r. split; [done|]. split; [done|]. split; [|done].
      intros e He. rewrite entries_of_snoc in He. cbn [db3 with_last LastSequence]. apply batch_entries_elem in He as [He|(i & o & Hi & ->)]; [specialize (Hseq e He); lia|].
      apply lookup_lt_Some in Hi. rewrite (proj1 (op_entry_fields _ _)). unfold zlen. lia.
    + exists A1, A2, A3. rewrite !app_nil_r in *. split; [done|]. split; [done|]. split; [done|]. split; [done|]. split; [|done]. intros e He. specialize (Hseq e He). cbn. lia.
  - rewrite E. by eexists _, _, _.
Qed.
(** ** The queue *)

Lemma inv_other_update ins H p db w f :
  inv ins H p db -> w <> p ->
  (forall t, (w < p)%nat -> threads db !! w = Some t -> committed H w t -> committed H w (f t)) ->
  (forall t x, (p < w)%nat -> threads db !! w = Some t -> ins !! w = Some x -> queued x t -> queued x (f t)) ->
  inv ins H p (update w f db).
Proof.
  intros [I1 I2 I3 I4 I5 I6 I7 I8] Hw Hc Hq.
  assert (E : forall id t', alter f w (threads db) !! id = Some t' -> (id = w /\ exists t, threads db !! w = Some t /\ t' = f t) \/ (id <> w /\ threads db !! id = Some t')).
  { intros id t' Ht. destruct (decide (id = w)) as [->|Hne]; [left|right; by rewrite list_lookup_alter_ne in Ht].
    rewrite list_lookup_alter_eq in Ht. apply fmap_Some in Ht as (t & Ht & ->). split; [done|]. by exists t. }
  split; cbn [update with_threads threads writers_ tmp_batch_ LastSequence mem_ imm_]; try done.
  - by rewrite length_alter.
  - intros id t' Hid Ht'. destruct (E _ _ Ht') as [(-> & t & Ht & ->)|[_ Ht]]; [apply Hc; [done..|]|]; by apply I4.
  - intros id t' x Hid Ht' Hx. destruct (E _ _ Ht') as [(-> & t & Ht & ->)|[_ Ht]]; [apply Hq; [done..|]|]; by apply (I5 _ _ x Hid Ht).
  - intros t' x Ht'. rewrite list_lookup_alter_ne in Ht' by done. by apply I6.
  - unfold pending. rewrite list_lookup_alter_ne by done. exact I8.
Qed.

Lemma test_queue_inv ins H p db w t :
  inputs_ok ins -> inv ins H p db -> threads db !! w = Some t -> w_pc t = Awake -> goes_on ins H (test_queue mem_usage options dbname w db).
Proof.
  intros Hin Hi Ht Epc. pose proof (lookup_lt_Some _ _ _ Ht) as Hw. rewrite (iv_length _ _ _ _ Hi) in Hw. pose proof (inv_p_le _ _ _ _ Hi) as Hp.
  unfold test_queue. rewrite Ht. cbn [mbind option_bind]. destruct (lookup_lt_is_Some_2 ins w Hw) as [x Hx].
  assert (Ehead : (p < length ins)%nat -> head (writers_ db) = Some p).
  { intros Hlt. rewrite (iv_queue _ _ _ _ Hi). by replace (length ins - p)%nat with (S (length ins - S p)) by lia. }
  destruct (lt_eq_lt_dec w p) as [[Hlt| ->]|Hgt].
  - destruct (iv_done _ _ _ _ Hi w t Hlt Ht) as (c & Hc & Hr & [Epc'|(Ed & Es & _)]); [congruence|]. rewrite Ed.
    apply (goes_on_same ins H p). apply inv_other_update; [done|lia| |lia]. intros t' _ Ht' _. assert (t' = t) as -> by congruence.
    exists c. split; [done|]. split; [done|]. left. cbn. by rewrite Es.
  - assert (Hb : front_before p db) by (intros t' Ht'; assert (t' = t) as -> by congruence; unfold before_write; by rewrite Epc).
    pose proof (iv_front _ _ _ _ Hi t x Ht Hx) as Hf. unfold front_ok in Hf. rewrite Epc in Hf. destruct Hf as ((_ & _ & Ed) & _). rewrite Ed.
    rewrite bool_decide_eq_true_2 by (by apply Ehead). by apply room_goes_on.
  - destruct (iv_queued _ _ _ _ Hi w t x Hgt Ht Hx) as ((Eb & Es & Ed) & _). rewrite Ed.
    rewrite bool_decide_eq_false_2 by (rewrite Ehead by lia; intros [= ->]; lia). apply (goes_on_same ins H p).
    apply inv_other_update; [done|lia|lia|]. intros t' x' _ _ _ [Hf _]. split; [exact Hf|by left].
Qed.

Lemma arrive_inv ins H p db x :
  inv ins H p db ->
  inv (ins ++ [x]) H p (with_queue (writers_ db ++ [length (threads db)]) (with_threads (threads db ++ [mkThread (build <$> x.1) x.2 false OK Awake]) db)).
Proof.
  intros Hi. pose proof (inv_p_le _ _ _ _ Hi) as Hp. destruct Hi as [I1 I2 I3 I4 I5 I6 I7 I8].
  set (nt := mkThread _ _ _ _ _). assert (Hnt : fresh nt x /\ w_pc nt = Awake) by done. clearbody nt.
  split; cbn [with_queue with_threads threads writers_ tmp_batch_ LastSequence mem_ imm_].
  - by apply history_extend.
  - by rewrite !length_app, I2.
  - rewrite I3, I2, length_app. cbn [length]. replace (length ins + 1 - p)%nat with (length ins - p + 1)%nat by lia. rewrite seq_app. cbn [seq]. do 2 f_equal. lia.
  - intros id t Hid Ht. rewrite lookup_app_l in Ht by lia. by apply I4.
  - intros id t x' Hid Ht Hx'. destruct (decide (id < length ins)%nat) as [Hlt|Hge].
    + rewrite lookup_app_l in Ht by lia. rewrite lookup_app_l in Hx' by lia. by apply (I5 id).
    + rewrite lookup_app_r in Ht by lia. rewrite lookup_app_r in Hx' by lia. rewrite I2 in Ht. apply list_lookup_singleton_Some in Ht as [_ <-], Hx' as [_ <-].
      split; [apply Hnt|right; apply Hnt].
  - intros t x' Ht Hx'. destruct (decide (p < length ins)%nat) as [Hlt|Hge].
    + rewrite lookup_app_l in Ht by lia. rewrite lookup_app_l in Hx' by lia. specialize (I6 t x' Ht Hx'). unfold front_ok in *.
      assert (Hwr : forall lw in_tmp sq, writing ins p (LastSequence db) (tmp_batch_ db) x' t lw in_tmp sq -> writing (ins ++ [x]) p (LastSequence db) (tmp_batch_ db) x' t lw in_tmp sq).
      { intros lw in_tmp sq (Ed & Es & Ho & k & Hk & Hpk & El & Esq & Hsy & Eb & Et). split; [done|]. split; [done|]. split; [done|]. exists k.
        rewrite group_ops_extend by done. rewrite length_app. repeat split; [done|lia|done|done| |done|done].
        intros y Hy. rewrite drop_app_le in Hy by lia. rewrite take_app_le in Hy by (rewrite length_drop; lia). by apply Hsy. }
      destruct (w_pc t); auto.
    + assert (p = length ins) as -> by lia. rewrite lookup_app_r in Ht by lia. rewrite lookup_app_r in Hx' by lia. rewrite I2 in Ht.
      apply list_lookup_singleton_Some in Ht as [_ <-], Hx' as [_ <-]. unfold front_ok. destruct Hnt as [Hf ->]. split; [done|]. by apply I7.
  - rewrite length_app. cbn. lia.
  - rewrite (applied_extend _ _ _ _ _ _ I1).
    replace (pending (ins ++ [x]) p (LastSequence db) (threads db ++ [nt])) with (pending ins p (LastSequence db) (threads db)); [done|].
    unfold pending. destruct (decide (p < length ins)%nat) as [Hlt|Hge].
    + rewrite lookup_app_l by lia. destruct (threads db !! p) as [t|] eqn:Ht; [|done]. destruct (lookup_lt_is_Some_2 ins p Hlt) as [x' Hx'].
      specialize (I6 t x' eq_refl Hx'). unfold front_ok in I6. destruct (w_pc t) as [| |f|f d|f d|lw0 it0 sq0|lw in_tmp sq s se|r]; try done. destruct s; [|done..].
      destruct I6 as (_ & _ & _ & k & Hk & Hpk & -> & _). rewrite group_ops_extend by lia. done.
    + rewrite lookup_ge_None_2 by lia. rewrite lookup_app_r by lia. rewrite I2. replace (p - length ins)%nat with 0%nat by lia. cbn. by destruct Hnt as [_ ->].
Qed.

Lemma enter_inv ins H p db x :
  inputs_ok (ins ++ [x]) -> inv ins H p db -> goes_on (ins ++ [x]) H (enter mem_usage options dbname (build <$> x.1) x.2 db).
Proof.
  intros Hin Hi. unfold enter. eapply test_queue_inv; [done|by apply arrive_inv| |].
  - cbn. by rewrite lookup_app_r, Nat.sub_diag by lia.
  - done.
Qed.

(** ** Runs *)

Definition enabled (e : Event (E := Ev)) db : bool :=
  match e with
  | EvWrite _ _ | EvBackground _ _ _ _ _ _ _ => true
  | EvStep w => match threads db !! w with Some t => match w_pc t with Asleep | Waiting _ _ | Returned _ => false | _ => true end | None => false end
  | EvSpurious w => match threads db !! w with Some t => match w_pc t with Asleep | Waiting _ _ => true | _ => false end | None => false end
  end.

(** The arguments of the calls of [Write]. *)
Definition call_of (x : Input) : option bytes * bool := (build <$> x.1, x.2).
Definition call (e : Event (E := Ev)) : option (option bytes * bool) := match e with EvWrite b s => Some (b, s) | _ => None end.

Definition more_inputs (e : Event (E := Ev)) (xs : list Input) : Prop := omap call [e] = map call_of xs.

(** The memtable that an event drops. *)
Definition dropped (e : Event (E := Ev)) db : list MemTable :=
  match e with EvBackground true _ _ _ _ _ _ => option_list (imm_ db) | _ => [] end.

Lemma step_keeps ins H p db e xs :
  inputs_ok (ins ++ xs) -> more_inputs e xs -> inv ins H p db -> enabled e db = true -> dropped e db = [] ->
  goes_on (ins ++ xs) H (step C mem_usage options dbname e db).
Proof.
  intros Hin Hxs Hi He Hdrop. destruct e as [b s|w|w|imm_done level0 error scheduled work next env]; cbn [step].
  { unfold more_inputs in Hxs. cbn in Hxs. destruct xs as [|x [|]]; try done. injection Hxs as -> ->. by apply (enter_inv ins H p). }
  all: assert (xs = []) as -> by (unfold more_inputs in Hxs; cbn in Hxs; by destruct xs); rewrite app_nil_r in *.
  - cbn [enabled] in He. unfold thread_step. destruct (threads db !! w) as [t|] eqn:Ht; [|done]. cbn [mbind option_bind].
    assert (Haw : w_pc t = Awake \/ w_pc t <> Awake) by (destruct (w_pc t); by (left + right)). destruct Haw as [Epc|Hna]; [rewrite Epc; by apply (test_queue_inv ins H p db w t)|].
    pose proof (lookup_lt_Some _ _ _ Ht) as Hw. rewrite (iv_length _ _ _ _ Hi) in Hw. destruct (lookup_lt_is_Some_2 ins w Hw) as [x Hx].
    destruct (lt_eq_lt_dec w p) as [[Hlt| ->]|Hgt].
    + destruct (iv_done _ _ _ _ Hi w t Hlt Ht) as (c & _ & _ & [Epc|(_ & _ & Epc)]); rewrite Epc in *; done.
    + destruct (w_pc t) as [| |force|force ad|force ad|lw it sq|lw it sq s se|s] eqn:Epc; try done.
      * apply room_goes_on; try done. intros t' Ht'. assert (t' = t) as -> by congruence. unfold before_write. by rewrite Epc.
      * apply room_goes_on; try done. intros t' Ht'. assert (t' = t) as -> by congruence. unfold before_write. by rewrite Epc.
      * by apply write_log_inv.
      * pose proof (commit_inv ins H p db t lw it sq s se Hin Hi Ht Hw Epc) as Hc. unfold thread_step in Hc. rewrite Ht in Hc. cbn [mbind option_bind] in Hc. by rewrite Epc in Hc.
    + destruct (iv_queued _ _ _ _ Hi w t x Hgt Ht Hx) as [_ [Epc|Epc]]; rewrite Epc in *; done.
  - cbn [enabled] in He. destruct (threads db !! w) as [t|] eqn:Ht; [|done]. cbn [mbind option_bind].
    pose proof (lookup_lt_Some _ _ _ Ht) as Hw. rewrite (iv_length _ _ _ _ Hi) in Hw. destruct (lookup_lt_is_Some_2 ins w Hw) as [x Hx].
    destruct (lt_eq_lt_dec w p) as [[Hlt| ->]|Hgt].
    + destruct (iv_done _ _ _ _ Hi w t Hlt Ht) as (c & _ & _ & [Epc|(_ & _ & Epc)]); rewrite Epc in He; done.
    + pose proof (iv_front _ _ _ _ Hi t x Ht Hx) as Hf. unfold front_ok in Hf. destruct (w_pc t) as [| |force|force ad|force ad|lw it sq|lw it sq s se|s] eqn:Epc; try done.
      apply (goes_on_same ins H p). apply park_inv; [done| |done]. intros t' Ht'. assert (t' = t) as -> by congruence. unfold before_write. by rewrite Epc.
    + destruct (iv_queued _ _ _ _ Hi w t x Hgt Ht Hx) as [Hf [Epc|Epc]]; rewrite Epc in *; [|done]. apply (goes_on_same ins H p).
      apply inv_other_update; [done|lia|lia|]. intros t' x' _ _ _ [Hf' _]. split; [exact Hf'|by right].
  - apply (goes_on_same ins H p). apply SignalAll_inv. eapply inv_ext with (db := if imm_done then with_imm None db else db); try by destruct imm_done.
    destruct imm_done; [|done]. unfold dropped in Hdrop. destruct Hi as [I1 I2 I3 I4 I5 I6 I7 I8]. destruct (imm_ db) eqn:Eimm; [done|]. by split.
Qed.

(** The memtables that a run drops. *)
Fixpoint dropped_by (es : list (Event (E := Ev))) db : list MemTable :=
  match es with
  | [] => []
  | e :: es => match step C mem_usage options dbname e db with Some db' => dropped e db ++ dropped_by es db' | None => [] end
  end.

Lemma calls_split e es (xs : list Input) :
  omap call (e :: es) = map call_of xs -> exists x1 x2 : list Input, xs = x1 ++ x2 /\ more_inputs e x1 /\ omap call es = map call_of x2.
Proof.
  intros Hxs. cbn in Hxs. unfold more_inputs. cbn. destruct (call e) as [c|]; [|by exists [], xs]. destruct xs as [|x xs]; [done|]. injection Hxs as Ec Hxs.
  exists [x], xs. split; [done|]. split; [by rewrite Ec|done].
Qed.

Lemma step_enabled e db db' : step C mem_usage options dbname e db = Some db' -> enabled e db = true.
Proof.
  intros Es. destruct e as [| w | w |]; try done; cbn [step enabled] in *; unfold thread_step in *; destruct (threads db !! w) as [t|]; try done;
    cbn [mbind option_bind] in Es; by destruct (w_pc t).
Qed.

Lemma initial_inv mem imm log lf next l0 e :
  mem_repr (C := C) mem [] -> D = [] -> (forall m, imm = Some m -> mem_repr (C := C) m []) -> (works -> logged wf_contents log []) ->
  inv [] [] 0 (initial seq0 mem imm log lf next l0 e).
Proof.
  intros Hm ED Himm Hlog. split; [constructor|done|done|intros id t; lia|by intros id t x|done|done|]. exists [], [], []. split; [done|]. split; [rewrite ED; constructor|]. split; [done|]. cbn. split; [destruct imm; [by apply Himm|done]|]. split; [by intros ? ?%elem_of_nil|done].
Qed.
End Inv.

(** Runs, with the memtables they drop. *)
Section Runs.
Context `{CS : Checksum} {W Ev : Type} {WF : WritableFile W} {LF : LogFiles Ev W}.
Context (C : Comparator) {L : ComparatorLaws C} (mem_usage : MemTable -> Z) (options : Options) (dbname : bytes) (seq0 : Z).
Context (works : Prop) (wf_contents : W -> bytes).
Context (Hworks : works -> WritableFileLaws WF wf_contents /\ forall f e r e', NewWritableFile f e = (inr r : Status + W, e' : Ev) -> wf_contents r = []).
Implicit Types (db : DBState (W := W) (E := Ev)) (ins : list Input) (H : list Commit) (D : list MemTable).
Notation inv := (inv C seq0 works wf_contents).
Notation goes_on := (goes_on C seq0 works wf_contents).
Notation inputs_ok := (inputs_ok seq0).

Lemma step_inv D ins H p db e xs :
  inputs_ok (ins ++ xs) -> more_inputs e xs -> inv D ins H p db -> enabled e db = true ->
  goes_on (D ++ dropped e db) (ins ++ xs) H (step C mem_usage options dbname e db).
Proof.
  intros Hin Hxs Hi He. destruct (dropped e db) as [|m ms] eqn:Ed; [rewrite app_nil_r; by apply (step_keeps C mem_usage options dbname seq0 works wf_contents Hworks D ins H p db e xs)|].
  destruct e as [| | |[] level0 error scheduled work next env]; try done. cbn [dropped] in Ed. destruct (imm_ db) as [m'|] eqn:Eimm; [|done]. injection Ed as -> <-.
  assert (xs = []) as -> by (unfold more_inputs in Hxs; cbn in Hxs; by destruct xs). rewrite app_nil_r. cbn [step]. apply (goes_on_same _ _ _ _ _ ins H p). apply SignalAll_inv.
  eapply inv_ext with (db := with_imm None db); try done. destruct Hi as [I1 I2 I3 I4 I5 I6 I7 (As & A2 & A3 & EA & HD & Hm & Himm & Hs & Hlg)]. rewrite Eimm in Himm.
  split; try done. exists (As ++ [A2]), [], A3. split; [rewrite EA, concat_app; cbn; by rewrite app_nil_r, <- app_assoc|]. split; [apply Forall2_app; [done|by constructor]|]. done.
Qed.

Lemma run_inv es db0 D0 ins0 H0 p0 xs db :
  inputs_ok (ins0 ++ xs) -> omap call es = map call_of xs -> inv D0 ins0 H0 p0 db0 -> run C mem_usage options dbname es db0 = Some db ->
  exists H p, inv (D0 ++ dropped_by C mem_usage options dbname es db0) (ins0 ++ xs) H p db.
Proof.
  revert db0 D0 ins0 H0 p0 xs. induction es as [|e es IH]; intros db0 D0 ins0 H0 p0 xs Hin Hxs Hi Hr; cbn [run dropped_by] in *.
  { destruct xs; [|done]. injection Hr as <-. rewrite !app_nil_r. by exists H0, p0. }
  destruct (calls_split e es xs Hxs) as (x1 & x2 & -> & H1 & H2). rewrite app_assoc in *. destruct (step C mem_usage options dbname e db0) as [db1|] eqn:Es; [|done].
  pose proof (step_enabled _ _ _ _ _ _ _ Es) as He.
  destruct (step_inv D0 ins0 H0 p0 db0 e x1 (inputs_ok_prefix _ _ _ Hin) H1 Hi He) as (db1' & H' & p' & E & Hi1).
  rewrite Es in E. injection E as <-. cbn [mbind option_bind] in Hr. rewrite app_assoc. by apply (IH db1 (D0 ++ dropped e db0) (ins0 ++ x1) _ _ x2 Hin H2 Hi1).
Qed.
End Runs.

(** C9: The write path commits the calls of [Write] in the order of their arrival,
    in groups, for every interleaving of the threads with each other and with the
    background thread, and every behaviour of the log files: the groups that the
    history lists follow each other, each with the sequence numbers after its
    predecessor's, and no write that asks for a sync is in a group that does not;
    no group that was written with status [OK] is lost: in their order they are in
    the memtables that the background thread was done with and dropped, one after
    the other, then in the immutable memtable, if there is one, and then in the
    current one, each memtable holding exactly the entries of its groups, but for
    at most one more group that is in the current memtable and not visible yet; a
    call that returned has the status of its
    group; and no assertion of the code fails: each thread that may go on does,
    and a new call is taken in. *)
Theorem write_path_commits `{CS : Checksum} {W Ev : Type} {WF : WritableFile W} {LF : LogFiles Ev W}
    (C : Comparator) {L : ComparatorLaws C} (mem_usage : MemTable -> Z) (options : Options) (dbname : bytes) (seq0 : Z)
    (log : Writer W) (logfile next level0 : Z) (env : Ev) (es : list (Event (E := Ev))) (ins : list Input) (db : DBState (W := W) (E := Ev))
    (Hin : inputs_ok seq0 ins) (Hcalls : omap call es = map call_of ins)
    (Hrun : run C mem_usage options dbname es (initial seq0 MemTable_new None log logfile next level0 env) = Some db) :
  exists H p As A2 A3 pend,
    history seq0 ins H p (LastSequence db) /\
    applied ins H = concat As ++ A2 ++ A3 /\
    Forall2 (holds_groups C) (dropped_by C mem_usage options dbname es (initial seq0 MemTable_new None log logfile next level0 env)) As /\
    match imm_ db with Some m => holds_groups C m A2 | None => A2 = [] end /\
    holds_groups C (mem_ db) (A3 ++ pend) /\
    (pend = [] \/ exists n, pend = [(LastSequence db + 1, group_ops ins p n)]) /\
    (forall id t s, threads db !! id = Some t -> w_pc t = Returned s ->
       exists c, c ∈ H /\ (cm_first c <= id < cm_first c + cm_count c)%nat /\ cm_status c = s) /\
    (forall e, enabled e db = true -> call e = None -> is_Some (step C mem_usage options dbname e db)) /\
    (forall x, inputs_ok seq0 (ins ++ [x]) -> is_Some (step C mem_usage options dbname (EvWrite (build <$> x.1) x.2) db)).
Proof.
  destruct (run_inv C mem_usage options dbname seq0 False (fun _ => []) (False_ind _) es _ [] [] [] 0 ins db Hin Hcalls
    (initial_inv C seq0 False (fun _ => []) [] _ _ log logfile next level0 env MemTable_new_repr eq_refl (fun m (E : None = Some m) => ltac:(discriminate E)) (False_ind _)) Hrun) as (H & p & Hi). cbn [app] in Hi.
  set (D := dropped_by _ _ _ _ _ _) in *. pose proof Hi as [I1 I2 I3 I4 I5 I6 I7 (As & A2 & A3 & EA & HD & Hm & Himm & _)].
  exists H, p, As, A2, A3, (pending ins p (LastSequence db) (threads db)).
  do 5 (split; [done|]). split.
  { unfold pending. destruct (threads db !! p) as [t|]; [|by left]. destruct (w_pc t); try by left. destruct status; [|by left]. right. by eexists. }
  split; [|split].
  - intros id t s Ht Epc. pose proof (lookup_lt_Some _ _ _ Ht) as Hw. rewrite I2 in Hw. destruct (lookup_lt_is_Some_2 ins id Hw) as [x Hx].
    destruct (lt_eq_lt_dec id p) as [[Hlt| ->]|Hgt].
    + destruct (I4 id t Hlt Ht) as (c & Hc & Hr & [Ec|(_ & _ & Ec)]); [|congruence]. exists c. split; [done|]. split; [done|]. congruence.
    + pose proof (I6 t x Ht Hx) as Hf. unfold front_ok in Hf. by rewrite Epc in Hf.
    + destruct (I5 id t x Hgt Ht Hx) as [_ [Ec|Ec]]; congruence.
  - intros e He Hc. edestruct (step_inv C mem_usage options dbname seq0 False (fun _ => []) (False_ind _) D ins H p db e []) as (db' & _ & _ & E & _); [by rewrite app_nil_r| |exact Hi|done|by exists db'].
    unfold more_inputs. cbn. by rewrite Hc.
  - intros x Hx. edestruct (step_inv C mem_usage options dbname seq0 False (fun _ => []) (False_ind _) D ins H p db (EvWrite (build <$> x.1) x.2) [x]) as (db' & _ & _ & E & _); [exact Hx|done|exact Hi|done|by exists db'].
Qed.

(** Files that are byte strings, for runs. *)
#[local] Instance StringFiles : LogFiles unit bytes := {| NewWritableFile _ e := (inr [], e); CloseFile _ := OK |}.

(** Three calls; the first writes alone, and the other two are a group.  Then the
    memtable is replaced, and the background thread writes it out. *)
Definition example_events : list (Event (E := unit)) :=
  [EvWrite (Some (build [OpPut (cstr "a") (cstr "1")])) false; EvWrite (Some (build [OpPut (cstr "b") (cstr "2"); OpDelete (cstr "a")])) true;
   EvWrite (Some (build [OpPut (cstr "c") (cstr "3")])) false; EvStep 0; EvSpurious 2; EvStep 0; EvStep 2; EvStep 1; EvStep 1; EvStep 1; EvStep 2;
   EvWrite None false; EvBackground true 1 None false false 6 tt].
Definition example_inputs : list Input :=
  [(Some [OpPut (cstr "a") (cstr "1")], false); (Some [OpPut (cstr "b") (cstr "2"); OpDelete (cstr "a")], true);
   (Some [OpPut (cstr "c") (cstr "3")], false); (None, false)].

Lemma write_path_commits_witness :
  let db0 := initial 7 MemTable_new None (Writer_new []) 3 4 0 tt in
  exists db m, run BytewiseComparator (fun _ => 0) Options_default [] example_events db0 = Some db /\
    LastSequence db = 11 /\ imm_ db = None /\ dropped_by BytewiseComparator (fun _ => 0) Options_default [] example_events db0 = [m] /\
    exists H p A3 pend, history 7 example_inputs H p (LastSequence db) /\
      (exists A, applied example_inputs H = A ++ A3 /\ holds_groups BytewiseComparator m A) /\ holds_groups BytewiseComparator (mem_ db) (A3 ++ pend).
Proof.
  intros db0. set (r := run _ _ _ _ _ db0). assert (Hd : option_map (fun db => (LastSequence db, match imm_ db with Some _ => true | None => false end)) r = Some (11, false)) by (vm_compute; reflexivity).
  set (ms := dropped_by _ _ _ _ _ db0). assert (Hms : length ms = 1%nat) by (vm_compute; reflexivity).
  destruct r as [db|] eqn:E; [|discriminate Hd]. injection Hd as H1 H2. exists db.
  destruct (write_path_commits BytewiseComparator (fun _ => 0) Options_default [] 7 (Writer_new []) 3 4 0 tt example_events example_inputs db) as
    (H & p & As & A2 & A3 & pend & K1 & K2 & K3 & K4 & K5 & _).
  - unfold inputs_ok. split; [|split; [vm_compute; reflexivity|split; vm_compute; discriminate]].
    cbn [example_inputs map concat ops_of fst default app]. repeat (apply Forall_cons_2; [split; vm_compute; reflexivity|]). apply Forall_nil_2.
  - reflexivity.
  - exact E.
  - fold db0 ms in K3. clearbody ms. destruct ms as [|m [|]]; try discriminate Hms. exists m. split; [reflexivity|]. split; [exact H1|].
    destruct (imm_ db) eqn:Eimm; [discriminate H2|]. split; [reflexivity|]. split; [reflexivity|]. exists H, p, A3, pend. split; [exact K1|]. split; [|exact K5].
    inversion K3 as [|m' A ms' As' HA Hnil]; subst. inversion Hnil; subst. exists A. split; [|exact HA]. rewrite K2. cbn [concat app]. by rewrite app_nil_r.
Defined.
