(* ===== verification/WriteLive.v ===== *)
(** * The write path makes progress

    Liveness of the machine of WriteQueue.v: threads that go on get through in a
    bounded number of steps, and no wakeup is lost: when none can go on, every
    call has returned, or the first in the queue waits for background work that
    is there to be done. *)

From S2P Require Import Prelude Coding Comparator Crc32c DbFormat Status LogWriter MemTable WriteBatch Filename Options WriteQueue WriteSafety.

(** How far a thread has to go. *)
Definition distance (t : Thread) : nat :=
  match w_pc t with
  | Asleep => 20
  | Awake => if w_done t then 2 else 21
  | Resumed _ true => 16
  | Delayed _ => 14
  | Resumed _ false => 12
  | Waiting _ _ => 10
  | Logging _ _ _ => 8
  | Logged _ _ _ _ _ => 6
  | Returned _ => 0
  end.

Definition total (ts : list Thread) : nat := list_sum (map distance ts).

Lemma total_cons t ts : total (t :: ts) = (distance t + total ts)%nat.
Proof. done. Qed.

Lemma total_bound ts : (total ts <= 21 * length ts)%nat.
Proof.
  induction ts as [|t ts IH]; [done|]. rewrite total_cons. cbn [length].
  assert (distance t <= 21)%nat by (unfold distance; repeat case_match; lia). lia.
Qed.

(** A sum that goes down at [p] and up at [q] at most. *)
Lemma total_pointwise (dec inc : nat -> nat) ts ts' :
  length ts' = length ts ->
  (forall i t t', ts !! i = Some t -> ts' !! i = Some t' -> (distance t' + dec i <= distance t + inc i)%nat) ->
  (total ts' + list_sum (map dec (seq 0 (length ts))) <= total ts + list_sum (map inc (seq 0 (length ts))))%nat.
Proof.
  revert ts' dec inc. induction ts as [|t ts IH]; intros [|t' ts'] dec inc Hl Hp; try done. injection Hl as Hl.
  specialize (IH ts' (fun i => dec (S i)) (fun i => inc (S i)) Hl ltac:(intros i a b Ha Hb; by apply (Hp (S i)))).
  pose proof (Hp 0%nat t t' eq_refl eq_refl). unfold total in *. cbn [length seq map]. rewrite <- seq_shift, !map_map.
  change (list_sum (?a :: ?l)) with (a + list_sum l)%nat. lia.
Qed.

Lemma sum_indicator (p c n o : nat) : list_sum (map (fun i => if (i =? p)%nat then c else 0%nat) (seq o n)) = if ((o <=? p) && (p <? o + n))%nat then c else 0%nat.
Proof.
  revert o. induction n as [|n IH]; intros o; cbn [seq map].
  - rewrite Nat.add_0_r. destruct (Nat.leb_spec o p), (Nat.ltb_spec p o); cbn; lia.
  - change (list_sum (?a :: ?l)) with (a + list_sum l)%nat. rewrite IH.
    destruct (Nat.eqb_spec o p), (Nat.leb_spec (S o) p), (Nat.leb_spec o p), (Nat.ltb_spec p (S o + n)), (Nat.ltb_spec p (o + S n)); cbn; lia.
Qed.

Lemma signal_distance t : (distance (signal t) <= distance t + 1)%nat.
Proof. unfold signal, distance. destruct t as [b s d st pc]. destruct pc; cbn; try lia. destruct d; lia. Qed.

Lemma complete_distance s t : (distance (complete s t) <= distance t)%nat.
Proof. unfold complete, signal, distance. destruct t as [b sy d st pc]. destruct pc; cbn; try lia. destruct d; lia. Qed.

Section Progress.
Context `{CS : Checksum} {W Ev : Type} {WF : WritableFile W} {LF : LogFiles Ev W}.
Context (C : Comparator) {L : ComparatorLaws C} (mem_usage : MemTable -> Z) (options : Options) (dbname : bytes) (seq0 : Z).
Implicit Types (db : DBState (W := W) (E := Ev)) (t : Thread) (x : Input) (ins : list Input) (H : list Commit).

(** The step of [p] takes it to a distance of [b] at most; another thread may be
    woken. *)
Definition lowers (p b : nat) db db' : Prop :=
  length (threads db') = length (threads db) /\ exists q, forall i t t', threads db !! i = Some t -> threads db' !! i = Some t' ->
    if (i =? p)%nat then (distance t' <= b)%nat else (distance t' <= distance t + if (i =? q)%nat then 1 else 0)%nat.

Lemma lowers_total p b db db' t :
  lowers p b db db' -> threads db !! p = Some t -> (b + 2 <= distance t)%nat -> (total (threads db') < total (threads db))%nat.
Proof.
  intros (Hl & q & Hp) Ht Hb.
  pose proof (total_pointwise (fun i => if (i =? p)%nat then 2 else 0)%nat (fun i => if (i =? q)%nat then 1 else 0)%nat (threads db) (threads db') Hl) as Hs.
  rewrite !sum_indicator in Hs. cbn [Nat.leb andb Nat.add] in Hs. rewrite (proj2 (Nat.ltb_lt p (length (threads db)))) in Hs by (by eapply lookup_lt_Some).
  assert (Hi : (total (threads db') + 2 <= total (threads db) + if (q <? length (threads db))%nat then 1 else 0)%nat); [|destruct (_ <? _)%nat; lia].
  apply Hs. intros i ti ti' Hti Hti'. specialize (Hp i ti ti' Hti Hti'). destruct (Nat.eqb_spec i p) as [->|]; [|lia].
  assert (ti = t) as -> by congruence. destruct (p =? q)%nat; lia.
Qed.

(** Nothing but [p] changes. *)
Definition same_others (p : nat) db db' : Prop :=
  length (threads db') = length (threads db) /\ writers_ db' = writers_ db /\ forall i, i <> p -> threads db' !! i = threads db !! i.

Lemma same_others_lowers p b db db1 db2 : same_others p db db1 -> lowers p b db1 db2 -> lowers p b db db2.
Proof.
  intros (Hl & _ & Hs) (Hl2 & q & Hp). split; [congruence|]. exists q. intros i t t' Ht Ht'. destruct (Nat.eqb_spec i p) as [->|Hne].
  - destruct (lookup_lt_is_Some_2 (threads db1) p) as [t1 Ht1]; [rewrite Hl; by eapply lookup_lt_Some|]. specialize (Hp p t1 t' Ht1 Ht'). by rewrite Nat.eqb_refl in Hp.
  - rewrite <- Hs in Ht by done. specialize (Hp i t t' Ht Ht'). by rewrite (proj2 (Nat.eqb_neq i p)) in Hp.
Qed.

Lemma update_lowers p b f db : (forall t, (distance (f t) <= b)%nat) -> lowers p b db (update p f db).
Proof.
  intros Hf. split; [apply length_alter|]. exists 0%nat. intros i t t' Ht Ht'. cbn in Ht'. destruct (Nat.eqb_spec i p) as [->|Hne].
  - rewrite list_lookup_alter_eq, Ht in Ht'. by injection Ht' as <-.
  - rewrite list_lookup_alter_ne in Ht' by done. assert (t' = t) as -> by congruence. lia.
Qed.

Lemma update_same_others p f db : same_others p db (update p f db).
Proof. split; [apply length_alter|]. split; [done|]. intros i Hi. by apply list_lookup_alter_ne. Qed.

(** The queue of the writers from [p] on. *)
Definition queue_from (p : nat) db : Prop := writers_ db = seq p (length (threads db) - p) /\ (p < length (threads db))%nat.

Lemma finish_lowers p k s db db' :
  (1 <= k)%nat -> (p + k <= length (threads db))%nat -> queue_from p db -> finish p (p + k - 1) s db = Some db' -> lowers p 0 db db'.
Proof.
  intros Hk Hpk [Hq Hp] E. destruct (finish_spec p k (length (threads db) - (p + k)) s db Hk) as (ts & E' & Hl & Hts); [rewrite Hq; f_equal; lia|lia|].
  rewrite E in E'. injection E' as ->. split; [exact Hl|]. exists (p + k)%nat. cbn. intros i t t' Ht Ht'. rewrite Hts, Ht in Ht'. injection Ht' as <-.
  unfold finished. destruct (Nat.eqb_spec i p) as [->|Hne]; [done|]. destruct (Nat.ltb_spec i p) as [Hlt|Hge].
  - rewrite (proj2 (Nat.eqb_neq i (p + k))) by lia. lia.
  - destruct (Nat.ltb_spec i (p + k)) as [Hlt|Hge2]; [pose proof (complete_distance s t); lia|].
    destruct (i =? p + k)%nat; [apply signal_distance|lia].
Qed.

Lemma after_room_lowers p s db db' : queue_from p db -> after_room p s db = Some db' -> lowers p 8 db db'.
Proof.
  intros Hq E. assert (Hf : finish p p s db = Some db' -> lowers p 8 db db').
  { intros Ef. destruct (finish_lowers p 1 s db db') as (Hl & q & Hp); [lia|destruct Hq; lia|done|by replace (p + 1 - 1)%nat with p by lia|].
    split; [done|]. exists q. intros i t t' Ht Ht'. specialize (Hp i t t' Ht Ht'). destruct (i =? p)%nat; lia. }
  unfold after_room in E. destruct (threads db !! p) as [t|]; [|done]. cbn [mbind option_bind] in E. destruct (w_batch t); [|by apply Hf].
  destruct (ok s); [|by apply Hf]. destruct (mapM _ _) as [others|]; [|done]. cbn [mbind option_bind] in E.
  destruct (BuildBatchGroup _ _ _) as [[[result in_tmp] n]|]; [|done]. cbn [mbind option_bind] in E. destruct (writers_ db !! n) as [last|]; [|done].
  cbn [mbind option_bind] in E. injection E as <-. eapply same_others_lowers; [|by apply update_lowers]. destruct in_tmp; [done|apply update_same_others].
Qed.

(** ** Who waits for background work *)

Definition quiet db : Prop := forall i t f d, threads db !! i = Some t -> w_pc t <> Waiting f d.
Definition others_quiet (p : nat) db : Prop := forall i t f d, i <> p -> threads db !! i = Some t -> w_pc t <> Waiting f d.

Lemma quiet_others p db : quiet db -> others_quiet p db.
Proof. intros Hq i t f d _. apply Hq. Qed.

(** Background work is there to be done. *)
Definition stalled db : Prop := ok (bg_error_ db) = true /\ (imm_ db <> None \/ kL0_StopWritesTrigger <= level0_files db).
Definition waiting_ok db : Prop := forall i t f d, threads db !! i = Some t -> w_pc t = Waiting f d -> stalled db.

Lemma quiet_waiting_ok db : quiet db -> waiting_ok db.
Proof. intros Hq i t f d Ht E. by destruct (Hq i t f d Ht). Qed.

Lemma update_quiet p f db : (forall t, others_quiet p db -> forall g d, w_pc (f t) <> Waiting g d) -> others_quiet p db -> quiet (update p f db).
Proof.
  intros Hf Hq i t g d Ht. cbn in Ht. destruct (decide (i = p)) as [->|Hne].
  - rewrite list_lookup_alter_eq in Ht. apply fmap_Some in Ht as (t0 & _ & ->). by apply Hf.
  - rewrite list_lookup_alter_ne in Ht by done. by apply (Hq i).
Qed.

Lemma SignalAll_quiet db : quiet (SignalAll db).
Proof. intros i t f d Ht. rewrite SignalAll_lookup in Ht. apply fmap_Some in Ht as (t0 & _ & ->). by destruct (w_pc t0) eqn:E; cbn; rewrite ?E. Qed.

Lemma SignalAll_same_others p db : others_quiet p db -> same_others p db (SignalAll db).
Proof.
  intros Hq. split; [apply length_map|]. split; [done|]. intros i Hi. rewrite SignalAll_lookup. destruct (threads db !! i) as [t|] eqn:Ht; [|done]. cbn. f_equal.
  destruct (w_pc t) as [| | |f d| | | |] eqn:E; try done. by destruct (Hq i t f d Hi Ht).
Qed.

Lemma same_others_trans p db1 db2 db3 : same_others p db1 db2 -> same_others p db2 db3 -> same_others p db1 db3.
Proof. intros (A1 & A2 & A3) (B1 & B2 & B3). split; [congruence|]. split; [congruence|]. intros i Hi. rewrite B3, A3; done. Qed.

Lemma RecordBackgroundError_same p s db : quiet db -> same_others p db (RecordBackgroundError s db) /\ quiet (RecordBackgroundError s db).
Proof.
  intros Hq. unfold RecordBackgroundError. destruct (ok (bg_error_ db)); [|by split]. split; [|apply SignalAll_quiet].
  apply (SignalAll_same_others p (with_background (level0_files db) s (background_compaction_scheduled_ db) (other_work db) db)). by apply quiet_others.
Qed.

Lemma switch_same p db : quiet db -> same_others p db (switch_memtable dbname db).2 /\ quiet (switch_memtable dbname db).2.
Proof.
  intros Hq. unfold switch_memtable. destruct (NewWritableFile _ _) as [[s|lfile] env]; [by split|]. cbn [snd].
  set (db1 := with_numbers _ _ env db). set (db2 := if ok _ then db1 else _).
  assert (H2 : same_others p db db2 /\ quiet db2) by (unfold db2; destruct (ok _); [by split|by apply (RecordBackgroundError_same p _ db1)]).
  clearbody db2. unfold MaybeScheduleCompaction. repeat case_match; exact H2.
Qed.

Lemma queue_same p db db' : same_others p db db' -> queue_from p db -> queue_from p db'.
Proof. intros (Hl & Hw & _) [H1 H2]. split; congruence. Qed.

Lemma finish_quiet p k s db db' :
  (1 <= k)%nat -> (p + k <= length (threads db))%nat -> queue_from p db -> quiet db -> finish p (p + k - 1) s db = Some db' -> quiet db'.
Proof.
  intros Hk Hpk [Hq Hp] Hqu E. destruct (finish_spec p k (length (threads db) - (p + k)) s db Hk) as (ts & E' & Hl & Hts); [rewrite Hq; f_equal; lia|lia|].
  rewrite E in E'. injection E' as ->. intros i t f d Ht. cbn in Ht. rewrite Hts in Ht. apply fmap_Some in Ht as (t0 & Ht0 & ->). specialize (Hqu i t0 f d Ht0).
  unfold finished, complete, signal. repeat case_match; cbn in *; congruence.
Qed.

Lemma after_room_quiet p s db db' : queue_from p db -> quiet db -> after_room p s db = Some db' -> quiet db'.
Proof.
  intros Hq Hqu E. assert (Hf : finish p p s db = Some db' -> quiet db').
  { intros Ef. apply (finish_quiet p 1 s db); [lia|destruct Hq; lia|done|done|by replace (p + 1 - 1)%nat with p by lia]. }
  unfold after_room in E. destruct (threads db !! p) as [t|]; [|done]. cbn [mbind option_bind] in E. destruct (w_batch t); [|by apply Hf].
  destruct (ok s); [|by apply Hf]. destruct (mapM _ _) as [others|]; [|done]. cbn [mbind option_bind] in E.
  destruct (BuildBatchGroup _ _ _) as [[[result in_tmp] n]|]; [|done]. cbn [mbind option_bind] in E. destruct (writers_ db !! n) as [last|]; [|done].
  cbn [mbind option_bind] in E. injection E as <-. apply update_quiet; [done|]. destruct in_tmp; [by apply quiet_others|].
  intros i u f d Hi Hu. rewrite (proj2 (proj2 (update_same_others p _ db))) in Hu by done. by apply (Hqu i).
Qed.

Lemma park_waiting_ok p f d db : quiet db -> stalled db -> waiting_ok (update p (at_pc (Waiting f d)) db).
Proof. intros _ Hs i t g e _ _. exact Hs. Qed.

Lemma room_loop_result fuel force allow_delay p db db' :
  queue_from p db -> quiet db -> room_loop mem_usage options dbname fuel force allow_delay p db = Some db' ->
  lowers p (if allow_delay then 14 else 10) db db' /\ waiting_ok db'.
Proof.
  revert force db. induction fuel as [|fuel IH]; intros force db Hq Hqu E; [done|]. cbn [room_loop] in E.
  assert (Hweaken : forall db1, lowers p 8 db1 db' -> lowers p (if allow_delay then 14 else 10) db1 db').
  { intros db1 (Hl & q & Hp). split; [done|]. exists q. intros i t t' Ht Ht'. specialize (Hp i t t' Ht Ht'). destruct (i =? p)%nat; [destruct allow_delay|]; lia. }
  assert (Ha : forall s, after_room p s db = Some db' -> lowers p (if allow_delay then 14 else 10) db db' /\ waiting_ok db').
  { intros s Es. split; [apply Hweaken; by eapply after_room_lowers|]. apply quiet_waiting_ok. by eapply after_room_quiet. }
  destruct (ok (bg_error_ db)) eqn:Ebg; cbn [negb] in E; [|by apply Ha in E].
  destruct allow_delay eqn:Ead; cbn [andb] in E; [destruct (_ <=? level0_files db)|].
  { injection E as <-. split; [apply update_lowers; done|]. apply quiet_waiting_ok, update_quiet; [done|by apply quiet_others]. }
  all: destruct (negb force && _); [by apply Ha in E|]; destruct (imm_ db) as [m|] eqn:Eimm;
    [injection E as <-; split; [apply update_lowers; intros t; cbn; lia|apply park_waiting_ok; [done|split; [done|left; by rewrite Eimm]]]|].
  all: destruct (Z.leb_spec kL0_StopWritesTrigger (level0_files db)) as [Hle|Hgt];
    [injection E as <-; split; [apply update_lowers; intros t; cbn; lia|apply park_waiting_ok; [done|by split; [done|right]]]|].
  all: destruct (switch_same p db Hqu) as [Hs Hqu']; destruct (switch_memtable dbname db) as [[s|] db1]; cbn [fst snd] in *.
  1, 3: split; [eapply same_others_lowers; [exact Hs|]; apply Hweaken; eapply after_room_lowers; [|exact E]; by eapply queue_same
               |apply quiet_waiting_ok; eapply after_room_quiet; [|exact Hqu'|exact E]; by eapply queue_same].
  all: destruct (IH false db1 ltac:(by eapply queue_same) Hqu' E) as [Hlow Hok]; split; [by eapply same_others_lowers|exact Hok].
Qed.

(** ** Steps *)

Notation inv := (inv C seq0 False (fun _ => [])).
Notation thread_step := (thread_step C mem_usage options dbname).

Lemma inv_queue_from {D} ins H p db : inv D ins H p db -> (p < length ins)%nat -> queue_from p db.
Proof. intros Hi Hp. split; rewrite (iv_length _ _ _ _ _ _ _ _ _ Hi); [apply (iv_queue _ _ _ _ _ _ _ _ _ Hi)|done]. Qed.

Lemma inv_others_quiet {D} ins H p db : inv D ins H p db -> others_quiet p db.
Proof.
  intros Hi i t f d Hne Ht E. pose proof (lookup_lt_Some _ _ _ Ht) as Hlt. rewrite (iv_length _ _ _ _ _ _ _ _ _ Hi) in Hlt.
  destruct (lookup_lt_is_Some_2 ins i Hlt) as [x Hx]. destruct (lt_eq_lt_dec i p) as [[Hl| ->]|Hg]; [|done|].
  - destruct (iv_done _ _ _ _ _ _ _ _ _ Hi i t Hl Ht) as (c & _ & _ & [Ec|(_ & _ & Ec)]); congruence.
  - destruct (iv_queued _ _ _ _ _ _ _ _ _ Hi i t x Hg Ht Hx) as [_ [Ec|Ec]]; congruence.
Qed.

Lemma inv_quiet {D} ins H p db t : inv D ins H p db -> threads db !! p = Some t -> (forall f d, w_pc t <> Waiting f d) -> quiet db.
Proof.
  intros Hi Ht Hn i t' f d Ht'. destruct (decide (i = p)) as [->|Hne]; [assert (t' = t) as -> by congruence; apply Hn|].
  by apply (inv_others_quiet _ _ _ _ Hi i).
Qed.

Lemma waiting_ok_update w f db : waiting_ok db -> (forall t g d, w_pc (f t) <> Waiting g d) -> waiting_ok (update w f db).
Proof.
  intros Hw Hf i t g d Ht E. cbn in Ht. destruct (decide (i = w)) as [->|Hne].
  - rewrite list_lookup_alter_eq in Ht. apply fmap_Some in Ht as (t0 & _ & ->). by destruct (Hf t0 g d).
  - rewrite list_lookup_alter_ne in Ht by done. by apply (Hw i t g d).
Qed.

Lemma room_result force allow_delay p db db' t :
  queue_from p db -> quiet db -> threads db !! p = Some t -> ((if allow_delay : bool then 14 else 10) + 2 <= distance t)%nat ->
  room mem_usage options dbname force allow_delay p db = Some db' -> (total (threads db') < total (threads db))%nat /\ waiting_ok db'.
Proof.
  intros Hq Hqu Ht Hd E. destruct (room_loop_result 2 force allow_delay p db db' Hq Hqu E) as [Hlow Hok]. split; [|done]. by eapply lowers_total.
Qed.

Lemma update_total w f db0 db t :
  threads db0 = threads db -> threads db !! w = Some t -> (distance (f t) < distance t)%nat ->
  (total (threads (update w f db0)) < total (threads db))%nat.
Proof.
  intros E. cbn [update with_threads threads]. rewrite E. generalize (threads db). clear E. intros ts. revert w. induction ts as [|u ts IH]; intros [|w] Ht Hd; try done.
  - injection Ht as ->. change (alter f 0%nat (t :: ts)) with (f t :: ts). rewrite !total_cons. lia.
  - specialize (IH w Ht Hd). change (alter f (S w) (u :: ts)) with (u :: alter f w ts). rewrite !total_cons. lia.
Qed.

Lemma test_queue_result {D} ins H p db w t db' :
  inv D ins H p db -> threads db !! w = Some t -> w_pc t = Awake -> waiting_ok db -> test_queue mem_usage options dbname w db = Some db' ->
  (total (threads db') < total (threads db))%nat /\ waiting_ok db'.
Proof.
  intros Hi Ht Epc Hw E. unfold test_queue in E. rewrite Ht in E. cbn [mbind option_bind] in E.
  assert (Ed : distance t = if w_done t then 2%nat else 21%nat) by (unfold distance; by rewrite Epc).
  destruct (w_done t) eqn:Edone.
  { injection E as <-. split; [eapply update_total; [done|done|]; cbn; lia|by apply waiting_ok_update]. }
  case_bool_decide as Eh.
  - assert (Hwp : w = p /\ (p < length ins)%nat).
    { rewrite (iv_queue _ _ _ _ _ _ _ _ _ Hi) in Eh. destruct (length ins - p)%nat eqn:En; [done|]. injection Eh as <-. split; [done|lia]. }
    destruct Hwp as [-> Hp]. eapply room_result; [by eapply inv_queue_from| |done| |exact E]; [|destruct (negb _); lia].
    eapply inv_quiet; [done..|]. intros f d. congruence.
  - injection E as <-. split; [eapply update_total; [done|done|]; unfold distance at 1; cbn; lia|by apply waiting_ok_update].
Qed.

Lemma thread_step_result {D} ins H p db w db' :
  inv D ins H p db -> waiting_ok db -> thread_step w db = Some db' -> (total (threads db') < total (threads db))%nat /\ waiting_ok db'.
Proof.
  intros Hi Hw E. destruct (threads db !! w) as [t|] eqn:Ht; [|unfold WriteQueue.thread_step in E; by rewrite Ht in E].
  pose proof (lookup_lt_Some _ _ _ Ht) as Hlt. rewrite (iv_length _ _ _ _ _ _ _ _ _ Hi) in Hlt. destruct (lookup_lt_is_Some_2 ins w Hlt) as [x Hx].
  unfold WriteQueue.thread_step in E. rewrite Ht in E. cbn [mbind option_bind] in E.
  destruct (w_pc t) as [| |f|f d|f d|lw it sq|lw it sq s se|s] eqn:Epc; try done; [by apply (test_queue_result (D := D) ins H p db w t)|..].
  all: assert (Hwp : w = p) by (destruct (lt_eq_lt_dec w p) as [[Hl|Hl]|Hg]; [|done|];
    [destruct (iv_done _ _ _ _ _ _ _ _ _ Hi w t Hl Ht) as (c & _ & _ & [Ec|(_ & _ & Ec)])
    |destruct (iv_queued _ _ _ _ _ _ _ _ _ Hi w t x Hg Ht Hx) as [_ [Ec|Ec]]]; congruence); subst w.
  all: assert (Hqu : quiet db) by (eapply inv_quiet; [done..|]; intros ? ?; congruence).
  all: pose proof (inv_queue_from _ _ _ _ Hi Hlt) as Hqf;
    pose proof (eq_refl (distance t)) as Ed; unfold distance at 2 in Ed; rewrite Epc in Ed.
  - eapply room_result; [done..| |exact E]. cbn; lia.
  - eapply room_result; [done..| |exact E]. destruct d; lia.
  - unfold write_log in E. destruct (if it then _ else _) as [contents|]; [|done]. cbn [mbind option_bind] in E. destruct (AddRecord _ _) as [s1 log1].
    destruct (if ok s1 && w_sync t then _ else _) as [[s2 e2] log2]. destruct (ok s2); [destruct (InsertInto _ _ _) as [s3 [mem|]]; [|done]; cbn [mbind option_bind] in E|].
    all: injection E as <-; split; [eapply update_total; [done|done|]; unfold distance at 1; cbn; lia|].
    all: apply waiting_ok_update; [|done]; by apply quiet_waiting_ok.
  - set (db1 := if se then RecordBackgroundError s db else db) in E.
    assert (H1 : same_others p db db1 /\ quiet db1) by (unfold db1; destruct se; [by apply RecordBackgroundError_same|by split]). clearbody db1.
    unfold SetLastSequence in E. destruct (_ <=? sq); [|done]. cbn [mbind option_bind] in E.
    set (db2 := with_last sq (if it then with_tmp WriteBatch_Clear db1 else db1)) in E.
    assert (H2 : same_others p db db2 /\ quiet db2) by (unfold db2; by destruct it). clearbody db2. destruct H2 as [H2 Hqu2].
    pose proof (iv_front _ _ _ _ _ _ _ _ _ Hi t x Ht Hx) as Hf. unfold front_ok in Hf. rewrite Epc in Hf.
    destruct Hf as (_ & _ & _ & k & Hk & Hpk & -> & _). assert (Hlen : length (threads db2) = length ins) by (rewrite (proj1 H2); apply (iv_length _ _ _ _ _ _ _ _ _ Hi)).
    split.
    + eapply lowers_total; [eapply same_others_lowers; [exact H2|]; eapply finish_lowers; [exact Hk| |by eapply queue_same|exact E]; lia|exact Ht|lia].
    + apply quiet_waiting_ok. eapply finish_quiet; [exact Hk| |by eapply queue_same|exact Hqu2|exact E]. lia.
Qed.

Lemma step_waiting_ok {D} ins H p db e xs db' :
  inv D ins H p db -> more_inputs e xs -> waiting_ok db -> step C mem_usage options dbname e db = Some db' -> waiting_ok db'.
Proof.
  intros Hi Hxs Hw E. destruct e as [b s|w|w|imm_done level0 error scheduled work next env]; cbn [step] in E.
  - unfold more_inputs in Hxs. cbn in Hxs. destruct xs as [|x [|]]; try done. injection Hxs as -> ->. unfold enter in E.
    eapply test_queue_result; [by apply arrive_inv| | | |exact E]; [cbn; by rewrite lookup_app_r, Nat.sub_diag by lia|done|].
    intros i t f d Ht Ef. cbn in Ht. apply lookup_app_Some in Ht as [Ht|[_ Ht]]; [by apply (Hw i t f d)|]. by apply list_lookup_singleton_Some in Ht as [_ <-].
  - by apply (thread_step_result (D := D) ins H p db w).
  - destruct (threads db !! w) as [t|]; [|done]. cbn [mbind option_bind] in E. destruct (w_pc t); try done; injection E as <-; by apply waiting_ok_update.
  - injection E as <-. apply quiet_waiting_ok, SignalAll_quiet.
Qed.

Lemma run_waiting_ok es db0 D0 ins0 H0 p0 xs db :
  inputs_ok seq0 (ins0 ++ xs) -> omap call es = map call_of xs -> inv D0 ins0 H0 p0 db0 -> waiting_ok db0 -> run C mem_usage options dbname es db0 = Some db ->
  exists D H p, inv D (ins0 ++ xs) H p db /\ waiting_ok db.
Proof.
  revert db0 D0 ins0 H0 p0 xs. induction es as [|e es IH]; intros db0 D0 ins0 H0 p0 xs Hin Hxs Hi Hw Hr; cbn [run] in Hr.
  { destruct xs; [|done]. injection Hr as <-. rewrite app_nil_r. by exists D0, H0, p0. }
  destruct (calls_split e es xs Hxs) as (x1 & x2 & -> & H1 & H2). rewrite app_assoc in *.
  destruct (step C mem_usage options dbname e db0) as [db1|] eqn:Es; [|done]. cbn [mbind option_bind] in Hr.
  destruct (step_inv C mem_usage options dbname seq0 False (fun _ => []) (False_ind _) D0 ins0 H0 p0 db0 e x1 (inputs_ok_prefix _ _ _ Hin) H1 Hi) as (db1' & H' & p' & E & Hi1); [by eapply step_enabled|].
  rewrite Es in E. injection E as <-. apply (IH db1 (D0 ++ dropped e db0) (ins0 ++ x1) _ _ x2 Hin H2 Hi1); [|done]. by apply (step_waiting_ok (D := D0) ins0 H0 p0 db0 e x1).
Qed.

(** Every call has returned, or the first waits for the background. *)
Definition settled db : Prop :=
  (forall id t, threads db !! id = Some t -> exists s, w_pc t = Returned s) \/
  (exists w t f d, head (writers_ db) = Some w /\ threads db !! w = Some t /\ w_pc t = Waiting f d /\ stalled db).

Definition stuck db : Prop := forall w, enabled (EvStep w) db = false.

Lemma stuck_settled {D} ins H p db : inv D ins H p db -> waiting_ok db -> stuck db -> settled db.
Proof.
  intros Hi Hw Hs. pose proof (inv_p_le _ _ _ _ _ _ _ _ _ Hi) as Hp.
  assert (Hold : forall id t, (id < p)%nat -> threads db !! id = Some t -> exists s, w_pc t = Returned s).
  { intros id t Hid Ht. destruct (iv_done _ _ _ _ _ _ _ _ _ Hi id t Hid Ht) as (c & _ & _ & [Ec|(_ & _ & Ec)]); [by eexists|].
    specialize (Hs id). cbn in Hs. by rewrite Ht, Ec in Hs. }
  destruct (decide (p = length ins)) as [->|Hne].
  - left. intros id t Ht. apply (Hold id t); [|done]. rewrite <- (iv_length _ _ _ _ _ _ _ _ _ Hi). by eapply lookup_lt_Some.
  - right. assert (Hlt : (p < length ins)%nat) by lia. destruct (lookup_lt_is_Some_2 ins p Hlt) as [x Hx].
    destruct (lookup_lt_is_Some_2 (threads db) p) as [t Ht]; [by rewrite (iv_length _ _ _ _ _ _ _ _ _ Hi)|].
    pose proof (iv_front _ _ _ _ _ _ _ _ _ Hi t x Ht Hx) as Hf. specialize (Hs p). cbn in Hs. rewrite Ht in Hs. unfold front_ok in Hf.
    destruct (w_pc t) as [| |f|f d|f d|lw it sq|lw it sq s se|s] eqn:Epc; try done. exists p, t, f, d. split; [|split; [done|split; [done|by eapply Hw]]].
    rewrite (iv_queue _ _ _ _ _ _ _ _ _ Hi). by replace (length ins - p)%nat with (S (length ins - S p)) by lia.
Qed.

Lemma stuck_or_not db : stuck db \/ exists w, enabled (EvStep w) db = true.
Proof.
  destruct (decide (Exists (fun w => enabled (EvStep w) db = true) (seq 0 (length (threads db))))) as [He|Hn].
  - right. apply Exists_exists in He as (w & _ & Hw). by exists w.
  - left. intros w. apply not_true_is_false. intros Hw. apply Hn, Exists_exists. exists w. split; [|done]. apply elem_of_seq.
    cbn in Hw. destruct (threads db !! w) eqn:Ht; [|done]. apply lookup_lt_Some in Ht. lia.
Qed.

Notation run := (run C mem_usage options dbname).

Lemma steps_run {D} ws ins H p db db' :
  inputs_ok seq0 ins -> inv D ins H p db -> waiting_ok db -> run (map EvStep ws) db = Some db' ->
  exists H' p', inv D ins H' p' db' /\ waiting_ok db' /\ (length ws + total (threads db') <= total (threads db))%nat.
Proof.
  intros Hin. revert H p db. induction ws as [|w ws IH]; intros H p db Hi Hw Hr; cbn [map WriteQueue.run] in Hr.
  - injection Hr as <-. exists H, p. split; [done|]. split; [done|]. done.
  - destruct (step C mem_usage options dbname (EvStep w) db) as [db1|] eqn:Es; [|done]. cbn [mbind option_bind] in Hr.
    destruct (thread_step_result (D := D) ins H p db w db1 Hi Hw Es) as [Hlt Hw1].
    destruct (step_inv C mem_usage options dbname seq0 False (fun _ => []) (False_ind _) D ins H p db (EvStep w) []) as (db1' & H' & p' & E & Hi1); [by rewrite app_nil_r|done|done|by eapply step_enabled|].
    rewrite Es in E. injection E as <-. rewrite !app_nil_r in Hi1. destruct (IH _ _ db1 Hi1 Hw1 Hr) as (H2 & p2 & K1 & K2 & K3).
    exists H2, p2. split; [done|]. split; [done|]. cbn [length]. lia.
Qed.

Lemma steps_exist {D} n ins H p db :
  inputs_ok seq0 ins -> inv D ins H p db -> waiting_ok db -> (total (threads db) <= n)%nat -> exists ws db', run (map EvStep ws) db = Some db' /\ stuck db'.
Proof.
  intros Hin. revert H p db. induction n as [|n IH]; intros H p db Hi Hw Hn; (destruct (stuck_or_not db) as [Hs|(w & Hs)]; [by exists [], db|]).
  all: destruct (step_inv C mem_usage options dbname seq0 False (fun _ => []) (False_ind _) D ins H p db (EvStep w) []) as (db1 & H' & p' & E & Hi1); [by rewrite app_nil_r|done|done|done|];
    destruct (thread_step_result (D := D) ins H p db w db1 Hi Hw E) as [Hlt Hw1]; try (exfalso; lia).
  rewrite !app_nil_r in Hi1. destruct (IH _ _ db1 Hi1 Hw1 ltac:(lia)) as (ws & db' & Hr & Hs'). exists (w :: ws), db'. split; [|done].
  cbn [map WriteQueue.run]. by rewrite E.
Qed.
End Progress.

(** C12: Writers make progress, in every state that the calls, the background
    thread and spurious wakeups can lead to.  Threads that go on by themselves do
    so for a bounded number of steps, 21 for each call at most, in whatever
    order; such a schedule exists; and when no thread can go on, no wakeup was
    lost: every call of [Write] has returned, or the first in the queue waits in
    [MakeRoomForWrite] for background work, without a background error and with
    an immutable memtable to write out or too many files at level 0. *)
Theorem writers_make_progress `{CS : Checksum} {W Ev : Type} {WF : WritableFile W} {LF : LogFiles Ev W}
    (C : Comparator) {L : ComparatorLaws C} (mem_usage : MemTable -> Z) (options : Options) (dbname : bytes) (seq0 : Z)
    (log : Writer W) (logfile next level0 : Z) (env : Ev) (es : list (Event (E := Ev))) (ins : list Input) (db : DBState (W := W) (E := Ev))
    (Hin : inputs_ok seq0 ins) (Hcalls : omap call es = map call_of ins)
    (Hrun : run C mem_usage options dbname es (initial seq0 MemTable_new None log logfile next level0 env) = Some db) :
  (forall ws db', run C mem_usage options dbname (map EvStep ws) db = Some db' ->
     (length ws <= 21 * length (threads db))%nat /\ (stuck db' -> settled db')) /\
  (exists ws db', run C mem_usage options dbname (map EvStep ws) db = Some db' /\ stuck db').
Proof.
  destruct (run_waiting_ok C mem_usage options dbname seq0 es _ [] [] [] 0 ins db Hin Hcalls
    (initial_inv C seq0 False (fun _ => []) [] _ _ log logfile next level0 env MemTable_new_repr eq_refl (fun m (E : None = Some m) => ltac:(discriminate E)) (False_ind _))) as (D & H & p & Hi & Hw).
  { by intros i t f d Ht. } { exact Hrun. }
  cbn [app] in Hi. split.
  - intros ws db' Hr. destruct (steps_run C mem_usage options dbname seq0 ws ins H p db db' Hin Hi Hw Hr) as (H' & p' & Hi' & Hw' & Hb).
    pose proof (total_bound (threads db)). split; [lia|]. by apply (stuck_settled (D := D) C seq0 ins H' p').
  - by apply (steps_exist (D := D) C mem_usage options dbname seq0 (total (threads db)) ins H p).
Qed.

#[local] Instance StringFiles : LogFiles unit bytes := {| NewWritableFile _ e := (inr [], e); CloseFile _ := OK |}.

(** Two calls meet a full memtable and an immutable one. *)
Definition full_events : list (Event (E := unit)) :=
  [EvWrite (Some (build [OpPut (cstr "a") (cstr "1")])) false; EvWrite (Some (build [OpPut (cstr "b") (cstr "2")])) false; EvSpurious 0].
Definition full_inputs : list Input := [(Some [OpPut (cstr "a") (cstr "1")], false); (Some [OpPut (cstr "b") (cstr "2")], false)].

Lemma writers_make_progress_witness :
  exists db, run BytewiseComparator (fun _ => 5000000) Options_default [] full_events (initial 7 MemTable_new None (Writer_new []) 3 4 0 tt) = Some db /\
    map w_pc (threads db) = [Resumed false true; Asleep] /\
    (forall ws db', run BytewiseComparator (fun _ => 5000000) Options_default [] (map EvStep ws) db = Some db' ->
      (length ws <= 21 * length (threads db))%nat /\ (stuck db' -> settled db')).
Proof.
  set (r := run _ _ _ _ _ _). assert (Hd : option_map (fun db => map w_pc (threads db)) r = Some [Resumed false true; Asleep]) by (vm_compute; reflexivity).
  destruct r as [db|] eqn:E; [|discriminate Hd]. exists db. split; [reflexivity|]. injection Hd as Hd. split; [exact Hd|].
  refine (proj1 (writers_make_progress BytewiseComparator (fun _ => 5000000) Options_default [] 7 (Writer_new []) 3 4 0 tt full_events full_inputs db _ eq_refl E)).
  unfold inputs_ok. split; [|split; [vm_compute; reflexivity|split; vm_compute; discriminate]].
  cbn [full_inputs map concat ops_of fst default app]. repeat (apply Forall_cons_2; [split; vm_compute; reflexivity|]). apply Forall_nil_2.
Defined.
