(* ===== verification/Durability.v ===== *)
(** * Writes survive a crash

    The write path (WriteQueue.v, WriteSafety.v) and the recovery of a log
    (LogRecovery.v) together: the groups that the write path wrote since the
    memtable was new are what [RecoverLogFile] finds in the log, as far as a crash
    leaves it. *)

From Stdlib Require Import Sorted.
From stdpp Require Import sorting gmap.
From S2P Require Import Prelude Coding Comparator Crc32c Bloom Status Iterator BlockBuilder Block Format FilterBlock.
From S2P Require Import IteratorWrapper TwoLevelIterator Options TableBuilder Table DbFormat SkipList MemTable UserView MemIter WriteBatch Filename.
From S2P Require Import VersionEdit Version VersionGet InternalTable TableCache BuildTable LogWriter LogReader LogReplay Compaction VersionBuilder VersionSet DBImpl Recovery LogRecovery.
From S2P Require Import MemoryFiles WriteQueue WriteSafety.

(** ** The groups of a history are batches in order *)

Definition group_in (last : Z) (g : Z * list Op) : Prop := g.1 + zlen g.2 <= last + 1.

Lemma batches_from_weaken lo lo' gs : lo' <= lo -> batches_from lo gs -> batches_from lo' gs.
Proof. destruct gs as [|[s ops] gs]; [done|]. intros Hlo (H1 & H2). split; [lia|done]. Qed.

Lemma batches_from_suffix A B lo : batches_from lo (A ++ B) -> batches_from lo B.
Proof.
  revert lo. induction A as [|[s ops] A IH]; intros lo; [done|]. cbn [app batches_from]. intros (H1 & _ & _ & _ & H2).
  apply IH in H2. pose proof (zlen_nonneg ops). eapply batches_from_weaken; [|exact H2]. lia.
Qed.

Lemma batches_from_snoc gs lo last ops :
  batches_from lo gs -> lo <= last + 1 -> (forall g, g ∈ gs -> group_in last g) -> last + 1 + zlen ops <= kMaxSequenceNumber + 1 -> zlen ops < 2 ^ 31 ->
  Forall op_fits ops -> batches_from lo (gs ++ [(last + 1, ops)]).
Proof.
  revert lo. induction gs as [|[s ops'] gs IH]; intros lo Hgs Hlo Hin H1 H2 H3; cbn [app batches_from].
  - do 4 (split; [done|]). done.
  - destruct Hgs as (G1 & G2 & G3 & G4 & G5). do 4 (split; [done|]). apply IH; [done| |intros g Hg; apply Hin; by right|done..].
    apply (Hin (s, ops')). by left.
Qed.

Section Groups.
Variable seq0 : Z.

Lemma history_batches ins H p last :
  history seq0 ins H p last -> inputs_ok seq0 ins ->
  batches_from (seq0 + 1) (applied ins H) /\ forall g, g ∈ applied ins H -> group_in last g.
Proof.
  intros Hh Hin. induction Hh as [|H p last k s Hh [IH1 IH2] Hk Hp Hb Hs|H p last s x Hh [IH1 IH2] Hx Hn].
  - split; [done|]. by intros g ?%elem_of_nil.
  - rewrite applied_snoc. unfold applied_ops. cbn [cm_written cm_status cm_seq cm_first cm_count andb].
    destruct (group_fits seq0 ins H p last k Hh Hin) as (G1 & G2 & G3 & G4). pose proof (zlen_nonneg (group_ops ins p k)).
    assert (Hmono : forall g, g ∈ applied ins H -> group_in (last + zlen (group_ops ins p k)) g) by (intros g Hg; apply IH2 in Hg; unfold group_in in *; lia).
    destruct (ok s); [|by rewrite app_nil_r]. split.
    + apply batches_from_snoc; try done; [|lia]. pose proof (history_bound _ _ _ _ _ Hh). lia.
    + intros g [Hg| ->%list_elem_of_singleton]%elem_of_app; [by apply Hmono|]. unfold group_in. cbn. lia.
  - rewrite applied_snoc. unfold applied_ops. cbn [cm_written andb]. by rewrite app_nil_r.
Qed.
End Groups.

Lemma pending_cases ins p last ts : pending ins p last ts = [] \/ exists n, pending ins p last ts = [(last + 1, group_ops ins p n)].
Proof. unfold pending. destruct (ts !! p) as [t|]; [|by left]. destruct (w_pc t); try by left. destruct status; [|by left]. right. by eexists. Qed.

Section Durable.
Context `{CS : Checksum} {W Ev : Type} {WF : WritableFile W} {LF : LogFiles Ev W}.
Context (C : Comparator) {L : ComparatorLaws C} (mem_usage : MemTable -> Z) (options : Options) (dbname : bytes) (seq0 : Z).
Context (wf_contents : W -> bytes) {WL : WritableFileLaws WF wf_contents}.
Context (Hnew : forall f e r e', NewWritableFile f e = (inr r : Status + W, e' : Ev) -> wf_contents r = []).

(** The log and the memtable after a run of the write path, with working files:
    the groups [A1] and [A2] went to memtables before. *)
Lemma run_logged log logfile next level0 env es ins db :
  inputs_ok seq0 ins -> omap call es = map call_of ins -> wf_contents (dest_ log) = [] -> log = Writer_new (dest_ log) ->
  run C mem_usage options dbname es (initial seq0 MemTable_new None log logfile next level0 env) = Some db ->
  exists H p A1 A2 A3 pend, history seq0 ins H p (LastSequence db) /\ applied ins H = A1 ++ A2 ++ A3 /\
    pend = pending ins p (LastSequence db) (threads db) /\
    (forall m, imm_ db = Some m -> mem_repr (C := C) m (entries_of A2)) /\
    mem_repr (C := C) (mem_ db) (entries_of (A3 ++ pend)) /\ logged wf_contents (log_ db) (map batch_record (A3 ++ pend)) /\
    batches_from (seq0 + 1) (A3 ++ pend).
Proof.
  intros Hin Hcalls Hlog Elog Hrun.
  destruct (run_inv C mem_usage options dbname seq0 True wf_contents (fun _ => conj WL Hnew) es _ [] [] [] 0 ins db Hin Hcalls
    (initial_inv C seq0 True wf_contents [] _ _ log logfile next level0 env MemTable_new_repr eq_refl (fun m (E : None = Some m) => ltac:(discriminate E))
      (fun _ => eq_ind_r (fun l => logged wf_contents l []) (logged_new wf_contents _ Hlog) Elog)) Hrun) as (H & p & Hi). cbn [app] in Hi.
  pose proof Hi as [I1 I2 I3 I4 I5 I6 I7 (As & A2 & A3 & EA & _ & Hm & Himm & Hseq & Hl)]. set (pend := pending ins p (LastSequence db) (threads db)) in *.
  exists H, p, (concat As), A2, A3, pend. split; [done|]. split; [done|].
  destruct (history_batches seq0 ins H p _ I1 Hin) as [Hb1 Hb2]. rewrite EA in Hb1, Hb2. rewrite app_assoc in Hb1. apply batches_from_suffix in Hb1.
  pose proof (pending_cases ins p (LastSequence db) (threads db)) as Hpend. fold pend in Hpend.
  split; [done|]. split; [by intros m Em; rewrite Em in Himm|]. split; [done|]. split; [by apply Hl|]. clearbody pend. destruct Hpend as [-> | [n ->]]; [by rewrite app_nil_r|].
  destruct (group_fits seq0 ins H p _ n I1 Hin) as (G1 & G2 & G3 & G4). pose proof (history_bound _ _ _ _ _ I1) as [_ Hlb].
  apply batches_from_snoc; [done|lia| |lia|done|done]. intros g Hg. apply Hb2. rewrite !elem_of_app. by right; right.
Qed.
End Durable.

(** ** The theorem *)

Section Crash.
Context `{CS : Checksum} {E F RA W KC H K : Type} {SF : SequentialFile F} {R : RandomAccessFile RA} {WF : WritableFile W}.
Context {LF : LogFiles E W} {NS : SequentialFiles E F} {AF : AppendableFiles E W} {EF : EnvFiles E} {EFL : EnvFilesLaws E}.
Context {RF : RandomAccessFiles E RA} {TF : TableFiles E W}.
Context (raf_contents : RA -> bytes) {RL : RandomAccessFileLaws R raf_contents} (wf_contents : W -> bytes) {WL : WritableFileLaws WF wf_contents}.
Context (seq_rest : F -> bytes) {SQ : SequentialFileLaws SF seq_rest} {FS : FileSystem RF LF TF EF raf_contents wf_contents}.
Context {CO : CacheOps KC H (Table RA) TableDeleter} (c_ok : nat -> (bytes -> Table RA -> Prop) -> list H -> KC -> Prop) {CL : CacheLaws CO c_ok}.
Context {BC : BlockCache K} (bc_holds : K -> bytes -> Block -> Prop) {BL : BlockCacheLaws BC bc_holds} (bc_next : K -> Z) {BI : BlockCacheIds BC bc_next}.
Context (Snappy Zstd : Compressor) {SL : CompressorLaws Snappy} {ZL : CompressorLaws Zstd}.
Context (U : Comparator) {UL : ComparatorLaws U} (o : Options) (dbname : bytes) (mem_usage : MemTable -> Z).
Notation DB := (DBImpl E W KC K).
Notation ready := (cache_ready (raf_contents := raf_contents) (c_ok := c_ok) (bc_holds := bc_holds) (bc_next := bc_next) Snappy Zstd (U := U) (o := o)).

(** The options of a database; files opened for appending stay as they are. *)
Record recovery_setting : Prop := {
  rs_comparator : comparator o = InternalKeyComparator U;
  rs_interval : 1 <= block_restart_interval o;
  rs_filter : forall name P, filter_policy o = Some (name, P) ->
    exists P0, P = InternalFilterPolicy P0 /\ FilterPolicyLaws P0 /\ zlen name < 2 ^ 31 /\ forall a b, Compare (Comparator := U) a b = Eq -> a = b;
  rs_appends : appends (E := E) (W := W);
  rs_new : forall f e r e', NewWritableFile f e = (inr r : Status + W, e' : E) -> wf_contents r = [];
}.

(** A database that is recovered after a crash that left [m] bytes of the log [w],
    which has the batches [gs]: it is fresh, its tables are smaller than 4 GiB, and
    there are file numbers left. *)
Record crash_site (gs : list (Z * list Op)) (w : Writer W) (m fuel : nat) (log_number : Z) (last_log : bool) (db0 : DB) (sst0 : Z -> option TableImage) (b : nat) : Prop := {
  cs_size : zlen (wf_contents (dest_ w)) < 2 ^ 64;
  cs_log : readable seq_rest (db_env db0) (LogFileName dbname log_number) (take m (wf_contents (dest_ w)));
  cs_fuel : (length gs < fuel)%nat /\ (length (wf_contents (dest_ w)) < fuel)%nat;
  cs_numbers : 0 <= vs_next_file_number (db_versions db0) /\ vs_next_file_number (db_versions db0) + zlen gs < 2 ^ 64 - 1;
  cs_fresh : forall n, vs_next_file_number (db_versions db0) <= n -> sst0 n = None /\ n ∉ pending_outputs_ db0;
  cs_ready : ready sst0 b (table_cache_ db0) /\ (length gs < b)%nat;
  cs_fits : forall pre seg post, gs = pre ++ seg ++ post -> segment_fits (U := U) (o := o) (wf_contents := wf_contents) Snappy Zstd seg;
  cs_empty : reuse_logs o = true -> last_log = true -> db_log db0 = None /\ db_mem db0 = None;
}.

(** C4: Acknowledged writes survive a crash.  After any run of the write path on
    working files, the log holds the groups whose entries are in the memtable, in
    the order of their commits.  When a crash leaves some first part of the log,
    [RecoverLogFile] returns OK and brings back a first part of these groups, in
    order, with all those whose records are within what is left (so everything up
    to the last [Sync]): they are in tables that the edit adds to level 0, each a
    readable file with the entries of consecutive groups, or, when the log is
    reused, in the new memtable; the last sequence number is theirs. *)
Theorem acknowledged_writes_recovered (seq0 : Z) (log : W) (logfile next level0 : Z) (env : E) (es : list (Event (E := E))) (ins : list Input) (db : DBState (W := W) (E := E))
    (Hs : recovery_setting) (Hin : inputs_ok seq0 ins) (Hcalls : omap call es = map call_of ins) (Hlog : wf_contents log = [])
    (Hrun : run U mem_usage o dbname es (initial seq0 MemTable_new None (Writer_new log) logfile next level0 env) = Some db) :
  exists h p A1 A2 A3 pend, history seq0 ins h p (LastSequence db) /\ applied ins h = A1 ++ A2 ++ A3 /\
    pend = pending ins p (LastSequence db) (threads db) /\ (pend = [] \/ exists n, pend = [(LastSequence db + 1, group_ops ins p n)]) /\
    mem_repr (C := U) (mem_ db) (entries_of (A3 ++ pend)) /\
    forall m fuel log_number last_log edit0 max0 save0 db0 sst0 b,
      crash_site (A3 ++ pend) (log_ db) m fuel log_number last_log db0 sst0 b ->
      exists k result, (k <= length (A3 ++ pend))%nat /\
        (forall w1 j, logged wf_contents w1 (map batch_record (take j (A3 ++ pend))) -> (length (wf_contents (dest_ w1)) <= m)%nat ->
           (j <= k \/ length (A3 ++ pend) <= k)%nat) /\
        RecoverLogFile Snappy Zstd U dbname o mem_usage fuel log_number last_log save0 edit0 max0 db0 = Some result /\
        log_recovered (raf_contents := raf_contents) (c_ok := c_ok) (bc_holds := bc_holds) (bc_next := bc_next) (U := U) (o := o) Snappy Zstd dbname
          edit0 max0 save0 db0 sst0 b log_number last_log (take k (A3 ++ pend)) result.
Proof.
  destruct Hs as [S1 S2 S3 S4 S5].
  destruct (run_logged U mem_usage o dbname seq0 wf_contents S5 (Writer_new log) logfile next level0 env es ins db Hin Hcalls Hlog eq_refl Hrun)
    as (h & p & A1 & A2 & A3 & pend & K1 & K2 & K3 & _ & K5 & K6 & K7).
  exists h, p, A1, A2, A3, pend. do 3 (split; [done|]). split; [rewrite K3; apply pending_cases|]. split; [done|]. intros m fuel log_number last_log edit0 max0 save0 db0 sst0 b [C1 C2 [C3 C4] [C5 C6] C7 [C8 C9] C10 C11].
  destruct Hin as (_ & _ & H0 & _).
  exact (RecoverLogFile_spec Snappy Zstd dbname mem_usage S1 S2 S3 seq_rest edit0 max0 save0 db0 sst0 b (seq0 + 1) (A3 ++ pend) (log_ db) m fuel log_number last_log
    K6 ltac:(lia) K7 C1 C2 C3 C4 C5 C6 C7 C8 C9 C10 S4 C11).
Qed.
End Crash.

(** ** A run *)

(** One write that asks for a sync. *)
Definition synced_ops : list Op := [OpPut (cstr "a") (cstr "1")].
Definition synced_input : list Input := [(Some synced_ops, true)].
Definition synced_events : list (Event (E := MemoryEnv)) := [EvWrite (Some (build synced_ops)) true; EvStep 0; EvStep 0].

Definition memory_options : Options :=
  mkOptions (InternalKeyComparator BytewiseComparator) false false false 4194304 1000 4096 16 2097152 kNoCompression false None.

Lemma history_zero seq0 ins h last : history seq0 ins h 0 last -> h = [] /\ last = seq0.
Proof. inversion 1; subst; [done|lia|lia]. Qed.

(** Its history. *)
Lemma synced_history h p : history 7 synced_input h p 8 -> p = 1%nat /\ (applied synced_input h = [] \/ applied synced_input h = [(8, synced_ops)]).
Proof.
  inversion 1 as [|h0 p0 last k s Hh Hk Hp Hb Hs Eh Ep El|h0 p0 last s x Hh Hx Hn Eh Ep El]; subst.
  - assert (p0 = 0%nat /\ k = 1%nat) as [-> ->] by (cbn in Hp; lia).
    assert (Hnil : h0 = [] /\ last = 7).
    { by apply (history_zero 7 synced_input). }
    destruct Hnil as [-> ->]. split; [done|]. clear. destruct s as [|code msg]; [right|left]; reflexivity.
  - apply lookup_lt_Some in Hx as Hlt. cbn in Hlt. assert (p0 = 0%nat) as -> by lia.
    apply history_zero in Hh as [_ ?]. lia.
Qed.

(** The table of that entry is small. *)
Lemma synced_fits seg :
  entries_of seg = [] \/ entries_of seg = entries_of [(8, synced_ops)] ->
  segment_fits (U := BytewiseComparator) (o := memory_options) (wf_contents := id) StoreCompressor StoreCompressor seg.
Proof.
  intros Hseg es Hp _ Hne. destruct Hseg as [E|E]; rewrite E in Hp; [by apply Permutation_nil_r in Hp|].
  cbn [entries_of fold_left batch_entries synced_ops op_entry] in Hp. apply Permutation_singleton_r in Hp as ->. split; [by vm_compute|].
  intros w r r' Hw Ha Hf. unfold id in Hw. subst w.
  assert (Hsz : option_map FileSize (r ← add_entries StoreCompressor StoreCompressor (TableBuilder_new memory_options []) (map entry_kv [op_entry 8 (OpPut (cstr "a") (cstr "1"))]);
    snd <$> Finish StoreCompressor StoreCompressor r) = Some 114) by (vm_compute; reflexivity).
  cbn [op_entry] in Hsz. rewrite Ha in Hsz. cbn [mbind option_bind] in Hsz. rewrite Hf in Hsz. cbn in Hsz. by injection Hsz as ->.
Qed.

Lemma memory_setting : recovery_setting (E := MemoryEnv) id BytewiseComparator memory_options.
Proof. split; [reflexivity|discriminate|discriminate|by intros f e r e' [= _ <-]|by intros f e r e' [= <- _]]. Qed.

(** Up to here the log has one batch; then it is cut at the end. *)
Definition recovering_db (log : bytes) : DBImpl MemoryEnv bytes (list (bytes * Table bytes)) (Z * list (bytes * Block)) :=
  mkDBImpl (mkVersionSet (store (LogFileName (cstr "db") 3) log (fun _ => None)) 5 4 7 3 0 None [] None 0 (mkObjects [] 0 ∅))
    [] (Some (0, [])) ∅ None None None 0 Shared_new.

Lemma acknowledged_writes_recovered_witness :
  exists db k result, run BytewiseComparator (fun _ => 0) memory_options (cstr "db") synced_events
      (initial 7 MemTable_new None (Writer_new []) 3 4 0 (fun _ => None)) = Some db /\
    w_pc <$> threads db !! 0%nat = Some (Returned OK) /\
    RecoverLogFile (CO := ListCache) (BC := ListBlocks) StoreCompressor StoreCompressor BytewiseComparator (cstr "db") memory_options (fun _ => 0)
      100 3 true false Clear 0 (recovering_db (dest_ (log_ db))) = Some result /\
    log_recovered (raf_contents := id) (c_ok := list_cache_ok) (bc_holds := list_blocks_hold) (bc_next := fst) (U := BytewiseComparator) (o := memory_options)
      StoreCompressor StoreCompressor (cstr "db") Clear 0 false (recovering_db (dest_ (log_ db))) (fun _ => None) 5 3 true (take k [(8, synced_ops)]) result.
Proof.
  set (r := run _ _ _ _ _ _).
  assert (Hr : option_map (fun db => (LastSequence db, w_pc <$> threads db, length (dest_ (log_ db)))) r = Some (8, [Returned OK], 24%nat)) by (vm_compute; reflexivity).
  destruct r as [db|] eqn:Er; [|discriminate Hr]. cbn in Hr. injection Hr as Hl Hpc Hlen. exists db.
  assert (Ht : w_pc <$> threads db !! 0%nat = Some (Returned OK) /\ threads db !! 1%nat = None).
  { destruct (threads db) as [|t [|t' ts]]; [discriminate Hpc| |discriminate Hpc]. injection Hpc as Hpc. cbn. by rewrite Hpc. }
  destruct Ht as [Ht Hn1].
  destruct (acknowledged_writes_recovered (CO := ListCache) (CL := ListCache_laws) (BC := ListBlocks) (BL := ListBlocks_laws) (BI := ListBlocks_ids)
    (SL := StoreCompressor_laws) (ZL := StoreCompressor_laws) id id id list_cache_ok list_blocks_hold fst StoreCompressor StoreCompressor
    BytewiseComparator memory_options (cstr "db") (fun _ => 0) 7 [] 3 4 0 (fun _ => None) synced_events synced_input db)
    as (h & p & A1 & A2 & A3 & pend & K1 & K2 & K3 & _ & _ & Hrec).
  - exact memory_setting.
  - unfold inputs_ok. split; [|split; [vm_compute; reflexivity|split; vm_compute; discriminate]].
    cbn [synced_input synced_ops map concat ops_of fst default app]. repeat (apply Forall_cons_2; [split; vm_compute; reflexivity|]). apply Forall_nil_2.
  - reflexivity.
  - reflexivity.
  - exact Er.
  - rewrite Hl in K1, K3. apply synced_history in K1 as [-> Ha]. unfold pending in K3. rewrite Hn1 in K3. subst pend. rewrite app_nil_r in Hrec.
    assert (HA : A3 = [] \/ A3 = [(8, synced_ops)]).
    { rewrite K2 in Ha. destruct Ha as [Ha|Ha]; [left; by apply app_eq_nil in Ha as [_ [_ ->]%app_eq_nil]|].
      destruct A3 as [|g A3 _] using rev_ind; [by left|]. right. rewrite !app_assoc in Ha. apply (app_inj_tail _ []) in Ha as [Ha ->].
      by apply app_eq_nil in Ha as [_ ->]. }
    assert (Hsite : crash_site id id id list_cache_ok list_blocks_hold fst StoreCompressor StoreCompressor BytewiseComparator memory_options (cstr "db")
      A3 (log_ db) 100 100 3 true (recovering_db (dest_ (log_ db))) (fun _ => None) 5).
    { assert (Hlen3 : (length A3 <= 1)%nat) by (destruct HA as [-> | ->]; cbn; lia). split.
      - unfold zlen, id. rewrite Hlen. reflexivity.
      - exists (dest_ (log_ db)). split; [reflexivity|]. unfold id. by rewrite take_ge by lia.
      - unfold id. lia.
      - cbn. unfold zlen. lia.
      - intros n _. split; [done|apply not_elem_of_empty].
      - split; [|lia]. by apply memory_ready.
      - intros pre seg post Ep. apply synced_fits. destruct HA as [-> | ->].
        + symmetry in Ep. apply app_eq_nil in Ep as [_ [-> _]%app_eq_nil]. by left.
        + destruct pre as [|x pre]; [|injection Ep as _ Ep; symmetry in Ep; apply app_eq_nil in Ep as [_ [-> _]%app_eq_nil]; by left].
          destruct seg as [|x seg]; [by left|]. injection Ep as -> Ep. symmetry in Ep. apply app_eq_nil in Ep as [-> _]. by right.
      - done. }
    destruct (Hrec 100%nat 100%nat 3 true Clear 0 false _ _ 5%nat Hsite) as (k & result & _ & _ & E1 & E2).
    destruct HA as [-> | ->].
    + exists 0%nat, result. split; [reflexivity|]. split; [exact Ht|]. split; [exact E1|]. by rewrite take_nil in E2.
    + exists k, result. split; [reflexivity|]. split; [exact Ht|]. split; [exact E1|exact E2].
Defined.
